(* ===== verification/_CoqProject ===== *)
-Q . S2P
Prelude.v
RustString.v
RustText.v
Json.v
Types.v
Executor.v
ExecutorFacts.v
ExecutorSpec.v
Loader.v
LoaderFacts.v
Jobs.v
JobsFacts.v
Capability.v
Manifest.v
Lifecycle.v
EventBus.v
Crypto.v
Schema.v
Storage.v
StorageContext.v
StorageContextFacts.v
SystemSteps.v
Engine.v
Conflict.v
Federation.v
FederationFacts.v
Household.v
PluginRuntime.v
HostFunctions.v
Migration.v
MigrationRun.v
SchemaVersioning.v
Auth.v
Sessions.v
SessionsFacts.v
SqliteDoc.v
SqliteQueryFacts.v
SqliteDocFacts.v
SqliteStore.v
BlobFs.v
CanonicalSchemas.v
SqliteBackend.v
SqliteBackendFacts.v
SqliteVaultFacts.v
ApiKeys.v
ApiKeysFacts.v
Config.v
ConfigFacts.v
StartupConfig.v
Dav.v
Contacts.v
DavFacts.v
ContactsFacts.v
Calendar.v
CalendarFacts.v
Backup.v
Search.v
Vault.v
IdentityFacts.v
LegacyStore.v
LegacyFacts.v
LegacyRefines.v
DataApi.v
Rest.v
PluginLoading.v
PluginLoadingFacts.v
AuthRoutes.v
AuthRoutesFacts.v
Cdm.v
Graphql.v
GraphqlFacts.v
WasmBridge.v
Webhooks.v
WebhooksFacts.v
Google.v
GoogleFacts.v
DavTransport.v
SqliteTools.v
CoreServices.v
Connectors.v
