(* ===== verification/Prelude.v ===== *)
(** * Life Engine Core: a verification development

    Life Engine Core is a self-hosted personal data hub. YAML workflows chain plugin
    actions into pipelines; requests, events and a scheduler start them; plugins reach
    their data only through a storage context that enforces capabilities; hubs
    synchronise with each other, and several users share a hub as a household. This
    library models those parts of the Rust code as executable Gallina definitions and
    proves what makes each of them correct. Requests are authenticated before they
    reach a handler, documents and blobs end in SQLite and in files, and stored records
    are migrated when schemas change.

    ** Parts, files and sources (paths under src/)

    A component's file has its data and operations first and its theorems after them, or
    in the file of the same name with [Facts].

    Foundations.
    - [Prelude]: Rust's [Result] with the [?] operator ([let?]), fallible loops, the
      hint database [engine], the tactics [case_results], [inv_ok], [bool_to_prop] and
      list lemmas.
    - [RustString]: the [str] operations the code uses (split, strip_prefix,
      is_char_boundary, slicing, to_uppercase, parse) over byte strings, with lemmas.
    - [Json]: serde_json values. Objects are key-sorted association lists, as [Map] is
      without the preserve_order feature; [obj_equiv] is equality of entries, with
      [Proper] instances, and coincides with equality on sorted objects. Texts of
      values are the class [JsonText]; the round trip [JsonTextLaws] is for the values
      serde_json reads back ([json_printable]): key-sorted, nested at most 127 deep, the
      depth its parser accepts, and with floats that are read back as they are printed.
      An instance codes values as numbers.

    Workflow engine (packages/workflow-engine/src, packages/types/src/pipeline.rs).
    - [Types]: messages, workflow definitions, triggers, errors. JSON-schema validation
      is the class [JsonLib]; [JsonLibLaws] states what is used of it, for the schema
      {"type": "object"} only; [type_keyword_lib] is an instance.
    - [Executor], [ExecutorFacts], [ExecutorSpec] (executor.rs): running steps in a
      monad of state, errors and panics whose state records plugin calls, sleeps, step
      and execution logs. Plugins and clock are the class [PluginExecutor].
      [ExecutorSpec] has the reference semantics and the refinement.
    - [Jobs], [JobsFacts] (executor.rs): the job registry, the semaphore, background
      tasks and cleanup; [step] and [step_spawn] are the interleavings, [reached] the runs
      in which jobs are spawned at any time.
    - [Loader], [LoaderFacts] (loader.rs, triggers/mod.rs): loading a directory, the
      trigger registry, trigger validation.
    - [Engine] (lib.rs): the engine that composes loader, registry and executor.
    - [EventBus] (event_bus.rs, scheduler.rs, plugin-system host_functions/events.rs):
      events, depth limit, scheduled ticks with the overlap guard.
    - [SystemSteps] (system_steps.rs): the built-in storage plugin and the composite
      executor, an instance of [PluginExecutor] over the storage context, so that the
      executor's theorems apply to workflows that store documents.

    Plugins (packages/plugin-system/src, packages/traits/src/capability.rs).
    - [Capability]: capability texts, approval and checks.
    - [Manifest]: the manifest parser and the collect-all validator.
    - [Lifecycle]: plugin states, the manager, starting and stopping all plugins.
    - [PluginRuntime] (execute.rs): the bridge from steps to loaded plugins, the
      instance of [PluginExecutor] the system runs with; the WASM call is the class
      [WasmRuntime].
    - [HostFunctions] (host_functions/, injection.rs): what a
      plugin in the sandbox can ask of the host. Backends and the network are the
      class [HostBackends]; every call that leaves the sandbox is recorded.
    - [PluginLoading], [PluginLoadingFacts] (loader.rs, discovery.rs, runtime.rs and
      apps/core/src: plugin_signing.rs, plugin_loader.rs, credential_bridge.rs): loading
      directories of WASM plugins, signatures and revocation, native plugins.
    - [WasmBridge] (apps/core/src/wasm_runtime.rs): the older bridge of
      WASM plugins over the legacy storage, with its rate limit and the redirects its
      HTTP client follows.

    Storage (packages/traits/src, packages/crypto/src).
    - [Crypto]: encryption of credential claims; ciphers, key derivation and encodings
      are the class [CryptoLib] with round-trip laws [CryptoLaws].
    - [Schema] (schema.rs, workflow-engine schema_registry.rs): the schema registries and
      [validate_write].
    - [Storage] (storage.rs, blob.rs, storage_router.rs): queries, blob keys, adapters
      (class [Adapters]) and the router with its timeouts. An operation is a function
      of the store, which records adapter calls and audit events.
    - [StorageContext], [StorageContextFacts] (storage_context.rs): the enforcement
      layer between callers and the router.
    - [SchemaVersioning] (schema_versioning.rs,
      index_hints.rs): compatibility of schema versions, deprecations, index hints.
    - [SqliteDoc], [SqliteQueryFacts], [SqliteDocFacts] (packages/storage-sqlite/src:
      document.rs, schema.rs): the document adapter on the rows of its table, filters
      as parameterised SQL, pages. SQLite itself is the class [Sqlite] with the laws
      [SqliteLaws], which say of the order of rows only that it agrees with the sort keys,
      and may differ between statements ([page_of]); [sqlite_adapters] is the instance of [Adapters] that
      [SqliteStore] composes with the storage context.
    - [BlobFs] (packages/storage-sqlite/src/blob_fs.rs): blobs as files
      with sidecars, the faults of every file operation included.

    - [CanonicalSchemas], [SqliteBackend], [SqliteBackendFacts], [SqliteVaultFacts]
      (packages/storage-sqlite/src: backend.rs, validation.rs, credentials.rs, audit.rs,
      error.rs, lib.rs; .odm/doc/schemas): the storage backend behind the plugin host,
      its validation and sealed credentials, the audit log, key rotation.
    - [SqliteTools] (export.rs, health.rs, encryption.rs, migration/executor.rs): exports,
      health, keys from passphrases and the indexes of collections.

    Migrations (packages/workflow-engine/src/migration, apps/core/src).
    - [Migration] (manifest.rs, validate.rs): migration manifests.
    - [MigrationRun] (engine.rs, runner.rs, the quarantine, log and
      version tables of packages/storage-sqlite/src/migration, canonical_migrations.rs):
      running transforms over stored records, start-up of the canonical collections.

    Authentication (packages/auth/src, apps/core/src/auth/middleware.rs).
    - [Auth] (handlers/rate_limit.rs, handlers/validate.rs): the limiter,
      [validate_request] over the class [AuthProvider], the Pocket ID provider.
    - [Sessions], [SessionsFacts] (legacy/): local tokens and their database, OIDC
      tokens, passkey ceremonies, the providers in turn, the middleware. Times in the
      database are RFC 3339 texts, read back for the years 0 to 9999 ([ChronoLaws]).

    - [ApiKeys], [ApiKeysFacts] (handlers/keys.rs, types.rs, packages/crypto hmac.rs):
      API keys kept through a storage backend, the class [StorageBackend].
    - [AuthRoutes], [AuthRoutesFacts] (apps/core/src/auth/routes.rs, legacy/oidc.rs): the
      routes for tokens, OIDC and passkeys, behind the middleware of [Sessions].

    Requests (packages/transport-rest/src, apps/core/src/routes/graphql.rs).
    - [Rest]: listener configuration, merged routes, the router, the
      authentication middleware, cross-origin rules and workflow requests.
    - [Cdm] (packages/types/src): the canonical records and their JSON form.
    - [Graphql], [GraphqlFacts]: objects, queries, mutations and subscriptions of the
      GraphQL interface over [LegacyStore] and the bus.

    Configuration (apps/core/src: config.rs, routes/system.rs).
    - [Config], [ConfigFacts]: the settings, their sources, validation, JSON form and
      the configuration routes.
    - [StartupConfig]: the TOML configuration of the start-up.

    Synchronisation and users (apps/core/src).
    - [Conflict] (conflict.rs, routes/conflicts.rs): conflict detection, merging, the
      store and its routes.
    - [CoreServices] (event_bridge.rs, audit.rs, connector.rs, storage_migration.rs,
      routes/connectors.rs, routes/federation.rs): forwarding between the two buses, audit
      entries of bus events, delays of connectors, the copy from SQLite to PostgreSQL, and
      the routes that start a synchronisation and serve peers.
    - [Federation], [FederationFacts] (sync_primitives.rs, federation.rs,
      routes/federation.rs, and the legacy SQLite adapter they write to).
    - [Household] (household.rs, routes/household.rs): households, invites, record
      access and the handlers.

    Records, search and vaults (apps/core/src, packages/storage-sqlite/src/legacy.rs).
    - [LegacyStore], [LegacyFacts], [LegacyRefines] (legacy.rs, traits legacy_storage.rs):
      the storage behind the record routes, over the rows of its tables, with queries
      as SQL text. SQLite is the class [LegacySql]; every statement can fail.
    - [DataApi] (routes/data.rs, schema_registry.rs, routes/quarantine.rs): the record
      routes with their bus events, the schema registry of the core and the quarantine
      for records that it rejects.
    - [Search] (search.rs, search_processor.rs, routes/search.rs): the index
      over the class [Tantivy] and the processor that follows the bus.
    - [Vault], [IdentityFacts] (credential_store.rs, identity.rs and their
      routes): sealed plugin credentials, identity credentials and disclosure tokens.

    Contacts, calendars and backups (packages/dav-utils, packages/types, plugins/engine).
    - [RustText]: lines, trimming, char-wise text operations and UTF-8 validity.
    - [Dav], [DavFacts]: text folding and escaping, ETags, WebDAV XML.
    - [Contacts], [ContactsFacts]: contacts, vCards, the CardDAV server and connector.
    - [Calendar], [CalendarFacts]: events, recurrence rules, iCalendar texts, CalDAV.
    - [DavTransport] (packages/transport-caldav, packages/transport-carddav): the handlers
      of both transports as instances of one dialect.
    - [Backup]: archives, manifests, restoring, retention, schedules and
      the local target; targets are the class [BackupBackend].
    - [Google], [GoogleFacts] (google.rs of the calendar and contacts connectors): tokens,
      rate limits, paged and incremental synchronisation, conversion of events and persons.
    - [Connectors] (plugins/engine/connector-filesystem, connector-email): scanning and
      watching directories, messages as records, which messages are fetched, sending.

    Webhooks (packages/plugin-sdk-rs retry.rs, plugins/engine/webhook-sender and
    webhook-receiver, packages/transport-webhook).
    - [Webhooks], [WebhooksFacts]: retry states with their backoff, the sender with its
      log and token buckets, the receiver and the inbound transport.

    ** What the theorems show

    - Executor: with at most 64 retries and payloads whose summary ends at a character,
      the executor computes the reference fold over the steps whatever the clock and the
      logs, without a panic; it always finishes, within a bound on calls and delays; the
      retry schedule; what each error severity and strategy does; exactly one log per
      run; validation at the edges.
    - Jobs: over all interleavings, the concurrency limit holds, ended jobs do not
      change, and a job in progress that was not started by [spawn] has a task that
      will end it.
    - Loader, registry, engine: loading accepts exactly the well-formed directories;
      lookups are exact; a declared endpoint is served by its workflow.
    - Storage context: without the capability nothing happens; a plugin's calls stay in
      its own and its declared collections; auditing is exact; scoped collections of
      different plugins are disjoint; documents are read back as they were written, and
      credentials as well unless they carry a marker of their own; accepted writes satisfy
      the schema rules.
    - Plugins: approval grants exactly what is declared and allowed; the two manifest
      checks agree; plugin states only move forward; a run touches only running
      plugins, through declared actions; what leaves the sandbox is permitted and
      carries the plugin's own id.
    - Synchronisation: the field merge is a three-way merge, independent of key order
      and of the side that computes it; applying a change affects one row; a sync stays
      in its namespace, reports what it did and settles.
    - Households: record access is exactly the documented rule in every reachable
      store, and an invite is used once.
    - SQLite and files: the table behaves as a map from ids to documents, operation by
      operation; batches are all or nothing; a merge patch is RFC 7386; following
      cursors ends, and returns exactly the matching documents if the sort keys tell them
      apart; a stored blob is read back and
      others are left alone. A document created through the storage context over
      SQLite is read back with its fields.
    - Storage backend: queries are exact and writes isolated; of updates from one version
      one succeeds; key rotation keeps every credential; updates keep extensions.
    - Tools and services: exports hold every record once and mailboxes split at their
      messages; a changed passphrase opens the file; index migrations are idempotent; the
      copy to PostgreSQL is complete; the audit log follows the bus; reported file changes
      are real; incremental mail synchronisation misses nothing.
    - API keys: the handlers implement a registry of keys; a revoked key is refused for
      good, a new one valid until it expires.
    - Configuration: what is loaded is sound, sources have their precedence, merging and
      overrides change what they name and nothing else, the configuration in use stays
      valid, redaction hides what it is told to hide.
    - Schema versions and migrations: the compatibility check decides the additive
      order; accepted manifests are deterministic chains; a run is a function of each
      row and stops between entries; start-up never moves a version back.
    - Authentication: guesses per address and window are bounded; what the limiters
      answer is exact; tokens are accepted from issue to expiry unless revoked, also
      across restarts; a challenge is used once; who reaches a handler; passkeys change
      only through their own user.
    - Requests: workflow requests carry an accepted identity unless their route is public;
      merged routes are served as declared; GraphQL shows canonical records as they are,
      its mutations do what the record routes do for a caller without an identity, and
      its streams stay within their limit.
    - Loading: a signature binds module and manifest; a directory loads as the sum of its
      plugins, in any listing order; native plugins fail independently. The older bridge
      confines a plugin to its rows, its event notices and, redirects apart, its domains, and lets
      at most two limits of calls through in any second.
    - Webhooks: what the inbound transport accepts is authentic and no key is accepted twice
      while it is remembered; what the sender posts is accepted; handling an event ends;
      the sender's vectors are one list of subscriptions with their failures.
    - DAV transports: what a listing names is fetched by reports and GET, ETags guard
      writes; forwarding between the buses keeps notices about plugins going for ever.
    - Google: a synchronisation returns what all pages list and keeps the last token; a
      failed one leaves no new token; events keep their main fields there and back.
    - Behaviours that differ from what the code means to do are theorems as well: a
      panic on a failing step with a multi-byte character at byte 200, a job left in
      progress by [spawn], plaintext claims stored under an encrypted marker, older
      updates that overwrite newer ones, admins who change roles in other households,
      pages without a sort order that repeat documents, deletes that pass as writes,
      redirects out of the allowed domains, passkey logins that set a passphrase nobody knows,
      a failed overwrite that loses a blob, and others that are stated where they arise.

    ** Conventions, bounds and fuel

    Generated ids, clock readings, nonces and the answers of remote peers are
    arguments, so every operation is a function. Timestamps are integers (nanoseconds),
    u64 shifts and the backoff are kept at 64 bits with the behaviour of builds with
    and without overflow checks; sizes that only count are [nat]. Recursion is on lists,
    on JSON values and filters, or on the number of retries left; a step's branches are
    a nested list, and [step_nested_ind] is their induction principle. Fuel occurs in
    seven places: nested schemas are compared with the depth of the old schema, where
    each level takes one (more changes nothing, [compare_fuel]); a suffix is
    trimmed, and the fields of an index are read, with the length of the text
    ([fields_fuel]); pages are followed as often as
    [pages_complete] says is enough; attempts of a webhook have one more than the
    configured retries ([event_delivery_ends]); requests to Google have one attempt and
    three retries ([send_loop_total]), their pages one unit each ([calendar_sync_complete]);
    and batches copied to PostgreSQL have one more than the records ([copy_complete]).
    Looking for changed files has no bound in the code, and there are links for which no
    fuel is enough ([links_followed_forever]). A panic is a value, so "does not panic" is
    a statement.

    ** Not modelled

    YAML, TOML, semver and cron parsers, JSON-schema validation, ciphers, hashes, JWT
    and WebAuthn crates, the SQLite engine and plugins are parameters. Left out:
    tracing output, executing WASM modules and GraphQL documents, HTTP serving, the wiring
    and shutdown of the core application, the PostgreSQL backend (the same operations as
    [LegacyStore] over another engine), the GraphQL transport around the workflow engine,
    the channel behind the message bus, sessions with mail servers and object stores, remote
    backup targets, plugin entry points, reading certificates, and
    the admin UI. *)

From stdpp Require Import base tactics list gmap sets strings pretty.
From Stdlib Require Import ZArith Lia Sorting.Sorted.

(** ** Rust's [Result]

    Fallible Rust functions return [result A E]; [let?] is the [?] operator. *)

Inductive result (A E : Type) : Type :=
| Ok (a : A)
| Err (e : E).
Arguments Ok {A E} a.
Arguments Err {A E} e.

Definition result_bind {A B E} (r : result A E) (k : A → result B E) : result B E :=
  match r with
  | Ok a => k a
  | Err e => Err e
  end.

Definition result_map_err {A E F} (f : E → F) (r : result A E) : result A F :=
  match r with
  | Ok a => Ok a
  | Err e => Err (f e)
  end.

Definition ok_or {A E} (o : option A) (e : E) : result A E :=
  match o with
  | Some a => Ok a
  | None => Err e
  end.

Definition result_ok {A E} (r : result A E) : option A :=
  match r with
  | Ok a => Some a
  | Err _ => None
  end.

Definition is_ok {A E} (r : result A E) : bool :=
  match r with
  | Ok _ => true
  | Err _ => false
  end.

Declare Scope rust_scope.
Delimit Scope rust_scope with rust.
Open Scope rust_scope.

Notation "'let?' x ':=' c 'in' k" := (result_bind c (λ x, k))
  (at level 10, x name, c at level 100, k at level 200,
   format "'[v' 'let?'  x  ':='  c  'in' '/' k ']'") : rust_scope.
Notation "'let?' ' p ':=' c 'in' k" := (result_bind c (λ x, match x with p => k end))
  (at level 10, p pattern, c at level 100, k at level 200) : rust_scope.
Notation "c ';?' k" := (result_bind c (λ _, k))
  (at level 199, right associativity) : rust_scope.

#[export] Instance result_eq_dec {A E} `{EqDecision A, EqDecision E} :
  EqDecision (result A E).
Proof. solve_decision. Defined.

(** The loop [for x in xs { f(x)?; }]. *)
Fixpoint for_each {A E} (f : A → result unit E) (xs : list A) : result unit E :=
  match xs with
  | [] => Ok tt
  | x :: xs' => f x ;? for_each f xs'
  end.

(** The same loop with [enumerate()], from index [i]. *)
Section Enumerate.
Context {A E : Type} (f : nat → A → result unit E).

Fixpoint for_each_indexed (i : nat) (xs : list A) : result unit E :=
  match xs with
  | [] => Ok tt
  | x :: xs' => f i x ;? for_each_indexed (S i) xs'
  end.
End Enumerate.

(** The loop that collects [f(x)?] into a vector. *)
Fixpoint try_map {A B E} (f : A → result B E) (xs : list A) : result (list B) E :=
  match xs with
  | [] => Ok []
  | x :: xs' =>
      let? y := f x in
      let? ys := try_map f xs' in
      Ok (y :: ys)
  end.

(** The loop that threads an accumulator with [?]. *)
Fixpoint try_fold {A B E} (f : B → A → result B E) (b : B) (xs : list A) : result B E :=
  match xs with
  | [] => Ok b
  | x :: xs' =>
      let? b' := f b x in
      try_fold f b' xs'
  end.

(** [Iterator::any] and [Iterator::all] are [existsb] and [forallb]; [x ∈ xs]
    as a boolean is [contains]. *)
Definition contains {A} `{EqDecision A} (xs : list A) (x : A) : bool :=
  bool_decide (x ∈ xs).

(** ** Automation *)

Create HintDb engine.

(** Split every [match]/[if] of the hypotheses and the goal, discarding
    impossible cases. *)
Ltac case_results :=
  repeat (simplify_eq/=;
          match goal with
          | H : context [result_bind ?r _] |- _ => destruct r eqn:?; simpl in H
          | |- context [result_bind ?r _] => destruct r eqn:?; simpl
          | H : context [match ?x with _ => _ end] |- _ => destruct x eqn:?
          | |- context [match ?x with _ => _ end] => destruct x eqn:?
          end).

(** Invert successful monadic chains: [result_bind r k = Ok b]. *)
Ltac inv_ok :=
  repeat match goal with
  | H : result_bind ?r _ = Ok _ |- _ =>
      destruct r eqn:?; simpl in H; [|discriminate H]
  | H : Ok _ = Ok _ |- _ => injection H as H; try subst
  | H : Err _ = Ok _ |- _ => discriminate H
  | H : ok_or ?o _ = Ok _ |- _ =>
      destruct o eqn:?; simpl in H; [|discriminate H]
  | H : (if ?b then Err _ else _) = Ok _ |- _ =>
      destruct b eqn:?; [discriminate H|]
  | u : unit |- _ => destruct u
  end.

(** Turn boolean connectives of hypotheses and goal into propositions. *)
Ltac bool_to_prop :=
  repeat match goal with
  | H : andb _ _ = true |- _ => apply andb_prop in H; destruct H
  | H : orb _ _ = false |- _ => apply orb_false_elim in H; destruct H
  | H : negb _ = true |- _ => apply negb_true_iff in H
  | H : negb _ = false |- _ => apply negb_false_iff in H
  | H : bool_decide _ = true |- _ => apply bool_decide_eq_true in H
  | H : bool_decide _ = false |- _ => apply bool_decide_eq_false in H
  | H : contains _ _ = true |- _ => unfold contains in H
  | H : contains _ _ = false |- _ => unfold contains in H
  end.

(** ** Shared lemmas: loops *)

Section Loops.
Context {A B E : Type}.

Lemma result_bind_Ok (r : result A E) (k : A → result B E) b :
  result_bind r k = Ok b ↔ ∃ a, r = Ok a ∧ k a = Ok b.
Proof. destruct r; simpl; naive_solver. Qed.

Lemma for_each_Ok (f : A → result unit E) xs :
  for_each f xs = Ok tt ↔ Forall (λ x, f x = Ok tt) xs.
Proof.
  induction xs as [|x xs IH]; simpl; [by split|].
  rewrite Forall_cons, <- IH. destruct (f x) as [[]|]; simpl; naive_solver.
Qed.

Lemma for_each_indexed_Ok (f : nat → A → result unit E) i xs :
  for_each_indexed f i xs = Ok tt ↔ ∀ j x, xs !! j = Some x → f (i + j) x = Ok tt.
Proof.
  revert i. induction xs as [|x xs IH]; intros i; simpl; [by split|].
  destruct (f i x) as [[]|] eqn:Hf; simpl.
  - rewrite IH. split.
    + intros H [|j] y Hy; simplify_eq/=; [by rewrite Nat.add_0_r|].
      replace (i + S j) with (S i + j) by lia. eauto.
    + intros H j y Hy. replace (S i + j) with (i + S j) by lia. by apply (H (S j)).
  - split; [done|]. intros H. specialize (H 0 x eq_refl).
    rewrite Nat.add_0_r in H. congruence.
Qed.

Lemma try_map_Ok (f : A → result B E) xs ys :
  try_map f xs = Ok ys ↔ Forall2 (λ x y, f x = Ok y) xs ys.
Proof.
  revert ys. induction xs as [|x xs IH]; intros ys; simpl.
  - split; [by intros [= <-]; constructor|by inversion 1].
  - split.
    + intros H. inv_ok. constructor; [done|]. by apply IH.
    + inversion 1 as [|? y ? ys' Hy Hys]; subst.
      rewrite Hy; simpl. apply IH in Hys. by rewrite Hys.
Qed.

Lemma try_fold_app (f : B → A → result B E) b xs ys :
  try_fold f b (xs ++ ys) = let? b' := try_fold f b xs in try_fold f b' ys.
Proof.
  revert b. induction xs as [|x xs IH]; intros b; simpl; [done|].
  destruct (f b x); simpl; auto.
Qed.

(** An invariant of the accumulator preserved by each iteration holds of the
    result. *)
Lemma try_fold_invariant (P : B → Prop) (f : B → A → result B E) b xs b' :
  P b → (∀ c x c', x ∈ xs → P c → f c x = Ok c' → P c') →
  try_fold f b xs = Ok b' → P b'.
Proof.
  revert b. induction xs as [|x xs IH]; intros b Hb Hf; simpl.
  - by intros [= <-].
  - intros H. destruct (f b x) as [c|] eqn:Hc; simpl in H; [|done].
    eapply (IH c); [eapply Hf; eauto using list_elem_of_here|..|done].
    intros. eapply Hf; eauto using list_elem_of_further.
Qed.
End Loops.

#[export] Hint Resolve list_elem_of_here list_elem_of_further : engine.

(** ** Shared lemmas: lists *)

Section Lists.
Context {A : Type}.

Lemma forallb_Forall (p : A → bool) xs :
  forallb p xs = true ↔ Forall (λ x, p x = true) xs.
Proof.
  induction xs as [|x xs IH]; simpl; [by split|].
  rewrite Forall_cons, andb_true_iff. naive_solver.
Qed.

Lemma filter_snoc (P : A → Prop) `{∀ x, Decision (P x)} xs x :
  filter P (xs ++ [x]) = filter P xs ++ (if decide (P x) then [x] else []).
Proof. rewrite filter_app, filter_cons, filter_nil. done. Qed.

Lemma existsb_elem_of (p : A → bool) xs :
  existsb p xs = true ↔ ∃ x, x ∈ xs ∧ p x = true.
Proof.
  rewrite existsb_exists. setoid_rewrite <- list_elem_of_In. done.
Qed.

Lemma existsb_false_elem_of (p : A → bool) xs :
  existsb p xs = false ↔ ∀ x, x ∈ xs → p x = false.
Proof.
  rewrite <- not_true_iff_false, existsb_elem_of. split.
  - intros H x Hx. destruct (p x) eqn:?; naive_solver.
  - intros H (x & Hx & Hp). rewrite H in Hp by done. done.
Qed.
End Lists.

Lemma filter_length_mono {A} (P Q : A → Prop) `{∀ x, Decision (P x), ∀ x, Decision (Q x)}
    (xs : list A) :
  (∀ x, x ∈ xs → P x → Q x) → length (filter P xs) ≤ length (filter Q xs).
Proof.
  induction xs as [|x xs IH]; intros HPQ; [done|]. rewrite !filter_cons.
  assert (length (filter P xs) ≤ length (filter Q xs)) by (apply IH; set_solver).
  repeat case_decide; simpl; try lia. exfalso. eauto using list_elem_of_here.
Qed.

(** Filtering keeps positions in order. *)
Lemma filter_lookup_lt {A} (P : A → Prop) `{∀ x, Decision (P x)} (xs : list A) i j a b :
  i < j → xs !! i = Some a → xs !! j = Some b → P a → P b →
  ∃ i' j', i' < j' ∧ filter P xs !! i' = Some a ∧ filter P xs !! j' = Some b.
Proof.
  revert i j. induction xs as [|x xs IH]; intros i j Hij Ha Hb HPa HPb; [done|].
  rewrite filter_cons. destruct i as [|i], j as [|j]; simplify_eq/=; [lia| |lia|].
  - rewrite decide_True by done.
    destruct (proj1 (list_elem_of_lookup (filter P xs) b)) as [j' Hj'].
    { apply list_elem_of_filter. split; [done|]. by eapply list_elem_of_lookup_2. }
    exists 0, (S j'). split; [lia|done].
  - destruct (IH i j) as (i' & j' & Hlt & ? & ?); [lia|done..|].
    case_decide; [exists (S i'), (S j')|exists i', j']; simpl; (split; [lia|done]).
Qed.

(** Sorted lists are ordered by position. *)
Lemma StronglySorted_lookup_lt {A} (R : relation A) (xs : list A) i j a b :
  StronglySorted R xs → i < j → xs !! i = Some a → xs !! j = Some b → R a b.
Proof.
  intros Hs. revert i j. induction Hs as [|x xs Hs IH Hx]; intros i j Hij Ha Hb; [done|].
  destruct i as [|i], j as [|j]; simplify_eq/=; [lia| |lia|].
  - by eapply Forall_lookup_1 in Hb.
  - apply (IH i j); [lia|done..].
Qed.

Lemma NoDup_fmap_elem {A B} (f : A → B) xs a b : NoDup (f <$> xs) → a ∈ xs → b ∈ xs → f a = f b → a = b.
Proof.
  induction xs as [|x xs IH]; intros Hn Ha Hb Hf; [by apply elem_of_nil in Ha|].
  rewrite fmap_cons, NoDup_cons in Hn. destruct Hn as [Hx Hn].
  apply elem_of_cons in Ha as [->|Ha]; apply elem_of_cons in Hb as [->|Hb]; auto.
  - destruct Hx. rewrite Hf. by apply list_elem_of_fmap_2.
  - destruct Hx. rewrite <- Hf. by apply list_elem_of_fmap_2.
Qed.

Lemma list_bind_ext_in {A B} (f g : A → list B) (xs : list A) :
  (∀ x, x ∈ xs → f x = g x) → xs ≫= f = xs ≫= g.
Proof.
  induction xs as [|x xs IH]; intros Hfg; [done|]. simpl.
  rewrite Hfg by left. f_equal. apply IH. intros y Hy. apply Hfg. by right.
Qed.

Lemma list_bind_nil {A B} (f : A → list B) (xs : list A) :
  xs ≫= f = [] ↔ ∀ x, x ∈ xs → f x = [].
Proof.
  induction xs as [|x xs IH]; simpl.
  - split; [|done]. intros _ x Hx. by apply not_elem_of_nil in Hx.
  - rewrite app_nil, IH. setoid_rewrite elem_of_cons. naive_solver.
Qed.

Lemma contains_true {A} `{EqDecision A} (xs : list A) x :
  contains xs x = true ↔ x ∈ xs.
Proof. unfold contains. apply bool_decide_eq_true. Qed.

Lemma contains_false {A} `{EqDecision A} (xs : list A) x :
  contains xs x = false ↔ x ∉ xs.
Proof. unfold contains. apply bool_decide_eq_false. Qed.

(** The elements by key, for all keys, are all elements. *)
Lemma by_key {A K} `{EqDecision K} (key : A → K) (ks : list K) (l : list A) :
  NoDup ks → Forall (λ x, key x ∈ ks) l → (ks ≫= λ k, filter (λ x, key x = k) l) ≡ₚ l.
Proof.
  intros Hn. induction 1 as [|x l Hx _ IH].
  { clear Hn. induction ks as [|k ks IHk]; [done|]. by rewrite bind_cons, IHk. }
  assert (∀ ks', key x ∉ ks' → (ks' ≫= λ k, filter (λ y, key y = k) (x :: l)) = (ks' ≫= λ k, filter (λ y, key y = k) l)) as Ho.
  { induction ks' as [|k ks' IHk]; intros Hk; [done|]. rewrite not_elem_of_cons in Hk.
    destruct Hk as [Hk1 Hk2].
    rewrite !bind_cons, IHk by done. by rewrite filter_cons_False by done. }
  apply list_elem_of_split in Hx as (l1 & l2 & ->). apply NoDup_app in Hn as (_ & Hn1 & [Hn2 _]%NoDup_cons).
  rewrite bind_app, bind_cons in *. rewrite (Ho l1), (Ho l2) by (try done; intros Hx; apply (Hn1 _ Hx); left).
  rewrite <- IH at 2. rewrite filter_cons_True by done. cbn. symmetry. apply Permutation_middle.
Qed.

(** ** Decimal rendering of integers, as [format!("{}", n)] prints them *)

Definition show_nat (n : nat) : string := pretty n.
Definition show_Z (z : Z) : string := pretty z.
