(* ===== verification/RustString.v ===== *)
(** * Rust strings

    The part of [str]'s interface the program uses, on byte strings
    ([string], one [ascii] per UTF-8 byte): [split], [splitn(2)], [split_once],
    [strip_prefix], [starts_with], [ends_with], [contains], [join], slicing
    with its char-boundary panic, and [to_uppercase]. Separators are ASCII, so
    working on bytes agrees with working on [char]s. *)

From stdpp Require Import base tactics list strings pretty.
From Stdlib Require Import Ascii NArith ZArith Lia.
From S2P Require Import Prelude.

Local Open Scope string_scope.

#[global] Arguments String.append : simpl nomatch.

(** [""] as a name. *)
Definition empty_str : string := EmptyString.

Definition is_empty (s : string) : bool :=
  match s with
  | EmptyString => true
  | _ => false
  end.

(** [s.split(c)]: always at least one piece. *)
Fixpoint split (c : ascii) (s : string) : list string :=
  match s with
  | EmptyString => [empty_str]
  | String a s' =>
      if bool_decide (a = c) then empty_str :: split c s'
      else match split c s' with
           | p :: ps => String a p :: ps
           | [] => [String a empty_str]
           end
  end.

(** [pieces.join(sep)]. *)
Fixpoint join (sep : string) (pieces : list string) : string :=
  match pieces with
  | [] => empty_str
  | [p] => p
  | p :: ps => p +:+ sep +:+ join sep ps
  end.

(** [s.split_once(c)]. *)
Fixpoint split_once (c : ascii) (s : string) : option (string * string) :=
  match s with
  | EmptyString => None
  | String a s' =>
      if bool_decide (a = c) then Some (empty_str, s')
      else match split_once c s' with
           | Some (l, r) => Some (String a l, r)
           | None => None
           end
  end.

(** [s.splitn(2, c).collect()]. *)
Definition splitn2 (c : ascii) (s : string) : list string :=
  match split_once c s with
  | Some (l, r) => [l; r]
  | None => [s]
  end.

(** [s.strip_prefix(p)] and [s.strip_suffix(p)]. *)
Fixpoint strip_prefix (p s : string) : option string :=
  match p, s with
  | EmptyString, _ => Some s
  | String a p', String b s' => if bool_decide (a = b) then strip_prefix p' s' else None
  | String _ _, EmptyString => None
  end.

Fixpoint strip_suffix_str (suffix s : string) : option string :=
  if bool_decide (s = suffix) then Some empty_str
  else match s with
       | EmptyString => None
       | String c s' => String c <$> strip_suffix_str suffix s'
       end.

Definition starts_with (s p : string) : bool := bool_decide (is_Some (strip_prefix p s)).

(** [s.contains(p)]. *)
Fixpoint contains_str (s p : string) : bool :=
  starts_with s p ||
  match s with
  | EmptyString => false
  | String _ s' => contains_str s' p
  end.

(** [s.ends_with(p)]. *)
Fixpoint ends_with (s p : string) : bool :=
  bool_decide (s = p) ||
  match s with
  | EmptyString => false
  | String _ s' => ends_with s' p
  end.

Definition singleton (c : ascii) : string := String c empty_str.

Definition contains_char (s : string) (c : ascii) : bool := contains_str s (singleton c).

(** [s.chars().all(f)] for a predicate that is false on every non-ASCII
    character: false on every byte above 127 too. *)
Fixpoint all_chars (f : ascii → bool) (s : string) : bool :=
  match s with
  | EmptyString => true
  | String a s' => f a && all_chars f s'
  end.

(** Character classes of [char]. *)
Definition byte_of (a : ascii) : N := N_of_ascii a.
Definition in_range (lo hi : N) (a : ascii) : bool :=
  (lo <=? byte_of a)%N && (byte_of a <=? hi)%N.
Definition is_ascii_lowercase : ascii → bool := in_range 97 122.
Definition is_ascii_uppercase : ascii → bool := in_range 65 90.
Definition is_ascii_digit : ascii → bool := in_range 48 57.
Definition is_ascii_alphabetic (a : ascii) : bool := is_ascii_lowercase a || is_ascii_uppercase a.
Definition is_ascii_alphanumeric (a : ascii) : bool := is_ascii_alphabetic a || is_ascii_digit a.

(** White space: ASCII, and the other characters with the property White_Space as their
    two or three UTF-8 bytes. *)
Definition is_ascii_whitespace (c : ascii) : bool :=
  in_range 9 13 c || bool_decide (c = " "%char).

Definition whitespace_two_bytes (a b : ascii) : bool :=
  match byte_of a, byte_of b with
  | 194, 133 | 194, 160 => true
  | _, _ => false
  end%N.

Definition whitespace_three_bytes (a b c : ascii) : bool :=
  match byte_of a, byte_of b with
  | 225, 154 => bool_decide (byte_of c = 128)
  | 226, 128 =>
      in_range 128 138 c || bool_decide (byte_of c = 168) || bool_decide (byte_of c = 169)
      || bool_decide (byte_of c = 175)
  | 226, 129 => bool_decide (byte_of c = 159)
  | 227, 128 => bool_decide (byte_of c = 128)
  | _, _ => false
  end%N.

(** [s.trim()]. *)
Fixpoint trim_start (s : string) : string :=
  match s with
  | EmptyString => s
  | String a s1 =>
      if is_ascii_whitespace a then trim_start s1 else
      match s1 with
      | EmptyString => s
      | String b s2 =>
          if whitespace_two_bytes a b then trim_start s2 else
          match s2 with
          | String c s3 => if whitespace_three_bytes a b c then trim_start s3 else s
          | EmptyString => s
          end
      end
  end.

Fixpoint trim_end (s : string) : string :=
  match s with
  | EmptyString => s
  | String c s' => if is_empty (trim_start s) then EmptyString else String c (trim_end s')
  end.

Definition trim (s : string) : string := trim_end (trim_start s).

(** ** Slicing *)

(** Byte [i] of [s] starts a character, or [i] is the length
    ([str::is_char_boundary]): continuation bytes are [10xxxxxx]. *)
Definition is_continuation (a : ascii) : bool := in_range 128 191 a.

Definition is_char_boundary (s : string) (i : nat) : bool :=
  if bool_decide (i = 0) then true
  else match String.get i s with
       | Some a => negb (is_continuation a)
       | None => bool_decide (i = String.length s)
       end.

(** [&s[..i]]: [None] is the panic "byte index is not a char boundary". *)
Definition slice_to (s : string) (i : nat) : option string :=
  if is_char_boundary s i then Some (String.substring 0 i s) else None.

(** ** Upper-casing

    [str::to_uppercase] on the characters whose full upper-case mapping is
    ASCII: the ASCII letters, and the ten non-ASCII characters
    ß ı ſ ﬀ ﬁ ﬂ ﬃ ﬄ ﬅ ﬆ (as UTF-8 bytes). Every other character keeps at
    least one non-ASCII byte in its upper-case form, so a comparison of the
    result with an ASCII literal is exact. *)
Definition to_ascii_uppercase_char (a : ascii) : ascii :=
  if is_ascii_lowercase a then ascii_of_N (byte_of a - 32) else a.

Definition uppercase_ligature (b : N) : option string :=
  match b with
  | 128 => Some "FF" | 129 => Some "FI" | 130 => Some "FL" | 131 => Some "FFI"
  | 132 => Some "FFL" | 133 => Some "ST" | 134 => Some "ST"
  | _ => None
  end%N.

Definition uppercase_two_bytes (a b : ascii) : option string :=
  match byte_of a, byte_of b with
  | 195, 159 => Some "SS"
  | 196, 177 => Some "I"
  | 197, 191 => Some "S"
  | _, _ => None
  end%N.

Definition uppercase_three_bytes (a b c : ascii) : option string :=
  match byte_of a, byte_of b with
  | 239, 172 => uppercase_ligature (byte_of c)
  | _, _ => None
  end%N.

Fixpoint to_uppercase (s : string) : string :=
  match s with
  | EmptyString => empty_str
  | String a s1 =>
      match s1 with
      | String b s2 =>
          match uppercase_two_bytes a b with
          | Some u => u +:+ to_uppercase s2
          | None =>
              match s2 with
              | String c s3 =>
                  match uppercase_three_bytes a b c with
                  | Some u => u +:+ to_uppercase s3
                  | None => String (to_ascii_uppercase_char a) (to_uppercase s1)
                  end
              | EmptyString => String (to_ascii_uppercase_char a) (to_uppercase s1)
              end
          end
      | EmptyString => String (to_ascii_uppercase_char a) empty_str
      end
  end.

(** ** Lower-casing

    [str::to_lowercase] on the characters whose lower case has ASCII letters: the ASCII
    letters, the Kelvin sign and the dotted capital I. Every other character keeps only
    non-ASCII bytes, so a comparison with an ASCII literal, and a search for an ASCII
    word, are exact. *)
Definition to_ascii_lowercase_char (a : ascii) : ascii :=
  if is_ascii_uppercase a then ascii_of_N (byte_of a + 32) else a.

Definition dotted_capital_i (a b : ascii) : bool :=
  bool_decide (byte_of a = 196%N) && bool_decide (byte_of b = 176%N).

Definition kelvin_sign (a b c : ascii) : bool :=
  bool_decide (byte_of a = 226%N) && bool_decide (byte_of b = 132%N) && bool_decide (byte_of c = 170%N).

(** "i" and the combining dot above. *)
Definition dotted_i : string := String "i" (String (ascii_of_N 204) (String (ascii_of_N 135) empty_str)).

Fixpoint to_lowercase (s : string) : string :=
  match s with
  | EmptyString => empty_str
  | String a s1 =>
      match s1 with
      | String b s2 =>
          if dotted_capital_i a b then dotted_i +:+ to_lowercase s2 else
          match s2 with
          | String c s3 =>
              if kelvin_sign a b c then String "k" (to_lowercase s3)
              else String (to_ascii_lowercase_char a) (to_lowercase s1)
          | EmptyString => String (to_ascii_lowercase_char a) (to_lowercase s1)
          end
      | EmptyString => String (to_ascii_lowercase_char a) empty_str
      end
  end.

(** ** Lemmas *)

(** [c] is a byte of [s]. *)
Fixpoint char_in (c : ascii) (s : string) : Prop :=
  match s with
  | EmptyString => False
  | String a s' => a = c ∨ char_in c s'
  end.

#[export] Instance char_in_dec c s : Decision (char_in c s).
Proof. induction s as [|a s IH]; simpl; [apply _|]. apply or_dec; [apply _|exact IH]. Defined.

Lemma string_app_assoc (a b c : string) : (a +:+ b) +:+ c = a +:+ b +:+ c.
Proof. induction a as [|x a IH]; simpl; [done|]. by rewrite IH. Qed.

Lemma string_app_nil_r (a : string) : a +:+ empty_str = a.
Proof. induction a as [|x a IH]; simpl; [done|]. by rewrite IH. Qed.

Lemma string_length_app (a b : string) : String.length (a +:+ b) = String.length a + String.length b.
Proof. induction a as [|c a IH]; simpl; [done|]. by rewrite IH. Qed.

Lemma char_in_app c a b : char_in c (a +:+ b) ↔ char_in c a ∨ char_in c b.
Proof. induction a; simpl; tauto. Qed.

Lemma split_not_nil c s : split c s ≠ [].
Proof.
  destruct s as [|a s]; simpl; [done|].
  case_bool_decide; [done|]. by destruct (split c s).
Qed.

(** Joining the pieces gives the string back. *)
Lemma join_split c s : join (singleton c) (split c s) = s.
Proof.
  induction s as [|a s IH]; simpl; [done|].
  pose proof (split_not_nil c s).
  case_bool_decide; subst.
  - destruct (split c s); [done|]. simpl in *. by rewrite IH.
  - destruct (split c s) as [|p ps]; [done|].
    destruct ps; simpl in *; by rewrite <- IH.
Qed.

(** No piece contains the separator. *)
Lemma split_no_sep c s : Forall (λ p, ¬ char_in c p) (split c s).
Proof.
  induction s as [|a s IH]; simpl.
  { constructor; [simpl; tauto|constructor]. }
  case_bool_decide; [constructor; [simpl; tauto|exact IH]|].
  destruct (split c s) as [|p ps].
  - constructor; [simpl; tauto|constructor].
  - inversion IH; subst. constructor; [simpl; tauto|done].
Qed.

Lemma split_nochar c s : ¬ char_in c s → split c s = [s].
Proof.
  induction s as [|a s IH]; simpl; intros H; [done|].
  rewrite bool_decide_eq_false_2 by tauto. rewrite IH by tauto. done.
Qed.

Lemma split_app_sep c p s :
  ¬ char_in c p → split c (p +:+ String c s) = p :: split c s.
Proof.
  induction p as [|a p IH]; simpl; intros H; [by rewrite bool_decide_eq_true_2|].
  rewrite bool_decide_eq_false_2 by tauto. by rewrite IH by tauto.
Qed.

(** Splitting is injective, so a list of separator-free pieces is determined by
    its joined string. *)
Lemma split_join c ps :
  ps ≠ [] → Forall (λ p, ¬ char_in c p) ps → split c (join (singleton c) ps) = ps.
Proof.
  intros Hne Hps. induction Hps as [|p ps Hp Hps IH]; [done|].
  destruct ps as [|q ps]; simpl; [by apply split_nochar|].
  rewrite split_app_sep by done. f_equal. by apply IH.
Qed.

Lemma strip_prefix_Some p s r : strip_prefix p s = Some r ↔ s = p +:+ r.
Proof.
  revert s. induction p as [|a p IH]; intros s; simpl; [naive_solver|].
  destruct s as [|b s]; [done|]. case_bool_decide; subst.
  - rewrite IH. naive_solver.
  - split; [done|]. by intros [= -> ->].
Qed.

Lemma starts_with_true s p : starts_with s p = true ↔ ∃ r, s = p +:+ r.
Proof.
  unfold starts_with. rewrite bool_decide_eq_true. unfold is_Some.
  by setoid_rewrite strip_prefix_Some.
Qed.

Lemma contains_str_true s p : contains_str s p = true ↔ ∃ l r, s = l +:+ p +:+ r.
Proof.
  induction s as [|a s IH]; simpl; rewrite orb_true_iff, starts_with_true.
  - split; [|intros (l & r & H); left; destruct l; [by exists r|done]].
    intros [(r & H)|]; [|done]. by exists empty_str, r.
  - rewrite IH. split.
    + intros [(r & H)|(l & r & ->)]; [by exists empty_str, r|by exists (String a l), r].
    + intros ([|b l] & r & H); simpl in H; [by left; exists r|].
      injection H as -> ->. right. by exists l, r.
Qed.

Lemma ends_with_true s p : ends_with s p = true ↔ ∃ l, s = l +:+ p.
Proof.
  induction s as [|a s IH]; simpl; rewrite orb_true_iff, bool_decide_eq_true.
  - split; [|intros ([|] & H); [by left|done]].
    intros [<-|]; [|done]. by exists empty_str.
  - rewrite IH. split.
    + intros [<-|(l & ->)]; [by exists empty_str|by exists (String a l)].
    + intros ([|b l] & H); simpl in H; [by left|].
      injection H as -> ->. right. by exists l.
Qed.

Lemma contains_char_true s c : contains_char s c = true ↔ char_in c s.
Proof.
  unfold contains_char, singleton. rewrite contains_str_true. split.
  - intros (l & r & ->). rewrite char_in_app. simpl. auto.
  - induction s as [|a s IH]; simpl; [done|]. intros [->|H].
    + by exists empty_str, s.
    + destruct (IH H) as (l & r & ->). by exists (String a l), r.
Qed.

Lemma all_chars_true f s : all_chars f s = true ↔ ∀ c, char_in c s → f c = true.
Proof.
  induction s as [|a s IH]; simpl; [by split|].
  rewrite andb_true_iff, IH. naive_solver.
Qed.

(** Two strings with the same separator-free head and the separator agree
    piecewise: the argument behind every prefix-scoping scheme. *)
Lemma sep_app_inj c p q r s :
  ¬ char_in c p → ¬ char_in c q →
  p +:+ String c r = q +:+ String c s → p = q ∧ r = s.
Proof.
  revert q. induction p as [|a p IH]; intros [|b q]; simpl; intros Hp Hq H;
    simplify_eq/=; try tauto.
  destruct (IH q) as [-> ->]; tauto.
Qed.

Lemma is_empty_true s : is_empty s = true ↔ s = empty_str.
Proof. by destruct s. Qed.

Lemma is_empty_false s : is_empty s = false ↔ s ≠ empty_str.
Proof. by destruct s. Qed.

(** A string has an empty [c]-piece exactly when it starts or ends with [c] or
    has [c] twice in a row (or is empty). *)
Lemma split_head_empty c s :
  head (split c s) = Some empty_str ↔ s = empty_str ∨ starts_with s (singleton c) = true.
Proof.
  rewrite starts_with_true. destruct s as [|a s]; simpl.
  - naive_solver.
  - case_bool_decide; simpl.
    + subst. split; [|done]. intros _. right. by exists s.
    + destruct (split c s); simpl; split; naive_solver.
Qed.

Lemma split_tail_empty c s :
  empty_str ∈ tail (split c s) ↔
  ends_with s (singleton c) = true ∨ contains_str s (String c (singleton c)) = true.
Proof.
  rewrite ends_with_true, contains_str_true.
  induction s as [|a s IH]; simpl.
  { split; [inversion 1|]. intros [([|] & ?)|([|] & ? & ?)]; simplify_eq/=. }
  pose proof (split_head_empty c s) as Hhd. rewrite starts_with_true in Hhd.
  destruct (split c s) as [|p ps] eqn:Hsp; [by apply split_not_nil in Hsp|].
  simpl in *. unfold singleton in *. case_bool_decide as Hac; simpl.
  - subst a. rewrite elem_of_cons, IH. split.
    + intros [Hp|[(l & ->)|(l & r & ->)]].
      * destruct (proj1 Hhd) as [->|(r & ->)]; [by subst|..].
        -- left. by exists empty_str.
        -- right. by exists empty_str, r.
      * left. by exists (String c l).
      * right. by exists (String c l), r.
    + intros [([|b l] & Hl)|([|b l] & r & Hr)]; simplify_eq/=.
      * by left.
      * right. left. by exists l.
      * left. assert (Some p = Some empty_str) as [= ->]; [|done].
        apply Hhd. right. by exists r.
      * right. right. by exists l, r.
  - rewrite IH. split.
    + intros [(l & ->)|(l & r & ->)]; [left; by exists (String a l)|].
      right. by exists (String a l), r.
    + intros [([|b l] & Hl)|([|b l] & r & Hr)]; simplify_eq/=; naive_solver.
Qed.

Lemma split_empty_piece c s :
  empty_str ∈ split c s ↔
  s = empty_str ∨ starts_with s (singleton c) = true ∨
  ends_with s (singleton c) = true ∨ contains_str s (String c (singleton c)) = true.
Proof.
  rewrite <- split_tail_empty. pose proof (split_head_empty c s) as Hhd.
  destruct (split c s) as [|p ps] eqn:Hsp; [by apply split_not_nil in Hsp|].
  simpl in *. rewrite elem_of_cons.
  assert (empty_str = p ↔ Some p = Some empty_str) as -> by naive_solver.
  tauto.
Qed.

(** Every piece is an infix of the string. *)
Lemma split_piece_infix c s p : p ∈ split c s → ∃ l r, s = l +:+ p +:+ r.
Proof.
  revert p. induction s as [|a s IH]; intros p; simpl.
  { rewrite list_elem_of_singleton. intros ->. by exists empty_str, empty_str. }
  case_bool_decide.
  - rewrite elem_of_cons. intros [->|Hin]; [by exists empty_str, (String a s)|].
    destruct (IH _ Hin) as (l & r & ->). by exists (String a l), r.
  - pose proof (join_split c s) as Hj. destruct (split c s) as [|q qs] eqn:E; [by apply split_not_nil in E|].
    rewrite elem_of_cons. intros [->|Hin].
    + exists empty_str. destruct qs as [|q' qs]; simpl in *.
      * exists empty_str. by rewrite <- Hj, string_app_nil_r.
      * eexists. rewrite <- Hj. done.
    + destruct (IH p) as (l & r & ->); [by right|]. by exists (String a l), r.
Qed.

(** ** Parsing integers *)

(** [s.parse::<u64>().ok()]: an optional plus sign and at least one digit, at most
    [2^64 - 1]. *)
Fixpoint digits_value (acc : Z) (s : string) : option Z :=
  match s with
  | EmptyString => Some acc
  | String c s' =>
      if is_ascii_digit c then digits_value (acc * 10 + (Z.of_N (byte_of c) - 48)) s' else None
  end.

Definition parse_u64 (s : string) : option Z :=
  let body := default s (strip_prefix "+" s) in
  if is_empty body then None
  else match digits_value 0 body with
       | Some v => if (v <? 2 ^ 64)%Z then Some v else None
       | None => None
       end.

(** [n as i64] of a u64. *)
Definition u64_as_i64 (n : Z) : Z := if (n <? 2 ^ 63)%Z then n else (n - 2 ^ 64)%Z.

(** [s.parse::<i64>().ok()]: an optional sign and at least one digit, within range. *)
Definition parse_i64 (s : string) : option Z :=
  let '(sign, body) :=
    match strip_prefix "-" s with
    | Some b => ((-1)%Z, b)
    | None => (1%Z, default s (strip_prefix "+" s))
    end in
  if is_empty body then None
  else match digits_value 0 body with
       | Some v =>
           if (- 2 ^ 63 <=? sign * v)%Z && (sign * v <? 2 ^ 63)%Z then Some (sign * v)%Z else None
       | None => None
       end.

Lemma digits_value_chars acc s v c : digits_value acc s = Some v → char_in c s → is_ascii_digit c = true.
Proof.
  revert acc. induction s as [|a s IH]; intros acc; simpl; [done|].
  destruct (is_ascii_digit a) eqn:Ha; [|done]. intros Hv [->|Hc]; [done|]. by eapply IH.
Qed.

Lemma parse_u64_no_char s v c :
  parse_u64 s = Some v → is_ascii_digit c = false → c ≠ "+"%char → ¬ char_in c s.
Proof.
  unfold parse_u64. intros Hv Hc Hne Hin.
  destruct (is_empty _); [done|]. destruct (digits_value 0 _) eqn:E; [|done].
  enough (is_ascii_digit c = true) by congruence.
  eapply digits_value_chars; [done|]. destruct (strip_prefix "+" s) as [r|] eqn:Ep; [|done].
  apply strip_prefix_Some in Ep as ->. simpl in *. naive_solver.
Qed.

(** A printed number parses back. *)
Lemma digits_value_pretty x s : digits_value 0 (pretty_N_go x s) = digits_value (Z.of_N x) s.
Proof.
  revert s. induction (N.lt_wf_0 x) as [x _ IH]. intros s.
  destruct (decide (x = 0%N)) as [->|Hx]; [done|].
  rewrite pretty_N_go_step by lia. rewrite IH by (apply N.div_lt; lia). simpl.
  assert (x mod 10 < 10)%N by (apply N.mod_lt; lia).
  pose proof (N.div_mod x 10 ltac:(done)) as Hdm.
  assert (is_ascii_digit (pretty_N_char (x mod 10)) = true ∧
          Z.of_N (byte_of (pretty_N_char (x mod 10))) = (48 + Z.of_N (x mod 10))%Z) as [-> ->].
  { destruct (x mod 10)%N as [|p]; [done|]. do 4 (destruct p as [p|p|]; try done; try lia). }
  f_equal. lia.
Qed.

Lemma parse_u64_show n : (0 ≤ n < 2 ^ 64)%Z → parse_u64 (show_Z n) = Some n.
Proof.
  intros Hn. unfold parse_u64, show_Z, pretty, pretty_Z.
  destruct n as [|p|p]; [done| |lia].
  assert (digits_value 0 (pretty_positive p) = Some (Z.pos p)) as Hd.
  { unfold pretty_positive, pretty, pretty_N. rewrite decide_False by done. apply digits_value_pretty. }
  change (pretty p) with (pretty_positive p). set (t := pretty_positive p) in *.
  assert (strip_prefix "+" t = None) as ->.
  { destruct (strip_prefix "+" t) as [r|] eqn:E; [|done]. apply strip_prefix_Some in E.
    rewrite E in Hd. done. }
  simpl. destruct (is_empty t) eqn:Et; [by apply is_empty_true in Et; rewrite Et in Hd|].
  rewrite Hd. simpl. destruct (Z.pos p <? 2 ^ 64)%Z eqn:El; [done|]. apply Z.ltb_ge in El. lia.
Qed.

(** ** Numbers as binary texts, least digit first *)

Fixpoint bits (p : positive) : string :=
  match p with
  | xH => EmptyString
  | xO p => String "0"%char (bits p)
  | xI p => String "1"%char (bits p)
  end.
Fixpoint unbits (s : string) : positive :=
  match s with
  | EmptyString => xH
  | String c s' => if bool_decide (c = "0"%char) then xO (unbits s') else xI (unbits s')
  end.
Lemma unbits_bits p : unbits (bits p) = p.
Proof. by induction p as [p IH|p IH|]; simpl; rewrite ?IH. Qed.
