(* ===== verification/RustText.v ===== *)
(** * More of Rust's [str]

    What the text formats (vCard, iCalendar, XML) use besides RustString: [lines],
    [replace], [char_indices], [eq_ignore_ascii_case], [rsplit], the trimming of one
    character and [parse::<u32>], with the lemmas on how they meet [join]. *)

From stdpp Require Import base tactics list sets strings pretty.
From Stdlib Require Import Ascii NArith ZArith Lia.
From S2P Require Import Prelude RustString.

Local Open Scope string_scope.

Definition LF : ascii := "010".
Definition CR : ascii := "013".
Definition CRLF : string := String CR (singleton LF).
Definition BACKSLASH : ascii := "\".
Definition QUOTE : ascii := "034".

(** [s.replace(c, rep)] for a character. *)
Fixpoint replace_char (c : ascii) (rep s : string) : string :=
  match s with
  | EmptyString => empty_str
  | String a s' =>
      if bool_decide (a = c) then rep +:+ replace_char c rep s'
      else String a (replace_char c rep s')
  end.

(** [s.replace(pat, rep)] for a nonempty pattern: [skip] bytes of the current match are
    still to be passed over. *)
Fixpoint replace_from (pat rep : string) (skip : nat) (s : string) : string :=
  match s with
  | EmptyString => empty_str
  | String a s' =>
      match skip with
      | S k => replace_from pat rep k s'
      | O =>
          if starts_with s pat then rep +:+ replace_from pat rep (pred (String.length pat)) s'
          else String a (replace_from pat rep 0 s')
      end
  end.

Definition replace_str (pat rep s : string) : string := replace_from pat rep 0 s.

(** [s.lines()]: pieces ended by a line feed lose it and a carriage return before it; what
    follows the last line feed is a line if it is not empty. *)
Definition strip_cr (s : string) : string := default s (strip_suffix_str (singleton CR) s).

Fixpoint lines_of (pieces : list string) : list string :=
  match pieces with
  | [] => []
  | [p] => if is_empty p then [] else [p]
  | p :: ps => strip_cr p :: lines_of ps
  end.

Definition lines (s : string) : list string := lines_of (split LF s).

(** The characters of [s], each as its UTF-8 bytes ([s.chars()], [s.char_indices()]): a
    continuation byte belongs to the character before it. *)
Definition continues (s : string) : bool :=
  match s with
  | String b _ => is_continuation b
  | EmptyString => false
  end.

Fixpoint chars (s : string) : list string :=
  match s with
  | EmptyString => []
  | String a s' =>
      match chars s' with
      | c :: cs => if continues s' then String a c :: cs else singleton a :: c :: cs
      | [] => [singleton a]
      end
  end.

(** [std::str::from_utf8]: the byte sequences of Unicode scalar values.

    The second byte a leading byte allows, in a sequence of three or four bytes. *)
Definition second_of_three (a b : ascii) : bool :=
  in_range 0xE0 0xE0 a && in_range 0xA0 0xBF b || in_range 0xE1 0xEC a && in_range 0x80 0xBF b
  || in_range 0xED 0xED a && in_range 0x80 0x9F b || in_range 0xEE 0xEF a && in_range 0x80 0xBF b.

Definition second_of_four (a b : ascii) : bool :=
  in_range 0xF0 0xF0 a && in_range 0x90 0xBF b || in_range 0xF1 0xF3 a && in_range 0x80 0xBF b
  || in_range 0xF4 0xF4 a && in_range 0x80 0x8F b.

Fixpoint valid_utf8 (s : string) : bool :=
  match s with
  | EmptyString => true
  | String a s1 =>
      if in_range 0 0x7F a then valid_utf8 s1
      else
        match s1 with
        | EmptyString => false
        | String b s2 =>
            if in_range 0xC2 0xDF a && in_range 0x80 0xBF b then valid_utf8 s2
            else
              match s2 with
              | EmptyString => false
              | String c s3 =>
                  if second_of_three a b && in_range 0x80 0xBF c then valid_utf8 s3
                  else
                    match s3 with
                    | EmptyString => false
                    | String d s4 =>
                        second_of_four a b && in_range 0x80 0xBF c && in_range 0x80 0xBF d
                        && valid_utf8 s4
                    end
              end
        end
  end.

(** [a.eq_ignore_ascii_case(b)]. *)
Fixpoint to_ascii_lowercase (s : string) : string :=
  match s with
  | EmptyString => empty_str
  | String a s' => String (to_ascii_lowercase_char a) (to_ascii_lowercase s')
  end.

Definition eq_ignore_ascii_case (a b : string) : bool :=
  bool_decide (to_ascii_lowercase a = to_ascii_lowercase b).

(** [s.rsplit(c).next()]: the piece after the last separator. *)
Definition rsplit_next (c : ascii) (s : string) : string := List.last (split c s) empty_str.

(** [s.rsplit_once(c)]. *)
Fixpoint rsplit_once (c : ascii) (s : string) : option (string * string) :=
  match s with
  | EmptyString => None
  | String a s' =>
      match rsplit_once c s' with
      | Some (l, r) => Some (String a l, r)
      | None => if bool_decide (a = c) then Some (empty_str, s') else None
      end
  end.

(** [s.trim_start_matches(c)] and [s.trim_end_matches(c)]. *)
Fixpoint trim_start_matches (c : ascii) (s : string) : string :=
  match s with
  | String a s' => if bool_decide (a = c) then trim_start_matches c s' else s
  | EmptyString => s
  end.

Fixpoint trim_end_matches (c : ascii) (s : string) : string :=
  match s with
  | EmptyString => s
  | String a s' =>
      if is_empty (trim_start_matches c s) then empty_str else String a (trim_end_matches c s')
  end.

(** [s.find(pat)] for a pattern, as the text before and the text from it on. *)
Fixpoint find_str (pat s : string) : option (string * string) :=
  if starts_with s pat then Some (empty_str, s)
  else match s with
       | EmptyString => None
       | String a s' =>
           match find_str pat s' with
           | Some (l, r) => Some (String a l, r)
           | None => None
           end
       end.

(** [s.split_whitespace()], white space as in [trim]. *)
Definition flush_word (current : string) : list string :=
  if is_empty current then [] else [current].

Fixpoint split_whitespace_from (current s : string) : list string :=
  match s with
  | EmptyString => flush_word current
  | String a s1 =>
      if is_ascii_whitespace a then flush_word current ++ split_whitespace_from empty_str s1 else
      match s1 with
      | EmptyString => [current +:+ singleton a]
      | String b s2 =>
          if whitespace_two_bytes a b then flush_word current ++ split_whitespace_from empty_str s2 else
          match s2 with
          | String c s3 =>
              if whitespace_three_bytes a b c then
                flush_word current ++ split_whitespace_from empty_str s3
              else split_whitespace_from (current +:+ singleton a) s1
          | EmptyString => split_whitespace_from (current +:+ singleton a) s1
          end
      end
  end%list.

Definition split_whitespace (s : string) : list string := split_whitespace_from empty_str s.

(** [s.parse::<u32>().ok()]: as [parse_u64], at most [2^32 - 1]. *)
Definition u32_max : Z := (2 ^ 32 - 1)%Z.

Definition parse_u32 (s : string) : option Z :=
  match parse_u64 s with
  | Some v => if (v <? 2 ^ 32)%Z then Some v else None
  | None => None
  end.

(** ** Lemmas *)

(** No byte of [s] is in [cs]. *)
Definition free_of (cs : list ascii) (s : string) : Prop := ∀ c, c ∈ cs → ¬ char_in c s.

#[export] Instance free_of_dec cs s : Decision (free_of cs s).
Proof.
  refine (cast_if (decide (Forall (λ c, ¬ char_in c s) cs)));
    unfold free_of; by rewrite <- Forall_forall.
Defined.

Lemma free_of_app cs a b : free_of cs (a +:+ b) ↔ free_of cs a ∧ free_of cs b.
Proof. unfold free_of. setoid_rewrite char_in_app. naive_solver. Qed.

Lemma free_of_cons cs a s : free_of cs (String a s) ↔ a ∉ cs ∧ free_of cs s.
Proof.
  unfold free_of. simpl. split.
  - intros H. split; [intros Ha; by apply (H a Ha); left|]. intros c Hc Hi. by apply (H c Hc); right.
  - intros [Ha Hs] c Hc [->|Hi]; [done|]. by apply (Hs c Hc).
Qed.

Lemma free_of_nil cs : free_of cs empty_str.
Proof. by intros c _ []. Qed.

Lemma free_of_sub cs ds s : cs ⊆ ds → free_of ds s → free_of cs s.
Proof. unfold free_of. set_solver. Qed.

Lemma free_of_join cs sep ps :
  free_of cs sep → Forall (free_of cs) ps → free_of cs (join sep ps).
Proof.
  intros Hs. induction 1 as [|p ps Hp Hps IH]; [apply free_of_nil|].
  destruct ps as [|q ps]; [done|]. cbn [join]. by rewrite !free_of_app.
Qed.

Lemma replace_char_app c rep a b :
  replace_char c rep (a +:+ b) = replace_char c rep a +:+ replace_char c rep b.
Proof.
  induction a as [|x a IH]; simpl; [done|]. rewrite IH. case_bool_decide; [|done].
  by rewrite string_app_assoc.
Qed.

Lemma replace_char_free c rep s : ¬ char_in c s → replace_char c rep s = s.
Proof.
  induction s as [|x s IH]; simpl; [done|]. intros Hc.
  rewrite bool_decide_false by naive_solver. rewrite IH by naive_solver. done.
Qed.

Lemma split_once_app c l r : ¬ char_in c l → split_once c (l +:+ String c r) = Some (l, r).
Proof.
  induction l as [|a l IH]; simpl; intros Hl; [by rewrite bool_decide_true|].
  rewrite bool_decide_false by naive_solver. by rewrite IH by naive_solver.
Qed.

Lemma split_once_None c s : ¬ char_in c s → split_once c s = None.
Proof.
  induction s as [|a s IH]; simpl; intros Hl; [done|].
  rewrite bool_decide_false by naive_solver. by rewrite IH by naive_solver.
Qed.

Lemma rsplit_next_app c l r : ¬ char_in c r → rsplit_next c (l +:+ String c r) = r.
Proof.
  intros Hr. unfold rsplit_next.
  assert (∃ ps : list string, split c (l +:+ String c r) = (ps ++ [r])%list) as [ps ->]; [|by rewrite List.last_last].
  induction l as [|a l [ps IH]]; simpl.
  - rewrite bool_decide_true by done. rewrite split_nochar by done. by exists [empty_str].
  - rewrite IH. case_bool_decide; [by exists (empty_str :: ps)|].
    destruct ps as [|p ps]; [|by exists (String a p :: ps)].
    exfalso. simpl in IH. apply (f_equal length) in IH.
    assert (1 < length (split c (l +:+ String c r))) as Hl; [|simpl in IH; lia].
    clear. induction l as [|a l IH]; simpl.
    + rewrite bool_decide_true by done. simpl.
      pose proof (split_not_nil c r). destruct (split c r); simpl; [done|lia].
    + case_bool_decide; simpl; revert IH; destruct (split c (l +:+ String c r)); simpl; lia.
Qed.

Lemma strip_suffix_app p s : strip_suffix_str p (s +:+ p) = Some s.
Proof.
  induction s as [|a s IH]; simpl.
  - destruct p as [|x p]; [done|]. cbn [strip_suffix_str]. by rewrite bool_decide_true.
  - rewrite bool_decide_false; [by rewrite IH|].
    intros H%(f_equal String.length). simpl in H. rewrite string_length_app in H. lia.
Qed.

Lemma string_app_inv_tail a b p : a +:+ p = b +:+ p → a = b.
Proof.
  intros H. pose proof (f_equal (strip_suffix_str p) H) as Hs. rewrite !strip_suffix_app in Hs.
  by injection Hs.
Qed.

Lemma strip_suffix_Some p s r : strip_suffix_str p s = Some r → s = r +:+ p.
Proof.
  revert r. induction s as [|a s IH]; intros r; simpl.
  - case_bool_decide; intros; simplify_eq. done.
  - case_bool_decide; [intros; simplify_eq; done|].
    destruct (strip_suffix_str p s) eqn:E; intros; simplify_eq/=. by rewrite (IH s0).
Qed.

Lemma strip_cr_free s : ¬ char_in CR s → strip_cr s = s.
Proof.
  unfold strip_cr. destruct (strip_suffix_str _ s) eqn:E; [|done]. apply strip_suffix_Some in E as ->.
  rewrite char_in_app. simpl. naive_solver.
Qed.

(** Lines joined by line feeds are read back as they are. *)
Lemma lines_of_free ps :
  Forall (free_of [CR]) ps → List.last ps empty_str ≠ empty_str → lines_of ps = ps.
Proof.
  induction 1 as [|p ps Hp Hps IH]; [done|]. destruct ps as [|q ps].
  - simpl. intros Hne. by rewrite (proj2 (is_empty_false p) Hne).
  - intros Hne. change (strip_cr p :: lines_of (q :: ps) = p :: q :: ps).
    rewrite IH by done. rewrite strip_cr_free; [done|]. apply Hp. by left.
Qed.

Lemma lines_join ps :
  ps ≠ [] → Forall (free_of [CR; LF]) ps → List.last ps empty_str ≠ empty_str →
  lines (join (singleton LF) ps) = ps.
Proof.
  intros Hne Hf Hl. unfold lines. rewrite split_join; [|done|].
  - apply lines_of_free; [|done]. eapply Forall_impl; [done|]. intros s. apply free_of_sub. set_solver.
  - eapply Forall_impl; [done|]. intros s Hs. apply Hs. set_solver.
Qed.

(** *** Trimming *)

(** What is only white space has no other ASCII character. *)
Lemma trim_start_empty s c :
  trim_start s = empty_str → char_in c s → is_ascii_whitespace c = true ∨ (128 ≤ byte_of c)%N.
Proof.
  remember (String.length s) as n eqn:Hn. revert s Hn.
  induction (lt_wf n) as [n _ IH]. intros s -> Hs Hc.
  destruct s as [|a s1]; [done|]. simpl in Hs.
  destruct (is_ascii_whitespace a) eqn:Ha.
  { destruct Hc as [->|Hc]; [by left|]. eapply (IH (String.length s1)); simpl; eauto. }
  destruct s1 as [|b s2]; [done|]. destruct (whitespace_two_bytes a b) eqn:E2.
  { assert ((128 ≤ byte_of a)%N ∧ (128 ≤ byte_of b)%N) as [??].
    { clear - E2. unfold whitespace_two_bytes in E2. repeat case_match; done. }
    destruct Hc as [->|[->|Hc]]; [by right..|].
    eapply (IH (String.length s2)); simpl; eauto. }
  destruct s2 as [|d s3]; [done|]. destruct (whitespace_three_bytes a b d) eqn:E3; [|done].
  assert ((128 ≤ byte_of a)%N ∧ (128 ≤ byte_of b)%N ∧ (128 ≤ byte_of d)%N) as (? & ? & ?).
  { clear - E3. unfold whitespace_three_bytes in E3.
    assert (∀ m : N, bool_decide (byte_of d = m) = true → (128 ≤ m)%N → (128 ≤ byte_of d)%N) as Hb.
    { intros m ->%bool_decide_eq_true. done. }
    assert (in_range 128 138 d = true → (128 ≤ byte_of d)%N) as Hr.
    { unfold in_range. intros [?%N.leb_le _]%andb_prop. done. }
    repeat case_match; try done; (split; [done|split; [done|]]);
      repeat apply orb_prop in E3 as [E3|E3]; eauto; by (eapply Hb; [done|]). }
  destruct Hc as [->|[->|[->|Hc]]]; [by right..|].
  eapply (IH (String.length s3)); simpl; eauto.
Qed.

Definition is_visible (c : ascii) : bool := negb (is_ascii_whitespace c) && (byte_of c <? 128)%N.

Lemma trim_start_visible s c : is_visible c = true → char_in c s → is_empty (trim_start s) = false.
Proof.
  intros [Hw%negb_true_iff Hb%N.ltb_lt]%andb_prop Hc. apply is_empty_false. intros H.
  destruct (trim_start_empty s c H Hc); [congruence|lia].
Qed.

(** Trimming the end stops at a visible ASCII character. *)
Lemma trim_end_app a c v :
  is_visible c = true → trim_end (a +:+ String c v) = a +:+ String c (trim_end v).
Proof.
  intros Hc. induction a as [|x a IH].
  - change (trim_end (String c v) = String c (trim_end v)). cbn [trim_end].
    erewrite trim_start_visible; [done|done|by left].
  - change (trim_end (String x (a +:+ String c v)) = String x (a +:+ String c (trim_end v))).
    cbn [trim_end]. erewrite trim_start_visible; [by rewrite IH|done|].
    right. rewrite char_in_app. right. by left.
Qed.

Lemma trim_start_head c s : is_visible c = true → trim_start (String c s) = String c s.
Proof.
  intros [Hw%negb_true_iff Hb%N.ltb_lt]%andb_prop. simpl. rewrite Hw.
  destruct s as [|b s2]; [done|].
  assert (whitespace_two_bytes c b = false) as ->.
  { unfold whitespace_two_bytes. repeat case_match; done. }
  destruct s2 as [|d s3]; [done|].
  assert (whitespace_three_bytes c b d = false) as ->; [|done].
  unfold whitespace_three_bytes. repeat case_match; done.
Qed.

(** *** Numbers *)

Lemma parse_u32_show n : (0 ≤ n < 2 ^ 32)%Z → parse_u32 (show_Z n) = Some n.
Proof.
  intros Hn. unfold parse_u32. rewrite parse_u64_show by lia.
  destruct (Z.ltb_spec n (2 ^ 32)); [done|lia].
Qed.

(** Digits are the only characters of a printed number. *)
Lemma show_Z_digits n c : (0 ≤ n)%Z → char_in c (show_Z n) → is_ascii_digit c = true.
Proof.
  intros Hn Hc. unfold show_Z, pretty, pretty_Z in Hc.
  destruct n as [|p|p]; [by destruct Hc as [<-|[]]| |lia].
  change (pretty p) with (pretty_positive p) in Hc.
  unfold pretty_positive, pretty, pretty_N in Hc. rewrite decide_False in Hc by done.
  eapply (digits_value_chars 0); [|done]. by rewrite digits_value_pretty.
Qed.

(** *** Characters *)

Definition cat (ss : list string) : string := foldr String.append empty_str ss.

Lemma cat_app ss ts : cat (ss ++ ts)%list = cat ss +:+ cat ts.
Proof. induction ss as [|a ss IH]; simpl; [done|]. rewrite IH. by rewrite string_app_assoc. Qed.

Lemma chars_cat s : cat (chars s) = s.
Proof.
  induction s as [|a s IH]; [done|]. simpl.
  destruct (chars s) as [|c cs] eqn:E; [simpl in IH; by rewrite <- IH|].
  destruct (continues s); simpl in *; by rewrite IH.
Qed.

Lemma chars_nonempty s : Forall (λ c, c ≠ empty_str) (chars s).
Proof.
  induction s as [|a s IH]; simpl; [constructor|].
  destruct (chars s) as [|c cs]; [by repeat constructor|].
  destruct (continues s); inversion IH; subst; by repeat constructor.
Qed.

(** *** Joining *)

Lemma join_snoc sep xs x :
  join sep (xs ++ [x])%list =
  match xs with [] => x | _ => join sep xs +:+ sep +:+ x end.
Proof.
  induction xs as [|a xs IH]; [done|]. destruct xs as [|b xs]; [done|].
  change (join sep ((a :: b :: xs) ++ [x])%list) with (a +:+ sep +:+ join sep ((b :: xs) ++ [x])%list).
  rewrite IH. change (join sep (a :: b :: xs)) with (a +:+ sep +:+ join sep (b :: xs)).
  by rewrite !string_app_assoc.
Qed.

Lemma join_app_sep sep xs ys :
  xs ≠ [] → ys ≠ [] → join sep (xs ++ ys)%list = join sep xs +:+ sep +:+ join sep ys.
Proof.
  intros Hx Hy. induction xs as [|a xs IH]; [done|]. destruct xs as [|b xs].
  - by destruct ys.
  - change (join sep ((a :: b :: xs) ++ ys)%list) with (a +:+ sep +:+ join sep ((b :: xs) ++ ys)%list).
    rewrite IH by done. change (join sep (a :: b :: xs)) with (a +:+ sep +:+ join sep (b :: xs)).
    by rewrite !string_app_assoc.
Qed.

(** Pieces that were joined by [sep] themselves. *)
Lemma join_join sep xss :
  Forall (λ xs, xs ≠ []) xss → join sep (join sep <$> xss) = join sep (mjoin xss).
Proof.
  induction 1 as [|xs xss Hx Hxs IH]; [done|].
  destruct xss as [|ys xss]; [cbn; by rewrite app_nil_r|].
  change (join sep (join sep <$> xs :: ys :: xss))
    with (join sep xs +:+ sep +:+ join sep (join sep <$> ys :: xss)).
  rewrite IH. change (mjoin (xs :: ys :: xss)) with (xs ++ mjoin (ys :: xss))%list.
  rewrite join_app_sep; [done|done|]. inversion Hxs; subst. simpl. by destruct ys.
Qed.

(** Replacing the separator of a join. *)
Lemma replace_from_skip pat rep a s :
  replace_from pat rep (String.length a) (a +:+ s) = replace_from pat rep 0 s.
Proof. induction a as [|x a IH]; [done|]. simpl. done. Qed.

Lemma starts_with_head c p a s : a ≠ c → starts_with (String a s) (String c p) = false.
Proof.
  intros Hne. apply not_true_iff_false. rewrite starts_with_true. intros [r Hr]. by simplify_eq/=.
Qed.

Lemma replace_free_app c p rep a s :
  ¬ char_in c a → replace_str (String c p) rep (a +:+ s) = a +:+ replace_str (String c p) rep s.
Proof.
  unfold replace_str. induction a as [|x a IH]; intros Hc; [done|]. simpl in Hc.
  change (String x a +:+ s) with (String x (a +:+ s)). cbn [replace_from].
  rewrite starts_with_head by naive_solver. rewrite IH by naive_solver. done.
Qed.

Lemma replace_sep_join c p rep ps :
  Forall (λ s, ¬ char_in c s) ps → replace_str (String c p) rep (join (String c p) ps) = join rep ps.
Proof.
  induction 1 as [|s ps Hs Hps IH]; [done|].
  destruct ps as [|q ps].
  - cbn [join]. rewrite <- (string_app_nil_r s) at 1. rewrite replace_free_app by done.
    by rewrite string_app_nil_r.
  - change (join (String c p) (s :: q :: ps))
      with (s +:+ String c (p +:+ join (String c p) (q :: ps))).
    rewrite replace_free_app by done. unfold replace_str. cbn [replace_from].
    rewrite (proj2 (starts_with_true _ _)) by (eexists; by change (String c (p +:+ ?x)) with (String c p +:+ x)).
    cbn [String.length pred]. rewrite replace_from_skip.
    unfold replace_str in IH. rewrite IH. done.
Qed.
