(* ===== verification/Json.v ===== *)
(** * JSON values

    [serde_json::Value] as the program uses it: the value type, its accessors
    ([get], [as_str], [as_object], ...), and [Map] as the key-sorted map that
    [serde_json] uses without its [preserve_order] feature (this workspace
    does not enable it), so iteration is in key order and equality of maps is
    equality of entries. *)

From stdpp Require Import base tactics list sets strings.
From Stdlib Require Import ZArith Sorting.Sorted.
From S2P Require Import Prelude RustString.

Local Open Scope string_scope.

(** [serde_json::Number]: an integer, or a finite [f64] as [mantissa * 2^exponent]. *)
Inductive number : Type :=
| NInt (z : Z)
| NFloat (mantissa exponent : Z).

#[export] Instance number_eq_dec : EqDecision number.
Proof. solve_decision. Defined.

Inductive json : Type :=
| JNull
| JBool (b : bool)
| JNum (n : number)
| JStr (s : string)
| JArr (xs : list json)
| JObj (kvs : list (string * json)).

(** ** Induction and equality on the nested type *)

Section JsonInd.
Context (P : json → Prop).
Context (Hnull : P JNull) (Hbool : ∀ b, P (JBool b)) (Hnum : ∀ n, P (JNum n)).
Context (Hstr : ∀ s, P (JStr s)) (Harr : ∀ xs, Forall P xs → P (JArr xs)).
Context (Hobj : ∀ kvs, Forall (λ kv, P kv.2) kvs → P (JObj kvs)).

Fixpoint json_nested_ind (j : json) : P j :=
  match j with
  | JNull => Hnull
  | JBool b => Hbool b
  | JNum n => Hnum n
  | JStr s => Hstr s
  | JArr xs =>
      Harr xs ((fix go l : Forall P l :=
                  match l with
                  | [] => Forall_nil_2 P
                  | x :: l' => Forall_cons_2 P x l' (json_nested_ind x) (go l')
                  end) xs)
  | JObj kvs =>
      Hobj kvs ((fix go l : Forall (λ kv, P kv.2) l :=
                   match l with
                   | [] => Forall_nil_2 _
                   | (k, v) :: l' =>
                       Forall_cons_2 (λ kv, P kv.2) (k, v) l' (json_nested_ind v) (go l')
                   end) kvs)
  end.
End JsonInd.

(** [==] on values. *)
Fixpoint json_eqb (a b : json) : bool :=
  match a, b with
  | JNull, JNull => true
  | JBool x, JBool y => Bool.eqb x y
  | JNum x, JNum y => bool_decide (x = y)
  | JStr x, JStr y => bool_decide (x = y)
  | JArr xs, JArr ys =>
      (fix go xs ys :=
         match xs, ys with
         | [], [] => true
         | x :: xs', y :: ys' => json_eqb x y && go xs' ys'
         | _, _ => false
         end) xs ys
  | JObj xs, JObj ys =>
      (fix go xs ys :=
         match xs, ys with
         | [], [] => true
         | (k, x) :: xs', (l, y) :: ys' => bool_decide (k = l) && json_eqb x y && go xs' ys'
         | _, _ => false
         end) xs ys
  | _, _ => false
  end.

Lemma json_eqb_eq a b : json_eqb a b = true ↔ a = b.
Proof.
  revert b. induction a as [|x|n|s|xs IH|kvs IH] using json_nested_ind;
    intros b; destruct b as [|y|m|t|ys|lws]; simpl; try naive_solver.
  - rewrite Bool.eqb_true_iff. naive_solver.
  - rewrite bool_decide_eq_true. naive_solver.
  - rewrite bool_decide_eq_true. naive_solver.
  - revert ys. induction IH as [|x xs Hx _ IHxs]; intros [|y ys]; try naive_solver.
    rewrite andb_true_iff, Hx, (IHxs ys). naive_solver.
  - revert lws. induction IH as [|[k x] kvs Hx _ IHk]; intros [|[l y] lws]; try naive_solver.
    rewrite !andb_true_iff, bool_decide_eq_true, (IHk lws). simpl in Hx. rewrite Hx.
    naive_solver.
Qed.

#[export] Instance json_eq_dec : EqDecision json.
Proof.
  intros a b. destruct (json_eqb a b) eqn:E.
  - left. by apply json_eqb_eq.
  - right. intros H%json_eqb_eq. congruence.
Defined.

(** ** Maps *)

Abbreviation object := (list (string * json)).

Fixpoint obj_get (k : string) (o : object) : option json :=
  match o with
  | [] => None
  | (k', v) :: o' => if bool_decide (k = k') then Some v else obj_get k o'
  end.

(** [Map::insert] keeps the entries sorted by key. *)
Fixpoint obj_insert (k : string) (v : json) (o : object) : object :=
  match o with
  | [] => [(k, v)]
  | (k', v') :: o' =>
      match String.compare k k' with
      | Eq => (k, v) :: o'
      | Lt => (k, v) :: (k', v') :: o'
      | Gt => (k', v') :: obj_insert k v o'
      end
  end.

Definition obj_remove (k : string) (o : object) : object :=
  filter (λ kv, kv.1 ≠ k) o.

Definition obj_keys (o : object) : list string := o.*1.

Definition obj_contains_key (k : string) (o : object) : bool :=
  bool_decide (is_Some (obj_get k o)).

(** A [json!({...})] literal. *)
Definition mk_obj (kvs : list (string * json)) : json :=
  JObj (foldl (λ o kv, obj_insert kv.1 kv.2 o) [] kvs).

(** ** Accessors *)

Definition as_object (j : json) : option object :=
  match j with
  | JObj o => Some o
  | _ => None
  end.

Definition as_array (j : json) : option (list json) :=
  match j with
  | JArr xs => Some xs
  | _ => None
  end.

Definition as_str (j : json) : option string :=
  match j with
  | JStr s => Some s
  | _ => None
  end.

Definition as_bool (j : json) : option bool :=
  match j with
  | JBool b => Some b
  | _ => None
  end.

Definition is_null (j : json) : bool :=
  match j with
  | JNull => true
  | _ => false
  end.

Definition is_object (j : json) : bool :=
  match j with
  | JObj _ => true
  | _ => false
  end.

(** [Value::get] with a string index: [None] on anything but an object. *)
Definition json_get (j : json) (k : string) : option json :=
  as_object j ≫= obj_get k.

(** ** Lemmas *)

Lemma compare_eq s t : String.compare s t = Eq ↔ s = t.
Proof.
  split; [apply String.compare_eq_iff|]. intros <-.
  induction s as [|a s IH]; simpl; [done|].
  unfold Ascii.compare. by rewrite N.compare_refl.
Qed.

Lemma obj_get_insert_eq k v o : obj_get k (obj_insert k v o) = Some v.
Proof.
  induction o as [|[k' v'] o IH]; simpl; [by rewrite bool_decide_eq_true_2|].
  destruct (String.compare k k') eqn:E; simpl; try by rewrite bool_decide_eq_true_2.
  rewrite bool_decide_eq_false_2; [done|].
  intros ->. assert (String.compare k' k' = Eq) by by apply compare_eq. congruence.
Qed.

Lemma obj_get_insert_ne k k' v o : k ≠ k' → obj_get k' (obj_insert k v o) = obj_get k' o.
Proof.
  intros Hne. induction o as [|[l w] o IH]; simpl.
  - by rewrite bool_decide_eq_false_2.
  - destruct (String.compare k l) eqn:E; simpl.
    + apply compare_eq in E as ->. by rewrite !bool_decide_eq_false_2.
    + by rewrite (bool_decide_eq_false_2 (k' = k)).
    + by rewrite IH.
Qed.

Lemma obj_get_insert k k' v o :
  obj_get k' (obj_insert k v o) = if decide (k = k') then Some v else obj_get k' o.
Proof.
  destruct (decide (k = k')) as [->|]; [apply obj_get_insert_eq|by apply obj_get_insert_ne].
Qed.

Lemma json_get_obj o k : json_get (JObj o) k = obj_get k o.
Proof. done. Qed.

Lemma obj_get_remove_eq k o : obj_get k (obj_remove k o) = None.
Proof.
  unfold obj_remove. induction o as [|[l w] o IH]; [done|].
  rewrite filter_cons. case_decide as H; simpl in *; [|done].
  by rewrite bool_decide_eq_false_2.
Qed.

Lemma obj_get_remove_ne k k' o : k ≠ k' → obj_get k' (obj_remove k o) = obj_get k' o.
Proof.
  intros Hne. unfold obj_remove. induction o as [|[l w] o IH]; [done|].
  rewrite filter_cons. case_decide as H; simpl in *; [by rewrite IH|].
  rewrite bool_decide_eq_false_2; [done|]. intros ->. congruence.
Qed.

Lemma obj_get_remove k k' o :
  obj_get k' (obj_remove k o) = if decide (k = k') then None else obj_get k' o.
Proof.
  destruct (decide (k = k')) as [->|]; [apply obj_get_remove_eq|by apply obj_get_remove_ne].
Qed.

Create HintDb json.
#[export] Hint Rewrite obj_get_insert_eq obj_get_remove_eq : json.

Lemma obj_get_keys k o : is_Some (obj_get k o) ↔ k ∈ obj_keys o.
Proof.
  unfold obj_keys. induction o as [|[l w] o IH]; simpl.
  - split; [by intros []|inversion 1].
  - rewrite elem_of_cons. case_bool_decide; subst.
    + split; [by left|done].
    + rewrite IH. naive_solver.
Qed.

Lemma obj_contains_key_true k o : obj_contains_key k o = true ↔ is_Some (obj_get k o).
Proof. unfold obj_contains_key. apply bool_decide_eq_true. Qed.

Lemma obj_contains_key_false k o : obj_get k o = None → obj_contains_key k o = false.
Proof. intros H. apply not_true_iff_false. rewrite obj_contains_key_true, H. by intros []. Qed.

(** ** Maps with the same entries

    Two objects agree when every key has the same value; the operations respect
    it, and on key-sorted objects it is equality. *)

Definition obj_equiv (o o' : object) : Prop := ∀ k, obj_get k o = obj_get k o'.

#[export] Instance obj_equiv_equivalence : Equivalence obj_equiv.
Proof. split; unfold obj_equiv; repeat intro; congruence. Qed.

#[export] Instance obj_get_proper : Proper ((=) ==> obj_equiv ==> (=)) obj_get.
Proof. intros k ? <- o o' H. apply H. Qed.

#[export] Instance obj_insert_proper :
  Proper ((=) ==> (=) ==> obj_equiv ==> obj_equiv) obj_insert.
Proof.
  intros k ? <- v ? <- o o' H k'. rewrite !obj_get_insert. case_decide; [done|apply H].
Qed.

#[export] Instance obj_remove_proper : Proper ((=) ==> obj_equiv ==> obj_equiv) obj_remove.
Proof.
  intros k ? <- o o' H k'. rewrite !obj_get_remove. case_decide; [done|apply H].
Qed.

Lemma obj_insert_insert k v w o : obj_equiv (obj_insert k v (obj_insert k w o)) (obj_insert k v o).
Proof. intros l. rewrite !obj_get_insert. by case_decide. Qed.

Lemma obj_insert_id k v o : obj_get k o = Some v → obj_equiv (obj_insert k v o) o.
Proof. intros H l. rewrite obj_get_insert. by case_decide; subst. Qed.

Lemma obj_remove_id k o : obj_get k o = None → obj_equiv (obj_remove k o) o.
Proof. intros H l. rewrite obj_get_remove. by case_decide; subst. Qed.

(** Key-sorted objects, the representation invariant of [Map]. *)
Definition key_lt (s t : string) : Prop := String.le s t ∧ s ≠ t.

Definition obj_sorted (o : object) : Prop := StronglySorted key_lt (obj_keys o).

Lemma key_lt_compare s t : String.compare s t = Lt → key_lt s t.
Proof.
  intros H. split.
  - unfold String.le, String.leb. by rewrite H.
  - intros ->. assert (String.compare t t = Eq) by by apply compare_eq. congruence.
Qed.

Lemma key_gt_compare s t : String.compare s t = Gt → key_lt t s.
Proof.
  intros H. apply key_lt_compare. rewrite String.compare_antisym, H. done.
Qed.

Lemma key_lt_trans s t u : key_lt s t → key_lt t u → key_lt s u.
Proof.
  intros [Hst Hne] [Htu Hne']. split; [by etrans|].
  intros ->. apply Hne. by apply (anti_symm String.le).
Qed.

Lemma obj_insert_keys k v o : obj_keys (obj_insert k v o) ⊆ k :: obj_keys o.
Proof.
  unfold obj_keys. induction o as [|[l w] o IH]; simpl; [set_solver|].
  destruct (String.compare k l) eqn:E; simpl; [|set_solver..].
  apply compare_eq in E as ->. set_solver.
Qed.

Lemma obj_insert_sorted k v o : obj_sorted o → obj_sorted (obj_insert k v o).
Proof.
  unfold obj_sorted, obj_keys. induction o as [|[l w] o IH]; simpl; intros Hs.
  { constructor; constructor. }
  apply StronglySorted_inv in Hs as [Hs Hl].
  destruct (String.compare k l) eqn:E; simpl.
  - apply compare_eq in E as ->. by constructor.
  - apply key_lt_compare in E. constructor; [by constructor|]. constructor; [done|].
    eapply Forall_impl; [done|]. simpl. eauto using key_lt_trans.
  - apply key_gt_compare in E. constructor; [by apply IH|].
    rewrite Forall_forall in Hl |- *. intros x Hx%obj_insert_keys%elem_of_cons.
    destruct Hx as [->|Hx]; [done|by apply Hl].
Qed.

Lemma obj_remove_sorted k o : obj_sorted o → obj_sorted (obj_remove k o).
Proof.
  unfold obj_sorted, obj_keys, obj_remove. induction o as [|[l w] o IH]; [done|].
  intros Hs. simpl in Hs. apply StronglySorted_inv in Hs as [Hs Hl].
  rewrite filter_cons. case_decide; [|auto]. simpl. constructor; [auto|].
  rewrite Forall_forall in *. intros x Hx. apply Hl.
  apply list_elem_of_fmap in Hx as (y & -> & Hy). apply list_elem_of_filter in Hy as [_ Hy].
  apply list_elem_of_fmap. by exists y.
Qed.

Lemma mk_obj_sorted kvs o : mk_obj kvs = JObj o → obj_sorted o.
Proof.
  unfold mk_obj. intros [= <-].
  assert (obj_sorted []) as H0 by constructor. revert H0.
  generalize ([] : object). induction kvs as [|[k v] kvs IH]; intros o Ho; simpl; [done|].
  by apply IH, obj_insert_sorted.
Qed.

Lemma obj_get_cons_lt k v o : obj_sorted ((k, v) :: o) → ∀ l, key_lt l k → obj_get l ((k, v) :: o) = None.
Proof.
  intros [Hs Hl]%StronglySorted_inv l Hlt. apply eq_None_not_Some.
  rewrite obj_get_keys. unfold obj_keys. simpl. rewrite elem_of_cons. intros [->|Hin].
  - by destruct Hlt.
  - rewrite Forall_forall in Hl. specialize (Hl l Hin). simpl in Hl.
    destruct (key_lt_trans _ _ _ Hl Hlt). done.
Qed.

Lemma obj_equiv_eq o o' : obj_sorted o → obj_sorted o' → obj_equiv o o' → o = o'.
Proof.
  revert o'. induction o as [|[k v] o IH]; intros [|[k' v'] o'] Hs Hs' He; [done|..].
  - specialize (He k'). simpl in He. by rewrite bool_decide_eq_true_2 in He.
  - specialize (He k). simpl in He. by rewrite bool_decide_eq_true_2 in He.
  - assert (k = k') as ->.
    { destruct (String.compare k k') eqn:E; [by apply compare_eq|..]; exfalso.
      - apply key_lt_compare in E. pose proof (obj_get_cons_lt _ _ _ Hs' k E) as Hn.
        rewrite <- (He k) in Hn. simpl in Hn. by rewrite bool_decide_eq_true_2 in Hn.
      - apply key_gt_compare in E. pose proof (obj_get_cons_lt _ _ _ Hs k' E) as Hn.
        rewrite (He k') in Hn. simpl in Hn. by rewrite bool_decide_eq_true_2 in Hn. }
    pose proof (He k') as Hv. simpl in Hv. rewrite !bool_decide_eq_true_2 in Hv by done.
    injection Hv as ->. f_equal.
    apply StronglySorted_inv in Hs as [Hs Hl], Hs' as [Hs' Hl'].
    apply IH; [done..|]. intros l. specialize (He l). simpl in He.
    case_bool_decide as Hlk; [subst l|done].
    transitivity (None : option json); [|symmetry]; apply eq_None_not_Some;
      rewrite obj_get_keys; intros Hin.
    + rewrite Forall_forall in Hl. by destruct (Hl _ Hin).
    + rewrite Forall_forall in Hl'. by destruct (Hl' _ Hin).
Qed.

(** ** Text

    [serde_json]'s reader and printer are parameters. *)
Class JsonText : Type := {
  json_from_str : string → result json string;
  json_to_string : json → string;
}.

(** ** Structs as serde reads them *)

(** A field of a struct, from an object or from a sequence. *)
Definition struct_field (v : json) (name : string) (position : nat) : option json :=
  match v with
  | JObj o => obj_get name o
  | JArr xs => xs !! position
  | _ => None
  end.

(** A sequence has no more elements than the struct has fields. *)
Definition struct_shape (fields : nat) (v : json) : bool :=
  match v with
  | JObj _ => true
  | JArr xs => (length xs <=? fields)%nat
  | _ => false
  end.

(** ** Depth *)

Fixpoint json_depth (j : json) : nat :=
  match j with
  | JArr xs => S (foldr (λ x n, json_depth x `max` n) 0 xs)
  | JObj kvs => S (foldr (λ kv n, json_depth kv.2 `max` n) 0 kvs)
  | _ => 0
  end.

Lemma obj_get_elem k o v : obj_get k o = Some v → (k, v) ∈ o.
Proof.
  induction o as [|[l w] o IH]; simpl; [done|]. case_bool_decide; intros; simplify_eq; [left|].
  right. auto.
Qed.

Lemma depth_entry k v o : (k, v) ∈ o → json_depth v < json_depth (JObj o).
Proof.
  simpl. induction o as [|[l w] o IH]; [by intros ?%not_elem_of_nil|].
  intros [[= -> ->]|Hin]%elem_of_cons; simpl; [lia|]. specialize (IH Hin). lia.
Qed.

Lemma depth_get j k v : json_get j k = Some v → json_depth v < json_depth j.
Proof.
  unfold json_get. destruct j as [| | | | |o]; try done. simpl.
  intros Hg%obj_get_elem. by apply depth_entry in Hg.
Qed.

(** An entry of an object member is two levels down. *)
Lemma depth_member j k o name v :
  json_get j k = Some (JObj o) → (name, v) ∈ o → json_depth v < json_depth j.
Proof. intros Hg%depth_get Hin%depth_entry. lia. Qed.

(** ** Canonical values

    What [serde_json] keeps: the entries of every object sorted by key. *)
Fixpoint json_canonical (j : json) : Prop :=
  match j with
  | JArr xs => foldr (λ x P, json_canonical x ∧ P) True xs
  | JObj kvs => obj_sorted kvs ∧ foldr (λ kv P, json_canonical kv.2 ∧ P) True kvs
  | _ => True
  end.

Lemma canonical_obj o : json_canonical (JObj o) ↔ obj_sorted o ∧ ∀ k v, (k, v) ∈ o → json_canonical v.
Proof.
  simpl. f_equiv. induction o as [|[l w] o IH]; simpl.
  - split; [|done]. intros _ k v ?%not_elem_of_nil. done.
  - rewrite IH. split.
    + intros [Hw Ho] k v [[= -> ->]|Hin]%elem_of_cons; eauto.
    + intros Ho. split; [by eapply Ho; left|]. intros k v Hin. eapply Ho. by right.
Qed.

Lemma obj_insert_elem k v o l w : (l, w) ∈ obj_insert k v o → (l, w) = (k, v) ∨ (l, w) ∈ o.
Proof.
  induction o as [|[k' v'] o IH]; simpl; [by intros ?%list_elem_of_singleton; left|].
  destruct (String.compare k k').
  - intros [?|?]%elem_of_cons; [by left|right; by right].
  - intros [?|?]%elem_of_cons; [by left|by right].
  - intros [->|Hin]%elem_of_cons; [right; left|]. destruct (IH Hin); [by left|right; by right].
Qed.

Lemma obj_remove_elem k o l w : (l, w) ∈ obj_remove k o → (l, w) ∈ o.
Proof. unfold obj_remove. by intros [_ ?]%list_elem_of_filter. Qed.

Lemma canonical_insert k v o :
  json_canonical (JObj o) → json_canonical v → json_canonical (JObj (obj_insert k v o)).
Proof.
  rewrite !canonical_obj. intros [Hs Ho] Hv. split; [by apply obj_insert_sorted|].
  intros l w [[= -> ->]|Hin]%obj_insert_elem; [done|]. by eapply Ho.
Qed.

Lemma canonical_remove k o : json_canonical (JObj o) → json_canonical (JObj (obj_remove k o)).
Proof.
  rewrite !canonical_obj. intros [Hs Ho]. split; [by apply obj_remove_sorted|].
  intros l w Hin%obj_remove_elem. by eapply Ho.
Qed.

Lemma canonical_get k o v : json_canonical (JObj o) → obj_get k o = Some v → json_canonical v.
Proof. rewrite canonical_obj. intros [_ Ho] Hg%obj_get_elem. by eapply Ho. Qed.

Lemma canonical_mk_obj kvs : (∀ k v, (k, v) ∈ kvs → json_canonical v) → json_canonical (mk_obj kvs).
Proof.
  unfold mk_obj. assert (json_canonical (JObj [])) as Hacc by (split; [constructor|done]).
  revert Hacc. generalize (@nil (string * json)) as acc.
  induction kvs as [|[k v] kvs IH]; intros acc Hacc Hkvs; simpl; [done|].
  apply IH; [apply canonical_insert; [done|]; eapply Hkvs; left|]. intros k' v' Hin. eapply Hkvs. by right.
Qed.

(** ** Values that read back

    The reader gives back as they were printed the canonical values nested at most 127 deep
    (its recursion limit is 128) whose floating-point numbers it gives back on their own (it
    does not for all of them, the feature float_roundtrip being off). *)
Section Printable.
Context `{JsonText}.

Definition number_reads_back (n : number) : Prop :=
  match n with
  | NInt _ => True
  | NFloat _ _ => json_from_str (json_to_string (JNum n)) = Ok (JNum n)
  end.

Fixpoint json_within (levels : nat) (j : json) {struct j} : Prop :=
  match j with
  | JNum n => number_reads_back n
  | JArr xs =>
      match levels with
      | O => False
      | S below => foldr (λ x P, json_within below x ∧ P) True xs
      end
  | JObj kvs =>
      match levels with
      | O => False
      | S below => obj_sorted kvs ∧ foldr (λ kv P, json_within below kv.2 ∧ P) True kvs
      end
  | _ => True
  end.

Definition MAX_DEPTH : nat := 127.
Definition json_printable : json → Prop := json_within MAX_DEPTH.

Lemma within_obj n o :
  json_within (S n) (JObj o) ↔ obj_sorted o ∧ ∀ k v, (k, v) ∈ o → json_within n v.
Proof.
  simpl. f_equiv. induction o as [|[l w] o IH]; simpl.
  - split; [|done]. intros _ k v ?%not_elem_of_nil. done.
  - rewrite IH. split.
    + intros [Hw Ho] k v [[= -> ->]|Hin]%elem_of_cons; eauto.
    + intros Ho. split; [by eapply Ho; left|]. intros k v Hin. eapply Ho. by right.
Qed.

Lemma within_arr n xs : json_within (S n) (JArr xs) ↔ Forall (json_within n) xs.
Proof.
  simpl. induction xs as [|x xs IH]; simpl; [by split; [constructor|]|].
  by rewrite IH, Forall_cons.
Qed.

Lemma within_mono n m j : (n ≤ m)%nat → json_within n j → json_within m j.
Proof.
  revert n m. induction j as [|b|x|t|xs IH|kvs IH] using json_nested_ind; intros n m Hle; try done.
  - destruct n as [|n], m as [|m]; try done; [lia|]. rewrite !within_arr, !Forall_forall in *.
    intros Hx x Hin. eapply (IH x Hin n); [lia|]. by apply Hx.
  - destruct n as [|n], m as [|m]; try done; [lia|]. rewrite !within_obj.
    intros [Hs Hv]. split; [done|]. rewrite Forall_forall in IH. intros k v Hin.
    eapply (IH (k, v) Hin n); [lia|eauto].
Qed.

Lemma within_sorted n o : json_within n (JObj o) → obj_sorted o.
Proof. destruct n; [done|]. by intros [? _]%within_obj. Qed.

Lemma within_insert n k v o :
  json_within (S n) (JObj o) → json_within n v → json_within (S n) (JObj (obj_insert k v o)).
Proof.
  rewrite !within_obj. intros [Hs Ho] Hv. split; [by apply obj_insert_sorted|].
  intros l w [[= -> ->]|Hin]%obj_insert_elem; [done|]. by eapply Ho.
Qed.

Lemma within_remove n k o : json_within n (JObj o) → json_within n (JObj (obj_remove k o)).
Proof.
  destruct n; [done|]. rewrite !within_obj. intros [Hs Ho]. split; [by apply obj_remove_sorted|].
  intros l w Hin%obj_remove_elem. by eapply Ho.
Qed.

Lemma within_get n k o v : json_within (S n) (JObj o) → obj_get k o = Some v → json_within n v.
Proof. rewrite within_obj. intros [_ Ho] Hg%obj_get_elem. by eapply Ho. Qed.

Lemma within_mk_obj n kvs : (∀ k v, (k, v) ∈ kvs → json_within n v) → json_within (S n) (mk_obj kvs).
Proof.
  unfold mk_obj. assert (json_within (S n) (JObj [])) as Hacc by (split; [constructor|done]).
  revert Hacc. generalize (@nil (string * json)) as acc.
  induction kvs as [|[k v] kvs IH]; intros acc Hacc Hkvs; simpl; [done|].
  apply IH; [apply within_insert; [done|]; eapply Hkvs; left|]. intros k' v' Hin. eapply Hkvs. by right.
Qed.

Lemma within_canonical n j : json_within n j → json_canonical j.
Proof.
  revert n. induction j as [|b|x|t|xs IH|kvs IH] using json_nested_ind; intros n; try done.
  - destruct n as [|n]; [done|]. simpl. induction IH as [|x xs Hx _ IHx]; simpl; [done|]. intros [? ?]. eauto.
  - destruct n as [|n]; [done|]. rewrite within_obj, canonical_obj. intros [Hs Hv]. split; [done|].
    rewrite Forall_forall in IH. intros k v Hin. eapply (IH (k, v) Hin); eauto.
Qed.

Lemma printable_canonical j : json_printable j → json_canonical j.
Proof. apply within_canonical. Qed.

Lemma printable_insert k v o :
  json_printable (JObj o) → json_within 126 v → json_printable (JObj (obj_insert k v o)).
Proof. apply within_insert. Qed.

Lemma printable_remove k o : json_printable (JObj o) → json_printable (JObj (obj_remove k o)).
Proof. apply within_remove. Qed.

Lemma printable_get k o v : json_printable (JObj o) → obj_get k o = Some v → json_within 126 v.
Proof. apply within_get. Qed.

Lemma printable_mk_obj kvs : (∀ k v, (k, v) ∈ kvs → json_within 126 v) → json_printable (mk_obj kvs).
Proof. apply within_mk_obj. Qed.

Lemma within_printable v : json_within 126 v → json_printable v.
Proof. apply within_mono. unfold MAX_DEPTH. lia. Qed.
End Printable.

(** Reading back what was printed. *)
Class JsonTextLaws `{JsonText} : Prop := {
  json_print_parse : ∀ j, json_printable j → json_from_str (json_to_string j) = Ok j;
}.

(** ** A coded JSON text

    A reader and printer of JSON values that satisfy the law: a value is coded as a number, and
    the number printed in binary. *)

From stdpp Require Import countable.

Fixpoint json_tree (j : json) : gen_tree (string + Z) :=
  match j with
  | JNull => GenNode 0 []
  | JBool b => GenNode (if b then 2 else 1) []
  | JNum (NInt z) => GenNode 3 [GenLeaf (inr z)]
  | JNum (NFloat m e) => GenNode 4 [GenLeaf (inr m); GenLeaf (inr e)]
  | JStr s => GenLeaf (inl s)
  | JArr xs => GenNode 5 (map json_tree xs)
  | JObj kvs => GenNode 6 (map (λ kv, GenNode 7 [GenLeaf (inl kv.1); json_tree kv.2]) kvs)
  end.

Fixpoint tree_json (t : gen_tree (string + Z)) : json :=
  match t with
  | GenNode 1 [] => JBool false
  | GenNode 2 [] => JBool true
  | GenNode 3 [GenLeaf (inr z)] => JNum (NInt z)
  | GenNode 4 [GenLeaf (inr m); GenLeaf (inr e)] => JNum (NFloat m e)
  | GenLeaf (inl s) => JStr s
  | GenNode 5 ts => JArr (map tree_json ts)
  | GenNode 6 ts =>
      JObj (map (λ t, match t with
                      | GenNode _ [GenLeaf (inl k); v] => (k, tree_json v)
                      | _ => (empty_str, JNull)
                      end) ts)
  | _ => JNull
  end.

Lemma tree_json_tree j : tree_json (json_tree j) = j.
Proof.
  induction j as [|[]|[z|m e]|s|xs IH|kvs IH] using json_nested_ind; simpl; try done.
  - f_equal. induction IH as [|x xs Hx _ IHx]; simpl; congruence.
  - f_equal. induction IH as [|[k v] kvs Hv _ IHk]; simpl in *; [done|]. by rewrite Hv, IHk.
Qed.

Definition coded_text : JsonText := {|
  json_from_str s := match decode (A := gen_tree (string + Z)) (unbits s) with
                     | Some t => Ok (tree_json t)
                     | None => Err "not a value"
                     end;
  json_to_string j := bits (encode (json_tree j));
|}.

Lemma coded_print_parse j : @json_from_str coded_text (@json_to_string coded_text j) = Ok j.
Proof. simpl. by rewrite unbits_bits, decode_encode, tree_json_tree. Qed.

Lemma coded_text_laws : @JsonTextLaws coded_text.
Proof. split. intros j _. apply coded_print_parse. Qed.
