(* ===== verification/Types.v ===== *)
(** * Shared types

    The data that flows through the engine: engine errors
    (packages/traits/src/error.rs), pipeline messages
    (packages/types/src/pipeline.rs), workflow definitions
    (packages/workflow-engine/src/types.rs) and the workflow engine's errors
    (packages/workflow-engine/src/error.rs). UUIDs are their text, timestamps
    are nanoseconds ([Z]). *)

From stdpp Require Import base tactics list strings.
From Stdlib Require Import ZArith.
From S2P Require Import Prelude RustString Json.

Local Open Scope string_scope.

Abbreviation uuid := string (only parsing).
Abbreviation timestamp := Z (only parsing).

(** [chrono::Duration::num_milliseconds] of a difference in nanoseconds
    truncates towards zero; the engine clamps it at zero before [as u64]. *)
Definition duration_ms (start finish : timestamp) : Z :=
  Z.max 0 (Z.quot (finish - start) 1000000).

(** ** Engine errors *)

Inductive Severity : Type := Fatal | Retryable | Warning.

#[export] Instance severity_eq_dec : EqDecision Severity.
Proof. solve_decision. Defined.

Definition is_fatal (s : Severity) : bool := bool_decide (s = Fatal).
Definition is_retryable (s : Severity) : bool := bool_decide (s = Retryable).
Definition is_warning (s : Severity) : bool := bool_decide (s = Warning).

Definition severity_display (s : Severity) : string :=
  match s with
  | Fatal => "Fatal"
  | Retryable => "Retryable"
  | Warning => "Warning"
  end.

(** [Box<dyn EngineError>]: what the engine observes of an error object. *)
Record EngineError : Type := mkEngineError {
  err_code : string;
  err_severity : Severity;
  err_source_module : string;
  err_display : string;
}.

#[export] Instance engine_error_eq_dec : EqDecision EngineError.
Proof. solve_decision. Defined.

(** ** Pipeline messages *)

Record MessageMetadata : Type := mkMetadata {
  correlation_id : uuid;
  source : string;
  msg_timestamp : timestamp;
  auth_context : option json;
  warnings : list string;
}.

(** The canonical types, each record represented by its serialised form. *)
Inductive CdmType : Type :=
| CdmEvent (v : json) | CdmTask (v : json) | CdmContact (v : json) | CdmNote (v : json)
| CdmEmail (v : json) | CdmFile (v : json) | CdmCredential (v : json)
| CdmEventBatch (vs : list json) | CdmTaskBatch (vs : list json)
| CdmContactBatch (vs : list json) | CdmNoteBatch (vs : list json)
| CdmEmailBatch (vs : list json) | CdmFileBatch (vs : list json)
| CdmCredentialBatch (vs : list json).

(** [#[serde(tag = "collection", content = "value")]]. *)
Definition cdm_variant (c : CdmType) : string * json :=
  match c with
  | CdmEvent v => ("Event", v)
  | CdmTask v => ("Task", v)
  | CdmContact v => ("Contact", v)
  | CdmNote v => ("Note", v)
  | CdmEmail v => ("Email", v)
  | CdmFile v => ("File", v)
  | CdmCredential v => ("Credential", v)
  | CdmEventBatch vs => ("EventBatch", JArr vs)
  | CdmTaskBatch vs => ("TaskBatch", JArr vs)
  | CdmContactBatch vs => ("ContactBatch", JArr vs)
  | CdmNoteBatch vs => ("NoteBatch", JArr vs)
  | CdmEmailBatch vs => ("EmailBatch", JArr vs)
  | CdmFileBatch vs => ("FileBatch", JArr vs)
  | CdmCredentialBatch vs => ("CredentialBatch", JArr vs)
  end.

Definition cdm_to_value (c : CdmType) : json :=
  let '(tag, v) := cdm_variant c in
  mk_obj [("collection", JStr tag); ("value", v)].

(** [Custom] holds the inner value of [SchemaValidated]. *)
Inductive TypedPayload : Type :=
| Cdm (c : CdmType)
| Custom (v : json).

Record PipelineMessage : Type := mkMessage {
  metadata : MessageMetadata;
  payload : TypedPayload;
}.

(** [#[serde(tag = "type", content = "data")]]. *)
Definition payload_inner (p : TypedPayload) : json :=
  match p with
  | Cdm c => cdm_to_value c
  | Custom v => v
  end.

Definition payload_to_value (p : TypedPayload) : json :=
  mk_obj [("type", JStr match p with Cdm _ => "Cdm" | Custom _ => "Custom" end);
          ("data", payload_inner p)].

(** ** Third-party JSON tooling

    The [jsonschema] crate and [serde_json]'s text printer are parameters; the laws
    are what the engine relies on of its fixed schema [{"type": "object"}]. *)
Class JsonLib : Type := {
  (** [jsonschema::validator_for]: the compile error of a schema, if any. *)
  schema_compile_error : json → option string;
  (** [Validator::validate]: the first error of an instance, if any. *)
  schema_error : json → json → option string;
  (** [serde_json::to_string] of a payload. *)
  payload_to_string : TypedPayload → string;
}.

Definition object_schema : json := mk_obj [("type", JStr "object")].

Class JsonLibLaws `{JsonLib} : Prop := {
  object_schema_compiles : schema_compile_error object_schema = None;
  object_schema_valid v : schema_error object_schema v = None ↔ is_object v = true;
}.

(** [SchemaValidated::new]: the error is the validator's message. *)
Definition schema_validated_new `{JsonLib} (value schema : json) : result json string :=
  match schema_compile_error schema with
  | Some e => Err ("schema validation failed: invalid schema: " +:+ e)
  | None =>
      match schema_error schema value with
      | Some e => Err ("schema validation failed: " +:+ e)
      | None => Ok value
      end
  end.

(** ** Workflow definitions *)

Inductive ExecutionMode : Type := Sync | Async.
Inductive ValidationLevel : Type := Strict | Edges | NoValidation.
Inductive ErrorStrategyType : Type := Halt | Skip | Retry.
Inductive ConditionOperator : Type := Equals | NotEquals | Exists_ | IsEmpty.

#[export] Instance execution_mode_eq_dec : EqDecision ExecutionMode.
Proof. solve_decision. Defined.
#[export] Instance validation_level_eq_dec : EqDecision ValidationLevel.
Proof. solve_decision. Defined.
#[export] Instance error_strategy_type_eq_dec : EqDecision ErrorStrategyType.
Proof. solve_decision. Defined.

Inductive StepDef : Type :=
| mkStep (plugin action : string) (on_error : option ErrorStrategy)
         (condition : option ConditionDef)
with ErrorStrategy : Type :=
| mkStrategy (strategy : ErrorStrategyType) (max_retries : option Z)
             (fallback : option StepDef)
with ConditionDef : Type :=
| mkCondition (field : string) (operator : ConditionOperator) (value : json)
              (then_steps else_steps : list StepDef).

Definition step_plugin (s : StepDef) : string := let 'mkStep p _ _ _ := s in p.
Definition step_action (s : StepDef) : string := let 'mkStep _ a _ _ := s in a.
Definition step_on_error (s : StepDef) : option ErrorStrategy :=
  let 'mkStep _ _ e _ := s in e.
Definition step_condition (s : StepDef) : option ConditionDef :=
  let 'mkStep _ _ _ c := s in c.
Definition strategy_type (e : ErrorStrategy) : ErrorStrategyType :=
  let 'mkStrategy t _ _ := e in t.
Definition strategy_max_retries (e : ErrorStrategy) : option Z :=
  let 'mkStrategy _ n _ := e in n.
Definition strategy_fallback (e : ErrorStrategy) : option StepDef :=
  let 'mkStrategy _ _ f := e in f.

Record TriggerDef : Type := mkTrigger {
  trigger_endpoint : option string;
  trigger_event : option string;
  trigger_schedule : option string;
}.

Record WorkflowDef : Type := mkWorkflow {
  wf_id : string;
  wf_name : string;
  wf_description : option string;
  wf_mode : ExecutionMode;
  wf_validate : ValidationLevel;
  wf_trigger : TriggerDef;
  wf_steps : list StepDef;
}.

Inductive TriggerContext : Type :=
| EndpointTrigger (method path : string) (body : json) (auth : option json)
| EventTrigger (name : string) (payload : json)
| ScheduleTrigger (workflow_id : string) (fired_at : timestamp).

(** ** Workflow errors *)

Inductive WorkflowError : Type :=
| DuplicateWorkflowId (id file1 file2 : string)
| DuplicateEndpoint (endpoint workflow1 workflow2 : string)
| StepHalted (step_index : nat) (plugin action cause : string)
| ValidationFailed (step_index : nat) (details : string)
| LoadFailed (file cause : string)
| InvalidDefinition (workflow_id reason : string)
| RetryExhausted (step_index : nat) (plugin action : string) (retries : Z) (cause : string)
| EventBusError (msg : string)
| SchedulerError (msg : string)
| PluginExecutionError (plugin cause : string).

#[export] Instance workflow_error_eq_dec : EqDecision WorkflowError.
Proof. solve_decision. Defined.

Definition workflow_error_code (e : WorkflowError) : string :=
  match e with
  | DuplicateWorkflowId _ _ _ => "WORKFLOW_001"
  | DuplicateEndpoint _ _ _ => "WORKFLOW_002"
  | StepHalted _ _ _ _ => "WORKFLOW_003"
  | ValidationFailed _ _ => "WORKFLOW_004"
  | LoadFailed _ _ => "WORKFLOW_005"
  | InvalidDefinition _ _ => "WORKFLOW_006"
  | RetryExhausted _ _ _ _ _ => "WORKFLOW_007"
  | EventBusError _ => "WORKFLOW_008"
  | SchedulerError _ => "WORKFLOW_009"
  | PluginExecutionError _ _ => "WORKFLOW_010"
  end.

Definition workflow_error_severity (e : WorkflowError) : Severity :=
  match e with
  | DuplicateWorkflowId _ _ _ | DuplicateEndpoint _ _ _ | LoadFailed _ _
  | InvalidDefinition _ _ | StepHalted _ _ _ _ | ValidationFailed _ _ => Fatal
  | RetryExhausted _ _ _ _ _ | PluginExecutionError _ _ | EventBusError _
  | SchedulerError _ => Retryable
  end.

(** [Display], as [thiserror] derives it from the [#[error(...)]] attributes. *)
Definition workflow_error_display (e : WorkflowError) : string :=
  match e with
  | DuplicateWorkflowId id f1 f2 =>
      "duplicate workflow ID '" +:+ id +:+ "' found in '" +:+ f1 +:+ "' and '" +:+ f2 +:+ "'"
  | DuplicateEndpoint ep w1 w2 =>
      "duplicate endpoint trigger '" +:+ ep +:+ "' in workflows '" +:+ w1 +:+ "' and '"
      +:+ w2 +:+ "'"
  | StepHalted i p a c =>
      "workflow halted at step " +:+ show_nat i +:+ " (" +:+ p +:+ "." +:+ a +:+ "): " +:+ c
  | ValidationFailed i d =>
      "schema validation failed at step " +:+ show_nat i +:+ ": " +:+ d
  | LoadFailed f c => "failed to load workflow from '" +:+ f +:+ "': " +:+ c
  | InvalidDefinition w r => "invalid workflow definition '" +:+ w +:+ "': " +:+ r
  | RetryExhausted i p a n c =>
      "step " +:+ show_nat i +:+ " (" +:+ p +:+ "." +:+ a +:+ ") failed after "
      +:+ show_Z n +:+ " retries: " +:+ c
  | EventBusError m => "event bus error: " +:+ m
  | SchedulerError m => "scheduler error: " +:+ m
  | PluginExecutionError p c => "plugin execution error in '" +:+ p +:+ "': " +:+ c
  end.

(** ** A concrete JSON library for witnesses

    A validator for the [type] keyword alone, and a printer that is enough to
    exercise the engine's uses. *)
Module TypeKeyword.
Definition type_name (j : json) : string :=
  match j with
  | JNull => "null"
  | JBool _ => "boolean"
  | JNum _ => "number"
  | JStr _ => "string"
  | JArr _ => "array"
  | JObj _ => "object"
  end.

Definition check (schema instance : json) : option string :=
  match json_get schema "type" with
  | Some (JStr t) =>
      if bool_decide (type_name instance = t) then None
      else Some ("value is not of type " +:+ t)
  | _ => None
  end.

Fixpoint print (j : json) : string :=
  match j with
  | JNull => "null"
  | JBool true => "true"
  | JBool false => "false"
  | JNum (NInt z) => show_Z z
  | JNum (NFloat m e) => show_Z m +:+ "p" +:+ show_Z e
  | JStr s => "'" +:+ s +:+ "'"
  | JArr xs => "[" +:+ join "," (map print xs) +:+ "]"
  | JObj kvs => "{" +:+ join "," (map (λ '(k, v), k +:+ ":" +:+ print v) kvs) +:+ "}"
  end.
End TypeKeyword.

Definition type_keyword_lib : JsonLib := {|
  schema_compile_error _ := None;
  schema_error := TypeKeyword.check;
  payload_to_string p := TypeKeyword.print (payload_to_value p);
|}.

Lemma type_keyword_laws : @JsonLibLaws type_keyword_lib.
Proof. split; [done|]. intros []; by vm_compute. Qed.

(** ** Facts about payloads *)

(** What the engine reads back from the serialised envelope is the inner value. *)
Lemma payload_to_value_data p : json_get (payload_to_value p) "data" = Some (payload_inner p).
Proof. by destruct p as [[]|]. Qed.

Lemma cdm_inner_object c : is_object (cdm_to_value c) = true.
Proof. by destruct c. Qed.

Lemma schema_validated_new_object `{JsonLibLaws} v v' :
  schema_validated_new v object_schema = Ok v' ↔ v' = v ∧ is_object v = true.
Proof.
  unfold schema_validated_new. rewrite object_schema_compiles, <- object_schema_valid.
  destruct (schema_error object_schema v); naive_solver.
Qed.
