(* ===== verification/Executor.v ===== *)
(** * The pipeline executor

    packages/workflow-engine/src/executor.rs: building the initial message,
    validating messages, resolving and evaluating conditions, and running the
    steps of a workflow with their error strategies. A run is a computation
    [M A] over the executor's environment (the plugins and the clock), the step
    log and a ghost trace of plugin calls and sleeps; it returns, fails with a
    [WorkflowError], or panics. *)

From stdpp Require Import base tactics list strings.
From Stdlib Require Import Ascii ZArith.
From S2P Require Import Prelude RustString Json Types.

Local Open Scope string_scope.

(** ** Logs *)

Inductive ExecutionStatus : Type := ExecCompleted | ExecFailed | ExecPartiallyFailed.
Inductive StepStatus : Type := StepCompleted | StepFailed | StepSkipped | StepRetried.

#[export] Instance execution_status_eq_dec : EqDecision ExecutionStatus.
Proof. solve_decision. Defined.
#[export] Instance step_status_eq_dec : EqDecision StepStatus.
Proof. solve_decision. Defined.

Record StepErrorLog : Type := mkStepErrorLog {
  sel_message : string;
  sel_code : string;
  sel_severity : string;
  sel_input_summary : string;
}.

Record StepLog : Type := mkStepLog {
  sl_index : nat;
  sl_plugin_id : string;
  sl_action : string;
  sl_status : StepStatus;
  sl_duration_ms : Z;
  sl_error : option StepErrorLog;
  sl_retry_count : option Z;
}.

Record ExecutionLog : Type := mkExecutionLog {
  el_workflow_id : string;
  el_trigger_type : string;
  el_trigger_value : string;
  el_started_at : timestamp;
  el_completed_at : timestamp;
  el_total_duration_ms : Z;
  el_status : ExecutionStatus;
  el_steps : list StepLog;
}.

(** ** Messages *)

(** [build_initial_message], with the fresh correlation id and the clock as
    arguments. *)
Definition trigger_parts (ctx : TriggerContext) : string * json * option json :=
  match ctx with
  | EndpointTrigger method path body auth =>
      ("endpoint:" +:+ method +:+ " " +:+ path, body, auth)
  | EventTrigger name p => ("event:" +:+ name, p, None)
  | ScheduleTrigger wid _ => ("schedule:" +:+ wid, mk_obj [], None)
  end.

Definition build_initial_message `{JsonLib} (fresh : uuid) (now : timestamp)
    (ctx : TriggerContext) : result PipelineMessage WorkflowError :=
  let '(src, value, auth) := trigger_parts ctx in
  let? validated :=
    result_map_err (PluginExecutionError "workflow-engine")
      (schema_validated_new value object_schema) in
  Ok (mkMessage (mkMetadata fresh src now auth []) (Custom validated)).

(** [validate_message]. Serialising a payload cannot fail: its map keys are
    strings. *)
Definition validate_message `{JsonLib} (message : PipelineMessage) (step_index : nat)
    (context : string) : result unit WorkflowError :=
  let payload_json := payload_to_value (payload message) in
  let data := default payload_json (json_get payload_json "data") in
  match schema_compile_error object_schema with
  | Some e => Err (ValidationFailed step_index ("schema compilation error: " +:+ e))
  | None =>
      match schema_error object_schema data with
      | Some e => Err (ValidationFailed step_index (context +:+ ": " +:+ e))
      | None => Ok tt
      end
  end.

Definition derive_trigger_info (w : WorkflowDef) : string * string :=
  match trigger_endpoint (wf_trigger w), trigger_event (wf_trigger w),
        trigger_schedule (wf_trigger w) with
  | Some e, _, _ => ("endpoint", e)
  | None, Some e, _ => ("event", e)
  | None, None, Some s => ("schedule", s)
  | None, None, None => ("unknown", empty_str)
  end.

(** [resolve_field]: walk a dot path from the payload's data. *)
Fixpoint walk_path (current : json) (segments : list string) : option json :=
  match segments with
  | [] => Some current
  | seg :: rest =>
      match json_get current seg with
      | Some v => walk_path v rest
      | None => None
      end
  end.

Definition resolve_field (message : PipelineMessage) (field : string) : option json :=
  let payload_value := payload_to_value (payload message) in
  let root := default payload_value (json_get payload_value "data") in
  let path := default field (strip_prefix "payload." field) in
  walk_path root (split "."%char path).

Definition evaluate_condition (operator : ConditionOperator) (resolved : option json)
    (comparison_value : json) : bool :=
  match operator with
  | Equals =>
      match resolved with
      | Some v => bool_decide (v = comparison_value)
      | None => false
      end
  | NotEquals =>
      match resolved with
      | Some v => bool_decide (v ≠ comparison_value)
      | None => false
      end
  | Exists_ => bool_decide (is_Some resolved)
  | IsEmpty =>
      match resolved with
      | None => true
      | Some v =>
          is_null v || default false (is_empty <$> as_str v)
          || default false ((λ a, bool_decide (a = [])) <$> as_array v)
      end
  end.

(** ** The executor's environment

    [PluginExecutor] is the trait the plugin system implements; together with
    the wall clock and the timer it is the world a run acts on. *)
Class PluginExecutor (W : Type) : Type := {
  plugin_execute :
    string → string → PipelineMessage → W → result PipelineMessage EngineError * W;
  clock_now : W → timestamp * W;
  clock_sleep : Z → W → W;
}.

Inductive Obs : Type :=
| ObsExecute (plugin action : string) (input : PipelineMessage)
| ObsSleep (secs : Z).

Record ExecState (W : Type) : Type := mkExecState {
  world : W;
  trace : list Obs;
  step_logs : list StepLog;
  execution_logs : list ExecutionLog;
}.
Arguments mkExecState {W} _ _ _ _.
Arguments world {W} _.
Arguments trace {W} _.
Arguments step_logs {W} _.
Arguments execution_logs {W} _.

Inductive outcome (A : Type) : Type :=
| Ret (a : A)
| Throw (e : WorkflowError)
| Panic (why : string).
Arguments Ret {A} _.
Arguments Throw {A} _.
Arguments Panic {A} _.

Section Monad.
Context {W : Type} `{PluginExecutor W}.

Definition M (A : Type) : Type := ExecState W → outcome A * ExecState W.

#[global] Instance M_ret : MRet M := λ A a s, (Ret a, s).

#[global] Instance M_bind : MBind M := λ A B k m s,
  match m s with
  | (Ret a, s') => k a s'
  | (Throw e, s') => (Throw e, s')
  | (Panic w, s') => (Panic w, s')
  end.

Definition throw {A} (e : WorkflowError) : M A := λ s, (Throw e, s).
Definition panic {A} (why : string) : M A := λ s, (Panic why, s).

Definition lift {A} (r : result A WorkflowError) : M A :=
  match r with
  | Ok a => mret a
  | Err e => throw e
  end.

(** Catch an error, as binding a [Result] without [?] does; panics unwind. *)
Definition try_catch {A} (m : M A) : M (result A WorkflowError) := λ s,
  match m s with
  | (Ret a, s') => (Ret (Ok a), s')
  | (Throw e, s') => (Ret (Err e), s')
  | (Panic w, s') => (Panic w, s')
  end.

Definition utc_now : M timestamp := λ s,
  let '(t, w) := clock_now (world s) in
  (Ret t, mkExecState w (trace s) (step_logs s) (execution_logs s)).

Definition sleep (secs : Z) : M unit := λ s,
  (Ret tt, mkExecState (clock_sleep secs (world s)) (trace s ++ [ObsSleep secs])
             (step_logs s) (execution_logs s)).

Definition call_plugin (plugin action : string) (input : PipelineMessage)
    : M (result PipelineMessage EngineError) := λ s,
  let '(r, w) := plugin_execute plugin action input (world s) in
  (Ret r, mkExecState w (trace s ++ [ObsExecute plugin action input])
            (step_logs s) (execution_logs s)).

Definition push_log (l : StepLog) : M unit := λ s,
  (Ret tt, mkExecState (world s) (trace s) (step_logs s ++ [l]) (execution_logs s)).

Definition reset_logs : M unit := λ s,
  (Ret tt, mkExecState (world s) (trace s) [] (execution_logs s)).

Definition get_logs : M (list StepLog) := λ s, (Ret (step_logs s), s).

Definition emit_execution_log (l : ExecutionLog) : M unit := λ s,
  (Ret tt, mkExecState (world s) (trace s) (step_logs s) (execution_logs s ++ [l])).

End Monad.
Arguments M W A : clear implicits.

(** ** Running steps *)

Section Steps.
Context {W : Type} `{PluginExecutor W} `{JsonLib}.

(** Whether the build has arithmetic overflow checks (debug profile). *)
Context (overflow_checks : bool).

(** [summarize_input]: slicing at byte 200 panics off a char boundary. *)
Definition summarize_input (message : PipelineMessage) : M W string :=
  let txt := payload_to_string (payload message) in
  if (200 <? String.length txt)%nat then
    match slice_to txt 200 with
    | Some p => mret (p +:+ "...")
    | None => panic "byte index 200 is not a char boundary"
    end
  else mret txt.

(** [min(1u64 << (attempt - 1), 30)]: a shift by 64 or more panics with
    overflow checks and is taken modulo 64 without them. *)
Definition shl_one_u64 (k : Z) : option Z :=
  if (k <? 64)%Z then Some (Z.shiftl 1 k)
  else if overflow_checks then None
  else Some (Z.shiftl 1 (Z.land k 63)).

Definition backoff_secs (attempt : Z) : option Z :=
  (λ v, Z.min v 30) <$> shl_one_u64 (attempt - 1).

Definition log_entry (index : nat) (step : StepDef) (status : StepStatus) (ms : Z)
    (error : option StepErrorLog) (retries : option Z) : StepLog :=
  mkStepLog index (step_plugin step) (step_action step) status ms error retries.

(** [StepErrorLog] of a plugin error. *)
Definition error_log (message : string) (e : EngineError) (summary : string) : StepErrorLog :=
  mkStepErrorLog message (err_code e) (severity_display (err_severity e)) summary.

Definition effective_strategy (severity : Severity) (step : StepDef)
    : option ErrorStrategyType :=
  match severity with
  | Fatal => Some Halt
  | Warning => None
  | Retryable =>
      match step_on_error step with
      | None => Some Retry
      | Some e => Some (strategy_type e)
      end
  end.

(** The result of the retry loop. *)
Inductive RetryResult : Type :=
| RetrySucceeded (output : PipelineMessage) (retry_count : Z)
| RetryFailed (last_error : EngineError).

(** [for attempt in 1..=max_retries]: [remaining] iterations are left. *)
Fixpoint retry_loop (step : StepDef) (message : PipelineMessage) (remaining : nat)
    (attempt : Z) (last_error : EngineError) : M W RetryResult :=
  match remaining with
  | O => mret (RetryFailed last_error)
  | S remaining' =>
      match backoff_secs attempt with
      | None => panic "attempt to shift left with overflow"
      | Some backoff =>
          sleep backoff;;
          r ← call_plugin (step_plugin step) (step_action step) message;
          match r with
          | Ok output => mret (RetrySucceeded output attempt)
          | Err e => retry_loop step message remaining' (attempt + 1) e
          end
      end
  end.

Definition step_max_retries (step : StepDef) : Z :=
  default 3%Z (step_on_error step ≫= strategy_max_retries).

Definition halt_step (index : nat) (step : StepDef) (message : PipelineMessage)
    (step_start : timestamp) (e : EngineError) : M W PipelineMessage :=
  t ← utc_now;
  summary ← summarize_input message;
  push_log (log_entry index step StepFailed (duration_ms step_start t)
              (Some (error_log (err_display e) e summary)) None);;
  throw (StepHalted index (step_plugin step) (step_action step) (err_display e)).

Definition skip_warning (index : nat) (step : StepDef) (e : EngineError) : string :=
  "step " +:+ show_nat index +:+ " (" +:+ step_plugin step +:+ "." +:+ step_action step
  +:+ ") skipped: " +:+ err_display e.

Definition add_warning (message : PipelineMessage) (w : string) : PipelineMessage :=
  let m := metadata message in
  mkMessage (mkMetadata (correlation_id m) (source m) (msg_timestamp m) (auth_context m)
               (warnings m ++ [w])) (payload message).

Definition skip_step (index : nat) (step : StepDef) (message : PipelineMessage)
    (step_start : timestamp) (e : EngineError) : M W PipelineMessage :=
  t ← utc_now;
  summary ← summarize_input message;
  push_log (log_entry index step StepSkipped (duration_ms step_start t)
              (Some (error_log (err_display e) e summary)) None);;
  mret (add_warning message (skip_warning index step e)).

(** Log a step whose retries are used up and fail the workflow. *)
Definition exhausted (index : nat) (step : StepDef) (message : PipelineMessage)
    (step_start : timestamp) (last_error : EngineError) (cause : string)
    : M W PipelineMessage :=
  t ← utc_now;
  summary ← summarize_input message;
  push_log (log_entry index step StepFailed (duration_ms step_start t)
              (Some (error_log cause last_error summary)) (Some (step_max_retries step)));;
  throw (RetryExhausted index (step_plugin step) (step_action step)
           (step_max_retries step) cause).

Definition retry_step (index : nat) (step : StepDef) (message : PipelineMessage)
    (step_start : timestamp) (e : EngineError) : M W PipelineMessage :=
  r ← retry_loop step message (Z.to_nat (step_max_retries step)) 1 e;
  match r with
  | RetrySucceeded output count =>
      t ← utc_now;
      push_log (log_entry index step StepRetried (duration_ms step_start t) None (Some count));;
      mret output
  | RetryFailed last_error =>
      match step_on_error step ≫= strategy_fallback with
      | Some fb =>
          fr ← call_plugin (step_plugin fb) (step_action fb) message;
          match fr with
          | Ok output => mret output
          | Err fe =>
              exhausted index step message step_start last_error
                ("retries failed: " +:+ err_display last_error
                 +:+ "; fallback also failed: " +:+ err_display fe)
          end
      | None => exhausted index step message step_start last_error (err_display last_error)
      end
  end.

Definition strict_context (index : nat) (step : StepDef) : string :=
  "strict validation after step " +:+ show_nat index +:+ " (" +:+ step_plugin step
  +:+ "." +:+ step_action step +:+ ")".

(** The body of the loop for a step without a condition. *)
Definition execute_plugin_step (validate : ValidationLevel) (index : nat) (step : StepDef)
    (message : PipelineMessage) : M W PipelineMessage :=
  step_start ← utc_now;
  r ← call_plugin (step_plugin step) (step_action step) message;
  match r with
  | Ok output =>
      t ← utc_now;
      push_log (log_entry index step StepCompleted (duration_ms step_start t) None None);;
      if bool_decide (validate = Strict) then
        lift (validate_message output index (strict_context index step));;
        mret output
      else mret output
  | Err e =>
      match effective_strategy (err_severity e) step with
      | None => mret message
      | Some Halt => halt_step index step message step_start e
      | Some Skip => skip_step index step message step_start e
      | Some Retry => retry_step index step message step_start e
      end
  end.
End Steps.

(** The loop [for (offset, step) in steps.iter().enumerate()] over a loop body. *)
Section Loop.
Context {W : Type} (body : nat → StepDef → PipelineMessage → M W PipelineMessage).

Fixpoint run_list (steps : list StepDef) (index : nat) (message : PipelineMessage)
    : M W PipelineMessage :=
  match steps with
  | [] => mret message
  | step :: rest =>
      message' ← body index step message;
      run_list rest (S index) message'
  end.
End Loop.

Section Run.
Context {W : Type} `{PluginExecutor W} `{JsonLib}.
Context (overflow_checks : bool).

(** One iteration of [execute_steps]: a conditional step runs its branch with
    indices from [index * 100]. *)
Fixpoint execute_step (validate : ValidationLevel) (index : nat) (step : StepDef)
    (message : PipelineMessage) {struct step} : M W PipelineMessage :=
  match step with
  | mkStep plugin action on_error (Some (mkCondition field operator value thens elses)) =>
      if evaluate_condition operator (resolve_field message field) value
      then run_list (execute_step validate) thens (index * 100) message
      else run_list (execute_step validate) elses (index * 100) message
  | mkStep plugin action on_error None =>
      execute_plugin_step overflow_checks validate index step message
  end.

Definition execute_steps (validate : ValidationLevel) (steps : list StepDef)
    (base_index : nat) (message : PipelineMessage) : M W PipelineMessage :=
  run_list (execute_step validate) steps base_index message.

Definition validates_edges (v : ValidationLevel) : bool :=
  bool_decide (v = Strict) || bool_decide (v = Edges).

Definition status_of {A} (r : result A WorkflowError) (logs : list StepLog) : ExecutionStatus :=
  match r with
  | Ok _ =>
      if existsb (λ l, bool_decide (sl_status l = StepSkipped)) logs
      then ExecPartiallyFailed else ExecCompleted
  | Err _ => ExecFailed
  end.

Definition run_steps (workflow : WorkflowDef) (initial_message : PipelineMessage)
    : M W PipelineMessage :=
  started_at ← utc_now;
  (if validates_edges (wf_validate workflow)
   then lift (validate_message initial_message 0 "entry validation")
   else mret tt);;
  reset_logs;;
  r ← try_catch (execute_steps (wf_validate workflow) (wf_steps workflow) 0 initial_message);
  completed_at ← utc_now;
  logs ← get_logs;
  let '(trigger_type, trigger_value) := derive_trigger_info workflow in
  emit_execution_log
    (mkExecutionLog (wf_id workflow) trigger_type trigger_value started_at completed_at
       (duration_ms started_at completed_at) (status_of r logs) logs);;
  match r with
  | Ok msg =>
      (if validates_edges (wf_validate workflow)
       then lift (validate_message msg (length (wf_steps workflow) - 1) "exit validation")
       else mret tt);;
      mret msg
  | Err e => throw e
  end.
End Run.
