(* ===== verification/ExecutorFacts.v ===== *)
(** * Facts about the pipeline executor

    Sequencing, bounds on plugin calls and sleeping, the retry schedule, error
    severities, validation at the edges, and the refinement of the executor to
    a specification without time, logs or retries. *)

From stdpp Require Import base tactics list strings.
From Stdlib Require Import Ascii ZArith Lia.
From S2P Require Import Prelude RustString Json Types Executor.


(** ** Induction over step definitions *)

Section StepInd.
Context (P : StepDef → Prop).
Context (Hplugin : ∀ p a oe, P (mkStep p a oe None)).
Context (Hcond : ∀ p a oe f op v th el,
  Forall P th → Forall P el → P (mkStep p a oe (Some (mkCondition f op v th el)))).

Fixpoint step_nested_ind (s : StepDef) : P s :=
  let go := fix go (l : list StepDef) : Forall P l :=
    match l with
    | [] => Forall_nil_2 P
    | x :: l' => Forall_cons_2 P x l' (step_nested_ind x) (go l')
    end in
  match s with
  | mkStep p a oe None => Hplugin p a oe
  | mkStep p a oe (Some (mkCondition f op v th el)) => Hcond p a oe f op v th el (go th) (go el)
  end.
End StepInd.

(** ** Equations of the monad *)

Section MonadFacts.
Context {W : Type} `{PluginExecutor W}.

Lemma bind_assoc_M {A B C} (m : M W A) (f : A → M W B) (g : B → M W C) s :
  ((m ≫= f) ≫= g) s = (m ≫= (λ x, f x ≫= g)) s.
Proof. unfold mbind, M_bind. by destruct (m s) as [[]]. Qed.

Lemma bind_ext_M {A B} (m : M W A) (f g : A → M W B) s :
  (∀ a s', f a s' = g a s') → (m ≫= f) s = (m ≫= g) s.
Proof. intros E. unfold mbind, M_bind. destruct (m s) as [[]]; auto. Qed.
End MonadFacts.

(** ** Costs

    A computation costs at most [n] when the observations it adds to the trace,
    weighted by [cost], sum to at most [n]. *)

Section Cost.
Context {W : Type} `{PluginExecutor W}.
Context (cost : Obs → nat).

Definition total (t : list Obs) : nat := sum_list_with cost t.

Definition costs_at_most {A} (n : nat) (m : M W A) : Prop :=
  ∀ s, ∃ δ, trace (m s).2 = trace s ++ δ ∧ total δ ≤ n.

Lemma total_app a b : total (a ++ b) = total a + total b.
Proof. apply sum_list_with_app. Qed.

Lemma costs_weaken {A} n n' (m : M W A) : n ≤ n' → costs_at_most n m → costs_at_most n' m.
Proof. intros Hn Hm s. destruct (Hm s) as (δ & ? & ?). exists δ. split; [done|lia]. Qed.

Lemma costs_bind {A B} n n' (m : M W A) (k : A → M W B) :
  costs_at_most n m → (∀ a, costs_at_most n' (k a)) → costs_at_most (n + n') (m ≫= k).
Proof.
  intros Hm Hk s. destruct (Hm s) as (δ & Hδ & Hn). unfold mbind, M_bind.
  destruct (m s) as [[a|e|w] s'] eqn:E; simpl in *.
  - destruct (Hk a s') as (δ' & Hδ' & Hn'). exists (δ ++ δ').
    rewrite Hδ', Hδ, app_assoc, total_app. split; [done|lia].
  - exists δ. split; [done|lia].
  - exists δ. split; [done|lia].
Qed.

(** Computations that leave the trace alone. *)
Definition silent {A} (m : M W A) : Prop := ∀ s, trace (m s).2 = trace s.

Lemma silent_costs {A} (m : M W A) n : silent m → costs_at_most n m.
Proof.
  intros Hm s. exists []. rewrite app_nil_r. split; [apply Hm|simpl; lia].
Qed.

Lemma silent_bind {A B} (m : M W A) (k : A → M W B) :
  silent m → (∀ a, silent (k a)) → silent (m ≫= k).
Proof.
  intros Hm Hk s. specialize (Hm s). unfold mbind, M_bind.
  destruct (m s) as [[a|e|w] s'] eqn:E; simpl in *; [by rewrite Hk|done..].
Qed.

Lemma silent_ret {A} (a : A) : silent (mret a : M W A).
Proof. done. Qed.
Lemma silent_throw {A} e : silent (throw e : M W A).
Proof. done. Qed.
Lemma silent_panic {A} w : silent (panic w : M W A).
Proof. done. Qed.
Lemma silent_now : silent (utc_now : M W Z).
Proof. intros s. unfold utc_now. by destruct (clock_now (world s)). Qed.
Lemma silent_push l : silent (push_log l : M W unit).
Proof. done. Qed.
Lemma silent_lift {A} (r : result A WorkflowError) : silent (lift r : M W A).
Proof. by destruct r. Qed.
Lemma silent_summarize `{JsonLib} msg : silent (summarize_input msg : M W string).
Proof. unfold summarize_input. case_match; [case_match|]; done. Qed.
End Cost.

#[export] Hint Resolve silent_ret silent_throw silent_panic silent_now silent_push
  silent_lift silent_summarize : engine.

(** Solve goals that a chain of primitive operations is silent. *)
Ltac solve_silent :=
  repeat first [apply silent_bind; [solve [auto with engine]|intros ?] | solve [auto with engine]].

Section StepCost.
Context {W : Type} `{PluginExecutor W} `{JsonLib}.
Context (overflow_checks : bool).
Context (cost : Obs → nat) (call_cost sleep_cost : nat).
Context (Hcall : ∀ p a m, cost (ObsExecute p a m) ≤ call_cost).
Context (Hsleep : ∀ k, (0 ≤ k ≤ 30)%Z → cost (ObsSleep k) ≤ sleep_cost).

Lemma costs_call p a m : costs_at_most cost call_cost (call_plugin p a m : M W _).
Proof.
  intros s. unfold call_plugin. destruct (plugin_execute p a m (world s)) as [r w]. simpl.
  exists [ObsExecute p a m]. split; [done|]. simpl. specialize (Hcall p a m). lia.
Qed.

Lemma costs_sleep k : (0 ≤ k ≤ 30)%Z → costs_at_most cost sleep_cost (sleep k : M W _).
Proof.
  intros Hk s. exists [ObsSleep k]. split; [done|]. simpl. specialize (Hsleep k Hk). lia.
Qed.

Lemma shl_one_nonneg k v : (0 ≤ k)%Z → shl_one_u64 overflow_checks k = Some v → (1 ≤ v)%Z.
Proof.
  unfold shl_one_u64. intros Hk. case_match; [|case_match; [done|]].
  - intros [= <-]. rewrite Z.shiftl_1_l. assert (0 < 2 ^ k)%Z by (apply Z.pow_pos_nonneg; lia). lia.
  - intros [= <-]. rewrite Z.shiftl_1_l.
    assert (0 ≤ Z.land k 63)%Z by (apply Z.land_nonneg; lia).
    assert (0 < 2 ^ Z.land k 63)%Z by (apply Z.pow_pos_nonneg; lia). lia.
Qed.

Lemma backoff_range attempt b :
  (1 ≤ attempt)%Z → backoff_secs overflow_checks attempt = Some b → (1 ≤ b ≤ 30)%Z.
Proof.
  unfold backoff_secs. intros Ha. destruct (shl_one_u64 _ _) as [v|] eqn:E; [|done].
  apply shl_one_nonneg in E; [|lia]. intros [= <-]. lia.
Qed.

Lemma costs_retry_loop step msg n attempt e :
  (1 ≤ attempt)%Z →
  costs_at_most cost (n * (sleep_cost + call_cost))
    (retry_loop overflow_checks step msg n attempt e : M W _).
Proof.
  revert attempt e. induction n as [|n IH]; intros attempt e Ha; simpl.
  - apply silent_costs. auto with engine.
  - destruct (backoff_secs overflow_checks attempt) as [b|] eqn:Eb;
      [|apply silent_costs; auto with engine].
    pose proof (backoff_range _ _ Ha Eb).
    eapply costs_weaken; [|apply costs_bind; [apply costs_sleep; lia|intros _]].
    2: { apply costs_bind; [apply costs_call|intros [out|e']].
         - apply silent_costs. auto with engine.
         - apply IH. lia. }
    lia.
Qed.

(** The most a step can cost: one call, [max_retries] retries each with a sleep,
    and one fallback call; a conditional step costs its dearer branch. *)
Fixpoint step_cost_bound (step : StepDef) : nat :=
  match step with
  | mkStep _ _ _ (Some (mkCondition _ _ _ thens elses)) =>
      Nat.max (sum_list_with step_cost_bound thens) (sum_list_with step_cost_bound elses)
  | mkStep _ _ _ None =>
      2 * call_cost + Z.to_nat (step_max_retries step) * (sleep_cost + call_cost)
  end.

Lemma costs_retry_step index step msg t e :
  costs_at_most cost
    (Z.to_nat (step_max_retries step) * (sleep_cost + call_cost) + call_cost)
    (retry_step overflow_checks index step msg t e : M W _).
Proof.
  unfold retry_step. apply costs_bind; [by apply costs_retry_loop|].
  assert (∀ le c, silent (exhausted index step msg t le c : M W _)) as Hex.
  { intros. unfold exhausted. solve_silent. }
  intros [out c|le]; [apply silent_costs; solve_silent|].
  destruct (step_on_error step ≫= strategy_fallback) as [fb|]; [|by apply silent_costs].
  rewrite <- (Nat.add_0_r call_cost). apply costs_bind; [apply costs_call|].
  intros [out|fe]; apply silent_costs; auto with engine.
Qed.

Lemma costs_execute_plugin_step v index step msg :
  costs_at_most cost
    (2 * call_cost + Z.to_nat (step_max_retries step) * (sleep_cost + call_cost))
    (execute_plugin_step overflow_checks v index step msg : M W _).
Proof.
  unfold execute_plugin_step.
  eapply (costs_weaken cost (0 + _)); [|apply costs_bind;
    [apply silent_costs; auto with engine|intros t]].
  2: apply costs_bind; [apply costs_call|intros [out|e]].
  3: { destruct (effective_strategy (err_severity e) step) as [[]|].
       - apply silent_costs. unfold halt_step. solve_silent.
       - apply silent_costs. unfold skip_step. solve_silent.
       - apply costs_retry_step.
       - apply silent_costs. auto with engine. }
  2: { apply silent_costs. case_bool_decide; solve_silent. }
  lia.
Qed.

Lemma costs_run_list body steps index msg :
  (∀ step, step ∈ steps → ∀ i m, costs_at_most cost (step_cost_bound step) (body i step m)) →
  costs_at_most cost (sum_list_with step_cost_bound steps) (@run_list W body steps index msg).
Proof.
  revert index msg. induction steps as [|step steps IH]; intros index msg Hb; simpl.
  - apply silent_costs. auto with engine.
  - apply costs_bind; [apply Hb; auto with engine|].
    intros m'. apply IH. intros. apply Hb. auto with engine.
Qed.

Lemma costs_execute_step v index step msg :
  costs_at_most cost (step_cost_bound step)
    (execute_step overflow_checks v index step msg : M W _).
Proof.
  revert index msg. induction step as [p a oe|p a oe f op value th el Hth Hel]
    using step_nested_ind; intros index msg; simpl.
  - apply costs_execute_plugin_step.
  - rewrite Forall_forall in Hth, Hel. case_match.
    + eapply costs_weaken; [|apply costs_run_list]; [lia|auto].
    + eapply costs_weaken; [|apply costs_run_list]; [lia|auto].
Qed.

Lemma costs_execute_steps v steps index msg :
  costs_at_most cost (sum_list_with step_cost_bound steps)
    (execute_steps overflow_checks v steps index msg : M W _).
Proof. apply costs_run_list. intros. apply costs_execute_step. Qed.
End StepCost.

(** ** Bounds *)

Definition is_call (o : Obs) : nat :=
  match o with
  | ObsExecute _ _ _ => 1
  | ObsSleep _ => 0
  end.

Definition slept (o : Obs) : nat :=
  match o with
  | ObsExecute _ _ _ => 0
  | ObsSleep k => Z.to_nat k
  end.

(** C10. Running a list of steps always finishes, and over any plugins it makes
    at most two plugin calls per step (the first one and a fallback) plus one
    per allowed retry, taking the dearer branch of each condition, and sleeps at
    most 30 seconds per allowed retry. *)
Theorem execute_steps_bounded {W} `{PluginExecutor W} `{JsonLib}
    (overflow_checks : bool) v steps index msg (s : ExecState W) :
  ∃ r s' δ,
    execute_steps overflow_checks v steps index msg s = (r, s') ∧
    trace s' = trace s ++ δ ∧
    total is_call δ ≤ sum_list_with (step_cost_bound 1 0) steps ∧
    total slept δ ≤ sum_list_with (step_cost_bound 0 30) steps.
Proof.
  assert (costs_at_most is_call (sum_list_with (step_cost_bound 1 0) steps)
            (execute_steps overflow_checks v steps index msg : M W _)) as Hc.
  { apply costs_execute_steps; simpl; intros; lia. }
  assert (costs_at_most slept (sum_list_with (step_cost_bound 0 30) steps)
            (execute_steps overflow_checks v steps index msg : M W _)) as Hs.
  { apply costs_execute_steps; simpl; intros; lia. }
  destruct (Hc s) as (δ & Hδ & Hn), (Hs s) as (δ' & Hδ' & Hn').
  rewrite Hδ in Hδ'. apply app_inv_head in Hδ' as <-.
  destruct (execute_steps overflow_checks v steps index msg s) as [r s']. by exists r, s', δ.
Qed.

(** ** Sequencing *)

Lemma run_list_app {W} body (xs ys : list StepDef) index msg (s : ExecState W) :
  run_list body (xs ++ ys) index msg s =
  (m' ← run_list body xs index msg; run_list body ys (index + length xs) m') s.
Proof.
  revert index msg s. induction xs as [|x xs IH]; intros index msg s; simpl.
  - by rewrite Nat.add_0_r.
  - rewrite bind_assoc_M. apply bind_ext_M. intros m' s'. rewrite IH.
    by rewrite Nat.add_succ_r.
Qed.

(** A pipeline cut in two anywhere behaves as the two parts in sequence: the
    second part starts from the first part's output message, with step indices
    continuing where the first part ended, and does not run at all when the first
    part fails. *)
Theorem execute_steps_app {W} `{PluginExecutor W} `{JsonLib}
    overflow_checks v xs ys index msg (s : ExecState W) :
  execute_steps overflow_checks v (xs ++ ys) index msg s =
  match execute_steps overflow_checks v xs index msg s with
  | (Ret m', s') => execute_steps overflow_checks v ys (index + length xs) m' s'
  | (Throw e, s') => (Throw e, s')
  | (Panic w, s') => (Panic w, s')
  end.
Proof. unfold execute_steps. apply run_list_app. Qed.

(** ** The retry schedule *)

Definition retry_delay (k : nat) : Z := Z.min (2 ^ (Z.of_nat k - 1)) 30.

Definition retry_obs (step : StepDef) (msg : PipelineMessage) (k : nat) : list Obs :=
  [ObsSleep (retry_delay k); ObsExecute (step_plugin step) (step_action step) msg].

Lemma backoff_in_range overflow_checks k :
  1 ≤ k → k ≤ 64 → backoff_secs overflow_checks (Z.of_nat k) = Some (retry_delay k).
Proof.
  intros Hk1 Hk. unfold backoff_secs, shl_one_u64, retry_delay.
  assert (Z.of_nat k - 1 <? 64 = true)%Z as -> by lia. simpl.
  by rewrite Z.shiftl_1_l.
Qed.

Lemma retry_loop_trace {W} `{PluginExecutor W} overflow_checks step msg n k e (s : ExecState W) :
  1 ≤ k → k + n ≤ 65 →
  ∃ r s', retry_loop overflow_checks step msg n (Z.of_nat k) e s = (Ret r, s') ∧
    step_logs s' = step_logs s ∧
    match r with
    | RetrySucceeded _ c => ∃ j, 1 ≤ j ≤ n ∧ c = Z.of_nat (k + j - 1) ∧
        trace s' = trace s ++ concat (retry_obs step msg <$> seq k j)
    | RetryFailed _ => trace s' = trace s ++ concat (retry_obs step msg <$> seq k n)
    end.
Proof.
  revert k e s. induction n as [|n IH]; intros k e s Hk Hkn.
  { exists (RetryFailed e), s. simpl. by rewrite app_nil_r. }
  simpl. rewrite backoff_in_range by lia. unfold mbind, M_bind, sleep, call_plugin; simpl.
  destruct (plugin_execute _ _ msg _) as [[out|e'] w]; simpl.
  - eexists _, _. split; [done|]. simpl. split; [done|]. exists 1. simpl.
    split; [lia|]. split; [lia|]. by rewrite <- !app_assoc.
  - set (s1 := mkExecState w _ _ _).
    destruct (IH (S k) e' s1) as (r & s' & Hrun & Hlog & Hr); [lia..|].
    exists r, s'. replace (Z.of_nat k + 1)%Z with (Z.of_nat (S k)) by lia.
    split; [done|]. split; [by rewrite Hlog|]. destruct r as [o c|le].
    + destruct Hr as (j & Hj & -> & Ht). exists (S j). split; [lia|]. split; [lia|].
      rewrite Ht. unfold s1. simpl. by rewrite <- !app_assoc.
    + rewrite Hr. unfold s1. simpl. by rewrite <- !app_assoc.
Qed.

(** The retry schedule. With at most 64 retries the loop never panics; it
    sleeps [min(2^(k-1), 30)] seconds before attempt [k] and calls the same
    action with the same input message each time, stops at the first success
    (reporting that attempt's number), and otherwise makes exactly [n] attempts. *)
Theorem retry_schedule {W} `{PluginExecutor W} overflow_checks step msg n e (s : ExecState W) :
  n ≤ 64 →
  ∃ r s', retry_loop overflow_checks step msg n 1 e s = (Ret r, s') ∧
    match r with
    | RetrySucceeded _ c => ∃ j, 1 ≤ j ≤ n ∧ c = Z.of_nat j ∧
        trace s' = trace s ++ concat (retry_obs step msg <$> seq 1 j)
    | RetryFailed _ => trace s' = trace s ++ concat (retry_obs step msg <$> seq 1 n)
    end.
Proof.
  intros Hn. destruct (retry_loop_trace overflow_checks step msg n 1 e s) as (r & s' & Hr & _ & H');
    [lia..|].
  exists r, s'. split; [exact Hr|]. destruct r as [o c|le]; [|done].
  destruct H' as (j & ? & -> & ?). exists j. split; [done|]. split; [lia|done].
Qed.

(** ** Environments for witnesses

    A world that answers plugin calls from a script of results, with a clock
    that a sleep advances. *)
Record Script : Type := mkScript {
  script_results : list (result PipelineMessage EngineError);
  script_clock : Z;
}.

#[export] Instance script_executor : PluginExecutor Script := {|
  plugin_execute _ _ m w :=
    match script_results w with
    | r :: rs => (r, mkScript rs (script_clock w))
    | [] => (Ok m, w)
    end;
  clock_now w := (script_clock w, w);
  clock_sleep k w := mkScript (script_results w) (script_clock w + k * 1000000000);
|}.

Definition start {W} (w : W) : ExecState W := mkExecState w [] [] [].

Definition demo_error (sev : Severity) : EngineError := mkEngineError "E" sev "demo" "boom".
Definition demo_step (oe : option ErrorStrategy) : StepDef := mkStep "p" "a" oe None.
Definition demo_metadata : MessageMetadata := mkMetadata "c" "event:e" 0 None [].
Definition demo_message (v : json) : PipelineMessage := mkMessage demo_metadata (Custom v).

Lemma retry_schedule_witness :
  ∃ r s', retry_loop true (demo_step None) (demo_message JNull) 3 1 (demo_error Retryable)
            (start (mkScript [Err (demo_error Retryable); Ok (demo_message (JStr "x"))] 0))
          = (Ret r, s') ∧
    match r with
    | RetrySucceeded _ c => ∃ j, 1 ≤ j ≤ 3 ∧ c = Z.of_nat j ∧
        trace s' = [] ++ concat (retry_obs (demo_step None) (demo_message JNull) <$> seq 1 j)
    | RetryFailed _ => trace s' = [] ++ concat (retry_obs (demo_step None) (demo_message JNull) <$> seq 1 3)
    end.
Proof. apply (retry_schedule true). lia. Defined.

(** Every delay before a retry is between 1 and 30 seconds, and the delays
    do not decrease over the first 64 attempts. *)
Theorem backoff_bounded overflow_checks attempt attempt' b b' :
  (1 ≤ attempt ≤ attempt')%Z → (attempt' ≤ 64)%Z →
  backoff_secs overflow_checks attempt = Some b →
  backoff_secs overflow_checks attempt' = Some b' →
  (1 ≤ b ≤ b' ∧ b' ≤ 30)%Z.
Proof.
  intros Ha Ha' Hb Hb'.
  pose proof (backoff_range overflow_checks attempt b ltac:(lia) Hb).
  pose proof (backoff_range overflow_checks attempt' b' ltac:(lia) Hb').
  rewrite <- (Z2Nat.id attempt), backoff_in_range in Hb by lia.
  rewrite <- (Z2Nat.id attempt'), backoff_in_range in Hb' by lia.
  injection Hb as <-. injection Hb' as <-. unfold retry_delay in *.
  rewrite !Z2Nat.id in * by lia.
  assert (2 ^ (attempt - 1) ≤ 2 ^ (attempt' - 1))%Z by (apply Z.pow_le_mono_r; lia). lia.
Qed.

Lemma backoff_bounded_witness : (1 ≤ 4 ≤ 30 ∧ 30 ≤ 30)%Z.
Proof. apply (backoff_bounded true 3 6); [lia|lia|reflexivity|reflexivity]. Defined.

(** ** Severities and strategies *)

Section Severities.
Context {W : Type} `{PluginExecutor W} `{JsonLib}.
Context (overflow_checks : bool).

(** The summary of the message can be cut at byte 200. *)
Definition summary_ok (msg : PipelineMessage) : Prop :=
  let txt := payload_to_string (payload msg) in
  String.length txt ≤ 200 ∨ is_char_boundary txt 200 = true.

Lemma summarize_ok msg (s : ExecState W) :
  summary_ok msg → ∃ x, summarize_input msg s = (Ret x, s).
Proof.
  unfold summary_ok, summarize_input, slice_to. intros Hs. case_match eqn:Hlen.
  - apply Nat.ltb_lt in Hlen. destruct Hs as [?|Hb]; [lia|]. rewrite Hb. by eexists.
  - by eexists.
Qed.

Lemma summarize_panics msg (s : ExecState W) :
  ¬ summary_ok msg →
  summarize_input msg s = (Panic "byte index 200 is not a char boundary", s).
Proof.
  unfold summary_ok, summarize_input, slice_to. intros Hs. case_match eqn:Hlen.
  - destruct (is_char_boundary _ 200); [|done]. exfalso. apply Hs. by right.
  - apply Nat.ltb_ge in Hlen. tauto.
Qed.

(** The state after a step that only reads the clock, calls the plugin once and
    pushes logs. *)
Definition one_call (step : StepDef) (msg : PipelineMessage) (s s' : ExecState W)
    (logs : list StepStatus) : Prop :=
  trace s' = trace s ++ [ObsExecute (step_plugin step) (step_action step) msg] ∧
  ∃ ls, step_logs s' = step_logs s ++ ls ∧ sl_status <$> ls = logs.

(** What the plugin answers to the step's call from state [s]: the clock is read
    first. *)
Definition plugin_answer (step : StepDef) (msg : PipelineMessage) (s : ExecState W)
    : result PipelineMessage EngineError :=
  (plugin_execute (step_plugin step) (step_action step) msg (clock_now (world s)).2).1.

Lemma execute_plugin_step_err v index step msg (s : ExecState W) e :
  plugin_answer step msg s = Err e →
  ∃ t s1, execute_plugin_step overflow_checks v index step msg s =
    match effective_strategy (err_severity e) step with
    | None => mret msg
    | Some Halt => halt_step index step msg t e
    | Some Skip => skip_step index step msg t e
    | Some Retry => retry_step overflow_checks index step msg t e
    end s1 ∧ one_call step msg s s1 [].
Proof.
  unfold plugin_answer, execute_plugin_step, mbind, M_bind, utc_now, call_plugin.
  destruct (clock_now (world s)) as [t w]. simpl.
  destruct (plugin_execute _ _ msg w) as [r w'] eqn:E. simpl. intros ->.
  eexists t, _. split; [reflexivity|]. split; [done|]. exists []. by rewrite app_nil_r.
Qed.

Lemma halt_step_spec index step msg t e (s : ExecState W) :
  summary_ok msg →
  ∃ s', halt_step index step msg t e s =
      (Throw (StepHalted index (step_plugin step) (step_action step) (err_display e)), s') ∧
    trace s' = trace s ∧ ∃ l, step_logs s' = step_logs s ++ [l] ∧ sl_status l = StepFailed.
Proof.
  intros Hs. unfold halt_step, mbind, M_bind, utc_now.
  destruct (clock_now (world s)) as [t' w]. simpl.
  destruct (summarize_ok msg (mkExecState w (trace s) (step_logs s) (execution_logs s)) Hs) as [x ->].
  simpl. eexists. split; [done|]. split; [done|]. by eexists.
Qed.

Lemma skip_step_spec index step msg t e (s : ExecState W) :
  summary_ok msg →
  ∃ s', skip_step index step msg t e s = (Ret (add_warning msg (skip_warning index step e)), s') ∧
    trace s' = trace s ∧ ∃ l, step_logs s' = step_logs s ++ [l] ∧ sl_status l = StepSkipped.
Proof.
  intros Hs. unfold skip_step, mbind, M_bind, utc_now.
  destruct (clock_now (world s)) as [t' w]. simpl.
  destruct (summarize_ok msg (mkExecState w (trace s) (step_logs s) (execution_logs s)) Hs) as [x ->].
  simpl. eexists. split; [done|]. split; [done|]. by eexists.
Qed.

Lemma execute_steps_cons v step rest index msg (s : ExecState W) :
  execute_steps overflow_checks v (step :: rest) index msg s =
  match execute_step overflow_checks v index step msg s with
  | (Ret m', s') => execute_steps overflow_checks v rest (S index) m' s'
  | (Throw e, s') => (Throw e, s')
  | (Panic w, s') => (Panic w, s')
  end.
Proof. done. Qed.

Lemma execute_step_plugin v index step msg :
  step_condition step = None →
  execute_step overflow_checks v index step msg =
  (execute_plugin_step overflow_checks v index step msg : M W _).
Proof. destruct step as [p a oe [c|]]; simpl; by intros. Qed.

Lemma halt_on_fatal v step rest index msg (s : ExecState W) e :
  step_condition step = None →
  plugin_answer step msg s = Err e → err_severity e = Fatal → summary_ok msg →
  ∃ s', execute_steps overflow_checks v (step :: rest) index msg s =
      (Throw (StepHalted index (step_plugin step) (step_action step) (err_display e)), s') ∧
    one_call step msg s s' [StepFailed].
Proof.
  intros Hc Ha Hf Hs. rewrite execute_steps_cons, execute_step_plugin by done.
  destruct (execute_plugin_step_err v index step msg s e Ha) as (t & s1 & -> & Ht & ls & Hl & Hn).
  rewrite Hf. simpl.
  destruct (halt_step_spec index step msg t e s1 Hs) as (s' & -> & Ht' & l & Hl' & Hst).
  eexists. split; [done|]. split; [by rewrite Ht'|].
  exists (ls ++ [l]). rewrite Hl', Hl, <- app_assoc, fmap_app, Hn. simpl. by rewrite Hst.
Qed.

(** A fatal plugin error stops the workflow whatever strategy the step
    declares: the step is called once and never retried, no later step runs, the
    step is logged as failed, and the run fails with [StepHalted] naming it. *)
Theorem fatal_always_halts v step rest index msg (s : ExecState W) e :
  step_condition step = None →
  plugin_answer step msg s = Err e → err_severity e = Fatal → summary_ok msg →
  ∃ s', execute_steps overflow_checks v (step :: rest) index msg s =
      (Throw (StepHalted index (step_plugin step) (step_action step) (err_display e)), s') ∧
    one_call step msg s s' [StepFailed].
Proof. apply halt_on_fatal. Qed.

(** A warning-severity error leaves no trace in the run: the next step
    receives the input message unchanged, no retry or error strategy applies and
    no step log is written. *)
Theorem warning_passes_through v step rest index msg (s : ExecState W) e :
  step_condition step = None →
  plugin_answer step msg s = Err e → err_severity e = Warning →
  ∃ s1, execute_steps overflow_checks v (step :: rest) index msg s =
      execute_steps overflow_checks v rest (S index) msg s1 ∧
    one_call step msg s s1 [].
Proof.
  intros Hc Ha Hw. rewrite execute_steps_cons, execute_step_plugin by done.
  destruct (execute_plugin_step_err v index step msg s e Ha) as (t & s1 & -> & H1).
  rewrite Hw. simpl. by exists s1.
Qed.

(** The skip strategy on a retryable error: one call, one skipped log entry,
    and the next step receives the input message with its payload, correlation
    id, source and identity unchanged and one more warning. *)
Theorem skip_discards_output v step rest index msg (s : ExecState W) e oe :
  step_condition step = None →
  plugin_answer step msg s = Err e → err_severity e = Retryable → summary_ok msg →
  step_on_error step = Some oe → strategy_type oe = Skip →
  ∃ s1 msg', execute_steps overflow_checks v (step :: rest) index msg s =
      execute_steps overflow_checks v rest (S index) msg' s1 ∧
    one_call step msg s s1 [StepSkipped] ∧
    payload msg' = payload msg ∧
    correlation_id (metadata msg') = correlation_id (metadata msg) ∧
    source (metadata msg') = source (metadata msg) ∧
    auth_context (metadata msg') = auth_context (metadata msg) ∧
    warnings (metadata msg') = warnings (metadata msg) ++ [skip_warning index step e].
Proof.
  intros Hc Ha Hr Hs Hoe Hsk. rewrite execute_steps_cons, execute_step_plugin by done.
  destruct (execute_plugin_step_err v index step msg s e Ha) as (t & s1 & -> & Ht & ls & Hl & Hn).
  rewrite Hr. simpl. rewrite Hoe, Hsk.
  destruct (skip_step_spec index step msg t e s1 Hs) as (s' & -> & Ht' & l & Hl' & Hst).
  exists s', (add_warning msg (skip_warning index step e)). split; [done|].
  split; [|done]. split; [by rewrite Ht'|].
  exists (ls ++ [l]). rewrite Hl', Hl, <- app_assoc, fmap_app, Hn. simpl. by rewrite Hst.
Qed.
End Severities.

Definition demo_object : json := mk_obj [("k", JBool true)].

Lemma fatal_always_halts_witness :
  ∃ s', @execute_steps Script _ type_keyword_lib true Strict
      [demo_step (Some (mkStrategy Skip None None)); demo_step None] 0 (demo_message demo_object)
      (start (mkScript [Err (demo_error Fatal)] 0))
    = (Throw (StepHalted 0 "p" "a" "boom"), s') ∧
    one_call (demo_step None) (demo_message demo_object)
      (start (mkScript [Err (demo_error Fatal)] 0)) s' [StepFailed].
Proof.
  apply (@fatal_always_halts Script _ type_keyword_lib true Strict
           (demo_step (Some (mkStrategy Skip None None))) [demo_step None] 0
           (demo_message demo_object) (start (mkScript [Err (demo_error Fatal)] 0))
           (demo_error Fatal)); try reflexivity.
  left. vm_compute. lia.
Defined.

Lemma warning_passes_through_witness :
  ∃ s1, @execute_steps Script _ type_keyword_lib true Edges [demo_step None] 0
      (demo_message demo_object) (start (mkScript [Err (demo_error Warning)] 0))
    = @execute_steps Script _ type_keyword_lib true Edges [] 1 (demo_message demo_object) s1 ∧
    one_call (demo_step None) (demo_message demo_object)
      (start (mkScript [Err (demo_error Warning)] 0)) s1 [].
Proof.
  apply (@warning_passes_through Script _ type_keyword_lib true Edges (demo_step None) [] 0
           (demo_message demo_object) (start (mkScript [Err (demo_error Warning)] 0))
           (demo_error Warning)); reflexivity.
Defined.

Lemma skip_discards_output_witness :
  ∃ s1 msg', @execute_steps Script _ type_keyword_lib true Edges
      [demo_step (Some (mkStrategy Skip None None))] 4
      (demo_message demo_object) (start (mkScript [Err (demo_error Retryable)] 0))
    = @execute_steps Script _ type_keyword_lib true Edges [] 5 msg' s1 ∧
    one_call (demo_step None) (demo_message demo_object)
      (start (mkScript [Err (demo_error Retryable)] 0)) s1 [StepSkipped] ∧
    payload msg' = Custom demo_object ∧
    correlation_id (metadata msg') = "c" ∧
    source (metadata msg') = "event:e" ∧
    auth_context (metadata msg') = None ∧
    warnings (metadata msg') = [skip_warning 4 (demo_step None) (demo_error Retryable)].
Proof.
  apply (@skip_discards_output Script _ type_keyword_lib true Edges
           (demo_step (Some (mkStrategy Skip None None))) [] 4
           (demo_message demo_object) (start (mkScript [Err (demo_error Retryable)] 0))
           (demo_error Retryable) (mkStrategy Skip None None)); try reflexivity.
  left. vm_compute. lia.
Defined.


(** ** Frames

    A preorder on states that the clock, the timer, the log and plugin calls respect
    is respected by running any steps. *)

Section Frames.
Context {W : Type} `{PluginExecutor W} `{JsonLib}.
Context (overflow_checks : bool).
Context (R : relation (ExecState W)) `{!PreOrder R}.

Definition moves {A} (m : M W A) : Prop := ∀ s, R s (m s).2.

Lemma moves_bind {A B} (m : M W A) (k : A → M W B) :
  moves m → (∀ a, moves (k a)) → moves (m ≫= k).
Proof.
  intros Hm Hk s. specialize (Hm s). unfold mbind, M_bind.
  destruct (m s) as [[a|e|w] s'] eqn:E; simpl in *; [|done..].
  transitivity s'; [done|apply Hk].
Qed.

Lemma moves_ret {A} (a : A) : moves (mret a).
Proof. intros s. apply (reflexivity (R := R)). Qed.
Lemma moves_throw {A} e : moves (throw e : M W A).
Proof. intros s. apply (reflexivity (R := R)). Qed.
Lemma moves_panic {A} e : moves (panic e : M W A).
Proof. intros s. apply (reflexivity (R := R)). Qed.
Lemma moves_lift {A} (r : result A WorkflowError) : moves (lift r).
Proof. destruct r; [apply moves_ret|apply moves_throw]. Qed.
#[local] Hint Resolve moves_ret moves_throw moves_panic moves_lift : core.

Context (Know : moves utc_now) (Ksleep : ∀ k, moves (sleep k)) (Kpush : ∀ l, moves (push_log l)).
Context (Kcall : ∀ p a m, moves (call_plugin p a m)).

Lemma plugin_step_moves v i st m : moves (execute_plugin_step overflow_checks v i st m).
Proof.
  assert (∀ m, moves (summarize_input m)) as Ksum.
  { intros. unfold summarize_input. repeat case_match; auto. }
  assert (∀ i st m t e c, moves (exhausted i st m t e c)) as Kex.
  { intros. unfold exhausted. by repeat (apply moves_bind; [done|intros ?]). }
  assert (∀ st m n k e, moves (retry_loop overflow_checks st m n k e)) as Kloop.
  { intros st' m' n. induction n as [|n IH]; intros k e; simpl; [done|].
    destruct (backoff_secs _ _); [|done]. apply moves_bind; [done|intros _].
    apply moves_bind; [done|]. by intros []. }
  unfold execute_plugin_step, halt_step, skip_step, retry_step.
  repeat first [apply moves_bind; [done|intros ?] | case_match | done].
Qed.

Lemma run_list_moves {v} l i m :
  Forall (λ st, ∀ i m, moves (execute_step overflow_checks v i st m)) l →
  moves (run_list (execute_step overflow_checks v) l i m).
Proof.
  intros Hl. revert i m. induction Hl as [|x l Hx Hl IH]; intros; simpl; [done|].
  apply moves_bind; auto.
Qed.

Lemma execute_steps_moves v steps index msg :
  moves (execute_steps overflow_checks v steps index msg).
Proof.
  unfold execute_steps. apply run_list_moves, Forall_true. intros st.
  induction st as [p a oe|p a oe fld op value th el Hth Hel] using step_nested_ind;
    intros i m; simpl; [apply plugin_step_moves|].
  case_match; by apply run_list_moves.
Qed.

Context (Kreset : moves reset_logs) (Kemit : ∀ l, moves (emit_execution_log l)).

Lemma run_steps_moves workflow msg : moves (run_steps overflow_checks workflow msg).
Proof.
  assert (∀ A (m : M W A), moves m → moves (try_catch m)) as Ktry.
  { intros A m Hm s. specialize (Hm s). unfold try_catch. by destruct (m s) as [[| |] ?]. }
  assert (moves get_logs) as Kget by (intros s; apply (reflexivity (R := R))).
  unfold run_steps.
  repeat first [apply moves_bind; [|intros ?] | case_match | done | apply Ktry, execute_steps_moves].
Qed.
End Frames.

(** Running steps writes no execution log. *)
Lemma execute_steps_log_frame `{PluginExecutor W} `{JsonLib} oc v steps index msg (s : ExecState W) :
  execution_logs (execute_steps oc v steps index msg s).2 = execution_logs s.
Proof.
  refine (execute_steps_moves oc (λ s s', execution_logs s' = execution_logs s) _ _ _ _
            v steps index msg s).
  - split; [done|]. intros ??? E1 E2. by rewrite E2.
  - intros s1. unfold utc_now. by destruct (clock_now (world s1)).
  - done.
  - done.
  - intros p a m s1. unfold call_plugin. by destruct (plugin_execute _ _ _ _).
Qed.

(** ** Validation at the edges *)

Section Edges.
Context {W : Type} `{PluginExecutor W} `{JsonLibLaws}.
Context (overflow_checks : bool).

Lemma validate_message_Ok msg i c :
  validate_message msg i c = Ok tt ↔ is_object (payload_inner (payload msg)) = true.
Proof.
  unfold validate_message. rewrite payload_to_value_data. simpl.
  rewrite object_schema_compiles, <- object_schema_valid.
  destruct (schema_error object_schema _); naive_solver.
Qed.

Lemma validate_message_Err msg i c :
  is_object (payload_inner (payload msg)) = false →
  ∃ d, validate_message msg i c = Err (ValidationFailed i d).
Proof.
  intros Ho. unfold validate_message. rewrite payload_to_value_data. simpl.
  rewrite object_schema_compiles. destruct (schema_error object_schema _) eqn:E; [by eexists|].
  apply object_schema_valid in E. congruence.
Qed.

Definition edge_check (workflow : WorkflowDef) (msg : PipelineMessage) (i : nat)
    (context : string) : result unit WorkflowError :=
  if validates_edges (wf_validate workflow) then validate_message msg i context else Ok tt.

(** [run_steps] past entry validation. *)
Lemma run_steps_unfold workflow msg (s : ExecState W) :
  edge_check workflow msg 0 "entry validation" = Ok tt →
  ∃ t0 w0, run_steps overflow_checks workflow msg s =
    let s0 := mkExecState w0 (trace s) [] (execution_logs s) in
    match execute_steps overflow_checks (wf_validate workflow) (wf_steps workflow) 0 msg s0 with
    | (Panic why, s1) => (Panic why, s1)
    | (out, s1) =>
        let '(t1, w1) := clock_now (world s1) in
        let r := match out with Ret m => Ok m | Throw e => Err e | Panic _ => Ok msg end in
        let log := mkExecutionLog (wf_id workflow) (derive_trigger_info workflow).1
                     (derive_trigger_info workflow).2 t0 t1 (duration_ms t0 t1)
                     (status_of r (step_logs s1)) (step_logs s1) in
        let s2 := mkExecState w1 (trace s1) (step_logs s1) (execution_logs s1 ++ [log]) in
        match r with
        | Ok m => match edge_check workflow m (length (wf_steps workflow) - 1)
                          "exit validation" with
                  | Ok _ => (Ret m, s2)
                  | Err e => (Throw e, s2)
                  end
        | Err e => (Throw e, s2)
        end
    end.
Proof.
  unfold edge_check. intros Hv. unfold run_steps, mbind, M_bind, utc_now.
  destruct (clock_now (world s)) as [t0 w0]. exists t0, w0.
  assert (∀ (s : ExecState W), (if validates_edges (wf_validate workflow)
          then lift (validate_message msg 0 "entry validation") else mret tt) s = (Ret tt, s)) as ->.
  { intros s1. destruct (validates_edges _); [by rewrite Hv|done]. }
  simpl. unfold try_catch.
  destruct (execute_steps _ _ _ _ _ _) as [[m|e|why] s1]; simpl; [| |done];
    destruct (clock_now (world s1)) as [t1 w1]; simpl;
    destruct (derive_trigger_info workflow) as [tt' tv]; simpl; [|done].
  destruct (validates_edges _); [|done]. by destruct (validate_message _ _ "exit validation").
Qed.

(** With edge or strict validation, a run returns a message only when it was
    given one whose payload data is a JSON object, and the message it returns has
    one too. *)
Theorem validated_run_objects workflow msg (s s' : ExecState W) out :
  validates_edges (wf_validate workflow) = true →
  run_steps overflow_checks workflow msg s = (Ret out, s') →
  is_object (payload_inner (payload msg)) = true ∧
  is_object (payload_inner (payload out)) = true.
Proof.
  intros Hv Hrun. destruct (is_object (payload_inner (payload msg))) eqn:Ho.
  - split; [done|]. destruct (run_steps_unfold workflow msg s) as (t0 & w0 & E).
    { unfold edge_check. rewrite Hv. by apply validate_message_Ok. }
    rewrite E in Hrun. simpl in Hrun. unfold edge_check in Hrun. rewrite Hv in Hrun.
    destruct (execute_steps _ _ _ _ _ _) as [[m|e|why] s1]; simpl in Hrun; [| |done].
    + destruct (clock_now (world s1)). destruct (validate_message m _ _) as [[]|] eqn:Hm; [|done].
      injection Hrun as -> _. by apply validate_message_Ok in Hm.
    + by destruct (clock_now (world s1)).
  - exfalso. destruct (validate_message_Err msg 0 "entry validation" Ho) as [d Hd].
    unfold run_steps, mbind, M_bind, utc_now in Hrun.
    destruct (clock_now (world s)). rewrite Hv, Hd in Hrun. done.
Qed.

(** A message that fails entry validation reaches no plugin: the run fails
    with [ValidationFailed] at step 0, no call is made, and no execution log is
    written. *)
Theorem entry_rejection_runs_nothing workflow msg (s : ExecState W) :
  validates_edges (wf_validate workflow) = true →
  is_object (payload_inner (payload msg)) = false →
  ∃ d s', run_steps overflow_checks workflow msg s = (Throw (ValidationFailed 0 d), s') ∧
    trace s' = trace s ∧ step_logs s' = step_logs s ∧ execution_logs s' = execution_logs s.
Proof.
  intros Hv Ho. destruct (validate_message_Err msg 0 "entry validation" Ho) as [d Hd].
  unfold run_steps, mbind, M_bind, utc_now. destruct (clock_now (world s)) as [t0 w0].
  rewrite Hv, Hd. simpl. by eexists _, _.
Qed.

(** A run past entry validation that does not panic writes exactly one
    execution log, naming the workflow and its trigger and holding the run's step
    logs; the log is not [Failed] when the run returns a message, and it tells
    [PartiallyFailed] from [Completed] by whether some step was skipped. *)
Theorem run_logged_once workflow msg (s s' : ExecState W) out :
  edge_check workflow msg 0 "entry validation" = Ok tt →
  run_steps overflow_checks workflow msg s = (out, s') → (∀ why, out ≠ Panic why) →
  ∃ l, execution_logs s' = execution_logs s ++ [l] ∧
    el_workflow_id l = wf_id workflow ∧
    (el_trigger_type l, el_trigger_value l) = derive_trigger_info workflow ∧
    el_steps l = step_logs s' ∧ (0 ≤ el_total_duration_ms l)%Z ∧
    (∀ m, out = Ret m → el_status l ≠ ExecFailed) ∧
    (el_status l = ExecPartiallyFailed →
       ∃ x, x ∈ el_steps l ∧ sl_status x = StepSkipped) ∧
    (el_status l = ExecCompleted → ∀ x, x ∈ el_steps l → sl_status x ≠ StepSkipped).
Proof.
  intros Hv Hrun Hp. destruct (run_steps_unfold workflow msg s Hv) as (t0 & w0 & E).
  rewrite E in Hrun. simpl in Hrun. clear E.
  pose proof (execute_steps_log_frame overflow_checks (wf_validate workflow) (wf_steps workflow) 0
    msg (mkExecState w0 (trace s) [] (execution_logs s))) as Hk.
  destruct (execute_steps _ _ _ _ _ _) as [[m|e|why] s1]; simpl in *; [| |naive_solver];
    destruct (clock_now (world s1)) as [t1 w1].
  - assert (execution_logs s' = execution_logs s1 ++ [mkExecutionLog (wf_id workflow)
        (derive_trigger_info workflow).1 (derive_trigger_info workflow).2 t0 t1
        (duration_ms t0 t1) (status_of (Ok m : result PipelineMessage _) (step_logs s1)) (step_logs s1)]
        ∧ step_logs s' = step_logs s1) as [-> ->].
    { destruct (edge_check _ m _ _); by simplify_eq. }
    eexists. rewrite Hk. split; [done|]. simpl. split; [done|].
    split; [by destruct (derive_trigger_info workflow)|]. split; [done|].
    split; [unfold duration_ms; lia|].
    destruct (existsb _ (step_logs s1)) eqn:Hx.
    + split; [done|]. split; [intros _|done]. apply existsb_elem_of in Hx as (x & ? & Hx).
      exists x. split; [done|]. by bool_to_prop.
    + split; [done|]. split; [done|]. intros _ x Hin Hst.
      pose proof (proj1 (existsb_false_elem_of _ _) Hx x Hin) as Hb. simpl in Hb. by bool_to_prop.
  - simplify_eq. simpl. eexists. rewrite Hk. split; [done|]. simpl. split; [done|].
    split; [by destruct (derive_trigger_info workflow)|]. split; [done|].
    split; [unfold duration_ms; lia|]. done.
Qed.
End Edges.

Definition demo_workflow (v : ValidationLevel) (steps : list StepDef) : WorkflowDef :=
  mkWorkflow "w" "w" None Sync v (mkTrigger None (Some "e") None) steps.

#[local] Existing Instance type_keyword_lib.
#[local] Existing Instance type_keyword_laws.

Lemma validated_run_objects_witness :
  is_object (payload_inner (payload (demo_message demo_object))) = true ∧
  is_object (payload_inner (payload (demo_message demo_object))) = true.
Proof.
  eapply (validated_run_objects true (demo_workflow Edges [demo_step None])
           (demo_message demo_object) (start (mkScript [] 0))); vm_compute; reflexivity.
Defined.

Lemma entry_rejection_runs_nothing_witness :
  ∃ d s', run_steps true (demo_workflow Edges [demo_step None]) (demo_message JNull)
      (start (mkScript [] 0)) = (Throw (ValidationFailed 0 d), s') ∧
    trace s' = [] ∧ step_logs s' = [] ∧ execution_logs s' = [].
Proof.
  apply (entry_rejection_runs_nothing true (demo_workflow Edges [demo_step None])
           (demo_message JNull) (start (mkScript [] 0))); reflexivity.
Defined.

Lemma run_logged_once_witness :
  let w := demo_workflow Edges [demo_step (Some (mkStrategy Skip None None))] in
  let r := run_steps true w (demo_message demo_object)
             (start (mkScript [Err (demo_error Retryable)] 0)) in
  ∃ l, execution_logs r.2 = [] ++ [l] ∧ el_workflow_id l = "w" ∧
    (el_trigger_type l, el_trigger_value l) = ("event", "e") ∧
    el_steps l = step_logs r.2 ∧ (0 ≤ el_total_duration_ms l)%Z ∧
    (∀ m, r.1 = Ret m → el_status l ≠ ExecFailed) ∧
    (el_status l = ExecPartiallyFailed → ∃ x, x ∈ el_steps l ∧ sl_status x = StepSkipped) ∧
    (el_status l = ExecCompleted → ∀ x, x ∈ el_steps l → sl_status x ≠ StepSkipped).
Proof.
  intros w r.
  apply (run_logged_once true w (demo_message demo_object)
           (start (mkScript [Err (demo_error Retryable)] 0)) r.2 r.1).
  - reflexivity.
  - apply surjective_pairing.
  - intros why. vm_compute. discriminate.
Defined.
