(* ===== verification/ExecutorSpec.v ===== *)
(** * What a pipeline computes

    An abstract specification of [execute_steps] for plugins that answer the
    same input the same way: a fold over the steps with no clock, no log, no
    sleeping and no retrying, and the proof that the executor implements it.
    Then the limits of that contract: the runs that panic, and the outputs that
    strict validation does not see. *)

From stdpp Require Import base tactics list strings.
From Stdlib Require Import ZArith Lia.
From S2P Require Import Prelude RustString Json Types Executor ExecutorFacts.

(** ** The specification *)

Section Spec.
Context `{JsonLib}.
Context (f : string → string → PipelineMessage → result PipelineMessage EngineError).

(** Retries of a plugin that answers the same way change nothing: a retryable
    error goes to the fallback. *)
Definition spec_retry (index : nat) (step : StepDef) (msg : PipelineMessage) (e : EngineError)
    : result PipelineMessage WorkflowError :=
  let fail_with cause :=
    Err (RetryExhausted index (step_plugin step) (step_action step)
           (step_max_retries step) cause) in
  match step_on_error step ≫= strategy_fallback with
  | Some fb =>
      match f (step_plugin fb) (step_action fb) msg with
      | Ok output => Ok output
      | Err fe => fail_with ("retries failed: " +:+ err_display e
                                +:+ "; fallback also failed: " +:+ err_display fe)
      end
  | None => fail_with (err_display e)
  end.

Definition spec_plugin_step (v : ValidationLevel) (index : nat) (step : StepDef)
    (msg : PipelineMessage) : result PipelineMessage WorkflowError :=
  match f (step_plugin step) (step_action step) msg with
  | Ok output =>
      if bool_decide (v = Strict)
      then validate_message output index (strict_context index step) ;? Ok output
      else Ok output
  | Err e =>
      match effective_strategy (err_severity e) step with
      | None => Ok msg
      | Some Halt =>
          Err (StepHalted index (step_plugin step) (step_action step) (err_display e))
      | Some Skip => Ok (add_warning msg (skip_warning index step e))
      | Some Retry => spec_retry index step msg e
      end
  end.

End Spec.

Section Loop.
Context (body : nat → StepDef → PipelineMessage → result PipelineMessage WorkflowError).

Fixpoint spec_list (steps : list StepDef) (index : nat) (msg : PipelineMessage)
    : result PipelineMessage WorkflowError :=
  match steps with
  | [] => Ok msg
  | step :: rest => let? msg' := body index step msg in spec_list rest (S index) msg'
  end.
End Loop.

Section Nested.
Context `{JsonLib}.
Context (f : string → string → PipelineMessage → result PipelineMessage EngineError).

Fixpoint spec_step (v : ValidationLevel) (index : nat) (step : StepDef) (msg : PipelineMessage)
    {struct step} : result PipelineMessage WorkflowError :=
  match step with
  | mkStep _ _ _ (Some (mkCondition field operator value thens elses)) =>
      if evaluate_condition operator (resolve_field msg field) value
      then spec_list (spec_step v) thens (index * 100) msg
      else spec_list (spec_step v) elses (index * 100) msg
  | mkStep _ _ _ None => spec_plugin_step f v index step msg
  end.

Definition spec_steps (v : ValidationLevel) (steps : list StepDef) (index : nat)
    (msg : PipelineMessage) : result PipelineMessage WorkflowError :=
  spec_list (spec_step v) steps index msg.
End Nested.

(** Every step, in every branch, allows at most 64 retries. *)
Fixpoint retries_ok (step : StepDef) : bool :=
  match step with
  | mkStep _ _ _ (Some (mkCondition _ _ _ thens elses)) =>
      forallb retries_ok thens && forallb retries_ok elses
  | mkStep _ _ _ None => (step_max_retries step <=? 64)%Z
  end.

(** ** The refinement *)

Section Refinement.
Context {W : Type} `{PluginExecutor W} `{JsonLib}.
Context (overflow_checks : bool).
Context (f : string → string → PipelineMessage → result PipelineMessage EngineError).
Context (Hf : ∀ p a m w, (plugin_execute p a m w).1 = f p a m).
(** The payloads in play, closed under the plugins, can be summarised. *)
Context (good : TypedPayload → Prop).
Context (Hgood : ∀ p a m out, good (payload m) → f p a m = Ok out → good (payload out)).
Context (Hsum : ∀ m, good (payload m) → summary_ok m).

Definition implements (m : M W PipelineMessage) (r : result PipelineMessage WorkflowError) : Prop :=
  (∀ s, (m s).1 = match r with Ok a => Ret a | Err e => Throw e end) ∧
  (∀ out, r = Ok out → good (payload out)).

Lemma implements_bind m r k g :
  implements m r → (∀ a, good (payload a) → implements (k a) (g a)) →
  implements (m ≫= k) (result_bind r g).
Proof.
  intros [Hm Hr] Hk. destruct r as [a|e]; simpl.
  - destruct (Hk a (Hr a eq_refl)) as [Hka Hga]. split; [|done].
    intros s. unfold mbind, M_bind. specialize (Hm s). destruct (m s) as [o s']; simpl in *. subst. apply Hka.
  - split; [|done]. intros s. unfold mbind, M_bind. specialize (Hm s).
    destruct (m s) as [o s']; simpl in *. by subst.
Qed.

Lemma call_plugin_answer p a m (s : ExecState W) : ∃ s', call_plugin p a m s = (Ret (f p a m), s').
Proof.
  unfold call_plugin. rewrite <- (Hf p a m (world s)).
  destruct (plugin_execute p a m (world s)) as [r w]. by eexists.
Qed.

Lemma utc_now_ret (s : ExecState W) : ∃ t s', utc_now s = (Ret t, s').
Proof. unfold utc_now. destruct (clock_now (world s)). by eexists _, _. Qed.

Lemma retry_loop_same step msg n k e e0 (s : ExecState W) :
  1 ≤ k → k + n ≤ 65 → f (step_plugin step) (step_action step) msg = Err e →
  ∃ s', retry_loop overflow_checks step msg n (Z.of_nat k) e0 s =
    (Ret (RetryFailed (if bool_decide (n = 0) then e0 else e)), s').
Proof.
  intros Hk Hn Hfe. revert k e0 s Hk Hn. induction n as [|n IH]; intros k e0 s Hk Hn; simpl.
  { by exists s. }
  rewrite backoff_in_range by lia. unfold mbind, M_bind, sleep.
  destruct (call_plugin_answer (step_plugin step) (step_action step) msg
    (mkExecState (clock_sleep (retry_delay k) (world s)) (trace s ++ [ObsSleep (retry_delay k)])
       (step_logs s) (execution_logs s))) as [s1 ->].
  rewrite Hfe. replace (Z.of_nat k + 1)%Z with (Z.of_nat (S k)) by lia.
  destruct (IH (S k) e s1) as [s' ->]; [lia..|]. exists s'. by destruct (decide (n = 0)); case_bool_decide.
Qed.

Lemma exhausted_outcome index step msg t e c (s : ExecState W) :
  good (payload msg) →
  (exhausted index step msg t e c s).1 =
  Throw (RetryExhausted index (step_plugin step) (step_action step) (step_max_retries step) c).
Proof.
  intros Hg. unfold exhausted, mbind, M_bind. destruct (utc_now_ret s) as (t' & s' & ->).
  by destruct (summarize_ok msg s' (Hsum msg Hg)) as [x ->].
Qed.

Lemma retry_step_implements index step msg t e :
  good (payload msg) → (step_max_retries step ≤ 64)%Z →
  f (step_plugin step) (step_action step) msg = Err e →
  implements (retry_step overflow_checks index step msg t e) (spec_retry f index step msg e).
Proof.
  intros Hg Hn Hfe. unfold spec_retry, retry_step. split.
  - intros s. unfold mbind at 1, M_bind at 1.
    destruct (retry_loop_same step msg (Z.to_nat (step_max_retries step)) 1 e e s)
      as [s1 E]; [lia..|done|].
    change (Z.of_nat 1) with 1%Z in E. rewrite E. clear E.
    replace (if bool_decide _ then e else e) with e by (by case_bool_decide).
    destruct (step_on_error step ≫= strategy_fallback) as [fb|]; [|by apply exhausted_outcome].
    unfold mbind, M_bind.
    destruct (call_plugin_answer (step_plugin fb) (step_action fb) msg s1) as [s2 ->].
    destruct (f (step_plugin fb) _ msg); [done|]. by apply exhausted_outcome.
  - destruct (step_on_error step ≫= strategy_fallback) as [fb|]; [|done].
    destruct (f (step_plugin fb) _ msg) eqn:E; [|done]. intros ? [= <-]. eauto.
Qed.

Lemma plugin_step_implements v index step msg :
  good (payload msg) → (step_max_retries step ≤ 64)%Z →
  implements (execute_plugin_step overflow_checks v index step msg)
    (spec_plugin_step f v index step msg).
Proof.
  intros Hg Hn. unfold spec_plugin_step. split.
  - intros s. unfold execute_plugin_step, mbind at 1, M_bind at 1.
    destruct (utc_now_ret s) as (t & s1 & ->). unfold mbind at 1, M_bind at 1.
    destruct (call_plugin_answer (step_plugin step) (step_action step) msg s1) as [s2 ->].
    destruct (f _ _ msg) as [out|e] eqn:Ef.
    + unfold mbind at 1, M_bind at 1. destruct (utc_now_ret s2) as (t' & s3 & ->).
      unfold mbind, M_bind; simpl. case_bool_decide; [|done].
      by destruct (validate_message out _ _).
    + destruct (effective_strategy _ step) as [[]|]; [| | |done].
      * by destruct (halt_step_spec index step msg t e s2 (Hsum msg Hg)) as (s3 & -> & _).
      * by destruct (skip_step_spec index step msg t e s2 (Hsum msg Hg)) as (s3 & -> & _).
      * by apply retry_step_implements.
  - intros out. destruct (f _ _ msg) as [out'|e] eqn:Ef.
    + case_bool_decide; [destruct (validate_message _ _ _); [|done]|]; intros [= <-]; eauto.
    + destruct (effective_strategy _ step) as [[]|]; [done| | |by intros [= <-]].
      * by intros [= <-].
      * by apply (retry_step_implements index step msg 0).
Qed.

Lemma run_list_implements v steps index msg :
  Forall (λ st, ∀ i m, good (payload m) →
    implements (execute_step overflow_checks v i st m) (spec_step f v i st m)) steps →
  good (payload msg) →
  implements (run_list (execute_step overflow_checks v) steps index msg)
    (spec_list (spec_step f v) steps index msg).
Proof.
  intros Hs. revert index msg. induction Hs as [|st steps Hst Hs IH]; intros index msg Hg; simpl.
  - split; [done|]. by intros ? [= <-].
  - apply implements_bind; auto.
Qed.

Lemma step_implements v step index msg :
  retries_ok step = true → good (payload msg) →
  implements (execute_step overflow_checks v index step msg) (spec_step f v index step msg).
Proof.
  revert index msg. induction step as [p a oe|p a oe fld op value th el Hth Hel]
    using step_nested_ind; intros index msg Hok Hg.
  - apply plugin_step_implements; [done|]. by apply Z.leb_le.
  - simpl in Hok. bool_to_prop. rewrite forallb_Forall, Forall_forall in *. simpl.
    case_match; apply run_list_implements; auto; apply Forall_forall; auto.
Qed.

End Refinement.

(** A world whose plugins are a fixed function: the plugin named bad always
    fails, the others return the message. *)
Definition table_plugin (plugin action : string) (m : PipelineMessage)
    : result PipelineMessage EngineError :=
  if bool_decide (plugin = "bad") then Err (demo_error Retryable) else Ok m.

Definition table_executor : PluginExecutor Z := {|
  plugin_execute p a m w := (table_plugin p a m, w);
  clock_now w := (w, w + 1)%Z;
  clock_sleep k w := (w + k)%Z;
|}.

#[local] Existing Instance type_keyword_lib.
#[local] Existing Instance type_keyword_laws.


(** ** Runs that panic *)

Section Panics.
Context {W : Type} `{PluginExecutor W} `{JsonLib}.
Context (overflow_checks : bool).

(** A failing step whose input payload serialises to more than 200 bytes
    with byte 200 inside a multi-byte character panics instead of returning the
    error: the step is neither logged as failed nor reported. *)
Theorem failing_step_panics v step rest index msg (s : ExecState W) e :
  step_condition step = None →
  plugin_answer step msg s = Err e → err_severity e = Fatal → ¬ summary_ok msg →
  ∃ why s', execute_steps overflow_checks v (step :: rest) index msg s = (Panic why, s') ∧
    step_logs s' = step_logs s.
Proof.
  intros Hc Ha Hs Hno. rewrite execute_steps_cons, execute_step_plugin by done.
  destruct (execute_plugin_step_err overflow_checks v index step msg s e Ha)
    as (t & s1 & -> & _ & ls & Hl & Hn).
  apply fmap_nil_inv in Hn as ->. rewrite app_nil_r in Hl.
  rewrite Hs. simpl. unfold halt_step, mbind, M_bind, utc_now.
  destruct (clock_now (world s1)) as [t' w].
  rewrite summarize_panics by done. by eexists _, _.
Qed.

Lemma retry_loop_split step msg n m k e (s : ExecState W) :
  retry_loop overflow_checks step msg (n + m) k e s =
  match retry_loop overflow_checks step msg n k e s with
  | (Ret (RetryFailed e'), s') =>
      retry_loop overflow_checks step msg m (k + Z.of_nat n) e' s'
  | r => r
  end.
Proof.
  revert k e s. induction n as [|n IH]; intros k e s; simpl.
  { by rewrite Z.add_0_r. }
  destruct (backoff_secs _ _); [|done]. unfold mbind, M_bind, sleep. simpl.
  destruct (call_plugin _ _ msg _) as [[[out|e']| |] s1]; [done| |done..].
  rewrite IH. replace (k + 1 + Z.of_nat n)%Z with (k + Z.pos (Pos.of_succ_nat n))%Z by lia.
  done.
Qed.
End Panics.

(** A step that allows more than 64 retries and keeps failing: attempt 65
    shifts a 64-bit one by 64 places, so a build with overflow checks panics after
    the 64th attempt, and a build without them starts the delays over at one
    second. *)
Theorem retry_shift_overflow {W} `{PluginExecutor W} f step msg n e e' (s : ExecState W) :
  (∀ p a m w, (plugin_execute p a m w).1 = f p a m) →
  f (step_plugin step) (step_action step) msg = Err e' → 64 < n →
  (∃ why, (retry_loop true step msg n 1 e s).1 = Panic why) ∧
  backoff_secs false 64 = Some 30%Z ∧ backoff_secs false 65 = Some 1%Z.
Proof.
  intros Hf Hfe Hn. split; [|done]. replace n with (64 + S (n - 65)) by lia.
  rewrite retry_loop_split.
  destruct (retry_loop_same true f Hf step msg 64 1 e' e s) as [s' E]; [lia..|done|].
  change (Z.of_nat 1) with 1%Z in E. rewrite E. by eexists.
Qed.

Lemma retry_shift_overflow_witness :
  (∃ why, (@retry_loop Z table_executor true (mkStep "bad" "a" None None)
             (demo_message demo_object) 70 1 (demo_error Retryable) (start 0%Z)).1 = Panic why) ∧
  backoff_secs false 64 = Some 30%Z ∧ backoff_secs false 65 = Some 1%Z.
Proof.
  apply (@retry_shift_overflow Z table_executor table_plugin (mkStep "bad" "a" None None)
    (demo_message demo_object) 70 (demo_error Retryable) (demo_error Retryable));
    [done|reflexivity|lia].
Defined.

(** A text of two-byte characters. *)
Fixpoint accents (n : nat) : string :=
  match n with
  | O => empty_str
  | S n => "é" +:+ accents n
  end.

Definition accented_object : json := mk_obj [("kk", JStr (accents 120))].

Lemma failing_step_panics_witness :
  ∃ why s', execute_steps true Edges [demo_step None] 0 (demo_message accented_object)
      (start (mkScript [Err (demo_error Fatal)] 0)) = (Panic why, s') ∧ step_logs s' = [].
Proof.
  apply (failing_step_panics true Edges (demo_step None) [] 0 (demo_message accented_object)
    (start (mkScript [Err (demo_error Fatal)] 0)) (demo_error Fatal)); try reflexivity.
  intros [Hl|Hb]; [|by vm_compute in Hb].
  apply Nat.leb_le in Hl. by vm_compute in Hl.
Defined.

(** ** Outputs that strict validation does not see *)

(** Under strict validation the output of a retried call is not validated:
    whatever the retry returns is handed to the next step. *)
Theorem strict_misses_retried_output `{JsonLib} msg out rest :
  ∃ s1, execute_steps true Strict (demo_step None :: rest) 0 msg
      (start (mkScript [Err (demo_error Retryable); Ok out] 0))
    = execute_steps true Strict rest 1 out s1.
Proof. by eexists. Qed.

(** An exit-validation failure is logged as a completed execution: the
    caller gets [ValidationFailed] while the execution log says [Completed]. *)
Theorem exit_failure_logged_completed `{JsonLibLaws} v :
  is_object v = false →
  ∃ d s' l, run_steps true (demo_workflow Edges [demo_step None]) (demo_message demo_object)
      (start (mkScript [Ok (demo_message v)] 0)) = (Throw (ValidationFailed 0 d), s') ∧
    execution_logs s' = [l] ∧ el_status l = ExecCompleted.
Proof.
  intros Hv. destruct (validate_message_Err (demo_message v) 0 "exit validation" Hv) as [d Hd].
  exists d. unfold run_steps, mbind, M_bind. simpl.
  rewrite (proj2 (validate_message_Ok (demo_message demo_object) 0 "entry validation") eq_refl).
  simpl. rewrite Hd. by eexists _, _.
Qed.

Lemma exit_failure_logged_completed_witness :
  ∃ d s' l, run_steps true (demo_workflow Edges [demo_step None]) (demo_message demo_object)
      (start (mkScript [Ok (demo_message JNull)] 0)) = (Throw (ValidationFailed 0 d), s') ∧
    execution_logs s' = [l] ∧ el_status l = ExecCompleted.
Proof. apply (exit_failure_logged_completed JNull). reflexivity. Defined.
