(* ===== verification/Loader.v ===== *)
(** * Loading workflows and resolving triggers

    packages/workflow-engine/src/loader.rs (scanning a directory, validating
    definitions, the trigger registry) and packages/workflow-engine/src/triggers/mod.rs
    (trigger validation and resolution). The YAML and cron parsers are third-party
    code and are parameters; the directory listing is given as data. *)

From stdpp Require Import base tactics list strings gmap sorting.
From Stdlib Require Import Ascii ZArith Lia.
From S2P Require Import Prelude RustString Json Types.

(** ** Validating definitions *)

Definition invalid {A} (workflow_id reason : string) : result A WorkflowError :=
  Err (InvalidDefinition workflow_id reason).

(** [validate_event_name] of loader.rs. *)
Definition validate_event_name (event workflow_id : string) : result unit WorkflowError :=
  (if is_empty event then invalid workflow_id "event name must not be empty" else Ok tt) ;?
  for_each
    (λ segment,
       if is_empty segment then
         invalid workflow_id
           ("event name '" +:+ event +:+
            "' contains an empty segment; use dot-separated names like 'domain.action'")
       else Ok tt)
    (split "."%char event).

(** [validate_step]. The recursion goes one branch deep: a condition inside a
    branch is an error. *)
Fixpoint validate_step (workflow_id : string) (inside_branch : bool) (index : nat)
    (step : StepDef) {struct step} : result unit WorkflowError :=
  match step with
  | mkStep _ _ _ (Some (mkCondition _ _ _ then_steps else_steps)) =>
      if inside_branch then
        invalid workflow_id
          ("step " +:+ show_nat index +:+ " contains a nested condition inside a branch; only flat plugin steps are allowed in then/else branches")
      else
        for_each_indexed (validate_step workflow_id true) 0 then_steps ;?
        for_each_indexed (validate_step workflow_id true) 0 else_steps
  | mkStep plugin action _ None =>
      if is_empty plugin then
        invalid workflow_id ("step " +:+ show_nat index +:+ " is missing a 'plugin' field")
      else if is_empty action then
        invalid workflow_id ("step " +:+ show_nat index +:+ " is missing an 'action' field")
      else Ok tt
  end.

Definition validate_workflow (workflow : WorkflowDef) (filename : string)
    : result unit WorkflowError :=
  if is_empty (wf_id workflow) then
    invalid ("(unknown in " +:+ filename +:+ ")") "workflow is missing an 'id' field"
  else if bool_decide (wf_steps workflow = []) then
    invalid (wf_id workflow) "workflow must have at least one step"
  else
    match trigger_event (wf_trigger workflow) with
    | Some event => validate_event_name event (wf_id workflow)
    | None => Ok tt
    end ;?
    for_each_indexed (validate_step (wf_id workflow) false) 0 (wf_steps workflow).

(** ** Loading *)

(** A directory entry: its name and what reading it gives. *)
Record DirEntry : Type := mkDirEntry {
  file_name : string;
  contents : result string string;
}.

(** [Path::extension]: what follows the last dot, unless the name starts with
    its only dot. *)
Definition extension (name : string) : option string :=
  match rev (split "."%char name) with
  | ext :: (_ :: _ :: _) => Some ext
  | [ext; stem] => if is_empty stem then None else Some ext
  | _ => None
  end.

Definition is_yaml (e : DirEntry) : bool :=
  match extension (file_name e) with
  | Some ext => bool_decide (ext = "yaml") || bool_decide (ext = "yml")
  | None => false
  end.

Definition name_le (a b : DirEntry) : Prop := String.leb (file_name a) (file_name b) = true.
#[export] Instance name_le_dec : RelDecision name_le.
Proof. intros a b. unfold name_le. solve_decision. Defined.

Record LoadState : Type := mkLoad {
  all_workflows : list WorkflowDef;
  id_sources : gmap string string;
  endpoint_sources : gmap string string;
}.

Definition with_id (key : string) (w : WorkflowDef) : WorkflowDef :=
  if is_empty (wf_id w) then
    mkWorkflow key (wf_name w) (wf_description w) (wf_mode w) (wf_validate w)
      (wf_trigger w) (wf_steps w)
  else w.

(** The body of the inner loop: one workflow of one file. *)
Definition add_workflow (filename : string) (st : LoadState) (entry : string * WorkflowDef)
    : result LoadState WorkflowError :=
  let workflow := with_id entry.1 entry.2 in
  validate_workflow workflow filename ;?
  match id_sources st !! wf_id workflow with
  | Some prev => Err (DuplicateWorkflowId (wf_id workflow) prev filename)
  | None =>
      let ids := <[wf_id workflow := filename]> (id_sources st) in
      let? eps :=
        match trigger_endpoint (wf_trigger workflow) with
        | Some endpoint =>
            match endpoint_sources st !! endpoint with
            | Some prev => Err (DuplicateEndpoint endpoint prev (wf_id workflow))
            | None => Ok (<[endpoint := wf_id workflow]> (endpoint_sources st))
            end
        | None => Ok (endpoint_sources st)
        end in
      Ok (mkLoad (all_workflows st ++ [workflow]) ids eps)
  end.

Section Load.
(** [serde_yaml::from_str] into the map of workflows, in iteration order. *)
Context (parse_yaml : string → result (list (string * WorkflowDef)) string).

Definition load_file (st : LoadState) (e : DirEntry) : result LoadState WorkflowError :=
  let? text := result_map_err (LoadFailed (file_name e)) (contents e) in
  let? wfs := result_map_err (LoadFailed (file_name e)) (parse_yaml text) in
  try_fold (add_workflow (file_name e)) st wfs.

(** [load_workflows]; [listing] is [None] when the path is not a directory and
    an error when reading it fails. *)
Definition load_workflows (path : string) (listing : option (result (list DirEntry) string))
    : result (list WorkflowDef) WorkflowError :=
  match listing with
  | None =>
      Err (LoadFailed path "workflow directory does not exist or is not a directory")
  | Some dir =>
      let? entries := result_map_err (LoadFailed path) dir in
      let entries := merge_sort name_le (filter is_yaml entries) in
      let? st := try_fold load_file (mkLoad [] ∅ ∅) entries in
      Ok (all_workflows st)
  end.
End Load.

(** ** The trigger registry *)

Inductive HttpMethod : Type :=
| Get | Post | Put | Patch | Delete | Propfind | Report | Mkcalendar | Mkcol.

#[export] Instance http_method_eq_dec : EqDecision HttpMethod.
Proof. solve_decision. Defined.

Definition method_name (m : HttpMethod) : string :=
  match m with
  | Get => "GET" | Post => "POST" | Put => "PUT" | Patch => "PATCH" | Delete => "DELETE"
  | Propfind => "PROPFIND" | Report => "REPORT" | Mkcalendar => "MKCALENDAR" | Mkcol => "MKCOL"
  end.

Definition parse_upper (s : string) : option HttpMethod :=
  if bool_decide (s = "GET") then Some Get
  else if bool_decide (s = "POST") then Some Post
  else if bool_decide (s = "PUT") then Some Put
  else if bool_decide (s = "PATCH") then Some Patch
  else if bool_decide (s = "DELETE") then Some Delete
  else if bool_decide (s = "PROPFIND") then Some Propfind
  else if bool_decide (s = "REPORT") then Some Report
  else if bool_decide (s = "MKCALENDAR") then Some Mkcalendar
  else if bool_decide (s = "MKCOL") then Some Mkcol
  else None.

(** [HttpMethod::parse]. *)
Definition parse_method (s : string) : option HttpMethod := parse_upper (to_uppercase s).

Lemma parse_upper_name m : parse_upper (method_name m) = Some m.
Proof. by destruct m. Qed.

#[export] Instance http_method_countable : Countable HttpMethod :=
  inj_countable method_name parse_upper parse_upper_name.

Definition parse_endpoint (endpoint workflow_id : string)
    : result (HttpMethod * string) WorkflowError :=
  match splitn2 " "%char endpoint with
  | [method; path] =>
      let? m := ok_or (parse_method method)
        (InvalidDefinition workflow_id
           ("unsupported HTTP method '" +:+ method +:+ "' in endpoint trigger")) in
      Ok (m, path)
  | _ =>
      invalid workflow_id
        ("endpoint trigger '" +:+ endpoint +:+ "' must be in 'METHOD /path' format")
  end.

Section Registry.
(** [cron::Schedule] and its [FromStr]. *)
Context {Schedule : Type} (parse_cron : string → result Schedule string).

Record TriggerRegistry : Type := mkRegistry {
  endpoints : gmap (HttpMethod * string) WorkflowDef;
  events : gmap string (list WorkflowDef);
  schedules : list (Schedule * WorkflowDef);
}.

(** One iteration of [TriggerRegistry::build]. *)
Definition add_triggers (reg : TriggerRegistry) (workflow : WorkflowDef)
    : result TriggerRegistry WorkflowError :=
  let? eps :=
    match trigger_endpoint (wf_trigger workflow) with
    | Some e =>
        let? key := parse_endpoint e (wf_id workflow) in
        Ok (<[key := workflow]> (endpoints reg))
    | None => Ok (endpoints reg)
    end in
  let evs :=
    match trigger_event (wf_trigger workflow) with
    | Some e => <[e := default [] (events reg !! e) ++ [workflow]]> (events reg)
    | None => events reg
    end in
  let? scs :=
    match trigger_schedule (wf_trigger workflow) with
    | Some c =>
        let? s := result_map_err
          (λ e, InvalidDefinition (wf_id workflow)
                  ("invalid cron expression '" +:+ c +:+ "': " +:+ e)) (parse_cron c) in
        Ok (schedules reg ++ [(s, workflow)])
    | None => Ok (schedules reg)
    end in
  Ok (mkRegistry eps evs scs).

Definition build (workflows : list WorkflowDef) : result TriggerRegistry WorkflowError :=
  try_fold add_triggers (mkRegistry ∅ ∅ []) workflows.

Definition find_endpoint (reg : TriggerRegistry) (method path : string) : option WorkflowDef :=
  m ← parse_method method; endpoints reg !! (m, path).

Definition find_event (reg : TriggerRegistry) (name : string) : list WorkflowDef :=
  default [] (events reg !! name).

(** [resolve_endpoint] and [resolve_event] of triggers/mod.rs. *)
Definition resolve_endpoint (reg : TriggerRegistry) (method path : string)
    : result WorkflowDef WorkflowError :=
  ok_or (find_endpoint reg method path)
    (InvalidDefinition empty_str
       ("no workflow registered for endpoint " +:+ method +:+ " " +:+ path)).

Definition resolve_event (reg : TriggerRegistry) (name : string) : list WorkflowDef :=
  find_event reg name.
End Registry.
Arguments TriggerRegistry : clear implicits.
Arguments mkRegistry {Schedule} _ _ _.
Arguments endpoints {Schedule} _.
Arguments events {Schedule} _.
Arguments schedules {Schedule} _.

(** ** Trigger validation (triggers/mod.rs) *)

Module Triggers.
Definition segment_char (c : ascii) : bool :=
  is_ascii_alphanumeric c || bool_decide (c = "-"%char) || bool_decide (c = "_"%char).

Definition validate_event_name (event_name workflow_id : string) : result unit WorkflowError :=
  let bad what := invalid workflow_id ("event trigger '" +:+ event_name +:+ "' " +:+ what) in
  if is_empty event_name then invalid workflow_id "event trigger name must not be empty"
  else if negb (contains_char event_name "."%char) then
    bad "must be dot-separated (e.g., 'webhook.email.received')"
  else if starts_with event_name "." || ends_with event_name "." then
    bad "must not start or end with a dot"
  else if contains_str event_name ".." then
    bad "must not contain consecutive dots"
  else
    for_each
      (λ segment,
         if is_empty segment then bad "contains an empty segment"
         else if negb (all_chars segment_char segment) then
           bad ("segment '" +:+ segment +:+ "' contains invalid characters (only alphanumeric, hyphens, underscores allowed)")
         else Ok tt)
      (split "."%char event_name).

Definition validate_triggers (workflows : list WorkflowDef) : result unit WorkflowError :=
  for_each
    (λ workflow,
       let t := wf_trigger workflow in
       if negb (bool_decide (is_Some (trigger_endpoint t))
                || bool_decide (is_Some (trigger_event t))
                || bool_decide (is_Some (trigger_schedule t)))
       then invalid (wf_id workflow)
              "workflow must declare at least one trigger (endpoint, event, or schedule)"
       else match trigger_event t with
            | Some e => validate_event_name e (wf_id workflow)
            | None => Ok tt
            end)
    workflows.
End Triggers.
