(* ===== verification/LoaderFacts.v ===== *)
(** * Facts about loading and triggers

    Which definitions load, what the registry answers, and how the two notions
    of a valid event name relate. *)

From stdpp Require Import base tactics list strings gmap sorting.
From Stdlib Require Import Ascii ZArith Lia.
From S2P Require Import Prelude RustString Json Types Loader.

(** ** Well-formed definitions *)

Definition flat_step (st : StepDef) : Prop :=
  step_condition st = None ∧ step_plugin st ≠ empty_str ∧ step_action st ≠ empty_str.

Definition step_wf (st : StepDef) : Prop :=
  match step_condition st with
  | Some (mkCondition _ _ _ th el) => Forall flat_step th ∧ Forall flat_step el
  | None => flat_step st
  end.

Definition event_segments_ok (event : string) : Prop :=
  Forall (λ p, p ≠ empty_str) (split "."%char event).

Definition workflow_wf (w : WorkflowDef) : Prop :=
  wf_id w ≠ empty_str ∧ wf_steps w ≠ [] ∧
  (∀ e, trigger_event (wf_trigger w) = Some e → event_segments_ok e) ∧
  Forall step_wf (wf_steps w).

Lemma for_each_guard {A E} (b : A → bool) (e : A → E) xs :
  for_each (λ x, if b x then Err (e x) else Ok tt) xs = Ok tt ↔ Forall (λ x, b x = false) xs.
Proof. rewrite for_each_Ok. apply Forall_proper; [intros x; by destruct (b x)|done]. Qed.

Lemma validate_event_name_Ok event wid :
  validate_event_name event wid = Ok tt ↔ event_segments_ok event.
Proof.
  unfold validate_event_name, event_segments_ok, invalid.
  setoid_rewrite <- is_empty_false.
  destruct (is_empty event) eqn:E; simpl; [|apply (for_each_guard is_empty)].
  apply is_empty_true in E as ->. split; [done|]. by inversion 1.
Qed.

Lemma validate_flat_step wid i st :
  validate_step wid true i st = Ok tt ↔ flat_step st.
Proof.
  destruct st as [p a oe [[f op v th el]|]]; unfold flat_step; simpl; [naive_solver|].
  destruct (is_empty p) eqn:Ep; [|destruct (is_empty a) eqn:Ea];
    rewrite ?is_empty_true, ?is_empty_false in *; naive_solver.
Qed.

Lemma for_each_indexed_Forall {A E} (f : nat → A → result unit E) (P : A → Prop) xs i :
  (∀ j x, f j x = Ok tt ↔ P x) → for_each_indexed f i xs = Ok tt ↔ Forall P xs.
Proof.
  intros HP. rewrite for_each_indexed_Ok, Forall_lookup. by setoid_rewrite HP.
Qed.

Lemma seq_Ok {E} (r r' : result unit E) : (r ;? r') = Ok tt ↔ r = Ok tt ∧ r' = Ok tt.
Proof. destruct r as [[]|]; simpl; naive_solver. Qed.

Lemma validate_step_Ok wid i st : validate_step wid false i st = Ok tt ↔ step_wf st.
Proof.
  unfold step_wf. destruct st as [p a oe [[f op v th el]|]].
  - simpl. rewrite seq_Ok.
    rewrite !(for_each_indexed_Forall _ flat_step) by apply validate_flat_step. done.
  - apply (validate_flat_step wid i (mkStep p a oe None)).
Qed.

Lemma validate_workflow_Ok w file : validate_workflow w file = Ok tt ↔ workflow_wf w.
Proof.
  unfold validate_workflow, workflow_wf.
  destruct (is_empty (wf_id w)) eqn:Ei; rewrite ?is_empty_true, ?is_empty_false in Ei;
    [naive_solver|].
  case_bool_decide as Hs; [naive_solver|].
  rewrite seq_Ok, (for_each_indexed_Forall _ step_wf) by apply validate_step_Ok.
  destruct (trigger_event (wf_trigger w)) as [e|]; [rewrite validate_event_name_Ok|]; naive_solver.
Qed.

(** ** Loading *)

Definition endpoint_of (w : WorkflowDef) : list string :=
  option_list (trigger_endpoint (wf_trigger w)).

(** What the maps of the loader record. *)
Record load_inv (st : LoadState) : Prop := {
  li_ids : ∀ i, is_Some (id_sources st !! i) ↔ i ∈ wf_id <$> all_workflows st;
  li_eps : ∀ e, is_Some (endpoint_sources st !! e) ↔ e ∈ all_workflows st ≫= endpoint_of;
}.

Lemma is_Some_insert {A} (m : gmap string A) k v j :
  is_Some (<[k := v]> m !! j) ↔ is_Some (m !! j) ∨ j = k.
Proof. rewrite lookup_insert_is_Some'. naive_solver. Qed.

Definition accepts (st : LoadState) (w : WorkflowDef) : Prop :=
  workflow_wf w ∧ wf_id w ∉ wf_id <$> all_workflows st ∧
  (∀ e, trigger_endpoint (wf_trigger w) = Some e → e ∉ all_workflows st ≫= endpoint_of).

Lemma add_workflow_Ok file st k w st' :
  load_inv st → add_workflow file st (k, w) = Ok st' →
  accepts st (with_id k w) ∧ all_workflows st' = all_workflows st ++ [with_id k w] ∧ load_inv st'.
Proof.
  intros [Hi He]. unfold add_workflow. simpl. set (v := with_id k w).
  destruct (validate_workflow v file) as [[]|] eqn:Hv; simpl; [|done].
  apply validate_workflow_Ok in Hv.
  destruct (id_sources st !! wf_id v) as [x|] eqn:Hid; [done|].
  assert (wf_id v ∉ wf_id <$> all_workflows st) as Hni.
  { rewrite <- Hi, Hid. by intros []. }
  intros H. inv_ok. subst. simpl. split; [|split; [done|]].
  - split; [done|]. split; [done|]. intros e Hee. rewrite Hee in *.
    destruct (endpoint_sources st !! e) eqn:Hs; [done|]. rewrite <- He, Hs. by intros [].
  - split; simpl; intros x.
    + rewrite is_Some_insert, Hi, fmap_app, elem_of_app. simpl. by rewrite list_elem_of_singleton.
    + rewrite bind_app, elem_of_app, <- He. simpl. rewrite app_nil_r. unfold endpoint_of.
      destruct (trigger_endpoint (wf_trigger v)) as [e|]; simpl.
      * destruct (endpoint_sources st !! e); [done|]. inv_ok. subst.
        by rewrite is_Some_insert, list_elem_of_singleton.
      * inv_ok. subst. rewrite elem_of_nil. naive_solver.
Qed.

Lemma add_workflow_complete file st k w :
  load_inv st → accepts st (with_id k w) → ∃ st', add_workflow file st (k, w) = Ok st'.
Proof.
  intros [Hi He] (Hwf & Hid & Hep). unfold add_workflow. simpl. set (v := with_id k w) in *.
  rewrite (proj2 (validate_workflow_Ok v file) Hwf). simpl.
  rewrite <- Hi in Hid. apply eq_None_not_Some in Hid as ->.
  destruct (trigger_endpoint (wf_trigger v)) as [e|]; simpl; [|by eexists].
  specialize (Hep e eq_refl). rewrite <- He in Hep. apply eq_None_not_Some in Hep as ->.
  by eexists.
Qed.

(** The condition under which a sequence of workflows loads. *)
Definition loadable (ws : list WorkflowDef) : Prop :=
  Forall workflow_wf ws ∧ NoDup (wf_id <$> ws) ∧ NoDup (ws ≫= endpoint_of).

Lemma NoDup_app_option {A} (l : list A) (o : option A) :
  NoDup (l ++ option_list o) ↔ NoDup l ∧ ∀ e, o = Some e → e ∉ l.
Proof.
  destruct o as [e|]; simpl.
  - rewrite NoDup_app. setoid_rewrite list_elem_of_singleton. split.
    + intros (? & Hn & _). split; [done|]. intros ? [= <-] Hin. by apply (Hn _ Hin).
    + intros [? Hn]. split; [done|]. split; [|apply NoDup_singleton].
      intros x Hx ->. by apply (Hn e).
  - rewrite app_nil_r. naive_solver.
Qed.

Lemma loadable_snoc st w :
  loadable (all_workflows st ++ [w]) ↔ loadable (all_workflows st) ∧ accepts st w.
Proof.
  unfold loadable, accepts. rewrite Forall_app, Forall_singleton, fmap_app, bind_app. simpl.
  rewrite app_nil_r. change [wf_id w] with (option_list (Some (wf_id w))).
  unfold endpoint_of at 2. rewrite !NoDup_app_option. naive_solver.
Qed.

Definition named (e : string * WorkflowDef) : WorkflowDef := with_id e.1 e.2.

Lemma add_workflows_spec file st es :
  load_inv st → loadable (all_workflows st) →
  match try_fold (add_workflow file) st es with
  | Ok st' => all_workflows st' = all_workflows st ++ (named <$> es) ∧ load_inv st' ∧
              loadable (all_workflows st')
  | Err _ => ¬ loadable (all_workflows st ++ (named <$> es))
  end.
Proof.
  revert st. induction es as [|[k w] es IH]; intros st Hinv Hld; simpl.
  { by rewrite app_nil_r. }
  destruct (add_workflow file st (k, w)) as [st'|err] eqn:Ha; simpl.
  - destruct (add_workflow_Ok _ _ _ _ _ Hinv Ha) as (Hacc & Hall & Hinv').
    assert (loadable (all_workflows st')) as Hld'.
    { rewrite Hall. by apply loadable_snoc. }
    specialize (IH st' Hinv' Hld'). change (named (k, w)) with (with_id k w).
    rewrite (cons_middle (with_id k w)), app_assoc, <- Hall. done.
  - intros Hl. change (named (k, w)) with (with_id k w) in Hl.
    rewrite (cons_middle (with_id k w)), app_assoc in Hl.
    assert (loadable (all_workflows st ++ [with_id k w])) as Hl1.
    { destruct Hl as (H1 & H2 & H3). rewrite Forall_app in H1.
      rewrite fmap_app, NoDup_app in H2. rewrite bind_app, NoDup_app in H3.
      unfold loadable. tauto. }
    apply loadable_snoc in Hl1 as [_ Hacc].
    destruct (add_workflow_complete file st k w Hinv Hacc) as [st' ?]. congruence.
Qed.

Section Files.
Context (parse_yaml : string → result (list (string * WorkflowDef)) string).

(** The workflows one file declares. *)
Definition declares (e : DirEntry) (g : list (string * WorkflowDef)) : Prop :=
  ∃ text, contents e = Ok text ∧ parse_yaml text = Ok g.

Lemma load_files_spec st es gs :
  load_inv st → loadable (all_workflows st) → Forall2 declares es gs →
  match try_fold (load_file parse_yaml) st es with
  | Ok st' => all_workflows st' = all_workflows st ++ (named <$> concat gs) ∧
              loadable (all_workflows st')
  | Err _ => ¬ loadable (all_workflows st ++ (named <$> concat gs))
  end.
Proof.
  intros Hi Hl Hes. revert st Hi Hl.
  induction Hes as [|e g es gs (text & Hc & Hp) Hes IH]; intros st Hi Hl; simpl.
  { by rewrite app_nil_r. }
  unfold load_file at 1. rewrite Hc. simpl. rewrite Hp. simpl.
  pose proof (add_workflows_spec (file_name e) st g Hi Hl) as Hg.
  destruct (try_fold _ st g) as [st'|err]; simpl; rewrite fmap_app, app_assoc.
  - destruct Hg as (<- & Hi' & Hl'). by apply IH.
  - intros Hl'. apply Hg. destruct Hl' as (H1 & H2 & H3). rewrite Forall_app in H1.
    rewrite fmap_app, NoDup_app in H2. rewrite bind_app, NoDup_app in H3.
    unfold loadable. tauto.
Qed.

Lemma load_files_declares st es st' :
  try_fold (load_file parse_yaml) st es = Ok st' → ∃ gs, Forall2 declares es gs.
Proof.
  revert st. induction es as [|e es IH]; intros st; simpl; [by exists []|].
  intros H. destruct (load_file parse_yaml st e) as [st1|] eqn:E; simpl in H; [|done].
  destruct (IH _ H) as [gs Hgs]. unfold load_file in E.
  destruct (contents e) as [text|] eqn:Hc; simpl in E; [|done].
  destruct (parse_yaml text) as [g|] eqn:Hp; simpl in E; [|done].
  exists (g :: gs). constructor; [by exists text|done].
Qed.

End Files.

(** ** The registry *)

Definition endpoint_key (w : WorkflowDef) : option (HttpMethod * string) :=
  e ← trigger_endpoint (wf_trigger w); result_ok (parse_endpoint e (wf_id w)).

Lemma parse_endpoint_Err e wid err :
  parse_endpoint e wid = Err err → ∃ reason, err = InvalidDefinition wid reason.
Proof.
  unfold parse_endpoint, invalid.
  destruct (splitn2 " "%char e) as [|m [|p [|]]]; try (intros [= <-]; by eexists).
  destruct (parse_method m); simpl; [done|]. intros [= <-]. by eexists.
Qed.

Section RegistryFacts.
Context {Schedule : Type} (parse_cron : string → result Schedule string).

Definition triggers_parse (w : WorkflowDef) : Prop :=
  (∀ e, trigger_endpoint (wf_trigger w) = Some e → is_Some (endpoint_key w)) ∧
  (∀ c, trigger_schedule (wf_trigger w) = Some c → is_ok (parse_cron c) = true).

Lemma build_snoc ws w :
  build parse_cron (ws ++ [w]) =
  let? reg := build parse_cron ws in add_triggers parse_cron reg w.
Proof.
  unfold build. rewrite try_fold_app. destruct (try_fold _ _ ws); simpl; [|done].
  by destruct (add_triggers _ _ w).
Qed.

Lemma add_triggers_spec reg w :
  match add_triggers parse_cron reg w with
  | Ok reg' => triggers_parse w ∧
      endpoints reg' = match endpoint_key w with
                       | Some k => <[k := w]> (endpoints reg)
                       | None => endpoints reg
                       end ∧
      (∀ n, find_event reg' n =
         find_event reg n ++ (if decide (trigger_event (wf_trigger w) = Some n) then [w] else []))
  | Err e => ¬ triggers_parse w ∧ ∃ reason, e = InvalidDefinition (wf_id w) reason
  end.
Proof.
  unfold add_triggers, triggers_parse, endpoint_key.
  destruct (trigger_endpoint (wf_trigger w)) as [e|] eqn:He; simpl.
  2: destruct (trigger_schedule (wf_trigger w)) as [c|] eqn:Hc; simpl;
     [destruct (parse_cron c) eqn:Hp; simpl|].
  1: destruct (parse_endpoint e (wf_id w)) as [key|err] eqn:Hk; simpl;
     [destruct (trigger_schedule (wf_trigger w)) as [c|] eqn:Hc; simpl;
      [destruct (parse_cron c) eqn:Hp; simpl|]|].
  4: { split; [intros [H _]; by destruct (H e eq_refl)|].
       by apply parse_endpoint_Err in Hk. }
  all: try (split; [intros [_ H]; specialize (H c eq_refl); by rewrite Hp in H|by eexists]).
  all: split; [split; intros ? [=]; subst; rewrite ?Hp; by eauto|split; [done|]];
    intros n; unfold find_event; simpl;
    destruct (trigger_event (wf_trigger w)) as [ev|];
    [destruct (decide (Some ev = Some n)) as [[= ->]|Hne];
       [by rewrite lookup_insert_eq|rewrite lookup_insert_ne, app_nil_r by congruence; done]
    |by rewrite decide_False, app_nil_r].
Qed.

Lemma build_Ok ws reg :
  build parse_cron ws = Ok reg →
  Forall triggers_parse ws ∧
  (∀ k, endpoints reg !! k = last (filter (λ w, endpoint_key w = Some k) ws)) ∧
  (∀ n, find_event reg n = filter (λ w, trigger_event (wf_trigger w) = Some n) ws).
Proof.
  revert reg. induction ws as [|w ws IH] using rev_ind; intros reg.
  { intros [= <-]. split; [done|]. by split. }
  rewrite build_snoc. destruct (build parse_cron ws) as [reg0|] eqn:Hb; simpl; [|done].
  intros Ha. destruct (IH reg0 eq_refl) as (Hp & He & Hv).
  pose proof (add_triggers_spec reg0 w) as Hs. rewrite Ha in Hs.
  destruct Hs as (Hw & Hee & Hvv). split; [|split].
  - apply Forall_app. split; [done|]. by constructor.
  - intros k. rewrite Hee, filter_snoc.
    destruct (endpoint_key w) as [k'|]; [destruct (decide (k' = k)) as [->|Hne]|].
    + rewrite lookup_insert_eq, decide_True by done. by rewrite last_snoc.
    + rewrite lookup_insert_ne, decide_False by congruence. by rewrite app_nil_r.
    + rewrite decide_False by done. by rewrite app_nil_r.
  - intros n. rewrite Hvv, Hv, filter_snoc. by case_decide.
Qed.

Lemma build_total ws : Forall triggers_parse ws → ∃ reg, build parse_cron ws = Ok reg.
Proof.
  induction ws as [|w ws IH] using rev_ind; [by eexists|].
  rewrite Forall_app, Forall_singleton. intros [Hws Hw]. destruct (IH Hws) as [reg0 Hr].
  rewrite build_snoc, Hr. simpl. pose proof (add_triggers_spec reg0 w) as Hs.
  destruct (add_triggers parse_cron reg0 w); [by eexists|]. by destruct Hs.
Qed.

(** The registry. Building it succeeds exactly when every endpoint and cron
    trigger parses. An endpoint lookup then answers with the last workflow whose
    declared method (up to case) and path match, and an event lookup with all the
    workflows declaring that event, in loading order. *)
Theorem registry_answers ws :
  (is_ok (build parse_cron ws) = true ↔ Forall triggers_parse ws) ∧
  ∀ reg, build parse_cron ws = Ok reg →
    (∀ m p, find_endpoint reg m p =
       k ← parse_method m; last (filter (λ w, endpoint_key w = Some (k, p)) ws)) ∧
    (∀ n, find_event reg n = filter (λ w, trigger_event (wf_trigger w) = Some n) ws).
Proof.
  split.
  - split; [|intros H; by destruct (build_total ws H) as [? ->]].
    destruct (build parse_cron ws) as [reg|] eqn:E; [|done]. intros _. by apply build_Ok in E as [? _].
  - intros reg Hb. apply build_Ok in Hb as (_ & He & Hv). split; [|done].
    intros m p. unfold find_endpoint. destruct (parse_method m); simpl; auto.
Qed.

Lemma splitn2_app t p : ¬ char_in " "%char t → splitn2 " "%char (t +:+ " " +:+ p) = [t; p].
Proof.
  intros Ht. unfold splitn2.
  assert (split_once " "%char (t +:+ " " +:+ p) = Some (t, p)) as ->; [|done].
  induction t as [|a t IH]; simpl in *; [done|].
  rewrite bool_decide_eq_false_2 by tauto. by rewrite IH by tauto.
Qed.

Lemma endpoint_key_declared w t p :
  trigger_endpoint (wf_trigger w) = Some (t +:+ " " +:+ p) → ¬ char_in " "%char t →
  endpoint_key w = (λ m, (m, p)) <$> parse_method t.
Proof.
  intros He Ht. unfold endpoint_key, parse_endpoint. rewrite He. simpl.
  change (String " " p) with (" " +:+ p). rewrite splitn2_app by done.
  by destruct (parse_method t).
Qed.

Lemma last_filter_unique {A} (P : A → Prop) `{∀ x, Decision (P x)} xs x :
  x ∈ xs → P x → (∀ y, y ∈ xs → P y → y = x) → last (filter P xs) = Some x.
Proof.
  intros Hin HP Hu. assert (x ∈ filter P xs) as Hf by (by apply list_elem_of_filter).
  destruct (last (filter P xs)) as [y|] eqn:E.
  - f_equal. apply last_Some_elem_of, list_elem_of_filter in E as [? ?]. auto.
  - apply last_None in E. rewrite E in Hf. by apply elem_of_nil in Hf.
Qed.

(** When no two workflows declare the same method (up to case) and path, every
    endpoint workflow is reachable: a request with the method and path as declared
    is routed to it. *)
Lemma declared_endpoint_routed ws reg w t p :
  build parse_cron ws = Ok reg → NoDup (omap endpoint_key ws) →
  w ∈ ws → trigger_endpoint (wf_trigger w) = Some (t +:+ " " +:+ p) → ¬ char_in " "%char t →
  find_endpoint reg t p = Some w.
Proof.
  intros Hb Hnd Hw He Ht. pose proof (endpoint_key_declared w t p He Ht) as Hk.
  apply build_Ok in Hb as (Hp & Hep & _). rewrite Forall_forall in Hp.
  destruct (Hp w Hw) as [Hpw _]. specialize (Hpw _ He) as [key Hkey].
  unfold find_endpoint. rewrite Hk in Hkey. destruct (parse_method t) as [m|]; [|done].
  simpl in *. rewrite Hep. apply last_filter_unique; [done|done|].
  intros w' Hw' Hk'. apply list_elem_of_lookup in Hw as [i Hi], Hw' as [j Hj].
  destruct (decide (i = j)) as [->|Hne]; [congruence|]. exfalso.
  clear -Hnd Hi Hj Hne Hk Hk'. revert i j Hi Hj Hne.
  induction ws as [|x ws IH]; intros [|i] [|j] Hi Hj Hne; simplify_eq/=.
  - rewrite Hk in Hnd. apply NoDup_cons in Hnd as [Hni _]. apply Hni.
    apply list_elem_of_omap. exists w'. split; [by eapply list_elem_of_lookup_2|done].
  - rewrite Hk' in Hnd. apply NoDup_cons in Hnd as [Hni _]. apply Hni.
    apply list_elem_of_omap. exists w. split; [by eapply list_elem_of_lookup_2|done].
  - eapply IH; [|exact Hi|exact Hj|congruence].
    destruct (endpoint_key x); [by apply NoDup_cons in Hnd as []|done].
Qed.
End RegistryFacts.

(** ** Event names *)

Definition good_segment (p : string) : Prop :=
  p ≠ empty_str ∧ ∀ c, char_in c p → Triggers.segment_char c = true.

Lemma for_each_segments wid (e1 e2 : string → string) xs :
  for_each (λ segment,
    if is_empty segment then invalid wid (e1 segment)
    else if negb (all_chars Triggers.segment_char segment) then invalid wid (e2 segment)
    else Ok tt) xs = Ok tt ↔ Forall good_segment xs.
Proof.
  rewrite for_each_Ok. apply Forall_proper; [intros p|done]. unfold good_segment.
  rewrite <- all_chars_true. unfold invalid.
  destruct (is_empty p) eqn:E; rewrite ?is_empty_true, ?is_empty_false in E; [naive_solver|].
  destruct (all_chars _ p); naive_solver.
Qed.

(** An event name passes trigger validation exactly when it has at least two
    dot-separated segments, each one not empty and made of ASCII letters, digits,
    hyphens and underscores; every such name also passes the loader's check. *)
Theorem trigger_event_names event wid :
  (Triggers.validate_event_name event wid = Ok tt ↔
     2 ≤ length (split "."%char event) ∧ Forall good_segment (split "."%char event)) ∧
  (Triggers.validate_event_name event wid = Ok tt → validate_event_name event wid = Ok tt).
Proof.
  assert (Triggers.validate_event_name event wid = Ok tt ↔
     2 ≤ length (split "."%char event) ∧ Forall good_segment (split "."%char event)) as Heq.
  2: { split; [exact Heq|]. rewrite Heq. intros [_ Hg]. apply validate_event_name_Ok.
       eapply Forall_impl; [exact Hg|]. by intros p []. }
  unfold Triggers.validate_event_name.
  pose proof (split_empty_piece "."%char event) as Hep.
  assert (char_in "."%char event ↔ 2 ≤ length (split "."%char event)) as Hdot.
  { split.
    - intros Hin. pose proof (join_split "."%char event) as Hj.
      pose proof (split_no_sep "."%char event) as Hn. pose proof (split_not_nil "."%char event).
      destruct (split "."%char event) as [|p [|q ps]]; simpl in *; [done| |lia].
      subst. by apply Forall_inv in Hn.
    - intros Hl. destruct (contains_char event "."%char) eqn:E; [by apply contains_char_true|].
      rewrite split_nochar in Hl; [simpl in Hl; lia|]. rewrite <- contains_char_true. congruence. }
  destruct (contains_char event "."%char) eqn:Hc; cycle 1.
  { assert (¬ char_in "."%char event) by (rewrite <- contains_char_true; congruence).
    destruct (is_empty event); simpl; unfold invalid; naive_solver. }
  assert (Forall good_segment (split "."%char event) → empty_str ∉ split "."%char event) as Hne.
  { rewrite Forall_forall. intros Hg Hin. by destruct (Hg _ Hin). }
  apply contains_char_true in Hc. unfold singleton in Hep. simpl in Hep.
  unfold invalid.
  destruct (is_empty event) eqn:E1; [apply is_empty_true in E1; naive_solver|]. simpl.
  destruct (starts_with event ".") eqn:E2; simpl; [naive_solver|].
  destruct (ends_with event ".") eqn:E3; simpl; [naive_solver|].
  destruct (contains_str event "..") eqn:E4; simpl; [naive_solver|].
  pose proof (for_each_segments wid
    (λ _, "event trigger '" +:+ event +:+ "' " +:+ "contains an empty segment")
    (λ segment, "event trigger '" +:+ event +:+ "' " +:+ "segment '" +:+ segment +:+ "' contains invalid characters (only alphanumeric, hyphens, underscores allowed)")
    (split "."%char event)) as Hfe.
  unfold invalid in Hfe. simpl in Hfe. rewrite Hfe. tauto.
Qed.

(** ** Concrete workflows *)

Definition endpoint_workflow (id endpoint : string) : WorkflowDef :=
  mkWorkflow id id None Sync NoValidation (mkTrigger (Some endpoint) None None)
    [mkStep "p" "a" None None].

Definition no_cron (_ : string) : result unit string := Err "no cron".

Definition two_posts : list WorkflowDef :=
  [endpoint_workflow "w1" "POST /x"; endpoint_workflow "w2" "post /y"].

Definition registry_of (ws : list WorkflowDef) : TriggerRegistry unit :=
  match build no_cron ws with
  | Ok reg => reg
  | Err _ => mkRegistry ∅ ∅ []
  end.

Lemma registry_answers_witness :
  find_endpoint (registry_of two_posts) "Post" "/y" = Some (endpoint_workflow "w2" "post /y").
Proof.
  rewrite (proj1 (proj2 (registry_answers no_cron two_posts) (registry_of two_posts) eq_refl)).
  reflexivity.
Defined.

Lemma declared_endpoint_routed_witness :
  find_endpoint (registry_of two_posts) "post" "/y" = Some (endpoint_workflow "w2" "post /y").
Proof.
  apply (declared_endpoint_routed no_cron two_posts).
  - reflexivity.
  - apply (bool_decide_unpack (NoDup (omap endpoint_key two_posts))). by vm_compute.
  - right. left.
  - reflexivity.
  - simpl. intros H. repeat destruct H as [H|H]; discriminate || done.
Defined.

Lemma trigger_event_names_witness : validate_event_name "a-1.b_c" "w" = Ok tt.
Proof. apply trigger_event_names. reflexivity. Defined.

(** The duplicate-endpoint check compares endpoint strings, the registry
    compares parsed methods: two workflows declaring the same endpoint in a
    different case both load, and one of them can then never be reached. *)
Theorem case_variant_endpoint_shadowed file :
  let w1 := endpoint_workflow "w1" "POST /x" in
  let w2 := endpoint_workflow "w2" "post /x" in
  is_ok (try_fold (add_workflow file) (mkLoad [] ∅ ∅) [("w1", w1); ("w2", w2)]) = true ∧
  is_ok (build no_cron [w1; w2]) = true ∧
  ∀ m p, find_endpoint (registry_of [w1; w2]) m p ≠ Some w1.
Proof.
  intros w1 w2. split; [reflexivity|]. split; [reflexivity|]. intros m p.
  unfold find_endpoint. destruct (parse_method m) as [k|]; simpl; [|done].
  rewrite (proj1 (proj2 (build_Ok no_cron [w1; w2] (registry_of [w1; w2]) eq_refl))).
  rewrite !filter_cons.
  assert (endpoint_key w1 = Some (Post, "/x")) as -> by reflexivity.
  assert (endpoint_key w2 = Some (Post, "/x")) as -> by reflexivity.
  case_decide; [|by rewrite filter_nil]. by rewrite filter_nil.
Qed.

(** The engine starts with a workflow that declares no trigger at all, which
    [validate_triggers] would reject: loading and building the registry accept it,
    and it can never run. *)
Theorem triggerless_workflow_loads file :
  let w := mkWorkflow "w" "w" None Sync NoValidation (mkTrigger None None None)
             [mkStep "p" "a" None None] in
  is_ok (try_fold (add_workflow file) (mkLoad [] ∅ ∅) [("w", w)]) = true ∧
  is_ok (build no_cron [w]) = true ∧
  is_ok (Triggers.validate_triggers [w]) = false ∧
  (∀ m p, find_endpoint (registry_of [w]) m p = None) ∧
  (∀ e, find_event (registry_of [w]) e = []) ∧ schedules (registry_of [w]) = [].
Proof.
  intros w. split_and!; try reflexivity. intros m p. unfold find_endpoint.
  by destruct (parse_method m).
Qed.
