(* ===== verification/Jobs.v ===== *)
(** * Background jobs

    packages/workflow-engine/src/executor.rs: [PipelineExecutor]'s job registry,
    [execute_workflow], [execute_sync], [execute_async], [spawn] and
    [cleanup_expired_jobs]. The executor runs many tasks at once, so its behaviour
    is a step relation between registry states: every lock-protected write of the
    source is one step, and a run of the steps of a workflow ends with any outcome
    that [run_steps] can have. *)

From stdpp Require Import base tactics list strings gmap relations.
From Stdlib Require Import ZArith Lia.
From S2P Require Import Prelude RustString Json Types Executor.

Definition DEFAULT_CONCURRENCY_LIMIT : nat := 32.
Definition DEFAULT_JOB_TTL : Z := 3600 * 1000000000.

Inductive JobStatus : Type :=
| InProgress
| Completed
| Failed (msg : string).

#[export] Instance job_status_eq_dec : EqDecision JobStatus.
Proof. solve_decision. Defined.

Record JobEntry : Type := mkJob {
  job_state : JobStatus;
  job_response : option PipelineMessage;
  job_created_at : timestamp;
}.

(** A background task: the one [execute_async] spawns carries its message, the one
    [spawn] spawns builds it from the trigger; a synchronous run has no job. *)
Inductive Work : Type :=
| AsyncWork (job : uuid) (created_at : timestamp) (workflow : WorkflowDef) (msg : PipelineMessage)
| SpawnWork (job : uuid) (created_at : timestamp) (workflow : WorkflowDef) (trigger : TriggerContext)
| SyncWork (workflow : WorkflowDef) (msg : PipelineMessage).

Definition work_job (w : Work) : option (uuid * timestamp) :=
  match w with
  | AsyncWork j t _ _ | SpawnWork j t _ _ => Some (j, t)
  | SyncWork _ _ => None
  end.

Record Executor : Type := mkExecutor {
  jobs : gmap uuid JobEntry;
  permits : nat;
  closed : bool;
  queued : list Work;
  running : list Work;
  registrations : list (uuid * timestamp);
  emitted : list (string * json);
}.

(** [PipelineExecutor::with_concurrency_limit] ([new] takes the default). *)
Definition with_concurrency_limit (limit : nat) : Executor :=
  mkExecutor ∅ limit false [] [] [] [].
Definition new_executor : Executor := with_concurrency_limit DEFAULT_CONCURRENCY_LIMIT.

Definition job_entry (σ : Executor) (job : uuid) : option JobEntry := jobs σ !! job.
Definition job_status (σ : Executor) (job : uuid) : option JobStatus :=
  job_state <$> jobs σ !! job.

(** ** Cleanup *)

Definition not_expired (now ttl : Z) (e : JobEntry) : Prop := (now - job_created_at e < ttl)%Z.

#[export] Instance not_expired_dec now ttl e : Decision (not_expired now ttl e).
Proof. unfold not_expired. apply _. Defined.

Definition retain_jobs (now ttl : Z) (m : gmap uuid JobEntry) : gmap uuid JobEntry :=
  filter (λ kv, not_expired now ttl kv.2) m.

(** The new registry and the number of entries removed. *)
Definition cleanup_expired_jobs (now ttl : Z) (m : gmap uuid JobEntry)
    : gmap uuid JobEntry * nat :=
  let kept := retain_jobs now ttl m in (kept, size m - size kept).

(** ** Starting work *)

Definition set_jobs (σ : Executor) (m : gmap uuid JobEntry) : Executor :=
  mkExecutor m (permits σ) (closed σ) (queued σ) (running σ) (registrations σ) (emitted σ).

Definition in_progress (created_at : timestamp) : JobEntry := mkJob InProgress None created_at.

(** [execute_async] up to its [tokio::spawn]: the entry is written first. *)
Definition start_async (σ : Executor) (job : uuid) (now : timestamp) (workflow : WorkflowDef)
    (msg : PipelineMessage) : Executor :=
  mkExecutor (<[job := in_progress now]> (jobs σ)) (permits σ) (closed σ)
    (queued σ ++ [AsyncWork job now workflow msg]) (running σ) (registrations σ) (emitted σ).

(** The message [execute_async] returns at once. *)
Definition async_response `{JsonLib} (job : uuid) (now : timestamp) (workflow : WorkflowDef)
    (msg : PipelineMessage) : result PipelineMessage WorkflowError :=
  let? validated := result_map_err (PluginExecutionError "workflow-engine")
    (schema_validated_new
       (mk_obj [("job_id", JStr job); ("workflow_id", JStr (wf_id workflow));
                ("status", JStr "accepted")]) object_schema) in
  Ok (mkMessage
        (mkMetadata (correlation_id (metadata msg))
           ("workflow-engine:async:" +:+ wf_id workflow) now
           (auth_context (metadata msg)) [])
        (Custom validated)).

(** [spawn]: the entry is left to a task of its own. *)
Definition start_spawn (σ : Executor) (job : uuid) (now : timestamp) (workflow : WorkflowDef)
    (trigger : TriggerContext) : Executor :=
  mkExecutor (jobs σ) (permits σ) (closed σ)
    (queued σ ++ [SpawnWork job now workflow trigger]) (running σ)
    (registrations σ ++ [(job, now)]) (emitted σ).

(** [execute_sync]: wait for a permit. *)
Definition start_sync (σ : Executor) (workflow : WorkflowDef) (msg : PipelineMessage) : Executor :=
  mkExecutor (jobs σ) (permits σ) (closed σ) (queued σ ++ [SyncWork workflow msg])
    (running σ) (registrations σ) (emitted σ).

(** ** Ending work *)

(** Write the job's last entry and emit its event, if the work is a job. *)
Definition record_job (σ : Executor) (w : Work) (status : JobStatus)
    (response : option PipelineMessage) : Executor :=
  match work_job w with
  | Some (job, created_at) =>
      set_jobs σ (<[job := mkJob status response created_at]> (jobs σ))
  | None => σ
  end.

Definition emit (σ : Executor) (name : string) (payload : json) : Executor :=
  mkExecutor (jobs σ) (permits σ) (closed σ) (queued σ) (running σ) (registrations σ)
    (emitted σ ++ [(name, payload)]).

Definition emit_failed (σ : Executor) (job workflow_id err : string) : Executor :=
  emit σ "workflow.failed"
    (mk_obj [("job_id", JStr job); ("workflow_id", JStr workflow_id); ("error", JStr err)]).

Definition emit_completed (σ : Executor) (job workflow_id : string) : Executor :=
  emit σ "workflow.completed"
    (mk_obj [("job_id", JStr job); ("workflow_id", JStr workflow_id)]).

Definition fail_job (σ : Executor) (w : Work) (job workflow_id : string) (e : WorkflowError)
    : Executor :=
  emit_failed (record_job σ w (Failed (workflow_error_display e)) None) job workflow_id
    (workflow_error_display e).

(** What the task does with the outcome of [run_steps]; a panic unwinds the task
    and writes nothing. *)
Definition finish_run (σ : Executor) (w : Work) (out : outcome PipelineMessage) : Executor :=
  match w with
  | AsyncWork job _ workflow _ | SpawnWork job _ workflow _ =>
      match out with
      | Ret m => emit_completed (record_job σ w Completed (Some m)) job (wf_id workflow)
      | Throw e => fail_job σ w job (wf_id workflow) e
      | Panic _ => σ
      end
  | SyncWork _ _ => σ
  end.

(** The task of [spawn] builds its message first; [run] is the outcome of running
    the steps from a message. *)
Definition finish_work `{JsonLib} (fresh : uuid) (now : timestamp) (σ : Executor) (w : Work)
    (run : PipelineMessage → outcome PipelineMessage) : Executor :=
  match w with
  | SpawnWork job _ workflow trigger =>
      match build_initial_message fresh now trigger with
      | Ok msg => finish_run σ w (run msg)
      | Err e => fail_job σ w job (wf_id workflow) e
      end
  | AsyncWork _ _ _ msg | SyncWork _ msg => finish_run σ w (run msg)
  end.

(** A closed semaphore fails the job without an event. *)
Definition refuse_work (σ : Executor) (w : Work) : Executor :=
  record_job σ w (Failed "concurrency semaphore closed") None.

(** [execute_workflow]: what starting a workflow does in each mode. *)
Definition execute_workflow (σ : Executor) (job : uuid) (now : timestamp) (workflow : WorkflowDef)
    (msg : PipelineMessage) : Executor :=
  match wf_mode workflow with
  | Sync => start_sync σ workflow msg
  | Async => start_async σ job now workflow msg
  end.

(** ** Interleavings *)

Definition take_permit (σ : Executor) (l r : list Work) (w : Work) : Executor :=
  mkExecutor (jobs σ) (permits σ - 1) (closed σ) (l ++ r) (running σ ++ [w])
    (registrations σ) (emitted σ).

Definition drop_queued (σ : Executor) (l r : list Work) : Executor :=
  mkExecutor (jobs σ) (permits σ) (closed σ) (l ++ r) (running σ) (registrations σ) (emitted σ).

Definition release_permit (σ : Executor) (l r : list Work) : Executor :=
  mkExecutor (jobs σ) (permits σ + 1) (closed σ) (queued σ) (l ++ r) (registrations σ) (emitted σ).

Definition register_job (σ : Executor) (l r : list (uuid * timestamp)) (job : uuid)
    (created_at : timestamp) : Executor :=
  mkExecutor (<[job := in_progress created_at]> (jobs σ)) (permits σ) (closed σ)
    (queued σ) (running σ) (l ++ r) (emitted σ).

(** Jobs known to the executor: in the registry or in a task. *)
Definition mentions (σ : Executor) (job : uuid) : Prop :=
  is_Some (jobs σ !! job) ∨
  (∃ w t, w ∈ queued σ ++ running σ ∧ work_job w = Some (job, t)) ∨
  (∃ t, (job, t) ∈ registrations σ).

Section Steps.
Context `{JsonLib}.

(** Whether runs may end in a panic. *)
Context (may_panic : bool).

Inductive step : Executor → Executor → Prop :=
| step_execute σ job now workflow msg :
    ¬ mentions σ job →
    step σ (execute_workflow σ job now workflow msg)
| step_acquire σ l w r :
    queued σ = l ++ w :: r → closed σ = false → 0 < permits σ →
    step σ (take_permit σ l r w)
| step_refuse σ l w r :
    queued σ = l ++ w :: r → closed σ = true →
    step σ (refuse_work (drop_queued σ l r) w)
| step_finish σ l w r fresh now run :
    running σ = l ++ w :: r →
    (may_panic = true ∨ ∀ m why, run m ≠ Panic why) →
    step σ (finish_work fresh now (release_permit σ l r) w run)
| step_cleanup σ now :
    step σ (set_jobs σ (cleanup_expired_jobs now DEFAULT_JOB_TTL (jobs σ)).1).

(** The executor with [spawn] in use as well. *)
Inductive step_spawn : Executor → Executor → Prop :=
| spawn_other σ σ' : step σ σ' → step_spawn σ σ'
| spawn_start σ job now workflow trigger :
    ¬ mentions σ job → step_spawn σ (start_spawn σ job now workflow trigger)
| spawn_register σ l job created_at r :
    registrations σ = l ++ (job, created_at) :: r →
    step_spawn σ (register_job σ l r job created_at).
End Steps.

(** ** The registry's invariant *)

Definition alive (σ : Executor) : list (uuid * timestamp) :=
  omap work_job (queued σ ++ running σ).

Definition terminal (e : JobEntry) : Prop := job_state e ≠ InProgress.

(** Without [spawn]: no two tasks work on one job, a job whose task is alive has
    not ended, and every permit is free or held by one running task. *)
Record jobs_inv (limit : nat) (σ : Executor) : Prop := {
  ji_nodup : NoDup (alive σ).*1;
  ji_open : ∀ j e, jobs σ !! j = Some e → terminal e → j ∉ (alive σ).*1;
  ji_permits : permits σ + length (running σ) = limit;
  ji_registrations : registrations σ = [];
}.

(** Every unfinished job but those in [spawned] has a task that will finish it. *)
Definition no_orphans (spawned : gset uuid) (σ : Executor) : Prop :=
  ∀ j e, j ∉ spawned → jobs σ !! j = Some e → job_state e = InProgress → j ∈ (alive σ).*1.
