(* ===== verification/JobsFacts.v ===== *)
(** * Facts about background jobs

    The registry's invariant over every interleaving of [execute_workflow], its
    tasks and cleanup; that finished jobs stay finished; what cleanup removes;
    and the interleavings in which a finished or panicked job is reported as in
    progress. *)

From stdpp Require Import base tactics list strings gmap relations.
From Stdlib Require Import ZArith Lia.
From S2P Require Import Prelude RustString Json Types Executor ExecutorFacts Jobs.

(** ** Cleanup *)

Lemma retain_jobs_lookup now ttl m j e :
  retain_jobs now ttl m !! j = Some e ↔ m !! j = Some e ∧ not_expired now ttl e.
Proof. unfold retain_jobs. by rewrite map_lookup_filter_Some. Qed.

(** Cleanup keeps exactly the entries younger than the time to live, unchanged,
    and reports how many it removed. *)
Theorem cleanup_exact now ttl m :
  let '(kept, removed) := cleanup_expired_jobs now ttl m in
  (∀ j e, kept !! j = Some e ↔ m !! j = Some e ∧ (now - job_created_at e < ttl)%Z) ∧
  size kept + removed = size m.
Proof.
  simpl. split; [apply retain_jobs_lookup|].
  assert (size (retain_jobs now ttl m) ≤ size m); [|lia].
  apply map_subseteq_size. apply map_filter_subseteq.
Qed.

(** ** Moving tasks *)

Lemma job_lookup_insert (m : gmap uuid JobEntry) j x k e :
  <[j := x]> m !! k = Some e → (k = j ∧ e = x) ∨ (k ≠ j ∧ m !! k = Some e).
Proof. rewrite lookup_insert_Some. naive_solver. Qed.

Section Finish.
Context `{JsonLib}.

Lemma fail_job_shape σ w job wid e :
  let σ' := fail_job σ w job wid e in
  permits σ' = permits σ ∧ queued σ' = queued σ ∧ running σ' = running σ ∧
  registrations σ' = registrations σ ∧
  match work_job w with
  | Some (j, t) => ∃ x, terminal x ∧ jobs σ' = <[j := x]> (jobs σ)
  | None => jobs σ' = jobs σ
  end.
Proof.
  unfold fail_job, record_job. destruct (work_job w) as [[j t]|]; simpl; split_and!; try done.
  eexists. by split; [|reflexivity].
Qed.

Lemma finish_work_shape fresh now σ w run :
  let σ' := finish_work fresh now σ w run in
  permits σ' = permits σ ∧ queued σ' = queued σ ∧ running σ' = running σ ∧
  registrations σ' = registrations σ ∧
  match work_job w with
  | Some (j, t) =>
      (∃ x, terminal x ∧ jobs σ' = <[j := x]> (jobs σ)) ∨
      (jobs σ' = jobs σ ∧ ∃ m why, run m = Panic why)
  | None => jobs σ' = jobs σ
  end.
Proof.
  assert (∀ msg, let σ' := finish_run σ w (run msg) in
    permits σ' = permits σ ∧ queued σ' = queued σ ∧ running σ' = running σ ∧
    registrations σ' = registrations σ ∧
    match work_job w with
    | Some (j, t) =>
        (∃ x, terminal x ∧ jobs σ' = <[j := x]> (jobs σ)) ∨
        (jobs σ' = jobs σ ∧ ∃ m why, run m = Panic why)
    | None => jobs σ' = jobs σ
    end) as Hrun.
  { intros msg. destruct w; simpl; destruct (run msg) as [m|e|why] eqn:Er; simpl;
      split_and!; try done; try (left; eexists; by split; [|reflexivity]);
      right; split; eauto. }
  destruct w as [j t wf m|j t wf tr|wf m]; simpl in *; [apply (Hrun m)| |apply (Hrun m)].
  destruct (build_initial_message fresh now tr) as [msg|e]; [apply Hrun|].
  destruct (fail_job_shape σ (SpawnWork j t wf tr) j (wf_id wf) e) as (? & ? & ? & ? & ?).
  split_and!; try done. by left.
Qed.
End Finish.

(** ** The invariant *)

Lemma queued_perm (qs rs l r : list Work) w :
  qs = l ++ w :: r → qs ++ rs ≡ₚ w :: (l ++ r) ++ rs.
Proof. intros ->. rewrite <- Permutation_middle. by simpl. Qed.

Lemma running_perm (qs rs l r : list Work) w :
  rs = l ++ w :: r → qs ++ rs ≡ₚ w :: qs ++ (l ++ r).
Proof. intros ->. by rewrite <- (Permutation_middle l), <- Permutation_middle. Qed.

Lemma not_mentions σ j : ¬ mentions σ j → jobs σ !! j = None ∧ j ∉ (alive σ).*1.
Proof.
  intros Hm. split.
  - apply eq_None_not_Some. intros ?. apply Hm. by left.
  - intros Hin. apply list_elem_of_fmap in Hin as ([j' t] & -> & Hin).
    apply list_elem_of_omap in Hin as (w & Hw & Hj). apply Hm. right. left. by exists w, t.
Qed.

(** A task leaves the list of live tasks, writing a terminal entry for its job or
    nothing. *)
Lemma jobs_inv_end limit σ σ' w rest :
  jobs_inv limit σ →
  queued σ ++ running σ ≡ₚ w :: rest → queued σ' ++ running σ' ≡ₚ rest →
  permits σ' + length (running σ') = limit → registrations σ' = [] →
  (jobs σ' = jobs σ ∨ ∃ j t x, work_job w = Some (j, t) ∧ terminal x ∧ jobs σ' = <[j := x]> (jobs σ)) →
  jobs_inv limit σ'.
Proof.
  intros [Hnd Hop Hpm Hrg] Hq Hq' Hpm' Hrg' Hj.
  assert (alive σ ≡ₚ option_list (work_job w) ++ alive σ') as Hal.
  { unfold alive. rewrite Hq, Hq'. simpl. by destruct (work_job w). }
  rewrite Hal, fmap_app in Hnd. apply NoDup_app in Hnd as (_ & Hdisj & Hnd).
  split; [done| |done|done]. intros j e Hje Ht.
  assert (∀ k, k ∉ (alive σ).*1 → k ∉ (alive σ').*1) as Hsub.
  { intros k Hk Hin. apply Hk. rewrite Hal, fmap_app. apply elem_of_app. by right. }
  destruct Hj as [Heq|(k & t & x & Hk & Hx & Heq)]; rewrite Heq in Hje.
  - apply Hsub. by eapply Hop.
  - apply job_lookup_insert in Hje as [[-> ->]|[Hne Hje]].
    + apply Hdisj. rewrite Hk. simpl. by left.
    + apply Hsub. by eapply Hop.
Qed.

Section Invariant.
Context `{JsonLib} (may_panic : bool) (limit : nat).

Lemma execute_workflow_inv σ job now wf msg :
  ¬ mentions σ job → jobs_inv limit σ → jobs_inv limit (execute_workflow σ job now wf msg).
Proof.
  intros Hm [Hnd Hop Hpm Hrg]. apply not_mentions in Hm as [Hj Hal].
  unfold execute_workflow. destruct (wf_mode wf).
  - assert (alive (start_sync σ wf msg) = alive σ) as Ha.
    { unfold alive. simpl. by rewrite <- app_assoc, !omap_app. }
    by split; rewrite ?Ha.
  - assert (alive (start_async σ job now wf msg) ≡ₚ (job, now) :: alive σ) as Ha.
    { unfold alive. simpl. rewrite <- app_assoc, !omap_app. simpl. by rewrite <- Permutation_middle. }
    split; [rewrite Ha; by constructor| |done|done].
    intros j e Hje Ht. simpl in Hje. rewrite Ha. simpl.
    apply job_lookup_insert in Hje as [[-> ->]|[Hne Hje]]; [done|].
    rewrite not_elem_of_cons. split; [done|]. by eapply Hop.
Qed.

Lemma step_inv σ σ' : step may_panic σ σ' → jobs_inv limit σ → jobs_inv limit σ'.
Proof.
  intros Hst Hinv. pose proof Hinv as [Hnd Hop Hpm Hrg].
  destruct Hst as [σ job now wf msg Hm|σ l w r Hq Hc Hp|σ l w r Hq Hc|σ l w r fresh now run Hr Hpan|σ now].
  - by apply execute_workflow_inv.
  - assert (alive (take_permit σ l r w) ≡ₚ alive σ) as Ha.
    { unfold alive, take_permit. simpl. rewrite (queued_perm _ (running σ) _ _ _ Hq).
      by rewrite app_assoc, <- Permutation_cons_append. }
    split; [by rewrite Ha| | |done]; simpl.
    + intros j e. rewrite Ha. apply Hop.
    + rewrite length_app. simpl. lia.
  - eapply (jobs_inv_end limit σ _ w ((l ++ r) ++ running σ)); [done|by apply queued_perm|..];
      unfold refuse_work, record_job; destruct (work_job w) as [[j t]|] eqn:Ew; simpl; try done.
    + right. eexists j, t, _. split; [done|]. by split; [|reflexivity].
    + by left.
  - destruct (finish_work_shape fresh now (release_permit σ l r) w run) as (Hp1 & Hq1 & Hr1 & Hg1 & Hj1).
    eapply (jobs_inv_end limit σ _ w (queued σ ++ (l ++ r))); [done|by apply running_perm|..].
    + by rewrite Hq1, Hr1.
    + rewrite Hp1, Hr1. simpl. rewrite Hr in Hpm. rewrite length_app in *. simpl in Hpm. lia.
    + by rewrite Hg1.
    + destruct (work_job w) as [[j t]|]; [|by left].
      destruct Hj1 as [(x & ? & ?)|[? _]]; [right; by eexists j, t, x|by left].
  - split; [done| |done|done]. intros j e. simpl. rewrite retain_jobs_lookup.
    intros [? _]. by eapply Hop.
Qed.

Lemma initial_inv : jobs_inv limit (with_concurrency_limit limit).
Proof. split; simpl; [constructor|done|lia|done]. Qed.

(** Over every interleaving of [execute_workflow], the background tasks and
    cleanup, the tasks running at any time never exceed the concurrency limit,
    every permit is accounted for, and no job has two tasks. *)
Theorem concurrency_limited σ :
  rtc (step may_panic) (with_concurrency_limit limit) σ →
  length (running σ) ≤ limit ∧ permits σ + length (running σ) = limit ∧ NoDup (alive σ).*1.
Proof.
  intros Hr. assert (jobs_inv limit σ) as [Hnd _ Hpm _]; [|split_and!; [lia|done|done]].
  eapply (rtc_ind_r (jobs_inv limit)); [apply initial_inv| |exact Hr].
  intros. by eapply step_inv.
Qed.

(** A job that has completed or failed never changes again: in every reachable
    state, a step leaves its entry as it is or, if it is cleanup, removes it. *)
Theorem finished_jobs_stay σ σ' j e :
  rtc (step may_panic) (with_concurrency_limit limit) σ → step may_panic σ σ' →
  jobs σ !! j = Some e → job_state e ≠ InProgress →
  jobs σ' !! j = Some e ∨ jobs σ' !! j = None.
Proof.
  intros Hr Hst Hj Ht. assert (jobs_inv limit σ) as [Hnd Hop Hpm Hrg].
  { eapply (rtc_ind_r (jobs_inv limit)); [apply initial_inv| |exact Hr].
    intros. by eapply step_inv. }
  assert (∀ w t, w ∈ queued σ ++ running σ → work_job w ≠ Some (j, t)) as Hno.
  { intros w t Hw Hwj. apply (Hop j e Hj Ht). apply list_elem_of_fmap. exists (j, t).
    split; [done|]. apply list_elem_of_omap. by exists w. }
  destruct Hst as [σ job now wf msg Hm|σ l w r Hq Hc Hp|σ l w r Hq Hc|σ l w r fresh now run Hr' Hpan|σ now].
  - left. unfold execute_workflow. destruct (wf_mode wf); simpl; [done|].
    apply not_mentions in Hm as [Hn _]. rewrite lookup_insert_ne; [done|]. intros ->. congruence.
  - by left.
  - left. unfold refuse_work, record_job. destruct (work_job w) as [[k t]|] eqn:Ew; simpl; [|done].
    rewrite lookup_insert_ne; [done|]. intros ->. apply (Hno w t); [|done].
    rewrite Hq. set_solver.
  - left. destruct (finish_work_shape fresh now (release_permit σ l r) w run) as (_ & _ & _ & _ & Hj1).
    destruct (work_job w) as [[k t]|] eqn:Ew; [|by rewrite Hj1].
    destruct Hj1 as [(x & _ & ->)|[-> _]]; simpl; [|done].
    rewrite lookup_insert_ne; [done|]. intros ->. apply (Hno w t); [|done].
    rewrite Hr'. set_solver.
  - simpl. destruct (retain_jobs now DEFAULT_JOB_TTL (jobs σ) !! j) as [e'|] eqn:E; [left|by right].
    apply retain_jobs_lookup in E as [E _]. congruence.
Qed.
End Invariant.

Section Orphans.
Context `{JsonLib} (limit : nat).

(** A task that leaves writes a terminal entry for its job, if it has one. *)
Lemma no_orphans_end S σ σ' w rest :
  no_orphans S σ →
  queued σ ++ running σ ≡ₚ w :: rest → queued σ' ++ running σ' ≡ₚ rest →
  match work_job w with
  | Some (j, _) => ∃ x, terminal x ∧ jobs σ' = <[j := x]> (jobs σ)
  | None => jobs σ' = jobs σ
  end →
  no_orphans S σ'.
Proof.
  intros Ho Hq Hq' Hj k e HS Hk He.
  assert (alive σ ≡ₚ option_list (work_job w) ++ alive σ') as Hal.
  { unfold alive. rewrite Hq, Hq'. simpl. by destruct (work_job w). }
  destruct (work_job w) as [[j t]|]; simpl in Hal.
  - destruct Hj as (x & Hx & Hj). rewrite Hj in Hk.
    apply job_lookup_insert in Hk as [[-> ->]|[Hne Hk]]; [done|].
    specialize (Ho k e HS Hk He). rewrite Hal in Ho. simpl in Ho. by apply elem_of_cons in Ho as [].
  - rewrite Hj in Hk. rewrite <- Hal. by eapply Ho.
Qed.

Lemma step_no_orphans S σ σ' : step false σ σ' → no_orphans S σ → no_orphans S σ'.
Proof.
  intros Hst Ho.
  destruct Hst as [σ job now wf msg Hm|σ l w r Hq Hc Hp|σ l w r Hq Hc|σ l w r fresh now run Hr Hpan|σ now].
  - intros k e HS. unfold execute_workflow. destruct (wf_mode wf); simpl; intros Hk He.
    + specialize (Ho k e HS Hk He). unfold alive in *. simpl. rewrite <- app_assoc. simpl.
      rewrite omap_app in *. done.
    + unfold alive. simpl. rewrite <- app_assoc, !omap_app. simpl. rewrite fmap_app, elem_of_app. simpl.
      rewrite elem_of_cons. apply job_lookup_insert in Hk as [[-> ->]|[Hne Hk]]; [auto|].
      specialize (Ho k e HS Hk He). unfold alive in Ho. rewrite omap_app, fmap_app, elem_of_app in Ho. tauto.
  - intros k e HS Hk He. specialize (Ho k e HS Hk He).
    assert (alive (take_permit σ l r w) ≡ₚ alive σ) as ->; [|done].
    unfold alive, take_permit. simpl. rewrite (queued_perm _ (running σ) _ _ _ Hq).
    by rewrite app_assoc, <- Permutation_cons_append.
  - eapply (no_orphans_end S σ _ w ((l ++ r) ++ running σ)); [done|by apply queued_perm|..];
      unfold refuse_work, record_job; destruct (work_job w) as [[j t]|]; simpl; try done.
    eexists. by split; [|reflexivity].
  - destruct (finish_work_shape fresh now (release_permit σ l r) w run) as (_ & Hq1 & Hr1 & _ & Hj1).
    eapply (no_orphans_end S σ _ w (queued σ ++ (l ++ r))); [done|by apply running_perm|..].
    + by rewrite Hq1, Hr1.
    + destruct Hpan as [|Hpan]; [done|].
      destruct (work_job w) as [[j t]|]; [|done]. destruct Hj1 as [?|[_ (m & why & Hm)]]; [done|].
      by apply Hpan in Hm.
  - intros k e HS Hk He. simpl in Hk. apply retain_jobs_lookup in Hk as [Hk _]. by eapply Ho.
Qed.

(** What the executor reaches when no run panics, and the jobs that [spawn] started on the way. *)
Inductive reached : gset uuid → Executor → Prop :=
| reached_new : reached ∅ (with_concurrency_limit limit)
| reached_step S σ σ' : reached S σ → step false σ σ' → reached S σ'
| reached_spawn S σ job now workflow trigger :
    reached S σ → ¬ mentions σ job → reached ({[job]} ∪ S) (start_spawn σ job now workflow trigger)
| reached_register S σ l job created_at r :
    reached S σ → registrations σ = l ++ (job, created_at) :: r →
    reached S (register_job σ l r job created_at).

Lemma step_registrations b σ σ' : step b σ σ' → registrations σ' = registrations σ.
Proof.
  destruct 1 as [σ job now wf msg _|σ l w r _ _ _|σ l w r _ _|σ l w r fresh now run _ _|σ now]; try done.
  - unfold execute_workflow. by destruct (wf_mode wf).
  - unfold refuse_work, record_job. by destruct (work_job w) as [[]|].
  - by destruct (finish_work_shape fresh now (release_permit σ l r) w run) as (_ & _ & _ & -> & _).
Qed.

(** Only jobs of [spawn] await registration. *)
Lemma reached_inv S σ :
  reached S σ → no_orphans S σ ∧ Forall (λ jt, jt.1 ∈ S) (registrations σ).
Proof.
  induction 1 as [|S σ σ' _ [Ho Hr] Hst|S σ job now wf tr _ [Ho Hr] _|S σ l job t r _ [Ho Hr] Hreg].
  - split; [|constructor]. intros j e _. simpl. by rewrite lookup_empty.
  - split; [by eapply step_no_orphans|]. by rewrite (step_registrations _ _ _ Hst).
  - split.
    + intros j e HS Hj He. assert (j ∈ (alive σ).*1) as Ha by (apply (Ho j e); [set_solver|done..]).
      unfold alive in *. simpl. rewrite <- app_assoc, !omap_app in *. set_solver.
    + simpl. apply Forall_app. split; [|constructor; [set_solver|constructor]].
      eapply Forall_impl; [exact Hr|]. set_solver.
  - rewrite Hreg in Hr. apply Forall_app in Hr as [Hl [Hj Hr]%Forall_cons]. split.
    + intros j e HS Hje He. simpl in Hje. apply job_lookup_insert in Hje as [[-> ->]|[_ Hje]]; [done|].
      by apply (Ho j e).
    + by apply Forall_app.
Qed.

(** C4. When no run panics, whatever workflows are executed and spawned, in whatever interleaving, a
    job that [spawn] did not start and that is reported as in progress has a task, queued or
    running, that will end it: once the tasks are gone, every such job in the registry has
    completed or failed. (A job of [spawn] may be left in progress: its registration can come
    after its end.) *)
Theorem in_progress_has_task S σ :
  reached S σ →
  (∀ j, j ∉ S → job_status σ j = Some InProgress → j ∈ (alive σ).*1) ∧
  (queued σ = [] → running σ = [] →
     ∀ j e, j ∉ S → jobs σ !! j = Some e → job_state e ≠ InProgress).
Proof.
  intros [Ho _]%reached_inv. split.
  - unfold job_status. intros j HS Hj. destruct (jobs σ !! j) as [e|] eqn:E; [|done].
    simpl in Hj. simplify_eq. by apply (Ho j e).
  - intros Hq Hr' j e HS Hj He. specialize (Ho j e HS Hj He). unfold alive in Ho.
    rewrite Hq, Hr' in Ho. by apply elem_of_nil in Ho.
Qed.
End Orphans.

(** ** Concrete interleavings *)

#[local] Existing Instance type_keyword_lib.

Definition async_workflow : WorkflowDef :=
  mkWorkflow "w" "w" None Async NoValidation (mkTrigger None (Some "a.b") None) [demo_step None].
Definition async_trigger : TriggerContext := EventTrigger "a.b" demo_object.

Definition accepted : Executor :=
  execute_workflow (with_concurrency_limit 1) "j" 0 async_workflow (demo_message demo_object).
Definition started : Executor :=
  take_permit accepted [] [] (AsyncWork "j" 0 async_workflow (demo_message demo_object)).
Definition finished (out : outcome PipelineMessage) : Executor :=
  finish_work "c" 0 (release_permit started [] [])
    (AsyncWork "j" 0 async_workflow (demo_message demo_object)) (λ _, out).

Lemma reach_started b : rtc (step b) (with_concurrency_limit 1) started.
Proof.
  eapply rtc_l; [apply (step_execute _ _ "j" 0 async_workflow (demo_message demo_object))|].
  { intros [[? H]|[(w & t & H & _)|(t & H)]]; simpl in H; [done| |]; by apply elem_of_nil in H. }
  eapply rtc_once, (step_acquire _ accepted []
    (AsyncWork "j" 0 async_workflow (demo_message demo_object)) []); [done|done|simpl; lia].
Qed.

Lemma reach_finished b out :
  (b = true ∨ ∀ why, out ≠ Panic why) → rtc (step b) (with_concurrency_limit 1) (finished out).
Proof.
  intros Hb. eapply rtc_r; [apply reach_started|].
  apply (step_finish b started [] (AsyncWork "j" 0 async_workflow (demo_message demo_object)) []
    "c" 0%Z (λ _, out)); [done|]. destruct Hb; [by left|right; auto].
Qed.

Lemma concurrency_limited_witness :
  length (running started) ≤ 1 ∧ permits started + length (running started) = 1 ∧
  NoDup (alive started).*1.
Proof. apply (concurrency_limited true 1). apply reach_started. Defined.

Definition done_job : Executor := finished (Ret (demo_message demo_object)).

Lemma finished_jobs_stay_witness :
  let σ' := set_jobs done_job (cleanup_expired_jobs 5 DEFAULT_JOB_TTL (jobs done_job)).1 in
  jobs σ' !! "j" = Some (mkJob Completed (Some (demo_message demo_object)) 0) ∨
  jobs σ' !! "j" = None.
Proof.
  apply (finished_jobs_stay false 1 done_job).
  - apply reach_finished. by right.
  - apply step_cleanup.
  - reflexivity.
  - discriminate.
Defined.

(** A spawned job that is registered, next to one that was executed and ended. *)
Definition spawned_too : Executor :=
  register_job (start_spawn done_job "k" 5 async_workflow async_trigger) [] [] "k" 5.

Lemma in_progress_has_task_witness :
  job_status spawned_too "j" = Some Completed ∧ job_status spawned_too "k" = Some InProgress ∧
  (∀ j, j ∉ ({[ "k"%string ]} ∪ ∅ : gset uuid) → job_status spawned_too j = Some InProgress → j ∈ (alive spawned_too).*1).
Proof.
  split; [reflexivity|]. split; [reflexivity|].
  apply (in_progress_has_task 1). apply (reached_register 1 _ _ [] "k" 5 []); [|reflexivity].
  apply reached_spawn.
  - assert (rtc (step false) (with_concurrency_limit 1) done_job) as Hr by (apply reach_finished; by right).
    eapply (rtc_ind_r (R := step false) (reached 1 ∅)); [apply reached_new| |exact Hr].
    intros y z _ Hs Hy. by eapply reached_step.
  - intros [[e He]|[(w & t & Hw & _)|[t Ht]]]; [by vm_compute in He|by apply elem_of_nil in Hw|by apply elem_of_nil in Ht].
Defined.

(** A run that panics leaves its job in progress with no task to end it. *)
Theorem panicked_job_stuck why :
  rtc (step true) (with_concurrency_limit 1) (finished (Panic why)) ∧
  alive (finished (Panic why)) = [] ∧
  job_status (finished (Panic why)) "j" = Some InProgress ∧
  emitted (finished (Panic why)) = [].
Proof. split_and!; [|done..]. apply reach_finished. by left. Qed.

Definition spawned : Executor :=
  start_spawn (with_concurrency_limit 1) "j" 0 async_workflow async_trigger.
Definition spawn_running : Executor :=
  take_permit spawned [] [] (SpawnWork "j" 0 async_workflow async_trigger).
Definition spawn_finished (out : outcome PipelineMessage) : Executor :=
  finish_work "c" 0 (release_permit spawn_running [] [])
    (SpawnWork "j" 0 async_workflow async_trigger) (λ _, out).
Definition late_registration (out : outcome PipelineMessage) : Executor :=
  register_job (spawn_finished out) [] [] "j" 0.

(** [spawn] registers the job from a task of its own, so a run may end
    first: in this interleaving the workflow completes, its completion is recorded
    and emitted, and the late registration then overwrites the entry, leaving the
    finished job in progress, without its response and with no task left. *)
Theorem spawn_registration_race m :
  rtc (step_spawn false) (with_concurrency_limit 1) (late_registration (Ret m)) ∧
  job_entry (spawn_finished (Ret m)) "j" = Some (mkJob Completed (Some m) 0) ∧
  job_entry (late_registration (Ret m)) "j" = Some (mkJob InProgress None 0) ∧
  alive (late_registration (Ret m)) = [] ∧ registrations (late_registration (Ret m)) = [] ∧
  emitted (late_registration (Ret m)) =
    [("workflow.completed", mk_obj [("job_id", JStr "j"); ("workflow_id", JStr "w")])].
Proof.
  split_and!; [|done..].
  eapply rtc_l; [apply (spawn_start _ _ "j" 0 async_workflow async_trigger)|].
  { intros [[? H]|[(w & t & H & _)|(t & H)]]; simpl in H; [done| |]; by apply elem_of_nil in H. }
  eapply rtc_l; [apply spawn_other, (step_acquire _ spawned []
    (SpawnWork "j" 0 async_workflow async_trigger) []); [done|done|simpl; lia]|].
  eapply rtc_l; [apply spawn_other, (step_finish false spawn_running []
    (SpawnWork "j" 0 async_workflow async_trigger) [] "c" 0%Z (λ _, Ret m));
    [done|right; done]|].
  eapply rtc_once, (spawn_register _ (spawn_finished (Ret m)) [] "j" 0 []). done.
Qed.
