(* ===== verification/Capability.v ===== *)
(** * Capabilities

    packages/traits/src/capability.rs (the capabilities and their text form),
    packages/plugin-system/src/error.rs (the plugin system's errors) and
    packages/plugin-system/src/capability.rs (approval and runtime checks). Paths
    are lists of components; canonicalisation is the file system's and is a
    parameter. *)

From stdpp Require Import base tactics list strings gmap sets.
From Stdlib Require Import Ascii ZArith.
From S2P Require Import Prelude RustString Json Types.

Inductive Capability : Type :=
| StorageRead | StorageWrite | StorageDelete
| StorageBlobRead | StorageBlobWrite | StorageBlobDelete
| HttpOutbound | EventsEmit | EventsSubscribe | ConfigRead
| CredentialsRead | CredentialsWrite | Logging.

#[export] Instance capability_eq_dec : EqDecision Capability.
Proof. solve_decision. Defined.

Definition capability_display (c : Capability) : string :=
  match c with
  | StorageRead => "storage:doc:read"
  | StorageWrite => "storage:doc:write"
  | StorageDelete => "storage:doc:delete"
  | StorageBlobRead => "storage:blob:read"
  | StorageBlobWrite => "storage:blob:write"
  | StorageBlobDelete => "storage:blob:delete"
  | HttpOutbound => "http:outbound"
  | EventsEmit => "events:emit"
  | EventsSubscribe => "events:subscribe"
  | ConfigRead => "config:read"
  | CredentialsRead => "credentials:read"
  | CredentialsWrite => "credentials:write"
  | Logging => "logging"
  end.

(** [FromStr]: the error carries the text. *)
Definition capability_from_str (s : string) : result Capability string :=
  if bool_decide (s = "storage:doc:read") then Ok StorageRead
  else if bool_decide (s = "storage:doc:write") then Ok StorageWrite
  else if bool_decide (s = "storage:doc:delete") then Ok StorageDelete
  else if bool_decide (s = "storage:blob:read") then Ok StorageBlobRead
  else if bool_decide (s = "storage:blob:write") then Ok StorageBlobWrite
  else if bool_decide (s = "storage:blob:delete") then Ok StorageBlobDelete
  else if bool_decide (s = "http:outbound") then Ok HttpOutbound
  else if bool_decide (s = "events:emit") then Ok EventsEmit
  else if bool_decide (s = "events:subscribe") then Ok EventsSubscribe
  else if bool_decide (s = "config:read") then Ok ConfigRead
  else if bool_decide (s = "credentials:read") then Ok CredentialsRead
  else if bool_decide (s = "credentials:write") then Ok CredentialsWrite
  else if bool_decide (s = "logging") then Ok Logging
  else Err s.

Lemma capability_from_display c : capability_from_str (capability_display c) = Ok c.
Proof. by destruct c. Qed.

Lemma capability_from_str_Ok s c : capability_from_str s = Ok c → s = capability_display c.
Proof.
  unfold capability_from_str. repeat (case_bool_decide; [by intros [= <-]|]). done.
Qed.

#[export] Instance capability_countable : Countable Capability :=
  inj_countable capability_display (λ s, result_ok (capability_from_str s))
    (λ c, f_equal result_ok (capability_from_display c)).

(** ** Plugin errors *)

Inductive PluginError : Type :=
| DirectoryNotFound (msg : string)
| DirectoryScanFailed (msg : string)
| ManifestInvalid (msg : string)
| ManifestMissingField (field path : string)
| WasmLoadFailed (msg : string)
| CapabilityViolation (msg : string)
| RuntimeCapabilityViolation (msg : string)
| ExecutionFailed (msg : string)
| Crash (msg : string)
| LifecycleError (msg : string)
| Io (msg : string).

#[export] Instance plugin_error_eq_dec : EqDecision PluginError.
Proof. solve_decision. Defined.

Definition plugin_error_display (e : PluginError) : string :=
  match e with
  | DirectoryNotFound m => "plugin directory not found: " +:+ m
  | DirectoryScanFailed m => "failed to read directory entry: " +:+ m
  | ManifestInvalid m => "invalid plugin manifest: " +:+ m
  | ManifestMissingField f p =>
      "manifest missing required field '" +:+ f +:+ "' for plugin at " +:+ p
  | WasmLoadFailed m => "failed to load WASM binary: " +:+ m
  | CapabilityViolation m => "capability violation: " +:+ m
  | RuntimeCapabilityViolation m => "runtime capability violation: " +:+ m
  | ExecutionFailed m => "plugin execution failed: " +:+ m
  | Crash m => "plugin crashed: " +:+ m
  | LifecycleError m => "lifecycle error: " +:+ m
  | Io m => "I/O error: " +:+ m
  end.

Definition plugin_error_code (e : PluginError) : string :=
  match e with
  | DirectoryNotFound _ => "PLUGIN_001"
  | DirectoryScanFailed _ => "PLUGIN_002"
  | ManifestInvalid _ => "PLUGIN_003"
  | ManifestMissingField _ _ => "PLUGIN_004"
  | WasmLoadFailed _ => "PLUGIN_005"
  | CapabilityViolation _ => "CAP_001"
  | RuntimeCapabilityViolation _ => "CAP_002"
  | ExecutionFailed _ => "PLUGIN_007"
  | Crash _ => "PLUGIN_010"
  | LifecycleError _ => "PLUGIN_008"
  | Io _ => "PLUGIN_009"
  end.

Definition plugin_error_severity (e : PluginError) : Severity :=
  match e with
  | DirectoryScanFailed _ | ExecutionFailed _ | Io _ => Retryable
  | _ => Fatal
  end.

Definition plugin_engine_error (e : PluginError) : EngineError :=
  mkEngineError (plugin_error_code e) (plugin_error_severity e) "plugin-system"
    (plugin_error_display e).

(** ** Approval *)

Abbreviation ApprovedCapabilities := (gset Capability) (only parsing).

Definition has (approved : ApprovedCapabilities) (c : Capability) : bool :=
  bool_decide (c ∈ approved).

Abbreviation path := (list string) (only parsing).

(** [Path::starts_with] compares whole components. *)
Definition path_starts_with (p base : path) : bool := bool_decide (base `prefix_of` p).

Section Approval.
Context (canonicalize : path → option path).

Definition is_first_party (plugin_path plugins_dir : path) : bool :=
  match canonicalize plugin_path, canonicalize plugins_dir with
  | Some p, Some d => path_starts_with p d
  | _, _ => false
  end.

(** The manifest's plugin id and required capabilities are arguments. *)
Definition check_capability_approval (plugin_id : string) (required : list Capability)
    (plugin_path plugins_dir : path) (approved_capabilities : list Capability)
    : result ApprovedCapabilities PluginError :=
  let declared : gset Capability := list_to_set required in
  if is_first_party plugin_path plugins_dir then Ok declared
  else
    let approved_set : gset Capability := list_to_set approved_capabilities in
    let unapproved := filter (λ c, c ∉ approved_set) (elements declared) in
    if negb (bool_decide (unapproved = [])) then
      Err (CapabilityViolation
             ("plugin '" +:+ plugin_id +:+ "' declares unapproved capabilities: "
              +:+ join ", " (capability_display <$> unapproved)))
    else Ok (declared ∩ approved_set).
End Approval.

Definition check_capability (approved : ApprovedCapabilities) (plugin_id : string)
    (required : Capability) : result unit PluginError :=
  if has approved required then Ok tt
  else Err (RuntimeCapabilityViolation
              ("plugin '" +:+ plugin_id +:+ "' lacks capability '"
               +:+ capability_display required +:+ "'")).

Definition check_collection_access (plugin_id collection : string) (declared : list string)
    : result unit PluginError :=
  if starts_with collection (plugin_id +:+ ".") then Ok tt
  else if contains declared collection then Ok tt
  else Err (RuntimeCapabilityViolation
              ("plugin '" +:+ plugin_id +:+ "' is not allowed to access collection '"
               +:+ collection
               +:+ "': collection not declared in manifest [collections] section")).

(** ** Facts *)

(** The text of a capability parses back to it, and a text parses only if it
    is the text of the capability it parses to. *)
Theorem capability_roundtrip s c :
  capability_from_str s = Ok c ↔ s = capability_display c.
Proof.
  split; [apply capability_from_str_Ok|]. intros ->. apply capability_from_display.
Qed.

(** Approval. A plugin is granted exactly the capabilities it declares, and
    only when it is first-party or every one of them is on the operator's list;
    otherwise approval fails. A third-party plugin never holds a capability the
    operator did not list. *)
Theorem approval_exact canonicalize id required p d approved :
  match check_capability_approval canonicalize id required p d approved with
  | Ok granted =>
      (∀ c, has granted c = true ↔ c ∈ required) ∧
      (is_first_party canonicalize p d = true ∨ ∀ c, has granted c = true → c ∈ approved)
  | Err e =>
      is_first_party canonicalize p d = false ∧ (∃ c, c ∈ required ∧ c ∉ approved) ∧
      plugin_error_code e = "CAP_001"
  end.
Proof.
  unfold check_capability_approval, has.
  destruct (is_first_party canonicalize p d) eqn:Ef.
  { split; [|by left]. intros c. rewrite bool_decide_eq_true. set_solver. }
  destruct (bool_decide (filter (λ c, c ∉ (list_to_set approved : gset Capability))
              (elements (list_to_set required : gset Capability)) = [])) eqn:Eu;
    bool_to_prop; simpl.
  - assert (∀ c, c ∈ required → c ∈ approved) as Hsub.
    { intros c Hc. destruct (decide (c ∈ approved)) as [|Hn]; [done|]. exfalso.
      assert (c ∈ filter (λ c, c ∉ (list_to_set approved : gset Capability))
                (elements (list_to_set required : gset Capability))) as Hin.
      { apply list_elem_of_filter. set_solver. }
      rewrite Eu in Hin. by apply elem_of_nil in Hin. }
    split; [|right]; intros c; rewrite bool_decide_eq_true; set_solver.
  - split_and!; [done| |done]. destruct (filter _ _) as [|c l] eqn:El; [done|].
    exists c. assert (c ∈ c :: l) as Hin by left. rewrite <- El in Hin.
    apply list_elem_of_filter in Hin. set_solver.
Qed.
