(* ===== verification/Manifest.v ===== *)
(** * Plugin manifests

    packages/plugin-system/src/manifest.rs: fail-fast parsing of a manifest and
    the collect-all validation of a parsed one. The TOML parser, the semver
    parser and the file system are parameters; the maps of a manifest are
    association lists in iteration order. *)

From stdpp Require Import base tactics list strings.
From Stdlib Require Import Ascii ZArith.
From S2P Require Import Prelude RustString Json Types Capability.

Definition DEFAULT_TIMEOUT_MS : Z := 30000.

Inductive TrustLevel : Type := FirstParty | ThirdParty.
Inductive CollectionAccess : Type := ReadAccess | WriteAccess | ReadWriteAccess.

Definition trust_from_str (s : string) : result TrustLevel string :=
  if bool_decide (s = "first_party") then Ok FirstParty
  else if bool_decide (s = "third_party") then Ok ThirdParty
  else Err ("invalid trust level '" +:+ s +:+ "': must be 'first_party' or 'third_party'").

Definition access_from_str (s : string) : result CollectionAccess string :=
  if bool_decide (s = "read") then Ok ReadAccess
  else if bool_decide (s = "write") then Ok WriteAccess
  else if bool_decide (s = "read-write") then Ok ReadWriteAccess
  else Err ("invalid collection access '" +:+ s
            +:+ "': must be 'read', 'write', or 'read-write'").

(** ** Parsed manifests *)

Record PluginMeta : Type := mkMeta {
  meta_id : string;
  meta_name : string;
  meta_version : string;
  meta_description : option string;
  meta_author : option string;
  meta_license : option string;
  meta_trust : TrustLevel;
}.

Record ActionDef : Type := mkAction {
  action_description : string;
  action_timeout_ms : Z;
  action_input_schema : option string;
  action_output_schema : option string;
}.

Record CollectionDef : Type := mkCollection {
  coll_schema : string;
  coll_access : CollectionAccess;
  coll_strict : bool;
  coll_indexes : list string;
  coll_extensions : list string;
  coll_extension_schema : option string;
  coll_extension_indexes : list string;
}.

Record EventsDef : Type := mkEvents {
  events_emit : list string;
  events_subscribe : list string;
}.

Record PluginManifest : Type := mkManifest {
  mf_plugin : PluginMeta;
  mf_actions : list (string * ActionDef);
  mf_capabilities : list Capability;
  mf_collections : list (string * CollectionDef);
  mf_events : EventsDef;
  mf_config : option json;
}.

(** ** Raw manifests *)

Record RawPluginMeta : Type := mkRawMeta {
  raw_id : option string;
  raw_name : option string;
  raw_version : option string;
  raw_description : option string;
  raw_author : option string;
  raw_license : option string;
  raw_trust : option string;
}.

Record RawActionDef : Type := mkRawAction {
  raw_action_description : option string;
  raw_timeout_ms : option Z;
  raw_input_schema : option string;
  raw_output_schema : option string;
}.

Record RawCollectionDef : Type := mkRawCollection {
  raw_schema : option string;
  raw_access : option string;
  raw_strict : option bool;
  raw_indexes : option (list string);
  raw_extensions : option (list string);
  raw_extension_schema : option string;
  raw_extension_indexes : option (list string);
}.

(** [events.emit.events] and [events.subscribe.events], and [config.schema]. *)
Record RawManifest : Type := mkRawManifest {
  raw_plugin : option RawPluginMeta;
  raw_actions : option (list (string * RawActionDef));
  raw_capabilities : option (option (list string));
  raw_collections : option (list (string * RawCollectionDef));
  raw_events : option (option (option (list string)) * option (option (list string)));
  raw_config : option (option json);
}.

(** ** Name checks *)

Definition RESERVED_NAMES : list string := ["audit_log"].
Definition RESERVED_PREFIXES : list string := ["system."].

Definition plugin_id_char (c : ascii) : bool :=
  is_ascii_lowercase c || is_ascii_digit c || bool_decide (c = "-"%char).

Definition is_valid_plugin_id (id : string) : bool :=
  match id with
  | EmptyString => false
  | String c rest => is_ascii_lowercase c && all_chars plugin_id_char rest
  end.

Definition is_reserved_name (name : string) : bool :=
  contains RESERVED_NAMES name || existsb (starts_with name) RESERVED_PREFIXES.

Definition manifest_err {A} (msg : string) : result A PluginError := Err (ManifestInvalid msg).

(** [filter(|s| !s.is_empty())] *)
Definition non_empty (o : option string) : option string :=
  match o with
  | Some s => if is_empty s then None else Some s
  | None => None
  end.

Section Parse.
Context (semver_ok : string → bool).
Context (parse_toml : string → result RawManifest string).

(** The [plugin] section. *)
Definition parse_meta (path_str : string) (raw : RawPluginMeta) : result PluginMeta PluginError :=
  let? id := ok_or (non_empty (raw_id raw)) (ManifestMissingField "id" path_str) in
  let? name := ok_or (non_empty (raw_name raw)) (ManifestMissingField "name" path_str) in
  let? version := ok_or (non_empty (raw_version raw)) (ManifestMissingField "version" path_str) in
  if negb (is_valid_plugin_id id) then
    manifest_err ("invalid plugin ID '" +:+ id +:+ "': must start with a lowercase letter and contain only lowercase letters, digits, and hyphens")
  else if is_reserved_name id then
    manifest_err ("reserved name '" +:+ id +:+ "': plugin IDs cannot use reserved names")
  else if negb (semver_ok version) then
    manifest_err ("invalid version '" +:+ version +:+ "': must be valid semver (e.g., 1.0.0)")
  else
    let? trust :=
      match raw_trust raw with
      | Some t => result_map_err ManifestInvalid (trust_from_str t)
      | None => Ok ThirdParty
      end in
    Ok (mkMeta id name version (raw_description raw) (raw_author raw) (raw_license raw) trust).

Definition no_actions {A} (id : string) : result A PluginError :=
  manifest_err ("no actions declared in manifest for plugin '" +:+ id +:+ "'").

Definition parse_action (id : string) (a : string * RawActionDef)
    : result (string * ActionDef) PluginError :=
  let? description := ok_or (non_empty (raw_action_description a.2))
    (ManifestInvalid
       ("action '" +:+ a.1 +:+ "' missing required 'description' field in manifest for plugin '"
        +:+ id +:+ "'")) in
  Ok (a.1, mkAction description (default DEFAULT_TIMEOUT_MS (raw_timeout_ms a.2))
             (raw_input_schema a.2) (raw_output_schema a.2)).

Definition parse_actions (id : string) (raw : option (list (string * RawActionDef)))
    : result (list (string * ActionDef)) PluginError :=
  match raw with
  | Some [] | None => no_actions id
  | Some actions => try_map (parse_action id) actions
  end.

Definition parse_capabilities (id : string) (raw : option (option (list string)))
    : result (list Capability) PluginError :=
  match raw with
  | Some (Some caps) =>
      try_map
        (λ s, result_map_err
                (λ _, ManifestInvalid
                        ("unknown capability '" +:+ s +:+ "' in manifest for plugin '" +:+ id
                         +:+ "'. Valid capabilities: storage:doc:read, storage:doc:write, storage:doc:delete, storage:blob:read, storage:blob:write, storage:blob:delete, http:outbound, events:emit, events:subscribe, config:read"))
                (capability_from_str s))
        caps
  | _ => Ok []
  end.

Definition parse_collection (id : string) (c : string * RawCollectionDef)
    : result (string * CollectionDef) PluginError :=
  let '(coll_name, raw) := c in
  let missing field :=
    ManifestInvalid ("collection '" +:+ coll_name +:+ "' missing required '" +:+ field
                     +:+ "' field in manifest for plugin '" +:+ id +:+ "'") in
  if is_reserved_name coll_name then
    manifest_err ("reserved name '" +:+ coll_name
                  +:+ "': collection names cannot use reserved names")
  else
    let? schema := ok_or (raw_schema raw) (missing "schema") in
    let? access_str := ok_or (raw_access raw) (missing "access") in
    let? access := result_map_err
      (λ e, ManifestInvalid ("collection '" +:+ coll_name +:+ "' in plugin '" +:+ id +:+ "': " +:+ e))
      (access_from_str access_str) in
    for_each
      (λ ext,
         if negb (starts_with ext "ext.") then
           manifest_err ("collection '" +:+ coll_name +:+ "' extension '" +:+ ext
                         +:+ "' must follow 'ext.<plugin-id>.<field>' naming convention")
         else Ok tt)
      (default [] (raw_extensions raw)) ;?
    Ok (coll_name,
        mkCollection schema access (default false (raw_strict raw))
          (default [] (raw_indexes raw)) (default [] (raw_extensions raw))
          (raw_extension_schema raw) (default [] (raw_extension_indexes raw))).

Definition parse_events
    (raw : option (option (option (list string)) * option (option (list string)))) : EventsDef :=
  match raw with
  | Some (emit, subscribe) => mkEvents (default [] (mjoin emit)) (default [] (mjoin subscribe))
  | None => mkEvents [] []
  end.

(** The cross-section checks. *)
Definition check_sections (id : string) (caps : list Capability) (events : EventsDef)
    (config : option json) : result unit PluginError :=
  let p := "plugin '" +:+ id +:+ "' " in
  if negb (bool_decide (events_emit events = [])) && negb (contains caps EventsEmit) then
    manifest_err (p +:+ "declares events to emit but lacks 'events:emit' capability")
  else if negb (bool_decide (events_subscribe events = [])) && negb (contains caps EventsSubscribe)
  then manifest_err (p +:+ "declares event subscriptions but lacks 'events:subscribe' capability")
  else if bool_decide (is_Some config) && negb (contains caps ConfigRead) then
    manifest_err (p +:+ "declares [config] section but lacks 'config:read' capability")
  else
    for_each
      (λ ev,
         if (length (split "."%char ev) <? 3)%nat then
           manifest_err ("event name '" +:+ ev
             +:+ "' does not follow '<plugin-id>.<action>.<outcome>' convention")
         else Ok tt)
      (events_emit events).

Definition parse_manifest_toml (content path_str : string) : result PluginManifest PluginError :=
  let? raw := result_map_err
    (λ e, ManifestInvalid ("failed to parse " +:+ path_str +:+ ": " +:+ e)) (parse_toml content) in
  let? raw_meta := ok_or (raw_plugin raw)
    (ManifestInvalid ("missing [plugin] section in " +:+ path_str)) in
  let? plugin := parse_meta path_str raw_meta in
  let id := meta_id plugin in
  let? actions := parse_actions id (raw_actions raw) in
  let? caps := parse_capabilities id (raw_capabilities raw) in
  let? colls := try_map (parse_collection id) (default [] (raw_collections raw)) in
  let events := parse_events (raw_events raw) in
  let config := mjoin (raw_config raw) in
  check_sections id caps events config ;?
  Ok (mkManifest plugin actions caps colls events config).

(** ** Collect-all validation *)

Record ValidationError : Type := mkVErr { ve_field : string; ve_message : string }.

(** [if cond { errors.push(..) }] *)
Definition push_if (cond : bool) (field message : string) : list ValidationError :=
  if cond then [mkVErr field message] else [].

(** [dir.join(rel).exists()] *)
Context (file_exists : string → string → bool).

Definition validate_collection (plugin_dir : option string) (c : string * CollectionDef)
    : list ValidationError :=
  let '(name, coll) := c in
  push_if (is_reserved_name name) ("collections." +:+ name)
    ("reserved name '" +:+ name +:+ "': collection names cannot use reserved names") ++
  flat_map (λ ext,
    push_if (negb (starts_with ext "ext.")) ("collections." +:+ name +:+ ".extensions")
      ("extension '" +:+ ext +:+ "' must follow 'ext.<plugin-id>.<field>' naming convention"))
    (coll_extensions coll) ++
  match plugin_dir with
  | Some dir =>
      push_if (negb (starts_with (coll_schema coll) "cdm:")
               && negb (file_exists dir (coll_schema coll)))
        ("collections." +:+ name +:+ ".schema")
        ("schema path '" +:+ coll_schema coll +:+ "' does not resolve to an existing file") ++
      match coll_extension_schema coll with
      | Some ext_schema =>
          push_if (negb (file_exists dir ext_schema))
            ("collections." +:+ name +:+ ".extension_schema")
            ("extension schema path '" +:+ ext_schema
             +:+ "' does not resolve to an existing file")
      | None => []
      end
  | None => []
  end.

(** An emitted event whose action part names no declared action. *)
Definition undeclared_action (m : PluginManifest) (ev : string) : list ValidationError :=
  match split "."%char ev with
  | _ :: action :: _ :: _ =>
      push_if (negb (contains (mf_actions m).*1 action)) "events.emit"
        ("event '" +:+ ev +:+ "' references action '" +:+ action
         +:+ "' which is not declared in [actions]")
  | _ => []
  end.

Definition validate_config_path (plugin_dir : option string) (config : option json)
    : list ValidationError :=
  match config, plugin_dir with
  | Some (JStr path_str), Some dir =>
      push_if (negb (starts_with path_str "{") && negb (starts_with path_str "[")
               && negb (file_exists dir path_str) && negb (contains_str path_str "type"))
        "config.schema"
        ("config schema path '" +:+ path_str +:+ "' does not resolve to an existing file")
  | _, _ => []
  end.

Definition validate_manifest (m : PluginManifest) (plugin_dir : option string)
    : list ValidationError :=
  let meta := mf_plugin m in
  let caps := mf_capabilities m in
  push_if (negb (is_valid_plugin_id (meta_id meta))) "plugin.id"
    ("invalid plugin ID '" +:+ meta_id meta +:+ "': must start with a lowercase letter and contain only lowercase letters, digits, and hyphens") ++
  push_if (is_reserved_name (meta_id meta)) "plugin.id"
    ("reserved name '" +:+ meta_id meta +:+ "': plugin IDs cannot use reserved names") ++
  push_if (negb (semver_ok (meta_version meta))) "plugin.version"
    ("invalid version '" +:+ meta_version meta +:+ "': must be valid semver (e.g., 1.0.0)") ++
  push_if (bool_decide ((mf_actions m).*1 = [])) "actions" "no actions declared" ++
  flat_map (λ a, push_if (is_empty (action_description a.2))
                   ("actions." +:+ a.1 +:+ ".description") "action description is required")
    (mf_actions m) ++
  flat_map (validate_collection plugin_dir) (mf_collections m) ++
  push_if (negb (bool_decide (events_emit (mf_events m) = [])) && negb (contains caps EventsEmit))
    "events.emit" "declares events to emit but lacks 'events:emit' capability" ++
  push_if (negb (bool_decide (events_subscribe (mf_events m) = []))
           && negb (contains caps EventsSubscribe))
    "events.subscribe" "declares event subscriptions but lacks 'events:subscribe' capability" ++
  push_if (bool_decide (is_Some (mf_config m)) && negb (contains caps ConfigRead))
    "config" "declares [config] section but lacks 'config:read' capability" ++
  flat_map (λ ev, push_if (length (split "."%char ev) <? 3)%nat "events.emit"
                    ("event name '" +:+ ev
                     +:+ "' does not follow '<plugin-id>.<action>.<outcome>' convention"))
    (events_emit (mf_events m)) ++
  flat_map (undeclared_action m) (events_emit (mf_events m)) ++
  validate_config_path plugin_dir (mf_config m).
End Parse.

Definition determine_trust_level (canonicalize : path → option path)
    (plugin_dir builtin_plugins_path : path) : TrustLevel :=
  if path_starts_with (default plugin_dir (canonicalize plugin_dir))
       (default builtin_plugins_path (canonicalize builtin_plugins_path))
  then FirstParty else ThirdParty.

(** ** Facts *)

Section Facts.
Context (semver_ok : string → bool).
Context (parse_toml : string → result RawManifest string).
Context (file_exists : string → string → bool).

Lemma push_if_false f msg : push_if false f msg = [].
Proof. done. Qed.

Lemma flat_map_nil {A B} (f : A → list B) xs : Forall (λ x, f x = []) xs → flat_map f xs = [].
Proof. induction 1 as [|x xs Hx _ IH]; simpl; [done|]. by rewrite Hx, IH. Qed.

Lemma non_empty_Some o s : non_empty o = Some s → is_empty s = false.
Proof. destruct o as [t|]; simpl; [|done]. destruct (is_empty t) eqn:E; [done|]. by intros [= <-]. Qed.

Lemma parse_meta_Ok p raw meta :
  parse_meta semver_ok p raw = Ok meta →
  is_valid_plugin_id (meta_id meta) = true ∧ is_reserved_name (meta_id meta) = false ∧
  semver_ok (meta_version meta) = true.
Proof.
  unfold parse_meta, manifest_err. intros H. inv_ok. subst. simpl. by bool_to_prop.
Qed.

Lemma parse_action_Ok id a a' : parse_action id a = Ok a' → is_empty (action_description a'.2) = false.
Proof.
  unfold parse_action. intros H. inv_ok. subst. simpl. by eapply non_empty_Some.
Qed.

Lemma parse_actions_Ok id raw acts :
  parse_actions id raw = Ok acts →
  acts.*1 ≠ [] ∧ Forall (λ a, is_empty (action_description a.2) = false) acts.
Proof.
  unfold parse_actions, no_actions, manifest_err.
  destruct raw as [[|a raw]|]; [done| |done]. intros H. apply try_map_Ok in H. split.
  - inversion H; subst. done.
  - clear -H. induction H as [|x y xs ys Hxy _ IH]; constructor; [by eapply parse_action_Ok|done].
Qed.

Lemma parse_collection_Ok id c c' :
  parse_collection id c = Ok c' → validate_collection file_exists None c' = [].
Proof.
  destruct c as [n raw]. unfold parse_collection, manifest_err. intros H.
  destruct (is_reserved_name n) eqn:Hr; [done|]. inv_ok. subst. simpl. rewrite Hr. simpl.
  rewrite app_nil_r. apply flat_map_nil.
  match goal with H : for_each _ _ = Ok _ |- _ => apply for_each_Ok in H as Hf end.
  eapply Forall_impl; [exact Hf|]. intros ext. simpl. by destruct (starts_with ext "ext.").
Qed.

Lemma check_sections_Ok id caps evs config :
  check_sections id caps evs config = Ok tt →
  negb (bool_decide (events_emit evs = [])) && negb (contains caps EventsEmit) = false ∧
  negb (bool_decide (events_subscribe evs = [])) && negb (contains caps EventsSubscribe) = false ∧
  bool_decide (is_Some config) && negb (contains caps ConfigRead) = false ∧
  Forall (λ ev, (length (split "."%char ev) <? 3)%nat = false) (events_emit evs).
Proof.
  unfold check_sections, manifest_err. intros H.
  destruct (negb _ && negb (contains caps EventsEmit)); [done|].
  destruct (negb _ && negb (contains caps EventsSubscribe)); [done|].
  destruct (bool_decide _ && negb (contains caps ConfigRead)); [done|].
  split_and!; [done..|]. apply for_each_Ok in H. eapply Forall_impl; [exact H|].
  intros ev. simpl. by case_match.
Qed.

(** The fail-fast parser and the collect-all validator agree: validating a
    manifest the parser accepted reports nothing but emitted events whose action
    part is not a declared action, the one check the parser does not make. *)
Theorem parsed_manifest_validates content p m :
  parse_manifest_toml semver_ok parse_toml content p = Ok m →
  validate_manifest semver_ok file_exists m None =
  flat_map (undeclared_action m) (events_emit (mf_events m)).
Proof.
  unfold parse_manifest_toml. intros H.
  apply result_bind_Ok in H as (raw & _ & H). apply result_bind_Ok in H as (rmeta & _ & H).
  apply result_bind_Ok in H as (meta & Hmeta & H). apply result_bind_Ok in H as (acts & Hacts & H).
  apply result_bind_Ok in H as (caps & _ & H). apply result_bind_Ok in H as (colls & Hcolls & H).
  apply result_bind_Ok in H as ([] & Hsec & [= <-]).
  apply parse_meta_Ok in Hmeta as (Hid & Hres & Hsv).
  apply parse_actions_Ok in Hacts as (Hne & Hdesc).
  apply check_sections_Ok in Hsec as (Hem & Hsu & Hcf & Hev).
  unfold validate_manifest. simpl in *.
  rewrite Hid, Hres, Hsv, bool_decide_eq_false_2 by done. rewrite Hem, Hsu, Hcf. simpl.
  rewrite (flat_map_nil _ acts), (flat_map_nil _ colls), (flat_map_nil _ (events_emit _)).
  - simpl. destruct (mjoin (raw_config raw)) as [[]|]; by rewrite app_nil_r.
  - eapply Forall_impl; [exact Hev|]. intros ev. simpl. by intros ->.
  - apply try_map_Ok in Hcolls. clear -Hcolls.
    induction Hcolls as [|x y xs ys Hxy _ IH]; constructor; [by eapply parse_collection_Ok|done].
  - eapply Forall_impl; [exact Hdesc|]. intros x. simpl. by intros ->.
Qed.

(** The ids of parsed manifests have no dots, so that they can be used as the
    first segment of a dotted name. *)
Lemma parsed_id_no_dot content p m :
  parse_manifest_toml semver_ok parse_toml content p = Ok m →
  is_valid_plugin_id (meta_id (mf_plugin m)) = true.
Proof.
  unfold parse_manifest_toml. intros H.
  apply result_bind_Ok in H as (raw & _ & H). apply result_bind_Ok in H as (rmeta & _ & H).
  apply result_bind_Ok in H as (meta & Hmeta & H). apply parse_meta_Ok in Hmeta as (Hid & _).
  inv_ok. by subst.
Qed.
End Facts.

Lemma valid_id_no_dot id : is_valid_plugin_id id = true → ¬ char_in "."%char id.
Proof.
  destruct id as [|c id]; [done|]. simpl. intros Hv [Hc|Hc]; bool_to_prop.
  - by subst.
  - rewrite all_chars_true in *. match goal with H : ∀ c, _ |- _ => by specialize (H _ Hc) end.
Qed.

Definition demo_manifest : RawManifest :=
  mkRawManifest
    (Some (mkRawMeta (Some "mail") (Some "Mail") (Some "1.0.0") None None None None))
    (Some [("fetch", mkRawAction (Some "fetch mail") None None None)])
    (Some (Some ["events:emit"]))
    (Some [("emails", mkRawCollection (Some "cdm:emails") (Some "read") None None
              (Some ["ext.mail.flag"]) None None)])
    (Some (Some (Some ["mail.fetch.done"; "mail.send.done"]), None)) None.

Lemma parsed_manifest_validates_witness :
  ∃ m, parse_manifest_toml (λ _, true) (λ _, Ok demo_manifest) "x" "p" = Ok m ∧
    validate_manifest (λ _, true) (λ _ _, false) m None =
      [mkVErr "events.emit"
         "event 'mail.send.done' references action 'send' which is not declared in [actions]"].
Proof.
  eexists. split; [reflexivity|].
  refine (parsed_manifest_validates (λ _, true) (λ _, Ok demo_manifest) (λ _ _, false) "x" "p" _ _).
  reflexivity.
Defined.
