(* ===== verification/Lifecycle.v ===== *)
(** * The plugin lifecycle

    packages/plugin-system/src/lifecycle.rs: the six-phase state machine and the
    manager that drives every plugin through it. *)

From stdpp Require Import base tactics list strings gmap relations.
From Stdlib Require Import ZArith Lia.
From S2P Require Import Prelude RustString Json Types Capability.

Inductive LifecycleState : Type :=
| Discovered | Loaded | Initialized | Running | Stopped | Unloaded.

#[export] Instance lifecycle_state_eq_dec : EqDecision LifecycleState.
Proof. solve_decision. Defined.

Definition lifecycle_display (s : LifecycleState) : string :=
  match s with
  | Discovered => "Discovered"
  | Loaded => "Loaded"
  | Initialized => "Initialized"
  | Running => "Running"
  | Stopped => "Stopped"
  | Unloaded => "Unloaded"
  end.

Definition next (s : LifecycleState) : option LifecycleState :=
  match s with
  | Discovered => Some Loaded
  | Loaded => Some Initialized
  | Initialized => Some Running
  | Running => Some Stopped
  | Stopped => Some Unloaded
  | Unloaded => None
  end.

Definition can_transition_to (s target : LifecycleState) : bool :=
  bool_decide (next s = Some target).

Record LifecycleManager : Type := mkManager {
  plugins : gmap string LifecycleState;
  order : list string;
}.

Definition new_manager : LifecycleManager := mkManager ∅ [].

Definition set_state (mgr : LifecycleManager) (id : string) (s : LifecycleState)
    : LifecycleManager := mkManager (<[id := s]> (plugins mgr)) (order mgr).

Definition register (mgr : LifecycleManager) (id : string) : LifecycleManager :=
  match plugins mgr !! id with
  | Some _ => mgr
  | None => mkManager (<[id := Discovered]> (plugins mgr)) (order mgr ++ [id])
  end.

Definition state (mgr : LifecycleManager) (id : string) : option LifecycleState :=
  plugins mgr !! id.

Definition not_registered {A} (id : string) : result A PluginError :=
  Err (LifecycleError ("plugin '" +:+ id +:+ "' not registered")).

Definition transition (mgr : LifecycleManager) (id : string) (target : LifecycleState)
    : result (LifecycleState * LifecycleManager) PluginError :=
  match plugins mgr !! id with
  | None => not_registered id
  | Some s =>
      if negb (can_transition_to s target) then
        Err (LifecycleError ("invalid transition for plugin '" +:+ id +:+ "': "
               +:+ lifecycle_display s +:+ " -> " +:+ lifecycle_display target))
      else Ok (target, set_state mgr id target)
  end.

Definition force_unload (mgr : LifecycleManager) (id : string)
    : result LifecycleManager PluginError :=
  match plugins mgr !! id with
  | None => not_registered id
  | Some _ => Ok (set_state mgr id Unloaded)
  end.

(** The inner loop: drive a plugin through [targets]; the first failure
    force-unloads it and is reported. *)
Fixpoint drive (id : string) (targets : list LifecycleState) (mgr : LifecycleManager)
    : LifecycleManager * list (string * PluginError) :=
  match targets with
  | [] => (mgr, [])
  | target :: rest =>
      match transition mgr id target with
      | Ok (_, mgr') => drive id rest mgr'
      | Err e =>
          (match force_unload mgr id with Ok mgr' => mgr' | Err _ => mgr end, [(id, e)])
      end
  end.

(** The outer loop over ids, for plugins in state [from]. *)
Fixpoint drive_all (from : LifecycleState) (targets : list LifecycleState) (ids : list string)
    (mgr : LifecycleManager) : LifecycleManager * list (string * PluginError) :=
  match ids with
  | [] => (mgr, [])
  | id :: rest =>
      if bool_decide (state mgr id = Some from) then
        let '(mgr1, errs) := drive id targets mgr in
        let '(mgr2, errs') := drive_all from targets rest mgr1 in
        (mgr2, errs ++ errs')
      else drive_all from targets rest mgr
  end.

Definition start_all (mgr : LifecycleManager) : LifecycleManager * list (string * PluginError) :=
  drive_all Discovered [Loaded; Initialized; Running] (order mgr) mgr.

Definition stop_all (mgr : LifecycleManager) : LifecycleManager * list (string * PluginError) :=
  drive_all Running [Stopped; Unloaded] (reverse (order mgr)) mgr.

Definition all_states (mgr : LifecycleManager) : list (string * LifecycleState) :=
  omap (λ id, (λ s, (id, s)) <$> plugins mgr !! id) (order mgr).

(** ** The manager as a transition system *)

Inductive op : LifecycleManager → LifecycleManager → Prop :=
| op_register mgr id : op mgr (register mgr id)
| op_transition mgr id target s mgr' : transition mgr id target = Ok (s, mgr') → op mgr mgr'
| op_force mgr id mgr' : force_unload mgr id = Ok mgr' → op mgr mgr'
| op_start mgr : op mgr (start_all mgr).1
| op_stop mgr : op mgr (stop_all mgr).1.

(** The registration order lists exactly the plugins, once each. *)
Definition manager_wf (mgr : LifecycleManager) : Prop :=
  NoDup (order mgr) ∧ ∀ id, id ∈ order mgr ↔ is_Some (plugins mgr !! id).

Definition rank (s : LifecycleState) : nat :=
  match s with
  | Discovered => 0 | Loaded => 1 | Initialized => 2 | Running => 3 | Stopped => 4 | Unloaded => 5
  end.

(** ** Facts *)

(** The effect of driving every plugin of a list. *)
Definition moved (from to : LifecycleState) (ids : list string) (m m' : LifecycleManager) : Prop :=
  order m' = order m ∧
  ∀ id, plugins m' !! id =
    if decide (id ∈ ids ∧ plugins m !! id = Some from) then Some to else plugins m !! id.

Lemma moved_drive_all from to targets ids mgr :
  from ≠ to →
  (∀ m id, plugins m !! id = Some from → ∃ m', drive id targets m = (m', []) ∧
     order m' = order m ∧ plugins m' = <[id := to]> (plugins m)) →
  ∃ mgr', drive_all from targets ids mgr = (mgr', []) ∧ moved from to ids mgr mgr'.
Proof.
  intros Hne Hd. revert mgr. induction ids as [|id ids IH]; intros mgr; simpl.
  { exists mgr. split; [done|]. split; [done|]. intros k. rewrite decide_False; [done|].
    intros [H _]. by apply elem_of_nil in H. }
  unfold state. case_bool_decide as Hst.
  - destruct (Hd mgr id Hst) as (m1 & -> & Ho & Hp). destruct (IH m1) as (m2 & -> & Ho2 & Hp2).
    exists m2. split; [done|]. split; [congruence|]. intros k. rewrite Hp2, Hp.
    destruct (decide (k = id)) as [->|Hk].
    + rewrite lookup_insert_eq. rewrite decide_False by naive_solver.
      rewrite decide_True; [done|]. split; [left|done].
    + rewrite lookup_insert_ne by done. apply decide_ext. set_solver.
  - destruct (IH mgr) as (m2 & -> & Ho2 & Hp2). exists m2. split; [done|]. split; [done|].
    intros k. rewrite Hp2. apply decide_ext. rewrite elem_of_cons. naive_solver.
Qed.

Lemma drive_start m id :
  plugins m !! id = Some Discovered →
  ∃ m', drive id [Loaded; Initialized; Running] m = (m', []) ∧ order m' = order m ∧
    plugins m' = <[id := Running]> (plugins m).
Proof.
  intros Hs. simpl. unfold transition. rewrite Hs. simpl.
  rewrite lookup_insert_eq. simpl. rewrite lookup_insert_eq. simpl.
  eexists. split; [done|]. split; [done|]. simpl. by rewrite !insert_insert_eq.
Qed.

Lemma drive_stop m id :
  plugins m !! id = Some Running →
  ∃ m', drive id [Stopped; Unloaded] m = (m', []) ∧ order m' = order m ∧
    plugins m' = <[id := Unloaded]> (plugins m).
Proof.
  intros Hs. simpl. unfold transition. rewrite Hs. simpl. rewrite lookup_insert_eq. simpl.
  eexists. split; [done|]. split; [done|]. simpl. by rewrite !insert_insert_eq.
Qed.

Lemma start_all_spec mgr :
  manager_wf mgr →
  ∃ mgr', start_all mgr = (mgr', []) ∧ order mgr' = order mgr ∧
    ∀ id, plugins mgr' !! id =
      (λ s, if decide (s = Discovered) then Running else s) <$> plugins mgr !! id.
Proof.
  intros [_ Hord]. destruct (moved_drive_all Discovered Running
    [Loaded; Initialized; Running] (order mgr) mgr) as (m' & Hm' & Ho & Hp); [done|apply drive_start|].
  exists m'. split; [done|]. split; [done|]. intros id. rewrite Hp.
  destruct (plugins mgr !! id) as [s|] eqn:E; simpl.
  - destruct (decide (s = Discovered)) as [->|Hs].
    + rewrite decide_True; [done|]. split; [apply Hord; by eexists|done].
    + rewrite decide_False; [done|]. by intros [_ [=]].
  - rewrite decide_False; [done|]. by intros [_ [=]].
Qed.

Lemma stop_all_spec mgr :
  manager_wf mgr →
  ∃ mgr', stop_all mgr = (mgr', []) ∧ order mgr' = order mgr ∧
    ∀ id, plugins mgr' !! id =
      (λ s, if decide (s = Running) then Unloaded else s) <$> plugins mgr !! id.
Proof.
  intros [_ Hord]. destruct (moved_drive_all Running Unloaded
    [Stopped; Unloaded] (reverse (order mgr)) mgr) as (m' & Hm' & Ho & Hp); [done|apply drive_stop|].
  exists m'. split; [done|]. split; [done|]. intros id. rewrite Hp.
  destruct (plugins mgr !! id) as [s|] eqn:E; simpl.
  - destruct (decide (s = Running)) as [->|Hs].
    + rewrite decide_True; [done|]. split; [|done].
      rewrite elem_of_reverse. apply Hord. by eexists.
    + rewrite decide_False; [done|]. by intros [_ [=]].
  - rewrite decide_False; [done|]. by intros [_ [=]].
Qed.

(** What one operation does to one plugin's state. *)
Definition forward (o o' : option LifecycleState) : Prop :=
  match o, o' with
  | None, None => True
  | None, Some s => s = Discovered
  | Some s, Some s' => rank s ≤ rank s'
  | Some _, None => False
  end.

Lemma forward_refl o : forward o o.
Proof. destruct o; simpl; lia || done. Qed.

Lemma set_state_wf mgr id s :
  manager_wf mgr → is_Some (plugins mgr !! id) → manager_wf (set_state mgr id s).
Proof.
  intros [Hnd Hord] Hid. split; [done|]. intros k. simpl. rewrite Hord, lookup_insert_is_Some'.
  split; [auto|]. intros [->|]; done.
Qed.

Lemma set_state_forward mgr id s old k :
  plugins mgr !! id = Some old → rank old ≤ rank s →
  forward (plugins mgr !! k) (plugins (set_state mgr id s) !! k).
Proof.
  intros Hid Hr. simpl. destruct (decide (k = id)) as [->|Hk].
  - by rewrite lookup_insert_eq, Hid.
  - rewrite lookup_insert_ne by done. apply forward_refl.
Qed.

Lemma next_rank s t : next s = Some t → rank t = S (rank s).
Proof. by destruct s; intros [= <-]. Qed.

Lemma op_step mgr mgr' :
  op mgr mgr' → manager_wf mgr →
  manager_wf mgr' ∧ ∀ id, forward (plugins mgr !! id) (plugins mgr' !! id).
Proof.
  intros Hop Hwf. destruct Hop as [mgr id|mgr id t s mgr' Ht|mgr id mgr' Hf|mgr|mgr].
  - unfold register. destruct (plugins mgr !! id) as [s|] eqn:E; [by auto using forward_refl|].
    destruct Hwf as [Hnd Hord]. split.
    + split; simpl.
      * apply NoDup_app. split; [done|]. split; [|apply NoDup_singleton].
        intros x Hx Hin. apply list_elem_of_singleton in Hin as ->. apply Hord in Hx as [? ?]. congruence.
      * intros k. rewrite elem_of_app, Hord, list_elem_of_singleton, lookup_insert_is_Some'. naive_solver.
    + intros k. simpl. destruct (decide (k = id)) as [->|Hk].
      * by rewrite lookup_insert_eq, E.
      * rewrite lookup_insert_ne by done. apply forward_refl.
  - unfold transition in Ht. destruct (plugins mgr !! id) as [old|] eqn:E; [|done].
    unfold can_transition_to in Ht. case_bool_decide as Hn; simplify_eq/=.
    split; [apply set_state_wf; [done|by eexists]|]. intros k.
    eapply set_state_forward; [done|]. apply next_rank in Hn. lia.
  - unfold force_unload in Hf. destruct (plugins mgr !! id) as [old|] eqn:E; simplify_eq/=.
    split; [apply set_state_wf; [done|by eexists]|]. intros k.
    eapply set_state_forward; [done|]. destruct old; simpl; lia.
  - destruct (start_all_spec mgr Hwf) as (m' & -> & Ho & Hp). destruct Hwf as [Hnd Hord]. split.
    + split; [by rewrite <- Ho in Hnd|]. intros k. simpl. by rewrite Ho, Hord, Hp, fmap_is_Some.
    + intros k. simpl. rewrite Hp. destruct (plugins mgr !! k) as [s|]; [|done]. simpl.
      case_decide; subst; simpl; lia.
  - destruct (stop_all_spec mgr Hwf) as (m' & -> & Ho & Hp). destruct Hwf as [Hnd Hord]. split.
    + split; [by rewrite <- Ho in Hnd|]. intros k. simpl. by rewrite Ho, Hord, Hp, fmap_is_Some.
    + intros k. simpl. rewrite Hp. destruct (plugins mgr !! k) as [s|]; [|done]. simpl.
      case_decide; subst; simpl; lia.
Qed.

Lemma reachable_wf mgr : rtc op new_manager mgr → manager_wf mgr.
Proof.
  intros Hr. eapply (rtc_ind_r manager_wf); [| |exact Hr].
  - split; [apply NoDup_nil_2|]. intros id. simpl. rewrite lookup_empty. split; [inversion 1|by intros []].
  - intros m m' _ Hop Hwf. by destruct (op_step m m' Hop Hwf).
Qed.

(** Whatever operations the manager runs, the registration order lists every
    plugin exactly once, a plugin enters in [Discovered], and from then on its
    state only moves forward; an unloaded plugin stays unloaded. *)
Theorem lifecycle_forward mgr mgr' :
  rtc op new_manager mgr → op mgr mgr' →
  manager_wf mgr' ∧
  ∀ id, match state mgr id, state mgr' id with
        | None, None => True
        | None, Some s => s = Discovered
        | Some s, Some s' => rank s ≤ rank s' ∧ (s = Unloaded → s' = Unloaded)
        | Some _, None => False
        end.
Proof.
  intros Hr Hop. destruct (op_step mgr mgr' Hop (reachable_wf mgr Hr)) as [Hwf Hf].
  split; [done|]. intros id. specialize (Hf id). unfold forward, state in *.
  destruct (plugins mgr !! id) as [s|], (plugins mgr' !! id) as [s'|]; try done.
  split; [done|]. intros ->. destruct s'; simpl in Hf; lia || done.
Qed.

(** C39. In every reachable state, starting brings every discovered plugin to
    [Running] and stopping brings every running plugin to [Unloaded]; the other
    plugins keep their state and no error is reported. *)
Theorem start_stop_all mgr :
  rtc op new_manager mgr →
  (start_all mgr).2 = [] ∧ (stop_all mgr).2 = [] ∧
  ∀ id, state (start_all mgr).1 id =
          (λ s, if decide (s = Discovered) then Running else s) <$> state mgr id ∧
        state (stop_all mgr).1 id =
          (λ s, if decide (s = Running) then Unloaded else s) <$> state mgr id.
Proof.
  intros Hr. apply reachable_wf in Hr.
  destruct (start_all_spec mgr Hr) as (m1 & -> & _ & Hp1).
  destruct (stop_all_spec mgr Hr) as (m2 & -> & _ & Hp2).
  split; [done|]. split; [done|]. intros id. split; [apply Hp1|apply Hp2].
Qed.

Definition two_plugins : LifecycleManager := register (register new_manager "a") "b".

Lemma two_plugins_reachable : rtc op new_manager two_plugins.
Proof. eapply rtc_l; [apply (op_register _ "a")|]. apply rtc_once, op_register. Qed.

Lemma lifecycle_forward_witness :
  manager_wf (start_all two_plugins).1 ∧
  ∀ id, match state two_plugins id, state (start_all two_plugins).1 id with
        | None, None => True
        | None, Some s => s = Discovered
        | Some s, Some s' => rank s ≤ rank s' ∧ (s = Unloaded → s' = Unloaded)
        | Some _, None => False
        end.
Proof. apply lifecycle_forward; [apply two_plugins_reachable|apply op_start]. Defined.

Lemma start_stop_all_witness : (start_all two_plugins).2 = [].
Proof. apply (start_stop_all two_plugins). apply two_plugins_reachable. Defined.
