(* ===== verification/EventBus.v ===== *)
(** * Events and schedules

    packages/workflow-engine/src/event_bus.rs (the event bus),
    packages/plugin-system/src/host_functions/events.rs (how plugins emit) and
    packages/workflow-engine/src/scheduler.rs (cron ticks and overlap prevention).
    Fresh ids and clock readings are arguments; the bus's spawned tasks are given
    as the workflows they run with the messages they build. *)

From stdpp Require Import base tactics list strings gmap.
From Stdlib Require Import ZArith Lia.
From S2P Require Import Prelude RustString Json Types Executor ExecutorFacts Loader LoaderFacts Jobs JobsFacts Capability.

(** ** The event bus *)

Definition DEFAULT_MAX_DEPTH : Z := 8.

Record Event : Type := mkEvent {
  ev_name : string;
  ev_payload : option json;
  ev_source : string;
  ev_timestamp : timestamp;
  ev_depth : Z;
}.

Section Bus.
Context `{JsonLib} {Schedule : Type} (registry : TriggerRegistry Schedule) (max_depth : Z).
(** The id and clock each spawned task draws. *)
Context (fresh : nat → uuid) (now : nat → timestamp).

(** What the task of one matching workflow builds. *)
Definition event_task (ev : Event) (i : nat) (w : WorkflowDef)
    : WorkflowDef * result PipelineMessage WorkflowError :=
  (w, build_initial_message (fresh i) (now i)
        (EventTrigger (ev_name ev) (default JNull (ev_payload ev)))).

(** [EventBus::emit]: the events broadcast and the tasks spawned. *)
Definition emit_event (ev : Event)
    : list Event * list (WorkflowDef * result PipelineMessage WorkflowError) :=
  if (max_depth <? ev_depth ev)%Z then ([], [])
  else ([ev], imap (event_task ev) (find_event registry (ev_name ev))).

(** The runs that start: a task whose message cannot be built logs and returns. *)
Definition launched (ev : Event) : list (WorkflowDef * PipelineMessage) :=
  omap (λ t, (λ m, (t.1, m)) <$> result_ok t.2) (emit_event ev).2.

Definition system_event (at_ : timestamp) (name : string) (p : option json) : Event :=
  mkEvent name p "system" at_ 0.

Definition emit_system_event (at_ : timestamp) (name : string) (p : option json) :=
  emit_event (system_event at_ name p).

Definition startup_event (at_ : timestamp) : Event := system_event at_ "system.startup" None.
Definition plugin_loaded_event (at_ : timestamp) (plugin_id : string) : Event :=
  system_event at_ "system.plugin.loaded" (Some (mk_obj [("plugin_id", JStr plugin_id)])).
Definition plugin_failed_event (at_ : timestamp) (plugin_id error : string) : Event :=
  system_event at_ "system.plugin.failed"
    (Some (mk_obj [("plugin_id", JStr plugin_id); ("error", JStr error)])).
Definition workflow_completed_event (at_ : timestamp) (job_id status : string) : Event :=
  system_event at_ "system.workflow.completed"
    (Some (mk_obj [("job_id", JStr job_id); ("status", JStr status)])).
Definition workflow_failed_event (at_ : timestamp) (job_id error : string) : Event :=
  system_event at_ "system.workflow.failed"
    (Some (mk_obj [("job_id", JStr job_id); ("error", JStr error)])).

(** [impl WorkflowEventEmitter for EventBus]: every event it makes has depth 0. *)
Definition emitter_event (at_ : timestamp) (name : string) (payload : json) : Event :=
  mkEvent name (Some payload) "system" at_ 0.
End Bus.

(** ** Emitting from a plugin *)

Record EventsHostContext : Type := mkEventsHost {
  eh_plugin_id : string;
  eh_capabilities : gset Capability;
  eh_declared_emit_events : option (list string);
  eh_execution_depth : Z;
}.

(** The emitter call a host function makes, if any; [request] is the deserialised
    input. *)
Definition host_events_emit (ctx : EventsHostContext)
    (request : result (string * json) string) : result (string * json) PluginError :=
  if negb (has (eh_capabilities ctx) EventsEmit) then
    Err (RuntimeCapabilityViolation
           ("plugin '" +:+ eh_plugin_id ctx +:+ "' lacks capability 'events:emit'"))
  else
    let? '(event_name, payload) := result_map_err
      (λ e, ExecutionFailed ("failed to deserialize emit request from plugin '"
              +:+ eh_plugin_id ctx +:+ "': " +:+ e)) request in
    if match eh_declared_emit_events ctx with
       | Some declared => negb (contains declared event_name)
       | None => false
       end
    then Err (RuntimeCapabilityViolation
                ("plugin '" +:+ eh_plugin_id ctx +:+ "' attempted to emit undeclared event '"
                 +:+ event_name +:+ "'"))
    else Ok (event_name,
             mk_obj [("source", JStr (eh_plugin_id ctx));
                     ("depth", JNum (NInt (eh_execution_depth ctx)));
                     ("payload", payload)]).

Definition host_events_subscribe (ctx : EventsHostContext) (request : result string string)
    : result (string * json) PluginError :=
  if negb (has (eh_capabilities ctx) EventsSubscribe) then
    Err (RuntimeCapabilityViolation
           ("plugin '" +:+ eh_plugin_id ctx +:+ "' lacks capability 'events:subscribe'"))
  else
    let? event_name := result_map_err
      (λ e, ExecutionFailed ("failed to deserialize subscribe request from plugin '"
              +:+ eh_plugin_id ctx +:+ "': " +:+ e)) request in
    Ok ("plugin.subscription.registered",
        mk_obj [("plugin_id", JStr (eh_plugin_id ctx)); ("event_name", JStr event_name)]).

(** ** The scheduler *)

Abbreviation ScheduleJobTracker := (gset string) (only parsing).

Definition try_start (t : ScheduleJobTracker) (workflow_id : string) : bool * ScheduleJobTracker :=
  (bool_decide (workflow_id ∉ t), {[workflow_id]} ∪ t).

Definition finish (t : ScheduleJobTracker) (workflow_id : string) : ScheduleJobTracker :=
  t ∖ {[workflow_id]}.

Definition is_in_progress (t : ScheduleJobTracker) (workflow_id : string) : bool :=
  bool_decide (workflow_id ∈ t).

Record TickState : Type := mkTick {
  tick_executor : Executor;
  tick_tracker : gset string;
  tick_failures : list (string * string);
}.

(** The body of [run_schedule_loop] after its sleep. [sync_result] is what a
    synchronous run of the workflow returns; an asynchronous one returns at once
    with the acceptance message. *)
Definition schedule_tick `{JsonLib} (st : TickState) (w : WorkflowDef) (fresh job : uuid)
    (fired_at : timestamp) (sync_result : PipelineMessage → result PipelineMessage WorkflowError)
    : TickState :=
  let '(ok, tracker) := try_start (tick_tracker st) (wf_id w) in
  if negb ok then mkTick (tick_executor st) tracker (tick_failures st)
  else
    let fail e := tick_failures st ++ [(wf_id w, workflow_error_display e)] in
    match build_initial_message fresh fired_at (ScheduleTrigger (wf_id w) fired_at) with
    | Err e => mkTick (tick_executor st) (finish tracker (wf_id w)) (fail e)
    | Ok msg =>
        let '(σ, r) :=
          match wf_mode w with
          | Sync => (tick_executor st, sync_result msg)
          | Async => (execute_workflow (tick_executor st) job fired_at w msg,
                      async_response job fired_at w msg)
          end in
        mkTick σ (finish tracker (wf_id w))
          match r with Ok _ => tick_failures st | Err e => fail e end
    end.

(** ** Facts *)

Lemma build_event_message `{JsonLibLaws} fresh now name p :
  build_initial_message fresh now (EventTrigger name p) =
  if is_object p
  then Ok (mkMessage (mkMetadata fresh ("event:" +:+ name) now None []) (Custom p))
  else match schema_validated_new p object_schema with
       | Err e => Err (PluginExecutionError "workflow-engine" e)
       | Ok v => Ok (mkMessage (mkMetadata fresh ("event:" +:+ name) now None []) (Custom v))
       end.
Proof.
  unfold build_initial_message. simpl. destruct (is_object p) eqn:E.
  - by rewrite (proj2 (schema_validated_new_object p p) (conj eq_refl E)).
  - by destruct (schema_validated_new p object_schema).
Qed.

Lemma event_message_iff `{JsonLibLaws} fresh now name p m :
  result_ok (build_initial_message fresh now (EventTrigger name p)) = Some m ↔
  is_object p = true ∧
  m = mkMessage (mkMetadata fresh ("event:" +:+ name) now None []) (Custom p).
Proof.
  rewrite build_event_message. destruct (is_object p) eqn:E; [naive_solver|].
  destruct (schema_validated_new p object_schema) as [v|] eqn:Ev; simpl; [|naive_solver].
  apply schema_validated_new_object in Ev as [_ ?]. congruence.
Qed.

Lemma launched_workflows `{JsonLibLaws} {Schedule} (reg : TriggerRegistry Schedule) max_depth
    fresh now ev p :
  ev_payload ev = Some p → is_object p = true → (ev_depth ev ≤ max_depth)%Z →
  launched reg max_depth fresh now ev =
  imap (λ i w, (w, mkMessage (mkMetadata (fresh i) ("event:" +:+ ev_name ev) (now i) None [])
                     (Custom p))) (find_event reg (ev_name ev)).
Proof.
  intros Hp Ho Hd. unfold launched, emit_event.
  rewrite (proj2 (Z.ltb_ge _ _)) by lia. simpl. unfold event_task. rewrite Hp. simpl.
  revert fresh now. induction (find_event reg (ev_name ev)) as [|w ws IH]; intros fresh now; [done|].
  simpl. rewrite build_event_message, Ho. simpl. f_equal.
  apply (IH (λ i, fresh (S i)) (λ i, now (S i))).
Qed.

(** An event within the depth limit whose payload is a JSON object starts
    exactly the workflows that declare it, in loading order, each with its own
    message carrying the payload and the event's name as source; an event beyond
    the limit starts nothing and is not broadcast. *)
Theorem event_starts_declaring_workflows `{JsonLibLaws} {Schedule}
    (parse_cron : string → result Schedule string) ws reg max_depth fresh now ev p :
  build parse_cron ws = Ok reg → ev_payload ev = Some p → is_object p = true →
  (emit_event reg max_depth fresh now ev).1 =
    (if bool_decide (ev_depth ev ≤ max_depth)%Z then [ev] else []) ∧
  (launched reg max_depth fresh now ev).*1 =
    (if bool_decide (ev_depth ev ≤ max_depth)%Z
     then filter (λ w, trigger_event (wf_trigger w) = Some (ev_name ev)) ws else []) ∧
  Forall (λ m, payload m = Custom p ∧ source (metadata m) = "event:" +:+ ev_name ev)
    (launched reg max_depth fresh now ev).*2.
Proof.
  intros Hb Hp Ho. apply build_Ok in Hb as (_ & _ & Hv). case_bool_decide as Hd.
  - split; [unfold emit_event; by rewrite (proj2 (Z.ltb_ge _ _)) by lia|].
    rewrite (launched_workflows _ _ _ _ _ p) by done. rewrite <- Hv.
    revert fresh now. induction (find_event reg (ev_name ev)) as [|w l IH]; intros fresh now; [done|].
    simpl. destruct (IH (λ i, fresh (S i)) (λ i, now (S i))) as [IH1 IH2].
    split; [f_equal; exact IH1|]. constructor; [done|exact IH2].
  - unfold launched, emit_event. by rewrite (proj2 (Z.ltb_lt _ _)) by lia.
Qed.

(** [emit_startup] sends no payload, and a message cannot be built from a
    null payload: whatever workflows declare [system.startup], none is started. *)
Theorem startup_starts_nothing `{JsonLibLaws} {Schedule} (reg : TriggerRegistry Schedule)
    max_depth fresh now at_ :
  launched reg max_depth fresh now (startup_event at_) = [].
Proof.
  unfold launched, emit_event. case_match; [done|]. simpl.
  revert fresh now. induction (find_event reg "system.startup") as [|w l IH]; intros fresh now; [done|].
  simpl. destruct (result_ok _) eqn:E.
  - by apply event_message_iff in E as [? _].
  - apply (IH (λ i, fresh (S i)) (λ i, now (S i))).
Qed.

(** Loop prevention does not see events emitted by plugins: whatever the depth
    of the emitting execution, the bus receives the event at depth 0 and accepts
    it. *)
Theorem plugin_events_never_dropped `{JsonLib} {Schedule} (reg : TriggerRegistry Schedule)
    max_depth fresh now at_ ctx request name payload :
  (0 ≤ max_depth)%Z → host_events_emit ctx request = Ok (name, payload) →
  (emit_event reg max_depth fresh now (emitter_event at_ name payload)).1 =
    [emitter_event at_ name payload] ∧
  ev_depth (emitter_event at_ name payload) = 0%Z ∧
  json_get payload "depth" = Some (JNum (NInt (eh_execution_depth ctx))).
Proof.
  intros Hm Hh. split; [unfold emit_event; simpl; by rewrite (proj2 (Z.ltb_ge _ _)) by lia|].
  split; [done|]. unfold host_events_emit in Hh.
  destruct (negb _); [done|]. destruct request as [[n p]|]; simpl in Hh; [|done].
  case_match; [done|]. by simplify_eq.
Qed.

(** A scheduled tick never leaks the overlap guard: whatever the run returns,
    the workflow is free again afterwards, and a tick that finds the workflow in
    progress starts nothing. *)
Theorem tick_releases_guard `{JsonLib} st w fresh job at_ sync_result :
  let st' := schedule_tick st w fresh job at_ sync_result in
  (is_in_progress (tick_tracker st) (wf_id w) = false → tick_tracker st' = tick_tracker st) ∧
  (is_in_progress (tick_tracker st) (wf_id w) = true → st' = st).
Proof.
  unfold schedule_tick, is_in_progress, try_start, finish. split; intros Hin; bool_to_prop.
  - rewrite bool_decide_eq_true_2 by done. simpl.
    assert (({[wf_id w]} ∪ tick_tracker st) ∖ {[wf_id w]} = tick_tracker st) as E by set_solver.
    destruct (build_initial_message _ _ _); simpl; [|done]. by destruct (wf_mode w).
  - rewrite bool_decide_eq_false_2 by tauto. simpl. destruct st; simpl in *. f_equal. set_solver.
Qed.

(** ** Concrete events and ticks *)

#[local] Existing Instance type_keyword_lib.
#[local] Existing Instance type_keyword_laws.

Definition on_event (id event : string) : WorkflowDef :=
  mkWorkflow id id None Sync NoValidation (mkTrigger None (Some event) None)
    [mkStep "p" "a" None None].
Definition listeners : list WorkflowDef := [on_event "w1" "a.b"; on_event "w2" "c.d"; on_event "w3" "a.b"].

Lemma event_starts_declaring_workflows_witness :
  let ev := mkEvent "a.b" (Some demo_object) "system" 0 8 in
  (emit_event (registry_of listeners) DEFAULT_MAX_DEPTH (λ _, "c") (λ _, 0%Z) ev).1 = [ev] ∧
  (launched (registry_of listeners) DEFAULT_MAX_DEPTH (λ _, "c") (λ _, 0%Z) ev).*1 =
    [on_event "w1" "a.b"; on_event "w3" "a.b"] ∧
  Forall (λ m, payload m = Custom demo_object ∧ source (metadata m) = "event:a.b")
    (launched (registry_of listeners) DEFAULT_MAX_DEPTH (λ _, "c") (λ _, 0%Z) ev).*2.
Proof.
  apply (event_starts_declaring_workflows no_cron listeners (registry_of listeners)
    DEFAULT_MAX_DEPTH (λ _, "c") (λ _, 0%Z) (mkEvent "a.b" (Some demo_object) "system" 0 8)
    demo_object); reflexivity.
Defined.

Lemma plugin_events_never_dropped_witness :
  let ctx := mkEventsHost "p" {[EventsEmit]} (Some ["p.x.done"]) 1000 in
  let payload := mk_obj [("source", JStr "p"); ("depth", JNum (NInt 1000)); ("payload", JNull)] in
  (emit_event (registry_of listeners) DEFAULT_MAX_DEPTH (λ _, "c") (λ _, 0%Z)
     (emitter_event 0 "p.x.done" payload)).1 = [emitter_event 0 "p.x.done" payload] ∧
  ev_depth (emitter_event 0 "p.x.done" payload) = 0%Z ∧
  json_get payload "depth" = Some (JNum (NInt 1000)).
Proof.
  apply (plugin_events_never_dropped (registry_of listeners) DEFAULT_MAX_DEPTH (λ _, "c")
    (λ _, 0%Z) 0 (mkEventsHost "p" {[EventsEmit]} (Some ["p.x.done"]) 1000)
    (Ok ("p.x.done", JNull))); [unfold DEFAULT_MAX_DEPTH; lia|reflexivity].
Defined.

(** Overlap prevention does not cover asynchronous workflows: the guard is
    released as soon as the run is accepted, so a second tick starts a second run
    while the first job is still in progress. *)
Theorem async_ticks_overlap sync_result :
  let st0 := mkTick (with_concurrency_limit 4) ∅ [] in
  let st1 := schedule_tick st0 async_workflow "c1" "j1" 0 sync_result in
  let st2 := schedule_tick st1 async_workflow "c2" "j2" 60 sync_result in
  is_in_progress (tick_tracker st1) (wf_id async_workflow) = false ∧
  job_status (tick_executor st2) "j1" = Some InProgress ∧
  job_status (tick_executor st2) "j2" = Some InProgress ∧
  (alive (tick_executor st2)).*1 = ["j1"; "j2"].
Proof. vm_compute. done. Qed.
