(* ===== verification/Crypto.v ===== *)
(** * Encryption of records

    packages/crypto/src/encryption.rs (authenticated encryption framed as nonce
    followed by ciphertext), domain.rs (keys by domain) and credential.rs (the
    claims of a credential record). The primitives (AES-256-GCM, HKDF, base64,
    serde_json) are third-party code: an interface with the laws the framing
    relies on. Nonces, drawn at random by the source, are arguments. *)

From Stdlib Require Import Strings.Byte Strings.String ZArith Lia.
From stdpp Require Import base tactics list strings.
From S2P Require Import Prelude RustString Json Types.

Abbreviation bytes := (list Byte.byte) (only parsing).

Inductive CryptoError : Type :=
| EncryptionFailed (msg : string)
| DecryptionFailed (msg : string)
| KeyDerivationFailed (msg : string)
| HmacVerificationFailed
| InvalidKeyLength.

Definition crypto_error_display (e : CryptoError) : string :=
  match e with
  | EncryptionFailed m => "encryption failed: " +:+ m
  | DecryptionFailed m => "decryption failed: " +:+ m
  | KeyDerivationFailed m => "key derivation failed: " +:+ m
  | HmacVerificationFailed => "HMAC verification failed"
  | InvalidKeyLength => "invalid key length: expected 32 bytes"
  end.

(** The primitives. *)
Class CryptoLib : Type := {
  (** key, nonce, plaintext *)
  gcm_encrypt : bytes → bytes → bytes → result bytes string;
  gcm_decrypt : bytes → bytes → bytes → result bytes string;
  (** salt, input key material, info; 32 bytes of output *)
  hkdf_sha256 : option bytes → bytes → bytes → bytes;
  base64_encode : bytes → string;
  base64_decode : string → result bytes string;
  json_to_vec : json → result bytes string;
  json_from_slice : bytes → result json string;
}.

Class CryptoLaws `{CryptoLib} : Prop := {
  gcm_correct k n p c : gcm_encrypt k n p = Ok c → gcm_decrypt k n c = Ok p;
  base64_correct b : base64_decode (base64_encode b) = Ok b;
}.

Definition NONCE_SIZE : nat := 12.

Section Crypto.
Context `{CryptoLib}.

Definition encrypt (nonce key plaintext : bytes) : result bytes CryptoError :=
  let? ciphertext := result_map_err EncryptionFailed (gcm_encrypt key nonce plaintext) in
  Ok (nonce ++ ciphertext).

Definition decrypt (key ciphertext : bytes) : result bytes CryptoError :=
  if (length ciphertext <? NONCE_SIZE)%nat then
    Err (DecryptionFailed "ciphertext too short to contain nonce")
  else
    let nonce := take NONCE_SIZE ciphertext in
    let encrypted := drop NONCE_SIZE ciphertext in
    result_map_err DecryptionFailed (gcm_decrypt key nonce encrypted).

Definition bytes_of (s : string) : bytes := String.list_byte_of_string s.

Definition derive_domain_key (secret domain : string) : bytes :=
  hkdf_sha256 None (bytes_of secret) (bytes_of domain).

Definition domain_encrypt (nonce data key : bytes) : result bytes CryptoError :=
  if bool_decide (length key = 32) then encrypt nonce key data else Err InvalidKeyLength.

Definition domain_decrypt (data key : bytes) : result bytes CryptoError :=
  if bool_decide (length key = 32) then decrypt key data else Err InvalidKeyLength.

Definition CREDENTIAL_HKDF_INFO : string := "life-engine-credential-encryption-v1".

Definition derive_credential_key (master_key : bytes) (credential_id : string) : bytes :=
  hkdf_sha256 (Some (bytes_of credential_id)) master_key (bytes_of CREDENTIAL_HKDF_INFO).

Definition encrypt_claims (nonce master_key : bytes) (credential_id : string) (claims : json)
    : result string CryptoError :=
  let key := derive_credential_key master_key credential_id in
  let? plaintext := result_map_err
    (λ e, EncryptionFailed ("failed to serialize claims: " +:+ e)) (json_to_vec claims) in
  let? ciphertext := encrypt nonce key plaintext in
  Ok (base64_encode ciphertext).

Definition decrypt_claims (master_key : bytes) (credential_id encoded : string)
    : result json CryptoError :=
  let key := derive_credential_key master_key credential_id in
  let? ciphertext := result_map_err
    (λ e, DecryptionFailed ("invalid base64: " +:+ e)) (base64_decode encoded) in
  let? plaintext := decrypt key ciphertext in
  result_map_err (λ e, DecryptionFailed ("failed to deserialize claims: " +:+ e))
    (json_from_slice plaintext).

(** ** Facts *)

Context `{!CryptoLaws}.

Lemma decrypt_encrypt nonce key p c :
  length nonce = NONCE_SIZE → encrypt nonce key p = Ok c → decrypt key c = Ok p.
Proof.
  intros Hn. unfold encrypt, decrypt. intros He.
  destruct (gcm_encrypt key nonce p) as [ct|] eqn:E; simpl in He; [|done]. injection He as <-.
  rewrite (proj2 (Nat.ltb_ge _ _)) by (rewrite length_app; lia).
  rewrite take_app_length', drop_app_length' by done.
  by rewrite (gcm_correct _ _ _ _ E).
Qed.

(** Claims decrypt to what was encrypted, for values that survive serialisation. *)
Lemma decrypt_encrypt_claims nonce mk id claims text :
  length nonce = NONCE_SIZE →
  (∀ b, json_to_vec claims = Ok b → json_from_slice b = Ok claims) →
  encrypt_claims nonce mk id claims = Ok text → decrypt_claims mk id text = Ok claims.
Proof.
  intros Hn Hser. unfold encrypt_claims, decrypt_claims. intros He.
  destruct (json_to_vec claims) as [p|] eqn:Ep; simpl in He; [|done].
  destruct (encrypt nonce _ p) as [c|] eqn:Ec; simpl in He; [|done]. injection He as <-.
  rewrite base64_correct. simpl. rewrite (decrypt_encrypt _ _ _ _ Hn Ec). simpl.
  by rewrite (Hser p eq_refl).
Qed.
End Crypto.

(** ** A transparent instance for witnesses

    A cipher that appends a tag depending on the key, text as bytes, and a
    serialiser for string values. *)
Definition toy_tag (k : bytes) : Byte.byte := default "000"%byte (head k).

#[export] Instance toy_crypto : CryptoLib := {|
  gcm_encrypt k n p := Ok (toy_tag k :: p);
  gcm_decrypt k n c :=
    match c with
    | t :: p => if Byte.eqb t (toy_tag k) then Ok p else Err "tag mismatch"
    | [] => Err "too short"
    end;
  hkdf_sha256 salt ikm info := default [] salt ++ ikm;
  base64_encode b := String.string_of_list_byte b;
  base64_decode s := Ok (String.list_byte_of_string s);
  json_to_vec v := match v with JStr s => Ok (String.list_byte_of_string s) | _ => Err "unsupported" end;
  json_from_slice b := Ok (JStr (String.string_of_list_byte b));
|}.

#[export] Instance toy_crypto_laws : CryptoLaws.
Proof.
  split.
  - intros k n p c [= <-]. simpl. by rewrite (Byte.byte_dec_lb eq_refl).
  - intros b. simpl. by rewrite String.list_byte_of_string_of_list_byte.
Qed.
