(* ===== verification/Schema.v ===== *)
(** * The schema registry

    packages/traits/src/schema.rs: registering collections and validating a
    document before it is written. The JSON Schema engine and the JSON parser are
    third-party code, an interface here; a compiled validator is represented by
    its schema. The embedded CDM schema files, fresh ids and the clock are
    arguments. *)

From stdpp Require Import base tactics list strings gmap.
From Stdlib Require Import ZArith.
From S2P Require Import Prelude RustString Json Types.

Inductive SchemaError : Type :=
| InvalidSchema (collection message : string)
| SchemaValidationFailed (collection message : string)
| ImmutableField (field : string)
| NamespaceViolation (plugin_id namespace : string).

#[export] Instance schema_error_eq_dec : EqDecision SchemaError.
Proof. solve_decision. Defined.

Definition schema_error_display (e : SchemaError) : string :=
  match e with
  | InvalidSchema c m => "invalid schema for collection '" +:+ c +:+ "': " +:+ m
  | SchemaValidationFailed c m => "validation failed for collection '" +:+ c +:+ "': " +:+ m
  | ImmutableField f => "immutable field '" +:+ f +:+ "' cannot be changed on update"
  | NamespaceViolation p n =>
      "namespace violation: plugin '" +:+ p +:+ "' cannot write to ext." +:+ n
  end.

Definition schema_error_code (e : SchemaError) : string :=
  match e with
  | InvalidSchema _ _ => "SCHEMA_001"
  | SchemaValidationFailed _ _ => "SCHEMA_002"
  | ImmutableField _ => "SCHEMA_003"
  | NamespaceViolation _ _ => "SCHEMA_004"
  end.

(** The third-party parts. *)
Class SchemaLib : Type := {
  (** [serde_json::from_str] *)
  parse_json : string → result json string;
  (** [jsonschema::draft202012::new]: the compile error, if any *)
  draft_error : json → option string;
  (** [Validator::iter_errors] *)
  iter_errors : json → json → list string;
}.

Record CollectionSchema : Type := mkCollectionSchema {
  cs_validator : option json;
  cs_extension_validator : option json;
  cs_strict : bool;
  cs_index_hints : list string;
}.

Record SchemaRegistry : Type := mkSchemaRegistry {
  cdm_validators : gmap string json;
  cdm_values : gmap string json;
  sr_collections : gmap (string * string) CollectionSchema;
  schema_values : gmap (string * string) json;
}.

Definition new_registry : SchemaRegistry := mkSchemaRegistry ∅ ∅ ∅ ∅.

Definition CANONICAL_COLLECTIONS : list string :=
  ["events"; "tasks"; "contacts"; "notes"; "emails"; "files"; "credentials"].

Definition is_canonical (collection : string) : bool := contains CANONICAL_COLLECTIONS collection.

Definition get_collection (reg : SchemaRegistry) (plugin_id collection : string)
    : option CollectionSchema := sr_collections reg !! (plugin_id, collection).

Section Registry.
Context `{SchemaLib}.

(** Compile a schema, with the given error prefix. *)
Definition compile (collection prefix : string) (value : json) : result json SchemaError :=
  match draft_error value with
  | Some e => Err (InvalidSchema collection (prefix +:+ ": " +:+ e))
  | None => Ok value
  end.

Definition parse_schema (collection prefix text : string) : result json SchemaError :=
  result_map_err (λ e, InvalidSchema collection (prefix +:+ ": " +:+ e)) (parse_json text).

(** [load_cdm_schemas]; [sources] is [CDM_SCHEMAS]. The schemas before a failing one
    stay loaded. *)
Fixpoint load_cdm_schemas (sources : list (string * string)) (reg : SchemaRegistry)
    : SchemaRegistry * result unit SchemaError :=
  match sources with
  | [] => (reg, Ok tt)
  | (name, raw) :: rest =>
      match (let? value := parse_schema name "invalid JSON" raw in
             let? v := compile name "failed to compile" value in Ok (v, value)) with
      | Err e => (reg, Err e)
      | Ok (v, value) =>
          load_cdm_schemas rest
            (mkSchemaRegistry (<[name := v]> (cdm_validators reg))
               (<[name := value]> (cdm_values reg)) (sr_collections reg) (schema_values reg))
      end
  end.

(** The body schema of a registration: absent, a CDM reference or a text, whose
    value is kept for strict mode. *)
Definition resolve_schema (reg : SchemaRegistry) (plugin_id collection : string)
    (schema_ref : option string) : SchemaRegistry * result (option json) SchemaError :=
  match schema_ref with
  | None => (reg, Ok None)
  | Some s =>
      match strip_prefix "cdm:" s with
      | Some cdm_name =>
          (reg,
           let? value := ok_or (cdm_values reg !! cdm_name)
             (InvalidSchema collection ("unknown CDM schema '" +:+ cdm_name +:+ "'")) in
           let? v := compile collection "failed to compile CDM schema" value in
           Ok (Some v))
      | None =>
          match (let? value := parse_schema collection "invalid schema JSON" s in
                 let? v := compile collection "failed to compile schema" value in
                 Ok (v, value)) with
          | Err e => (reg, Err e)
          | Ok (v, value) =>
              (mkSchemaRegistry (cdm_validators reg) (cdm_values reg) (sr_collections reg)
                 (<[(plugin_id, collection) := value]> (schema_values reg)), Ok (Some v))
          end
      end
  end.

Definition resolve_extension (collection : string) (extension_schema_json : option string)
    : result (option json) SchemaError :=
  match extension_schema_json with
  | None => Ok None
  | Some s =>
      let? value := parse_schema collection "invalid extension schema JSON" s in
      let? v := compile collection "failed to compile extension schema" value in
      Ok (Some v)
  end.

Definition register_plugin_collection (reg : SchemaRegistry) (plugin_id collection : string)
    (schema_ref extension_schema_json : option string) (strict : bool) (hints : list string)
    : SchemaRegistry * result unit SchemaError :=
  let '(reg1, rv) := resolve_schema reg plugin_id collection schema_ref in
  match (let? validator := rv in
         let? extension_validator := resolve_extension collection extension_schema_json in
         Ok (validator, extension_validator)) with
  | Err e => (reg1, Err e)
  | Ok (validator, extension_validator) =>
      (mkSchemaRegistry (cdm_validators reg1) (cdm_values reg1)
         (<[(plugin_id, collection) :=
              mkCollectionSchema validator extension_validator strict hints]>
            (sr_collections reg1)) (schema_values reg1), Ok tt)
  end.

Definition extract_property_keys (schema_value : json) : option (list string) :=
  o ← as_object schema_value; p ← obj_get "properties" o; props ← as_object p;
  Some (obj_keys props).

Definition get_schema_properties (reg : SchemaRegistry) (plugin_id collection : string)
    : option (list string) :=
  match cdm_values reg !! collection with
  | Some value => extract_property_keys value
  | None => schema_values reg !! (plugin_id, collection) ≫= extract_property_keys
  end.

(** ** Validating a write *)

(** On update, a changed [field] is rejected when both documents carry it. *)
Definition check_immutable (obj : object) (existing : object) (field : string)
    : result unit SchemaError :=
  match obj_get field obj, obj_get field existing with
  | Some new, Some old =>
      if bool_decide (new ≠ old) then Err (ImmutableField field) else Ok tt
  | _, _ => Ok tt
  end.

(** Every namespace of the extension object under [field] is the plugin's own. *)
Definition check_namespaces (plugin_id : string) (obj : object) (field : string)
    : result unit SchemaError :=
  match obj_get field obj ≫= as_object with
  | Some ext =>
      for_each (λ ns, if bool_decide (ns ≠ plugin_id)
                      then Err (NamespaceViolation plugin_id ns) else Ok tt) (obj_keys ext)
  | None => Ok tt
  end.

Definition system_fields : list string := ["id"; "created_at"; "updated_at"; "ext"; "extensions"].

Definition check_strict (collection : string) (props : list string) (obj : object)
    : result unit SchemaError :=
  for_each
    (λ key,
       if contains system_fields key then Ok tt
       else if negb (contains props key) then
         Err (SchemaValidationFailed collection
                ("strict mode: unknown field '" +:+ key +:+ "' not defined in schema"))
       else Ok tt)
    (obj_keys obj).

(** The plugin's extension data, from [ext] or else from [extensions]. *)
Definition extension_data (plugin_id : string) (obj : object) : option json :=
  match (e ← obj_get "ext" obj; o ← as_object e; obj_get plugin_id o) with
  | Some d => Some d
  | None => e ← obj_get "extensions" obj; o ← as_object e; obj_get plugin_id o
  end.

Definition restore (field : string) (saved : option json) (obj : object) : object :=
  match saved with
  | Some v => obj_insert field v obj
  | None => obj
  end.

(** [validate_write]: [fresh_id] and [placeholder_id] are the ids drawn on the two
    calls of the generator, [ts] the formatted clock. *)
Definition validate_write (reg : SchemaRegistry) (fresh_id placeholder_id ts : string)
    (collection plugin_id : string) (document : json) (is_create : bool)
    (existing_doc : option json) : result json SchemaError :=
  let failed m := SchemaValidationFailed collection m in
  let? schema := ok_or (get_collection reg plugin_id collection)
    (failed ("no schema registered for plugin '" +:+ plugin_id +:+ "' collection '"
             +:+ collection +:+ "'")) in
  match cs_validator schema with
  | None => Ok document
  | Some validator =>
      let? obj0 := ok_or (as_object document) (failed "document must be a JSON object") in
      let obj1 := if is_create && negb (obj_contains_key "id" obj0)
                  then obj_insert "id" (JStr fresh_id) obj0 else obj0 in
      match existing_doc ≫= as_object with
      | Some existing =>
          if negb is_create then
            check_immutable obj1 existing "id" ;? check_immutable obj1 existing "created_at"
          else Ok tt
      | None => Ok tt
      end ;?
      let saved_id := obj_get "id" obj1 in
      let saved_created_at := obj_get "created_at" obj1 in
      let saved_updated_at := obj_get "updated_at" obj1 in
      let obj2 := obj_remove "updated_at" (obj_remove "created_at" (obj_remove "id" obj1)) in
      check_namespaces plugin_id obj2 "ext" ;?
      check_namespaces plugin_id obj2 "extensions" ;?
      let obj3 := obj_insert "updated_at" (JStr ts)
                    (obj_insert "created_at" (JStr ts)
                       (obj_insert "id" (default (JStr placeholder_id) saved_id) obj2)) in
      match iter_errors validator (JObj obj3) with
      | e :: _ => Err (failed e)
      | [] => Ok tt
      end ;?
      (if cs_strict schema then
         match get_schema_properties reg plugin_id collection with
         | Some props => check_strict collection props obj3
         | None => Ok tt
         end
       else Ok tt) ;?
      match cs_extension_validator schema, extension_data plugin_id obj3 with
      | Some ext_validator, Some d =>
          match iter_errors ext_validator d with
          | e :: _ => Err (failed ("extension validation: " +:+ e))
          | [] => Ok tt
          end
      | _, _ => Ok tt
      end ;?
      Ok (JObj (restore "updated_at" saved_updated_at
                  (restore "created_at" saved_created_at (restore "id" saved_id obj3))))
  end.
End Registry.

(** ** Facts *)

Section Facts.
Context `{SchemaLib}.

Lemma check_namespaces_Ok plugin_id obj field :
  check_namespaces plugin_id obj field = Ok tt ↔
  ∀ ext ns, obj_get field obj = Some (JObj ext) → ns ∈ obj_keys ext → ns = plugin_id.
Proof.
  unfold check_namespaces.
  destruct (obj_get field obj) as [[]|]; simpl; try (split; [naive_solver|done]).
  rewrite for_each_Ok, Forall_forall. split.
  - intros Hf ext ns [= <-] Hin. specialize (Hf ns Hin).
    case_bool_decide as Hb; [done|]. destruct (decide (ns = plugin_id)); tauto.
  - intros Hf ns Hin. rewrite bool_decide_eq_false_2; [done|]. intros Hne. by apply Hne, (Hf kvs).
Qed.

Lemma check_strict_Ok collection props obj :
  check_strict collection props obj = Ok tt ↔
  ∀ k, k ∈ obj_keys obj → k ∈ system_fields ∨ k ∈ props.
Proof.
  unfold check_strict. rewrite for_each_Ok, Forall_forall.
  apply forall_proper. intros k. apply forall_proper. intros _.
  destruct (contains system_fields k) eqn:E1; rewrite ?contains_true, ?contains_false in E1; [naive_solver|].
  destruct (contains props k) eqn:E2; rewrite ?contains_true, ?contains_false in E2; simpl; naive_solver.
Qed.

Lemma check_immutable_Ok obj existing field :
  check_immutable obj existing field = Ok tt ↔
  ∀ new old, obj_get field obj = Some new → obj_get field existing = Some old → new = old.
Proof.
  unfold check_immutable.
  destruct (obj_get field obj) as [new|]; [|naive_solver].
  destruct (obj_get field existing) as [old|]; [|naive_solver].
  case_bool_decide; naive_solver.
Qed.

Definition user_field (k : string) : Prop := k ∉ ["id"; "created_at"; "updated_at"].

Lemma restore_get field saved obj k :
  k ≠ field → obj_get k (restore field saved obj) = obj_get k obj.
Proof. intros Hk. destruct saved; simpl; [|done]. by rewrite obj_get_insert_ne. Qed.

(** What an accepted write satisfies, for a collection with a schema: the
    document is an object; every extension namespace it carries is the writing
    plugin's; an update leaves id and creation time as they were where both
    versions have them; in strict mode, when the schema's properties are known,
    every field is a declared or a system one; and the returned document has
    exactly the given fields apart from the system-managed ones, with the given id
    kept, or one generated on create. *)
Theorem validate_write_sound reg fresh ph ts collection plugin_id doc is_create existing doc' schema v :
  get_collection reg plugin_id collection = Some schema → cs_validator schema = Some v →
  validate_write reg fresh ph ts collection plugin_id doc is_create existing = Ok doc' →
  ∃ obj obj', doc = JObj obj ∧ doc' = JObj obj' ∧
    (∀ field ext ns, field = "ext" ∨ field = "extensions" →
       obj_get field obj = Some (JObj ext) → ns ∈ obj_keys ext → ns = plugin_id) ∧
    (∀ old new ov field, is_create = false → existing = Some (JObj old) →
       field = "id" ∨ field = "created_at" →
       obj_get field obj = Some new → obj_get field old = Some ov → new = ov) ∧
    (∀ props k, cs_strict schema = true →
       get_schema_properties reg plugin_id collection = Some props →
       is_Some (obj_get k obj) → k ∈ system_fields ∨ k ∈ props) ∧
    (∀ k, user_field k → obj_get k obj' = obj_get k obj) ∧
    obj_get "id" obj' =
      Some (default (JStr (if is_create then fresh else ph)) (obj_get "id" obj)).
Proof.
  intros Hs Hv. unfold validate_write. rewrite Hs. simpl. rewrite Hv.
  destruct doc as [| | | | |obj]; simpl; try done.
  set (obj1 := if is_create && negb (obj_contains_key "id" obj) then _ else _).
  assert (∀ k, k ≠ "id" → obj_get k obj1 = obj_get k obj) as Hob1.
  { intros k Hk. unfold obj1. case_match; [by rewrite obj_get_insert_ne|done]. }
  assert (is_create = false → obj1 = obj) as Hupd by (intros ->; done).
  set (obj2 := obj_remove "updated_at" _). set (obj3 := obj_insert "updated_at" _ _).
  assert (∀ k, user_field k → obj_get k obj2 = obj_get k obj) as Hob2.
  { intros k Hk. unfold user_field in Hk. unfold obj2.
    rewrite !obj_get_remove_ne by set_solver. apply Hob1. set_solver. }
  assert (∀ k, user_field k → obj_get k obj3 = obj_get k obj) as Hob3.
  { intros k Hk. unfold obj3. pose proof Hk as Hk'. unfold user_field in Hk'.
    rewrite !obj_get_insert_ne by set_solver. by apply Hob2. }
  intros Hrun.
  apply result_bind_Ok in Hrun as ([] & Himm & Hrun).
  apply result_bind_Ok in Hrun as ([] & Hn1 & ([] & Hn2 & Hrun)%result_bind_Ok).
  apply result_bind_Ok in Hrun as ([] & _ & ([] & Hstr & Hrun)%result_bind_Ok).
  apply result_bind_Ok in Hrun as ([] & _ & [= <-]).
  rewrite check_namespaces_Ok in Hn1, Hn2.
  eexists obj, _. split; [done|]. split; [done|]. split_and!.
  - intros field ext ns [->| ->] Hext Hns; [apply (Hn1 ext)|apply (Hn2 ext)]; try done;
      rewrite Hob2; try done; unfold user_field; set_solver.
  - intros old new ov field Hc -> Hfield Hnew Hold. simpl in Himm. rewrite Hc in *. simpl in Himm.
    apply result_bind_Ok in Himm as ([] & Hi & Hca).
    rewrite check_immutable_Ok in Hi, Hca. rewrite (Hupd eq_refl) in *.
    destruct Hfield as [->| ->]; eauto.
  - intros props k Hst Hp Hk. rewrite Hst, Hp in Hstr.
    destruct (decide (k ∈ system_fields)) as [|Hns]; [by left|].
    apply (proj1 (check_strict_Ok _ _ _) Hstr). apply obj_get_keys. rewrite Hob3; [done|].
    unfold user_field, system_fields in *. set_solver.
  - intros k Hk. unfold user_field in Hk. rewrite !restore_get by set_solver. by apply Hob3.
  - rewrite !restore_get by done. unfold obj1. destruct (obj_get "id" obj) as [i|] eqn:Ei.
    + rewrite (proj2 (obj_contains_key_true "id" obj)), andb_false_r by (by eexists).
      rewrite Ei. simpl. by rewrite obj_get_insert_eq.
    + rewrite (obj_contains_key_false _ _ Ei). destruct is_create; simpl.
      * rewrite obj_get_insert_eq. simpl. by rewrite obj_get_insert_eq.
      * rewrite Ei. simpl. unfold obj3, obj1. simpl. rewrite !obj_get_insert_ne by done.
        rewrite obj_get_insert_eq. by rewrite ?Ei.
Qed.
End Facts.

(** ** A concrete library for witnesses *)

(** The parser knows one schema text; validation checks the type keyword. *)
Definition demo_schema : json :=
  mk_obj [("type", JStr "object"); ("properties", mk_obj [("title", mk_obj [])])].

#[export] Instance demo_schema_lib : SchemaLib := {|
  parse_json s := if bool_decide (s = "S") then Ok demo_schema else Err "expected value";
  draft_error _ := None;
  iter_errors schema v := option_list (TypeKeyword.check schema v);
|}.

Definition demo_registry : SchemaRegistry :=
  (register_plugin_collection new_registry "p" "c" (Some "S") None true []).1.

Lemma validate_write_sound_witness :
  ∃ obj obj', mk_obj [("title", JStr "x")] = JObj obj ∧
    mk_obj [("created_at", JStr "now"); ("id", JStr "i1"); ("title", JStr "x"); ("updated_at", JStr "now")]
      = JObj obj' ∧
    (∀ field ext ns, field = "ext" ∨ field = "extensions" →
       obj_get field obj = Some (JObj ext) → ns ∈ obj_keys ext → ns = "p") ∧
    (∀ old new ov field, true = false → (None : option json) = Some (JObj old) →
       field = "id" ∨ field = "created_at" →
       obj_get field obj = Some new → obj_get field old = Some ov → new = ov) ∧
    (∀ props k, true = true →
       get_schema_properties demo_registry "p" "c" = Some props →
       is_Some (obj_get k obj) → k ∈ system_fields ∨ k ∈ props) ∧
    (∀ k, user_field k → obj_get k obj' = obj_get k obj) ∧
    obj_get "id" obj' = Some (default (JStr "i1") (obj_get "id" obj)).
Proof.
  apply (validate_write_sound demo_registry "i1" "i2" "now" "c" "p" _ true None _
    (mkCollectionSchema (Some demo_schema) None true []) demo_schema); reflexivity.
Defined.

(** Strict mode is lost for a collection that uses a CDM schema under another
    name: the registry looks its properties up by collection name, finds none, and
    accepts a field the schema does not declare. *)
Theorem strict_cdm_reference_ignored :
  let reg := (load_cdm_schemas [("notes", "S")] new_registry).1 in
  let '(reg', r) := register_plugin_collection reg "p" "my-notes" (Some "cdm:notes") None true [] in
  r = Ok tt ∧ get_schema_properties reg' "p" "my-notes" = None ∧
  is_ok (validate_write reg' "i" "i" "now" "my-notes" "p"
           (mk_obj [("bogus", JBool true)]) true None) = true.
Proof. vm_compute. done. Qed.

(** ** Schemas of private collections (packages/workflow-engine/src/schema_registry.rs)

    The registry by plugin and collection; a lock that a panic left poisoned refuses writes
    and hides what is registered. *)

Module PrivateSchemas.

Definition RESERVED : list string :=
  ["events"; "tasks"; "contacts"; "notes"; "emails"; "files"; "credentials"]%string.

Inductive SchemaRegistryError : Type :=
| ReservedCollection (plugin_id collection : string)
| LockPoisoned.

Record SchemaRegistry : Type := mkRegistry {
  schemas : gmap (string * string) json;
  poisoned : bool;
}.

Definition new : SchemaRegistry := mkRegistry ∅ false.

Definition register (plugin_id collection : string) (schema : json) (r : SchemaRegistry)
    : result unit SchemaRegistryError * SchemaRegistry :=
  if bool_decide (collection ∈ RESERVED) then (Err (ReservedCollection plugin_id collection), r)
  else if poisoned r then (Err LockPoisoned, r)
  else (Ok tt, mkRegistry (<[(plugin_id, collection) := schema]> (schemas r)) false).

Definition get_schema (plugin_id collection : string) (r : SchemaRegistry) : option json :=
  if poisoned r then None else schemas r !! (plugin_id, collection).

Definition is_registered (plugin_id collection : string) (r : SchemaRegistry) : bool :=
  negb (poisoned r) && bool_decide (is_Some (schemas r !! (plugin_id, collection))).

(** Registrations in order, whatever each returns. *)
Definition register_all (calls : list (string * string * json)) (r : SchemaRegistry) : SchemaRegistry :=
  foldl (λ r '(p, c, s), (register p c s r).2) r calls.

(** What a plugin registered last for a collection. *)
Definition last_of (p c : string) (calls : list (string * string * json)) : option json :=
  foldl (λ found '(p', c', s), if bool_decide (p' = p ∧ c' = c) then Some s else found) None calls.

(** What a plugin finds is what it registered last itself, and nothing under a reserved name: no call of another plugin
    matters. *)
Theorem private_schemas_isolated calls p c :
  get_schema p c (register_all calls new) = (if bool_decide (c ∈ RESERVED) then None else last_of p c calls) ∧
  is_registered p c (register_all calls new) = bool_decide (is_Some (get_schema p c (register_all calls new))).
Proof.
  assert (poisoned (register_all calls new) = false ∧
          schemas (register_all calls new) !! (p, c) = (if bool_decide (c ∈ RESERVED) then None else last_of p c calls))
    as [Hp Hs].
  { unfold register_all, last_of. induction calls as [|[[p' c'] s] calls [IHp IHs]] using rev_ind.
    - cbn. rewrite lookup_empty. by case_bool_decide.
    - rewrite !foldl_app. cbn [foldl]. unfold register at 1 3. rewrite IHp.
      destruct (decide (c' ∈ RESERVED)) as [Hr|Hr].
      + rewrite (bool_decide_true (c' ∈ _)) by done. cbn. split; [done|]. rewrite IHs. case_bool_decide; [done|].
        rewrite bool_decide_false by naive_solver. done.
      + rewrite (bool_decide_false (c' ∈ _)) by done. cbn. split; [done|].
        destruct (decide (p' = p ∧ c' = c)) as [[-> ->]|Hne].
        * by rewrite lookup_insert_eq, !bool_decide_false, bool_decide_true by done.
        * rewrite lookup_insert_ne by naive_solver. rewrite IHs. by rewrite (bool_decide_false (p' = p ∧ _)) by done. }
  unfold get_schema, is_registered. by rewrite Hp, Hs.
Qed.
End PrivateSchemas.
