(* ===== verification/Storage.v ===== *)
(** * Storage types, adapters and the router

    packages/traits/src/storage.rs and blob.rs (errors, queries, health, blob keys,
    the adapter traits) and storage_router.rs (timeouts, start-up, health). The
    adapters are an interface over a world [D]; an adapter call takes some time,
    which the router compares with its limit. Every adapter call is recorded in a
    ghost trace. *)

From stdpp Require Import base tactics list strings gmap.
From Stdlib Require Import Ascii ZArith Lia.
From S2P Require Import Prelude RustString Json Types.

Inductive StorageError : Type :=
| NotFound (collection id : string)
| AlreadyExists (collection id : string)
| StorageValidationFailed (message : string) (field : option string)
| PermissionDenied (message : string)
| SchemaConflict (collection message : string)
| Timeout (message : string)
| ConnectionFailed (message : string)
| UnsupportedOperation (operation : string)
| Internal (message : string)
| InvalidKey (message : string)
| TransactionFailed (reason : string).

Definition storage_error_display (e : StorageError) : string :=
  match e with
  | NotFound c i => "not found: " +:+ c +:+ "/" +:+ i
  | AlreadyExists c i => "already exists: " +:+ c +:+ "/" +:+ i
  | StorageValidationFailed m (Some f) => "validation failed on '" +:+ f +:+ "': " +:+ m
  | StorageValidationFailed m None => "validation failed: " +:+ m
  | PermissionDenied m => "permission denied: " +:+ m
  | SchemaConflict c m => "schema conflict on '" +:+ c +:+ "': " +:+ m
  | Timeout m => "timeout: " +:+ m
  | ConnectionFailed m => "connection failed: " +:+ m
  | UnsupportedOperation o => "unsupported operation: " +:+ o
  | Internal m => "internal error: " +:+ m
  | InvalidKey m => "invalid key: " +:+ m
  | TransactionFailed r => "transaction failed: " +:+ r
  end.

Definition storage_error_is_retryable (e : StorageError) : bool :=
  match e with
  | Timeout _ | ConnectionFailed _ | TransactionFailed _ => true
  | _ => false
  end.

(** ** Queries *)

Inductive FilterOperator : Type :=
| FEq | FNe | FGt | FGte | FLt | FLte | FIn | FNotIn | FContains | FStartsWith | FExists.

Inductive FilterNode : Type :=
| FAnd (fs : list FilterNode)
| FOr (fs : list FilterNode)
| FNot (f : FilterNode)
| FComparison (field : string) (operator : FilterOperator) (value : json).

Inductive SortDirection : Type := Asc | Desc.

Record Pagination : Type := mkPagination { limit : Z; cursor : option string }.
Definition default_pagination : Pagination := mkPagination 100 None.

Record QueryDescriptor : Type := mkQuery {
  q_collection : string;
  q_filter : option FilterNode;
  q_sort : list (string * SortDirection);
  q_pagination : Pagination;
  q_fields : option (list string);
  q_text_search : option string;
}.

Definition with_collection (q : QueryDescriptor) (c : string) : QueryDescriptor :=
  mkQuery c (q_filter q) (q_sort q) (q_pagination q) (q_fields q) (q_text_search q).

Record DocumentList : Type := mkDocumentList {
  documents : list json;
  total_count : Z;
  next_cursor : option string;
}.

(** ** Blob keys *)

Definition blob_key_err {A} (message : string) : result A StorageError :=
  Err (StorageValidationFailed message (Some "key")).

(** [BlobKey::new]; a key is its text. *)
Definition blob_key_new (key : string) : result string StorageError :=
  if starts_with key "/" then blob_key_err "blob key must not start with '/'"
  else if contains_str key ".." then blob_key_err "blob key must not contain '..'"
  else
    let segments := split "/"%char key in
    if (length segments <? 3)%nat then
      blob_key_err "blob key must have at least 3 segments (plugin_id/context/filename)"
    else if existsb is_empty segments then
      blob_key_err "blob key must not contain empty segments"
    else Ok key.

Record BlobMeta : Type := mkBlobMeta {
  bm_key : string;
  bm_size_bytes : Z;
  bm_content_type : string;
  bm_checksum : string;
  bm_created_at : timestamp;
  bm_metadata : list (string * string);
}.

Record BlobInput : Type := mkBlobInput {
  bi_data : list Z;
  bi_content_type : option string;
  bi_metadata : list (string * string);
}.

(** ** Change events *)

Inductive ChangeType : Type := Created | Updated | Deleted.

Record ChangeEvent : Type := mkChange {
  ce_collection : string;
  ce_document_id : string;
  ce_change_type : ChangeType;
  ce_timestamp : timestamp;
}.

(** ** Health *)

Inductive HealthStatus : Type := Healthy | Degraded | Unhealthy.

#[export] Instance health_status_eq_dec : EqDecision HealthStatus.
Proof. solve_decision. Defined.

Definition health_debug (h : HealthStatus) : string :=
  match h with
  | Healthy => "Healthy"
  | Degraded => "Degraded"
  | Unhealthy => "Unhealthy"
  end.

Record HealthReport : Type := mkHealthReport {
  hr_status : HealthStatus;
  hr_message : option string;
  hr_checks : list (string * HealthStatus * option string);
}.

Definition worst_status (a b : HealthStatus) : HealthStatus :=
  match a, b with
  | Unhealthy, _ | _, Unhealthy => Unhealthy
  | Degraded, _ | _, Degraded => Degraded
  | _, _ => Healthy
  end.

(** ** Adapters *)

Record AdapterCapabilities : Type := mkAdapterCaps {
  ac_indexing : bool;
  ac_transactions : bool;
  ac_full_text_search : bool;
  ac_watch : bool;
  ac_batch_operations : bool;
  ac_encryption : bool;
}.

(** One adapter call: its result, the milliseconds it took, the world after. *)
Definition call (D A : Type) : Type := D → result A StorageError * Z * D.

Class Adapters (D : Type) : Type := {
  adapter_get : string → string → call D json;
  adapter_create : string → json → call D json;
  adapter_update : string → string → json → call D json;
  adapter_partial_update : string → string → json → call D json;
  adapter_delete : string → string → call D unit;
  adapter_query : QueryDescriptor → call D DocumentList;
  adapter_count : string → option FilterNode → call D Z;
  (** [watch]: the events the subscription will deliver *)
  adapter_watch : string → call D (list ChangeEvent);
  blob_adapter_store : string → BlobInput → call D BlobMeta;
  blob_adapter_retrieve : string → call D (list Z * BlobMeta);
  blob_adapter_delete : string → call D unit;
  blob_adapter_exists : string → call D bool;
  blob_adapter_copy : string → string → call D BlobMeta;
  blob_adapter_list : string → call D (list BlobMeta);
  blob_adapter_metadata : string → call D BlobMeta;
}.

(** The ghost trace of adapter calls. *)
Inductive AdapterCall : Type :=
| CallGet (collection id : string)
| CallCreate (collection : string) (doc : json)
| CallUpdate (collection id : string) (doc : json)
| CallPartialUpdate (collection id : string) (patch : json)
| CallDelete (collection id : string)
| CallQuery (collection : string)
| CallCount (collection : string)
| CallWatch (collection : string)
| CallBlob (op key : string).

Record AuditEvent : Type := mkAudit {
  event_type : string;
  origin_id : string;
  audit_payload : json;
}.

(** The store as the enforcement layer sees it: the adapters' world, the calls made
    and the audit events sent. *)
Record Store (D : Type) : Type := mkStore {
  adapter_world : D;
  adapter_calls : list AdapterCall;
  audit_events : list AuditEvent;
}.
Arguments mkStore {D} _ _ _.
Arguments adapter_world {D} _.
Arguments adapter_calls {D} _.
Arguments audit_events {D} _.

(** Storage computations: a result and the store after. *)
Definition Op (D A : Type) : Type := Store D → result A StorageError * Store D.

Definition op_ret {D A} (a : A) : Op D A := λ s, (Ok a, s).
Definition op_bind {D A B} (m : Op D A) (k : A → Op D B) : Op D B := λ s,
  match m s with
  | (Ok a, s') => k a s'
  | (Err e, s') => (Err e, s')
  end.
Definition op_lift {D A} (r : result A StorageError) : Op D A := λ s, (r, s).

(** Turn a failure into a value, as [.ok()] does. *)
Definition op_ok {D A} (m : Op D A) : Op D (option A) := λ s,
  let '(r, s') := m s in (Ok (result_ok r), s').

Notation "x <~ c ; k" := (op_bind c (λ x, k))
  (at level 100, c at level 99, right associativity) : rust_scope.
Notation "c ;~ k" := (op_bind c (λ _, k)) (at level 100, right associativity) : rust_scope.

(** ** The router *)

Record TimeoutConfig : Type := mkTimeouts {
  document_read_ms : Z;
  document_write_ms : Z;
  blob_read_ms : Z;
  blob_write_ms : Z;
}.

Definition default_timeouts : TimeoutConfig := mkTimeouts 5000 10000 10000 30000.

Section Router.
Context {D : Type} `{Adapters D} (timeouts : TimeoutConfig).

(** [with_timeout] around an adapter call. *)
Definition with_timeout {A} (ms : Z) (op_name : string) (label : AdapterCall) (c : call D A)
    : Op D A := λ s,
  let '(r, elapsed, w) := c (adapter_world s) in
  let s' := mkStore w (adapter_calls s ++ [label]) (audit_events s) in
  if (elapsed <=? ms)%Z then (r, s')
  else (Err (Timeout (op_name +:+ " timed out after " +:+ show_Z ms +:+ "ms")), s').

Definition router_doc_get (collection id : string) : Op D json :=
  with_timeout (document_read_ms timeouts) "doc_get" (CallGet collection id)
    (adapter_get collection id).
Definition router_doc_query (q : QueryDescriptor) : Op D DocumentList :=
  with_timeout (document_read_ms timeouts) "doc_query" (CallQuery (q_collection q))
    (adapter_query q).
Definition router_doc_count (collection : string) (f : option FilterNode) : Op D Z :=
  with_timeout (document_read_ms timeouts) "doc_count" (CallCount collection)
    (adapter_count collection f).
Definition router_doc_create (collection : string) (doc : json) : Op D json :=
  with_timeout (document_write_ms timeouts) "doc_create" (CallCreate collection doc)
    (adapter_create collection doc).
Definition router_doc_update (collection id : string) (doc : json) : Op D json :=
  with_timeout (document_write_ms timeouts) "doc_update" (CallUpdate collection id doc)
    (adapter_update collection id doc).
Definition router_doc_partial_update (collection id : string) (patch : json) : Op D json :=
  with_timeout (document_write_ms timeouts) "doc_partial_update"
    (CallPartialUpdate collection id patch) (adapter_partial_update collection id patch).
Definition router_doc_delete (collection id : string) : Op D unit :=
  with_timeout (document_write_ms timeouts) "doc_delete" (CallDelete collection id)
    (adapter_delete collection id).
Definition router_doc_watch (collection : string) : Op D (list ChangeEvent) :=
  with_timeout (document_write_ms timeouts) "doc_watch" (CallWatch collection)
    (adapter_watch collection).
Definition router_blob_retrieve (key : string) : Op D (list Z * BlobMeta) :=
  with_timeout (blob_read_ms timeouts) "blob_retrieve" (CallBlob "retrieve" key)
    (blob_adapter_retrieve key).
Definition router_blob_exists (key : string) : Op D bool :=
  with_timeout (blob_read_ms timeouts) "blob_exists" (CallBlob "exists" key)
    (blob_adapter_exists key).
Definition router_blob_list (prefix : string) : Op D (list BlobMeta) :=
  with_timeout (blob_read_ms timeouts) "blob_list" (CallBlob "list" prefix)
    (blob_adapter_list prefix).
Definition router_blob_metadata (key : string) : Op D BlobMeta :=
  with_timeout (blob_read_ms timeouts) "blob_metadata" (CallBlob "metadata" key)
    (blob_adapter_metadata key).
Definition router_blob_store (key : string) (input : BlobInput) : Op D BlobMeta :=
  with_timeout (blob_write_ms timeouts) "blob_store" (CallBlob "store" key)
    (blob_adapter_store key input).
Definition router_blob_copy (src dst : string) : Op D BlobMeta :=
  with_timeout (blob_write_ms timeouts) "blob_copy" (CallBlob "copy" dst)
    (blob_adapter_copy src dst).
Definition router_blob_delete (key : string) : Op D unit :=
  with_timeout (blob_write_ms timeouts) "blob_delete" (CallBlob "delete" key)
    (blob_adapter_delete key).
End Router.

(** [StorageRouter::health]: both reports, or the first error. *)
Definition router_health (doc blob : result HealthReport StorageError)
    : result HealthReport StorageError :=
  let? d := doc in
  let? b := blob in
  Ok (mkHealthReport (worst_status (hr_status d) (hr_status b))
        (Some ("document: " +:+ health_debug (hr_status d) +:+ ", blob: "
               +:+ health_debug (hr_status b)))
        (hr_checks d ++ hr_checks b)).

(** ** Start-up *)

Record RequiredCapabilities : Type := mkRequired {
  rc_transactions : bool;
  rc_full_text_search : bool;
  rc_watch : bool;
  rc_batch_operations : bool;
  rc_encryption : bool;
}.

Inductive StartupError : Type :=
| UnknownDocumentAdapter (name : string)
| UnknownBlobAdapter (name : string)
| CapabilityMismatch (msg : string)
| HealthCheckFailed (msg : string)
| ConfigError (msg : string).

Definition missing_capabilities (actual : AdapterCapabilities) (required : RequiredCapabilities)
    : list string :=
  let need r a name := if r && negb a then [name] else [] in
  need (rc_transactions required) (ac_transactions actual) "transactions" ++
  need (rc_full_text_search required) (ac_full_text_search actual) "full_text_search" ++
  need (rc_watch required) (ac_watch actual) "watch" ++
  need (rc_batch_operations required) (ac_batch_operations actual) "batch_operations" ++
  need (rc_encryption required) (ac_encryption actual) "encryption".

Definition check_capabilities (actual : AdapterCapabilities) (required : RequiredCapabilities)
    : result unit StartupError :=
  match missing_capabilities actual required with
  | [] => Ok tt
  | missing =>
      Err (CapabilityMismatch
             ("adapter missing required capabilities: " +:+ join ", " missing))
  end.

(** An adapter as start-up sees it. *)
Record DocAdapterInfo : Type := mkDocAdapter {
  da_capabilities : AdapterCapabilities;
  da_health : result HealthReport StorageError;
}.

(** [StorageRouter::from_config]: the overall health when start-up succeeds. *)
Definition from_config (resolve_doc : string → option DocAdapterInfo)
    (resolve_blob : string → option (result HealthReport StorageError))
    (document_adapter blob_adapter : string) (required : RequiredCapabilities)
    : result HealthReport StartupError :=
  let? doc := ok_or (resolve_doc document_adapter) (UnknownDocumentAdapter document_adapter) in
  let? blob := ok_or (resolve_blob blob_adapter) (UnknownBlobAdapter blob_adapter) in
  check_capabilities (da_capabilities doc) required ;?
  let? health := result_map_err (λ e, HealthCheckFailed (storage_error_display e))
    (router_health (da_health doc) blob) in
  if bool_decide (hr_status health = Unhealthy) then
    Err (HealthCheckFailed ("storage unhealthy: " +:+ default empty_str (hr_message health)))
  else Ok health.

(** ** Facts *)

(** A blob key is accepted exactly when it has at least three segments, none of
    them empty, and contains no two dots in a row; so no segment of an accepted key
    is the parent directory and the key is not absolute. *)
Theorem blob_key_new_exact key :
  (blob_key_new key = Ok key ↔
     3 ≤ length (split "/"%char key) ∧ Forall (λ p, p ≠ empty_str) (split "/"%char key) ∧
     contains_str key ".." = false) ∧
  (blob_key_new key = Ok key → ".." ∉ split "/"%char key ∧ starts_with key "/" = false).
Proof.
  assert (blob_key_new key = Ok key ↔
     3 ≤ length (split "/"%char key) ∧ Forall (λ p, p ≠ empty_str) (split "/"%char key) ∧
     contains_str key ".." = false) as Heq.
  { unfold blob_key_new, blob_key_err.
    pose proof (split_empty_piece "/"%char key) as Hep. unfold singleton in Hep.
    destruct (starts_with key "/") eqn:E1.
    { split; [done|]. intros (_ & Hf & _). rewrite Forall_forall in Hf. exfalso.
      apply (Hf empty_str); [|done]. apply Hep. auto. }
    destruct (contains_str key "..") eqn:E2; [naive_solver|].
    destruct (Nat.ltb_spec (length (split "/"%char key)) 3); [split; [done|lia]|].
    destruct (existsb is_empty _) eqn:E3.
    - split; [done|]. apply existsb_elem_of in E3 as (p & Hin & Hp). apply is_empty_true in Hp as ->.
      intros (_ & Hf & _). rewrite Forall_forall in Hf. by destruct (Hf _ Hin).
    - split; [|done]. intros _. split_and!; [done| |done]. apply Forall_forall. intros p Hin.
      rewrite <- is_empty_false. by apply (proj1 (existsb_false_elem_of _ _) E3). }
  split; [done|]. intros Hok. pose proof (proj1 Heq Hok) as (_ & _ & Hd). split.
  - intros Hin. apply not_true_iff_false in Hd. apply Hd. apply contains_str_true.
    by apply split_piece_infix in Hin.
  - unfold blob_key_new, blob_key_err in Hok. by destruct (starts_with key "/").
Qed.
