(* ===== verification/StorageContext.v ===== *)
(** * The storage context

    packages/traits/src/storage_context.rs: the enforcement layer between callers
    and the storage router. It checks capabilities, resolves collection names,
    isolates extension namespaces, validates against the schema registry, manages
    system fields, encrypts credential claims and sends audit events. Ids, the
    clock and nonces are inputs of an operation. *)

From Stdlib Require Import Strings.Byte.
From stdpp Require Import base tactics list strings gmap.
From Stdlib Require Import Ascii ZArith Lia.
From S2P Require Import Prelude RustString Json Types Crypto Schema Storage.

Inductive StorageCapability : Type :=
| DocRead | DocWrite | DocDelete | BlobRead | BlobWrite | BlobDelete.

#[export] Instance storage_capability_eq_dec : EqDecision StorageCapability.
Proof. solve_decision. Defined.

Definition storage_capability_as_str (c : StorageCapability) : string :=
  match c with
  | DocRead => "storage:doc:read"
  | DocWrite => "storage:doc:write"
  | DocDelete => "storage:doc:delete"
  | BlobRead => "storage:blob:read"
  | BlobWrite => "storage:blob:write"
  | BlobDelete => "storage:blob:delete"
  end.

Definition storage_capability_parse (s : string) : option StorageCapability :=
  if bool_decide (s = "storage:doc:read") then Some DocRead
  else if bool_decide (s = "storage:doc:write") then Some DocWrite
  else if bool_decide (s = "storage:doc:delete") then Some DocDelete
  else if bool_decide (s = "storage:blob:read") then Some BlobRead
  else if bool_decide (s = "storage:blob:write") then Some BlobWrite
  else if bool_decide (s = "storage:blob:delete") then Some BlobDelete
  else None.

(** A declared shared collection: its name and access level text. *)
Record CollectionAccess : Type := mkAccess { ca_collection : string; ca_access : string }.

Inductive CallerIdentity : Type :=
| PluginCaller (plugin_id : string) (capabilities : list StorageCapability)
               (shared_collections : list CollectionAccess)
| SystemCaller.

Definition check_capability (caller : CallerIdentity) (required : StorageCapability)
    : result unit StorageError :=
  match caller with
  | SystemCaller => Ok tt
  | PluginCaller plugin_id capabilities _ =>
      if contains capabilities required then Ok tt
      else Err (PermissionDenied
                  ("plugin '" +:+ plugin_id +:+ "' lacks capability '"
                   +:+ storage_capability_as_str required +:+ "'"))
  end.

Definition resolve_collection (caller : CallerIdentity) (collection : string)
    (is_plugin_scoped : bool) : result string StorageError :=
  match caller with
  | SystemCaller => Ok collection
  | PluginCaller plugin_id _ shared =>
      if is_plugin_scoped then Ok (plugin_id +:+ "." +:+ collection)
      else if negb (existsb (λ ca, bool_decide (ca_collection ca = collection)) shared) then
        Err (PermissionDenied
               ("plugin '" +:+ plugin_id +:+ "' has not declared access to shared collection '"
                +:+ collection +:+ "'"))
      else Ok collection
  end.

Definition origin (caller : CallerIdentity) : string :=
  match caller with
  | SystemCaller => "system"
  | PluginCaller plugin_id _ _ => plugin_id
  end.

Definition CREDENTIALS_COLLECTION : string := "credentials".

Definition is_credentials_collection (resolved : string) : bool :=
  bool_decide (resolved = CREDENTIALS_COLLECTION)
  || ends_with resolved ("." +:+ CREDENTIALS_COLLECTION).

Definition check_extension_namespace (caller : CallerIdentity) (doc : json)
    : result unit StorageError :=
  match caller with
  | SystemCaller => Ok tt
  | PluginCaller plugin_id _ _ =>
      match json_get doc "ext" ≫= as_object with
      | Some ext =>
          for_each
            (λ ns, if bool_decide (ns ≠ plugin_id) then
                     Err (PermissionDenied
                            ("plugin '" +:+ plugin_id
                             +:+ "' cannot write to extension namespace 'ext." +:+ ns +:+ "'"))
                   else Ok tt)
            (obj_keys ext)
      | None => Ok tt
      end
  end.

Definition inject_system_fields_create (new_id now : string) (doc : json) : json :=
  match doc with
  | JObj obj =>
      let obj := if obj_contains_key "id" obj then obj else obj_insert "id" (JStr new_id) obj in
      JObj (obj_insert "updated_at" (JStr now) (obj_insert "created_at" (JStr now) obj))
  | _ => doc
  end.

Definition inject_system_fields_update (now : string) (doc : json) : json :=
  match doc with
  | JObj obj => JObj (obj_insert "updated_at" (JStr now) obj)
  | _ => doc
  end.

(** ** Credentials *)

Section Credentials.
Context `{CryptoLib} (master_key : option bytes).

Definition internal_crypto (what : string) (e : CryptoError) : StorageError :=
  Internal ("credential " +:+ what +:+ " failed: " +:+ crypto_error_display e).

Definition encrypt_credential_claims (nonce : bytes) (doc : json) : result json StorageError :=
  match master_key, doc with
  | Some key, JObj obj =>
      if bool_decide (obj_get "encrypted" obj ≫= as_bool = Some true) then Ok doc
      else
        match obj_get "claims" obj with
        | None => Ok doc
        | Some claims =>
            let? id := ok_or (obj_get "id" obj ≫= as_str)
              (Internal "credential document missing 'id' field") in
            let? encrypted := result_map_err (internal_crypto "encryption")
              (encrypt_claims nonce key id claims) in
            Ok (JObj (obj_insert "encrypted" (JBool true)
                        (obj_insert "claims" (JStr encrypted) obj)))
        end
  | _, _ => Ok doc
  end.

Definition decrypt_credential_claims (doc : json) : result json StorageError :=
  match master_key, doc with
  | Some key, JObj obj =>
      if bool_decide (obj_get "encrypted" obj ≫= as_bool ≠ Some true) then Ok doc
      else
        let? ciphertext := ok_or (obj_get "claims" obj ≫= as_str)
          (Internal "encrypted credential missing string 'claims' field") in
        let? id := ok_or (obj_get "id" obj ≫= as_str)
          (Internal "credential document missing 'id' field") in
        let? decrypted := result_map_err (internal_crypto "decryption")
          (decrypt_claims key id ciphertext) in
        Ok (JObj (obj_remove "encrypted" (obj_insert "claims" decrypted obj)))
  | _, _ => Ok doc
  end.
End Credentials.

(** ** Operations *)

(** What an operation draws from its environment. *)
Record Inputs : Type := mkInputs {
  in_uuid : uuid;
  in_now : string;
  in_nonce : bytes;
  in_validate_id : uuid;
  in_placeholder_id : uuid;
  in_validate_ts : string;
}.

Section Operations.
Context {D : Type} `{Adapters D} `{CryptoLib} `{SchemaLib}.
Context (timeouts : TimeoutConfig) (registry : SchemaRegistry) (master_key : option bytes).

Definition emit_audit (e : AuditEvent) : Op D unit := λ s,
  (Ok tt, mkStore (adapter_world s) (adapter_calls s) (audit_events s ++ [e])).

Definition doc_audit (caller : CallerIdentity) (kind resolved id : string) : Op D unit :=
  emit_audit (mkAudit kind (origin caller)
                (mk_obj [("collection", JStr resolved); ("id", JStr id)])).

Definition blob_audit (caller : CallerIdentity) (kind key : string) : Op D unit :=
  emit_audit (mkAudit kind (origin caller) (mk_obj [("key", JStr key)])).

(** Capability check and name resolution, the start of every document operation. *)
Definition authorize (caller : CallerIdentity) (cap : StorageCapability) (collection : string)
    (scoped : bool) : result string StorageError :=
  check_capability caller cap ;? resolve_collection caller collection scoped.

Definition doc_get (caller : CallerIdentity) (collection id : string) (scoped : bool)
    : Op D json :=
  resolved <~ op_lift (authorize caller DocRead collection scoped);
  doc <~ router_doc_get timeouts resolved id;
  if is_credentials_collection resolved
  then op_lift (decrypt_credential_claims master_key doc)
  else op_ret doc.

Definition doc_query (caller : CallerIdentity) (q : QueryDescriptor) (scoped : bool)
    : Op D DocumentList :=
  resolved <~ op_lift (authorize caller DocRead (q_collection q) scoped);
  r <~ router_doc_query timeouts (with_collection q resolved);
  if is_credentials_collection resolved then
    docs <~ op_lift (try_map (decrypt_credential_claims master_key) (documents r));
    op_ret (mkDocumentList docs (total_count r) (next_cursor r))
  else op_ret r.

Definition doc_count (caller : CallerIdentity) (collection : string) (f : option FilterNode)
    (scoped : bool) : Op D Z :=
  resolved <~ op_lift (authorize caller DocRead collection scoped);
  router_doc_count timeouts resolved f.

(** Schema validation of a plugin's write; the validated copy is dropped. *)
Definition validate_plugin_write (inp : Inputs) (caller : CallerIdentity) (collection : string)
    (doc : json) (is_create : bool) (existing : Op D (option json)) : Op D unit :=
  match caller with
  | SystemCaller => op_ret tt
  | PluginCaller plugin_id _ _ =>
      match get_collection registry plugin_id collection with
      | None => op_ret tt
      | Some _ =>
          old <~ existing;
          op_lift
            (result_map_err (λ e, StorageValidationFailed (schema_error_display e) None)
               (validate_write registry (in_validate_id inp) (in_placeholder_id inp)
                  (in_validate_ts inp) collection plugin_id doc is_create old)) ;~
          op_ret tt
      end
  end.

Definition seal (inp : Inputs) (resolved : string) (doc : json) : result json StorageError :=
  if is_credentials_collection resolved
  then encrypt_credential_claims master_key (in_nonce inp) doc
  else Ok doc.

Definition doc_create (inp : Inputs) (caller : CallerIdentity) (collection : string)
    (document : json) (scoped : bool) : Op D json :=
  resolved <~ op_lift (authorize caller DocWrite collection scoped);
  op_lift (check_extension_namespace caller document) ;~
  validate_plugin_write inp caller collection document true (op_ret None) ;~
  let doc1 := inject_system_fields_create (in_uuid inp) (in_now inp) document in
  let id := default empty_str (json_get doc1 "id" ≫= as_str) in
  doc2 <~ op_lift (seal inp resolved doc1);
  r <~ router_doc_create timeouts resolved doc2;
  doc_audit caller "system.storage.created" resolved id ;~
  op_ret r.

Definition doc_update (inp : Inputs) (caller : CallerIdentity) (collection id : string)
    (document : json) (scoped : bool) : Op D json :=
  resolved <~ op_lift (authorize caller DocWrite collection scoped);
  op_lift (check_extension_namespace caller document) ;~
  validate_plugin_write inp caller collection document false
    (op_ok (router_doc_get timeouts resolved id)) ;~
  let doc1 := inject_system_fields_update (in_now inp) document in
  doc2 <~ op_lift (seal inp resolved doc1);
  r <~ router_doc_update timeouts resolved id doc2;
  doc_audit caller "system.storage.updated" resolved id ;~
  op_ret r.

Definition doc_delete (caller : CallerIdentity) (collection id : string) (scoped : bool)
    : Op D unit :=
  resolved <~ op_lift (authorize caller DocDelete collection scoped);
  router_doc_delete timeouts resolved id ;~
  doc_audit caller "system.storage.deleted" resolved id.

Definition blob_retrieve (caller : CallerIdentity) (key : string) : Op D (list Z * BlobMeta) :=
  op_lift (check_capability caller BlobRead) ;~ router_blob_retrieve timeouts key.
Definition blob_exists (caller : CallerIdentity) (key : string) : Op D bool :=
  op_lift (check_capability caller BlobRead) ;~ router_blob_exists timeouts key.
Definition blob_list (caller : CallerIdentity) (prefix : string) : Op D (list BlobMeta) :=
  op_lift (check_capability caller BlobRead) ;~ router_blob_list timeouts prefix.
Definition blob_metadata (caller : CallerIdentity) (key : string) : Op D BlobMeta :=
  op_lift (check_capability caller BlobRead) ;~ router_blob_metadata timeouts key.

Definition blob_store (caller : CallerIdentity) (key : string) (input : BlobInput)
    : Op D BlobMeta :=
  op_lift (check_capability caller BlobWrite) ;~
  r <~ router_blob_store timeouts key input;
  blob_audit caller "system.blob.stored" key ;~
  op_ret r.

Definition blob_delete (caller : CallerIdentity) (key : string) : Op D unit :=
  op_lift (check_capability caller BlobDelete) ;~
  router_blob_delete timeouts key ;~
  blob_audit caller "system.blob.deleted" key.

(** The bridge task of [doc_watch]: an audit event for each change received, until
    the consumer, who takes [accepts] of them, is gone. *)
Definition change_kind (t : ChangeType) : string :=
  match t with
  | Created => "system.storage.created"
  | Updated => "system.storage.updated"
  | Deleted => "system.storage.deleted"
  end.

Definition bridge (caller : CallerIdentity) (accepts : nat) (events : list ChangeEvent)
    : list AuditEvent :=
  (λ ev, mkAudit (change_kind (ce_change_type ev)) (origin caller)
           (mk_obj [("collection", JStr (ce_collection ev)); ("id", JStr (ce_document_id ev));
                    ("source", JStr "watch")])) <$> take (S accepts) events.

Definition doc_watch (caller : CallerIdentity) (collection : string) (scoped : bool)
    (accepts : nat) : Op D (list ChangeEvent) :=
  resolved <~ op_lift (authorize caller DocRead collection scoped);
  events <~ router_doc_watch timeouts resolved;
  (λ s, (Ok (take accepts events),
         mkStore (adapter_world s) (adapter_calls s)
           (audit_events s ++ bridge caller accepts events))).
End Operations.
