(* ===== verification/StorageContextFacts.v ===== *)
(** * What the storage context enforces

    Every operation of the context as one request type, and the guarantees over
    all of them: no authority means no effect, a plugin's calls stay within its own
    and its declared collections, successful writes are audited exactly once, and
    credential claims are encrypted at rest and come back unchanged. *)

From Stdlib Require Import Strings.Byte.
From stdpp Require Import base tactics list strings gmap.
From Stdlib Require Import Ascii ZArith Lia.
From S2P Require Import Prelude RustString Json Types Capability Manifest Crypto Schema Storage StorageContext.

(** ** Requests *)

Inductive Request : Type :=
| RGet (collection id : string) (scoped : bool)
| RQuery (q : QueryDescriptor) (scoped : bool)
| RCount (collection : string) (f : option FilterNode) (scoped : bool)
| RCreate (inp : Inputs) (collection : string) (doc : json) (scoped : bool)
| RUpdate (inp : Inputs) (collection id : string) (doc : json) (scoped : bool)
| RDelete (collection id : string) (scoped : bool)
| RBlobRetrieve (key : string)
| RBlobExists (key : string)
| RBlobList (prefix : string)
| RBlobMetadata (key : string)
| RBlobStore (key : string) (input : BlobInput)
| RBlobDelete (key : string).

Definition required (r : Request) : StorageCapability :=
  match r with
  | RGet _ _ _ | RQuery _ _ | RCount _ _ _ => DocRead
  | RCreate _ _ _ _ | RUpdate _ _ _ _ _ => DocWrite
  | RDelete _ _ _ => DocDelete
  | RBlobRetrieve _ | RBlobExists _ | RBlobList _ | RBlobMetadata _ => BlobRead
  | RBlobStore _ _ => BlobWrite
  | RBlobDelete _ => BlobDelete
  end.

Section Facts.
Context {D : Type} `{Adapters D} `{CryptoLib} `{SchemaLib}.
Context (timeouts : TimeoutConfig) (registry : SchemaRegistry) (master_key : option bytes).

Definition void {A} (m : Op D A) : Op D unit := m ;~ op_ret tt.

Definition perform (caller : CallerIdentity) (r : Request) : Op D unit :=
  match r with
  | RGet c i sc => void (doc_get timeouts master_key caller c i sc)
  | RQuery q sc => void (doc_query timeouts master_key caller q sc)
  | RCount c f sc => void (doc_count timeouts caller c f sc)
  | RCreate inp c d sc => void (doc_create timeouts registry master_key inp caller c d sc)
  | RUpdate inp c i d sc => void (doc_update timeouts registry master_key inp caller c i d sc)
  | RDelete c i sc => void (doc_delete timeouts caller c i sc)
  | RBlobRetrieve k => void (blob_retrieve timeouts caller k)
  | RBlobExists k => void (blob_exists timeouts caller k)
  | RBlobList p => void (blob_list timeouts caller p)
  | RBlobMetadata k => void (blob_metadata timeouts caller k)
  | RBlobStore k i => void (blob_store timeouts caller k i)
  | RBlobDelete k => void (blob_delete timeouts caller k)
  end.

(** C3. A plugin without the capability an operation requires gets
    [PermissionDenied] and nothing happens: no adapter is called, no audit event is
    sent. *)
Theorem unauthorized_no_effect plugin_id caps shared r (s : Store D) :
  required r ∉ caps →
  ∃ m, perform (PluginCaller plugin_id caps shared) r s = (Err (PermissionDenied m), s).
Proof.
  intros Hr. assert (contains caps (required r) = false) as Hc by (by apply contains_false).
  destruct r; simpl in Hc;
    unfold perform, void, doc_get, doc_query, doc_count, doc_create, doc_update, doc_delete,
      blob_retrieve, blob_exists, blob_list, blob_metadata, blob_store, blob_delete,
      op_bind, op_lift, authorize, check_capability; rewrite Hc; simpl; by eexists.
Qed.

(** ** Where calls go *)

Section Traced.
Context (P : AdapterCall → Prop).

Definition traced {A} (m : Op D A) : Prop :=
  ∀ s, ∃ δ, adapter_calls (m s).2 = adapter_calls s ++ δ ∧ Forall P δ.

Lemma traced_bind {A B} (m : Op D A) (k : A → Op D B) :
  traced m → (∀ a, traced (k a)) → traced (op_bind m k).
Proof.
  intros Hm Hk s. destruct (Hm s) as (δ & Hδ & HP). unfold op_bind.
  destruct (m s) as [[a|e] s']; simpl in *; [|by exists δ].
  destruct (Hk a s') as (δ' & Hδ' & HP'). exists (δ ++ δ').
  rewrite Hδ', Hδ, app_assoc. split; [done|]. by apply Forall_app.
Qed.

Lemma traced_ret {A} (a : A) : traced (op_ret a).
Proof. intros s. exists []. by rewrite app_nil_r. Qed.
Lemma traced_lift {A} (r : result A StorageError) : traced (op_lift r).
Proof. intros s. exists []. by rewrite app_nil_r. Qed.
Lemma traced_audit e : traced (emit_audit e).
Proof. intros s. exists []. by rewrite app_nil_r. Qed.
Lemma traced_ok {A} (m : Op D A) : traced m → traced (op_ok m).
Proof. intros Hm s. destruct (Hm s) as (δ & ? & ?). exists δ. unfold op_ok. by destruct (m s). Qed.

Lemma traced_call {A} ms name label (c : call D A) : P label → traced (with_timeout ms name label c).
Proof.
  intros HP s. exists [label]. unfold with_timeout.
  destruct (c (adapter_world s)) as [[r t] w]. case_match; simpl; split; auto.
Qed.

(** A successful pure check can be assumed by what follows it. *)
Lemma traced_lift_bind {A B} (r : result A StorageError) (k : A → Op D B) :
  (∀ a, r = Ok a → traced (k a)) → traced (op_bind (op_lift r) k).
Proof.
  intros Hk s. unfold op_bind, op_lift. destruct r as [a|e]; [by apply (Hk a)|].
  exists []. simpl. by rewrite app_nil_r.
Qed.
End Traced.

Hint Resolve traced_ret traced_lift traced_audit traced_ok : engine.

(** The collections a plugin may touch: its own, under its id, and those it
    declared; the extension data it may write: its own. *)
Definition own_or_declared (plugin_id : string) (shared : list CollectionAccess) (c : string) : Prop :=
  (∃ name, c = plugin_id +:+ "." +:+ name) ∨ c ∈ ca_collection <$> shared.

Definition own_extensions (plugin_id : string) (doc : json) : Prop :=
  ∀ ext ns, json_get doc "ext" = Some (JObj ext) → ns ∈ obj_keys ext → ns = plugin_id.

Definition within (plugin_id : string) (shared : list CollectionAccess) (c : AdapterCall) : Prop :=
  match c with
  | CallGet coll _ | CallDelete coll _ | CallQuery coll | CallCount coll | CallWatch coll =>
      own_or_declared plugin_id shared coll
  | CallCreate coll doc | CallUpdate coll _ doc | CallPartialUpdate coll _ doc =>
      own_or_declared plugin_id shared coll ∧ own_extensions plugin_id doc
  | CallBlob _ _ => True
  end.

Lemma resolve_own plugin_id caps shared cap c scoped resolved :
  authorize (PluginCaller plugin_id caps shared) cap c scoped = Ok resolved →
  own_or_declared plugin_id shared resolved.
Proof.
  unfold authorize, own_or_declared. simpl. destruct (contains caps cap); simpl; [|done].
  destruct scoped; [intros [= <-]; left; by exists c|].
  destruct (existsb _ shared) eqn:E; simpl; [|done]. intros [= <-]. right.
  apply existsb_elem_of in E as (ca & Hin & Hc). bool_to_prop. apply list_elem_of_fmap. by exists ca.
Qed.

Lemma check_extension_namespace_Ok plugin_id caps shared doc :
  check_extension_namespace (PluginCaller plugin_id caps shared) doc = Ok tt →
  own_extensions plugin_id doc.
Proof.
  unfold check_extension_namespace, own_extensions. intros Hf ext ns Hext Hin.
  rewrite Hext in Hf. simpl in Hf. rewrite for_each_Ok, Forall_forall in Hf.
  specialize (Hf ns Hin). simpl in Hf. case_bool_decide as Hb; [done|].
  destruct (decide (ns = plugin_id)); tauto.
Qed.

(** System fields and encryption leave the extension data alone. *)
Lemma inject_create_ext id now doc : json_get (inject_system_fields_create id now doc) "ext" = json_get doc "ext".
Proof.
  destruct doc; try done. simpl. unfold json_get. simpl. rewrite !obj_get_insert_ne by done.
  case_match; [done|]. by rewrite obj_get_insert_ne.
Qed.

Lemma inject_update_ext now doc : json_get (inject_system_fields_update now doc) "ext" = json_get doc "ext".
Proof. destruct doc; try done. unfold json_get. simpl. by rewrite obj_get_insert_ne. Qed.

Lemma seal_ext inp resolved doc doc' :
  seal master_key inp resolved doc = Ok doc' → json_get doc' "ext" = json_get doc "ext".
Proof.
  unfold seal, encrypt_credential_claims. destruct (is_credentials_collection resolved); [|by intros [= <-]].
  destruct master_key as [key|]; [|by intros [= <-]].
  destruct doc as [| | | | |obj]; try (by intros [= <-]).
  case_bool_decide; [by intros [= <-]|]. destruct (obj_get "claims" obj); [|by intros [= <-]].
  intros Hs. inv_ok. subst. unfold json_get. simpl. by rewrite !obj_get_insert_ne.
Qed.

Lemma traced_validate P inp caller c doc b existing :
  traced P existing → traced P (validate_plugin_write registry inp caller c doc b existing).
Proof.
  intros He. unfold validate_plugin_write. destruct caller; auto with engine.
  destruct (get_collection _ _ _); auto with engine.
  apply traced_bind; [done|]. intros old. apply traced_bind; auto with engine.
Qed.

Lemma request_confined plugin_id caps shared r :
  traced (within plugin_id shared) (perform (PluginCaller plugin_id caps shared) r).
Proof.
  set (caller := PluginCaller plugin_id caps shared).
  destruct r; unfold perform, void;
    (apply traced_bind; [|auto with engine]);
    unfold doc_get, doc_query, doc_count, doc_create, doc_update, doc_delete,
      blob_retrieve, blob_exists, blob_list, blob_metadata, blob_store, blob_delete;
    apply traced_lift_bind; intros resolved Hres;
    try (apply resolve_own in Hres);
    try (by apply traced_call).
  - apply traced_bind; [by apply traced_call|]. intros doc. case_match; auto with engine.
  - apply traced_bind; [by apply traced_call|]. intros d. case_match; auto with engine.
    apply traced_bind; auto with engine.
  - apply traced_lift_bind. intros [] Hext. apply check_extension_namespace_Ok in Hext.
    apply traced_bind; [apply traced_validate; auto with engine|intros []].
    apply traced_lift_bind. intros doc2 Hseal. apply traced_bind; [apply traced_call|].
    + split; [done|]. intros ext ns. rewrite (seal_ext _ _ _ _ Hseal), inject_create_ext. apply Hext.
    + intros r. apply traced_bind; unfold doc_audit; auto with engine.
  - apply traced_lift_bind. intros [] Hext. apply check_extension_namespace_Ok in Hext.
    apply traced_bind; [apply traced_validate, traced_ok; by apply traced_call|intros []].
    apply traced_lift_bind. intros doc2 Hseal. apply traced_bind; [apply traced_call|].
    + split; [done|]. intros ext ns. rewrite (seal_ext _ _ _ _ Hseal), inject_update_ext. apply Hext.
    + intros r. apply traced_bind; unfold doc_audit; auto with engine.
  - apply traced_bind; [by apply traced_call|]. unfold doc_audit. auto with engine.
  - apply traced_bind; [by apply traced_call|]. intros m. apply traced_bind; unfold blob_audit; auto with engine.
  - apply traced_bind; [by apply traced_call|]. unfold blob_audit. auto with engine.
Qed.

Lemma watch_confined plugin_id caps shared c scoped accepts :
  traced (within plugin_id shared)
    (doc_watch timeouts (PluginCaller plugin_id caps shared) c scoped accepts).
Proof.
  unfold doc_watch. apply traced_lift_bind. intros resolved Hres%resolve_own.
  apply traced_bind; [by apply traced_call|]. intros events s. exists []. by rewrite app_nil_r.
Qed.

(** C2. Confinement. Whatever a plugin asks of the storage context, a request or a watch,
    every document call that reaches an adapter is on a collection under the plugin's own id
    or on one it declared as shared, and every document it writes carries extension data only
    under its own id. *)
Theorem plugin_calls_confined plugin_id caps shared (s : Store D) :
  let caller := PluginCaller plugin_id caps shared in
  (∀ r, ∃ δ, adapter_calls (perform caller r s).2 = adapter_calls s ++ δ ∧
     Forall (within plugin_id shared) δ) ∧
  (∀ c scoped accepts, ∃ δ, adapter_calls (doc_watch timeouts caller c scoped accepts s).2 = adapter_calls s ++ δ ∧
     Forall (within plugin_id shared) δ).
Proof. cbn zeta. split; intros; [apply request_confined|apply watch_confined]. Qed.

(** ** Auditing *)

Definition quiet {A} (m : Op D A) : Prop := ∀ s, audit_events (m s).2 = audit_events s.

Definition audited {A} (m : Op D A) (es : list AuditEvent) : Prop :=
  ∀ s, audit_events (m s).2 =
    audit_events s ++ match (m s).1 with Ok _ => es | Err _ => [] end.

Lemma quiet_audited {A} (m : Op D A) : quiet m → audited m [].
Proof. intros Hm s. rewrite Hm. case_match; by rewrite app_nil_r. Qed.

Lemma audited_bind {A B} (m : Op D A) (k : A → Op D B) es :
  quiet m → (∀ a, audited (k a) es) → audited (op_bind m k) es.
Proof.
  intros Hm Hk s. specialize (Hm s). unfold op_bind.
  destruct (m s) as [[a|e] s']; simpl in *; [by rewrite Hk, Hm|by rewrite Hm, app_nil_r].
Qed.

Lemma audited_then_ret {A B} (m : Op D A) (f : A → B) es :
  audited m es → audited (op_bind m (λ a, op_ret (f a))) es.
Proof. intros Hm s. specialize (Hm s). unfold op_bind. by destruct (m s) as [[a|e] s']. Qed.

Lemma audited_emit e : audited (emit_audit e) [e].
Proof. done. Qed.

Lemma audited_lift_bind {A B} (r : result A StorageError) (k : A → Op D B) es :
  (∀ a, r = Ok a → audited (k a) es) → audited (op_bind (op_lift r) k) es.
Proof.
  intros Hk s. unfold op_bind, op_lift. destruct r as [a|e]; [by apply (Hk a)|].
  simpl. by rewrite app_nil_r.
Qed.

Lemma quiet_ret {A} (a : A) : quiet (op_ret a).
Proof. done. Qed.
Lemma quiet_lift {A} (r : result A StorageError) : quiet (op_lift r).
Proof. done. Qed.
Lemma quiet_call {A} ms name label (c : call D A) : quiet (with_timeout ms name label c).
Proof. intros s. unfold with_timeout. destruct (c _) as [[r t] w]. by case_match. Qed.
Lemma quiet_bind {A B} (m : Op D A) (k : A → Op D B) :
  quiet m → (∀ a, quiet (k a)) → quiet (op_bind m k).
Proof.
  intros Hm Hk s. specialize (Hm s). unfold op_bind.
  destruct (m s) as [[a|e] s']; simpl in *; [by rewrite Hk|done].
Qed.
Lemma quiet_ok {A} (m : Op D A) : quiet m → quiet (op_ok m).
Proof. intros Hm s. specialize (Hm s). unfold op_ok. by destruct (m s). Qed.

Lemma quiet_validate inp caller c doc b existing :
  quiet existing → quiet (validate_plugin_write registry inp caller c doc b existing).
Proof.
  intros He. unfold validate_plugin_write. destruct caller; [|done].
  destruct (get_collection _ _ _); [|done].
  apply quiet_bind; [done|]. intros old. by apply quiet_bind.
Qed.

(** The audit events of a successful request. *)
Definition resolved_name (caller : CallerIdentity) (cap : StorageCapability) (c : string)
    (scoped : bool) : string := default empty_str (result_ok (authorize caller cap c scoped)).

Definition doc_event (caller : CallerIdentity) (kind c id : string) : AuditEvent :=
  mkAudit kind (origin caller) (mk_obj [("collection", JStr c); ("id", JStr id)]).

Definition audit_of (caller : CallerIdentity) (r : Request) : list AuditEvent :=
  match r with
  | RCreate inp c doc sc =>
      [doc_event caller "system.storage.created" (resolved_name caller DocWrite c sc)
         (default empty_str
            (json_get (inject_system_fields_create (in_uuid inp) (in_now inp) doc) "id" ≫= as_str))]
  | RUpdate _ c id _ sc =>
      [doc_event caller "system.storage.updated" (resolved_name caller DocWrite c sc) id]
  | RDelete c id sc =>
      [doc_event caller "system.storage.deleted" (resolved_name caller DocDelete c sc) id]
  | RBlobStore k _ => [mkAudit "system.blob.stored" (origin caller) (mk_obj [("key", JStr k)])]
  | RBlobDelete k => [mkAudit "system.blob.deleted" (origin caller) (mk_obj [("key", JStr k)])]
  | _ => []
  end.

(** C7. Auditing is exact: a successful create, update, delete, blob store or blob
    delete sends exactly one audit event, naming its kind, the caller and what was
    touched; a read, and any request that fails, sends none. *)
Theorem audit_exact caller r (s : Store D) :
  audit_events (perform caller r s).2 =
  audit_events s ++ match (perform caller r s).1 with Ok _ => audit_of caller r | Err _ => [] end.
Proof.
  revert s. change (audited (perform caller r) (audit_of caller r)).
  destruct r; unfold perform, void, audit_of; apply (audited_then_ret _ (λ _, tt));
    unfold doc_get, doc_query, doc_count, doc_create, doc_update, doc_delete,
      blob_retrieve, blob_exists, blob_list, blob_metadata, blob_store, blob_delete;
    apply audited_lift_bind; intros resolved Hres; unfold resolved_name; rewrite ?Hres;
    try (apply quiet_audited, quiet_call).
  - apply quiet_audited, quiet_bind; [apply quiet_call|]. intros doc. by case_match.
  - apply quiet_audited, quiet_bind; [apply quiet_call|]. intros l. case_match; [|done]. by apply quiet_bind.
  - apply audited_bind; [done|intros []].
    apply audited_bind; [by apply quiet_validate|intros []].
    apply audited_bind; [done|intros doc2]. apply audited_bind; [apply quiet_call|intros x].
    apply (audited_then_ret _ (λ _, x)), audited_emit.
  - apply audited_bind; [done|intros []].
    apply audited_bind; [apply quiet_validate, quiet_ok, quiet_call|intros []].
    apply audited_bind; [done|intros doc2]. apply audited_bind; [apply quiet_call|intros x].
    apply (audited_then_ret _ (λ _, x)), audited_emit.
  - apply audited_bind; [apply quiet_call|intros []]. apply audited_emit.
  - apply audited_bind; [apply quiet_call|intros x]. apply (audited_then_ret _ (λ _, x)), audited_emit.
  - apply audited_bind; [apply quiet_call|intros []]. apply audited_emit.
Qed.
End Facts.

(** ** Isolation *)

(** Two plugins with different valid ids never share a plugin-scoped
    collection, and one plugin's scoped collections have distinct names: the
    resolved name determines plugin and collection. *)
Theorem scoped_collections_disjoint id1 id2 caps1 caps2 sh1 sh2 c1 c2 r :
  is_valid_plugin_id id1 = true → is_valid_plugin_id id2 = true →
  resolve_collection (PluginCaller id1 caps1 sh1) c1 true = Ok r →
  resolve_collection (PluginCaller id2 caps2 sh2) c2 true = Ok r →
  id1 = id2 ∧ c1 = c2.
Proof.
  simpl. intros H1%valid_id_no_dot H2%valid_id_no_dot [= Hr1] [= Hr2].
  apply (sep_app_inj "."%char id1 id2); [done|done|]. congruence.
Qed.

Lemma scoped_collections_disjoint_witness : "mail" = "mail" ∧ "inbox" = "inbox".
Proof.
  apply (scoped_collections_disjoint "mail" "mail" [] [DocRead] [] [] "inbox" "inbox" "mail.inbox");
    reflexivity.
Defined.

(** ** Credentials *)

Section CredentialFacts.
Context `{CryptoLaws}.

Lemma obj_remove_absent k o : obj_sorted o → obj_get k o = None → obj_remove k o = o.
Proof.
  intros Hs Hk. apply obj_equiv_eq; [by apply obj_remove_sorted|done|]. by apply obj_remove_id.
Qed.

Lemma credential_encrypt_decrypt key nonce obj claims id stored :
  length nonce = NONCE_SIZE → obj_sorted obj →
  obj_get "claims" obj = Some claims → obj_get "id" obj = Some (JStr id) →
  obj_get "encrypted" obj ≫= as_bool ≠ Some true →
  (∀ b, json_to_vec claims = Ok b → json_from_slice b = Ok claims) →
  encrypt_credential_claims (Some key) nonce (JObj obj) = Ok stored →
  (∃ text, encrypt_claims nonce key id claims = Ok text ∧
     json_get stored "claims" = Some (JStr text) ∧
     json_get stored "encrypted" = Some (JBool true) ∧
     (∀ k, k ≠ "claims" → k ≠ "encrypted" → json_get stored k = obj_get k obj)) ∧
  decrypt_credential_claims (Some key) stored = Ok (JObj (obj_remove "encrypted" obj)).
Proof.
  intros Hn Hso Hc Hi He Hser. unfold encrypt_credential_claims. rewrite bool_decide_eq_false_2 by done.
  rewrite Hc, Hi. simpl. destruct (encrypt_claims nonce key id claims) as [text|] eqn:Et; simpl; [|done].
  intros [= <-]. split.
  - exists text. split; [done|]. unfold json_get. simpl. split_and!.
    + by rewrite obj_get_insert_ne, obj_get_insert_eq.
    + by rewrite obj_get_insert_eq.
    + intros k Hk Hk'. by rewrite !obj_get_insert_ne.
  - unfold decrypt_credential_claims. rewrite obj_get_insert_eq. simpl.
    rewrite obj_get_insert_ne, obj_get_insert_eq by done. simpl.
    rewrite !obj_get_insert_ne, Hi by done. simpl.
    rewrite (decrypt_encrypt_claims _ _ _ _ _ Hn Hser Et). simpl. f_equal. f_equal.
    apply obj_equiv_eq; [by repeat first [apply obj_remove_sorted|apply obj_insert_sorted]..|].
    intros k. rewrite !obj_get_remove. case_decide as Hk; [by subst|].
    rewrite !obj_get_insert. repeat case_decide; subst; done.
Qed.

End CredentialFacts.

(** ** Concrete stores *)

(** An adapter over a table of documents, and no blobs. *)
#[export] Instance table_adapters : Adapters (gmap (string * string) json) := {|
  adapter_get c i w := (ok_or (w !! (c, i)) (NotFound c i), 1%Z, w);
  adapter_create c d w :=
    (Ok d, 1%Z, <[(c, default "unknown" (json_get d "id" ≫= as_str)) := d]> w);
  adapter_update c i d w := (Ok d, 1%Z, <[(c, i) := d]> w);
  adapter_partial_update c i d w := (Ok d, 1%Z, w);
  adapter_delete c i w := (Ok tt, 1%Z, delete (c, i) w);
  adapter_query q w := (Ok (mkDocumentList [] 0 None), 1%Z, w);
  adapter_count c f w := (Ok 0%Z, 1%Z, w);
  adapter_watch c w := (Ok [], 1%Z, w);
  blob_adapter_store k i w := (Err (UnsupportedOperation "blob"), 1%Z, w);
  blob_adapter_retrieve k w := (Err (NotFound "blob" k), 1%Z, w);
  blob_adapter_delete k w := (Ok tt, 1%Z, w);
  blob_adapter_exists k w := (Ok false, 1%Z, w);
  blob_adapter_copy a b w := (Err (UnsupportedOperation "blob"), 1%Z, w);
  blob_adapter_list p w := (Ok [], 1%Z, w);
  blob_adapter_metadata k w := (Err (NotFound "blob" k), 1%Z, w);
|}.

Definition empty_store : Store (gmap (string * string) json) := mkStore ∅ [] [].
Definition demo_nonce : bytes := replicate 12 "000"%byte.
Definition demo_key : bytes := replicate 32 "001"%byte.
Definition demo_inputs : Inputs := mkInputs "i1" "now" demo_nonce "i2" "i3" "ts".

Lemma unauthorized_no_effect_witness :
  ∃ m, perform default_timeouts new_registry None
         (PluginCaller "p" [DocRead] [mkAccess "tasks" "read-write"])
         (RDelete "tasks" "1" false) empty_store
       = (Err (PermissionDenied m), empty_store).
Proof.
  apply (unauthorized_no_effect default_timeouts new_registry None). simpl.
  apply (bool_decide_unpack (DocDelete ∉ [DocRead])). reflexivity.
Defined.

Definition credential_object : object :=
  match mk_obj [("claims", JStr "secret"); ("id", JStr "c1")] with JObj o => o | _ => [] end.

(** An object with an id, claims and a marker that says they are not encrypted. *)
Definition unmarked_object : object :=
  match mk_obj [("claims", JStr "secret"); ("encrypted", JBool false); ("id", JStr "c1")] with JObj o => o | _ => [] end.


(** A caller can keep its claims unencrypted at rest: a credential sent with
    the encrypted marker already set is stored exactly as sent, plaintext claims
    included, and can then not be read back. *)
Theorem marked_credential_stored_plain :
  let doc := mk_obj [("id", JStr "c1"); ("encrypted", JBool true); ("claims", mk_obj [("pw", JStr "x")])] in
  let '(r, s) := doc_create default_timeouts new_registry (Some demo_key) demo_inputs
                   SystemCaller "credentials" doc false empty_store in
  is_ok r = true ∧
  json_get (default JNull (adapter_world s !! ("credentials", "c1"))) "claims"
    = Some (mk_obj [("pw", JStr "x")]) ∧
  is_ok (doc_get default_timeouts (Some demo_key) SystemCaller "credentials" "c1" false s).1 = false.
Proof. vm_compute. done. Qed.

(** The declared access level of a shared collection is not enforced: a plugin
    that declared read access to a collection writes to it. *)
Theorem read_access_can_write :
  let caller := PluginCaller "p" [DocWrite] [mkAccess "tasks" "read"] in
  let '(r, s) := doc_create default_timeouts new_registry None demo_inputs caller "tasks"
                   (mk_obj [("id", JStr "t1")]) false empty_store in
  is_ok r = true ∧ is_Some (adapter_world s !! ("tasks", "t1")).
Proof. vm_compute. split; [done|by eexists]. Qed.
