(* ===== verification/SystemSteps.v ===== *)
(** * Built-in storage steps

    packages/workflow-engine/src/system_steps.rs: the [system.crud] plugin, which
    runs storage operations as the system caller, and the composite executor that
    routes to it. The composite is an instance of the executor's [PluginExecutor]
    interface, so the executor's theorems apply to workflows over the storage
    context. *)

From Stdlib Require Import Strings.Byte.
From stdpp Require Import base tactics list strings gmap.
From Stdlib Require Import Ascii ZArith Lia.
From S2P Require Import Prelude RustString Json Types Executor ExecutorFacts Crypto Schema Storage StorageContext StorageContextFacts.

Definition SYSTEM_CRUD_PLUGIN_ID : string := "system.crud".

(** [SystemStepError], displayed as code and message. *)
Definition system_error (message code : string) : EngineError :=
  mkEngineError code Fatal "system-crud" (code +:+ ": " +:+ message).

Definition extract_param (payload : json) (key : string) : option string :=
  match (p ← json_get payload "params"; v ← json_get p key; as_str v) with
  | Some s => Some s
  | None => json_get payload key ≫= as_str
  end.

Definition value_to_payload `{JsonLib} (value : json) : result TypedPayload EngineError :=
  let? v := result_map_err (λ e, system_error e "PAYLOAD_VALIDATION")
    (schema_validated_new value object_schema) in
  Ok (Custom v).

(** The query of the [list] action. *)
Definition list_query (collection : string) (payload : json) : QueryDescriptor :=
  mkQuery collection None []
    (mkPagination (default 100%Z (extract_param payload "limit" ≫= parse_u64))
       (extract_param payload "cursor")) None None.

Definition json_option (o : option string) : json :=
  match o with
  | Some s => JStr s
  | None => JNull
  end.

Section Crud.
Context {D : Type} `{Adapters D} `{CryptoLib} `{SchemaLib} `{JsonLib}.
Context (timeouts : TimeoutConfig) (registry : SchemaRegistry) (master_key : option bytes).

(** A step's computation: a result and the store after. *)
Definition Step (A : Type) : Type := Store D → result A EngineError * Store D.

Definition step_bind {A B} (m : Step A) (k : A → Step B) : Step B := λ s,
  match m s with
  | (Ok a, s') => k a s'
  | (Err e, s') => (Err e, s')
  end.

Definition step_ret {A} (a : A) : Step A := λ s, (Ok a, s).

Definition param (payload : json) (key : string) : Step string := λ s,
  (ok_or (extract_param payload key)
     (system_error ("missing '" +:+ key +:+ "' parameter") "MISSING_PARAM"), s).

Definition storage {A} (m : Op D A) : Step A := λ s,
  let '(r, s') := m s in
  (result_map_err (λ e, system_error (storage_error_display e) "STORAGE_ERROR") r, s').

(** The document body: under [body] if the transport placed it there. *)
Definition request_body (payload : json) : json := default payload (json_get payload "body").

Definition crud_list (payload : json) : Step json :=
  step_bind (param payload "collection") (λ collection,
  step_bind (storage (doc_query timeouts master_key SystemCaller
                        (list_query collection payload) false)) (λ r,
  step_ret (mk_obj [("documents", JArr (documents r));
                    ("total_count", JNum (NInt (total_count r)));
                    ("next_cursor", json_option (next_cursor r))]))).

Definition crud_get (payload : json) : Step json :=
  step_bind (param payload "collection") (λ collection,
  step_bind (param payload "id") (λ id,
  storage (doc_get timeouts master_key SystemCaller collection id false))).

Definition crud_create (inp : Inputs) (payload : json) : Step json :=
  step_bind (param payload "collection") (λ collection,
  step_bind (storage (doc_create timeouts registry master_key inp SystemCaller collection
                        (request_body payload) false)) (λ r,
  step_ret (mk_obj [("created", JBool true); ("document", r)]))).

Definition crud_update (inp : Inputs) (payload : json) : Step json :=
  step_bind (param payload "collection") (λ collection,
  step_bind (param payload "id") (λ id,
  storage (doc_update timeouts registry master_key inp SystemCaller collection id
             (request_body payload) false))).

Definition crud_delete (payload : json) : Step json :=
  step_bind (param payload "collection") (λ collection,
  step_bind (param payload "id") (λ id,
  step_bind (storage (doc_delete timeouts SystemCaller collection id false)) (λ _,
  step_ret (mk_obj [("deleted", JBool true)])))).

Definition crud_health : Step json := λ s,
  let '(r, s') := doc_count timeouts SystemCaller "__health_check" None false s in
  let ok := is_ok r in
  (Ok (mk_obj [("status", JStr (if ok then "healthy" else "degraded"));
               ("storage", JStr (if ok then "ok" else "unreachable"))]), s').

Definition crud_action (inp : Inputs) (action : string) (payload : json) : Step json :=
  if bool_decide (action = "list") then crud_list payload
  else if bool_decide (action = "get") then crud_get payload
  else if bool_decide (action = "create") then crud_create inp payload
  else if bool_decide (action = "update") then crud_update inp payload
  else if bool_decide (action = "delete") then crud_delete payload
  else if bool_decide (action = "graphql_resolve") then step_ret payload
  else if bool_decide (action = "health_check") then crud_health
  else λ s, (Err (system_error ("unknown system.crud action: '" +:+ action +:+ "'")
                    "UNKNOWN_ACTION"), s).

(** [SystemCrudHandler::execute]. *)
Definition crud_execute (inp : Inputs) (action : string) (input : PipelineMessage)
    : Step PipelineMessage :=
  step_bind (crud_action inp action (payload_inner (payload input))) (λ v, λ s,
    (let? p := value_to_payload v in Ok (mkMessage (metadata input) p), s)).
End Crud.

(** ** The composite executor *)

Section Composite.
Context {D P : Type} `{Adapters D} `{CryptoLib} `{SchemaLib} `{JsonLib} `{PluginExecutor P}.
Context (timeouts : TimeoutConfig) (registry : SchemaRegistry) (master_key : option bytes).

(** The store, the other plugins' world, and the inputs still to be drawn. *)
Record CompositeWorld : Type := mkComposite {
  cw_store : Store D;
  cw_plugins : P;
  cw_inputs : nat → Inputs;
}.

Definition composite_execute (plugin action : string) (input : PipelineMessage)
    (w : CompositeWorld) : result PipelineMessage EngineError * CompositeWorld :=
  if bool_decide (plugin = SYSTEM_CRUD_PLUGIN_ID) then
    let '(r, s) := crud_execute timeouts registry master_key (cw_inputs w 0) action input
                     (cw_store w) in
    (r, mkComposite s (cw_plugins w) (λ n, cw_inputs w (S n)))
  else
    let '(r, p) := plugin_execute plugin action input (cw_plugins w) in
    (r, mkComposite (cw_store w) p (cw_inputs w)).

#[export] Instance composite_executor : PluginExecutor CompositeWorld := {|
  plugin_execute := composite_execute;
  clock_now w :=
    let '(t, p) := clock_now (cw_plugins w) in (t, mkComposite (cw_store w) p (cw_inputs w));
  clock_sleep k w := mkComposite (cw_store w) (clock_sleep k (cw_plugins w)) (cw_inputs w);
|}.
End Composite.
Arguments CompositeWorld D P : clear implicits.

(** ** Facts *)

Section CrudFacts.
Context {D : Type} `{Adapters D} `{CryptoLib} `{SchemaLib} `{JsonLib}.
Context (timeouts : TimeoutConfig) (registry : SchemaRegistry) (master_key : option bytes).

(** A step fails only with a fatal system-crud error. *)
Definition fails_fatal {A} (m : Step A) : Prop :=
  ∀ s : Store D, match (m s).1 with
       | Ok _ => True
       | Err e => err_severity e = Fatal ∧ err_source_module e = "system-crud"
       end.

Lemma fails_fatal_bind {A B} (m : Step A) (k : A → Step B) :
  fails_fatal m → (∀ a, fails_fatal (k a)) → fails_fatal (step_bind m k).
Proof.
  intros Hm Hk s. specialize (Hm s). unfold step_bind.
  destruct (m s) as [[a|e] s']; [apply Hk|done].
Qed.

Lemma fails_fatal_param p k : fails_fatal (param p k).
Proof. intros s. unfold param. by destruct (extract_param p k). Qed.

Lemma fails_fatal_storage {A} (m : Op D A) : fails_fatal (storage m).
Proof. intros s. unfold storage. by destruct (m s) as [[|] ?]. Qed.

Lemma fails_fatal_ret {A} (a : A) : fails_fatal (step_ret a).
Proof. done. Qed.

Hint Resolve fails_fatal_param fails_fatal_storage fails_fatal_ret fails_fatal_bind : engine.

Lemma crud_execute_fatal inp action input :
  fails_fatal (crud_execute timeouts registry master_key inp action input).
Proof.
  unfold crud_execute. apply fails_fatal_bind.
  - unfold crud_action, crud_list, crud_get, crud_create, crud_update, crud_delete.
    repeat case_bool_decide; auto 8 with engine.
    + intros s. unfold crud_health. by destruct (doc_count _ _ _ _ _ s).
    + done.
  - intros v s. unfold value_to_payload.
    by destruct (schema_validated_new v object_schema).
Qed.

(** A failing storage step always stops the workflow, whatever its error
    strategy: every error of the built-in handler is fatal, so that even a transient
    storage failure (a timeout, say) is neither retried nor skipped. *)
Theorem storage_step_failure_halts {P} `{PluginExecutor P} overflow_checks v step rest index msg
    (s : ExecState (CompositeWorld D P)) e :
  step_condition step = None → step_plugin step = SYSTEM_CRUD_PLUGIN_ID →
  @plugin_answer _ (composite_executor timeouts registry master_key) step msg s = Err e →
  summary_ok msg →
  ∃ s', @execute_steps _ (composite_executor timeouts registry master_key) _ overflow_checks v
          (step :: rest) index msg s =
      (Throw (StepHalted index (step_plugin step) (step_action step) (err_display e)), s') ∧
    one_call step msg s s' [StepFailed].
Proof.
  intros Hc Hp Ha Hs. apply (halt_on_fatal _ v step rest index msg s e); try done.
  unfold plugin_answer in Ha. simpl in Ha. unfold composite_execute in Ha.
  rewrite bool_decide_eq_true_2 in Ha by done.
  destruct (clock_now (cw_plugins (world s))) as [t p]. simpl in Ha.
  pose proof (crud_execute_fatal (cw_inputs (world s) 0) (step_action step) msg (cw_store (world s))) as Hf.
  destruct (crud_execute _ _ _ _ _ _ _) as [r st]. simpl in *. subst. by destruct Hf.
Qed.
End CrudFacts.

(** ** Create, then read *)

(** Adapters that keep documents: what was created is what a read that succeeds
    returns, its two timestamps set by the adapter. *)
Class KeepingAdapter (D : Type) `{Adapters D} `{JsonText} : Prop := {
  create_then_get c o i t1 t2 w d' t w' :
    json_printable (JObj o) → obj_get "id" o = Some (JStr i) →
    obj_get "created_at" o = Some (JStr t1) → obj_get "updated_at" o = Some (JStr t2) →
    adapter_create c (JObj o) w = (Ok d', t, w') →
    (∃ created updated, d' = JObj (obj_insert "updated_at" (JStr updated)
                                     (obj_insert "created_at" (JStr created) o))) ∧
    ∀ doc t' w'', adapter_get c i w' = (Ok doc, t', w'') → doc = d';
}.

Section RoundTrip.
Context {D : Type} `{KeepingAdapter D} `{CryptoLaws} `{SchemaLib}.
Context (timeouts : TimeoutConfig) (registry : SchemaRegistry) (master_key : option bytes).

Lemma inject_create_id new_id now obj i :
  obj_get "id" obj = Some (JStr i) →
  inject_system_fields_create new_id now (JObj obj) =
  JObj (obj_insert "updated_at" (JStr now) (obj_insert "created_at" (JStr now) obj)).
Proof.
  intros Hi. simpl. by rewrite (proj2 (obj_contains_key_true "id" obj)) by (by eexists).
Qed.

(** A document that a credential collection can take: not marked already, its claims
    readable after they were written. Other collections take any document. *)
Definition credential_ok (resolved : string) (obj : object) : Prop :=
  is_credentials_collection resolved = true →
  obj_get "encrypted" obj = None ∧
  ∀ claims b, obj_get "claims" obj = Some claims → json_to_vec claims = Ok b → json_from_slice b = Ok claims.

(** Sealing gives an object with the same id, and opening it the document back. *)
Lemma seal_unseal inp resolved obj i stored :
  length (in_nonce inp) = NONCE_SIZE → json_printable (JObj obj) →
  obj_get "id" obj = Some (JStr i) → credential_ok resolved obj →
  seal master_key inp resolved (JObj obj) = Ok stored →
  ∃ o, stored = JObj o ∧ json_printable (JObj o) ∧
  (∀ k, k ≠ "claims" → k ≠ "encrypted" → obj_get k o = obj_get k obj) ∧
  (if is_credentials_collection resolved then decrypt_credential_claims master_key stored
   else Ok stored) = Ok (JObj obj).
Proof.
  intros Hn Hso Hi Hok. unfold seal. unfold credential_ok in Hok.
  destruct (is_credentials_collection resolved).
  2: { intros [= <-]. by exists obj. }
  destruct (Hok eq_refl) as [He Hser].
  destruct master_key as [key|] eqn:Hk; [|intros [= <-]; by exists obj].
  destruct (obj_get "claims" obj) as [claims|] eqn:Hc.
  - intros Hs. destruct (credential_encrypt_decrypt key (in_nonce inp) obj claims i stored)
      as ((text & Htext & _ & _ & Hother) & Hdec); try done.
    { by eapply within_sorted. }
    { by rewrite He. }
    { intros b. by apply Hser. }
    rewrite obj_remove_absent in Hdec by (done || by eapply within_sorted).
    unfold encrypt_credential_claims in Hs. rewrite He, Hc, Hi in Hs. simpl in Hs. rewrite Htext in Hs.
    simplify_eq/=. eexists. split; [done|]. split; [by repeat apply printable_insert|].
    split; [|done]. intros k ? ?. by rewrite !obj_get_insert_ne.
  - unfold encrypt_credential_claims. rewrite He, Hc. simpl. intros [= <-]. exists obj.
    unfold decrypt_credential_claims. simpl. by rewrite He.
Qed.

(** Opening a document does not look at its other fields. *)
Lemma decrypt_insert k v o plain :
  obj_sorted o → k ≠ "claims" → k ≠ "encrypted" → k ≠ "id" →
  decrypt_credential_claims master_key (JObj o) = Ok (JObj plain) →
  decrypt_credential_claims master_key (JObj (obj_insert k v o)) = Ok (JObj (obj_insert k v plain)).
Proof.
  intros Hs Hc He Hi. unfold decrypt_credential_claims. destruct master_key as [key|]; [|by intros [= <-]].
  rewrite !obj_get_insert_ne by done.
  case_bool_decide; [by intros [= <-]|].
  destruct (obj_get "claims" o ≫= as_str) as [text|]; [|done]. simpl.
  destruct (obj_get "id" o ≫= as_str) as [id|]; [|done]. simpl.
  destruct (decrypt_claims key id text) as [claims|]; [|done]. simpl. intros [= <-]. do 2 f_equal.
  apply obj_equiv_eq; [by repeat (apply obj_remove_sorted || apply obj_insert_sorted)..|].
  intros l. destruct (decide (l = k)) as [->|Hk].
  - by rewrite obj_get_remove_ne, obj_get_insert_ne, !obj_get_insert_eq by done.
  - rewrite (obj_get_insert_ne k l) by done. destruct (decide (l = "encrypted")) as [->|Hl].
    + by rewrite !obj_get_remove_eq.
    + rewrite !obj_get_remove_ne by done. destruct (decide (l = "claims")) as [->|Hl'].
      * by rewrite !obj_get_insert_eq.
      * by rewrite !obj_get_insert_ne by done.
Qed.

Lemma stamp_sorted t1 t2 o :
  obj_sorted o → obj_sorted (obj_insert "updated_at" t2 (obj_insert "created_at" t1 o)).
Proof. intros Hs. by apply obj_insert_sorted, obj_insert_sorted. Qed.

(** Stamping twice is stamping once. *)
Lemma stamp_stamp t1 t2 u1 u2 o :
  obj_sorted o →
  obj_insert "updated_at" u2 (obj_insert "created_at" u1 (obj_insert "updated_at" t2 (obj_insert "created_at" t1 o))) =
  obj_insert "updated_at" u2 (obj_insert "created_at" u1 o).
Proof.
  intros Hs. apply obj_equiv_eq; [by repeat apply stamp_sorted..|]. intros k.
  destruct (decide (k = "updated_at")) as [->|Hu]; [by rewrite !obj_get_insert_eq|].
  rewrite !(obj_get_insert_ne "updated_at" k) by done.
  destruct (decide (k = "created_at")) as [->|Hc]; [by rewrite !obj_get_insert_eq|].
  by rewrite !obj_get_insert_ne by done.
Qed.

(** Validating the write of a new document calls no adapter. *)
Lemma validate_create_quiet inp caller c doc (s s' : Store D) :
  validate_plugin_write registry inp caller c doc true (op_ret None) s = (Ok tt, s') → s' = s.
Proof.
  unfold validate_plugin_write. destruct caller; [|by intros [= <-]].
  destruct (get_collection _ _ _); [|by intros [= <-]]. unfold op_bind, op_ret, op_lift.
  destruct (result_map_err _ _); by intros [= <-].
Qed.

(** Opening what the adapter gives back for a sealed document. *)
Lemma unseal_stamped resolved o obj t1 t2 created updated :
  obj_sorted o → obj_sorted obj →
  (if is_credentials_collection resolved then decrypt_credential_claims master_key (JObj o)
   else Ok (JObj o)) = Ok (JObj (obj_insert "updated_at" t2 (obj_insert "created_at" t1 obj))) →
  (if is_credentials_collection resolved
   then decrypt_credential_claims master_key
          (JObj (obj_insert "updated_at" (JStr updated) (obj_insert "created_at" (JStr created) o)))
   else Ok (JObj (obj_insert "updated_at" (JStr updated) (obj_insert "created_at" (JStr created) o)))) =
  Ok (JObj (obj_insert "updated_at" (JStr updated) (obj_insert "created_at" (JStr created) obj))).
Proof.
  intros Ho Hobj Hun. rewrite <- (stamp_stamp t1 t2 (JStr created) (JStr updated) obj Hobj).
  destruct (is_credentials_collection resolved).
  - by repeat (apply decrypt_insert; [by repeat apply obj_insert_sorted|done..|]).
  - by simplify_eq.
Qed.

(** What is stored is read back: over an adapter that keeps documents, a document with an
    id that a caller creates is returned by a read of its id, by whoever may read the
    collection, with exactly its fields and two timestamps, encrypted at rest or not. *)
Lemma create_then_read inp writer c scoped reader c' scoped' resolved obj i r s s1 doc t w :
  length (in_nonce inp) = NONCE_SIZE → json_printable (JObj obj) →
  obj_get "id" obj = Some (JStr i) → credential_ok resolved obj →
  authorize writer DocWrite c scoped = Ok resolved → authorize reader DocRead c' scoped' = Ok resolved →
  doc_create timeouts registry master_key inp writer c (JObj obj) scoped s = (Ok r, s1) →
  adapter_get resolved i (adapter_world s1) = (Ok doc, t, w) →
  (t ≤ document_read_ms timeouts)%Z →
  ∃ created updated,
    (doc_get timeouts master_key reader c' i scoped' s1).1 =
    Ok (JObj (obj_insert "updated_at" (JStr updated) (obj_insert "created_at" (JStr created) obj))).
Proof.
  intros Hn Hso Hi Hok Hw Hrd Hc Hg Ht. pose proof (within_sorted _ _ Hso) as Hsort.
  unfold doc_create, op_bind, op_lift in Hc. rewrite Hw in Hc.
  destruct (check_extension_namespace writer (JObj obj)) as [[]|]; [|done].
  destruct (validate_plugin_write _ _ _ _ _ _ _ _) as [[[]|] s0] eqn:Hval; [|done].
  apply validate_create_quiet in Hval as ->. rewrite (inject_create_id _ _ _ i Hi) in Hc.
  set (full := obj_insert "updated_at" _ _) in *.
  destruct (seal master_key inp resolved (JObj full)) as [stored|] eqn:Hseal; [|done].
  destruct (seal_unseal inp resolved full i stored) as (o & -> & Hco & Hsame & Hun); try done.
  { by repeat apply printable_insert. }
  { unfold full. by rewrite !obj_get_insert_ne. }
  { intros Hcred. unfold full. rewrite !obj_get_insert_ne by done. by apply Hok. }
  unfold router_doc_create, with_timeout in Hc.
  destruct (adapter_create resolved (JObj o) (adapter_world s)) as [[cr ct] w1] eqn:Hac.
  destruct (ct <=? document_write_ms timeouts)%Z; [|done]. destruct cr as [d'|]; [|done].
  destruct (create_then_get resolved o i (in_now inp) (in_now inp) (adapter_world s) d' ct w1 Hco)
    as ((created & updated & ->) & Hread); [rewrite Hsame by done; unfold full..|exact Hac|].
  { by rewrite !obj_get_insert_ne. }
  { by rewrite obj_get_insert_ne, obj_get_insert_eq. }
  { by rewrite obj_get_insert_eq. }
  unfold doc_audit, emit_audit, op_ret in Hc. simplify_eq/=. exists created, updated.
  pose proof (Hread _ _ _ Hg) as ->.
  pose proof (unseal_stamped resolved o obj _ _ created updated (within_sorted _ _ Hco) Hsort Hun) as Hopen.
  unfold doc_get, op_bind, op_lift. rewrite Hrd. unfold router_doc_get, with_timeout. simpl.
  rewrite Hg, (proj2 (Z.leb_le _ _)) by done.
  by destruct (is_credentials_collection resolved).
Qed.
End RoundTrip.

(** ** Concrete worlds *)

(** An object that has its stamps is what stamping it again gives. *)
Lemma stamped_id o t1 t2 :
  obj_sorted o → obj_get "created_at" o = Some t1 → obj_get "updated_at" o = Some t2 →
  obj_insert "updated_at" t2 (obj_insert "created_at" t1 o) = o.
Proof.
  intros Hs H1 H2. apply obj_equiv_eq; [by apply stamp_sorted|done|]. intros k.
  destruct (decide (k = "updated_at")) as [->|Hu]; [by rewrite obj_get_insert_eq|].
  rewrite obj_get_insert_ne by done.
  destruct (decide (k = "created_at")) as [->|Hc]; [by rewrite obj_get_insert_eq|].
  by rewrite obj_get_insert_ne by done.
Qed.

#[export] Instance table_keeping `{JsonText} : KeepingAdapter (gmap (string * string) json).
Proof.
  split. intros c o i t1 t2 w d' t w' Hs%within_sorted Hi H1 H2.
  simpl. unfold json_get. simpl. rewrite Hi. simpl. intros [= <- <- <-]. split; [exists t1, t2; by rewrite stamped_id|].
  intros doc t' w''. rewrite lookup_insert_eq. by intros [= <- _ _].
Qed.

#[local] Existing Instance type_keyword_lib.

Definition demo_composite : CompositeWorld (gmap (string * string) json) Script :=
  mkComposite empty_store (mkScript [] 0) (λ _, demo_inputs).

Lemma storage_step_failure_halts_witness :
  let step := mkStep "system.crud" "get" (Some (mkStrategy Retry (Some 5%Z) None)) None in
  ∃ s', @execute_steps _ (composite_executor default_timeouts new_registry None) _ true Edges
          [step] 0 (demo_message demo_object) (start demo_composite) =
      (Throw (StepHalted 0 "system.crud" "get" "MISSING_PARAM: missing 'collection' parameter"), s') ∧
    one_call step (demo_message demo_object) (start demo_composite) s' [StepFailed].
Proof.
  apply (storage_step_failure_halts default_timeouts new_registry None true Edges
    (mkStep "system.crud" "get" (Some (mkStrategy Retry (Some 5%Z) None)) None) [] 0
    (demo_message demo_object) (start demo_composite)
    (system_error "missing 'collection' parameter" "MISSING_PARAM")); try reflexivity.
  left. vm_compute. lia.
Defined.

(** A whole workflow over the store: the create step runs through the executor, and
    the document is in the table. *)
Example create_workflow_runs :
  let wf := mkWorkflow "w" "w" None Sync Edges (mkTrigger None None None)
              [mkStep "system.crud" "create" None None] in
  let msg := demo_message (mk_obj [("collection", JStr "notes");
                                   ("body", mk_obj [("id", JStr "n1"); ("title", JStr "t")])]) in
  let '(out, s) := @run_steps _ (composite_executor default_timeouts new_registry None) _ true
                     wf msg (start demo_composite) in
  match out with Ret m => json_get (payload_inner (payload m)) "created" = Some (JBool true) | _ => False end ∧
  json_get (default JNull (adapter_world (cw_store (world s)) !! ("notes", "n1"))) "title" = Some (JStr "t").
Proof. vm_compute. done. Qed.
