(* ===== verification/Engine.v ===== *)
(** * The workflow engine

    packages/workflow-engine/src/lib.rs: the engine that loads the workflows, builds
    the registry and serves endpoint requests with the executor. Scheduler and event
    bus are in EventBus.v. A synchronous request holds its permit while the steps run
    and gives it back, so the permits are as before when it returns. *)

From stdpp Require Import base tactics list strings gmap sorting.
From Stdlib Require Import Ascii ZArith Lia.
From S2P Require Import Prelude RustString Json Types Executor ExecutorFacts Loader LoaderFacts Jobs JobsFacts.

Section Engine.
Context {Schedule : Type} (parse_yaml : string → result (list (string * WorkflowDef)) string)
  (parse_cron : string → result Schedule string).

Record WorkflowEngine : Type := mkEngine {
  eng_registry : TriggerRegistry Schedule;
  eng_executor : Jobs.Executor;
}.

Definition engine_new (path : string) (listing : option (result (list DirEntry) string))
    : result WorkflowEngine WorkflowError :=
  let? workflows := load_workflows parse_yaml path listing in
  let? registry := build parse_cron workflows in
  Ok (mkEngine registry new_executor).

Definition has_endpoint (eng : WorkflowEngine) (method path : string) : bool :=
  bool_decide (is_Some (find_endpoint (eng_registry eng) method path)).

Definition set_executor (eng : WorkflowEngine) (σ : Jobs.Executor) : WorkflowEngine :=
  mkEngine (eng_registry eng) σ.

Context {W : Type} `{PluginExecutor W} `{JsonLib} (overflow_checks : bool).

(** What the caller gets, the plugins' world and logs, and the engine after. [fresh]
    and [now] make the message, [job] and [accepted_at] the job of an asynchronous
    workflow. *)
Definition handle_endpoint (fresh job : uuid) (now accepted_at : timestamp)
    (eng : WorkflowEngine) (method path : string) (body : json) (auth : option json)
    (s : ExecState W) : outcome PipelineMessage * ExecState W * WorkflowEngine :=
  match find_endpoint (eng_registry eng) method path with
  | None =>
      (Throw (InvalidDefinition "" ("no workflow registered for " +:+ method +:+ " " +:+ path)),
       s, eng)
  | Some workflow =>
      match build_initial_message fresh now (EndpointTrigger method path body auth) with
      | Err e => (Throw e, s, eng)
      | Ok msg =>
          match wf_mode workflow with
          | Sync => let '(out, s') := run_steps overflow_checks workflow msg s in (out, s', eng)
          | Async =>
              let out := match async_response job accepted_at workflow msg with
                         | Ok m => Ret m
                         | Err e => Throw e
                         end in
              (out, s,
               set_executor eng (execute_workflow (eng_executor eng) job accepted_at workflow msg))
          end
      end
  end.
End Engine.
Arguments WorkflowEngine Schedule : clear implicits.

Section EngineFacts.
Context {Schedule : Type} (parse_yaml : string → result (list (string * WorkflowDef)) string)
  (parse_cron : string → result Schedule string).
Context {W : Type} `{PluginExecutor W} `{JsonLibLaws} (overflow_checks : bool).

Lemma build_endpoint_message fresh now m p body auth :
  is_object body = true →
  build_initial_message fresh now (EndpointTrigger m p body auth) =
  Ok (mkMessage (mkMetadata fresh ("endpoint:" +:+ m +:+ " " +:+ p) now auth []) (Custom body)).
Proof.
  intros Ho. unfold build_initial_message. simpl.
  by rewrite (proj2 (schema_validated_new_object body body) (conj eq_refl Ho)).
Qed.

Lemma engine_new_Ok path dir eng :
  engine_new parse_yaml parse_cron path (Some (Ok dir)) = Ok eng →
  ∃ ws, load_workflows parse_yaml path (Some (Ok dir)) = Ok ws ∧
    build parse_cron ws = Ok (eng_registry eng) ∧ eng_executor eng = new_executor.
Proof.
  unfold engine_new. intros E. inv_ok. by eexists.
Qed.

(** C5. From the workflow directory to the answer: an engine built from a directory
    serves every endpoint workflow it loaded, provided no other one declares the same
    method, up to case, and path. A request with an object body, the method and the
    path as declared is answered by the workflow's steps, run on a message that
    carries the body and the caller's identity, for a synchronous workflow; and for an
    asynchronous one with its job, in progress, under the id in the answer. *)
Theorem engine_serves_endpoint path dir eng ws w t p fresh job now at_ body auth (s : ExecState W) :
  engine_new parse_yaml parse_cron path (Some (Ok dir)) = Ok eng →
  load_workflows parse_yaml path (Some (Ok dir)) = Ok ws →
  NoDup (omap endpoint_key ws) → w ∈ ws →
  trigger_endpoint (wf_trigger w) = Some (t +:+ " " +:+ p) → ¬ char_in " "%char t →
  is_object body = true →
  let msg := mkMessage (mkMetadata fresh ("endpoint:" +:+ t +:+ " " +:+ p) now auth [])
               (Custom body) in
  has_endpoint eng t p = true ∧
  match wf_mode w, handle_endpoint overflow_checks fresh job now at_ eng t p body auth s with
  | Sync, (out, s', eng') => (out, s') = run_steps overflow_checks w msg s ∧ eng' = eng
  | Async, (out, s', eng') => s' = s ∧
      job_status (eng_executor eng') job = Some InProgress ∧
      job ∈ (alive (eng_executor eng')).*1 ∧
      ∃ m, out = Ret m ∧ json_get (payload_inner (payload m)) "job_id" = Some (JStr job)
  end.
Proof.
  intros Hn Hl Hnd Hw He Ht Ho msg. destruct (engine_new_Ok _ _ _ Hn) as (ws' & Hl' & Hb & _).
  rewrite Hl in Hl'. injection Hl' as <-.
  pose proof (declared_endpoint_routed parse_cron ws _ w t p Hb Hnd Hw He Ht) as Hf.
  unfold has_endpoint, handle_endpoint. rewrite Hf, build_endpoint_message by done. fold msg.
  split; [by apply bool_decide_eq_true; eexists|]. unfold execute_workflow.
  destruct (wf_mode w) eqn:Hm; [by destruct (run_steps _ _ _ _)|].
  split; [done|]. unfold job_status, alive. simpl. rewrite lookup_insert_eq. split; [done|]. split.
  - rewrite <- app_assoc, !omap_app, fmap_app. simpl. set_solver.
  - unfold async_response. rewrite (proj2 (schema_validated_new_object _ _)) by done.
    simpl. by eexists.
Qed.

(** A request for a path no workflow declares, or with a body that is not an
    object, runs nothing: the caller gets an error, no plugin is called, no log is
    written and no job is created. *)
Theorem unroutable_request_runs_nothing eng t p fresh job now at_ body auth (s : ExecState W) :
  has_endpoint eng t p = false ∨ is_object body = false →
  ∃ e, @handle_endpoint Schedule _ _ _ overflow_checks fresh job now at_ eng t p body auth s =
    (Throw e, s, eng).
Proof.
  unfold has_endpoint, handle_endpoint. intros [Hf|Ho].
  - apply bool_decide_eq_false in Hf. destruct (find_endpoint _ _ _); [|by eexists].
    destruct Hf. by eexists.
  - destruct (find_endpoint _ _ _); [|by eexists]. unfold build_initial_message. simpl.
    destruct (schema_validated_new body object_schema) as [v|] eqn:E; simpl; [|by eexists].
    apply schema_validated_new_object in E as [_ ?]. congruence.
Qed.
End EngineFacts.

(** ** A concrete engine *)

#[local] Existing Instance type_keyword_lib.
#[local] Existing Instance type_keyword_laws.

(** A directory whose one file declares one endpoint workflow. *)
Definition demo_yaml (_ : string) : result (list (string * WorkflowDef)) string :=
  Ok [("w1", endpoint_workflow "w1" "POST /x")].
Definition demo_dir : list DirEntry := [mkDirEntry "a.yaml" (Ok "w1: ...")].
Definition demo_engine : WorkflowEngine unit :=
  mkEngine (registry_of [endpoint_workflow "w1" "POST /x"]) new_executor.

Lemma engine_serves_endpoint_witness :
  has_endpoint demo_engine "POST" "/x" = true ∧
  handle_endpoint true "c" "j" 1 2 demo_engine "POST" "/x" demo_object None
    (start (mkScript [Ok (demo_message demo_object)] 0)) =
  (run_steps true (endpoint_workflow "w1" "POST /x")
     (mkMessage (mkMetadata "c" "endpoint:POST /x" 1 None []) (Custom demo_object))
     (start (mkScript [Ok (demo_message demo_object)] 0)), demo_engine).
Proof.
  pose proof (engine_serves_endpoint demo_yaml no_cron true "dir" demo_dir demo_engine
    [endpoint_workflow "w1" "POST /x"] (endpoint_workflow "w1" "POST /x") "POST" "/x" "c" "j" 1 2
    demo_object None (start (mkScript [Ok (demo_message demo_object)] 0))) as Hs.
  destruct Hs as [Hh Hs].
  - vm_compute. reflexivity.
  - vm_compute. reflexivity.
  - apply (bool_decide_unpack (NoDup (omap endpoint_key [endpoint_workflow "w1" "POST /x"]))).
    by vm_compute.
  - left.
  - reflexivity.
  - simpl. intros H. repeat destruct H as [H|H]; discriminate || done.
  - reflexivity.
  - split; [exact Hh|]. simpl wf_mode in Hs. cbv iota in Hs.
    destruct (handle_endpoint _ _ _ _ _ _ _ _ _ _ _) as [[out s'] eng']. destruct Hs as [Hr ->].
    f_equal. exact Hr.
Defined.

Lemma unroutable_request_runs_nothing_witness :
  ∃ e, handle_endpoint true "c" "j" 1 2 demo_engine "GET" "/x" demo_object None
    (start (mkScript [] 0)) = (Throw e, start (mkScript [] 0), demo_engine).
Proof. apply unroutable_request_runs_nothing. left. reflexivity. Defined.
