(* ===== verification/Conflict.v ===== *)
(** * Sync conflicts

    apps/core/src/conflict.rs: detecting that two versions of a record diverged,
    resolving the conflict by last write or by merging fields, and the in-memory
    store of conflicts. Records are those of packages/traits/src/legacy_storage.rs.
    The keys of a [HashSet] are visited in an order the code does not fix: the
    merge takes the order as an argument. *)

From stdpp Require Import base tactics list strings gmap.
From Stdlib Require Import ZArith Lia.
From S2P Require Import Prelude RustString Json Types.

(** [legacy_storage::Record]. *)
Record StoredRecord : Type := mkRecord {
  rec_id : string;
  rec_plugin_id : string;
  rec_collection : string;
  rec_data : json;
  rec_version : Z;
  rec_user_id : option string;
  rec_household_id : option string;
  rec_created_at : timestamp;
  rec_updated_at : timestamp;
}.

Inductive ResolutionStrategy : Type := LastWriteWins | FieldLevelMerge | ManualResolution.

Inductive ConflictResolution : Type :=
| KeepLocal
| KeepRemote
| Merged (data : json)
| RequiresManual.

Record Conflict : Type := mkConflict {
  conflict_id : string;
  conflict_collection : string;
  record_id : string;
  local_version : StoredRecord;
  remote_version : StoredRecord;
  conflict_strategy : ResolutionStrategy;
  resolved : bool;
  resolution : option ConflictResolution;
  detected_at : timestamp;
}.

Definition strategy_for_collection (collection : string) : ResolutionStrategy :=
  if bool_decide (collection = "events") || bool_decide (collection = "contacts")
  then FieldLevelMerge
  else if bool_decide (collection = "notes") then ManualResolution
  else LastWriteWins.

(** The generated id and the clock are arguments. *)
Definition detect_conflict (fresh : string) (now : timestamp) (local remote : StoredRecord)
    (base_version : Z) : option Conflict :=
  if (rec_version local =? rec_version remote)%Z then None
  else if (rec_version local =? base_version)%Z || (rec_version remote =? base_version)%Z
  then None
  else
    let collection := rec_collection local in
    Some (mkConflict fresh collection (rec_id local) local remote
            (strategy_for_collection collection) false None now).

Definition resolve_last_write_wins (c : Conflict) : ConflictResolution :=
  if (rec_updated_at (remote_version c) <? rec_updated_at (local_version c))%Z
  then KeepLocal else KeepRemote.

(** ** Merging fields *)

(** What one iteration does with a key: overlap, or the value to insert. *)
Inductive field_outcome : Type :=
| Overlap
| Keep (v : option json).

Definition merge_field (local_val remote_val base_val : option json) : field_outcome :=
  let local_changed := bool_decide (local_val ≠ base_val) in
  let remote_changed := bool_decide (remote_val ≠ base_val) in
  match local_changed, remote_changed with
  | true, true => if bool_decide (local_val = remote_val) then Keep local_val else Overlap
  | true, false => Keep local_val
  | false, true => Keep remote_val
  | false, false =>
      Keep match base_val with
           | Some v => Some v
           | None => match local_val with Some v => Some v | None => remote_val end
           end
  end.

Definition base_get (base : option object) (k : string) : option json := base ≫= obj_get k.

(** The loop over the keys; [None] is leaving it with [has_overlap_conflict]. *)
Fixpoint merge_keys (local remote : object) (base : option object) (keys : list string)
    (merged : object) : option object :=
  match keys with
  | [] => Some merged
  | k :: keys' =>
      match merge_field (obj_get k local) (obj_get k remote) (base_get base k) with
      | Overlap => None
      | Keep (Some v) => merge_keys local remote base keys' (obj_insert k v merged)
      | Keep None => merge_keys local remote base keys' merged
      end
  end.

Definition base_fields (base_data : option json) : option object := base_data ≫= as_object.

Definition resolve_field_merge (order : list string) (c : Conflict) (base_data : option json)
    : ConflictResolution :=
  match as_object (rec_data (local_version c)), as_object (rec_data (remote_version c)) with
  | Some local, Some remote =>
      match merge_keys local remote (base_fields base_data) order [] with
      | Some merged => Merged (JObj merged)
      | None => RequiresManual
      end
  | _, _ => resolve_last_write_wins c
  end.

Definition overlaps (local remote : object) (base : option object) (k : string) : bool :=
  bool_decide (obj_get k local ≠ base_get base k)
  && bool_decide (obj_get k remote ≠ base_get base k)
  && bool_decide (obj_get k local ≠ obj_get k remote).

Definition field_merge_needs_manual (order : list string) (c : Conflict)
    (base_data : option json) : bool :=
  match as_object (rec_data (local_version c)), as_object (rec_data (remote_version c)) with
  | Some local, Some remote => existsb (overlaps local remote (base_fields base_data)) order
  | _, _ => false
  end.

(** Manual resolution produces no automatic one. *)
Definition resolve_manual (c : Conflict) : option ConflictResolution := None.

(** The orders in which the key set of the two objects can be visited. *)
Definition all_keys (local remote : object) : gset string :=
  list_to_set (obj_keys local ++ obj_keys remote).

Definition visits (order : list string) (local remote : object) : Prop :=
  NoDup order ∧ ∀ k, k ∈ order ↔ k ∈ all_keys local remote.

(** ** The conflict store *)

Definition ConflictStore : Type := gmap string Conflict.

Definition add (c : Conflict) (s : ConflictStore) : ConflictStore := <[conflict_id c := c]> s.
Definition get (s : ConflictStore) (id : string) : option Conflict := s !! id.

(** [values] in the order of the map's elements; the code fixes none. *)
Definition list_unresolved (limit offset : nat) (s : ConflictStore) : list Conflict * nat :=
  let unresolved := filter (λ c, resolved c = false) (map_to_list s).*2 in
  (take limit (drop offset unresolved), length unresolved).

Definition mark_resolved (r : ConflictResolution) (c : Conflict) : Conflict :=
  mkConflict (conflict_id c) (conflict_collection c) (record_id c) (local_version c)
    (remote_version c) (conflict_strategy c) true (Some r) (detected_at c).

Definition resolve (id : string) (r : ConflictResolution) (s : ConflictStore)
    : bool * ConflictStore :=
  match s !! id with
  | Some c => (true, <[id := mark_resolved r c]> s)
  | None => (false, s)
  end.

Definition remove (id : string) (s : ConflictStore) : bool * ConflictStore :=
  (bool_decide (is_Some (s !! id)), delete id s).

(** ** The merge is a three-way merge *)

(** What the merged object holds under a key. *)
Definition three_way (local remote base : option json) : option json :=
  if decide (local = base) then remote else local.

Lemma merge_field_Keep l r b v : merge_field l r b = Keep v → v = three_way l r b.
Proof.
  unfold merge_field, three_way.
  repeat case_bool_decide; case_decide; intros [=]; subst; try done; try tauto.
  by destruct b.
Qed.

Lemma merge_field_Overlap l r b :
  merge_field l r b = Overlap ↔ l ≠ b ∧ r ≠ b ∧ l ≠ r.
Proof. unfold merge_field. repeat case_bool_decide; naive_solver. Qed.

Lemma overlaps_true l r b k :
  overlaps l r b k = true ↔ merge_field (obj_get k l) (obj_get k r) (base_get b k) = Overlap.
Proof.
  rewrite merge_field_Overlap. unfold overlaps.
  rewrite !andb_true_iff, !bool_decide_eq_true. tauto.
Qed.

Lemma merge_keys_Some l r b keys m m' :
  NoDup keys → merge_keys l r b keys m = Some m' → obj_sorted m →
  (∀ k, k ∈ keys → obj_get k m = None) →
  obj_sorted m' ∧ existsb (overlaps l r b) keys = false ∧
  ∀ k, obj_get k m' = if decide (k ∈ keys)
                      then three_way (obj_get k l) (obj_get k r) (base_get b k)
                      else obj_get k m.
Proof.
  revert m. induction keys as [|k keys IH]; simpl; intros m Hnd Hm Hs Hfresh.
  { simplify_eq. by split_and!. }
  apply NoDup_cons in Hnd as [Hk Hnd].
  destruct (overlaps l r b k) eqn:Ho; [by apply overlaps_true in Ho; rewrite Ho in Hm|].
  destruct (merge_field _ _ _) as [|v] eqn:Hf; [done|]. apply merge_field_Keep in Hf as Hv.
  assert (∃ m1, merge_keys l r b keys m1 = Some m' ∧ obj_sorted m1 ∧
            (∀ j, obj_get j m1 = if decide (j = k) then v else obj_get j m))
    as (m1 & Hm1 & Hs1 & Hg1).
  { destruct v as [v|].
    - exists (obj_insert k v m). split_and!; [done|by apply obj_insert_sorted|].
      intros j. rewrite obj_get_insert. by repeat case_decide; subst.
    - exists m. split_and!; [done..|]. intros j. case_decide; [|done]. subst j.
      apply Hfresh. set_solver. }
  destruct (IH m1) as (Hs' & He & Hg); [done..| |].
  { intros j Hj. rewrite Hg1, decide_False by (intros ->; done). apply Hfresh. set_solver. }
  split_and!; [done..|]. intros j. rewrite Hg, Hg1.
  destruct (decide (j = k)) as [->|Hj].
  - rewrite decide_False by done. rewrite decide_True by set_solver. done.
  - destruct (decide (j ∈ keys)).
    + by rewrite decide_True by set_solver.
    + by rewrite decide_False by set_solver.
Qed.

Lemma merge_keys_None l r b keys m :
  merge_keys l r b keys m = None → existsb (overlaps l r b) keys = true.
Proof.
  revert m. induction keys as [|k keys IH]; simpl; intros m Hm; [done|].
  destruct (merge_field _ _ _) as [|[v|]] eqn:Hf; [|by rewrite (IH _ Hm), orb_true_r..].
  by rewrite (proj2 (overlaps_true l r b k) Hf).
Qed.

(** A key of neither object is absent from the merge as well. *)
Lemma three_way_absent l r b k :
  k ∉ all_keys l r → three_way (obj_get k l) (obj_get k r) (base_get b k) = None.
Proof.
  unfold all_keys. rewrite elem_of_list_to_set, elem_of_app, <- !obj_get_keys. intros Hk.
  assert (obj_get k l = None ∧ obj_get k r = None) as [-> ->].
  { rewrite !eq_None_not_Some. tauto. }
  unfold three_way. by case_decide.
Qed.

(** The statement about a merge of [local] and [remote], as the code computes it. *)
Definition merged_as (local remote : object) (base : option object) (order : list string)
    (c : Conflict) (base_data : option json) : Prop :=
  match resolve_field_merge order c base_data with
  | Merged data => ∃ m, data = JObj m ∧ obj_sorted m ∧
      field_merge_needs_manual order c base_data = false ∧
      ∀ k, obj_get k m = three_way (obj_get k local) (obj_get k remote) (base_get base k)
  | RequiresManual => field_merge_needs_manual order c base_data = true ∧
      ∃ k, obj_get k local ≠ base_get base k ∧ obj_get k remote ≠ base_get base k ∧
           obj_get k local ≠ obj_get k remote
  | _ => False
  end.

Lemma field_merge_spec c base_data local remote order :
  rec_data (local_version c) = JObj local → rec_data (remote_version c) = JObj remote →
  visits order local remote →
  merged_as local remote (base_fields base_data) order c base_data.
Proof.
  intros Hlocal Hremote [Hnd Hall].
  unfold merged_as, resolve_field_merge, field_merge_needs_manual.
  rewrite Hlocal, Hremote. simpl.
  destruct (merge_keys _ _ _ _ _) as [m|] eqn:Hm.
  - apply merge_keys_Some in Hm as (Hs & He & Hg); [|done|constructor|done].
    exists m. split_and!; [done..|]. intros k. rewrite Hg.
    destruct (decide (k ∈ order)) as [|Hk]; [done|]. rewrite Hall in Hk.
    by rewrite three_way_absent.
  - apply merge_keys_None in Hm. split; [done|].
    apply existsb_elem_of in Hm as (k & _ & Hk). exists k.
    by apply overlaps_true, merge_field_Overlap in Hk.
Qed.

(** Field merge. Whatever order the keys are visited in, two objects merge to
    the object whose every field is the side's that changed it from the base (and
    which lacks the fields removed by either side), unless some field was changed by
    both sides to different values, and exactly then the conflict is left for the
    user, as [field_merge_needs_manual] predicts. *)
Theorem field_merge_three_way c base_data local remote order :
  rec_data (local_version c) = JObj local → rec_data (remote_version c) = JObj remote →
  visits order local remote →
  match resolve_field_merge order c base_data with
  | Merged data => ∃ m, data = JObj m ∧ obj_sorted m ∧
      field_merge_needs_manual order c base_data = false ∧
      ∀ k, obj_get k m =
        three_way (obj_get k local) (obj_get k remote) (base_get (base_fields base_data) k)
  | RequiresManual => field_merge_needs_manual order c base_data = true ∧
      ∃ k, obj_get k local ≠ base_get (base_fields base_data) k ∧
           obj_get k remote ≠ base_get (base_fields base_data) k ∧
           obj_get k local ≠ obj_get k remote
  | _ => False
  end.
Proof. apply field_merge_spec. Qed.

(** ** Both sides compute the same merge *)

Lemma needs_manual_iff c base_data local remote order :
  rec_data (local_version c) = JObj local → rec_data (remote_version c) = JObj remote →
  visits order local remote →
  field_merge_needs_manual order c base_data = true ↔
  ∃ k, obj_get k local ≠ base_get (base_fields base_data) k ∧
       obj_get k remote ≠ base_get (base_fields base_data) k ∧
       obj_get k local ≠ obj_get k remote.
Proof.
  intros Hl Hr [_ Hall]. unfold field_merge_needs_manual. rewrite Hl, Hr. simpl.
  rewrite existsb_elem_of. setoid_rewrite overlaps_true. setoid_rewrite merge_field_Overlap.
  split; [naive_solver|]. intros (k & H1 & H2 & H3). exists k. split; [|done].
  apply Hall. unfold all_keys. rewrite elem_of_list_to_set, elem_of_app, <- !obj_get_keys.
  destruct (obj_get k local), (obj_get k remote); naive_solver.
Qed.

(** Convergence of the field merge: a peer that sees the same conflict with the
    two versions exchanged, and visits the keys in an order of its own, reaches the
    same resolution. *)
Theorem merge_converges c c' base_data local remote order order' :
  rec_data (local_version c) = JObj local → rec_data (remote_version c) = JObj remote →
  rec_data (local_version c') = JObj remote → rec_data (remote_version c') = JObj local →
  visits order local remote → visits order' remote local →
  resolve_field_merge order' c' base_data = resolve_field_merge order c base_data.
Proof.
  intros Hl Hr Hl' Hr' Hv Hv'.
  pose proof (field_merge_spec c base_data local remote order Hl Hr Hv) as H1.
  pose proof (field_merge_spec c' base_data remote local order' Hl' Hr' Hv') as H2.
  pose proof (needs_manual_iff c base_data local remote order Hl Hr Hv) as M1.
  pose proof (needs_manual_iff c' base_data remote local order' Hl' Hr' Hv') as M2.
  unfold merged_as in *.
  destruct (resolve_field_merge order c _) as [| |d|] eqn:E1; try done;
    destruct (resolve_field_merge order' c' _) as [| |d'|] eqn:E2; try done.
  - destruct H1 as (m & -> & Hs & Hm & Hg), H2 as (m' & -> & Hs' & Hm' & Hg').
    do 2 f_equal. apply obj_equiv_eq; [done..|]. intros k. rewrite Hg, Hg'.
    apply not_true_iff_false in Hm. rewrite M1 in Hm. unfold three_way.
    destruct (decide (obj_get k remote = _)), (decide (obj_get k local = _)); [congruence..|].
    destruct (decide (obj_get k local = obj_get k remote)); [done|]. naive_solver.
  - destruct H1 as (m & -> & _ & Hm & _), H2 as [_ (k & ?)].
    apply not_true_iff_false in Hm. destruct Hm. apply M1. exists k. naive_solver.
  - destruct H2 as (m & -> & _ & Hm & _), H1 as [_ (k & ?)].
    apply not_true_iff_false in Hm. destruct Hm. apply M2. exists k. naive_solver.
Qed.

(** ** A concrete conflict *)

Definition demo_record (data : json) (v : Z) (updated : timestamp) : StoredRecord :=
  mkRecord "r" "core" "contacts" data v None None 0 updated.
Definition contact (name phone : string) : json :=
  mk_obj [("name", JStr name); ("phone", JStr phone)].
Definition demo_conflict : Conflict :=
  mkConflict "c" "contacts" "r" (demo_record (contact "Ann" "1") 2 10)
    (demo_record (contact "Anna" "2") 3 20) FieldLevelMerge false None 30.

Lemma contact_order n p n' p' local remote :
  contact n p = JObj local → contact n' p' = JObj remote → visits ["name"; "phone"] local remote.
Proof.
  intros [= <-] [= <-]. split; [|intros k; unfold all_keys; simpl; set_solver].
  repeat constructor; set_solver.
Qed.

Lemma field_merge_three_way_witness :
  resolve_field_merge ["name"; "phone"] demo_conflict (Some (contact "Ann" "2")) =
    Merged (contact "Anna" "1") ∧
  field_merge_needs_manual ["name"; "phone"] demo_conflict (Some (contact "Ann" "2")) = false.
Proof.
  pose proof (field_merge_three_way demo_conflict (Some (contact "Ann" "2")) _ _
    ["name"; "phone"] eq_refl eq_refl (contact_order "Ann" "1" "Anna" "2" _ _ eq_refl eq_refl)) as H.
  split; [reflexivity|]. simpl in H. by destruct H as (m & _ & _ & Hm & _).
Defined.

Lemma merge_converges_witness :
  resolve_field_merge ["phone"; "name"]
    (mkConflict "c'" "contacts" "r" (remote_version demo_conflict) (local_version demo_conflict)
       FieldLevelMerge false None 31) None =
  resolve_field_merge ["name"; "phone"] demo_conflict None.
Proof.
  eapply (merge_converges demo_conflict); [reflexivity..| |].
  - by eapply contact_order.
  - split; [|intros k; unfold all_keys; simpl; set_solver]. repeat constructor; set_solver.
Defined.

(** ** The conflict routes (routes/conflicts.rs) *)

Module ConflictRoutes.

(** The body of a request to resolve. *)
Record ResolveBody : Type := mkResolveBody { rb_resolution : string; rb_merged_data : option json }.

Inductive ConflictReply : Type :=
| Page (conflicts : list Conflict) (total limit offset : nat)
| Single (c : Conflict)
| NoContent
| Refused (status : Z) (code message : string).

Definition unavailable : ConflictReply := Refused 500 "SYSTEM_INTERNAL_ERROR" "conflict store not available".

Definition not_found (id : string) : ConflictReply :=
  Refused 404 "CONFLICT_NOT_FOUND" ("conflict '" +:+ id +:+ "' not found").

Definition invalid (message : string) : ConflictReply := Refused 400 "DATA_VALIDATION_FAILED" message.

(** Every handler needs the store. *)
Definition with_store (s : option ConflictStore) (k : ConflictStore → ConflictReply * ConflictStore) :
    ConflictReply * option ConflictStore :=
  match s with
  | None => (unavailable, None)
  | Some store => let '(a, store') := k store in (a, Some store')
  end.

Definition list_conflicts (limit offset : option nat) (s : option ConflictStore) : ConflictReply * option ConflictStore :=
  with_store s (λ store,
    let limit := Nat.min (default 50 limit) 1000 in
    let offset := default 0 offset in
    let '(conflicts, total) := list_unresolved limit offset store in
    (Page conflicts total limit offset, store)).

Definition get_conflict (id : string) (s : option ConflictStore) : ConflictReply * option ConflictStore :=
  with_store s (λ store,
    (match get store id with
     | Some c => Single c
     | None => not_found id
     end, store)).

Definition read_resolution (body : ResolveBody) : result ConflictResolution ConflictReply :=
  if bool_decide (rb_resolution body = "keep_local") then Ok KeepLocal
  else if bool_decide (rb_resolution body = "keep_remote") then Ok KeepRemote
  else if bool_decide (rb_resolution body = "merge") then
    match rb_merged_data body with
    | Some data => Ok (Merged data)
    | None => Err (invalid "merged_data is required when resolution is 'merge'")
    end
  else Err (invalid ("invalid resolution '" +:+ rb_resolution body +:+ "': must be 'keep_local', 'keep_remote', or 'merge'")).

Definition resolve_conflict (id : string) (body : ResolveBody) (s : option ConflictStore) :
    ConflictReply * option ConflictStore :=
  with_store s (λ store,
    match read_resolution body with
    | Err reply => (reply, store)
    | Ok r =>
        let '(found, store') := resolve id r store in
        if found then
          (match get store' id with
           | Some c => Single c
           | None => Refused 500 "SYSTEM_INTERNAL_ERROR" "internal server error"
           end, store')
        else (not_found id, store')
    end).

Definition delete_conflict (id : string) (s : option ConflictStore) : ConflictReply * option ConflictStore :=
  with_store s (λ store,
    let '(found, store') := remove id store in
    (if found then NoContent else not_found id, store')).

Inductive ConflictRequest : Type :=
| ReqList (limit offset : option nat)
| ReqGet (id : string)
| ReqResolve (id : string) (body : ResolveBody)
| ReqDelete (id : string).

Definition serve_conflict (q : ConflictRequest) : option ConflictStore → ConflictReply * option ConflictStore :=
  match q with
  | ReqList limit offset => list_conflicts limit offset
  | ReqGet id => get_conflict id
  | ReqResolve id body => resolve_conflict id body
  | ReqDelete id => delete_conflict id
  end.

Fixpoint serve_conflicts (qs : list ConflictRequest) (s : option ConflictStore) : list ConflictReply * option ConflictStore :=
  match qs with
  | [] => ([], s)
  | q :: rest =>
      let '(a, s1) := serve_conflict q s in
      let '(acc, s2) := serve_conflicts rest s1 in (a :: acc, s2)
  end.

(** What a request does to the conflict of an id. *)
Definition effect (q : ConflictRequest) (id : string) (c : option Conflict) : option Conflict :=
  match q with
  | ReqResolve i body =>
      if bool_decide (i = id) then
        match read_resolution body with
        | Ok r => mark_resolved r <$> c
        | Err _ => c
        end
      else c
  | ReqDelete i => if bool_decide (i = id) then None else c
  | _ => c
  end.

Lemma serve_conflict_effect q store a s' :
  serve_conflict q (Some store) = (a, s') → ∃ store', s' = Some store' ∧ ∀ id, store' !! id = effect q id (store !! id).
Proof.
  destruct q as [limit offset|i|i body|i]; cbn -[list_unresolved].
  - unfold list_conflicts, with_store. destruct (list_unresolved _ _ _). intros [= _ <-]. by exists store.
  - intros [= _ <-]. by exists store.
  - unfold resolve_conflict, with_store. destruct (read_resolution body) as [r|e]; [|intros [= _ <-]; exists store; split; [done|]; intros id; by case_bool_decide].
    unfold resolve. destruct (store !! i) as [c|] eqn:Ei; intros [= _ <-]; eexists; (split; [done|]); intros id;
      case_bool_decide as Hid; subst; first [rewrite Ei; apply lookup_insert_eq|by apply lookup_insert_ne|by rewrite Ei|done].
  - unfold delete_conflict, with_store, remove. intros [= _ <-]. eexists. split; [done|]. intros id.
    case_bool_decide; subst; [apply lookup_delete_eq|by apply lookup_delete_ne].
Qed.

(** Over any requests, what is known of a conflict changes only by its own resolutions and its
    removal: the two versions stay as they were detected, and the last valid resolution counts. *)
Theorem conflict_routes_exact qs store acc s' :
  serve_conflicts qs (Some store) = (acc, s') →
  ∃ store', s' = Some store' ∧ ∀ id, store' !! id = foldl (λ c q, effect q id c) (store !! id) qs.
Proof.
  revert store acc. induction qs as [|q qs IH]; intros store acc; cbn.
  { intros [= _ <-]. by exists store. }
  destruct (serve_conflict q (Some store)) as [a s1] eqn:Eq. destruct (serve_conflicts qs s1) as [rest s2] eqn:Er.
  intros [= _ <-]. apply serve_conflict_effect in Eq as (st1 & -> & H1). apply IH in Er as (st2 & -> & H2).
  exists st2. split; [done|]. intros id. by rewrite H2, H1.
Qed.

(** A page shows unresolved conflicts only, at most a thousand, and the total counts all of them. *)
Theorem listed_conflicts_unresolved limit offset store a s' :
  list_conflicts limit offset (Some store) = (a, s') →
  ∃ cs total l o, a = Page cs total l o ∧ s' = Some store ∧ length cs ≤ 1000 ∧
    total = length (filter (λ c, resolved c = false) (map_to_list store).*2) ∧
    ∀ c, c ∈ cs → resolved c = false ∧ ∃ id, store !! id = Some c.
Proof.
  unfold list_conflicts, with_store, list_unresolved. intros [= <- <-]. do 4 eexists. split; [done|]. split; [done|].
  split; [rewrite length_take; lia|]. split; [done|]. intros c Hc.
  apply subseteq_take, subseteq_drop in Hc as Hj. apply list_elem_of_filter in Hj as [Hr Hj]. split; [done|].
  apply list_elem_of_fmap in Hj as ([k c'] & -> & Hk). exists k. by apply elem_of_map_to_list.
Qed.

(** Resolving stores the choice and nothing else: the resolved conflict keeps both versions, and a
    second resolution replaces the first. *)
Example resolved_twice :
  let s := Some (add demo_conflict ∅) in
  let '(_, s1) := resolve_conflict (conflict_id demo_conflict) (mkResolveBody "keep_local" None) s in
  let '(a, _) := resolve_conflict (conflict_id demo_conflict) (mkResolveBody "keep_remote" None) s1 in
  a = Single (mark_resolved KeepRemote demo_conflict).
Proof. vm_compute. reflexivity. Qed.
End ConflictRoutes.
