(* ===== verification/Federation.v ===== *)
(** * Federation

    Pull-based sync with other hubs: the change records, cursors and application of
    changes of apps/core/src/sync_primitives.rs, the store and sync engine of
    apps/core/src/federation.rs and the sync handler of
    apps/core/src/routes/federation.rs, over the legacy storage interface
    (packages/traits/src/legacy_storage.rs) and its SQLite implementation
    (packages/storage-sqlite/src/legacy.rs). The peer's answers, the TLS client and
    the clock are inputs. *)

From stdpp Require Import base tactics list strings gmap.
From Stdlib Require Import ZArith Lia.
From S2P Require Import Prelude RustString Json Types Conflict.

(** ** Stateful, fallible operations *)

Definition Run (S A E : Type) : Type := S → result A E * S.

Definition run_ret {S A E} (a : A) : Run S A E := λ s, (Ok a, s).
Definition run_bind {S A B E} (m : Run S A E) (k : A → Run S B E) : Run S B E := λ s,
  match m s with
  | (Ok a, s') => k a s'
  | (Err e, s') => (Err e, s')
  end.
Definition run_map_err {S A E F} (f : E → F) (m : Run S A E) : Run S A F := λ s,
  let '(r, s') := m s in (result_map_err f r, s').
Definition run_void {S A E} (m : Run S A E) : Run S unit E := run_bind m (λ _, run_ret tt).

(** ** The legacy storage interface *)

Inductive LegacyError : Type :=
| RecordNotFound
| VersionMismatch
| OtherError (msg : string).

Definition legacy_error_display (e : LegacyError) : string :=
  match e with
  | RecordNotFound => "record not found"
  | VersionMismatch => "version mismatch"
  | OtherError m => m
  end.

(** The operations of [StorageAdapter] that sync uses; an [anyhow] error is its
    text. *)
Class StorageAdapter (T : Type) := {
  sa_get (plugin_id collection id : string) : Run T (option StoredRecord) string;
  sa_create_with_id (plugin_id collection id : string) (data : json) : Run T StoredRecord string;
  sa_update (plugin_id collection id : string) (data : json) (version : Z)
    : Run T StoredRecord LegacyError;
  sa_delete (plugin_id collection id : string) : Run T bool string;
}.

(** ** The SQLite implementation

    The table [plugin_data], whose primary key is the record id alone, and the
    clock's next readings. *)

Record SqliteStorage : Type := mkSqlite {
  rows : gmap string StoredRecord;
  clock : nat → timestamp;
}.

(** [WHERE id = ?1 AND plugin_id = ?2 AND collection = ?3]. *)
Definition select (m : gmap string StoredRecord) (plugin_id collection id : string)
    : option StoredRecord :=
  match m !! id with
  | Some r =>
      if bool_decide (rec_plugin_id r = plugin_id ∧ rec_collection r = collection)
      then Some r else None
  | None => None
  end.

Definition sqlite_get (plugin_id collection id : string) : Run SqliteStorage (option StoredRecord) string :=
  λ s, (Ok (select (rows s) plugin_id collection id), s).

Definition sqlite_create_with_id (plugin_id collection id : string) (data : json)
    : Run SqliteStorage StoredRecord string := λ s,
  let now := clock s 0 in
  let clock' := λ n, clock s (S n) in
  match rows s !! id with
  | Some _ => (Err "UNIQUE constraint failed: plugin_data.id", mkSqlite (rows s) clock')
  | None =>
      let r := mkRecord id plugin_id collection data 1 None None now now in
      (Ok r, mkSqlite (<[id := r]> (rows s)) clock')
  end.

Definition sqlite_update (plugin_id collection id : string) (data : json) (version : Z)
    : Run SqliteStorage StoredRecord LegacyError := λ s,
  let now := clock s 0 in
  let clock' := λ n, clock s (S n) in
  let new_version := (version + 1)%Z in
  match select (rows s) plugin_id collection id with
  | None => (Err RecordNotFound, mkSqlite (rows s) clock')
  | Some r =>
      if bool_decide (rec_version r = version) then
        let row := mkRecord id plugin_id collection data new_version (rec_user_id r)
                     (rec_household_id r) (rec_created_at r) now in
        (Ok (mkRecord id plugin_id collection data new_version None None (rec_created_at r) now),
         mkSqlite (<[id := row]> (rows s)) clock')
      else (Err VersionMismatch, mkSqlite (rows s) clock')
  end.

Definition sqlite_delete (plugin_id collection id : string) : Run SqliteStorage bool string := λ s,
  match select (rows s) plugin_id collection id with
  | Some _ => (Ok true, mkSqlite (delete id (rows s)) (clock s))
  | None => (Ok false, s)
  end.

#[export] Instance sqlite_storage : StorageAdapter SqliteStorage := {|
  sa_get := sqlite_get;
  sa_create_with_id := sqlite_create_with_id;
  sa_update := sqlite_update;
  sa_delete := sqlite_delete;
|}.

(** ** Sync primitives *)

Inductive ChangeOperation : Type := Create | Update | Delete.

Record ChangeRecord : Type := mkChange {
  ch_id : string;
  ch_collection : string;
  ch_operation : ChangeOperation;
  ch_data : option json;
  ch_version : Z;
  ch_timestamp : timestamp;
}.

Record PullResponse : Type := mkPull { pull_changes : list ChangeRecord; pull_cursor : string }.

(** source id → collection → cursor. *)
Abbreviation SyncCursors := (gmap string (gmap string string)) (only parsing).

Definition cursor_get (cs : SyncCursors) (source_id collection : string) : option string :=
  cols ← cs !! source_id; cols !! collection.

Definition cursor_set (cs : SyncCursors) (source_id collection cursor : string) : SyncCursors :=
  <[source_id := <[collection := cursor]> (default ∅ (cs !! source_id))]> cs.

Section Apply.
Context {T : Type} `{StorageAdapter T}.

Definition apply_change (namespace : string) (change : ChangeRecord) : Run T unit string :=
  match ch_operation change with
  | Create =>
      match ch_data change with
      | Some data =>
          run_void (sa_create_with_id namespace (ch_collection change) (ch_id change) data)
      | None => run_ret tt
      end
  | Update =>
      match ch_data change with
      | Some data =>
          run_bind (sa_get namespace (ch_collection change) (ch_id change)) (λ existing,
          match existing with
          | Some e =>
              if (rec_version e <? ch_version change)%Z then
                run_void (run_map_err legacy_error_display
                  (sa_update namespace (ch_collection change) (ch_id change) data (rec_version e)))
              else run_ret tt
          | None =>
              run_void (sa_create_with_id namespace (ch_collection change) (ch_id change) data)
          end)
      | None => run_ret tt
      end
  | Delete =>
      run_bind (sa_get namespace (ch_collection change) (ch_id change)) (λ existing,
      let stale := match existing with
                   | Some e => (ch_version change <=? rec_version e)%Z
                   | None => false
                   end in
      if stale then run_ret tt
      else run_void (sa_delete namespace (ch_collection change) (ch_id change)))
  end.

Definition federation_namespace (peer_id : string) : string := "federation:" +:+ peer_id.

Definition apply_federation_change (peer_id : string) (change : ChangeRecord) : Run T unit string :=
  apply_change (federation_namespace peer_id) change.

(** Applying a pulled batch: the store after and the number of failed changes. *)
Fixpoint apply_changes (peer_id : string) (changes : list ChangeRecord) (s : T) : nat * T :=
  match changes with
  | [] => (0, s)
  | c :: cs =>
      let '(r, s1) := apply_federation_change peer_id c s in
      let '(n, s2) := apply_changes peer_id cs s1 in
      (if is_ok r then n else S n, s2)
  end.
End Apply.

(** ** Peers and the federation store *)

Inductive PeerStatus : Type := Pending | Connected | Syncing | PeerError | Disabled.

#[export] Instance peer_status_eq_dec : EqDecision PeerStatus.
Proof. solve_decision. Defined.

Record FederationPeer : Type := mkPeer {
  peer_id : string;
  peer_name : string;
  peer_endpoint : string;
  peer_collections : list string;
  peer_ca_cert_path : option string;
  peer_client_cert_path : option string;
  peer_client_key_path : option string;
  peer_status : PeerStatus;
  peer_last_sync_at : option timestamp;
  peer_last_sync_records : option nat;
  peer_created_at : timestamp;
  peer_updated_at : timestamp;
}.

Record PeerRequest : Type := mkPeerRequest {
  req_name : string;
  req_endpoint : string;
  req_collections : list string;
  req_ca_cert_path : option string;
  req_client_cert_path : option string;
  req_client_key_path : option string;
}.

Record SyncResult : Type := mkSyncResult {
  sr_peer_id : string;
  sr_collections_synced : list string;
  sr_records_pulled : nat;
  sr_records_pushed : nat;
  sr_conflicts : nat;
  sr_success : bool;
  sr_error : option string;
  sr_completed_at : timestamp;
}.

Definition MAX_SYNC_HISTORY : nat := 100.

Record FederationStore : Type := mkFederation {
  peers : gmap string FederationPeer;
  sync_history : list SyncResult;
  cursors : SyncCursors;
}.

Definition new_store : FederationStore := mkFederation ∅ [] ∅.

Definition set_peers (st : FederationStore) (ps : gmap string FederationPeer) : FederationStore :=
  mkFederation ps (sync_history st) (cursors st).

Definition add_peer (fresh : string) (now : timestamp) (req : PeerRequest) (st : FederationStore)
    : FederationPeer * FederationStore :=
  let peer := mkPeer fresh (req_name req) (req_endpoint req) (req_collections req)
                (req_ca_cert_path req) (req_client_cert_path req) (req_client_key_path req)
                Pending None None now now in
  (peer, set_peers st (<[fresh := peer]> (peers st))).

Definition get_peer (st : FederationStore) (id : string) : option FederationPeer := peers st !! id.

Definition remove_peer (id : string) (st : FederationStore) : bool * FederationStore :=
  (bool_decide (is_Some (peers st !! id)), set_peers st (delete id (peers st))).

Definition with_status (p : FederationPeer) (s : PeerStatus) (now : timestamp) : FederationPeer :=
  mkPeer (peer_id p) (peer_name p) (peer_endpoint p) (peer_collections p) (peer_ca_cert_path p)
    (peer_client_cert_path p) (peer_client_key_path p) s (peer_last_sync_at p)
    (peer_last_sync_records p) (peer_created_at p) now.

Definition update_peer_status (id : string) (s : PeerStatus) (now : timestamp)
    (st : FederationStore) : result unit string * FederationStore :=
  match peers st !! id with
  | Some p => (Ok tt, set_peers st (<[id := with_status p s now]> (peers st)))
  | None => (Err ("peer not found: " +:+ id), st)
  end.

(** The peer after a recorded sync. *)
Definition synced_peer (p : FederationPeer) (r : SyncResult) (now : timestamp) : FederationPeer :=
  if sr_success r then
    mkPeer (peer_id p) (peer_name p) (peer_endpoint p) (peer_collections p) (peer_ca_cert_path p)
      (peer_client_cert_path p) (peer_client_key_path p) Connected (Some (sr_completed_at r))
      (Some (sr_records_pulled r + sr_records_pushed r)) (peer_created_at p) now
  else with_status p PeerError now.

Definition cap_history (history : list SyncResult) : list SyncResult :=
  if bool_decide (MAX_SYNC_HISTORY < length history)
  then drop (length history - MAX_SYNC_HISTORY) history else history.

Definition record_sync (r : SyncResult) (now : timestamp) (st : FederationStore) : FederationStore :=
  mkFederation
    (match peers st !! sr_peer_id r with
     | Some p => <[sr_peer_id r := synced_peer p r now]> (peers st)
     | None => peers st
     end)
    (cap_history (sync_history st ++ [r])) (cursors st).

Definition get_cursor (st : FederationStore) (peer collection : string) : option string :=
  cursor_get (cursors st) peer collection.

Definition set_cursor (peer collection cursor : string) (st : FederationStore) : FederationStore :=
  mkFederation (peers st) (sync_history st) (cursor_set (cursors st) peer collection cursor).

Definition sync_history_for_peer (st : FederationStore) (peer : string) : list SyncResult :=
  filter (λ r, sr_peer_id r = peer) (sync_history st).

(** ** The pull engine *)

(** The collections a sync visits. *)
Definition sync_collections (peer : FederationPeer) (wanted : option (list string)) : list string :=
  match wanted with
  | Some fs => filter (λ c, c ∈ fs) (peer_collections peer)
  | None => peer_collections peer
  end.

(** What a sync has counted so far. *)
Record SyncTotals : Type := mkTotals {
  st_pulled : nat;
  st_conflicts : nat;
  st_synced : list string;
}.

Section Sync.
Context {T : Type} `{StorageAdapter T}.

(** The peer's answer to request [i] for a collection since a cursor: [None] when
    the request, its status or its body is no good. *)
Context (pull : nat → string → string → option PullResponse).

Fixpoint sync_loop (peer : string) (i : nat) (collections : list string) (totals : SyncTotals)
    (st : FederationStore) (s : T) : SyncTotals * FederationStore * T :=
  match collections with
  | [] => (totals, st, s)
  | c :: cs =>
      match pull i c (default "" (get_cursor st peer c)) with
      | None => sync_loop peer (S i) cs totals st s
      | Some p =>
          let '(failed, s1) := apply_changes peer (pull_changes p) s in
          let totals1 := mkTotals (st_pulled totals + length (pull_changes p))
                           (st_conflicts totals + failed) (st_synced totals ++ [c]) in
          let st1 := if is_empty (pull_cursor p) then st
                     else set_cursor peer c (pull_cursor p) st in
          sync_loop peer (S i) cs totals1 st1 s1
      end
  end.

(** [client] is the outcome of [build_mtls_client]. *)
Definition sync_with_peer (client : result unit string) (now : timestamp) (peer : FederationPeer)
    (wanted : option (list string)) (st : FederationStore) (s : T)
    : SyncResult * FederationStore * T :=
  let collections := sync_collections peer wanted in
  match collections with
  | [] => (mkSyncResult (peer_id peer) [] 0 0 0 true None now, st, s)
  | _ =>
      match client with
      | Err e =>
          (mkSyncResult (peer_id peer) [] 0 0 0 false
             (Some ("mTLS client build failed: " +:+ e)) now, st, s)
      | Ok _ =>
          let '(t, st', s') := sync_loop (peer_id peer) 0 collections (mkTotals 0 0 []) st s in
          (mkSyncResult (peer_id peer) (st_synced t) (st_pulled t) 0 (st_conflicts t) true None now,
           st', s')
      end
  end.

(** [routes::federation::trigger_sync], past the checks that the stores exist;
    [None] is the 404 answer. *)
Definition trigger_sync (client : result unit string) (now : timestamp) (id : string)
    (wanted : option (list string)) (st : FederationStore) (s : T)
    : option SyncResult * FederationStore * T :=
  match get_peer st id with
  | None => (None, st, s)
  | Some peer =>
      let '(_, st1) := update_peer_status (peer_id peer) Syncing now st in
      let '(r, st2, s') := sync_with_peer client now peer wanted st1 s in
      (Some r, record_sync r now st2, s')
  end.
End Sync.
