(* ===== verification/FederationFacts.v ===== *)
(** * Facts about federation

    What applying a change does to the table, that a sync stays in its namespace and
    keeps its cursors, that updates arriving in version order converge, and where
    last-write-wins fails. *)

From stdpp Require Import base tactics list strings gmap sorting.
From Stdlib Require Import ZArith Lia.
From S2P Require Import Prelude RustString Json Types Conflict Federation.

(** ** One change *)

(** A row by its data and version. *)
Definition view (r : StoredRecord) : json * Z := (rec_data r, rec_version r).

(** The row that applying a change leaves, or [None] when the change is refused, as [apply_change]
    goes about it: an update replaces a row of a lower version, under the next local version and
    not under the change's, so that an older change may replace a newer one later. *)
Definition row_after (c : ChangeRecord) (o : option (json * Z)) : option (option (json * Z)) :=
  match ch_operation c, ch_data c, o with
  | Create, Some d, None => Some (Some (d, 1%Z))
  | Create, Some _, Some _ => None
  | Create, None, o => Some o
  | Update, Some d, None => Some (Some (d, 1%Z))
  | Update, Some d, Some (d0, v0) =>
      Some (Some (if (v0 <? ch_version c)%Z then (d, v0 + 1)%Z else (d0, v0)))
  | Update, None, o => Some o
  | Delete, _, Some (d0, v0) =>
      Some (if (ch_version c <=? v0)%Z then Some (d0, v0) else None)
  | Delete, _, None => Some None
  end.

(** The id is free or names a row of this namespace and collection. *)
Definition no_clash (ns : string) (c : ChangeRecord) (m : gmap string StoredRecord) : Prop :=
  ∀ r, m !! ch_id c = Some r → rec_plugin_id r = ns ∧ rec_collection r = ch_collection c.

Lemma select_no_clash ns c m :
  no_clash ns c m → select m ns (ch_collection c) (ch_id c) = m !! ch_id c.
Proof.
  unfold no_clash, select. intros Hc. destruct (m !! ch_id c) as [r|]; [|done].
  by rewrite bool_decide_eq_true_2 by (by apply Hc).
Qed.

Lemma select_Some m ns coll id r :
  select m ns coll id = Some r ↔ m !! id = Some r ∧ rec_plugin_id r = ns ∧ rec_collection r = coll.
Proof.
  unfold select. destruct (m !! id) as [r'|]; [|naive_solver].
  case_bool_decide; naive_solver.
Qed.

Lemma select_None m ns coll id r :
  select m ns coll id = None → m !! id = Some r → ¬ (rec_plugin_id r = ns ∧ rec_collection r = coll).
Proof. unfold select. intros H E. rewrite E in H. by case_bool_decide. Qed.

(** The effect of one change, and the rows it leaves alone. *)
Lemma apply_change_effect ns c (s : SqliteStorage) :
  no_clash ns c (rows s) →
  let '(r, s') := apply_change ns c s in
  no_clash ns c (rows s') ∧
  (∀ id, id ≠ ch_id c → rows s' !! id = rows s !! id) ∧
  match row_after c (view <$> rows s !! ch_id c) with
  | Some o => r = Ok tt ∧ view <$> rows s' !! ch_id c = o
  | None => is_ok r = false ∧ rows s' = rows s
  end.
Proof.
  intros Hc. pose proof (select_no_clash ns c (rows s) Hc) as Hsel.
  unfold apply_change, row_after, run_void, run_bind, run_map_err, run_ret. simpl.
  unfold sqlite_get, sqlite_create_with_id, sqlite_update, sqlite_delete.
  destruct (ch_operation c), (ch_data c) as [d|]; rewrite ?Hsel;
    destruct (rows s !! ch_id c) as [r|] eqn:Er; simpl;
    try (destruct (rec_version r <? ch_version c)%Z);
    try (destruct (ch_version c <=? rec_version r)%Z);
    rewrite ?Hsel, ?Er; simpl; rewrite ?bool_decide_eq_true_2 by done; simpl;
    unfold no_clash in *; simpl;
    (split; [intros r'; rewrite ?lookup_insert_eq, ?lookup_delete_eq; intros; simplify_eq/=; naive_solver
            |split; [intros id Hid; by rewrite ?lookup_insert_ne, ?lookup_delete_ne by done
                    |rewrite ?lookup_insert_eq, ?lookup_delete_eq, ?Er; done]]).
Qed.

(** ** Isolation *)

(** [s'] has the same rows outside the namespace as [s]. *)
Definition same_outside (ns : string) (s s' : SqliteStorage) : Prop :=
  ∀ id r, rec_plugin_id r ≠ ns → rows s' !! id = Some r ↔ rows s !! id = Some r.

#[export] Instance same_outside_preorder ns : PreOrder (same_outside ns).
Proof. split; unfold same_outside; [done|]. intros ??? H1 H2 id r Hr. by rewrite H2, H1. Qed.

Lemma same_outside_insert ns (s : SqliteStorage) id row clk :
  rec_plugin_id row = ns → (∀ r, rows s !! id = Some r → rec_plugin_id r = ns) →
  same_outside ns s (mkSqlite (<[id := row]> (rows s)) clk).
Proof.
  intros Hrow Hold j r Hr. simpl. destruct (decide (id = j)) as [<-|Hj].
  - rewrite lookup_insert_eq. split; intros; simplify_eq; naive_solver.
  - by rewrite lookup_insert_ne.
Qed.

Lemma same_outside_clock ns (s : SqliteStorage) clk : same_outside ns s (mkSqlite (rows s) clk).
Proof. done. Qed.

#[local] Hint Resolve same_outside_clock : engine.

Lemma sqlite_create_outside ns coll id data (s : SqliteStorage) :
  same_outside ns s (sqlite_create_with_id ns coll id data s).2.
Proof.
  unfold sqlite_create_with_id. destruct (rows s !! id) eqn:E; simpl; [auto with engine|].
  apply same_outside_insert; [done|congruence].
Qed.

Lemma sqlite_update_outside ns coll id data v (s : SqliteStorage) :
  same_outside ns s (sqlite_update ns coll id data v s).2.
Proof.
  unfold sqlite_update. destruct (select _ _ _ _) as [r|] eqn:E; simpl; [|auto with engine].
  case_bool_decide; simpl; [|auto with engine]. apply select_Some in E as (? & ? & _).
  apply same_outside_insert; [done|congruence].
Qed.

Lemma sqlite_delete_outside ns coll id (s : SqliteStorage) :
  same_outside ns s (sqlite_delete ns coll id s).2.
Proof.
  unfold sqlite_delete. destruct (select _ _ _ _) as [r|] eqn:E; simpl; [|done].
  apply select_Some in E as (? & ? & _). intros j x Hx. simpl. rewrite lookup_delete_Some.
  split; [tauto|]. intros Hj. split; [congruence|done].
Qed.

(** A step of an operation that keeps the rows outside, whatever follows. *)
Lemma run_void_outside {A E} ns (m : Run SqliteStorage A E) s :
  same_outside ns s (m s).2 → same_outside ns s (run_void m s).2.
Proof. unfold run_void, run_bind. by destruct (m s) as [[|] ?]. Qed.

Lemma run_map_err_outside {A E F} ns (f : E → F) (m : Run SqliteStorage A E) s :
  same_outside ns s (m s).2 → same_outside ns s (run_map_err f m s).2.
Proof. unfold run_map_err. by destruct (m s). Qed.

#[local] Hint Resolve sqlite_create_outside sqlite_update_outside sqlite_delete_outside run_void_outside
  run_map_err_outside : engine.

Lemma apply_change_outside ns c (s : SqliteStorage) :
  same_outside ns s (apply_change ns c s).2.
Proof.
  assert (same_outside ns s s) by done.
  unfold apply_change. simpl.
  destruct (ch_operation c), (ch_data c); unfold run_bind; simpl; auto with engine;
    destruct (select _ _ _ _); simpl; try case_match; simpl; auto with engine.
Qed.

Lemma apply_changes_outside peer cs (s : SqliteStorage) :
  same_outside (federation_namespace peer) s (apply_changes peer cs s).2.
Proof.
  revert s. induction cs as [|c cs IH]; intros s; simpl; [done|].
  pose proof (apply_change_outside (federation_namespace peer) c s) as Hc.
  unfold apply_federation_change. destruct (apply_change _ c s) as [r s1].
  specialize (IH s1). destruct (apply_changes peer cs s1) as [n s2]. simpl in *.
  etrans; [exact Hc|]. by destruct (is_ok r).
Qed.

Lemma sync_loop_outside pull peer i cs t st (s : SqliteStorage) :
  same_outside (federation_namespace peer) s (sync_loop pull peer i cs t st s).2.
Proof.
  revert i t st s. induction cs as [|c cs IH]; intros i t st s; simpl; [done|].
  destruct (pull i c _) as [p|]; [|apply IH].
  pose proof (apply_changes_outside peer (pull_changes p) s) as Hc.
  destruct (apply_changes _ _ _) as [n s1]. simpl in *. etrans; [exact Hc|apply IH].
Qed.

(** ** Cursors *)

Lemma cursor_get_set cs p c v p' c' :
  cursor_get (cursor_set cs p c v) p' c' =
  if decide (p = p' ∧ c = c') then Some v else cursor_get cs p' c'.
Proof.
  unfold cursor_get, cursor_set. destruct (decide (p = p')) as [<-|Hp].
  - rewrite lookup_insert_eq. simpl. destruct (decide (c = c')) as [<-|Hc].
    + by rewrite lookup_insert_eq, decide_True by done.
    + rewrite lookup_insert_ne, decide_False by naive_solver. by destruct (cs !! p).
  - rewrite lookup_insert_ne, decide_False by naive_solver. done.
Qed.

(** The cursor of a collection after a sync that got this answer for it. *)
Definition cursor_after (answer : option PullResponse) (old : option string) : option string :=
  match answer with
  | Some p => if is_empty (pull_cursor p) then old else Some (pull_cursor p)
  | None => old
  end.

Section SyncFacts.
Context (pull : nat → string → string → option PullResponse).

Lemma sync_loop_other peer i cs t st (s : SqliteStorage) p c :
  p ≠ peer → get_cursor (sync_loop pull peer i cs t st s).1.2 p c = get_cursor st p c.
Proof.
  intros Hp. revert i t st s. induction cs as [|c' cs IH]; intros i t st s; simpl; [done|].
  destruct (pull i c' _) as [r|]; [|apply IH]. destruct (apply_changes _ _ _) as [n s1].
  rewrite IH. destruct (is_empty _); [done|]. unfold get_cursor. simpl.
  rewrite cursor_get_set, decide_False by naive_solver. done.
Qed.

(** The answers a sync of distinct collections gets. *)
Definition answers (st : FederationStore) (peer : string) (i : nat) (cs : list string)
    : list (string * option PullResponse) :=
  imap (λ j c, (c, pull (i + j) c (default "" (get_cursor st peer c)))) cs.

Lemma answers_cons st peer i c cs :
  answers st peer i (c :: cs) =
  (c, pull i c (default "" (get_cursor st peer c))) :: answers st peer (S i) cs.
Proof.
  unfold answers. simpl. f_equal; [by rewrite Nat.add_0_r|].
  apply imap_ext. intros j x _. simpl. do 2 f_equal. lia.
Qed.

Lemma answers_ext st st' peer i cs :
  (∀ c, c ∈ cs → get_cursor st' peer c = get_cursor st peer c) →
  answers st' peer i cs = answers st peer i cs.
Proof.
  intros He. unfold answers. apply imap_ext. intros j c Hc.
  apply list_elem_of_lookup_2 in Hc. simpl. by rewrite He.
Qed.

Definition answered (a : string * option PullResponse) : option string :=
  (λ _, a.1) <$> a.2.
Definition changes_in (a : string * option PullResponse) : nat :=
  match a.2 with Some p => length (pull_changes p) | None => 0 end.

Lemma sync_loop_exact peer i cs t st (s : SqliteStorage) :
  NoDup cs →
  let '(t', st', s') := sync_loop pull peer i cs t st s in
  st_synced t' = st_synced t ++ omap answered (answers st peer i cs) ∧
  st_pulled t' = st_pulled t + sum_list_with changes_in (answers st peer i cs) ∧
  peers st' = peers st ∧ sync_history st' = sync_history st ∧
  (∀ j c, cs !! j = Some c →
     get_cursor st' peer c =
     cursor_after (pull (i + j) c (default "" (get_cursor st peer c))) (get_cursor st peer c)) ∧
  (∀ p c, p ≠ peer ∨ c ∉ cs → get_cursor st' p c = get_cursor st p c).
Proof.
  revert i t st s. induction cs as [|c cs IH]; intros i t st s Hnd.
  { simpl. rewrite app_nil_r, Nat.add_0_r. by split_and!. }
  apply NoDup_cons in Hnd as [Hc Hnd]. rewrite answers_cons. simpl.
  destruct (pull i c _) as [r|] eqn:Hpull; simpl.
  - destruct (apply_changes _ _ _) as [n s1].
    set (st1 := if is_empty (pull_cursor r) then _ else _).
    assert (∀ p c', get_cursor st1 p c' =
              if decide (p = peer ∧ c' = c) then cursor_after (Some r) (get_cursor st p c')
              else get_cursor st p c') as Hst1.
    { intros p c'. unfold st1, cursor_after. destruct (is_empty (pull_cursor r)).
      - by case_decide.
      - unfold get_cursor at 1. simpl. rewrite cursor_get_set. repeat case_decide; naive_solver. }
    assert (∀ c', c' ∈ cs → get_cursor st1 peer c' = get_cursor st peer c') as Hcs.
    { intros c' Hc'. rewrite Hst1, decide_False by set_solver. done. }
    pose proof (answers_ext _ _ _ (S i) _ Hcs) as Hans.
    match goal with |- context [sync_loop _ _ _ _ ?t1 _ _] => specialize (IH (S i) t1 st1 s1 Hnd) end.
    rewrite Hans in IH. destruct (sync_loop _ _ _ _ _ _ _) as [[t' st'] s'].
    destruct IH as (-> & -> & Hp & Hh & Hin & Hout). simpl.
    split_and!; [by rewrite <- app_assoc|unfold changes_in at 2; simpl; lia|rewrite Hp; unfold st1; by case_match
                |rewrite Hh; unfold st1; by case_match| |].
    + intros [|j] c' Hj; simplify_eq/=.
      * rewrite Nat.add_0_r, Hpull, Hout, Hst1, decide_True by naive_solver. done.
      * rewrite (Hin j c' Hj), Hcs by (by eapply list_elem_of_lookup_2).
        by rewrite Nat.add_succ_r.
    + intros p c' Hpc. rewrite Hout by set_solver. rewrite Hst1, decide_False by set_solver. done.
  - specialize (IH (S i) t st s Hnd). destruct (sync_loop _ _ _ _ _ _ _) as [[t' st'] s'].
    destruct IH as (-> & -> & Hp & Hh & Hin & Hout). split_and!; [done..| |].
    + intros [|j] c' Hj; simplify_eq/=.
      * rewrite Nat.add_0_r, Hpull, Hout by naive_solver. done.
      * rewrite (Hin j c' Hj). by rewrite Nat.add_succ_r.
    + intros p c' Hpc. apply Hout. set_solver.
Qed.

(** Isolation. A sync changes no row outside the peer's own namespace: every row
    of another owner is still there, unchanged, and none appears; the cursors of
    other peers stay as they were. *)
Theorem sync_isolated client now peer wanted st (s : SqliteStorage) :
  let '(_, st', s') := sync_with_peer pull client now peer wanted st s in
  (∀ id r, rec_plugin_id r ≠ federation_namespace (peer_id peer) →
     rows s' !! id = Some r ↔ rows s !! id = Some r) ∧
  (∀ p c, p ≠ peer_id peer → get_cursor st' p c = get_cursor st p c).
Proof.
  unfold sync_with_peer. destruct (sync_collections peer wanted) as [|c cs] eqn:E; [done|].
  destruct client; [|done].
  pose proof (sync_loop_outside pull (peer_id peer) 0 (c :: cs) (mkTotals 0 0 []) st s) as Ho.
  pose proof (sync_loop_other (peer_id peer) 0 (c :: cs) (mkTotals 0 0 []) st s) as Hc.
  destruct (sync_loop _ _ _ _ _ _ _) as [[t st'] s']. by split.
Qed.

(** What a sync reports and where it resumes, for a peer whose configured
    collections are distinct and a usable TLS client: the collections synced are the
    wanted ones whose pull was answered, the records pulled are the changes in those
    answers, and the cursor of a collection moves to the one in its answer, if any,
    and otherwise stays. *)
Theorem sync_report_exact now peer wanted st (s : SqliteStorage) :
  NoDup (peer_collections peer) →
  let cs := sync_collections peer wanted in
  let '(r, st', _) := sync_with_peer pull (Ok tt) now peer wanted st s in
  sr_success r = true ∧
  sr_collections_synced r = omap answered (answers st (peer_id peer) 0 cs) ∧
  sr_records_pulled r = sum_list_with changes_in (answers st (peer_id peer) 0 cs) ∧
  (∀ j c, cs !! j = Some c →
     get_cursor st' (peer_id peer) c =
     cursor_after (pull j c (default "" (get_cursor st (peer_id peer) c)))
       (get_cursor st (peer_id peer) c)) ∧
  (∀ c, c ∉ cs → get_cursor st' (peer_id peer) c = get_cursor st (peer_id peer) c).
Proof.
  intros Hnd cs. assert (NoDup cs) as Hcs.
  { unfold cs, sync_collections. destruct wanted; [by apply NoDup_filter|done]. }
  unfold sync_with_peer. fold cs. destruct cs as [|c cs'] eqn:E; [by split_and!|]. rewrite <- E in *.
  pose proof (sync_loop_exact (peer_id peer) 0 cs (mkTotals 0 0 []) st s Hcs) as He.
  destruct (sync_loop _ _ _ _ _ _ _) as [[t st'] s'].
  destruct He as (Hs & Hp & _ & _ & Hin & Hout). split_and!; try done. naive_solver.
Qed.
End SyncFacts.

(** ** The store *)

(** Peers are kept under their own id, and the history is capped. *)
Definition store_wf (st : FederationStore) : Prop :=
  (∀ id p, peers st !! id = Some p → peer_id p = id) ∧ length (sync_history st) ≤ MAX_SYNC_HISTORY.

(** One request to the federation routes, over any storage and any peer answers. *)
Inductive request : FederationStore → FederationStore → Prop :=
| request_add fresh now req st : request st (add_peer fresh now req st).2
| request_remove id st : request st (remove_peer id st).2
| request_sync pull client now id wanted st (s : SqliteStorage) :
    request st (trigger_sync pull client now id wanted st s).1.2.

Lemma cap_history_length h : length (cap_history h) ≤ MAX_SYNC_HISTORY.
Proof. unfold cap_history. case_bool_decide; [rewrite length_drop|]; lia. Qed.

Lemma cap_history_last h r : last (cap_history (h ++ [r])) = Some r.
Proof.
  unfold cap_history. rewrite length_app. simpl. case_bool_decide; [|by rewrite last_snoc].
  rewrite drop_app_le by (unfold MAX_SYNC_HISTORY in *; lia). by rewrite last_snoc.
Qed.

Lemma with_status_id p s now : peer_id (with_status p s now) = peer_id p.
Proof. done. Qed.

Lemma synced_peer_id p r now : peer_id (synced_peer p r now) = peer_id p.
Proof. unfold synced_peer. by destruct (sr_success r). Qed.

Lemma peers_insert_wf (m : gmap string FederationPeer) id p :
  (∀ id p, m !! id = Some p → peer_id p = id) → peer_id p = id →
  ∀ id' p', <[id := p]> m !! id' = Some p' → peer_id p' = id'.
Proof. intros Hm Hp id' p'. rewrite lookup_insert_Some. naive_solver. Qed.

Lemma sync_keeps_peers pull client now peer wanted st (s : SqliteStorage) :
  let '(r, st', _) := sync_with_peer pull client now peer wanted st s in
  sr_peer_id r = peer_id peer ∧ peers st' = peers st ∧ sync_history st' = sync_history st.
Proof.
  unfold sync_with_peer. destruct (sync_collections peer wanted) as [|c cs]; [done|].
  destruct client; [|done]. set (l := c :: cs). set (t0 := mkTotals 0 0 []). clearbody l t0.
  assert (∀ i t st s, let '(_, st', _) := sync_loop pull (peer_id peer) i l t st (s : SqliteStorage) in
            peers st' = peers st ∧ sync_history st' = sync_history st) as H.
  { induction l as [|c' l IH]; intros i t st0 s0; simpl; [done|].
    destruct (pull i c' _) as [p|]; [|apply IH]. destruct (apply_changes _ _ _) as [n s1].
    match goal with |- context [sync_loop _ _ ?i _ ?t ?st ?s] => specialize (IH i t st s) end.
    destruct (sync_loop _ _ _ _ _ _ _) as [[t' st'] s'].
    destruct IH as [-> ->]. by destruct (is_empty _). }
  specialize (H 0 t0 st s). destruct (sync_loop _ _ _ _ _ _ _) as [[t' st'] s']. by split.
Qed.

Lemma update_peer_status_peers id s now st p :
  peers st !! id = Some p →
  update_peer_status id s now st = (Ok tt, set_peers st (<[id := with_status p s now]> (peers st))).
Proof. unfold update_peer_status. by intros ->. Qed.

(** The store after a sync of a known peer. *)
Lemma trigger_sync_known pull client now id wanted st (s : SqliteStorage) p :
  store_wf st → get_peer st id = Some p →
  ∃ r s' cs, trigger_sync pull client now id wanted st s =
      (Some r, mkFederation (<[id := synced_peer (with_status p Syncing now) r now]> (peers st))
                 (cap_history (sync_history st ++ [r])) cs, s') ∧ sr_peer_id r = id.
Proof.
  intros [Hwf _] Hp. unfold trigger_sync. rewrite Hp. unfold get_peer in Hp.
  pose proof (Hwf _ _ Hp) as Hid. rewrite Hid.
  rewrite (update_peer_status_peers _ _ _ _ _ Hp).
  match goal with |- context [sync_with_peer _ _ _ _ _ ?st1 _] => set (st1' := st1) end.
  pose proof (sync_keeps_peers pull client now p wanted st1' s) as Hk.
  destruct (sync_with_peer _ _ _ _ _ _ _) as [[r st2] s2]. destruct Hk as (Hr & Hps & Hh).
  exists r, s2, (cursors st2). unfold record_sync. rewrite Hr, Hid, Hps, Hh. simpl.
  by rewrite lookup_insert_eq, insert_insert_eq.
Qed.

Lemma request_wf st st' : store_wf st → request st st' → store_wf st'.
Proof.
  intros Hst. pose proof Hst as [Hwf Hh]. destruct 1; simpl.
  - split; [|done]. by apply peers_insert_wf.
  - split; [|done]. simpl. intros i p. rewrite lookup_delete_Some. naive_solver.
  - destruct (get_peer st id) as [p|] eqn:Hp.
    + destruct (trigger_sync_known pull client now id wanted st s p Hst Hp) as (r & s' & cs & -> & _).
      split; simpl; [|apply cap_history_length]. apply peers_insert_wf; [done|].
      rewrite synced_peer_id, with_status_id. by apply Hwf.
    + unfold trigger_sync. rewrite Hp. done.
Qed.

(** Every sync settles: in every reachable store, a sync of a known peer ends with
    the peer connected or in error, as the result says, and never still marked as
    syncing; the result is the last entry of the history, which never exceeds its
    cap; and the other peers are untouched. *)
Theorem sync_settles pull client now id wanted st (s : SqliteStorage) p :
  rtc request new_store st → get_peer st id = Some p →
  let '(r, st', _) := trigger_sync pull client now id wanted st s in
  ∃ res p', r = Some res ∧ get_peer st' id = Some p' ∧
    peer_status p' = (if sr_success res then Connected else PeerError) ∧
    last (sync_history st') = Some res ∧ length (sync_history st') ≤ MAX_SYNC_HISTORY ∧
    (∀ id', id' ≠ id → get_peer st' id' = get_peer st id').
Proof.
  intros Hr Hp. assert (store_wf st) as Hst.
  { eapply (rtc_ind_r store_wf); [|intros; by eapply request_wf|exact Hr].
    split; [|simpl; lia]. intros i q. simpl. by rewrite lookup_empty. }
  destruct (trigger_sync_known pull client now id wanted st s p Hst Hp) as (r & s' & cs & -> & _).
  exists r, (synced_peer (with_status p Syncing now) r now). unfold get_peer. simpl.
  split_and!; [done|by rewrite lookup_insert_eq|unfold synced_peer; by destruct (sr_success r)
              |apply cap_history_last|apply cap_history_length|].
  intros id' Hne. by rewrite lookup_insert_ne.
Qed.

(** ** Updates of one record *)

Definition updates (id coll : string) (c : ChangeRecord) : Prop :=
  ch_id c = id ∧ ch_collection c = coll ∧ ch_operation c = Update ∧ is_Some (ch_data c).

(** The row of [id] is absent or of version at most [v]. *)
Definition row_below (id : string) (v : Z) (s : SqliteStorage) : Prop :=
  ∀ r, rows s !! id = Some r → (rec_version r ≤ v)%Z.

Lemma update_newer peer id coll c v (s : SqliteStorage) :
  updates id coll c → no_clash (federation_namespace peer) c (rows s) →
  row_below id v s → (0 ≤ v < ch_version c)%Z →
  ∃ s', apply_federation_change peer c s = (Ok tt, s') ∧
    no_clash (federation_namespace peer) c (rows s') ∧
    row_below id (ch_version c) s' ∧ rec_data <$> rows s' !! id = ch_data c.
Proof.
  intros (Hid & Hco & Hop & [d Hd]) Hcl Hrow Hv.
  pose proof (apply_change_effect (federation_namespace peer) c s Hcl) as He.
  unfold apply_federation_change. destruct (apply_change _ c s) as [r s'].
  destruct He as (Hcl' & _ & He). exists s'. rewrite Hid in *.
  unfold row_after in He. rewrite Hop, Hd in He.
  assert (∃ w, r = Ok tt ∧ view <$> rows s' !! id = Some (d, w) ∧ (w ≤ ch_version c)%Z)
    as (w & -> & Hvw & Hw).
  { destruct (rows s !! id) as [x|] eqn:Ex; simpl in He.
    - specialize (Hrow x Ex). rewrite (proj2 (Z.ltb_lt _ _)) in He by lia.
      destruct He as [-> He]. eexists. split_and!; [done|done|lia].
    - destruct He as [-> He]. eexists. split_and!; [done|done|lia]. }
  destruct (rows s' !! id) as [x'|] eqn:Ex'; [|done]. injection Hvw as Hxd Hxv.
  split_and!; [done|done| |by rewrite Hd; simpl; f_equal]. intros y Hy. simplify_eq/=. congruence.
Qed.

Lemma no_clash_same ns c c' m :
  ch_id c' = ch_id c → ch_collection c' = ch_collection c → no_clash ns c m → no_clash ns c' m.
Proof. unfold no_clash. intros -> ->. done. Qed.

Lemma apply_changes_cons {T} `{StorageAdapter T} peer c cs (s : T) :
  apply_changes peer (c :: cs) s =
  let '(r, s1) := apply_federation_change peer c s in
  let '(n, s2) := apply_changes peer cs s1 in
  (if is_ok r then n else S n, s2).
Proof. done. Qed.

(** Updates of one record that arrive in version order converge: whatever the
    starting row, as long as its version is below the first update's, all of them
    apply, and the row ends with the data of the last one. *)
Theorem in_order_updates_converge peer id coll c0 cs v (s : SqliteStorage) :
  Forall (updates id coll) (c0 :: cs) →
  StronglySorted (λ c c', (ch_version c < ch_version c')%Z) (c0 :: cs) →
  no_clash (federation_namespace peer) c0 (rows s) →
  row_below id v s → (0 ≤ v < ch_version c0)%Z →
  let '(failed, s') := apply_changes peer (c0 :: cs) s in
  failed = 0 ∧ rec_data <$> rows s' !! id = last (c0 :: cs) ≫= ch_data.
Proof.
  revert c0 v s. induction cs as [|c cs IH]; intros c0 v s Hu Hs Hcl Hrow Hv;
    apply Forall_cons in Hu as [Hu0 Hu]; apply StronglySorted_inv in Hs as [Hs Hlt];
    destruct (update_newer peer id coll c0 v s Hu0 Hcl Hrow Hv) as (s1 & E & Hcl1 & Hrow1 & Hd1).
  - simpl. by rewrite E.
  - apply Forall_cons in Hlt as [Hlt _]. 
    rewrite apply_changes_cons, E.
    assert (no_clash (federation_namespace peer) c (rows s1)) as Hcl2.
    { apply Forall_cons in Hu as [(Hi & Hc & _) _]. destruct Hu0 as (Hi0 & Hc0 & _).
      eapply no_clash_same; [| |exact Hcl1]; congruence. }
    specialize (IH c (ch_version c0) s1 Hu Hs Hcl2 Hrow1 ltac:(lia)).
    destruct (apply_changes peer (c :: cs) s1) as [n s2]. destruct IH as [-> Hd2].
    split; [done|]. by rewrite Hd2.
Qed.

(** Last-write-wins does not hold when updates arrive out of order: a row keeps
    counting its own versions, so an update leaves it at a lower version than the
    update's, and an older update that arrives afterwards replaces newer data. *)
Theorem stale_update_overwrites peer id coll newer older (s : SqliteStorage) r :
  updates id coll newer → updates id coll older →
  rows s !! id = Some r → no_clash (federation_namespace peer) newer (rows s) →
  (rec_version r + 1 < ch_version older < ch_version newer)%Z →
  let '(failed, s') := apply_changes peer [newer; older] s in
  failed = 0 ∧ rec_data <$> rows s' !! id = ch_data older.
Proof.
  intros (Hi & Hc & Ho & [d Hd]) (Hi' & Hc' & Ho' & [d' Hd']) Hr Hcl Hv.
  pose proof (apply_change_effect _ _ _ Hcl) as He. simpl. unfold apply_federation_change.
  destruct (apply_change _ newer s) as [r1 s1]. destruct He as (Hcl1 & _ & He).
  unfold row_after in He. rewrite Ho, Hd, Hi, Hr in He. simpl in He.
  rewrite (proj2 (Z.ltb_lt _ _)) in He by lia. destruct He as [-> He].
  destruct (rows s1 !! id) as [x|] eqn:Ex; [|done]. injection He as Hxd Hxv.
  assert (no_clash (federation_namespace peer) older (rows s1)) as Hcl2
    by (eapply no_clash_same; [| |exact Hcl1]; congruence).
  pose proof (apply_change_effect _ _ _ Hcl2) as He.
  destruct (apply_change _ older s1) as [r2 s2]. destruct He as (_ & _ & He).
  unfold row_after in He. rewrite Ho', Hd', Hi', Ex in He. simpl in He.
  rewrite (proj2 (Z.ltb_lt _ _)) in He by lia. destruct He as [-> He]. simpl.
  split; [done|]. destruct (rows s2 !! id) as [y|]; [|done]. injection He as Hyd _.
  by rewrite Hd', <- Hyd.
Qed.

(** ** Concrete syncs *)

Definition no_rows : SqliteStorage := mkSqlite ∅ (λ n, Z.of_nat n).
Definition update_change (id coll data : string) (v : Z) : ChangeRecord :=
  mkChange id coll Update (Some (JStr data)) v 0.
Definition notes_peer : FederationPeer :=
  mkPeer "p" "Partner" "https://partner" ["notes"] None None None Pending None None 0 0.
Definition peer_store : FederationStore :=
  (add_peer "p" 0 (mkPeerRequest "Partner" "https://partner" ["notes"] None None None) new_store).2.
Definition answer (cs : list ChangeRecord) : nat → string → string → option PullResponse :=
  λ _ _ _, Some (mkPull cs "t1").
(** The store with the row of "r" at version 1. *)
Definition one_row : SqliteStorage :=
  (apply_changes "p" [update_change "r" "notes" "first" 1] no_rows).2.

(** A peer writes to collections it is not configured for: the sync is limited to
    the configured collections, but a change is filed under the collection it names. *)
Theorem unlisted_collection_written :
  let '(r, _, s) := sync_with_peer (answer [update_change "r" "secrets" "x" 1]) (Ok tt) 0
                      notes_peer None new_store no_rows in
  sr_collections_synced r = ["notes"] ∧ sr_conflicts r = 0 ∧
  rec_collection <$> rows s !! "r" = Some "secrets".
Proof. vm_compute. done. Qed.

(** A change that cannot be applied is lost: when the record's id is taken in
    another namespace the change fails, yet the sync reports success and advances the
    cursor past it. *)
Theorem failed_change_skipped :
  let taken := mkRecord "r" "core" "notes" (JStr "mine") 1 None None 0 0 in
  let '(r, st, s) := sync_with_peer (answer [update_change "r" "notes" "theirs" 7]) (Ok tt) 0
                       notes_peer None new_store (mkSqlite {["r" := taken]} (λ _, 0%Z)) in
  sr_success r = true ∧ sr_conflicts r = 1 ∧ get_cursor st "p" "notes" = Some "t1" ∧
  rows s !! "r" = Some taken.
Proof. vm_compute. done. Qed.

(** A sync in which every pull fails is reported as successful, and the peer as
    connected. *)
Theorem failed_pulls_reported_success :
  let '(r, st, _) := trigger_sync (λ _ _ _, None) (Ok tt) 5 "p" None peer_store no_rows in
  option_map sr_success r = Some true ∧ option_map sr_collections_synced r = Some [] ∧
  peer_status <$> get_peer st "p" = Some Connected.
Proof. vm_compute. done. Qed.

Lemma no_clash_one_row v d : no_clash (federation_namespace "p") (update_change "r" "notes" d v) (rows one_row).
Proof. intros r. vm_compute. intros [= <-]. done. Qed.

Lemma update_change_updates id coll d v : updates id coll (update_change id coll d v).
Proof. repeat split. by eexists. Qed.

Lemma sync_report_exact_witness :
  let '(r, st, _) := sync_with_peer (answer [update_change "r" "notes" "x" 1]) (Ok tt) 0
                       notes_peer None new_store no_rows in
  sr_records_pulled r = 1 ∧ get_cursor st "p" "notes" = Some "t1".
Proof.
  assert (NoDup (peer_collections notes_peer)) as Hnd by (repeat constructor; set_solver).
  pose proof (sync_report_exact (answer [update_change "r" "notes" "x" 1]) 0 notes_peer None
    new_store no_rows Hnd) as H.
  destruct (sync_with_peer _ _ _ _ _ _ _) as [[r st] s']. destruct H as (_ & _ & -> & Hc & _).
  split; [reflexivity|]. apply (Hc 0 "notes" eq_refl).
Defined.

Lemma sync_settles_witness :
  ∃ res p', (trigger_sync (answer []) (Err "no certificate") 5 "p" None peer_store no_rows).1.1 = Some res ∧
    get_peer (trigger_sync (answer []) (Err "no certificate") 5 "p" None peer_store no_rows).1.2 "p" = Some p' ∧
    peer_status p' = PeerError.
Proof.
  assert (rtc request new_store peer_store) as Hr by (eapply rtc_once, request_add).
  pose proof (sync_settles (answer []) (Err "no certificate") 5 "p" None peer_store no_rows _ Hr eq_refl) as H.
  destruct (trigger_sync _ _ _ _ _ _ _) as [[r st] s'] eqn:E.
  destruct H as (res & p' & -> & Hp & Hs & _). exists res, p'. simpl. split_and!; [done..|].
  vm_compute in E. injection E as <- _ _. exact Hs.
Defined.

Lemma in_order_updates_converge_witness :
  rec_data <$> rows (apply_changes "p" [update_change "r" "notes" "b" 4; update_change "r" "notes" "c" 6]
                       one_row).2 !! "r" = Some (JStr "c").
Proof.
  pose proof (in_order_updates_converge "p" "r" "notes" (update_change "r" "notes" "b" 4)
    [update_change "r" "notes" "c" 6] 1 one_row) as H.
  destruct (apply_changes _ _ _) as [n s']. apply H.
  - repeat constructor; by eexists.
  - repeat constructor; simpl; lia.
  - apply no_clash_one_row.
  - intros r. vm_compute. intros [= <-]. discriminate.
  - simpl. lia.
Defined.

Lemma stale_update_overwrites_witness :
  rec_data <$> rows (apply_changes "p" [update_change "r" "notes" "new" 5; update_change "r" "notes" "old" 3]
                       one_row).2 !! "r" = Some (JStr "old").
Proof.
  pose proof (stale_update_overwrites "p" "r" "notes" (update_change "r" "notes" "new" 5)
    (update_change "r" "notes" "old" 3) one_row
    (mkRecord "r" "federation:p" "notes" (JStr "first") 1 None None 0 0)) as H.
  destruct (apply_changes _ _ _) as [n s']. apply H.
  - apply update_change_updates.
  - apply update_change_updates.
  - vm_compute. reflexivity.
  - apply no_clash_one_row.
  - simpl. lia.
Defined.
