(* ===== verification/Household.v ===== *)
(** * Households

    apps/core/src/household.rs: the in-memory store of households, invites and the
    map from users to households, the record access rule, and the handlers of
    apps/core/src/routes/household.rs. A handler is one step: its reads and writes of
    the store are not interleaved with another's. Generated ids and the clock are
    arguments; timestamps are nanoseconds. *)

From stdpp Require Import base tactics list strings gmap.
From Stdlib Require Import ZArith Lia.
From S2P Require Import Prelude RustString Types.

Inductive HouseholdRole : Type := Admin | Member | Guest.

#[export] Instance household_role_eq_dec : EqDecision HouseholdRole.
Proof. solve_decision. Defined.

Record HouseholdMember : Type := mkMember {
  m_user_id : string;
  m_display_name : string;
  m_email : option string;
  m_role : HouseholdRole;
  m_joined_at : timestamp;
}.

Record Household : Type := mkHousehold {
  h_id : string;
  h_name : string;
  h_members : list HouseholdMember;
  h_shared_collections : list string;
  h_created_at : timestamp;
  h_updated_at : timestamp;
}.

Record HouseholdInvite : Type := mkInvite {
  inv_id : string;
  inv_household_id : string;
  inv_email : string;
  inv_role : HouseholdRole;
  inv_invited_by : string;
  inv_created_at : timestamp;
  inv_expires_at : timestamp;
  inv_accepted : bool;
}.

Record HouseholdStore : Type := mkStore {
  households : gmap string Household;
  invites : gmap string HouseholdInvite;
  user_household_map : gmap string string;
}.

Definition new_household_store : HouseholdStore := mkStore ∅ ∅ ∅.

(** [chrono::Duration::days(7)]. *)
Definition INVITE_TTL : Z := 7 * 86400 * 1000000000.

Definition create_household (fresh : string) (now : timestamp)
    (name admin_user_id admin_display_name : string) (st : HouseholdStore)
    : Household * HouseholdStore :=
  let h := mkHousehold fresh name [mkMember admin_user_id admin_display_name None Admin now] []
             now now in
  (h, mkStore (<[fresh := h]> (households st)) (invites st)
        (<[admin_user_id := fresh]> (user_household_map st))).

Definition get_user_household (st : HouseholdStore) (user_id : string) : option Household :=
  hid ← user_household_map st !! user_id; households st !! hid.

(** [members.iter().find(|m| m.user_id == user_id)]. *)
Fixpoint find_member (user_id : string) (ms : list HouseholdMember) : option HouseholdMember :=
  match ms with
  | [] => None
  | m :: ms' => if bool_decide (m_user_id m = user_id) then Some m else find_member user_id ms'
  end.

Definition get_user_role (st : HouseholdStore) (user_id : string) : option HouseholdRole :=
  h ← get_user_household st user_id; m_role <$> find_member user_id (h_members h).

(** Writing the role of the first entry of a user. *)
Fixpoint set_role (user_id : string) (role : HouseholdRole) (ms : list HouseholdMember)
    : list HouseholdMember :=
  match ms with
  | [] => []
  | m :: ms' =>
      if bool_decide (m_user_id m = user_id)
      then mkMember (m_user_id m) (m_display_name m) (m_email m) role (m_joined_at m) :: ms'
      else m :: set_role user_id role ms'
  end.

Definition update_member_role (now : timestamp) (user_id : string) (new_role : HouseholdRole)
    (st : HouseholdStore) : bool * HouseholdStore :=
  match user_household_map st !! user_id with
  | None => (false, st)
  | Some hid =>
      match households st !! hid with
      | Some h =>
          match find_member user_id (h_members h) with
          | Some _ =>
              let h' := mkHousehold (h_id h) (h_name h) (set_role user_id new_role (h_members h))
                          (h_shared_collections h) (h_created_at h) now in
              (true, mkStore (<[hid := h']> (households st)) (invites st) (user_household_map st))
          | None => (false, st)
          end
      | None => (false, st)
      end
  end.

Definition create_invite (fresh : string) (now : timestamp) (household_id email : string)
    (role : HouseholdRole) (invited_by : string) (st : HouseholdStore)
    : option HouseholdInvite * HouseholdStore :=
  match households st !! household_id with
  | None => (None, st)
  | Some _ =>
      let i := mkInvite fresh household_id email role invited_by now (now + INVITE_TTL) false in
      (Some i, mkStore (households st) (<[fresh := i]> (invites st)) (user_household_map st))
  end.

Definition accepted_invite (i : HouseholdInvite) : HouseholdInvite :=
  mkInvite (inv_id i) (inv_household_id i) (inv_email i) (inv_role i) (inv_invited_by i)
    (inv_created_at i) (inv_expires_at i) true.

Definition add_member (m : HouseholdMember) (now : timestamp) (h : Household) : Household :=
  mkHousehold (h_id h) (h_name h) (h_members h ++ [m]) (h_shared_collections h)
    (h_created_at h) now.

Definition accept_invite (now : timestamp) (invite_id user_id display_name : string)
    (st : HouseholdStore) : result HouseholdMember string * HouseholdStore :=
  match invites st !! invite_id with
  | None => (Err "invite not found", st)
  | Some i =>
      if inv_accepted i then (Err "invite already accepted", st)
      else if (inv_expires_at i <? now)%Z then (Err "invite expired", st)
      else
        let hid := inv_household_id i in
        let m := mkMember user_id display_name None (inv_role i) now in
        let hs := match households st !! hid with
                  | Some h => <[hid := add_member m now h]> (households st)
                  | None => households st
                  end in
        (Ok m, mkStore hs (<[invite_id := accepted_invite i]> (invites st))
                 (<[user_id := hid]> (user_household_map st)))
  end.

Definition add_shared_collection (now : timestamp) (household_id collection : string)
    (st : HouseholdStore) : result unit string * HouseholdStore :=
  match households st !! household_id with
  | None => (Err "household not found", st)
  | Some h =>
      if contains (h_shared_collections h) collection then (Ok tt, st)
      else
        let h' := mkHousehold (h_id h) (h_name h) (h_members h)
                    (h_shared_collections h ++ [collection]) (h_created_at h) now in
        (Ok tt, mkStore (<[household_id := h']> (households st)) (invites st)
                  (user_household_map st))
  end.

Definition is_shared_collection (st : HouseholdStore) (household_id collection : string) : bool :=
  match households st !! household_id with
  | Some h => contains (h_shared_collections h) collection
  | None => false
  end.

(** ** Record access *)

Definition check_record_access (requesting_user_id : string)
    (requesting_user_role : option HouseholdRole) (requesting_user_household_id : option string)
    (record_user_id record_household_id : option string) (collection : string)
    (shared_collections : list string) (write : bool) : bool :=
  match record_user_id with
  | None => true
  | Some record_owner =>
      if bool_decide (record_owner = requesting_user_id) then true
      else
        match record_household_id with
        | None => false
        | Some record_hid =>
            if negb (bool_decide (requesting_user_household_id = Some record_hid)) then false
            else if write && bool_decide (requesting_user_role = Some Guest) then false
            else if contains shared_collections collection then true
            else bool_decide (requesting_user_role = Some Admin)
        end
  end.

Definition can_access_record (st : HouseholdStore) (requesting_user_id : string)
    (record_user_id record_household_id : option string) (collection : string) (write : bool)
    : bool :=
  let '(user_hid, user_role, shared) :=
    match get_user_household st requesting_user_id with
    | Some h => (Some (h_id h), m_role <$> find_member requesting_user_id (h_members h),
                 h_shared_collections h)
    | None => (None, None, [])
    end in
  check_record_access requesting_user_id user_role user_hid record_user_id record_household_id
    collection shared write.

(** ** The handlers *)

Inductive Body : Type :=
| HouseholdData (h : Household)
| InviteData (i : HouseholdInvite)
| MemberData (m : HouseholdMember)
| RoleData (user_id : string) (role : HouseholdRole)
| CollectionData (collection : string)
| ErrorData (code message : string).

(** Status code and body. *)
Definition Reply : Type := Z * Body.

Definition no_user (message : string) : Reply := (400%Z, ErrorData "HOUSEHOLD_NO_USER_ID" message).

Definition is_admin (st : HouseholdStore) (user_id : string) : bool :=
  bool_decide (get_user_role st user_id = Some Admin).

Definition route_create (fresh : string) (now : timestamp) (user : option string)
    (name display_name : string) (st : HouseholdStore) : Reply * HouseholdStore :=
  match user with
  | None => (no_user "user identity required for household creation", st)
  | Some uid =>
      let '(h, st') := create_household fresh now name uid display_name st in
      ((201%Z, HouseholdData h), st')
  end.

Definition route_invite (fresh : string) (now : timestamp) (user : option string) (email : string)
    (role : HouseholdRole) (st : HouseholdStore) : Reply * HouseholdStore :=
  match user with
  | None => (no_user "user identity required", st)
  | Some uid =>
      if negb (is_admin st uid) then
        ((403%Z, ErrorData "HOUSEHOLD_FORBIDDEN" "only admins can invite members"), st)
      else
        match get_user_household st uid with
        | None => ((404%Z, ErrorData "HOUSEHOLD_NOT_FOUND" "user has no household"), st)
        | Some h =>
            match create_invite fresh now (h_id h) email role uid st with
            | (Some i, st') => ((201%Z, InviteData i), st')
            | (None, st') =>
                ((500%Z, ErrorData "HOUSEHOLD_INVITE_FAILED" "failed to create invite"), st')
            end
        end
  end.

Definition route_accept (now : timestamp) (user : option string) (invite_id display_name : string)
    (st : HouseholdStore) : Reply * HouseholdStore :=
  match user with
  | None => (no_user "user identity required", st)
  | Some uid =>
      match accept_invite now invite_id uid display_name st with
      | (Ok m, st') => ((200%Z, MemberData m), st')
      | (Err e, st') => ((400%Z, ErrorData "HOUSEHOLD_INVITE_ERROR" e), st')
      end
  end.

Definition admin_count (h : Household) : nat :=
  length (filter (λ m, m_role m = Admin) (h_members h)).

Definition route_update_role (now : timestamp) (user : option string) (target : string)
    (role : HouseholdRole) (st : HouseholdStore) : Reply * HouseholdStore :=
  match user with
  | None => (no_user "user identity required", st)
  | Some uid =>
      if negb (is_admin st uid) then
        ((403%Z, ErrorData "HOUSEHOLD_FORBIDDEN" "only admins can change roles"), st)
      else
        let last_admin :=
          bool_decide (target = uid ∧ role ≠ Admin) &&
          match get_user_household st uid with
          | Some h => bool_decide (admin_count h ≤ 1)
          | None => false
          end in
        if last_admin then
          ((400%Z, ErrorData "HOUSEHOLD_LAST_ADMIN" "cannot demote the last admin"), st)
        else
          match update_member_role now target role st with
          | (true, st') => ((200%Z, RoleData target role), st')
          | (false, st') =>
              ((404%Z, ErrorData "HOUSEHOLD_MEMBER_NOT_FOUND" "member not found in any household"), st')
          end
  end.

Definition route_share (now : timestamp) (user : option string) (collection : string)
    (st : HouseholdStore) : Reply * HouseholdStore :=
  match user with
  | None => (no_user "user identity required", st)
  | Some uid =>
      if negb (is_admin st uid) then
        ((403%Z, ErrorData "HOUSEHOLD_FORBIDDEN" "only admins can manage shared collections"), st)
      else
        match get_user_household st uid with
        | None => ((404%Z, ErrorData "HOUSEHOLD_NOT_FOUND" "no household found"), st)
        | Some h =>
            match add_shared_collection now (h_id h) collection st with
            | (Ok _, st') => ((200%Z, CollectionData collection), st')
            | (Err e, st') => ((500%Z, ErrorData "HOUSEHOLD_ERROR" e), st')
            end
        end
  end.

(** One request, with fresh ids where the code generates them. *)
Inductive household_step : HouseholdStore → HouseholdStore → Prop :=
| hs_create fresh now user name dn st :
    households st !! fresh = None → household_step st (route_create fresh now user name dn st).2
| hs_invite fresh now user email role st :
    invites st !! fresh = None → household_step st (route_invite fresh now user email role st).2
| hs_accept now user i dn st : household_step st (route_accept now user i dn st).2
| hs_role now user target role st : household_step st (route_update_role now user target role st).2
| hs_share now user c st : household_step st (route_share now user c st).2.

(** ** The store's invariant *)

Record hstore_wf (st : HouseholdStore) : Prop := {
  hw_keyed : ∀ id h, households st !! id = Some h → h_id h = id;
  hw_invites : ∀ i inv, invites st !! i = Some inv → is_Some (households st !! inv_household_id inv);
  hw_members : ∀ u hid, user_household_map st !! u = Some hid →
    ∃ h, households st !! hid = Some h ∧ is_Some (find_member u (h_members h));
}.

Lemma find_member_app u ms m :
  find_member u (ms ++ [m]) =
  match find_member u ms with
  | Some x => Some x
  | None => if bool_decide (m_user_id m = u) then Some m else None
  end.
Proof. induction ms as [|x ms IH]; simpl; [done|]. by destruct (bool_decide (m_user_id x = u)). Qed.

Lemma find_member_set_role u v role ms :
  is_Some (find_member u (set_role v role ms)) ↔ is_Some (find_member u ms).
Proof.
  induction ms as [|x ms IH]; simpl; [done|].
  destruct (bool_decide (m_user_id x = v)); simpl; destruct (bool_decide (m_user_id x = u)); try done.
Qed.

Lemma find_member_set_role_eq u role ms m :
  find_member u ms = Some m →
  ∃ m', find_member u (set_role u role ms) = Some m' ∧ m_role m' = role.
Proof.
  induction ms as [|x ms IH]; simpl; [done|]. case_bool_decide as Hx; simpl.
  - intros _. rewrite bool_decide_eq_true_2 by done. by eexists.
  - intros Hm. rewrite bool_decide_eq_false_2 by done. by apply IH.
Qed.

(** Households are replaced only by ones with the same id and at least the same
    members. *)
Lemma wf_replace st hid h h' invs umap :
  hstore_wf st → households st !! hid = Some h → h_id h' = h_id h →
  (∀ u, is_Some (find_member u (h_members h)) → is_Some (find_member u (h_members h'))) →
  (∀ i inv, invs !! i = Some inv → ∃ i' inv', invites st !! i' = Some inv' ∧
     inv_household_id inv = inv_household_id inv') →
  (∀ u id, umap !! u = Some id → user_household_map st !! u = Some id ∨
     (id = hid ∧ is_Some (find_member u (h_members h')))) →
  hstore_wf (mkStore (<[hid := h']> (households st)) invs umap).
Proof.
  intros [Hk Hi Hm] Hh Hid Hmem Hinv Hu. split; simpl.
  - intros id x. rewrite lookup_insert_Some. intros [[-> ->]|[_ Hx]]; [|by apply Hk].
    rewrite Hid. by apply Hk.
  - intros i inv (i' & inv' & Hi' & ->)%Hinv. rewrite lookup_insert_is_Some.
    destruct (decide (hid = inv_household_id inv')); [by left|right; split; [done|by eapply Hi]].
  - intros u id [Hu'|[-> Hf]]%Hu.
    + destruct (Hm _ _ Hu') as (x & Hx & Hf). destruct (decide (hid = id)) as [<-|Hne].
      * exists h'. rewrite lookup_insert_eq. split; [done|]. apply Hmem. congruence.
      * exists x. by rewrite lookup_insert_ne.
    + exists h'. by rewrite lookup_insert_eq.
Qed.

Lemma create_household_wf fresh now name u dn st :
  hstore_wf st → households st !! fresh = None →
  hstore_wf (create_household fresh now name u dn st).2.
Proof.
  intros [Hk Hi Hm] Hf. split; simpl.
  - intros id x. rewrite lookup_insert_Some. intros [[<- <-]|[_ Hx]]; [done|by apply Hk].
  - intros i inv Hinv. rewrite lookup_insert_is_Some.
    destruct (decide (fresh = inv_household_id inv)); [by left|right; split; [done|by eapply Hi]].
  - intros v id. rewrite lookup_insert_Some. intros [[<- <-]|[_ Hv]].
    + eexists. rewrite lookup_insert_eq. split; [done|]. simpl.
      rewrite bool_decide_eq_true_2 by done. by eexists.
    + destruct (Hm _ _ Hv) as (x & Hx & Hs). exists x.
      rewrite lookup_insert_ne by congruence. done.
Qed.

Lemma create_invite_wf fresh now hid email role by_ st :
  hstore_wf st → hstore_wf (create_invite fresh now hid email role by_ st).2.
Proof.
  intros Hst. pose proof Hst as [Hk Hi Hm]. unfold create_invite.
  destruct (households st !! hid) as [h|] eqn:E; [|done]. split; simpl; [done| |done].
  intros i inv. rewrite lookup_insert_Some. intros [[<- <-]|[_ Hx]]; [by eexists|by eapply Hi].
Qed.

Lemma update_member_role_wf now u role st :
  hstore_wf st → hstore_wf (update_member_role now u role st).2.
Proof.
  intros Hst. unfold update_member_role.
  destruct (user_household_map st !! u) as [hid|]; [|done].
  destruct (households st !! hid) as [h|] eqn:Eh; [|done].
  destruct (find_member u (h_members h)); [|done]. simpl.
  eapply wf_replace; [done..| | |]; simpl; [|naive_solver|naive_solver].
  intros v. by rewrite find_member_set_role.
Qed.

Lemma accept_invite_wf now i u dn st :
  hstore_wf st → hstore_wf (accept_invite now i u dn st).2.
Proof.
  intros Hst. unfold accept_invite. destruct (invites st !! i) as [inv|] eqn:Ei; [|done].
  destruct (inv_accepted inv); [done|]. destruct (_ <? _)%Z; [done|]. simpl.
  destruct (hw_invites st Hst _ _ Ei) as [h Eh]. rewrite Eh.
  eapply wf_replace; [done..| | |]; simpl.
  - intros v Hv. rewrite find_member_app. destruct (find_member v (h_members h)); [done|].
    by destruct Hv.
  - intros j x. rewrite lookup_insert_Some. intros [[<- <-]|[_ Hx]]; [|by eauto].
    by exists i, inv.
  - intros v id. rewrite lookup_insert_Some. intros [[<- <-]|[_ Hv]]; [right|by left].
    split; [done|]. rewrite find_member_app. simpl. rewrite bool_decide_eq_true_2 by done.
    destruct (find_member u (h_members h)); by eexists.
Qed.

Lemma add_shared_collection_wf now hid c st :
  hstore_wf st → hstore_wf (add_shared_collection now hid c st).2.
Proof.
  intros Hst. unfold add_shared_collection.
  destruct (households st !! hid) as [h|] eqn:Eh; [|done]. destruct (contains _ _); [done|]. simpl.
  eapply wf_replace; [done..| | |]; simpl; naive_solver.
Qed.

Lemma household_step_wf st st' : hstore_wf st → household_step st st' → hstore_wf st'.
Proof.
  intros Hst Hstep. destruct Hstep as [fresh now user name dn st Hf|fresh now user email role st Hf
    |now user i dn st|now user target role st|now user c st]; destruct user as [u|]; try done; simpl.
  - by apply (create_household_wf fresh now name u dn st).
  - destruct (negb _); [done|]. destruct (get_user_household st u) as [h|]; [|done].
    pose proof (create_invite_wf fresh now (h_id h) email role u st Hst).
    by destruct (create_invite _ _ _ _ _ _ _) as [[|] ?].
  - pose proof (accept_invite_wf now i u dn st Hst). by destruct (accept_invite _ _ _ _ _) as [[|] ?].
  - destruct (negb _); [done|]. destruct (_ && _); [done|].
    pose proof (update_member_role_wf now target role st Hst).
    by destruct (update_member_role _ _ _ _) as [[|] ?].
  - destruct (negb _); [done|]. destruct (get_user_household st u) as [h|]; [|done].
    pose proof (add_shared_collection_wf now (h_id h) c st Hst).
    by destruct (add_shared_collection _ _ _ _) as [[|] ?].
Qed.

Lemma household_reachable_wf st : rtc household_step new_household_store st → hstore_wf st.
Proof.
  intros Hr. eapply (rtc_ind_r hstore_wf); [|intros; by eapply household_step_wf|exact Hr].
  split; simpl; intros ??; by rewrite lookup_empty.
Qed.

(** ** Theorems *)

Lemma check_record_access_true u role uhid owner hid coll shared write :
  check_record_access u role uhid owner hid coll shared write = true ↔
  owner = None ∨ owner = Some u ∨
  (is_Some owner ∧ is_Some hid ∧ uhid = hid ∧ (write = true → role ≠ Some Guest) ∧
   (coll ∈ shared ∨ role = Some Admin)).
Proof.
  unfold check_record_access. destruct owner as [o|]; [|naive_solver].
  case_bool_decide as Ho; [naive_solver|]. destruct hid as [hid|].
  2: { split; [done|]. intros [|[|(_ & [? ?] & _)]]; naive_solver. }
  case_bool_decide as Hh; simpl; [|naive_solver].
  destruct write, (bool_decide (role = Some Guest)) eqn:Hg; simpl; bool_to_prop;
    try (destruct (contains shared coll) eqn:Hc;
         [apply contains_true in Hc|apply contains_false in Hc; rewrite bool_decide_eq_true]);
    naive_solver.
Qed.

(** Record access, in every store the handlers can reach: a user is given access
    to a record exactly when it has no owner, when it is their own, or when it belongs
    to the household they are in and they have a role there that allows it: the
    collection is shared or they are an admin, and a guest never writes. *)
Theorem record_access_exact st u owner hid coll write :
  rtc household_step new_household_store st →
  can_access_record st u owner hid coll write = true ↔
  owner = None ∨ owner = Some u ∨
  ∃ o h role, owner = Some o ∧ get_user_household st u = Some h ∧ get_user_role st u = Some role ∧
    hid = Some (h_id h) ∧ (write = true → role ≠ Guest) ∧
    (coll ∈ h_shared_collections h ∨ role = Admin).
Proof.
  intros Hr. apply household_reachable_wf in Hr as [_ _ Hm].
  unfold can_access_record, get_user_role. destruct (get_user_household st u) as [h|] eqn:Eh; simpl.
  - assert (∃ m, find_member u (h_members h) = Some m) as [m Em].
    { unfold get_user_household in Eh. destruct (user_household_map st !! u) as [id|] eqn:Eu; [|done].
      simpl in Eh. destruct (Hm _ _ Eu) as (h' & Hh' & Hf). simplify_eq. exact Hf. }
    rewrite Em, check_record_access_true. simpl. split.
    + intros [|[|([o ->] & [x ->] & [= <-] & Hw & Hc)]]; [by left|by right; left|right; right].
      exists o, h, (m_role m). split_and!; [done..| |].
      * intros Ht Hg. apply (Hw Ht). by rewrite Hg.
      * destruct Hc as [|[=]]; [by left|by right].
    + intros [|[|(o & h' & role & -> & [= <-] & [= <-] & -> & Hw & Hc)]]; [by left|by right; left|].
      right; right. split_and!; [by eexists..|done| |].
      * intros Ht [= Hg]. by apply (Hw Ht).
      * destruct Hc as [|<-]; [by left|by right].
  - rewrite check_record_access_true. split; [|naive_solver].
    intros [|[|(_ & [x ->] & ? & _)]]; naive_solver.
Qed.

Definition invite_used (i : string) (st : HouseholdStore) : Prop :=
  ∃ inv, invites st !! i = Some inv ∧ inv_accepted inv = true.

Lemma household_step_used i st st' : household_step st st' → invite_used i st → invite_used i st'.
Proof.
  intros Hstep (inv & Hi & Ha). destruct Hstep as [fresh now user name dn st Hf
    |fresh now user email role st Hf|now user j dn st|now user target role st|now user c st];
    destruct user as [u|]; try (by exists inv); simpl.
  - destruct (negb _); [by exists inv|]. destruct (get_user_household st u); [|by exists inv].
    unfold create_invite. destruct (households st !! _); [|by exists inv]. simpl.
    exists inv. simpl. rewrite lookup_insert_ne by congruence. done.
  - unfold accept_invite. destruct (invites st !! j) as [x|] eqn:Ej; [|by exists inv].
    destruct (inv_accepted x) eqn:Ex; [by exists inv|]. destruct (_ <? _)%Z; [by exists inv|].
    exists inv. simpl. rewrite lookup_insert_ne by congruence. done.
  - destruct (negb _); [by exists inv|]. destruct (_ && _); [by exists inv|].
    unfold update_member_role. repeat case_match; simplify_eq/=; by exists inv.
  - destruct (negb _); [by exists inv|]. destruct (get_user_household st u); [|by exists inv].
    unfold add_shared_collection. repeat case_match; simplify_eq/=; by exists inv.
Qed.

(** An invite is used at most once: after one user has accepted it, whatever
    requests follow, anyone's attempt to accept it again is refused and changes
    nothing. *)
Theorem invite_single_use now i u dn st m st1 st2 now' u' dn' :
  accept_invite now i u dn st = (Ok m, st1) → rtc household_step st1 st2 →
  accept_invite now' i u' dn' st2 = (Err "invite already accepted", st2).
Proof.
  intros Ha Hr. assert (invite_used i st1) as H1.
  { unfold accept_invite in Ha. destruct (invites st !! i) as [inv|]; [|done].
    destruct (inv_accepted inv); [done|]. destruct (_ <? _)%Z; [done|]. simplify_eq.
    exists (accepted_invite inv). simpl. by rewrite lookup_insert_eq. }
  assert (invite_used i st2) as (inv & Hi & Hacc).
  { clear Ha. induction Hr as [|? ? ? Hs _ IH]; [done|]. by eapply IH, household_step_used. }
  unfold accept_invite. by rewrite Hi, Hacc.
Qed.

(** ** Concrete stores *)

Definition alice_store : HouseholdStore :=
  (route_create "A" 0 (Some "alice") "Smith" "Alice" new_household_store).2.
Definition mallory_store : HouseholdStore :=
  (route_create "M" 1 (Some "mallory") "Own" "Mallory" alice_store).2.
Definition invited_store (role : HouseholdRole) : HouseholdStore :=
  (route_invite "i" 2 (Some "alice") "bob@example.org" role mallory_store).2.
Definition bob_store : HouseholdStore :=
  (route_accept 3 (Some "bob") "i" "Bob" (invited_store Guest)).2.

(** An admin changes roles in households that are not theirs: a user who creates a
    household of their own can demote the only admin of any other one, which is left
    without an admin. *)
Theorem foreign_admin_demotes :
  let '(reply, st) := route_update_role 5 (Some "mallory") "alice" Guest mallory_store in
  reply = (200%Z, RoleData "alice" Guest) ∧
  get_user_role st "alice" = Some Guest ∧
  admin_count <$> households st !! "A" = Some 0.
Proof. vm_compute. done. Qed.

(** Accepting an invite does not take a member's earlier entries out: a guest who
    accepts an invite as admin is answered that they are an admin and stays a guest. *)
Theorem second_invite_ineffective :
  let st1 := (route_invite "j" 4 (Some "alice") "bob@example.org" Admin bob_store).2 in
  let '(reply, st2) := route_accept 5 (Some "bob") "j" "Bob" st1 in
  reply = (200%Z, MemberData (mkMember "bob" "Bob" None Admin 5)) ∧
  get_user_role st2 "bob" = Some Guest.
Proof. vm_compute. done. Qed.

Lemma bob_store_reachable : rtc household_step new_household_store bob_store.
Proof.
  eapply rtc_l; [by apply (hs_create "A" 0 (Some "alice") "Smith" "Alice")|].
  eapply rtc_l; [by apply (hs_create "M" 1 (Some "mallory") "Own" "Mallory")|].
  eapply rtc_l; [by apply (hs_invite "i" 2 (Some "alice") "bob@example.org" Guest)|].
  eapply rtc_once, hs_accept.
Qed.

Lemma record_access_exact_witness :
  can_access_record bob_store "alice" (Some "bob") (Some "A") "notes" true = true ∧
  can_access_record bob_store "mallory" (Some "bob") (Some "A") "notes" false = false.
Proof.
  split; [|reflexivity].
  apply (record_access_exact bob_store "alice" (Some "bob") (Some "A") "notes" true bob_store_reachable).
  right; right. eexists "bob", _, Admin. split_and!; [reflexivity..|done|by right].
Defined.

Lemma invite_single_use_witness :
  accept_invite 4 "i" "eve" "Eve" bob_store = (Err "invite already accepted", bob_store).
Proof.
  eapply (invite_single_use 3 "i" "bob" "Bob" (invited_store Guest)); [vm_compute; reflexivity|].
  reflexivity.
Defined.
