(* ===== verification/PluginRuntime.v ===== *)
(** * The plugin executor

    packages/plugin-system/src/execute.rs: the bridge from workflow steps to loaded
    plugins. It is the instance of the executor's [PluginExecutor] interface that the
    system runs with, so the executor's theorems apply to it. Serialising a message,
    running the WASM export and deserialising its output are the parameter
    [WasmRuntime]. *)

From stdpp Require Import base tactics list strings gmap.
From Stdlib Require Import ZArith Lia.
From S2P Require Import Prelude RustString Json Types Executor ExecutorFacts Capability Manifest Lifecycle.

(** A loaded module's state, and a call of one of its exports: the bytes it returns
    (deserialised, or why they do not deserialise) or the runtime's error. *)
Class WasmRuntime (I : Type) : Type := {
  wasm_call : string → PipelineMessage → I → result (result PipelineMessage string) PluginError * I;
  wall_clock : nat → timestamp;
}.

Record PluginHandle (I : Type) : Type := mkHandle {
  ph_instance : I;
  ph_manifest : PluginManifest;
  ph_capabilities : ApprovedCapabilities;
}.
Arguments mkHandle {I} ph_instance ph_manifest ph_capabilities.
Arguments ph_capabilities {I} p.
Arguments ph_manifest {I} p.
Arguments ph_instance {I} p.

(** [PluginSystemExecutor] with the clock readings already taken. *)
Record PluginSystem (I : Type) : Type := mkPluginSystem {
  ps_handles : gmap string (PluginHandle I);
  ps_lifecycle : LifecycleManager;
  ps_ticks : nat;
}.
Arguments mkPluginSystem {I} ps_handles ps_lifecycle ps_ticks.
Arguments ps_handles {I} p.
Arguments ps_lifecycle {I} p.
Arguments ps_ticks {I} p.

Section Runtime.
Context {I : Type} `{WasmRuntime I}.

(** [PluginSystemExecutor::new]: a later handle replaces an earlier one of the same
    id. *)
Definition new_system (handles : list (PluginHandle I)) (lifecycle : LifecycleManager)
    : PluginSystem I :=
  mkPluginSystem
    (foldl (λ m h, <[meta_id (mf_plugin (ph_manifest h)) := h]> m) ∅ handles) lifecycle 0.

Definition execution_failed {A} (m : string) : result A EngineError :=
  Err (plugin_engine_error (ExecutionFailed m)).

Definition declares_action (m : PluginManifest) (action : string) : bool :=
  existsb (λ a, bool_decide (a.1 = action)) (mf_actions m).

Definition set_handle (s : PluginSystem I) (id : string) (h : PluginHandle I) : PluginSystem I :=
  mkPluginSystem (<[id := h]> (ps_handles s)) (ps_lifecycle s) (ps_ticks s).

Definition with_instance (h : PluginHandle I) (i : I) : PluginHandle I :=
  mkHandle i (ph_manifest h) (ph_capabilities h).

Definition system_execute (plugin_id action : string) (input : PipelineMessage)
    (s : PluginSystem I) : result PipelineMessage EngineError * PluginSystem I :=
  match state (ps_lifecycle s) plugin_id with
  | Some Running =>
      match ps_handles s !! plugin_id with
      | None => (execution_failed ("plugin '" +:+ plugin_id +:+ "' not found"), s)
      | Some h =>
          if negb (declares_action (ph_manifest h) action) then
            (execution_failed ("unknown action '" +:+ action +:+ "' for plugin '" +:+ plugin_id +:+ "'"), s)
          else
            let '(r, i) := wasm_call action input (ph_instance h) in
            (match r with
             | Err e => Err (plugin_engine_error e)
             | Ok (Err e) => execution_failed
                 ("invalid output from plugin '" +:+ plugin_id +:+ "' action '" +:+ action +:+ "': " +:+ e)
             | Ok (Ok m) => Ok m
             end, set_handle s plugin_id (with_instance h i))
      end
  | Some st =>
      (execution_failed ("plugin '" +:+ plugin_id +:+ "' is not running (current state: "
         +:+ lifecycle_display st +:+ ")"), s)
  | None => (execution_failed ("plugin '" +:+ plugin_id +:+ "' not found"), s)
  end.

Definition tick (s : PluginSystem I) : PluginSystem I :=
  mkPluginSystem (ps_handles s) (ps_lifecycle s) (S (ps_ticks s)).

#[export] Instance plugin_system_executor : PluginExecutor (PluginSystem I) := {|
  plugin_execute := system_execute;
  clock_now s := (wall_clock (ps_ticks s), tick s);
  clock_sleep _ s := tick s;
|}.

(** ** Facts *)

(** The plugin can be called: running, loaded, and the action declared. *)
Definition callable (s : PluginSystem I) (plugin_id action : string) : Prop :=
  state (ps_lifecycle s) plugin_id = Some Running ∧
  ∃ h, ps_handles s !! plugin_id = Some h ∧ declares_action (ph_manifest h) action = true.

Lemma not_callable_refused s plugin_id action input :
  ¬ callable s plugin_id action →
  ∃ m, system_execute plugin_id action input s = (execution_failed m, s).
Proof.
  intros Hn. unfold system_execute. destruct (state _ _) as [st|] eqn:Es; [|by eexists].
  destruct st; try by eexists. destruct (ps_handles s !! plugin_id) as [h|] eqn:Eh; [|by eexists].
  destruct (declares_action (ph_manifest h) action) eqn:Ea; simpl; [|by eexists].
  destruct Hn. split; [done|by exists h].
Qed.

(** What a run may do to the system: no plugin changes state or manifest, and the
    instance of a plugin only changes when the run called a declared action of it while
    it was running. *)
Definition evolves (s s' : ExecState (PluginSystem I)) : Prop :=
  ps_lifecycle (world s') = ps_lifecycle (world s) ∧
  (∀ id, ph_manifest <$> ps_handles (world s') !! id = ph_manifest <$> ps_handles (world s) !! id) ∧
  ∃ δ, trace s' = trace s ++ δ ∧
    ∀ id, (∀ action input, ObsExecute id action input ∈ δ → ¬ callable (world s) id action) →
      ps_handles (world s') !! id = ps_handles (world s) !! id.

Lemma callable_ext s s' id action :
  ps_lifecycle s' = ps_lifecycle s →
  ph_manifest <$> ps_handles s' !! id = ph_manifest <$> ps_handles s !! id →
  callable s' id action → callable s id action.
Proof.
  intros Hl Hm [Hr (h & Hh & Ha)]. rewrite Hl in Hr. rewrite Hh in Hm. split; [done|].
  destruct (ps_handles s !! id) as [h'|]; [|done]. simplify_eq/=. exists h'. split; [done|congruence].
Qed.

#[local] Instance evolves_preorder : PreOrder evolves.
Proof.
  split.
  - intros s. split; [done|]. split; [done|]. exists []. by rewrite app_nil_r.
  - intros s1 s2 s3 (L1 & M1 & δ1 & T1 & C1) (L2 & M2 & δ2 & T2 & C2).
    split; [congruence|]. split; [intros id; by rewrite M2|].
    exists (δ1 ++ δ2). split; [by rewrite T2, T1, app_assoc|]. intros id Hid.
    rewrite C2; [apply C1|]; intros action input Hin.
    + apply (Hid action input). set_solver.
    + intros Hc. apply (Hid action input); [set_solver|].
      by apply (callable_ext (world s1) (world s2)).
Qed.

Lemma call_evolves p a m : moves evolves (call_plugin p a m).
Proof.
  intros s. unfold call_plugin. simpl.
  destruct (system_execute p a m (world s)) as [r w] eqn:E. simpl.
  assert (w = world s ∨ callable (world s) p a ∧ ∃ h i, ps_handles (world s) !! p = Some h ∧
            w = set_handle (world s) p (with_instance h i)) as [->|(Hc & h & i & Hh & ->)].
  { unfold system_execute in E. destruct (state _ _) as [st|] eqn:Es; [|simplify_eq; by left].
    destruct st; try (simplify_eq; by left).
    destruct (ps_handles (world s) !! p) as [h|] eqn:Eh; [|simplify_eq; by left].
    destruct (declares_action (ph_manifest h) a) eqn:Ea; simpl in E; [|simplify_eq; by left].
    destruct (wasm_call _ _ _) as [? i]. simplify_eq. right.
    split; [split; [done|by exists h]|]. by exists h, i. }
  - split; [done|]. split; [done|]. by eexists.
  - split; [done|]. simpl. split.
    { intros id. destruct (decide (id = p)) as [->|Hid]; [|by rewrite lookup_insert_ne].
      by rewrite lookup_insert_eq, Hh. }
    eexists. split; [done|]. intros id Hid. rewrite lookup_insert_ne; [done|]. intros ->.
    apply (Hid a m); [set_solver|done].
Qed.

(** Running a workflow over the plugin system changes no plugin's lifecycle state
    and no manifest, and a plugin's instance changes only when the run called an action
    that the plugin declares while the plugin was running: a plugin that is stopped, or
    that the workflow does not call, is left exactly as it was. *)
Theorem run_touches_callable_only `{JsonLib} oc workflow msg (s : ExecState (PluginSystem I)) :
  evolves s (run_steps oc workflow msg s).2.
Proof.
  refine (run_steps_moves oc evolves _ _ _ _ _ _ workflow msg s).
  - intros s1. split; [done|]. split; [done|]. exists []. by rewrite app_nil_r.
  - intros k s1. split; [done|]. split; [done|]. by eexists.
  - intros l s1. split; [done|]. split; [done|]. exists []. by rewrite app_nil_r.
  - apply call_evolves.
  - intros s1. split; [done|]. split; [done|]. exists []. by rewrite app_nil_r.
  - intros l s1. split; [done|]. split; [done|]. exists []. by rewrite app_nil_r.
Qed.
End Runtime.
