(* ===== verification/HostFunctions.v ===== *)
(** * Host functions

    packages/plugin-system/src/host_functions: what a plugin in the sandbox can ask
    of the host (storage.rs, blob.rs, http.rs, config.rs, logging.rs; events.rs is in
    EventBus.v), and injection.rs, which decides what functions the sandbox has. A
    request is the deserialised input (or why it does not deserialise); a reply is the
    value that is serialised. Backends and the network are an interface; every call
    that reaches them is recorded. *)

From stdpp Require Import base tactics list strings gmap.
From Stdlib Require Import Strings.Byte Ascii ZArith Lia.
From S2P Require Import Prelude RustString Json Types Capability Manifest Crypto EventBus.

(** ** Requests (packages/types/src/storage.rs and the host function files) *)

Inductive FilterOp : Type := OpEq | OpGte | OpLte | OpContains | OpNotEq.

Record QueryFilter : Type := mkFilter {
  qf_field : string;
  qf_operator : FilterOp;
  qf_value : json;
}.

Inductive SortDirection : Type := Asc | Desc.

Record SortField : Type := mkSortField {
  sort_field : string;
  sort_direction : SortDirection;
}.

Record StorageQuery : Type := mkStorageQuery {
  sq_collection : string;
  sq_plugin_id : string;
  sq_filters : list QueryFilter;
  sq_sort : list SortField;
  sq_limit : option Z;
  sq_offset : option Z;
}.

Inductive StorageMutation : Type :=
| MutInsert (plugin_id collection : string) (data : PipelineMessage)
| MutUpdate (plugin_id collection : string) (id : uuid) (data : PipelineMessage)
            (expected_version : Z)
| MutDelete (plugin_id collection : string) (id : uuid).

Definition mutation_plugin (m : StorageMutation) : string :=
  match m with
  | MutInsert p _ _ | MutUpdate p _ _ _ _ | MutDelete p _ _ => p
  end.

Definition is_delete (m : StorageMutation) : bool :=
  match m with
  | MutDelete _ _ _ => true
  | _ => false
  end.

Record HostBlobMeta : Type := mkBlobMeta {
  bm_key : string;
  bm_size_bytes : Z;
  bm_content_type : string;
}.

Record BlobStoreRequest : Type := mkBlobStore {
  bs_key : string;
  bs_data_base64 : string;
  bs_content_type : option string;
}.

Record HttpRequest : Type := mkHttpRequest {
  hr_method : string;
  hr_url : string;
  hr_headers : gmap string string;
  hr_body : option string;
}.

(** What the network answers: a status, the headers whose values are text, and the
    body; or an error, with whether it is a timeout. *)
Record HttpAnswer : Type := mkHttpAnswer {
  ans_status : Z;
  ans_headers : gmap string string;
  ans_body : result bytes string;
}.

(** ** Backends *)

Class HostBackends (B : Type) : Type := {
  backend_execute : StorageQuery → B → result (list PipelineMessage) string * B;
  backend_mutate : StorageMutation → B → result unit string * B;
  backend_blob_store : string → bytes → option string → B → result HostBlobMeta string * B;
  backend_blob_retrieve : string → B → result (bytes * HostBlobMeta) string * B;
  backend_blob_delete : string → B → result unit string * B;
  http_send : HttpRequest → B → result HttpAnswer (bool * string) * B;
  (** [reqwest::Method::from_str] and [String::from_utf8_lossy] *)
  http_method_ok : string → bool;
  utf8_lossy : bytes → string;
}.

(** The calls that leave the sandbox. *)
Inductive HostCall : Type :=
| CallExecute (q : StorageQuery)
| CallMutate (m : StorageMutation)
| CallBlobStore (key : string) (data : bytes)
| CallBlobRetrieve (key : string)
| CallBlobDelete (key : string)
| CallHttp (r : HttpRequest)
| CallEmit (event_name : string) (payload : json).

Record HostWorld (B : Type) : Type := mkHostWorld { hw_backend : B; hw_calls : list HostCall }.
Arguments mkHostWorld {B} hw_backend hw_calls.
Arguments hw_backend {B} h.
Arguments hw_calls {B} h.

(** The values a host function serialises for the plugin. *)
Inductive HostReply : Type :=
| ReplyMessages (ms : list PipelineMessage)
| ReplyMeta (m : HostBlobMeta)
| ReplyBlob (data_base64 : string) (size_bytes : Z) (content_type : string)
| ReplyHttp (status : Z) (headers : gmap string string) (body : string)
| ReplyConfig (config : json)
| ReplyAck.

Definition MAX_BLOB_SIZE : nat := 10 * 1024 * 1024.
Definition MAX_RESPONSE_BODY_SIZE : nat := 10 * 1024 * 1024.
Definition REQUEST_TIMEOUT_SECS : Z := 30.

(** The calling plugin: the fields the host contexts share. *)
Record HostContext : Type := mkHostContext {
  hc_plugin_id : string;
  hc_capabilities : ApprovedCapabilities;
}.

Definition in_plugin (ctx : HostContext) (pre post : string) : string :=
  pre +:+ " '" +:+ hc_plugin_id ctx +:+ "'" +:+ post.

Definition lacks (ctx : HostContext) (c : Capability) : PluginError :=
  RuntimeCapabilityViolation
    (in_plugin ctx "plugin" (" lacks capability '" +:+ capability_display c +:+ "'")).

Definition failed (ctx : HostContext) (what e : string) : PluginError :=
  ExecutionFailed (in_plugin ctx what (": " +:+ e)).

(** ** URLs, as http.rs takes them apart *)

(** The parts of a text before and after the first occurrence of a pattern. *)
Fixpoint split_at_str (pat s : string) : option (string * string) :=
  match strip_prefix pat s with
  | Some rest => Some (empty_str, rest)
  | None =>
      match s with
      | EmptyString => None
      | String c s' => (λ '(a, b), (String c a, b)) <$> split_at_str pat s'
      end
  end.

(** [split(pat).next()] and [split(pat).nth(1)]. *)
Definition first_piece (pat s : string) : string :=
  match split_at_str pat s with
  | Some (a, _) => a
  | None => s
  end.
Definition second_piece (pat s : string) : option string :=
  first_piece pat <$> (snd <$> split_at_str pat s).

Definition ascii_lower (c : ascii) : ascii :=
  if is_ascii_uppercase c then ascii_of_N (byte_of c + 32) else c.

(** [to_lowercase] on ASCII letters; no other letter's lower case is a letter of
    "http" or "https", which the result is compared with. *)
Fixpoint lowercase (s : string) : string :=
  match s with
  | EmptyString => EmptyString
  | String c s' => String (ascii_lower c) (lowercase s')
  end.

Definition url_scheme (url : string) : string := lowercase (first_piece "://" url).

Definition url_domain (url : string) : string :=
  default empty_str
    (rest ← second_piece "://" url;
     host_port ← head (split "/"%char rest);
     head (split ":"%char host_port)).

Section Host.
Context {B : Type} `{HostBackends B} `{CryptoLib}.

Definition HostM (A : Type) : Type := HostWorld B → result A PluginError * HostWorld B.

Definition host_ret {A} (a : A) : HostM A := λ w, (Ok a, w).
Definition host_bind {A C} (m : HostM A) (k : A → HostM C) : HostM C := λ w,
  match m w with
  | (Ok a, w') => k a w'
  | (Err e, w') => (Err e, w')
  end.
Definition host_lift {A} (r : result A PluginError) : HostM A := λ w, (r, w).

(** Record the call, then make it. *)
Definition host_call {A E} (c : HostCall) (f : B → result A E * B) (err : E → PluginError)
    : HostM A := λ w,
  let '(r, b) := f (hw_backend w) in
  (result_map_err err r, mkHostWorld b (hw_calls w ++ [c])).

(** [if !ctx.capabilities.has(c) { return Err(..) }]. *)
Definition require (ctx : HostContext) (c : Capability) : HostM unit :=
  host_lift (if has (hc_capabilities ctx) c then Ok tt else Err (lacks ctx c)).

Definition deserialized {A} (ctx : HostContext) (what : string) (r : result A string) : HostM A :=
  host_lift (result_map_err
    (failed ctx ("failed to deserialize " +:+ what +:+ " from plugin")) r).

(** ** Documents *)

Definition scope_query (q : StorageQuery) (plugin_id : string) : StorageQuery :=
  mkStorageQuery (sq_collection q) plugin_id (sq_filters q) (sq_sort q) (sq_limit q) (sq_offset q).

Definition scope_mutation (m : StorageMutation) (plugin_id : string) : StorageMutation :=
  match m with
  | MutInsert _ collection data => MutInsert plugin_id collection data
  | MutUpdate _ collection id data v => MutUpdate plugin_id collection id data v
  | MutDelete _ collection id => MutDelete plugin_id collection id
  end.

Definition host_storage_read (ctx : HostContext) (request : result StorageQuery string)
    : HostM HostReply :=
  host_bind (require ctx StorageRead) (λ _,
  host_bind (deserialized ctx "storage query" request) (λ q,
  let q := scope_query q (hc_plugin_id ctx) in
  host_bind (host_call (CallExecute q) (backend_execute q)
               (failed ctx "storage read failed for plugin")) (λ ms,
  host_ret (ReplyMessages ms)))).

Definition host_storage_write (ctx : HostContext) (request : result StorageMutation string)
    : HostM HostReply :=
  host_bind (require ctx StorageWrite) (λ _,
  host_bind (deserialized ctx "storage mutation" request) (λ m,
  let m := scope_mutation m (hc_plugin_id ctx) in
  host_bind (host_call (CallMutate m) (backend_mutate m)
               (failed ctx "storage write failed for plugin")) (λ _,
  host_ret ReplyAck))).

Definition host_storage_delete (ctx : HostContext) (request : result StorageMutation string)
    : HostM HostReply :=
  host_bind (require ctx StorageDelete) (λ _,
  host_bind (deserialized ctx "storage delete" request) (λ m,
  match m with
  | MutDelete _ collection id =>
      let m := MutDelete (hc_plugin_id ctx) collection id in
      host_bind (host_call (CallMutate m) (backend_mutate m)
                   (failed ctx "storage delete failed for plugin")) (λ _,
      host_ret ReplyAck)
  | _ => host_lift (Err (ExecutionFailed
           (in_plugin ctx "host_storage_delete received non-delete mutation from plugin" "")))
  end)).

(** ** Blobs *)

Definition scoped_key (plugin_id user_key : string) : string :=
  plugin_id +:+ "/blobs/" +:+ user_key.

Definition host_blob_store (ctx : HostContext) (request : result BlobStoreRequest string)
    : HostM HostReply :=
  host_bind (require ctx StorageBlobWrite) (λ _,
  host_bind (deserialized ctx "blob store request" request) (λ r,
  let key := scoped_key (hc_plugin_id ctx) (bs_key r) in
  host_bind (host_lift (result_map_err (failed ctx "invalid base64 data from plugin")
                          (base64_decode (bs_data_base64 r)))) (λ data,
  if bool_decide (MAX_BLOB_SIZE < length data) then
    host_lift (Err (ExecutionFailed
      (in_plugin ctx "blob from plugin"
         (" exceeds maximum size (" +:+ show_nat (length data) +:+ " bytes > "
          +:+ show_nat MAX_BLOB_SIZE +:+ " bytes)"))))
  else
    host_bind (host_call (CallBlobStore key data) (backend_blob_store key data (bs_content_type r))
                 (failed ctx "blob store failed for plugin")) (λ m,
    host_ret (ReplyMeta m))))).

Definition host_blob_retrieve (ctx : HostContext) (request : result string string)
    : HostM HostReply :=
  host_bind (require ctx StorageBlobRead) (λ _,
  host_bind (deserialized ctx "blob retrieve request" request) (λ k,
  let key := scoped_key (hc_plugin_id ctx) k in
  host_bind (host_call (CallBlobRetrieve key) (backend_blob_retrieve key)
               (failed ctx "blob retrieve failed for plugin")) (λ '(data, m),
  host_ret (ReplyBlob (base64_encode data) (bm_size_bytes m) (bm_content_type m))))).

Definition host_blob_delete (ctx : HostContext) (request : result string string)
    : HostM HostReply :=
  host_bind (require ctx StorageBlobDelete) (λ _,
  host_bind (deserialized ctx "blob delete request" request) (λ k,
  let key := scoped_key (hc_plugin_id ctx) k in
  host_bind (host_call (CallBlobDelete key) (backend_blob_delete key)
               (failed ctx "blob delete failed for plugin")) (λ _,
  host_ret ReplyAck))).

(** ** HTTP *)

Definition host_http_request (ctx : HostContext) (allowed_domains : option (list string))
    (request : result HttpRequest string) : HostM HostReply :=
  host_bind (require ctx HttpOutbound) (λ _,
  host_bind (deserialized ctx "HTTP request" request) (λ r,
  let scheme := url_scheme (hr_url r) in
  if bool_decide (scheme ≠ "http" ∧ scheme ≠ "https") then
    host_lift (Err (ExecutionFailed
      (in_plugin ctx "plugin" (": only http:// and https:// schemes are allowed, got '"
         +:+ scheme +:+ "://'"))))
  else if match allowed_domains with
          | Some allowed => negb (contains allowed (url_domain (hr_url r)))
          | None => false
          end
  then
    host_lift (Err (RuntimeCapabilityViolation
      (in_plugin ctx "plugin" (" attempted HTTP request to undeclared domain '"
         +:+ url_domain (hr_url r) +:+ "'"))))
  else if negb (http_method_ok (B := B) (hr_method r)) then
    host_lift (Err (ExecutionFailed
      (in_plugin ctx "plugin" (": invalid HTTP method '" +:+ hr_method r +:+ "'"))))
  else
    host_bind (host_call (CallHttp r) (http_send r) (λ '(timeout, e),
      if (timeout : bool)
      then ExecutionFailed (in_plugin ctx "HTTP request timed out for plugin"
             (" (" +:+ show_Z REQUEST_TIMEOUT_SECS +:+ "s limit): " +:+ e))
      else failed ctx "HTTP request failed for plugin" e)) (λ a,
    host_bind (host_lift (result_map_err
      (failed ctx "failed to read HTTP response body for plugin") (ans_body a))) (λ body,
    if bool_decide (MAX_RESPONSE_BODY_SIZE < length body) then
      host_lift (Err (ExecutionFailed
        ("HTTP response body exceeds maximum size (" +:+ show_nat MAX_RESPONSE_BODY_SIZE
         +:+ " bytes) for plugin '" +:+ hc_plugin_id ctx +:+ "'")))
    else host_ret (ReplyHttp (ans_status a) (ans_headers a) (utf8_lossy (B := B) body)))))).

(** ** Configuration and events *)

Definition host_config_read (ctx : HostContext) (plugin_config : option json) : HostM HostReply :=
  host_bind (require ctx ConfigRead) (λ _,
  host_ret (ReplyConfig (default (mk_obj []) plugin_config))).

(** The event host functions hand their event to the emitter. *)
Definition host_emit (r : result (string * json) PluginError) : HostM HostReply :=
  host_bind (host_lift r) (λ '(name, payload),
  host_bind (host_call (E := PluginError) (CallEmit name payload) (λ b, (Ok tt, b)) id) (λ _,
  host_ret ReplyAck)).

(** ** What the sandbox has *)

(** [InjectionDeps], what the functions are built with. *)
Record InjectionDeps : Type := mkDeps {
  dep_plugin_config : option json;
  dep_blob_storage : bool;
  dep_allowed_domains : option (list string);
  dep_declared_emit_events : option (list string);
  dep_execution_depth : Z;
}.

(** A request to one of the host functions. *)
Inductive HostRequest : Type :=
| ReqStorageRead (r : result StorageQuery string)
| ReqStorageWrite (r : result StorageMutation string)
| ReqStorageDelete (r : result StorageMutation string)
| ReqBlobRetrieve (r : result string string)
| ReqBlobStore (r : result BlobStoreRequest string)
| ReqBlobDelete (r : result string string)
| ReqHttp (r : result HttpRequest string)
| ReqEventsEmit (r : result (string * json) string)
| ReqEventsSubscribe (r : result string string)
| ReqConfigRead.

Definition events_context (ctx : HostContext) (deps : InjectionDeps) : EventsHostContext :=
  mkEventsHost (hc_plugin_id ctx) (hc_capabilities ctx) (dep_declared_emit_events deps)
    (dep_execution_depth deps).

Definition host_handle (ctx : HostContext) (deps : InjectionDeps) (r : HostRequest)
    : HostM HostReply :=
  match r with
  | ReqStorageRead r => host_storage_read ctx r
  | ReqStorageWrite r => host_storage_write ctx r
  | ReqStorageDelete r => host_storage_delete ctx r
  | ReqBlobRetrieve r => host_blob_retrieve ctx r
  | ReqBlobStore r => host_blob_store ctx r
  | ReqBlobDelete r => host_blob_delete ctx r
  | ReqHttp r => host_http_request ctx (dep_allowed_domains deps) r
  | ReqEventsEmit r => host_emit (host_events_emit (events_context ctx deps) r)
  | ReqEventsSubscribe r => host_emit (host_events_subscribe (events_context ctx deps) r)
  | ReqConfigRead => host_config_read ctx (dep_plugin_config deps)
  end.
End Host.

(** The name a function is called by in the sandbox. *)
Definition function_name (r : HostRequest) : string :=
  match r with
  | ReqStorageRead _ => "host_storage_read"
  | ReqStorageWrite _ => "host_storage_write"
  | ReqStorageDelete _ => "host_storage_delete"
  | ReqBlobRetrieve _ => "host_blob_retrieve"
  | ReqBlobStore _ => "host_blob_store"
  | ReqBlobDelete _ => "host_blob_delete"
  | ReqHttp _ => "host_http_request"
  | ReqEventsEmit _ => "host_events_emit"
  | ReqEventsSubscribe _ => "host_events_subscribe"
  | ReqConfigRead => "host_config_read"
  end.

Definition when (b : bool) (name : string) : list string := if b then [name] else [].

(** The names of the functions [build_host_functions] injects. *)
Definition build_host_functions (caps : ApprovedCapabilities) (deps : InjectionDeps) : list string :=
  ["host_log"]
  ++ when (has caps StorageRead) "host_storage_read"
  ++ when (has caps StorageWrite) "host_storage_write"
  ++ when (has caps StorageDelete) "host_storage_delete"
  ++ (if dep_blob_storage deps then
        when (has caps StorageBlobRead) "host_blob_retrieve"
        ++ when (has caps StorageBlobWrite) "host_blob_store"
        ++ when (has caps StorageBlobDelete) "host_blob_delete"
      else [])
  ++ when (has caps HttpOutbound) "host_http_request"
  ++ when (has caps EventsEmit) "host_events_emit"
  ++ when (has caps EventsSubscribe) "host_events_subscribe"
  ++ when (has caps ConfigRead) "host_config_read".

(** [injected_function_names], which does not know the dependencies. *)
Definition injected_function_names (caps : ApprovedCapabilities) : list string :=
  ["host_log"]
  ++ when (has caps StorageRead) "host_storage_read"
  ++ when (has caps StorageWrite) "host_storage_write"
  ++ when (has caps StorageDelete) "host_storage_delete"
  ++ when (has caps StorageBlobRead) "host_blob_retrieve"
  ++ when (has caps StorageBlobWrite) "host_blob_store"
  ++ when (has caps StorageBlobDelete) "host_blob_delete"
  ++ when (has caps HttpOutbound) "host_http_request"
  ++ when (has caps EventsEmit) "host_events_emit"
  ++ when (has caps EventsSubscribe) "host_events_subscribe"
  ++ when (has caps ConfigRead) "host_config_read".

(** A call from inside the sandbox: [None] when it has no such function. *)
Definition sandbox_call {B} `{HostBackends B} `{CryptoLib} (ctx : HostContext)
    (deps : InjectionDeps) (r : HostRequest) (w : HostWorld B)
    : option (result HostReply PluginError) * HostWorld B :=
  if contains (build_host_functions (hc_capabilities ctx) deps) (function_name r) then
    let '(out, w') := host_handle ctx deps r w in (Some out, w')
  else (None, w).

(** ** Logging *)

Inductive PluginLogLevel : Type := LogTrace | LogDebug | LogInfo | LogWarn | LogError.

Definition log_level_from_str (s : string) : result PluginLogLevel PluginError :=
  if bool_decide (s = "trace") then Ok LogTrace
  else if bool_decide (s = "debug") then Ok LogDebug
  else if bool_decide (s = "info") then Ok LogInfo
  else if bool_decide (s = "warn") then Ok LogWarn
  else if bool_decide (s = "error") then Ok LogError
  else Err (ExecutionFailed ("invalid log level '" +:+ s
              +:+ "': expected one of trace, debug, info, warn, error")).

Record RateLimitState : Type := mkRate {
  rl_count : nat;
  rl_window_start : timestamp;
  rl_warned : bool;
}.

Record LogRateLimiter : Type := mkLimiter {
  rl_states : gmap string RateLimitState;
  rl_max_per_second : nat;
}.

Definition new_limiter : LogRateLimiter := mkLimiter ∅ 100.

Definition ONE_SECOND : Z := 1000000000.

(** [LogRateLimiter::check] at an instant: whether the entry is allowed. *)
Definition rate_check (plugin_id : string) (now : timestamp) (l : LogRateLimiter)
    : bool * LogRateLimiter :=
  let s0 := default (mkRate 0 now false) (rl_states l !! plugin_id) in
  let s1 := if (ONE_SECOND <=? now - rl_window_start s0)%Z then mkRate 0 now false else s0 in
  let count := S (rl_count s1) in
  let over := bool_decide (rl_max_per_second l < count) in
  (negb over,
   mkLimiter (<[plugin_id := mkRate count (rl_window_start s1) (rl_warned s1 || over)]> (rl_states l))
     (rl_max_per_second l)).

(** [host_log]: the reply, the limiter, and the entry that reaches the log, if any. *)
Definition host_log (plugin_id : string) (now : timestamp) (input : result json string)
    (l : LogRateLimiter)
    : result unit PluginError * LogRateLimiter * option (PluginLogLevel * string) :=
  let missing field := ExecutionFailed
    ("log entry from plugin '" +:+ plugin_id +:+ "' missing '" +:+ field +:+ "' string field") in
  let parsed :=
    let? value := result_map_err (λ e, ExecutionFailed
      ("failed to deserialize log entry from plugin '" +:+ plugin_id +:+ "': " +:+ e)) input in
    let? level_str := ok_or (json_get value "level" ≫= as_str) (missing "level") in
    let? message := ok_or (json_get value "message" ≫= as_str) (missing "message") in
    let? level := log_level_from_str level_str in
    Ok (level, message) in
  match parsed with
  | Err e => (Err e, l, None)
  | Ok (level, message) =>
      let '(allowed, l') := rate_check plugin_id now l in
      (Ok tt, l', if (allowed : bool) then Some (level, message) else None)
  end.

(** * Facts about the host functions

    Nothing leaves the sandbox without the capability for it, and then only under the
    calling plugin's name; the two layers of enforcement agree; the rate limit on
    logging; and where the checks fall short. *)

(** ** Confinement *)

(** The host of a URL as RFC 3986 has it: the authority goes from the first :// to the next /, ? or
    #, and the host in it from the user information, if any, to the port, if any. *)
Fixpoint until (stop : ascii → bool) (s : string) : string :=
  match s with
  | EmptyString => EmptyString
  | String c s' => if stop c then EmptyString else String c (until stop s')
  end.

Definition is_char (c a : ascii) : bool := bool_decide (a = c).

Definition url_authority (url : string) : string :=
  match split_at_str "://" url with
  | Some (_, rest) => until (λ c, is_char "/" c || is_char "?" c || is_char "#" c) rest
  | None => empty_str
  end.

Definition url_host (url : string) : string :=
  until (is_char ":") (default empty_str (last (split "@"%char (url_authority url)))).

Lemma until_until p q s : until p (until q s) = until (λ c, q c || p c) s.
Proof. induction s as [|c s IH]; simpl; [done|]. destruct (q c); simpl; [done|]. destruct (p c); [done|]. by rewrite IH. Qed.

Lemma until_ext p q s : (∀ c, p c = q c) → until p s = until q s.
Proof. intros He. induction s as [|c s IH]; simpl; [done|]. by rewrite He, IH. Qed.

Lemma until_none p s : (∀ c, p c = true → ¬ char_in c s) → until p s = s.
Proof.
  induction s as [|c s IH]; simpl; intros Hn; [done|]. destruct (p c) eqn:E; [by destruct (Hn c E); left|].
  f_equal. apply IH. intros c' Hc' Hin. apply (Hn c' Hc'). by right.
Qed.

Lemma head_split c s : head (split c s) = Some (until (is_char c) s).
Proof.
  induction s as [|a s IH]; simpl; [done|]. unfold is_char at 1. case_bool_decide; [done|].
  destruct (split c s) as [|x xs]; simpl in *; [done|]. by injection IH as ->.
Qed.

Lemma until_first_piece p s : p ":"%char = true → until p (first_piece "://" s) = until p s.
Proof.
  intros Hp. unfold first_piece. induction s as [|c s IH]; [done|]. cbn [split_at_str].
  destruct (strip_prefix "://" (String c s)) as [rest|] eqn:E.
  - simpl in E. case_bool_decide; [|done]. subst c. simpl. by rewrite Hp.
  - destruct (split_at_str "://" s) as [[x y]|]; simpl in *; [|done]. by rewrite IH.
Qed.

(** What http.rs takes for the domain is the host, unless the URL has user information or the text
    has a ? or #. *)
Lemma url_domain_host url :
  ¬ char_in "@" (url_authority url) → ¬ char_in "?" (url_domain url) → ¬ char_in "#" (url_domain url) →
  url_host url = url_domain url.
Proof.
  unfold url_host. intros Ha. rewrite split_nochar by done. cbn [last default from_option id].
  clear Ha. unfold url_authority, url_domain, second_piece.
  destruct (split_at_str "://" url) as [[scheme rest]|]; [|done]. cbn [fmap option_fmap option_map snd mbind option_bind].
  rewrite head_split. cbn [mbind option_bind]. rewrite head_split. cbn [default from_option id].
  rewrite !until_until, until_first_piece by reflexivity. intros Hq Hh.
  symmetry. rewrite <- (until_none (λ c, is_char "?" c || is_char "#" c) (until (λ c, is_char "/" c || is_char ":" c) rest)).
  - rewrite until_until. apply until_ext. intros c. unfold is_char.
    by destruct (bool_decide (c = "/"%char)), (bool_decide (c = ":"%char)), (bool_decide (c = "?"%char)),
      (bool_decide (c = "#"%char)).
  - intros c Hc. unfold is_char in Hc. apply orb_true_iff in Hc as [->%bool_decide_eq_true| ->%bool_decide_eq_true]; done.
Qed.

(** What a plugin may have the host do. *)
Definition permitted (ctx : HostContext) (deps : InjectionDeps) (c : HostCall) : Prop :=
  let holds cap := has (hc_capabilities ctx) cap = true in
  let own key := ∃ k, key = hc_plugin_id ctx +:+ "/blobs/" +:+ k in
  match c with
  | CallExecute q => holds StorageRead ∧ sq_plugin_id q = hc_plugin_id ctx
  | CallMutate m => mutation_plugin m = hc_plugin_id ctx ∧
      (holds StorageWrite ∨ is_delete m = true ∧ holds StorageDelete)
  | CallBlobStore key data => holds StorageBlobWrite ∧ (Z.of_nat (length data) ≤ 10485760)%Z ∧ own key
  | CallBlobRetrieve key => holds StorageBlobRead ∧ own key
  | CallBlobDelete key => holds StorageBlobDelete ∧ own key
  | CallHttp r => holds HttpOutbound ∧
      (url_scheme (hr_url r) = "http" ∨ url_scheme (hr_url r) = "https") ∧
      (∀ allowed, dep_allowed_domains deps = Some allowed →
         Forall (λ d, ¬ char_in "?" d ∧ ¬ char_in "#" d) allowed →
         ¬ char_in "@" (url_authority (hr_url r)) → url_host (hr_url r) ∈ allowed)
  | CallEmit name payload =>
      (holds EventsEmit ∧ json_get payload "source" = Some (JStr (hc_plugin_id ctx)) ∧
       (∀ declared, dep_declared_emit_events deps = Some declared → name ∈ declared)) ∨
      (holds EventsSubscribe ∧ name = "plugin.subscription.registered" ∧
       json_get payload "plugin_id" = Some (JStr (hc_plugin_id ctx)))
  end.

Section Confined.
Context {B : Type} `{HostBackends B} `{CryptoLib}.

(** An operation all of whose calls satisfy [P]. *)
Definition host_traced {A} (P : HostCall → Prop) (m : HostM (B := B) A) : Prop :=
  ∀ w, ∃ δ, hw_calls (m w).2 = hw_calls w ++ δ ∧ Forall P δ.

Lemma host_traced_lift {A} P (r : result A PluginError) : host_traced P (host_lift r).
Proof. intros w. exists []. by rewrite app_nil_r. Qed.

Lemma host_traced_ret {A} P (a : A) : host_traced P (host_ret a).
Proof. intros w. exists []. by rewrite app_nil_r. Qed.

Lemma host_traced_bind {A C} P (m : HostM A) (k : A → HostM C) :
  host_traced P m → (∀ a w w', m w = (Ok a, w') → host_traced P (k a)) →
  host_traced P (host_bind m k).
Proof.
  intros Hm Hk w. unfold host_bind. destruct (Hm w) as (δ & E & HF).
  destruct (m w) as [[a|e] w'] eqn:Em; simpl in *; [|by exists δ].
  destruct (Hk _ _ _ Em w') as (δ' & E' & HF'). exists (δ ++ δ').
  rewrite E', E, app_assoc. split; [done|]. by apply Forall_app.
Qed.

Lemma host_traced_call {A E} (P : HostCall → Prop) c (f : B → result A E * B) err :
  P c → host_traced P (host_call c f err).
Proof.
  intros Hc w. exists [c]. unfold host_call. destruct (f (hw_backend w)) as [r b].
  split; [done|]. by repeat constructor.
Qed.

(** Past a capability check, the capability is held. *)
Lemma host_traced_require {C} P ctx c (k : unit → HostM C) :
  (has (hc_capabilities ctx) c = true → host_traced P (k tt)) →
  host_traced P (host_bind (require ctx c) k).
Proof.
  intros Hk. apply host_traced_bind; [apply host_traced_lift|].
  intros [] w w'. unfold require, host_lift. by destruct (has _ _); [auto|].
Qed.

(** After a pure step, its result. *)
Lemma host_traced_lift_bind {A C} P (r : result A PluginError) (k : A → HostM C) :
  (∀ a, r = Ok a → host_traced P (k a)) → host_traced P (host_bind (host_lift r) k).
Proof.
  intros Hk. apply host_traced_bind; [apply host_traced_lift|].
  intros a w w'. unfold host_lift. intros [= -> _]. by apply Hk.
Qed.

Lemma host_traced_call_bind {A E C} (P : HostCall → Prop) c (f : B → result A E * B) err
    (k : A → HostM C) :
  P c → (∀ a, host_traced P (k a)) → host_traced P (host_bind (host_call c f err) k).
Proof. intros Hc Hk. apply host_traced_bind; [by apply host_traced_call|auto]. Qed.

#[local] Hint Resolve host_traced_lift host_traced_ret : engine.

Lemma http_permitted ctx deps r :
  host_traced (permitted ctx deps) (host_http_request ctx (dep_allowed_domains deps) r).
Proof.
  apply host_traced_require. intros Hcap. apply host_traced_lift_bind. intros q _.
  cbv zeta. case_bool_decide as Hs; [auto with engine|].
  destruct (match dep_allowed_domains deps with Some _ => _ | None => _ end) eqn:Hd;
    [auto with engine|]. destruct (negb _); [auto with engine|].
  apply host_traced_call_bind.
  - split; [done|]. split.
    + destruct (decide (url_scheme (hr_url q) = "http")); [by left|].
      destruct (decide (url_scheme (hr_url q) = "https")); [by right|]. tauto.
    + intros allowed Ha Hplain Hat. rewrite Ha in Hd. apply negb_false_iff, contains_true in Hd.
      rewrite Forall_forall in Hplain. destruct (Hplain _ Hd). by rewrite url_domain_host.
  - intros a. apply host_traced_lift_bind. intros body _. case_bool_decide; auto with engine.
Qed.

Lemma emit_permitted ctx deps (r : result (string * json) PluginError) :
  (∀ name payload, r = Ok (name, payload) → permitted ctx deps (CallEmit name payload)) →
  host_traced (permitted ctx deps) (host_emit r).
Proof.
  intros Hp. apply host_traced_lift_bind. intros [name payload] E.
  apply host_traced_call_bind; [by apply Hp|auto with engine].
Qed.

Lemma handle_permitted ctx deps r : host_traced (permitted ctx deps) (host_handle ctx deps r).
Proof.
  destruct r as [r|r|r|r|r|r|r|r|r|]; simpl.
  - apply host_traced_require. intros Hc. apply host_traced_lift_bind. intros q _.
    apply host_traced_call_bind; [done|auto with engine].
  - apply host_traced_require. intros Hc. apply host_traced_lift_bind. intros m _.
    apply host_traced_call_bind; [|auto with engine]. split; [by destruct m|by left].
  - apply host_traced_require. intros Hc. apply host_traced_lift_bind. intros m _.
    destruct m; [auto with engine..|]. apply host_traced_call_bind; [|auto with engine].
    split; [done|by right].
  - apply host_traced_require. intros Hc. apply host_traced_lift_bind. intros k _.
    apply host_traced_call_bind; [by split; [|eexists]|]. intros [? ?]. auto with engine.
  - apply host_traced_require. intros Hc. apply host_traced_lift_bind. intros q _.
    apply host_traced_lift_bind. intros data _. case_bool_decide as Hl; [auto with engine|].
    apply host_traced_call_bind; [|auto with engine]. split_and!; [done|unfold MAX_BLOB_SIZE in Hl; lia|by eexists].
  - apply host_traced_require. intros Hc. apply host_traced_lift_bind. intros k _.
    apply host_traced_call_bind; [by split; [|eexists]|auto with engine].
  - apply http_permitted.
  - apply emit_permitted. intros name payload Hr. unfold host_events_emit in Hr. simpl in Hr.
    destruct (has (hc_capabilities ctx) EventsEmit) eqn:Hc; [|done]. simpl in Hr.
    destruct r as [[n p]|]; [|done]. simpl in Hr. left.
    destruct (match dep_declared_emit_events deps with Some _ => _ | None => _ end) eqn:Hd; [done|].
    simplify_eq. split_and!; [done|done|]. intros declared Hdec. rewrite Hdec in Hd.
    by apply negb_false_iff, contains_true in Hd.
  - apply emit_permitted. intros name payload Hr. unfold host_events_subscribe in Hr. simpl in Hr.
    destruct (has (hc_capabilities ctx) EventsSubscribe) eqn:Hc; [|done]. simpl in Hr.
    destruct r as [n|]; [|done]. simpl in Hr. simplify_eq. by right.
  - apply host_traced_require. auto with engine.
Qed.


(** ** Two layers of enforcement *)

(** The capability a function is gated by. *)
Definition required_capability (r : HostRequest) : Capability :=
  match r with
  | ReqStorageRead _ => StorageRead
  | ReqStorageWrite _ => StorageWrite
  | ReqStorageDelete _ => StorageDelete
  | ReqBlobRetrieve _ => StorageBlobRead
  | ReqBlobStore _ => StorageBlobWrite
  | ReqBlobDelete _ => StorageBlobDelete
  | ReqHttp _ => HttpOutbound
  | ReqEventsEmit _ => EventsEmit
  | ReqEventsSubscribe _ => EventsSubscribe
  | ReqConfigRead => ConfigRead
  end.

Definition is_blob_request (r : HostRequest) : bool :=
  match r with
  | ReqBlobRetrieve _ | ReqBlobStore _ | ReqBlobDelete _ => true
  | _ => false
  end.

Lemma elem_of_when b name x : x ∈ when b name ↔ b = true ∧ x = name.
Proof. unfold when. destruct b; set_solver. Qed.

(** The announced names are the injected ones when there is a blob store, and a
    superset of them in any case. *)
Lemma injected_names_agree caps deps :
  build_host_functions caps deps ⊆ injected_function_names caps ∧
  (dep_blob_storage deps = true → build_host_functions caps deps = injected_function_names caps).
Proof.
  unfold build_host_functions, injected_function_names. split.
  - destruct (dep_blob_storage deps); set_solver.
  - intros ->. by rewrite <- !app_assoc.
Qed.

(** The sandbox has a function exactly when the plugin holds its capability (and,
    for blobs, the host has a blob store); and a function that were called without the
    capability all the same would refuse, without any call leaving the sandbox. *)
Theorem sandbox_layers_agree ctx deps r (w : HostWorld B) :
  (function_name r ∈ build_host_functions (hc_capabilities ctx) deps ↔
     has (hc_capabilities ctx) (required_capability r) = true ∧
     (is_blob_request r = true → dep_blob_storage deps = true)) ∧
  (has (hc_capabilities ctx) (required_capability r) = false →
     host_handle ctx deps r w = (Err (lacks ctx (required_capability r)), w)).
Proof.
  split.
  - unfold build_host_functions.
    destruct (dep_blob_storage deps); rewrite ?elem_of_app, ?elem_of_when, ?elem_of_nil;
      destruct r; simpl; rewrite list_elem_of_singleton; clear; intuition (first [discriminate|auto]).
  - destruct r; simpl; intros Hc; try (unfold host_storage_read, host_storage_write,
      host_storage_delete, host_blob_retrieve, host_blob_store, host_blob_delete,
      host_http_request, host_config_read, host_bind, require, host_lift; by rewrite Hc).
    + unfold host_emit, host_events_emit, host_bind, host_lift. simpl. by rewrite Hc.
    + unfold host_emit, host_events_subscribe, host_bind, host_lift. simpl. by rewrite Hc.
Qed.
End Confined.

(** ** The rate limit *)

(** The checks of one plugin at these instants. *)
Fixpoint rate_checks (p : string) (ts : list timestamp) (l : LogRateLimiter)
    : list bool * LogRateLimiter :=
  match ts with
  | [] => ([], l)
  | t :: ts' =>
      let '(b, l1) := rate_check p t l in
      let '(bs, l2) := rate_checks p ts' l1 in (b :: bs, l2)
  end.

Lemma rate_check_within p t l s :
  rl_states l !! p = Some s → (t - rl_window_start s < ONE_SECOND)%Z →
  ∃ l', rate_check p t l = (bool_decide (rl_count s < rl_max_per_second l), l') ∧
    rl_max_per_second l' = rl_max_per_second l ∧
    ∃ s', rl_states l' !! p = Some s' ∧ rl_window_start s' = rl_window_start s ∧
      rl_count s' = S (rl_count s).
Proof.
  intros Hs Ht. unfold rate_check. rewrite Hs. simpl.
  rewrite (proj2 (Z.leb_gt _ _)) by lia. eexists. split.
  - f_equal. rewrite <- bool_decide_not. apply bool_decide_ext. lia.
  - simpl. split; [done|]. rewrite lookup_insert_eq. by eexists.
Qed.

Lemma rate_checks_within p ts l s :
  rl_states l !! p = Some s → Forall (λ t, (t - rl_window_start s < ONE_SECOND)%Z) ts →
  (rate_checks p ts l).1 =
  (λ i, bool_decide (i < rl_max_per_second l)) <$> seq (rl_count s) (length ts).
Proof.
  revert l s. induction ts as [|t ts IH]; intros l s Hs Ht; [done|].
  apply Forall_cons in Ht as [Ht Hts].
  destruct (rate_check_within p t l s Hs Ht) as (l' & E & Hm & s' & Hs' & Hw & Hc).
  cbn [rate_checks]. rewrite E. specialize (IH l' s' Hs'). rewrite Hw, Hc, Hm in IH. specialize (IH Hts).
  destruct (rate_checks p ts l') as [bs l2]. simpl in *. by rewrite IH.
Qed.

(** The rate limit on logging: of a plugin's entries within a second of the first
    one of a window, exactly the first [max_per_second] are let through, and the
    entries of other plugins are not affected. *)
Theorem log_rate_exact p t0 ts l :
  rl_states l !! p = None → Forall (λ t, (t - t0 < ONE_SECOND)%Z) ts →
  (rate_checks p (t0 :: ts) l).1 =
    (λ i, bool_decide (i < rl_max_per_second l)) <$> seq 0 (S (length ts)) ∧
  (∀ q t, q ≠ p → rl_states (rate_check p t l).2 !! q = rl_states l !! q).
Proof.
  intros Hp Hts. split.
  - cbn [rate_checks]. unfold rate_check. rewrite Hp. simpl. rewrite Z.sub_diag. simpl.
    match goal with |- context [rate_checks p ts ?l1] => set (l1' := l1) end.
    pose proof (rate_checks_within p ts l1' (mkRate 1 t0 (bool_decide (rl_max_per_second l < 1)))) as IH.
    simpl in IH. rewrite lookup_insert_eq in IH. specialize (IH eq_refl Hts).
    destruct (rate_checks p ts l1') as [bs l2]. simpl in *. rewrite IH. f_equal.
    rewrite <- bool_decide_not. apply bool_decide_ext. lia.
  - intros q t Hq. unfold rate_check. simpl. by rewrite lookup_insert_ne.
Qed.

(** ** Concrete sandboxes *)

(** A host that records calls and answers all of them. *)
#[export] Instance quiet_backends : HostBackends unit := {|
  backend_execute _ b := (Ok [], b);
  backend_mutate _ b := (Ok tt, b);
  backend_blob_store k d t b := (Ok (mkBlobMeta k (Z.of_nat (length d)) (default "" t)), b);
  backend_blob_retrieve k b := (Ok ([], mkBlobMeta k 0 ""), b);
  backend_blob_delete _ b := (Ok tt, b);
  http_send _ b := (Ok (mkHttpAnswer 200 ∅ (Ok [])), b);
  http_method_ok _ := true;
  utf8_lossy _ := "";
|}.

Definition no_deps : InjectionDeps := mkDeps None true None None 0.
Definition sandbox (caps : list Capability) : HostContext := mkHostContext "p" (list_to_set caps).

(** The write capability deletes: a plugin that was granted writing but not
    deleting has its delete executed when it sends it as a write. *)
Theorem write_capability_deletes `{CryptoLib} id collection :
  let ctx := sandbox [StorageWrite] in
  has (hc_capabilities ctx) StorageDelete = false ∧
  sandbox_call ctx no_deps (ReqStorageWrite (Ok (MutDelete "x" collection id))) (mkHostWorld tt [])
    = (Some (Ok ReplyAck), mkHostWorld tt [CallMutate (MutDelete "p" collection id)]).
Proof. split; [vm_compute; reflexivity|]. reflexivity. Qed.

(** The domain check does not see user information: a URL whose user name is a
    declared domain followed by a colon passes, and the request goes to the host after
    the at sign. *)
Theorem userinfo_passes_domain_check `{CryptoLib} :
  let ctx := sandbox [HttpOutbound] in
  let deps := mkDeps None true (Some ["api.example.com"]) None 0 in
  let r := mkHttpRequest "GET" "https://api.example.com:x@evil.example.org/" ∅ None in
  url_domain (hr_url r) = "api.example.com" ∧
  hw_calls (sandbox_call ctx deps (ReqHttp (Ok r)) (mkHostWorld tt [])).2 = [CallHttp r].
Proof. split; vm_compute; reflexivity. Qed.

#[local] Existing Instance toy_crypto.

Lemma sandbox_layers_agree_witness :
  host_handle (sandbox []) no_deps ReqConfigRead (mkHostWorld tt []) =
  (Err (lacks (sandbox []) ConfigRead), mkHostWorld tt []).
Proof.
  apply (sandbox_layers_agree (sandbox []) no_deps ReqConfigRead (mkHostWorld tt [])).
  reflexivity.
Defined.

Lemma log_rate_exact_witness :
  (rate_checks "p" [0; 1; 2; 3]%Z (mkLimiter ∅ 2)).1 = [true; true; false; false].
Proof.
  refine (proj1 (log_rate_exact "p" 0 [1; 2; 3]%Z (mkLimiter ∅ 2) _ _)).
  - reflexivity.
  - repeat constructor.
Defined.
