(* ===== verification/Migration.v ===== *)
(** * Migration manifests

    packages/workflow-engine/src/migration/manifest.rs and validate.rs: the
    [[migrations]] entries of a plugin's manifest, their version ranges, and the checks
    that make them a chain. The TOML parser, the WASM export table and the semver crate
    are parameters; a hash map's visiting order is an argument. *)

From stdpp Require Import base tactics list strings sorting relations.
From Stdlib Require Import Ascii ZArith Lia.
From S2P Require Import Prelude RustString Types.

Local Open Scope string_scope.

(** ** Versions

    [semver::Version] as the engine uses it. *)
Class SemverLib : Type := {
  Version : Type;
  version_eq_dec :: EqDecision Version;
  v_major : Version → Z;
  v_minor : Version → Z;
  v_patch : Version → Z;
  (** [Version::new] *)
  version_new : Z → Z → Z → Version;
  version_parse : string → result Version string;
  version_display : Version → string;
  version_cmp : Version → Version → comparison;
}.

(** Precedence is by major, minor and patch number first; the order is total; a text of
    three numbers denotes the version with these numbers. *)
Class SemverLaws `{SemverLib} : Prop := {
  v_major_new a b c : v_major (version_new a b c) = a;
  v_minor_new a b c : v_minor (version_new a b c) = b;
  v_patch_new a b c : v_patch (version_new a b c) = c;
  cmp_eq v w : version_cmp v w = Eq ↔ v = w;
  cmp_antisym v w : version_cmp w v = CompOpp (version_cmp v w);
  cmp_trans u v w : version_cmp u v = Lt → version_cmp v w = Lt → version_cmp u w = Lt;
  cmp_major v w : (v_major v < v_major w)%Z → version_cmp v w = Lt;
  parse_numbers x y z a b c v :
    parse_u64 x = Some a → parse_u64 y = Some b → parse_u64 z = Some c →
    version_parse (join "." [x; y; z]) = Ok v → v = version_new a b c;
}.

(** ** Errors (mod.rs) *)

Inductive MigrationError : Type :=
| ManifestParse (m : string)
| ManifestValidation (m : string)
| TransformFailed (function cause : string)
| TransformCrashed (function cause : string).

Definition migration_error_display (e : MigrationError) : string :=
  match e with
  | ManifestParse m => "migration manifest parse error: " +:+ m
  | ManifestValidation m => "migration manifest validation error: " +:+ m
  | TransformFailed f c => "migration transform failed for '" +:+ f +:+ "': " +:+ c
  | TransformCrashed f c => "migration transform crashed for '" +:+ f +:+ "': " +:+ c
  end.

Definition migration_error_code (e : MigrationError) : string :=
  match e with
  | ManifestParse _ => "MIGRATION_001"
  | ManifestValidation _ => "MIGRATION_002"
  | TransformFailed _ _ => "MIGRATION_003"
  | TransformCrashed _ _ => "MIGRATION_004"
  end.

Definition migration_error_severity (e : MigrationError) : Severity :=
  match e with
  | ManifestParse _ | ManifestValidation _ => Fatal
  | TransformFailed _ _ => Retryable
  | TransformCrashed _ _ => Fatal
  end.

(** ** Entries *)

Record RawMigrationEntry : Type := mkRawMigration {
  rm_from : option string;
  rm_to : option string;
  rm_transform : option string;
  rm_description : option string;
  rm_collection : option string;
}.

Record MigrationEntry `{SemverLib} : Type := mkMigration {
  me_from : string;
  me_to : Version;
  me_transform : string;
  me_description : string;
  me_collection : string;
}.

Definition entry_err {A} (i : nat) (m : string) : result A MigrationError :=
  Err (ManifestValidation ("migration entry " +:+ show_nat i +:+ ": " +:+ m)).

Definition range_err {A} (i : nat) (from m : string) : result A MigrationError :=
  entry_err i ("invalid 'from' range '" +:+ from +:+ "': " +:+ m).

Definition parse_part (s part_name from : string) (i : nat) : result Z MigrationError :=
  match parse_u64 s with
  | Some v => Ok v
  | None => range_err i from ("'" +:+ s +:+ "' is not a valid " +:+ part_name +:+ " version number")
  end.

Definition validate_from_range (from : string) (i : nat) : result unit MigrationError :=
  match split "."%char from with
  | [major; minor] =>
      let? _ := parse_part major "major" from i in
      if bool_decide (minor ≠ "x") then range_err i from "two-part range must be 'major.x'"
      else Ok tt
  | [major; minor; patch] =>
      let? _ := parse_part major "major" from i in
      let? _ := parse_part minor "minor" from i in
      if bool_decide (patch ≠ "x") then
        let? _ := parse_part patch "patch" from i in Ok tt
      else Ok tt
  | _ => range_err i from "expected 'major.x', 'major.minor.x', or 'major.minor.patch'"
  end.

(** [parse().unwrap_or(0)]. *)
Definition number_or_zero (s : string) : Z := default 0%Z (parse_u64 s).
Definition number_or_max (s : string) : Z := default (2 ^ 64 - 1)%Z (parse_u64 s).

(** ** Ranges *)

Inductive VersionRange : Type :=
| MajorWildcard (m : Z)
| MinorWildcard (m n : Z)
| Exact (m n p : Z).

Definition range_parse (from : string) : VersionRange :=
  match split "."%char from with
  | [major; _] => MajorWildcard (number_or_zero major)
  | [major; minor; patch] =>
      if bool_decide (patch = "x") then MinorWildcard (number_or_zero major) (number_or_zero minor)
      else Exact (number_or_zero major) (number_or_zero minor) (number_or_zero patch)
  | _ => Exact 0 0 0
  end.

Definition overlaps (a b : VersionRange) : bool :=
  match a, b with
  | MajorWildcard m1, MajorWildcard m2
  | MajorWildcard m1, MinorWildcard m2 _ | MinorWildcard m2 _, MajorWildcard m1
  | MajorWildcard m1, Exact m2 _ _ | Exact m2 _ _, MajorWildcard m1 => (m1 =? m2)%Z
  | MinorWildcard m1 n1, MinorWildcard m2 n2
  | MinorWildcard m1 n1, Exact m2 n2 _ | Exact m2 n2 _, MinorWildcard m1 n1 =>
      (m1 =? m2)%Z && (n1 =? n2)%Z
  | Exact m1 n1 p1, Exact m2 n2 p2 => (m1 =? m2)%Z && (n1 =? n2)%Z && (p1 =? p2)%Z
  end.

Definition example_version (r : VersionRange) : string :=
  match r with
  | MajorWildcard m => show_Z m +:+ ".0.0"
  | MinorWildcard m n => show_Z m +:+ "." +:+ show_Z n +:+ ".0"
  | Exact m n p => show_Z m +:+ "." +:+ show_Z n +:+ "." +:+ show_Z p
  end.

Definition find_overlap_example (a b : VersionRange) : string :=
  match a, b with
  | Exact _ _ _, _ => example_version a
  | _, Exact _ _ _ => example_version b
  | MinorWildcard _ _, _ => example_version a
  | _, MinorWildcard _ _ => example_version b
  | _, _ => example_version a
  end.

(** ** Names *)

Definition validate_transform_name (name : string) (i : nat) : result unit MigrationError :=
  match name with
  | EmptyString => entry_err i "transform name must not be empty"
  | String first rest =>
      let invalid m := entry_err i
        ("transform name '" +:+ name +:+ "' is not a valid identifier: " +:+ m) in
      if negb (is_ascii_alphabetic first) && bool_decide (first ≠ "_"%char) then
        invalid "must start with a letter or underscore"
      else if negb (all_chars (λ c, is_ascii_alphanumeric c || bool_decide (c = "_"%char)) rest) then
        invalid "must contain only letters, digits, and underscores"
      else Ok tt
  end.

Definition collection_char (c : ascii) : bool :=
  is_ascii_alphanumeric c || bool_decide (c = "-"%char) || bool_decide (c = "_"%char)
  || bool_decide (c = ":"%char).

Definition validate_collection_name (name : string) (i : nat) : result unit MigrationError :=
  if is_empty name then entry_err i "collection name must not be empty"
  else if negb (all_chars collection_char name) then
    entry_err i ("collection name '" +:+ name +:+ "' contains invalid characters: "
      +:+ "must contain only letters, digits, hyphens, underscores, and colons")
  else Ok tt.

Section Manifest.
Context `{SemverLib}.

Definition from_range_min_version (from : string) : Version :=
  match split "."%char from with
  | [major; _] => version_new (number_or_zero major) 0 0
  | [major; minor; patch] =>
      if bool_decide (patch = "x")
      then version_new (number_or_zero major) (number_or_zero minor) 0
      else version_new (number_or_zero major) (number_or_zero minor) (number_or_zero patch)
  | _ => version_new 0 0 0
  end.

Definition validate_from_less_than_to (from : string) (to : Version) (i : nat)
    : result unit MigrationError :=
  let min := from_range_min_version from in
  if bool_decide (version_cmp min to ≠ Lt) then
    entry_err i ("'from' range '" +:+ from +:+ "' minimum version (" +:+ version_display min
      +:+ ") must be strictly less than 'to' version (" +:+ version_display to +:+ ")")
  else Ok tt.

Definition version_matches_range (v : Version) (range : string) : bool :=
  match split "."%char range with
  | [major; minor] =>
      if bool_decide (minor = "x") then (v_major v =? number_or_max major)%Z else false
  | [major; minor; patch] =>
      if bool_decide (patch = "x") then
        (v_major v =? number_or_max major)%Z && (v_minor v =? number_or_max minor)%Z
      else match version_parse range with
           | Ok w => bool_decide (v = w)
           | Err _ => false
           end
  | _ => false
  end.

(** The chain of a collection, in the order of the manifest. *)
Definition chain_of (entries : list MigrationEntry) (collection : string) : list MigrationEntry :=
  filter (λ e, me_collection e = collection) entries.

(** The keys of [by_collection], in the order [visit] gives them. *)
Definition collections (entries : list MigrationEntry) : list string :=
  remove_dups (me_collection <$> entries).

Context (visit : list string → list string).

(** The two loops [for i in .. { for j in (i + 1).. }]. *)
Definition check_pair (collection : string) (a b : MigrationEntry) : result unit MigrationError :=
  let range_a := range_parse (me_from a) in
  let range_b := range_parse (me_from b) in
  if overlaps range_a range_b then
    Err (ManifestValidation
      ("overlapping 'from' ranges in collection '" +:+ collection +:+ "': '" +:+ me_from a
       +:+ "' and '" +:+ me_from b +:+ "' both match version "
       +:+ find_overlap_example range_a range_b))
  else Ok tt.

Fixpoint check_pairs (collection : string) (chain : list MigrationEntry)
    : result unit MigrationError :=
  match chain with
  | [] => Ok tt
  | a :: rest => for_each (check_pair collection a) rest ;? check_pairs collection rest
  end.

Definition validate_no_overlapping_ranges (entries : list MigrationEntry)
    : result unit MigrationError :=
  for_each (λ c, check_pairs c (chain_of entries c)) (visit (collections entries)).

(** [sort_by(|a, b| a.to.cmp(&b.to))], a stable sort. *)
Definition to_le (a b : MigrationEntry) : Prop := version_cmp (me_to a) (me_to b) ≠ Gt.
#[export] Instance to_le_dec a b : Decision (to_le a b).
Proof. unfold to_le. apply _. Defined.

Definition sort_by_to (entries : list MigrationEntry) : list MigrationEntry :=
  merge_sort to_le entries.

(** [chain.windows(2)]. *)
Fixpoint check_links (collection : string) (chain : list MigrationEntry)
    : result unit MigrationError :=
  match chain with
  | prev :: ((next :: _) as rest) =>
      if negb (version_matches_range (me_to prev) (me_from next)) then
        Err (ManifestValidation
          ("migration chain gap in collection '" +:+ collection +:+ "': entry targeting "
           +:+ version_display (me_to prev) +:+ " is not followed by an entry whose 'from' range matches "
           +:+ version_display (me_to prev) +:+ ". Next entry has 'from' range '" +:+ me_from next +:+ "'"))
      else check_links collection rest
  | _ => Ok tt
  end.

Definition validate_chain_contiguity (entries : list MigrationEntry) : result unit MigrationError :=
  for_each (λ c,
    let chain := chain_of entries c in
    if (length chain <=? 1)%nat then Ok tt else check_links c (sort_by_to chain))
    (visit (collections entries)).

(** One iteration of the entry loop. *)
Definition parse_entry (i : nat) (raw : RawMigrationEntry) : result MigrationEntry MigrationError :=
  let missing field := ManifestValidation
    ("migration entry " +:+ show_nat i +:+ ": missing '" +:+ field +:+ "' field") in
  let? from := ok_or (rm_from raw) (missing "from") in
  let? to_str := ok_or (rm_to raw) (missing "to") in
  let? transform := ok_or (rm_transform raw) (missing "transform") in
  let? description := ok_or (rm_description raw) (missing "description") in
  let? collection := ok_or (rm_collection raw) (missing "collection") in
  validate_from_range from i ;?
  let? to := result_map_err (λ e, ManifestValidation
    ("migration entry " +:+ show_nat i +:+ ": invalid 'to' version '" +:+ to_str +:+ "': " +:+ e))
    (version_parse to_str) in
  validate_from_less_than_to from to i ;?
  validate_transform_name transform i ;?
  validate_collection_name collection i ;?
  Ok (mkMigration _ from to transform description collection).

Fixpoint parse_entries (i : nat) (raws : list RawMigrationEntry)
    : result (list MigrationEntry) MigrationError :=
  match raws with
  | [] => Ok []
  | raw :: rest =>
      let? e := parse_entry i raw in
      let? es := parse_entries (S i) rest in
      Ok (e :: es)
  end.

(** The TOML parser gives the entries of [[migrations]], if there is such a section. *)
Definition parse_migration_entries_from_str
    (toml_from_str : string → result (option (list RawMigrationEntry)) string) (content : string)
    : result (list MigrationEntry) MigrationError :=
  let? raw := result_map_err (λ e, ManifestParse ("failed to parse manifest TOML: " +:+ e))
                (toml_from_str content) in
  match raw with
  | None => Ok []
  | Some raws =>
      let? entries := parse_entries 0 raws in
      validate_no_overlapping_ranges entries ;?
      validate_chain_contiguity entries ;?
      Ok entries
  end.

(** [parse_migration_entries]: the file's text, or why it cannot be read. *)
Definition parse_migration_entries toml_from_str (path : string) (file : result string string)
    : result (list MigrationEntry) MigrationError :=
  let? content := result_map_err
    (λ e, ManifestParse ("failed to read " +:+ path +:+ ": " +:+ e)) file in
  parse_migration_entries_from_str toml_from_str content.

(** validate.rs, over the exported function names of the module. *)
Definition validate_wasm_exports_from_bytes (exports : result (list string) string)
    (entries : list MigrationEntry) : result unit MigrationError :=
  match entries with
  | [] => Ok tt
  | _ =>
      let? exported := result_map_err ManifestValidation exports in
      let missing := filter (λ name, name ∉ exported) (me_transform <$> entries) in
      if bool_decide (missing = []) then Ok tt
      else Err (ManifestValidation
             ("WASM module is missing migration transform exports: " +:+ join ", " missing))
  end.
End Manifest.

(** * Facts about migration manifests

    An accepted manifest is a deterministic chain: no version is claimed by two entries
    of a collection, and from the target of any entry the later ones are reached. *)

Local Close Scope string_scope.

Section Ranges.
Context `{SemverLaws}.

(** The versions of a range. *)
Definition in_range (r : VersionRange) (v : Version) : Prop :=
  match r with
  | MajorWildcard m => v_major v = m
  | MinorWildcard m n => v_major v = m ∧ v_minor v = n
  | Exact m n p => v = version_new m n p
  end.

Lemma overlaps_exact a b : overlaps a b = true ↔ ∃ v, in_range a v ∧ in_range b v.
Proof.
  assert (∀ m n p m' n' p', version_new m n p = version_new m' n' p' → m = m' ∧ n = n' ∧ p = p') as Hinj.
  { intros m n p m' n' p' E. pose proof (f_equal v_major E) as E1.
    pose proof (f_equal v_minor E) as E2. pose proof (f_equal v_patch E) as E3.
    by rewrite !v_major_new, !v_minor_new, !v_patch_new in *. }
  destruct a as [m|m n|m n p], b as [m'|m' n'|m' n' p']; simpl;
    rewrite ?andb_true_iff, ?Z.eqb_eq; split.
  all: try (intros (v & Ha & Hb); subst; try apply Hinj in Hb;
            rewrite ?v_major_new, ?v_minor_new in *; naive_solver).
  - intros ->. exists (version_new m' 0 0). by rewrite v_major_new.
  - intros ->. exists (version_new m' n' 0). by rewrite v_major_new, v_minor_new.
  - intros ->. exists (version_new m' n' p'). by rewrite v_major_new.
  - intros ->. exists (version_new m n 0). by rewrite v_major_new, v_minor_new.
  - intros [-> ->]. exists (version_new m' n' 0). by rewrite v_major_new, v_minor_new.
  - intros [-> ->]. exists (version_new m' n' p'). by rewrite v_major_new, v_minor_new.
  - intros ->. exists (version_new m n p). by rewrite v_major_new.
  - intros [-> ->]. exists (version_new m n p). by rewrite v_major_new, v_minor_new.
  - intros [[-> ->] ->]. by exists (version_new m' n' p').
Qed.

Lemma parse_part_Ok s part from i x : parse_part s part from i = Ok x → parse_u64 s = Some x.
Proof. unfold parse_part. destruct (parse_u64 s); naive_solver. Qed.

(** The string test only accepts versions of the parsed range. *)
Lemma matches_in_range v from i :
  validate_from_range from i = Ok tt → version_matches_range v from = true →
  in_range (range_parse from) v.
Proof.
  unfold validate_from_range, version_matches_range, range_parse.
  pose proof (join_split "."%char from) as Hj.
  destruct (split "."%char from) as [|x [|y [|z [|]]]]; try done; intros Hv Hm; inv_ok.
  - apply parse_part_Ok in Heqr. unfold number_or_zero, number_or_max in *. rewrite Heqr in *.
    case_bool_decide; [|done]. simpl in *. by apply Z.eqb_eq in Hm.
  - apply parse_part_Ok in Heqr, Heqr0. unfold number_or_zero, number_or_max in *.
    rewrite Heqr, Heqr0 in *. case_bool_decide as Hz.
    + simpl in *. by apply andb_true_iff in Hm as [?%Z.eqb_eq ?%Z.eqb_eq].
    + rewrite bool_decide_eq_true_2 in Hv by done. inv_ok. apply parse_part_Ok in Heqr1.
      rewrite Heqr1. simpl. destruct (version_parse from) as [w|] eqn:Ep; [|done].
      bool_to_prop. subst v. rewrite <- Hj in Ep. by eapply parse_numbers in Ep.
Qed.
End Ranges.

(** ** Sorting by target *)

Section Order.
Context `{SemverLaws}.

Lemma cmp_refl v : version_cmp v v = Eq.
Proof. by apply cmp_eq. Qed.

Lemma to_le_antisym a b : to_le a b → to_le b a → me_to a = me_to b.
Proof.
  unfold to_le. rewrite (cmp_antisym (me_to a)). intros H1 H2. apply cmp_eq.
  by destruct (version_cmp _ _).
Qed.

#[export] Instance to_le_total : Total to_le.
Proof.
  intros a b. unfold to_le. rewrite (cmp_antisym (me_to a) (me_to b)).
  destruct (version_cmp (me_to a) _); simpl; auto.
Qed.

#[export] Instance to_le_trans : Transitive to_le.
Proof.
  intros a b c. unfold to_le. intros H1 H2.
  destruct (version_cmp (me_to a) (me_to b)) eqn:E1; [|clear H1|done].
  { apply cmp_eq in E1. by rewrite E1. }
  destruct (version_cmp (me_to b) (me_to c)) eqn:E2; [|clear H2|done].
  { apply cmp_eq in E2. by rewrite <- E2, E1. }
  by rewrite (cmp_trans _ _ _ E1 E2).
Qed.

Lemma sort_by_to_sorted es : StronglySorted to_le (sort_by_to es).
Proof. apply Sorted_StronglySorted; [apply _|]. apply Sorted_merge_sort, _. Qed.
End Order.

Lemma sort_by_to_perm `{SemverLib} es : sort_by_to es ≡ₚ es.
Proof. apply merge_sort_Permutation. Qed.

(** ** Accepted manifests *)

Section Accepted.
Context `{SemverLaws}.

(** One migration step of a collection's records. *)
Definition migrates (es : list MigrationEntry) (c : string) (v w : Version) : Prop :=
  ∃ e, e ∈ es ∧ me_collection e = c ∧ version_matches_range v (me_from e) = true ∧ w = me_to e.

Lemma check_pairs_Ok c chain i j a b :
  check_pairs c chain = Ok tt → i < j → chain !! i = Some a → chain !! j = Some b →
  overlaps (range_parse (me_from a)) (range_parse (me_from b)) = false.
Proof.
  revert i j. induction chain as [|x chain IH]; intros i j Hok Hij Ha Hb; [done|].
  simpl in Hok. inv_ok. destruct i as [|i], j as [|j]; simplify_eq/=; [lia| |lia|].
  - apply for_each_Ok in Heqr. rewrite Forall_forall in Heqr.
    specialize (Heqr b). unfold check_pair in Heqr.
    destruct (overlaps _ _); [|done]. by discriminate Heqr; eapply list_elem_of_lookup_2.
  - apply (IH i j); [done|lia|done..].
Qed.

Lemma check_links_rtc es c chain i j a b :
  (∀ e, e ∈ chain → e ∈ es ∧ me_collection e = c) → check_links c chain = Ok tt →
  (i ≤ j)%nat → chain !! i = Some a → chain !! j = Some b → rtc (migrates es c) (me_to a) (me_to b).
Proof.
  revert i j a. induction chain as [|x chain IH]; intros i j a Hin Hok Hij Ha Hb; [done|].
  destruct i as [|i], j as [|j]; simplify_eq/=; [done| |lia|].
  - destruct chain as [|y chain]; [done|]. simpl in Hok.
    destruct (version_matches_range _ _) eqn:Em; simpl in Hok; [|done].
    destruct (Hin y) as [Hy Hc]; [by right; left|].
    apply (rtc_l _ _ (me_to y)); [by exists y|].
    apply (IH 0 j); [|done|lia|done..]. intros e He. apply Hin. by right.
  - destruct chain as [|y chain]; [done|].
    apply (IH i j); [|by destruct (negb _)|lia|done..]. intros e He. apply Hin. by right.
Qed.

Lemma parse_entries_Forall i raws es :
  parse_entries i raws = Ok es → Forall (λ e, ∃ k,
    validate_from_range (me_from e) k = Ok tt ∧
    version_cmp (from_range_min_version (me_from e)) (me_to e) = Lt ∧
    validate_transform_name (me_transform e) k = Ok tt ∧
    validate_collection_name (me_collection e) k = Ok tt) es.
Proof.
  revert i es. induction raws as [|raw raws IH]; intros i es Hp; simpl in Hp; inv_ok; [done|].
  constructor; [|by eapply IH]. unfold parse_entry in Heqr. inv_ok. exists i. simpl.
  split; [done|]. split; [|done].
  rename select (validate_from_less_than_to _ _ _ = _) into Hlt. unfold validate_from_less_than_to in Hlt.
  case_bool_decide as Hc; [done|]. by destruct (version_cmp _ _); [destruct Hc|..|destruct Hc].
Qed.

Context (visit : list string → list string) (Hvisit : ∀ l, visit l ≡ₚ l).

Lemma visited es e (f : string → result unit MigrationError) :
  for_each f (visit (collections es)) = Ok tt → e ∈ es → f (me_collection e) = Ok tt.
Proof.
  rewrite for_each_Ok, Forall_forall. intros Hf He. apply Hf. rewrite Hvisit.
  unfold collections. apply elem_of_remove_dups. by apply list_elem_of_fmap_2.
Qed.

Lemma chain_of_elem es c e : e ∈ chain_of es c ↔ e ∈ es ∧ me_collection e = c.
Proof. unfold chain_of. rewrite list_elem_of_filter. tauto. Qed.

(** No version is claimed twice. *)
Lemma disjoint_ranges es i j a b v k k' :
  validate_no_overlapping_ranges visit es = Ok tt →
  validate_from_range (me_from a) k = Ok tt → validate_from_range (me_from b) k' = Ok tt →
  i < j → es !! i = Some a → es !! j = Some b → me_collection a = me_collection b →
  version_matches_range v (me_from a) = true → version_matches_range v (me_from b) = true → False.
Proof.
  intros Hov Hka Hkb Hij Ha Hb Hc Hva Hvb.
  pose proof (visited es a _ Hov (list_elem_of_lookup_2 _ _ _ Ha)) as Hp. simpl in Hp.
  destruct (filter_lookup_lt (λ e, me_collection e = me_collection a) es i j a b)
    as (i' & j' & Hlt & Hi' & Hj'); [done..|].
  pose proof (check_pairs_Ok _ _ i' j' a b Hp Hlt Hi' Hj') as Hno.
  apply not_true_iff_false in Hno. apply Hno, overlaps_exact.
  exists v. split; by eapply matches_in_range.
Qed.

(** Later targets are reached. *)
Lemma linked_targets es a b :
  validate_chain_contiguity visit es = Ok tt →
  a ∈ es → b ∈ es → me_collection a = me_collection b → to_le a b →
  rtc (migrates es (me_collection a)) (me_to a) (me_to b).
Proof.
  intros Hch Ha Hb Hc Hle. pose proof (visited es a _ Hch Ha) as Hl. simpl in Hl.
  set (c := me_collection a) in *. set (chain := chain_of es c) in *.
  assert (a ∈ chain ∧ b ∈ chain) as [Hac Hbc] by (by split; apply chain_of_elem).
  destruct (length chain <=? 1) eqn:El.
  { apply Nat.leb_le in El. destruct chain as [|x [|]]; [by apply not_elem_of_nil in Hac| |simpl in El; lia].
    apply list_elem_of_singleton in Hac as ->, Hbc as ->. done. }
  rewrite <- (sort_by_to_perm chain) in Hac, Hbc.
  apply list_elem_of_lookup in Hac as [i Hi], Hbc as [j Hj].
  destruct (decide (i ≤ j)) as [Hij|Hij].
  - eapply check_links_rtc; [|done|done|done|done].
    intros e He. rewrite (sort_by_to_perm chain) in He. by apply chain_of_elem.
  - assert (to_le b a) as Hge.
    { pose proof (sort_by_to_sorted chain) as Hs.
      eapply (StronglySorted_lookup_lt _ _ j i); [done|lia|done|done]. }
    by rewrite (to_le_antisym a b).
Qed.
End Accepted.

(** C36. An accepted migration manifest is a deterministic chain. Every entry starts
    below its target; no version matches the ranges of two entries of one collection,
    so which entry migrates a record is determined; and within a collection the target
    of an entry is migrated, entry by entry, to every target above it. *)
Theorem accepted_manifest_chain `{SemverLaws} visit toml content es :
  (∀ l, visit l ≡ₚ l) →
  parse_migration_entries_from_str visit toml content = Ok es →
  Forall (λ e, version_cmp (from_range_min_version (me_from e)) (me_to e) = Lt) es ∧
  (∀ i j a b v, es !! i = Some a → es !! j = Some b → me_collection a = me_collection b →
     version_matches_range v (me_from a) = true → version_matches_range v (me_from b) = true →
     i = j) ∧
  (∀ a b, a ∈ es → b ∈ es → me_collection a = me_collection b → to_le a b →
     rtc (migrates es (me_collection a)) (me_to a) (me_to b)).
Proof.
  intros Hvisit Hp. unfold parse_migration_entries_from_str in Hp. inv_ok.
  destruct a as [raws|]; simplify_eq/=.
  2: { split; [done|]. split; [done|]. intros ? ? Ha. by apply not_elem_of_nil in Ha. }
  inv_ok. rename select (parse_entries _ _ = _) into Hes. apply parse_entries_Forall in Hes.
  split; [eapply Forall_impl; [done|]; naive_solver|]. split.
  - intros i j a b v Ha Hb Hc Hva Hvb.
    destruct (Forall_lookup_1 _ _ _ _ Hes Ha) as (k & Hka & _).
    destruct (Forall_lookup_1 _ _ _ _ Hes Hb) as (k' & Hkb & _).
    destruct (lt_eq_lt_dec i j) as [[Hij|Hij]|Hij]; [exfalso|done|exfalso].
    + by eapply (disjoint_ranges visit Hvisit es i j a b).
    + by eapply (disjoint_ranges visit Hvisit es j i b a).
  - intros a b. by apply (linked_targets visit Hvisit).
Qed.

(** ** Versions without pre-release tags, for concrete manifests *)

Module PlainSemver.
Definition cmp (v w : Z * Z * Z) : comparison :=
  match (v.1.1 ?= w.1.1)%Z, (v.1.2 ?= w.1.2)%Z with
  | Eq, Eq => (v.2 ?= w.2)%Z
  | Eq, c => c
  | c, _ => c
  end.

(** A number of a version: digits without a sign or a leading zero. *)
Definition numeral (s : string) : option Z :=
  match s with
  | String "+"%char _ => None
  | String "0"%char (String _ _) => None
  | _ => parse_u64 s
  end.

Definition parse (s : string) : result (Z * Z * Z) string :=
  match split "."%char s with
  | [x; y; z] =>
      match numeral x, numeral y, numeral z with
      | Some a, Some b, Some c => Ok (a, b, c)
      | _, _, _ => Err "invalid version"
      end
  | _ => Err "invalid version"
  end.

Lemma numeral_Some s v : numeral s = Some v → parse_u64 s = Some v.
Proof. unfold numeral. repeat case_match; naive_solver. Qed.
End PlainSemver.

Definition plain_semver : SemverLib := {|
  Version := Z * Z * Z;
  v_major v := v.1.1;
  v_minor v := v.1.2;
  v_patch v := v.2;
  version_new a b c := (a, b, c);
  version_parse := PlainSemver.parse;
  version_display v := show_Z v.1.1 +:+ "." +:+ show_Z v.1.2 +:+ "." +:+ show_Z v.2;
  version_cmp := PlainSemver.cmp;
|}.

Lemma plain_semver_laws : @SemverLaws plain_semver.
Proof.
  split; simpl; try done.
  - intros [[a b] c] [[a' b'] c']. unfold PlainSemver.cmp. simpl.
    destruct (Z.compare_spec a a'), (Z.compare_spec b b'); subst;
      rewrite ?Z.compare_eq_iff; split; intros; simplify_eq; try lia; done.
  - intros [[a b] c] [[a' b'] c']. unfold PlainSemver.cmp. simpl.
    rewrite (Z.compare_antisym a a'), (Z.compare_antisym b b'), (Z.compare_antisym c c').
    by destruct (a ?= a')%Z, (b ?= b')%Z.
  - intros [[a b] c] [[a' b'] c'] [[a2 b2] c2]. unfold PlainSemver.cmp. simpl.
    destruct (Z.compare_spec a a'), (Z.compare_spec b b'), (Z.compare_spec a' a2),
      (Z.compare_spec b' b2), (Z.compare_spec a a2), (Z.compare_spec b b2);
      subst; rewrite ?Z.compare_lt_iff; intros; try done; lia.
  - intros [[a b] c] [[a' b'] c'] Hlt. unfold PlainSemver.cmp. simpl in *.
    by apply Z.compare_lt_iff in Hlt as ->.
  - intros x y z a b c v Hx Hy Hz Hp.
    assert (split "."%char (join (singleton "."%char) [x; y; z]) = [x; y; z]) as Hs.
    { apply split_join; [done|]. repeat constructor; by eapply parse_u64_no_char. }
    unfold PlainSemver.parse in Hp. unfold singleton in Hs. simpl in *. rewrite Hs in Hp.
    destruct (PlainSemver.numeral x) eqn:Ex; [|done]. destruct (PlainSemver.numeral y) eqn:Ey; [|done].
    destruct (PlainSemver.numeral z) eqn:Ez; [|done].
    apply PlainSemver.numeral_Some in Ex, Ey, Ez. naive_solver.
Qed.

#[local] Existing Instance plain_semver.
#[local] Existing Instance plain_semver_laws.

Module MigrationDemo.
Definition raw (from to : string) : RawMigrationEntry :=
  mkRawMigration (Some from) (Some to) (Some "up") (Some "") (Some "notes").

(** A manifest of two entries, given out of order. *)
Definition demo_toml (content : string) : result (option (list RawMigrationEntry)) string :=
  Ok (Some [raw "2.x" "3.0.0"; raw "1.0.x" "2.1.0"]).

Definition demo_entries : list MigrationEntry :=
  [mkMigration _ "2.x" (3, 0, 0)%Z "up" "" "notes"; mkMigration _ "1.0.x" (2, 1, 0)%Z "up" "" "notes"].
End MigrationDemo.

Lemma accepted_manifest_chain_witness :
  rtc (@migrates plain_semver MigrationDemo.demo_entries "notes") (2, 1, 0)%Z (3, 0, 0)%Z.
Proof.
  refine (proj2 (proj2 (@accepted_manifest_chain plain_semver plain_semver_laws id
    MigrationDemo.demo_toml "" MigrationDemo.demo_entries _ _))
    (mkMigration _ "1.0.x" (2, 1, 0)%Z "up" "" "notes")
    (mkMigration _ "2.x" (3, 0, 0)%Z "up" "" "notes") _ _ _ _).
  - done.
  - reflexivity.
  - right. left.
  - left.
  - reflexivity.
  - unfold to_le. vm_compute. discriminate.
Defined.
