(* ===== verification/MigrationRun.v ===== *)
(** * Running migrations

    packages/workflow-engine/src/migration/engine.rs and runner.rs over the tables of
    packages/storage-sqlite/src/migration (quarantine.rs, log.rs, version.rs), and
    apps/core/src/canonical_migrations.rs, which decides at start-up what to run. The
    database is its tables in row order; statements do not fail. An entry's writes are
    one transaction, so an error inside it leaves the tables as they were. The WASM
    module, the file system, the clock and fresh ids are parameters. *)

From stdpp Require Import base tactics list strings sorting gmap.
From Stdlib Require Import Ascii ZArith Lia.
From S2P Require Import Prelude RustString Json Types Migration Conflict Federation.

Local Open Scope string_scope.

(** ** Tables *)

Record DataRow : Type := mkRow {
  dr_id : string;
  dr_plugin_id : string;
  dr_collection : string;
  dr_data : string;
  dr_version : Z;
  dr_updated_at : string;
}.

Record QuarantinedRecord : Type := mkQuarantined {
  qr_id : string;
  qr_record_data : string;
  qr_plugin_id : string;
  qr_collection : string;
  qr_from_version : string;
  qr_to_version : string;
  qr_error_message : string;
  qr_timestamp : string;
}.

Record MigrationLogEntry : Type := mkMigrationLog {
  ml_id : string;
  ml_plugin_id : string;
  ml_collection : string;
  ml_from_version : string;
  ml_to_version : string;
  ml_records_migrated : Z;
  ml_records_quarantined : Z;
  ml_duration_ms : Z;
  ml_backup_path : option string;
  ml_error : option string;
  ml_timestamp : string;
}.

(** The database, with the number of clock readings and ids drawn so far. *)
Record MigrationDb : Type := mkMigrationDb {
  db_rows : list DataRow;
  db_quarantine : list QuarantinedRecord;
  db_log : list MigrationLogEntry;
  (** [schema_versions]: (plugin, collection) to version *)
  db_versions : gmap (string * string) Z;
  db_draws : nat;
}.

Definition set_rows (rows : list DataRow) (db : MigrationDb) : MigrationDb :=
  mkMigrationDb rows (db_quarantine db) (db_log db) (db_versions db) (S (db_draws db)).

(** ** The transform runner (runner.rs) *)

(** A WASM binary: whether it can be read and instantiated, and its exports, each call
    in a fresh instance without host functions. *)
Record TransformModule : Type := mkModule {
  tm_path : string;
  tm_read_error : option string;
  tm_init_error : option string;
  tm_call : string → string → result string string;
}.

Definition is_trap (msg : string) : bool :=
  contains_str msg "unreachable" || contains_str msg "trap" || contains_str msg "panic"
  || contains_str msg "wasm backtrace".

Definition run_transform_from_bytes `{JsonText} (w : TransformModule) (function : string)
    (input : json) : result json MigrationError :=
  match tm_init_error w with
  | Some e => Err (TransformCrashed function ("failed to initialize WASM sandbox: " +:+ e))
  | None =>
      let? output := result_map_err
        (λ msg, if is_trap msg then TransformCrashed function msg else TransformFailed function msg)
        (tm_call w function (json_to_string input)) in
      result_map_err (λ e, TransformFailed function ("transform output is not valid JSON: " +:+ e))
        (json_from_str output)
  end.

Definition run_transform `{JsonText} (w : TransformModule) (function : string) (input : json)
    : result json MigrationError :=
  match tm_read_error w with
  | Some e => Err (TransformCrashed function
                ("failed to read WASM binary at " +:+ tm_path w +:+ ": " +:+ e))
  | None => run_transform_from_bytes w function input
  end.

Definition parse_from_version (from : string) : result Z MigrationError :=
  ok_or (parse_i64 (default from (head (split "."%char from))))
    (ManifestValidation ("cannot parse major version from '" +:+ from +:+ "'")).

Record MigrationResult : Type := mkMigrationResult {
  mr_migrated : nat;
  mr_quarantined : nat;
  mr_duration_ms : Z;
  mr_backup_path : string;
  mr_entries_applied : list string;
}.

Section Engine.
Context `{SemverLib} `{JsonText}.
Context (clock uuid : nat → string).
Context (wasm : TransformModule) (plugin_id : string).

(** [WHERE plugin_id = ?1 AND collection = ?2 AND version = ?3]. *)
Definition selects (collection : string) (version : Z) (r : DataRow) : Prop :=
  dr_plugin_id r = plugin_id ∧ dr_collection r = collection ∧ dr_version r = version.
#[export] Instance selects_dec c v r : Decision (selects c v r).
Proof. unfold selects. apply _. Defined.

Definition query_records (db : MigrationDb) (collection : string) (version : Z) : list DataRow :=
  filter (selects collection version) (db_rows db).

(** [UPDATE plugin_data SET data, version, updated_at WHERE id = ?4]. *)
Definition update_record (id new_data : string) (new_version : Z) (db : MigrationDb) : MigrationDb :=
  let now := clock (db_draws db) in
  set_rows ((λ r, if bool_decide (dr_id r = id)
                  then mkRow (dr_id r) (dr_plugin_id r) (dr_collection r) new_data new_version now
                  else r) <$> db_rows db) db.

Definition quarantine_record (data collection from to error : string) (db : MigrationDb) : MigrationDb :=
  let d := db_draws db in
  mkMigrationDb (db_rows db)
    (db_quarantine db ++ [mkQuarantined (uuid d) data plugin_id collection from to error (clock d)])
    (db_log db) (db_versions db) (S d).

Definition log_migration (e : MigrationLogEntry) (db : MigrationDb) : MigrationDb :=
  mkMigrationDb (db_rows db) (db_quarantine db) (db_log db ++ [e]) (db_versions db)
    (S (db_draws db)).

(** The loop body over the records of an entry: the counts so far and the database. *)
Definition migrate_record (entry : MigrationEntry) (acc : nat * nat * MigrationDb) (record : DataRow)
    : result (nat * nat * MigrationDb) MigrationError :=
  let '(migrated, quarantined, db) := acc in
  let? input := result_map_err (λ e, TransformFailed (me_transform entry)
    ("failed to parse record " +:+ dr_id record +:+ " data as JSON: " +:+ e))
    (json_from_str (dr_data record)) in
  match run_transform wasm (me_transform entry) input with
  | Ok output =>
      Ok (S migrated, quarantined,
          update_record (dr_id record) (json_to_string output) (u64_as_i64 (v_major (me_to entry))) db)
  | Err e =>
      Ok (migrated, S quarantined,
          quarantine_record (dr_data record) (me_collection entry) (me_from entry)
            (version_display (me_to entry)) (migration_error_display e) db)
  end.

Definition entry_label (entry : MigrationEntry) : string :=
  me_from entry +:+ " -> " +:+ version_display (me_to entry).

(** One iteration over the entries; [None] when no record matches. *)
Definition run_entry (entry : MigrationEntry) (db : MigrationDb)
    : result (option (nat * nat)) MigrationError * MigrationDb :=
  match parse_from_version (me_from entry) with
  | Err e => (Err e, db)
  | Ok from_version =>
      match query_records db (me_collection entry) from_version with
      | [] => (Ok None, db)
      | records =>
          match try_fold (migrate_record entry) (0, 0, db) records with
          | Ok (m, q, db') => (Ok (Some (m, q)), db')
          | Err e => (Err e, db)
          end
      end
  end.

Record Totals : Type := mkTotals { t_migrated : nat; t_quarantined : nat; t_applied : list string }.

Fixpoint run_entries (entries : list MigrationEntry) (t : Totals) (db : MigrationDb)
    : result Totals MigrationError * MigrationDb :=
  match entries with
  | [] => (Ok t, db)
  | entry :: rest =>
      match run_entry entry db with
      | (Err e, db') => (Err e, db')
      | (Ok None, db') => run_entries rest t db'
      | (Ok (Some (m, q)), db') =>
          run_entries rest (mkTotals (t_migrated t + m) (t_quarantined t + q)
                              (t_applied t ++ [entry_label entry])) db'
      end
  end.

(** The log row written for every entry after the run. *)
Definition run_log (t : Totals) (duration_ms : Z) (backup_path : string) (db : MigrationDb)
    (entry : MigrationEntry) : MigrationDb :=
  let d := db_draws db in
  log_migration (mkMigrationLog (uuid d) plugin_id (me_collection entry) (me_from entry)
    (version_display (me_to entry)) (Z.of_nat (t_migrated t)) (Z.of_nat (t_quarantined t))
    duration_ms (Some backup_path) None (clock d)) db.

Definition run_migrations (backup : result string string) (elapsed_ms : Z)
    (entries : list MigrationEntry) (db : MigrationDb)
    : result MigrationResult MigrationError * MigrationDb :=
  match backup with
  | Err e => (Err (TransformFailed "create_backup" ("backup failed: " +:+ e)), db)
  | Ok backup_path =>
      let sorted_entries := sort_by_to entries in
      match run_entries sorted_entries (mkTotals 0 0 []) db with
      | (Err e, db') => (Err e, db')
      | (Ok t, db') =>
          (Ok (mkMigrationResult (t_migrated t) (t_quarantined t) elapsed_ms backup_path (t_applied t)),
           foldl (run_log t elapsed_ms backup_path) db' sorted_entries)
      end
  end.
End Engine.

(** ** Schema versions (version.rs) *)

Definition get_schema_version (plugin_id collection : string) (db : MigrationDb) : option Z :=
  db_versions db !! (plugin_id, collection).

(** [INSERT OR REPLACE INTO schema_versions]. *)
Definition set_schema_version (plugin_id collection : string) (version : Z) (db : MigrationDb)
    : MigrationDb :=
  mkMigrationDb (db_rows db) (db_quarantine db) (db_log db)
    (<[(plugin_id, collection) := version]> (db_versions db)) (S (db_draws db)).

(** ** Canonical collections (packages/types/src/migrations.rs) *)

Definition CANONICAL_PLUGIN_ID : string := "core".

Record CanonicalCollection : Type := mkCanonical {
  cc_name : string;
  cc_version : Z;
  cc_migration_dir : string;
}.

Definition CANONICAL_COLLECTIONS : list CanonicalCollection :=
  (λ n, mkCanonical n 1 n) <$>
  ["events"; "tasks"; "contacts"; "notes"; "emails"; "files"; "credentials"].

(** What a migration directory holds; [None] for a file that does not exist. *)
Record MigrationDir : Type := mkMigrationDir {
  md_manifest : option (result string string);
  md_wasm : option TransformModule;
}.

Record PendingMigration `{SemverLib} : Type := mkPending {
  pm_collection : string;
  pm_declared : Z;
  pm_wasm : TransformModule;
  pm_entries : list MigrationEntry;
}.

Section Canonical.
Context `{SemverLib} `{JsonText}.
Context (clock uuid : nat → string) (visit : list string → list string).
Context (toml : string → result (option (list RawMigrationEntry)) string).
(** The migration directories that exist, by name. *)
Context (dirs : string → option MigrationDir).

Definition relevant (stored declared : Z) (e : MigrationEntry) : bool :=
  let from_major := default 0%Z (head (split "."%char (me_from e)) ≫= parse_i64) in
  (stored <=? from_major)%Z && (u64_as_i64 (v_major (me_to e)) <=? declared)%Z.

(** What a collection that is behind can run, if anything. *)
Definition pending_for (c : CanonicalCollection) (stored : Z) : option PendingMigration :=
  dir ← dirs (cc_migration_dir c);
  file ← md_manifest dir;
  wasm ← md_wasm dir;
  entries ← result_ok (parse_migration_entries visit toml "manifest.toml" file);
  let rel := filter (λ e, relevant stored (cc_version c) e = true) entries in
  match rel with
  | [] => None
  | _ => Some (mkPending _ (cc_name c) (cc_version c) wasm rel)
  end.

(** Phase 1. *)
Definition check_collection (acc : list PendingMigration * MigrationDb) (c : CanonicalCollection)
    : list PendingMigration * MigrationDb :=
  let '(pending, db) := acc in
  let stored := default 0%Z (get_schema_version CANONICAL_PLUGIN_ID (cc_name c) db) in
  if (stored =? 0)%Z then
    (pending, set_schema_version CANONICAL_PLUGIN_ID (cc_name c) (cc_version c) db)
  else if (cc_version c <=? stored)%Z then (pending, db)
  else match pending_for c stored with
       | Some p => ((pending ++ [p])%list, db)
       | None => (pending, db)
       end.

(** Phase 2: a failed run is logged and the next one tried. *)
Definition run_pending (backup : result string string) (elapsed : Z) (db : MigrationDb)
    (p : PendingMigration) : MigrationDb :=
  match run_migrations clock uuid (pm_wasm p) CANONICAL_PLUGIN_ID backup elapsed (pm_entries p) db with
  | (Ok _, db') => set_schema_version CANONICAL_PLUGIN_ID (pm_collection p) (pm_declared p) db'
  | (Err _, db') => db'
  end.

Definition run_canonical_migrations (backup : result string string) (elapsed : Z)
    (collections : list CanonicalCollection) (db : MigrationDb) : MigrationDb :=
  let '(pending, db1) := foldl check_collection ([], db) collections in
  foldl (run_pending backup elapsed) db1 pending.
End Canonical.

(** * Facts about running migrations

    The engine's loop over entries and records does to each row what the entries do to
    it one after the other; a failing run stops between two entries; and where the
    bookkeeping by major version falls short. *)

Local Close Scope string_scope.

Section Rows.
Context `{SemverLib} `{JsonText}.
Context (clock uuid : nat → string) (wasm : TransformModule) (plugin_id : string).

(** A row without its modification time. *)
Definition strip (r : DataRow) : DataRow :=
  mkRow (dr_id r) (dr_plugin_id r) (dr_collection r) (dr_data r) (dr_version r) empty_str.

(** What an entry does to a row that it selects. *)
Definition transform_row (e : MigrationEntry) (r : DataRow) : DataRow :=
  match json_from_str (dr_data r) with
  | Ok input =>
      match run_transform wasm (me_transform e) input with
      | Ok output => mkRow (dr_id r) (dr_plugin_id r) (dr_collection r) (json_to_string output)
                       (u64_as_i64 (v_major (me_to e))) empty_str
      | Err _ => r
      end
  | Err _ => r
  end.

(** What an entry does to a row. *)
Definition step_row (r : DataRow) (e : MigrationEntry) : DataRow :=
  match parse_from_version (me_from e) with
  | Ok v => if decide (selects plugin_id (me_collection e) v r) then transform_row e r else r
  | Err _ => r
  end.

Definition ids (db : MigrationDb) : list string := dr_id <$> db_rows db.

Lemma update_record_ids id data v db : ids (update_record clock id data v db) = ids db.
Proof.
  unfold ids, update_record. simpl. rewrite <- list_fmap_compose. apply list_fmap_ext.
  intros i r _. simpl. by case_bool_decide.
Qed.

Lemma NoDup_id_inj db r r' :
  NoDup (ids db) → r ∈ db_rows db → r' ∈ db_rows db → dr_id r = dr_id r' → r = r'.
Proof. apply NoDup_fmap_elem. Qed.

Lemma strip_idem r : strip (strip r) = strip r.
Proof. done. Qed.

Lemma transform_row_strip e r : strip (transform_row e r) = transform_row e (strip r).
Proof. unfold transform_row. simpl. repeat case_match; done. Qed.

Lemma transform_row_id e r : dr_id (transform_row e r) = dr_id r.
Proof. unfold transform_row. by repeat case_match. Qed.

(** One record of the table. *)
Lemma migrate_record_step e x m q db m1 q1 db1 :
  NoDup (ids db) → x ∈ db_rows db →
  migrate_record clock uuid wasm plugin_id e (m, q, db) x = Ok (m1, q1, db1) →
  ids db1 = ids db ∧
  (∀ r, r ∈ db_rows db → dr_id r ≠ dr_id x → r ∈ db_rows db1) ∧
  strip <$> db_rows db1 =
    (λ r, if decide (dr_id r = dr_id x) then transform_row e (strip r) else strip r)
    <$> db_rows db.
Proof.
  intros Hnd Hx Hm. unfold migrate_record in Hm. inv_ok. rename a into input.
  rename select (result_map_err _ _ = _) into Hin.
  destruct (json_from_str (dr_data x)) as [v|] eqn:Ej; simplify_eq/=.
  assert (∀ r, r ∈ db_rows db → dr_id r = dr_id x → r = x) as Huniq.
  { intros r Hr Hid. by apply (NoDup_id_inj db). }
  destruct (run_transform wasm (me_transform e) input) as [out|err] eqn:Et; simplify_eq.
  - split; [apply update_record_ids|]. split.
    + intros r Hr Hne. unfold update_record. simpl. apply list_elem_of_fmap. exists r.
      by rewrite bool_decide_eq_false_2.
    + unfold update_record. simpl. rewrite <- list_fmap_compose. apply list_fmap_ext.
      intros i r Hr. simpl. case_bool_decide as Hid; [|by rewrite decide_False].
      rewrite decide_True by done. apply list_elem_of_lookup_2 in Hr.
      rewrite (Huniq r Hr Hid). unfold transform_row. simpl. by rewrite Ej, Et.
  - split; [done|]. split; [done|]. simpl. apply list_fmap_ext. intros i r Hr.
    case_decide as Hid; [|done]. apply list_elem_of_lookup_2 in Hr.
    rewrite (Huniq r Hr Hid). unfold transform_row. simpl. by rewrite Ej, Et.
Qed.

(** The record loop, over records that are in the table with distinct ids. *)
Lemma migrate_records_rows e records db m q m' q' db' :
  NoDup (ids db) → NoDup (dr_id <$> records) → (∀ x, x ∈ records → x ∈ db_rows db) →
  try_fold (migrate_record clock uuid wasm plugin_id e) (m, q, db) records = Ok (m', q', db') →
  ids db' = ids db ∧
  strip <$> db_rows db' =
    (λ r, if decide (dr_id r ∈ dr_id <$> records) then transform_row e (strip r) else strip r)
    <$> db_rows db.
Proof.
  revert m q db. induction records as [|x xs IH]; intros m q db Hnd Hxs Hin Hf.
  { simpl in *. simplify_eq. split; [done|]. by apply list_fmap_ext. }
  cbn [try_fold] in Hf. inv_ok. destruct a as [[m1 q1] db1].
  rewrite fmap_cons, NoDup_cons in Hxs. destruct Hxs as [Hx Hxs].
  destruct (migrate_record_step e x m q db m1 q1 db1) as (Hids & Hkeep & Hrows);
    [done|by apply Hin; left|done|].
  destruct (IH m1 q1 db1) as [Hids' Hrows']; [by rewrite Hids|done| |done|].
  { intros y Hy. apply Hkeep; [apply Hin; by right|]. intros Heq. apply Hx.
    rewrite <- Heq. by apply list_elem_of_fmap_2. }
  split; [congruence|]. rewrite Hrows'.
  transitivity ((λ r, if decide (dr_id r ∈ dr_id <$> xs) then transform_row e r else r)
                <$> (strip <$> db_rows db1)); [by rewrite <- list_fmap_compose|].
  rewrite Hrows, <- list_fmap_compose. apply list_fmap_ext. intros i r _. simpl.
  destruct (decide (dr_id r = dr_id x)) as [Hid|Hid].
  - rewrite transform_row_id. simpl. rewrite Hid, decide_False, decide_True by set_solver. done.
  - simpl. destruct (decide (dr_id r ∈ dr_id <$> xs)).
    + rewrite decide_True by set_solver. done.
    + rewrite decide_False by set_solver. done.
Qed.

Lemma selects_strip c v r : selects plugin_id c v (strip r) ↔ selects plugin_id c v r.
Proof. done. Qed.

(** One entry, on every row; on an error nothing. *)
Lemma run_entry_rows e db o db' :
  NoDup (ids db) → run_entry clock uuid wasm plugin_id e db = (o, db') →
  ids db' = ids db ∧ db_log db' = db_log db ∧
  match o with
  | Ok _ => strip <$> db_rows db' = (λ r, step_row (strip r) e) <$> db_rows db
  | Err _ => db' = db
  end.
Proof.
  intros Hnd Hr. unfold run_entry in Hr. unfold step_row.
  destruct (parse_from_version (me_from e)) as [v|err] eqn:Ev; [|by simplify_eq].
  destruct (query_records plugin_id db (me_collection e) v) as [|x xs] eqn:Eq.
  { simplify_eq. split; [done|]. split; [done|]. apply list_fmap_ext. intros i r Hr.
    rewrite decide_False; [done|]. intros Hs. apply (not_elem_of_nil r). rewrite <- Eq.
    apply list_elem_of_filter. split; [done|]. by eapply list_elem_of_lookup_2. }
  destruct (try_fold _ _ _) as [[[m q] db1]|err] eqn:Ef; simplify_eq; [|done].
  rewrite <- Eq in Ef. pose proof Ef as Hlog. apply migrate_records_rows in Ef as [Hids Hrows].
  - split; [done|]. split.
    { revert Hlog. apply (try_fold_invariant (λ acc, db_log acc.2 = db_log db)); [done|].
      intros [[m1 q1] db1] y [[m2 q2] db2] _ Hl Hm. unfold migrate_record in Hm. inv_ok.
      by destruct (run_transform _ _ _); simplify_eq. }
    rewrite Hrows. apply list_fmap_ext. intros i r Hr. apply list_elem_of_lookup_2 in Hr.
    destruct (decide (selects plugin_id (me_collection e) v (strip r))) as [Hs|Hs].
    + rewrite decide_True; [done|]. apply list_elem_of_fmap_2, list_elem_of_filter. done.
    + rewrite decide_False; [done|]. intros (r' & Hid & [Hs' Hr']%list_elem_of_filter)%list_elem_of_fmap.
      apply Hs. by rewrite (NoDup_id_inj db r r').
  - done.
  - unfold query_records. apply (sublist_NoDup _ (ids db)); [done|]. apply fmap_sublist, sublist_filter.
  - intros y [_ Hy]%list_elem_of_filter. done.
Qed.

(** All entries: the rows stand as after the first [k] entries, all of them on
    success. *)
Lemma run_entries_rows es t db o db' :
  NoDup (ids db) → run_entries clock uuid wasm plugin_id es t db = (o, db') →
  ids db' = ids db ∧ db_log db' = db_log db ∧
  ∃ k, k ≤ length es ∧ (is_ok o = true → k = length es) ∧
    strip <$> db_rows db' = (λ r, foldl step_row (strip r) (take k es)) <$> db_rows db.
Proof.
  revert t db. induction es as [|e es IH]; intros t db Hnd Hr; simpl in Hr.
  { simplify_eq. split; [done|]. split; [done|]. by exists 0. }
  destruct (run_entry clock uuid wasm plugin_id e db) as [o1 db1] eqn:E1.
  apply run_entry_rows in E1 as (Hids & Hlog & Hrows); [|done].
  destruct o1 as [o1|err].
  - assert (∃ t1, run_entries clock uuid wasm plugin_id es t1 db1 = (o, db')) as [t1 Hr1].
    { destruct o1 as [[m q]|]; by eexists. }
    destruct (IH t1 db1) as (Hids' & Hlog' & k & Hk & Hok & Hrows'); [by rewrite Hids|done|].
    split; [congruence|]. split; [congruence|]. exists (S k). simpl. split; [lia|].
    split; [intros ?; f_equal; auto|]. rewrite Hrows'.
    transitivity ((λ r, foldl step_row r (take k es)) <$> (strip <$> db_rows db1));
      [by rewrite <- list_fmap_compose|]. by rewrite Hrows, <- list_fmap_compose.
  - simplify_eq. split; [done|]. split; [done|]. exists 0. split; [lia|]. split; [done|]. done.
Qed.
End Rows.

(** C16. Running migrations is a function of each row. When a run succeeds, every row
    has, apart from its modification time, the data and version that the entries give
    it one after the other in the order of their targets, whatever the order of rows,
    clock and ids; when it fails, the rows stand as after some of the first entries,
    never inside one, and nothing is logged. No row is added or lost. *)
Theorem run_migrations_rows `{SemverLib} `{JsonText} clock uuid wasm plugin_id backup elapsed es
    db o db' :
  NoDup (ids db) →
  run_migrations clock uuid wasm plugin_id backup elapsed es db = (o, db') →
  ids db' = ids db ∧
  (is_ok o = false → db_log db' = db_log db) ∧
  ∃ k, k ≤ length es ∧ (is_ok o = true → k = length es) ∧
    strip <$> db_rows db' =
    (λ r, foldl (step_row wasm plugin_id) (strip r) (take k (sort_by_to es))) <$> db_rows db.
Proof.
  intros Hnd Hr. unfold run_migrations in Hr. destruct backup as [path|e]; simplify_eq/=.
  2: { split; [done|]. split; [done|]. exists 0. split; [lia|]. done. }
  destruct (run_entries _ _ _ _ _ _ _) as [o1 db1] eqn:E.
  apply run_entries_rows in E as (Hids & Hlog & k & Hk & Hok & Hrows); [|done].
  rewrite (Permutation_length (sort_by_to_perm es)) in Hk, Hok.
  destruct o1 as [t|err]; simplify_eq.
  - assert (∀ l db, db_rows (foldl (run_log clock uuid plugin_id t elapsed path) db l) = db_rows db) as Hfr.
    { intros l. induction l as [|x l IH]; intros d; simpl; [done|]. by rewrite IH. }
    unfold ids. rewrite Hfr. split; [done|]. split; [done|]. by exists k.
  - split; [done|]. split; [done|]. by exists k.
Qed.

(** ** Start-up of the canonical collections *)

Section CanonicalFacts.
Context `{SemverLib} `{JsonText}.
Context (clock uuid : nat → string) (visit : list string → list string).
Context (toml : string → result (option (list RawMigrationEntry)) string).
Context (dirs : string → option MigrationDir).

Lemma migrate_record_versions wasm pid e acc r acc' :
  migrate_record clock uuid wasm pid e acc r = Ok acc' → db_versions acc'.2 = db_versions acc.2.
Proof.
  destruct acc as [[m q] db]. unfold migrate_record. intros Hm. inv_ok.
  by destruct (run_transform _ _ _); simplify_eq.
Qed.

Lemma run_entry_versions wasm pid e db :
  db_versions (run_entry clock uuid wasm pid e db).2 = db_versions db.
Proof.
  unfold run_entry. destruct (parse_from_version _); [|done].
  destruct (query_records _ _ _ _) as [|x xs]; [done|].
  destruct (try_fold _ _ _) as [[[m q] db1]|] eqn:E; [|done]. simpl. revert E.
  apply (try_fold_invariant (λ acc, db_versions acc.2 = db_versions db)); [done|].
  intros acc y acc' _ Hl Hm. by rewrite (migrate_record_versions _ _ _ _ _ _ Hm).
Qed.

Lemma run_migrations_versions wasm pid backup elapsed es db :
  db_versions (run_migrations clock uuid wasm pid backup elapsed es db).2 = db_versions db.
Proof.
  unfold run_migrations. destruct backup as [path|]; [|done].
  assert (∀ l t d, db_versions (run_entries clock uuid wasm pid l t d).2 = db_versions d) as Hes.
  { intros l. induction l as [|e l IH]; intros t d; simpl; [done|].
    pose proof (run_entry_versions wasm pid e d) as He.
    destruct (run_entry _ _ _ _ e d) as [[[[m q]|]|] d1]; simpl in *; by rewrite ?IH. }
  specialize (Hes (sort_by_to es) (mkTotals 0 0 []) db).
  destruct (run_entries _ _ _ _ _ _ db) as [[t|] db1]; simpl in *; [|done].
  rewrite <- Hes. clear. generalize (sort_by_to es). intros l. revert db1.
  induction l as [|e l IH]; intros d; simpl; [done|]. by rewrite IH.
Qed.

Definition stored (db : MigrationDb) (name : string) : Z :=
  default 0%Z (get_schema_version CANONICAL_PLUGIN_ID name db).

(** [p] is what collection [c], behind in [db], is to run. *)
Definition pending_of (db : MigrationDb) (c : CanonicalCollection) (p : PendingMigration) : Prop :=
  pm_collection p = cc_name c ∧ pm_declared p = cc_version c ∧
  stored db (cc_name c) ≠ 0%Z ∧ (stored db (cc_name c) < cc_version c)%Z.

Lemma stored_set db n v m :
  stored (set_schema_version CANONICAL_PLUGIN_ID n v db) m = if decide (n = m) then v else stored db m.
Proof.
  unfold stored, get_schema_version, set_schema_version. simpl. case_decide; subst.
  - by rewrite lookup_insert_eq.
  - rewrite lookup_insert_ne; [done|]. congruence.
Qed.

Lemma pending_for_of c db p :
  stored db (cc_name c) ≠ 0%Z → (stored db (cc_name c) < cc_version c)%Z →
  pending_for visit toml dirs c (stored db (cc_name c)) = Some p → pending_of db c p.
Proof.
  unfold pending_for. intros Hs Hlt Hp. repeat (apply bind_Some in Hp as (? & _ & Hp)).
  by case_match; simplify_eq.
Qed.

Lemma check_collection_step c pend db pend1 db1 :
  check_collection visit toml dirs (pend, db) c = (pend1, db1) →
  db_rows db1 = db_rows db ∧
  (∀ n, stored db1 n = if decide (n = cc_name c ∧ stored db n = 0%Z) then cc_version c
                       else stored db n) ∧
  (∀ p, p ∈ pend1 → p ∈ pend ∨ pending_of db c p).
Proof.
  unfold check_collection. fold (stored db (cc_name c)).
  destruct (Z.eqb_spec (stored db (cc_name c)) 0) as [Hz|Hz]; intros Hc; simplify_eq.
  { split; [done|]. split; [|auto]. intros n. rewrite stored_set.
    case_decide; subst; [by rewrite decide_True|]. rewrite decide_False; [done|naive_solver]. }
  assert (∀ n, stored db n = if decide (n = cc_name c ∧ stored db n = 0%Z) then cc_version c
                             else stored db n) as Hst.
  { intros n. rewrite decide_False; [done|]. naive_solver. }
  destruct (Z.leb_spec (cc_version c) (stored db (cc_name c))); simplify_eq; [by auto|].
  destruct (pending_for _ _ _ _ _) as [p|] eqn:Ep; simplify_eq; [|by auto].
  split; [done|]. split; [done|]. intros p' [?|Hp']%elem_of_app; [auto|].
  apply list_elem_of_singleton in Hp' as ->. right. by apply pending_for_of.
Qed.

(** Phase 1 stamps the new collections and collects those that are behind. *)
Lemma check_collections cs pend db pend' db1 :
  NoDup (cc_name <$> cs) →
  foldl (check_collection visit toml dirs) (pend, db) cs = (pend', db1) →
  db_rows db1 = db_rows db ∧
  (∀ n, n ∉ cc_name <$> cs → stored db1 n = stored db n) ∧
  (∀ c, c ∈ cs → stored db1 (cc_name c) =
     if decide (stored db (cc_name c) = 0%Z) then cc_version c else stored db (cc_name c)) ∧
  (∀ p, p ∈ pend' → p ∈ pend ∨ ∃ c, c ∈ cs ∧ pending_of db c p).
Proof.
  revert pend db. induction cs as [|c cs IH]; intros pend db Hnd Hf; cbn [foldl] in Hf.
  { simplify_eq. split; [done|]. split; [done|]. split; [intros c Hc; by apply not_elem_of_nil in Hc|auto]. }
  rewrite fmap_cons, NoDup_cons in Hnd. destruct Hnd as [Hc Hnd].
  destruct (check_collection visit toml dirs (pend, db) c) as [pend0 db0] eqn:E0.
  apply check_collection_step in E0 as (Hr0 & Hs0 & Hp0).
  destruct (IH pend0 db0 Hnd Hf) as (Hr & Hout & Hin & Hp). clear IH Hf.
  assert (∀ n, n ∈ cc_name <$> cs → stored db0 n = stored db n) as Hsame.
  { intros n Hn. rewrite Hs0, decide_False; [done|]. intros [-> _]. done. }
  split; [congruence|]. split.
  { intros n Hn. rewrite Hout by set_solver. rewrite Hs0, decide_False; [done|].
    intros [-> _]. set_solver. }
  split.
  - intros c' [->|Hc']%elem_of_cons.
    + rewrite Hout by done. rewrite Hs0. repeat case_decide; naive_solver.
    + rewrite Hin by done. rewrite Hsame; [done|]. by apply list_elem_of_fmap_2.
  - intros p [Hp'|(c' & Hc' & Hp')]%Hp.
    + destruct (Hp0 p Hp') as [?|?]; [by left|]. right. exists c. split; [by left|done].
    + right. exists c'. split; [by right|]. unfold pending_of in *.
      rewrite Hsame in Hp'; [done|]. by apply list_elem_of_fmap_2.
Qed.

(** Phase 2 moves a version only to what a pending migration declares. *)
Lemma run_pendings backup elapsed ps db n :
  let db' := foldl (run_pending clock uuid backup elapsed) db ps in
  stored db' n = stored db n ∨ ∃ p, p ∈ ps ∧ pm_collection p = n ∧ stored db' n = pm_declared p.
Proof.
  revert db. induction ps as [|p ps IH]; intros db; simpl; [by left|].
  destruct (IH (run_pending clock uuid backup elapsed db p)) as [IH'|(p' & Hp' & Hn & Hd)].
  2: { right. exists p'. split; [by right|done]. }
  rewrite IH'. unfold run_pending.
  pose proof (run_migrations_versions (pm_wasm p) CANONICAL_PLUGIN_ID backup elapsed (pm_entries p) db) as Hv.
  destruct (run_migrations _ _ _ _ _ _ _ db) as [[r|e] db1]; simpl in Hv.
  - rewrite stored_set. case_decide; [right; exists p; split; [by left|done]|].
    left. unfold stored, get_schema_version. by rewrite Hv.
  - left. unfold stored, get_schema_version. by rewrite Hv.
Qed.
End CanonicalFacts.

(** Start-up of the canonical collections. A collection without a recorded version
    is stamped with the declared one; one that is current keeps its version; one that
    is behind keeps it or is moved to exactly the declared one, so versions never go
    back. If no collection is behind, no record is touched. *)
Theorem canonical_versions_settle `{SemverLib} `{JsonText} clock uuid visit toml dirs backup
    elapsed cs db :
  NoDup (cc_name <$> cs) →
  let db' := run_canonical_migrations clock uuid visit toml dirs backup elapsed cs db in
  (∀ c, c ∈ cs →
     let v := stored db (cc_name c) in
     let v' := stored db' (cc_name c) in
     (v = 0%Z → v' = cc_version c) ∧
     (v ≠ 0%Z → (cc_version c ≤ v)%Z → v' = v) ∧
     (v ≠ 0%Z → (v < cc_version c)%Z → v' = v ∨ v' = cc_version c)) ∧
  ((∀ c, c ∈ cs → stored db (cc_name c) = 0%Z ∨ (cc_version c ≤ stored db (cc_name c))%Z) →
     db_rows db' = db_rows db).
Proof.
  intros Hnd. unfold run_canonical_migrations.
  destruct (foldl (check_collection visit toml dirs) ([], db) cs) as [ps db1] eqn:E. simpl.
  apply check_collections in E as (Hr & _ & Hin & Hp); [|done]. split.
  - intros c Hc. specialize (Hin c Hc).
    destruct (run_pendings clock uuid backup elapsed ps db1 (cc_name c)) as [->|(p & Hps & Hn & Hd)].
    + rewrite Hin. case_decide; naive_solver.
    + destruct (Hp p Hps) as [Hn'|(c' & Hc' & Hpn & Hpd & Hz & Hlt)]; [by apply not_elem_of_nil in Hn'|].
      assert (c' = c) as ->.
      { apply list_elem_of_lookup in Hc' as [i Hi], Hc as [j Hj]. enough (i = j) by congruence.
        eapply (NoDup_lookup _ _ _ (cc_name c)); [done|..]; rewrite list_lookup_fmap, ?Hi, ?Hj; simpl; congruence. }
      rewrite Hd, Hpd. split; [done|]. split; [lia|]. by right.
  - intros Hcur. assert (ps = []) as ->; [|done].
    destruct ps as [|p ps]; [done|]. destruct (Hp p) as [Hn|(c & Hc & _ & _ & Hz & Hlt)]; [by left|..].
    + by apply not_elem_of_nil in Hn.
    + destruct (Hcur c Hc); [done|lia].
Qed.

(** ** Concrete runs *)

#[local] Existing Instance plain_semver.

(** Record texts that stand for themselves. *)
Definition text_json : JsonText := {|
  json_from_str s := Ok (JStr s);
  json_to_string v := default empty_str (as_str v);
|}.
#[local] Existing Instance text_json.

Module RunDemo.
(** A module whose export "up" marks a record and whose export "bad" fails. *)
Definition marking : TransformModule :=
  mkModule "t.wasm" None None
    (λ f s, if bool_decide (f = "up") then Ok (s +:+ "+") else Err "no").

Definition ticks (n : nat) : string := "t".
Definition entry (from : string) (to : Z * Z * Z) (f : string) : MigrationEntry :=
  mkMigration _ from to f "" "notes".
Definition one_row (v : Z) : MigrationDb :=
  mkMigrationDb [mkRow "r" "p" "notes" "d" v ""] [] [] ∅ 0.
Definition run (es : list MigrationEntry) (db : MigrationDb) : MigrationDb :=
  (run_migrations ticks ticks marking "p" (Ok "b") 0 es db).2.
Definition contents (db : MigrationDb) : list (string * Z) :=
  (λ r, (dr_data r, dr_version r)) <$> db_rows db.
End RunDemo.

(** A record that one entry fails on is not held back: it keeps its version, and the
    next entry of the same major version is applied to the unmigrated data. Both
    entries are logged with the totals of the run. *)
Theorem failed_record_migrated_onward :
  let db := RunDemo.run [RunDemo.entry "1.0.x" (1, 1, 0)%Z "bad"; RunDemo.entry "1.1.x" (2, 0, 0)%Z "up"]
              (RunDemo.one_row 1) in
  RunDemo.contents db = [("d+", 2%Z)] ∧ qr_record_data <$> db_quarantine db = ["d"] ∧
  (λ l, (ml_from_version l, ml_records_migrated l)) <$> db_log db = [("1.0.x", 1%Z); ("1.1.x", 1%Z)].
Proof. vm_compute. done. Qed.

(** Records are selected by major version only, so an entry within a major version is
    applied again by every run. *)
Theorem same_major_migrated_again :
  let es := [RunDemo.entry "1.x" (1, 5, 0)%Z "up"] in
  RunDemo.contents (RunDemo.run es (RunDemo.run es (RunDemo.one_row 1))) = [("d++", 1%Z)].
Proof. reflexivity. Qed.

(** The row of a record of the storage interface. *)
Definition row_of_record (r : StoredRecord) : DataRow :=
  mkRow (rec_id r) (rec_plugin_id r) (rec_collection r) (json_to_string (rec_data r)) (rec_version r) "".

(** The version column counts the writes of a row: a record that was written twice
    is taken for one of schema version 2 and left out of the migration from version 1,
    which migrates its neighbour. *)
Theorem updated_record_not_migrated :
  let s0 := mkSqlite ∅ (λ _, 0%Z) in
  let s1 := (sqlite_create_with_id "p" "notes" "a" (JStr "d") s0).2 in
  let s2 := (sqlite_create_with_id "p" "notes" "b" (JStr "d") s1).2 in
  let s3 := (sqlite_update "p" "notes" "b" (JStr "d") 1 s2).2 in
  let table := omap (λ id, row_of_record <$> rows s3 !! id) ["a"; "b"] in
  RunDemo.contents (RunDemo.run [RunDemo.entry "1.x" (2, 0, 0)%Z "up"] (mkMigrationDb table [] [] ∅ 0))
  = [("d+", 2%Z); ("d", 2%Z)].
Proof. reflexivity. Qed.

Lemma run_migrations_rows_witness :
  strip <$> db_rows (RunDemo.run [RunDemo.entry "1.x" (2, 0, 0)%Z "up"] (RunDemo.one_row 1)) =
  [mkRow "r" "p" "notes" "d+" 2 ""].
Proof.
  destruct (run_migrations_rows RunDemo.ticks RunDemo.ticks RunDemo.marking "p" (Ok "b") 0
    [RunDemo.entry "1.x" (2, 0, 0)%Z "up"] (RunDemo.one_row 1)
    (Ok (mkMigrationResult 1 0 0 "b" ["1.x -> 2.0.0"]))
    (RunDemo.run [RunDemo.entry "1.x" (2, 0, 0)%Z "up"] (RunDemo.one_row 1)))
    as (_ & _ & k & _ & Hk & Hrows).
  - vm_compute. repeat constructor. apply not_elem_of_nil.
  - vm_compute. reflexivity.
  - rewrite Hrows, Hk by reflexivity. vm_compute. reflexivity.
Defined.

Lemma canonical_versions_settle_witness :
  stored (run_canonical_migrations RunDemo.ticks RunDemo.ticks id (λ _, Ok None) (λ _, None)
            (Ok "b") 0 CANONICAL_COLLECTIONS (RunDemo.one_row 1)) "notes" = 1%Z.
Proof.
  refine (proj1 (proj1 (canonical_versions_settle RunDemo.ticks RunDemo.ticks id (λ _, Ok None)
    (λ _, None) (Ok "b") 0 CANONICAL_COLLECTIONS (RunDemo.one_row 1) _) (mkCanonical "notes" 1 "notes") _) _).
  - apply (bool_decide_unpack _). vm_compute. exact I.
  - right. right. right. left.
  - reflexivity.
Defined.

(** ** Review of quarantined records, and the history (quarantine.rs, log.rs, version.rs) *)

Module QuarantineReview.

Inductive ReviewError : Type :=
| NotFound (m : string)
| Unreadable (m : string)
| BadVersion (m : string).

Definition by_time {A} (time : A → string) (a b : A) : Prop := String.le (time a) (time b).

#[export] Instance by_time_dec {A} (time : A → string) a b : Decision (by_time time a b).
Proof. unfold by_time. apply _. Defined.

(** [WHERE plugin_id = ?1 AND collection = ?2 ORDER BY timestamp ASC]; ties in the order of the table. *)
Definition list_quarantined (plugin_id collection : string) (db : MigrationDb) : list QuarantinedRecord :=
  merge_sort (by_time qr_timestamp)
    (filter (λ q, qr_plugin_id q = plugin_id ∧ qr_collection q = collection) (db_quarantine db)).

Definition missing (id : string) : ReviewError := NotFound ("quarantine entry '" +:+ id +:+ "'").

(** The data for another attempt; nothing changes. *)
Definition retry_quarantined `{JsonText} (id : string) (db : MigrationDb) : result json ReviewError :=
  match head (filter (λ q, qr_id q = id) (db_quarantine db)) with
  | None => Err (missing id)
  | Some q => result_map_err Unreadable (json_from_str (qr_record_data q))
  end.

Definition delete_quarantined (id : string) (db : MigrationDb) : result unit ReviewError * MigrationDb :=
  match filter (λ q, qr_id q = id) (db_quarantine db) with
  | [] => (Err (missing id), db)
  | _ => (Ok tt, mkMigrationDb (db_rows db) (filter (λ q, qr_id q ≠ id) (db_quarantine db)) (db_log db) (db_versions db)
                   (db_draws db))
  end.

(** A run that could not start. *)
Definition log_failure (clock uuid : nat → string) (plugin_id collection from to error : string) (db : MigrationDb)
    : MigrationDb :=
  let d := db_draws db in
  log_migration (mkMigrationLog (uuid d) plugin_id collection from to 0 0 0 None (Some error) (clock d)) db.

Definition get_migration_history (plugin_id collection : string) (db : MigrationDb) : list MigrationLogEntry :=
  merge_sort (by_time ml_timestamp) (filter (λ e, ml_plugin_id e = plugin_id ∧ ml_collection e = collection) (db_log db)).

Definition stamp_version (record_id new_version : string) (db : MigrationDb) : result unit ReviewError * MigrationDb :=
  match parse_i64 (default new_version (head (split "."%char new_version))) with
  | None => (Err (BadVersion ("cannot parse major version from '" +:+ new_version +:+ "'")), db)
  | Some version =>
      if bool_decide (record_id ∈ dr_id <$> db_rows db) then
        (Ok tt, mkMigrationDb ((λ r, if bool_decide (dr_id r = record_id)
                                     then mkRow (dr_id r) (dr_plugin_id r) (dr_collection r) (dr_data r) version (dr_updated_at r)
                                     else r) <$> db_rows db)
                  (db_quarantine db) (db_log db) (db_versions db) (db_draws db))
      else (Err (NotFound ("plugin_data record '" +:+ record_id +:+ "'")), db)
  end.

Lemma filter_id_ne (id : string) qs : id ∉ qr_id <$> qs → filter (λ q, qr_id q = id) qs = [] ∧ filter (λ q, qr_id q ≠ id) qs = qs.
Proof.
  induction qs as [|q qs IH]; intros Hn; [done|]. rewrite fmap_cons, not_elem_of_cons in Hn. destruct Hn as [Hq Hn].
  destruct (IH Hn) as [H1 H2]. rewrite filter_cons_False, filter_cons_True by congruence. by rewrite H1, H2.
Qed.

(** A record that is put aside under a new id is listed for its plugin and collection, and its data comes back as it was
    stored; deleting it leaves what there was, after which it is not found again. *)
Theorem quarantine_reviewed `{JsonText} clock uuid plugin_id data collection from to error db :
  let id := uuid (db_draws db) in
  let db1 := quarantine_record clock uuid plugin_id data collection from to error db in
  id ∉ qr_id <$> db_quarantine db →
  (∃ q, q ∈ list_quarantined plugin_id collection db1 ∧ qr_id q = id ∧ qr_record_data q = data ∧ qr_error_message q = error) ∧
  retry_quarantined id db1 = result_map_err Unreadable (json_from_str data) ∧
  ∃ db2, delete_quarantined id db1 = (Ok tt, db2) ∧ db_quarantine db2 = db_quarantine db ∧ db_rows db2 = db_rows db ∧
    retry_quarantined id db2 = Err (missing id) ∧ delete_quarantined id db2 = (Err (missing id), db2).
Proof.
  intros id db1 Hn. destruct (filter_id_ne id _ Hn) as [Hnone Hall].
  unfold db1, quarantine_record, list_quarantined, retry_quarantined, delete_quarantined. cbn [db_quarantine db_rows].
  split.
  - exists (mkQuarantined id data plugin_id collection from to error (clock (db_draws db))).
    rewrite merge_sort_Permutation, list_elem_of_filter, elem_of_app, list_elem_of_singleton. split; [|done].
    split; [|by right]. done.
  - rewrite !filter_app, Hnone, Hall. rewrite (filter_cons_True (λ q, qr_id q = id)) by done.
    rewrite (filter_cons_False (λ q, qr_id q ≠ id)) by (cbn; naive_solver). cbn [app head hd_error]. split; [done|].
    eexists. split; [done|]. cbn [db_quarantine db_rows]. rewrite app_nil_r. fold id. by rewrite Hnone.
Qed.

(** What is listed is what is quarantined for the plugin and collection, and every logged run is in its history. *)
Theorem review_complete plugin_id collection db :
  (list_quarantined plugin_id collection db
   ≡ₚ filter (λ q, qr_plugin_id q = plugin_id ∧ qr_collection q = collection) (db_quarantine db)) ∧
  (get_migration_history plugin_id collection db
   ≡ₚ filter (λ e, ml_plugin_id e = plugin_id ∧ ml_collection e = collection) (db_log db)) ∧
  ∀ clock uuid from to error, ∃ e,
    e ∈ get_migration_history plugin_id collection (log_failure clock uuid plugin_id collection from to error db) ∧
    ml_error e = Some error ∧ ml_records_migrated e = 0%Z.
Proof.
  split_and!; [apply merge_sort_Permutation..|]. intros clock uuid from to error.
  exists (mkMigrationLog (uuid (db_draws db)) plugin_id collection from to 0 0 0 None (Some error) (clock (db_draws db))).
  unfold get_migration_history, log_failure.
  cbn [log_migration db_log]. rewrite merge_sort_Permutation, list_elem_of_filter, elem_of_app, list_elem_of_singleton.
  split; [split; [|by right]|]; done.
Qed.

End QuarantineReview.
