(* ===== verification/SchemaVersioning.v ===== *)
(** * Schema versions and index hints

    packages/traits/src/schema_versioning.rs: what changes between two versions of a
    JSON schema break its users, and the deprecation tracker; and
    packages/traits/src/index_hints.rs. The printing of floats and values inside
    messages is a parameter. *)

From stdpp Require Import base tactics list strings sorting sets.
From Stdlib Require Import Ascii ZArith Lia.
From S2P Require Import Prelude RustString Json.

Local Open Scope string_scope.

(** ** Numbers as [f64] *)

(** [i64 as f64]: the nearest float, ties to even. *)
Definition round_f64 (z : Z) : Z :=
  let a := Z.abs z in
  if (a <? 2 ^ 53)%Z then z
  else
    let k := (Z.log2 a - 52)%Z in
    let q := (a / 2 ^ k)%Z in
    let r := (a mod 2 ^ k)%Z in
    let half := (2 ^ (k - 1))%Z in
    let q' := if (half <? r)%Z || ((half =? r)%Z && Z.odd q) then (q + 1)%Z else q in
    (Z.sgn z * (q' * 2 ^ k))%Z.

(** [Value::as_f64], as mantissa and exponent. *)
Definition as_f64 (j : json) : option (Z * Z) :=
  match j with
  | JNum (NInt z) => Some (round_f64 z, 0%Z)
  | JNum (NFloat m e) => Some (m, e)
  | _ => None
  end.

Definition f64_lt (a b : Z * Z) : bool :=
  let e := Z.min a.2 b.2 in
  (a.1 * 2 ^ (a.2 - e) <? b.1 * 2 ^ (b.2 - e))%Z.

(** ** Changes *)

Inductive ChangeKind : Type :=
| FieldRemoved | FieldRenamed | TypeChanged | RequiredFieldAdded | EnumValueRemoved
| ConstraintTightened | DefaultChanged.

Record BreakingChange : Type := mkBreaking {
  bc_path : string;
  bc_kind : ChangeKind;
  bc_description : string;
}.

Inductive CompatibilityResult : Type :=
| Compatible
| Breaking (changes : list BreakingChange).

Definition members (j : json) (k : string) : option object := json_get j k ≫= as_object.
Definition elements (j : json) (k : string) : option (list json) := json_get j k ≫= as_array.

Definition is_object_type (field : json) : bool :=
  bool_decide (json_get field "type" = Some (JStr "object")).

Section Compare.
Context `{JsonText} (f64_display : Z * Z → string).

Definition type_display (v : option json) : string :=
  match v with
  | Some (JStr s) => s
  | Some v => json_to_string v
  | None => "unspecified"
  end.

Definition check_numeric_tightened (old_field new_field : json) (keyword path name : string)
    (lower_is_tighter : bool) : list BreakingChange :=
  let tightened d := [mkBreaking path ConstraintTightened ("Field '" +:+ name +:+ "' " +:+ d)] in
  match json_get old_field keyword ≫= as_f64, json_get new_field keyword ≫= as_f64 with
  | Some old, Some new =>
      if (if lower_is_tighter then f64_lt new old else f64_lt old new) then
        tightened (keyword +:+ " tightened from " +:+ f64_display old +:+ " to " +:+ f64_display new)
      else []
  | None, Some new => tightened ("had " +:+ keyword +:+ " constraint " +:+ f64_display new +:+ " added")
  | _, None => []
  end.

Definition compare_pattern (old_field new_field : json) (path name : string) : list BreakingChange :=
  let tightened d := [mkBreaking path ConstraintTightened ("Field '" +:+ name +:+ "' " +:+ d)] in
  match json_get old_field "pattern", json_get new_field "pattern" with
  | _, None => []
  | None, Some _ => tightened "had pattern constraint added"
  | Some o, Some n => if bool_decide (o = n) then [] else tightened "pattern constraint changed"
  end.

Definition compare_format (old_field new_field : json) (path name : string) : list BreakingChange :=
  match json_get old_field "format", json_get new_field "format" with
  | None, Some f => [mkBreaking path ConstraintTightened
      ("Field '" +:+ name +:+ "' had format validation '" +:+ default "unknown" (as_str f) +:+ "' added")]
  | _, _ => []
  end.

Definition compare_constraints (old_field new_field : json) (path name : string) : list BreakingChange :=
  (check_numeric_tightened old_field new_field "maxLength" path name true
   ++ check_numeric_tightened old_field new_field "minLength" path name false
   ++ check_numeric_tightened old_field new_field "maximum" path name true
   ++ check_numeric_tightened old_field new_field "minimum" path name false
   ++ compare_pattern old_field new_field path name
   ++ compare_format old_field new_field path name)%list.

Definition required_fields (schema : json) : list string :=
  omap as_str (default [] (elements schema "required")).

Definition compare_required (old_schema new_schema : json) (prefix : string) : list BreakingChange :=
  (λ field, mkBreaking (prefix +:+ "/required/" +:+ field) RequiredFieldAdded
              ("Field '" +:+ field +:+ "' was made required"))
  <$> filter (λ field, field ∉ required_fields old_schema) (required_fields new_schema).

Definition enum_display (v : json) : string :=
  match as_str v with
  | Some s => "'" +:+ s +:+ "'"
  | None => json_to_string v
  end.

Definition compare_enums (old_schema new_schema : json) (prefix : string) : list BreakingChange :=
  match elements old_schema "enum", elements new_schema "enum" with
  | None, _ => []
  | Some _, None =>
      [mkBreaking (prefix +:+ "/enum") EnumValueRemoved "Enum constraint was removed entirely"]
  | Some old_enum, Some new_enum =>
      (λ v, mkBreaking (prefix +:+ "/enum") EnumValueRemoved
              ("Enum value " +:+ enum_display v +:+ " was removed"))
      <$> filter (λ v, v ∉ new_enum) old_enum
  end.

(** What the loop over properties pushes for a field that is still there, without
    what it pushes for nested fields. *)
Definition compare_type (old_field new_field : json) (path name : string) : list BreakingChange :=
  let old_type := json_get old_field "type" in
  let new_type := json_get new_field "type" in
  if bool_decide (old_type ≠ new_type) then
    [mkBreaking path TypeChanged ("Field '" +:+ name +:+ "' type changed from "
       +:+ type_display old_type +:+ " to " +:+ type_display new_type)]
  else [].

Definition compare_default (old_field new_field : json) (path name : string) : list BreakingChange :=
  match json_get old_field "default" with
  | None => []
  | old_default =>
      if bool_decide (old_default ≠ json_get new_field "default") then
        [mkBreaking path DefaultChanged ("Field '" +:+ name +:+ "' default value changed")]
      else []
  end.

Definition compare_field (old_field new_field : json) (path name : string) : list BreakingChange :=
  (compare_type old_field new_field path name
   ++ compare_constraints old_field new_field path name
   ++ compare_default old_field new_field path name
   ++ compare_enums old_field new_field path)%list.

(** The recursion of [compare_schemas]; [fuel] bounds the nesting of the old schema. *)
Section Recursion.
Context (recurse : json → json → string → list BreakingChange).

Definition compare_properties (old_schema new_schema : json) (prefix : string) : list BreakingChange :=
  old_props ← default [] (members old_schema "properties");
  let '(name, old_field) := old_props in
  let path := prefix +:+ "/properties/" +:+ name in
  match members new_schema "properties" ≫= obj_get name with
  | None => [mkBreaking path FieldRemoved ("Field '" +:+ name +:+ "' was removed")]
  | Some new_field =>
      (compare_field old_field new_field path name
       ++ (if is_object_type old_field then recurse old_field new_field path else []))%list
  end.

Definition compare_defs (old_schema new_schema : json) : list BreakingChange :=
  entry ← default [] (members old_schema "$defs");
  let '(name, old_def) := entry in
  let path := "/$defs/" +:+ name in
  match members new_schema "$defs" ≫= obj_get name with
  | None => [mkBreaking path FieldRemoved ("Definition '" +:+ name +:+ "' was removed")]
  | Some new_def => recurse old_def new_def path
  end.
End Recursion.

Fixpoint compare_schemas (fuel : nat) (old_schema new_schema : json) (prefix : string)
    : list BreakingChange :=
  match fuel with
  | O => []
  | S fuel =>
      (compare_properties (compare_schemas fuel) old_schema new_schema prefix
       ++ compare_required old_schema new_schema prefix
       ++ compare_enums old_schema new_schema prefix
       ++ compare_defs (compare_schemas fuel) old_schema new_schema)%list
  end.

Definition all_changes (old_schema new_schema : json) (prefix : string) : list BreakingChange :=
  compare_schemas (S (json_depth old_schema)) old_schema new_schema prefix.

Definition check_compatibility (old_schema new_schema : json) : CompatibilityResult :=
  match all_changes old_schema new_schema empty_str with
  | [] => Compatible
  | changes => Breaking changes
  end.
End Compare.

(** ** Deprecations *)

Record DeprecationEntry : Type := mkDeprecation {
  de_path : string;
  de_since : string;
  de_note : string;
}.

Record DeprecationWarning : Type := mkDeprecationWarning {
  dw_path : string;
  dw_message : string;
}.

Definition text_or (d : string) (j : json) (k : string) : string :=
  default d (json_get j k ≫= as_str).

Definition deprecation (path : string) (field : json) : list DeprecationEntry :=
  if bool_decide (json_get field "deprecated" = Some (JBool true)) then
    [mkDeprecation path (text_or "unknown" field "x-deprecated-since")
       (text_or empty_str field "x-deprecated-note")]
  else [].

(** What [scan_properties] pushes; [fuel] bounds the nesting of the schema. *)
Fixpoint scan_properties (fuel : nat) (schema : json) (prefix : string) : list DeprecationEntry :=
  match fuel with
  | O => []
  | S fuel =>
      prop ← default [] (members schema "properties");
      let '(name, field) := prop in
      let path := prefix +:+ "/properties/" +:+ name in
      (deprecation path field
       ++ (if is_object_type field then scan_properties fuel field path else []))%list
  end.

(** [DeprecationTracker]: [scan_schema] appends. *)
Definition scan_schema (tracker : list DeprecationEntry) (schema : json) : list DeprecationEntry :=
  (tracker ++ scan_properties (S (json_depth schema)) schema empty_str)%list.

Fixpoint check_properties_removal (tracker : list DeprecationEntry) (fuel : nat)
    (old_schema new_schema : json) (prefix : string) : list DeprecationWarning :=
  match fuel with
  | O => []
  | S fuel =>
      prop ← default [] (members old_schema "properties");
      let '(name, old_field) := prop in
      let path := prefix +:+ "/properties/" +:+ name in
      match members new_schema "properties" ≫= obj_get name with
      | None =>
          if existsb (λ d, bool_decide (de_path d = path)) tracker then []
          else [mkDeprecationWarning path
                  ("Field '" +:+ name +:+ "' was removed without being deprecated first")]
      | Some new_field =>
          if is_object_type old_field
          then check_properties_removal tracker fuel old_field new_field path else []
      end
  end.

Definition check_removal_allowed (tracker : list DeprecationEntry) (old_schema new_schema : json)
    : list DeprecationWarning :=
  check_properties_removal tracker (S (json_depth old_schema)) old_schema new_schema empty_str.

(** ** Index hints *)

Record IndexHint : Type := mkHint {
  ih_fields : list string;
  ih_unique : bool;
  ih_name : option string;
}.

(** [SchemaError] is its message. *)
Definition hint_err {A} (i : nat) (m : string) : result A string :=
  Err ("indexes[" +:+ show_nat i +:+ "]" +:+ m).

Fixpoint parse_hint_fields (i j : nat) (fields : list json) : result (list string) string :=
  match fields with
  | [] => Ok []
  | f :: rest =>
      let? s := ok_or (as_str f)
        ("indexes[" +:+ show_nat i +:+ "].fields[" +:+ show_nat j +:+ "]: must be a string") in
      let? ss := parse_hint_fields i (S j) rest in
      Ok (s :: ss)
  end.

Definition parse_hint (i : nat) (entry : json) : result IndexHint string :=
  let? fields_val := match json_get entry "fields" with
                     | Some v => Ok v
                     | None => hint_err i ": missing required field 'fields'"
                     end in
  let? fields_arr := match as_array fields_val with
                     | Some a => Ok a
                     | None => hint_err i ": 'fields' must be an array"
                     end in
  if bool_decide (fields_arr = []) then hint_err i ": 'fields' must not be empty"
  else
    let? fields := parse_hint_fields i 0 fields_arr in
    let? unique := match json_get entry "unique" with
                   | Some v => match as_bool v with
                               | Some b => Ok b
                               | None => hint_err i ": 'unique' must be a boolean"
                               end
                   | None => Ok false
                   end in
    Ok (mkHint fields unique (json_get entry "name" ≫= as_str)).

Fixpoint parse_hints (i : nat) (entries : list json) : result (list IndexHint) string :=
  match entries with
  | [] => Ok []
  | e :: rest =>
      let? h := parse_hint i e in
      let? hs := parse_hints (S i) rest in
      Ok (h :: hs)
  end.

Definition parse_index_hints (manifest_collection : json) : result (list IndexHint) string :=
  match json_get manifest_collection "indexes" with
  | None => Ok []
  | Some v =>
      if is_null v then Ok []
      else match as_array v with
           | None => Err "indexes must be an array"
           | Some arr => parse_hints 0 arr
           end
  end.

(** [sort] on the field paths. *)
Definition hint_key (h : IndexHint) : list string := merge_sort String.le (ih_fields h).

Definition merge_index_hints (cdm_hints plugin_hints : list IndexHint) : list IndexHint :=
  (filter (λ h, hint_key h ∉ hint_key <$> plugin_hints) cdm_hints ++ plugin_hints)%list.

(** [#[derive(Serialize)]]: an absent name is skipped. *)
Definition hint_to_value (h : IndexHint) : json :=
  mk_obj ([("fields", JArr (JStr <$> ih_fields h)); ("unique", JBool (ih_unique h))]
          ++ match ih_name h with Some n => [("name", JStr n)] | None => [] end)%list.

(** * Facts about schema versions and index hints

    The compatibility check decides an additive order on schemas; removals that were
    not announced are breaking changes; index hints survive a round trip and a merge. *)

Local Close Scope string_scope.

(** ** Floats *)

Lemma f64_lt_scale a b e :
  (e ≤ a.2)%Z → (e ≤ b.2)%Z →
  f64_lt a b = (a.1 * 2 ^ (a.2 - e) <? b.1 * 2 ^ (b.2 - e))%Z.
Proof.
  intros Ha Hb. unfold f64_lt. set (m := Z.min a.2 b.2).
  assert (0 < 2 ^ (m - e))%Z by (apply Z.pow_pos_nonneg; lia).
  assert (2 ^ (a.2 - e) = 2 ^ (a.2 - m) * 2 ^ (m - e))%Z as -> by (rewrite <- Z.pow_add_r; f_equal; lia).
  assert (2 ^ (b.2 - e) = 2 ^ (b.2 - m) * 2 ^ (m - e))%Z as -> by (rewrite <- Z.pow_add_r; f_equal; lia).
  rewrite !Z.mul_assoc. apply eq_bool_prop_intro. rewrite !Is_true_true, !Z.ltb_lt.
  by apply Z.mul_lt_mono_pos_r.
Qed.

Lemma f64_lt_irrefl a : f64_lt a a = false.
Proof. unfold f64_lt. apply Z.ltb_irrefl. Qed.

Lemma f64_le_trans a b c : f64_lt b a = false → f64_lt c b = false → f64_lt c a = false.
Proof.
  set (e := Z.min a.2 (Z.min b.2 c.2)). rewrite !(f64_lt_scale _ _ e) by lia.
  rewrite !Z.ltb_ge. lia.
Qed.

(** ** The additive order *)

(** An upper bound (or a lower one) is kept, loosened or dropped. *)
Definition bound_ok (lower_is_tighter : bool) (keyword : string) (f g : json) : Prop :=
  ∀ y, json_get g keyword ≫= as_f64 = Some y →
  ∃ x, json_get f keyword ≫= as_f64 = Some x ∧
    (if lower_is_tighter then f64_lt y x else f64_lt x y) = false.

Definition enum_ok (f g : json) : Prop :=
  ∀ xs, elements f "enum" = Some xs → ∃ ys, elements g "enum" = Some ys ∧ xs ⊆ ys.

(** A field that every user of the old version can keep using. *)
Record FieldAdditive (f g : json) : Prop := {
  fa_type : json_get g "type" = json_get f "type";
  fa_max_length : bound_ok true "maxLength" f g;
  fa_min_length : bound_ok false "minLength" f g;
  fa_maximum : bound_ok true "maximum" f g;
  fa_minimum : bound_ok false "minimum" f g;
  fa_pattern : ∀ p, json_get g "pattern" = Some p → json_get f "pattern" = Some p;
  fa_format : is_Some (json_get g "format") → is_Some (json_get f "format");
  fa_default : ∀ d, json_get f "default" = Some d → json_get g "default" = Some d;
  fa_enum : enum_ok f g;
}.

Definition props (j : json) : object := default [] (members j "properties").
Definition defs (j : json) : object := default [] (members j "$defs").

Definition lookup_in (j : json) (k name : string) : option json := members j k ≫= obj_get name.

Inductive Additive (old new : json) : Prop :=
| additive :
    (∀ name f, (name, f) ∈ props old →
       ∃ g, lookup_in new "properties" name = Some g ∧ FieldAdditive f g ∧
         (is_object_type f = true → Additive f g)) →
    required_fields new ⊆ required_fields old →
    enum_ok old new →
    (∀ name d, (name, d) ∈ defs old →
       ∃ d', lookup_in new "$defs" name = Some d' ∧ Additive d d') →
    Additive old new.

Lemma props_depth j name f : (name, f) ∈ props j → json_depth f < json_depth j.
Proof.
  unfold props, members. destruct (json_get j "properties") as [[| | | | |o]|] eqn:E; simpl;
    try by intros ?%not_elem_of_nil. by apply (depth_member _ _ _ _ _ E).
Qed.

Lemma defs_depth j name f : (name, f) ∈ defs j → json_depth f < json_depth j.
Proof.
  unfold defs, members. destruct (json_get j "$defs") as [[| | | | |o]|] eqn:E; simpl;
    try by intros ?%not_elem_of_nil. by apply (depth_member _ _ _ _ _ E).
Qed.

Section Compatible.
Context `{JsonText} (f64_display : Z * Z → string).

Abbreviation changes := (all_changes f64_display).

(** More fuel than the nesting changes nothing. *)
Lemma compare_fuel n m old new prefix :
  json_depth old < n → json_depth old < m →
  compare_schemas f64_display n old new prefix = compare_schemas f64_display m old new prefix.
Proof.
  revert m old new prefix. induction n as [|n IH]; intros m old new prefix Hn Hm; [lia|].
  destruct m as [|m]; [lia|]. simpl. f_equal; [|f_equal; f_equal].
  - unfold compare_properties. apply list_bind_ext_in. intros [name f] Hf%props_depth.
    case_match; [|done]. f_equal. destruct (is_object_type f); [|done]. apply IH; lia.
  - unfold compare_defs. apply list_bind_ext_in. intros [name f] Hf%defs_depth.
    case_match; [|done]. apply IH; lia.
Qed.

(** The defining equation, without fuel. *)
Lemma all_changes_eq old new prefix :
  changes old new prefix =
  compare_properties f64_display changes old new prefix
  ++ compare_required old new prefix ++ compare_enums old new prefix
  ++ compare_defs changes old new.
Proof.
  unfold all_changes at 1. cbn [compare_schemas]. f_equal; [|f_equal; f_equal].
  - unfold compare_properties. apply list_bind_ext_in. intros [name f] Hf%props_depth.
    case_match; [|done]. f_equal. destruct (is_object_type f); [|done]. apply compare_fuel; lia.
  - unfold compare_defs. apply list_bind_ext_in. intros [name f] Hf%defs_depth.
    case_match; [|done]. apply compare_fuel; lia.
Qed.

Lemma numeric_nil f g k path name b :
  check_numeric_tightened f64_display f g k path name b = [] ↔ bound_ok b k f g.
Proof.
  unfold check_numeric_tightened, bound_ok.
  destruct (json_get f k ≫= as_f64) as [x|], (json_get g k ≫= as_f64) as [y|]; simpl.
  - destruct b, (f64_lt _ _) eqn:E; split; try naive_solver.
    all: intros Hb; destruct (Hb y eq_refl) as (? & [= <-] & ?); congruence.
  - naive_solver.
  - split; [done|]. intros Hb. by destruct (Hb y eq_refl) as (? & ? & ?).
  - naive_solver.
Qed.

Lemma pattern_nil f g path name :
  compare_pattern f g path name = [] ↔
  (∀ p, json_get g "pattern" = Some p → json_get f "pattern" = Some p).
Proof.
  unfold compare_pattern. destruct (json_get f "pattern"), (json_get g "pattern"); try naive_solver.
  case_bool_decide; naive_solver.
Qed.

Lemma format_nil f g path name :
  compare_format f g path name = [] ↔
  (is_Some (json_get g "format") → is_Some (json_get f "format")).
Proof.
  unfold compare_format. destruct (json_get f "format"), (json_get g "format"); naive_solver.
Qed.

Lemma default_nil f g path name :
  compare_default f g path name = [] ↔
  (∀ d, json_get f "default" = Some d → json_get g "default" = Some d).
Proof.
  unfold compare_default. destruct (json_get f "default") as [d|]; [|naive_solver].
  case_bool_decide; naive_solver.
Qed.

Lemma filter_notin_nil {A} `{EqDecision A} (xs ys : list A) :
  filter (λ x, x ∉ ys) xs = [] ↔ xs ⊆ ys.
Proof.
  induction xs as [|x xs IH]; [set_solver|]. rewrite filter_cons.
  destruct (decide (x ∉ ys)) as [Hn|Hn]; [set_solver|].
  rewrite IH. assert (x ∈ ys) by (by destruct (decide (x ∈ ys))). set_solver.
Qed.

Lemma fmap_nil {A B} (f : A → B) xs : f <$> xs = [] ↔ xs = [].
Proof. by destruct xs. Qed.

Lemma enums_nil f g path : compare_enums f g path = [] ↔ enum_ok f g.
Proof.
  unfold compare_enums, enum_ok. destruct (elements f "enum") as [xs|]; [|naive_solver].
  destruct (elements g "enum") as [ys|]; [|naive_solver].
  rewrite fmap_nil, filter_notin_nil. naive_solver.
Qed.

Lemma required_nil old new prefix :
  compare_required old new prefix = [] ↔ required_fields new ⊆ required_fields old.
Proof. unfold compare_required. by rewrite fmap_nil, filter_notin_nil. Qed.

Lemma type_nil f g path name :
  compare_type f g path name = [] ↔ json_get g "type" = json_get f "type".
Proof. unfold compare_type. case_bool_decide; naive_solver. Qed.

Lemma field_nil f g path name : compare_field f64_display f g path name = [] ↔ FieldAdditive f g.
Proof.
  unfold compare_field, compare_constraints.
  rewrite !app_nil, type_nil, !numeric_nil, pattern_nil, format_nil, default_nil, enums_nil.
  split; [intros (? & (? & ? & ? & ? & ? & ?) & ? & ?); by constructor|].
  by intros [].
Qed.

Lemma additive_nil old new prefix : changes old new prefix = [] ↔ Additive old new.
Proof.
  remember (json_depth old) as n eqn:Hn. revert old new prefix Hn.
  induction n as [n IH] using lt_wf_ind. intros old new prefix ->.
  rewrite all_changes_eq, !app_nil, required_nil, enums_nil.
  unfold compare_properties, compare_defs. rewrite !list_bind_nil.
  fold (props old) (defs old). split.
  - intros (Hp & Hr & He & Hd). constructor; [|done|done|].
    + intros name f Hin. specialize (Hp (name, f) Hin). simpl in Hp. fold (lookup_in new "properties" name) in Hp.
      destruct (lookup_in new "properties" name) as [g|]; [|done]. exists g.
      apply app_nil in Hp as [Hf Ho]. split; [done|]. split; [by apply field_nil in Hf|].
      intros Ht. rewrite Ht in Ho. apply (IH _ (props_depth _ _ _ Hin) f g _ eq_refl) in Ho. done.
    + intros name d Hin. specialize (Hd (name, d) Hin). simpl in Hd. fold (lookup_in new "$defs" name) in Hd.
      destruct (lookup_in new "$defs" name) as [d'|]; [|done]. exists d'.
      split; [done|]. by apply (IH _ (defs_depth _ _ _ Hin) d d' _ eq_refl) in Hd.
  - intros [Hp Hr He Hd]. split; [|split; [done|split; [done|]]].
    + intros [name f] Hin. destruct (Hp name f Hin) as (g & Hg & Hf & Ho). unfold lookup_in in Hg.
      rewrite Hg. apply app_nil. split; [by apply field_nil|].
      destruct (is_object_type f); [|done]. apply (IH _ (props_depth _ _ _ Hin) f g _ eq_refl). auto.
    + intros [name d] Hin. destruct (Hd name d Hin) as (d' & Hg & Ha). unfold lookup_in in Hg.
      rewrite Hg. by apply (IH _ (defs_depth _ _ _ Hin) d d' _ eq_refl).
Qed.

Lemma compatible_additive old new :
  check_compatibility f64_display old new = Compatible ↔ Additive old new.
Proof.
  rewrite <- (additive_nil _ _ empty_str). unfold check_compatibility.
  by destruct (all_changes _ _ _ _).
Qed.
End Compatible.

(** ** The order is a preorder *)

(** No object has a key twice, at any level: what [Map] guarantees. *)
Fixpoint keys_unique (j : json) : Prop :=
  match j with
  | JArr xs => foldr (λ x P, keys_unique x ∧ P) True xs
  | JObj kvs => NoDup kvs.*1 ∧ foldr (λ kv P, keys_unique kv.2 ∧ P) True kvs
  | _ => True
  end.

Lemma keys_unique_entry o name f : keys_unique (JObj o) → (name, f) ∈ o → keys_unique f ∧ obj_get name o = Some f.
Proof.
  simpl. induction o as [|[k v] o IH]; [by intros _ ?%not_elem_of_nil|].
  rewrite fmap_cons, NoDup_cons. simpl. intros [[Hk Hnd] [Hv Ho]] [[= -> ->]|Hin]%elem_of_cons.
  - by rewrite bool_decide_eq_true_2.
  - destruct (IH (conj Hnd Ho) Hin) as [Hu Hg]. split; [done|].
    rewrite bool_decide_eq_false_2; [done|]. intros ->. apply Hk.
    by apply (list_elem_of_fmap_2 fst _ _ Hin).
Qed.

Lemma keys_unique_get j k v : keys_unique j → json_get j k = Some v → keys_unique v.
Proof.
  unfold json_get. destruct j as [| | | | |o]; try done. intros Hu Hg%obj_get_elem.
  by eapply keys_unique_entry.
Qed.

Lemma members_entry j k name f :
  keys_unique j → (name, f) ∈ default [] (members j k) → keys_unique f ∧ lookup_in j k name = Some f.
Proof.
  unfold lookup_in, members. intros Hu.
  destruct (json_get j k) as [[| | | | |o]|] eqn:E; simpl; try by intros ?%not_elem_of_nil.
  apply keys_unique_get in E; [|done]. by apply keys_unique_entry.
Qed.

Lemma lookup_in_members j k name f : lookup_in j k name = Some f → (name, f) ∈ default [] (members j k).
Proof. unfold lookup_in. destruct (members j k); [|done]. apply obj_get_elem. Qed.

Lemma field_additive_refl f : FieldAdditive f f.
Proof.
  assert (∀ b k, bound_ok b k f f) as Hb.
  { intros b k y Hy. exists y. split; [done|]. destruct b; apply f64_lt_irrefl. }
  split; try done; try apply Hb. intros xs Hxs. by exists xs.
Qed.

Lemma bound_ok_trans b k f g h : bound_ok b k f g → bound_ok b k g h → bound_ok b k f h.
Proof.
  intros H1 H2 z Hz. destruct (H2 z Hz) as (y & Hy & Hyz). destruct (H1 y Hy) as (x & Hx & Hxy).
  exists x. split; [done|]. destruct b; by eapply f64_le_trans.
Qed.

Lemma enum_ok_trans f g h : enum_ok f g → enum_ok g h → enum_ok f h.
Proof. intros H1 H2 xs (ys & Hys & Hs)%H1. apply H2 in Hys as (zs & ? & ?). exists zs. set_solver. Qed.

Lemma field_additive_trans f g h : FieldAdditive f g → FieldAdditive g h → FieldAdditive f h.
Proof.
  intros [] []. split; eauto using bound_ok_trans, enum_ok_trans; [congruence|naive_solver..].
Qed.

Lemma additive_refl j : keys_unique j → Additive j j.
Proof.
  remember (json_depth j) as n eqn:Hn. revert j Hn.
  induction n as [n IH] using lt_wf_ind. intros j -> Hu. constructor; [|done| |].
  - intros name f Hin. pose proof (props_depth _ _ _ Hin) as Hd.
    apply members_entry in Hin as [Hf Hg]; [|done]. exists f. split; [done|].
    split; [apply field_additive_refl|]. intros _. by eapply IH.
  - intros xs Hxs. by exists xs.
  - intros name f Hin. pose proof (defs_depth _ _ _ Hin) as Hd.
    apply members_entry in Hin as [Hf Hg]; [|done]. exists f. split; [done|]. by eapply IH.
Qed.

Lemma additive_trans a b c : Additive a b → Additive b c → Additive a c.
Proof.
  remember (json_depth a) as n eqn:Hn. revert a b c Hn.
  induction n as [n IH] using lt_wf_ind. intros a b c -> [Hp Hr He Hd] [Hp' Hr' He' Hd'].
  constructor; [|set_solver|by eapply enum_ok_trans|].
  - intros name f Hin. destruct (Hp name f Hin) as (g & Hg & Hfg & Ho).
    destruct (Hp' name g) as (h & Hh & Hgh & Ho'); [by apply lookup_in_members|].
    exists h. split; [done|]. split; [by eapply field_additive_trans|]. intros Ht.
    eapply IH; [by apply props_depth in Hin|done|by apply Ho|]. apply Ho'.
    unfold is_object_type in *. by rewrite (fa_type _ _ Hfg).
  - intros name f Hin. destruct (Hd name f Hin) as (g & Hg & Hfg).
    destruct (Hd' name g) as (h & Hh & Hgh); [by apply lookup_in_members|].
    exists h. split; [done|]. eapply IH; [by apply defs_depth in Hin|done|done|done].
Qed.

(** The compatibility check decides the additive order on schemas: a version is
    accepted exactly when every field and definition is still there, with its type and
    default, no required field more, no enum value less and no bound tightened, at
    every level. The order is a preorder: a schema is compatible with itself, and
    compatible steps compose to a compatible upgrade. *)
Theorem compatibility_order `{JsonText} f64_display :
  (∀ old new, check_compatibility f64_display old new = Compatible ↔ Additive old new) ∧
  (∀ j, keys_unique j → check_compatibility f64_display j j = Compatible) ∧
  (∀ a b c, check_compatibility f64_display a b = Compatible →
     check_compatibility f64_display b c = Compatible →
     check_compatibility f64_display a c = Compatible).
Proof.
  split; [apply compatible_additive|]. split.
  - intros j Hj. by apply compatible_additive, additive_refl.
  - intros a b c. rewrite !compatible_additive. apply additive_trans.
Qed.

(** ** Deprecations *)

Lemma removal_breaks `{JsonText} fd tracker fuel old new prefix w :
  w ∈ check_properties_removal tracker fuel old new prefix → json_depth old < fuel →
  dw_path w ∉ de_path <$> tracker ∧
  ∃ c, c ∈ all_changes fd old new prefix ∧ bc_path c = dw_path w ∧ bc_kind c = FieldRemoved.
Proof.
  revert old new prefix. induction fuel as [|fuel IH]; intros old new prefix Hw Hd; [lia|].
  cbn [check_properties_removal] in Hw. apply list_elem_of_bind in Hw as ([name f] & Hw & Hin).
  pose proof (props_depth old name f Hin) as Hf. rewrite all_changes_eq.
  assert (∀ x, x ∈ (let path := (prefix +:+ "/properties/" +:+ name)%string in
      match members new "properties" ≫= obj_get name with
      | None => [mkBreaking path FieldRemoved ("Field '" +:+ name +:+ "' was removed")%string]
      | Some g => compare_field fd f g path name ++
                  (if is_object_type f then all_changes fd f g path else [])
      end) → x ∈ compare_properties fd (all_changes fd) old new prefix) as Hsub.
  { intros x Hx. unfold compare_properties. apply list_elem_of_bind. by exists (name, f). }
  cbv zeta in Hsub. destruct (members new "properties" ≫= obj_get name) as [g|].
  - destruct (is_object_type f); [|by apply not_elem_of_nil in Hw].
    destruct (IH f g _ Hw) as [Hn (c & Hc & Hp)]; [lia|]. split; [done|].
    exists c. split; [|done]. apply elem_of_app. left. apply Hsub, elem_of_app. by right.
  - destruct (existsb _ tracker) eqn:Ex; [by apply not_elem_of_nil in Hw|].
    apply list_elem_of_singleton in Hw as ->. simpl. split.
    + intros (d & Hp & Hd')%list_elem_of_fmap. rewrite existsb_false_elem_of in Ex.
      specialize (Ex d Hd'). simpl in Ex. bool_to_prop. congruence.
    + eexists. split; [apply elem_of_app; left; apply Hsub; by left|done].
Qed.

(** Every warning about an unannounced removal names a field that the compatibility
    check reports as removed at the same path, and that is not deprecated. *)
Theorem removal_warnings_break `{JsonText} f64_display tracker old new w :
  w ∈ check_removal_allowed tracker old new →
  dw_path w ∉ de_path <$> tracker ∧
  ∃ c, c ∈ all_changes f64_display old new empty_str ∧ bc_path c = dw_path w ∧ bc_kind c = FieldRemoved.
Proof. intros Hw. eapply removal_breaks; [done|lia]. Qed.

(** ** Index hints *)

Lemma parse_hint_fields_str i j fields : parse_hint_fields i j (JStr <$> fields) = Ok fields.
Proof. revert j. induction fields as [|f fs IH]; intros j; simpl; [done|]. by rewrite IH. Qed.

Lemma parse_hint_to_value i h : ih_fields h ≠ [] → parse_hint i (hint_to_value h) = Ok h.
Proof.
  destruct h as [fields unique [n|]]; simpl; intros Hne; unfold parse_hint, hint_to_value, mk_obj; simpl.
  all: destruct fields as [|f fs]; [done|].
  all: rewrite bool_decide_eq_false_2 by done; by rewrite (parse_hint_fields_str i 0 (f :: fs)).
Qed.

(** Index hints survive being written to a manifest and parsed again. *)
Theorem index_hints_roundtrip hs :
  Forall (λ h, ih_fields h ≠ []) hs →
  parse_index_hints (mk_obj [("indexes", JArr (hint_to_value <$> hs))]) = Ok hs.
Proof.
  intros Hne. unfold parse_index_hints, mk_obj. simpl. generalize 0.
  induction Hne as [|h hs Hh Hhs IH]; intros i; simpl; [done|].
  by rewrite parse_hint_to_value, IH.
Qed.

(** Merging keeps every plugin hint, and a CDM hint exactly when no plugin hint is on
    the same set of fields in any order. *)
Theorem merge_index_hints_exact cdm plugin h :
  h ∈ merge_index_hints cdm plugin ↔
  h ∈ plugin ∨ h ∈ cdm ∧ ∀ p, p ∈ plugin → ¬ ih_fields p ≡ₚ ih_fields h.
Proof.
  assert (∀ a b, hint_key a = hint_key b ↔ ih_fields a ≡ₚ ih_fields b) as Hkey.
  { intros a b. unfold hint_key. split.
    - intros E. by rewrite <- (merge_sort_Permutation String.le (ih_fields a)), E, merge_sort_Permutation.
    - intros Hp. apply (Sorted_unique String.le); [apply Sorted_merge_sort, _..|].
      by rewrite !merge_sort_Permutation. }
  unfold merge_index_hints. rewrite elem_of_app, list_elem_of_filter, list_elem_of_fmap.
  setoid_rewrite <- Hkey. split.
  - intros [[Hn Hc]|Hp]; [right|by left]. split; [done|]. intros p Hp E. apply Hn. by exists p.
  - intros [Hp|[Hc Hn]]; [by right|left]. split; [|done]. intros (p & E & Hp). by apply (Hn p).
Qed.

(** ** What the check does not see *)

Module VersionDemo.
Definition field (kvs : list (string * json)) : json :=
  mk_obj [("properties", mk_obj [("f", mk_obj kvs)])].
Definition str : json := JStr "string".
End VersionDemo.

(** Restricting a field to an enumeration it did not have, changing the type of the
    schema itself, and changing the items of an array are all reported as compatible. *)
Theorem compatibility_blind_spots `{JsonText} fd :
  check_compatibility fd (VersionDemo.field [("type", VersionDemo.str)])
    (VersionDemo.field [("type", VersionDemo.str); ("enum", JArr [JStr "a"])]) = Compatible ∧
  check_compatibility fd (mk_obj [("type", JStr "object")]) (mk_obj [("type", JStr "array")]) = Compatible ∧
  check_compatibility fd
    (VersionDemo.field [("type", JStr "array"); ("items", mk_obj [("type", VersionDemo.str)])])
    (VersionDemo.field [("type", JStr "array"); ("items", mk_obj [("type", JStr "number")])]) = Compatible.
Proof. done. Qed.

Lemma compatibility_order_witness :
  let text := {| json_from_str s := Ok (JStr s); json_to_string _ := "" |} in
  let j := VersionDemo.field [("type", VersionDemo.str)] in
  @check_compatibility text (λ _, "") j j = Compatible.
Proof.
  intros text j. apply (proj1 (proj2 (@compatibility_order text (λ _, "")))).
  split; [repeat constructor; apply not_elem_of_nil|]. split; [|done].
  split; [repeat constructor; apply not_elem_of_nil|]. split; [|done].
  split; [repeat constructor; apply not_elem_of_nil|]. done.
Defined.
