(* ===== verification/Auth.v ===== *)
(** * Authentication of requests

    packages/auth/src: the errors (error.rs), the sliding-window rate limiter
    (handlers/rate_limit.rs), the Pocket ID provider with its key cache and the
    transport-agnostic [validate_request] (handlers/validate.rs). Providers are the
    class [AuthProvider]; JWT decoding and the issuer's answers are parameters. Clock
    readings are arguments, in nanoseconds. *)

From stdpp Require Import base tactics list strings gmap.
From Stdlib Require Import Ascii ZArith Lia.
From S2P Require Import Prelude RustString Json Types.

Local Open Scope string_scope.

(** ** Errors *)

Inductive AuthError : Type :=
| TokenMissing
| TokenExpired
| TokenInvalid (m : string)
| ProviderUnreachable (m : string)
| ConfigInvalid (m : string)
| RateLimited (retry_after : Z)
| KeyRevoked
| KeyInvalid.

Definition auth_error_display (e : AuthError) : string :=
  match e with
  | TokenMissing => "no authorization header present"
  | TokenExpired => "token expired"
  | TokenInvalid m => "token validation failed: " +:+ m
  | ProviderUnreachable m => "authentication provider unreachable: " +:+ m
  | ConfigInvalid m => "invalid auth configuration: " +:+ m
  | RateLimited r => "rate limit exceeded, retry after " +:+ show_Z r +:+ "s"
  | KeyRevoked => "API key has been revoked"
  | KeyInvalid => "invalid API key"
  end.

Definition auth_error_code (e : AuthError) : string :=
  match e with
  | TokenMissing => "AUTH_001"
  | TokenExpired => "AUTH_002"
  | TokenInvalid _ => "AUTH_003"
  | ProviderUnreachable _ => "AUTH_004"
  | ConfigInvalid _ => "AUTH_005"
  | RateLimited _ => "AUTH_006"
  | KeyRevoked => "AUTH_007"
  | KeyInvalid => "AUTH_008"
  end.

Definition auth_error_severity (e : AuthError) : Severity :=
  match e with
  | ProviderUnreachable _ => Retryable
  | _ => Fatal
  end.

Record AuthIdentity : Type := mkIdentity {
  ai_user_id : string;
  ai_provider : string;
  ai_scopes : list string;
  ai_authenticated_at : timestamp;
}.

(** ** The rate limiter *)

Definition SECOND : Z := 1000000000.

Record RateLimiter : Type := mkRateLimiter {
  rl_failures : gmap string (list timestamp);
  rl_max_failures : nat;
  rl_window_secs : Z;
}.

Definition with_config (max_failures : nat) (window_secs : Z) : RateLimiter :=
  mkRateLimiter ∅ max_failures window_secs.

Definition new_rate_limiter : RateLimiter := with_config 5 60.

(** [Instant::duration_since] saturates at zero. *)
Definition duration_since (now t : timestamp) : Z := Z.max 0 (now - t).

Definition recent (l : RateLimiter) (now t : timestamp) : bool :=
  (duration_since now t <? rl_window_secs l * SECOND)%Z.

Definition prune (l : RateLimiter) (now : timestamp) (entries : list timestamp) : list timestamp :=
  filter (λ t, recent l now t = true) entries.

Definition set_failures (l : RateLimiter) (m : gmap string (list timestamp)) : RateLimiter :=
  mkRateLimiter m (rl_max_failures l) (rl_window_secs l).

Definition retry_after (l : RateLimiter) (now oldest : timestamp) : Z :=
  let elapsed := (duration_since now oldest / SECOND)%Z in
  let r := Z.max 0 (rl_window_secs l - elapsed) in
  if (r =? 0)%Z then 1 else r.

Definition is_rate_limited (ip : string) (now : timestamp) (l : RateLimiter)
    : option Z * RateLimiter :=
  match rl_failures l !! ip with
  | None => (None, l)
  | Some entries =>
      match prune l now entries with
      | [] => (None, set_failures l (delete ip (rl_failures l)))
      | oldest :: rest =>
          let l' := set_failures l (<[ip := oldest :: rest]> (rl_failures l)) in
          if (rl_max_failures l <=? length (oldest :: rest))%nat
          then (Some (retry_after l now oldest), l') else (None, l')
      end
  end.

Definition record_failure (ip : string) (now : timestamp) (l : RateLimiter) : RateLimiter :=
  set_failures l (<[ip := (default [] (rl_failures l !! ip) ++ [now])%list]> (rl_failures l)).

Definition cleanup (now : timestamp) (l : RateLimiter) : RateLimiter :=
  set_failures l (omap (λ entries,
    match prune l now entries with
    | [] => None
    | es => Some es
    end) (rl_failures l)).

Definition tracked_ips (l : RateLimiter) : nat := size (rl_failures l).

(** ** Providers *)

(** [AuthProvider] over the state of a provider. *)
Class AuthProvider (P : Type) : Type := {
  validate_token : string → P → result AuthIdentity AuthError * P;
  provider_validate_key : string → P → result AuthIdentity AuthError * P;
  provider_revoke_key : uuid → P → result unit AuthError * P;
}.

Section Request.
Context {P : Type} `{AuthProvider P}.

(** The limiter reads the clock at [now], and again at [later] to record a failure. *)
Definition validate_request (auth_header : option string) (client_ip : string)
    (now later : timestamp) (s : P * RateLimiter) : result AuthIdentity AuthError * (P * RateLimiter) :=
  let '(p, l) := s in
  match is_rate_limited client_ip now l with
  | (Some retry, l1) => (Err (RateLimited retry), (p, l1))
  | (None, l1) =>
      match auth_header with
      | None => (Err TokenMissing, (p, l1))
      | Some header =>
          let '(r, p1) :=
            match strip_prefix "Bearer " header with
            | Some token => validate_token token p
            | None =>
                match strip_prefix "ApiKey " header with
                | Some key => provider_validate_key key p
                | None => (Err (TokenInvalid "unsupported authorization scheme"), p)
                end
            end in
          (r, (p1, if is_ok r then l1 else record_failure client_ip later l1))
      end
  end.
End Request.

(** ** The Pocket ID provider *)

Record Jwk : Type := mkJwk {
  jwk_kid : option string;
  jwk_kty : string;
  jwk_alg : option string;
  jwk_n : option string;
  jwk_e : option string;
  jwk_x : option string;
  jwk_crv : option string;
}.

Inductive Algorithm : Type := EdDSA | RS256.

Record Claims : Type := mkClaims {
  cl_sub : option string;
  cl_iss : option string;
  cl_aud : option json;
  cl_exp : option Z;
  cl_scope : option json;
}.

(** Why [jsonwebtoken::decode] refuses a token. *)
Inductive JwtErrorKind : Type := ExpiredSignature | InvalidIssuer | InvalidAudience | OtherJwtError.

(** The JWT crate, over its decoding keys. *)
Class JwtLib : Type := {
  DecodingKey : Type;
  from_ed_der : string → option DecodingKey;
  from_rsa_components : string → string → option DecodingKey;
  (** the key id in a token's header, or why it is malformed *)
  decode_header : string → result (option string) string;
  (** token, key, algorithm, issuer, audience, clock *)
  jwt_decode : string → DecodingKey → Algorithm → string → option string → timestamp →
    result Claims (JwtErrorKind * string);
}.

Record CachedKey `{JwtLib} : Type := mkCachedKey {
  ck_kid : option string;
  ck_algorithm : Algorithm;
  ck_decoding_key : DecodingKey;
}.

Record JwksCache `{JwtLib} : Type := mkCache {
  jc_keys : list CachedKey;
  jc_last_refresh : timestamp;
  jc_jwks_uri : option string;
}.

Record PocketIdProvider `{JwtLib} : Type := mkPocketId {
  pp_issuer : string;
  pp_audience : option string;
  pp_jwks_refresh_interval : Z;
  pp_cache : JwksCache;
}.

(** [s.split_whitespace()] on ASCII whitespace. *)
Fixpoint split_whitespace_go (word : string) (s : string) : list string :=
  let flush rest := if is_empty word then rest else word :: rest in
  match s with
  | EmptyString => flush []
  | String c s' =>
      if is_ascii_whitespace c then flush (split_whitespace_go empty_str s')
      else split_whitespace_go (word +:+ singleton c) s'
  end.
Definition split_whitespace : string → list string := split_whitespace_go empty_str.

Definition extract_scopes (c : Claims) : list string :=
  match cl_scope c with
  | Some (JStr s) => split_whitespace s
  | Some (JArr arr) => omap as_str arr
  | _ => []
  end.

Section PocketId.
Context `{JwtLib}.

Definition parse_jwk (jwk : Jwk) : option CachedKey :=
  if bool_decide (jwk_kty jwk = "OKP") then
    if bool_decide (jwk_crv jwk = Some "Ed25519") then
      x ← jwk_x jwk;
      k ← from_ed_der x;
      Some (mkCachedKey _ (jwk_kid jwk) EdDSA k)
    else None
  else if bool_decide (jwk_kty jwk = "RSA") then
    n ← jwk_n jwk;
    e ← jwk_e jwk;
    k ← from_rsa_components n e;
    Some (mkCachedKey _ (jwk_kid jwk) RS256 k)
  else None.

(** The issuer: its discovery document and the keys at a URI, or why they cannot be
    had. *)
Context (discover : result string AuthError) (jwks_at : string → result (list Jwk) AuthError).

Definition set_cache (p : PocketIdProvider) (c : JwksCache) : PocketIdProvider :=
  mkPocketId _ (pp_issuer p) (pp_audience p) (pp_jwks_refresh_interval p) c.

Definition fetch_jwks (uri : string) : result (list CachedKey) AuthError :=
  let? jwks := jwks_at uri in Ok (omap parse_jwk jwks).

Definition refresh_keys (now : timestamp) (p : PocketIdProvider) : result unit AuthError * PocketIdProvider :=
  let '(uri, p1) :=
    match jc_jwks_uri (pp_cache p) with
    | Some uri => (Ok uri, p)
    | None =>
        match discover with
        | Err e => (Err e, p)
        | Ok uri => (Ok uri, set_cache p (mkCache _ (jc_keys (pp_cache p)) (jc_last_refresh (pp_cache p)) (Some uri)))
        end
    end in
  match uri with
  | Err e => (Err e, p1)
  | Ok uri =>
      match fetch_jwks uri with
      | Err e => (Err e, p1)
      | Ok keys => (Ok tt, set_cache p1 (mkCache _ keys now (jc_jwks_uri (pp_cache p1))))
      end
  end.

Definition refresh_keys_if_needed (now : timestamp) (p : PocketIdProvider)
    : result unit AuthError * PocketIdProvider :=
  if (pp_jwks_refresh_interval p <=? duration_since now (jc_last_refresh (pp_cache p)) / SECOND)%Z
  then refresh_keys now p else (Ok tt, p).

Definition find_key (kid : option string) (p : PocketIdProvider) : option CachedKey :=
  match kid with
  | Some kid => snd <$> list_find (λ k, ck_kid k = Some kid) (jc_keys (pp_cache p))
  | None =>
      match jc_keys (pp_cache p) with
      | [k] => Some k
      | _ => None
      end
  end.

Definition jwt_error (e : JwtErrorKind * string) : AuthError :=
  match e.1 with
  | ExpiredSignature => TokenExpired
  | InvalidIssuer => TokenInvalid "invalid issuer"
  | InvalidAudience => TokenInvalid "invalid audience"
  | OtherJwtError => TokenInvalid ("JWT validation failed: " +:+ e.2)
  end.

Definition decode_and_validate (token : string) (now : timestamp) (p : PocketIdProvider)
    : result Claims AuthError * PocketIdProvider :=
  match decode_header token with
  | Err e => (Err (TokenInvalid ("malformed JWT header: " +:+ e)), p)
  | Ok kid =>
      let '(r, p1) :=
        match find_key kid p with
        | Some k => (Ok (Some k), p)
        | None =>
            match refresh_keys now p with
            | (Err e, p1) => (Err e, p1)
            | (Ok _, p1) => (Ok (find_key kid p1), p1)
            end
        end in
      match r with
      | Err e => (Err e, p1)
      | Ok None => (Err (TokenInvalid ("no matching key found for kid: " +:+ default "<none>" kid)), p1)
      | Ok (Some k) =>
          (result_map_err jwt_error
             (jwt_decode token (ck_decoding_key k) (ck_algorithm k) (pp_issuer p) (pp_audience p) now), p1)
      end
  end.

Definition pocket_validate_token (token : string) (now : timestamp) (p : PocketIdProvider)
    : result AuthIdentity AuthError * PocketIdProvider :=
  match refresh_keys_if_needed now p with
  | (Err e, p1) => (Err e, p1)
  | (Ok _, p1) =>
      match decode_and_validate token now p1 with
      | (Err e, p2) => (Err e, p2)
      | (Ok claims, p2) =>
          (let? user_id := ok_or (cl_sub claims) (TokenInvalid "missing sub claim") in
           Ok (mkIdentity user_id "pocket-id" (extract_scopes claims) now), p2)
      end
  end.
End PocketId.

(** * Facts about request authentication

    The limiter's window bounds how often credentials can be tried; the retry time it
    announces is enough; a token is accepted only through a key the issuer publishes. *)

Local Close Scope string_scope.

(** ** A run of requests *)

Section Requests.
Context {P : Type} `{AuthProvider P}.

(** A request: header, address and the two clock readings. *)
Record AuthAttempt : Type := mkAttempt {
  at_header : option string;
  at_ip : string;
  at_now : timestamp;
  at_later : timestamp;
}.

Definition attempt (a : AuthAttempt) (s : P * RateLimiter) :
    result AuthIdentity AuthError * (P * RateLimiter) :=
  validate_request (at_header a) (at_ip a) (at_now a) (at_later a) s.

(** The credentials were tried and refused. *)
Definition tried_and_failed (a : AuthAttempt) (s : P * RateLimiter) : bool :=
  bool_decide (is_Some (at_header a)) &&
  match (is_rate_limited (at_ip a) (at_now a) s.2).1 with
  | Some _ => false
  | None => negb (is_ok (attempt a s).1)
  end.

(** The instants at which credentials sent from [ip] were refused. *)
Fixpoint refusals (ip : string) (l : list AuthAttempt) (s : P * RateLimiter) : list timestamp :=
  match l with
  | [] => []
  | a :: l' =>
      (if bool_decide (at_ip a = ip) && tried_and_failed a s then [at_later a] else [])
      ++ refusals ip l' (attempt a s).2
  end.

(** The clock does not go back. *)
Inductive ordered : timestamp → list AuthAttempt → Prop :=
| ordered_nil t : ordered t []
| ordered_cons t a l :
    (t ≤ at_now a)%Z → (at_now a ≤ at_later a)%Z → ordered (at_later a) l → ordered t (a :: l).

(** ** What the limiter remembers *)

Definition entries (ip : string) (l : RateLimiter) : list timestamp := default [] (rl_failures l !! ip).

Definition same_config (l l' : RateLimiter) : Prop :=
  rl_max_failures l' = rl_max_failures l ∧ rl_window_secs l' = rl_window_secs l.

Lemma recent_mono l t t' x : (t ≤ t')%Z → recent l t' x = true → recent l t x = true.
Proof. unfold recent, duration_since. rewrite !Z.ltb_lt. lia. Qed.

Lemma prune_prune l t t' es : (t ≤ t')%Z → prune l t' (prune l t es) = prune l t' es.
Proof.
  intros Ht. unfold prune. rewrite list_filter_filter. apply list_filter_iff.
  intros x. split; [naive_solver|]. intros Hx. split; [done|]. by eapply recent_mono.
Qed.

Lemma prune_config l l' t es : same_config l l' → prune l' t es = prune l t es.
Proof.
  intros [_ Hw]. unfold prune. apply list_filter_iff. intros x. unfold recent. by rewrite Hw.
Qed.

(** Checking keeps what is recent, and passes only below the limit. *)
Lemma is_rate_limited_spec ip now l r l' :
  is_rate_limited ip now l = (r, l') →
  same_config l l' ∧ (∀ ip', ip' ≠ ip → entries ip' l' = entries ip' l) ∧
  entries ip l' = prune l now (entries ip l) ∧
  (r = None → length (prune l now (entries ip l)) < rl_max_failures l ∨
              prune l now (entries ip l) = []).
Proof.
  unfold is_rate_limited, entries. intros Hr.
  destruct (rl_failures l !! ip) as [es|] eqn:E; simplify_eq/=.
  2: { rewrite E. simpl. split_and!; try done. by right. }
  destruct (prune l now es) as [|x xs] eqn:Ep; simplify_eq/=.
  { rewrite lookup_delete_eq. split_and!; try done; [|by right].
    intros ip' Hne. by rewrite lookup_delete_ne. }
  destruct (rl_max_failures l <=? S (length xs)) eqn:El; simplify_eq/=; rewrite lookup_insert_eq;
    (split_and!; [done|by intros ip' Hne; rewrite lookup_insert_ne|done|]); [done|].
  intros _. left. apply Nat.leb_gt in El. done.
Qed.

Lemma record_failure_spec ip now l :
  same_config l (record_failure ip now l) ∧
  (∀ ip', ip' ≠ ip → entries ip' (record_failure ip now l) = entries ip' l) ∧
  entries ip (record_failure ip now l) = entries ip l ++ [now].
Proof.
  unfold entries. simpl. rewrite lookup_insert_eq. split_and!; [done| |done].
  intros ip' Hne. simpl. by rewrite lookup_insert_ne.
Qed.

(** One request: what it leaves for its own and for other addresses. *)
Lemma attempt_spec a s ip :
  let s' := (attempt a s).2 in
  same_config s.2 s'.2 ∧
  entries ip s'.2 =
    (if decide (at_ip a = ip) then
       prune s.2 (at_now a) (entries ip s.2) ++ (if tried_and_failed a s then [at_later a] else [])
     else entries ip s.2) ∧
  (at_ip a = ip → tried_and_failed a s = true →
     length (prune s.2 (at_now a) (entries ip s.2)) < rl_max_failures s.2 ∨
     prune s.2 (at_now a) (entries ip s.2) = []).
Proof.
  destruct s as [p l]. unfold tried_and_failed, attempt, validate_request. simpl.
  destruct (is_rate_limited (at_ip a) (at_now a) l) as [r l1] eqn:E. simpl.
  apply is_rate_limited_spec in E as (Hc & Hother & Hown & Hlim).
  assert (entries ip l1 = if decide (at_ip a = ip) then prune l (at_now a) (entries ip l)
                          else entries ip l) as Hl1.
  { case_decide as Hip; [by subst|]. by apply Hother. }
  destruct r as [ra|]; simpl.
  { rewrite andb_false_r, app_nil_r. split_and!; done. }
  specialize (Hlim eq_refl). destruct (at_header a) as [h|]; simpl.
  2: { rewrite app_nil_r. split_and!; done. }
  destruct (match strip_prefix "Bearer " h with Some _ => _ | None => _ end) as [res p1]. simpl.
  destruct (is_ok res); simpl.
  { rewrite app_nil_r. split_and!; [done|done|]. done. }
  destruct (record_failure_spec (at_ip a) (at_later a) l1) as (Hc' & Hother' & Hown').
  split_and!.
  - unfold same_config in *. simpl. destruct Hc, Hc'. split; simpl in *; congruence.
  - case_decide as Hip.
    + subst ip. rewrite Hown', Hown. done.
    + rewrite Hother' by done. done.
  - intros <- _. done.
Qed.

(** ** The bound *)

Section Bound.
Context (ip : string) (max : nat) (w : Z).

Definition in_window (t x : timestamp) : Prop := (t ≤ x < t + w * SECOND)%Z.
#[local] Instance in_window_dec t x : Decision (in_window t x).
Proof. unfold in_window. apply _. Defined.

(** In every window at most [max] of these instants lie. *)
Definition sparse (xs : list timestamp) : Prop :=
  ∀ t, length (filter (in_window t) xs) ≤ max.

(** At time [T], the limiter [l] knows the [past] refusals that still matter. *)
Definition remembers (past : list timestamp) (l : RateLimiter) (T : timestamp) : Prop :=
  rl_max_failures l = max ∧ rl_window_secs l = w ∧ Forall (λ x, (x ≤ T)%Z) past ∧
  ∀ t, (T ≤ t)%Z → prune l t (entries ip l) = prune l t past.

Lemma sparse_snoc past l T now x :
  1 ≤ max → sparse past → remembers past l T → (T ≤ now ≤ x)%Z →
  (length (prune l now (entries ip l)) < max ∨ prune l now (entries ip l) = []) →
  sparse (past ++ [x]).
Proof.
  intros Hmax Hsp (_ & Hw & Hle & Hrem) Hx Hlen t.
  rewrite filter_snoc, length_app. destruct (decide (in_window t x)) as [Hin|Hin].
  2: { simpl. rewrite Nat.add_0_r. apply Hsp. }
  rewrite Hrem in Hlen by lia.
  assert (length (filter (in_window t) past) ≤ length (prune l now past)) as Hle'.
  { unfold prune. apply filter_length_mono. intros y Hy [Hy1 Hy2].
    rewrite Forall_forall in Hle. specialize (Hle y Hy). unfold in_window in Hin.
    unfold recent, duration_since. rewrite Hw. apply Z.ltb_lt. lia. }
  simpl. destruct Hlen as [Hlen|Hlen]; [lia|]. rewrite Hlen in Hle'. simpl in Hle'. lia.
Qed.

Lemma refusals_sparse l past s T :
  1 ≤ max → ordered T l → sparse past → remembers past s.2 T → sparse (past ++ refusals ip l s).
Proof.
  intros Hmax. revert past s T. induction l as [|a l IH]; intros past s T Hord Hsp Hrem.
  { simpl. by rewrite app_nil_r. }
  inversion Hord as [|? ? ? Ht1 Ht2 Hord']; subst. cbn [refusals].
  destruct (attempt_spec a s ip) as (Hc & He & Hlim).
  pose proof Hrem as (Hm & Hw & Hle & Hp).
  set (δ := if bool_decide (at_ip a = ip) && tried_and_failed a s then [at_later a] else []).
  rewrite app_assoc. apply (IH _ _ (at_later a)); [done|..].
  - unfold δ. destruct (bool_decide (at_ip a = ip) && tried_and_failed a s) eqn:Eb.
    + apply andb_true_iff in Eb as [Hip Hf]. bool_to_prop.
      eapply sparse_snoc; [done|done|done|split; [exact Ht1|exact Ht2]|].
      rewrite <- Hm. by apply Hlim.
    + by rewrite app_nil_r.
  - destruct Hc as [Hc1 Hc2]. split; [congruence|]. split; [congruence|]. split.
    { apply Forall_app. split; [eapply Forall_impl; [done|]; simpl; lia|].
      unfold δ. destruct (_ && _); [|done]. by constructor. }
    intros t Ht. rewrite !(prune_config s.2 (attempt a s).2.2) by done. rewrite He.
    unfold δ. case_decide as Hip.
    + rewrite bool_decide_eq_true_2 by done. simpl. unfold prune at 1. rewrite filter_app.
      fold (prune s.2 t (prune s.2 (at_now a) (entries ip s.2))). rewrite prune_prune by lia.
      rewrite Hp by lia. unfold prune. by rewrite filter_app.
    + rewrite bool_decide_eq_false_2 by done. simpl. rewrite app_nil_r. apply Hp. lia.
Qed.
End Bound.
End Requests.

(** Guessing is bounded. However requests from all addresses interleave, and
    whatever the provider answers, within any window of the configured length at most
    [max] credentials sent from one address are tried and refused. *)
Theorem refusals_bounded `{AuthProvider P} (p : P) max w ip l t0 t :
  1 ≤ max → ordered t0 l →
  length (filter (λ x, (t ≤ x < t + w * SECOND)%Z) (refusals ip l (p, with_config max w))) ≤ max.
Proof.
  intros Hmax Hord.
  enough (sparse max w ([] ++ refusals ip l (p, with_config max w))) as Hs by apply (Hs t).
  eapply refusals_sparse; [done|done| |].
  - intros t'. simpl. lia.
  - split; [done|]. split; [done|]. split; [done|]. intros t' _. done.
Qed.

(** A provider that knows nobody. *)
Definition deny_all : AuthProvider unit :=
  Build_AuthProvider unit (λ _ p, (Err (TokenInvalid "unknown"), p)) (λ _ p, (Err KeyInvalid, p))
    (λ _ p, (Err KeyInvalid, p)).

(** Three guesses a second apart against a limit of two in ten seconds. *)
Definition guesses : list AuthAttempt :=
  [mkAttempt (Some "Bearer a"%string) "1.2.3.4" 0 0;
   mkAttempt (Some "ApiKey b"%string) "1.2.3.4" SECOND SECOND;
   mkAttempt (Some "Basic c"%string) "1.2.3.4" (2 * SECOND) (2 * SECOND)].

Lemma refusals_bounded_witness :
  let refused := @refusals unit deny_all "1.2.3.4" guesses (tt, with_config 2 10) in
  refused = [0%Z; SECOND] ∧ length (filter (λ x, (0 ≤ x < 0 + 10 * SECOND)%Z) refused) ≤ 2.
Proof.
  split; [vm_compute; reflexivity|].
  apply (@refusals_bounded unit deny_all tt 2 10 "1.2.3.4" guesses 0 0); [lia|].
  unfold guesses, SECOND. repeat (constructor; simpl; [lia|lia|]). constructor.
Defined.

(** ** The announced waiting time *)

Section Retry.
Context {P : Type} `{AuthProvider P}.

Fixpoint run_attempts (l : list AuthAttempt) (s : P * RateLimiter) : P * RateLimiter :=
  match l with
  | [] => s
  | a :: l' => run_attempts l' (attempt a s).2
  end.

(** No address has more entries than the limit, and none is in the future. *)
Definition within_limit (now : timestamp) (l : RateLimiter) : Prop :=
  ∀ ip, length (entries ip l) ≤ rl_max_failures l ∧ Forall (λ x, (x ≤ now)%Z) (entries ip l).

Lemma prune_length l t es : length (prune l t es) ≤ length es.
Proof. unfold prune. apply length_filter. Qed.

Lemma run_within_limit now l s :
  1 ≤ rl_max_failures s.2 → Forall (λ a, (at_later a ≤ now)%Z) l → within_limit now s.2 →
  within_limit now (run_attempts l s).2.
Proof.
  revert s. induction l as [|a l IH]; intros s Hmax Hl Hw; simpl; [done|].
  apply Forall_cons in Hl as [Ha Hl].
  assert (same_config s.2 (attempt a s).2.2) as [Hc1 _] by apply (attempt_spec a s empty_str).
  apply IH; [by rewrite Hc1|done|].
  intros ip. destruct (attempt_spec a s ip) as (_ & He & Hlim). rewrite He, Hc1.
  destruct (Hw ip) as [Hn Hf]. case_decide as Hip; [|done].
  pose proof (prune_length s.2 (at_now a) (entries ip s.2)). rewrite length_app, Forall_app.
  assert (Forall (λ x, (x ≤ now)%Z) (prune s.2 (at_now a) (entries ip s.2))).
  { rewrite Forall_forall in Hf |- *. intros x [_ Hx]%list_elem_of_filter. by apply Hf. }
  destruct (tried_and_failed a s); simpl; [|split; [lia|done]].
  split; [|by split; [|constructor]].
  destruct (Hlim Hip eq_refl) as [?| ->]; simpl; lia.
Qed.
End Retry.

Lemma limited_again ip now l r l1 :
  within_limit now l → is_rate_limited ip now l = (Some r, l1) →
  (1 ≤ r)%Z ∧ (is_rate_limited ip (now + r * SECOND) l1).1 = None.
Proof.
  intros Hl Hr. unfold is_rate_limited in Hr. specialize (Hl ip). unfold entries in Hl.
  destruct (rl_failures l !! ip) as [es|]; [|done]. simpl in Hl. destruct Hl as [Hl Hpast].
  pose proof (prune_length l now es) as Hlen.
  destruct (prune l now es) as [|x xs] eqn:Ep; [done|].
  assert (recent l now x = true ∧ (x ≤ now)%Z) as [Hx Hxn].
  { assert (x ∈ prune l now es) as [? Hin]%list_elem_of_filter by (rewrite Ep; left).
    split; [done|]. rewrite Forall_forall in Hpast. by apply Hpast. }
  simpl in Hr, Hlen. destruct (rl_max_failures l <=? S (length xs)) eqn:El; [|done]. simplify_eq.
  apply Nat.leb_le in El. split; [unfold retry_after; case_match; lia|].
  unfold is_rate_limited. simpl. rewrite lookup_insert_eq. set (l1 := set_failures _ _).
  assert (recent l1 (now + retry_after l now x * SECOND) x = false) as Hold.
  { unfold recent, retry_after, duration_since, SECOND in *. simpl. apply Z.ltb_lt in Hx.
    apply Z.ltb_ge. set (d := Z.max 0 (now - x)) in *.
    pose proof (Z.div_mod d 1000000000 ltac:(lia)). pose proof (Z.mod_pos_bound d 1000000000 ltac:(lia)).
    destruct (Z.eqb_spec (Z.max 0 (rl_window_secs l - d / 1000000000)) 0); lia. }
  assert (prune l1 (now + retry_after l now x * SECOND) (x :: xs) =
          prune l1 (now + retry_after l now x * SECOND) xs) as ->.
  { unfold prune. rewrite filter_cons. rewrite decide_False; [done|]. by rewrite Hold. }
  pose proof (prune_length l1 (now + retry_after l now x * SECOND) xs) as Hlen'.
  destruct (prune l1 _ xs) as [|y ys]; [done|]. simpl in *.
  rewrite (proj2 (Nat.leb_gt _ _)); [done|]. lia.
Qed.

(** Waiting as announced is enough: in every state that a sequence of requests
    leads to, an address that is refused with [retry_after] seconds is let through
    again after that time, if it sends nothing in between. *)
Theorem retry_after_enough `{AuthProvider P} (p : P) max w l ip now r l1 :
  1 ≤ max → Forall (λ a, (at_later a ≤ now)%Z) l →
  is_rate_limited ip now (run_attempts l (p, with_config max w)).2 = (Some r, l1) →
  (1 ≤ r)%Z ∧ (is_rate_limited ip (now + r * SECOND) l1).1 = None.
Proof.
  intros Hmax Hl. apply limited_again, run_within_limit; [done|done|].
  intros ip'. unfold entries. simpl. rewrite lookup_empty. simpl. split; [lia|constructor].
Qed.

Lemma retry_after_enough_witness :
  (is_rate_limited "1.2.3.4" (11 * SECOND)
     (is_rate_limited "1.2.3.4" (2 * SECOND)
        (@run_attempts unit deny_all guesses (tt, with_config 2 10)).2).2).1 = None ∧
  (is_rate_limited "1.2.3.4" (2 * SECOND)
     (@run_attempts unit deny_all guesses (tt, with_config 2 10)).2).1 = Some 8%Z.
Proof.
  split; [|vm_compute; reflexivity].
  apply (@retry_after_enough unit deny_all tt 2 10 guesses "1.2.3.4" (2 * SECOND) 8
           (is_rate_limited "1.2.3.4" (2 * SECOND) (@run_attempts unit deny_all guesses (tt, with_config 2 10)).2).2);
    [lia|unfold guesses, SECOND; repeat constructor; simpl; lia|vm_compute; reflexivity].
Defined.

(** ** Tokens *)

Section Tokens.
Context `{JwtLib} (discover : result string AuthError) (jwks_at : string → result (list Jwk) AuthError).

Lemma refresh_keys_config now p r p' :
  refresh_keys discover jwks_at now p = (r, p') →
  pp_issuer p' = pp_issuer p ∧ pp_audience p' = pp_audience p.
Proof. unfold refresh_keys. intros Hr. repeat case_match; by simplify_eq. Qed.

Lemma decode_sound token now p claims p' :
  decode_and_validate discover jwks_at token now p = (Ok claims, p') →
  ∃ kid k, decode_header token = Ok kid ∧ find_key kid p' = Some k ∧
    jwt_decode token (ck_decoding_key k) (ck_algorithm k) (pp_issuer p) (pp_audience p) now = Ok claims.
Proof.
  unfold decode_and_validate. intros Hd. destruct (decode_header token) as [kid|]; [|done].
  exists kid. destruct (find_key kid p) as [k|] eqn:Ek.
  - destruct (jwt_decode _ _ _ _ _ _) as [c|] eqn:Ej; simplify_eq/=. by exists k.
  - destruct (refresh_keys discover jwks_at now p) as [[|] p1]; [|done].
    destruct (find_key kid p1) as [k|] eqn:Ek1; [|done].
    destruct (jwt_decode _ _ _ _ _ _) as [c|] eqn:Ej; simplify_eq/=. by exists k.
Qed.
End Tokens.

(** A bearer token is accepted only if its header names a key that the provider
    holds from the issuer, the token verifies under exactly that key and algorithm for
    the configured issuer and audience, and it has a subject; the identity carries
    that subject and the token's own scopes. *)
Theorem pocket_token_sound `{JwtLib} discover jwks_at token now p id p' :
  pocket_validate_token discover jwks_at token now p = (Ok id, p') →
  ∃ kid k claims, decode_header token = Ok kid ∧ find_key kid p' = Some k ∧
    jwt_decode token (ck_decoding_key k) (ck_algorithm k) (pp_issuer p) (pp_audience p) now = Ok claims ∧
    cl_sub claims = Some (ai_user_id id) ∧ ai_scopes id = extract_scopes claims ∧
    ai_provider id = "pocket-id".
Proof.
  unfold pocket_validate_token, refresh_keys_if_needed. intros Hv.
  destruct (if (_ <=? _)%Z then _ else _) as [r p1] eqn:Er.
  assert (pp_issuer p1 = pp_issuer p ∧ pp_audience p1 = pp_audience p) as [Hi Ha].
  { destruct (_ <=? _)%Z; [by eapply refresh_keys_config|by simplify_eq]. }
  destruct r as [|]; [|done].
  destruct (decode_and_validate _ _ token now p1) as [[claims|] p2] eqn:Ed; [|done].
  apply decode_sound in Ed as (kid & k & Hk & Hf & Hj). rewrite Hi, Ha in Hj.
  destruct (cl_sub claims) as [u|] eqn:Eu; simplify_eq/=. by exists kid, k, claims.
Qed.

(** A toy JWT library: a token is its key id, and verifies under the key of that name
    for the issuer it was made for. *)
Definition toy_jwt : JwtLib :=
  Build_JwtLib string Some (λ n _, Some n)
    (λ token, if bool_decide (token = ""%string) then Err "empty"%string else Ok (Some token))
    (λ token key alg issuer _ _,
       if bool_decide (token = key) && bool_decide (issuer = "https://id"%string)
       then Ok (mkClaims (Some "alice"%string) (Some issuer) None None (Some (JStr "read  write")))
       else Err (OtherJwtError, "bad signature"%string)).

Definition toy_jwk (kid : string) : Jwk :=
  mkJwk (Some kid) "OKP" None None None (Some kid) (Some "Ed25519"%string).

Definition toy_provider : @PocketIdProvider toy_jwt :=
  mkPocketId toy_jwt "https://id" None 3600 (mkCache toy_jwt [] 0 None).

Lemma pocket_token_sound_witness :
  let run := @pocket_validate_token toy_jwt (Ok "https://id/keys"%string)
               (λ _, Ok [toy_jwk "k1"; toy_jwk "k2"]) "k2" (5 * SECOND) toy_provider in
  run.1 = Ok (mkIdentity "alice" "pocket-id" ["read"%string; "write"%string] (5 * SECOND)) ∧
  ∃ kid k claims, @decode_header toy_jwt "k2" = Ok kid ∧ find_key kid run.2 = Some k ∧
    jwt_decode "k2" (ck_decoding_key k) (ck_algorithm k) "https://id" None (5 * SECOND) = Ok claims ∧
    cl_sub claims = Some "alice"%string ∧ ["read"%string; "write"%string] = extract_scopes claims ∧
    "pocket-id"%string = "pocket-id"%string.
Proof.
  split; [reflexivity|].
  apply (@pocket_token_sound toy_jwt (Ok "https://id/keys"%string)
           (λ _, Ok [toy_jwk "k1"; toy_jwk "k2"]) "k2" (5 * SECOND) toy_provider
           (mkIdentity "alice" "pocket-id" ["read"%string; "write"%string] (5 * SECOND))).
  reflexivity.
Defined.
