(* ===== verification/Sessions.v ===== *)
(** * Local tokens, passkeys and the authentication middleware

    packages/auth/src/legacy: local bearer tokens with their write-through cache over
    SQLite (local_token.rs), OIDC tokens (jwt.rs, oidc.rs), the passkey store and
    ceremonies (webauthn_store.rs, webauthn_provider.rs), the provider that tries
    several in turn and how one is chosen (mod.rs); and the middleware of
    apps/core/src/auth/middleware.rs with its own rate limiter.

    Providers share state (the passkey provider issues tokens through the local one
    that also validates them), so a provider is a record of operations over one
    world. What an operation reads from outside (clock, random values, database
    faults, the issuer's answer) is a [Draw]; a provider uses the first draw of its
    stream, and providers tried one after the other use successive draws. *)

From stdpp Require Import base tactics list strings gmap.
From Stdlib Require Import Ascii ZArith Lia.
From S2P Require Import Prelude RustString Types Household.

Local Open Scope string_scope.

(** ** Types *)

Inductive AuthError : Type :=
| InvalidCredentials
| TokenExpired
| TokenNotFound
| RateLimited
| Internal (m : string).

Definition auth_error_text (e : AuthError) : string :=
  match e with
  | InvalidCredentials => "invalid credentials"
  | TokenExpired => "token expired"
  | TokenNotFound => "token not found"
  | RateLimited => "rate limited"
  | Internal m => "internal error: " +:+ m
  end.

Record AuthIdentity : Type := mkAuthIdentity {
  id_token_id : string;
  id_user_id : option string;
  id_household_id : option string;
  id_role : option HouseholdRole;
  id_created_at : timestamp;
  id_expires_at : timestamp;
}.

Record TokenRequest : Type := mkTokenRequest {
  tr_passphrase : string;
  tr_expires_in_days : option Z;
}.

Record TokenResponse : Type := mkTokenResponse {
  tp_token_id : string;
  tp_token : string;
  tp_expires_at : string;
}.

Record TokenInfo : Type := mkTokenInfo {
  ti_id : string;
  ti_created_at : string;
  ti_expires_at : string;
  ti_is_expired : bool;
}.

(** A call returns or panics. *)
Inductive outcome (A : Type) : Type :=
| Returned (r : result A AuthError)
| Panicked.
Arguments Returned {A} r.
Arguments Panicked {A}.

(** ** Libraries *)

(** chrono: RFC 3339 texts, and additions that fail outside its range of dates. *)
Class Chrono : Type := {
  to_rfc3339 : timestamp → string;
  parse_from_rfc3339 : string → option timestamp;
  add_days : timestamp → Z → option timestamp;
  timestamp_opt : Z → option timestamp;
}.

Definition DAY : Z := 86400 * 1000000000.

(** The times of the years 0 to 9999, in nanoseconds: those whose texts RFC 3339 has, and chrono
    reads; it prints other years with a sign and more digits. *)
Definition rfc3339_year (t : timestamp) : Prop :=
  (-62167219200 * 1000000000 ≤ t < 253402300800 * 1000000000)%Z.

Class ChronoLaws `{Chrono} : Prop := {
  rfc3339_parse : ∀ t, rfc3339_year t → parse_from_rfc3339 (to_rfc3339 t) = Some t;
  rfc3339_inj : ∀ t t', to_rfc3339 t = to_rfc3339 t' → t = t';
  add_days_exact : ∀ t d t', add_days t d = Some t' → t' = (t + d * DAY)%Z;
}.

(** SHA-256 of a token in hex; Argon2 of a passphrase. *)
Class TokenHash : Type := {
  hash_token : string → string;
  hash_password : string → string → result string string;
  (** the stored hash does not parse, or does (not) match *)
  verify_password : string → string → result bool string;
}.

(** A stored hash matches the passphrase it was made from. *)
Class TokenHashLaws `{TokenHash} : Prop := {
  verify_hashed : ∀ salt p h, hash_password salt p = Ok h → verify_password p h = Ok true;
}.

Record JwkKey : Type := mkJwkKey {
  jk_kty : string;
  jk_kid : option string;
  jk_n : option string;
  jk_e : option string;
  jk_use : option string;
  jk_alg : option string;
}.

Inductive Audience : Type :=
| Single (s : string)
| Multiple (l : list string)
| NoAudience.

Record JwtClaims : Type := mkJwtClaims {
  jw_sub : string;
  jw_iss : string;
  jw_aud : Audience;
  jw_exp : option Z;
  jw_iat : option Z;
  jw_nbf : option Z;
}.

(** Why [jsonwebtoken::decode] refuses. *)
Inductive JwtErrorKind : Type :=
| ExpiredSignature | InvalidIssuer | InvalidAudience | ImmatureSignature | InvalidSignatureKind
| OtherKind.

Class Jsonwebtoken : Type := {
  RsaKey : Type;
  jwt_decode_header : string → result (option string) string;
  rsa_components : string → string → result RsaKey string;
  (** token, key, issuer, audience, clock; RS256 with exp and nbf checked *)
  jwt_decode_rs256 : string → RsaKey → option string → option string → timestamp →
    result JwtClaims (JwtErrorKind * string);
}.

(** What the key endpoint answers. *)
Inductive JwksAnswer : Type :=
| JwksUnreachable (e : string)
| JwksStatus (status : string)
| JwksUnparsable (e : string)
| JwksKeys (keys : list JwkKey).

(** ** What one operation reads from outside *)

Record Draw : Type := mkDraw {
  d_now : timestamp;
  d_salt : string;
  d_raw_token : string;
  d_id : uuid;
  (** why a write of auth_config or auth_tokens fails, if it does *)
  d_config_fault : option string;
  d_token_fault : option string;
  d_jwks : JwksAnswer;
}.

Definition Draws : Type := nat → Draw.

(** [AuthProvider], over the state of the world. *)
Record Provider (W : Type) : Type := mkProvider {
  pv_validate_token : string → Draws → W → result AuthIdentity AuthError * W;
  pv_generate_token : TokenRequest → Draws → W → outcome TokenResponse * W;
  pv_revoke_token : string → Draws → W → result unit AuthError * W;
  pv_list_tokens : Draws → W → result (list TokenInfo) AuthError * W;
}.
Arguments mkProvider {W}.
Arguments pv_validate_token {W}.
Arguments pv_generate_token {W}.
Arguments pv_revoke_token {W}.
Arguments pv_list_tokens {W}.

(** ** Local tokens *)

Definition DEFAULT_EXPIRY_DAYS : Z := 30.

Record StoredToken : Type := mkStoredToken {
  st_id : string;
  st_token_hash : string;
  st_created_at : timestamp;
  st_expires_at : timestamp;
}.

Record TokenState : Type := mkTokenState {
  passphrase_hash : option string;
  tokens : gmap string StoredToken;
  hash_index : gmap string string;
}.

(** The row of a token, under its id. *)
Record TokenRow : Type := mkTokenRow {
  row_token_hash : string;
  row_created_at : string;
  row_expires_at : string;
}.

Record AuthDb : Type := mkAuthDb {
  auth_tokens : gmap string TokenRow;
  auth_config : gmap string string;
}.

Record LocalTokenProvider : Type := mkLocal {
  lt_state : TokenState;
  lt_db : AuthDb;
}.

Section LocalToken.
Context `{Chrono} `{TokenHash}.

Definition load_token (now : timestamp) (id : string) (r : TokenRow) : StoredToken :=
  mkStoredToken id (row_token_hash r)
    (default now (parse_from_rfc3339 (row_created_at r)))
    (default now (parse_from_rfc3339 (row_expires_at r))).

(** The iteration order matters only where two tokens have the same hash. *)
Definition index_of (ts : gmap string StoredToken) : gmap string string :=
  map_fold (λ _ t m, <[st_token_hash t := st_id t]> m) ∅ ts.

Definition from_connection (now : timestamp) (db : AuthDb) : LocalTokenProvider :=
  let ts := map_imap (λ id r, Some (load_token now id r)) (auth_tokens db) in
  mkLocal (mkTokenState (auth_config db !! "passphrase_hash") ts (index_of ts)) db.

Definition new_local : LocalTokenProvider := from_connection 0 (mkAuthDb ∅ ∅).

Definition hash_passphrase (salt passphrase : string) : result string AuthError :=
  result_map_err (λ e, Internal ("failed to hash passphrase: " +:+ e)) (hash_password salt passphrase).

Definition verify_passphrase (passphrase hash : string) : result unit AuthError :=
  match verify_password passphrase hash with
  | Err e => Err (Internal ("invalid stored hash: " +:+ e))
  | Ok true => Ok tt
  | Ok false => Err InvalidCredentials
  end.

Definition local_validate_token (token : string) (ds : Draws) (p : LocalTokenProvider)
    : result AuthIdentity AuthError * LocalTokenProvider :=
  (let? token_id := ok_or (hash_index (lt_state p) !! hash_token token) TokenNotFound in
   let? stored := ok_or (tokens (lt_state p) !! token_id) TokenNotFound in
   if (st_expires_at stored <=? d_now (ds 0%nat))%Z then Err TokenExpired
   else Ok (mkAuthIdentity (st_id stored) None None None (st_created_at stored) (st_expires_at stored)),
   p).

(** The first call sets the passphrase, later ones must give it. *)
Definition check_passphrase (req : TokenRequest) (d : Draw) (p : LocalTokenProvider)
    : result unit AuthError * LocalTokenProvider :=
  match passphrase_hash (lt_state p) with
  | None =>
      match hash_passphrase (d_salt d) (tr_passphrase req) with
      | Err e => (Err e, p)
      | Ok h =>
          match d_config_fault d with
          | Some e => (Err (Internal ("failed to store passphrase hash: " +:+ e)), p)
          | None =>
              (Ok tt,
               mkLocal (mkTokenState (Some h) (tokens (lt_state p)) (hash_index (lt_state p)))
                 (mkAuthDb (auth_tokens (lt_db p)) (<["passphrase_hash" := h]> (auth_config (lt_db p)))))
          end
      end
  | Some h => (verify_passphrase (tr_passphrase req) h, p)
  end.

(** [INSERT INTO auth_tokens], with its primary key. *)
Definition insert_row (d : Draw) (r : TokenRow) (db : AuthDb) : result AuthDb string :=
  match d_token_fault d, auth_tokens db !! d_id d with
  | Some e, _ => Err e
  | None, Some _ => Err "UNIQUE constraint failed: auth_tokens.id"
  | None, None => Ok (mkAuthDb (<[d_id d := r]> (auth_tokens db)) (auth_config db))
  end.

Definition issue_token (d : Draw) (days : Z) (p : LocalTokenProvider)
    : outcome TokenResponse * LocalTokenProvider :=
  if (days <? 1)%Z then (Returned (Err (Internal "expires_in_days must be >= 1")), p) else
  match add_days (d_now d) days with
  | None => (Panicked, p)
  | Some expires_at =>
      let token_hash := hash_token (d_raw_token d) in
      let created := to_rfc3339 (d_now d) in
      let expires := to_rfc3339 expires_at in
      match insert_row d (mkTokenRow token_hash created expires) (lt_db p) with
      | Err e => (Returned (Err (Internal ("failed to store token: " +:+ e))), p)
      | Ok db =>
          let s := lt_state p in
          (Returned (Ok (mkTokenResponse (d_id d) (d_raw_token d) expires)),
           mkLocal (mkTokenState (passphrase_hash s)
                      (<[d_id d := mkStoredToken (d_id d) token_hash (d_now d) expires_at]> (tokens s))
                      (<[token_hash := d_id d]> (hash_index s))) db)
      end
  end.

Definition local_generate_token (req : TokenRequest) (ds : Draws) (p : LocalTokenProvider)
    : outcome TokenResponse * LocalTokenProvider :=
  match check_passphrase req (ds 0%nat) p with
  | (Err e, p1) => (Returned (Err e), p1)
  | (Ok _, p1) => issue_token (ds 0%nat) (default DEFAULT_EXPIRY_DAYS (tr_expires_in_days req)) p1
  end.

Definition local_revoke_token (token_id : string) (ds : Draws) (p : LocalTokenProvider)
    : result unit AuthError * LocalTokenProvider :=
  let s := lt_state p in
  match tokens s !! token_id with
  | None => (Err TokenNotFound, p)
  | Some removed =>
      let s' := mkTokenState (passphrase_hash s) (delete token_id (tokens s))
                  (delete (st_token_hash removed) (hash_index s)) in
      match d_token_fault (ds 0%nat) with
      | Some e => (Err (Internal ("failed to delete token: " +:+ e)), mkLocal s' (lt_db p))
      | None =>
          (Ok tt, mkLocal s' (mkAuthDb (delete token_id (auth_tokens (lt_db p))) (auth_config (lt_db p))))
      end
  end.

Definition local_list_tokens (ds : Draws) (p : LocalTokenProvider)
    : result (list TokenInfo) AuthError * LocalTokenProvider :=
  (Ok ((λ t, mkTokenInfo (st_id t) (to_rfc3339 (st_created_at t)) (to_rfc3339 (st_expires_at t))
               (st_expires_at t <=? d_now (ds 0%nat))%Z) <$> (snd <$> map_to_list (tokens (lt_state p)))),
   p).
End LocalToken.

(** ** Several providers in turn *)

Section Multi.
Context {W : Type}.

Definition later (ds : Draws) : Draws := λ k, ds (S k).

Fixpoint multi_validate (ps : list (Provider W)) (last : AuthError) (token : string) (ds : Draws)
    (w : W) : result AuthIdentity AuthError * W :=
  match ps with
  | [] => (Err last, w)
  | p :: ps' =>
      match pv_validate_token p token ds w with
      | (Ok id, w1) => (Ok id, w1)
      | (Err e, w1) => multi_validate ps' e token (later ds) w1
      end
  end.

Fixpoint multi_generate (ps : list (Provider W)) (last : AuthError) (req : TokenRequest) (ds : Draws)
    (w : W) : outcome TokenResponse * W :=
  match ps with
  | [] => (Returned (Err last), w)
  | p :: ps' =>
      match pv_generate_token p req ds w with
      | (Panicked, w1) => (Panicked, w1)
      | (Returned (Ok r), w1) => (Returned (Ok r), w1)
      | (Returned (Err e), w1) => multi_generate ps' e req (later ds) w1
      end
  end.

Fixpoint multi_revoke (ps : list (Provider W)) (last : AuthError) (token_id : string) (ds : Draws)
    (w : W) : result unit AuthError * W :=
  match ps with
  | [] => (Err last, w)
  | p :: ps' =>
      match pv_revoke_token p token_id ds w with
      | (Ok u, w1) => (Ok u, w1)
      | (Err e, w1) => multi_revoke ps' e token_id (later ds) w1
      end
  end.

Fixpoint multi_list (ps : list (Provider W)) (ds : Draws) (w : W) : list TokenInfo * W :=
  match ps with
  | [] => ([], w)
  | p :: ps' =>
      let '(r, w1) := pv_list_tokens p ds w in
      let '(rest, w2) := multi_list ps' (later ds) w1 in
      ((default [] (result_ok r) ++ rest)%list, w2)
  end.

Definition MultiAuthProvider (ps : list (Provider W)) : Provider W :=
  mkProvider (multi_validate ps TokenNotFound)
    (multi_generate ps (Internal "no providers configured"))
    (multi_revoke ps (Internal "no providers configured"))
    (λ ds w, let '(l, w1) := multi_list ps ds w in (Ok l, w1)).
End Multi.

(** ** OIDC tokens *)

Record OidcConfig : Type := mkOidcConfig {
  oc_issuer_url : string;
  oc_client_id : string;
  oc_client_secret : option string;
  oc_jwks_uri : option string;
  oc_audience : option string;
}.

Definition DEFAULT_JWKS_TTL : Z := 3600 * 1000000000.

Record JwksCache : Type := mkJwksCache {
  jx_keys : gmap string JwkKey;
  jx_last_refresh : option timestamp;
  jx_ttl : Z;
}.

Definition new_jwks_cache : JwksCache := mkJwksCache ∅ None DEFAULT_JWKS_TTL.

Record OidcProvider : Type := mkOidcProvider {
  op_config : OidcConfig;
  op_cache : JwksCache;
}.

(** The later of two keys with one id stays. *)
Fixpoint insert_keys (keys : list JwkKey) (m : gmap string JwkKey) : gmap string JwkKey :=
  match keys with
  | [] => m
  | k :: ks =>
      insert_keys ks (match jk_kid k with Some kid => <[kid := k]> m | None => m end)
  end.

Definition cache_update (keys : list JwkKey) (now : timestamp) (c : JwksCache) : JwksCache :=
  mkJwksCache (insert_keys keys ∅) (Some now) (jx_ttl c).

Definition cache_get_key (kid : string) (c : JwksCache) : option JwkKey := jx_keys c !! kid.

Definition cache_is_expired (now : timestamp) (c : JwksCache) : bool :=
  match jx_last_refresh c with
  | None => true
  | Some last => (jx_ttl c <? Z.max 0 (now - last))%Z
  end.

Inductive JwtError : Type :=
| HeaderDecode (m : string)
| Expired
| InvalidSignature
| IssuerMismatch
| AudienceMismatch
| NotYetValid
| Validation (m : string).

Definition jwt_error_text (e : JwtError) : string :=
  match e with
  | HeaderDecode m => "header decode failed: " +:+ m
  | Expired => "token expired"
  | InvalidSignature => "invalid signature"
  | IssuerMismatch => "issuer mismatch"
  | AudienceMismatch => "audience mismatch"
  | NotYetValid => "token not yet valid"
  | Validation m => "validation error: " +:+ m
  end.

Section Oidc.
Context `{Chrono} `{Jsonwebtoken}.

Definition decoding_key_from_jwk (k : JwkKey) : result RsaKey AuthError :=
  let? n := ok_or (jk_n k) (Internal "JWK missing RSA modulus (n)") in
  let? e := ok_or (jk_e k) (Internal "JWK missing RSA exponent (e)") in
  result_map_err (λ e, Internal ("failed to build RSA decoding key: " +:+ e)) (rsa_components n e).

Definition decode_error (e : JwtErrorKind * string) : JwtError :=
  match e.1 with
  | ExpiredSignature => Expired
  | InvalidIssuer => IssuerMismatch
  | InvalidAudience => AudienceMismatch
  | ImmatureSignature => NotYetValid
  | InvalidSignatureKind => InvalidSignature
  | OtherKind => Validation ("JWT validation failed: " +:+ e.2)
  end.

Definition decode_and_validate_jwt (token : string) (k : JwkKey) (issuer audience : option string)
    (now : timestamp) : result JwtClaims JwtError :=
  let? key := result_map_err (λ e, Validation (auth_error_text e)) (decoding_key_from_jwk k) in
  result_map_err decode_error (jwt_decode_rs256 token key issuer audience now).

Definition oidc_error (e : JwtError) : AuthError :=
  match e with
  | Expired => TokenExpired
  | InvalidSignature | IssuerMismatch | AudienceMismatch | NotYetValid => InvalidCredentials
  | HeaderDecode _ | Validation _ => Internal (jwt_error_text e)
  end.

Definition oidc_fetch_jwks (d : Draw) (p : OidcProvider) : result unit AuthError * OidcProvider :=
  match d_jwks d with
  | JwksUnreachable e => (Err (Internal ("JWKS fetch failed: " +:+ e)), p)
  | JwksStatus s => (Err (Internal ("JWKS endpoint returned status " +:+ s)), p)
  | JwksUnparsable e => (Err (Internal ("JWKS parse failed: " +:+ e)), p)
  | JwksKeys keys => (Ok tt, mkOidcProvider (op_config p) (cache_update keys (d_now d) (op_cache p)))
  end.

Definition get_jwk_key (kid : string) (d : Draw) (p : OidcProvider)
    : result JwkKey AuthError * OidcProvider :=
  match (if cache_is_expired (d_now d) (op_cache p) then None else cache_get_key kid (op_cache p)) with
  | Some k => (Ok k, p)
  | None =>
      match oidc_fetch_jwks d p with
      | (Err e, p1) => (Err e, p1)
      | (Ok _, p1) =>
          (ok_or (cache_get_key kid (op_cache p1))
             (Internal ("key ID '" +:+ kid +:+ "' not found in JWKS after refresh")), p1)
      end
  end.

Definition claim_time (now : timestamp) (ts : option Z) : timestamp :=
  default now (ts ≫= λ n, timestamp_opt (u64_as_i64 n)).

Definition oidc_validate_token (token : string) (ds : Draws) (p : OidcProvider)
    : result AuthIdentity AuthError * OidcProvider :=
  let d := ds 0%nat in
  match jwt_decode_header token with
  | Err _ => (Err InvalidCredentials, p)
  | Ok None => (Err InvalidCredentials, p)
  | Ok (Some kid) =>
      match get_jwk_key kid d p with
      | (Err e, p1) => (Err e, p1)
      | (Ok k, p1) =>
          (let? claims := result_map_err oidc_error
             (decode_and_validate_jwt token k (Some (oc_issuer_url (op_config p)))
                (oc_audience (op_config p)) (d_now d)) in
           Ok (mkAuthIdentity (jw_sub claims) (Some (jw_sub claims)) None None
                 (claim_time (d_now d) (jw_iat claims)) (claim_time (d_now d) (jw_exp claims))), p1)
      end
  end.
End Oidc.

(** ** Passkeys *)

Class WebauthnRs : Type := {
  Passkey : Type;
  PasskeyRegistration : Type;
  PasskeyAuthentication : Type;
  AuthenticationResult : Type;
  cred_id : Passkey → string;
  result_cred_id : AuthenticationResult → string;
  update_credential : AuthenticationResult → Passkey → Passkey;
  (** user id (whose UUID is its SHA-256), user name, credentials to exclude; the
      options for the browser and the state *)
  start_passkey_registration : string → string → option (list string) →
    result (string * PasskeyRegistration) string;
  finish_passkey_registration : string → PasskeyRegistration → result Passkey string;
  start_passkey_authentication : list Passkey → result (string * PasskeyAuthentication) string;
  finish_passkey_authentication : string → PasskeyAuthentication → result AuthenticationResult string;
}.

Record StoredPasskey `{WebauthnRs} : Type := mkStoredPasskey {
  sp_id : uuid;
  sp_user_id : string;
  sp_passkey : Passkey;
  sp_label : string;
  sp_created_at : timestamp;
  sp_last_used_at : option timestamp;
}.

Inductive WebAuthnStoreError : Type :=
| PasskeyNotFound
| PasskeyAlreadyExists
| StoreAuth (e : AuthError)
| StoreInternal (m : string).

Definition store_error_text (e : WebAuthnStoreError) : string :=
  match e with
  | PasskeyNotFound => "passkey not found"
  | PasskeyAlreadyExists => "passkey already exists"
  | StoreAuth e => auth_error_text e
  | StoreInternal m => "webauthn store error: " +:+ m
  end.

Inductive ChallengeState `{WebauthnRs} : Type :=
| Registration (s : PasskeyRegistration)
| Authentication (s : PasskeyAuthentication) (user_id : string).

Record ChallengeEntry `{WebauthnRs} : Type := mkChallenge {
  ch_state : ChallengeState;
  ch_created_at : timestamp;
}.

Record WebAuthnProvider `{WebauthnRs} : Type := mkWebAuthn {
  wa_store : gmap string (list StoredPasskey);
  wa_challenges : gmap string ChallengeEntry;
  wa_challenge_ttl : Z;
}.

Section Passkeys.
Context `{WebauthnRs} `{Chrono} `{TokenHash}.

Definition get_passkeys_for_user (user_id : string) (st : gmap string (list StoredPasskey))
    : list StoredPasskey := default [] (st !! user_id).

Definition store_passkey (user_id : string) (pk : Passkey) (label : string) (d : Draw)
    (st : gmap string (list StoredPasskey))
    : result StoredPasskey WebAuthnStoreError * gmap string (list StoredPasskey) :=
  let own := get_passkeys_for_user user_id st in
  if existsb (λ e, bool_decide (cred_id (sp_passkey e) = cred_id pk)) own
  then (Err PasskeyAlreadyExists, <[user_id := own]> st)
  else
    let stored := mkStoredPasskey _ (d_id d) user_id pk label (d_now d) None in
    (Ok stored, <[user_id := (own ++ [stored])%list]> st).

(** The first user, in the map's order, that has the passkey. *)
Definition owner_of (id : uuid) (st : gmap string (list StoredPasskey)) : option (string * list StoredPasskey) :=
  snd <$> list_find (λ e, existsb (λ pk, bool_decide (sp_id pk = id)) e.2 = true) (map_to_list st).

Definition get_passkey_by_id (id : uuid) (st : gmap string (list StoredPasskey))
    : result StoredPasskey WebAuthnStoreError :=
  ok_or (e ← owner_of id st; snd <$> list_find (λ pk, sp_id pk = id) e.2) PasskeyNotFound.

Definition used (r : AuthenticationResult) (now : timestamp) (pk : StoredPasskey) : StoredPasskey :=
  mkStoredPasskey _ (sp_id pk) (sp_user_id pk) (update_credential r (sp_passkey pk)) (sp_label pk)
    (sp_created_at pk) (Some now).

Fixpoint update_first (id : uuid) (f : StoredPasskey → StoredPasskey) (l : list StoredPasskey)
    : list StoredPasskey :=
  match l with
  | [] => []
  | pk :: l' => if bool_decide (sp_id pk = id) then f pk :: l' else pk :: update_first id f l'
  end.

Definition update_passkey_counter (id : uuid) (r : AuthenticationResult) (now : timestamp)
    (st : gmap string (list StoredPasskey))
    : result unit WebAuthnStoreError * gmap string (list StoredPasskey) :=
  match owner_of id st with
  | None => (Err PasskeyNotFound, st)
  | Some (u, l) => (Ok tt, <[u := update_first id (used r now) l]> st)
  end.

Definition remove_passkey (id : uuid) (st : gmap string (list StoredPasskey))
    : result unit WebAuthnStoreError * gmap string (list StoredPasskey) :=
  match owner_of id st with
  | None => (Err PasskeyNotFound, st)
  | Some (u, l) => (Ok tt, <[u := filter (λ pk, sp_id pk ≠ id) l]> st)
  end.

Definition set_challenges (c : gmap string ChallengeEntry) (p : WebAuthnProvider) : WebAuthnProvider :=
  mkWebAuthn _ (wa_store p) c (wa_challenge_ttl p).
Definition set_store (st : gmap string (list StoredPasskey)) (p : WebAuthnProvider) : WebAuthnProvider :=
  mkWebAuthn _ st (wa_challenges p) (wa_challenge_ttl p).

Definition add_challenge (s : ChallengeState) (d : Draw) (p : WebAuthnProvider) : WebAuthnProvider :=
  set_challenges (<[d_id d := mkChallenge _ s (d_now d)]> (wa_challenges p)) p.

Definition start_registration (user_id user_name : string) (d : Draw) (p : WebAuthnProvider)
    : result (string * string) AuthError * WebAuthnProvider :=
  let exclude := match (λ pk, cred_id (sp_passkey pk)) <$> get_passkeys_for_user user_id (wa_store p) with
                 | [] => None
                 | l => Some l
                 end in
  match start_passkey_registration user_id user_name exclude with
  | Err e => (Err (Internal ("start_passkey_registration failed: " +:+ e)), p)
  | Ok (options, s) => (Ok (d_id d, options), add_challenge (Registration s) d p)
  end.

(** Taking a challenge out, with its age checked. *)
Definition take_challenge (challenge_id : string) (now : timestamp) (p : WebAuthnProvider)
    : result ChallengeState AuthError * WebAuthnProvider :=
  match wa_challenges p !! challenge_id with
  | None => (Err (Internal "challenge not found or expired"), p)
  | Some e =>
      let p1 := set_challenges (delete challenge_id (wa_challenges p)) p in
      if (wa_challenge_ttl p <? Z.max 0 (now - ch_created_at e))%Z
      then (Err (Internal "challenge expired"), p1) else (Ok (ch_state e), p1)
  end.

Definition finish_registration (challenge_id user_id label response : string) (d : Draw)
    (p : WebAuthnProvider) : result StoredPasskey AuthError * WebAuthnProvider :=
  match take_challenge challenge_id (d_now d) p with
  | (Err e, p1) => (Err e, p1)
  | (Ok (Authentication _ _), p1) =>
      (Err (Internal "challenge ID belongs to an authentication ceremony, not registration"), p1)
  | (Ok (Registration s), p1) =>
      match finish_passkey_registration response s with
      | Err e => (Err (Internal ("finish_passkey_registration failed: " +:+ e)), p1)
      | Ok pk =>
          let '(r, st) := store_passkey user_id pk label d (wa_store p1) in
          (result_map_err (λ e,
             match e with
             | PasskeyAlreadyExists => Internal "passkey already registered"
             | other => Internal ("store_passkey failed: " +:+ store_error_text other)
             end) r, set_store st p1)
      end
  end.

Definition start_authentication (user_id : string) (d : Draw) (p : WebAuthnProvider)
    : result (string * string) AuthError * WebAuthnProvider :=
  match get_passkeys_for_user user_id (wa_store p) with
  | [] => (Err (Internal "no passkeys registered for this user"), p)
  | pks =>
      match start_passkey_authentication (sp_passkey <$> pks) with
      | Err e => (Err (Internal ("start_passkey_authentication failed: " +:+ e)), p)
      | Ok (options, s) => (Ok (d_id d, options), add_challenge (Authentication s user_id) d p)
      end
  end.

(** Writing the counter of the passkey that was used; failures are only logged. *)
Definition count_use (user_id : string) (r : AuthenticationResult) (now : timestamp)
    (p : WebAuthnProvider) : WebAuthnProvider :=
  match list_find (λ pk, cred_id (sp_passkey pk) = result_cred_id r)
          (get_passkeys_for_user user_id (wa_store p)) with
  | None => p
  | Some (_, pk) => set_store (update_passkey_counter (sp_id pk) r now (wa_store p)).2 p
  end.

(** The id of the second draw is the random passphrase; the local provider that issues
    the token uses the draws after it. *)
Definition finish_authentication (challenge_id response : string) (ds : Draws)
    (s : WebAuthnProvider * LocalTokenProvider)
    : outcome TokenResponse * (WebAuthnProvider * LocalTokenProvider) :=
  let '(p, local) := s in
  match take_challenge challenge_id (d_now (ds 0%nat)) p with
  | (Err e, p1) => (Returned (Err e), (p1, local))
  | (Ok (Registration _), p1) =>
      (Returned (Err (Internal "challenge ID belongs to a registration ceremony, not authentication")),
       (p1, local))
  | (Ok (Authentication a user_id), p1) =>
      match finish_passkey_authentication response a with
      | Err e => (Returned (Err (Internal ("finish_passkey_authentication failed: " +:+ e))), (p1, local))
      | Ok r =>
          let p2 := count_use user_id r (d_now (ds 0%nat)) p1 in
          let random_passphrase := d_id (ds 1%nat) in
          match local_generate_token (mkTokenRequest random_passphrase (Some 30%Z)) (later (later ds)) local with
          | (Returned (Ok t), local1) => (Returned (Ok t), (p2, local1))
          | (Returned (Err e), local1) =>
              (Returned (Err (Internal ("failed to generate session token: " +:+ auth_error_text e))),
               (p2, local1))
          | (Panicked, local1) => (Panicked, (p2, local1))
          end
      end
  end.

Definition cleanup_expired_challenges (now : timestamp) (p : WebAuthnProvider) : WebAuthnProvider :=
  set_challenges
    (filter (λ e, (Z.max 0 (now - ch_created_at e.2) ≤ wa_challenge_ttl p)%Z) (wa_challenges p)) p.

Definition webauthn_remove_passkey (id : uuid) (p : WebAuthnProvider)
    : result unit AuthError * WebAuthnProvider :=
  let '(r, st) := remove_passkey id (wa_store p) in
  (result_map_err (λ e,
     match e with
     | PasskeyNotFound => Internal "passkey not found"
     | other => Internal ("remove_passkey failed: " +:+ store_error_text other)
     end) r, set_store st p).
End Passkeys.

(** ** The active provider *)

Section Build.
Context `{WebauthnRs} `{Chrono} `{TokenHash} `{Jsonwebtoken}.

(** What the providers of one process hold. *)
Record World : Type := mkWorld {
  w_local : LocalTokenProvider;
  w_oidc : option OidcProvider;
  w_webauthn : option WebAuthnProvider;
}.

(** An operation of the local provider, as one on the world. *)
Definition on_local {A} (op : LocalTokenProvider → A * LocalTokenProvider) (w : World) : A * World :=
  let '(a, p) := op (w_local w) in (a, mkWorld p (w_oidc w) (w_webauthn w)).

Definition local_provider : Provider World :=
  mkProvider (λ token ds, on_local (local_validate_token token ds))
    (λ req ds, on_local (local_generate_token req ds))
    (λ id ds, on_local (local_revoke_token id ds))
    (λ ds, on_local (local_list_tokens ds)).

Definition oidc_provider : Provider World :=
  mkProvider
    (λ token ds w,
       match w_oidc w with
       | None => (Err TokenNotFound, w)
       | Some p => let '(r, p1) := oidc_validate_token token ds p in (r, mkWorld (w_local w) (Some p1) (w_webauthn w))
       end)
    (λ _ _ w, (Returned (Err (Internal
       "OIDC provider does not support direct token generation; use /api/auth/login")), w))
    (λ _ _ w, (Err (Internal "OIDC provider does not support token revocation"), w))
    (λ _ w, (Err (Internal "OIDC provider does not support token listing"), w)).

Definition webauthn_provider : Provider World :=
  mkProvider
    (λ _ _ w, (Err (Internal
       "WebAuthn does not validate bearer tokens directly; use the local-token provider"), w))
    (λ _ _ w, (Returned (Err (Internal "WebAuthn uses ceremony endpoints, not generate_token")), w))
    (λ _ _ w, (Err (Internal "WebAuthn does not manage bearer tokens"), w))
    (λ _ w, (Ok [], w)).

(** [local] is the local provider, opened from its file or in memory; [webauthn_config]
    is the challenge lifetime, or why the relying party cannot be built. *)
Definition build_auth_provider (name : string) (oidc_config : option OidcConfig)
    (webauthn_config : option (result Z AuthError)) (local : LocalTokenProvider)
    : Provider World * World :=
  if bool_decide (name = "oidc") then
    match oidc_config with
    | Some config =>
        (MultiAuthProvider [oidc_provider; local_provider],
         mkWorld local (Some (mkOidcProvider config new_jwks_cache)) None)
    | None => (local_provider, mkWorld local None None)
    end
  else if bool_decide (name = "webauthn") then
    match webauthn_config with
    | Some (Ok ttl) =>
        (MultiAuthProvider [local_provider; webauthn_provider],
         mkWorld local None (Some (mkWebAuthn _ ∅ ∅ ttl)))
    | Some (Err _) => (local_provider, mkWorld local None None)
    | None => (local_provider, mkWorld local None None)
    end
  else (local_provider, mkWorld local None None).
End Build.

(** ** The middleware *)

Definition MAX_FAILURES : nat := 5.
Definition WINDOW : Z := 60 * 1000000000.
Definition CLEANUP_INTERVAL : Z := 100.

Record MwLimiter : Type := mkMwLimiter {
  mw_failures : gmap string (list timestamp);
  mw_op_count : Z;
}.

Definition new_mw_limiter : MwLimiter := mkMwLimiter ∅ 0.

(** [*t > cutoff] with the cutoff a window before [now]. *)
Definition fresh (now t : timestamp) : bool := (now - WINDOW <? t)%Z.

Definition retain (now : timestamp) (l : list timestamp) : list timestamp :=
  filter (λ t, fresh now t = true) l.

Definition maybe_cleanup (now : timestamp) (l : MwLimiter) : MwLimiter :=
  let count := mw_op_count l in
  let next := ((count + 1) mod 2 ^ 64)%Z in
  if negb (count mod CLEANUP_INTERVAL =? 0)%Z then mkMwLimiter (mw_failures l) next
  else mkMwLimiter
         (omap (λ a, match retain now a with [] => None | a' => Some a' end) (mw_failures l)) next.

(** The time pushed, then the time of the cleanup. *)
Definition mw_record_failure (ip : string) (t1 t2 : timestamp) (l : MwLimiter) : MwLimiter :=
  maybe_cleanup t2
    (mkMwLimiter (<[ip := (default [] (mw_failures l !! ip) ++ [t1])%list]> (mw_failures l)) (mw_op_count l)).

Definition mw_is_rate_limited (ip : string) (t1 t2 : timestamp) (l : MwLimiter) : bool * MwLimiter :=
  let l1 := maybe_cleanup t1 l in
  match mw_failures l1 !! ip with
  | None => (false, l1)
  | Some a =>
      let a' := retain t2 a in
      ((MAX_FAILURES <=? length a')%nat, mkMwLimiter (<[ip := a']> (mw_failures l1)) (mw_op_count l1))
  end.

Record MwRequest : Type := mkMwRequest {
  rq_path : string;
  rq_method : string;
  rq_x_forwarded_for : option string;
  rq_peer : option string;
  rq_authorization : option string;
}.

Inductive BusEvent : Type :=
| AuthSuccess (identity_subject method : string)
| AuthFailure (client_ip reason : string).

Inductive MwAnswer : Type :=
| Forwarded (identity : option AuthIdentity)
| Refused (status : Z) (code : string).

(** The clock at each of the limiter's readings. *)
Record MwClock : Type := mkMwClock {
  ck_check1 : timestamp;
  ck_check2 : timestamp;
  ck_push : timestamp;
  ck_clean : timestamp;
}.

Record MwState (W : Type) : Type := mkMwState {
  mw_world : W;
  mw_limiter : MwLimiter;
  mw_bus : option (list BusEvent);
}.
Arguments mkMwState {W}.
Arguments mw_world {W}.
Arguments mw_limiter {W}.
Arguments mw_bus {W}.

Definition PUBLIC_POST : list string :=
  ["/api/auth/login"; "/api/auth/refresh"; "/api/auth/register";
   "/api/auth/webauthn/authenticate/start"; "/api/auth/webauthn/authenticate/finish"].

Definition is_public (path method : string) : bool :=
  bool_decide (path = "/api/system/health")
  || bool_decide (path = "/api/storage/init") && bool_decide (method = "POST")
  || bool_decide (path = "/api/auth/token") && bool_decide (method = "POST")
  || bool_decide (path ∈ PUBLIC_POST) && bool_decide (method = "POST")
  || bool_decide (path = "/api/auth/.well-known/openid-configuration") && bool_decide (method = "GET").

Definition extract_bearer_token (rq : MwRequest) : option string :=
  header ← rq_authorization rq;
  stripped ← strip_prefix "Bearer " header;
  if is_empty stripped then None else Some stripped.

Section Middleware.
Context {W : Type} (parse_ip : string → option string) (provider : Provider W).

(** The text before the first comma, if it is an address; else the peer. *)
Definition client_ip (rq : MwRequest) : string :=
  let forwarded := v ← rq_x_forwarded_for rq;
                   s ← head (split ","%char v);
                   parse_ip (trim s) in
  match forwarded with
  | Some ip => ip
  | None => default "0.0.0.0" (rq_peer rq)
  end.

Definition publish (e : BusEvent) (s : MwState W) : MwState W :=
  mkMwState (mw_world s) (mw_limiter s) ((λ l, (l ++ [e])%list) <$> mw_bus s).

Definition set_limiter (l : MwLimiter) (s : MwState W) : MwState W :=
  mkMwState (mw_world s) l (mw_bus s).

(** How a refused token is answered, and what it leaves. *)
Definition refuse (ip : string) (e : AuthError) (ck : MwClock) (s : MwState W) : MwAnswer * MwState W :=
  let counted := set_limiter (mw_record_failure ip (ck_push ck) (ck_clean ck) (mw_limiter s)) s in
  match e with
  | TokenExpired => (Refused 401 "AUTH_TOKEN_EXPIRED", publish (AuthFailure ip "token_expired") counted)
  | TokenNotFound | InvalidCredentials =>
      (Refused 401 "AUTH_INVALID_TOKEN", publish (AuthFailure ip "invalid_token") counted)
  | _ =>
      (Refused 500 "AUTH_INTERNAL_ERROR",
       publish (AuthFailure ip ("internal_error: " +:+ auth_error_text e)) s)
  end.

Definition auth_middleware (rq : MwRequest) (ck : MwClock) (ds : Draws) (s : MwState W)
    : MwAnswer * MwState W :=
  if is_public (rq_path rq) (rq_method rq) then (Forwarded None, s) else
  let ip := client_ip rq in
  let '(limited, l1) := mw_is_rate_limited ip (ck_check1 ck) (ck_check2 ck) (mw_limiter s) in
  let s1 := set_limiter l1 s in
  if (limited : bool) then (Refused 429 "AUTH_RATE_LIMITED", s1) else
  match extract_bearer_token rq with
  | None => (Refused 401 "AUTH_MISSING_TOKEN", s1)
  | Some token =>
      let '(r, w1) := pv_validate_token provider token ds (mw_world s1) in
      let s2 := mkMwState w1 (mw_limiter s1) (mw_bus s1) in
      match r with
      | Ok identity =>
          (Forwarded (Some identity), publish (AuthSuccess (id_token_id identity) "bearer_token") s2)
      | Err e => refuse ip e ck s2
      end
  end.
End Middleware.
