(* ===== verification/SessionsFacts.v ===== *)
(** * Facts about sessions

    A local token lives from its issue to its expiry or revocation, across restarts;
    the middleware's limiter counts exactly the failures of the last minute; which
    deployments count refused tokens; what a passkey login needs. *)

From stdpp Require Import base tactics list strings gmap.
From Stdlib Require Import Ascii ZArith Lia.
From S2P Require Import Prelude RustString Types Household Sessions.

(** ** The cache mirrors the database *)

Section Tokens.
Context `{ChronoLaws} `{TokenHash}.

Definition row_of (t : StoredToken) : TokenRow :=
  mkTokenRow (st_token_hash t) (to_rfc3339 (st_created_at t)) (to_rfc3339 (st_expires_at t)).

(** Times that the texts of the database keep. *)
Definition readable_times (t : StoredToken) : Prop :=
  rfc3339_year (st_created_at t) ∧ rfc3339_year (st_expires_at t).

Record coherent (p : LocalTokenProvider) : Prop := {
  co_rows : auth_tokens (lt_db p) = row_of <$> tokens (lt_state p);
  co_ids : ∀ id t, tokens (lt_state p) !! id = Some t → st_id t = id;
  co_index : ∀ h id, hash_index (lt_state p) !! h = Some id ↔
    ∃ t, tokens (lt_state p) !! id = Some t ∧ st_token_hash t = h;
  co_times : ∀ id t, tokens (lt_state p) !! id = Some t → readable_times t;
  co_passphrase : passphrase_hash (lt_state p) = auth_config (lt_db p) !! "passphrase_hash"%string;
}.

Lemma load_row now id t : st_id t = id → readable_times t → load_token now id (row_of t) = t.
Proof. intros <- [Hc He]. destruct t. unfold load_token. simpl in *. by rewrite !rfc3339_parse. Qed.

Lemma index_of_sound ts h id :
  (∀ id t, ts !! id = Some t → st_id t = id) →
  index_of ts !! h = Some id → ∃ t, ts !! id = Some t ∧ st_token_hash t = h.
Proof.
  unfold index_of. revert h id. apply (map_fold_weak_ind (λ m ts, ∀ h id,
    (∀ id t, ts !! id = Some t → st_id t = id) → m !! h = Some id →
    ∃ t, ts !! id = Some t ∧ st_token_hash t = h)).
  { intros h id _ Hm. by rewrite lookup_empty in Hm. }
  intros i t ts' m Hi IH h id Hids Hm.
  destruct (decide (st_token_hash t = h)) as [<-|Hne].
  - rewrite lookup_insert_eq in Hm. simplify_eq. exists t.
    by rewrite (Hids i t), lookup_insert_eq by apply lookup_insert_eq.
  - rewrite lookup_insert_ne in Hm by done. destruct (IH h id) as (t' & Ht' & Hh); [|done|].
    + intros id' t' Ht'. apply Hids. rewrite lookup_insert_ne; [done|]. by intros ->; simplify_map_eq.
    + exists t'. split; [|done]. rewrite lookup_insert_ne; [done|]. by intros ->; simplify_map_eq.
Qed.

Lemma index_of_complete ts h id t :
  ts !! id = Some t → st_token_hash t = h → is_Some (index_of ts !! h).
Proof.
  unfold index_of. revert h id t. apply (map_fold_weak_ind (λ m ts, ∀ h id t,
    ts !! id = Some t → st_token_hash t = h → is_Some (m !! h))).
  { intros h id t Ht. by rewrite lookup_empty in Ht. }
  intros i t ts' m Hi IH h id t' Ht' Hh.
  destruct (decide (st_token_hash t = h)) as [->|Hne]; [by rewrite lookup_insert_eq|].
  rewrite lookup_insert_ne by done.
  destruct (decide (i = id)) as [->|Hid]; simplify_map_eq. by eapply IH.
Qed.

(** Loading the database again gives the state that was there. *)
Lemma restart_same now p : coherent p → from_connection now (lt_db p) = p.
Proof.
  intros [Hrows Hids Hidx Htimes Hpass]. unfold from_connection.
  assert (map_imap (λ id r, Some (load_token now id r)) (auth_tokens (lt_db p)) = tokens (lt_state p)) as ->.
  { apply map_eq. intros id. rewrite map_lookup_imap, Hrows, lookup_fmap.
    destruct (tokens (lt_state p) !! id) as [t|] eqn:E; [|done]. simpl. by rewrite load_row by eauto. }
  assert (index_of (tokens (lt_state p)) = hash_index (lt_state p)) as ->.
  { apply map_eq. intros h. destruct (index_of (tokens (lt_state p)) !! h) as [id|] eqn:E.
    - symmetry. apply Hidx. by apply index_of_sound.
    - destruct (hash_index (lt_state p) !! h) as [id|] eqn:E'; [|done].
      apply Hidx in E' as (t & Ht & Hh). edestruct index_of_complete as [? ?]; [done|done|congruence]. }
  rewrite <- Hpass. by destruct p as [[] ?].
Qed.

(** ** Runs *)

Inductive TokenOp : Type :=
| OpGenerate (req : TokenRequest) (d : Draw)
| OpRevoke (id : string) (d : Draw)
| OpRestart (now : timestamp).

Definition only (d : Draw) : Draws := λ _, d.

Definition token_step (p : LocalTokenProvider) (o : TokenOp) : LocalTokenProvider :=
  match o with
  | OpGenerate req d => (local_generate_token req (only d) p).2
  | OpRevoke id d => (local_revoke_token id (only d) p).2
  | OpRestart now => from_connection now (lt_db p)
  end.

Definition run_tokens (ops : list TokenOp) (p : LocalTokenProvider) : LocalTokenProvider :=
  foldl token_step p ops.

(** The hashes of the random tokens drawn, and the ids that are revoked. *)
Definition op_hash (o : TokenOp) : option string :=
  match o with OpGenerate _ d => Some (hash_token (d_raw_token d)) | _ => None end.
Definition op_revoked (o : TokenOp) : option string :=
  match o with OpRevoke id _ => Some id | _ => None end.

Definition days_of (req : TokenRequest) : Z := default DEFAULT_EXPIRY_DAYS (tr_expires_in_days req).

(** The database does not fail to delete a row, and tokens are issued and expire in the years
    0 to 9999. *)
Definition deletes (o : TokenOp) : Prop :=
  match o with
  | OpRevoke _ d => d_token_fault d = None
  | OpGenerate req d => rfc3339_year (d_now d) ∧ rfc3339_year (d_now d + days_of req * DAY)
  | OpRestart _ => True
  end.

(** What a request to generate does: nothing to the tokens, or one new token. *)
Inductive generated (req : TokenRequest) (d : Draw) (p p' : LocalTokenProvider)
    : outcome TokenResponse → Prop :=
| generated_none r :
    tokens (lt_state p') = tokens (lt_state p) → hash_index (lt_state p') = hash_index (lt_state p) →
    auth_tokens (lt_db p') = auth_tokens (lt_db p) → (∀ t, r ≠ Returned (Ok t)) →
    generated req d p p' r
| generated_one exp :
    exp = (d_now d + days_of req * DAY)%Z →
    auth_tokens (lt_db p) !! d_id d = None →
    (let t := mkStoredToken (d_id d) (hash_token (d_raw_token d)) (d_now d) exp in
     tokens (lt_state p') = <[d_id d := t]> (tokens (lt_state p)) ∧
     hash_index (lt_state p') = <[st_token_hash t := d_id d]> (hash_index (lt_state p)) ∧
     auth_tokens (lt_db p') = <[d_id d := row_of t]> (auth_tokens (lt_db p))) →
    generated req d p p' (Returned (Ok (mkTokenResponse (d_id d) (d_raw_token d) (to_rfc3339 exp)))).

Lemma check_passphrase_spec req d p r p' :
  check_passphrase req d p = (r, p') →
  tokens (lt_state p') = tokens (lt_state p) ∧ hash_index (lt_state p') = hash_index (lt_state p) ∧
  auth_tokens (lt_db p') = auth_tokens (lt_db p) ∧
  (passphrase_hash (lt_state p) = auth_config (lt_db p) !! "passphrase_hash"%string →
   passphrase_hash (lt_state p') = auth_config (lt_db p') !! "passphrase_hash"%string).
Proof.
  unfold check_passphrase. intros Hc. repeat case_match; simplify_eq; split_and!; try done; try congruence.
  intros _. cbn -[lookup insert]. by rewrite lookup_insert_eq.
Qed.

Lemma generate_spec req d p r p' :
  local_generate_token req (only d) p = (r, p') →
  generated req d p p' r ∧
  (passphrase_hash (lt_state p) = auth_config (lt_db p) !! "passphrase_hash"%string →
   passphrase_hash (lt_state p') = auth_config (lt_db p') !! "passphrase_hash"%string).
Proof.
  unfold local_generate_token, only. intros Hg.
  destruct (check_passphrase req d p) as [[] p1] eqn:Ec;
    apply check_passphrase_spec in Ec as (Ht & Hi & Hd & Hp); simplify_eq.
  2: { split; [by apply generated_none|done]. }
  unfold issue_token in Hg. destruct (default _ _ <? 1)%Z; simplify_eq.
  { split; [by apply generated_none|done]. }
  destruct (add_days (d_now d) _) as [exp|] eqn:Ea; simplify_eq.
  2: { split; [by apply generated_none|done]. }
  apply add_days_exact in Ea.
  unfold insert_row in Hg. destruct (d_token_fault d); simplify_eq.
  { split; [by apply generated_none|done]. }
  destruct (auth_tokens (lt_db p1) !! d_id d) eqn:Ed; simplify_eq.
  { split; [by apply generated_none|done]. }
  split; [|done]. apply generated_one; [done|congruence|]. simpl. rewrite Ht, Hi, Hd. done.
Qed.

Lemma new_token_spec (d : Draw) p p' (t : StoredToken) :
  coherent p → st_id t = d_id d → readable_times t → hash_index (lt_state p) !! st_token_hash t = None →
  auth_tokens (lt_db p) !! d_id d = None →
  tokens (lt_state p') = <[d_id d := t]> (tokens (lt_state p)) →
  hash_index (lt_state p') = <[st_token_hash t := d_id d]> (hash_index (lt_state p)) →
  auth_tokens (lt_db p') = <[d_id d := row_of t]> (auth_tokens (lt_db p)) →
  passphrase_hash (lt_state p') = auth_config (lt_db p') !! "passphrase_hash"%string →
  coherent p'.
Proof.
  intros [Hrows Hids Hidx Htimes _] Hid Htt Hh Hd Ht Hi Hdb Hpass. split; [|..|done].
  - by rewrite Hdb, Ht, fmap_insert, Hrows.
  - intros id t'. rewrite Ht. destruct (decide (id = d_id d)) as [->|Hne].
    + rewrite lookup_insert_eq. intros. by simplify_eq.
    + rewrite lookup_insert_ne by done. apply Hids.
  - assert (tokens (lt_state p) !! d_id d = None) as Hnone.
    { rewrite Hrows, lookup_fmap in Hd. by destruct (tokens (lt_state p) !! d_id d). }
    intros h id. rewrite Hi, Ht. destruct (decide (st_token_hash t = h)) as [<-|Hne].
    + rewrite lookup_insert_eq. split.
      * intros ?; simplify_eq. exists t. by rewrite lookup_insert_eq.
      * intros (t' & Ht' & Hh'). destruct (decide (id = d_id d)) as [->|Hne]; [done|].
        rewrite lookup_insert_ne in Ht' by done.
        assert (hash_index (lt_state p) !! st_token_hash t = Some id) by (apply Hidx; eauto). congruence.
    + rewrite lookup_insert_ne by done. rewrite Hidx. split; intros (t' & Ht' & Hh'); exists t';
        (split; [|done]); destruct (decide (id = d_id d)) as [->|Hid']; simplify_map_eq; done.
  - intros id t'. rewrite Ht. intros [[<- <-]|[_ ?]]%lookup_insert_Some; eauto.
Qed.

Lemma revoke_coherent id d p :
  coherent p → d_token_fault d = None → coherent (local_revoke_token id (only d) p).2.
Proof.
  intros Hco Hf. unfold local_revoke_token, only. rewrite Hf.
  destruct (tokens (lt_state p) !! id) as [t|] eqn:E; [|done]. destruct Hco as [Hrows Hids Hidx Htimes Hpass].
  split; simpl; [|..|done].
  - by rewrite Hrows, fmap_delete.
  - intros id' t' [_ Ht']%lookup_delete_Some. by apply Hids.
  - intros h id'. rewrite lookup_delete_Some, Hidx. setoid_rewrite lookup_delete_Some. split.
    + intros (Hne & t' & Ht' & Hh). exists t'. split; [|done]. split; [|done]. intros <-. congruence.
    + intros (t' & [Hne Ht'] & Hh). split; [|eauto]. intros Heq.
      assert (hash_index (lt_state p) !! h = Some id) by (apply Hidx; exists t; split; congruence).
      assert (hash_index (lt_state p) !! h = Some id') by (apply Hidx; exists t'; split; congruence). congruence.
  - intros id' t' [_ Ht']%lookup_delete_Some. by eapply Htimes.
Qed.

(** ** Along a run *)

(** The token with this hash, if there is one. *)
Definition live (h : string) (p : LocalTokenProvider) : option StoredToken :=
  id ← hash_index (lt_state p) !! h; tokens (lt_state p) !! id.

Definition identity_of (t : StoredToken) : AuthIdentity :=
  mkAuthIdentity (st_id t) None None None (st_created_at t) (st_expires_at t).

Lemma validate_live token ds p :
  (local_validate_token token ds p).1 =
    match live (hash_token token) p with
    | None => Err TokenNotFound
    | Some t => if (st_expires_at t <=? d_now (ds 0%nat))%Z then Err TokenExpired else Ok (identity_of t)
    end.
Proof.
  unfold local_validate_token, live. simpl.
  destruct (hash_index (lt_state p) !! _) as [id|]; [|done]. simpl.
  by destruct (tokens (lt_state p) !! id).
Qed.

(** Coherent, with no hash but those drawn so far. *)
Definition inv (past : list string) (p : LocalTokenProvider) : Prop :=
  coherent p ∧ ∀ h, is_Some (hash_index (lt_state p) !! h) → h ∈ past.

(** How one operation changes the token of a hash. *)
Definition live_after (h : string) (p : LocalTokenProvider) (o : TokenOp) (t' : option StoredToken) : Prop :=
  match o with
  | OpRestart _ => t' = live h p
  | OpRevoke id _ => t' = (t ← live h p; if decide (st_id t = id) then None else Some t)
  | OpGenerate req d =>
      ((∀ t, (local_generate_token req (only d) p).1 ≠ Returned (Ok t)) ∧ t' = live h p) ∨
      ∃ exp, (local_generate_token req (only d) p).1 =
               Returned (Ok (mkTokenResponse (d_id d) (d_raw_token d) (to_rfc3339 exp))) ∧
             t' = if decide (hash_token (d_raw_token d) = h)
                  then Some (mkStoredToken (d_id d) (hash_token (d_raw_token d)) (d_now d) exp)
                  else live h p
  end.

Lemma revoke_live id d p h :
  coherent p → d_token_fault d = None →
  live h (local_revoke_token id (only d) p).2 =
    (t ← live h p; if decide (st_id t = id) then None else Some t).
Proof.
  intros [_ Hids Hidx _ _] Hf. unfold local_revoke_token, only, live. rewrite Hf.
  destruct (tokens (lt_state p) !! id) as [t|] eqn:E; simpl.
  - destruct (hash_index (lt_state p) !! h) as [id'|] eqn:Eh; simpl.
    2: { rewrite (proj2 (lookup_delete_None _ _ _)); [done|]. by right. }
    apply Hidx in Eh as (t' & Ht' & Hh). rewrite Ht'. simpl. rewrite (Hids _ _ Ht').
    case_decide as Hid.
    + subst id'. assert (t = t') as -> by congruence. by rewrite Hh, lookup_delete_eq.
    + rewrite lookup_delete_ne, (proj2 (Hidx h id')); simpl; [|eauto|].
      * by rewrite lookup_delete_ne.
      * intros Heq. assert (hash_index (lt_state p) !! h = Some id) by (apply Hidx; eauto).
        assert (hash_index (lt_state p) !! h = Some id') by (apply Hidx; eauto). congruence.
  - destruct (hash_index (lt_state p) !! h) as [id'|] eqn:Eh; simpl; [|done].
    destruct (tokens (lt_state p) !! id') as [t'|] eqn:Et; simpl; [|done].
    rewrite (Hids _ _ Et), decide_False; [done|]. by intros ->; congruence.
Qed.

Lemma token_step_inv past p o :
  inv past p → deletes o → (∀ h, op_hash o = Some h → h ∉ past) →
  inv (past ++ option_list (op_hash o)) (token_step p o) ∧ ∀ h, live_after h p o (live h (token_step p o)).
Proof.
  intros [Hco Hpast] Hdel Hnew. destruct o as [req d|id d|now]; simpl in *.
  - destruct (local_generate_token req (only d) p) as [r p'] eqn:E.
    apply generate_spec in E as [Hg Hp]. specialize (Hp (co_passphrase _ Hco)). simpl.
    destruct Hg as [r Ht Hi Hd Hr|exp Hexp Hnone (Ht & Hi & Hd)].
    + split; [split|].
      * destruct Hco as [Hrows Hids Hidx Htimes _]. split; [|..|done]; rewrite ?Ht, ?Hi, ?Hd; done.
      * rewrite Hi. intros h Hh. apply elem_of_app. left. by apply Hpast.
      * intros h. left. split; [done|]. unfold live. by rewrite Hi, Ht.
    + split; [split|].
      * eapply new_token_spec; [done| | |..|done|exact Hi|done|done]; [done|by subst exp| |done]. simpl.
        apply eq_None_not_Some. intros Hs%Hpast. by apply (Hnew _ eq_refl).
      * rewrite Hi. simpl. intros h. rewrite elem_of_app, list_elem_of_singleton.
        rewrite lookup_insert_is_Some'. naive_solver.
      * intros h. right. exists exp. split; [done|]. unfold live. rewrite Hi, Ht. simpl.
        case_decide as Hh; [subst h; by rewrite lookup_insert_eq; simpl; rewrite lookup_insert_eq|].
        rewrite lookup_insert_ne by done.
        destruct (hash_index (lt_state p) !! h) as [id|] eqn:Eh; [|done]. simpl.
        apply (co_index _ Hco) in Eh as (t & Et & _). rewrite lookup_insert_ne; [done|].
        intros <-. rewrite (co_rows _ Hco), lookup_fmap, Et in Hnone. done.
  - split; [split|].
    + by apply revoke_coherent.
    + rewrite app_nil_r. intros h Hh. apply Hpast. revert Hh.
      unfold local_revoke_token, only. rewrite Hdel. destruct (tokens (lt_state p) !! id); [|done]. simpl.
      intros [x [_ Hx]%lookup_delete_Some]. by exists x.
    + intros h. by apply revoke_live.
  - rewrite app_nil_r, restart_same by done. split; [done|]. done.
Qed.

Lemma inv_new : inv [] new_local.
Proof.
  split; [split|].
  - simpl. by rewrite map_imap_empty, fmap_empty.
  - intros id t. simpl. by rewrite map_imap_empty, lookup_empty.
  - intros h id. simpl. rewrite map_imap_empty. unfold index_of. rewrite map_fold_empty, lookup_empty.
    split; [done|]. intros (t & Ht & _). by rewrite lookup_empty in Ht.
  - intros id t. simpl. by rewrite map_imap_empty, lookup_empty.
  - done.
  - intros h. simpl. rewrite map_imap_empty. unfold index_of. rewrite map_fold_empty, lookup_empty.
    by intros [].
Qed.

Lemma run_inv ops past p :
  NoDup (past ++ omap op_hash ops) → Forall deletes ops → inv past p →
  inv (past ++ omap op_hash ops) (run_tokens ops p).
Proof.
  revert past p. induction ops as [|o ops IH]; intros past p Hnd Hdel Hinv.
  { simpl. by rewrite app_nil_r. }
  apply Forall_cons in Hdel as [Hd Hdel].
  assert (omap op_hash (o :: ops) = option_list (op_hash o) ++ omap op_hash ops) as Ho.
  { simpl. by destruct (op_hash o). }
  change (run_tokens (o :: ops) p) with (run_tokens ops (token_step p o)).
  rewrite Ho, app_assoc in *. apply IH; [done|done|].
  apply token_step_inv; [done|done|]. intros h Hh Hin. rewrite Hh in Hnd. simpl in Hnd.
  apply NoDup_app in Hnd as (Hnd & _ & _). apply NoDup_app in Hnd as (_ & Hnd & _).
  apply (Hnd h Hin). by left.
Qed.

(** What is left of a token after more operations. *)
Lemma run_live h ops past p :
  NoDup (past ++ omap op_hash ops) → Forall deletes ops → inv past p → h ∈ past →
  live h (run_tokens ops p) =
    (t ← live h p; if decide (st_id t ∈ omap op_revoked ops) then None else Some t).
Proof.
  induction ops as [|o ops IH] using rev_ind; intros Hnd Hdel Hinv Hh.
  { simpl. by destruct (live h p). }
  rewrite !omap_app in *. rewrite app_assoc in Hnd. apply Forall_app in Hdel as [Hdel Ho].
  pose proof Hnd as (Hnd1 & Hdis & _)%NoDup_app. specialize (IH Hnd1 Hdel Hinv Hh).
  pose proof (run_inv ops past p Hnd1 Hdel Hinv) as Hinv'.
  unfold run_tokens in *. rewrite foldl_app. simpl. set (q := foldl token_step p ops) in *.
  apply Forall_cons in Ho as [Ho _].
  destruct (token_step_inv _ q o Hinv' Ho) as [_ Hl].
  { intros h' Hh' Hin. simpl in Hdis. rewrite Hh' in Hdis. apply (Hdis h' Hin). by left. }
  specialize (Hl h). destruct o as [req d|id d|now]; simpl in Hl.
  - replace (live h (token_step q (OpGenerate req d))) with (live h q); [by rewrite IH; simpl; rewrite app_nil_r|].
    destruct Hl as [[_ Hl]|(exp & _ & Hl)]; [done|]. rewrite decide_False in Hl; [done|].
    intros Heq. apply (Hdis h); [by apply elem_of_app; left|]. simpl. rewrite Heq. by left.
  - simpl. rewrite Hl, IH. destruct (live h p) as [t|]; [|done]. simpl.
    repeat case_decide; simpl; repeat case_decide; try done; exfalso; set_solver.
  - simpl. rewrite Hl, IH, app_nil_r. done.
Qed.

(** A token that is there was issued in the run, and not revoked since. *)
Lemma live_issued h ops t :
  NoDup (omap op_hash ops) → Forall deletes ops → live h (run_tokens ops new_local) = Some t →
  ∃ ops1 req d ops2, ops = ops1 ++ OpGenerate req d :: ops2 ∧
    (local_generate_token req (only d) (run_tokens ops1 new_local)).1 =
      Returned (Ok (mkTokenResponse (st_id t) (d_raw_token d) (to_rfc3339 (st_expires_at t)))) ∧
    hash_token (d_raw_token d) = h ∧ st_id t ∉ omap op_revoked ops2.
Proof.
  induction ops as [|o ops IH] using rev_ind; intros Hnd Hdel Hl.
  { unfold live in Hl. simpl in Hl. rewrite map_imap_empty in Hl. unfold index_of in Hl.
    by rewrite map_fold_empty, lookup_empty in Hl. }
  rewrite omap_app in Hnd. apply Forall_app in Hdel as [Hdel Ho]. apply Forall_cons in Ho as [Ho _].
  pose proof Hnd as (Hnd1 & Hdis & _)%NoDup_app.
  pose proof (run_inv ops [] new_local Hnd1 Hdel inv_new) as Hinv.
  unfold run_tokens in *. rewrite foldl_app in Hl. simpl in Hl. set (q := foldl token_step new_local ops) in *.
  destruct (token_step_inv _ q o Hinv Ho) as [_ Hs].
  { intros h' Hh' Hin. simpl in Hdis. rewrite Hh' in Hdis. apply (Hdis h' Hin). by left. }
  specialize (Hs h). rewrite Hl in Hs.
  assert (live h q = Some t → st_id t ∉ option_list (op_revoked o) →
    ∃ ops1 req d ops2, ops ++ [o] = ops1 ++ OpGenerate req d :: ops2 ∧
    (local_generate_token req (only d) (foldl token_step new_local ops1)).1 =
      Returned (Ok (mkTokenResponse (st_id t) (d_raw_token d) (to_rfc3339 (st_expires_at t)))) ∧
    hash_token (d_raw_token d) = h ∧ st_id t ∉ omap op_revoked ops2) as Hold.
  { intros Hq Hrev. destruct (IH Hnd1 Hdel Hq) as (ops1 & req & d & ops2 & -> & Hg & Hh & Hnr).
    exists ops1, req, d, (ops2 ++ [o]). rewrite <- app_assoc. split_and!; [done|done|done|].
    rewrite omap_app, not_elem_of_app. split; [done|]. simpl. by destruct (op_revoked o). }
  destruct o as [req d|id d|now]; simpl in Hs.
  - destruct Hs as [[_ Hs]|(exp & Hg & Hs)]; [apply Hold; [done|apply not_elem_of_nil]|].
    case_decide as Hh; [|apply Hold; [done|apply not_elem_of_nil]]. simplify_eq.
    exists ops, req, d, []. split_and!; [done|exact Hg|done|apply not_elem_of_nil].
  - destruct (live h q) as [t'|]; [|done]. simpl in Hs. case_decide; simplify_eq.
    apply Hold; [done|]. simpl. by rewrite list_elem_of_singleton.
  - apply Hold; [done|apply not_elem_of_nil].
Qed.
End Tokens.

Section Lifecycle.
Context `{ChronoLaws} `{TokenHash}.

Lemma generate_expiry req d p resp :
  (local_generate_token req (only d) p).1 = Returned (Ok resp) →
  tp_expires_at resp = to_rfc3339 (d_now d + days_of req * DAY) ∧ (1 ≤ days_of req)%Z.
Proof.
  unfold local_generate_token, issue_token, only. fold (days_of req).
  destruct (check_passphrase req d p) as [[] p1]; [|done].
  destruct (days_of req <? 1)%Z eqn:Ed; [done|]. apply Z.ltb_ge in Ed.
  destruct (add_days (d_now d) (days_of req)) as [exp|] eqn:Ea; [|done].
  apply add_days_exact in Ea as ->. destruct (insert_row _ _ _); [|done].
  intros ?; simplify_eq/=. done.
Qed.
End Lifecycle.

(** C14. The life of a local token. In any run of requests to issue and revoke tokens and
    restarts in which the drawn tokens are distinct, the database does not fail to delete and
    no token is issued or expires after the year 9999, an issued token is answered, at every later point: not found once its id was
    revoked, expired from the requested number of days on, and until then with its own
    id and times. Issuing that fails, in whatever way, does not disturb it. *)
Theorem token_lifecycle `{ChronoLaws} `{TokenHash} ops1 req d ops2 resp ds :
  NoDup (omap op_hash (ops1 ++ OpGenerate req d :: ops2)) →
  Forall deletes (ops1 ++ OpGenerate req d :: ops2) →
  (local_generate_token req (only d) (run_tokens ops1 new_local)).1 = Returned (Ok resp) →
  let expires := (d_now d + days_of req * DAY)%Z in
  (local_validate_token (tp_token resp) ds
     (run_tokens (ops1 ++ OpGenerate req d :: ops2) new_local)).1 =
  if decide (tp_token_id resp ∈ omap op_revoked ops2) then Err TokenNotFound
  else if (expires <=? d_now (ds 0%nat))%Z then Err TokenExpired
  else Ok (mkAuthIdentity (tp_token_id resp) None None None (d_now d) expires).
Proof.
  intros Hnd Hdel Hg. cbn zeta. rewrite validate_live. pose proof (generate_expiry _ _ _ _ Hg) as [He _].
  unfold run_tokens in *. rewrite foldl_app. simpl. set (q := foldl token_step new_local ops1) in *.
  rewrite omap_app in Hnd. change (omap op_hash (OpGenerate req d :: ops2))
    with ([hash_token (d_raw_token d)] ++ omap op_hash ops2) in Hnd.
  rewrite app_assoc in Hnd. pose proof Hnd as (Hnd1 & _ & _)%NoDup_app.
  pose proof Hnd1 as (Hnd0 & Hdis & _)%NoDup_app.
  apply Forall_app in Hdel as [Hdel1 Hdel2]. apply Forall_cons in Hdel2 as [Hd Hdel2].
  pose proof (run_inv ops1 [] new_local Hnd0 Hdel1 inv_new) as Hinv. simpl in Hinv.
  fold q in Hinv. unfold run_tokens in Hinv. fold q in Hinv.
  destruct (token_step_inv _ q (OpGenerate req d) Hinv Hd) as [Hinv2 Hl].
  { intros h Hh Hin. simpl in Hh. simplify_eq. apply (Hdis _ Hin). by left. }
  specialize (Hl (hash_token (d_raw_token d))). simpl in Hl.
  destruct Hl as [[Hno _]|(exp & Hg' & Hl)]; [by apply Hno in Hg|].
  rewrite Hg in Hg'. simplify_eq/=. apply rfc3339_inj in He as ->. rewrite decide_True in Hl by done.
  pose proof (run_live (hash_token (d_raw_token d)) ops2 _ _ Hnd Hdel2 Hinv2) as Hr.
  unfold run_tokens in Hr. simpl in Hr. rewrite Hr by set_solver. rewrite Hl. simpl. by case_decide.
Qed.

(** Only issued tokens are accepted: what is accepted hashes to a token that a request
    of the run was answered with, under the same id, which was not revoked since. *)
Lemma accepted_token_issued `{ChronoLaws} `{TokenHash} ops token ds id :
  NoDup (omap op_hash ops) → Forall deletes ops →
  (local_validate_token token ds (run_tokens ops new_local)).1 = Ok id →
  (d_now (ds 0%nat) < id_expires_at id)%Z ∧
  ∃ ops1 req d ops2 resp, ops = ops1 ++ OpGenerate req d :: ops2 ∧
    (local_generate_token req (only d) (run_tokens ops1 new_local)).1 = Returned (Ok resp) ∧
    tp_token_id resp = id_token_id id ∧ hash_token (tp_token resp) = hash_token token ∧
    id_token_id id ∉ omap op_revoked ops2.
Proof.
  intros Hnd Hdel. rewrite validate_live. destruct (live _ _) as [t|] eqn:El; [|done].
  destruct (st_expires_at t <=? _)%Z eqn:Et; [done|]. intros ?; simplify_eq/=.
  apply Z.leb_gt in Et. split; [done|].
  destruct (live_issued _ _ _ Hnd Hdel El) as (ops1 & req & d & ops2 & -> & Hg & Hh & Hr).
  by eexists ops1, req, d, ops2, _.
Qed.

(** A revocation that the database fails: the token is refused until the next start,
    and accepted again after it. *)
Theorem failed_revocation_returns `{ChronoLaws} `{TokenHash} p token ds id now d e :
  coherent p → (local_validate_token token ds p).1 = Ok id → d_token_fault d = Some e →
  let p' := (local_revoke_token (id_token_id id) (only d) p).2 in
  (local_validate_token token ds p').1 = Err TokenNotFound ∧
  (local_validate_token token ds (from_connection now (lt_db p'))).1 = Ok id.
Proof.
  intros Hco Hv Hf. cbn zeta. rewrite !validate_live in *. destruct (live _ p) as [t|] eqn:El; [|done].
  destruct (st_expires_at t <=? d_now (ds 0%nat))%Z eqn:Et; [done|]. simplify_eq/=.
  unfold live in El. destruct (hash_index (lt_state p) !! _) as [i|] eqn:Ei; [|done]. simpl in El.
  pose proof (co_ids _ Hco _ _ El) as <-. apply (co_index _ Hco) in Ei as (t' & Ht' & Hh). simplify_eq.
  unfold local_revoke_token. rewrite El. unfold only. rewrite Hf.
  unfold live. split.
  - simpl. by rewrite Hh, lookup_delete_eq.
  - cbn [lt_db snd]. rewrite (restart_same now p Hco), (proj2 (co_index _ Hco (hash_token token) (st_id t))) by eauto.
    simpl. by rewrite El, Et.
Qed.

(** ** Toy libraries

    Times are binary texts. *)

Definition toy_chrono : Chrono :=
  Build_Chrono
    (λ t, match t with Z0 => EmptyString | Zpos p => String "+"%char (bits p) | Zneg p => String "-"%char (bits p) end)
    (λ s, match s with
          | EmptyString => Some 0%Z
          | String c s' => Some (if bool_decide (c = "+"%char) then Zpos (unbits s') else Zneg (unbits s'))
          end)
    (λ t d, Some (t + d * DAY)%Z)
    Some.

Lemma toy_rfc3339_parse t : @parse_from_rfc3339 toy_chrono (@to_rfc3339 toy_chrono t) = Some t.
Proof. destruct t as [|p|p]; simpl; [done|by rewrite unbits_bits..]. Qed.

Lemma toy_chrono_laws : @ChronoLaws toy_chrono.
Proof.
  split.
  - intros t _. apply toy_rfc3339_parse.
  - intros t t' Heq%(f_equal (@parse_from_rfc3339 toy_chrono)). rewrite !toy_rfc3339_parse in Heq. by simplify_eq.
  - intros t d t'. simpl. intros ?. by simplify_eq.
Qed.

Definition toy_hash : TokenHash :=
  Build_TokenHash (λ s, s) (λ _ p, Ok p) (λ p h, Ok (bool_decide (p = h))).

Definition toy_draw (now : Z) (raw id : string) : Draw :=
  mkDraw now "salt" raw id None None (JwksKeys []).

(** Two tokens, a wrong passphrase, a restart and a revocation. *)
Definition toy_before : list TokenOp := [OpGenerate (mkTokenRequest "pw" None) (toy_draw 0 "raw1" "id1")].
Definition toy_after : list TokenOp :=
  [OpGenerate (mkTokenRequest "no" None) (toy_draw 5 "raw3" "id3"); OpRestart 7;
   OpRevoke "id1" (toy_draw 8 "" "")].

Lemma token_lifecycle_witness :
  (@local_validate_token toy_hash "raw2" (only (toy_draw 9 "" ""))
     (@run_tokens toy_chrono toy_hash
        (toy_before ++ OpGenerate (mkTokenRequest "pw" (Some 1%Z)) (toy_draw 2 "raw2" "id2") :: toy_after)
        (@new_local toy_chrono))).1 =
  Ok (mkAuthIdentity "id2" None None None 2 (2 + DAY)).
Proof.
  pose proof (@token_lifecycle toy_chrono toy_chrono_laws toy_hash toy_before
    (mkTokenRequest "pw" (Some 1%Z)) (toy_draw 2 "raw2" "id2") toy_after
    (mkTokenResponse "id2" "raw2" (@to_rfc3339 toy_chrono (2 + DAY))) (only (toy_draw 9 "" ""))) as Hl.
  cbn zeta in Hl. refine (eq_trans (Hl _ _ _) _); clear Hl.
  - apply (bool_decide_unpack _). vm_compute. exact I.
  - repeat constructor; vm_compute; congruence.
  - vm_compute. reflexivity.
  - vm_compute. reflexivity.
Defined.

(** ** The middleware's limiter *)

Inductive LimOp : Type :=
| LCheck (ip : string) (t1 t2 : timestamp)
| LFail (ip : string) (t1 t2 : timestamp).

Definition lim_step (l : MwLimiter) (o : LimOp) : MwLimiter :=
  match o with
  | LCheck ip t1 t2 => (mw_is_rate_limited ip t1 t2 l).2
  | LFail ip t1 t2 => mw_record_failure ip t1 t2 l
  end.

Definition op_times (o : LimOp) : timestamp * timestamp :=
  match o with LCheck _ t1 t2 | LFail _ t1 t2 => (t1, t2) end.

(** The clock, from one reading to the next. *)
Inductive clocked : timestamp → list LimOp → timestamp → Prop :=
| clocked_nil t t' : (t ≤ t')%Z → clocked t [] t'
| clocked_cons t o ops t' :
    (t ≤ (op_times o).1)%Z → ((op_times o).1 ≤ (op_times o).2)%Z → clocked (op_times o).2 ops t' →
    clocked t (o :: ops) t'.

(** When failures of an address were recorded. *)
Definition failures_of (ip : string) (ops : list LimOp) : list timestamp :=
  omap (λ o, match o with
             | LFail ip' t1 _ => if bool_decide (ip' = ip) then Some t1 else None
             | LCheck _ _ _ => None
             end) ops.

Definition entries_of (ip : string) (l : MwLimiter) : list timestamp := default [] (mw_failures l !! ip).

(** The limiter agrees with a history on what is recent from [T] on. *)
Definition agrees (hist : string → list timestamp) (l : MwLimiter) (T : timestamp) : Prop :=
  ∀ ip t, (T ≤ t)%Z → retain t (entries_of ip l) = retain t (hist ip).

Lemma retain_retain t t' a : (t ≤ t')%Z → retain t' (retain t a) = retain t' a.
Proof.
  intros Ht. unfold retain. rewrite list_filter_filter. apply list_filter_iff.
  intros x. unfold fresh. rewrite !Z.ltb_lt. lia.
Qed.

Lemma cleanup_agrees hist l T now :
  agrees hist l T → (T ≤ now)%Z → agrees hist (maybe_cleanup now l) now.
Proof.
  intros Ha HT ip t Ht. rewrite <- Ha by lia. unfold maybe_cleanup, entries_of.
  destruct (negb _); [done|]. simpl. rewrite lookup_omap.
  destruct (mw_failures l !! ip) as [a|]; [|done]. simpl.
  rewrite <- (retain_retain now t a) by done. by destruct (retain now a).
Qed.

Lemma record_agrees hist l T ip t1 t2 :
  agrees hist l T → (T ≤ t1)%Z → (t1 ≤ t2)%Z →
  agrees (λ ip', hist ip' ++ (if bool_decide (ip = ip') then [t1] else [])) (mw_record_failure ip t1 t2 l) t2.
Proof.
  intros Ha HT Ht. unfold mw_record_failure. apply (cleanup_agrees _ _ T); [|lia].
  intros ip' t Ht'. unfold entries_of. simpl. case_bool_decide as Hip.
  - subst ip'. rewrite lookup_insert_eq. simpl. unfold retain. rewrite !filter_app.
    f_equal. by apply Ha.
  - rewrite lookup_insert_ne, app_nil_r by done. by apply Ha.
Qed.

Lemma check_agrees hist l T ip t1 t2 :
  agrees hist l T → (T ≤ t1)%Z → (t1 ≤ t2)%Z →
  (mw_is_rate_limited ip t1 t2 l).1 = (MAX_FAILURES <=? length (retain t2 (hist ip))) ∧
  agrees hist (mw_is_rate_limited ip t1 t2 l).2 t2.
Proof.
  intros Ha HT Ht. pose proof (cleanup_agrees _ _ _ t1 Ha HT) as Hc.
  unfold mw_is_rate_limited. pose proof (Hc ip t2 Ht) as Hip. unfold entries_of in Hip.
  destruct (mw_failures (maybe_cleanup t1 l) !! ip) as [a|] eqn:E; simpl in *.
  - rewrite Hip. split; [done|]. intros ip' t Ht'. unfold entries_of. simpl.
    destruct (decide (ip = ip')) as [<-|Hne].
    + rewrite lookup_insert_eq. simpl. rewrite retain_retain by done.
      rewrite <- (Hc ip t) by lia. unfold entries_of. by rewrite E.
    + rewrite lookup_insert_ne by done. apply Hc. lia.
  - rewrite <- Hip. split; [done|]. intros ip' t Ht'. apply Hc. lia.
Qed.

Lemma run_agrees ops hist l T T' :
  clocked T ops T' → agrees hist l T →
  agrees (λ ip, hist ip ++ failures_of ip ops) (foldl lim_step l ops) T'.
Proof.
  intros Hc. revert hist l. induction Hc as [t t' Ht|t o ops t' H1 H2 Hc IH]; intros hist l Ha.
  - intros ip x Hx. simpl. rewrite app_nil_r. apply Ha. lia.
  - simpl. destruct o as [ip t1 t2|ip t1 t2]; simpl in *.
    + apply IH. by eapply check_agrees.
    + intros ip' x Hx. rewrite (IH _ _ (record_agrees _ _ _ ip t1 t2 Ha H1 H2) ip' x Hx).
      rewrite <- app_assoc. simpl. case_bool_decide; done.
Qed.

(** The limiter is exact: after any checks and failures of all addresses, read
    with a clock that does not go back, an address is limited exactly when at least
    five failures were recorded for it in the last minute, whenever the periodic
    cleanups happened. *)
Theorem mw_limiter_exact ops T ip t1 t2 :
  clocked T ops t1 → (t1 ≤ t2)%Z →
  (mw_is_rate_limited ip t1 t2 (foldl lim_step new_mw_limiter ops)).1 =
  (5 <=? length (filter (λ t, (t2 - WINDOW < t)%Z) (failures_of ip ops))).
Proof.
  intros Hc Ht.
  assert (agrees (λ _, []) new_mw_limiter T) as Ha by by intros ip' t _.
  pose proof (run_agrees _ _ _ _ _ Hc Ha) as Hr. simpl in Hr.
  destruct (check_agrees _ _ _ ip t1 t2 Hr ltac:(lia) Ht) as [-> _].
  unfold retain. do 2 f_equal. apply list_filter_iff. intros x. unfold fresh. by rewrite Z.ltb_lt.
Qed.

Lemma mw_limiter_exact_witness :
  let fails := [LFail "a" 1 1; LFail "b" 2 2; LFail "a" 3 3; LFail "a" 4 4; LFail "a" 5 5; LFail "a" 6 6] in
  (mw_is_rate_limited "a" 7 7 (foldl lim_step new_mw_limiter fails)).1 = true ∧
  (mw_is_rate_limited "a" 7 (WINDOW + 1) (foldl lim_step new_mw_limiter fails)).1 = false.
Proof.
  split.
  - etrans; [eapply (mw_limiter_exact _ 0 "a" 7 7)|vm_compute; reflexivity]; [|lia].
    repeat (constructor; simpl; [lia|lia|]). constructor. lia.
  - etrans; [eapply (mw_limiter_exact _ 0 "a" 7 (WINDOW + 1))|vm_compute; reflexivity]; [|unfold WINDOW; lia].
    repeat (constructor; simpl; [lia|lia|]). constructor. lia.
Defined.

(** ** The middleware *)

Section Middleware.
Context `{WebauthnRs} `{ChronoLaws} `{TokenHash} `{Jsonwebtoken} (parse_ip : string → option string).

Lemma local_refusal token ds w e w' :
  pv_validate_token local_provider token ds w = (Err e, w') → e = TokenNotFound ∨ e = TokenExpired.
Proof.
  simpl. unfold on_local, local_validate_token. simpl. intros Hv.
  destruct (hash_index _ !! _) as [i|]; simplify_eq/=; [|by left].
  destruct (tokens _ !! i) as [t|]; simplify_eq/=; [|by left].
  destruct (_ <=? _)%Z; simplify_eq/=. by right.
Qed.

(** The deployments whose last provider is the local one. *)
Definition ends_with_local (p : Provider World) : Prop :=
  p = local_provider ∨ p = MultiAuthProvider [oidc_provider; local_provider].

Lemma ends_with_local_refusal p token ds w e w' :
  ends_with_local p → pv_validate_token p token ds w = (Err e, w') → e = TokenNotFound ∨ e = TokenExpired.
Proof.
  intros [-> | ->]; [apply local_refusal|]. cbn [pv_validate_token MultiAuthProvider multi_validate].
  destruct (pv_validate_token oidc_provider token ds w) as [[id|e1] w1]; [done|].
  destruct (pv_validate_token local_provider token (later ds) w1) as [[id|e2] w2] eqn:E; [done|].
  intros ?; simplify_eq. by eapply local_refusal.
Qed.

Lemma build_ends_with_local name oc wc local :
  name ≠ "webauthn"%string → ends_with_local (build_auth_provider name oc wc local).1.
Proof.
  intros Hn. unfold build_auth_provider, ends_with_local. case_bool_decide.
  - destruct oc; [by right|by left].
  - rewrite bool_decide_eq_false_2 by done. by left.
Qed.

Lemma webauthn_refusal token ds w e w' :
  multi_validate [local_provider; webauthn_provider] TokenNotFound token ds w = (Err e, w') →
  ∃ m, e = Internal m.
Proof.
  cbn [multi_validate]. destruct (pv_validate_token local_provider token ds w) as [[id|e1] w1]; [done|].
  simpl. intros ?; simplify_eq. eauto.
Qed.

(** A request that reaches a handler. *)
Lemma forwarded_sound {W} (p : Provider W) rq ck ds s x s' :
  auth_middleware parse_ip p rq ck ds s = (Forwarded x, s') →
  is_public (rq_path rq) (rq_method rq) = true ∧ x = None ∨
  (mw_is_rate_limited (client_ip parse_ip rq) (ck_check1 ck) (ck_check2 ck) (mw_limiter s)).1 = false ∧
  ∃ token id, extract_bearer_token rq = Some token ∧ x = Some id ∧
    (pv_validate_token p token ds (mw_world s)).1 = Ok id.
Proof.
  unfold auth_middleware. destruct (is_public _ _); [intros ?; simplify_eq; by left|].
  destruct (mw_is_rate_limited _ _ _ _) as [[] l1]; [done|]. simpl. intros Hm. right. split; [done|].
  destruct (extract_bearer_token rq) as [token|]; [|done].
  destruct (pv_validate_token p token ds (mw_world s)) as [[id|e] w1] eqn:E; simplify_eq/=.
  - exists token, id. by rewrite E.
  - exfalso. destruct e; done.
Qed.

Lemma extract_bearer_token_Some rq token :
  extract_bearer_token rq = Some token → rq_authorization rq = Some ("Bearer " +:+ token)%string.
Proof.
  unfold extract_bearer_token. destruct (rq_authorization rq) as [h|]; [|done]. cbn [mbind option_bind].
  destruct (strip_prefix "Bearer " h) as [r|] eqn:E; [|done]. apply strip_prefix_Some in E as ->.
  cbn [mbind option_bind]. destruct (is_empty r); [done|]. by intros ?; simplify_eq.
Qed.

(** Without recorded failures nobody is limited. *)
Lemma unlimited_without_failures ip t1 t2 l :
  mw_failures l = ∅ →
  (mw_is_rate_limited ip t1 t2 l).1 = false ∧ mw_failures (mw_is_rate_limited ip t1 t2 l).2 = ∅.
Proof.
  intros Hl. assert (mw_failures (maybe_cleanup t1 l) = ∅) as Hc.
  { unfold maybe_cleanup. destruct (negb _); simpl; [done|]. by rewrite Hl, omap_empty. }
  unfold mw_is_rate_limited. rewrite Hc, lookup_empty. done.
Qed.
End Middleware.


(** Refused tokens count. Unless passkeys are configured, the middleware answers a
    refused token with 401 and records the failure, whichever providers refused it and
    whatever the identity provider answers. *)
Theorem refusals_counted `{WebauthnRs} `{Chrono} `{TokenHash} `{Jsonwebtoken} parse_ip name oc wc local
    rq ck ds (s : MwState World) token :
  let p := (build_auth_provider name oc wc local).1 in
  let ip := client_ip parse_ip rq in
  let check := mw_is_rate_limited ip (ck_check1 ck) (ck_check2 ck) (mw_limiter s) in
  let answer := auth_middleware parse_ip p rq ck ds s in
  name ≠ "webauthn"%string → is_public (rq_path rq) (rq_method rq) = false → check.1 = false →
  extract_bearer_token rq = Some token → is_ok (pv_validate_token p token ds (mw_world s)).1 = false →
  (∃ code, answer.1 = Refused 401 code) ∧
  mw_limiter answer.2 = mw_record_failure ip (ck_push ck) (ck_clean ck) check.2.
Proof.
  intros p ip check answer Hn Hpub Hcheck Ht Hv. subst answer. unfold auth_middleware. rewrite Hpub.
  fold ip. fold check. destruct check as [lim l1]. simpl in Hcheck. subst lim. rewrite Ht. simpl.
  destruct (pv_validate_token p token ds (mw_world s)) as [[id|e] w1] eqn:E; [done|].
  apply ends_with_local_refusal in E; [|by apply build_ends_with_local].
  destruct E as [-> | ->]; simpl; split; eauto.
Qed.

(** With passkeys configured the last provider refuses every token as an internal
    error, so failures are never recorded: no number of guesses is ever limited. *)
Theorem webauthn_never_limited `{WebauthnRs} `{Chrono} `{TokenHash} `{Jsonwebtoken} parse_ip oc ttl local
    rq ck ds (s : MwState World) :
  let p := (build_auth_provider "webauthn" oc (Some (Ok ttl)) local).1 in
  let answer := auth_middleware parse_ip p rq ck ds s in
  mw_failures (mw_limiter s) = ∅ →
  (∀ code, answer.1 ≠ Refused 429 code) ∧ mw_failures (mw_limiter answer.2) = ∅.
Proof.
  intros p answer Hs. subst answer p. unfold auth_middleware. destruct (is_public _ _); [done|].
  destruct (unlimited_without_failures (client_ip parse_ip rq) (ck_check1 ck) (ck_check2 ck) _ Hs) as [Hl He].
  destruct (mw_is_rate_limited _ _ _ _) as [lim l1]. simpl in Hl, He. subst lim.
  destruct (extract_bearer_token rq) as [token|]; [|done].
  destruct (pv_validate_token _ token ds _) as [[id|e] w1] eqn:E; [done|].
  apply webauthn_refusal in E as [m ->]. done.
Qed.

(** ** Passkey ceremonies *)

Section Ceremonies.
Context `{WebauthnRs} `{Chrono} `{TokenHash}.

Inductive CeremonyOp : Type :=
| StartRegistration (user_id user_name : string) (d : Draw)
| FinishRegistration (challenge_id user_id label response : string) (d : Draw)
| StartAuthentication (user_id : string) (d : Draw)
| FinishAuthentication (challenge_id response : string) (ds : Draws)
| CleanupChallenges (now : timestamp).

Definition ceremony_step (s : WebAuthnProvider * LocalTokenProvider) (o : CeremonyOp)
    : WebAuthnProvider * LocalTokenProvider :=
  match o with
  | StartRegistration u n d => ((start_registration u n d s.1).2, s.2)
  | FinishRegistration c u l r d => ((finish_registration c u l r d s.1).2, s.2)
  | StartAuthentication u d => ((start_authentication u d s.1).2, s.2)
  | FinishAuthentication c r ds => (finish_authentication c r ds s).2
  | CleanupChallenges now => (cleanup_expired_challenges now s.1, s.2)
  end.

(** The challenge ids that are handed out. *)
Definition op_challenge (o : CeremonyOp) : option string :=
  match o with
  | StartRegistration _ _ d | StartAuthentication _ d => Some (d_id d)
  | _ => None
  end.

Lemma take_challenge_spec c now p r p' :
  take_challenge c now p = (r, p') → wa_challenges p' = delete c (wa_challenges p).
Proof.
  unfold take_challenge. intros Ht. destruct (wa_challenges p !! c) as [e|] eqn:E.
  - destruct (_ <? _)%Z; by simplify_eq.
  - simplify_eq. by rewrite delete_id.
Qed.

Lemma count_use_challenges u r now p : wa_challenges (count_use u r now p) = wa_challenges p.
Proof. unfold count_use. by destruct (list_find _ _) as [[]|]. Qed.

Lemma finish_registration_challenges c u l r d p :
  wa_challenges (finish_registration c u l r d p).2 = delete c (wa_challenges p).
Proof.
  unfold finish_registration. destruct (take_challenge c _ p) as [[[s|s u']|e] p1] eqn:E;
    apply take_challenge_spec in E; [|done..].
  destruct (finish_passkey_registration r s); [|done]. by destruct (store_passkey _ _ _ _ _).
Qed.

Lemma finish_authentication_challenges c r ds s :
  wa_challenges (finish_authentication c r ds s).2.1 = delete c (wa_challenges s.1).
Proof.
  destruct s as [p local]. unfold finish_authentication. cbn [fst].
  destruct (take_challenge c _ p) as [[[s|s u]|e] p1] eqn:E; apply take_challenge_spec in E; [done| |done].
  destruct (finish_passkey_authentication r s) as [a|]; [|done].
  rewrite <- E, <- (count_use_challenges u a (d_now (ds 0%nat)) p1).
  by destruct (local_generate_token _ _ local) as [[[]|] ?].
Qed.

(** A challenge that is gone stays gone until its id is drawn again. *)
Lemma step_challenge_gone c s o :
  wa_challenges s.1 !! c = None → op_challenge o ≠ Some c →
  wa_challenges (ceremony_step s o).1 !! c = None.
Proof.
  intros Hc Ho. destruct o; simpl in *.
  - unfold start_registration. destruct (start_passkey_registration _ _ _) as [[]|]; [|done]. simpl.
    rewrite lookup_insert_ne; [done|congruence].
  - rewrite finish_registration_challenges. by apply lookup_delete_None; right.
  - unfold start_authentication. destruct (get_passkeys_for_user _ _); [done|].
    destruct (start_passkey_authentication _) as [[]|]; [|done]. simpl.
    rewrite lookup_insert_ne; [done|congruence].
  - rewrite finish_authentication_challenges. by apply lookup_delete_None; right.
  - rewrite map_lookup_filter_None. by left.
Qed.

Lemma run_challenge_gone c ops s :
  wa_challenges s.1 !! c = None → Forall (λ o, op_challenge o ≠ Some c) ops →
  wa_challenges (foldl ceremony_step s ops).1 !! c = None.
Proof.
  revert s. induction ops as [|o ops IH]; intros s Hc Ho; [done|].
  apply Forall_cons in Ho as [Ho Hops]. simpl. apply IH; [|done]. by apply step_challenge_gone.
Qed.

Lemma finish_without_challenge c r ds s :
  wa_challenges s.1 !! c = None →
  finish_authentication c r ds s = (Returned (Err (Internal "challenge not found or expired")), s).
Proof. destruct s as [p local]. unfold finish_authentication, take_challenge. simpl. by intros ->. Qed.
End Ceremonies.

(** A challenge is used at most once: after a ceremony was finished under it,
    successfully or not, finishing an authentication under it again is refused and
    changes nothing, whatever ceremonies happen in between, unless its random id is
    drawn again. *)
Theorem challenge_single_use `{WebauthnRs} `{Chrono} `{TokenHash} c o ops s response ds :
  (∃ r ds', o = FinishAuthentication c r ds') ∨ (∃ u l r d, o = FinishRegistration c u l r d) →
  Forall (λ o', op_challenge o' ≠ Some c) ops →
  let s' := foldl ceremony_step (ceremony_step s o) ops in
  finish_authentication c response ds s' = (Returned (Err (Internal "challenge not found or expired")), s').
Proof.
  intros Ho Hops. apply finish_without_challenge, run_challenge_gone; [|done].
  destruct Ho as [(r & ds' & ->)|(u & l & r & d & ->)]; simpl.
  - rewrite finish_authentication_challenges. apply lookup_delete_eq.
  - rewrite finish_registration_challenges. apply lookup_delete_eq.
Qed.

(** The token of a passkey login is requested with a random passphrase. So a login
    succeeds only while no master passphrase is set, and then sets one nobody knows:
    unless two random passphrases match, no second login and no other request for a
    token succeeds. *)
Theorem passkey_login_locks `{WebauthnRs} `{Chrono} `{TokenHash} c response ds p local t p' local' :
  finish_authentication c response ds (p, local) = (Returned (Ok t), (p', local')) →
  match passphrase_hash (lt_state local) with
  | Some h => verify_password (d_id (ds 1%nat)) h = Ok true
  | None => ∃ h, hash_password (d_salt (ds 2%nat)) (d_id (ds 1%nat)) = Ok h ∧
      ∀ req ds', verify_password (tr_passphrase req) h = Ok false →
        local_generate_token req ds' local' = (Returned (Err InvalidCredentials), local')
  end.
Proof.
  unfold finish_authentication. intros Hf.
  destruct (take_challenge c _ p) as [[[s|s u]|e] p1]; [done| |done].
  destruct (finish_passkey_authentication response s) as [a|]; [|done].
  unfold local_generate_token in Hf. unfold later in Hf. unfold check_passphrase in Hf.
  destruct (passphrase_hash (lt_state local)) as [h|].
  - unfold verify_passphrase in Hf. simpl in Hf. destruct (verify_password _ h) as [[]|]; done.
  - unfold hash_passphrase in Hf. simpl in Hf. destruct (hash_password _ _) as [h|] eqn:Eh; [|done].
    simpl in Hf. destruct (d_config_fault _); [done|]. exists h. split; [done|].
    unfold issue_token in Hf. simpl in Hf. destruct (add_days _ _) as [exp|]; [|done]. simpl in Hf.
    destruct (insert_row _ _ _) as [db|]; [|done]. simplify_eq/=. intros req ds' Hv.
    unfold local_generate_token, check_passphrase, verify_passphrase. simpl. by rewrite Hv.
Qed.

(** ** The middleware on toy libraries *)

Definition toy_webauthn : WebauthnRs :=
  Build_WebauthnRs string unit unit string (λ s, s) (λ s, s) (λ _ p, p)
    (λ _ _ _, Ok ("options"%string, tt)) (λ r _, Ok r) (λ _, Ok ("options"%string, tt)) (λ r _, Ok r).

Definition toy_jsonwebtoken : Jsonwebtoken :=
  Build_Jsonwebtoken unit (λ _, Err "not a JWT"%string) (λ _ _, Ok tt)
    (λ _ _ _ _ _, Err (OtherKind, "unsigned"%string)).

Definition toy_request (token : string) : MwRequest :=
  mkMwRequest "/api/data" "GET" (Some "10.0.0.1, 10.0.0.2"%string) None (Some ("Bearer " +:+ token)%string).
Definition toy_clock : MwClock := mkMwClock 9 9 9 9.

Definition toy_state : MwState (@World toy_webauthn) :=
  mkMwState (mkWorld (@run_tokens toy_chrono toy_hash toy_before (@new_local toy_chrono)) None None)
    new_mw_limiter (Some []).

(** Four failures of the address just before. *)
Definition toy_failures : list LimOp := [LFail "10.0.0.1" 1 1; LFail "10.0.0.1" 2 2; LFail "10.0.0.1" 3 3; LFail "10.0.0.1" 4 4].
Definition toy_failed_state : MwState (@World toy_webauthn) :=
  mkMwState (mw_world toy_state) (foldl lim_step new_mw_limiter toy_failures) (Some []).


Lemma refusals_counted_witness :
  let p := (@build_auth_provider toy_webauthn toy_chrono toy_hash toy_jsonwebtoken "oidc"
              (Some (mkOidcConfig "https://id" "c" None None None)) None (@new_local toy_chrono)).1 in
  let answer := auth_middleware Some p (toy_request "guess") toy_clock (only (toy_draw 9 "" "")) toy_state in
  (∃ code, answer.1 = Refused 401 code) ∧ mw_failures (mw_limiter answer.2) !! "10.0.0.1"%string = Some [9%Z].
Proof.
  destruct (@refusals_counted toy_webauthn toy_chrono toy_hash toy_jsonwebtoken Some "oidc"
              (Some (mkOidcConfig "https://id" "c" None None None)) None (@new_local toy_chrono)
              (toy_request "guess") toy_clock (only (toy_draw 9 "" "")) toy_state "guess") as [Hc Hl].
  - discriminate.
  - vm_compute. reflexivity.
  - vm_compute. reflexivity.
  - vm_compute. reflexivity.
  - vm_compute. reflexivity.
  - split; [exact Hc|]. cbv zeta. rewrite Hl. vm_compute. reflexivity.
Defined.

Lemma challenge_single_use_witness :
  let s := (mkWebAuthn toy_webauthn ∅ ∅ 300, @new_local toy_chrono) in
  let start := @StartRegistration "u" "n" (toy_draw 0 "" "c") in
  let s1 := @ceremony_step toy_webauthn toy_chrono toy_hash
              (@ceremony_step toy_webauthn toy_chrono toy_hash s start)
              (FinishRegistration "c" "u" "laptop" "key" (toy_draw 1 "" "pk")) in
  let s2 := foldl (@ceremony_step toy_webauthn toy_chrono toy_hash) s1
              [StartAuthentication "u" (toy_draw 2 "" "c2")] in
  is_Some (wa_store s2.1 !! "u"%string) ∧
  (@finish_authentication toy_webauthn toy_chrono toy_hash "c" "key" (only (toy_draw 3 "" "")) s2).1 =
    Returned (Err (Internal "challenge not found or expired")).
Proof.
  cbv zeta. split; [eexists; vm_compute; reflexivity|].
  rewrite (@challenge_single_use toy_webauthn toy_chrono toy_hash "c"); [reflexivity|right; eauto|].
  repeat constructor. discriminate.
Defined.
