(* ===== verification/SqliteDoc.v ===== *)
(** * The SQLite document adapter

    packages/storage-sqlite/src/document.rs: documents as rows of the plugin_data
    table, filters translated to SQL with numbered parameters, pagination by cursor,
    batches as transactions, merge patches, migrations and health. [sqlite_adapters]
    makes it an instance of the adapter interface the storage router calls.

    The table is the list of its rows, oldest first. A SQL statement is a value of
    [Statement]; [select_text] and [count_text] are the texts the code builds for it,
    and running one is a parameter ([Sqlite]). What a call reads from outside (clock,
    fresh id, database faults per statement, the time it takes) is a [DocDraw]. *)

From stdpp Require Import base tactics list strings gmap.
From Stdlib Require Import Ascii ZArith Lia.
From S2P Require Import Prelude RustString Json Types Storage SchemaVersioning.

Local Open Scope string_scope.

(** ** Rows *)

Record Row : Type := mkRow {
  r_id : string;
  r_plugin_id : string;
  r_collection : string;
  r_data : string;
  r_version : Z;
  r_created_at : string;
  r_updated_at : string;
}.

Definition is_row (collection id : string) (r : Row) : bool :=
  bool_decide (r_collection r = collection) && bool_decide (r_id r = id).

Definition find_row (collection id : string) (rows : list Row) : option Row :=
  snd <$> list_find (λ r, is_row collection id r = true) rows.

Definition ident_char (c : ascii) : bool :=
  is_ascii_alphanumeric c || bool_decide (c = "_"%char) || bool_decide (c = "-"%char)
  || bool_decide (c = "."%char).

Definition validate_identifier (name : string) : result unit StorageError :=
  if is_empty name then Err (StorageValidationFailed "collection name must not be empty" None)
  else if negb (all_chars ident_char name) then
    Err (StorageValidationFailed ("invalid collection name: " +:+ name) None)
  else Ok tt.

Definition row_to_document `{JsonText} (id data created_at updated_at : string)
    : result json StorageError :=
  let? doc := result_map_err (λ e, Internal ("corrupt JSON in database: " +:+ e)) (json_from_str data) in
  Ok (match doc with
      | JObj o => JObj (obj_insert "updated_at" (JStr updated_at)
                          (obj_insert "created_at" (JStr created_at) (obj_insert "id" (JStr id) o)))
      | _ => doc
      end).

(** What is stored of a document. *)
Definition strip_system (doc : json) : json :=
  match doc with
  | JObj o => JObj (obj_remove "updated_at" (obj_remove "created_at" (obj_remove "id" o)))
  | _ => doc
  end.

(** ** Cursors *)

(** The URL-safe base64 crate, on byte strings. *)
Class Base64Url : Type := {
  b64_encode : string → string;
  b64_decode : string → option string;
}.

Definition encode_cursor `{Base64Url} (offset : Z) : string := b64_encode (show_Z offset).

(** Text that is not UTF-8 is not a number either: the three errors are one. *)
Definition decode_cursor `{Base64Url} (cursor : string) : result Z StorageError :=
  ok_or (b64_decode cursor ≫= parse_u64) (StorageValidationFailed "invalid pagination cursor" None).

(** ** Filters as SQL *)

Inductive SqlValue : Type :=
| SqlNull
| SqlInt (z : Z)
| SqlReal (mantissa exponent : Z)
| SqlText (s : string).

#[export] Instance sql_value_eq_dec : EqDecision SqlValue.
Proof. solve_decision. Defined.

Definition json_value_to_boxed_sql `{JsonText} (v : json) : SqlValue :=
  match v with
  | JStr s => SqlText s
  | JNum (NInt z) =>
      if (- 2 ^ 63 <=? z)%Z && (z <? 2 ^ 63)%Z then SqlInt z else SqlReal (round_f64 z) 0
  | JNum (NFloat m e) => SqlReal m e
  | JBool b => SqlInt (if b then 1 else 0)
  | JNull => SqlNull
  | _ => SqlText (json_to_string v)
  end.

Definition json_value_to_string `{JsonText} (v : json) : string :=
  match v with
  | JStr s => s
  | _ => json_to_string v
  end.

(** Conditions; parameters are numbered from one. *)
Inductive SqlExpr : Type :=
| SqlTrue
| SqlFalse
| SqlNotNull (path : nat)
| SqlIn (path : nat) (vals : list nat)
| SqlNotIn (path : nat) (vals : list nat)
| SqlLike (path val : nat)
| SqlCmp (path : nat) (op : string) (val : nat)
| SqlAnd (es : list SqlExpr)
| SqlOr (es : list SqlExpr)
| SqlNot (e : SqlExpr).

Definition param_text (n : nat) : string := "?" +:+ show_nat n.

Definition extract_text (path : nat) : string := "json_extract(data, " +:+ param_text path +:+ ")".

Fixpoint expr_text (e : SqlExpr) : string :=
  match e with
  | SqlTrue => "1=1"
  | SqlFalse => "1=0"
  | SqlNotNull p => extract_text p +:+ " IS NOT NULL"
  | SqlIn p vs => extract_text p +:+ " IN (" +:+ join ", " (param_text <$> vs) +:+ ")"
  | SqlNotIn p vs => extract_text p +:+ " NOT IN (" +:+ join ", " (param_text <$> vs) +:+ ")"
  | SqlLike p v => extract_text p +:+ " LIKE " +:+ param_text v
  | SqlCmp p op v => extract_text p +:+ " " +:+ op +:+ " " +:+ param_text v
  | SqlAnd es => "(" +:+ join " AND " (map expr_text es) +:+ ")"
  | SqlOr es => "(" +:+ join " OR " (map expr_text es) +:+ ")"
  | SqlNot e => "NOT (" +:+ expr_text e +:+ ")"
  end.

(** [WhereBuilder]: the values bound so far and the next parameter. *)
Record WhereBuilder : Type := mkWhere {
  bind_values : list SqlValue;
  param_idx : nat;
}.

Definition new_builder (start : nat) : WhereBuilder := mkWhere [] start.

Definition bind (v : SqlValue) (b : WhereBuilder) : nat * WhereBuilder :=
  (param_idx b, mkWhere (bind_values b ++ [v])%list (S (param_idx b))).

Definition bind_all (vs : list SqlValue) (b : WhereBuilder) : list nat * WhereBuilder :=
  (seq (param_idx b) (length vs), mkWhere (bind_values b ++ vs)%list (param_idx b + length vs)).

Section Filters.
Context `{JsonText}.

(** [op.as_sql] of the plain comparisons. *)
Definition sql_op (op : FilterOperator) : string :=
  match op with
  | FEq => "="
  | FNe => "!="
  | FGt => ">"
  | FGte => ">="
  | FLt => "<"
  | _ => "<="
  end.

Definition build_comparison (field : string) (op : FilterOperator) (value : json) (b : WhereBuilder)
    : SqlExpr * WhereBuilder :=
  let '(path, b1) := bind (SqlText ("$." +:+ field)) b in
  match op with
  | FExists => (SqlNotNull path, b1)
  | FIn =>
      match value with
      | JArr (x :: xs) =>
          let '(vs, b2) := bind_all (json_value_to_boxed_sql <$> x :: xs) b1 in (SqlIn path vs, b2)
      | _ => (SqlFalse, b1)
      end
  | FNotIn =>
      match value with
      | JArr (x :: xs) =>
          let '(vs, b2) := bind_all (json_value_to_boxed_sql <$> x :: xs) b1 in (SqlNotIn path vs, b2)
      | _ => (SqlTrue, b1)
      end
  | FContains =>
      let '(v, b2) := bind (SqlText ("%" +:+ json_value_to_string value +:+ "%")) b1 in
      (SqlLike path v, b2)
  | FStartsWith =>
      let '(v, b2) := bind (SqlText (json_value_to_string value +:+ "%")) b1 in (SqlLike path v, b2)
  | _ => let '(v, b2) := bind (json_value_to_boxed_sql value) b1 in (SqlCmp path (sql_op op) v, b2)
  end.

Fixpoint build (node : FilterNode) (b : WhereBuilder) : SqlExpr * WhereBuilder :=
  let build_list := fix go fs b :=
    match fs with
    | [] => ([], b)
    | f :: fs' =>
        let '(e, b1) := build f b in
        let '(es, b2) := go fs' b1 in
        (e :: es, b2)
    end in
  match node with
  | FAnd [] => (SqlTrue, b)
  | FAnd fs => let '(es, b1) := build_list fs b in (SqlAnd es, b1)
  | FOr [] => (SqlFalse, b)
  | FOr fs => let '(es, b1) := build_list fs b in (SqlOr es, b1)
  | FNot f => let '(e, b1) := build f b in (SqlNot e, b1)
  | FComparison field op value => build_comparison field op value b
  end.
End Filters.

(** ** Statements *)

(** [st_limit] and [st_offset] of a count are not used. *)
Record Statement : Type := mkStatement {
  st_where : option SqlExpr;
  st_order : list (string * SortDirection);
  st_limit : Z;
  st_offset : Z;
}.

Definition SELECT_PREFIX : string :=
  "SELECT id, data, created_at, updated_at FROM plugin_data WHERE collection = ?1".
Definition COUNT_PREFIX : string := "SELECT COUNT(*) FROM plugin_data WHERE collection = ?1".

Definition where_text (s : Statement) : string :=
  match st_where s with
  | Some e => " AND " +:+ expr_text e
  | None => empty_str
  end.

Definition dir_text (d : SortDirection) : string := match d with Asc => "ASC" | Desc => "DESC" end.

(** The field is part of the text. *)
Definition order_part (s : string * SortDirection) : string :=
  "json_extract(data, '$." +:+ s.1 +:+ "') " +:+ dir_text s.2.

Definition order_text (order : list (string * SortDirection)) : string :=
  match order with
  | [] => empty_str
  | _ => " ORDER BY " +:+ join ", " (order_part <$> order)
  end.

Definition count_text (s : Statement) : string := COUNT_PREFIX +:+ where_text s.

Definition select_text (s : Statement) : string :=
  SELECT_PREFIX +:+ where_text s +:+ order_text (st_order s)
  +:+ " LIMIT " +:+ show_Z (st_limit s) +:+ " OFFSET " +:+ show_Z (st_offset s).

(** Running a statement with its parameters on the rows of the table, or why SQLite
    refuses it. *)
Class Sqlite : Type := {
  json_extract : string → string → SqlValue;
  (** operator, operands; [None] is NULL *)
  sql_compare : string → SqlValue → SqlValue → option bool;
  sql_like : SqlValue → SqlValue → option bool;
  (** whether [ORDER BY] may put a value before another *)
  sql_le : SqlValue → SqlValue → bool;
  run_count : Statement → list SqlValue → list Row → result Z string;
  run_select : Statement → list SqlValue → list Row → result (list Row) string;
  (** [CREATE INDEX] *)
  run_index : string → result unit string;
}.

(** ** What a call reads from outside *)

Record DocDraw : Type := mkDocDraw {
  dd_now : string;
  dd_uuid : string;
  (** why the blocking task does not start, if so *)
  dd_start : option string;
  (** why a transaction does not begin, if so *)
  dd_begin : option string;
  (** why a statement of the call fails, by its position *)
  dd_fault : nat → option string;
  dd_elapsed : Z;
}.

Definition started {A S} (d : DocDraw) (s : S) (k : result A StorageError * S)
    : result A StorageError * S :=
  match dd_start d with
  | Some e => (Err (Internal e), s)
  | None => k
  end.

(** A statement that may fail. *)
Definition stmt {A S} (d : DocDraw) (i : nat) (s : S) (k : result A StorageError * S)
    : result A StorageError * S :=
  match dd_fault d i with
  | Some e => (Err (Internal e), s)
  | None => k
  end.

(** ** Operations *)

Section Operations.
Context `{JsonText} `{Base64Url} `{Sqlite} (default_plugin_id : string).

Definition validated {A S} (name : string) (s : S) (k : result A StorageError * S)
    : result A StorageError * S :=
  match validate_identifier name with
  | Err e => (Err e, s)
  | Ok _ => k
  end.

Definition sqlite_get (collection id : string) (d : DocDraw) (rows : list Row)
    : result json StorageError * list Row :=
  validated collection rows $ started d rows $ stmt d 0 rows $
  match find_row collection id rows with
  | None => (Err (NotFound collection id), rows)
  | Some r => (row_to_document (r_id r) (r_data r) (r_created_at r) (r_updated_at r), rows)
  end.

Definition document_id (doc : json) (fresh : string) : string :=
  default fresh (json_get doc "id" ≫= as_str).

Definition UNIQUE_FAILED : string := "UNIQUE constraint failed: plugin_data.id".

(** [INSERT]: the id is the primary key of the whole table. *)
Definition insert_row (r : Row) (rows : list Row) : result (list Row) string :=
  if existsb (λ r', bool_decide (r_id r' = r_id r)) rows then Err UNIQUE_FAILED
  else Ok (rows ++ [r])%list.

Definition sqlite_create (collection : string) (document : json) (d : DocDraw) (rows : list Row)
    : result json StorageError * list Row :=
  validated collection rows $ started d rows $
  let id := document_id document (dd_uuid d) in
  let data := json_to_string (strip_system document) in
  stmt d 0 rows $
  if bool_decide (is_Some (find_row collection id rows)) then (Err (AlreadyExists collection id), rows) else
  stmt d 1 rows $
  match insert_row (mkRow id default_plugin_id collection data 1 (dd_now d) (dd_now d)) rows with
  | Err e => (Err (Internal e), rows)
  | Ok rows' => (row_to_document id data (dd_now d) (dd_now d), rows')
  end.

(** [UPDATE plugin_data SET data, version + 1, updated_at]. *)
Definition set_data (data now : string) (r : Row) : Row :=
  mkRow (r_id r) (r_plugin_id r) (r_collection r) data (r_version r + 1) (r_created_at r) now.

Definition update_rows (collection id data now : string) (rows : list Row) : list Row :=
  (λ r, if is_row collection id r then set_data data now r else r) <$> rows.

Definition sqlite_update (collection id : string) (document : json) (d : DocDraw) (rows : list Row)
    : result json StorageError * list Row :=
  validated collection rows $ started d rows $
  let data := json_to_string (strip_system document) in
  stmt d 0 rows $
  match find_row collection id rows with
  | None => (Err (NotFound collection id), rows)
  | Some r =>
      let rows' := update_rows collection id data (dd_now d) rows in
      stmt d 1 rows' (row_to_document id data (r_created_at r) (dd_now d), rows')
  end.

(** RFC 7386. *)
Fixpoint json_merge_patch (target patch : json) : json :=
  match patch with
  | JObj p =>
      JObj ((fix go kvs acc :=
               match kvs with
               | [] => acc
               | (k, v) :: kvs' =>
                   go kvs' (match v with
                            | JNull => obj_remove k acc
                            | _ => obj_insert k (json_merge_patch (default JNull (obj_get k acc)) v) acc
                            end)
               end) p (match target with JObj o => o | _ => [] end))
  | _ => patch
  end.

Definition sqlite_partial_update (collection id : string) (patch : json) (d : DocDraw) (rows : list Row)
    : result json StorageError * list Row :=
  validated collection rows $ started d rows $ stmt d 0 rows $
  match find_row collection id rows with
  | None => (Err (NotFound collection id), rows)
  | Some r =>
      match json_from_str (r_data r) with
      | Err e => (Err (Internal ("corrupt JSON in database: " +:+ e)), rows)
      | Ok doc =>
          let data := json_to_string (strip_system (json_merge_patch doc patch)) in
          stmt d 1 rows
            (row_to_document id data (r_created_at r) (dd_now d),
             update_rows collection id data (dd_now d) rows)
      end
  end.

Definition sqlite_delete (collection id : string) (d : DocDraw) (rows : list Row)
    : result unit StorageError * list Row :=
  validated collection rows $ started d rows $ stmt d 0 rows $
  match find_row collection id rows with
  | None => (Err (NotFound collection id), rows)
  | Some _ => (Ok tt, filter (λ r, is_row collection id r = false) rows)
  end.

(** The statement of a filter, with its parameters. *)
Definition where_of (collection : string) (filter : option FilterNode) : option SqlExpr * list SqlValue :=
  match filter with
  | None => (None, [SqlText collection])
  | Some f => let '(e, b) := build f (new_builder 2) in (Some e, SqlText collection :: bind_values b)
  end.

(** [as u64] of a count. *)
Definition count_rows (collection : string) (filter : option FilterNode) (rows : list Row)
    : result Z StorageError :=
  let '(e, params) := where_of collection filter in
  result_map_err (λ e, Internal ("count query failed: " +:+ e))
    (run_count (mkStatement e [] 0 0) params rows).

Definition project (fields : option (list string)) (doc : json) : json :=
  match fields, doc with
  | Some fs, JObj o => JObj (filter (λ kv, kv.1 ∈ fs) o)
  | _, _ => doc
  end.

Definition MAX_PAGE : Z := 1000.

Definition page_limit (q : QueryDescriptor) : Z := Z.min (limit (q_pagination q)) MAX_PAGE.

Definition page_offset (q : QueryDescriptor) : result Z StorageError :=
  match cursor (q_pagination q) with
  | Some c => decode_cursor c
  | None => Ok 0%Z
  end.

Definition row_document (fields : option (list string)) (r : Row) : result json StorageError :=
  let? doc := row_to_document (r_id r) (r_data r) (r_created_at r) (r_updated_at r) in
  Ok (project fields doc).

(** [offset + limit] cannot exceed a u64: SQLite refuses an offset over 2^63 before it is
    computed. The two messages of a refused query are those of [run_select]. *)
Definition query_rows (q : QueryDescriptor) (rows : list Row) : result DocumentList StorageError :=
  let? total := count_rows (q_collection q) (q_filter q) rows in
  let? offset := page_offset q in
  let '(e, params) := where_of (q_collection q) (q_filter q) in
  let? found := result_map_err (λ e, Internal e)
    (run_select (mkStatement e (q_sort q) (page_limit q) offset) params rows) in
  let? docs := try_map (row_document (q_fields q)) found in
  Ok (mkDocumentList docs total
        (if (offset + page_limit q <? total)%Z then Some (encode_cursor (offset + page_limit q)) else None)).

Definition sqlite_query (q : QueryDescriptor) (d : DocDraw) (rows : list Row)
    : result DocumentList StorageError * list Row :=
  validated (q_collection q) rows $ started d rows $ stmt d 0 rows (query_rows q rows, rows).

Definition sqlite_count (collection : string) (filter : option FilterNode) (d : DocDraw) (rows : list Row)
    : result Z StorageError * list Row :=
  validated collection rows $ started d rows $ stmt d 0 rows (count_rows collection filter rows, rows).

(** ** Batches *)

(** A transaction: what it did is kept only if all of it and the commit succeed. *)
Definition transaction {A} (d : DocDraw) (commit : nat) (rows : list Row)
    (body : result A StorageError * list Row) : result A StorageError * list Row :=
  match dd_begin d, body with
  | Some e, _ => (Err (TransactionFailed e), rows)
  | None, (Err e, _) => (Err e, rows)
  | None, (Ok a, rows') =>
      match dd_fault d commit with
      | Some e => (Err (TransactionFailed e), rows)
      | None => (Ok a, rows')
      end
  end.

(** [uuid i] is the fresh id of the [i]-th document. *)
Fixpoint create_all (collection : string) (uuid : nat → string) (d : DocDraw) (i : nat)
    (docs : list json) (rows : list Row) : result (list json) StorageError * list Row :=
  match docs with
  | [] => (Ok [], rows)
  | doc :: docs' =>
      let id := document_id doc (uuid i) in
      let data := json_to_string (strip_system doc) in
      stmt d (S i) rows $
      match insert_row (mkRow id default_plugin_id collection data 1 (dd_now d) (dd_now d)) rows with
      | Err _ => (Err (AlreadyExists collection id), rows)
      | Ok rows1 =>
          match row_to_document id data (dd_now d) (dd_now d) with
          | Err e => (Err e, rows1)
          | Ok r =>
              match create_all collection uuid d (S i) docs' rows1 with
              | (Err e, rows2) => (Err e, rows2)
              | (Ok rs, rows2) => (Ok (r :: rs), rows2)
              end
          end
      end
  end.

Definition sqlite_batch_create (collection : string) (docs : list json) (uuid : nat → string)
    (d : DocDraw) (rows : list Row) : result (list json) StorageError * list Row :=
  validated collection rows $ started d rows $
  transaction d 0 rows (create_all collection uuid d 0 docs rows).

Fixpoint update_all (collection : string) (d : DocDraw) (i : nat) (updates : list (string * json))
    (rows : list Row) : result (list json) StorageError * list Row :=
  match updates with
  | [] => (Ok [], rows)
  | (id, doc) :: updates' =>
      let data := json_to_string (strip_system doc) in
      stmt d (S i) rows $
      match find_row collection id rows with
      | None => (Err (NotFound collection id), rows)
      | Some r =>
          let rows1 := update_rows collection id data (dd_now d) rows in
          match row_to_document id data (r_created_at r) (dd_now d) with
          | Err e => (Err e, rows1)
          | Ok doc' =>
              match update_all collection d (S i) updates' rows1 with
              | (Err e, rows2) => (Err e, rows2)
              | (Ok rs, rows2) => (Ok (doc' :: rs), rows2)
              end
          end
      end
  end.

Definition sqlite_batch_update (collection : string) (updates : list (string * json)) (d : DocDraw)
    (rows : list Row) : result (list json) StorageError * list Row :=
  validated collection rows $ started d rows $
  transaction d 0 rows (update_all collection d 0 updates rows).

Definition delete_all (collection : string) (ids : list string) (rows : list Row)
    : result unit StorageError * list Row :=
  let doomed := filter (λ r, r_collection r = collection ∧ r_id r ∈ ids) rows in
  let rows' := filter (λ r, ¬ (r_collection r = collection ∧ r_id r ∈ ids)) rows in
  if bool_decide (length doomed = length ids) then (Ok tt, rows')
  else (Err (Internal ("batch_delete expected to delete " +:+ show_nat (length ids)
                       +:+ " rows but deleted " +:+ show_nat (length doomed))), rows').

Definition sqlite_batch_delete (collection : string) (ids : list string) (d : DocDraw) (rows : list Row)
    : result unit StorageError * list Row :=
  validated collection rows $
  match ids with
  | [] => (Ok tt, rows)
  | _ => started d rows $ transaction d 0 rows (stmt d 1 rows (delete_all collection ids rows))
  end.

(** ** Migration and health *)

Record CollectionDescriptor : Type := mkCollectionDescriptor {
  cd_name : string;
  cd_plugin_id : string;
  cd_indexes : list string;
}.

(** The schema_versions table and the indexes created. *)
Record SchemaDb : Type := mkSchemaDb {
  schema_versions : gmap (string * string) (Z * string);
  indexes : list string;
}.

(** [s.replace(a, "_")] for a dot and a dash. *)
Fixpoint underscored (s : string) : string :=
  match s with
  | EmptyString => s
  | String c s' =>
      String (if bool_decide (c = "."%char) || bool_decide (c = "-"%char) then "_"%char else c) (underscored s')
  end.

Definition hint_char (c : ascii) : bool :=
  is_ascii_alphanumeric c || bool_decide (c = "_"%char) || bool_decide (c = "."%char).

Definition index_name (cd : CollectionDescriptor) (hint : string) : string :=
  "idx_" +:+ underscored (cd_plugin_id cd) +:+ "_" +:+ underscored (cd_name cd) +:+ "_" +:+ underscored hint.

Definition index_text (cd : CollectionDescriptor) (hint : string) : string :=
  "CREATE INDEX IF NOT EXISTS " +:+ index_name cd hint
  +:+ " ON plugin_data(collection, json_extract(data, '$." +:+ hint +:+ "'))".

Fixpoint create_indexes (cd : CollectionDescriptor) (hints : list string) (s : SchemaDb)
    : result unit StorageError * SchemaDb :=
  match hints with
  | [] => (Ok tt, s)
  | hint :: hints' =>
      if negb (all_chars hint_char hint) then create_indexes cd hints' s
      else match run_index (index_text cd hint) with
           | Err e => (Err (Internal ("index creation failed: " +:+ e)), s)
           | Ok _ =>
               let name := index_name cd hint in
               create_indexes cd hints'
                 (mkSchemaDb (schema_versions s)
                    (if bool_decide (name ∈ indexes s) then indexes s else (indexes s ++ [name])%list))
           end
  end.

Definition sqlite_migrate (cd : CollectionDescriptor) (d : DocDraw) (s : SchemaDb)
    : result unit StorageError * SchemaDb :=
  validated (cd_name cd) s $ started d s $ stmt d 0 s $
  let key := (cd_plugin_id cd, cd_name cd) in
  let version := match schema_versions s !! key with Some (v, _) => v | None => 1%Z end in
  create_indexes cd (cd_indexes cd)
    (mkSchemaDb (<[key := (version, dd_now d)]> (schema_versions s)) (indexes s)).

Definition status_check (name : string) (r : result unit string) : string * HealthStatus * option string :=
  match r with
  | Ok _ => (name, Healthy, None)
  | Err e => (name, Unhealthy, Some e)
  end.

(** [SELECT 1], [PRAGMA journal_mode] and a scratch table. *)
Definition sqlite_health (conn : result unit string) (journal : result string string)
    (write : result unit string) : HealthReport :=
  let wal := match journal with
             | Ok mode =>
                 if bool_decide (mode = "wal") then ("wal_mode", Healthy, None)
                 else ("wal_mode", Degraded, Some ("expected WAL mode, got " +:+ mode))
             | Err e => ("wal_mode", Unhealthy, Some e)
             end in
  let checks := [status_check "connection" conn; wal; status_check "write" write] in
  mkHealthReport (foldr (λ c s, worst_status c.1.2 s) Healthy checks) None checks.
End Operations.

Definition sqlite_capabilities : AdapterCapabilities := mkAdapterCaps true true false false true true.

(** ** The adapter *)

(** The table, and what the calls still to come will read from outside. *)
Record SqliteWorld : Type := mkSqliteWorld {
  sw_rows : list Row;
  sw_draws : nat → DocDraw;
  sw_next : nat;
}.

Definition sw_draw (w : SqliteWorld) : DocDraw := sw_draws w (sw_next w).

Definition sqlite_call {A} (op : DocDraw → list Row → result A StorageError * list Row)
    (w : SqliteWorld) : result A StorageError * Z * SqliteWorld :=
  let '(r, rows) := op (sw_draw w) (sw_rows w) in
  (r, dd_elapsed (sw_draw w), mkSqliteWorld rows (sw_draws w) (S (sw_next w))).

(** An operation of one of two adapters side by side. *)
Definition on_fst {A B X} (op : call A X) : call (A * B) X := λ w,
  let '(r, t, a) := op w.1 in (r, t, (a, w.2)).
Definition on_snd {A B X} (op : call B X) : call (A * B) X := λ w,
  let '(r, t, b) := op w.2 in (r, t, (w.1, b)).

(** Documents in SQLite, blobs with another adapter. *)
Definition sqlite_adapters `{JsonText} `{Base64Url} `{Sqlite} (plugin_id : string)
    {B} `{Adapters B} : Adapters (SqliteWorld * B) := {|
  adapter_get c i := on_fst (sqlite_call (sqlite_get c i));
  adapter_create c doc := on_fst (sqlite_call (sqlite_create plugin_id c doc));
  adapter_update c i doc := on_fst (sqlite_call (sqlite_update c i doc));
  adapter_partial_update c i p := on_fst (sqlite_call (sqlite_partial_update c i p));
  adapter_delete c i := on_fst (sqlite_call (sqlite_delete c i));
  adapter_query q := on_fst (sqlite_call (sqlite_query q));
  adapter_count c f := on_fst (sqlite_call (sqlite_count c f));
  (* an empty channel *)
  adapter_watch _ := on_fst (λ w, (Ok [], 0%Z, w));
  blob_adapter_store k i := on_snd (blob_adapter_store k i);
  blob_adapter_retrieve k := on_snd (blob_adapter_retrieve k);
  blob_adapter_delete k := on_snd (blob_adapter_delete k);
  blob_adapter_exists k := on_snd (blob_adapter_exists k);
  blob_adapter_copy k l := on_snd (blob_adapter_copy k l);
  blob_adapter_list p := on_snd (blob_adapter_list p);
  blob_adapter_metadata k := on_snd (blob_adapter_metadata k);
|}.
