(* ===== verification/SqliteQueryFacts.v ===== *)
(** * Facts about queries on SQLite

    The condition built for a filter means the filter, and its parameters fit it;
    walking the pages of a query returns every matching document once, if its sort keys
    tell them apart. *)

From stdpp Require Import base tactics list strings gmap sorting.
From Stdlib Require Import Ascii ZArith Lia.
From S2P Require Import Prelude RustString Json Types Storage SchemaVersioning SqliteDoc.

(** ** SQL conditions *)

(** Three-valued logic: [None] is NULL. *)
Definition kand (a b : option bool) : option bool :=
  match a, b with
  | Some false, _ | _, Some false => Some false
  | Some true, Some true => Some true
  | _, _ => None
  end.
Definition kor (a b : option bool) : option bool :=
  match a, b with
  | Some true, _ | _, Some true => Some true
  | Some false, Some false => Some false
  | _, _ => None
  end.
Definition knot (a : option bool) : option bool := negb <$> a.

Definition is_null (v : SqlValue) : bool := match v with SqlNull => true | _ => false end.

Section Eval.
Context `{Sqlite} (params : list SqlValue) (data : string).

Definition param (n : nat) : SqlValue := default SqlNull (params !! pred n).

Definition extract (path : nat) : SqlValue :=
  match param path with
  | SqlText p => json_extract p data
  | _ => SqlNull
  end.

Definition member_of (x : SqlValue) (vs : list SqlValue) : option bool :=
  foldr (λ v a, kor (sql_compare "=" x v) a) (Some false) vs.

Fixpoint eval (e : SqlExpr) : option bool :=
  match e with
  | SqlTrue => Some true
  | SqlFalse => Some false
  | SqlNotNull p => Some (negb (is_null (extract p)))
  | SqlIn p vs => member_of (extract p) (param <$> vs)
  | SqlNotIn p vs => knot (member_of (extract p) (param <$> vs))
  | SqlLike p v => sql_like (extract p) (param v)
  | SqlCmp p op v => sql_compare op (extract p) (param v)
  | SqlAnd es => foldr (λ e a, kand (eval e) a) (Some true) es
  | SqlOr es => foldr (λ e a, kor (eval e) a) (Some false) es
  | SqlNot e => knot (eval e)
  end.
End Eval.

Section FilterInd.
Context (P : FilterNode → Prop).
Context (Hand : ∀ fs, Forall P fs → P (FAnd fs)) (Hor : ∀ fs, Forall P fs → P (FOr fs)).
Context (Hnot : ∀ f, P f → P (FNot f)) (Hcmp : ∀ field op v, P (FComparison field op v)).

Fixpoint filter_nested_ind (f : FilterNode) : P f :=
  let all := fix go l : Forall P l :=
    match l with
    | [] => Forall_nil_2 P
    | x :: l' => Forall_cons_2 P x l' (filter_nested_ind x) (go l')
    end in
  match f with
  | FAnd fs => Hand fs (all fs)
  | FOr fs => Hor fs (all fs)
  | FNot f => Hnot f (filter_nested_ind f)
  | FComparison field op v => Hcmp field op v
  end.
End FilterInd.

Section Where.
Context `{JsonText} `{Sqlite}.

(** What a filter says of a row's data, on the values SQLite extracts. *)
Definition comparison_holds (field : string) (op : FilterOperator) (value : json) (data : string)
    : option bool :=
  let x := json_extract ("$." +:+ field)%string data in
  let y := json_value_to_boxed_sql value in
  match op with
  | FExists => Some (negb (is_null x))
  | FIn => match value with
           | JArr vs => member_of x (json_value_to_boxed_sql <$> vs)
           | _ => Some false
           end
  | FNotIn => match value with
              | JArr vs => knot (member_of x (json_value_to_boxed_sql <$> vs))
              | _ => Some true
              end
  | FContains => sql_like x (SqlText ("%" +:+ json_value_to_string value +:+ "%")%string)
  | FStartsWith => sql_like x (SqlText (json_value_to_string value +:+ "%")%string)
  | _ => sql_compare (sql_op op) x y
  end.

Fixpoint filter_holds (f : FilterNode) (data : string) : option bool :=
  match f with
  | FAnd fs => foldr (λ f a, kand (filter_holds f data) a) (Some true) fs
  | FOr fs => foldr (λ f a, kor (filter_holds f data) a) (Some false) fs
  | FNot f => knot (filter_holds f data)
  | FComparison field op value => comparison_holds field op value data
  end.

(** A builder's parameters hold the values it bound, each at its number. *)
Definition extends (b b' : WhereBuilder) (vs : list SqlValue) : Prop :=
  bind_values b' = bind_values b ++ vs ∧ param_idx b' = param_idx b + length vs.

Definition provides (params : list SqlValue) (start : nat) (vs : list SqlValue) : Prop :=
  ∀ i v, vs !! i = Some v → params !! pred (start + i) = Some v.

Lemma provides_app params start vs ws :
  provides params start (vs ++ ws) → provides params start vs ∧ provides params (start + length vs) ws.
Proof.
  intros Hp. split; intros i v Hi.
  - apply Hp. by apply lookup_app_l_Some.
  - rewrite <- Nat.add_assoc. apply Hp. rewrite lookup_app_r by lia. by rewrite Nat.add_sub_swap, Nat.sub_diag by lia.
Qed.

Lemma provides_seq params start vs :
  provides params start vs → (param params <$> seq start (length vs)) = vs.
Proof.
  revert start. induction vs as [|v vs IH]; intros start Hp; [done|]. simpl. f_equal.
  - unfold param. rewrite (Hp 0 v); [done|done] || (rewrite <- (Nat.add_0_r start); by rewrite (Hp 0 v)).
  - apply IH. intros i w Hi. specialize (Hp (S i) w Hi). by rewrite Nat.add_succ_r in Hp.
Qed.

(** [e] was built from [b] to [b'] and means what [holds] says. *)
Definition means (b b' : WhereBuilder) (e : SqlExpr) (holds : string → option bool) : Prop :=
  ∃ vs, extends b b' vs ∧
    ∀ params data, provides params (param_idx b) vs → eval params data e = holds data.

Lemma comparison_means field op value b e b' :
  build_comparison field op value b = (e, b') → means b b' e (comparison_holds field op value).
Proof.
  unfold build_comparison, comparison_holds. simpl. set (p := SqlText ("$." +:+ field)%string). intros Hb.
  assert (∀ params data vs, provides params (param_idx b) (p :: vs) →
    extract params data (param_idx b) = json_extract ("$." +:+ field)%string data) as Hx.
  { intros params data vs Hp. unfold extract, param. specialize (Hp 0 p eq_refl).
    rewrite Nat.add_0_r in Hp. by rewrite Hp. }
  assert (∀ params v vs, provides params (param_idx b) (p :: v :: vs) →
    param params (S (param_idx b)) = v) as Hv.
  { intros params v vs Hp. unfold param. specialize (Hp 1 v eq_refl). rewrite Nat.add_1_r in Hp. by rewrite Hp. }
  assert (∀ params vs, provides params (param_idx b) (p :: vs) →
    (param params <$> seq (S (param_idx b)) (length vs)) = vs) as Hvs.
  { intros params vs Hp. apply (provides_app params (param_idx b) [p] vs) in Hp as [_ Hp].
    rewrite Nat.add_1_r in Hp. by apply provides_seq. }
  destruct op; simpl in Hb; try (simplify_eq; eexists [p; _]; split;
    [split; simpl; [by rewrite <- app_assoc|lia]|intros params data Hp; simpl;
     rewrite (Hx _ _ _ Hp), (Hv _ _ _ Hp); done]).
  - destruct value as [| | | |[|x xs]|]; simpl in Hb; simplify_eq;
      try (exists [p]; split; [split; simpl; [done|lia]|done]).
    eexists (p :: _). split; [split; simpl; [by rewrite <- app_assoc|simpl; rewrite length_fmap; lia]|].
    intros params data Hp. cbn [eval]. rewrite (Hx _ _ _ Hp). f_equal. exact (Hvs _ _ Hp).
  - destruct value as [| | | |[|x xs]|]; simpl in Hb; simplify_eq;
      try (exists [p]; split; [split; simpl; [done|lia]|done]).
    eexists (p :: _). split; [split; simpl; [by rewrite <- app_assoc|simpl; rewrite length_fmap; lia]|].
    intros params data Hp. cbn [eval]. rewrite (Hx _ _ _ Hp). do 2 f_equal. exact (Hvs _ _ Hp).
  - simplify_eq. exists [p]. split; [split; simpl; [done|lia]|]. intros params data Hp. simpl.
    by rewrite (Hx _ _ _ Hp).
Qed.

Fixpoint build_all (fs : list FilterNode) (b : WhereBuilder) : list SqlExpr * WhereBuilder :=
  match fs with
  | [] => ([], b)
  | f :: fs' =>
      let '(e, b1) := build f b in
      let '(es, b2) := build_all fs' b1 in
      (e :: es, b2)
  end.

Lemma build_and f fs b :
  build (FAnd (f :: fs)) b = let '(es, b1) := build_all (f :: fs) b in (SqlAnd es, b1).
Proof. reflexivity. Qed.
Lemma build_or f fs b :
  build (FOr (f :: fs)) b = let '(es, b1) := build_all (f :: fs) b in (SqlOr es, b1).
Proof. reflexivity. Qed.

(** The same for a list of conditions joined by an operator. *)
Lemma build_all_means (op : option bool → option bool → option bool) unit fs b es b' :
  Forall (λ f, ∀ b e b', build f b = (e, b') → means b b' e (filter_holds f)) fs →
  build_all fs b = (es, b') →
  ∃ vs, extends b b' vs ∧ ∀ params data, provides params (param_idx b) vs →
    foldr (λ e a, op (eval params data e) a) unit es = foldr (λ f a, op (filter_holds f data) a) unit fs.
Proof.
  intros Hfs. revert b es b'. induction Hfs as [|f fs Hf Hfs IH]; intros b es b' Hb; simpl in Hb.
  { simplify_eq. exists []. split; [split; [by rewrite app_nil_r|simpl; lia]|done]. }
  destruct (build f b) as [e b1] eqn:Ef. destruct (build_all fs b1) as [es' b2] eqn:Efs. simplify_eq.
  apply Hf in Ef as (vs & [Hv1 Hi1] & Hm1). apply IH in Efs as (ws & [Hv2 Hi2] & Hm2).
  exists (vs ++ ws). split.
  { split; [by rewrite Hv2, Hv1, <- app_assoc|rewrite length_app; lia]. }
  intros params data Hp. apply provides_app in Hp as [Hp1 Hp2]. simpl.
  rewrite (Hm1 _ _ Hp1), (Hm2 params data); [done|]. by rewrite Hi1.
Qed.

Lemma build_means f b e b' : build f b = (e, b') → means b b' e (filter_holds f).
Proof.
  revert b e b'. induction f as [fs IH|fs IH|f IH|field op v] using filter_nested_ind; intros b e b' Hb.
  - destruct fs as [|f fs].
    { simpl in Hb. simplify_eq. exists []. split; [split; [by rewrite app_nil_r|simpl; lia]|done]. }
    rewrite build_and in Hb. destruct (build_all (f :: fs) b) as [es b1] eqn:E. simplify_eq.
    exact (build_all_means kand (Some true) _ _ _ _ IH E).
  - destruct fs as [|f fs].
    { simpl in Hb. simplify_eq. exists []. split; [split; [by rewrite app_nil_r|simpl; lia]|done]. }
    rewrite build_or in Hb. destruct (build_all (f :: fs) b) as [es b1] eqn:E. simplify_eq.
    exact (build_all_means kor (Some false) _ _ _ _ IH E).
  - simpl in Hb. destruct (build f b) as [e1 b1] eqn:E. simplify_eq.
    apply IH in E as (vs & He & Hm). exists vs. split; [done|]. intros params data Hp. simpl.
    by rewrite (Hm _ _ Hp).
  - by apply comparison_means.
Qed.

(** The condition a row must meet. *)
Definition row_matches (collection : string) (f : option FilterNode) (r : Row) : Prop :=
  r_collection r = collection ∧ from_option (λ f, filter_holds f (r_data r) = Some true) True f.
#[global] Instance row_matches_dec c f r : Decision (row_matches c f r).
Proof. unfold row_matches. destruct f; simpl; apply _. Defined.

(** The same of a statement and its parameters: what SQLite's WHERE selects. *)
Definition selected (e : option SqlExpr) (params : list SqlValue) (r : Row) : Prop :=
  params !! 0 = Some (SqlText (r_collection r)) ∧
  from_option (λ e, eval params (r_data r) e = Some true) True e.

Lemma where_selects collection f r :
  let '(e, params) := where_of collection f in
  selected e params r ↔ row_matches collection f r.
Proof.
  unfold where_of, selected, row_matches. destruct f as [f|]; simpl.
  2: { split; [intros [? _]; by simplify_eq|by intros [-> _]]. }
  destruct (build f (new_builder 2)) as [e b] eqn:E. simpl.
  apply build_means in E as (vs & [Hv _] & Hm). simpl in Hv. rewrite Hv.
  rewrite (Hm (SqlText collection :: vs)); [naive_solver|]. intros i v Hi. exact Hi.
Qed.

(** *** The number of parameters *)

(** The largest parameter that occurs. *)
Fixpoint max_param (e : SqlExpr) : nat :=
  match e with
  | SqlTrue | SqlFalse => 0
  | SqlNotNull p => p
  | SqlIn p vs | SqlNotIn p vs => foldr max p vs
  | SqlLike p v | SqlCmp p _ v => p `max` v
  | SqlAnd es | SqlOr es => foldr (λ e n, max_param e `max` n) 0 es
  | SqlNot e => max_param e
  end.

(** Every parameter that is bound occurs up to the last one, as rusqlite requires. *)
Definition fits (e : option SqlExpr) (params : list SqlValue) : Prop :=
  length params = 1 `max` from_option max_param 0 e.

(** A comparison that binds its path and does not use it. *)
Definition vacuous (op : FilterOperator) (value : json) : bool :=
  match op, value with
  | (FIn | FNotIn), JArr (_ :: _) => false
  | (FIn | FNotIn), _ => true
  | _, _ => false
  end.

(** Whether the last comparison of a filter, if there is one, is vacuous. *)
Fixpoint ends_vacuous (f : FilterNode) : option bool :=
  match f with
  | FAnd fs | FOr fs =>
      foldr (λ f a, match a with Some x => Some x | None => ends_vacuous f end) None fs
  | FNot f => ends_vacuous f
  | FComparison _ op value => Some (vacuous op value)
  end.

Lemma foldr_max_seq p start n : p ≤ start → foldr max p (seq start (S n)) = start + n.
Proof.
  revert start. induction n as [|n IH]; intros start Hp; [simpl; lia|].
  change (seq start (S (S n))) with (start :: seq (S start) (S n)). cbn [foldr].
  rewrite IH by lia. lia.
Qed.

(** The largest parameter reached, from the builder before and after. *)
Definition reaches (b b' : WhereBuilder) (m : nat) (v : option bool) : Prop :=
  match v with
  | None => b' = b ∧ m = 0
  | Some false => S m = param_idx b'
  | Some true => S m < param_idx b' ∧ param_idx b < param_idx b'
  end.

Lemma comparison_reaches field op value b e b' :
  1 ≤ param_idx b →
  build_comparison field op value b = (e, b') → reaches b b' (max_param e) (Some (vacuous op value)).
Proof.
  unfold build_comparison. simpl. intros Hi Hb.
  destruct op; simpl in *; simplify_eq; simpl; try lia.
  - destruct value as [| | | |[|x xs]|]; simpl in *; simplify_eq/=; try lia.
    rewrite length_fmap. destruct (length xs) as [|n]; [simpl; lia|].
    pose proof (foldr_max_seq (param_idx b) (S (S (param_idx b))) n). simpl in *. lia.
  - destruct value as [| | | |[|x xs]|]; simpl in *; simplify_eq/=; try lia.
    rewrite length_fmap. destruct (length xs) as [|n]; [simpl; lia|].
    pose proof (foldr_max_seq (param_idx b) (S (S (param_idx b))) n). simpl in *. lia.
Qed.

Lemma build_grows f b e b' : build f b = (e, b') → param_idx b ≤ param_idx b'.
Proof. intros (vs & [_ ->] & _)%build_means. lia. Qed.

Lemma build_all_extends fs b es b' : build_all fs b = (es, b') → ∃ vs, extends b b' vs.
Proof.
  intros Hb. destruct (build_all_means kand (Some true) fs b es b') as (vs & Hv & _); [|done|by exists vs].
  apply Forall_forall. intros f _ b0 e b0'. apply build_means.
Qed.

Lemma reaches_below b b' m v : reaches b b' m v → 1 ≤ param_idx b → m < param_idx b'.
Proof. destruct v as [[]|]; simpl; [lia|lia|]. intros [-> ->]. lia. Qed.

Lemma build_all_reaches fs b es b' :
  Forall (λ f, ∀ b e b', 1 ≤ param_idx b → build f b = (e, b') →
    reaches b b' (max_param e) (ends_vacuous f)) fs →
  1 ≤ param_idx b → build_all fs b = (es, b') →
  reaches b b' (foldr (λ e n, max_param e `max` n) 0 es)
    (foldr (λ f a, match a with Some x => Some x | None => ends_vacuous f end) None fs).
Proof.
  intros Hfs. revert b es b'. induction Hfs as [|f fs Hf Hfs IH]; intros b es b' Hi Hb; simpl in Hb.
  { by simplify_eq. }
  destruct (build f b) as [e b1] eqn:Ef. destruct (build_all fs b1) as [es' b2] eqn:Efs. simplify_eq.
  pose proof (build_grows _ _ _ _ Ef) as Hg. pose proof (Hf _ _ _ Hi Ef) as Hr1.
  pose proof (reaches_below _ _ _ _ Hr1 Hi) as Hm1.
  destruct (build_all_extends _ _ _ _ Efs) as (ws & _ & Hg2). apply IH in Efs as Hr2; [|lia]. simpl. destruct (foldr _ None fs) as [[]|]; simpl in *.
  - lia.
  - lia.
  - destruct Hr2 as [-> ->]. by rewrite Nat.max_0_r.
Qed.

Lemma build_reaches f b e b' :
  1 ≤ param_idx b → build f b = (e, b') → reaches b b' (max_param e) (ends_vacuous f).
Proof.
  revert b e b'. induction f as [fs IH|fs IH|f IH|field op v] using filter_nested_ind; intros b e b' Hi Hb.
  - destruct fs as [|f fs]; [simpl in Hb; simplify_eq; by split|].
    rewrite build_and in Hb. destruct (build_all (f :: fs) b) as [es b1] eqn:E. simplify_eq.
    exact (build_all_reaches _ _ _ _ IH Hi E).
  - destruct fs as [|f fs]; [simpl in Hb; simplify_eq; by split|].
    rewrite build_or in Hb. destruct (build_all (f :: fs) b) as [es b1] eqn:E. simplify_eq.
    exact (build_all_reaches _ _ _ _ IH Hi E).
  - simpl in Hb. destruct (build f b) as [e1 b1] eqn:E. simplify_eq. exact (IH _ _ _ Hi E).
  - by apply comparison_reaches in Hb.
Qed.

(** The parameters of a filter fit its condition, unless the filter ends in a
    comparison with an empty list. *)
Lemma where_fits collection f :
  let '(e, params) := where_of collection f in
  fits e params ↔ (f ≫= ends_vacuous) ≠ Some true.
Proof.
  unfold where_of, fits. destruct f as [f|]; simpl; [|done].
  destruct (build f (new_builder 2)) as [e b] eqn:E. simpl.
  assert (1 ≤ param_idx (new_builder 2)) as H1 by (simpl; lia). pose proof (build_reaches f _ _ _ H1 E) as Hr.
  apply build_means in E as (vs & [Hv Hi] & _). simpl in Hv, Hi. rewrite Hv.
  destruct (ends_vacuous f) as [[]|]; simpl in Hr |- *.
  - split; [lia|done].
  - split; [done|lia].
  - destruct Hr as [Hb ->]. rewrite Hb in Hi. simpl in *. split; [done|lia].
Qed.

(** *** Plain fields *)

(** A name that needs no quoting in a JSON path. *)
Definition plain_field (s : string) : bool :=
  negb (is_empty s) && all_chars (λ c, is_ascii_alphanumeric c || bool_decide (c = "_"%char)) s.

Fixpoint plain_filter (f : FilterNode) : bool :=
  match f with
  | FAnd fs | FOr fs => forallb plain_filter fs
  | FNot f => plain_filter f
  | FComparison field _ _ => plain_field field
  end.

Definition plain_path (params : list SqlValue) (n : nat) : Prop :=
  ∃ field, plain_field field = true ∧ params !! pred n = Some (SqlText ("$." +:+ field)%string).

Fixpoint plain_expr (params : list SqlValue) (e : SqlExpr) : Prop :=
  match e with
  | SqlTrue | SqlFalse => True
  | SqlNotNull p | SqlIn p _ | SqlNotIn p _ | SqlLike p _ | SqlCmp p _ _ => plain_path params p
  | SqlAnd es | SqlOr es => foldr (λ e P, plain_expr params e ∧ P) True es
  | SqlNot e => plain_expr params e
  end.

Lemma comparison_plain field op value b e b' params vs :
  build_comparison field op value b = (e, b') → extends b b' vs → provides params (param_idx b) vs →
  plain_field field = true → plain_expr params e.
Proof.
  unfold build_comparison. simpl. intros Hb [Hv _] Hp Hf.
  assert (∀ ws, vs = SqlText ("$." +:+ field)%string :: ws → plain_path params (param_idx b)) as Hpath.
  { intros ws ->. exists field. split; [done|]. specialize (Hp 0 _ eq_refl). by rewrite Nat.add_0_r in Hp. }
  destruct op; simpl in Hb; try destruct value as [| | | |[|x xs]|]; simpl in Hb; injection Hb as <- <-;
    simpl in Hv |- *; try done; rewrite <- ?app_assoc in Hv; apply app_inv_head in Hv; by eapply Hpath.
Qed.

Lemma build_all_plain params fs b es b' vs :
  Forall (λ f, ∀ b e b' vs, build f b = (e, b') → extends b b' vs → provides params (param_idx b) vs →
    plain_filter f = true → plain_expr params e) fs →
  build_all fs b = (es, b') → extends b b' vs → provides params (param_idx b) vs →
  forallb plain_filter fs = true → foldr (λ e P, plain_expr params e ∧ P) True es.
Proof.
  intros Hfs. revert b es vs. induction Hfs as [|f fs Hf Hfs IH]; intros b es vs Hb Hext Hp Hpl; simpl in Hb.
  { by simplify_eq. }
  destruct (build f b) as [e b1] eqn:Ef. destruct (build_all fs b1) as [es' b2] eqn:Efs. simplify_eq.
  simpl in Hpl. apply andb_true_iff in Hpl as [Hpf Hpl].
  destruct (build_means _ _ _ _ Ef) as (ws & [Hw1 Hw2] & _).
  destruct (build_all_extends _ _ _ _ Efs) as (us & Hu1 & Hu2). destruct Hext as [Hx1 _].
  rewrite Hu1, Hw1, <- app_assoc in Hx1. apply app_inv_head in Hx1 as <-.
  apply provides_app in Hp as [Hp1 Hp2]. simpl. split; [by eapply Hf|].
  eapply IH; [done|done| |done]. by rewrite Hw2.
Qed.

Lemma build_plain f b e b' params vs :
  build f b = (e, b') → extends b b' vs → provides params (param_idx b) vs →
  plain_filter f = true → plain_expr params e.
Proof.
  revert b e b' vs. induction f as [fs IH|fs IH|f IH|field op v] using filter_nested_ind;
    intros b e b' vs Hb Hext Hp Hpl.
  - destruct fs as [|f fs]; [simpl in Hb; by simplify_eq|].
    rewrite build_and in Hb. destruct (build_all (f :: fs) b) as [es b1] eqn:E. simplify_eq.
    exact (build_all_plain _ _ _ _ _ _ IH E Hext Hp Hpl).
  - destruct fs as [|f fs]; [simpl in Hb; by simplify_eq|].
    rewrite build_or in Hb. destruct (build_all (f :: fs) b) as [es b1] eqn:E. simplify_eq.
    exact (build_all_plain _ _ _ _ _ _ IH E Hext Hp Hpl).
  - simpl in Hb. destruct (build f b) as [e1 b1] eqn:E. simplify_eq. exact (IH _ _ _ _ E Hext Hp Hpl).
  - by eapply comparison_plain.
Qed.

Lemma where_plain collection f :
  from_option plain_filter true f = true →
  let '(e, params) := where_of collection f in from_option (plain_expr params) True e.
Proof.
  unfold where_of. destruct f as [f|]; simpl; [|done]. intros Hf.
  destruct (build f (new_builder 2)) as [e b] eqn:E. simpl.
  destruct (build_means _ _ _ _ E) as (vs & Hext & _). pose proof Hext as [Hv _]. simpl in Hv.
  eapply (build_plain f _ _ _ _ vs E Hext); [|done]. rewrite Hv. intros i v Hi. exact Hi.
Qed.
End Where.

(** ** Queries *)

#[export] Instance selected_dec `{Sqlite} e params r : Decision (selected e params r).
Proof. unfold selected. destruct e; simpl; apply _. Defined.

Definition misfit_text (e : option SqlExpr) : string :=
  let needed := 1 `max` from_option max_param 0 e in
  ("Wrong number of parameters passed to query. Got " +:+ show_nat (S needed)
   +:+ ", needed " +:+ show_nat needed)%string.

(** *** The order of rows *)

Section Order.
Context `{Sqlite}.

Definition key_le (s : string * SortDirection) (r1 r2 : Row) : bool :=
  let x := json_extract ("$." +:+ s.1)%string (r_data r1) in
  let y := json_extract ("$." +:+ s.1)%string (r_data r2) in
  match s.2 with
  | Asc => sql_le x y
  | Desc => sql_le y x
  end.

(** A row may come before another in an [ORDER BY]: the first key that tells them apart
    decides, and rows that no key tells apart may come in either order. *)
Fixpoint sort_le (order : list (string * SortDirection)) (r1 r2 : Row) : bool :=
  match order with
  | [] => true
  | s :: order' => key_le s r1 r2 && (negb (key_le s r2 r1) || sort_le order' r1 r2)
  end.

(** The rows [found] are the page from [offset] of the given rows, put in some order that
    agrees with the keys. SQLite says nothing more about the order, and two statements
    need not agree on it. *)
Definition page_of (order : list (string * SortDirection)) (limit offset : Z) (rows found : list Row) : Prop :=
  ∃ all, all ≡ₚ rows ∧ StronglySorted (sort_le order) all ∧
    found = take (Z.to_nat limit) (drop (Z.to_nat offset) all).

Lemma page_of_elem order limit offset rows found r :
  page_of order limit offset rows found → r ∈ found → r ∈ rows.
Proof.
  intros (all & Hall & _ & ->) Hr. rewrite <- Hall. eapply subseteq_drop, subseteq_take, Hr.
Qed.
End Order.

(** [ORDER BY] compares any two values, and consistently. *)
Class SqlOrder `{Sqlite} : Prop := {
  sql_le_total x y : sql_le x y = true ∨ sql_le y x = true;
  sql_le_trans x y z : sql_le x y = true → sql_le y z = true → sql_le x z = true;
}.

Section OrderFacts.
Context `{SqlOrder}.

Lemma key_le_total s r1 r2 : key_le s r1 r2 = true ∨ key_le s r2 r1 = true.
Proof. unfold key_le. destruct s.2; apply sql_le_total. Qed.

Lemma key_le_trans s r1 r2 r3 : key_le s r1 r2 = true → key_le s r2 r3 = true → key_le s r1 r3 = true.
Proof. unfold key_le. destruct s.2; intros; by eapply sql_le_trans. Qed.

#[export] Instance sort_le_total order : Total (sort_le order).
Proof.
  intros r1 r2. induction order as [|s order IH]; [by left|]. simpl.
  pose proof (key_le_total s r1 r2). destruct (key_le s r1 r2), (key_le s r2 r1); simpl; naive_solver.
Qed.

#[export] Instance sort_le_trans order : Transitive (sort_le order).
Proof.
  intros r1 r2 r3. induction order as [|s order IH]; [done|]. simpl.
  pose proof (key_le_trans s r1 r2 r3). pose proof (key_le_trans s r3 r1 r2). pose proof (key_le_trans s r2 r3 r1).
  destruct (key_le s r1 r2), (key_le s r2 r1), (key_le s r2 r3), (key_le s r3 r2), (key_le s r1 r3), (key_le s r3 r1);
    simpl in *; naive_solver.
Qed.
End OrderFacts.

(** SQLite and rusqlite, on statements whose JSON paths need no quoting. *)
Class SqliteLaws `{Sqlite} : Prop := {
  #[global] sqlite_order :: SqlOrder;
  run_count_ok st params rows :
    fits (st_where st) params → from_option (plain_expr params) True (st_where st) →
    run_count st params rows = Ok (Z.of_nat (length (filter (selected (st_where st) params) rows)));
  run_select_ok st params rows :
    fits (st_where st) params → from_option (plain_expr params) True (st_where st) →
    Forall (λ s, plain_field s.1 = true) (st_order st) → (0 ≤ st_limit st)%Z → (0 ≤ st_offset st < 2 ^ 63)%Z →
    ∃ found, run_select st params rows = Ok found ∧
      page_of (st_order st) (st_limit st) (st_offset st) (filter (selected (st_where st) params) rows) found;
  run_count_misfit st params rows :
    1 `max` from_option max_param 0 (st_where st) < length params →
    run_count st params rows = Err (misfit_text (st_where st));
}.

Class Base64Laws `{Base64Url} : Prop := { b64_roundtrip : ∀ s, b64_decode (b64_encode s) = Some s }.

Lemma cursor_roundtrip `{Base64Laws} n : (0 ≤ n < 2 ^ 64)%Z → decode_cursor (encode_cursor n) = Ok n.
Proof.
  intros Hn. unfold decode_cursor, encode_cursor. rewrite b64_roundtrip. simpl. by rewrite parse_u64_show.
Qed.

Section Queries.
Context `{JsonText} `{Base64Laws} `{SqliteLaws}.

(** The rows a query asks for, sorted by its keys. *)
Definition answer_rows (q : QueryDescriptor) (rows : list Row) : list Row :=
  merge_sort (sort_le (q_sort q)) (filter (row_matches (q_collection q) (q_filter q)) rows).

(** The keys of the query tell the rows it asks for apart. *)
Definition told_apart (q : QueryDescriptor) (rows : list Row) : Prop :=
  ∀ r1 r2, r1 ∈ answer_rows q rows → r2 ∈ answer_rows q rows →
    sort_le (q_sort q) r1 r2 → sort_le (q_sort q) r2 r1 → r1 = r2.

(** A query SQLite can run: plain names, and not ending in an empty list. *)
Definition runnable (q : QueryDescriptor) : Prop :=
  from_option plain_filter true (q_filter q) = true ∧ (q_filter q ≫= ends_vacuous) ≠ Some true ∧
  Forall (λ s, plain_field s.1 = true) (q_sort q).

Lemma filter_selected c f (rows : list Row) :
  let '(e, params) := where_of c f in filter (selected e params) rows = filter (row_matches c f) rows.
Proof.
  pose proof (where_selects c f) as Hs. destruct (where_of c f) as [e params].
  apply list_filter_iff. done.
Qed.

Lemma count_rows_ok c f rows :
  from_option plain_filter true f = true → (f ≫= ends_vacuous) ≠ Some true →
  count_rows c f rows = Ok (Z.of_nat (length (filter (row_matches c f) rows))).
Proof.
  intros Hp Hv. unfold count_rows. pose proof (where_fits c f) as Hf. pose proof (where_plain c f Hp) as Hpl.
  pose proof (filter_selected c f rows) as Hs. destruct (where_of c f) as [e params].
  rewrite run_count_ok; simpl; [by rewrite Hs|by apply Hf|done].
Qed.

Lemma answer_rows_perm q rows :
  answer_rows q rows ≡ₚ filter (row_matches (q_collection q) (q_filter q)) rows.
Proof. apply merge_sort_Permutation. Qed.

Lemma answer_rows_sorted q rows : StronglySorted (sort_le (q_sort q)) (answer_rows q rows).
Proof. apply StronglySorted_merge_sort; apply _. Qed.

Lemma answer_rows_length q rows :
  length (answer_rows q rows) = length (filter (row_matches (q_collection q) (q_filter q)) rows).
Proof. by rewrite answer_rows_perm. Qed.

(** One page. It is cut from the rows asked for in some order, which is the sorted one
    when the keys tell them apart. *)
Lemma query_rows_ok q rows offset :
  runnable q → (0 ≤ limit (q_pagination q))%Z → page_offset q = Ok offset → (0 ≤ offset < 2 ^ 63)%Z →
  ∃ all, all ≡ₚ answer_rows q rows ∧ (told_apart q rows → all = answer_rows q rows) ∧
  query_rows q rows =
    let? docs := try_map (row_document (q_fields q))
      (take (Z.to_nat (page_limit q)) (drop (Z.to_nat offset) all)) in
    let total := Z.of_nat (length (answer_rows q rows)) in
    Ok (mkDocumentList docs total
          (if (offset + page_limit q <? total)%Z then Some (encode_cursor (offset + page_limit q)) else None)).
Proof.
  intros (Hp & Hv & Hs) Hl Ho Hr. unfold query_rows. rewrite count_rows_ok, Ho by done. cbn [result_bind].
  rewrite answer_rows_length.
  pose proof (where_fits (q_collection q) (q_filter q)) as Hf.
  pose proof (where_plain (q_collection q) (q_filter q) Hp) as Hpl.
  pose proof (filter_selected (q_collection q) (q_filter q) rows) as Hsel.
  destruct (where_of (q_collection q) (q_filter q)) as [e params].
  assert (0 ≤ page_limit q)%Z by (unfold page_limit, MAX_PAGE; lia).
  destruct (run_select_ok (mkStatement e (q_sort q) (page_limit q) offset) params rows)
    as (found & -> & all & Hall & Hsorted & ->); simpl in *; [by apply Hf|done..|].
  rewrite Hsel, <- answer_rows_perm in Hall. exists all. split_and!; [done| |done].
  intros Hd. apply (StronglySorted_unique_strong (sort_le (q_sort q))); [|done|apply answer_rows_sorted|done].
  intros r1 r2 Hr1 Hr2. rewrite Hall in Hr1. by apply Hd.
Qed.

(** *** All pages *)

Definition with_cursor (q : QueryDescriptor) (c : option string) : QueryDescriptor :=
  mkQuery (q_collection q) (q_filter q) (q_sort q) (mkPagination (limit (q_pagination q)) c) (q_fields q)
    (q_text_search q).

(** Asking for page after page, while there is a cursor. *)
Fixpoint walk (fuel : nat) (q : QueryDescriptor) (rows : list Row)
    : option (result (list json) StorageError) :=
  match fuel with
  | O => None
  | S fuel' =>
      match query_rows q rows with
      | Err e => Some (Err e)
      | Ok l =>
          match next_cursor l with
          | None => Some (Ok (documents l))
          | Some c =>
              match walk fuel' (with_cursor q (Some c)) rows with
              | Some (Ok ds) => Some (Ok (documents l ++ ds))
              | r => r
              end
          end
      end
  end.

Lemma try_map_take_drop {A B E} (f : A → result B E) xs ys n m :
  try_map f xs = Ok ys → try_map f (take n (drop m xs)) = Ok (take n (drop m ys)).
Proof. rewrite !try_map_Ok. intros Hf. by apply Forall2_take, Forall2_drop. Qed.

Lemma try_map_perm {A B E} (f : A → result B E) xs xs' ys :
  try_map f xs = Ok ys → xs' ≡ₚ xs → ∃ ys', try_map f xs' = Ok ys' ∧ ys' ≡ₚ ys.
Proof.
  rewrite try_map_Ok. intros Hf Hp. destruct (Permutation_Forall2 (symmetry Hp) Hf) as (ys' & Hy & Hf').
  exists ys'. by rewrite try_map_Ok.
Qed.

Lemma walk_from q rows docs k fuel :
  runnable q → (1 ≤ limit (q_pagination q))%Z → (Z.of_nat (length rows) < 2 ^ 62)%Z →
  try_map (row_document (q_fields q)) (answer_rows q rows) = Ok docs →
  page_offset q = Ok (Z.of_nat k) → k ≤ length docs → length docs - k < fuel →
  ∃ ds, walk fuel q rows = Some (Ok ds) ∧ length ds = length docs - k ∧ ds ⊆ docs ∧
    (told_apart q rows → ds = drop k docs).
Proof.
  intros Hrun Hl Hlen Hdocs. revert q k Hrun Hl Hdocs.
  induction fuel as [|fuel IH]; intros q k Hrun Hl Hdocs Ho Hk Hfuel; [lia|].
  assert (length (answer_rows q rows) = length docs) as Hn.
  { apply try_map_Ok in Hdocs. by eapply Forall2_length. }
  assert (length docs ≤ length rows) as Hle.
  { rewrite <- Hn, answer_rows_length. apply length_filter. }
  assert (1 ≤ page_limit q ≤ 1000)%Z as Hpl by (unfold page_limit, MAX_PAGE; lia).
  destruct (query_rows_ok q rows (Z.of_nat k)) as (all & Hall & Hd & Hq); [done|lia|done|lia|].
  cbn [walk]. rewrite Hq. destruct (try_map_perm _ _ _ _ Hdocs Hall) as (docs' & Hdocs' & Hp).
  rewrite (try_map_take_drop _ _ docs') by done. cbn [result_bind].
  rewrite Hn, Nat2Z.id. set (n := Z.to_nat (page_limit q)).
  assert (told_apart q rows → docs' = docs) as Hsame by (intros E; rewrite (Hd E) in Hdocs'; congruence).
  assert (take n (drop k docs') ⊆ docs) as Hsub
    by (intros x Hx; rewrite <- Hp; eapply subseteq_drop, subseteq_take, Hx).
  apply Permutation_length in Hp as Hpl'.
  destruct (Z.of_nat k + page_limit q <? Z.of_nat (length docs))%Z eqn:Elt; cbn [next_cursor documents].
  - apply Z.ltb_lt in Elt. replace (Z.of_nat k + page_limit q)%Z with (Z.of_nat (k + n)) by lia.
    destruct (IH (with_cursor q (Some (encode_cursor (Z.of_nat (k + n))))) (k + n))
      as (ds & -> & Hlds & Hds & Heq); try done; [|lia|lia|].
    { unfold page_offset. simpl. apply cursor_roundtrip. lia. }
    eexists. split_and!; [done| | |].
    + rewrite length_app, length_take, length_drop. lia.
    + intros x [?|?]%elem_of_app; auto.
    + intros E. rewrite (Heq E), (Hsame E), <- drop_drop. apply take_drop.
  - apply Z.ltb_ge in Elt. eexists. split_and!; [done| |done|].
    + rewrite length_take, length_drop. lia.
    + intros E. rewrite (Hsame E). apply take_ge. rewrite length_drop. lia.
Qed.
End Queries.

(** C15. Paging ends, and is complete where the sort keys tell the documents apart. For a
    query with plain names that does not end in an empty list, with a page size of at
    least one, over a table that does not change and whose matching rows can all be read,
    following the cursors takes at most one request more than there are matching documents
    and returns as many documents as match, all of them matching. If no two matching rows
    agree on all sort keys, these are exactly the matching documents, each once, in the
    order of the keys. Otherwise SQLite may order the rows differently for each page. *)
Theorem pages_complete `{JsonText} `{Base64Laws} `{SqliteLaws} q rows docs :
  runnable q → (1 ≤ limit (q_pagination q))%Z → cursor (q_pagination q) = None →
  (Z.of_nat (length rows) < 2 ^ 62)%Z →
  try_map (row_document (q_fields q)) (answer_rows q rows) = Ok docs →
  answer_rows q rows ≡ₚ filter (row_matches (q_collection q) (q_filter q)) rows ∧
  StronglySorted (sort_le (q_sort q)) (answer_rows q rows) ∧
  ∃ ds, walk (S (length docs)) q rows = Some (Ok ds) ∧ length ds = length docs ∧ ds ⊆ docs ∧
    (told_apart q rows → ds = docs).
Proof.
  intros Hrun Hl Hc Hlen Hdocs. split; [apply answer_rows_perm|]. split; [apply answer_rows_sorted|].
  destruct (walk_from q rows docs 0 (S (length docs))) as (ds & Hw & Hlds & Hrest); try done; [|lia|lia|].
  { unfold page_offset. by rewrite Hc. }
  exists ds. split_and!; try done; [lia|apply Hrest..].
Qed.

(** A filter that ends in a comparison with an empty list binds a parameter that does
    not occur, and the query fails where it should have no or all results. *)
Theorem empty_list_query_fails `{JsonText} `{Base64Url} `{SqliteLaws} q rows :
  (q_filter q ≫= ends_vacuous) = Some true →
  ∃ e, query_rows q rows = Err (Internal ("count query failed: " +:+ misfit_text (Some e))%string).
Proof.
  intros Hv. unfold query_rows, count_rows. destruct (q_filter q) as [f|]; [|done]. simpl in Hv.
  pose proof (where_fits (q_collection q) (Some f)) as Hf. unfold where_of in *. simpl in Hf.
  destruct (build f (new_builder 2)) as [e b] eqn:E. exists e.
  assert (1 ≤ param_idx (new_builder 2)) as Hst by (simpl; lia).
  pose proof (build_reaches f _ _ _ Hst E) as Hr. rewrite Hv in Hr. simpl in Hr.
  apply build_means in E as (vs & [Hbv Hbi] & _). simpl in Hbv, Hbi.
  rewrite run_count_misfit; [done|]. simpl. rewrite Hbv. lia.
Qed.

(** A page of size zero never advances. *)
Theorem zero_limit_never_ends `{JsonText} `{Base64Laws} `{SqliteLaws} q rows fuel :
  runnable q → limit (q_pagination q) = 0%Z → cursor (q_pagination q) = None → answer_rows q rows ≠ [] →
  walk fuel q rows = None.
Proof.
  intros Hrun Hl Hc Hne.
  assert (∀ q, runnable q → limit (q_pagination q) = 0%Z → answer_rows q rows ≠ [] →
    page_offset q = Ok 0%Z → walk fuel q rows = None) as Hgen; [|by apply Hgen; [..|unfold page_offset; rewrite Hc]].
  clear q Hrun Hl Hc Hne. induction fuel as [|fuel IH]; intros q Hrun Hl Hne Ho; [done|]. cbn [walk].
  destruct (query_rows_ok q rows 0) as (all & _ & _ & ->); [done|lia|done|lia|].
  assert (page_limit q = 0%Z) as -> by (unfold page_limit; rewrite Hl; done). cbn [result_bind take Z.to_nat try_map].
  destruct (answer_rows q rows) as [|r rs] eqn:Ea; [done|].
  destruct (0 + 0 <? _)%Z eqn:E; [|apply Z.ltb_ge in E; simpl in E; lia]. cbn [next_cursor].
  simpl. rewrite IH; try done; [by change (answer_rows q rows ≠ []); rewrite Ea|].
  unfold page_offset. simpl. by apply cursor_roundtrip.
Qed.

(** ** A toy SQLite *)

(** Fields of the coded text; comparison is equality. *)
Definition toy_extract (path data : string) : SqlValue :=
  match @json_from_str coded_text data, strip_prefix "$." path with
  | Ok j, Some f => from_option (@json_value_to_boxed_sql coded_text) SqlNull (json_get j f)
  | _, _ => SqlNull
  end.

Definition toy_compare (op : string) (x y : SqlValue) : option bool :=
  if is_null x || is_null y then None
  else Some (if bool_decide (op = "!="%string) then bool_decide (x ≠ y) else bool_decide (x = y)).

Definition toy_like (x pattern : SqlValue) : option bool := toy_compare "=" x pattern.

(** NULL before numbers before texts; integers by value. *)
Definition toy_weight (x : SqlValue) : Z * Z :=
  match x with
  | SqlNull => (0, 0)%Z
  | SqlInt z => (1, z)%Z
  | SqlReal _ _ => (2, 0)%Z
  | SqlText _ => (3, 0)%Z
  end.
Definition toy_le (x y : SqlValue) : bool :=
  let '(a, b) := toy_weight x in
  let '(c, d) := toy_weight y in
  (a <? c)%Z || ((a =? c)%Z && (b <=? d)%Z).

Definition toy_base : Sqlite :=
  Build_Sqlite toy_extract toy_compare toy_like toy_le (λ _ _ _, Err ""%string)
    (λ _ _ _, Err ""%string) (λ _, Ok tt).

#[export] Instance fits_dec e params : Decision (fits e params).
Proof. unfold fits. apply _. Defined.

(** Statements run by evaluating their conditions; [scan] is the order in which a
    statement with a given offset reads the table. *)
Definition scan_sqlite (scan : Z → list Row → list Row) : Sqlite :=
  Build_Sqlite toy_extract toy_compare toy_like toy_le
    (λ st params rows,
       if decide (fits (st_where st) params)
       then Ok (Z.of_nat (length (filter (@selected toy_base (st_where st) params) rows)))
       else Err (misfit_text (st_where st)))
    (λ st params rows,
       if decide (fits (st_where st) params)
       then Ok (take (Z.to_nat (st_limit st)) (drop (Z.to_nat (st_offset st))
                  (merge_sort (@sort_le toy_base (st_order st))
                    (scan (st_offset st) (filter (@selected toy_base (st_where st) params) rows)))))
       else Err (misfit_text (st_where st)))
    (λ _, Ok tt).

Definition toy_sqlite : Sqlite := scan_sqlite (λ _ rows, rows).

Lemma toy_order : @SqlOrder toy_base.
Proof.
  split; simpl; unfold toy_le.
  - intros x y. destruct (toy_weight x), (toy_weight y). lia.
  - intros x y z. destruct (toy_weight x), (toy_weight y), (toy_weight z). lia.
Qed.

Lemma scan_sqlite_laws scan : (∀ n rows, scan n rows ≡ₚ rows) → @SqliteLaws (scan_sqlite scan).
Proof.
  intros Hscan. pose proof toy_order as Ho. split.
  - split; apply Ho.
  - intros st params rows Hf _. simpl. by rewrite decide_True.
  - intros st params rows Hf _ _ _ _. simpl. rewrite decide_True by done. eexists. split; [done|].
    eexists. split_and!; [..|done].
    + rewrite merge_sort_Permutation. apply Hscan.
    + apply (StronglySorted_merge_sort (@sort_le toy_base (st_order st))); apply _.
  - intros st params rows Hf. simpl. rewrite decide_False; [done|]. unfold fits. lia.
Qed.

Lemma toy_sqlite_laws : @SqliteLaws toy_sqlite.
Proof. by apply scan_sqlite_laws. Qed.

Definition toy_base64 : Base64Url := Build_Base64Url (λ s, s) Some.
Lemma toy_base64_laws : @Base64Laws toy_base64.
Proof. by split. Qed.

Definition toy_row (id collection : string) (n : Z) : Row :=
  mkRow id "core" collection (@json_to_string coded_text (JObj [("n"%string, JNum (NInt n))])) 1 "t" "t".

(** Three notes with [n] not three, two to a page, the largest first. *)
Definition toy_query : QueryDescriptor :=
  mkQuery "notes" (Some (FAnd [FComparison "n" FNe (JNum (NInt 3)); FNot (FComparison "m" FExists JNull)]))
    [("n"%string, Desc)] (mkPagination 2 None) (Some ["id"%string]) None.
Definition toy_table : list Row :=
  [toy_row "a" "notes" 1; toy_row "b" "notes" 2; toy_row "c" "tasks" 4; toy_row "d" "notes" 3; toy_row "e" "notes" 5].

Definition id_documents (ids : list string) : list json := (λ id, JObj [("id"%string, JStr id)]) <$> ids.

Lemma pages_complete_witness :
  @walk coded_text toy_base64 toy_sqlite 4 toy_query toy_table = Some (Ok (id_documents ["e"; "b"; "a"]%string)).
Proof.
  destruct (@pages_complete coded_text toy_base64 toy_base64_laws toy_sqlite toy_sqlite_laws
    toy_query toy_table (id_documents ["e"; "b"; "a"]%string)) as (_ & _ & ds & Hw & _ & _ & Hds).
  - split; [vm_compute; reflexivity|]. split; [vm_compute; discriminate|].
    constructor; [vm_compute; reflexivity|constructor].
  - simpl. lia.
  - reflexivity.
  - simpl. lia.
  - vm_compute. reflexivity.
  - rewrite <- Hds; [exact Hw|]. intros r1 r2 H1 H2.
    assert (∀ r, r ∈ @answer_rows coded_text toy_sqlite toy_query toy_table →
      r ∈ [toy_row "e" "notes" 5; toy_row "b" "notes" 2; toy_row "a" "notes" 1]) as Hin.
    { intros r. vm_compute. exact (λ H, H). }
    apply Hin in H1, H2. clear Hin. rewrite !elem_of_cons, elem_of_nil in H1, H2.
    destruct H1 as [->|[->|[->|[]]]], H2 as [->|[->|[->|[]]]]; vm_compute; tauto.
Defined.

(** Without sort keys a page can repeat documents of the page before and another be
    missed: here SQLite reads the table backwards for the second page. *)
Example unsorted_pages_repeat :
  let back n rows := if (0 <? n)%Z then reverse rows else rows in
  let q := mkQuery "notes" None [] (mkPagination 2 None) (Some ["id"%string]) None in
  @SqliteLaws (scan_sqlite back) ∧
  @walk coded_text toy_base64 (scan_sqlite back) 5 q toy_table = Some (Ok (id_documents ["a"; "b"; "b"; "a"]%string)).
Proof.
  split; [|vm_compute; reflexivity]. apply scan_sqlite_laws. intros n rows.
  destruct (0 <? n)%Z; [apply reverse_Permutation|done].
Qed.
