(* ===== verification/SqliteDocFacts.v ===== *)
(** * Facts about the SQLite document adapter

    Merge patches follow RFC 7386; the operations implement a map from ids to
    documents; batches are all or nothing. *)

From stdpp Require Import base tactics list strings gmap.
From Stdlib Require Import Ascii ZArith Lia.
From S2P Require Import Prelude RustString Json Types Storage SqliteDoc.

(** ** Merge patches *)

Definition merge_step (acc : object) (kv : string * json) : object :=
  match kv.2 with
  | JNull => obj_remove kv.1 acc
  | v => obj_insert kv.1 (json_merge_patch (default JNull (obj_get kv.1 acc)) v) acc
  end.

Definition fields_of (j : json) : object := match j with JObj o => o | _ => [] end.

Lemma merge_obj t p : json_merge_patch t (JObj p) = JObj (foldl merge_step (fields_of t) p).
Proof.
  cbn [json_merge_patch]. f_equal. fold (fields_of t). generalize (fields_of t).
  induction p as [|[k v] p IH]; intros acc; [done|]. cbn [foldl]. rewrite <- IH.
  unfold merge_step. simpl. by destruct v.
Qed.

(** What a patch does to one field. *)
Definition patched (old : option json) (new : option json) : option json :=
  match new with
  | None => old
  | Some JNull => None
  | Some v => Some (json_merge_patch (default JNull old) v)
  end.

Lemma merge_step_get acc k v l :
  obj_get l (merge_step acc (k, v)) = if decide (k = l) then patched (obj_get k acc) (Some v) else obj_get l acc.
Proof.
  unfold merge_step. simpl. destruct (decide (k = l)) as [<-|Hne].
  - destruct v; simpl; by rewrite ?obj_get_remove_eq, ?obj_get_insert_eq.
  - destruct v; by rewrite ?obj_get_remove_ne, ?obj_get_insert_ne by done.
Qed.

Lemma merge_fold_get p acc l :
  NoDup (obj_keys p) → obj_get l (foldl merge_step acc p) = patched (obj_get l acc) (obj_get l p).
Proof.
  revert acc. induction p as [|[k v] p IH]; intros acc Hnd; [done|]. simpl.
  unfold obj_keys in Hnd. simpl in Hnd. apply NoDup_cons in Hnd as [Hk Hnd].
  rewrite IH, merge_step_get by done. case_bool_decide as Hl.
  - subst l. rewrite decide_True by done.
    assert (obj_get k p = None) as ->; [|done].
    apply eq_None_not_Some. rewrite obj_get_keys. done.
  - by rewrite decide_False by done.
Qed.

Lemma obj_sorted_nodup o : obj_sorted o → NoDup (obj_keys o).
Proof.
  unfold obj_sorted. induction 1 as [|k ks Hs IH Hk]; constructor; [|done].
  intros Hin. rewrite Forall_forall in Hk. by destruct (Hk _ Hin).
Qed.

Lemma merge_step_sorted acc kv : obj_sorted acc → obj_sorted (merge_step acc kv).
Proof.
  intros Hs. unfold merge_step. destruct kv as [k v]. simpl.
  destruct v; by apply obj_insert_sorted || apply obj_remove_sorted.
Qed.

Lemma merge_fold_sorted p acc : obj_sorted acc → obj_sorted (foldl merge_step acc p).
Proof. revert acc. induction p as [|kv p IH]; intros acc Hs; [done|]. by apply IH, merge_step_sorted. Qed.

Lemma fields_of_sorted t : json_canonical t → obj_sorted (fields_of t).
Proof. destruct t; simpl; try (intros _; constructor). by intros [? _]. Qed.

Lemma fields_of_canonical t : json_canonical t → json_canonical (JObj (fields_of t)).
Proof. destruct t; try (intros _; by repeat constructor). done. Qed.

(** A merge patch is RFC 7386: each field of the patch replaces, merges into or,
    when null, removes the field of the target, other fields stay, and applying the
    same patch again changes nothing. *)
Theorem merge_patch_rfc7386 target patch :
  json_canonical target → json_canonical patch →
  let merged := json_merge_patch target patch in
  json_merge_patch merged patch = merged ∧
  match patch with
  | JObj p => ∃ o, merged = JObj o ∧ ∀ k, obj_get k o = patched (obj_get k (fields_of target)) (obj_get k p)
  | _ => merged = patch
  end.
Proof.
  intros Ht Hp. cbn zeta. split.
  - revert target Ht. induction patch as [| | | |xs|p IH] using json_nested_ind; intros t Ht; [done..|].
    rewrite !merge_obj. cbn [fields_of]. f_equal. apply canonical_obj in Hp as [Hs Hp].
    apply obj_equiv_eq; [by repeat apply merge_fold_sorted; apply fields_of_sorted..|].
    intros k. rewrite !merge_fold_get by by apply obj_sorted_nodup.
    destruct (obj_get k p) as [v|] eqn:E; [|done]. apply obj_get_elem in E.
    assert (json_merge_patch (json_merge_patch (default JNull (obj_get k (fields_of t))) v) v =
            json_merge_patch (default JNull (obj_get k (fields_of t))) v) as Hv.
    { rewrite Forall_forall in IH. apply (IH (k, v) E); [by eapply Hp|].
      destruct (obj_get k (fields_of t)) eqn:E'; [|done]. simpl.
      apply (canonical_get k (fields_of t)); [by apply fields_of_canonical|done]. }
    destruct v; simpl in *; congruence.
  - destruct patch as [| | | | |p]; try done. rewrite merge_obj. eexists. split; [done|].
    intros k. apply merge_fold_get, obj_sorted_nodup. by destruct Hp.
Qed.

Lemma merge_patch_rfc7386_witness :
  let target := JObj [("a"%string, JNum (NInt 1)); ("b"%string, JObj [("x"%string, JBool true)])] in
  let patch := JObj [("a"%string, JNull); ("b"%string, JObj [("y"%string, JNull); ("z"%string, JStr "w")])] in
  json_merge_patch target patch =
    JObj [("b"%string, JObj [("x"%string, JBool true); ("z"%string, JStr "w")])] ∧
  json_merge_patch (json_merge_patch target patch) patch = json_merge_patch target patch.
Proof.
  split; [reflexivity|]. apply merge_patch_rfc7386; repeat constructor; discriminate.
Defined.

(** ** Documents as a map *)

Section Refinement.
Context `{JsonTextLaws} (plugin_id : string).

(** A merge is nested no deeper than the target and the patch. *)
Lemma fields_of_within n t : json_within (S n) t → json_within (S n) (JObj (fields_of t)).
Proof. destruct t; try (intros _; by repeat constructor). done. Qed.

Lemma merge_within n t p : json_within n t → json_within n p → json_within n (json_merge_patch t p).
Proof.
  revert n t. induction p as [|b|x|y|xs|kvs IH] using json_nested_ind; intros n t Ht Hp; [by simpl..|].
  destruct n as [|n]; [done|].
  rewrite merge_obj. apply within_obj in Hp as [_ Hp].
  assert (json_within (S n) (JObj (fields_of t))) as Ha by by apply fields_of_within.
  clear Ht. revert Ha Hp. generalize (fields_of t). induction IH as [|[k v] kvs Hv _ IHk]; intros acc Ha Hp; [done|].
  cbn [foldl]. apply IHk.
  - unfold merge_step. cbn [fst snd]. assert (json_within n v) by (eapply Hp; left).
    assert (json_within n (default JNull (obj_get k acc))) as Hd.
    { destruct (obj_get k acc) eqn:E; [by eapply within_get|done]. }
    destruct v; try (by apply within_remove); apply within_insert; try done; by apply Hv.
  - intros l w Hin. eapply Hp. by right.
Qed.

Lemma merge_printable t p : json_printable t → json_printable p → json_printable (json_merge_patch t p).
Proof. apply merge_within. Qed.

(** Every id once, every document as it was printed. *)
Definition good (rows : list Row) : Prop :=
  NoDup (r_id <$> rows) ∧
  Forall (λ r, ∃ j, json_printable j ∧ r_data r = json_to_string j) rows.

Definition parsed (r : Row) : json := default JNull (result_ok (json_from_str (r_data r))).

Definition entry (r : Row) : string * (string * json) := (r_id r, (r_collection r, parsed r)).

(** The table as a map from ids to collection and stored fields. *)
Definition view (rows : list Row) : gmap string (string * json) := list_to_map (entry <$> rows).

Lemma parsed_print r j : json_printable j → r_data r = json_to_string j → parsed r = j ∧ json_from_str (r_data r) = Ok j.
Proof. intros Hj Hr. unfold parsed. rewrite Hr, json_print_parse by done. done. Qed.

Lemma entry_ids rows : (entry <$> rows).*1 = r_id <$> rows.
Proof. rewrite <- list_fmap_compose. done. Qed.

Lemma view_lookup rows i x :
  NoDup (r_id <$> rows) → view rows !! i = Some x ↔ ∃ r, r ∈ rows ∧ r_id r = i ∧ x = (r_collection r, parsed r).
Proof.
  intros Hnd. unfold view. rewrite <- elem_of_list_to_map by by rewrite entry_ids.
  rewrite list_elem_of_fmap. unfold entry. naive_solver.
Qed.

Lemma same_row rows r r' :
  NoDup (r_id <$> rows) → r ∈ rows → r' ∈ rows → r_id r = r_id r' → r = r'.
Proof.
  intros Hnd [a Ha]%list_elem_of_lookup [b Hb]%list_elem_of_lookup Hid.
  assert (a = b) as ->; [|congruence].
  apply (NoDup_lookup (r_id <$> rows) a b (r_id r)); [done|..];
    rewrite list_lookup_fmap; [by rewrite Ha|rewrite Hb; simpl; congruence].
Qed.

Lemma nodup_ids_filter (P : Row → Prop) `{∀ r, Decision (P r)} rows :
  NoDup (r_id <$> rows) → NoDup (r_id <$> filter P rows).
Proof.
  induction rows as [|r rows IH]; [done|]. rewrite fmap_cons, NoDup_cons, filter_cons.
  intros [Hr Hnd]. case_decide; [|by apply IH]. rewrite fmap_cons, NoDup_cons. split; [|by apply IH].
  intros (r' & Hid & [_ Hin]%list_elem_of_filter)%list_elem_of_fmap. apply Hr. rewrite Hid.
  by apply list_elem_of_fmap_2.
Qed.

Lemma find_row_Some c i rows r :
  NoDup (r_id <$> rows) → find_row c i rows = Some r ↔ r ∈ rows ∧ r_collection r = c ∧ r_id r = i.
Proof.
  intros Hnd. unfold find_row, is_row. split.
  - destruct (list_find _ rows) as [[n r']|] eqn:E; [|done]. intros [= <-].
    apply list_find_Some in E as (Hl & Hr & _). apply andb_true_iff in Hr as [? ?]. bool_to_prop.
    by apply list_elem_of_lookup_2 in Hl.
  - intros (Hin & Hc & Hi). destruct (list_find _ rows) as [[n r']|] eqn:E; simpl.
    + apply list_find_Some in E as (Hl & Hr & _). apply andb_true_iff in Hr as [? Hi']. bool_to_prop.
      f_equal. apply (same_row rows); [done|by eapply list_elem_of_lookup_2|done|congruence].
    + apply list_find_None in E. rewrite Forall_forall in E. destruct (E r Hin).
      by rewrite !bool_decide_eq_true_2.
Qed.

Lemma find_row_view c i rows :
  NoDup (r_id <$> rows) →
  match find_row c i rows with
  | Some r => view rows !! i = Some (c, parsed r)
  | None => ∀ c' j, view rows !! i = Some (c', j) → c' ≠ c
  end.
Proof.
  intros Hnd. destruct (find_row c i rows) as [r|] eqn:E.
  - apply find_row_Some in E as (? & <- & ?); [|done]. apply view_lookup; [done|]. by exists r.
  - intros c' j (r & Hin & Hi & [= -> ->])%view_lookup <-; [|done].
    assert (find_row (r_collection r) i rows = Some r) by by apply find_row_Some. congruence.
Qed.

(** *** The specification *)

Inductive DocOp : Type :=
| DocCreate (collection : string) (doc : json)
| DocUpdate (collection id : string) (doc : json)
| DocPatch (collection id : string) (patch : json)
| DocDelete (collection id : string).

Definition op_collection (o : DocOp) : string :=
  match o with DocCreate c _ | DocUpdate c _ _ | DocPatch c _ _ | DocDelete c _ => c end.

Definition op_canonical (o : DocOp) : Prop :=
  match o with
  | DocCreate _ j | DocUpdate _ _ j | DocPatch _ _ j => json_printable j
  | DocDelete _ _ => True
  end.

(** The operation of the adapter. *)
Definition doc_exec (o : DocOp) (d : DocDraw) (rows : list Row) : result unit StorageError * list Row :=
  let drop_doc {A} (r : result A StorageError * list Row) := (let? _ := r.1 in Ok tt, r.2) in
  match o with
  | DocCreate c doc => drop_doc (sqlite_create plugin_id c doc d rows)
  | DocUpdate c i doc => drop_doc (sqlite_update c i doc d rows)
  | DocPatch c i p => drop_doc (sqlite_partial_update c i p d rows)
  | DocDelete c i => drop_doc (sqlite_delete c i d rows)
  end.

(** The same on the map; ids are unique across collections. *)
Definition doc_spec (o : DocOp) (fresh : string) (m : gmap string (string * json))
    : result (gmap string (string * json)) StorageError :=
  match o with
  | DocCreate c doc =>
      let id := document_id doc fresh in
      match m !! id with
      | Some (c', _) => Err (if bool_decide (c' = c) then AlreadyExists c id else Internal UNIQUE_FAILED)
      | None => Ok (<[id := (c, strip_system doc)]> m)
      end
  | DocUpdate c i doc =>
      match m !! i with
      | Some (c', _) =>
          if bool_decide (c' = c) then Ok (<[i := (c, strip_system doc)]> m) else Err (NotFound c i)
      | None => Err (NotFound c i)
      end
  | DocPatch c i p =>
      match m !! i with
      | Some (c', old) =>
          if bool_decide (c' = c) then Ok (<[i := (c, strip_system (json_merge_patch old p))]> m)
          else Err (NotFound c i)
      | None => Err (NotFound c i)
      end
  | DocDelete c i =>
      match m !! i with
      | Some (c', _) => if bool_decide (c' = c) then Ok (delete i m) else Err (NotFound c i)
      | None => Err (NotFound c i)
      end
  end.

(** Nothing fails outside. *)
Definition quiet (d : DocDraw) : Prop := dd_start d = None ∧ ∀ i, dd_fault d i = None.

Definition implements (rows : list Row) (spec : result (gmap string (string * json)) StorageError)
    (out : result unit StorageError * list Row) : Prop :=
  good out.2 ∧
  match spec with
  | Ok m => out.1 = Ok tt ∧ view out.2 = m
  | Err e => out = (Err e, rows)
  end.

Lemma strip_printable j : json_printable j → json_printable (strip_system j).
Proof. destruct j; simpl; try done. intros Hj. by repeat apply printable_remove. Qed.

Lemma printed_document id j t1 t2 :
  json_printable j → is_ok (row_to_document id (json_to_string j) t1 t2) = true.
Proof. intros Hj. unfold row_to_document. by rewrite json_print_parse. Qed.

Lemma insert_row_view r j rows :
  good rows → json_printable j → r_data r = json_to_string j →
  match insert_row r rows with
  | Err e => e = UNIQUE_FAILED ∧ is_Some (view rows !! r_id r)
  | Ok rows' => good rows' ∧ view rows !! r_id r = None ∧
      view rows' = <[r_id r := (r_collection r, j)]> (view rows)
  end.
Proof.
  intros [Hnd Hd] Hj Hr. unfold insert_row. destruct (existsb _ rows) eqn:E.
  - split; [done|]. apply existsb_exists in E as (r' & Hin & Hid). bool_to_prop.
    eexists. apply view_lookup; [done|]. exists r'. by rewrite <- list_elem_of_In in Hin.
  - assert (r_id r ∉ (r_id <$> rows)) as Hni.
    { intros (r' & Hid & Hin)%list_elem_of_fmap.
      assert (existsb (λ r', bool_decide (r_id r' = r_id r)) rows = true); [|congruence].
      apply existsb_exists. exists r'. rewrite <- list_elem_of_In. by rewrite bool_decide_eq_true. }
    split_and!.
    + split.
      * rewrite fmap_app. apply NoDup_app. split; [done|]. split; [|by apply NoDup_singleton].
        intros x Hx Hx'%list_elem_of_singleton. by subst.
      * apply Forall_app. split; [done|]. constructor; [by exists j|done].
    + apply eq_None_not_Some. intros [x (r' & Hin & Hid & _)%view_lookup]; [|done].
      apply Hni. rewrite <- Hid. by apply list_elem_of_fmap_2.
    + unfold view. rewrite fmap_app. simpl. unfold entry at 2.
      rewrite list_to_map_snoc by by rewrite entry_ids. by destruct (parsed_print r j Hj Hr) as [-> _].
Qed.

Lemma update_rows_ids c i data now rows : (r_id <$> update_rows c i data now rows) = r_id <$> rows.
Proof.
  unfold update_rows. rewrite <- list_fmap_compose. apply list_fmap_ext. intros _ r _. simpl.
  by destruct (is_row c i r).
Qed.

Lemma update_rows_view c i j now rows r :
  good rows → json_printable j → find_row c i rows = Some r →
  good (update_rows c i (json_to_string j) now rows) ∧
  view (update_rows c i (json_to_string j) now rows) = <[i := (c, j)]> (view rows).
Proof.
  intros [Hnd Hd] Hj Hf. pose proof (find_row_view c i rows Hnd) as Hv. rewrite Hf in Hv.
  apply find_row_Some in Hf as (Hin & Hc & Hi); [|done]. split.
  { split; [by rewrite update_rows_ids|]. unfold update_rows. rewrite Forall_fmap.
    eapply Forall_impl; [done|]. intros r' Hr'. simpl. destruct (is_row c i r'); [by exists j|done]. }
  assert (∀ r', parsed (set_data (json_to_string j) now r') = j) as Hp.
  { intros r'. by apply (parsed_print (set_data (json_to_string j) now r') j). }
  apply map_eq. intros k. apply option_eq. intros x.
  rewrite view_lookup by by rewrite update_rows_ids. rewrite lookup_insert_Some, view_lookup by done.
  unfold update_rows. setoid_rewrite list_elem_of_fmap. split.
  - intros (r1 & (r' & -> & Hin') & Hk & ->). destruct (is_row c i r') eqn:E.
    + apply andb_true_iff in E as [Hc' Hi']. bool_to_prop. left. simpl in *. rewrite Hp. split; congruence.
    + right. simpl in *. split; [|by exists r']. intros <-. unfold is_row in E.
      assert (r' = r) as ->; [|by rewrite Hc, Hi, !bool_decide_eq_true_2 in E].
      apply (same_row rows); [done..|congruence].
  - intros [[<- <-]|[Hk (r' & Hin' & Hk' & ->)]].
    + exists (set_data (json_to_string j) now r). rewrite Hp. split; [|by rewrite <- Hc].
      exists r. split; [|done]. unfold is_row. by rewrite Hc, Hi, !bool_decide_eq_true_2.
    + exists r'. split; [|done]. exists r'. split; [|done]. unfold is_row.
      rewrite (bool_decide_eq_false_2 (r_id r' = i)) by congruence. by rewrite andb_false_r.
Qed.

Lemma delete_rows_view c i rows r :
  good rows → find_row c i rows = Some r →
  let rows' := filter (λ r, is_row c i r = false) rows in
  good rows' ∧ view rows' = delete i (view rows).
Proof.
  intros [Hnd Hd] Hf. cbn zeta. apply find_row_Some in Hf as (Hin & Hc & Hi); [|done].
  set (rows' := filter _ rows).
  assert (NoDup (r_id <$> rows')) as Hnd' by by apply nodup_ids_filter.
  split; [split; [done|]|].
  { rewrite Forall_forall in Hd |- *. intros r' [_ ?]%list_elem_of_filter. by apply Hd. }
  apply map_eq. intros k. apply option_eq. intros x.
  rewrite view_lookup, lookup_delete_Some, view_lookup by done. subst rows'. setoid_rewrite list_elem_of_filter.
  split.
  - intros (r' & [Hr Hin'] & Hk & ->). split; [|by exists r']. intros <-. unfold is_row in Hr.
    assert (r' = r) as ->; [|by rewrite Hc, Hi, !bool_decide_eq_true_2 in Hr].
    apply (same_row rows); [done..|congruence].
  - intros [Hk (r' & Hin' & Hk' & ->)]. exists r'. split; [|done]. split; [|done]. unfold is_row.
    rewrite (bool_decide_eq_false_2 (r_id r' = i)) by congruence. by rewrite andb_false_r.
Qed.
End Refinement.

Section RefinementProof.
Context `{JsonTextLaws} (plugin_id : string) (d : DocDraw) (rows : list Row).
Context (Hq : quiet d) (Hg : good rows).

Lemma started_quiet {A S} (s : S) (k : result A StorageError * S) : started d s k = k.
Proof. unfold started. by rewrite (proj1 Hq). Qed.
Lemma stmt_quiet {A S} i (s : S) (k : result A StorageError * S) : stmt d i s k = k.
Proof. unfold stmt. by rewrite (proj2 Hq). Qed.
Lemma validated_ok {A S} c (s : S) (k : result A StorageError * S) :
  validate_identifier c = Ok tt → validated c s k = k.
Proof. unfold validated. by intros ->. Qed.

Lemma create_implements c doc :
  validate_identifier c = Ok tt → json_printable doc →
  implements rows (doc_spec (DocCreate c doc) (dd_uuid d) (view rows)) (doc_exec plugin_id (DocCreate c doc) d rows).
Proof.
  intros Hc Hj. unfold doc_exec, sqlite_create, doc_spec. rewrite validated_ok, started_quiet, !stmt_quiet by done.
  set (id := document_id doc (dd_uuid d)). set (j := strip_system doc).
  assert (json_printable j) as Hs by by apply strip_printable.
  set (r := mkRow id plugin_id c (json_to_string j) 1 (dd_now d) (dd_now d)).
  pose proof (find_row_view c id rows (proj1 Hg)) as Hv.
  destruct (find_row c id rows) as [r0|].
  { rewrite Hv, !bool_decide_eq_true_2 by done. by split. }
  rewrite bool_decide_eq_false_2 by (by intros []).
  pose proof (insert_row_view r j rows Hg Hs eq_refl) as Hi. change (r_id r) with id in Hi.
  destruct (insert_row r rows) as [rows'|e]; simpl.
  - destruct Hi as (Hg' & -> & Hview). pose proof (printed_document id j (dd_now d) (dd_now d) Hs) as Hok.
    destruct (row_to_document id _ _ _); [|done]. by split.
  - destruct Hi as [-> [[c' j'] Hx]]. rewrite Hx. split; [done|].
    by rewrite bool_decide_eq_false_2 by by eapply Hv.
Qed.

(** Writing a row in place, for updates and patches. *)
Lemma write_implements c i j r :
  json_printable j → find_row c i rows = Some r →
  let rows' := update_rows c i (json_to_string j) (dd_now d) rows in
  implements rows (Ok (<[i := (c, j)]> (view rows)))
    (let? _ := row_to_document i (json_to_string j) (r_created_at r) (dd_now d) in Ok tt, rows').
Proof.
  intros Hj Hf. cbn zeta. destruct (update_rows_view c i j (dd_now d) rows r Hg Hj Hf) as [Hg' Hv].
  pose proof (printed_document i j (r_created_at r) (dd_now d) Hj) as Hok.
  destruct (row_to_document i _ _ _); [|done]. by split.
Qed.

Lemma update_implements c i doc :
  validate_identifier c = Ok tt → json_printable doc →
  implements rows (doc_spec (DocUpdate c i doc) (dd_uuid d) (view rows)) (doc_exec plugin_id (DocUpdate c i doc) d rows).
Proof.
  intros Hc Hj. unfold doc_exec, sqlite_update, doc_spec. rewrite validated_ok, started_quiet, !stmt_quiet by done.
  pose proof (find_row_view c i rows (proj1 Hg)) as Hv.
  destruct (find_row c i rows) as [r|] eqn:Ef; rewrite ?stmt_quiet.
  - rewrite Hv, bool_decide_eq_true_2 by done. apply write_implements; [by apply strip_printable|done].
  - destruct (view rows !! i) as [[c' j]|]; [|by split].
    rewrite bool_decide_eq_false_2 by by eapply Hv. by split.
Qed.

Lemma patch_implements c i p :
  validate_identifier c = Ok tt → json_printable p →
  implements rows (doc_spec (DocPatch c i p) (dd_uuid d) (view rows)) (doc_exec plugin_id (DocPatch c i p) d rows).
Proof.
  intros Hc Hj. unfold doc_exec, sqlite_partial_update, doc_spec.
  rewrite validated_ok, started_quiet, !stmt_quiet by done.
  pose proof (find_row_view c i rows (proj1 Hg)) as Hv.
  destruct (find_row c i rows) as [r|] eqn:Ef.
  - rewrite Hv, bool_decide_eq_true_2 by done.
    assert (r ∈ rows) as Hin by (apply find_row_Some in Ef; [by destruct Ef|exact (proj1 Hg)]).
    destruct Hg as [_ Hd]. rewrite Forall_forall in Hd. destruct (Hd r Hin) as (old & Hold & Hr).
    destruct (parsed_print r old Hold Hr) as [-> ->]. rewrite stmt_quiet.
    apply write_implements; [by apply strip_printable, merge_printable|done].
  - destruct (view rows !! i) as [[c' j]|]; [|by split].
    rewrite bool_decide_eq_false_2 by by eapply Hv. by split.
Qed.

Lemma delete_implements c i :
  validate_identifier c = Ok tt →
  implements rows (doc_spec (DocDelete c i) (dd_uuid d) (view rows)) (doc_exec plugin_id (DocDelete c i) d rows).
Proof.
  intros Hc. unfold doc_exec, sqlite_delete, doc_spec. rewrite validated_ok, started_quiet, !stmt_quiet by done.
  pose proof (find_row_view c i rows (proj1 Hg)) as Hv.
  destruct (find_row c i rows) as [r|] eqn:Ef.
  - rewrite Hv, bool_decide_eq_true_2 by done. destruct (delete_rows_view c i rows r Hg Ef). by split.
  - destruct (view rows !! i) as [[c' j]|]; [|by split].
    rewrite bool_decide_eq_false_2 by by eapply Hv. by split.
Qed.
End RefinementProof.

(** Runs of operations. *)
Fixpoint doc_run `{JsonText} (plugin_id : string) (ops : list (DocOp * DocDraw)) (rows : list Row) : list Row :=
  match ops with
  | [] => rows
  | (o, d) :: ops' => doc_run plugin_id ops' (doc_exec plugin_id o d rows).2
  end.

(** An operation that the specification refuses changes nothing. *)
Fixpoint spec_run (ops : list (DocOp * DocDraw)) (m : gmap string (string * json)) : gmap string (string * json) :=
  match ops with
  | [] => m
  | (o, d) :: ops' =>
      spec_run ops' (match doc_spec o (dd_uuid d) m with Ok m' => m' | Err _ => m end)
  end.

Lemma exec_implements `{JsonTextLaws} plugin_id o d rows :
  quiet d → good rows → validate_identifier (op_collection o) = Ok tt → op_canonical o →
  implements rows (doc_spec o (dd_uuid d) (view rows)) (doc_exec plugin_id o d rows).
Proof.
  intros Hq Hg Hc Hj. destruct o.
  - by apply create_implements.
  - by apply update_implements.
  - by apply patch_implements.
  - by apply delete_implements.
Qed.

Lemma good_empty `{JsonText} : good [].
Proof. split; constructor. Qed.

Lemma run_refines `{JsonTextLaws} plugin_id ops rows :
  good rows →
  Forall (λ od, quiet od.2 ∧ validate_identifier (op_collection od.1) = Ok tt ∧ op_canonical od.1) ops →
  good (doc_run plugin_id ops rows) ∧ view (doc_run plugin_id ops rows) = spec_run ops (view rows).
Proof.
  revert rows. induction ops as [|[o d] ops IH]; intros rows Hg Hops; [done|].
  apply Forall_cons in Hops as [(Hq & Hc & Hj) Hops]. simpl in *.
  pose proof (exec_implements plugin_id o d rows Hq Hg Hc Hj) as [Hg' Hs].
  destruct (doc_spec o (dd_uuid d) (view rows)) as [m|e].
  - destruct Hs as [_ <-]. by apply IH.
  - rewrite Hs. by apply IH.
Qed.

(** C12. The table is a map. From an empty table, with a database that does not fail, any
    run of creates, updates, patches and deletes on valid collection names, with documents
    that serde_json reads back (nested at most 127 deep, floats that read back), leaves
    exactly the documents of the reference map, one per id, and the next operation
    succeeds or fails exactly as on the map: [NotFound], [AlreadyExists], or, for an id
    that another collection already has, an internal error. A failed operation changes
    nothing. *)
Theorem sqlite_refines_map `{JsonTextLaws} plugin_id ops o d :
  Forall (λ od, quiet od.2 ∧ validate_identifier (op_collection od.1) = Ok tt ∧ op_canonical od.1)
    (ops ++ [(o, d)]) →
  let rows := doc_run plugin_id ops [] in
  view rows = spec_run ops ∅ ∧
  implements rows (doc_spec o (dd_uuid d) (spec_run ops ∅)) (doc_exec plugin_id o d rows).
Proof.
  intros Hops. cbn zeta. apply Forall_app in Hops as [Hops Ho].
  apply Forall_cons in Ho as [(Hq & Hc & Hj) _]. simpl in *.
  destruct (run_refines plugin_id ops [] good_empty Hops) as [Hg Hv].
  change (view []) with (∅ : gmap string (string * json)) in Hv. rewrite <- Hv. split; [done|].
  by apply exec_implements.
Qed.

Lemma sqlite_refines_map_witness :
  let d := mkDocDraw "t0" "u" None None (λ _, None) 1 in
  let ops := [(DocCreate "notes" (JObj [("id"%string, JStr "a"); ("x"%string, JNum (NInt 1))]), d);
              (DocPatch "notes" "a" (JObj [("x"%string, JNull); ("y"%string, JBool true)]), d)] in
  view (H := coded_text) (doc_run (H := coded_text) "core" ops []) !! "a"%string =
    Some ("notes"%string, JObj [("y"%string, JBool true)]) ∧
  doc_exec (H := coded_text) "core" (DocCreate "tasks" (JObj [("id"%string, JStr "a")])) d
      (doc_run (H := coded_text) "core" ops []) =
    (Err (Internal UNIQUE_FAILED), doc_run (H := coded_text) "core" ops []).
Proof.
  cbn zeta. set (d := mkDocDraw "t0" "u" None None (λ _, None) 1).
  destruct (@sqlite_refines_map coded_text coded_text_laws "core"
    [(DocCreate "notes" (JObj [("id"%string, JStr "a"); ("x"%string, JNum (NInt 1))]), d);
     (DocPatch "notes" "a" (JObj [("x"%string, JNull); ("y"%string, JBool true)]), d)]
    (DocCreate "tasks" (JObj [("id"%string, JStr "a")])) d) as [Hv [_ Hs]].
  - repeat constructor; discriminate.
  - rewrite Hv. split; [vm_compute; reflexivity|exact Hs].
Defined.

(** *** Batches *)

(** The draw of a single operation at the same time, with its own fresh id. *)
Definition single (d : DocDraw) (fresh : string) : DocDraw :=
  mkDocDraw (dd_now d) fresh None None (λ _, None) (dd_elapsed d).

Fixpoint singles (collection : string) (uuid : nat → string) (d : DocDraw) (i : nat) (docs : list json)
    : list (DocOp * DocDraw) :=
  match docs with
  | [] => []
  | doc :: docs' => (DocCreate collection doc, single d (uuid i)) :: singles collection uuid d (S i) docs'
  end.

Lemma insert_row_fresh r rows rows' c :
  insert_row r rows = Ok rows' → find_row c (r_id r) rows = None.
Proof.
  unfold insert_row. destruct (existsb _ rows) eqn:E; [done|]. intros _. unfold find_row.
  destruct (list_find _ rows) as [[n r']|] eqn:El; [|done].
  apply list_find_Some in El as (Hl & Hr & _). unfold is_row in Hr. apply andb_true_iff in Hr as [_ Hr].
  assert (existsb (λ r', bool_decide (r_id r' = r_id r)) rows = true); [|congruence].
  apply existsb_exists. exists r'. split; [|done]. apply list_elem_of_In. by eapply list_elem_of_lookup_2.
Qed.

Lemma create_all_singles `{JsonText} plugin_id collection uuid d i docs rows rs rows' :
  validate_identifier collection = Ok tt →
  create_all plugin_id collection uuid d i docs rows = (Ok rs, rows') →
  rows' = doc_run plugin_id (singles collection uuid d i docs) rows.
Proof.
  intros Hc. revert i rows rs rows'. induction docs as [|doc docs IH]; intros i rows rs rows' Hb.
  { simpl in Hb. by simplify_eq. }
  cbn [create_all] in Hb. unfold stmt in Hb. destruct (dd_fault d (S i)); [done|].
  destruct (insert_row _ rows) as [rows1|] eqn:Ei; [|done].
  destruct (row_to_document _ _ _ _) as [r|] eqn:Er; [|done].
  destruct (create_all _ _ _ _ _ docs rows1) as [[rs'|] rows2] eqn:Ec; [|done]. simplify_eq.
  apply IH in Ec. subst. simpl. f_equal. unfold sqlite_create, validated, started, stmt. rewrite Hc. simpl.
  apply insert_row_fresh with (c := collection) in Ei as Hn. simpl in Hn. rewrite Hn. simpl.
  by rewrite Ei.
Qed.

(** C37. Batches are all or nothing: whatever fails, inside SQLite or because of a
    document, a batch that is answered with an error leaves the table as it was, and
    a batch of creates that succeeds leaves it as the single creates would, one after
    the other. *)
Theorem batches_atomic `{JsonText} plugin_id collection docs uuid updates ids d rows :
  let created := sqlite_batch_create plugin_id collection docs uuid d rows in
  let updated := sqlite_batch_update collection updates d rows in
  let deleted := sqlite_batch_delete collection ids d rows in
  (created.2 = if is_ok created.1 then doc_run plugin_id (singles collection uuid d 0 docs) rows else rows) ∧
  (is_ok updated.1 = false → updated.2 = rows) ∧
  (is_ok deleted.1 = false → deleted.2 = rows).
Proof.
  assert (∀ A (body : result A StorageError * list Row),
    is_ok (transaction d 0 rows body).1 = false → (transaction d 0 rows body).2 = rows) as Htx.
  { intros A [[a|e] rows']; unfold transaction; destruct (dd_begin d); try done.
    by destruct (dd_fault d 0). }
  cbn zeta. unfold sqlite_batch_create, sqlite_batch_update, sqlite_batch_delete, validated, started.
  destruct (validate_identifier collection) as [[]|] eqn:Ev; [|done]. destruct (dd_start d).
  { split_and!; try done. by destruct ids. }
  split_and!; [|apply Htx|destruct ids; [done|apply Htx]].
  destruct (create_all plugin_id collection uuid d 0 docs rows) as [[rs|e] rows'] eqn:Ec;
    unfold transaction; destruct (dd_begin d); try done.
  destruct (dd_fault d 0); [done|]. simpl. by eapply create_all_singles.
Qed.
