(* ===== verification/SqliteStore.v ===== *)
(** * The storage context over SQLite

    The SQLite adapter of document.rs keeps documents, so what the storage context
    (packages/traits/src/storage_context.rs) writes through the router it reads back. *)

From stdpp Require Import base tactics list strings gmap.
From Stdlib Require Import ZArith Lia.
From S2P Require Import Prelude RustString Json Types Crypto Schema Storage StorageContext StorageContextFacts SystemSteps SqliteDoc SqliteQueryFacts SqliteDocFacts.

Local Open Scope string_scope.

(** Taking the system fields off and putting others on. *)
Lemma restamp o i t1 t2 :
  obj_sorted o → obj_get "id" o = Some (JStr i) →
  match strip_system (JObj o) with
  | JObj o' => obj_insert "updated_at" t2 (obj_insert "created_at" t1 (obj_insert "id" (JStr i) o'))
  | _ => []
  end = obj_insert "updated_at" t2 (obj_insert "created_at" t1 o).
Proof.
  intros Hs Hi. simpl.
  apply obj_equiv_eq; [by repeat (apply obj_insert_sorted || apply obj_remove_sorted)..|]. intros k.
  destruct (decide (k = "updated_at")) as [->|Hu]; [by rewrite !obj_get_insert_eq|].
  rewrite !(obj_get_insert_ne "updated_at" k) by done.
  destruct (decide (k = "created_at")) as [->|Hc]; [by rewrite !obj_get_insert_eq|].
  rewrite !(obj_get_insert_ne "created_at" k) by done.
  destruct (decide (k = "id")) as [->|Hk]; [by rewrite obj_get_insert_eq|].
  by rewrite obj_get_insert_ne, !obj_get_remove_ne by done.
Qed.

Lemma find_row_snoc c rows r :
  r_collection r = c → find_row c (r_id r) rows = None → find_row c (r_id r) (rows ++ [r]) = Some r.
Proof.
  intros Hc. unfold find_row. rewrite fmap_None. intros Hn.
  rewrite list_find_app_r by done. simpl. unfold is_row.
  by rewrite decide_True by by rewrite Hc, !bool_decide_eq_true_2.
Qed.

Section Adapter.
Context `{JsonTextLaws} `{Base64Url} `{Sqlite} (plugin_id : string) {B : Type} `{Adapters B}.

(** What a successful create does. *)
Lemma sqlite_create_ok c o i d rows doc rows' :
  json_printable (JObj o) → obj_get "id" o = Some (JStr i) →
  sqlite_create plugin_id c (JObj o) d rows = (Ok doc, rows') →
  ∃ r, find_row c i rows' = Some r ∧ row_to_document (r_id r) (r_data r) (r_created_at r) (r_updated_at r) = Ok doc ∧
    doc = JObj (obj_insert "updated_at" (JStr (dd_now d)) (obj_insert "created_at" (JStr (dd_now d)) o)).
Proof.
  intros Hc Hi. unfold sqlite_create, validated, started, stmt, document_id.
  assert (json_get (JObj o) "id" ≫= as_str = Some i) as ->.
  { unfold json_get. simpl. by rewrite Hi. }
  destruct (validate_identifier c); [|done]. destruct (dd_start d); [done|]. destruct (dd_fault d 0); [done|].
  cbn [default from_option id]. case_bool_decide; [done|]. destruct (dd_fault d 1); [done|].
  destruct (insert_row _ rows) as [rows1|] eqn:Ei; [|done]. intros [= Hdoc ->].
  set (r := mkRow i plugin_id c (json_to_string (strip_system (JObj o))) 1 (dd_now d) (dd_now d)) in *.
  exists r. split_and!; [|done|].
  - pose proof (insert_row_fresh r rows rows' c Ei) as Hn. unfold insert_row in Ei.
    destruct (existsb _ rows); [done|]. injection Ei as <-. exact (find_row_snoc c rows r eq_refl Hn).
  - unfold row_to_document in Hdoc. rewrite json_print_parse in Hdoc by exact (strip_printable (JObj o) Hc).
    simpl in Hdoc. injection Hdoc as <-. f_equal.
    apply (restamp o i (JStr (dd_now d)) (JStr (dd_now d))); [by eapply within_sorted|done].
Qed.

#[local] Existing Instance sqlite_adapters.

(** The adapter does what the context relies on. *)
Lemma sqlite_keeping : @KeepingAdapter (SqliteWorld * B) (sqlite_adapters plugin_id) _.
Proof.
  split. intros c o i t1 t2 [w b] doc t w' Hc Hi _ _. simpl. unfold on_fst, sqlite_call. simpl.
  destruct (sqlite_create plugin_id c (JObj o) (sw_draw w) (sw_rows w)) as [r rows'] eqn:E.
  intros [= -> <- <-]. apply sqlite_create_ok with (i := i) in E as (r & Hf & Hr & ->); [|done..].
  split; [by eexists _, _|]. intros doc t' w''. simpl. unfold sqlite_get, validated, started, stmt.
  destruct (validate_identifier c); [|done]. destruct (dd_start _); [done|]. destruct (dd_fault _ 0); [done|].
  rewrite Hf, Hr. by intros [= <- _ _].
Qed.
End Adapter.


#[local] Existing Instance type_keyword_lib.

(** An empty database that answers each call in three milliseconds. *)
Definition sqlite_store : Store (SqliteWorld * gmap (string * string) json) :=
  mkStore (mkSqliteWorld [] (λ n, mkDocDraw ("t" +:+ show_nat n) "u" None None (λ _, None) 3) 0, ∅) [] [].

Definition sqlite_demo : Adapters (SqliteWorld * gmap (string * string) json) :=
  @sqlite_adapters coded_text toy_base64 toy_sqlite "core" _ _.

(** A plugin writes a credential in its own scoped collection, and the system reads it. *)
Definition mail_plugin : CallerIdentity := PluginCaller "mail" [DocWrite] [].

Definition sqlite_credential_created :=
  @doc_create _ sqlite_demo _ _ default_timeouts new_registry (Some demo_key) demo_inputs mail_plugin
    "credentials" (JObj credential_object) true sqlite_store.

