(* ===== verification/BlobFs.v ===== *)
(** * The file system blob adapter

    packages/storage-sqlite/src/blob_fs.rs: a blob is a file under the root, its
    metadata a sidecar file next to it, both written to a temporary name and renamed.
    Files are a map from paths relative to the root to bytes, directories a set.
    Checksums, metadata texts and type detection are parameters; what fails on the way
    is part of the [FsDraw] of a call. *)

From stdpp Require Import base tactics list strings gmap.
From Stdlib Require Import Ascii ZArith Lia.
From S2P Require Import Prelude RustString Json Types Storage.

Local Open Scope string_scope.

Record FsState : Type := mkFs {
  files : gmap string (list Z);
  dirs : gset string;
}.

Class BlobLib : Type := {
  sha256_hex : list Z → string;
  meta_to_bytes : BlobMeta → list Z;
  meta_from_bytes : list Z → result BlobMeta string;
  (** magic bytes, then the extension *)
  detect_content_type : string → list Z → string;
}.

Class BlobLibLaws `{BlobLib} : Prop := {
  meta_roundtrip m : meta_from_bytes (meta_to_bytes m) = Ok m;
}.

(** Where a write to a temporary file and its renaming may stop; [made] is how many of
    the missing directories were made before one could not. *)
Inductive WriteFault : Type :=
| MkdirFails (e : string) (made : nat)
| WriteFails (e : string) (partial : option (list Z))
| RenameFails (e : string).

Record FsDraw : Type := mkFsDraw {
  fd_now : timestamp;
  fd_blob_write : option WriteFault;
  fd_meta_write : option WriteFault;
  fd_read : option string;
  fd_read_meta : option string;
  fd_remove : option string;
  fd_remove_meta : option string;
  fd_readdir : option string;
}.

Definition meta_path (key : string) : string := key +:+ ".meta.json".
Definition tmp_path (path : string) : string := path +:+ ".tmp".

(** The directories above a path, the root apart. *)
Fixpoint parents_go (seen : string) (segments : list string) : list string :=
  match segments with
  | [] | [_] => []
  | s :: rest =>
      let here := if is_empty seen then s else seen +:+ "/" +:+ s in
      here :: parents_go here rest
  end.
Definition parents (path : string) : list string := parents_go empty_str (split "/"%char path).

Definition make_dirs (ds : list string) (fs : FsState) : FsState :=
  mkFs (files fs) (dirs fs ∪ list_to_set ds).

Definition set_file (path : string) (data : list Z) (fs : FsState) : FsState :=
  mkFs (<[path := data]> (files fs)) (dirs fs).
Definition remove_file (path : string) (fs : FsState) : FsState :=
  mkFs (delete path (files fs)) (dirs fs).

(** ** What the operating system refuses *)

Definition FILE_EXISTS : string := "File exists (os error 17)".
Definition NOT_A_DIRECTORY : string := "Not a directory (os error 20)".
Definition IS_A_DIRECTORY : string := "Is a directory (os error 21)".

Definition is_file (fs : FsState) (path : string) : bool := bool_decide (is_Some (files fs !! path)).

(** A file stands where a directory of the path would have to be. *)
Definition blocked (path : string) (fs : FsState) : bool := existsb (is_file fs) (parents path).

(** Why a write does not succeed: a fault of the call, or what is in the way. *)
Definition write_fault (dest : string) (fault : option WriteFault) (fs : FsState) : option WriteFault :=
  match fault with
  | Some f => Some f
  | None =>
      if from_option (is_file fs) false (last (parents dest)) then Some (MkdirFails FILE_EXISTS 0)
      else if blocked dest fs then Some (MkdirFails NOT_A_DIRECTORY 0)
      else if bool_decide (tmp_path dest ∈ dirs fs) then Some (WriteFails IS_A_DIRECTORY None)
      else if bool_decide (dest ∈ dirs fs) then Some (RenameFails IS_A_DIRECTORY)
      else None
  end.

Definition atomic_write (dest : string) (data : list Z) (fault : option WriteFault) (fs : FsState)
    : result unit StorageError * FsState :=
  let fs1 := make_dirs (parents dest) fs in
  match write_fault dest fault fs with
  | Some (MkdirFails e made) =>
      (Err (Internal ("mkdir " +:+ default empty_str (last (parents dest)) +:+ ": " +:+ e)),
       make_dirs (take made (parents dest)) fs)
  | Some (WriteFails e partial) =>
      (Err (Internal ("write " +:+ tmp_path dest +:+ ": " +:+ e)),
       from_option (λ p, set_file (tmp_path dest) p fs1) fs1 partial)
  | Some (RenameFails e) =>
      (Err (Internal ("rename to " +:+ dest +:+ ": " +:+ e)), remove_file (tmp_path dest) fs1)
  | None => (Ok tt, set_file dest data (remove_file (tmp_path dest) fs1))
  end.

(** [std::fs::read]; the error [None] is that of a file that is not there. *)
Definition read_file (path : string) (fault : option string) (fs : FsState)
    : result (list Z) (option string) :=
  match files fs !! path, fault with
  | Some data, None => Ok data
  | Some _, Some e => Err (Some e)
  | None, _ =>
      if blocked path fs then Err (Some NOT_A_DIRECTORY)
      else if bool_decide (path ∈ dirs fs) then Err (Some IS_A_DIRECTORY)
      else Err None
  end.

(** [Path::exists]. *)
Definition path_exists (path : string) (fs : FsState) : bool :=
  is_file fs path || bool_decide (path ∈ dirs fs).

Definition blob_not_found (key : string) : StorageError := NotFound "blob" key.

(** How a failed read is reported. *)
Definition read_error (key what : string) (e : option string) : StorageError :=
  match e with
  | None => blob_not_found key
  | Some e => Internal (what +:+ ": " +:+ e)
  end.

Section Blobs.
Context `{BlobLib}.

Definition read_meta (key : string) (d : FsDraw) (fs : FsState) : result BlobMeta StorageError :=
  let path := meta_path key in
  let? bytes := result_map_err (read_error key ("read meta " +:+ path)) (read_file path (fd_read_meta d) fs) in
  result_map_err (λ e, Internal ("parse meta " +:+ path +:+ ": " +:+ e)) (meta_from_bytes bytes).

(** Blob, then sidecar; without its sidecar the blob is removed. *)
Definition write_both (key : string) (data : list Z) (meta : BlobMeta) (d : FsDraw) (fs : FsState)
    : result BlobMeta StorageError * FsState :=
  match atomic_write key data (fd_blob_write d) fs with
  | (Err e, fs1) => (Err e, fs1)
  | (Ok _, fs1) =>
      match atomic_write (meta_path key) (meta_to_bytes meta) (fd_meta_write d) fs1 with
      | (Err e, fs2) => (Err e, remove_file key fs2)
      | (Ok _, fs2) => (Ok meta, fs2)
      end
  end.

Definition fs_store (key : string) (input : BlobInput) (d : FsDraw) (fs : FsState)
    : result BlobMeta StorageError * FsState :=
  let content_type := default (detect_content_type key (bi_data input)) (bi_content_type input) in
  let created_at := match read_meta key d fs with Ok m => bm_created_at m | Err _ => fd_now d end in
  let meta := mkBlobMeta key (Z.of_nat (length (bi_data input))) content_type (sha256_hex (bi_data input))
                created_at (bi_metadata input) in
  write_both key (bi_data input) meta d fs.

Definition read_blob (key : string) (d : FsDraw) (fs : FsState) : result (list Z) StorageError :=
  result_map_err (read_error key ("read blob " +:+ key)) (read_file key (fd_read d) fs).

Definition fs_retrieve (key : string) (d : FsDraw) (fs : FsState)
    : result (list Z * BlobMeta) StorageError * FsState :=
  (let? data := read_blob key d fs in
   let? meta := read_meta key d fs in
   let actual := sha256_hex data in
   if bool_decide (actual ≠ bm_checksum meta) then
     Err (Internal ("checksum mismatch for " +:+ key +:+ ": expected " +:+ bm_checksum meta
                    +:+ ", got " +:+ actual))
   else Ok (data, meta), fs).

Definition fs_delete (key : string) (d : FsDraw) (fs : FsState) : result unit StorageError * FsState :=
  let refused e := (Err (Internal ("delete blob " +:+ key +:+ ": " +:+ e)), fs) in
  if negb (path_exists key fs) then (Err (blob_not_found key), fs) else
  match fd_remove d with
  | Some e => refused e
  | None =>
      if negb (is_file fs key) then refused IS_A_DIRECTORY else
      let fs1 := remove_file key fs in
      (Ok tt, match fd_remove_meta d with Some _ => fs1 | None => remove_file (meta_path key) fs1 end)
  end.

Definition fs_exists (key : string) (d : FsDraw) (fs : FsState) : result bool StorageError * FsState :=
  (Ok (path_exists key fs), fs).

Definition fs_copy (source dest : string) (d : FsDraw) (fs : FsState)
    : result BlobMeta StorageError * FsState :=
  match (let? _ := (if path_exists source fs then Ok tt else Err (blob_not_found source)) in
         let? data := read_blob source d fs in
         let? m := read_meta source d fs in
         Ok (data, mkBlobMeta dest (bm_size_bytes m) (bm_content_type m) (bm_checksum m) (fd_now d)
                     (bm_metadata m))) with
  | Err e => (Err e, fs)
  | Ok (data, meta) => write_both dest data meta d fs
  end.

(** ** Listing *)

(** [trim_end_matches]: the suffix, as often as it is there. *)
Fixpoint trim_suffix (fuel : nat) (suffix s : string) : string :=
  match fuel, strip_suffix_str suffix s with
  | S fuel', Some r => trim_suffix fuel' suffix r
  | _, _ => s
  end.

(** The directory that is walked, [""] for the root. *)
Definition walk_dir (prefix : string) (fs : FsState) : string :=
  let p := default prefix (strip_suffix_str "/" prefix) in
  if is_empty p || bool_decide (p ∈ dirs fs) then p
  else default empty_str (last (parents p)).

Definition within (dir path : string) : bool := is_empty dir || starts_with path (dir +:+ "/").

(** [order] is the order in which the directories list the files. *)
Definition fs_list (order : gmap string (list Z) → list (string * list Z)) (prefix : string) (d : FsDraw)
    (fs : FsState) : result (list BlobMeta) StorageError * FsState :=
  let dir := walk_dir prefix fs in
  if negb (is_empty dir || bool_decide (dir ∈ dirs fs)) then (Ok [], fs) else
  match fd_readdir d with
  | Some e => (Err (Internal ("readdir: " +:+ e)), fs)
  | None =>
      (Ok (omap (λ f : string * list Z,
             if within dir f.1 && ends_with f.1 ".meta.json"
                && starts_with (trim_suffix (String.length f.1) ".meta.json" f.1) prefix
             then result_ok (meta_from_bytes f.2) else None) (order (files fs))), fs)
  end.

Definition fs_metadata (key : string) (d : FsDraw) (fs : FsState) : result BlobMeta StorageError * FsState :=
  (read_meta key d fs, fs).

Definition fs_health (root_exists writable : bool) : HealthReport :=
  let ok := root_exists && writable in
  mkHealthReport (if ok then Healthy else if root_exists then Degraded else Unhealthy) None
    [("root_exists", if root_exists then Healthy else Unhealthy, None);
     ("root_writable", if ok then Healthy else Unhealthy, None)].
End Blobs.

(** * Facts about blobs on the file system *)

(** The paths that a write under a key touches. *)
Definition touched (key : string) : list string :=
  [key; tmp_path key; meta_path key; tmp_path (meta_path key)].

(** A key whose blob and sidecar are not among them. *)
Definition independent (key key' : string) : Prop := key' ∉ touched key ∧ meta_path key' ∉ touched key.

Lemma atomic_write_other dest data fault fs r fs' path :
  atomic_write dest data fault fs = (r, fs') → path ≠ dest → path ≠ tmp_path dest →
  files fs' !! path = files fs !! path.
Proof.
  unfold atomic_write. intros Hw H1 H2.
  destruct (write_fault dest fault fs) as [[e n|e [p|]|e]|]; simplify_eq/=; try done;
    by rewrite ?lookup_insert_ne, ?lookup_delete_ne.
Qed.

Lemma atomic_write_written dest data fault fs fs' :
  atomic_write dest data fault fs = (Ok tt, fs') → files fs' !! dest = Some data.
Proof.
  unfold atomic_write. intros Hw. destruct (write_fault dest fault fs) as [[]|]; simplify_eq/=.
  apply lookup_insert_eq.
Qed.

Lemma tmp_path_ne s : tmp_path s ≠ s.
Proof.
  unfold tmp_path. intros Heq%(f_equal String.length). rewrite string_length_app in Heq. simpl in Heq. lia.
Qed.
Lemma meta_path_ne s : meta_path s ≠ s.
Proof.
  unfold meta_path. intros Heq%(f_equal String.length). rewrite string_length_app in Heq. simpl in Heq. lia.
Qed.
Lemma tmp_meta_ne s : tmp_path (meta_path s) ≠ s.
Proof.
  unfold tmp_path, meta_path. intros Heq%(f_equal String.length).
  rewrite !string_length_app in Heq. simpl in Heq. lia.
Qed.

Section Facts.
Context `{BlobLibLaws}.

Lemma write_both_other key data meta d fs r fs' path :
  write_both key data meta d fs = (r, fs') → path ∉ touched key → files fs' !! path = files fs !! path.
Proof.
  unfold write_both, touched. rewrite !not_elem_of_cons. intros Hw (H1 & H2 & H3 & H4 & _).
  destruct (atomic_write key data _ fs) as [[|] fs1] eqn:E1; simplify_eq;
    [|by eapply atomic_write_other].
  destruct (atomic_write (meta_path key) _ _ fs1) as [[|] fs2] eqn:E2; simplify_eq.
  - rewrite (atomic_write_other _ _ _ _ _ _ path E2) by done. by eapply atomic_write_other.
  - simpl. rewrite lookup_delete_ne by done.
    rewrite (atomic_write_other _ _ _ _ _ _ path E2) by done. by eapply atomic_write_other.
Qed.

Lemma write_both_ok key data meta d fs m fs' :
  write_both key data meta d fs = (Ok m, fs') →
  m = meta ∧ files fs' !! key = Some data ∧ files fs' !! meta_path key = Some (meta_to_bytes meta).
Proof.
  unfold write_both. intros Hw.
  destruct (atomic_write key data _ fs) as [[[]|] fs1] eqn:E1; [|done].
  destruct (atomic_write (meta_path key) _ _ fs1) as [[[]|] fs2] eqn:E2; [|done]. simplify_eq.
  split; [done|]. split.
  - rewrite (atomic_write_other _ _ _ _ _ _ key E2); [|by intros ?%eq_sym%meta_path_ne|by intros ?%eq_sym%tmp_meta_ne].
    by eapply atomic_write_written.
  - by eapply atomic_write_written.
Qed.

(** Reading a blob that is there depends on its two files only. *)
Lemma retrieve_same key d fs fs' x :
  files fs' !! key = files fs !! key → files fs' !! meta_path key = files fs !! meta_path key →
  (fs_retrieve key d fs).1 = Ok x → (fs_retrieve key d fs').1 = Ok x.
Proof.
  intros H1 H2. unfold fs_retrieve, read_blob, read_meta, read_file. simpl. rewrite H1, H2.
  destruct (files fs !! key) as [data|], (files fs !! meta_path key) as [bytes|];
    by destruct (blocked key fs), (bool_decide (key ∈ dirs fs)), (blocked (meta_path key) fs),
      (bool_decide (meta_path key ∈ dirs fs)), (fd_read d), (fd_read_meta d).
Qed.
End Facts.

(** Reads that the operating system does not refuse. *)
Definition reads_work (d : FsDraw) : Prop := fd_read d = None ∧ fd_read_meta d = None.

(** A stored blob is read back: once [store] succeeds, a read returns the bytes
    given with the metadata answered, whose size and checksum are those of the bytes,
    and whose creation time is that of the blob it replaces, if there was one. Every
    other blob that could be read, under a key whose files the store does not touch,
    reads the same, whatever came of the store. *)
Theorem blob_store_retrieve `{BlobLibLaws} key input d d' fs r fs' :
  fs_store key input d fs = (r, fs') → reads_work d' →
  (∀ meta, r = Ok meta →
     (fs_retrieve key d' fs').1 = Ok (bi_data input, meta) ∧
     bm_key meta = key ∧ bm_size_bytes meta = Z.of_nat (length (bi_data input)) ∧
     bm_checksum meta = sha256_hex (bi_data input) ∧
     bm_created_at meta = match read_meta key d fs with Ok m => bm_created_at m | Err _ => fd_now d end) ∧
  ∀ key' x, independent key key' →
    (fs_retrieve key' d' fs).1 = Ok x → (fs_retrieve key' d' fs').1 = Ok x.
Proof.
  unfold fs_store. set (meta := mkBlobMeta _ _ _ _ _ _). intros Hs [Hr Hm]. split.
  - intros m ->. apply write_both_ok in Hs as (-> & Hb & Hmeta). split; [|done].
    unfold fs_retrieve, read_blob, read_meta, read_file. simpl. rewrite Hr, Hm, Hb, Hmeta. simpl.
    rewrite meta_roundtrip. simpl. by rewrite bool_decide_eq_false_2 by (intros Hne; by apply Hne).
  - intros key' x [H1 H2]. apply retrieve_same; by eapply write_both_other.
Qed.

(** No file at a path, no blob under it. *)
Lemma retrieve_gone `{BlobLib} key d fs :
  files fs !! key = None → is_ok (fs_retrieve key d fs).1 = false.
Proof.
  intros Hgone. unfold fs_retrieve, read_blob, read_file. rewrite Hgone.
  by destruct (blocked key fs), (bool_decide (key ∈ dirs fs)).
Qed.

(** Overwriting a blob fails after its new bytes are in place: the rollback removes
    the blob, and with it the one that was there before. *)
Theorem failed_overwrite_loses_blob `{BlobLib} key input d d' fs f :
  write_fault key (fd_blob_write d) fs = None → fd_meta_write d = Some f →
  is_ok (fs_store key input d fs).1 = false ∧
  is_ok (fs_retrieve key d' (fs_store key input d fs).2).1 = false.
Proof.
  intros Hb Hm. unfold fs_store, write_both, atomic_write at 1 3. rewrite Hb.
  unfold atomic_write. rewrite Hm. simpl.
  assert (∀ fs0, files (remove_file key fs0) !! key = None) as Hgone by (intros; apply lookup_delete_eq).
  destruct f as [e n|e p|e]; (split; [done|]); apply retrieve_gone, Hgone.
Qed.

(** Storing a blob removes another whose key is its temporary name. *)
Theorem temporary_name_destroyed `{BlobLib} key input d d' fs meta fs' :
  fs_store key input d fs = (Ok meta, fs') → is_ok (fs_retrieve (tmp_path key) d' fs').1 = false.
Proof.
  unfold fs_store, write_both. intros Hs.
  destruct (atomic_write key _ _ fs) as [[[]|] fs1] eqn:E1; [|done].
  destruct (atomic_write (meta_path key) _ _ fs1) as [[[]|] fs2] eqn:E2; [|done]. simplify_eq.
  apply retrieve_gone. rewrite (atomic_write_other _ _ _ _ _ _ (tmp_path key) E2).
  - unfold atomic_write in E1. destruct (write_fault key _ fs) as [[]|]; simplify_eq/=.
    rewrite lookup_insert_ne by by intros ?%eq_sym%tmp_path_ne. apply lookup_delete_eq.
  - unfold tmp_path, meta_path. intros Heq%(f_equal String.length).
    rewrite !string_length_app in Heq. simpl in Heq. lia.
  - unfold tmp_path, meta_path. intros Heq%(f_equal String.length).
    rewrite !string_length_app in Heq. simpl in Heq. lia.
Qed.

(** A blob named like a sidecar replaces the metadata of the other. *)
Theorem sidecar_name_forges `{BlobLib} key input d fs meta fs' :
  fs_store (meta_path key) input d fs = (Ok meta, fs') →
  files fs' !! meta_path key = Some (bi_data input).
Proof. unfold fs_store. intros Hs. by apply write_both_ok in Hs as (_ & Hb & _). Qed.

(** ** A toy library *)

(** Metadata coded as one number; a checksum is a length. *)
Definition meta_tuple (m : BlobMeta) : string * Z * string * string * Z * list (string * string) :=
  (bm_key m, bm_size_bytes m, bm_content_type m, bm_checksum m, bm_created_at m, bm_metadata m).
Definition tuple_meta (t : string * Z * string * string * Z * list (string * string)) : BlobMeta :=
  let '(k, n, c, s, a, m) := t in mkBlobMeta k n c s a m.

Definition toy_blobs : BlobLib :=
  Build_BlobLib (λ data, show_nat (length data)) (λ m, [Zpos (encode (meta_tuple m))])
    (λ b, match b with
          | [Zpos p] => ok_or (tuple_meta <$> decode p) "not metadata"
          | _ => Err "not metadata"
          end) (λ _ _, "application/octet-stream").

Lemma toy_blobs_laws : @BlobLibLaws toy_blobs.
Proof. split. intros m. cbn -[encode decode]. rewrite decode_encode. by destruct m. Qed.

Definition toy_fs_draw : FsDraw := mkFsDraw 7 None None None None None None None.

Lemma blob_store_retrieve_witness :
  let input := mkBlobInput [1%Z; 2%Z; 3%Z] (Some "text/plain") [] in
  let out := @fs_store toy_blobs "p/c/x" input toy_fs_draw (mkFs ∅ ∅) in
  (@fs_retrieve toy_blobs "p/c/x" toy_fs_draw out.2).1 =
    Ok ([1%Z; 2%Z; 3%Z], mkBlobMeta "p/c/x" 3 "text/plain" "3" 7 []) ∧ parents "p/c/x" = ["p"; "p/c"].
Proof.
  split; [|vm_compute; reflexivity].
  destruct (@blob_store_retrieve toy_blobs toy_blobs_laws "p/c/x" (mkBlobInput [1%Z; 2%Z; 3%Z] (Some "text/plain") [])
    toy_fs_draw toy_fs_draw (mkFs ∅ ∅) (Ok (mkBlobMeta "p/c/x" 3 "text/plain" "3" 7 []))
    (@fs_store toy_blobs "p/c/x" (mkBlobInput [1%Z; 2%Z; 3%Z] (Some "text/plain") []) toy_fs_draw (mkFs ∅ ∅)).2)
    as [Hr _].
  - vm_compute. reflexivity.
  - split; reflexivity.
  - exact (proj1 (Hr _ eq_refl)).
Defined.

(** A listing that stops at the directory of its prefix: "p/c/x1" starts with "p/c/x",
    and is not listed once "p/c/x" is a directory. *)
Example list_misses_sibling :
  let put k fs := (@fs_store toy_blobs k (mkBlobInput [] None []) toy_fs_draw fs).2 in
  let keys p fs := bm_key <$> default [] (result_ok (@fs_list toy_blobs map_to_list p toy_fs_draw fs).1) in
  let fs := put "p/c/x1" (mkFs ∅ ∅) in
  keys "p/c/x" fs = ["p/c/x1"] ∧ keys "p/c/x" (put "p/c/x/y" fs) = ["p/c/x/y"].
Proof. vm_compute. done. Qed.
