(* ===== verification/CanonicalSchemas.v ===== *)
(** * The canonical schemas

    The JSON schemas of the canonical collections, .odm/doc/schemas/*.schema.json, that
    packages/storage-sqlite/src/validation.rs embeds. *)

From stdpp Require Import base list strings.
From Stdlib Require Import ZArith.
From S2P Require Import Prelude RustString Json.

Local Open Scope string_scope.
Local Open Scope list_scope.

Definition EVENTS_SCHEMA : json :=
  mk_obj [
    ("$schema", JStr "https://json-schema.org/draft/2020-12/schema");
    ("$id", JStr "https://life-engine.io/schemas/cdm/events.schema.json");
    ("title", JStr "CalendarEvent");
    ("description", JStr "A calendar event in the Life Engine canonical data model.");
    ("type", JStr "object");
    ("required", JArr [
      JStr "id";
      JStr "title";
      JStr "start";
      JStr "source";
      JStr "source_id";
      JStr "created_at";
      JStr "updated_at"]);
    ("properties", mk_obj [
      ("id", mk_obj [
        ("type", JStr "string");
        ("format", JStr "uuid");
        ("pattern", JStr "^[0-9a-f]{8}-[0-9a-f]{4}-[0-9a-f]{4}-[0-9a-f]{4}-[0-9a-f]{12}$")]);
      ("title", mk_obj [("type", JStr "string")]);
      ("start", mk_obj [
        ("type", JStr "string");
        ("format", JStr "date-time");
        ("pattern", JStr "^\d{4}-\d{2}-\d{2}T\d{2}:\d{2}:\d{2}")]);
      ("end", mk_obj [("type", JStr "string"); ("format", JStr "date-time")]);
      ("description", mk_obj [("type", JStr "string")]);
      ("location", mk_obj [("type", JStr "string")]);
      ("all_day", mk_obj [("type", JStr "boolean")]);
      ("recurrence", mk_obj [("$ref", JStr "#/$defs/Recurrence")]);
      ("attendees", mk_obj [
        ("type", JStr "array");
        ("items", mk_obj [("$ref", JStr "#/$defs/Attendee")]);
        ("default", JArr [])]);
      ("reminders", mk_obj [
        ("type", JStr "array");
        ("items", mk_obj [("$ref", JStr "#/$defs/Reminder")]);
        ("default", JArr [])]);
      ("timezone", mk_obj [("type", JStr "string")]);
      ("status", mk_obj [("$ref", JStr "#/$defs/EventStatus")]);
      ("source", mk_obj [("type", JStr "string")]);
      ("source_id", mk_obj [("type", JStr "string")]);
      ("extensions", mk_obj []);
      ("created_at", mk_obj [("type", JStr "string"); ("format", JStr "date-time")]);
      ("updated_at", mk_obj [("type", JStr "string"); ("format", JStr "date-time")])]);
    ("additionalProperties", JBool true);
    ("$defs", mk_obj [
      ("RecurrenceFrequency", mk_obj [
        ("type", JStr "string");
        ("enum", JArr [JStr "daily"; JStr "weekly"; JStr "monthly"; JStr "yearly"])]);
      ("Recurrence", mk_obj [
        ("type", JStr "object");
        ("required", JArr [JStr "frequency"]);
        ("properties", mk_obj [
          ("frequency", mk_obj [("$ref", JStr "#/$defs/RecurrenceFrequency")]);
          ("interval", mk_obj [("type", JStr "integer"); ("minimum", JNum (NInt 0)); ("default", JNum (NInt 1))]);
          ("until", mk_obj [("type", JStr "string"); ("format", JStr "date-time")]);
          ("count", mk_obj [("type", JStr "integer"); ("minimum", JNum (NInt 0))]);
          ("by_day", mk_obj [("type", JStr "array"); ("items", mk_obj [("type", JStr "string")])])]);
        ("additionalProperties", JBool false)]);
      ("AttendeeStatus", mk_obj [
        ("type", JStr "string");
        ("enum", JArr [JStr "accepted"; JStr "declined"; JStr "tentative"; JStr "needs-action"])]);
      ("Attendee", mk_obj [
        ("type", JStr "object");
        ("required", JArr [JStr "email"]);
        ("properties", mk_obj [
          ("name", mk_obj [("type", JStr "string")]);
          ("email", mk_obj [("type", JStr "string")]);
          ("status", mk_obj [("$ref", JStr "#/$defs/AttendeeStatus")])]);
        ("additionalProperties", JBool false)]);
      ("ReminderMethod", mk_obj [("type", JStr "string"); ("enum", JArr [JStr "notification"; JStr "email"])]);
      ("Reminder", mk_obj [
        ("type", JStr "object");
        ("required", JArr [JStr "minutes_before"; JStr "method"]);
        ("properties", mk_obj [
          ("minutes_before", mk_obj [("type", JStr "integer"); ("minimum", JNum (NInt 0))]);
          ("method", mk_obj [("$ref", JStr "#/$defs/ReminderMethod")])]);
        ("additionalProperties", JBool false)]);
      ("EventStatus", mk_obj [
        ("type", JStr "string");
        ("enum", JArr [JStr "confirmed"; JStr "tentative"; JStr "cancelled"])])])].

Definition TASKS_SCHEMA : json :=
  mk_obj [
    ("$schema", JStr "https://json-schema.org/draft/2020-12/schema");
    ("$id", JStr "https://life-engine.io/schemas/cdm/tasks.schema.json");
    ("title", JStr "Task");
    ("description", JStr "A task in the Life Engine canonical data model.");
    ("type", JStr "object");
    ("required", JArr [
      JStr "id";
      JStr "title";
      JStr "source";
      JStr "source_id";
      JStr "created_at";
      JStr "updated_at"]);
    ("properties", mk_obj [
      ("id", mk_obj [
        ("type", JStr "string");
        ("format", JStr "uuid");
        ("pattern", JStr "^[0-9a-f]{8}-[0-9a-f]{4}-[0-9a-f]{4}-[0-9a-f]{4}-[0-9a-f]{12}$")]);
      ("title", mk_obj [("type", JStr "string")]);
      ("description", mk_obj [("type", JStr "string")]);
      ("status", mk_obj [("$ref", JStr "#/$defs/TaskStatus")]);
      ("priority", mk_obj [("$ref", JStr "#/$defs/TaskPriority")]);
      ("due_date", mk_obj [
        ("type", JStr "string");
        ("format", JStr "date-time");
        ("pattern", JStr "^\d{4}-\d{2}-\d{2}T\d{2}:\d{2}:\d{2}")]);
      ("completed_at", mk_obj [("type", JStr "string"); ("format", JStr "date-time")]);
      ("tags", mk_obj [
        ("type", JStr "array");
        ("items", mk_obj [("type", JStr "string")]);
        ("default", JArr [])]);
      ("assignee", mk_obj [("type", JStr "string")]);
      ("parent_id", mk_obj [
        ("type", JStr "string");
        ("format", JStr "uuid");
        ("pattern", JStr "^[0-9a-f]{8}-[0-9a-f]{4}-[0-9a-f]{4}-[0-9a-f]{4}-[0-9a-f]{12}$")]);
      ("source", mk_obj [("type", JStr "string")]);
      ("source_id", mk_obj [("type", JStr "string")]);
      ("extensions", mk_obj []);
      ("created_at", mk_obj [("type", JStr "string"); ("format", JStr "date-time")]);
      ("updated_at", mk_obj [("type", JStr "string"); ("format", JStr "date-time")])]);
    ("additionalProperties", JBool true);
    ("$defs", mk_obj [
      ("TaskStatus", mk_obj [
        ("type", JStr "string");
        ("enum", JArr [JStr "pending"; JStr "in_progress"; JStr "completed"; JStr "cancelled"])]);
      ("TaskPriority", mk_obj [
        ("type", JStr "string");
        ("enum", JArr [JStr "low"; JStr "medium"; JStr "high"; JStr "urgent"])])])].

Definition CONTACTS_SCHEMA : json :=
  mk_obj [
    ("$schema", JStr "https://json-schema.org/draft/2020-12/schema");
    ("$id", JStr "https://life-engine.io/schemas/cdm/contacts.schema.json");
    ("title", JStr "Contact");
    ("description", JStr "A contact in the Life Engine canonical data model.");
    ("type", JStr "object");
    ("required", JArr [
      JStr "id";
      JStr "name";
      JStr "source";
      JStr "source_id";
      JStr "created_at";
      JStr "updated_at"]);
    ("properties", mk_obj [
      ("id", mk_obj [
        ("type", JStr "string");
        ("format", JStr "uuid");
        ("pattern", JStr "^[0-9a-f]{8}-[0-9a-f]{4}-[0-9a-f]{4}-[0-9a-f]{4}-[0-9a-f]{12}$")]);
      ("name", mk_obj [("$ref", JStr "#/$defs/ContactName")]);
      ("emails", mk_obj [
        ("type", JStr "array");
        ("items", mk_obj [("$ref", JStr "#/$defs/ContactEmail")]);
        ("default", JArr [])]);
      ("phones", mk_obj [
        ("type", JStr "array");
        ("items", mk_obj [("$ref", JStr "#/$defs/ContactPhone")]);
        ("default", JArr [])]);
      ("addresses", mk_obj [
        ("type", JStr "array");
        ("items", mk_obj [("$ref", JStr "#/$defs/ContactAddress")]);
        ("default", JArr [])]);
      ("organization", mk_obj [("type", JStr "string")]);
      ("title", mk_obj [("type", JStr "string")]);
      ("birthday", mk_obj [("type", JStr "string"); ("format", JStr "date")]);
      ("photo_url", mk_obj [("type", JStr "string")]);
      ("notes", mk_obj [("type", JStr "string")]);
      ("groups", mk_obj [
        ("type", JStr "array");
        ("items", mk_obj [("type", JStr "string")]);
        ("default", JArr [])]);
      ("source", mk_obj [("type", JStr "string")]);
      ("source_id", mk_obj [("type", JStr "string")]);
      ("extensions", mk_obj []);
      ("created_at", mk_obj [("type", JStr "string"); ("format", JStr "date-time")]);
      ("updated_at", mk_obj [("type", JStr "string"); ("format", JStr "date-time")])]);
    ("additionalProperties", JBool true);
    ("$defs", mk_obj [
      ("ContactInfoType", mk_obj [("type", JStr "string"); ("enum", JArr [JStr "home"; JStr "work"; JStr "other"])]);
      ("PhoneType", mk_obj [
        ("type", JStr "string");
        ("enum", JArr [JStr "mobile"; JStr "home"; JStr "work"; JStr "fax"; JStr "other"])]);
      ("ContactName", mk_obj [
        ("type", JStr "object");
        ("required", JArr [JStr "given"; JStr "family"]);
        ("properties", mk_obj [
          ("given", mk_obj [("type", JStr "string")]);
          ("family", mk_obj [("type", JStr "string")]);
          ("prefix", mk_obj [("type", JStr "string")]);
          ("suffix", mk_obj [("type", JStr "string")]);
          ("middle", mk_obj [("type", JStr "string")])]);
        ("additionalProperties", JBool false)]);
      ("ContactEmail", mk_obj [
        ("type", JStr "object");
        ("required", JArr [JStr "address"]);
        ("properties", mk_obj [
          ("address", mk_obj [("type", JStr "string")]);
          ("type", mk_obj [("$ref", JStr "#/$defs/ContactInfoType")]);
          ("primary", mk_obj [("type", JStr "boolean")])]);
        ("additionalProperties", JBool false)]);
      ("ContactPhone", mk_obj [
        ("type", JStr "object");
        ("required", JArr [JStr "number"]);
        ("properties", mk_obj [
          ("number", mk_obj [("type", JStr "string")]);
          ("type", mk_obj [("$ref", JStr "#/$defs/PhoneType")]);
          ("primary", mk_obj [("type", JStr "boolean")])]);
        ("additionalProperties", JBool false)]);
      ("ContactAddress", mk_obj [
        ("type", JStr "object");
        ("properties", mk_obj [
          ("street", mk_obj [("type", JStr "string")]);
          ("city", mk_obj [("type", JStr "string")]);
          ("region", mk_obj [("type", JStr "string")]);
          ("postal_code", mk_obj [("type", JStr "string")]);
          ("country", mk_obj [("type", JStr "string")]);
          ("type", mk_obj [("$ref", JStr "#/$defs/ContactInfoType")])]);
        ("additionalProperties", JBool false)])])].

Definition NOTES_SCHEMA : json :=
  mk_obj [
    ("$schema", JStr "https://json-schema.org/draft/2020-12/schema");
    ("$id", JStr "https://life-engine.io/schemas/cdm/notes.schema.json");
    ("title", JStr "Note");
    ("description", JStr "A note in the Life Engine canonical data model.");
    ("type", JStr "object");
    ("required", JArr [
      JStr "id";
      JStr "title";
      JStr "body";
      JStr "source";
      JStr "source_id";
      JStr "created_at";
      JStr "updated_at"]);
    ("properties", mk_obj [
      ("id", mk_obj [
        ("type", JStr "string");
        ("format", JStr "uuid");
        ("pattern", JStr "^[0-9a-f]{8}-[0-9a-f]{4}-[0-9a-f]{4}-[0-9a-f]{4}-[0-9a-f]{12}$")]);
      ("title", mk_obj [("type", JStr "string")]);
      ("body", mk_obj [("type", JStr "string")]);
      ("tags", mk_obj [
        ("type", JStr "array");
        ("items", mk_obj [("type", JStr "string")]);
        ("default", JArr [])]);
      ("format", mk_obj [("$ref", JStr "#/$defs/NoteFormat")]);
      ("pinned", mk_obj [("type", JStr "boolean")]);
      ("source", mk_obj [("type", JStr "string")]);
      ("source_id", mk_obj [("type", JStr "string")]);
      ("extensions", mk_obj []);
      ("created_at", mk_obj [("type", JStr "string"); ("format", JStr "date-time")]);
      ("updated_at", mk_obj [("type", JStr "string"); ("format", JStr "date-time")])]);
    ("additionalProperties", JBool true);
    ("$defs", mk_obj [
      ("NoteFormat", mk_obj [
        ("type", JStr "string");
        ("enum", JArr [JStr "plain"; JStr "markdown"; JStr "html"])])])].

Definition EMAILS_SCHEMA : json :=
  mk_obj [
    ("$schema", JStr "https://json-schema.org/draft/2020-12/schema");
    ("$id", JStr "https://life-engine.io/schemas/cdm/emails.schema.json");
    ("title", JStr "Email");
    ("description", JStr "An email message in the Life Engine canonical data model.");
    ("type", JStr "object");
    ("required", JArr [
      JStr "id";
      JStr "subject";
      JStr "from";
      JStr "to";
      JStr "date";
      JStr "source";
      JStr "source_id";
      JStr "created_at";
      JStr "updated_at"]);
    ("properties", mk_obj [
      ("id", mk_obj [
        ("type", JStr "string");
        ("format", JStr "uuid");
        ("pattern", JStr "^[0-9a-f]{8}-[0-9a-f]{4}-[0-9a-f]{4}-[0-9a-f]{4}-[0-9a-f]{12}$")]);
      ("subject", mk_obj [("type", JStr "string")]);
      ("from", mk_obj [("$ref", JStr "#/$defs/EmailAddress")]);
      ("to", mk_obj [
        ("type", JStr "array");
        ("items", mk_obj [("$ref", JStr "#/$defs/EmailAddress")])]);
      ("cc", mk_obj [
        ("type", JStr "array");
        ("items", mk_obj [("$ref", JStr "#/$defs/EmailAddress")]);
        ("default", JArr [])]);
      ("bcc", mk_obj [
        ("type", JStr "array");
        ("items", mk_obj [("$ref", JStr "#/$defs/EmailAddress")]);
        ("default", JArr [])]);
      ("body_text", mk_obj [("type", JStr "string")]);
      ("body_html", mk_obj [("type", JStr "string")]);
      ("thread_id", mk_obj [("type", JStr "string")]);
      ("date", mk_obj [("type", JStr "string"); ("format", JStr "date-time")]);
      ("message_id", mk_obj [("type", JStr "string")]);
      ("in_reply_to", mk_obj [("type", JStr "string")]);
      ("attachments", mk_obj [
        ("type", JStr "array");
        ("items", mk_obj [("$ref", JStr "#/$defs/EmailAttachment")]);
        ("default", JArr [])]);
      ("read", mk_obj [("type", JStr "boolean")]);
      ("starred", mk_obj [("type", JStr "boolean")]);
      ("labels", mk_obj [
        ("type", JStr "array");
        ("items", mk_obj [("type", JStr "string")]);
        ("default", JArr [])]);
      ("source", mk_obj [("type", JStr "string")]);
      ("source_id", mk_obj [("type", JStr "string")]);
      ("extensions", mk_obj []);
      ("created_at", mk_obj [("type", JStr "string"); ("format", JStr "date-time")]);
      ("updated_at", mk_obj [("type", JStr "string"); ("format", JStr "date-time")])]);
    ("additionalProperties", JBool true);
    ("$defs", mk_obj [
      ("EmailAddress", mk_obj [
        ("type", JStr "object");
        ("required", JArr [JStr "address"]);
        ("properties", mk_obj [
          ("name", mk_obj [("type", JStr "string")]);
          ("address", mk_obj [("type", JStr "string")])]);
        ("additionalProperties", JBool false)]);
      ("EmailAttachment", mk_obj [
        ("type", JStr "object");
        ("required", JArr [JStr "filename"; JStr "mime_type"; JStr "size_bytes"]);
        ("properties", mk_obj [
          ("filename", mk_obj [("type", JStr "string")]);
          ("mime_type", mk_obj [("type", JStr "string")]);
          ("size_bytes", mk_obj [("type", JStr "integer"); ("minimum", JNum (NInt 0))]);
          ("content_id", mk_obj [("type", JStr "string")])]);
        ("additionalProperties", JBool false)])])].

Definition FILES_SCHEMA : json :=
  mk_obj [
    ("$schema", JStr "https://json-schema.org/draft/2020-12/schema");
    ("$id", JStr "https://life-engine.io/schemas/cdm/files.schema.json");
    ("title", JStr "FileMetadata");
    ("description", JStr "File metadata in the Life Engine canonical data model.");
    ("type", JStr "object");
    ("required", JArr [
      JStr "id";
      JStr "filename";
      JStr "path";
      JStr "mime_type";
      JStr "size_bytes";
      JStr "checksum";
      JStr "source";
      JStr "source_id";
      JStr "created_at";
      JStr "updated_at"]);
    ("properties", mk_obj [
      ("id", mk_obj [
        ("type", JStr "string");
        ("format", JStr "uuid");
        ("pattern", JStr "^[0-9a-f]{8}-[0-9a-f]{4}-[0-9a-f]{4}-[0-9a-f]{4}-[0-9a-f]{12}$")]);
      ("filename", mk_obj [("type", JStr "string")]);
      ("path", mk_obj [("type", JStr "string")]);
      ("mime_type", mk_obj [("type", JStr "string")]);
      ("size_bytes", mk_obj [("type", JStr "integer"); ("minimum", JNum (NInt 0))]);
      ("checksum", mk_obj [("type", JStr "string"); ("pattern", JStr "^[a-f0-9]{64}$")]);
      ("storage_backend", mk_obj [("type", JStr "string")]);
      ("source", mk_obj [("type", JStr "string")]);
      ("source_id", mk_obj [("type", JStr "string")]);
      ("extensions", mk_obj []);
      ("created_at", mk_obj [("type", JStr "string"); ("format", JStr "date-time")]);
      ("updated_at", mk_obj [("type", JStr "string"); ("format", JStr "date-time")])]);
    ("additionalProperties", JBool true)].

Definition CREDENTIALS_SCHEMA : json :=
  mk_obj [
    ("$schema", JStr "https://json-schema.org/draft/2020-12/schema");
    ("$id", JStr "https://life-engine.io/schemas/cdm/credentials.schema.json");
    ("title", JStr "Credential");
    ("description", JStr "A credential in the Life Engine canonical data model. Credentials intentionally have NO extensions field.");
    ("type", JStr "object");
    ("required", JArr [
      JStr "id";
      JStr "name";
      JStr "credential_type";
      JStr "service";
      JStr "claims";
      JStr "source";
      JStr "source_id";
      JStr "created_at";
      JStr "updated_at"]);
    ("properties", mk_obj [
      ("id", mk_obj [
        ("type", JStr "string");
        ("format", JStr "uuid");
        ("pattern", JStr "^[0-9a-f]{8}-[0-9a-f]{4}-[0-9a-f]{4}-[0-9a-f]{4}-[0-9a-f]{12}$")]);
      ("name", mk_obj [("type", JStr "string")]);
      ("credential_type", mk_obj [("$ref", JStr "#/$defs/CredentialType")]);
      ("service", mk_obj [("type", JStr "string")]);
      ("claims", mk_obj []);
      ("encrypted", mk_obj [("type", JStr "boolean")]);
      ("expires_at", mk_obj [("type", JStr "string"); ("format", JStr "date-time")]);
      ("source", mk_obj [("type", JStr "string")]);
      ("source_id", mk_obj [("type", JStr "string")]);
      ("created_at", mk_obj [("type", JStr "string"); ("format", JStr "date-time")]);
      ("updated_at", mk_obj [("type", JStr "string"); ("format", JStr "date-time")])]);
    ("additionalProperties", JBool false);
    ("$defs", mk_obj [
      ("CredentialType", mk_obj [
        ("type", JStr "string");
        ("enum", JArr [
          JStr "oauth_token";
          JStr "api_key";
          JStr "identity_document";
          JStr "passkey"])])])].
