(* ===== verification/SqliteBackend.v ===== *)
(** * The SQLite storage backend

    packages/storage-sqlite/src: errors (error.rs), the audit log (audit.rs), validation
    of writes (validation.rs), encryption of credentials (credentials.rs), queries and
    mutations behind the plugin host (backend.rs) and key rotation (lib.rs), on the rows
    of plugin_data ([Row] of SqliteDoc.v). SHA-256, hex, the schema validator, the typed
    records of the canonical collections and the SQLite engine are parameters; ids,
    clock, nonces and database failures are in the [BackDraw] of a call. *)

From Stdlib Require Import Strings.Byte.
From stdpp Require Import base tactics list strings gmap sorting.
From Stdlib Require Import Ascii ZArith Lia.
From S2P Require Import Prelude RustString Json Types Crypto Storage SchemaVersioning SqliteDoc HostFunctions CanonicalSchemas.

Local Open Scope string_scope.

(** ** Errors (error.rs) *)

Inductive BackendError : Type :=
| Database (m : string)
| Serialization (m : string)
| RecordNotFound (m : string)
| DatabaseDecryptionFailed (m : string)
| DatabasePermissionDenied (m : string)
| InvalidConfig (m : string)
| InitFailed (m : string)
| ConcurrencyConflict (id : string) (expected : Z)
| ValidationFailed (collection message : string)
| UnknownCollection (m : string)
| RekeyFailed (m : string)
| CredentialEncryption (credential_id message : string)
| BackendIo (m : string).

Definition backend_error_display (e : BackendError) : string :=
  match e with
  | Database m => "database error: " +:+ m
  | Serialization m => "serialization error: " +:+ m
  | RecordNotFound m => "record not found: " +:+ m
  | DatabaseDecryptionFailed m => "unable to decrypt database: " +:+ m
  | DatabasePermissionDenied m => "permission denied: " +:+ m
  | InvalidConfig m => "invalid configuration: " +:+ m
  | InitFailed m => "initialization failed: " +:+ m
  | ConcurrencyConflict id v =>
      "concurrency conflict: record " +:+ id +:+ " expected version " +:+ show_Z v +:+ " but was modified"
  | ValidationFailed c m => "validation failed for collection '" +:+ c +:+ "': " +:+ m
  | UnknownCollection m => "unknown collection: " +:+ m
  | RekeyFailed m => "key rotation failed: " +:+ m
  | CredentialEncryption id m => "credential encryption error for credential '" +:+ id +:+ "': " +:+ m
  | BackendIo m => "I/O error: " +:+ m
  end.

Definition backend_error_code (e : BackendError) : string :=
  match e with
  | Database _ => "STORAGE_001"
  | Serialization _ => "STORAGE_002"
  | RecordNotFound _ => "STORAGE_003"
  | DatabaseDecryptionFailed _ => "STORAGE_004"
  | DatabasePermissionDenied _ => "STORAGE_005"
  | InvalidConfig _ => "STORAGE_006"
  | InitFailed _ => "STORAGE_007"
  | ConcurrencyConflict _ _ => "STORAGE_008"
  | ValidationFailed _ _ => "STORAGE_009"
  | UnknownCollection _ => "STORAGE_010"
  | RekeyFailed _ => "STORAGE_011"
  | CredentialEncryption _ _ => "STORAGE_012"
  | BackendIo _ => "STORAGE_013"
  end.

Definition backend_error_severity (e : BackendError) : Severity :=
  match e with
  | RecordNotFound _ => Warning
  | ConcurrencyConflict _ _ => Retryable
  | _ => Fatal
  end.

(** ** The audit log (audit.rs) *)

Inductive AuditEventType : Type :=
| StorageCreated | StorageUpdated | StorageDeleted | BlobStored | BlobDeleted
| AuditAuthSuccess | AuditAuthFailure | CredentialAccess | CredentialModify
| PluginInstall | PluginEnable | PluginDisable | PluginErrorEvent | PermissionChange
| ConnectorAuth | DataExport.

Definition audit_type_str (t : AuditEventType) : string :=
  match t with
  | StorageCreated => "system.storage.created"
  | StorageUpdated => "system.storage.updated"
  | StorageDeleted => "system.storage.deleted"
  | BlobStored => "system.blob.stored"
  | BlobDeleted => "system.blob.deleted"
  | AuditAuthSuccess => "auth_success"
  | AuditAuthFailure => "auth_failure"
  | CredentialAccess => "credential_access"
  | CredentialModify => "credential_modify"
  | PluginInstall => "plugin_install"
  | PluginEnable => "plugin_enable"
  | PluginDisable => "plugin_disable"
  | PluginErrorEvent => "plugin_error"
  | PermissionChange => "permission_change"
  | ConnectorAuth => "connector_auth"
  | DataExport => "data_export"
  end.

Definition AUDIT_TYPES : list AuditEventType :=
  [StorageCreated; StorageUpdated; StorageDeleted; BlobStored; BlobDeleted; AuditAuthSuccess;
   AuditAuthFailure; CredentialAccess; CredentialModify; PluginInstall; PluginEnable; PluginDisable;
   PluginErrorEvent; PermissionChange; ConnectorAuth; DataExport].

Definition audit_type_from_str (s : string) : option AuditEventType :=
  snd <$> list_find (λ t, audit_type_str t = s) AUDIT_TYPES.

Record AuditEvent : Type := mkAuditEvent {
  ae_event_type : AuditEventType;
  ae_collection : option string;
  ae_document_id : option string;
  ae_identity_subject : option string;
  ae_plugin_id : option string;
  ae_details : json;
}.

(** A row of audit_log; [al_details] is its text. *)
Record AuditRow : Type := mkAuditRow {
  al_id : string;
  al_timestamp : string;
  al_event_type : string;
  al_collection : option string;
  al_document_id : option string;
  al_identity_subject : option string;
  al_plugin_id : option string;
  al_details : string;
  al_created_at : string;
}.

Definition AUDIT_RETENTION_DAYS : Z := 90.

Section Audit.
Context `{JsonText}.

Definition audit_row (id now : string) (e : AuditEvent) : AuditRow :=
  mkAuditRow id now (audit_type_str (ae_event_type e)) (ae_collection e) (ae_document_id e)
    (ae_identity_subject e) (ae_plugin_id e) (json_to_string (ae_details e)) now.

Definition log_event (id now : string) (fault : option string) (e : AuditEvent) (log : list AuditRow)
    : result unit BackendError * list AuditRow :=
  match fault with
  | Some m => (Err (Database m), log)
  | None => (Ok tt, (log ++ [audit_row id now e])%list)
  end.

(** An entry as it is returned: details that do not parse are null. *)
Definition audit_details (r : AuditRow) : json := default JNull (result_ok (json_from_str (al_details r))).

Definition opt_holds {A} (P : A → bool) (o : option A) : bool :=
  match o with
  | Some a => P a
  | None => true
  end.

Definition text_le (a b : string) : bool := bool_decide (String.le a b).

(** The texts of times compare as the times do. *)
Definition audit_selected (event_type from to : option string) (r : AuditRow) : bool :=
  opt_holds (λ t, bool_decide (al_event_type r = t)) event_type
  && opt_holds (λ t, text_le t (al_timestamp r)) from
  && opt_holds (λ t, text_le (al_timestamp r) t) to.

Definition by_timestamp (a b : AuditRow) : Prop := String.le (al_timestamp a) (al_timestamp b).
#[export] Instance by_timestamp_dec a b : Decision (by_timestamp a b).
Proof. unfold by_timestamp. apply _. Defined.

Definition query_events (event_type from to : option string) (log : list AuditRow)
    : list (AuditRow * json) :=
  (λ r, (r, audit_details r)) <$>
  merge_sort by_timestamp (filter (λ r, audit_selected event_type from to r = true) log).

(** The subtraction leaves the range of dates only for clocks before year -262000. *)
Definition audit_cutoff (rfc3339 : timestamp → string) (now : timestamp) : string :=
  rfc3339 (now - AUDIT_RETENTION_DAYS * (86400 * 1000000000))%Z.

Definition cleanup_old_entries (rfc3339 : timestamp → string) (now : timestamp) (log : list AuditRow)
    : nat * list AuditRow :=
  let keep := filter (λ r, text_le (audit_cutoff rfc3339 now) (al_timestamp r) = true) log in
  (length log - length keep, keep)%nat.
End Audit.

(** ** Validation (validation.rs) *)

Definition CANONICAL_COLLECTIONS : list string :=
  ["events"; "tasks"; "contacts"; "notes"; "emails"; "files"; "credentials"].

Definition is_canonical (collection : string) : bool := bool_decide (collection ∈ CANONICAL_COLLECTIONS).

Definition VALIDATORS : list (string * json) :=
  [("events", EVENTS_SCHEMA); ("tasks", TASKS_SCHEMA); ("contacts", CONTACTS_SCHEMA);
   ("notes", NOTES_SCHEMA); ("emails", EMAILS_SCHEMA); ("files", FILES_SCHEMA);
   ("credentials", CREDENTIALS_SCHEMA)].

(** [PrivateSchemaRegistry]: schemas that compiled, by plugin and collection. *)
Abbreviation PrivateSchemaRegistry := (gmap (string * string) json) (only parsing).

Section Validation.
Context `{JsonText} `{JsonLib}.

Definition validate_with (schema : json) (collection data_json : string) : result unit BackendError :=
  let? data := result_map_err (λ e, ValidationFailed collection ("invalid JSON: " +:+ e))
    (json_from_str data_json) in
  match schema_error schema data with
  | Some e => Err (ValidationFailed collection e)
  | None => Ok tt
  end.

Definition validate_canonical (collection data_json : string) : result unit BackendError :=
  if negb (is_canonical collection) then Ok tt else
  let? _ := result_map_err (λ e, ValidationFailed collection ("invalid JSON: " +:+ e))
    (json_from_str data_json) in
  match snd <$> list_find (λ v, v.1 = collection) VALIDATORS with
  | None => Err (ValidationFailed collection "no schema found for canonical collection")
  | Some (_, schema) => validate_with schema collection data_json
  end.

Definition register_schema (plugin_id collection schema_json : string) (r : PrivateSchemaRegistry)
    : result unit BackendError * PrivateSchemaRegistry :=
  if is_canonical collection then
    (Err (ValidationFailed collection
       ("cannot register private schema for canonical collection '" +:+ collection +:+ "'")), r)
  else
    match json_from_str schema_json with
    | Err e => (Err (ValidationFailed collection ("invalid schema JSON: " +:+ e)), r)
    | Ok schema =>
        match schema_compile_error schema with
        | Some e => (Err (ValidationFailed collection ("failed to compile schema: " +:+ e)), r)
        | None => (Ok tt, <[(plugin_id, collection) := schema]> r)
        end
    end.

Definition has_schema (plugin_id collection : string) (r : PrivateSchemaRegistry) : bool :=
  bool_decide (is_Some (r !! (plugin_id, collection))).

Definition validate_private (r : PrivateSchemaRegistry) (plugin_id collection data_json : string)
    : result unit BackendError :=
  match r !! (plugin_id, collection) with
  | None => Err (UnknownCollection
      (plugin_id +:+ ":" +:+ collection +:+ " — no schema registered for this private collection"))
  | Some schema => validate_with schema collection data_json
  end.
End Validation.

(** ** Credentials (credentials.rs) *)

(** The HMAC and hex crates. *)
Class HmacHex : Type := {
  hmac_sha256 : bytes → bytes → bytes;
  hex_encode : bytes → string;
  hex_decode : string → result bytes string;
}.

Class HmacHexLaws `{HmacHex} : Prop := {
  hex_roundtrip b : hex_decode (hex_encode b) = Ok b;
}.

(** [doc[k] = v] on a document with an id, so an object. *)
Definition set_field (k : string) (v doc : json) : json :=
  match doc with
  | JObj o => JObj (obj_insert k v o)
  | _ => doc
  end.

Section Credentials.
Context `{JsonText} `{CryptoLib} `{HmacHex}.

Definition credential_key (master_key : bytes) (credential_id : string) : bytes :=
  take 32 (hmac_sha256 master_key (bytes_of credential_id)).

Definition credential_id_of (doc : json) : result string BackendError :=
  ok_or (json_get doc "id" ≫= as_str)
    (CredentialEncryption "unknown" "missing 'id' field in credential").

Definition encrypt_credential (nonce master_key : bytes) (data_json : string) : result string BackendError :=
  let? doc := result_map_err Serialization (json_from_str data_json) in
  let? id := credential_id_of doc in
  let? claims := result_map_err (λ e, CredentialEncryption id ("failed to serialize claims: " +:+ e))
    (json_to_vec (default JNull (json_get doc "claims"))) in
  let? ciphertext := result_map_err
    (λ e, CredentialEncryption id ("encryption failed: " +:+ crypto_error_display e))
    (encrypt nonce (credential_key master_key id) claims) in
  Ok (json_to_string
        (set_field "encrypted" (JBool true) (set_field "claims" (JStr (hex_encode ciphertext)) doc))).

Definition is_encrypted (doc : json) : bool := default false (json_get doc "encrypted" ≫= as_bool).

Definition remove_field (k : string) (doc : json) : json :=
  match doc with
  | JObj o => JObj (obj_remove k o)
  | _ => doc
  end.

Definition decrypt_credential (master_key : bytes) (data_json : string) : result string BackendError :=
  let? doc := result_map_err Serialization (json_from_str data_json) in
  if negb (is_encrypted doc) then Ok data_json else
  let? id := credential_id_of doc in
  let? claims_hex := ok_or (json_get doc "claims" ≫= as_str)
    (CredentialEncryption id "missing or non-string 'claims' field in encrypted credential") in
  let? ciphertext := result_map_err
    (λ e, CredentialEncryption id ("invalid hex in encrypted claims: " +:+ e)) (hex_decode claims_hex) in
  let? plaintext := result_map_err
    (λ e, CredentialEncryption id ("decryption failed: " +:+ crypto_error_display e))
    (decrypt (credential_key master_key id) ciphertext) in
  let? claims := result_map_err
    (λ e, CredentialEncryption id ("failed to deserialize decrypted claims: " +:+ e))
    (json_from_slice plaintext) in
  Ok (json_to_string (remove_field "encrypted" (set_field "claims" claims doc))).

(** [UPDATE plugin_data SET data = ?1 WHERE id = ?2]. *)
Definition set_row_data (id data : string) (rows : list Row) : list Row :=
  (λ r, if bool_decide (r_id r = id)
        then mkRow (r_id r) (r_plugin_id r) (r_collection r) data (r_version r) (r_created_at r) (r_updated_at r)
        else r) <$> rows.

Definition credential_rows (rows : list Row) : list Row := filter (λ r, r_collection r = "credentials") rows.

(** The loop over the credentials read before it; the nonces are those drawn. *)
Fixpoint re_encrypt_all (old_key new_key : bytes) (nonce : nat → bytes) (i : nat) (todo rows : list Row)
    : result (list Row) BackendError :=
  match todo with
  | [] => Ok rows
  | r :: todo' =>
      let? decrypted := result_map_err
        (λ e, RekeyFailed ("failed to decrypt credential " +:+ r_id r +:+ " with old key: "
                           +:+ backend_error_display e)) (decrypt_credential old_key (r_data r)) in
      let? data := result_map_err
        (λ e, RekeyFailed ("failed to re-encrypt credential " +:+ r_id r +:+ " with new key: "
                           +:+ backend_error_display e)) (encrypt_credential (nonce i) new_key decrypted) in
      re_encrypt_all old_key new_key nonce (S i) todo' (set_row_data (r_id r) data rows)
  end.

(** One transaction; [fault] is a statement of it that fails. *)
Definition re_encrypt_credentials (old_key new_key : bytes) (nonce : nat → bytes) (fault : option string)
    (rows : list Row) : result unit BackendError * list Row :=
  match re_encrypt_all old_key new_key nonce 0 (credential_rows rows) rows, fault with
  | Err e, _ => (Err e, rows)
  | Ok _, Some e => (Err (RekeyFailed e), rows)
  | Ok rows', None => (Ok tt, rows')
  end.
End Credentials.

(** ** The backend *)

Record SqliteStorage : Type := mkSqliteStorage {
  ss_rows : list Row;
  ss_audit : list AuditRow;
  ss_schemas : PrivateSchemaRegistry;
  ss_master_key : bytes;
  (** the key the database file is encrypted with *)
  ss_file_key : bytes;
}.

Definition with_rows (rows : list Row) (s : SqliteStorage) : SqliteStorage :=
  mkSqliteStorage rows (ss_audit s) (ss_schemas s) (ss_master_key s) (ss_file_key s).
Definition with_audit (log : list AuditRow) (s : SqliteStorage) : SqliteStorage :=
  mkSqliteStorage (ss_rows s) log (ss_schemas s) (ss_master_key s) (ss_file_key s).

#[export] Instance byte_eq_dec : EqDecision Byte.byte := Byte.byte_eq_dec.

(** A database file: its key and tables. *)
Record DbFile : Type := mkDbFile {
  df_key : bytes;
  df_rows : list Row;
  df_audit : list AuditRow;
}.

(** Opening a database, or creating one; [fault] is why SQLite refuses otherwise. *)
Definition init (file : option DbFile) (key : bytes) (fault : option BackendError)
    : result SqliteStorage BackendError :=
  match fault, file with
  | Some e, _ => Err e
  | None, None => Ok (mkSqliteStorage [] [] ∅ key key)
  | None, Some f =>
      if bool_decide (df_key f = key) then Ok (mkSqliteStorage (df_rows f) (df_audit f) ∅ key key)
      else Err (DatabaseDecryptionFailed "unable to decrypt database — wrong key or corrupted file")
  end.

(** What is on disk. *)
Definition file_of (s : SqliteStorage) : DbFile := mkDbFile (ss_file_key s) (ss_rows s) (ss_audit s).

Record RekeyDraw : Type := mkRekeyDraw {
  rk_pragma : option string;
  rk_verify : option string;
  rk_nonce : nat → bytes;
  rk_fault : option string;
}.

(** What one query or mutation reads from outside; [bk_step i] is what the [i]-th row
    of a query reads: an audit id, a time, why the audit row is not written, a fresh
    id, the clock. *)
Record BackDraw : Type := mkBackDraw {
  bk_id : uuid;
  bk_now : string;
  bk_nonce : bytes;
  bk_fault : option string;
  bk_step : nat → string * string * option string * uuid * timestamp;
}.

(** A call returns or panics. *)
Inductive outcome (A : Type) : Type :=
| Returned (r : result A BackendError)
| Panicked.
Arguments Returned {A} r.
Arguments Panicked {A}.

(** The typed records of the canonical collections, in their serialised form: reading
    one from its text. *)
Class CdmSerde : Type := {
  cdm_from_str : string → string → result json string;
  parse_uuid : string → option uuid;
}.

Definition cdm_of (collection : string) : option (json → CdmType) :=
  snd <$> list_find (λ e : string * (json → CdmType), e.1 = collection)
    [("events", CdmEvent); ("tasks", CdmTask); ("contacts", CdmContact); ("notes", CdmNote);
     ("emails", CdmEmail); ("files", CdmFile); ("credentials", CdmCredential)]
  ≫= λ e, Some e.2.

Definition MAX_LIMIT : Z := 1000.

(** A statement: whether rows of other plugins are left out, the conditions
    [json_extract(data, ?path) op ?value], order, limit and offset. *)
Record BackStatement : Type := mkBackStatement {
  bst_own : bool;
  bst_conds : list (nat * string * nat);
  bst_order : list (string * SortDirection);
  bst_limit : Z;
  bst_offset : option Z;
}.

Definition op_str (op : FilterOp) : string :=
  match op with
  | OpEq => "="
  | OpGte => ">="
  | OpLte => "<="
  | OpNotEq => "!="
  | OpContains => "LIKE"
  end.

Definition BACKEND_COLUMNS : string :=
  "SELECT id, plugin_id, collection, data, version, created_at, updated_at FROM plugin_data WHERE ".

Definition cond_text (c : nat * string * nat) : string :=
  let '(p, op, v) := c in
  " AND json_extract(data, ?" +:+ show_nat p +:+ ") " +:+ op +:+ " ?" +:+ show_nat v.

Definition host_dir_text (d : SortDirection) : string := match d with Asc => "ASC" | Desc => "DESC" end.

Definition statement_text (st : BackStatement) : string :=
  BACKEND_COLUMNS
  +:+ (if bst_own st then "plugin_id = ?1 AND collection = ?2" else "collection = ?1")
  +:+ foldr (λ c t, cond_text c +:+ t) empty_str (bst_conds st)
  +:+ match bst_order st with
      | [] => empty_str
      | order => " ORDER BY " +:+ join ", "
          ((λ s, "json_extract(data, '$." +:+ s.1 +:+ "') " +:+ host_dir_text s.2) <$> order)
      end
  +:+ " LIMIT " +:+ show_Z (bst_limit st)
  +:+ match bst_offset st with
      | Some n => " OFFSET " +:+ show_Z n
      | None => empty_str
      end.

(** SQLite on such a statement with its parameters. *)
Class BackendSql : Type := {
  run_backend : BackStatement → list SqlValue → list Row → result (list Row) string;
}.

Section Backend.
Context `{JsonText} `{JsonLib} `{CryptoLib} `{HmacHex} `{CdmSerde} `{Sqlite} `{BackendSql}.

(** ** Queries (backend.rs) *)

Definition parse_payload (collection data_json : string) (master_key : bytes)
    : result TypedPayload BackendError :=
  match cdm_of collection with
  | Some mk =>
      let? text := if bool_decide (collection = "credentials")
                   then decrypt_credential master_key data_json else Ok data_json in
      let? v := result_map_err Serialization (cdm_from_str collection text) in
      Ok (Cdm (mk v))
  | None =>
      let? v := result_map_err Serialization (json_from_str data_json) in
      Ok (Custom v)
  end.

Definition like_text (v : json) : string :=
  match v with
  | JStr s => s
  | JNull => empty_str
  | _ => json_to_string v
  end.

Definition filter_values (f : QueryFilter) : list SqlValue :=
  [SqlText ("$." +:+ qf_field f);
   match qf_operator f with
   | OpContains => SqlText ("%" +:+ like_text (qf_value f) +:+ "%")
   | _ => json_value_to_boxed_sql (qf_value f)
   end].

(** The loop over the filters, from the next parameter on. *)
Fixpoint add_filters (idx : nat) (fs : list QueryFilter) : list (nat * string * nat) * list SqlValue :=
  match fs with
  | [] => ([], [])
  | f :: fs' =>
      let '(conds, vals) := add_filters (idx + 2) fs' in
      ((idx, op_str (qf_operator f), idx + 1) :: conds, (filter_values f ++ vals)%list)
  end.

Definition query_statement (q : StorageQuery) : BackStatement * list SqlValue :=
  let canonical := is_canonical (sq_collection q) in
  let start := if canonical then [SqlText (sq_collection q)]
               else [SqlText (sq_plugin_id q); SqlText (sq_collection q)] in
  let '(conds, vals) := add_filters (S (length start)) (sq_filters q) in
  (mkBackStatement (negb canonical) conds ((λ s, (sort_field s, sort_direction s)) <$> sq_sort q)
     (from_option (λ l, Z.min l MAX_LIMIT) MAX_LIMIT (sq_limit q)) (sq_offset q),
   (start ++ vals)%list).

Definition try_log_audit (id now : string) (fault : option string) (e : AuditEvent)
    (log : list AuditRow) : list AuditRow := (log_event id now fault e log).2.

(** An entry for the use of a credential. *)
Definition credential_event (t : AuditEventType) (collection id plugin_id operation : string) : AuditEvent :=
  mkAuditEvent t (Some collection) (Some id) None (Some plugin_id) (mk_obj [("operation", JStr operation)]).

Definition read_row (plugin_id : string) (key : bytes) (d : BackDraw) (i : nat) (r : Row)
    (log : list AuditRow) : result PipelineMessage BackendError * list AuditRow :=
  match parse_payload (r_collection r) (r_data r) key with
  | Err e => (Err e, log)
  | Ok p =>
      let '(audit_id, now, fault, fresh, time) := bk_step d i in
      let log' := if bool_decide (r_collection r = "credentials")
                  then try_log_audit audit_id now fault
                         (credential_event CredentialAccess (r_collection r) (r_id r) plugin_id "read") log
                  else log in
      (Ok (mkMessage (mkMetadata (default fresh (parse_uuid (r_id r)))
                        ("storage:" +:+ r_collection r) time None []) p), log')
  end.

Fixpoint read_rows (plugin_id : string) (key : bytes) (d : BackDraw) (i : nat) (rows : list Row)
    (log : list AuditRow) : result (list PipelineMessage) BackendError * list AuditRow :=
  match rows with
  | [] => (Ok [], log)
  | r :: rows' =>
      match read_row plugin_id key d i r log with
      | (Err e, log1) => (Err e, log1)
      | (Ok m, log1) =>
          match read_rows plugin_id key d (S i) rows' log1 with
          | (Err e, log2) => (Err e, log2)
          | (Ok ms, log2) => (Ok (m :: ms), log2)
          end
      end
  end.

Definition execute_query (q : StorageQuery) (d : BackDraw) (s : SqliteStorage)
    : result (list PipelineMessage) BackendError * SqliteStorage :=
  let '(st, params) := query_statement q in
  match run_backend st params (ss_rows s) with
  | Err e => (Err (Database e), s)
  | Ok rows =>
      let '(r, log) := read_rows (sq_plugin_id q) (ss_master_key s) d 0 rows (ss_audit s) in
      (r, with_audit log s)
  end.

(** ** Mutations (backend.rs) *)

Definition payload_value (p : TypedPayload) : json :=
  match p with
  | Cdm c => (cdm_variant c).2
  | Custom v => v
  end.

Definition serialize_payload (p : TypedPayload) : string := json_to_string (payload_value p).

(** [new_data["extensions"] = ext]: null becomes an object, any other value that is not
    an object panics. *)
Definition index_set (k : string) (v doc : json) : option json :=
  match doc with
  | JObj o => Some (JObj (obj_insert k v o))
  | JNull => Some (JObj [(k, v)])
  | _ => None
  end.

(** [json_extract(data, '$.extensions')] of the row with an id, read as a text. *)
Definition stored_extensions (id : string) (rows : list Row) : option json :=
  r ← snd <$> list_find (λ r, r_id r = id) rows;
  match json_extract "$.extensions" (r_data r) with
  | SqlText t => result_ok (json_from_str t)
  | _ => None
  end.

Definition present (j : option json) : option json :=
  match j with
  | Some JNull | None => None
  | Some v => Some v
  end.

Definition merge_existing_extensions (id new_data_json : string) (rows : list Row) : outcome string :=
  match json_from_str new_data_json with
  | Err e => Returned (Err (Serialization e))
  | Ok new_data =>
      match present (json_get new_data "extensions"), present (stored_extensions id rows) with
      | None, Some ext =>
          match index_set "extensions" ext new_data with
          | Some merged => Returned (Ok (json_to_string merged))
          | None => Panicked
          end
      | _, _ => Returned (Ok new_data_json)
      end
  end.

Definition validate_write (plugin_id collection data_json : string) (s : SqliteStorage)
    : result unit BackendError :=
  if is_canonical collection then validate_canonical collection data_json
  else validate_private (ss_schemas s) plugin_id collection data_json.

(** What is stored of a valid text. *)
Definition seal (collection data_json : string) (d : BackDraw) (s : SqliteStorage)
    : result string BackendError :=
  if bool_decide (collection = "credentials")
  then encrypt_credential (bk_nonce d) (ss_master_key s) data_json else Ok data_json.

(** Auditing a change of a credential. *)
Definition audit_change (collection id plugin_id operation : string) (d : BackDraw) (s : SqliteStorage)
    : SqliteStorage :=
  let '(audit_id, now, fault, _, _) := bk_step d 0 in
  if bool_decide (collection = "credentials")
  then with_audit (try_log_audit audit_id now fault
                     (credential_event CredentialModify collection id plugin_id operation) (ss_audit s)) s
  else s.

Definition insert_record (plugin_id collection : string) (data : PipelineMessage) (d : BackDraw)
    (s : SqliteStorage) : result unit BackendError * SqliteStorage :=
  let data_json := serialize_payload (payload data) in
  match (validate_write plugin_id collection data_json s ;?
         let? stored := seal collection data_json d s in
         match bk_fault d with
         | Some e => Err (Database e)
         | None => result_map_err Database
             (insert_row (mkRow (bk_id d) plugin_id collection stored 1 (bk_now d) (bk_now d)) (ss_rows s))
         end) with
  | Err e => (Err e, s)
  | Ok rows => (Ok tt, audit_change collection (bk_id d) plugin_id "insert" d (with_rows rows s))
  end.

(** [WHERE id = ?3 AND plugin_id = ?4 AND version = ?5]. *)
Definition is_version (id plugin_id : string) (version : Z) (r : Row) : bool :=
  bool_decide (r_id r = id) && bool_decide (r_plugin_id r = plugin_id) && (r_version r =? version)%Z.

(** The table after storing a text in that version of a record, if there is one. *)
Definition store_version (id plugin_id data now : string) (expected_version : Z) (rows : list Row)
    : option (list Row) :=
  let current := is_version id plugin_id (u64_as_i64 expected_version) in
  if existsb current rows
  then Some ((λ r, if current r then set_data data now r else r) <$> rows) else None.

Definition update_record (plugin_id collection : string) (id : uuid) (data_json : string)
    (expected_version : Z) (d : BackDraw) (s : SqliteStorage) : result unit BackendError * SqliteStorage :=
  match (validate_write plugin_id collection data_json s ;?
         let? stored := seal collection data_json d s in
         match bk_fault d with
         | Some e => Err (Database e)
         | None => ok_or (store_version id plugin_id stored (bk_now d) expected_version (ss_rows s))
                     (ConcurrencyConflict id expected_version)
         end) with
  | Err e => (Err e, s)
  | Ok rows => (Ok tt, audit_change collection id plugin_id "update" d (with_rows rows s))
  end.

Definition is_owned (id plugin_id : string) (r : Row) : bool :=
  bool_decide (r_id r = id) && bool_decide (r_plugin_id r = plugin_id).

Definition delete_record (plugin_id collection : string) (id : uuid) (d : BackDraw) (s : SqliteStorage)
    : result unit BackendError * SqliteStorage :=
  match bk_fault d with
  | Some e => (Err (Database e), s)
  | None =>
      let s' := with_rows (filter (λ r, is_owned id plugin_id r = false) (ss_rows s)) s in
      (Ok tt, if existsb (is_owned id plugin_id) (ss_rows s)
              then audit_change collection id plugin_id "delete" d s' else s')
  end.

Definition execute_mutation (m : StorageMutation) (d : BackDraw) (s : SqliteStorage)
    : outcome unit * SqliteStorage :=
  match m with
  | MutInsert plugin_id collection data =>
      let '(r, s') := insert_record plugin_id collection data d s in (Returned r, s')
  | MutUpdate plugin_id collection id data expected_version =>
      let data_json := serialize_payload (payload data) in
      match (if is_canonical collection && bool_decide (collection ≠ "credentials")
             then merge_existing_extensions id data_json (ss_rows s) else Returned (Ok data_json)) with
      | Panicked => (Panicked, s)
      | Returned (Err e) => (Returned (Err e), s)
      | Returned (Ok data_json) =>
          let '(r, s') := update_record plugin_id collection id data_json expected_version d s in
          (Returned r, s')
      end
  | MutDelete plugin_id collection id =>
      let '(r, s') := delete_record plugin_id collection id d s in (Returned r, s')
  end.

(** ** Key rotation (lib.rs) *)

Definition rekey (new_key : bytes) (d : RekeyDraw) (s : SqliteStorage)
    : result unit BackendError * SqliteStorage :=
  match rk_pragma d with
  | Some e => (Err (RekeyFailed ("PRAGMA rekey failed: " +:+ e)), s)
  | None =>
      let s1 := mkSqliteStorage (ss_rows s) (ss_audit s) (ss_schemas s) (ss_master_key s) new_key in
      match rk_verify d with
      | Some e => (Err (RekeyFailed ("verification after rekey failed: " +:+ e)), s1)
      | None =>
          match re_encrypt_credentials (ss_master_key s) new_key (rk_nonce d) (rk_fault d) (ss_rows s) with
          | (Err e, _) =>
              (Err (RekeyFailed ("credential re-encryption failed: " +:+ backend_error_display e)), s1)
          | (Ok _, rows) => (Ok tt, mkSqliteStorage rows (ss_audit s) (ss_schemas s) new_key new_key)
          end
      end
  end.
End Backend.
