(* ===== verification/SqliteBackendFacts.v ===== *)
(** * Facts about the SQLite storage backend *)

From Stdlib Require Import Strings.Byte.
From stdpp Require Import base tactics list strings gmap sorting.
From Stdlib Require Import Ascii ZArith Lia.
From S2P Require Import Prelude RustString Json Types Crypto Storage SchemaVersioning SqliteDoc SqliteQueryFacts SqliteDocFacts HostFunctions CanonicalSchemas SqliteBackend.

(** ** Queries *)

Definition storage_dir (d : SortDirection) : Storage.SortDirection :=
  match d with
  | Asc => Storage.Asc
  | Desc => Storage.Desc
  end.

Section Statements.
Context `{Sqlite}.

(** A condition of a statement, on the data of a row. *)
Definition cond_holds (params : list SqlValue) (data : string) (c : nat * string * nat) : Prop :=
  let '(p, op, v) := c in
  (if bool_decide (op = "LIKE"%string) then sql_like (extract params data p) (param params v)
   else sql_compare op (extract params data p) (param params v)) = Some true.

#[export] Instance cond_holds_dec params data c : Decision (cond_holds params data c).
Proof. destruct c as [[p op] v]. unfold cond_holds. apply _. Defined.

Definition scoped (st : BackStatement) (params : list SqlValue) (r : Row) : Prop :=
  if bst_own st
  then param params 1 = SqlText (r_plugin_id r) ∧ param params 2 = SqlText (r_collection r)
  else param params 1 = SqlText (r_collection r).

#[export] Instance scoped_dec st params r : Decision (scoped st params r).
Proof. unfold scoped. destruct (bst_own st); apply _. Defined.

Definition st_selects (st : BackStatement) (params : list SqlValue) (r : Row) : Prop :=
  scoped st params r ∧ Forall (cond_holds params (r_data r)) (bst_conds st).

(** A page of the rows, in an order that agrees with the sort fields. *)
Definition page (order : list (string * SortDirection)) (limit : Z) (offset : option Z) (rows found : list Row)
    : Prop :=
  page_of ((λ s, (s.1, storage_dir s.2)) <$> order) limit (default 0%Z offset) rows found.

(** The paths of conditions and the fields of the order need no quoting. *)
Definition plain_statement (st : BackStatement) (params : list SqlValue) : Prop :=
  Forall (λ c : nat * string * nat, ∃ f, param params c.1.1 = SqlText ("$." +:+ f)%string ∧ plain_field f = true)
    (bst_conds st) ∧
  Forall (λ s, plain_field s.1 = true) (bst_order st) ∧
  length params = (if bst_own st then 2 else 1) + 2 * length (bst_conds st).
End Statements.

(** SQLite on statements of this shape. *)
Class BackendSqlLaws `{Sqlite} `{BackendSql} : Prop := {
  run_backend_ok st params rows :
    plain_statement st params → (0 ≤ bst_limit st)%Z → (0 ≤ default 0 (bst_offset st))%Z →
    ∃ found, run_backend st params rows = Ok found ∧
      page (bst_order st) (bst_limit st) (bst_offset st) (filter (st_selects st params) rows) found;
}.

Section Queries.
Context `{JsonText} `{JsonLib} `{CryptoLib} `{HmacHex} `{CdmSerde} `{BackendSqlLaws}.

(** What a filter asks of the data of a record. *)
Definition filter_holds (data : string) (f : QueryFilter) : Prop :=
  let x := json_extract ("$." +:+ qf_field f)%string data in
  match qf_operator f with
  | OpContains => sql_like x (SqlText ("%" +:+ like_text (qf_value f) +:+ "%")%string)
  | op => sql_compare (op_str op) x (json_value_to_boxed_sql (qf_value f))
  end = Some true.

#[export] Instance filter_holds_dec data f : Decision (filter_holds data f).
Proof. unfold filter_holds. destruct (qf_operator f); apply _. Defined.

(** The records a query asks for: those of its collection, of all plugins if the
    collection is canonical and of its own otherwise, that pass every filter. *)
Definition asked (q : StorageQuery) (r : Row) : Prop :=
  r_collection r = sq_collection q ∧
  (is_canonical (sq_collection q) = true ∨ r_plugin_id r = sq_plugin_id q) ∧
  Forall (filter_holds (r_data r)) (sq_filters q).

#[export] Instance asked_dec q r : Decision (asked q r).
Proof. unfold asked. apply _. Defined.

Definition plain_query (q : StorageQuery) : Prop :=
  Forall (λ f, plain_field (qf_field f) = true) (sq_filters q) ∧
  Forall (λ s, plain_field (sort_field s) = true) (sq_sort q) ∧
  (0 ≤ default 0 (sq_limit q))%Z ∧ (0 ≤ default 0 (sq_offset q))%Z.

Lemma add_filters_spec fs pre idx conds vals :
  add_filters idx fs = (conds, vals) → length pre = pred idx → 1 ≤ idx →
  length conds = length fs ∧ length vals = 2 * length fs ∧
  (∀ post data, Forall (cond_holds (pre ++ vals ++ post) data) conds ↔ Forall (filter_holds data) fs) ∧
  ∀ post, Forall (λ f, plain_field (qf_field f) = true) fs →
    Forall (λ c : nat * string * nat,
      ∃ f, param (pre ++ vals ++ post) c.1.1 = SqlText ("$." +:+ f)%string ∧ plain_field f = true) conds.
Proof.
  revert pre idx conds vals. induction fs as [|f fs IH]; intros pre idx conds vals Hadd Hpre Hidx.
  { simpl in Hadd. simplify_eq. repeat split; intros; constructor. }
  simpl in Hadd. destruct (add_filters (idx + 2) fs) as [cs vs] eqn:E. simplify_eq.
  destruct (IH (pre ++ filter_values f) _ _ _ E) as (Hl1 & Hl2 & Hiff & Hpl); [|lia|].
  { rewrite length_app. simpl. lia. }
  assert (Hp1 : ∀ post, param (pre ++ (filter_values f ++ vs) ++ post) idx = SqlText ("$." +:+ qf_field f)%string).
  { intros post. unfold param. rewrite lookup_app_r by lia.
    by replace (pred idx - length pre) with 0 by lia. }
  assert (Hp2 : ∀ post, param (pre ++ (filter_values f ++ vs) ++ post) (idx + 1) =
    match qf_operator f with
    | OpContains => SqlText ("%" +:+ like_text (qf_value f) +:+ "%")%string
    | _ => json_value_to_boxed_sql (qf_value f)
    end).
  { intros post. unfold param. rewrite lookup_app_r by lia.
    replace (pred (idx + 1) - length pre) with 1 by lia. done. }
  assert (Happ : ∀ post, pre ++ (filter_values f ++ vs) ++ post = (pre ++ filter_values f) ++ vs ++ post).
  { intros post. by rewrite <- !app_assoc. }
  split; [simpl; lia|]. split; [simpl; lia|]. split.
  - intros post data. rewrite !Forall_cons. rewrite <- (Hiff post data), <- Happ.
    apply and_iff_compat_r. unfold cond_holds, filter_holds, extract. rewrite Hp1, Hp2.
    by destruct (qf_operator f).
  - intros post [Hf Hfs]%Forall_cons. constructor; [by exists (qf_field f)|].
    rewrite Happ. by apply Hpl.
Qed.

Lemma query_statement_spec q st params :
  query_statement q = (st, params) → plain_query q →
  plain_statement st params ∧ bst_order st = (λ s, (sort_field s, sort_direction s)) <$> sq_sort q ∧
  ∀ r, st_selects st params r ↔ asked q r.
Proof.
  unfold query_statement. intros Hq (Hf & Hs & _).
  set (start := if is_canonical (sq_collection q) then _ else _) in Hq.
  destruct (add_filters (S (length start)) (sq_filters q)) as [conds vals] eqn:E. simplify_eq.
  destruct (add_filters_spec _ start _ _ _ E) as (Hl1 & Hl2 & Hiff & Hpl); [done|lia|].
  specialize (Hiff []). specialize (Hpl [] Hf). rewrite app_nil_r in Hpl.
  setoid_rewrite app_nil_r in Hiff. split; [|split; [done|]].
  - split; [done|]. split; [by apply Forall_fmap|]. simpl. rewrite length_app, Hl2, Hl1.
    subst start. by destruct (is_canonical _).
  - intros r. unfold st_selects, asked, scoped. simpl. rewrite Hiff. subst start.
    destruct (is_canonical (sq_collection q)) eqn:Ec; simpl; unfold param; simpl.
    + split; [intros [[= <-] Hr]; auto|intros (-> & _ & Hr); auto].
    + split; [intros [[[= <-] [= <-]] Hr]; auto|intros (-> & [?| ->] & Hr); [done|auto]].
Qed.

(** The statement of a query returns a page of what it asks for. *)
Lemma query_rows_exact q rows :
  plain_query q →
  ∃ found, (let '(st, params) := query_statement q in run_backend st params rows) = Ok found ∧
    page ((λ s, (sort_field s, sort_direction s)) <$> sq_sort q)
      (from_option (λ l, Z.min l MAX_LIMIT) MAX_LIMIT (sq_limit q)) (sq_offset q)
      (filter (asked q) rows) found.
Proof.
  intros Hq. destruct (query_statement q) as [st params] eqn:E.
  destruct (query_statement_spec _ _ _ E Hq) as (Hplain & Ho & Hsel).
  assert (bst_limit st = from_option (λ l, Z.min l MAX_LIMIT) MAX_LIMIT (sq_limit q) ∧
          bst_offset st = sq_offset q) as [Hl Hoff].
  { unfold query_statement in E. destruct (add_filters _ _). by simplify_eq. }
  destruct Hq as (_ & _ & Hlim & Hofs). destruct (run_backend_ok st params rows) as (found & Hf & Hp); [done| | |].
  - rewrite Hl. destruct (sq_limit q); simpl in *; unfold MAX_LIMIT; lia.
  - by rewrite Hoff.
  - exists found. split; [done|]. rewrite Ho, Hl, Hoff in Hp.
    by rewrite (list_filter_iff _ (asked q) _ Hsel) in Hp.
Qed.
End Queries.

(** ** Mutations *)

Lemma NoDup_app_omap {A B} (f : A → option B) (l : list B) x (xs : list A) :
  NoDup (l ++ omap f (x :: xs)) → NoDup (l ++ omap f xs).
Proof.
  simpl. destruct (f x) as [y|]; [|done]. rewrite !NoDup_app, NoDup_cons. set_solver.
Qed.

Lemma not_elem_omap_cons {A B} (f : A → option B) (y : B) x (xs : list A) :
  y ∉ omap f (x :: xs) → y ∉ omap f xs.
Proof. simpl. destruct (f x); set_solver. Qed.

Abbreviation row_ids s := (r_id <$> ss_rows s).

Section Mutations.
Context `{JsonText} `{JsonLib} `{CryptoLib} `{HmacHex} `{CdmSerde} `{Sqlite}.

Lemma audit_change_same c id p op d s :
  let s' := audit_change c id p op d s in
  ss_rows s' = ss_rows s ∧ ss_schemas s' = ss_schemas s ∧ ss_master_key s' = ss_master_key s ∧
  ss_file_key s' = ss_file_key s.
Proof. unfold audit_change. destruct (bk_step d 0) as [[[[? ?] ?] ?] ?]. by case_bool_decide. Qed.

(** What a mutation that succeeds does to the table. *)
Definition effect (m : StorageMutation) (d : BackDraw) (rows rows' : list Row) : Prop :=
  match m with
  | MutInsert p c _ =>
      bk_id d ∉ r_id <$> rows ∧
      ∃ data, rows' = rows ++ [mkRow (bk_id d) p c data 1 (bk_now d) (bk_now d)]
  | MutUpdate p _ id _ v => ∃ data, store_version id p data (bk_now d) v rows = Some rows'
  | MutDelete p _ id => rows' = filter (λ r, is_owned id p r = false) rows
  end.

Lemma insert_row_Ok r rows rows' :
  insert_row r rows = Ok rows' → r_id r ∉ r_id <$> rows ∧ rows' = rows ++ [r].
Proof.
  unfold insert_row. destruct (existsb _ rows) eqn:E; [done|]. intros [= <-]. split; [|done].
  intros (x & Hx & Hin)%list_elem_of_fmap. apply existsb_false_elem_of with (x := x) in E; [|done].
  by apply bool_decide_eq_false in E.
Qed.

Lemma insert_record_effect p c data d s r s' :
  insert_record p c data d s = (r, s') →
  match r with
  | Ok _ => effect (MutInsert p c data) d (ss_rows s) (ss_rows s')
  | Err _ => s' = s
  end.
Proof.
  unfold insert_record. intros Hi.
  destruct (validate_write _ _ _ _) as [?|] in Hi; simpl in Hi; [|by simplify_eq].
  destruct (seal _ _ _ _) as [stored|] in Hi; simpl in Hi; [|by simplify_eq].
  destruct (bk_fault d) in Hi; [by simplify_eq|].
  destruct (insert_row _ _) as [rows|] eqn:E in Hi; simpl in Hi; simplify_eq; [|done].
  rewrite (proj1 (audit_change_same _ _ _ _ _ _)). simpl. apply insert_row_Ok in E as [Hid ->].
  split; [done|]. by eexists.
Qed.

Lemma update_record_effect p c id text v d s r s' data :
  update_record p c id text v d s = (r, s') →
  match r with
  | Ok _ => effect (MutUpdate p c id data v) d (ss_rows s) (ss_rows s')
  | Err _ => s' = s
  end.
Proof.
  unfold update_record. intros Hi.
  destruct (validate_write _ _ _ _) as [?|] in Hi; simpl in Hi; [|by simplify_eq].
  destruct (seal _ _ _ _) as [stored|] in Hi; simpl in Hi; [|by simplify_eq].
  destruct (bk_fault d) in Hi; [by simplify_eq|].
  destruct (store_version _ _ _ _ _ _) as [rows|] eqn:E in Hi; simpl in Hi; simplify_eq; [|done].
  rewrite (proj1 (audit_change_same _ _ _ _ _ _)). by eexists.
Qed.

Lemma mutation_effect m d s o s' :
  execute_mutation m d s = (o, s') →
  match o with
  | Returned (Ok _) => effect m d (ss_rows s) (ss_rows s')
  | _ => s' = s
  end.
Proof.
  intros He. destruct m as [p c data|p c id data v|p c id]; simpl in He.
  - destruct (insert_record p c data d s) as [r s1] eqn:E. simplify_eq.
    apply insert_record_effect in E. by destruct r.
  - match type of He with match ?x with _ => _ end = _ => destruct x as [[text|e]|] end; [|by simplify_eq..].
    destruct (update_record p c id text v d s) as [r s1] eqn:E. simplify_eq.
    apply update_record_effect with (data := data) in E. by destruct r.
  - unfold delete_record in He. destruct (bk_fault d); simplify_eq; [done|]. simpl.
    case_match; [|done]. by rewrite (proj1 (audit_change_same _ _ _ _ _ _)).
Qed.

(** The rows of other plugins. *)
Definition foreign (p : string) (rows : list Row) : list Row := filter (λ r, r_plugin_id r ≠ p) rows.

Lemma foreign_map p (f : Row → Row) rows :
  (∀ r, r_plugin_id (f r) = r_plugin_id r) → (∀ r, r_plugin_id r ≠ p → f r = r) →
  foreign p (f <$> rows) = foreign p rows.
Proof.
  intros Hp Hf. unfold foreign. induction rows as [|r rows IH]; [done|]. rewrite fmap_cons, !filter_cons, Hp.
  case_decide; [|done]. by rewrite Hf, IH.
Qed.

Lemma store_version_Some id p data now v rows rows' :
  store_version id p data now v rows = Some rows' →
  existsb (is_version id p (u64_as_i64 v)) rows = true ∧
  rows' = (λ r, if is_version id p (u64_as_i64 v) r then set_data data now r else r) <$> rows.
Proof. unfold store_version. destruct (existsb _ rows); [|done]. by intros [= <-]. Qed.

Lemma is_version_true id p v r :
  is_version id p v r = true ↔ r_id r = id ∧ r_plugin_id r = p ∧ r_version r = v.
Proof. unfold is_version. rewrite !andb_true_iff, !bool_decide_eq_true, Z.eqb_eq. tauto. Qed.

Lemma effect_foreign m d rows rows' :
  effect m d rows rows' → foreign (mutation_plugin m) rows' = foreign (mutation_plugin m) rows.
Proof.
  destruct m as [p c data|p c id data v|p c id]; simpl.
  - intros [_ [data' ->]]. unfold foreign. rewrite filter_app, filter_cons_False, filter_nil by (by intros []).
    by rewrite app_nil_r.
  - intros [data' [_ ->]%store_version_Some]. apply foreign_map; intros r;
      destruct (is_version _ _ _ r) eqn:E; try done. by apply is_version_true in E as (_ & ? & _).
  - intros ->. unfold foreign. rewrite list_filter_filter. apply list_filter_iff. intros r. split; [tauto|].
    intros Hne. split; [done|]. unfold is_owned. apply andb_false_iff. right. by apply bool_decide_eq_false.
Qed.

(** A run of mutations. *)
Definition back_step (s : SqliteStorage) (op : StorageMutation * BackDraw) : SqliteStorage :=
  (execute_mutation op.1 op.2 s).2.

Definition succeeds (op : StorageMutation * BackDraw) (s : SqliteStorage) : bool :=
  match (execute_mutation op.1 op.2 s).1 with
  | Returned (Ok _) => true
  | _ => false
  end.

(** The record and version of every update that was answered with success. *)
Fixpoint updates_done (ops : list (StorageMutation * BackDraw)) (s : SqliteStorage)
    : list (uuid * Z) :=
  match ops with
  | [] => []
  | op :: ops' =>
      (if succeeds op s
       then match op.1 with MutUpdate _ _ id _ v => [(id, v)] | _ => [] end else [])
      ++ updates_done ops' (back_step s op)
  end.

(** The ids drawn for inserts. *)
Definition inserted_id (op : StorageMutation * BackDraw) : option uuid :=
  match op.1 with
  | MutInsert _ _ _ => Some (bk_id op.2)
  | _ => None
  end.

(** The records with an id are beyond a version. *)
Definition beyond (rows : list Row) (iv : uuid * Z) : Prop :=
  ∀ r, r ∈ rows → r_id r = iv.1 → (u64_as_i64 iv.2 < r_version r)%Z.

Lemma effect_ids m d rows rows' :
  effect m d rows rows' →
  r_id <$> rows' ⊆ (r_id <$> rows) ++ option_list (inserted_id (m, d)) ∧
  (NoDup (r_id <$> rows) → NoDup (r_id <$> rows')).
Proof.
  destruct m as [p c data|p c id data v|p c id]; simpl.
  - intros [Hid [data' ->]]. rewrite fmap_app. simpl. split; [set_solver|].
    intros Hnd. apply NoDup_app. split; [done|]. split; [set_solver|]. apply NoDup_singleton.
  - intros [data' [_ ->]%store_version_Some].
    assert (r_id <$> ((λ r, if is_version id p (u64_as_i64 v) r then set_data data' (bk_now d) r else r) <$> rows)
            = r_id <$> rows) as ->.
    { rewrite <- list_fmap_compose. apply list_fmap_ext. intros i r _. simpl. by case_match. }
    rewrite app_nil_r. done.
  - intros ->. rewrite app_nil_r. split.
    + intros x (r & -> & [_ Hr]%list_elem_of_filter)%list_elem_of_fmap. by apply list_elem_of_fmap_2.
    + apply nodup_ids_filter.
Qed.

Lemma effect_beyond m d rows rows' iv :
  effect m d rows rows' → beyond rows iv → Some iv.1 ≠ inserted_id (m, d) → beyond rows' iv.
Proof.
  intros He Hb Hfresh r Hr Hid. destruct m as [p c data|p c id data v|p c id]; simpl in *.
  - destruct He as [_ [data' ->]]. apply elem_of_app in Hr as [Hr| ->%list_elem_of_singleton]; [by apply Hb|].
    unfold inserted_id in Hfresh. simpl in *. congruence.
  - destruct He as [data' [_ ->]%store_version_Some]. apply list_elem_of_fmap in Hr as (r0 & -> & Hr).
    destruct (is_version id p (u64_as_i64 v) r0); simpl in *; specialize (Hb _ Hr Hid); lia.
  - subst. apply list_elem_of_filter in Hr as [_ Hr]. by apply Hb.
Qed.

(** After an update its version is past. *)
Lemma update_beyond p c id data v d rows rows' :
  effect (MutUpdate p c id data v) d rows rows' → NoDup (r_id <$> rows) → beyond rows' (id, v).
Proof.
  intros [data' [Hex ->]%store_version_Some] Hnd r Hr Hid. simpl in *.
  apply existsb_elem_of in Hex as (r1 & Hr1 & Hv1). apply list_elem_of_fmap in Hr as (r0 & -> & Hr).
  assert (r_id r0 = id) as Hid0 by (destruct (is_version id p (u64_as_i64 v) r0); done).
  assert (r0 = r1) as ->.
  { apply (same_row rows); [done..|]. apply is_version_true in Hv1 as (-> & _). done. }
  rewrite Hv1. simpl. apply is_version_true in Hv1 as (_ & _ & ->). lia.
Qed.

(** An update that succeeds finds the version it expects. *)
Lemma update_not_beyond p c id data v d rows rows' :
  effect (MutUpdate p c id data v) d rows rows' → ¬ beyond rows (id, v).
Proof.
  intros [data' [Hex _]%store_version_Some] Hb.
  apply existsb_elem_of in Hex as (r & Hr & (Hid & _ & Hv)%is_version_true).
  specialize (Hb r Hr Hid). simpl in Hb. lia.
Qed.

Lemma update_known p c id data v d rows rows' :
  effect (MutUpdate p c id data v) d rows rows' → id ∈ r_id <$> rows.
Proof.
  intros [data' [Hex _]%store_version_Some].
  apply existsb_elem_of in Hex as (r & Hr & (<- & _)%is_version_true). by apply list_elem_of_fmap_2.
Qed.

(** What a step leaves: fresh ids are not drawn again, and versions that are past stay
    past. *)
Lemma effect_inv m d rows rows' ops past :
  effect m d rows rows' →
  NoDup ((r_id <$> rows) ++ omap inserted_id ((m, d) :: ops)) →
  Forall (λ iv, beyond rows iv ∧ iv.1 ∉ omap inserted_id ((m, d) :: ops)) past →
  NoDup ((r_id <$> rows') ++ omap inserted_id ops) ∧
  Forall (λ iv, beyond rows' iv ∧ iv.1 ∉ omap inserted_id ops) past.
Proof.
  intros He Hnd Hpast. destruct (effect_ids _ _ _ _ He) as [Hsub Hnd'].
  assert (omap inserted_id ((m, d) :: ops) = option_list (inserted_id (m, d)) ++ omap inserted_id ops) as Hom.
  { simpl. by destruct (inserted_id (m, d)). }
  rewrite Hom in Hnd, Hpast. apply NoDup_app in Hnd as (Hn1 & Hdis & Hn2).
  apply NoDup_app in Hn2 as (_ & Hdis2 & Hn2). split.
  - apply NoDup_app. split; [by apply Hnd'|]. split; [|done]. intros x Hx%Hsub. set_solver.
  - eapply Forall_impl; [exact Hpast|]. intros iv [Hb Hn]. split; [|set_solver].
    eapply effect_beyond; [done..|]. intros Heq. rewrite <- Heq in Hn. simpl in Hn. set_solver.
Qed.

Lemma updates_done_past ops s past :
  NoDup (row_ids s ++ omap inserted_id ops) →
  Forall (λ iv, beyond (ss_rows s) iv ∧ iv.1 ∉ omap inserted_id ops) past →
  NoDup (updates_done ops s) ∧ Forall (λ iv, iv ∉ past) (updates_done ops s).
Proof.
  revert s past. induction ops as [|[m d] ops IH]; intros s past Hnd Hpast.
  { simpl. split; [apply NoDup_nil_2|constructor]. }
  simpl. unfold succeeds, back_step. simpl.
  destruct (execute_mutation m d s) as [o s'] eqn:E. apply mutation_effect in E. simpl.
  destruct o as [[[]|e]|]; [|subst; simpl; apply IH..].
  - destruct (effect_inv _ _ _ _ _ _ E Hnd Hpast) as [Hnd' Hpast'].
    destruct m as [p c data|p c id data v|p c id]; simpl; [by apply IH| |by apply IH].
    destruct (IH s' ((id, v) :: past) Hnd') as [Hu Hn].
    { constructor; [|done]. apply NoDup_app in Hnd as (Hn1 & Hdis & _).
      split; [by eapply update_beyond|]. apply Hdis. by eapply update_known. }
    split.
    + constructor; [|done]. intros Hin. rewrite Forall_forall in Hn. apply (Hn _ Hin). left.
    + constructor; [|eapply Forall_impl; [exact Hn|]; set_solver].
      intros Hin. rewrite Forall_forall in Hpast. destruct (Hpast _ Hin) as [Hb _].
      by eapply update_not_beyond.
  - eapply NoDup_app_omap; exact Hnd.
  - eapply Forall_impl; [exact Hpast|]. intros iv [? Hn]. split; [done|]. by apply not_elem_omap_cons in Hn.
  - eapply NoDup_app_omap; exact Hnd.
  - eapply Forall_impl; [exact Hpast|]. intros iv [? Hn]. split; [done|]. by apply not_elem_omap_cons in Hn.
Qed.
End Mutations.

Lemma read_rows_ok `{JsonText} `{JsonLib} `{CryptoLib} `{HmacHex} `{CdmSerde} p key d i rows log ms log' :
  read_rows p key d i rows log = (Ok ms, log') →
  Forall2 (λ r m, parse_payload (r_collection r) (r_data r) key = Ok (payload m) ∧
                  source (metadata m) = ("storage:" +:+ r_collection r)%string) rows ms.
Proof.
  revert i log ms. induction rows as [|r rows IH]; intros i log ms Hr; simpl in Hr.
  { simplify_eq. constructor. }
  unfold read_row in Hr. destruct (parse_payload _ _ _) as [pl|] eqn:Ep; [|done].
  destruct (bk_step d i) as [[[[aid now] fault] fresh] time].
  destruct (read_rows _ _ _ _ _ _) as [[ms'|] log2] eqn:E in Hr; [|done]. simplify_eq.
  constructor; [done|]. by eapply IH.
Qed.

(** A query of the backend is exact. With plain field names it returns a page, of at
    most a thousand, of the records asked for, in an order that agrees with the sort fields: those of the
    collection that pass every filter, of all plugins where the collection is canonical
    and of the asking plugin only where it is private. Each is returned with its own
    contents, and reading changes no record. *)
Theorem backend_query_exact `{JsonText} `{JsonLib} `{CryptoLib} `{HmacHex} `{CdmSerde} `{BackendSqlLaws}
    q d s ms s' :
  plain_query q → execute_query q d s = (Ok ms, s') →
  ss_rows s' = ss_rows s ∧ length ms ≤ 1000 ∧
  ∃ rs, page ((λ x, (sort_field x, sort_direction x)) <$> sq_sort q)
          (from_option (λ l, Z.min l MAX_LIMIT) MAX_LIMIT (sq_limit q)) (sq_offset q)
          (filter (asked q) (ss_rows s)) rs ∧
    Forall (asked q) rs ∧
    Forall2 (λ r m, parse_payload (r_collection r) (r_data r) (ss_master_key s) = Ok (payload m) ∧
                    source (metadata m) = ("storage:" +:+ r_collection r)%string) rs ms.
Proof.
  intros Hq He. unfold execute_query in He. destruct (query_rows_exact q (ss_rows s) Hq) as (rs & Hrows & Hpage).
  destruct (query_statement q) as [st params]. rewrite Hrows in He.
  destruct (read_rows _ _ _ _ rs _) as [r log] eqn:E. simplify_eq.
  apply read_rows_ok in E. split; [done|]. split; [|exists rs; split_and!; [done| |done]].
  - apply Forall2_length in E as <-. destruct Hpage as (all & _ & _ & ->). rewrite length_take.
    assert (from_option (λ l, Z.min l MAX_LIMIT) MAX_LIMIT (sq_limit q) ≤ 1000)%Z
      by (destruct (sq_limit q); unfold MAX_LIMIT; simpl; lia). lia.
  - apply Forall_forall. intros r Hr. eapply page_of_elem in Hr; [|exact Hpage].
    by apply list_elem_of_filter in Hr as [? _].
Qed.

(** Writes are isolated and safe to refuse. A mutation changes no record of another
    plugin, and one that is not answered with success leaves the whole store, audit log
    included, as it was. *)
Theorem backend_writes_isolated `{JsonText} `{JsonLib} `{CryptoLib} `{HmacHex} `{CdmSerde} `{Sqlite} m d s :
  let s' := (execute_mutation m d s).2 in
  foreign (mutation_plugin m) (ss_rows s') = foreign (mutation_plugin m) (ss_rows s) ∧
  (succeeds (m, d) s = false → s' = s).
Proof.
  unfold succeeds. simpl. destruct (execute_mutation m d s) as [o s'] eqn:E. simpl.
  apply mutation_effect in E. destruct o as [[[]|e]|]; [|by subst..].
  split; [|done]. by apply effect_foreign with (d := d).
Qed.


(** ** An instance for witnesses *)

Definition toy_hmac : HmacHex := {|
  hmac_sha256 k m := (k ++ m)%list;
  hex_encode b := String.string_of_list_byte b;
  hex_decode s := Ok (String.list_byte_of_string s);
|}.
Lemma toy_hmac_laws : @HmacHexLaws toy_hmac.
Proof. split. intros b. simpl. by rewrite String.list_byte_of_string_of_list_byte. Qed.

Definition toy_cdm : CdmSerde := {|
  cdm_from_str _ t := @json_from_str coded_text t;
  parse_uuid s := Some s;
|}.

Definition toy_backend : BackendSql := {|
  run_backend st params rows :=
    Ok (take (Z.to_nat (bst_limit st)) (drop (Z.to_nat (default 0%Z (bst_offset st)))
          (merge_sort (@sort_le toy_sqlite ((λ s, (s.1, storage_dir s.2)) <$> bst_order st))
            (filter (@st_selects toy_sqlite st params) rows))));
|}.
Lemma toy_backend_laws : @BackendSqlLaws toy_sqlite toy_backend.
Proof.
  pose proof (@sqlite_order _ toy_sqlite_laws) as Ho. split. intros st params rows _ _ _.
  eexists. split; [done|]. eexists. split_and!; [..|done].
  - apply merge_sort_Permutation.
  - apply (StronglySorted_merge_sort (@sort_le toy_sqlite _)); apply _.
Qed.

(** Every document passes every schema. *)
Definition lax_lib : JsonLib := {|
  schema_compile_error _ := None;
  schema_error _ _ := None;
  payload_to_string _ := empty_str;
|}.

Definition toy_nonce : bytes := repeat "000"%byte 12.
Definition toy_draw (id : uuid) : BackDraw := mkBackDraw id "t1" toy_nonce None (λ _, ("a", "t1", None, "u", 0%Z)%string).
Definition toy_note (n : Z) : PipelineMessage :=
  mkMessage (mkMetadata "m" "plugin" 0%Z None []) (Custom (JObj [("n"%string, JNum (NInt n))])).
Definition toy_store (rows : list Row) (key : bytes) : SqliteStorage :=
  mkSqliteStorage rows [] {[("core", "marks")%string := JObj []]} key key.

Lemma backend_query_exact_witness :
  let q := mkStorageQuery "notes" "guest" [mkFilter "n" OpEq (JNum (NInt 2))] [] (Some 5%Z) None in
  let s := toy_store toy_table [] in
  let out := @execute_query coded_text toy_crypto toy_hmac toy_cdm toy_backend q (toy_draw "u") s in
  ∃ ms, out.1 = Ok ms ∧ ss_rows out.2 = toy_table ∧ length ms ≤ 1000 ∧ length ms = 1.
Proof.
  intros q s out. eexists. split; [vm_compute; reflexivity|].
  pose proof (@backend_query_exact coded_text type_keyword_lib toy_crypto toy_hmac toy_cdm toy_sqlite toy_backend
    toy_backend_laws q (toy_draw "u") s) as Ht.
  edestruct Ht as (H1 & H2 & _);
    [|vm_compute; reflexivity|split; [exact H1|split; [exact H2|reflexivity]]].
  split; [|split; [constructor|]]; [|split; vm_compute; discriminate].
  constructor; [reflexivity|constructor].
Defined.

(** Two updates from the same version of a record of core, between an insert and a delete. *)
Definition toy_ops : list (StorageMutation * BackDraw) :=
  [(MutInsert "core" "marks" (toy_note 1), toy_draw "x");
   (MutUpdate "core" "marks" "x" (toy_note 2) 1, toy_draw "u");
   (MutUpdate "core" "marks" "x" (toy_note 3) 1, toy_draw "u");
   (MutUpdate "core" "marks" "x" (toy_note 4) 2, toy_draw "u");
   (MutDelete "core" "marks" "x", toy_draw "u")].

