(* ===== verification/SqliteVaultFacts.v ===== *)
(** * Credentials and contents of the SQLite storage backend

    What key rotation, updates and inserts leave in a record: the theorems on sealed
    credentials, kept extensions and reading back what was written. *)

From Stdlib Require Import Strings.Byte.
From stdpp Require Import base tactics list strings gmap sorting.
From Stdlib Require Import Ascii ZArith Lia.
From S2P Require Import Prelude RustString Json Types Crypto Storage SchemaVersioning SqliteDoc SqliteQueryFacts SqliteDocFacts HostFunctions CanonicalSchemas SqliteBackend SqliteBackendFacts.

(** ** Credentials *)

(** Claims that survive their serialisation. *)
Definition claims_survive `{CryptoLib} (doc : json) : Prop :=
  ∀ b, json_to_vec (default JNull (json_get doc "claims")) = Ok b →
    json_from_slice b = Ok (default JNull (json_get doc "claims")).

(** A credential as it is read back: with claims, and without the marker. *)
Definition readable (doc : json) : json :=
  remove_field "encrypted" (set_field "claims" (default JNull (json_get doc "claims")) doc).

Section Credentials.
Context `{JsonTextLaws} `{CryptoLaws} `{HmacHexLaws}.

Lemma encrypt_decrypt_credential nonce key t t' doc :
  length nonce = NONCE_SIZE → json_from_str t = Ok doc → json_printable doc → claims_survive doc →
  encrypt_credential nonce key t = Ok t' → decrypt_credential key t' = Ok (json_to_string (readable doc)).
Proof.
  intros Hn Ht Hc Hs He. unfold encrypt_credential in He. rewrite Ht in He. simpl in He.
  destruct doc as [| | | | |o]; try done. unfold credential_id_of in He.
  destruct (json_get (JObj o) "id" ≫= as_str) as [id|] eqn:Eid; simpl in He; [|done].
  destruct (json_to_vec _) as [b|] eqn:Eb in He; simpl in He; [|done].
  destruct (encrypt _ _ _) as [ct|] eqn:Ect in He; simpl in He; [|done]. injection He as <-.
  unfold decrypt_credential. cbn [set_field]. rewrite json_print_parse by (repeat apply printable_insert; done).
  cbn [result_bind result_map_err]. unfold is_encrypted, credential_id_of. rewrite !json_get_obj in *.
  rewrite obj_get_insert_eq. cbn [mbind option_bind as_bool default negb].
  rewrite !obj_get_insert_ne, Eid, obj_get_insert_eq by done. cbn [ok_or result_bind mbind option_bind as_str].
  rewrite hex_roundtrip. cbn [result_map_err result_bind].
  rewrite (decrypt_encrypt nonce _ b ct) by done. cbn [result_map_err result_bind].
  rewrite (Hs b Eb). cbn [result_map_err result_bind set_field remove_field].
  do 2 f_equal. unfold readable. rewrite json_get_obj. cbn [set_field remove_field]. f_equal.
  apply obj_equiv_eq.
  - repeat first [apply obj_remove_sorted|apply obj_insert_sorted]; by eapply within_sorted.
  - repeat first [apply obj_remove_sorted|apply obj_insert_sorted]; by eapply within_sorted.
  - intros k. rewrite !obj_get_remove. destruct (decide _); [done|]. rewrite !obj_get_insert.
    destruct (decide _); [done|]. by destruct (decide _).
Qed.

(** A text the backend stores for a credential under a key, and what it holds. *)
Definition sealed (key : bytes) (data : string) (doc : json) : Prop :=
  ∃ nonce t, length nonce = NONCE_SIZE ∧ json_from_str t = Ok doc ∧ json_printable doc ∧ claims_survive doc ∧
    encrypt_credential nonce key t = Ok data.

Lemma sealed_reads key data doc :
  sealed key data doc → decrypt_credential key data = Ok (json_to_string (readable doc)).
Proof. intros (nonce & t & Hn & Ht & Hc & Hs & He). by eapply encrypt_decrypt_credential. Qed.

Lemma encrypt_object nonce key t doc data :
  json_from_str t = Ok doc → encrypt_credential nonce key t = Ok data → ∃ o, doc = JObj o.
Proof.
  intros Ht He. unfold encrypt_credential in He. rewrite Ht in He. simpl in He.
  destruct doc as [| | | | |o]; try done. by exists o.
Qed.

Lemma readable_claims o :
  json_get (readable (JObj o)) "claims" = Some (default JNull (json_get (JObj o) "claims")).
Proof.
  unfold readable. cbn [set_field remove_field]. rewrite json_get_obj, obj_get_remove_ne by done.
  by rewrite obj_get_insert_eq.
Qed.

Lemma readable_printable o : json_printable (JObj o) → json_printable (readable (JObj o)).
Proof.
  intros Hc. unfold readable. cbn [set_field remove_field]. apply printable_remove, printable_insert; [done|].
  rewrite json_get_obj. destruct (obj_get "claims" o) eqn:E; simpl; [|done]. by eapply printable_get.
Qed.

Lemma readable_idemp o : json_printable (JObj o) → readable (readable (JObj o)) = readable (JObj o).
Proof.
  intros Hc. unfold readable at 1. rewrite readable_claims. cbn [default].
  apply readable_printable in Hc as Hr. unfold readable in *. cbn [set_field remove_field] in *. f_equal.
  apply within_sorted in Hr. apply obj_equiv_eq; [|done|].
  - by apply obj_remove_sorted, obj_insert_sorted.
  - intros k. rewrite !obj_get_remove. destruct (decide _); [done|].
    rewrite !obj_get_insert, obj_get_remove. destruct (decide _); [done|]. destruct (decide _); [done|].
    rewrite obj_get_insert. by destruct (decide _).
Qed.

(** A sealed credential that is opened with one key and sealed with another. *)
Lemma reseal nonce old new data doc t data' :
  length nonce = NONCE_SIZE → sealed old data doc → decrypt_credential old data = Ok t →
  encrypt_credential nonce new t = Ok data' →
  sealed new data' (readable doc) ∧ decrypt_credential new data' = decrypt_credential old data.
Proof.
  intros Hn Hs Hd He. pose proof (sealed_reads _ _ _ Hs) as Hr. rewrite Hr in Hd. injection Hd as <-.
  destruct Hs as (nonce0 & t0 & _ & Ht & Hc & Hs & He0).
  destruct (encrypt_object _ _ _ _ _ Ht He0) as [o ->].
  assert (sealed new data' (readable (JObj o))) as Hnew.
  { exists nonce, (json_to_string (readable (JObj o))). split_and!; [done| | | |done].
    - apply json_print_parse. by apply readable_printable.
    - by apply readable_printable.
    - unfold claims_survive. by rewrite readable_claims. }
  split; [done|]. rewrite (sealed_reads _ _ _ Hnew), Hr, readable_idemp; done.
Qed.

(** One row before and after the loop over [todo]. *)
Definition rekeyed (old new : bytes) (nonce : nat → bytes) (todo : list Row) (r r' : Row) : Prop :=
  (r_id r ∉ r_id <$> todo → r' = r) ∧
  ∀ x, x ∈ todo → r_id x = r_id r →
    ∃ i t, decrypt_credential old (r_data x) = Ok t ∧ encrypt_credential (nonce i) new t = Ok (r_data r') ∧
      r' = mkRow (r_id r) (r_plugin_id r) (r_collection r) (r_data r') (r_version r) (r_created_at r) (r_updated_at r).

Lemma re_encrypt_all_rows old new nonce i todo rows rows' :
  re_encrypt_all old new nonce i todo rows = Ok rows' → NoDup (r_id <$> todo) →
  Forall2 (rekeyed old new nonce todo) rows rows'.
Proof.
  revert i rows. induction todo as [|x todo IH]; intros i rows Hr Hnd; simpl in Hr.
  { injection Hr as <-. apply Forall_Forall2_diag, Forall_forall. intros r _. split; [done|]. set_solver. }
  destruct (decrypt_credential _ _) as [t|] eqn:Et in Hr; simpl in Hr; [|done].
  destruct (encrypt_credential _ _ _) as [data|] eqn:Ed in Hr; simpl in Hr; [|done].
  apply NoDup_cons in Hnd as [Hx Hnd]. apply IH in Hr; [|done]. unfold set_row_data in Hr.
  rewrite Forall2_fmap_l in Hr. eapply Forall2_impl; [exact Hr|]. intros r r' [Hsame Hdone].
  case_bool_decide as Hid; simpl in *.
  - rewrite (Hsame ltac:(by rewrite Hid)). split; [set_solver|].
    intros y [->|Hy]%elem_of_cons Hyid; [by exists i, t|].
    destruct Hx. apply list_elem_of_fmap. exists y. by rewrite <- Hid.
  - split; [set_solver|]. intros y [->|Hy]%elem_of_cons Hyid; [done|by apply Hdone].
Qed.
End Credentials.

(** Rotating the key keeps every credential. When it succeeds, the store and its file
    are under the new key, every record but the credentials is as it was, and every
    credential opens with the new key to what the old one gave, sealed again. When it
    fails, no record and not the key of the store changes. *)
Theorem rekey_keeps_credentials `{JsonTextLaws} `{CryptoLaws} `{HmacHexLaws} new d s r s' :
  NoDup (row_ids s) → (∀ i, length (rk_nonce d i) = NONCE_SIZE) →
  (∀ c, c ∈ credential_rows (ss_rows s) → ∃ doc, sealed (ss_master_key s) (r_data c) doc) →
  rekey new d s = (r, s') →
  match r with
  | Ok _ =>
      ss_master_key s' = new ∧ df_key (file_of s') = new ∧ row_ids s' = row_ids s ∧
      Forall2 (λ c c', if decide (r_collection c = "credentials"%string)
                       then decrypt_credential new (r_data c') = decrypt_credential (ss_master_key s) (r_data c) ∧
                            ∃ doc, sealed new (r_data c') doc
                       else c' = c) (ss_rows s) (ss_rows s')
  | Err _ => ss_rows s' = ss_rows s ∧ ss_master_key s' = ss_master_key s
  end.
Proof.
  intros Hnd Hn Hs Hr. unfold rekey in Hr. destruct (rk_pragma d); [by simplify_eq|].
  destruct (rk_verify d); [by simplify_eq|]. unfold re_encrypt_credentials in Hr.
  destruct (re_encrypt_all _ _ _ _ _ _) as [rows|] eqn:E in Hr; [|by simplify_eq].
  destruct (rk_fault d); simplify_eq; [done|]. simpl.
  apply re_encrypt_all_rows in E; [|by apply nodup_ids_filter].
  assert (Forall2 (λ c c', r_id c' = r_id c ∧
    if decide (r_collection c = "credentials"%string)
    then decrypt_credential new (r_data c') = decrypt_credential (ss_master_key s) (r_data c) ∧
         ∃ doc, sealed new (r_data c') doc
    else c' = c) (ss_rows s) rows) as Hrows.
  { apply Forall2_same_length_lookup in E as [Hlen E]. apply Forall2_same_length_lookup. split; [done|].
    intros k c c' Hc Hc'. specialize (E k c c' Hc Hc') as [Hsame Hcred]. apply list_elem_of_lookup_2 in Hc.
    case_decide as Hcol.
    - destruct (Hcred c) as (i & t & Hd & He & Heq); [by apply list_elem_of_filter|done|].
      split; [by rewrite Heq|]. destruct (Hs c) as [doc Hdoc]; [by apply list_elem_of_filter|].
      destruct (reseal _ _ _ _ _ _ _ (Hn i) Hdoc Hd He). eauto.
    - rewrite Hsame; [done|]. intros (x & Hid & [Hx Hin]%list_elem_of_filter)%list_elem_of_fmap.
      by rewrite (same_row _ _ _ Hnd Hc Hin Hid) in Hcol. }
  split_and!; [done..| |eapply Forall2_impl; [exact Hrows|]; by intros ?? [_ ?]].
  symmetry. apply list_eq_Forall2, Forall2_fmap. eapply Forall2_impl; [exact Hrows|]. by intros ?? [-> _].
Qed.

(** A key rotation that fails after SQLCipher changed the key of the file leaves the
    old key in use, while the file opens only with the new one: a restart with the old
    key is refused. *)
Theorem failed_rekey_locks_out `{JsonText} `{CryptoLib} `{HmacHex} new d s e s' :
  rk_pragma d = None → new ≠ ss_master_key s → rekey new d s = (Err e, s') →
  ss_master_key s' = ss_master_key s ∧
  init (Some (file_of s')) (ss_master_key s') None =
    Err (DatabaseDecryptionFailed "unable to decrypt database — wrong key or corrupted file").
Proof.
  intros Hp Hne Hr. unfold rekey in Hr. rewrite Hp in Hr.
  assert (ss_file_key s' = new ∧ ss_master_key s' = ss_master_key s) as [Hf Hm].
  { destruct (rk_verify d); [by simplify_eq|].
    destruct (re_encrypt_credentials _ _ _ _ _) as [[]]; by simplify_eq. }
  split; [done|]. unfold init, file_of. simpl. by rewrite bool_decide_eq_false_2 by congruence.
Qed.

(** ** What a record holds after a write *)

(** [json_extract] on the text of a document whose extensions are an object. *)
Class ExtractLaws `{JsonText} `{Sqlite} : Prop := {
  extract_extensions o ext :
    json_printable (JObj o) → obj_get "extensions" o = Some (JObj ext) →
    ∃ t, json_extract "$.extensions" (json_to_string (JObj o)) = SqlText t ∧ json_from_str t = Ok (JObj ext);
}.

Section Contents.
Context `{JsonTextLaws} `{JsonLib} `{CryptoLib} `{HmacHex} `{CdmSerde} `{Sqlite}.

Lemma update_record_stores p c id text v d s s' :
  update_record p c id text v d s = (Ok tt, s') →
  ∃ stored, seal c text d s = Ok stored ∧ store_version id p stored (bk_now d) v (ss_rows s) = Some (ss_rows s').
Proof.
  unfold update_record. intros Hi.
  destruct (validate_write _ _ _ _) as [?|] in Hi; simpl in Hi; [|by simplify_eq].
  destruct (seal _ _ _ _) as [stored|] eqn:Es in Hi; simpl in Hi; [|by simplify_eq].
  destruct (bk_fault d) in Hi; [by simplify_eq|].
  destruct (store_version _ _ _ _ _ _) as [rows|] eqn:E in Hi; simpl in Hi; simplify_eq.
  rewrite (proj1 (audit_change_same _ _ _ _ _ _)). eauto.
Qed.

Lemma seal_plain c text d s : c ≠ "credentials"%string → seal c text d s = Ok text.
Proof. intros Hc. unfold seal. by rewrite bool_decide_eq_false_2. Qed.

Lemma merge_extensions id new o ext rows r :
  NoDup (r_id <$> rows) → r ∈ rows → r_id r = id → ExtractLaws → json_printable (JObj o) → json_printable (JObj new) →
  r_data r = json_to_string (JObj o) → obj_get "extensions" o = Some (JObj ext) →
  present (obj_get "extensions" new) = None →
  merge_existing_extensions id (json_to_string (JObj new)) rows =
    Returned (Ok (json_to_string (JObj (obj_insert "extensions" (JObj ext) new)))).
Proof.
  intros Hnd Hr Hid HE Ho Hn Hdata Hext Hp. unfold merge_existing_extensions.
  rewrite json_print_parse by done. rewrite json_get_obj, Hp.
  assert (present (stored_extensions id rows) = Some (JObj ext)) as ->; [|done].
  unfold stored_extensions.
  destruct (list_find (λ r, r_id r = id) rows) as [[k x]|] eqn:E.
  - apply list_find_Some in E as (Hx%list_elem_of_lookup_2 & Hxid & _). simpl in *.
    rewrite (same_row rows x r) by congruence.
    rewrite Hdata. destruct (extract_extensions o ext Ho Hext) as (t & -> & Ht). by rewrite Ht.
  - apply list_find_None in E. rewrite Forall_forall in E. by destruct (E r Hr).
Qed.
End Contents.

(** An update does not lose the extensions of a record. When a record of a canonical
    collection other than credentials is updated with a document that has no extensions,
    the extensions stored before are kept, every other field is the new document's, and
    the version goes up by one. *)
Theorem update_keeps_extensions `{JsonTextLaws} `{JsonLib} `{CryptoLib} `{HmacHex} `{CdmSerde} `{Sqlite}
    (HE : ExtractLaws) p c id m v d s s' new o ext r :
  NoDup (row_ids s) → is_canonical c = true → c ≠ "credentials"%string →
  payload_value (payload m) = JObj new → json_printable (JObj new) → present (obj_get "extensions" new) = None →
  r ∈ ss_rows s → r_id r = id → json_printable (JObj o) → r_data r = json_to_string (JObj o) →
  obj_get "extensions" o = Some (JObj ext) →
  execute_mutation (MutUpdate p c id m v) d s = (Returned (Ok tt), s') →
  ∃ r' o', r' ∈ ss_rows s' ∧ r_id r' = id ∧ r_version r' = (r_version r + 1)%Z ∧
    json_from_str (r_data r') = Ok (JObj o') ∧ obj_get "extensions" o' = Some (JObj ext) ∧
    ∀ k, k ≠ "extensions"%string → obj_get k o' = obj_get k new.
Proof.
  intros Hnd Hcan Hcred Hpay Hnew Habs Hr Hid Ho Hdata Hext Hm. simpl in Hm.
  rewrite Hcan, bool_decide_eq_true_2 in Hm by done. simpl in Hm. unfold serialize_payload in Hm.
  rewrite Hpay, (merge_extensions id new o ext _ r) in Hm by done.
  destruct (update_record _ _ _ _ _ _ _) as [res s1] eqn:E in Hm. simplify_eq.
  apply update_record_stores in E as (stored & Hs & [Hex Hrows]%store_version_Some).
  rewrite seal_plain in Hs by done. injection Hs as <-.
  apply existsb_elem_of in Hex as (x & Hx & Hv).
  assert (x = r) as -> by (apply (same_row (ss_rows s)); [done..|]; by apply is_version_true in Hv as [? _]).
  eexists _, (obj_insert "extensions" (JObj ext) new). split; [|split; [|split; [|split; [|split]]]].
  - rewrite Hrows. apply list_elem_of_fmap. exists r. split; [|done]. by rewrite Hv.
  - done.
  - done.
  - simpl. apply json_print_parse, printable_insert; [done|]. by eapply printable_get.
  - apply obj_get_insert_eq.
  - intros k Hk. by apply obj_get_insert_ne.
Qed.

(** The collection an update names is not compared with the record's: an update that
    names a private collection reaches the plugin's record in any collection, and what it
    stores passed the private schema only, in clear even where the record is a
    credential. *)
Theorem update_collection_unchecked `{JsonText} `{JsonLib} `{CryptoLib} `{HmacHex} `{CdmSerde} `{Sqlite}
    p c id m v d s r :
  is_canonical c = false → validate_private (ss_schemas s) p c (serialize_payload (payload m)) = Ok tt →
  r ∈ ss_rows s → is_version id p (u64_as_i64 v) r = true → bk_fault d = None →
  ∃ s' r', execute_mutation (MutUpdate p c id m v) d s = (Returned (Ok tt), s') ∧
    r' ∈ ss_rows s' ∧ r_id r' = id ∧ r_collection r' = r_collection r ∧
    r_data r' = serialize_payload (payload m).
Proof.
  intros Hc Hv Hr Hver Hf. simpl. rewrite Hc. simpl. unfold update_record, validate_write, store_version, seal.
  rewrite Hc, Hv, Hf. assert (c ≠ "credentials"%string) as Hne by (by intros ->).
  rewrite bool_decide_eq_false_2 by done. simpl.
  assert (existsb (is_version id p (u64_as_i64 v)) (ss_rows s) = true) as ->
    by (apply existsb_elem_of; eauto). simpl.
  eexists _, _. split; [done|]. rewrite (proj1 (audit_change_same _ _ _ _ _ _)). simpl.
  split; [apply list_elem_of_fmap; exists r; split; [reflexivity|done]|]. simpl. rewrite Hver.
  by apply is_version_true in Hver as (? & _).
Qed.

(** What a plugin writes to a private collection it reads back: a record inserted
    holds the document, is parsed to the payload that was sent, and is among the records
    a query of the plugin without filters asks for and of no other plugin's. *)
Theorem private_insert_reads_back `{JsonTextLaws} `{JsonLib} `{CryptoLib} `{HmacHex} `{CdmSerde} `{Sqlite}
    p c m v d s s' :
  is_canonical c = false → payload m = Custom v → json_printable v →
  execute_mutation (MutInsert p c m) d s = (Returned (Ok tt), s') →
  ∃ r, ss_rows s' = ss_rows s ++ [r] ∧ r_version r = 1%Z ∧
    parse_payload (r_collection r) (r_data r) (ss_master_key s') = Ok (payload m) ∧
    ∀ q, sq_collection q = c → sq_filters q = [] → asked q r ↔ sq_plugin_id q = p.
Proof.
  intros Hc Hm Hv He. simpl in He. destruct (insert_record p c m d s) as [res s1] eqn:E. simplify_eq.
  unfold insert_record in E. destruct (validate_write _ _ _ _) as [?|] in E; simpl in E; [|by simplify_eq].
  assert (c ≠ "credentials"%string) as Hne by (by intros ->). rewrite seal_plain in E by done. simpl in E.
  destruct (bk_fault d); [by simplify_eq|]. destruct (insert_row _ _) as [rows|] eqn:Ei; simpl in E; simplify_eq.
  apply insert_row_Ok in Ei as [_ ->]. rewrite (proj1 (audit_change_same _ _ _ _ _ _)).
  eexists. split; [done|]. split; [done|]. split.
  - unfold parse_payload. cbn [r_collection r_data]. assert (cdm_of c = None) as ->.
    { apply bool_decide_eq_false in Hc. unfold cdm_of. simpl.
      repeat (rewrite decide_False by (intros <-; apply Hc; set_solver)). done. }
    unfold serialize_payload. rewrite Hm. simpl. by rewrite json_print_parse.
  - intros q <- Hf. unfold asked. rewrite Hc, Hf. simpl. split; [by intros (_ & [?| ->] & _)|].
    intros ->. split_and!; [done|by right|done].
Qed.

(** ** Witnesses *)

(** Concrete documents. *)
Ltac sorted_keys :=
  unfold obj_sorted; cbn;
  repeat first [apply SSorted_nil|apply SSorted_cons|apply List.Forall_nil|apply List.Forall_cons
               |apply key_lt_compare; reflexivity].
Ltac canonical :=
  hnf; repeat match goal with
  | |- obj_sorted _ => sorted_keys
  | |- _ ∧ _ => split
  | |- foldr _ _ _ => cbn [foldr snd]
  | |- json_within _ _ => hnf
  | |- True => exact I
  end.

Lemma toy_extract_laws : @ExtractLaws coded_text toy_sqlite.
Proof.
  split. intros o ext _ Hext. exists (@json_to_string coded_text (JObj ext)). split.
  - cbn [json_extract toy_sqlite scan_sqlite]. unfold toy_extract. rewrite coded_print_parse.
    assert (strip_prefix "$." "$.extensions" = Some "extensions"%string) as -> by reflexivity.
    by rewrite json_get_obj, Hext.
  - apply coded_print_parse.
Qed.

Definition old_key : bytes := ["001"%byte].
Definition new_key : bytes := ["002"%byte].

Definition login : json := JObj [("claims"%string, JStr "secret"); ("id"%string, JStr "c1")].
Definition sealed_login : string :=
  default empty_str (result_ok (@encrypt_credential coded_text toy_crypto toy_hmac toy_nonce old_key
    (@json_to_string coded_text login))).
Definition vault : SqliteStorage :=
  toy_store [toy_row "a" "notes" 1; mkRow "c1" "core" "credentials" sealed_login 1 "t" "t"] old_key.
Definition rotate (fault : option string) : RekeyDraw := mkRekeyDraw None None (λ _, toy_nonce) fault.

Lemma login_sealed : @sealed coded_text toy_crypto toy_hmac old_key sealed_login login.
Proof.
  exists toy_nonce, (@json_to_string coded_text login). split_and!; [reflexivity|vm_compute; reflexivity| | |].
  - canonical.
  - intros b. vm_compute. by intros [= <-].
  - vm_compute. reflexivity.
Qed.

Lemma rekey_keeps_credentials_witness :
  let '(r, s') := @rekey coded_text toy_crypto toy_hmac new_key (rotate None) vault in
  r = Ok tt ∧ ss_master_key s' = new_key ∧ row_ids s' = ["a"; "c1"]%string.
Proof.
  destruct (rekey new_key (rotate None) vault) as [r s'] eqn:E.
  assert (r = Ok tt) as -> by (change r with (r, s').1; rewrite <- E; vm_compute; reflexivity).
  pose proof (@rekey_keeps_credentials coded_text coded_text_laws toy_crypto toy_crypto_laws toy_hmac toy_hmac_laws
    new_key (rotate None) vault (Ok tt) s') as Ht.
  destruct Ht as (Hk & _ & Hids & _); [|intros i; reflexivity| |exact E|].
  - apply (bool_decide_unpack _). vm_compute. exact I.
  - intros c Hc. apply list_elem_of_filter in Hc as [Hcol Hc]. exists login.
    apply elem_of_cons in Hc as [->|Hc%list_elem_of_singleton]; [discriminate|]. subst c. exact login_sealed.
  - split; [reflexivity|]. split; [exact Hk|]. rewrite Hids. reflexivity.
Defined.

Lemma failed_rekey_locks_out_witness :
  let s' := (@rekey coded_text toy_crypto toy_hmac new_key (rotate (Some "disk full"%string)) vault).2 in
  ss_master_key s' = old_key ∧
  init (Some (file_of s')) old_key None =
    Err (DatabaseDecryptionFailed "unable to decrypt database — wrong key or corrupted file").
Proof.
  destruct (rekey new_key (rotate (Some "disk full"%string)) vault) as [r s'] eqn:E. simpl.
  destruct r as [[]|e]; [vm_compute in E; discriminate|].
  destruct (@failed_rekey_locks_out coded_text toy_crypto toy_hmac new_key (rotate (Some "disk full"%string)) vault e s')
    as [Hm Hi]; [reflexivity|discriminate|exact E|]. rewrite Hm in Hi. exact (conj Hm Hi).
Defined.

(** A note with an extension, updated by a document without. *)
Definition noted : Row :=
  mkRow "n1" "core" "notes"
    (@json_to_string coded_text (JObj [("extensions"%string, JObj [("x"%string, JNull)]); ("n"%string, JNum (NInt 1))]))
    1 "t" "t".

Lemma update_keeps_extensions_witness :
  ∃ s' r', @execute_mutation coded_text lax_lib toy_crypto toy_hmac toy_sqlite
             (MutUpdate "core" "notes" "n1" (toy_note 2) 1) (toy_draw "u") (toy_store [noted] old_key)
           = (Returned (Ok tt), s') ∧ r' ∈ ss_rows s' ∧ r_version r' = 2%Z.
Proof.
  set (out := execute_mutation _ _ _).
  destruct (@update_keeps_extensions coded_text coded_text_laws lax_lib toy_crypto toy_hmac toy_cdm toy_sqlite
    toy_extract_laws "core" "notes" "n1" (toy_note 2) 1%Z (toy_draw "u") (toy_store [noted] old_key) out.2
    [("n"%string, JNum (NInt 2))]
    [("extensions"%string, JObj [("x"%string, JNull)]); ("n"%string, JNum (NInt 1))] [("x"%string, JNull)] noted)
    as (r' & o' & Hr & _ & Hv & _); try reflexivity; try canonical.
  - apply (bool_decide_unpack _). vm_compute. exact I.
  - discriminate.
  - left.
  - exists out.2, r'. split; [vm_compute; reflexivity|]. split; [exact Hr|exact Hv].
Defined.

Lemma update_collection_unchecked_witness :
  ∃ s' r', @execute_mutation coded_text lax_lib toy_crypto toy_hmac toy_sqlite
             (MutUpdate "core" "marks" "c1" (toy_note 2) 1) (toy_draw "u") vault = (Returned (Ok tt), s') ∧
    r' ∈ ss_rows s' ∧ r_collection r' = "credentials"%string ∧
    r_data r' = @serialize_payload coded_text (payload (toy_note 2)).
Proof.
  destruct (@update_collection_unchecked coded_text lax_lib toy_crypto toy_hmac toy_cdm toy_sqlite
    "core" "marks" "c1" (toy_note 2) 1 (toy_draw "u") vault
    (mkRow "c1" "core" "credentials" sealed_login 1 "t" "t")) as (s' & r' & H1 & H2 & _ & H3 & H4).
  - reflexivity.
  - vm_compute. reflexivity.
  - apply list_elem_of_further. left.
  - reflexivity.
  - reflexivity.
  - exists s', r'. exact (conj H1 (conj H2 (conj H3 H4))).
Defined.

Lemma private_insert_reads_back_witness :
  ∃ s' r, @execute_mutation coded_text lax_lib toy_crypto toy_hmac toy_sqlite
            (MutInsert "core" "marks" (toy_note 2)) (toy_draw "m1") vault = (Returned (Ok tt), s') ∧
    ss_rows s' = ss_rows vault ++ [r] ∧ r_version r = 1%Z.
Proof.
  set (out := execute_mutation _ _ _).
  destruct (@private_insert_reads_back coded_text coded_text_laws lax_lib toy_crypto toy_hmac toy_cdm toy_sqlite
    "core" "marks" (toy_note 2) (JObj [("n"%string, JNum (NInt 2))]) (toy_draw "m1") vault out.2)
    as (r & Hrows & Hv & _); try reflexivity; try canonical.
  exists out.2, r. split; [vm_compute; reflexivity|]. split; [exact Hrows|exact Hv].
Defined.
