(* ===== verification/ApiKeys.v ===== *)
(** * API keys

    packages/auth/src/handlers/keys.rs with the records of types.rs and the HMAC of
    packages/crypto/src/hmac.rs: creating, listing, revoking and validating keys through
    a [StorageBackend]. The backend is a class over its state; [MockStorage] of
    packages/auth/src/tests/keys_test.rs is an instance, and [sqlite_storage] wraps the
    queries and mutations of SqliteBackend.v, for which the sources have no
    implementation of the trait. Random bytes, ids and clock readings are in the [KeyDraw] of a call. *)

From Stdlib Require Import Strings.Byte.
From stdpp Require Import base tactics list strings gmap.
From Stdlib Require Import Ascii ZArith Lia.
From S2P Require Import Prelude RustString Json Types Crypto Auth SqliteDoc HostFunctions SqliteBackend.

Local Open Scope string_scope.

(** ** Records (types.rs) *)

Record ApiKeyRecord : Type := mkKeyRecord {
  kr_id : uuid;
  kr_name : string;
  kr_key_hash : string;
  kr_salt : string;
  kr_scopes : list string;
  kr_created_at : timestamp;
  kr_expires_at : option timestamp;
  kr_revoked : bool;
  kr_last_used : option timestamp;
}.

Record ApiKeyMetadata : Type := mkKeyMetadata {
  km_id : uuid;
  km_name : string;
  km_scopes : list string;
  km_created_at : timestamp;
  km_expires_at : option timestamp;
  km_revoked : bool;
  km_last_used : option timestamp;
}.

Definition key_metadata (r : ApiKeyRecord) : ApiKeyMetadata :=
  mkKeyMetadata (kr_id r) (kr_name r) (kr_scopes r) (kr_created_at r) (kr_expires_at r) (kr_revoked r)
    (kr_last_used r).

(** ** Libraries *)

(** URL-safe base64, and serde on times and ids. *)
Class KeyLib : Type := {
  url64_encode : bytes → string;
  url64_decode : string → option bytes;
  time_text : timestamp → string;
  time_parse : string → option timestamp;
  uuid_parse : string → option uuid;
  serde_reason : json → string;
}.

(** From year 0 up to year 9999, in nanoseconds from 1970. *)
Definition time_fits (t : timestamp) : Prop :=
  (-62167219200 * 1000000000 ≤ t < 253402300800 * 1000000000)%Z.

Class KeyLibLaws `{KeyLib} : Prop := {
  url64_roundtrip b : url64_decode (url64_encode b) = Some b;
  time_roundtrip t : time_fits t → time_parse (time_text t) = Some t;
}.

(** [StorageBackend] over the state of a backend; errors are their texts. *)
Class StorageBackend (S : Type) : Type := {
  execute : StorageQuery → S → result (list PipelineMessage) string * S;
  mutate : StorageMutation → S → result unit string * S;
}.

(** ** HMAC (hmac.rs) *)

Definition hmac_sign `{HmacHex} (key data : bytes) : bytes := hmac_sha256 key data.

Definition hmac_verify `{HmacHex} (key data tag : bytes) : bool := bool_decide (hmac_sha256 key data = tag).

(** ** Serialisation *)

Section Serde.
Context `{KeyLib}.

Definition opt_time (t : option timestamp) : json := from_option (λ t, JStr (time_text t)) JNull t.

Definition record_value (r : ApiKeyRecord) : json :=
  mk_obj [("id", JStr (kr_id r)); ("name", JStr (kr_name r)); ("key_hash", JStr (kr_key_hash r));
          ("salt", JStr (kr_salt r)); ("scopes", JArr (JStr <$> kr_scopes r));
          ("created_at", JStr (time_text (kr_created_at r))); ("expires_at", opt_time (kr_expires_at r));
          ("revoked", JBool (kr_revoked r)); ("last_used", opt_time (kr_last_used r))].

(** A field that may be absent or null. *)
Definition time_field (v : option json) : option (option timestamp) :=
  match v with
  | None | Some JNull => Some None
  | Some (JStr s) => Some <$> time_parse s
  | Some _ => None
  end.

Definition KEY_FIELDS : list string :=
  ["id"; "name"; "key_hash"; "salt"; "scopes"; "created_at"; "expires_at"; "revoked"; "last_used"].

(** serde reads a struct from an object, or from an array with all fields in order. *)
Definition struct_field (j : json) (k : string) : option json :=
  match j with
  | JArr xs =>
      if bool_decide (length xs = length KEY_FIELDS)
      then i ← fst <$> list_find (eq k) KEY_FIELDS; xs !! i else None
  | _ => json_get j k
  end.

Definition is_struct (j : json) : bool :=
  match j with
  | JObj _ => true
  | JArr xs => bool_decide (length xs = length KEY_FIELDS)
  | _ => false
  end.

Definition str_field (j : json) (k : string) : option string := struct_field j k ≫= as_str.

Definition scopes_field (v : option json) : option (list string) :=
  match v with
  | Some (JArr xs) => mapM as_str xs
  | _ => None
  end.

Definition record_of_value (j : json) : option ApiKeyRecord :=
  if negb (is_struct j) then None else
  id ← str_field j "id" ≫= uuid_parse;
  name ← str_field j "name";
  key_hash ← str_field j "key_hash";
  salt ← str_field j "salt";
  scopes ← scopes_field (struct_field j "scopes");
  created_at ← str_field j "created_at" ≫= time_parse;
  expires_at ← time_field (struct_field j "expires_at");
  revoked ← struct_field j "revoked" ≫= as_bool;
  last_used ← time_field (struct_field j "last_used");
  Some (mkKeyRecord id name key_hash salt scopes created_at expires_at revoked last_used).
End Serde.

(** ** Handlers (handlers/keys.rs) *)

Definition AUTH_PLUGIN_ID : string := "core.auth".
Definition KEYS_COLLECTION : string := "credentials".
Definition permissive_schema : json := mk_obj [].

(** What a call draws: the bytes of a new key, its salt and id, and the clock when the
    call checks expiry, stamps a message, notes a use and makes an identity. *)
Record KeyDraw : Type := mkKeyDraw {
  kd_raw : bytes;
  kd_salt : bytes;
  kd_id : uuid;
  kd_now : timestamp;
  kd_stamp : timestamp;
  kd_used : timestamp;
  kd_authenticated : timestamp;
}.

Section Keys.
Context `{JsonLib} `{HmacHex} `{KeyLib} {S : Type} `{StorageBackend S}.

Definition storage_error (e : string) : AuthError := ConfigInvalid ("storage error: " +:+ e).

Definition extract_key_record (m : PipelineMessage) : result ApiKeyRecord AuthError :=
  let v := payload_inner (payload m) in
  ok_or (record_of_value v)
    (ConfigInvalid ("failed to deserialize API key record: " +:+ serde_reason v)).

Definition record_to_pipeline_message (stamp : timestamp) (r : ApiKeyRecord)
    : result PipelineMessage AuthError :=
  let? v := result_map_err (λ e, ConfigInvalid ("schema validation error: " +:+ e))
    (schema_validated_new (record_value r) permissive_schema) in
  Ok (mkMessage (mkMetadata (kr_id r) "core.auth.keys" stamp None []) (Custom v)).

Definition new_record (name : string) (scopes : list string) (expires_at : option timestamp) (d : KeyDraw)
    : string * ApiKeyRecord :=
  let raw_key := url64_encode (kd_raw d) in
  let hash := hmac_sign (kd_salt d) (bytes_of raw_key) in
  (raw_key, mkKeyRecord (kd_id d) name (url64_encode hash) (url64_encode (kd_salt d)) scopes (kd_now d)
              expires_at false None).

Definition create_key (name : string) (scopes : list string) (expires_at : option timestamp) (d : KeyDraw)
    (s : S) : result (string * ApiKeyRecord) AuthError * S :=
  let '(raw_key, record) := new_record name scopes expires_at d in
  match record_to_pipeline_message (kd_stamp d) record with
  | Err e => (Err e, s)
  | Ok data =>
      let '(r, s') := mutate (MutInsert AUTH_PLUGIN_ID KEYS_COLLECTION data) s in
      (let? _ := result_map_err storage_error r in Ok (raw_key, record), s')
  end.

Definition list_query : StorageQuery := mkStorageQuery KEYS_COLLECTION AUTH_PLUGIN_ID [] [] None None.

Definition list_key_records (s : S) : result (list ApiKeyRecord) AuthError * S :=
  let '(r, s') := execute list_query s in
  (let? results := result_map_err storage_error r in
   Ok (omap (λ m, result_ok (extract_key_record m)) results), s').

Definition list_keys (s : S) : result (list ApiKeyMetadata) AuthError * S :=
  let '(r, s') := list_key_records s in
  (let? keys := r in Ok (key_metadata <$> keys), s').

Definition id_query (key_id : uuid) : StorageQuery :=
  mkStorageQuery KEYS_COLLECTION AUTH_PLUGIN_ID [mkFilter "id" OpEq (JStr key_id)] [] (Some 1%Z) None.

Definition find_key_by_id (key_id : uuid) (s : S) : result ApiKeyRecord AuthError * S :=
  let '(r, s') := execute (id_query key_id) s in
  (let? results := result_map_err storage_error r in
   let? m := ok_or (head results) KeyInvalid in
   extract_key_record m, s').

Definition set_revoked (r : ApiKeyRecord) : ApiKeyRecord :=
  mkKeyRecord (kr_id r) (kr_name r) (kr_key_hash r) (kr_salt r) (kr_scopes r) (kr_created_at r)
    (kr_expires_at r) true (kr_last_used r).

Definition key_update (id : uuid) (data : PipelineMessage) : StorageMutation :=
  MutUpdate AUTH_PLUGIN_ID KEYS_COLLECTION id data 1.

Definition revoke_key (key_id : uuid) (d : KeyDraw) (s : S) : result unit AuthError * S :=
  match find_key_by_id key_id s with
  | (Err e, s1) => (Err e, s1)
  | (Ok record, s1) =>
      match record_to_pipeline_message (kd_stamp d) (set_revoked record) with
      | Err e => (Err e, s1)
      | Ok data =>
          let '(r, s2) := mutate (key_update key_id data) s1 in (result_map_err storage_error r, s2)
      end
  end.

Definition set_last_used (t : timestamp) (r : ApiKeyRecord) : ApiKeyRecord :=
  mkKeyRecord (kr_id r) (kr_name r) (kr_key_hash r) (kr_salt r) (kr_scopes r) (kr_created_at r)
    (kr_expires_at r) (kr_revoked r) (Some t).

Definition expired (now : timestamp) (r : ApiKeyRecord) : bool :=
  match kr_expires_at r with
  | Some t => (t <? now)%Z
  | None => false
  end.

(** The best-effort note of a use. *)
Definition note_use (d : KeyDraw) (r : ApiKeyRecord) (s : S) : S :=
  match record_to_pipeline_message (kd_stamp d) (set_last_used (kd_used d) r) with
  | Ok data => (mutate (key_update (kr_id r) data) s).2
  | Err _ => s
  end.

Definition key_identity (d : KeyDraw) (r : ApiKeyRecord) : AuthIdentity :=
  mkIdentity (kr_id r) "api-key" (kr_scopes r) (kd_authenticated d).

Fixpoint validate_against (raw_key : string) (d : KeyDraw) (keys : list ApiKeyRecord) (s : S)
    : result AuthIdentity AuthError * S :=
  match keys with
  | [] => (Err KeyInvalid, s)
  | r :: keys' =>
      match url64_decode (kr_salt r), url64_decode (kr_key_hash r) with
      | Some salt, Some stored_hash =>
          if negb (hmac_verify salt (bytes_of raw_key) stored_hash) then validate_against raw_key d keys' s
          else if kr_revoked r then (Err KeyRevoked, s)
          else if expired (kd_now d) r then (Err KeyRevoked, s)
          else (Ok (key_identity d r), note_use d r s)
      | _, _ => (Err KeyInvalid, s)
      end
  end.

Definition validate_key (raw_key : string) (d : KeyDraw) (s : S) : result AuthIdentity AuthError * S :=
  match list_key_records s with
  | (Err e, s1) => (Err e, s1)
  | (Ok keys, s1) => validate_against raw_key d keys s1
  end.
End Keys.

(** [ApiKeyProvider]: a backend, and the draws of its next calls. *)
Definition ApiKeyProvider (S : Type) : Type := (S * list KeyDraw)%type.

Definition no_draw : KeyDraw := mkKeyDraw [] [] empty_str 0 0 0 0.

#[export] Instance api_key_provider `{JsonLib} `{HmacHex} `{KeyLib} {S} `{StorageBackend S}
    : AuthProvider (ApiKeyProvider S) := {|
  validate_token _ p := (Err (TokenInvalid "api-key provider does not support bearer tokens"), p);
  provider_validate_key key p :=
    let '(r, s) := validate_key key (default no_draw (head p.2)) p.1 in (r, (s, tail p.2));
  provider_revoke_key id p :=
    let '(r, s) := revoke_key id (default no_draw (head p.2)) p.1 in (r, (s, tail p.2));
|}.

(** ** Backends *)

(** [MockStorage] of the tests: messages, found by correlation id. *)
Definition mock_matches (q : StorageQuery) (m : PipelineMessage) : bool :=
  forallb (λ f, if bool_decide (qf_field f = "id")
                then bool_decide (correlation_id (metadata m) = default empty_str (as_str (qf_value f)))
                else true) (sq_filters q).

Definition mock_execute (q : StorageQuery) (s : list PipelineMessage)
    : result (list PipelineMessage) string * list PipelineMessage :=
  let found := filter (λ m, mock_matches q m = true) s in
  (Ok (from_option (λ n, take (Z.to_nat n) found) found (sq_limit q)), s).

Definition mock_without (id : uuid) (s : list PipelineMessage) : list PipelineMessage :=
  filter (λ m, correlation_id (metadata m) ≠ id) s.

Definition mock_mutate (m : StorageMutation) (s : list PipelineMessage)
    : result unit string * list PipelineMessage :=
  (Ok tt, match m with
          | MutInsert _ _ data => (s ++ [data])%list
          | MutUpdate _ _ id data _ => (mock_without id s ++ [data])%list
          | MutDelete _ _ id => mock_without id s
          end).

Definition mock_storage : StorageBackend (list PipelineMessage) := Build_StorageBackend _ mock_execute mock_mutate.

(** [SqliteStorage] with the draws of its calls. Only an update of a canonical record
    that is not a credential can panic. *)
Section Sqlite.
Context `{JsonText} `{JsonLib} `{CryptoLib} `{HmacHex} `{CdmSerde} `{Sqlite} `{BackendSql}.

Definition sqlite_execute (q : StorageQuery) (s : SqliteStorage * list BackDraw) (d0 : BackDraw)
    : result (list PipelineMessage) string * (SqliteStorage * list BackDraw) :=
  let '(r, s') := execute_query q (default d0 (head s.2)) s.1 in
  (result_map_err backend_error_display r, (s', tail s.2)).

Definition sqlite_mutate (m : StorageMutation) (s : SqliteStorage * list BackDraw) (d0 : BackDraw)
    : result unit string * (SqliteStorage * list BackDraw) :=
  match execute_mutation m (default d0 (head s.2)) s.1 with
  | (Returned r, s') => (result_map_err backend_error_display r, (s', tail s.2))
  | (Panicked, s') => (Err "panicked", (s', tail s.2))
  end.

Definition sqlite_storage (d0 : BackDraw) : StorageBackend (SqliteStorage * list BackDraw) :=
  Build_StorageBackend _ (λ q s, sqlite_execute q s d0) (λ m s, sqlite_mutate m s d0).
End Sqlite.
