(* ===== verification/ApiKeysFacts.v ===== *)
(** * Facts about API keys

    The handlers over the tests' storage refine a registry of key records, revoked keys
    stay refused, and what goes wrong over storages that check versions or that store
    credentials as such. *)

From Stdlib Require Import Strings.Byte.
From stdpp Require Import base tactics list strings gmap.
From Stdlib Require Import Ascii ZArith Lia.
From S2P Require Import Prelude RustString Json Types Crypto Auth SqliteDoc SqliteQueryFacts HostFunctions CanonicalSchemas SqliteBackend SqliteBackendFacts ApiKeys.

#[local] Arguments time_field : simpl never.
#[local] Arguments opt_time : simpl never.

(** A record whose id and times survive serialisation. *)
Definition key_ok `{KeyLib} (r : ApiKeyRecord) : Prop :=
  uuid_parse (kr_id r) = Some (kr_id r) ∧ time_fits (kr_created_at r) ∧
  from_option time_fits True (kr_expires_at r) ∧ from_option time_fits True (kr_last_used r).

(** The empty schema accepts everything. *)
Class EmptySchemaLaws `{JsonLib} : Prop := {
  empty_schema_compiles : schema_compile_error (mk_obj []) = None;
  empty_schema_accepts v : schema_error (mk_obj []) v = None;
}.

Section Records.
Context `{JsonLib} `{KeyLibLaws}.

Lemma mapM_as_str xs : mapM as_str (JStr <$> xs) = Some xs.
Proof. apply mapM_Some, Forall2_fmap_l, Forall_Forall2_diag, Forall_true. done. Qed.

Lemma time_field_opt t : from_option time_fits True t → time_field (Some (opt_time t)) = Some t.
Proof. unfold time_field, opt_time. destruct t as [t|]; simpl; [|done]. intros Ht. by rewrite time_roundtrip. Qed.

Lemma record_roundtrip r : key_ok r → record_of_value (record_value r) = Some r.
Proof.
  intros (Hid & Hc & He & Hl). destruct r as [id name hash salt scopes created expires rev used]. simpl in *.
  unfold record_of_value, record_value, str_field. simpl. rewrite Hid. simpl.
  rewrite mapM_as_str. simpl. rewrite time_roundtrip by done. simpl.
  set (j := mk_obj _). assert (json_get j "expires_at" = Some (opt_time expires)) as -> by reflexivity.
  rewrite time_field_opt by done. simpl.
  assert (json_get j "last_used" = Some (opt_time used)) as -> by reflexivity.
  by rewrite time_field_opt.
Qed.

(** The message that stores a record. *)
Definition key_message (stamp : timestamp) (r : ApiKeyRecord) : PipelineMessage :=
  mkMessage (mkMetadata (kr_id r) "core.auth.keys" stamp None []) (Custom (record_value r)).

Lemma record_message `{!EmptySchemaLaws} stamp r : record_to_pipeline_message stamp r = Ok (key_message stamp r).
Proof.
  unfold record_to_pipeline_message, schema_validated_new, permissive_schema.
  by rewrite empty_schema_compiles, empty_schema_accepts.
Qed.

Lemma extract_message stamp r : key_ok r → extract_key_record (key_message stamp r) = Ok r.
Proof. intros Hr. unfold extract_key_record. simpl. by rewrite record_roundtrip. Qed.
End Records.

(** ** The registry of keys *)

Section Registry.
Context `{HmacHex} `{KeyLib}.

Definition reg_put (r : ApiKeyRecord) (rs : list ApiKeyRecord) : list ApiKeyRecord :=
  filter (λ x, kr_id x ≠ kr_id r) rs ++ [r].

Definition reg_find (id : uuid) (rs : list ApiKeyRecord) : option ApiKeyRecord :=
  head (filter (λ r, kr_id r = id) rs).

(** The record a raw key stands for. *)
Fixpoint reg_choose (raw : string) (now : timestamp) (rs : list ApiKeyRecord) : result ApiKeyRecord AuthError :=
  match rs with
  | [] => Err KeyInvalid
  | r :: rs' =>
      match url64_decode (kr_salt r), url64_decode (kr_key_hash r) with
      | Some salt, Some hash =>
          if negb (hmac_verify salt (bytes_of raw) hash) then reg_choose raw now rs'
          else if kr_revoked r || expired now r then Err KeyRevoked else Ok r
      | _, _ => Err KeyInvalid
      end
  end.

Inductive KeyOp : Type :=
| OpCreate (name : string) (scopes : list string) (expires_at : option timestamp)
| OpList
| OpRevoke (id : uuid)
| OpValidate (raw : string).

Inductive KeyAnswer : Type :=
| Created (r : result (string * ApiKeyRecord) AuthError)
| Listed (r : result (list ApiKeyMetadata) AuthError)
| RevokedKey (r : result unit AuthError)
| Validated (r : result AuthIdentity AuthError).

Definition reg_step (op : KeyOp) (d : KeyDraw) (rs : list ApiKeyRecord) : KeyAnswer * list ApiKeyRecord :=
  match op with
  | OpCreate name scopes expires_at =>
      let '(raw, r) := new_record name scopes expires_at d in (Created (Ok (raw, r)), rs ++ [r])
  | OpList => (Listed (Ok (key_metadata <$> rs)), rs)
  | OpRevoke id =>
      match reg_find id rs with
      | None => (RevokedKey (Err KeyInvalid), rs)
      | Some r => (RevokedKey (Ok tt), reg_put (set_revoked r) rs)
      end
  | OpValidate raw =>
      match reg_choose raw (kd_now d) rs with
      | Err e => (Validated (Err e), rs)
      | Ok r => (Validated (Ok (key_identity d r)), reg_put (set_last_used (kd_used d) r) rs)
      end
  end.

Fixpoint reg_run (ops : list (KeyOp * KeyDraw)) (rs : list ApiKeyRecord) : list KeyAnswer * list ApiKeyRecord :=
  match ops with
  | [] => ([], rs)
  | (op, d) :: ops' =>
      let '(a, rs1) := reg_step op d rs in
      let '(answers, rs2) := reg_run ops' rs1 in (a :: answers, rs2)
  end.

(** What a call draws survives serialisation. *)
Definition op_ok (op : KeyOp) (d : KeyDraw) : Prop :=
  uuid_parse (kd_id d) = Some (kd_id d) ∧ time_fits (kd_now d) ∧ time_fits (kd_used d) ∧
  match op with
  | OpCreate _ _ e => from_option time_fits True e
  | _ => True
  end.
End Registry.

Section Steps.
Context `{JsonLib} `{HmacHex} `{KeyLib} {S : Type} `{StorageBackend S}.

Definition key_step (op : KeyOp) (d : KeyDraw) (s : S) : KeyAnswer * S :=
  match op with
  | OpCreate name scopes expires_at => let '(r, s') := create_key name scopes expires_at d s in (Created r, s')
  | OpList => let '(r, s') := list_keys s in (Listed r, s')
  | OpRevoke id => let '(r, s') := revoke_key id d s in (RevokedKey r, s')
  | OpValidate raw => let '(r, s') := validate_key raw d s in (Validated r, s')
  end.

Fixpoint key_run (ops : list (KeyOp * KeyDraw)) (s : S) : list KeyAnswer * S :=
  match ops with
  | [] => ([], s)
  | (op, d) :: ops' =>
      let '(a, s1) := key_step op d s in
      let '(answers, s2) := key_run ops' s1 in (a :: answers, s2)
  end.

(** Over any storage, validation is the choice of a record and the note of its use. *)
Lemma validate_against_choice raw d keys s :
  validate_against raw d keys s =
  match reg_choose raw (kd_now d) keys with
  | Ok r => (Ok (key_identity d r), note_use d r s)
  | Err e => (Err e, s)
  end.
Proof.
  induction keys as [|r keys IH]; [done|]. simpl. destruct (url64_decode (kr_salt r)); [|done].
  destruct (url64_decode (kr_key_hash r)); [|done]. destruct (hmac_verify _ _ _); simpl; [|done].
  destruct (kr_revoked r); [done|]. simpl. by destruct (expired (kd_now d) r).
Qed.
End Steps.

(** ** The tests' storage refines the registry *)

Section Mock.
#[local] Existing Instance mock_storage.
Context `{JsonLib} `{!EmptySchemaLaws} `{HmacHex} `{KeyLibLaws}.

Definition holds (s : list PipelineMessage) (rs : list ApiKeyRecord) : Prop :=
  Forall2 (λ m r, (∃ stamp, m = key_message stamp r) ∧ key_ok r) s rs.

Lemma holds_app s s' rs rs' : holds s rs → holds s' rs' → holds (s ++ s') (rs ++ rs').
Proof. apply Forall2_app. Qed.

Lemma holds_one stamp r : key_ok r → holds [key_message stamp r] [r].
Proof. intros Hr. repeat constructor; [by eexists|apply Hr..]. Qed.

Lemma holds_filter (P : uuid → Prop) `{∀ x, Decision (P x)} s rs :
  holds s rs →
  holds (filter (λ m, P (correlation_id (metadata m))) s) (filter (λ r, P (kr_id r)) rs).
Proof.
  induction 1 as [|m r s rs [[stamp ->] Hr] _ IH]; [constructor|]. rewrite !filter_cons. simpl.
  case_decide; [|done]. constructor; [|done]. split; [by eexists|done].
Qed.

Lemma holds_put stamp r s rs :
  key_ok r → holds s rs → holds (mock_without (kr_id r) s ++ [key_message stamp r]) (reg_put r rs).
Proof.
  intros Hr Hs. apply holds_app; [|by apply holds_one]. unfold mock_without.
  exact (holds_filter (λ x, x ≠ kr_id r) _ _ Hs).
Qed.

Lemma holds_extract s rs : holds s rs → omap (λ m, result_ok (extract_key_record m)) s = rs.
Proof.
  induction 1 as [|m r s rs [[stamp ->] Hr] _ IH]; [done|].
  cbn [omap list_omap]. rewrite extract_message by done. simpl. by rewrite IH.
Qed.

Lemma mock_list s rs : holds s rs → list_key_records s = (Ok rs, s).
Proof.
  intros Hs. unfold list_key_records. simpl. unfold mock_execute. simpl.
  rewrite (list_filter_iff _ (λ _, True)) by done.
  assert (∀ l : list PipelineMessage, filter (λ _, True) l = l) as ->.
  { induction l as [|m l IH]; [done|]. by rewrite filter_cons_True, IH. }
  by rewrite (holds_extract _ _ Hs).
Qed.

Lemma mock_find id s rs :
  holds s rs →
  find_key_by_id id s =
  (match reg_find id rs with Some r => Ok r | None => Err KeyInvalid end, s).
Proof.
  intros Hs. unfold find_key_by_id. simpl. unfold mock_execute. simpl.
  rewrite (list_filter_iff _ (λ m, correlation_id (metadata m) = id))
    by (intros m; unfold mock_matches; simpl; rewrite andb_true_r; apply bool_decide_eq_true).
  pose proof (holds_filter (λ x, x = id) _ _ Hs) as Hf. unfold reg_find. destruct Hf as [|m r s' rs' [[stamp ->] Hr] _]; [done|].
  simpl. by rewrite extract_message.
Qed.

Lemma reg_choose_elem raw now rs r :
  reg_choose raw now rs = Ok r → r ∈ rs ∧ kr_revoked r = false ∧ expired now r = false.
Proof.
  induction rs as [|x rs IH]; [done|]. simpl. destruct (url64_decode (kr_salt x)); [|done].
  destruct (url64_decode (kr_key_hash x)); [|done]. destruct (hmac_verify _ _ _); simpl.
  - destruct (kr_revoked x || expired now x) eqn:E; [done|]. apply orb_false_iff in E as [??].
    intros [= ->]. split; [left|done].
  - intros (? & ? & ?)%IH. split; [by right|done].
Qed.

Lemma reg_find_elem id rs r : reg_find id rs = Some r → r ∈ rs ∧ kr_id r = id.
Proof.
  unfold reg_find. destruct (filter _ rs) as [|x xs] eqn:E; [done|]. intros [= ->].
  assert (r ∈ filter (λ r, kr_id r = id) rs) as Hr by (rewrite E; left).
  by apply list_elem_of_filter in Hr as [? ?].
Qed.

Lemma holds_ok s rs r : holds s rs → r ∈ rs → key_ok r.
Proof. induction 1 as [|m x s rs [_ Hx] _ IH]; [by intros ?%not_elem_of_nil|]. by intros [->|?]%elem_of_cons; auto. Qed.

Lemma key_step_refines op d s rs :
  op_ok op d → holds s rs →
  (key_step op d s).1 = (reg_step op d rs).1 ∧ holds (key_step op d s).2 (reg_step op d rs).2.
Proof.
  intros (Hid & Hnow & Hused & Hop) Hs. destruct op as [name scopes expires| |id|raw]; cbn [key_step reg_step].
  - unfold create_key. destruct (new_record _ _ _ _) as [raw r] eqn:E. rewrite record_message. simpl.
    split; [done|]. apply holds_app; [done|]. apply holds_one. unfold new_record in E. simplify_eq. done.
  - unfold list_keys. by rewrite (mock_list _ _ Hs).
  - unfold revoke_key. rewrite (mock_find id _ _ Hs). destruct (reg_find id rs) as [r|] eqn:E; [|done].
    rewrite record_message. simpl. split; [done|]. apply reg_find_elem in E as [Hr <-].
    apply (holds_put (kd_stamp d) (set_revoked r)); [|done]. exact (holds_ok s rs r Hs Hr).
  - unfold validate_key. rewrite (mock_list _ _ Hs), validate_against_choice.
    destruct (reg_choose raw (kd_now d) rs) as [r|] eqn:E; [|done]. simpl. split; [done|].
    apply reg_choose_elem in E as (Hr & _). unfold note_use. rewrite record_message. simpl.
    apply (holds_put (kd_stamp d) (set_last_used (kd_used d) r)); [|done].
    destruct (holds_ok _ _ _ Hs Hr) as (? & ? & ? & _). done.
Qed.

Lemma key_run_refines ops s rs :
  Forall (λ o, op_ok o.1 o.2) ops → holds s rs →
  (key_run ops s).1 = (reg_run ops rs).1 ∧ holds (key_run ops s).2 (reg_run ops rs).2.
Proof.
  intros Hops. revert s rs. induction Hops as [|[op d] ops Hop _ IH]; intros s rs Hs; [done|]. simpl.
  destruct (key_step_refines op d s rs Hop Hs) as [Ha Hs'].
  destruct (key_step op d s) as [a s1], (reg_step op d rs) as [a' rs1]. simpl in *. subst a'.
  destruct (IH _ _ Hs') as [Has Hs2]. destruct (key_run ops s1) as [as1 s2], (reg_run ops rs1) as [as2 rs2].
  simpl in *. by subst.
Qed.
End Mock.

(** ** Revocation *)

Section Revocation.
Context `{HmacHex} `{KeyLib}.

Definition revoked_in (id : uuid) (rs : list ApiKeyRecord) : Prop :=
  ∀ r, r ∈ rs → kr_id r = id → kr_revoked r = true.

(** An answer lets a key in. *)
Definition admits (id : uuid) (a : KeyAnswer) : Prop :=
  match a with
  | Validated (Ok i) => ai_user_id i = id
  | _ => False
  end.

Definition draws_id (id : uuid) (o : KeyOp * KeyDraw) : Prop :=
  match o.1 with
  | OpCreate _ _ _ => kd_id o.2 = id
  | _ => False
  end.

Lemma revoked_put id r rs :
  revoked_in id rs → (kr_id r = id → kr_revoked r = true) → revoked_in id (reg_put r rs).
Proof.
  intros Hrs Hr x [Hx|Hx%list_elem_of_singleton]%elem_of_app Hid; [|by subst; auto].
  apply list_elem_of_filter in Hx as [_ Hx]. auto.
Qed.

Lemma revoked_step id op d rs :
  revoked_in id rs → ¬ draws_id id (op, d) →
  revoked_in id (reg_step op d rs).2 ∧ ¬ admits id (reg_step op d rs).1.
Proof.
  intros Hrs Hfresh. destruct op as [name scopes expires| |x|raw]; simpl.
  - split; [|tauto]. intros r [Hr|Hr%list_elem_of_singleton]%elem_of_app Hid; [auto|]. by subst r.
  - done.
  - destruct (reg_find x rs) as [r|]; simpl; [|done]. split; [|tauto]. by apply revoked_put.
  - destruct (reg_choose raw (kd_now d) rs) as [r|] eqn:E; simpl; [|done].
    apply reg_choose_elem in E as (Hr & Hrev & _).
    assert (kr_id r ≠ id) as Hne by (intros Hid; specialize (Hrs r Hr Hid); congruence).
    split; [|done]. by apply revoked_put.
Qed.

Lemma revoked_run id ops rs :
  revoked_in id rs → Forall (λ o, ¬ draws_id id o) ops →
  revoked_in id (reg_run ops rs).2 ∧ Forall (λ a, ¬ admits id a) (reg_run ops rs).1.
Proof.
  intros Hrs Hops. revert rs Hrs. induction Hops as [|[op d] ops Hop _ IH]; intros rs Hrs; [by split|]. simpl.
  destruct (revoked_step id op d rs Hrs Hop) as [H1 H2]. destruct (reg_step op d rs) as [a rs1]. simpl in *.
  destruct (IH _ H1) as [H3 H4]. destruct (reg_run ops rs1) as [answers rs2]. simpl in *. auto.
Qed.

Lemma revoke_step_revokes id d rs rs' :
  reg_step (OpRevoke id) d rs = (RevokedKey (Ok tt), rs') → revoked_in id rs'.
Proof.
  simpl. destruct (reg_find id rs) as [r|] eqn:E; intros Hr; simplify_eq.
  apply reg_find_elem in E as [_ <-].
  intros x [Hx|Hx%list_elem_of_singleton]%elem_of_app Hid; [|by subst].
  apply list_elem_of_filter in Hx as [Hne _]. done.
Qed.

(** No record of a list is unlocked by a raw key. *)
Definition unmatched (raw : string) (rs : list ApiKeyRecord) : Prop :=
  Forall (λ r, match url64_decode (kr_salt r), url64_decode (kr_key_hash r) with
               | Some salt, Some hash => hmac_verify salt (bytes_of raw) hash = false
               | _, _ => False
               end) rs.

Lemma reg_choose_last raw now rs r :
  unmatched raw rs → reg_choose raw now (rs ++ [r]) = reg_choose raw now [r].
Proof.
  induction 1 as [|x rs Hx _ IH]; [done|]. rewrite <- app_comm_cons. simpl in *.
  destruct (url64_decode (kr_salt x)); [|done]. destruct (url64_decode (kr_key_hash x)); [|done]. by rewrite Hx.
Qed.

Lemma reg_choose_new `{!KeyLibLaws} name scopes expires d raw r now :
  new_record name scopes expires d = (raw, r) →
  reg_choose raw now [r] = if expired now r then Err KeyRevoked else Ok r.
Proof.
  unfold new_record. intros ?. simplify_eq. simpl. rewrite !url64_roundtrip.
  unfold hmac_verify, hmac_sign. by rewrite bool_decide_eq_true_2.
Qed.
End Revocation.

(** The handlers implement a registry of keys: over a storage that keeps the messages
    it is given, any sequence of creations, listings, revocations and validations is
    answered as by the registry, and the storage holds the registry's records. *)
Theorem keys_refine_registry `{JsonLib} `{!EmptySchemaLaws} `{HmacHex} `{KeyLibLaws} ops s rs :
  Forall (λ o, op_ok o.1 o.2) ops → holds s rs →
  (key_run (H2 := mock_storage) ops s).1 = (reg_run ops rs).1 ∧
  holds (key_run (H2 := mock_storage) ops s).2 (reg_run ops rs).2.
Proof. apply key_run_refines. Qed.

(** A revoked key is refused for good: once revoking it has succeeded, whatever is
    created, listed, revoked or validated afterwards, no validation admits that key. *)
Theorem revoked_key_stays_refused `{JsonLib} `{!EmptySchemaLaws} `{HmacHex} `{KeyLibLaws} id d ops s rs s1 :
  holds s rs → op_ok (OpRevoke id) d → Forall (λ o, op_ok o.1 o.2) ops →
  Forall (λ o, ¬ draws_id id o) ops →
  revoke_key (H2 := mock_storage) id d s = (Ok tt, s1) →
  Forall (λ a, ¬ admits id a) (key_run (H2 := mock_storage) ops s1).1.
Proof.
  intros Hs Hop Hops Hfresh Hr. destruct (key_step_refines (OpRevoke id) d s rs Hop Hs) as [Ha Hs1].
  cbn [key_step] in Ha, Hs1. rewrite Hr in Ha, Hs1. cbn [fst snd] in Ha, Hs1.
  destruct (reg_step (OpRevoke id) d rs) as [a rs1] eqn:E. cbn [fst snd] in Ha, Hs1. subst a.
  apply revoke_step_revokes in E. destruct (key_run_refines ops s1 rs1 Hops Hs1) as [-> _].
  by apply revoked_run.
Qed.

(** A key that was created is valid: presented to a storage whose other keys it does
    not match, it is admitted with its own id and scopes until it expires, and refused
    as revoked after that. *)
Theorem created_key_validates `{JsonLib} `{!EmptySchemaLaws} `{HmacHex} `{KeyLibLaws}
    name scopes expires d d' s rs raw r s1 :
  holds s rs → op_ok (OpCreate name scopes expires) d → unmatched raw rs →
  create_key (H2 := mock_storage) name scopes expires d s = (Ok (raw, r), s1) →
  kr_id r = kd_id d ∧ kr_scopes r = scopes ∧
  (validate_key (H2 := mock_storage) raw d' s1).1 =
    if expired (kd_now d') r then Err KeyRevoked else Ok (key_identity d' r).
Proof.
  intros Hs Hop Hun Hc. destruct (key_step_refines _ _ s rs Hop Hs) as [Ha Hs1].
  cbn [key_step reg_step] in Ha, Hs1. rewrite Hc in Ha, Hs1.
  destruct (new_record name scopes expires d) as [raw' r'] eqn:E. cbn [fst snd] in Ha, Hs1. injection Ha as <- <-.
  assert (kr_id r = kd_id d ∧ kr_scopes r = scopes) as [? ?] by (unfold new_record in E; by simplify_eq).
  split_and!; [done..|]. unfold validate_key. rewrite (mock_list _ _ Hs1), validate_against_choice.
  rewrite reg_choose_last, (reg_choose_new _ _ _ _ _ _ _ E) by done. by destruct (expired _ r).
Qed.

(** ** Storages that check versions *)

(** The contract of [expected_version]: an update succeeds on the version it expects and
    takes the record to the next one. *)
Class VersionedStorage (S : Type) `{StorageBackend S} : Type := {
  version_of : uuid → S → option Z;
  execute_version q id s : version_of id (execute q s).2 = version_of id s;
  update_ok p c id m v s :
    version_of id s = Some v →
    (mutate (MutUpdate p c id m v) s).1 = Ok tt ∧
    version_of id (mutate (MutUpdate p c id m v) s).2 = Some (v + 1)%Z;
  update_conflict p c id m v s :
    version_of id s ≠ Some v →
    is_ok (mutate (MutUpdate p c id m v) s).1 = false ∧
    version_of id (mutate (MutUpdate p c id m v) s).2 = version_of id s;
}.

Section Versions.
Context `{JsonLib} `{!EmptySchemaLaws} `{HmacHex} `{KeyLibLaws} {S : Type} `{VersionedStorage S}.

Lemma list_records_version id s : version_of id (list_key_records s).2 = version_of id s.
Proof.
  unfold list_key_records. pose proof (execute_version list_query id s) as Hv.
  by destruct (execute list_query s).
Qed.

Lemma find_key_version x id s : version_of id (find_key_by_id x s).2 = version_of id s.
Proof.
  unfold find_key_by_id. pose proof (execute_version (id_query x) id s) as Hv.
  by destruct (execute (id_query x) s).
Qed.

(** After a use was noted the record is not at its first version. *)
Lemma note_use_version d r s : version_of (kr_id r) (note_use d r s) ≠ Some 1%Z.
Proof.
  unfold note_use. rewrite record_message. unfold key_update.
  destruct (decide (version_of (kr_id r) s = Some 1%Z)) as [Hv|Hv].
  - rewrite (proj2 (update_ok _ _ _ _ _ _ Hv)). done.
  - by rewrite (proj2 (update_conflict _ _ _ _ _ _ Hv)).
Qed.

Lemma revoke_needs_first id d s : version_of id s ≠ Some 1%Z → is_ok (revoke_key id d s).1 = false.
Proof.
  intros Hv. unfold revoke_key. pose proof (find_key_version id id s) as Hf.
  destruct (find_key_by_id id s) as [[r|] s1]; [|done]. simpl in Hf. rewrite record_message. unfold key_update.
  rewrite <- Hf in Hv.
  destruct (update_conflict AUTH_PLUGIN_ID KEYS_COLLECTION id (key_message (kd_stamp d) (set_revoked r)) 1 s1 Hv)
    as [He _].
  destruct (mutate _ s1) as [[]]; done.
Qed.
End Versions.

(** A key that has been used cannot be revoked, over a storage that checks versions:
    noting the use takes the record past its first version, and every update the handlers
    make expects the first. *)
Theorem used_key_cannot_be_revoked `{JsonLib} `{!EmptySchemaLaws} `{HmacHex} `{KeyLibLaws} {S} `{VersionedStorage S}
    raw d d' i s s' :
  validate_key raw d s = (Ok i, s') → is_ok (revoke_key (ai_user_id i) d' s').1 = false.
Proof.
  unfold validate_key. intros Hv. destruct (list_key_records s) as [[keys|] s1]; [|done].
  rewrite validate_against_choice in Hv. destruct (reg_choose _ _ keys) as [r|]; [|done]. simplify_eq. simpl.
  apply revoke_needs_first. apply note_use_version.
Qed.

(** ** The SQLite backend *)

(** A schema rejects an object without a required member. *)
Class RequiredLaws `{JsonLib} : Prop := {
  required_members schema ks k v :
    json_get schema "required" = Some (JArr ks) → JStr k ∈ ks → is_object v = true →
    json_get v k = None → schema_error schema v ≠ None;
}.

Lemma opt_time_within `{JsonText} `{KeyLib} n t : json_within n (opt_time t).
Proof. by destruct t. Qed.

Lemma strings_within `{JsonText} n xs : json_within (S n) (JArr (JStr <$> xs)).
Proof. apply within_arr, Forall_fmap, Forall_true. done. Qed.

Lemma record_printable `{JsonText} `{KeyLib} r : json_printable (record_value r).
Proof.
  apply printable_mk_obj. intros k v Hin. repeat (apply elem_of_cons in Hin as [Hin|Hin]; [simplify_eq|]).
  all: first [done|apply opt_time_within|apply strings_within|by apply not_elem_of_nil in Hin].
Qed.

Section Sqlite.
Context `{JsonTextLaws} `{RequiredLaws} `{CryptoLib} `{HmacHex} `{CdmSerde} `{BackendSqlLaws} `{KeyLib} (d0 : BackDraw).

(** What the backend reads from credentials are not key records. *)
Lemma credential_no_record m v : payload m = Cdm (CdmCredential v) → result_ok (extract_key_record m) = None.
Proof. intros Hm. unfold extract_key_record. by rewrite Hm. Qed.

Lemma credential_payload data key p :
  parse_payload KEYS_COLLECTION data key = Ok p → ∃ v, p = Cdm (CdmCredential v).
Proof.
  unfold parse_payload. cbn. destruct (decrypt_credential key data) as [t|]; [|done]. simpl.
  destruct (cdm_from_str _ t) as [v|]; [|done]. simpl. intros [= <-]. by exists v.
Qed.

Lemma sqlite_messages q s ms s' :
  plain_query q → sq_collection q = KEYS_COLLECTION → execute (StorageBackend := sqlite_storage d0) q s = (Ok ms, s') →
  Forall (λ m, result_ok (extract_key_record m) = None) ms.
Proof.
  intros Hq Hc He. simpl in He. unfold sqlite_execute in He.
  destruct (execute_query q _ (s.1)) as [[ms'|] s1] eqn:E; [|done]. simplify_eq/=.
  unfold execute_query in E. destruct (query_rows_exact q (ss_rows s.1) Hq) as (rs & Hrows & Hpage).
  destruct (query_statement q) as [st params]. rewrite Hrows in E.
  destruct (read_rows _ _ _ _ rs _) as [r log] eqn:Er. simplify_eq.
  assert (Forall (λ r, r_collection r = KEYS_COLLECTION) rs) as Hcol.
  { apply Forall_forall. intros r Hr. eapply page_of_elem in Hr; [|exact Hpage].
    apply list_elem_of_filter in Hr as [[Hr _] _]. congruence. }
  apply read_rows_ok in Er. clear Hrows Hpage. revert Hcol.
  induction Er as [|r m rs' ms [Hp _] _ IH]; [constructor|]. intros [Hr Hcol]%Forall_cons. constructor; [|auto].
  rewrite Hr in Hp. apply credential_payload in Hp as [v Hv]. by eapply credential_no_record.
Qed.

Lemma sqlite_lists_none s ks : (list_key_records (H2 := sqlite_storage d0) s).1 = Ok ks → ks = [].
Proof.
  unfold list_key_records. destruct (execute list_query s) as [[ms|] s'] eqn:E; [|done]. simpl. intros [= <-].
  apply sqlite_messages in E; [|repeat split; first [constructor|simpl; lia]|done].
  induction E as [|m ms Hm _ IH]; [done|]. cbn [omap list_omap]. by rewrite Hm.
Qed.

Lemma sqlite_finds_none id s : is_ok (find_key_by_id (H2 := sqlite_storage d0) id s).1 = false.
Proof.
  unfold find_key_by_id. destruct (execute (id_query id) s) as [[ms|] s'] eqn:E; [|done]. simpl.
  apply sqlite_messages in E;
    [|split; [|split; [|split]]; first [constructor|simpl; lia]; [done|constructor]|done].
  destruct E as [|m ms Hm _]; [done|]. simpl. by destruct (extract_key_record m).
Qed.

Lemma sqlite_refuses_record p r stamp d s :
  (execute_mutation (MutInsert p KEYS_COLLECTION (key_message stamp r)) d s).2 = s ∧
  ∃ e, (execute_mutation (MutInsert p KEYS_COLLECTION (key_message stamp r)) d s).1 = Returned (Err e).
Proof.
  simpl. unfold insert_record, validate_write, validate_canonical, serialize_payload. simpl.
  rewrite json_print_parse by apply record_printable. simpl. unfold validate_with.
  rewrite json_print_parse by apply record_printable. simpl.
  assert (schema_error CREDENTIALS_SCHEMA (record_value r) ≠ None) as Hne.
  { eapply (required_members _ _ "service"); [reflexivity| |reflexivity|reflexivity].
    apply (bool_decide_unpack _). vm_compute. exact I. }
  destruct (schema_error CREDENTIALS_SCHEMA (record_value r)); [|done]. simpl. split; [done|]. by eexists.
Qed.
End Sqlite.

(** Behind the queries and mutations of the SQLite backend there are no API keys: creating one is refused by the
    schema of credentials and stores nothing, no stored credential is read as a key, so
    lists are empty, and no key can be revoked or validated. *)
Theorem sqlite_has_no_api_keys `{JsonTextLaws} `{RequiredLaws} `{!EmptySchemaLaws} `{CryptoLib} `{HmacHex} `{CdmSerde}
    `{BackendSqlLaws} `{KeyLib} d0 name scopes expires id raw d (s : SqliteStorage * list BackDraw) :
  is_ok (create_key (H2 := sqlite_storage d0) name scopes expires d s).1 = false ∧
  ss_rows (create_key (H2 := sqlite_storage d0) name scopes expires d s).2.1 = ss_rows s.1 ∧
  (∀ ks, (list_keys (H2 := sqlite_storage d0) s).1 = Ok ks → ks = []) ∧
  is_ok (revoke_key (H2 := sqlite_storage d0) id d s).1 = false ∧
  is_ok (validate_key (H2 := sqlite_storage d0) raw d s).1 = false.
Proof.
  pose proof (sqlite_lists_none d0 s) as Hl. pose proof (sqlite_finds_none d0 id s) as Hf. split_and!.
  - unfold create_key. destruct (new_record _ _ _ _) as [raw' r]. rewrite record_message.
    destruct (sqlite_refuses_record AUTH_PLUGIN_ID r (kd_stamp d) (default d0 (head s.2)) s.1) as [_ [e He]].
    simpl. unfold sqlite_mutate. destruct (execute_mutation _ _ _) as [o s']. simpl in He. by subst o.
  - unfold create_key. destruct (new_record _ _ _ _) as [raw' r]. rewrite record_message.
    destruct (sqlite_refuses_record AUTH_PLUGIN_ID r (kd_stamp d) (default d0 (head s.2)) s.1) as [Hs [e He]].
    simpl. unfold sqlite_mutate. destruct (execute_mutation _ _ _) as [o s']. simpl in He, Hs. by subst.
  - unfold list_keys. destruct (list_key_records s) as [[ks|] s']; simpl in *; [|done].
    intros ks' [= <-]. by rewrite (Hl ks).
  - unfold revoke_key. by destruct (find_key_by_id id s) as [[]].
  - unfold validate_key. destruct (list_key_records s) as [[ks|] s']; simpl in *; [|done]. by rewrite (Hl ks).
Qed.

(** ** Instances for witnesses *)

Definition toy_key_lib : KeyLib := {|
  url64_encode b := String.string_of_list_byte b;
  url64_decode s := Some (String.list_byte_of_string s);
  time_text t := bits (encode t);
  time_parse s := decode (unbits s);
  uuid_parse s := Some s;
  serde_reason _ := empty_str;
|}.

Lemma toy_key_laws : @KeyLibLaws toy_key_lib.
Proof.
  split.
  - intros b. simpl. by rewrite String.list_byte_of_string_of_list_byte.
  - intros t _. simpl. by rewrite unbits_bits, decode_encode.
Qed.

Lemma lax_empty_schema : @EmptySchemaLaws lax_lib.
Proof. by split. Qed.

Definition morning : KeyDraw := mkKeyDraw ["001"%byte] ["002"%byte] "k1" 10 10 10 10.
Definition noon : KeyDraw := mkKeyDraw ["003"%byte] ["004"%byte] "k2" 20 20 20 20.
Definition first_raw : string := @url64_encode toy_key_lib ["001"%byte].

(** A key is created, used, revoked and tried again, beside another. *)
Definition key_day : list (KeyOp * KeyDraw) :=
  [(OpCreate "cli" ["read"%string] None, morning); (OpCreate "web" [] (Some 15%Z), noon);
   (OpValidate first_raw, noon); (OpRevoke "k1", noon); (OpValidate first_raw, noon); (OpList, noon)].

Lemma key_day_ok : Forall (λ o, @op_ok toy_key_lib o.1 o.2) key_day.
Proof. repeat constructor; simpl; unfold time_fits; lia. Qed.

Lemma keys_refine_registry_witness :
  let answers := (@key_run lax_lib toy_hmac toy_key_lib _ mock_storage key_day []).1 in
  answers = (@reg_run toy_hmac toy_key_lib key_day []).1 ∧
  answers !! 2 = Some (Validated (Ok (mkIdentity "k1" "api-key" ["read"%string] 20%Z))) ∧
  answers !! 4 = Some (Validated (Err KeyRevoked)).
Proof.
  assert (@holds toy_key_lib [] []) as Hs by constructor.
  pose proof (@keys_refine_registry lax_lib lax_empty_schema toy_hmac toy_key_lib toy_key_laws key_day [] [] key_day_ok Hs)
    as [Ha _].
  split; [exact Ha|]. split; vm_compute; reflexivity.
Defined.

Definition two_keys : list PipelineMessage * list ApiKeyRecord :=
  let '(_, r) := @new_record toy_hmac toy_key_lib "cli" ["read"%string] None morning in
  ([@key_message toy_key_lib 10 r], [r]).

Lemma two_keys_holds : @holds toy_key_lib two_keys.1 two_keys.2.
Proof. repeat constructor; first [by eexists|simpl; unfold time_fits; lia]. Qed.

Lemma revoked_key_stays_refused_witness :
  ∃ s1, @revoke_key lax_lib toy_key_lib _ mock_storage "k1" noon two_keys.1 = (Ok tt, s1) ∧
    Forall (λ a, ¬ admits "k1" a)
      (@key_run lax_lib toy_hmac toy_key_lib _ mock_storage
         [(OpValidate first_raw, noon); (OpCreate "web" [] None, noon); (OpValidate first_raw, noon)] s1).1.
Proof.
  eexists. split; [vm_compute; reflexivity|].
  eapply (@revoked_key_stays_refused lax_lib lax_empty_schema toy_hmac toy_key_lib toy_key_laws "k1" noon _
    two_keys.1 two_keys.2); [exact two_keys_holds| | | |vm_compute; reflexivity].
  - repeat split; simpl; unfold time_fits; lia.
  - repeat constructor; simpl; unfold time_fits; lia.
  - repeat constructor; vm_compute; first [tauto|discriminate].
Defined.

Lemma created_key_validates_witness :
  let '(c, s1) := @create_key lax_lib toy_hmac toy_key_lib _ mock_storage "web" ["write"%string] (Some 15%Z) noon two_keys.1 in
  ∃ raw r, c = Ok (raw, r) ∧
    (@validate_key lax_lib toy_hmac toy_key_lib _ mock_storage raw noon s1).1 = Err KeyRevoked ∧
    (@validate_key lax_lib toy_hmac toy_key_lib _ mock_storage raw morning s1).1 = Ok (key_identity morning r).
Proof.
  destruct (create_key _ _ _ _ _) as [c s1] eqn:E. destruct c as [[raw r]|]; [|vm_compute in E; discriminate].
  exists raw, r. split; [reflexivity|].
  pose proof (λ d', @created_key_validates lax_lib lax_empty_schema toy_hmac toy_key_lib toy_key_laws "web" ["write"%string]
    (Some 15%Z) noon d' two_keys.1 two_keys.2 raw r s1 two_keys_holds) as Hc.
  assert (@op_ok toy_key_lib (OpCreate "web" ["write"%string] (Some 15%Z)) noon) as Hop
    by (repeat split; simpl; unfold time_fits; lia).
  assert (@unmatched toy_hmac toy_key_lib raw two_keys.2) as Hun.
  { vm_compute in E. injection E as <- _ _. constructor; [vm_compute; reflexivity|constructor]. }
  split; [rewrite (proj2 (proj2 (Hc noon Hop Hun E)))|rewrite (proj2 (proj2 (Hc morning Hop Hun E)))].
  all: vm_compute in E; injection E as _ <- _; vm_compute; reflexivity.
Defined.

(** Messages with their versions, by id. *)
Abbreviation VersionedMock := (gmap uuid (Z * PipelineMessage)) (only parsing).

Definition versioned_mutate (m : StorageMutation) (s : VersionedMock) : result unit string * VersionedMock :=
  match m with
  | MutInsert _ _ data => (Ok tt, <[correlation_id (metadata data) := (1%Z, data)]> s)
  | MutUpdate _ _ id data v =>
      if bool_decide (fst <$> s !! id = Some v) then (Ok tt, <[id := ((v + 1)%Z, data)]> s)
      else (Err "conflict"%string, s)
  | MutDelete _ _ id => (Ok tt, delete id s)
  end.

Definition versioned_mock : StorageBackend VersionedMock :=
  Build_StorageBackend _ (λ q s, ((mock_execute q (map_to_list s).*2.*2).1, s)) versioned_mutate.

Definition versioned_mock_laws : @VersionedStorage VersionedMock versioned_mock.
Proof.
  refine (@Build_VersionedStorage _ versioned_mock (λ id s, fst <$> s !! id) _ _ _).
  - done.
  - intros p c id m v s Hv. simpl. rewrite bool_decide_eq_true_2 by done. simpl. by rewrite lookup_insert_eq.
  - intros p c id m v s Hv. simpl. by rewrite bool_decide_eq_false_2.
Defined.

Definition versioned_key : VersionedMock := {["k1"%string := (1%Z, default (@key_message toy_key_lib 0
  (mkKeyRecord "" "" "" "" [] 0 None false None)) (head two_keys.1))]}.

Lemma used_key_cannot_be_revoked_witness :
  ∃ i s', @validate_key lax_lib toy_hmac toy_key_lib _ versioned_mock first_raw noon versioned_key = (Ok i, s') ∧
    is_ok (@revoke_key lax_lib toy_key_lib _ versioned_mock (ai_user_id i) noon s').1 = false ∧
    is_ok (@revoke_key lax_lib toy_key_lib _ versioned_mock (ai_user_id i) noon versioned_key).1 = true.
Proof.
  destruct (validate_key first_raw noon versioned_key) as [[i|] s'] eqn:E; [|vm_compute in E; discriminate].
  exists i, s'. split; [reflexivity|]. split.
  - exact (@used_key_cannot_be_revoked lax_lib lax_empty_schema toy_hmac toy_key_lib toy_key_laws _ versioned_mock
      versioned_mock_laws first_raw noon noon i versioned_key s' E).
  - vm_compute in E. injection E as <- _. vm_compute. reflexivity.
Defined.

(** A validator that checks required members. *)
Definition lacks_member (schema v : json) : bool :=
  match json_get schema "required" with
  | Some (JArr ks) =>
      is_object v && existsb (λ k, match k with
                                   | JStr k => bool_decide (json_get v k = None)
                                   | _ => false
                                   end) ks
  | _ => false
  end.

Definition required_lib : JsonLib := {|
  schema_compile_error _ := None;
  schema_error schema v := if lacks_member schema v then Some "a required property is missing"%string else None;
  payload_to_string _ := empty_str;
|}.

Lemma required_lib_laws : @RequiredLaws required_lib.
Proof.
  split. intros schema ks k v Hr Hk Ho Hg. simpl. unfold lacks_member. rewrite Hr, Ho. simpl.
  assert (existsb (λ k, match k with JStr k => bool_decide (json_get v k = None) | _ => false end) ks = true) as ->; [|done].
  apply existsb_elem_of. exists (JStr k). split; [done|]. by rewrite bool_decide_eq_true_2.
Qed.

Lemma required_lib_empty : @EmptySchemaLaws required_lib.
Proof. by split. Qed.

Lemma sqlite_has_no_api_keys_witness :
  is_ok (@create_key required_lib toy_hmac toy_key_lib _
    (@sqlite_storage coded_text required_lib toy_crypto toy_hmac toy_cdm toy_sqlite toy_backend (toy_draw "r"))
    "cli" [] None morning (toy_store [] [], [])).1 = false.
Proof.
  exact (proj1 (@sqlite_has_no_api_keys coded_text coded_text_laws required_lib required_lib_laws required_lib_empty
    toy_crypto toy_hmac toy_cdm toy_sqlite toy_backend toy_backend_laws toy_key_lib
    (toy_draw "r") "cli" [] None "k1" first_raw morning (toy_store [] [], []))).
Defined.
