(* ===== verification/Config.v ===== *)
(** * Configuration of the core

    apps/core/src/config.rs: the settings with their defaults, loading them from a YAML
    file, environment variables and the command line, validation, redaction and merging;
    [PgSslMode] of pg_storage.rs; and the configuration routes of routes/system.rs. The
    YAML reader and printer and the home directory are parameters; the environment is a
    function, and file system failures are inputs. Warnings are left out. *)

From stdpp Require Import base tactics list strings gmap.
From Stdlib Require Import Ascii ZArith Lia.
From S2P Require Import Prelude RustString Json.

Local Open Scope string_scope.

(** ** Settings *)

Inductive PgSslMode : Type := Disable | Prefer | Require_.

Definition ssl_mode_str (m : PgSslMode) : string :=
  match m with
  | Disable => "disable"
  | Prefer => "prefer"
  | Require_ => "require"
  end.

Definition ssl_mode_of (s : string) : option PgSslMode :=
  if bool_decide (s = "disable") then Some Disable
  else if bool_decide (s = "prefer") then Some Prefer
  else if bool_decide (s = "require") then Some Require_
  else None.

(** [FromStr]. *)
Definition parse_ssl_mode (s : string) : option PgSslMode := ssl_mode_of (to_lowercase s).

(** [cs_log_modules] lists the entries of a map in key order. *)
Record CoreSettings : Type := mkCoreSettings {
  cs_host : string;
  cs_port : Z;
  cs_log_level : string;
  cs_log_format : string;
  cs_log_modules : list (string * string);
  cs_data_dir : string;
}.

Record OidcSettings : Type := mkOidcSettings {
  os_issuer_url : string;
  os_client_id : string;
  os_client_secret : option string;
  os_jwks_uri : option string;
  os_audience : option string;
}.

Record WebAuthnSettings : Type := mkWebAuthnSettings {
  wa_rp_name : string;
  wa_rp_id : string;
  wa_rp_origin : string;
  wa_challenge_ttl_secs : Z;
}.

Record AuthSettings : Type := mkAuthSettings {
  as_provider : string;
  as_oidc : option OidcSettings;
  as_webauthn : option WebAuthnSettings;
}.

Record Argon2Settings : Type := mkArgon2Settings {
  a2_memory_mb : Z;
  a2_iterations : Z;
  a2_parallelism : Z;
}.

Record PostgresSettings : Type := mkPostgresSettings {
  pg_host : string;
  pg_port : Z;
  pg_dbname : string;
  pg_user : string;
  pg_password : option string;
  pg_pool_size : Z;
  pg_ssl_mode : PgSslMode;
}.

Record StorageSettings : Type := mkStorageSettings {
  st_backend : string;
  st_encryption : bool;
  st_passphrase : option string;
  st_argon2 : Argon2Settings;
  st_postgres : option PostgresSettings;
}.

Record PluginSettings : Type := mkPluginSettings {
  ps_paths : list string;
  ps_auto_enable : bool;
}.

Record TlsSettings : Type := mkTlsSettings {
  tls_enabled : bool;
  tls_cert_path : string;
  tls_key_path : string;
}.

Record NetworkSettings : Type := mkNetworkSettings {
  ns_behind_proxy : bool;
  ns_tls : TlsSettings;
  ns_cors_origins : list string;
  ns_requests_per_minute : Z;
}.

Record CoreConfig : Type := mkCoreConfig {
  cc_core : CoreSettings;
  cc_auth : AuthSettings;
  cc_storage : StorageSettings;
  cc_plugins : PluginSettings;
  cc_network : NetworkSettings;
}.

(** ** Defaults *)

(** [Path::join] with a relative path. *)
Definition path_join (dir file : string) : string :=
  if ends_with dir "/" || is_empty dir then dir +:+ file else dir +:+ "/" +:+ file.

Definition default_data_dir (home : option string) : string :=
  match home with
  | Some h => path_join h ".life-engine/data"
  | None => "~/.life-engine/data"
  end.

Definition default_core (home : option string) : CoreSettings :=
  mkCoreSettings "127.0.0.1" 3750 "info" "json" [] (default_data_dir home).
Definition default_auth : AuthSettings := mkAuthSettings "local-token" None None.
Definition default_argon2 : Argon2Settings := mkArgon2Settings 64 3 4.
Definition default_postgres : PostgresSettings :=
  mkPostgresSettings "localhost" 5432 "life_engine" "life_engine" None 16 Require_.
Definition default_storage : StorageSettings := mkStorageSettings "sqlite" true None default_argon2 None.
Definition default_plugins : PluginSettings := mkPluginSettings [] false.
Definition default_tls : TlsSettings := mkTlsSettings false empty_str empty_str.
Definition default_cors_origins : list string := ["http://localhost:3750"].
Definition default_network : NetworkSettings := mkNetworkSettings false default_tls default_cors_origins 60.
Definition default_oidc : OidcSettings := mkOidcSettings empty_str empty_str None None None.
Definition default_webauthn_challenge_ttl : Z := 300.
Definition default_webauthn : WebAuthnSettings :=
  mkWebAuthnSettings empty_str empty_str empty_str default_webauthn_challenge_ttl.

Definition default_config (home : option string) : CoreConfig :=
  mkCoreConfig (default_core home) default_auth default_storage default_plugins default_network.

(** ** Assignments *)

Definition on_core (f : CoreSettings → CoreSettings) (c : CoreConfig) : CoreConfig :=
  mkCoreConfig (f (cc_core c)) (cc_auth c) (cc_storage c) (cc_plugins c) (cc_network c).
Definition on_auth (f : AuthSettings → AuthSettings) (c : CoreConfig) : CoreConfig :=
  mkCoreConfig (cc_core c) (f (cc_auth c)) (cc_storage c) (cc_plugins c) (cc_network c).
Definition on_storage (f : StorageSettings → StorageSettings) (c : CoreConfig) : CoreConfig :=
  mkCoreConfig (cc_core c) (cc_auth c) (f (cc_storage c)) (cc_plugins c) (cc_network c).
Definition on_network (f : NetworkSettings → NetworkSettings) (c : CoreConfig) : CoreConfig :=
  mkCoreConfig (cc_core c) (cc_auth c) (cc_storage c) (cc_plugins c) (f (cc_network c)).

Definition set_host (v : string) : CoreConfig → CoreConfig := on_core (λ s,
  mkCoreSettings v (cs_port s) (cs_log_level s) (cs_log_format s) (cs_log_modules s) (cs_data_dir s)).
Definition set_port (v : Z) : CoreConfig → CoreConfig := on_core (λ s,
  mkCoreSettings (cs_host s) v (cs_log_level s) (cs_log_format s) (cs_log_modules s) (cs_data_dir s)).
Definition set_log_level (v : string) : CoreConfig → CoreConfig := on_core (λ s,
  mkCoreSettings (cs_host s) (cs_port s) v (cs_log_format s) (cs_log_modules s) (cs_data_dir s)).
Definition set_log_format (v : string) : CoreConfig → CoreConfig := on_core (λ s,
  mkCoreSettings (cs_host s) (cs_port s) (cs_log_level s) v (cs_log_modules s) (cs_data_dir s)).
Definition set_data_dir (v : string) : CoreConfig → CoreConfig := on_core (λ s,
  mkCoreSettings (cs_host s) (cs_port s) (cs_log_level s) (cs_log_format s) (cs_log_modules s) v).

Definition set_provider (v : string) : CoreConfig → CoreConfig :=
  on_auth (λ a, mkAuthSettings v (as_oidc a) (as_webauthn a)).
(** [get_or_insert] and a change in place. *)
Definition on_oidc (f : OidcSettings → OidcSettings) : CoreConfig → CoreConfig :=
  on_auth (λ a, mkAuthSettings (as_provider a) (Some (f (default default_oidc (as_oidc a)))) (as_webauthn a)).
Definition on_webauthn (f : WebAuthnSettings → WebAuthnSettings) : CoreConfig → CoreConfig :=
  on_auth (λ a, mkAuthSettings (as_provider a) (as_oidc a) (Some (f (default default_webauthn (as_webauthn a))))).
Definition on_postgres (f : PostgresSettings → PostgresSettings) : CoreConfig → CoreConfig :=
  on_storage (λ s, mkStorageSettings (st_backend s) (st_encryption s) (st_passphrase s) (st_argon2 s)
                     (Some (f (default default_postgres (st_postgres s))))).
Definition set_backend (v : string) : CoreConfig → CoreConfig := on_storage (λ s,
  mkStorageSettings v (st_encryption s) (st_passphrase s) (st_argon2 s) (st_postgres s)).
Definition set_encryption (v : bool) : CoreConfig → CoreConfig := on_storage (λ s,
  mkStorageSettings (st_backend s) v (st_passphrase s) (st_argon2 s) (st_postgres s)).
Definition set_rate_limit (v : Z) : CoreConfig → CoreConfig := on_network (λ n,
  mkNetworkSettings (ns_behind_proxy n) (ns_tls n) (ns_cors_origins n) v).
Definition set_behind_proxy (v : bool) : CoreConfig → CoreConfig := on_network (λ n,
  mkNetworkSettings v (ns_tls n) (ns_cors_origins n) (ns_requests_per_minute n)).
Definition set_origins (v : list string) : CoreConfig → CoreConfig := on_network (λ n,
  mkNetworkSettings (ns_behind_proxy n) (ns_tls n) v (ns_requests_per_minute n)).
Definition on_tls (f : TlsSettings → TlsSettings) : CoreConfig → CoreConfig := on_network (λ n,
  mkNetworkSettings (ns_behind_proxy n) (f (ns_tls n)) (ns_cors_origins n) (ns_requests_per_minute n)).

(** ** Environment variables *)

Definition Env : Type := string → option string.

Definition parse_uint (max : Z) (s : string) : option Z :=
  n ← parse_u64 s; if (n <=? max)%Z then Some n else None.

Definition U16_MAX : Z := 65535.
Definition U32_MAX : Z := 4294967295.
Definition U64_MAX : Z := 18446744073709551615.

Definition parse_bool (s : string) : option bool :=
  if bool_decide (s = "true") then Some true
  else if bool_decide (s = "false") then Some false
  else None.

(** [if let Ok(val) = env::var(k) && let Ok(v) = val.parse() { .. }]. *)
Definition override {A} (env : Env) (k : string) (parse : string → option A) (set : A → CoreConfig → CoreConfig)
    (c : CoreConfig) : CoreConfig :=
  match env k ≫= parse with
  | Some v => set v c
  | None => c
  end.

Definition any_set (env : Env) (ks : list string) : bool := existsb (λ k, bool_decide (is_Some (env k))) ks.

Definition OIDC_VARS : list string :=
  ["LIFE_ENGINE_OIDC_ISSUER_URL"; "LIFE_ENGINE_OIDC_CLIENT_ID"; "LIFE_ENGINE_OIDC_CLIENT_SECRET"].
Definition WEBAUTHN_VARS : list string :=
  ["LIFE_ENGINE_WEBAUTHN_RP_NAME"; "LIFE_ENGINE_WEBAUTHN_RP_ID"; "LIFE_ENGINE_WEBAUTHN_RP_ORIGIN";
   "LIFE_ENGINE_WEBAUTHN_CHALLENGE_TTL"].

Definition core_overrides (env : Env) (c : CoreConfig) : CoreConfig :=
  let c := override env "LIFE_ENGINE_CORE_HOST" Some set_host c in
  let c := override env "LIFE_ENGINE_CORE_PORT" (parse_uint U16_MAX) set_port c in
  let c := override env "LIFE_ENGINE_CORE_LOG_LEVEL" Some set_log_level c in
  let c := override env "LIFE_ENGINE_CORE_LOG_FORMAT" Some set_log_format c in
  let c := override env "LIFE_ENGINE_CORE_DATA_DIR" Some set_data_dir c in
  override env "LIFE_ENGINE_AUTH_PROVIDER" Some set_provider c.

Definition oidc_overrides (env : Env) (c : CoreConfig) : CoreConfig :=
  if negb (any_set env OIDC_VARS) then c else
  let c := on_oidc id c in
  let c := override env "LIFE_ENGINE_OIDC_ISSUER_URL" Some (λ v, on_oidc (λ o,
    mkOidcSettings v (os_client_id o) (os_client_secret o) (os_jwks_uri o) (os_audience o))) c in
  let c := override env "LIFE_ENGINE_OIDC_CLIENT_ID" Some (λ v, on_oidc (λ o,
    mkOidcSettings (os_issuer_url o) v (os_client_secret o) (os_jwks_uri o) (os_audience o))) c in
  override env "LIFE_ENGINE_OIDC_CLIENT_SECRET" Some (λ v, on_oidc (λ o,
    mkOidcSettings (os_issuer_url o) (os_client_id o) (Some v) (os_jwks_uri o) (os_audience o))) c.

Definition webauthn_overrides (env : Env) (c : CoreConfig) : CoreConfig :=
  if negb (any_set env WEBAUTHN_VARS) then c else
  let c := on_webauthn id c in
  let c := override env "LIFE_ENGINE_WEBAUTHN_RP_NAME" Some (λ v, on_webauthn (λ w,
    mkWebAuthnSettings v (wa_rp_id w) (wa_rp_origin w) (wa_challenge_ttl_secs w))) c in
  let c := override env "LIFE_ENGINE_WEBAUTHN_RP_ID" Some (λ v, on_webauthn (λ w,
    mkWebAuthnSettings (wa_rp_name w) v (wa_rp_origin w) (wa_challenge_ttl_secs w))) c in
  let c := override env "LIFE_ENGINE_WEBAUTHN_RP_ORIGIN" Some (λ v, on_webauthn (λ w,
    mkWebAuthnSettings (wa_rp_name w) (wa_rp_id w) v (wa_challenge_ttl_secs w))) c in
  override env "LIFE_ENGINE_WEBAUTHN_CHALLENGE_TTL" (parse_uint U64_MAX) (λ v, on_webauthn (λ w,
    mkWebAuthnSettings (wa_rp_name w) (wa_rp_id w) (wa_rp_origin w) v)) c.

Definition storage_overrides (env : Env) (c : CoreConfig) : CoreConfig :=
  let c := override env "LIFE_ENGINE_STORAGE_BACKEND" Some set_backend c in
  let c := override env "LIFE_ENGINE_STORAGE_ENCRYPTION" parse_bool set_encryption c in
  let c := override env "LIFE_ENGINE_PG_HOST" Some (λ v, on_postgres (λ p,
    mkPostgresSettings v (pg_port p) (pg_dbname p) (pg_user p) (pg_password p) (pg_pool_size p) (pg_ssl_mode p))) c in
  let c := override env "LIFE_ENGINE_PG_PORT" (parse_uint U16_MAX) (λ v, on_postgres (λ p,
    mkPostgresSettings (pg_host p) v (pg_dbname p) (pg_user p) (pg_password p) (pg_pool_size p) (pg_ssl_mode p))) c in
  let c := override env "LIFE_ENGINE_PG_DBNAME" Some (λ v, on_postgres (λ p,
    mkPostgresSettings (pg_host p) (pg_port p) v (pg_user p) (pg_password p) (pg_pool_size p) (pg_ssl_mode p))) c in
  let c := override env "LIFE_ENGINE_PG_USER" Some (λ v, on_postgres (λ p,
    mkPostgresSettings (pg_host p) (pg_port p) (pg_dbname p) v (pg_password p) (pg_pool_size p) (pg_ssl_mode p))) c in
  let c := override env "LIFE_ENGINE_PG_PASSWORD" Some (λ v, on_postgres (λ p,
    mkPostgresSettings (pg_host p) (pg_port p) (pg_dbname p) (pg_user p) (Some v) (pg_pool_size p) (pg_ssl_mode p))) c in
  override env "LIFE_ENGINE_PG_SSLMODE" parse_ssl_mode (λ v, on_postgres (λ p,
    mkPostgresSettings (pg_host p) (pg_port p) (pg_dbname p) (pg_user p) (pg_password p) (pg_pool_size p) v)) c.

Definition origins_of (val : string) : list string :=
  filter (λ s, is_empty s = false) (trim <$> split "," val).

Definition network_overrides (env : Env) (c : CoreConfig) : CoreConfig :=
  let c := override env "LIFE_ENGINE_NETWORK_RATE_LIMIT" (parse_uint U32_MAX) set_rate_limit c in
  let c := override env "LIFE_ENGINE_BEHIND_PROXY" parse_bool set_behind_proxy c in
  let c := override env "LIFE_ENGINE_TLS_ENABLED" parse_bool (λ v, on_tls (λ t,
    mkTlsSettings v (tls_cert_path t) (tls_key_path t))) c in
  let c := override env "LIFE_ENGINE_TLS_CERT_PATH" Some (λ v, on_tls (λ t,
    mkTlsSettings (tls_enabled t) v (tls_key_path t))) c in
  let c := override env "LIFE_ENGINE_TLS_KEY_PATH" Some (λ v, on_tls (λ t,
    mkTlsSettings (tls_enabled t) (tls_cert_path t) v)) c in
  override env "LIFE_ENGINE_CORS_ORIGINS" Some (λ v, set_origins (origins_of v)) c.

Definition apply_env_overrides (env : Env) (c : CoreConfig) : CoreConfig :=
  network_overrides env (storage_overrides env (webauthn_overrides env (oidc_overrides env (core_overrides env c)))).

Definition resolve_passphrase (env : Env) (s : StorageSettings) : option string :=
  match env "LIFE_ENGINE_STORAGE_PASSPHRASE" with
  | Some v => if is_empty v then st_passphrase s else Some v
  | None => st_passphrase s
  end.

(** ** Command line *)

Record CliArgs : Type := mkCliArgs {
  cli_config : string;
  cli_host : option string;
  cli_port : option Z;
  cli_log_level : option string;
  cli_log_format : option string;
  cli_data_dir : option string;
}.

Definition cli_override {A} (v : option A) (set : A → CoreConfig → CoreConfig) (c : CoreConfig) : CoreConfig :=
  match v with
  | Some a => set a c
  | None => c
  end.

Definition apply_cli_overrides (cli : CliArgs) (c : CoreConfig) : CoreConfig :=
  let c := cli_override (cli_host cli) set_host c in
  let c := cli_override (cli_port cli) set_port c in
  let c := cli_override (cli_log_level cli) set_log_level c in
  let c := cli_override (cli_log_format cli) set_log_format c in
  cli_override (cli_data_dir cli) set_data_dir c.

(** ** Validation *)

(** [CoreError::Config]: the error is its message. *)
Definition config_error (m : string) : string := "config error: " +:+ m.

Definition QUOTE : string := String (ascii_of_nat 34) empty_str.

(** [{:?}] of a list of plain words. *)
Definition debug_words (ws : list string) : string :=
  "[" +:+ join ", " ((λ w, QUOTE +:+ w +:+ QUOTE) <$> ws) +:+ "]".

Definition VALID_LEVELS : list string := ["trace"; "debug"; "info"; "warn"; "error"].
Definition VALID_FORMATS : list string := ["json"; "pretty"].
Definition VALID_PROVIDERS : list string := ["local-token"; "oidc"; "webauthn"].
Definition VALID_BACKENDS : list string := ["sqlite"; "postgres"].

Definition is_localhost (host : string) : bool :=
  bool_decide (host = "127.0.0.1") || bool_decide (host = "localhost") || bool_decide (host = "::1").

Definition one_of (words : list string) (v : string) : bool := contains words (to_lowercase v).

Definition invalid_choice (field v : string) (words : list string) : string :=
  "invalid " +:+ field +:+ " '" +:+ v +:+ "', must be one of: " +:+ debug_words words.

Definition misses {A} (o : option A) : bool := match o with Some _ => false | None => true end.
Definition blank {A} (f : A → string) (o : option A) : bool :=
  match o with
  | Some a => is_empty (f a)
  | None => false
  end.

(** The checks of [validate] in their order: what is refused, and the message. *)
Definition checks (c : CoreConfig) : list (bool * string) :=
  let core := cc_core c in
  let auth := cc_auth c in
  let tls := ns_tls (cc_network c) in
  let remote := negb (is_localhost (cs_host core)) in
  let oidc := bool_decide (as_provider auth = "oidc") in
  let webauthn := bool_decide (as_provider auth = "webauthn") in
  [((cs_port core =? 0)%Z, "port must not be 0");
   (negb (one_of VALID_LEVELS (cs_log_level core)), invalid_choice "log_level" (cs_log_level core) VALID_LEVELS);
   (negb (one_of VALID_FORMATS (cs_log_format core)), invalid_choice "log_format" (cs_log_format core) VALID_FORMATS);
   (is_empty (cs_host core), "host must not be empty");
   (is_empty (cs_data_dir core), "data_dir must not be empty");
   (tls_enabled tls && is_empty (tls_cert_path tls), "TLS enabled but cert_path is empty");
   (tls_enabled tls && is_empty (tls_key_path tls), "TLS enabled but key_path is empty");
   (remote && negb (ns_behind_proxy (cc_network c)) && negb (tls_enabled tls),
    "Refusing to start: non-localhost bind address requires TLS configuration or network.behind_proxy = true");
   (remote && bool_decide (as_provider auth = "local-token"),
    "Refusing to start: non-localhost bind address requires a network-safe auth provider (oidc or webauthn); local-token is for localhost development only");
   (bool_decide (ns_cors_origins (cc_network c) = []), "cors.allowed_origins must not be empty");
   (negb (one_of VALID_PROVIDERS (as_provider auth)),
    invalid_choice "auth.provider" (as_provider auth) VALID_PROVIDERS);
   (oidc && misses (as_oidc auth), "auth.provider is 'oidc' but auth.oidc section is missing");
   (oidc && blank os_issuer_url (as_oidc auth), "auth.provider is 'oidc' but oidc.issuer_url is empty");
   (oidc && blank os_client_id (as_oidc auth), "auth.provider is 'oidc' but oidc.client_id is empty");
   (webauthn && misses (as_webauthn auth), "auth.provider is 'webauthn' but auth.webauthn section is missing");
   (webauthn && blank wa_rp_name (as_webauthn auth), "auth.provider is 'webauthn' but webauthn.rp_name is empty");
   (webauthn && blank wa_rp_id (as_webauthn auth), "auth.provider is 'webauthn' but webauthn.rp_id is empty");
   (webauthn && blank wa_rp_origin (as_webauthn auth), "auth.provider is 'webauthn' but webauthn.rp_origin is empty");
   (negb (one_of VALID_BACKENDS (st_backend (cc_storage c))),
    invalid_choice "storage.backend" (st_backend (cc_storage c)) VALID_BACKENDS);
   (bool_decide (st_backend (cc_storage c) = "postgres") && misses (st_postgres (cc_storage c)),
    "storage.backend is 'postgres' but storage.postgres section is missing");
   ((ns_requests_per_minute (cc_network c) =? 0)%Z, "rate_limit.requests_per_minute must be > 0")].

Fixpoint first_failure (checks : list (bool * string)) : result unit string :=
  match checks with
  | [] => Ok tt
  | (bad, m) :: rest => if bad then Err (config_error m) else first_failure rest
  end.

Definition validate (c : CoreConfig) : result unit string := first_failure (checks c).

Definition bind_address (c : CoreConfig) : string := cs_host (cc_core c) +:+ ":" +:+ show_Z (cs_port (cc_core c)).

(** ** Loading *)

(** serde_yaml on settings. *)
Class YamlConfig : Type := {
  yaml_parse : string → result CoreConfig string;
  yaml_print : CoreConfig → result string string;
}.

Section Load.
Context `{YamlConfig}.

(** What the file system gives for a path: no file, its contents, or why it cannot be
    read. *)
Definition Files : Type := string → option (result string string).

Definition load_from_yaml (path : string) (contents : result string string) : result CoreConfig string :=
  let? text := result_map_err (λ e, config_error ("failed to read config file " +:+ path +:+ ": " +:+ e)) contents in
  result_map_err (λ e, config_error ("failed to parse config file " +:+ path +:+ ": " +:+ e)) (yaml_parse text).

Definition default_config_path (home : option string) : option string :=
  (λ h, path_join h ".life-engine/config.yaml") <$> home.

Definition config_path (home : option string) (cli : CliArgs) : option string :=
  if is_empty (cli_config cli) then default_config_path home else Some (cli_config cli).

Definition load (home : option string) (files : Files) (env : Env) (cli : CliArgs) : result CoreConfig string :=
  let? config :=
    match config_path home cli with
    | Some path =>
        match files path with
        | Some contents => load_from_yaml path contents
        | None => Ok (default_config home)
        end
    | None => Ok (default_config home)
    end in
  let config := apply_cli_overrides cli (apply_env_overrides env config) in
  let? _ := validate config in
  Ok config.
End Load.

(** ** JSON *)

Definition opt_str (o : option string) : json := from_option JStr JNull o.
Definition jint (z : Z) : json := JNum (NInt z).
Definition strs (xs : list string) : json := JArr (JStr <$> xs).

Definition core_value (s : CoreSettings) : json :=
  mk_obj [("host", JStr (cs_host s)); ("port", jint (cs_port s)); ("log_level", JStr (cs_log_level s));
          ("log_format", JStr (cs_log_format s)); ("log_modules", mk_obj (prod_map id JStr <$> cs_log_modules s));
          ("data_dir", JStr (cs_data_dir s))].
Definition oidc_value (o : OidcSettings) : json :=
  mk_obj [("issuer_url", JStr (os_issuer_url o)); ("client_id", JStr (os_client_id o));
          ("client_secret", opt_str (os_client_secret o)); ("jwks_uri", opt_str (os_jwks_uri o));
          ("audience", opt_str (os_audience o))].
Definition webauthn_value (w : WebAuthnSettings) : json :=
  mk_obj [("rp_name", JStr (wa_rp_name w)); ("rp_id", JStr (wa_rp_id w)); ("rp_origin", JStr (wa_rp_origin w));
          ("challenge_ttl_secs", jint (wa_challenge_ttl_secs w))].
Definition auth_value (a : AuthSettings) : json :=
  mk_obj [("provider", JStr (as_provider a)); ("oidc", from_option oidc_value JNull (as_oidc a));
          ("webauthn", from_option webauthn_value JNull (as_webauthn a))].
Definition argon2_value (a : Argon2Settings) : json :=
  mk_obj [("memory_mb", jint (a2_memory_mb a)); ("iterations", jint (a2_iterations a));
          ("parallelism", jint (a2_parallelism a))].
Definition postgres_value (p : PostgresSettings) : json :=
  mk_obj [("host", JStr (pg_host p)); ("port", jint (pg_port p)); ("dbname", JStr (pg_dbname p));
          ("user", JStr (pg_user p)); ("password", opt_str (pg_password p)); ("pool_size", jint (pg_pool_size p));
          ("ssl_mode", JStr (ssl_mode_str (pg_ssl_mode p)))].
Definition storage_value (s : StorageSettings) : json :=
  mk_obj [("backend", JStr (st_backend s)); ("encryption", JBool (st_encryption s));
          ("passphrase", opt_str (st_passphrase s)); ("argon2", argon2_value (st_argon2 s));
          ("postgres", from_option postgres_value JNull (st_postgres s))].
Definition plugins_value (p : PluginSettings) : json :=
  mk_obj [("paths", strs (ps_paths p)); ("auto_enable", JBool (ps_auto_enable p))].
Definition tls_value (t : TlsSettings) : json :=
  mk_obj [("enabled", JBool (tls_enabled t)); ("cert_path", JStr (tls_cert_path t)); ("key_path", JStr (tls_key_path t))].
Definition network_value (n : NetworkSettings) : json :=
  mk_obj [("behind_proxy", JBool (ns_behind_proxy n)); ("tls", tls_value (ns_tls n));
          ("cors", mk_obj [("allowed_origins", strs (ns_cors_origins n))]);
          ("rate_limit", mk_obj [("requests_per_minute", jint (ns_requests_per_minute n))])].
Definition config_value (c : CoreConfig) : json :=
  mk_obj [("core", core_value (cc_core c)); ("auth", auth_value (cc_auth c)); ("storage", storage_value (cc_storage c));
          ("plugins", plugins_value (cc_plugins c)); ("network", network_value (cc_network c))].

(** serde reads a struct from an object, or from an array of its first fields. *)
Definition field (names : list string) (j : json) (k : string) : option json :=
  match j with
  | JArr xs => i ← fst <$> list_find (eq k) names; xs !! i
  | _ => json_get j k
  end.

Definition is_struct (names : list string) (j : json) : bool :=
  match j with
  | JObj _ => true
  | JArr xs => Nat.leb (length xs) (length names)
  | _ => false
  end.

Definition with_default {A} (d : A) (read : json → option A) (v : option json) : option A :=
  match v with
  | Some v => read v
  | None => Some d
  end.

Definition read_option {A} (read : json → option A) (v : json) : option (option A) :=
  match v with
  | JNull => Some None
  | _ => Some <$> read v
  end.

Definition read_uint (max : Z) (v : json) : option Z :=
  match v with
  | JNum (NInt z) => if (0 <=? z)%Z && (z <=? max)%Z then Some z else None
  | _ => None
  end.

Definition read_strs (v : json) : option (list string) :=
  match v with
  | JArr xs => mapM as_str xs
  | _ => None
  end.

(** The entries of a map of texts, in key order as the object has them. *)
Definition read_modules (v : json) : option (list (string * string)) :=
  match v with
  | JObj o => mapM (λ kv, (λ s, (kv.1, s)) <$> as_str kv.2) o
  | _ => None
  end.

(** A unit variant is its name, or an object from its name to null. *)
Definition read_ssl_mode (v : json) : option PgSslMode :=
  match v with
  | JStr s => ssl_mode_of s
  | JObj [(s, JNull)] => ssl_mode_of s
  | _ => None
  end.

Definition structured {A} (names : list string) (read : (string → option json) → option A) (j : json) : option A :=
  if is_struct names j then read (field names j) else None.

Definition read_core (home : option string) : json → option CoreSettings :=
  structured ["host"; "port"; "log_level"; "log_format"; "log_modules"; "data_dir"] (λ f,
    host ← with_default "127.0.0.1" as_str (f "host");
    port ← with_default 3750%Z (read_uint U16_MAX) (f "port");
    log_level ← with_default "info" as_str (f "log_level");
    log_format ← with_default "json" as_str (f "log_format");
    log_modules ← with_default [] read_modules (f "log_modules");
    data_dir ← with_default (default_data_dir home) as_str (f "data_dir");
    Some (mkCoreSettings host port log_level log_format log_modules data_dir)).

Definition read_oidc : json → option OidcSettings :=
  structured ["issuer_url"; "client_id"; "client_secret"; "jwks_uri"; "audience"] (λ f,
    issuer_url ← f "issuer_url" ≫= as_str;
    client_id ← f "client_id" ≫= as_str;
    client_secret ← with_default None (read_option as_str) (f "client_secret");
    jwks_uri ← with_default None (read_option as_str) (f "jwks_uri");
    audience ← with_default None (read_option as_str) (f "audience");
    Some (mkOidcSettings issuer_url client_id client_secret jwks_uri audience)).

Definition read_webauthn : json → option WebAuthnSettings :=
  structured ["rp_name"; "rp_id"; "rp_origin"; "challenge_ttl_secs"] (λ f,
    rp_name ← f "rp_name" ≫= as_str;
    rp_id ← f "rp_id" ≫= as_str;
    rp_origin ← f "rp_origin" ≫= as_str;
    ttl ← with_default default_webauthn_challenge_ttl (read_uint U64_MAX) (f "challenge_ttl_secs");
    Some (mkWebAuthnSettings rp_name rp_id rp_origin ttl)).

Definition read_auth : json → option AuthSettings :=
  structured ["provider"; "oidc"; "webauthn"] (λ f,
    provider ← with_default "local-token" as_str (f "provider");
    oidc ← with_default None (read_option read_oidc) (f "oidc");
    webauthn ← with_default None (read_option read_webauthn) (f "webauthn");
    Some (mkAuthSettings provider oidc webauthn)).

Definition read_argon2 : json → option Argon2Settings :=
  structured ["memory_mb"; "iterations"; "parallelism"] (λ f,
    memory_mb ← with_default 64%Z (read_uint U32_MAX) (f "memory_mb");
    iterations ← with_default 3%Z (read_uint U32_MAX) (f "iterations");
    parallelism ← with_default 4%Z (read_uint U32_MAX) (f "parallelism");
    Some (mkArgon2Settings memory_mb iterations parallelism)).

Definition read_postgres : json → option PostgresSettings :=
  structured ["host"; "port"; "dbname"; "user"; "password"; "pool_size"; "ssl_mode"] (λ f,
    host ← with_default "localhost" as_str (f "host");
    port ← with_default 5432%Z (read_uint U16_MAX) (f "port");
    dbname ← with_default "life_engine" as_str (f "dbname");
    user ← with_default "life_engine" as_str (f "user");
    password ← with_default None (read_option as_str) (f "password");
    pool_size ← with_default 16%Z (read_uint U64_MAX) (f "pool_size");
    ssl_mode ← with_default Require_ read_ssl_mode (f "ssl_mode");
    Some (mkPostgresSettings host port dbname user password pool_size ssl_mode)).

Definition read_storage : json → option StorageSettings :=
  structured ["backend"; "encryption"; "passphrase"; "argon2"; "postgres"] (λ f,
    backend ← with_default "sqlite" as_str (f "backend");
    encryption ← with_default true as_bool (f "encryption");
    passphrase ← with_default None (read_option as_str) (f "passphrase");
    argon2 ← with_default default_argon2 read_argon2 (f "argon2");
    postgres ← with_default None (read_option read_postgres) (f "postgres");
    Some (mkStorageSettings backend encryption passphrase argon2 postgres)).

Definition read_plugins : json → option PluginSettings :=
  structured ["paths"; "auto_enable"] (λ f,
    paths ← with_default [] read_strs (f "paths");
    auto_enable ← with_default false as_bool (f "auto_enable");
    Some (mkPluginSettings paths auto_enable)).

Definition read_tls : json → option TlsSettings :=
  structured ["enabled"; "cert_path"; "key_path"] (λ f,
    enabled ← with_default false as_bool (f "enabled");
    cert_path ← with_default empty_str as_str (f "cert_path");
    key_path ← with_default empty_str as_str (f "key_path");
    Some (mkTlsSettings enabled cert_path key_path)).

Definition read_cors : json → option (list string) :=
  structured ["allowed_origins"] (λ f, with_default default_cors_origins read_strs (f "allowed_origins")).

Definition read_rate_limit : json → option Z :=
  structured ["requests_per_minute"] (λ f, with_default 60%Z (read_uint U32_MAX) (f "requests_per_minute")).

Definition read_network : json → option NetworkSettings :=
  structured ["behind_proxy"; "tls"; "cors"; "rate_limit"] (λ f,
    behind_proxy ← with_default false as_bool (f "behind_proxy");
    tls ← with_default default_tls read_tls (f "tls");
    cors ← with_default default_cors_origins read_cors (f "cors");
    rate ← with_default 60%Z read_rate_limit (f "rate_limit");
    Some (mkNetworkSettings behind_proxy tls cors rate)).

Definition config_of_value (home : option string) : json → option CoreConfig :=
  structured ["core"; "auth"; "storage"; "plugins"; "network"] (λ f,
    core ← with_default (default_core home) (read_core home) (f "core");
    auth ← with_default default_auth read_auth (f "auth");
    storage ← with_default default_storage read_storage (f "storage");
    plugins ← with_default default_plugins read_plugins (f "plugins");
    network ← with_default default_network read_network (f "network");
    Some (mkCoreConfig core auth storage plugins network)).

(** ** Redaction and merging *)

Definition REDACTED : string := "[REDACTED]".

(** [pointer_mut(path)] and a change of the value there, if there is one. *)
Fixpoint at_path (path : list string) (f : json → json) (j : json) : json :=
  match path with
  | [] => f j
  | k :: path' =>
      match j with
      | JObj o =>
          match obj_get k o with
          | Some v => JObj (obj_insert k (at_path path' f v) o)
          | None => j
          end
      | _ => j
      end
  end.

Definition redact (v : json) : json := if is_null v then v else JStr REDACTED.

Definition to_redacted_json (c : CoreConfig) : json :=
  at_path ["storage"; "postgres"; "password"] redact
    (at_path ["auth"; "oidc"; "client_secret"] redact (config_value c)).

Fixpoint merge_json (base patch : json) {struct patch} : json :=
  match base, patch with
  | JObj b, JObj p =>
      JObj ((fix merge_entries (p : list (string * json)) (b : object) : object :=
               match p with
               | [] => b
               | (k, v) :: p' => merge_entries p' (obj_insert k (merge_json (default JNull (obj_get k b)) v) b)
               end) p b)
  | _, _ => patch
  end.

(** [serde_reason] is why serde refuses a value. *)
Definition merge_partial (home : option string) (serde_reason : json → string) (partial : json) (c : CoreConfig)
    : result CoreConfig string :=
  let base := merge_json (config_value c) partial in
  let? merged := ok_or (config_of_value home base)
    (config_error ("invalid config after merge: " +:+ serde_reason base)) in
  let? _ := validate merged in
  Ok merged.

(** ** The configuration routes (routes/system.rs) *)

(** The part of [AppState] they use, the file at [config_path], and the general rate
    limiter and log level that are set from the configuration. *)
Record ConfigState : Type := mkConfigState {
  st_config : CoreConfig;
  st_config_path : option string;
  st_file : option string;
  st_limiter : option Z;
  st_level : option string;
}.

Definition get_config (s : ConfigState) : json := mk_obj [("data", to_redacted_json (st_config s))].

(** Failures of the file system while saving; a write that fails leaves some contents. *)
Record SaveFaults : Type := mkSaveFaults {
  sf_mkdir : option string;
  sf_write : option (string * option string);
}.

(** [level_ok] says whether tracing accepts a level and replaces its filter. *)
Definition reload_runtime_settings (level_ok : string → bool) (s : ConfigState) : ConfigState :=
  let c := st_config s in
  mkConfigState c (st_config_path s) (st_file s)
    ((λ _, ns_requests_per_minute (cc_network c)) <$> st_limiter s)
    ((λ l, if level_ok (cs_log_level (cc_core c)) then cs_log_level (cc_core c) else l) <$> st_level s).

Section Routes.
Context `{YamlConfig} (home : option string) (serde_reason : json → string) (level_ok : string → bool).

(** What is written, or the answer. *)
Definition prepare_config (partial : json) (faults : SaveFaults) (s : ConfigState)
    : result (CoreConfig * string) (Z * string) :=
  let? _ := ok_or (st_config_path s) (500%Z, "no config file path configured") in
  let? merged := result_map_err (λ e, (400%Z, e)) (merge_partial home serde_reason partial (st_config s)) in
  let? yaml := result_map_err (λ e, (500%Z, "failed to serialize config: " +:+ e)) (yaml_print merged) in
  match sf_mkdir faults with
  | Some e => Err (500%Z, "failed to create config directory: " +:+ e)
  | None => Ok (merged, yaml)
  end.

Definition put_config (partial : json) (faults : SaveFaults) (s : ConfigState)
    : result json (Z * string) * ConfigState :=
  match prepare_config partial faults s, sf_write faults with
  | Err e, _ => (Err e, s)
  | Ok _, Some (e, rest) =>
      (Err (500%Z, "failed to write config file: " +:+ e),
       mkConfigState (st_config s) (st_config_path s) rest (st_limiter s) (st_level s))
  | Ok (merged, yaml), None =>
      (Ok (mk_obj [("data", to_redacted_json merged)]),
       reload_runtime_settings level_ok
         (mkConfigState merged (st_config_path s) (Some yaml) (st_limiter s) (st_level s)))
  end.
End Routes.
