(* ===== verification/ConfigFacts.v ===== *)
(** * Facts about the configuration

    What an accepted configuration guarantees, the precedence of its sources, reading
    back what was written, merging, redaction and the routes. *)

From stdpp Require Import base tactics list strings gmap sorting.
From Stdlib Require Import Ascii ZArith Lia.
From S2P Require Import Prelude RustString Json Config.

Local Open Scope string_scope.

(** ** Validation *)

Lemma first_failure_ok cs : first_failure cs = Ok tt ↔ Forall (λ x, x.1 = false) cs.
Proof.
  induction cs as [|[b m] cs IH]; [done|]. simpl. rewrite Forall_cons. simpl.
  destruct b; [by split; [|intros []]|]. rewrite IH. tauto.
Qed.

(** What every accepted configuration has: the rules of validation, one by one. *)
Record sound_config (c : CoreConfig) : Prop := {
  sound_port : cs_port (cc_core c) ≠ 0%Z;
  sound_host : cs_host (cc_core c) ≠ empty_str;
  sound_data_dir : cs_data_dir (cc_core c) ≠ empty_str;
  sound_level : to_lowercase (cs_log_level (cc_core c)) ∈ ["trace"; "debug"; "info"; "warn"; "error"];
  sound_format : to_lowercase (cs_log_format (cc_core c)) ∈ ["json"; "pretty"];
  sound_tls : tls_enabled (ns_tls (cc_network c)) = true →
    tls_cert_path (ns_tls (cc_network c)) ≠ empty_str ∧ tls_key_path (ns_tls (cc_network c)) ≠ empty_str;
  sound_remote : cs_host (cc_core c) ∉ ["127.0.0.1"; "localhost"; "::1"] →
    (ns_behind_proxy (cc_network c) = true ∨ tls_enabled (ns_tls (cc_network c)) = true) ∧
    as_provider (cc_auth c) ≠ "local-token";
  sound_provider : to_lowercase (as_provider (cc_auth c)) ∈ ["local-token"; "oidc"; "webauthn"];
  sound_oidc : as_provider (cc_auth c) = "oidc" → ∃ o, as_oidc (cc_auth c) = Some o ∧
    os_issuer_url o ≠ empty_str ∧ os_client_id o ≠ empty_str;
  sound_webauthn : as_provider (cc_auth c) = "webauthn" → ∃ w, as_webauthn (cc_auth c) = Some w ∧
    wa_rp_name w ≠ empty_str ∧ wa_rp_id w ≠ empty_str ∧ wa_rp_origin w ≠ empty_str;
  sound_backend : to_lowercase (st_backend (cc_storage c)) ∈ ["sqlite"; "postgres"];
  sound_postgres : st_backend (cc_storage c) = "postgres" → is_Some (st_postgres (cc_storage c));
  sound_origins : ns_cors_origins (cc_network c) ≠ [];
  sound_rate : ns_requests_per_minute (cc_network c) ≠ 0%Z;
}.

Lemma one_of_true ws v : one_of ws v = true ↔ to_lowercase v ∈ ws.
Proof. unfold one_of, contains. apply bool_decide_eq_true. Qed.

Ltac refuted := repeat match goal with
  | H : Forall _ (_ :: _) |- _ => apply Forall_cons in H as [? H]; cbn [fst] in *
  | H : negb _ = false |- _ => apply negb_false_iff in H
  | H : bool_decide _ = false |- _ => apply bool_decide_eq_false in H
  | H : is_empty _ = false |- _ => apply is_empty_false in H
  | H : one_of _ _ = true |- _ => apply one_of_true in H
  | H : (_ =? _)%Z = false |- _ => apply Z.eqb_neq in H
  end.

Lemma is_localhost_false host : host ∉ ["127.0.0.1"; "localhost"; "::1"] → is_localhost host = false.
Proof.
  intros Hh. unfold is_localhost. rewrite !orb_false_iff, !bool_decide_eq_false. set_solver.
Qed.

Lemma validate_sound c : validate c = Ok tt → sound_config c.
Proof.
  intros Hv. apply first_failure_ok in Hv. unfold checks in Hv. refuted. split; try done.
  - intros Ht. rewrite Ht in *. simpl in *. by rewrite <- !is_empty_false.
  - intros Hl. rewrite is_localhost_false in * by done. simpl in *. split; [|intros Hp; by rewrite Hp in *].
    destruct (ns_behind_proxy _); [by left|]. right. by destruct (tls_enabled _).
  - intros Hp. rewrite Hp in *. simpl in *. destruct (as_oidc (cc_auth c)) as [o|]; [|done].
    exists o. simpl in *. by rewrite <- !is_empty_false.
  - intros Hp. rewrite Hp in *. simpl in *. destruct (as_webauthn (cc_auth c)) as [w|]; [|done].
    exists w. simpl in *. by rewrite <- !is_empty_false.
  - intros Hp. rewrite Hp in *. simpl in *. by destruct (st_postgres _).
Qed.

(** ** Precedence *)

(** The first source that gives a value. *)
Fixpoint first_of {A} (sources : list (option A)) (d : A) : A :=
  match sources with
  | [] => d
  | Some a :: _ => a
  | None :: rest => first_of rest d
  end.

Section Overrides.
Context (env : Env).

Lemma override_keeps {A B} k (parse : string → option A) set (f : CoreConfig → B) c :
  (∀ a x, f (set a x) = f x) → f (override env k parse set c) = f c.
Proof. intros Hs. unfold override. by destruct (env k ≫= parse). Qed.

Lemma override_sets {A} k (parse : string → option A) set (f : CoreConfig → A) c :
  (∀ a x, f (set a x) = a) → f (override env k parse set c) = first_of [env k ≫= parse] (f c).
Proof. intros Hs. unfold override. by destruct (env k ≫= parse). Qed.

Lemma later_overrides_core c :
  cc_core (network_overrides env (storage_overrides env (webauthn_overrides env (oidc_overrides env c)))) = cc_core c.
Proof.
  unfold network_overrides. rewrite !override_keeps by done. unfold storage_overrides.
  rewrite !override_keeps by done. unfold webauthn_overrides.
  assert (cc_core (oidc_overrides env c) = cc_core c) as Ho.
  { unfold oidc_overrides. destruct (any_set env OIDC_VARS); [|done]. simpl. by rewrite !override_keeps. }
  destruct (any_set env WEBAUTHN_VARS); simpl; [|done]. by rewrite !override_keeps.
Qed.

Lemma env_core c :
  let core := cc_core (apply_env_overrides env c) in
  cs_host core = first_of [env "LIFE_ENGINE_CORE_HOST"] (cs_host (cc_core c)) ∧
  cs_port core = first_of [env "LIFE_ENGINE_CORE_PORT" ≫= parse_uint U16_MAX] (cs_port (cc_core c)) ∧
  cs_log_level core = first_of [env "LIFE_ENGINE_CORE_LOG_LEVEL"] (cs_log_level (cc_core c)) ∧
  cs_log_format core = first_of [env "LIFE_ENGINE_CORE_LOG_FORMAT"] (cs_log_format (cc_core c)) ∧
  cs_data_dir core = first_of [env "LIFE_ENGINE_CORE_DATA_DIR"] (cs_data_dir (cc_core c)).
Proof.
  unfold apply_env_overrides. rewrite later_overrides_core. unfold core_overrides, override.
  destruct (env "LIFE_ENGINE_CORE_HOST"), (env "LIFE_ENGINE_CORE_PORT" ≫= parse_uint U16_MAX),
    (env "LIFE_ENGINE_CORE_LOG_LEVEL"), (env "LIFE_ENGINE_CORE_LOG_FORMAT"), (env "LIFE_ENGINE_CORE_DATA_DIR"),
    (env "LIFE_ENGINE_AUTH_PROVIDER"); cbn; split_and!; reflexivity.
Qed.

(** The settings a command line can give, after all sources. *)
Lemma overridden_core cli c :
  let core := cc_core (apply_cli_overrides cli (apply_env_overrides env c)) in
  cs_host core = first_of [cli_host cli; env "LIFE_ENGINE_CORE_HOST"] (cs_host (cc_core c)) ∧
  cs_port core = first_of [cli_port cli; env "LIFE_ENGINE_CORE_PORT" ≫= parse_uint U16_MAX] (cs_port (cc_core c)) ∧
  cs_log_level core = first_of [cli_log_level cli; env "LIFE_ENGINE_CORE_LOG_LEVEL"] (cs_log_level (cc_core c)) ∧
  cs_log_format core = first_of [cli_log_format cli; env "LIFE_ENGINE_CORE_LOG_FORMAT"] (cs_log_format (cc_core c)) ∧
  cs_data_dir core = first_of [cli_data_dir cli; env "LIFE_ENGINE_CORE_DATA_DIR"] (cs_data_dir (cc_core c)).
Proof.
  pose proof (env_core c) as He. destruct (apply_env_overrides env c) as [core auth storage plugins network].
  destruct core. cbn in He. destruct He as (-> & -> & -> & -> & ->). unfold apply_cli_overrides, cli_override.
  destruct (cli_host cli), (cli_port cli), (cli_log_level cli), (cli_log_format cli), (cli_data_dir cli);
    cbn; split_and!; reflexivity.
Qed.
End Overrides.

(** The configuration the overrides start from. *)
Definition base_config `{YamlConfig} (home : option string) (files : Files) (cli : CliArgs)
    : result CoreConfig string :=
  match config_path home cli with
  | Some path =>
      match files path with
      | Some contents => load_from_yaml path contents
      | None => Ok (default_config home)
      end
  | None => Ok (default_config home)
  end.

(** C17. Starting up is safe and predictable. A configuration that is loaded satisfies every rule of
    validation ([sound_config]): the port and the rate limit are not zero; host, data directory
    and origins are not empty; log level, log format, provider and backend are known, whatever
    their case; enabled TLS has its files; the sections of the providers oidc and webauthn and of
    the backend postgres, spelled exactly so, are there; and an address that is not local is
    served only behind a proxy or with TLS, and not with a provider spelled exactly local-token.
    Host, port, log level, log format and data directory come from the command line, else from
    the environment, else from the file, else from the defaults; a port that does not parse
    counts as not given. *)
Theorem loaded_config_sound `{YamlConfig} home files env cli c :
  load home files env cli = Ok c →
  sound_config c ∧
  ∃ b, base_config home files cli = Ok b ∧
    cs_host (cc_core c) = first_of [cli_host cli; env "LIFE_ENGINE_CORE_HOST"] (cs_host (cc_core b)) ∧
    cs_port (cc_core c) =
      first_of [cli_port cli; env "LIFE_ENGINE_CORE_PORT" ≫= parse_uint U16_MAX] (cs_port (cc_core b)) ∧
    cs_log_level (cc_core c) = first_of [cli_log_level cli; env "LIFE_ENGINE_CORE_LOG_LEVEL"] (cs_log_level (cc_core b)) ∧
    cs_log_format (cc_core c) =
      first_of [cli_log_format cli; env "LIFE_ENGINE_CORE_LOG_FORMAT"] (cs_log_format (cc_core b)) ∧
    cs_data_dir (cc_core c) = first_of [cli_data_dir cli; env "LIFE_ENGINE_CORE_DATA_DIR"] (cs_data_dir (cc_core b)).
Proof.
  unfold load. fold (base_config home files cli). destruct (base_config home files cli) as [b|]; simpl; [|done].
  destruct (validate _) as [[]|] eqn:Ev; simpl; [|done]. intros [= <-]. split; [by apply validate_sound|].
  exists b. split; [done|]. apply overridden_core.
Qed.

(** ** Reading back *)

Definition opt_all {A} (P : A → Prop) (o : option A) : Prop := from_option P True o.

Definition fits (max z : Z) : Prop := (0 ≤ z ≤ max)%Z.

(** The widths of the numbers, and maps listed in key order. *)
Record config_fits (c : CoreConfig) : Prop := {
  fits_port : fits U16_MAX (cs_port (cc_core c));
  fits_modules : StronglySorted key_lt (cs_log_modules (cc_core c)).*1;
  fits_ttl : opt_all (λ w, fits U64_MAX (wa_challenge_ttl_secs w)) (as_webauthn (cc_auth c));
  fits_argon2 : fits U32_MAX (a2_memory_mb (st_argon2 (cc_storage c))) ∧
    fits U32_MAX (a2_iterations (st_argon2 (cc_storage c))) ∧ fits U32_MAX (a2_parallelism (st_argon2 (cc_storage c)));
  fits_postgres : opt_all (λ p, fits U16_MAX (pg_port p) ∧ fits U64_MAX (pg_pool_size p)) (st_postgres (cc_storage c));
  fits_rate : fits U32_MAX (ns_requests_per_minute (cc_network c));
}.

Lemma read_uint_ok max z : fits max z → read_uint max (jint z) = Some z.
Proof. intros [H1 H2]. unfold read_uint, jint. rewrite (proj2 (Z.leb_le _ _) H1), (proj2 (Z.leb_le _ _) H2). done. Qed.

Lemma read_option_str o : read_option as_str (opt_str o) = Some o.
Proof. by destruct o. Qed.

Lemma read_strs_ok xs : read_strs (strs xs) = Some xs.
Proof. unfold read_strs, strs. apply mapM_Some, Forall2_fmap_l, Forall_Forall2_diag, Forall_true. done. Qed.

Lemma read_ssl_ok m : read_ssl_mode (JStr (ssl_mode_str m)) = Some m.
Proof. by destruct m. Qed.

(** Entries in key order are kept as they are. *)
Lemma obj_insert_last k v o :
  Forall (λ x, key_lt x k) (obj_keys o) → obj_insert k v o = (o ++ [(k, v)])%list.
Proof.
  induction o as [|[l w] o IH]; [done|]. simpl. intros [[Hle Hne] Ho]%Forall_cons.
  destruct (String.compare k l) eqn:E.
  - apply compare_eq in E. congruence.
  - destruct Hne. apply (anti_symm String.le); [done|]. by apply key_lt_compare in E as [? _].
  - by rewrite IH.
Qed.

Lemma mk_obj_id kvs : obj_sorted kvs → mk_obj kvs = JObj kvs.
Proof.
  unfold mk_obj. intros Hs. f_equal.
  assert (∀ acc, obj_sorted (acc ++ kvs) → foldl (λ o kv, obj_insert kv.1 kv.2 o) acc kvs = (acc ++ kvs)%list) as Hfold;
    [|by apply (Hfold [])].
  clear Hs. induction kvs as [|[k v] kvs IH]; intros acc Hs; simpl; [by rewrite app_nil_r|].
  rewrite obj_insert_last.
  - rewrite IH; [by rewrite <- app_assoc|]. by rewrite <- app_assoc.
  - unfold obj_sorted, obj_keys in *. rewrite fmap_app in Hs. simpl in Hs. apply Forall_forall. intros x Hx.
    eapply StronglySorted_app_1_elem_of; [exact Hs|exact Hx|left].
Qed.

Lemma read_modules_ok ms :
  StronglySorted key_lt ms.*1 → read_modules (mk_obj (prod_map id JStr <$> ms)) = Some ms.
Proof.
  intros Hs. rewrite mk_obj_id.
  - simpl. apply mapM_Some, Forall2_fmap_l, Forall_Forall2_diag, Forall_true. by intros [k v].
  - unfold obj_sorted, obj_keys. rewrite <- list_fmap_compose. exact Hs.
Qed.

(** The fields of a printed record, one after the other. *)
Ltac next_field :=
  match goal with |- context [field ?n ?j ?k] =>
    let v := fresh "v" in let H := fresh "H" in
    evar (v : json); assert (field n j k = Some v) as H by (subst v; reflexivity);
    rewrite H; subst v; clear H; cbn [with_default mbind option_bind fst snd]
  end.
Ltac read_back :=
  unfold structured;
  match goal with |- (if ?b then _ else _) = _ => change b with true; cbv iota beta end;
  repeat (next_field;
          rewrite ?read_uint_ok, ?read_option_str, ?read_strs_ok, ?read_ssl_ok, ?read_modules_ok by tauto;
          cbn [mbind option_bind as_str as_bool]).

Lemma core_back home s :
  fits U16_MAX (cs_port s) → StronglySorted key_lt (cs_log_modules s).*1 → read_core home (core_value s) = Some s.
Proof. intros Hp Hm. unfold read_core. read_back. by destruct s. Qed.

Lemma oidc_back o : read_oidc (oidc_value o) = Some o.
Proof. unfold read_oidc. read_back. by destruct o. Qed.

Lemma webauthn_back w : fits U64_MAX (wa_challenge_ttl_secs w) → read_webauthn (webauthn_value w) = Some w.
Proof. intros Ht. unfold read_webauthn. read_back. by destruct w. Qed.

Lemma read_option_some {A} (read : json → option A) (print : A → json) o :
  (∀ a, print a ≠ JNull) → opt_all (λ a, read (print a) = Some a) o →
  read_option read (from_option print JNull o) = Some o.
Proof.
  intros Hn Ho. destruct o as [a|]; [|done]. simpl in *. unfold read_option. specialize (Hn a).
  rewrite Ho. by destruct (print a).
Qed.

Lemma auth_back a :
  opt_all (λ w, fits U64_MAX (wa_challenge_ttl_secs w)) (as_webauthn a) → read_auth (auth_value a) = Some a.
Proof.
  intros Ht. unfold read_auth, auth_value. read_back.
  rewrite (read_option_some read_oidc); [|done|by destruct (as_oidc a); [apply oidc_back|]]. cbn [mbind option_bind].
  rewrite (read_option_some read_webauthn); [by destruct a|done|].
  destruct (as_webauthn a); [by apply webauthn_back|done].
Qed.

Lemma argon2_back a :
  fits U32_MAX (a2_memory_mb a) → fits U32_MAX (a2_iterations a) → fits U32_MAX (a2_parallelism a) →
  read_argon2 (argon2_value a) = Some a.
Proof. intros. unfold read_argon2. read_back. by destruct a. Qed.

Lemma postgres_back p :
  fits U16_MAX (pg_port p) → fits U64_MAX (pg_pool_size p) → read_postgres (postgres_value p) = Some p.
Proof. intros. unfold read_postgres. read_back. by destruct p. Qed.

Lemma storage_back s :
  fits U32_MAX (a2_memory_mb (st_argon2 s)) ∧ fits U32_MAX (a2_iterations (st_argon2 s)) ∧
    fits U32_MAX (a2_parallelism (st_argon2 s)) →
  opt_all (λ p, fits U16_MAX (pg_port p) ∧ fits U64_MAX (pg_pool_size p)) (st_postgres s) →
  read_storage (storage_value s) = Some s.
Proof.
  intros (H1 & H2 & H3) Hp. unfold read_storage. read_back. rewrite argon2_back by done. cbn [mbind option_bind].
  rewrite read_option_some; [by destruct s|done|].
  destruct (st_postgres s); [|done]. destruct Hp. by apply postgres_back.
Qed.

Lemma plugins_back p : read_plugins (plugins_value p) = Some p.
Proof. unfold read_plugins. read_back. by destruct p. Qed.

Lemma tls_back t : read_tls (tls_value t) = Some t.
Proof. unfold read_tls. read_back. by destruct t. Qed.

Lemma cors_back xs : read_cors (mk_obj [("allowed_origins", strs xs)]) = Some xs.
Proof. unfold read_cors. read_back. done. Qed.

Lemma rate_back z : fits U32_MAX z → read_rate_limit (mk_obj [("requests_per_minute", jint z)]) = Some z.
Proof. intros. unfold read_rate_limit. read_back. done. Qed.

Lemma network_back n : fits U32_MAX (ns_requests_per_minute n) → read_network (network_value n) = Some n.
Proof.
  intros Hr. unfold read_network. read_back. rewrite tls_back. cbn [mbind option_bind].
  rewrite cors_back. cbn [mbind option_bind]. rewrite rate_back by done. by destruct n.
Qed.

Lemma config_back home c : config_fits c → config_of_value home (config_value c) = Some c.
Proof.
  intros [H1 H2 H3 H4 H5 H6]. unfold config_of_value. read_back. rewrite core_back by done. cbn [mbind option_bind].
  rewrite auth_back by done. cbn [mbind option_bind]. rewrite storage_back by done. cbn [mbind option_bind].
  rewrite plugins_back. cbn [mbind option_bind]. rewrite network_back by done. by destruct c.
Qed.

(** ** Merging *)

Definition merge_entries (p : list (string * json)) (b : object) : object :=
  foldl (λ b kv, obj_insert kv.1 (merge_json (default JNull (obj_get kv.1 b)) kv.2) b) b p.

Lemma merge_json_obj b p : merge_json (JObj b) (JObj p) = JObj (merge_entries p b).
Proof. simpl. f_equal. unfold merge_entries. revert b. induction p as [|[k v] p IH]; intros b; simpl; [done|apply IH]. Qed.

Lemma merge_entries_get p b k :
  NoDup (obj_keys p) →
  obj_get k (merge_entries p b) =
  match obj_get k p with
  | Some v => Some (merge_json (default JNull (obj_get k b)) v)
  | None => obj_get k b
  end.
Proof.
  unfold merge_entries, obj_keys. revert b. induction p as [|[l w] p IH]; intros b; simpl; [done|].
  intros [Hl Hp]%NoDup_cons. rewrite IH, obj_get_insert by done. case_bool_decide as Hk.
  - subst l. destruct (obj_get k p) as [v|] eqn:E.
    + destruct Hl. apply obj_get_elem in E. apply list_elem_of_fmap. by exists (k, v).
    + by rewrite decide_True.
  - by rewrite decide_False.
Qed.

Lemma sorted_nodup o : obj_sorted o → NoDup (obj_keys o).
Proof.
  unfold obj_sorted. induction 1 as [|k ks Hs IH Hk]; constructor; [|done].
  intros Hin. rewrite Forall_forall in Hk. by destruct (Hk _ Hin).
Qed.

(** The value at a path. *)
Fixpoint json_at (path : list string) (j : json) : option json :=
  match path with
  | [] => Some j
  | k :: path' => json_get j k ≫= json_at path'
  end.

(** A patch that says nothing about a path. *)
Fixpoint silent (path : list string) (patch : json) : Prop :=
  match path, patch with
  | k :: path', JObj o =>
      match obj_get k o with
      | Some v => silent path' v
      | None => True
      end
  | _, _ => False
  end.

Lemma silent_absent path patch : silent path patch → json_at path patch = None.
Proof.
  revert patch. induction path as [|k path IH]; intros patch; [by destruct patch|].
  destruct patch as [| | | | |o]; try done. simpl. unfold json_get. simpl.
  destruct (obj_get k o); simpl; auto.
Qed.

Lemma merge_silent path base patch :
  json_canonical patch → silent path patch → json_at path (merge_json base patch) = json_at path base.
Proof.
  revert base patch. induction path as [|k path IH]; intros base patch Hc Hs; [by destruct patch|].
  destruct patch as [| | | | |o]; try done.
  destruct base as [| | | | |b]; try (by rewrite silent_absent by exact Hs).
  rewrite merge_json_obj. cbn [json_at]. rewrite !json_get_obj. apply canonical_obj in Hc as Hc'.
  rewrite merge_entries_get by (apply sorted_nodup; tauto). simpl in Hs.
  destruct (obj_get k o) as [v|] eqn:E; [|done]. simpl.
  apply obj_get_elem in E. rewrite IH by (done || by eapply Hc').
  destruct (obj_get k b); [done|]. simpl. by destruct path.
Qed.

Lemma merge_assigns path base patch v :
  json_canonical patch → json_at path patch = Some v → is_object v = false →
  json_at path (merge_json base patch) = Some v.
Proof.
  revert base patch. induction path as [|k path IH]; intros base patch Hc Hat Hv.
  { simpl in *. simplify_eq. by destruct base, v. }
  destruct patch as [| | | | |o]; try done. destruct base as [| | | | |b]; try exact Hat.
  rewrite merge_json_obj. cbn [json_at] in *. rewrite !json_get_obj in *. apply canonical_obj in Hc as Hc'.
  rewrite merge_entries_get by (apply sorted_nodup; tauto).
  destruct (obj_get k o) as [w|] eqn:E; [|done]. simpl in *. apply obj_get_elem in E. apply IH; [|done..].
  by eapply Hc'.
Qed.

(** A partial configuration changes what it names and nothing else: after merging,
    every value the patch gives is there, and at every path the patch is silent about
    the value is the one before. *)
Theorem merge_json_exact base patch :
  json_canonical patch →
  (∀ path v, json_at path patch = Some v → is_object v = false → json_at path (merge_json base patch) = Some v) ∧
  (∀ path, silent path patch → json_at path (merge_json base patch) = json_at path base).
Proof. intros Hc. split; [intros; by apply merge_assigns|intros; by apply merge_silent]. Qed.

(** ** The routes *)

(** A configuration in use: valid, and the rate limiter runs at its rate. *)
Definition live (s : ConfigState) : Prop :=
  sound_config (st_config s) ∧
  opt_all (λ r, r = ns_requests_per_minute (cc_network (st_config s))) (st_limiter s).

Section Puts.
Context `{YamlConfig} (home : option string) (serde_reason : json → string) (level_ok : string → bool).

Lemma merge_partial_ok partial c merged :
  merge_partial home serde_reason partial c = Ok merged →
  config_of_value home (merge_json (config_value c) partial) = Some merged ∧ validate merged = Ok tt.
Proof.
  unfold merge_partial. destruct (config_of_value _ _) as [m|]; simpl; [|done].
  destruct (validate m) as [[]|] eqn:Ev; simpl; [|done]. by intros [= <-].
Qed.

Lemma put_config_step partial faults s r s' :
  put_config home serde_reason level_ok partial faults s = (r, s') →
  match r with
  | Err _ => st_config s' = st_config s ∧ st_limiter s' = st_limiter s
  | Ok _ =>
      config_of_value home (merge_json (config_value (st_config s)) partial) = Some (st_config s') ∧
      validate (st_config s') = Ok tt ∧ Ok <$> st_file s' = Some (yaml_print (st_config s')) ∧
      st_limiter s' = (λ _, ns_requests_per_minute (cc_network (st_config s'))) <$> st_limiter s
  end.
Proof.
  unfold put_config. destruct (prepare_config _ _ partial faults s) as [[merged yaml]|] eqn:E; [|by intros [= <- <-]].
  destruct (sf_write faults) as [[e rest]|]; intros [= <- <-]; [done|]. simpl. unfold prepare_config in E.
  destruct (st_config_path s); simpl in E; [|done].
  destruct (merge_partial _ _ _ _) as [m|] eqn:Em in E; simpl in E; [|done].
  destruct (yaml_print m) as [y|] eqn:Ey; simpl in E; [|done]. destruct (sf_mkdir faults); [done|]. simplify_eq.
  apply merge_partial_ok in Em as [? ?]. by rewrite Ey.
Qed.

Lemma put_config_live partial faults s : live s → live (put_config home serde_reason level_ok partial faults s).2.
Proof.
  intros [Hs Hl]. destruct (put_config _ _ _ _ _ _) as [r s'] eqn:E. apply put_config_step in E. simpl.
  destruct r as [j|e].
  - destruct E as (_ & Hv & _ & Hlim). split; [by apply validate_sound|]. rewrite Hlim.
    by destruct (st_limiter s).
  - destruct E as [Hc Hlim]. unfold live. by rewrite Hc, Hlim.
Qed.
End Puts.

(** The configuration in use is always valid. Whatever partial configurations are sent
    and whatever fails while they are saved, the configuration in memory satisfies every
    rule of validation and the rate limiter runs at its rate; a request answered with an
    error has not changed the configuration. *)
Theorem config_stays_valid `{YamlConfig} home serde_reason level_ok puts s :
  live s →
  live (foldl (λ s p, (put_config home serde_reason level_ok p.1 p.2 s).2) s puts) ∧
  ∀ partial faults, is_ok (put_config home serde_reason level_ok partial faults s).1 = false →
    st_config (put_config home serde_reason level_ok partial faults s).2 = st_config s.
Proof.
  intros Hs. split.
  - revert s Hs. induction puts as [|p puts IH]; intros s Hs; simpl; [done|]. by apply IH, put_config_live.
  - intros partial faults He. destruct (put_config _ _ _ _ _ _) as [r s'] eqn:E. apply put_config_step in E.
    destruct r; [done|]. tauto.
Qed.

(** ** Redaction *)

Definition with_secrets (secret password : string) (c : CoreConfig) : CoreConfig :=
  mkCoreConfig (cc_core c)
    (mkAuthSettings (as_provider (cc_auth c))
       ((λ o, mkOidcSettings (os_issuer_url o) (os_client_id o) ((λ _, secret) <$> os_client_secret o)
                (os_jwks_uri o) (os_audience o)) <$> as_oidc (cc_auth c)) (as_webauthn (cc_auth c)))
    (mkStorageSettings (st_backend (cc_storage c)) (st_encryption (cc_storage c)) (st_passphrase (cc_storage c))
       (st_argon2 (cc_storage c))
       ((λ p, mkPostgresSettings (pg_host p) (pg_port p) (pg_dbname p) (pg_user p) ((λ _, password) <$> pg_password p)
                (pg_pool_size p) (pg_ssl_mode p)) <$> st_postgres (cc_storage c)))
    (cc_plugins c) (cc_network c).

(** The configuration shown by the API does not depend on the OIDC client secret or the
    database password: configurations that differ only in them are shown alike. *)
Theorem redaction_hides_secrets secret password secret' password' c :
  to_redacted_json (with_secrets secret password c) = to_redacted_json (with_secrets secret' password' c).
Proof.
  destruct c as [core [provider [[iss cid [x|] jw au]|] wa] [be enc pass a2 [[h po db u [y|] ps ssl]|]] pl net];
    reflexivity.
Qed.

(** The configuration shown by the API contains the master passphrase of the database
    as it is. *)
Theorem redaction_shows_passphrase c :
  json_at ["storage"; "passphrase"] (to_redacted_json c) = Some (opt_str (st_passphrase (cc_storage c))).
Proof.
  destruct c as [core [provider [[iss cid [x|] jw au]|] wa] [be enc pass a2 [[h po db u [y|] ps ssl]|]] pl net];
    reflexivity.
Qed.

(** ** Witnesses *)

(** YAML by name: one known text, and the printer gives its name. *)
Definition served : CoreConfig :=
  mkCoreConfig (mkCoreSettings "0.0.0.0" 443 "Info" "json" [("auth", "debug")] "/data")
    (mkAuthSettings "oidc" (Some (mkOidcSettings "http://id" "core" (Some "s3cret") None None)) None)
    default_storage default_plugins (mkNetworkSettings true default_tls default_cors_origins 60).

Definition one_yaml : YamlConfig := {|
  yaml_parse s := if bool_decide (s = "served") then Ok served else Err "not the text";
  yaml_print c := Ok (bind_address c);
|}.

Definition one_file : Files := λ p, if bool_decide (p = "/etc/core.yaml") then Some (Ok "served") else None.
Definition port_env : Env := λ k, if bool_decide (k = "LIFE_ENGINE_CORE_PORT") then Some "8443" else None.
Definition cli_level : CliArgs := mkCliArgs "/etc/core.yaml" None None (Some "debug") None None.

Lemma loaded_config_sound_witness :
  ∃ c, @load one_yaml None one_file port_env cli_level = Ok c ∧ sound_config c ∧
    cs_port (cc_core c) = 8443%Z ∧ cs_log_level (cc_core c) = "debug" ∧ cs_host (cc_core c) = "0.0.0.0".
Proof.
  destruct (@load one_yaml None one_file port_env cli_level) as [c|e] eqn:E; [|vm_compute in E; discriminate].
  exists c. split; [reflexivity|].
  destruct (@loaded_config_sound one_yaml None one_file port_env cli_level c E) as (Hs & b & Hb & Hh & Hp & Hl & _).
  split; [exact Hs|]. rewrite Hh, Hp, Hl. vm_compute in Hb. injection Hb as <-. vm_compute. auto.
Defined.

Definition rate_patch : json :=
  JObj [("network", JObj [("rate_limit", JObj [("requests_per_minute", JNum (NInt 5))])])].

Lemma rate_patch_canonical : json_canonical rate_patch.
Proof. repeat split; repeat constructor. Qed.

Lemma merge_json_exact_witness :
  let merged := merge_json (config_value served) rate_patch in
  json_at ["network"; "rate_limit"; "requests_per_minute"] merged = Some (JNum (NInt 5)) ∧
  json_at ["network"; "cors"] merged = json_at ["network"; "cors"] (config_value served).
Proof.
  destruct (merge_json_exact (config_value served) rate_patch rate_patch_canonical) as [H1 H2].
  split; [apply H1; reflexivity|apply H2; exact I].
Defined.

Definition serving : ConfigState := mkConfigState served (Some "/etc/core.yaml") None (Some 60%Z) None.

Lemma serving_live : live serving.
Proof. split; [by apply validate_sound|reflexivity]. Qed.

Lemma config_stays_valid_witness :
  let put := @put_config one_yaml None (λ _, "") (λ _, true) in
  let s := foldl (λ s p, (put p.1 p.2 s).2) serving
    [(rate_patch, mkSaveFaults None None); (JNull, mkSaveFaults None None)] in
  live s ∧ ns_requests_per_minute (cc_network (st_config s)) = 5%Z.
Proof.
  split; [|vm_compute; reflexivity].
  exact (proj1 (@config_stays_valid one_yaml None (λ _, "") (λ _, true)
    [(rate_patch, mkSaveFaults None None); (JNull, mkSaveFaults None None)] serving serving_live)).
Defined.

(** Sending back the configuration that was shown replaces the client secret by the
    placeholder, in memory and in the file. *)
Lemma echoed_config_loses_secret :
  let s' := (@put_config one_yaml None (λ _, "") (λ _, true) (to_redacted_json served)
               (mkSaveFaults None None) serving).2 in
  as_oidc (cc_auth (st_config s')) ≫= os_client_secret = Some REDACTED ∧ is_Some (st_file s').
Proof. vm_compute. split; [reflexivity|]. by eexists. Qed.
