(* ===== verification/StartupConfig.v ===== *)
(** * Configuration of the start-up

    [config::startup] of apps/core/src/config.rs: the TOML configuration with its
    environment overrides, validation, redaction and the files written on a first run.
    The TOML and float parsers are parameters; the file system is a map with its
    failures, and the process environment a list. Tracing output is the logged text of
    [load_config] only. *)

From stdpp Require Import base tactics list strings gmap sorting.
From Stdlib Require Import Ascii ZArith Lia.
From S2P Require Import Prelude RustString Json Config Sessions.

Local Open Scope string_scope.

(** ** TOML values *)

(** Tables are listed in key order; [F] is the type of floats. *)
Inductive toml (F : Type) : Type :=
| TString (s : string)
| TInteger (z : Z)
| TFloat (f : F)
| TBoolean (b : bool)
| TDatetime (d : string)
| TArray (xs : list (toml F))
| TTable (t : list (string * toml F)).
Arguments TString {F} s.
Arguments TInteger {F} z.
Arguments TFloat {F} f.
Arguments TBoolean {F} b.
Arguments TDatetime {F} d.
Arguments TArray {F} xs.
Arguments TTable {F} t.

Abbreviation table F := (list (string * toml F)) (only parsing).

Fixpoint tbl_get {F} (k : string) (t : table F) : option (toml F) :=
  match t with
  | [] => None
  | (k', v) :: t' => if bool_decide (k = k') then Some v else tbl_get k t'
  end.

Fixpoint tbl_insert {F} (k : string) (v : toml F) (t : table F) : table F :=
  match t with
  | [] => [(k, v)]
  | (k', v') :: t' =>
      match String.compare k k' with
      | Eq => (k, v) :: t'
      | Lt => (k, v) :: (k', v') :: t'
      | Gt => (k', v') :: tbl_insert k v t'
      end
  end.

(** The toml crate: a document, and why a value is not of the expected shape. *)
Class TomlLib (F : Type) : Type := {
  toml_parse : string → result (toml F) string;
  parse_f64 : string → option F;
  toml_reason : toml F → string;
}.

(** ** Errors *)

(** [EnvVarConversion] prints the value with [{:?}], which is [debug_str]. *)
Inductive ConfigError : Type :=
| IoError (path source : string)
| ParseError (path message : string)
| EnvVarConversion (var value message : string)
| MissingSection (name : string)
| InvalidValue (section field message : string)
| ModuleValidationFailed (module : string) (errors : list string)
| ValidationErrors (errors : list ConfigError).

Fixpoint numbered (i : nat) (texts : list string) : string :=
  match texts with
  | [] => empty_str
  | t :: texts' => String (ascii_of_nat 10) ("  " +:+ show_nat i +:+ ": " +:+ t) +:+ numbered (S i) texts'
  end.

Fixpoint config_error_display (debug_str : string → string) (e : ConfigError) : string :=
  match e with
  | IoError path source => "failed to read config file " +:+ path +:+ ": " +:+ source
  | ParseError path message => "failed to parse config file " +:+ path +:+ ": " +:+ message
  | EnvVarConversion var value message => "env var " +:+ var +:+ "=" +:+ debug_str value +:+ ": " +:+ message
  | MissingSection name => "missing required config section: " +:+ name
  | InvalidValue section field message => "invalid value in " +:+ section +:+ "." +:+ field +:+ ": " +:+ message
  | ModuleValidationFailed module errors =>
      "validation failed for module " +:+ module +:+ ": " +:+ join "; " errors
  | ValidationErrors errors =>
      "configuration validation failed with " +:+ show_nat (length errors) +:+ " error(s):"
      +:+ numbered 1 (map (config_error_display debug_str) errors)
  end.

(** ** Settings *)

Record LoggingConfig : Type := mkLoggingConfig {
  lc_level : string;
  lc_format : string;
  lc_modules : list (string * string);
}.

(** [ic_config] are the keys beside [approved_capabilities]. *)
Record PluginInstanceConfig (F : Type) : Type := mkInstanceConfig {
  ic_approved_capabilities : list string;
  ic_config : table F;
}.
Arguments mkInstanceConfig {F} ic_approved_capabilities ic_config.
Arguments ic_approved_capabilities {F} _.
Arguments ic_config {F} _.

Record StartupConfig (F : Type) : Type := mkStartupConfig {
  sc_storage : toml F;
  sc_auth : toml F;
  sc_transports : table F;
  sc_workflows_path : string;
  sc_plugins_path : string;
  sc_plugins_config : list (string * PluginInstanceConfig F);
  sc_logging : LoggingConfig;
}.
Arguments mkStartupConfig {F} _ _ _ _ _ _ _.
Arguments sc_storage {F} _.
Arguments sc_auth {F} _.
Arguments sc_transports {F} _.
Arguments sc_workflows_path {F} _.
Arguments sc_plugins_path {F} _.
Arguments sc_plugins_config {F} _.
Arguments sc_logging {F} _.

Definition default_empty_table {F} : toml F := TTable [].
Definition default_logging : LoggingConfig := mkLoggingConfig "info" "json" [].
Definition default_startup {F} : StartupConfig F :=
  mkStartupConfig default_empty_table default_empty_table [] "workflows" "plugins" [] default_logging.

(** ** Files of a first run *)

Definition NL : string := String (ascii_of_nat 10) empty_str.
Definition text_lines (ls : list string) : string := foldr (λ l t, l +:+ NL +:+ t) empty_str ls.

Definition STARTER_CONFIG : string :=
  text_lines
    ["# Life Engine Core Configuration";
     "# Generated on first run. Edit to customise your instance.";
     empty_str;
     "[storage]";
     "# Document storage — SQLite adapter";
     "backend = " +:+ QUOTE +:+ "sqlite" +:+ QUOTE;
     "path = " +:+ QUOTE +:+ "data/core.db" +:+ QUOTE;
     "# Uncomment and set a passphrase for at-rest encryption:";
     "# passphrase = " +:+ QUOTE +:+ QUOTE +:+ "  # Or set LIFE_ENGINE_STORAGE_PASSPHRASE env var";
     empty_str;
     "# Blob storage — filesystem adapter";
     "[storage.blob]";
     "backend = " +:+ QUOTE +:+ "filesystem" +:+ QUOTE;
     "path = " +:+ QUOTE +:+ "data/blobs" +:+ QUOTE;
     empty_str;
     "[auth]";
     "provider = " +:+ QUOTE +:+ "local-token" +:+ QUOTE +:+ "  # Options: local-token, oidc, webauthn";
     empty_str;
     "[logging]";
     "level = " +:+ QUOTE +:+ "info" +:+ QUOTE +:+ "            # Options: trace, debug, info, warn, error";
     "format = " +:+ QUOTE +:+ "json" +:+ QUOTE +:+ "           # Options: json, pretty";
     empty_str;
     "[plugins]";
     "path = " +:+ QUOTE +:+ "plugins" +:+ QUOTE;
     empty_str;
     "[workflows]";
     "path = " +:+ QUOTE +:+ "workflows" +:+ QUOTE;
     empty_str;
     "# REST and GraphQL on localhost:8080";
     "[transports.rest]";
     "host = " +:+ QUOTE +:+ "127.0.0.1" +:+ QUOTE;
     "port = 8080"].

Definition DEFAULT_LISTENERS_YAML : string :=
  text_lines
    ["# Life Engine Listener Configuration";
     "# Generated on first run. Edit to customise transport bindings.";
     empty_str;
     "listeners:";
     "  - binding: default";
     "    address: " +:+ QUOTE +:+ "127.0.0.1" +:+ QUOTE;
     "    port: 8080";
     "    # tls:";
     "    #   cert: /path/to/cert.pem";
     "    #   key: /path/to/key.pem";
     "    handlers:";
     "      - handler_type: rest";
     "        routes:";
     "          - method: GET";
     "            path: /api/v1/health";
     "            workflow: system.health";
     "            public: true";
     "          - method: GET";
     "            path: " +:+ QUOTE +:+ "/api/v1/data/:collection" +:+ QUOTE;
     "            workflow: collection.list";
     "          - method: POST";
     "            path: " +:+ QUOTE +:+ "/api/v1/data/:collection" +:+ QUOTE;
     "            workflow: collection.create";
     "          - method: GET";
     "            path: " +:+ QUOTE +:+ "/api/v1/data/:collection/:id" +:+ QUOTE;
     "            workflow: collection.get";
     "          - method: PUT";
     "            path: " +:+ QUOTE +:+ "/api/v1/data/:collection/:id" +:+ QUOTE;
     "            workflow: collection.update";
     "          - method: DELETE";
     "            path: " +:+ QUOTE +:+ "/api/v1/data/:collection/:id" +:+ QUOTE;
     "            workflow: collection.delete";
     "      - handler_type: graphql";
     "        routes:";
     "          - method: POST";
     "            path: /graphql";
     "            workflow: graphql.query"].

Definition DEFAULT_STORAGE_TOML : string :=
  text_lines
    ["# Life Engine Storage Configuration";
     "# Generated on first run. Edit to customise storage backends.";
     empty_str;
     "[document]";
     "# SQLite document adapter";
     "backend = " +:+ QUOTE +:+ "sqlite" +:+ QUOTE;
     "path = " +:+ QUOTE +:+ "data/core.db" +:+ QUOTE;
     empty_str;
     "# Connection pool settings";
     "max_connections = 8";
     "busy_timeout_ms = 5000";
     empty_str;
     "# WAL mode is enabled by default for concurrent reads";
     "journal_mode = " +:+ QUOTE +:+ "wal" +:+ QUOTE;
     empty_str;
     "[blob]";
     "# Filesystem blob adapter";
     "backend = " +:+ QUOTE +:+ "filesystem" +:+ QUOTE;
     "path = " +:+ QUOTE +:+ "data/blobs" +:+ QUOTE;
     empty_str;
     "# Maximum blob size in bytes (default: 50 MiB)";
     "max_blob_size = 52428800";
     empty_str;
     "# Cleanup interval for orphaned blobs in seconds";
     "cleanup_interval_secs = 3600"].

(** The file system: the files, why a file cannot be read although it is there, and
    which directories and files cannot be written. *)
Record StartFs : Type := mkStartFs {
  fs_files : gmap string string;
  fs_unreadable : string → option string;
  fs_no_dir : string → bool;
  fs_no_write : string → bool;
}.

Definition with_files (files : gmap string string) (fs : StartFs) : StartFs :=
  mkStartFs files (fs_unreadable fs) (fs_no_dir fs) (fs_no_write fs).

(** [std::fs::write]; a write that fails changes nothing here. *)
Definition write_file (path text : string) (fs : StartFs) : bool * StartFs :=
  if fs_no_write fs path then (false, fs) else (true, with_files (<[path := text]> (fs_files fs)) fs).

(** [Path::parent] of a path without doubled or trailing separators. *)
Fixpoint parent_go (pieces : list string) : list string :=
  match pieces with
  | [] | [_] => []
  | p :: pieces' => p :: parent_go pieces'
  end.
Definition parent (path : string) : option string :=
  if is_empty path || bool_decide (path = "/") then None
  else match parent_go (split "/" path) with
       | [EmptyString] => Some "/"
       | pieces => Some (join "/" pieces)
       end.

Fixpoint write_missing (dir : string) (files : list (string * string)) (fs : StartFs) : list string * StartFs :=
  match files with
  | [] => ([], fs)
  | (name, content) :: files' =>
      let path := path_join dir name in
      match fs_files fs !! path with
      | Some _ => write_missing dir files' fs
      | None =>
          let '(ok, fs1) := write_file path content fs in
          let '(created, fs2) := write_missing dir files' fs1 in
          ((if ok then [path] else []) ++ created, fs2)%list
      end
  end.

Definition COMPANIONS : list (string * string) :=
  [("listeners.yaml", DEFAULT_LISTENERS_YAML); ("storage.toml", DEFAULT_STORAGE_TOML)].

Definition generate_default_configs (data_dir : string) (fs : StartFs) : list string * StartFs :=
  if fs_no_dir fs data_dir then ([], fs) else write_missing data_dir COMPANIONS fs.

(** ** Overrides *)

Definition PREFIX : string := "LIFE_ENGINE_".

Section Overrides.
Context {F : Type} `{TomlLib F}.

(** The value of a leaf: of the type of the value it replaces, if it parses. *)
Definition typed_value (old : option (toml F)) (value : string) : toml F :=
  match old with
  | Some (TInteger _) => from_option TInteger (TString value) (parse_i64 value)
  | Some (TFloat _) => from_option TFloat (TString value) (parse_f64 value)
  | Some (TBoolean _) => from_option TBoolean (TString value) (parse_bool value)
  | _ => TString value
  end.

Definition inner_table (v : option (toml F)) : table F :=
  match v with
  | Some (TTable t) => t
  | _ => []
  end.

(** [segments] is not empty. *)
Fixpoint set_nested_value (segments : list string) (value : string) (t : table F) : table F :=
  match segments with
  | [] => t
  | [k] => tbl_insert k (typed_value (tbl_get k t) value) t
  | k :: segments' => tbl_insert k (TTable (set_nested_value segments' value (inner_table (tbl_get k t)))) t
  end.

Definition env_segments (key : string) : option (list string) :=
  suffix ← strip_prefix PREFIX key;
  let segments := to_lowercase <$> split "_" suffix in
  if existsb is_empty segments then None else Some segments.

Definition is_override (kv : string * string) : bool :=
  starts_with kv.1 PREFIX && bool_decide (kv.1 ≠ "LIFE_ENGINE_CONFIG").

Definition by_key (a b : string * string) : Prop := String.le a.1 b.1.
#[export] Instance by_key_dec a b : Decision (by_key a b).
Proof. unfold by_key. apply _. Defined.

Definition apply_override (t : table F) (kv : string * string) : table F :=
  match env_segments kv.1 with
  | Some segments => set_nested_value segments kv.2 t
  | None => t
  end.

(** Setting a value never fails. *)
Definition apply_toml_overrides (env : list (string * string)) (t : table F) : table F :=
  foldl apply_override t (merge_sort by_key (filter (λ kv, is_override kv = true) env)).

(** ** Deserialisation *)

(** serde reads a struct from a table, or from an array of its first fields. *)
Definition tfield (names : list string) (v : toml F) (k : string) : option (toml F) :=
  match v with
  | TArray xs => i ← fst <$> list_find (eq k) names; xs !! i
  | TTable t => tbl_get k t
  | _ => None
  end.

Definition tstructured {A} (names : list string) (read : (string → option (toml F)) → option A) (v : toml F) : option A :=
  match v with
  | TTable _ => read (tfield names v)
  | TArray xs => if Nat.leb (length xs) (length names) then read (tfield names v) else None
  | _ => None
  end.

Definition tdefault {A} (d : A) (read : toml F → option A) (v : option (toml F)) : option A :=
  match v with
  | Some v => read v
  | None => Some d
  end.

Definition t_str (v : toml F) : option string := match v with TString s => Some s | _ => None end.
Definition t_table (v : toml F) : option (table F) := match v with TTable t => Some t | _ => None end.
Definition t_strs (v : toml F) : option (list string) := match v with TArray xs => mapM t_str xs | _ => None end.
Definition t_map {A} (read : toml F → option A) (v : toml F) : option (list (string * A)) :=
  t ← t_table v; mapM (λ kv, (λ a, (kv.1, a)) <$> read kv.2) t.

Definition read_instance (v : toml F) : option (PluginInstanceConfig F) :=
  t ← t_table v;
  approved ← tdefault [] t_strs (tbl_get "approved_capabilities" t);
  Some (mkInstanceConfig approved (filter (λ kv, kv.1 ≠ "approved_capabilities") t)).

Definition read_logging : toml F → option LoggingConfig :=
  tstructured ["level"; "format"; "modules"] (λ f,
    level ← tdefault "info" t_str (f "level");
    format ← tdefault "json" t_str (f "format");
    modules ← tdefault [] (t_map t_str) (f "modules");
    Some (mkLoggingConfig level format modules)).

Definition read_workflows : toml F → option string :=
  tstructured ["path"] (λ f, tdefault "workflows" t_str (f "path")).

Definition read_plugin_section : toml F → option (string * list (string * PluginInstanceConfig F)) :=
  tstructured ["path"; "config"] (λ f,
    path ← tdefault "plugins" t_str (f "path");
    config ← tdefault [] (t_map read_instance) (f "config");
    Some (path, config)).

Definition read_startup (t : table F) : option (StartupConfig F) :=
  let get k := tbl_get k t in
  transports ← tdefault [] t_table (get "transports");
  workflows ← tdefault "workflows" read_workflows (get "workflows");
  plugins ← tdefault ("plugins", []) read_plugin_section (get "plugins");
  logging ← tdefault default_logging read_logging (get "logging");
  Some (mkStartupConfig (default default_empty_table (get "storage")) (default default_empty_table (get "auth"))
          transports workflows plugins.1 plugins.2 logging).

(** ** Redaction *)

Definition SENSITIVE_FRAGMENTS : list string := ["key"; "secret"; "password"; "token"].

Definition is_sensitive (k : string) : bool := existsb (contains_str (to_lowercase k)) SENSITIVE_FRAGMENTS.

Fixpoint redact_sensitive (v : toml F) : toml F :=
  match v with
  | TTable t =>
      TTable (map (λ kv, (kv.1, if is_sensitive kv.1 then TString REDACTED else redact_sensitive kv.2)) t)
  | _ => v
  end.

Definition t_strings (xs : list string) : toml F := TArray (TString <$> xs).

Definition instance_value (c : PluginInstanceConfig F) : toml F :=
  TTable (tbl_insert "approved_capabilities" (t_strings (ic_approved_capabilities c)) (ic_config c)).

Definition startup_value (c : StartupConfig F) : toml F :=
  TTable [("auth", sc_auth c);
          ("logging", TTable [("format", TString (lc_format (sc_logging c))); ("level", TString (lc_level (sc_logging c)));
                              ("modules", TTable (prod_map id TString <$> lc_modules (sc_logging c)))]);
          ("plugins", TTable [("config", TTable (prod_map id instance_value <$> sc_plugins_config c));
                              ("path", TString (sc_plugins_path c))]);
          ("storage", sc_storage c);
          ("transports", TTable (sc_transports c));
          ("workflows", TTable [("path", TString (sc_workflows_path c))])].

(** ** Loading *)

(** [config_dir] is the directory for configuration files, if there is a home. *)
Definition startup_path (path : option string) (env : list (string * string)) (config_dir : option string) : string :=
  let given := match path with Some p => if is_empty p then None else Some p | None => None end in
  let from_env := match snd <$> list_find (λ kv, kv.1 = "LIFE_ENGINE_CONFIG") env with
                  | Some (_, p) => if is_empty p then None else Some p
                  | None => None
                  end in
  match given, from_env with
  | Some p, _ => p
  | None, Some p => p
  | None, None =>
      match config_dir with
      | Some dir => path_join (path_join dir "life-engine") "config.toml"
      | None => "~/.config/life-engine/config.toml"
      end
  end.

(** What a missing file leads to. *)
Definition first_run (path : string) (fs : StartFs) : StartFs :=
  let fs1 := (write_file path STARTER_CONFIG fs).2 in
  match parent path with
  | Some dir => (generate_default_configs dir fs1).2
  | None => fs1
  end.

(** The configuration, and what is logged of it. *)
Definition load_config (path : option string) (env : list (string * string)) (config_dir : option string) (fs : StartFs)
    : result (StartupConfig F * toml F) ConfigError * StartFs :=
  let config_path := startup_path path env config_dir in
  let '(table, fs') :=
    match fs_unreadable fs config_path, fs_files fs !! config_path with
    | Some e, _ => (Err (IoError config_path e), fs)
    | None, Some contents =>
        (match toml_parse contents with
         | Err e => Err (ParseError config_path e)
         | Ok (TTable t) => Ok t
         | Ok _ => Ok []
         end, fs)
    | None, None => (Ok [], first_run config_path fs)
    end in
  (let? t := table in
   let raw := apply_toml_overrides env t in
   let? c := ok_or (read_startup raw) (ParseError config_path (toml_reason (TTable raw))) in
   Ok (c, redact_sensitive (startup_value c)), fs').

(** ** Validation *)

Definition storage_empty (c : StartupConfig F) : bool :=
  match sc_storage c with
  | TTable [] => true
  | TTable _ => false
  | _ => true
  end.

Definition startup_checks (c : StartupConfig F) : list (bool * ConfigError) :=
  [(storage_empty c, MissingSection "storage");
   (negb (one_of VALID_LEVELS (lc_level (sc_logging c))),
    InvalidValue "logging" "level" (invalid_choice "level" (lc_level (sc_logging c)) VALID_LEVELS));
   (negb (one_of VALID_FORMATS (lc_format (sc_logging c))),
    InvalidValue "logging" "format" (invalid_choice "format" (lc_format (sc_logging c)) VALID_FORMATS));
   (is_empty (sc_plugins_path c), InvalidValue "plugins" "path" "plugins path must not be empty");
   (is_empty (sc_workflows_path c), InvalidValue "workflows" "path" "workflows path must not be empty")].

Definition startup_errors (c : StartupConfig F) : list ConfigError :=
  omap (λ x : bool * ConfigError, if x.1 then Some x.2 else None) (startup_checks c).

Definition validate_config (c : StartupConfig F) : result unit ConfigError :=
  match startup_errors c with
  | [] => Ok tt
  | [e] => Err e
  | es => Err (ValidationErrors es)
  end.
End Overrides.

(** * Facts about the start-up configuration

    Environment overrides set exactly the values they name, redaction hides every value
    under a sensitive name, validation reports every error; and where the configuration
    does not do what it is meant to. *)

Section Tables.
Context {F : Type}.
Implicit Types (t : list (string * toml F)) (v : toml F).

Lemma tbl_get_insert k k' v t : tbl_get k' (tbl_insert k v t) = if decide (k = k') then Some v else tbl_get k' t.
Proof.
  induction t as [|[l w] t IH]; simpl.
  { case_bool_decide; case_decide; congruence. }
  destruct (String.compare k l) eqn:E; simpl.
  - apply compare_eq in E as ->. repeat case_bool_decide; case_decide; congruence.
  - repeat case_bool_decide; case_decide; try congruence.
  - case_bool_decide as Hl; [|exact IH]. case_decide as Hk; [|done]. subst.
    assert (String.compare l l = Eq) by by apply compare_eq. congruence.
Qed.

(** The value at a path of tables. *)
Fixpoint toml_at (path : list string) (v : toml F) : option (toml F) :=
  match path with
  | [] => Some v
  | k :: path' =>
      match v with
      | TTable t => tbl_get k t ≫= toml_at path'
      | _ => None
      end
  end.

Definition is_table (v : toml F) : bool := match v with TTable _ => true | _ => false end.

Lemma toml_at_inner k path t : path ≠ [] → toml_at (k :: path) (TTable t) = toml_at path (TTable (inner_table (tbl_get k t))).
Proof. intros Hp. destruct path as [|p path]; [done|]. simpl. by destruct (tbl_get k t) as [[]|]. Qed.
End Tables.

(** Neither path leads through the other. *)
Definition apart (p q : list string) : Prop := ¬ p `prefix_of` q ∧ ¬ q `prefix_of` p.

Section Overrides.
Context {F : Type} `{TomlLib F}.
Implicit Types (t : list (string * toml F)).

Lemma set_nested_at segs value t :
  segs ≠ [] →
  toml_at segs (TTable (set_nested_value segs value t)) = Some (typed_value (toml_at segs (TTable t)) value).
Proof.
  revert t. induction segs as [|k segs IH]; intros t Hs; [done|]. destruct segs as [|k' segs].
  - simpl. rewrite tbl_get_insert, decide_True by done. simpl. by destruct (tbl_get k t).
  - rewrite (toml_at_inner k (k' :: segs) t) by done. cbn [set_nested_value]. rewrite toml_at_inner by done.
    rewrite tbl_get_insert, decide_True by done. apply IH. done.
Qed.

Lemma set_nested_apart segs value t q :
  apart segs q → toml_at q (TTable (set_nested_value segs value t)) = toml_at q (TTable t).
Proof.
  revert t q. induction segs as [|k segs IH]; intros t q [H1 H2].
  { destruct H1. apply prefix_nil. }
  destruct q as [|l q]; [destruct H2; apply prefix_nil|].
  destruct (decide (k = l)) as [<-|Hne].
  - assert (apart segs q) as Hap by (split; intros Hp; [apply H1|apply H2]; by apply prefix_cons).
    destruct segs as [|k' segs]; [by destruct Hap as [[] _]; apply prefix_nil|].
    destruct q as [|l' q]; [by destruct Hap as [_ []]; apply prefix_nil|].
    rewrite !(toml_at_inner k (l' :: q)) by done. cbn [set_nested_value].
    rewrite tbl_get_insert, decide_True by done. by apply IH.
  - assert (∀ v, toml_at (l :: q) (TTable (tbl_insert k v t)) = toml_at (l :: q) (TTable t)) as Hi.
    { intros v. simpl. by rewrite tbl_get_insert, decide_False. }
    destruct segs; apply Hi.
Qed.

Lemma env_segments_nonempty key segs : env_segments key = Some segs → segs ≠ [].
Proof.
  unfold env_segments. destruct (strip_prefix PREFIX key) as [suffix|]; [|done]. simpl.
  destruct (existsb _ _); [done|]. intros [= <-] Hn. apply fmap_nil_inv in Hn. by apply split_not_nil in Hn.
Qed.

(** Variables whose paths are apart. *)
Definition paths_apart (vars : list (string * string)) : Prop :=
  ∀ a b p q, a ∈ vars → b ∈ vars → a ≠ b → env_segments a.1 = Some p → env_segments b.1 = Some q → apart p q.

Lemma apart_sym p q : apart p q → apart q p.
Proof. unfold apart. tauto. Qed.

Lemma overrides_fold_apart vars t q :
  (∀ kv p, kv ∈ vars → env_segments kv.1 = Some p → apart p q) →
  toml_at q (TTable (foldl apply_override t vars)) = toml_at q (TTable t).
Proof.
  revert t. induction vars as [|kv vars IH]; intros t Hq; simpl; [done|]. rewrite IH by (intros; eapply Hq; [by right|done]).
  unfold apply_override. destruct (env_segments kv.1) as [p|] eqn:E; [|done].
  apply set_nested_apart. eapply Hq; [left|done].
Qed.

Lemma overrides_fold_at vars t kv p :
  NoDup vars → paths_apart vars → kv ∈ vars → env_segments kv.1 = Some p →
  toml_at p (TTable (foldl apply_override t vars)) = Some (typed_value (toml_at p (TTable t)) kv.2).
Proof.
  revert t. induction vars as [|x vars IH]; intros t Hnd Hap Hin Hp; [by apply not_elem_of_nil in Hin|]. simpl.
  apply NoDup_cons in Hnd as [Hx Hnd]. apply elem_of_cons in Hin as [->|Hin].
  - rewrite overrides_fold_apart.
    + unfold apply_override. rewrite Hp. apply set_nested_at. by eapply env_segments_nonempty.
    + intros y q Hy Hq. apply (Hap y x); [by right|by left|congruence|done..].
  - rewrite IH; [|done|by intros a b ? ? ? ?; apply Hap; right|done..].
    do 2 f_equal. unfold apply_override. destruct (env_segments x.1) as [q|] eqn:E; [|done].
    apply set_nested_apart. apply (Hap x kv); [by left|by right|congruence|done..].
Qed.
End Overrides.

(** Environment variables override exactly what they name. Where the paths of the
    LIFE_ENGINE variables do not lead through one another, each sets the value at its
    path, as an integer, float or boolean where it replaces one and parses as such and
    as a text otherwise, and every value at a path apart from theirs stays. *)
Theorem env_overrides_exact {F} `{TomlLib F} env (t : list (string * toml F)) :
  NoDup env → paths_apart (filter (λ kv, is_override kv = true) env) →
  (∀ kv p, kv ∈ env → is_override kv = true → env_segments kv.1 = Some p →
     toml_at p (TTable (apply_toml_overrides env t)) = Some (typed_value (toml_at p (TTable t)) kv.2)) ∧
  (∀ q, (∀ kv p, kv ∈ env → is_override kv = true → env_segments kv.1 = Some p → apart p q) →
     toml_at q (TTable (apply_toml_overrides env t)) = toml_at q (TTable t)).
Proof.
  intros Hnd Hap. unfold apply_toml_overrides. set (vars := filter _ env) in *.
  assert (∀ kv, kv ∈ merge_sort by_key vars ↔ is_override kv = true ∧ kv ∈ env) as Hin.
  { intros kv. rewrite merge_sort_Permutation. unfold vars. by rewrite list_elem_of_filter. }
  split.
  - intros kv p Hkv Hov Hp. apply overrides_fold_at; [| |by apply Hin|done].
    + rewrite merge_sort_Permutation. by apply NoDup_filter.
    + intros a b p1 p2 Ha Hb. rewrite merge_sort_Permutation in Ha, Hb. by apply Hap.
  - intros q Hq. apply overrides_fold_apart. intros kv p [Hov Hkv]%Hin. by apply Hq.
Qed.

(** ** Redaction *)

Section Redaction.
Context {F : Type}.
Implicit Types (v : toml F).

Lemma redact_get k (t : list (string * toml F)) :
  tbl_get k (map (λ kv, (kv.1, if is_sensitive kv.1 then TString REDACTED else redact_sensitive kv.2)) t) =
  (λ v, if is_sensitive k then TString REDACTED else redact_sensitive v) <$> tbl_get k t.
Proof. induction t as [|[l w] t IH]; simpl; [done|]. case_bool_decide; [by subst|done]. Qed.

Lemma redact_at_plain path v :
  existsb is_sensitive path = false → toml_at path (redact_sensitive v) = redact_sensitive <$> toml_at path v.
Proof.
  revert v. induction path as [|k path IH]; intros v Hp; [done|]. simpl in Hp. apply orb_false_iff in Hp as [Hk Hp].
  destruct v as [| | | | | |t]; try done. simpl. rewrite redact_get, Hk. destruct (tbl_get k t); simpl; [by apply IH|done].
Qed.

Lemma redact_at_sensitive path v :
  existsb is_sensitive path = true →
  toml_at path (redact_sensitive v) = None ∨ toml_at path (redact_sensitive v) = Some (TString REDACTED).
Proof.
  revert v. induction path as [|k path IH]; intros v Hp; [done|].
  destruct v as [| | | | | |t]; try (by left). simpl. rewrite redact_get. destruct (tbl_get k t) as [w|]; [|by left]. simpl.
  destruct (is_sensitive k) eqn:Hk; [by destruct path; auto|]. simpl in Hp. rewrite Hk in Hp. by apply IH.
Qed.
End Redaction.

(** What is logged of a configuration hides every value under a name with key, secret,
    password or token in it, at every depth of tables, and shows every other text,
    number, date and list as it is. *)
Theorem redaction_exact {F} (v : toml F) path :
  (existsb is_sensitive path = true →
     toml_at path (redact_sensitive v) = None ∨ toml_at path (redact_sensitive v) = Some (TString REDACTED)) ∧
  (existsb is_sensitive path = false → ∀ w, toml_at path v = Some w → is_table w = false →
     toml_at path (redact_sensitive v) = Some w).
Proof.
  split; [apply redact_at_sensitive|]. intros Hp w Hw Ht. rewrite redact_at_plain, Hw by done. by destruct w.
Qed.

(** ** Validation *)

(** Validation reports every error: a configuration is accepted exactly when no check
    finds fault, one error is reported as it is, and more as a list of all of them. *)
Theorem startup_errors_all_reported {F} (c : StartupConfig F) :
  (validate_config c = Ok tt ↔ Forall (λ x, x.1 = false) (startup_checks c)) ∧
  ∀ e, (true, e) ∈ startup_checks c →
    validate_config c = Err e ∨ ∃ es, validate_config c = Err (ValidationErrors es) ∧ e ∈ es.
Proof.
  unfold validate_config, startup_errors. generalize (startup_checks c) as cs. intros cs.
  set (errs := omap _ cs).
  assert (∀ e, (true, e) ∈ cs → e ∈ errs) as Hin.
  { intros e He. apply list_elem_of_omap. exists (true, e). done. }
  assert (errs = [] ↔ Forall (λ x, x.1 = false) cs) as Hnil.
  { split.
    - intros Hn. apply Forall_forall. intros [[] e] Hx; [|done]. apply Hin in Hx. rewrite Hn in Hx.
      by apply not_elem_of_nil in Hx.
    - intros Hf. subst errs. clear Hin. induction Hf as [|[b e] cs' Hb _ IH]; [done|]. simpl in *. by subst b. }
  split.
  - rewrite <- Hnil. by destruct errs as [|e [|e' es]].
  - intros e He%Hin. destruct errs as [|e1 [|e2 es]]; [by apply not_elem_of_nil in He| |].
    + left. by apply list_elem_of_singleton in He as ->.
    + right. by eexists.
Qed.

(** ** Where it fails *)

(** A first run does not use the configuration it writes: with no file, the starter
    configuration is saved, but the configuration in use has no storage section, which
    validation refuses. *)
Theorem first_run_misses_storage {F} `{TomlLib F} path config_dir fs :
  let p := startup_path path [] config_dir in
  fs_unreadable fs p = None → fs_files fs !! p = None → fs_no_write fs p = false →
  (∀ d, parent p = Some d → path_join d "listeners.yaml" ≠ p ∧ path_join d "storage.toml" ≠ p) →
  ∃ logged fs', load_config path [] config_dir fs = (Ok (default_startup, logged), fs') ∧
    fs_files fs' !! p = Some STARTER_CONFIG ∧
    validate_config (default_startup (F := F)) = Err (MissingSection "storage").
Proof.
  intros p Hu Hf Hw Hd. unfold load_config. fold p. rewrite Hu, Hf. cbn [result_bind].
  eexists _, _. split; [reflexivity|]. split; [|reflexivity].
  unfold first_run, write_file. rewrite Hw. cbn [snd]. destruct (parent p) as [d|]; cbn [fs_files with_files].
  - destruct (Hd d eq_refl) as [H1 H2]. unfold generate_default_configs. cbn [fs_no_dir with_files].
    destruct (fs_no_dir fs d); cbn [snd fs_files with_files]; [by rewrite lookup_insert_eq|].
    unfold COMPANIONS, write_missing, write_file. cbn [fs_files fs_no_write with_files].
    repeat case_match; simplify_eq/=; rewrite ?lookup_insert_ne by done; by rewrite lookup_insert_eq.
  - by rewrite lookup_insert_eq.
Qed.

(** The master passphrase is logged: given in the environment, it is part of what is
    logged of the configuration. *)
Theorem passphrase_is_logged {F} `{TomlLib F} passphrase path config_dir fs :
  let env := [("LIFE_ENGINE_STORAGE_PASSPHRASE", passphrase)] in
  let p := startup_path path env config_dir in
  fs_unreadable fs p = None → fs_files fs !! p = None →
  ∃ c logged, (load_config path env config_dir fs).1 = Ok (c, logged) ∧
    toml_at ["storage"; "passphrase"] logged = Some (TString passphrase).
Proof.
  intros env p Hu Hf. unfold load_config. fold p. rewrite Hu, Hf. cbn [result_bind].
  eexists _, _. split; reflexivity.
Qed.

(** The provider is compared with local-token letter by letter, but accepted in any
    case: a configuration with another spelling of it is accepted for a public address,
    and the core then runs with local tokens. *)
Theorem respelled_provider_exposed `{WebauthnRs} `{Chrono} `{TokenHash} `{Jsonwebtoken} :
  ∃ c, validate c = Ok tt ∧ is_localhost (cs_host (cc_core c)) = false ∧
    ∀ oidc webauthn local, (build_auth_provider (as_provider (cc_auth c)) oidc webauthn local).1 = local_provider.
Proof.
  exists (mkCoreConfig (mkCoreSettings "0.0.0.0" 443 "info" "json" [] "/data") (mkAuthSettings "Local-Token" None None)
            default_storage default_plugins (mkNetworkSettings true default_tls default_cors_origins 60)).
  split; [vm_compute; reflexivity|]. split; [reflexivity|]. done.
Qed.

(** ** Witnesses *)

Definition no_floats : TomlLib Empty_set := {|
  toml_parse s := if is_empty s then Ok (TTable []) else Err "not empty";
  parse_f64 _ := None;
  toml_reason _ := empty_str;
|}.

Definition server_table : list (string * toml Empty_set) :=
  [("storage", TString "sqlite"); ("transports", TTable [("rest", TTable [("port", TInteger 80)])])].
Definition server_env : list (string * string) :=
  [("LIFE_ENGINE_TRANSPORTS_REST_PORT", "8080"); ("LIFE_ENGINE_STORAGE_PATH", "db"); ("PATH", "/bin")].

Lemma env_overrides_exact_witness :
  let t := TTable (@apply_toml_overrides _ no_floats server_env server_table) in
  toml_at ["transports"; "rest"; "port"] t = Some (TInteger 8080) ∧
  toml_at ["storage"; "path"] t = Some (TString "db").
Proof.
  destruct (@env_overrides_exact _ no_floats server_env server_table) as [H1 _].
  - apply (bool_decide_unpack _). vm_compute. exact I.
  - intros a b p q Ha Hb Hne Hp Hq.
    vm_compute in Ha, Hb. apply elem_of_cons in Ha as [->|Ha%list_elem_of_singleton];
      apply elem_of_cons in Hb as [->|Hb%list_elem_of_singleton]; subst; try congruence;
      vm_compute in Hp, Hq; simplify_eq; split; intros [? ?]; simplify_list_eq.
  - split.
    + rewrite (H1 ("LIFE_ENGINE_TRANSPORTS_REST_PORT", "8080")) by (first [reflexivity|left]). reflexivity.
    + rewrite (H1 ("LIFE_ENGINE_STORAGE_PATH", "db")) by (first [reflexivity|right; left]). reflexivity.
Defined.

Lemma redaction_exact_witness :
  let v := TTable [("api_key", TString "k"); ("path", TString "p")] : toml Empty_set in
  toml_at ["api_key"] (redact_sensitive v) = Some (TString REDACTED) ∧
  toml_at ["path"] (redact_sensitive v) = Some (TString "p").
Proof.
  intros v. split.
  - destruct (proj1 (redaction_exact v ["api_key"]) eq_refl) as [H|H]; [discriminate H|exact H].
  - apply (proj2 (redaction_exact v ["path"])); reflexivity.
Defined.

Lemma startup_errors_all_reported_witness :
  let c := mkStartupConfig (TTable []) (TTable []) [] "" "plugins" [] default_logging : StartupConfig Empty_set in
  ∃ es, validate_config c = Err (ValidationErrors es) ∧ MissingSection "storage" ∈ es.
Proof.
  intros c. destruct (proj2 (startup_errors_all_reported c) (MissingSection "storage")) as [H|H].
  - left.
  - discriminate H.
  - exact H.
Defined.

Definition bare_disk : StartFs := mkStartFs ∅ (λ _, None) (λ _, false) (λ _, false).

Lemma first_run_misses_storage_witness :
  ∃ logged fs', @load_config _ no_floats (Some "/etc/le/config.toml") [] None bare_disk
                = (Ok (default_startup, logged), fs') ∧
    fs_files fs' !! "/etc/le/config.toml" = Some STARTER_CONFIG.
Proof.
  destruct (@first_run_misses_storage _ no_floats (Some "/etc/le/config.toml") None bare_disk)
    as (logged & fs' & H1 & H2 & _); [reflexivity..| |].
  - intros d Hd. vm_compute in Hd. injection Hd as <-. split; discriminate.
  - exists logged, fs'. exact (conj H1 H2).
Defined.

Lemma passphrase_is_logged_witness :
  ∃ c logged, (@load_config _ no_floats (Some "/etc/le/config.toml") [("LIFE_ENGINE_STORAGE_PASSPHRASE", "hunter2")]
                 None bare_disk).1 = Ok (c, logged) ∧
    toml_at ["storage"; "passphrase"] logged = Some (TString "hunter2").
Proof. exact (@passphrase_is_logged _ no_floats "hunter2" (Some "/etc/le/config.toml") None bare_disk eq_refl eq_refl). Defined.
