(* ===== verification/Dav.v ===== *)
(** * DAV utilities (packages/dav-utils)

    The texts shared by the CalDAV and CardDAV connectors and servers: line unfolding and
    escapes (module [Text]), vCard property lines ([Vcard]), iCalendar date-times
    ([Ical]), joining URLs ([Url]), ETags and the sync state ([Etag]), and WebDAV XML
    ([DavXml]). The base64 encoder, chrono's parsers, the time zone database and
    quick-xml are parameters. *)

From stdpp Require Import base tactics list gmap sets strings pretty.
From Stdlib Require Import Ascii ZArith Lia.
From S2P Require Import Prelude RustString RustText.

Local Open Scope string_scope.

(** ** text.rs *)

Module Text.

Definition TAB : ascii := "009".

(** One round of the loop of [unfold_lines]. *)
Definition unfold_line (result line : string) : string :=
  match line with
  | String c rest =>
      if bool_decide (c = " "%char) || bool_decide (c = TAB) then result +:+ rest
      else (if is_empty result then result else result +:+ singleton LF) +:+ line
  | EmptyString => if is_empty result then result else result +:+ singleton LF
  end.

Definition unfold_lines (raw : string) : string :=
  let normalized := replace_char CR (singleton LF) (replace_str CRLF (singleton LF) raw) in
  foldl unfold_line empty_str (lines normalized).

(** The loop over [chars()] with its [peek]. *)
Fixpoint decode_escaped_value (value : string) : string :=
  match value with
  | EmptyString => empty_str
  | String c rest =>
      if bool_decide (c = BACKSLASH) then
        match rest with
        | String d rest' =>
            if bool_decide (d = "n"%char) then String LF (decode_escaped_value rest')
            else if bool_decide (d = ","%char) then String "," (decode_escaped_value rest')
            else if bool_decide (d = ";"%char) then String ";" (decode_escaped_value rest')
            else if bool_decide (d = BACKSLASH) then String BACKSLASH (decode_escaped_value rest')
            else String BACKSLASH (decode_escaped_value rest)
        | EmptyString => singleton BACKSLASH
        end
      else String c (decode_escaped_value rest)
  end.

Definition non_empty (s : string) : option string :=
  let trimmed := trim s in
  if is_empty trimmed then None else Some (decode_escaped_value trimmed).
End Text.

(** ** vcard.rs *)

Module Vcard.

Definition escape_value (s : string) : string :=
  replace_char LF (String BACKSLASH "n")
    (replace_char ";" (String BACKSLASH ";")
      (replace_char "," (String BACKSLASH ",")
        (replace_char BACKSLASH (String BACKSLASH (singleton BACKSLASH)) s))).

Definition param_of (p : string) : string * string :=
  default ("TYPE", p) (split_once "=" p).

Definition parse_property_line (line : string) :
    option (string * list (string * string) * string) :=
  match split_once ":" (strip_cr line) with
  | Some (prop_with_params, value) =>
      match split ";" prop_with_params with
      | prop_name :: parts => Some (prop_name, param_of <$> parts, value)
      | [] => None
      end
  | None => None
  end.

Definition has_type_param (params : list (string * string)) (value : string) : bool :=
  existsb (λ kv, eq_ignore_ascii_case (fst kv) "TYPE"
                 && existsb (λ t, eq_ignore_ascii_case t value) (split "," (snd kv))) params.

(** The two nested loops with their early return. *)
Fixpoint extract_type (params : list (string * string)) : option string :=
  match params with
  | [] => None
  | (key, value) :: rest =>
      if eq_ignore_ascii_case key "TYPE" then
        match List.find (λ t, negb (eq_ignore_ascii_case t "pref")) (split "," value) with
        | Some t => Some (to_lowercase t)
        | None => extract_type rest
        end
      else extract_type rest
  end.
End Vcard.

(** ** ical.rs *)

Module Ical.

Definition params_t : Type := option (list (string * list string)).

Definition is_date_only (value : string) : bool :=
  bool_decide (String.length value = 8) && all_chars is_ascii_digit value.

(** Times are seconds of UTC from 1970. [parse_date] and [parse_date_time] are chrono's
    [parse_from_str] with ["%Y%m%d"] and ["%Y%m%dT%H%M%S"]; [earliest tz naive] is
    [tz.from_local_datetime(naive).earliest()] in UTC for a zone of the database, and
    [None] stands for a name the database does not have. *)
Section Ical.
Context (parse_date parse_date_time : string → option Z).
Context (earliest : string → option (Z → option Z)).

Inductive ical_error : Type :=
| DateParamIsDateTime (value : string)
| InvalidDate (value : string)
| InvalidDateTime (value : string)
| AmbiguousLocalTime (value tz_name : string).

Definition is_date_param (params : params_t) : bool :=
  match params with
  | Some ps =>
      existsb (λ kv, bool_decide (fst kv = "VALUE") && existsb (λ v, bool_decide (v = "DATE")) (snd kv)) ps
  | None => false
  end.

(** The name of the first TZID parameter. *)
Definition tzid (params : params_t) : option string :=
  match params with
  | Some ps =>
      match List.find (λ kv, bool_decide (fst kv = "TZID")) ps with
      | Some (_, tz_name :: _) => Some tz_name
      | _ => None
      end
  | None => None
  end.

Definition parse_ical_datetime (value : string) (params : params_t) : result Z ical_error :=
  let value := trim value in
  if is_date_only value || is_date_param params then
    ok_or (parse_date value)
      (if is_date_param params && negb (is_date_only value) then DateParamIsDateTime value
       else InvalidDate value)
  else
    match strip_suffix_str "Z" value with
    | Some without_z => ok_or (parse_date_time without_z) (InvalidDateTime value)
    | None =>
        match tzid params with
        | Some tz_name =>
            let? naive := ok_or (parse_date_time value) (InvalidDateTime value) in
            match earliest tz_name with
            | Some local => ok_or (local naive) (AmbiguousLocalTime value tz_name)
            | None => ok_or (parse_date_time value) (InvalidDateTime value)
            end
        | None => ok_or (parse_date_time value) (InvalidDateTime value)
        end
    end.
End Ical.
End Ical.

(** ** url.rs and auth.rs *)

Module Url.

(** The fold that skips a slash after a slash. *)
Fixpoint squeeze_slashes (after_slash : bool) (s : string) : string :=
  match s with
  | EmptyString => empty_str
  | String c s' =>
      if bool_decide (c = "/"%char) then
        if after_slash then squeeze_slashes true s' else String c (squeeze_slashes true s')
      else String c (squeeze_slashes false s')
  end.

Definition join_dav_url (base path : string) : string :=
  let joined := trim_end_matches "/" base +:+ "/" +:+ trim_start_matches "/" path in
  match find_str "://" joined with
  | Some (scheme, rest) => scheme +:+ "://" +:+ squeeze_slashes false (String.substring 3 (String.length rest - 3) rest)
  | None => joined
  end.

Section Basic.
(** [base64::engine::general_purpose::STANDARD.encode]. *)
Context (base64_encode : string → string).

Definition basic_auth_header (username password : string) : string :=
  "Basic " +:+ base64_encode (username +:+ ":" +:+ password).
End Basic.
End Url.

(** ** etag.rs and sync_state.rs *)

Module Etag.

(** The trait of fetched resources. *)
Class DavResource (R : Type) := {
  href : R → string;
  etag : R → string;
}.

Record DavSyncState : Type := {
  dss_sync_token : option string;
  dss_ctag : option string;
  dss_etags : gmap string string;
}.

Definition is_changed {R} `{DavResource R} (stored_etags : gmap string string) (r : R) : bool :=
  match stored_etags !! href r with
  | Some stored_etag => negb (bool_decide (stored_etag = etag r))
  | None => true
  end.

Definition filter_changed {R} `{DavResource R} (stored_etags : gmap string string)
    (fetched : list R) : list R :=
  filter (λ r, is_changed stored_etags r = true) fetched.
End Etag.

(** ** dav_xml.rs *)

Module DavXml.

(** A literal of the source, with its double quotes written as single quotes. *)
Definition dq (s : string) : string := replace_char "'" (singleton QUOTE) s.

Definition line (s : string) : string := s +:+ CRLF.

Inductive PropfindRequest : Type :=
| AllProp
| PropName
| Prop_ (properties : list (string * string)).

Inductive ReportRequest : Type :=
| CalendarQuery (properties : list (string * string))
| CalendarMultiget (properties : list (string * string)) (hrefs : list string)
| AddressbookQuery (properties : list (string * string))
| AddressbookMultiget (properties : list (string * string)) (hrefs : list string).

(** The events of quick-xml the parsers look at. [EvText] carries the unescaped text, or
    [None] where [unescape] fails. *)
Inductive Event : Type :=
| EvStart (name : string)
| EvEmpty (name : string)
| EvText (text : option string)
| EvEnd (name : string)
| EvOther.

Definition local_name (name : string) : string :=
  match rsplit_once ":" name with
  | Some (_, local) => local
  | None => name
  end.

Definition resolve_namespace (name : string) : string :=
  match split_once ":" name with
  | Some (prefix, _) =>
      if bool_decide (prefix = "D") then "DAV:"
      else if bool_decide (prefix = "C") then "urn:ietf:params:xml:ns:caldav"
      else if bool_decide (prefix = "CR") then "urn:ietf:params:xml:ns:carddav"
      else if bool_decide (prefix = "CS") then "http://calendarserver.org/ns/"
      else "DAV:"
  | None => "DAV:"
  end.

Record PfState : Type := {
  pf_allprop : bool;
  pf_propname : bool;
  pf_in_prop : bool;
  pf_properties : list (string * string);
}.

Definition pf_init : PfState :=
  {| pf_allprop := false; pf_propname := false; pf_in_prop := false; pf_properties := [] |}.

(** [properties.push((ns, name))]. *)
Definition pf_push (s : PfState) (name : string) : PfState :=
  {| pf_allprop := pf_allprop s; pf_propname := pf_propname s; pf_in_prop := pf_in_prop s;
     pf_properties := (pf_properties s ++ [(resolve_namespace name, local_name name)])%list |}.

Definition pf_set_in (b : bool) (s : PfState) : PfState :=
  {| pf_allprop := pf_allprop s; pf_propname := pf_propname s; pf_in_prop := b;
     pf_properties := pf_properties s |}.

Definition pf_flags (a p : bool) (s : PfState) : PfState :=
  {| pf_allprop := pf_allprop s || a; pf_propname := pf_propname s || p;
     pf_in_prop := pf_in_prop s; pf_properties := pf_properties s |}.

Definition pf_step (s : PfState) (e : Event) : PfState :=
  match e with
  | EvStart name =>
      let local := local_name name in
      if bool_decide (local = "allprop") then pf_flags true false s
      else if bool_decide (local = "propname") then pf_flags false true s
      else if bool_decide (local = "prop") && negb (pf_in_prop s) then pf_set_in true s
      else if pf_in_prop s then pf_push s name
      else s
  | EvEmpty name =>
      let local := local_name name in
      if bool_decide (local = "allprop") then pf_flags true false s
      else if bool_decide (local = "propname") then pf_flags false true s
      else if pf_in_prop s then pf_push s name
      else s
  | EvEnd name => if bool_decide (local_name name = "prop") then pf_set_in false s else s
  | EvText _ | EvOther => s
  end.

Definition pf_result (s : PfState) : PropfindRequest :=
  if pf_allprop s then AllProp
  else if pf_propname s then PropName
  else match pf_properties s with
       | [] => AllProp
       | ps => Prop_ ps
       end.

Definition report_types : list string :=
  ["calendar-query"; "calendar-multiget"; "addressbook-query"; "addressbook-multiget"].

Record RpState : Type := {
  rp_type : option string;
  rp_in_prop : bool;
  rp_in_href : bool;
  rp_properties : list (string * string);
  rp_hrefs : list string;
  rp_buf : string;
}.

Definition rp_init : RpState :=
  {| rp_type := None; rp_in_prop := false; rp_in_href := false; rp_properties := [];
     rp_hrefs := []; rp_buf := empty_str |}.

Definition rp_push (s : RpState) (name : string) : RpState :=
  {| rp_type := rp_type s; rp_in_prop := rp_in_prop s; rp_in_href := rp_in_href s;
     rp_properties := (rp_properties s ++ [(resolve_namespace name, local_name name)])%list;
     rp_hrefs := rp_hrefs s; rp_buf := rp_buf s |}.

Definition rp_set_type (t : string) (s : RpState) : RpState :=
  {| rp_type := Some t; rp_in_prop := rp_in_prop s; rp_in_href := rp_in_href s;
     rp_properties := rp_properties s; rp_hrefs := rp_hrefs s; rp_buf := rp_buf s |}.

Definition rp_set_in (b : bool) (s : RpState) : RpState :=
  {| rp_type := rp_type s; rp_in_prop := b; rp_in_href := rp_in_href s;
     rp_properties := rp_properties s; rp_hrefs := rp_hrefs s; rp_buf := rp_buf s |}.

Definition rp_set_href (b : bool) (hrefs : list string) (buf : string) (s : RpState) : RpState :=
  {| rp_type := rp_type s; rp_in_prop := rp_in_prop s; rp_in_href := b;
     rp_properties := rp_properties s; rp_hrefs := hrefs; rp_buf := buf |}.

Definition rp_step (s : RpState) (e : Event) : RpState :=
  match e with
  | EvStart name =>
      let local := local_name name in
      if contains report_types local && bool_decide (rp_type s = None) then rp_set_type local s
      else if bool_decide (local = "prop") && negb (rp_in_prop s) then rp_set_in true s
      else if bool_decide (local = "href") then rp_set_href true (rp_hrefs s) empty_str s
      else if rp_in_prop s then rp_push s name
      else s
  | EvEmpty name =>
      let local := local_name name in
      if contains report_types local && bool_decide (rp_type s = None) then rp_set_type local s
      else if rp_in_prop s then rp_push s name
      else s
  | EvText text =>
      if rp_in_href s then
        match text with
        | Some t => rp_set_href true (rp_hrefs s) (rp_buf s +:+ t) s
        | None => s
        end
      else s
  | EvEnd name =>
      let local := local_name name in
      if bool_decide (local = "prop") then rp_set_in false s
      else if bool_decide (local = "href") then
        let h := trim (rp_buf s) in
        rp_set_href false (if is_empty h then rp_hrefs s else (rp_hrefs s ++ [h])%list) empty_str s
      else s
  | EvOther => s
  end.

Definition rp_result (s : RpState) : result ReportRequest string :=
  match rp_type s with
  | Some t =>
      if bool_decide (t = "calendar-query") then Ok (CalendarQuery (rp_properties s))
      else if bool_decide (t = "calendar-multiget") then
        Ok (CalendarMultiget (rp_properties s) (rp_hrefs s))
      else if bool_decide (t = "addressbook-query") then Ok (AddressbookQuery (rp_properties s))
      else if bool_decide (t = "addressbook-multiget") then
        Ok (AddressbookMultiget (rp_properties s) (rp_hrefs s))
      else Err ("Unknown REPORT type: " +:+ t)
  | None => Err "No recognized REPORT element found"
  end.

Section Reader.
(** What repeated [reader.read_event()] yields before [Eof] or the first error. *)
Context (read_events : string → list Event * option string).

(** The event loop: an error ends it. *)
Definition run_events {S} (step : S → Event → S) (init : S) (body : string) : result S string :=
  let '(events, error) := read_events body in
  match error with
  | Some e => Err ("XML parse error: " +:+ e)
  | None => Ok (foldl step init events)
  end.

Definition parse_propfind (body : string) : result PropfindRequest string :=
  let trimmed := trim body in
  if is_empty trimmed then Ok AllProp
  else let? s := run_events pf_step pf_init trimmed in Ok (pf_result s).

Definition parse_report (body : string) : result ReportRequest string :=
  let trimmed := trim body in
  if is_empty trimmed then Err "REPORT request body is empty"
  else let? s := run_events rp_step rp_init trimmed in rp_result s.
End Reader.

Definition xml_escape (s : string) : string :=
  replace_char "'" "&apos;"
    (replace_char QUOTE "&quot;"
      (replace_char ">" "&gt;"
        (replace_char "<" "&lt;"
          (replace_char "&" "&amp;" s)))).

Inductive DavProperty : Type :=
| ETag (etag : string)
| ContentType (ct : string)
| CustomText (element content : string)
| CustomRaw (raw : string).

Record DavResourceEntry : Type := {
  re_href : string;
  re_properties : list DavProperty;
}.

Definition write_property (p : DavProperty) : string :=
  match p with
  | ETag etag => line ("        <D:getetag>" +:+ xml_escape etag +:+ "</D:getetag>")
  | ContentType ct => line ("        <D:getcontenttype>" +:+ xml_escape ct +:+ "</D:getcontenttype>")
  | CustomText element content =>
      line ("        <" +:+ element +:+ ">" +:+ xml_escape content +:+ "</" +:+ element +:+ ">")
  | CustomRaw raw => line ("        " +:+ raw)
  end.

(** The text appended for each of a list. *)
Definition push_each {A} (f : A → string) (xs : list A) : string :=
  foldr (λ x acc, f x +:+ acc) empty_str xs.

Definition write_response_entry (xml : string) (entry : DavResourceEntry) : string :=
  xml +:+ line "  <D:response>"
  +:+ line ("    <D:href>" +:+ xml_escape (re_href entry) +:+ "</D:href>")
  +:+ line "    <D:propstat>"
  +:+ line "      <D:prop>"
  +:+ push_each write_property (re_properties entry)
  +:+ line "      </D:prop>"
  +:+ line "      <D:status>HTTP/1.1 200 OK</D:status>"
  +:+ line "    </D:propstat>"
  +:+ line "  </D:response>".

Definition is_prefix_char (c : ascii) : bool :=
  is_ascii_alphanumeric c || bool_decide (c ∈ ["-"%char; "_"%char; "."%char]).

Definition valid_declaration (token : string) : bool :=
  match strip_prefix "xmlns:" token with
  | None => false
  | Some after_xmlns =>
      match split_once "=" after_xmlns with
      | None => false
      | Some (prefix, uri) =>
          negb (is_empty prefix || negb (all_chars is_prefix_char prefix))
          && (starts_with uri (singleton QUOTE) && ends_with uri (singleton QUOTE)
              && (2 <=? String.length uri)%nat)
      end
  end.

Definition validate_namespace_declarations (ns : string) : bool :=
  let trimmed := trim ns in
  if is_empty trimmed then true
  else forallb valid_declaration (split_whitespace trimmed).

Definition XML_DECL : string := line (dq "<?xml version='1.0' encoding='UTF-8'?>").

Definition open_multistatus (xml : string) (extra_namespaces : list (string * string)) : string :=
  xml +:+ XML_DECL
  +:+ line (dq "<D:multistatus xmlns:D='DAV:'"
            +:+ push_each (λ pu, " xmlns:" +:+ fst pu +:+ dq "='" +:+ snd pu +:+ dq "'") extra_namespaces
            +:+ ">").

Definition open_multistatus_raw (xml extra_namespaces : string) : string :=
  let ns :=
    if validate_namespace_declarations extra_namespaces then
      let trimmed := trim_start extra_namespaces in
      if is_empty trimmed then empty_str else " " +:+ trimmed
    else empty_str in
  xml +:+ XML_DECL +:+ line (dq "<D:multistatus xmlns:D='DAV:'" +:+ ns +:+ ">").

Definition close_multistatus (xml : string) : string := xml +:+ "</D:multistatus>".
End DavXml.
