(* ===== verification/Contacts.v ===== *)
(** * Contacts: vCard, CardDAV server and CardDAV connector

    The canonical contact (packages/types/src/contacts.rs), its serialisation and parsing
    by the CardDAV server (plugins/engine/api-carddav: modules [Serializer] and
    [Protocol]), and the connector that syncs address books
    (plugins/engine/connector-contacts: modules [Normalizer] and [Client]).

    Timestamps are nanoseconds from 1970. chrono's [format("%Y%m%dT%H%M%SZ")] is the
    parameter [format_utc], on whole seconds; fresh ids and the clock are arguments. *)

From stdpp Require Import base tactics list gmap sets strings pretty.
From Stdlib Require Import Ascii ZArith Lia.
From S2P Require Import Prelude RustString RustText Json Dav.

Local Open Scope string_scope.
Local Open Scope list_scope.

(** ** contacts.rs *)

Inductive ContactInfoType : Type :=
| CitHome
| CitWork
| CitOther.

Inductive PhoneType : Type :=
| PtMobile
| PtHome
| PtWork
| PtFax
| PtOther.

Record ContactName : Type := {
  cn_given : string;
  cn_family : string;
  cn_prefix : option string;
  cn_suffix : option string;
  cn_middle : option string;
}.

Record ContactEmail : Type := {
  ce_address : string;
  ce_type : option ContactInfoType;
  ce_primary : option bool;
}.

Record ContactPhone : Type := {
  cp_number : string;
  cp_type : option PhoneType;
  cp_primary : option bool;
}.

Record ContactAddress : Type := {
  ca_street : option string;
  ca_city : option string;
  ca_region : option string;
  ca_postal_code : option string;
  ca_country : option string;
  ca_type : option ContactInfoType;
}.

Record Contact : Type := {
  ct_id : string;
  ct_name : ContactName;
  ct_emails : list ContactEmail;
  ct_phones : list ContactPhone;
  ct_addresses : list ContactAddress;
  ct_organization : option string;
  ct_title : option string;
  ct_birthday : option Z;
  ct_photo_url : option string;
  ct_notes : option string;
  ct_groups : list string;
  ct_source : string;
  ct_source_id : string;
  ct_extensions : option json;
  ct_created_at : Z;
  ct_updated_at : Z;
}.

(** The whole seconds of a timestamp. *)
Definition seconds (t : Z) : Z := (t / 1000000000)%Z.

(** ** api-carddav/src/serializer.rs *)

Module Serializer.

Definition contact_info_type_to_vcard (t : ContactInfoType) : string :=
  match t with
  | CitHome => "HOME"
  | CitWork => "WORK"
  | CitOther => "OTHER"
  end.

Definition phone_type_to_vcard (t : PhoneType) : string :=
  match t with
  | PtMobile => "CELL"
  | PtHome => "HOME"
  | PtWork => "WORK"
  | PtFax => "FAX"
  | PtOther => "OTHER"
  end.

Definition parse_contact_info_type (s : string) : ContactInfoType :=
  if bool_decide (s = "home") then CitHome
  else if bool_decide (s = "work") then CitWork
  else CitOther.

Definition parse_phone_type (s : string) : PhoneType :=
  if bool_decide (s = "mobile") || bool_decide (s = "cell") then PtMobile
  else if bool_decide (s = "home") then PtHome
  else if bool_decide (s = "work") then PtWork
  else if bool_decide (s = "fax") then PtFax
  else PtOther.

Definition display_name (name : ContactName) : string :=
  join " " (option_list (cn_prefix name) ++ [cn_given name] ++ option_list (cn_middle name)
            ++ [cn_family name] ++ option_list (cn_suffix name)).

Definition escape_vcard_value : string → string := Vcard.escape_value.

Definition name_line (name : ContactName) : string :=
  "N:" +:+ join ";" [escape_vcard_value (cn_family name);
                     escape_vcard_value (cn_given name);
                     escape_vcard_value (default empty_str (cn_middle name));
                     escape_vcard_value (default empty_str (cn_prefix name));
                     escape_vcard_value (default empty_str (cn_suffix name))].

Definition email_line (email : ContactEmail) : string :=
  "EMAIL"
  +:+ match ce_type email with
      | Some t => ";TYPE=" +:+ contact_info_type_to_vcard t
      | None => empty_str
      end
  +:+ (if bool_decide (ce_primary email = Some true) then ";PREF=1" else empty_str)
  +:+ ":" +:+ ce_address email.

Definition phone_line (phone : ContactPhone) : string :=
  "TEL"
  +:+ match cp_type phone with
      | Some t => ";TYPE=" +:+ phone_type_to_vcard t
      | None => empty_str
      end
  +:+ ":" +:+ cp_number phone.

Definition address_line (addr : ContactAddress) : string :=
  "ADR:;;" +:+ join ";" [default empty_str (ca_street addr);
                         default empty_str (ca_city addr);
                         default empty_str (ca_region addr);
                         default empty_str (ca_postal_code addr);
                         default empty_str (ca_country addr)].

(** [fold_line]: the loop over [char_indices]. [chunk] is [line[chunk_start..idx]], so the
    last [chunk_start < line.len()] is that the chunk is not empty. *)
Record FoldState : Type := {
  fs_result : string;
  fs_chunk : string;
  fs_chunk_byte_len : nat;
  fs_first : bool;
}.

Definition fold_init : FoldState :=
  {| fs_result := empty_str; fs_chunk := empty_str; fs_chunk_byte_len := 0; fs_first := true |}.

(** The separator and the chunk. *)
Definition flush (s : FoldState) : string :=
  fs_result s +:+ (if fs_first s then empty_str else CRLF +:+ " ") +:+ fs_chunk s.

Definition fold_step (s : FoldState) (ch : string) : FoldState :=
  let char_len := String.length ch in
  let limit := if fs_first s then 75 else 74 in
  if (limit <? fs_chunk_byte_len s + char_len)%nat then
    {| fs_result := flush s; fs_chunk := ch; fs_chunk_byte_len := char_len; fs_first := false |}
  else
    {| fs_result := fs_result s; fs_chunk := fs_chunk s +:+ ch;
       fs_chunk_byte_len := fs_chunk_byte_len s + char_len; fs_first := fs_first s |}.

Definition fold_line (line : string) : string :=
  if (String.length line <=? 75)%nat then line
  else
    let s := foldl fold_step fold_init (chars line) in
    if is_empty (fs_chunk s) then fs_result s else flush s.

Section Write.
Context (format_utc : Z → string).

Definition contact_lines (contact : Contact) : list string :=
  ["BEGIN:VCARD"; "VERSION:4.0";
   "UID:" +:+ ct_source_id contact;
   "FN:" +:+ escape_vcard_value (display_name (ct_name contact));
   name_line (ct_name contact)]
  ++ (email_line <$> ct_emails contact)
  ++ (phone_line <$> ct_phones contact)
  ++ (address_line <$> ct_addresses contact)
  ++ ((λ org, "ORG:" +:+ escape_vcard_value org) <$> option_list (ct_organization contact))
  ++ ["REV:" +:+ format_utc (seconds (ct_updated_at contact)); "END:VCARD"].

Definition contact_to_vcard (contact : Contact) : string :=
  join CRLF (fold_line <$> contact_lines contact).
End Write.

Definition parse_property_name (prop_with_params : string) : string * list (string * string) :=
  match split ";" prop_with_params with
  | name :: parts => (name, Vcard.param_of <$> parts)
  | [] => (empty_str, [])
  end.

Definition first_piece (c : ascii) (s : string) : string :=
  default s (head (split c s)).

Fixpoint extract_type_param (params : list (string * string)) : option string :=
  match params with
  | [] => None
  | (key, value) :: rest =>
      if eq_ignore_ascii_case key "TYPE" then Some (to_lowercase (first_piece "," value))
      else extract_type_param rest
  end.

(** [parts.get(i).unwrap_or("")]. *)
Definition part (parts : list string) (i : nat) : string := default empty_str (parts !! i).

Definition some_if_not_empty (s : string) (old : option string) : option string :=
  if is_empty s then old else Some s.

(** The local variables of the loop. *)
Record Acc : Type := {
  a_given : string;
  a_family : string;
  a_middle : option string;
  a_prefix : option string;
  a_suffix : option string;
  a_emails : list ContactEmail;
  a_phones : list ContactPhone;
  a_addresses : list ContactAddress;
  a_organization : option string;
  a_source_id : string;
}.

Definition acc_init : Acc :=
  {| a_given := empty_str; a_family := empty_str; a_middle := None; a_prefix := None;
     a_suffix := None; a_emails := []; a_phones := []; a_addresses := [];
     a_organization := None; a_source_id := empty_str |}.

Definition set_name (value : string) (a : Acc) : Acc :=
  let parts := split ";" value in
  let piece i := Text.decode_escaped_value (part parts i) in
  {| a_given := piece 1; a_family := piece 0;
     a_middle := some_if_not_empty (piece 2) (a_middle a);
     a_prefix := some_if_not_empty (piece 3) (a_prefix a);
     a_suffix := some_if_not_empty (piece 4) (a_suffix a);
     a_emails := a_emails a; a_phones := a_phones a; a_addresses := a_addresses a;
     a_organization := a_organization a; a_source_id := a_source_id a |}.

Definition is_preferred (kv : string * string) : bool :=
  eq_ignore_ascii_case (fst kv) "PREF"
  || (eq_ignore_ascii_case (fst kv) "TYPE"
      && existsb (λ p, eq_ignore_ascii_case (trim p) "pref") (split "," (snd kv))).

Definition read_email (params : list (string * string)) (value : string) : ContactEmail :=
  {| ce_address := value; ce_type := parse_contact_info_type <$> extract_type_param params;
     ce_primary := if existsb is_preferred params then Some true else None |}.

Definition add_email (e : ContactEmail) (a : Acc) : Acc :=
  {| a_given := a_given a; a_family := a_family a; a_middle := a_middle a;
     a_prefix := a_prefix a; a_suffix := a_suffix a; a_emails := a_emails a ++ [e];
     a_phones := a_phones a; a_addresses := a_addresses a;
     a_organization := a_organization a; a_source_id := a_source_id a |}.

Definition read_phone (params : list (string * string)) (value : string) : ContactPhone :=
  {| cp_number := value; cp_type := parse_phone_type <$> extract_type_param params;
     cp_primary := None |}.

Definition add_phone (p : ContactPhone) (a : Acc) : Acc :=
  {| a_given := a_given a; a_family := a_family a; a_middle := a_middle a;
     a_prefix := a_prefix a; a_suffix := a_suffix a; a_emails := a_emails a;
     a_phones := a_phones a ++ [p]; a_addresses := a_addresses a;
     a_organization := a_organization a; a_source_id := a_source_id a |}.

(** [None] where no field is populated. *)
Definition read_address (value : string) : option ContactAddress :=
  let parts := split ";" value in
  let field i := Text.non_empty (part parts i) in
  let is_some (o : option string) := bool_decide (is_Some o) in
  if is_some (field 2) || is_some (field 3) || is_some (field 4) || is_some (field 5)
     || is_some (field 6) then
    Some {| ca_street := field 2; ca_city := field 3; ca_region := field 4;
            ca_postal_code := field 5; ca_country := field 6; ca_type := None |}
  else None.

Definition add_address (ad : option ContactAddress) (a : Acc) : Acc :=
  {| a_given := a_given a; a_family := a_family a; a_middle := a_middle a;
     a_prefix := a_prefix a; a_suffix := a_suffix a; a_emails := a_emails a;
     a_phones := a_phones a; a_addresses := a_addresses a ++ option_list ad;
     a_organization := a_organization a; a_source_id := a_source_id a |}.

Definition set_organization (value : string) (a : Acc) : Acc :=
  {| a_given := a_given a; a_family := a_family a; a_middle := a_middle a;
     a_prefix := a_prefix a; a_suffix := a_suffix a; a_emails := a_emails a;
     a_phones := a_phones a; a_addresses := a_addresses a;
     a_organization :=
       some_if_not_empty (Text.decode_escaped_value (first_piece ";" value)) (a_organization a);
     a_source_id := a_source_id a |}.

Definition set_source_id (value : string) (a : Acc) : Acc :=
  {| a_given := a_given a; a_family := a_family a; a_middle := a_middle a;
     a_prefix := a_prefix a; a_suffix := a_suffix a; a_emails := a_emails a;
     a_phones := a_phones a; a_addresses := a_addresses a;
     a_organization := a_organization a; a_source_id := value |}.

(** One round of the loop over the lines. *)
Definition vcard_step (a : Acc) (line : string) : Acc :=
  let line := trim line in
  if is_empty line then a
  else match split_once ":" line with
       | None => a
       | Some (prop_with_params, value) =>
           let '(prop_name, params) := parse_property_name prop_with_params in
           let name := to_uppercase prop_name in
           if bool_decide (name = "FN") then a
           else if bool_decide (name = "N") then set_name value a
           else if bool_decide (name = "EMAIL") then add_email (read_email params value) a
           else if bool_decide (name = "TEL") then add_phone (read_phone params value) a
           else if bool_decide (name = "ADR") then add_address (read_address value) a
           else if bool_decide (name = "ORG") then set_organization value a
           else if bool_decide (name = "UID") then set_source_id value a
           else a
       end.

(** The first FN line, split at its first space. *)
Fixpoint name_from_fn (lns : list string) : option (string * string) :=
  match lns with
  | [] => None
  | l :: rest =>
      match split_once ":" (trim l) with
      | Some (prop, val) =>
          if eq_ignore_ascii_case (fst (parse_property_name prop)) "FN" then
            let parts := splitn2 " " (Text.decode_escaped_value val) in
            Some (part parts 0, part parts 1)
          else name_from_fn rest
      | None => name_from_fn rest
      end
  end.

Definition has_line (word : string) (lns : list string) : bool :=
  existsb (λ l, eq_ignore_ascii_case (trim l) word) lns.

Definition unnamed (given family : string) : bool := is_empty given && is_empty family.

(** [id] and [uid] are the two fresh UUIDs. *)
Definition vcard_to_contact (id uid : string) (now : Z) (vcard_data : string) :
    result Contact string :=
  let lns := lines (Text.unfold_lines vcard_data) in
  if negb (has_line "BEGIN:VCARD" lns) || negb (has_line "END:VCARD" lns) then
    Err "invalid vCard: missing BEGIN:VCARD or END:VCARD"
  else
    let a := foldl vcard_step acc_init lns in
    let '(given, family) :=
      if unnamed (a_given a) (a_family a) then
        default (a_given a, a_family a) (name_from_fn lns)
      else (a_given a, a_family a) in
    let given := if unnamed given family then "(unnamed)" else given in
    Ok {| ct_id := id;
          ct_name := {| cn_given := given; cn_family := family; cn_prefix := a_prefix a;
                        cn_suffix := a_suffix a; cn_middle := a_middle a |};
          ct_emails := a_emails a; ct_phones := a_phones a; ct_addresses := a_addresses a;
          ct_organization := a_organization a; ct_title := None; ct_birthday := None;
          ct_photo_url := None; ct_notes := None; ct_groups := [];
          ct_source := "carddav-api";
          ct_source_id := if is_empty (a_source_id a) then uid else a_source_id a;
          ct_extensions := None; ct_created_at := now; ct_updated_at := now |}.
End Serializer.

(** ** api-carddav/src/protocol.rs *)

Module Protocol.

Record ResourceEntry : Type := {
  re_href : string;
  re_etag : string;
  re_content_type : string;
}.

Record PropfindResponse : Type := {
  pr_display_name : string;
  pr_ctag : string;
  pr_resources : list ResourceEntry;
}.

Inductive Depth : Type :=
| DepthZero
| DepthOne.

Definition from_header (value : option string) : Depth :=
  if bool_decide (value = Some "0") then DepthZero else DepthOne.

Definition close_response : string :=
  DavXml.line "      </D:prop>"
  +:+ DavXml.line "      <D:status>HTTP/1.1 200 OK</D:status>"
  +:+ DavXml.line "    </D:propstat>"
  +:+ DavXml.line "  </D:response>".

Definition resource_xml (entry : ResourceEntry) : string :=
  DavXml.line "  <D:response>"
  +:+ DavXml.line ("    <D:href>" +:+ DavXml.xml_escape (re_href entry) +:+ "</D:href>")
  +:+ DavXml.line "    <D:propstat>"
  +:+ DavXml.line "      <D:prop>"
  +:+ DavXml.line ("        <D:getetag>" +:+ DavXml.xml_escape (re_etag entry) +:+ "</D:getetag>")
  +:+ DavXml.line ("        <D:getcontenttype>" +:+ DavXml.xml_escape (re_content_type entry)
                   +:+ "</D:getcontenttype>")
  +:+ close_response.

Definition collection_xml (response : PropfindResponse) : string :=
  DavXml.line "  <D:response>"
  +:+ DavXml.line "    <D:href>/api/plugins/com.life-engine.api-carddav/addressbooks/default/</D:href>"
  +:+ DavXml.line "    <D:propstat>"
  +:+ DavXml.line "      <D:prop>"
  +:+ DavXml.line ("        <D:displayname>" +:+ DavXml.xml_escape (pr_display_name response)
                   +:+ "</D:displayname>")
  +:+ DavXml.line "        <D:resourcetype><D:collection/><CR:addressbook/></D:resourcetype>"
  +:+ DavXml.line ("        <CS:getctag>" +:+ DavXml.xml_escape (pr_ctag response) +:+ "</CS:getctag>")
  +:+ DavXml.line "        <CR:supported-address-data>"
  +:+ DavXml.line (DavXml.dq "          <CR:address-data-type content-type='text/vcard' version='4.0'/>")
  +:+ DavXml.line (DavXml.dq "          <CR:address-data-type content-type='text/vcard' version='3.0'/>")
  +:+ DavXml.line "        </CR:supported-address-data>"
  +:+ close_response.

Definition build_propfind_xml_with_depth (response : PropfindResponse) (depth : Depth) : string :=
  DavXml.XML_DECL
  +:+ DavXml.line (DavXml.dq "<D:multistatus xmlns:D='DAV:' xmlns:CR='urn:ietf:params:xml:ns:carddav' xmlns:CS='http://calendarserver.org/ns/'>")
  +:+ collection_xml response
  +:+ match depth with
      | DepthOne => DavXml.push_each resource_xml (pr_resources response)
      | DepthZero => empty_str
      end
  +:+ "</D:multistatus>".

Definition build_propfind_xml (response : PropfindResponse) : string :=
  build_propfind_xml_with_depth response DepthOne.

Definition report_entry (entry : string * string * string) : string :=
  let '(href, etag, vcard_data) := entry in
  DavXml.line "  <D:response>"
  +:+ DavXml.line ("    <D:href>" +:+ DavXml.xml_escape href +:+ "</D:href>")
  +:+ DavXml.line "    <D:propstat>"
  +:+ DavXml.line "      <D:prop>"
  +:+ DavXml.line ("        <D:getetag>" +:+ DavXml.xml_escape etag +:+ "</D:getetag>")
  +:+ DavXml.line ("        <CR:address-data>" +:+ DavXml.xml_escape vcard_data +:+ "</CR:address-data>")
  +:+ close_response.

Definition build_report_xml (contacts : list (string * string * string)) : string :=
  DavXml.XML_DECL
  +:+ DavXml.line (DavXml.dq "<D:multistatus xmlns:D='DAV:' xmlns:CR='urn:ietf:params:xml:ns:carddav'>")
  +:+ DavXml.push_each report_entry contacts
  +:+ "</D:multistatus>".

Section Tags.
Context (format_utc : Z → string).

Definition generate_etag (contact : Contact) : string :=
  singleton QUOTE +:+ format_utc (seconds (ct_updated_at contact)) +:+ singleton QUOTE.

Definition generate_ctag (last_modified : Z) : string :=
  "life-engine-" +:+ format_utc (seconds last_modified).
End Tags.

Definition contact_href (source_id : string) : string :=
  "/api/plugins/com.life-engine.api-carddav/addressbooks/default/" +:+ source_id +:+ ".vcf".

Definition uid_from_href (href : string) : option string :=
  strip_suffix_str ".vcf" (rsplit_next "/" href).
End Protocol.

(** ** connector-contacts/src/normalizer.rs *)

Module Normalizer.

(** The parsers of types and property names are those of [Serializer], line by line. *)
Fixpoint extract_type_param (params : list (string * string)) : option string :=
  match params with
  | [] => None
  | (key, value) :: rest =>
      if eq_ignore_ascii_case key "TYPE" && negb (eq_ignore_ascii_case value "pref") then
        Some (to_lowercase (Serializer.first_piece "," value))
      else extract_type_param rest
  end.

Record Acc : Type := {
  n_given : string;
  n_family : string;
  n_fn : string;
  n_emails : list ContactEmail;
  n_phones : list ContactPhone;
  n_addresses : list ContactAddress;
  n_organization : option string;
  n_source_id : string;
  n_has_photo : bool;
}.

Definition acc_init : Acc :=
  {| n_given := empty_str; n_family := empty_str; n_fn := empty_str; n_emails := [];
     n_phones := []; n_addresses := []; n_organization := None; n_source_id := empty_str;
     n_has_photo := false |}.

Definition read_email (params : list (string * string)) (value : string) : ContactEmail :=
  {| ce_address := value;
     ce_type := Serializer.parse_contact_info_type <$> extract_type_param params;
     ce_primary := if existsb Serializer.is_preferred params then Some true else None |}.

Definition read_phone (params : list (string * string)) (value : string) : ContactPhone :=
  {| cp_number := value; cp_type := Serializer.parse_phone_type <$> extract_type_param params;
     cp_primary := None |}.

(** What one property does to the local variables. *)
Definition on_property (name : string) (params : list (string * string)) (value : string)
    (a : Acc) : Acc :=
  let with_name given family fn :=
    {| n_given := given; n_family := family; n_fn := fn; n_emails := n_emails a;
       n_phones := n_phones a; n_addresses := n_addresses a;
       n_organization := n_organization a; n_source_id := n_source_id a;
       n_has_photo := n_has_photo a |} in
  let with_lists emails phones addresses :=
    {| n_given := n_given a; n_family := n_family a; n_fn := n_fn a; n_emails := emails;
       n_phones := phones; n_addresses := addresses;
       n_organization := n_organization a; n_source_id := n_source_id a;
       n_has_photo := n_has_photo a |} in
  let with_rest org sid photo :=
    {| n_given := n_given a; n_family := n_family a; n_fn := n_fn a; n_emails := n_emails a;
       n_phones := n_phones a; n_addresses := n_addresses a;
       n_organization := org; n_source_id := sid; n_has_photo := photo |} in
  if bool_decide (name = "FN") then
    with_name (n_given a) (n_family a) (Text.decode_escaped_value value)
  else if bool_decide (name = "N") then
    let parts := split ";" value in
    with_name (Text.decode_escaped_value (Serializer.part parts 1))
              (Text.decode_escaped_value (Serializer.part parts 0)) (n_fn a)
  else if bool_decide (name = "EMAIL") then
    with_lists (n_emails a ++ [read_email params value]) (n_phones a) (n_addresses a)
  else if bool_decide (name = "TEL") then
    with_lists (n_emails a) (n_phones a ++ [read_phone params value]) (n_addresses a)
  else if bool_decide (name = "ADR") then
    with_lists (n_emails a) (n_phones a)
               (n_addresses a ++ option_list (Serializer.read_address value))
  else if bool_decide (name = "ORG") then
    with_rest (Serializer.some_if_not_empty
                 (Text.decode_escaped_value (Serializer.first_piece ";" value)) (n_organization a))
              (n_source_id a) (n_has_photo a)
  else if bool_decide (name = "UID") then with_rest (n_organization a) value (n_has_photo a)
  else if bool_decide (name = "PHOTO") then with_rest (n_organization a) (n_source_id a) true
  else a.

Definition step (a : Acc) (line : string) : Acc :=
  let line := trim line in
  if is_empty line then a
  else match split_once ":" line with
       | None => a
       | Some (prop_with_params, value) =>
           let '(prop_name, params) := Serializer.parse_property_name prop_with_params in
           on_property (to_uppercase prop_name) params value a
       end.

Definition normalize_vcard (id uid : string) (now : Z) (raw source : string) :
    result Contact string :=
  let lns := lines (Text.unfold_lines raw) in
  if negb (Serializer.has_line "BEGIN:VCARD" lns) || negb (Serializer.has_line "END:VCARD" lns) then
    Err "invalid vCard: missing BEGIN:VCARD or END:VCARD"
  else
    let a := foldl step acc_init lns in
    let '(given, family) :=
      if Serializer.unnamed (n_given a) (n_family a) && negb (is_empty (n_fn a)) then
        let parts := splitn2 " " (n_fn a) in (Serializer.part parts 0, Serializer.part parts 1)
      else (n_given a, n_family a) in
    let given := if Serializer.unnamed given family then "(unnamed)" else given in
    Ok {| ct_id := id;
          ct_name := {| cn_given := given; cn_family := family; cn_prefix := None;
                        cn_suffix := None; cn_middle := None |};
          ct_emails := n_emails a; ct_phones := n_phones a; ct_addresses := n_addresses a;
          ct_organization := n_organization a; ct_title := None; ct_birthday := None;
          ct_photo_url := None; ct_notes := None; ct_groups := [];
          ct_source := source;
          ct_source_id := if is_empty (n_source_id a) then uid else n_source_id a;
          ct_extensions := if n_has_photo a then Some (JObj [("has_photo", JBool true)]) else None;
          ct_created_at := now; ct_updated_at := now |}.

(** [normalize_vcards]: the texts it cuts out, and the card of each. [fresh] supplies the
    ids of the i-th card. *)
Record Cutter : Type := {
  cu_results : list string;
  cu_current : string;
  cu_in_vcard : bool;
}.

Definition cut_step (c : Cutter) (line : string) : Cutter :=
  let trimmed := trim line in
  if eq_ignore_ascii_case trimmed "BEGIN:VCARD" then
    {| cu_results := cu_results c; cu_current := line +:+ singleton LF; cu_in_vcard := true |}
  else if eq_ignore_ascii_case trimmed "END:VCARD" then
    let current := cu_current c +:+ line +:+ singleton LF in
    {| cu_results := cu_results c ++ [current]; cu_current := current; cu_in_vcard := false |}
  else if cu_in_vcard c then
    {| cu_results := cu_results c; cu_current := cu_current c +:+ line +:+ singleton LF;
       cu_in_vcard := true |}
  else c.

Definition cut_vcards (raw : string) : list string :=
  cu_results (foldl cut_step {| cu_results := []; cu_current := empty_str; cu_in_vcard := false |}
                    (lines raw)).

Definition normalize_vcards (fresh : nat → string * string) (now : Z) (raw source : string) :
    list (result Contact string) :=
  imap (λ i text, normalize_vcard (fst (fresh i)) (snd (fresh i)) now text source) (cut_vcards raw).
End Normalizer.

(** ** connector-contacts/src/carddav.rs *)

Module Client.

Record CardDavConfig : Type := {
  cfg_server_url : string;
  cfg_username : string;
  cfg_credential_key : string;
  cfg_addressbook_path : string;
}.

Record FetchedVCard : Type := {
  fv_href : string;
  fv_etag : string;
  fv_data : string;
}.

#[export] Instance fetched_vcard_resource : Etag.DavResource FetchedVCard :=
  {| Etag.href := fv_href; Etag.etag := fv_etag |}.

Record CardDavClient : Type := {
  cl_config : CardDavConfig;
  cl_sync_state : Etag.DavSyncState;
}.

Definition empty_sync_state : Etag.DavSyncState :=
  {| Etag.dss_sync_token := None; Etag.dss_ctag := None; Etag.dss_etags := ∅ |}.

Definition new (config : CardDavConfig) : CardDavClient :=
  {| cl_config := config; cl_sync_state := empty_sync_state |}.

Definition addressbook_url (c : CardDavClient) : string :=
  Url.join_dav_url (cfg_server_url (cl_config c)) (cfg_addressbook_path (cl_config c)).

Definition auth_header (base64_encode : string → string) (c : CardDavClient) (password : string) : string :=
  Url.basic_auth_header base64_encode (cfg_username (cl_config c)) password.

Definition with_state (c : CardDavClient) (s : Etag.DavSyncState) : CardDavClient :=
  {| cl_config := cl_config c; cl_sync_state := s |}.

Definition update_sync_token (token : string) (c : CardDavClient) : CardDavClient :=
  let s := cl_sync_state c in
  with_state c {| Etag.dss_sync_token := Some token; Etag.dss_ctag := Etag.dss_ctag s;
                  Etag.dss_etags := Etag.dss_etags s |}.

Definition update_ctag (ctag : string) (c : CardDavClient) : CardDavClient :=
  let s := cl_sync_state c in
  with_state c {| Etag.dss_sync_token := Etag.dss_sync_token s; Etag.dss_ctag := Some ctag;
                  Etag.dss_etags := Etag.dss_etags s |}.

Definition update_etag (href etag : string) (c : CardDavClient) : CardDavClient :=
  let s := cl_sync_state c in
  with_state c {| Etag.dss_sync_token := Etag.dss_sync_token s; Etag.dss_ctag := Etag.dss_ctag s;
                  Etag.dss_etags := <[href := etag]> (Etag.dss_etags s) |}.

Definition remove_etag (href : string) (c : CardDavClient) : CardDavClient :=
  let s := cl_sync_state c in
  with_state c {| Etag.dss_sync_token := Etag.dss_sync_token s; Etag.dss_ctag := Etag.dss_ctag s;
                  Etag.dss_etags := delete href (Etag.dss_etags s) |}.

Definition filter_changed (c : CardDavClient) (fetched : list FetchedVCard) : list FetchedVCard :=
  Etag.filter_changed (Etag.dss_etags (cl_sync_state c)) fetched.

Definition reset_sync_state (c : CardDavClient) : CardDavClient := with_state c empty_sync_state.
End Client.
