(* ===== verification/DavFacts.v ===== *)
(** * Properties of the DAV utilities

    Escaped values decode to what was escaped, folded lines unfold to what was folded,
    changed resources are exactly those whose tag differs from the stored one, joined
    URLs have no double slash, XML escapes hide markup and decode, and the parser of
    REPORT bodies reads back the hrefs of a multiget. *)

From stdpp Require Import base tactics list gmap sets strings pretty.
From Stdlib Require Import Ascii ZArith Lia.
From S2P Require Import Prelude RustString RustText Json Dav Contacts.

Local Open Scope string_scope.
Local Open Scope list_scope.
Local Open Scope nat_scope.

(** ** Escapes *)

(** What [escape_value] writes for one byte. *)
Definition esc (c : ascii) : string :=
  if bool_decide (c = BACKSLASH) then String BACKSLASH (singleton BACKSLASH)
  else if bool_decide (c = ","%char) then String BACKSLASH ","
  else if bool_decide (c = ";"%char) then String BACKSLASH ";"
  else if bool_decide (c = LF) then String BACKSLASH "n"
  else singleton c.

Lemma escape_value_cons c s : Vcard.escape_value (String c s) = esc c +:+ Vcard.escape_value s.
Proof.
  unfold Vcard.escape_value, esc.
  repeat case_bool_decide; subst; [done..|].
  cbn [replace_char]. rewrite (bool_decide_false (c = BACKSLASH)) by done.
  cbn [replace_char]. rewrite (bool_decide_false (c = ","%char)) by done.
  cbn [replace_char]. rewrite (bool_decide_false (c = ";"%char)) by done.
  cbn [replace_char]. rewrite (bool_decide_false (c = LF)) by done. done.
Qed.

Lemma decode_esc c s : Text.decode_escaped_value (esc c +:+ s) = String c (Text.decode_escaped_value s).
Proof.
  unfold esc. repeat case_bool_decide; subst; [done..|]. simpl.
  by rewrite bool_decide_false.
Qed.

Lemma decode_escape s : Text.decode_escaped_value (Vcard.escape_value s) = s.
Proof. induction s as [|c s IH]; [done|]. by rewrite escape_value_cons, decode_esc, IH. Qed.

(** A byte that is not one of those written is free in the escape if free in the text. *)
Lemma escape_free cs s :
  Forall (λ c, c ∉ [BACKSLASH; ","; ";"; "n"]%char ∧ c ≠ LF) cs →
  free_of cs s → free_of cs (Vcard.escape_value s).
Proof.
  intros Hcs. induction s as [|c s IH]; [done|]. rewrite free_of_cons, escape_value_cons, free_of_app.
  intros [Hc Hs]. split; [|by apply IH]. rewrite Forall_forall in Hcs.
  unfold esc. repeat case_bool_decide; intros x Hx Hi; destruct (Hcs x Hx) as [Hn Hl];
    simpl in Hi; set_solver.
Qed.

Lemma escape_free_lf s : free_of [LF] (Vcard.escape_value s).
Proof.
  induction s as [|c s IH]; [apply free_of_nil|]. rewrite escape_value_cons, free_of_app.
  split; [|done]. intros x Hx%list_elem_of_singleton Hi. subst x.
  unfold esc in Hi. repeat case_bool_decide; simpl in Hi; naive_solver.
Qed.

Lemma escape_free_semi s : free_of [";"%char] s → free_of [";"%char] (Vcard.escape_value s).
Proof.
  induction s as [|c s IH]; [done|]. rewrite free_of_cons, escape_value_cons, free_of_app.
  intros [Hc Hs]. split; [|by apply IH]. intros x ->%list_elem_of_singleton Hi.
  unfold esc in Hi. repeat case_bool_decide; simpl in Hi; set_solver.
Qed.

Lemma escape_empty s : Vcard.escape_value s = empty_str ↔ s = empty_str.
Proof.
  split; [|by intros ->]. intros H. rewrite <- (decode_escape s), H. done.
Qed.

(** ** Folding *)

Import Serializer.

Definition FOLD : string := CRLF +:+ " ".

(** The loop's invariant: what is written is the chunks cut so far, joined by the fold. *)
Record fold_inv (done_ : list (list string)) (cur : list string) (s : FoldState) : Prop := {
  fi_result : fs_result s = join FOLD (cat <$> done_);
  fi_chunk : fs_chunk s = cat cur;
  fi_len : fs_chunk_byte_len s = String.length (cat cur);
  fi_first : fs_first s = bool_decide (done_ = []);
}.

(** First chunks have 75 bytes, the others 74. *)
Definition fits (i : nat) (chunk : list string) : Prop :=
  String.length (cat chunk) ≤ (if i then 75 else 74).

Lemma flush_inv done_ cur s :
  fold_inv done_ cur s → flush s = join FOLD (cat <$> (done_ ++ [cur])).
Proof.
  intros [Hr Hc _ Hf]. unfold flush. rewrite Hr, Hc, Hf, fmap_app. cbn [fmap list_fmap].
  rewrite join_snoc. destruct done_ as [|d ds]; [by rewrite bool_decide_true|].
  rewrite bool_decide_false by done. done.
Qed.

Lemma fold_loop_inv (U : Prop) done_ cur s cs :
  fold_inv done_ cur s →
  (∀ i c, done_ !! i = Some c → U → fits i c) → (U → fits (length done_) cur) →
  (U → Forall (λ c, String.length c ≤ 4) cs) →
  ∃ done' cur', fold_inv done' cur' (foldl fold_step s cs) ∧
    mjoin done' ++ cur' = (mjoin done_ ++ cur) ++ cs ∧
    (cur ≠ [] ∨ cs ≠ [] → cur' ≠ []) ∧
    (∀ i c, done' !! i = Some c → U → fits i c) ∧ (U → fits (length done') cur').
Proof.
  revert done_ cur s. induction cs as [|c cs IH]; intros done_ cur s Hi Hd Hcur Hcs.
  { exists done_, cur. rewrite app_nil_r. naive_solver. }
  assert (fs_first s = bool_decide (length done_ = 0)) as Hf.
  { rewrite (fi_first _ _ _ Hi). by destruct done_. }
  assert (U → Forall (λ c, String.length c ≤ 4) cs) as Hcs'.
  { intros HU. specialize (Hcs HU). by inversion Hcs. }
  cbn [foldl]. unfold fold_step at 2.
  destruct (Nat.ltb_spec (if fs_first s then 75 else 74) (fs_chunk_byte_len s + String.length c)) as [Hlt|Hge].
  - destruct (IH (done_ ++ [cur]) [c]
      {| fs_result := flush s; fs_chunk := c; fs_chunk_byte_len := String.length c; fs_first := false |})
      as (done' & cur' & ? & Hj & Hne & ? & ?).
    + constructor; cbn [fs_result fs_chunk fs_chunk_byte_len fs_first].
      * by apply flush_inv.
      * simpl. by rewrite string_app_nil_r.
      * simpl. by rewrite string_app_nil_r.
      * rewrite bool_decide_false; [done|]. by destruct done_.
    + intros i x [Hx|[? Hx]]%lookup_app_Some; [by apply Hd|].
      destruct (i - length done_) eqn:E; simplify_eq/=. by replace i with (length done_) by lia.
    + intros HU. specialize (Hcs HU). inversion Hcs; subst.
      rewrite length_app. simpl. rewrite Nat.add_comm. unfold fits. simpl.
      rewrite string_app_nil_r. lia.
    + done.
    + exists done', cur'. split; [done|]. split; [|split; [|done]].
      * rewrite Hj, join_app. simpl. by rewrite app_nil_r, <- !app_assoc.
      * intros _. apply Hne. by left.
  - destruct (IH done_ (cur ++ [c])
      {| fs_result := fs_result s; fs_chunk := fs_chunk s +:+ c;
         fs_chunk_byte_len := fs_chunk_byte_len s + String.length c; fs_first := fs_first s |})
      as (done' & cur' & ? & Hj & Hne & ? & ?).
    + destruct Hi. constructor; cbn [fs_result fs_chunk fs_chunk_byte_len fs_first]; [done|..|done];
        rewrite cat_app; simpl; rewrite string_app_nil_r; [by f_equal|].
      rewrite string_length_app. lia.
    + done.
    + intros _. unfold fits. rewrite cat_app. simpl. rewrite string_app_nil_r, string_length_app.
      rewrite (fi_len _ _ _ Hi), Hf in Hge. by destruct (length done_).
    + done.
    + exists done', cur'. split; [done|]. split; [|split; [|done]].
      * rewrite Hj. by rewrite <- !app_assoc.
      * intros _. apply Hne. left. by destruct cur.
Qed.

(** A character has at most four bytes. *)
Definition utf8 (l : string) : Prop := Forall (λ c, String.length c ≤ 4) (chars l).

(** A folded line is its characters cut into chunks that fit, joined by the fold. *)
Lemma fold_line_chunks l :
  l ≠ empty_str →
  ∃ chunks : list (list string), fold_line l = join FOLD (cat <$> chunks) ∧
    mjoin chunks = chars l ∧ chunks ≠ [] ∧
    (∀ i c, chunks !! i = Some c → utf8 l → fits i c).
Proof.
  intros Hl. unfold fold_line. destruct (Nat.leb_spec (String.length l) 75) as [Hle|Hgt].
  { exists [chars l]. simpl. rewrite app_nil_r, chars_cat. split_and!; [done..|].
    intros [|i] c Hi _; simplify_eq/=. unfold fits. by rewrite chars_cat. }
  destruct (fold_loop_inv (utf8 l) [] [] fold_init (chars l)) as (done_ & cur & Hi & Hj & Hne & Hd & Hf);
    [done| |unfold fits; simpl; lia|done|].
  { intros i c Hi. by rewrite lookup_nil in Hi. }
  assert (cur ≠ []) as Hcur.
  { apply Hne. right. intros E. apply Hl. by rewrite <- (chars_cat l), E. }
  assert (is_empty (cat cur) = false) as He.
  { apply is_empty_false. intros E.
    assert (Forall (λ c, c ≠ empty_str) (chars l)) as Hn by apply chars_nonempty.
    simpl in Hj. rewrite <- Hj in Hn. apply Forall_app in Hn as [_ Hn].
    destruct cur as [|c cur]; [done|]. inversion Hn; subst. by destruct c. }
  rewrite (fi_chunk _ _ _ Hi), He. exists (done_ ++ [cur]). split_and!.
  - by apply flush_inv.
  - rewrite join_app. simpl. by rewrite app_nil_r.
  - by destruct done_.
  - intros i c [Hx|[? Hx]]%lookup_app_Some; [by apply Hd|].
    destruct (i - length done_) eqn:E; simplify_eq/=. by replace i with (length done_) by lia.
Qed.

(** The physical lines of a folded line. *)
Definition physical (chunks : list (list string)) : list string :=
  match chunks with
  | [] => []
  | c :: cs => cat c :: ((λ c, " " +:+ cat c) <$> cs)
  end.

Lemma join_physical chunks : join FOLD (cat <$> chunks) = join CRLF (physical chunks).
Proof.
  destruct chunks as [|c cs]; [done|]. cbn [physical]. rewrite fmap_cons. revert c.
  induction cs as [|d cs IH]; intros c; [done|].
  change (cat c +:+ FOLD +:+ join FOLD (cat d :: (cat <$> cs)) =
          cat c +:+ CRLF +:+ join CRLF ((" " +:+ cat d) :: ((λ c, " " +:+ cat c) <$> cs))).
  rewrite IH. unfold FOLD. rewrite string_app_assoc. do 2 f_equal. by destruct cs.
Qed.

(** A content line: not empty, on one line, not indented. *)
Record content_line (l : string) : Prop := {
  cl_free : free_of [CR; LF] l;
  cl_head : match l with String c _ => c ≠ " "%char ∧ c ≠ Text.TAB | EmptyString => False end;
}.

Definition next_line (acc l : string) : string :=
  (if is_empty acc then acc else acc +:+ singleton LF) +:+ l.

Lemma unfold_continuations acc cs :
  foldl Text.unfold_line acc ((λ c, " " +:+ cat c) <$> cs) = acc +:+ cat (cat <$> cs).
Proof.
  revert acc. induction cs as [|c cs IH]; intros acc; simpl; [by rewrite string_app_nil_r|].
  rewrite IH. by rewrite string_app_assoc.
Qed.

Lemma unfold_physical acc l chunks :
  content_line l → mjoin chunks = chars l → chunks ≠ [] →
  foldl Text.unfold_line acc (physical chunks) = next_line acc l.
Proof.
  intros [_ Hh] Hj Hne. assert (cat (cat <$> chunks) = l) as Hl.
  { rewrite <- (chars_cat l), <- Hj. clear. induction chunks as [|c cs IH]; [done|].
    rewrite fmap_cons. simpl. by rewrite cat_app, <- IH. }
  destruct chunks as [|c cs]; [done|]. cbn [physical foldl]. rewrite unfold_continuations.
  assert (Text.unfold_line acc (cat c) = next_line acc (cat c)) as ->.
  { unfold next_line. simpl in Hl. destruct (cat c) as [|a s] eqn:E; simpl.
    - by rewrite string_app_nil_r.
    - rewrite <- Hl in Hh. simpl in Hh. rewrite !bool_decide_false by naive_solver. done. }
  unfold next_line. by rewrite string_app_assoc, <- Hl.
Qed.

Lemma next_lines_join ls :
  Forall (λ l, l ≠ empty_str) ls → foldl next_line empty_str ls = join (singleton LF) ls.
Proof.
  induction ls as [|l ls IH] using rev_ind; [done|]. rewrite Forall_app. intros [Hls Hl].
  rewrite foldl_app, IH by done. cbn [foldl]. rewrite join_snoc. unfold next_line.
  destruct ls as [|l0 ls]; [done|]. assert (is_empty (join (singleton LF) (l0 :: ls)) = false) as ->.
  { apply is_empty_false. inversion Hls; subst. by destruct ls, l0. }
  by rewrite string_app_assoc.
Qed.

Lemma content_nonempty l : content_line l → l ≠ empty_str.
Proof. intros [_ Hh] ->. done. Qed.

(** The folded texts of content lines, and the lines a reader sees after unfolding. *)
Lemma folded_physical ls :
  Forall content_line ls →
  ∃ chunkss : list (list (list string)),
    join CRLF (fold_line <$> ls) = join CRLF (mjoin (physical <$> chunkss)) ∧
    Forall2 (λ l chunks, mjoin chunks = chars l ∧ chunks ≠ [])
      ls chunkss.
Proof.
  intros Hls.
  assert (∃ chunkss : list (list (list string)),
    fold_line <$> ls = join CRLF <$> (physical <$> chunkss) ∧
    Forall2 (λ l chunks, mjoin chunks = chars l ∧ chunks ≠ [])
      ls chunkss) as (chunkss & Hf & H2).
  { induction Hls as [|l ls Hl Hls (chunkss & Hf & H2)].
    { exists []. by repeat constructor. }
    destruct (fold_line_chunks l) as (chunks & Hc & Hj & Hne & Hfit);
      [by apply content_nonempty|].
    exists (chunks :: chunkss). rewrite !fmap_cons, Hf, Hc, join_physical. by repeat constructor. }
  exists chunkss. split; [|done]. rewrite Hf. apply join_join. apply Forall_fmap.
  clear Hf Hls. induction H2 as [|l chunks ls chunkss (_ & Hne) _ IH]; [done|].
  constructor; [|done]. simpl. by destruct chunks.
Qed.

Lemma char_in_cat c ss : char_in c (cat ss) ↔ ∃ s, s ∈ ss ∧ char_in c s.
Proof.
  induction ss as [|a ss IH]; simpl; [set_solver|]. rewrite char_in_app, IH. set_solver.
Qed.

Lemma physical_free cs l chunks :
  " "%char ∉ cs → free_of cs l → mjoin chunks = chars l → Forall (free_of cs) (physical chunks).
Proof.
  intros Hsp Hl Hj. assert (Forall (λ c, free_of cs (cat c)) chunks) as Hc.
  { apply Forall_forall. intros ch Hch c Hc Hi. apply (Hl c Hc).
    rewrite <- (chars_cat l), <- Hj. apply char_in_cat. apply char_in_cat in Hi as (s & Hs & Hi).
    exists s. split; [|done]. apply list_elem_of_join. eauto. }
  destruct chunks as [|c chunks]; [constructor|]. inversion Hc; subst. simpl. constructor; [done|].
  apply Forall_fmap. eapply Forall_impl; [done|]. intros ch Hch. simpl.
  apply free_of_cons. by split.
Qed.

(** Unfolding undoes folding, for any list of content lines. *)
Lemma unfold_folded ls :
  Forall content_line ls → ls ≠ [] →
  Text.unfold_lines (join CRLF (fold_line <$> ls)) = join (singleton LF) ls.
Proof.
  intros Hls Hne. destruct (folded_physical ls Hls) as (chunkss & -> & H2).
  set (ps := mjoin (physical <$> chunkss)).
  assert (Forall (free_of [CR; LF]) ps) as Hfree.
  { unfold ps. clear Hne. induction H2 as [|l chunks ls chunkss (Hj & _) _ IH]; [constructor|].
    inversion Hls; subst. rewrite fmap_cons. simpl. apply Forall_app. split; [|by apply IH].
    eapply physical_free; [set_solver|by apply cl_free|done]. }
  assert (ps ≠ [] ∧ List.last ps empty_str ≠ empty_str) as [Hps Hlast].
  { unfold ps. revert Hls. clear -H2 Hne.
    induction ls as [|l ls IH] using rev_ind; [done|]. clear IH.
    apply Forall2_app_inv_l in H2 as (cs1 & cs2 & _ & H2 & ->). inversion H2 as [|?? ? ? (Hj & Hc) H3]; subst.
    inversion H3; subst. rewrite Forall_app, Forall_singleton. intros [_ Hl].
    rewrite fmap_app, join_app. cbn. rewrite app_nil_r.
    destruct y as [|c cs _] using rev_ind; [done|].
    destruct cs as [|d cs].
    - simpl. split; [by intros [_ ?]%app_nil|]. rewrite List.last_last.
      simpl in Hj. rewrite app_nil_r in Hj. rewrite Hj, chars_cat. by apply content_nonempty.
    - change (physical ((d :: cs) ++ [c]))
        with (cat d :: ((λ c, " " +:+ cat c) <$> (cs ++ [c]))).
      rewrite fmap_app. cbn [fmap list_fmap]. rewrite app_comm_cons, app_assoc, List.last_last.
      split; [by intros [_ ?]%app_nil|done]. }
  unfold Text.unfold_lines. rewrite (replace_sep_join CR (singleton LF)).
  2:{ eapply Forall_impl; [done|]. intros s Hs. apply Hs. set_solver. }
  rewrite replace_char_free.
  2:{ eapply (free_of_join [CR]); [|eapply Forall_impl; [done|]|by left].
      - intros c ->%list_elem_of_singleton [Hx|[]]. done.
      - intros s. apply free_of_sub. set_solver. }
  rewrite lines_join by done.
  rewrite <- next_lines_join by (eapply Forall_impl; eauto using content_nonempty).
  unfold ps. clear -H2 Hls. generalize empty_str. revert Hls.
  induction H2 as [|l chunks ls chunkss (Hj & Hc) _ IH]; intros Hls acc; [done|].
  inversion Hls; subst. rewrite fmap_cons. cbn [mjoin list_join foldl]. rewrite foldl_app.
  rewrite (unfold_physical _ l) by done. by apply IH.
Qed.

(** Every physical line of a folded line has at most 75 bytes, and is cut between
    characters. *)
Lemma fold_line_fits l :
  l ≠ empty_str → utf8 l →
  ∃ chunks : list (list string), fold_line l = join CRLF (physical chunks) ∧
    mjoin chunks = chars l ∧ Forall (λ p, String.length p ≤ 75) (physical chunks).
Proof.
  intros Hne Hu. destruct (fold_line_chunks l Hne) as (chunks & Hf & Hj & _ & Hfit).
  exists chunks. rewrite Hf, join_physical. split_and!; [done..|].
  destruct chunks as [|c cs]; [constructor|]. constructor.
  - by apply (Hfit 0 c).
  - apply Forall_fmap, Forall_lookup. intros i ch Hi. simpl.
    specialize (Hfit (S i) ch Hi Hu). unfold fits in Hfit. lia.
Qed.

(** ** Changed resources *)

Section Changed.
Context {R : Type} `{Etag.DavResource R}.

Lemma filter_changed_elem (stored : gmap string string) fetched (r : R) :
  r ∈ Etag.filter_changed stored fetched ↔
  r ∈ fetched ∧ stored !! Etag.href r ≠ Some (Etag.etag r).
Proof.
  unfold Etag.filter_changed. rewrite list_elem_of_filter. unfold Etag.is_changed.
  destruct (stored !! Etag.href r) as [e|] eqn:E.
  - rewrite negb_true_iff, bool_decide_eq_false. naive_solver.
  - naive_solver.
Qed.
End Changed.

(** ** URLs *)

Lemma squeeze_no_double b s :
  (∀ l r, Url.squeeze_slashes b s ≠ l +:+ "//" +:+ r) ∧
  (b = true → ∀ r, Url.squeeze_slashes b s ≠ "/" +:+ r).
Proof.
  revert b. induction s as [|c s IH]; intros b.
  { split; [by intros [|] r|by intros _ r]. }
  cbn [Url.squeeze_slashes]. case_bool_decide as Hc; [subst c; destruct b|].
  - apply (IH true).
  - split; [|done]. destruct (IH true) as [H1 H2]. intros [|a l] r Heq; simplify_eq/=.
    + by apply (H2 eq_refl r).
    + by apply (H1 l r).
  - destruct (IH false) as [H1 _]. split.
    + intros [|a l] r Heq; simplify_eq/=. by apply (H1 l r).
    + intros _ r Heq. by simplify_eq/=.
Qed.

Lemma find_str_Some pat s l r : find_str pat s = Some (l, r) → s = l +:+ r ∧ ∃ t, r = pat +:+ t.
Proof.
  revert l. induction s as [|a s IH]; intros l; cbn [find_str].
  - destruct (starts_with "" pat) eqn:E; intros ?; simplify_eq. split; [done|]. by apply starts_with_true.
  - destruct (starts_with (String a s) pat) eqn:E.
    + intros ?; simplify_eq. split; [done|]. by apply starts_with_true.
    + destruct (find_str pat s) as [[l' r']|] eqn:Ef; intros ?; simplify_eq.
      destruct (IH l' eq_refl) as [-> ?]. done.
Qed.

(** A joined URL with a scheme has no double slash after it. *)
Lemma join_dav_url_no_double base path scheme rest :
  find_str "://" (trim_end_matches "/" base +:+ "/" +:+ trim_start_matches "/" path) = Some (scheme, rest) →
  ∃ tail, Url.join_dav_url base path = scheme +:+ "://" +:+ tail ∧ ∀ l r, tail ≠ l +:+ "//" +:+ r.
Proof.
  intros Hf. unfold Url.join_dav_url. rewrite Hf. eexists. split; [done|]. apply squeeze_no_double.
Qed.

(** ** XML *)

Definition xml_esc (c : ascii) : string :=
  if bool_decide (c = "&"%char) then "&amp;"
  else if bool_decide (c = "<"%char) then "&lt;"
  else if bool_decide (c = ">"%char) then "&gt;"
  else if bool_decide (c = QUOTE) then "&quot;"
  else if bool_decide (c = "'"%char) then "&apos;"
  else singleton c.

Lemma xml_escape_cons c s : DavXml.xml_escape (String c s) = xml_esc c +:+ DavXml.xml_escape s.
Proof.
  unfold DavXml.xml_escape, xml_esc. repeat case_bool_decide; subst; [done..|].
  do 5 (cbn [replace_char]; rewrite bool_decide_false by done). done.
Qed.

Definition MARKUP : list ascii := ["<"%char; ">"%char; QUOTE; "'"%char].

(** No markup character is left. *)
Lemma xml_escape_free s : free_of MARKUP (DavXml.xml_escape s).
Proof.
  induction s as [|c s IH]; [apply free_of_nil|]. rewrite xml_escape_cons, free_of_app. split; [|done].
  unfold xml_esc. repeat case_bool_decide;
    try (apply (bool_decide_unpack _); vm_compute; exact I).
  apply free_of_cons. split; [|apply free_of_nil]. unfold MARKUP. set_solver.
Qed.

(** Different texts have different escapes. *)
Lemma xml_escape_inj a b : DavXml.xml_escape a = DavXml.xml_escape b → a = b.
Proof.
  revert b. induction a as [|c a IH]; intros [|d b]; [done|..]; rewrite ?xml_escape_cons.
  - unfold xml_esc. repeat case_bool_decide; done.
  - unfold xml_esc. repeat case_bool_decide; done.
  - unfold xml_esc. intros He.
    repeat (case_bool_decide; simplify_eq/=; try (f_equal; by apply IH); try done).
Qed.

(** The occurrences of a byte. *)
Fixpoint count (c : ascii) (s : string) : nat :=
  match s with
  | EmptyString => 0
  | String a s' => (if bool_decide (a = c) then 1 else 0) + count c s'
  end.

Lemma count_app c a b : count c (a +:+ b) = count c a + count c b.
Proof. induction a as [|x a IH]; [done|]. simpl. rewrite IH. lia. Qed.

Lemma count_free c s : ¬ char_in c s → count c s = 0.
Proof.
  induction s as [|a s IH]; [done|]. simpl. intros Hc. rewrite bool_decide_false by naive_solver.
  rewrite IH by naive_solver. done.
Qed.

Lemma count_escaped s : count "<" (DavXml.xml_escape s) = 0.
Proof. apply count_free, xml_escape_free. by left. Qed.

Lemma count_push_each {A} c (f : A → string) n xs :
  (∀ x, count c (f x) = n) → count c (DavXml.push_each f xs) = n * length xs.
Proof.
  intros Hf. unfold DavXml.push_each. induction xs as [|x xs IH]; cbn [foldr length].
  - simpl. lia.
  - rewrite count_app, Hf, IH. lia.
Qed.

(** Counts every [<] of a text made of literals and escaped values. *)
Ltac count_markup :=
  unfold DavXml.line; repeat rewrite count_app; rewrite ?count_escaped;
  repeat match goal with
  | |- context [count "<" ?s] => let n := eval vm_compute in (count "<" s) in
      change (count "<" s) with n
  end.

(** ** REPORT bodies *)

(** The events of a multiget: its properties, then one href each. *)
Definition href_events (h : string) : list DavXml.Event :=
  [DavXml.EvStart "D:href"; DavXml.EvText (Some h); DavXml.EvEnd "D:href"].

Definition multiget_events (root : string) (props : list string) (hrefs : list string) : list DavXml.Event :=
  [DavXml.EvStart root; DavXml.EvStart "D:prop"] ++ (DavXml.EvEmpty <$> props)
  ++ [DavXml.EvEnd "D:prop"] ++ (hrefs ≫= href_events) ++ [DavXml.EvEnd root].

Definition qualified (name : string) : string * string :=
  (DavXml.resolve_namespace name, DavXml.local_name name).

Lemma multiget_props s props :
  DavXml.rp_in_prop s = true → is_Some (DavXml.rp_type s) →
  foldl DavXml.rp_step s (DavXml.EvEmpty <$> props) =
  {| DavXml.rp_type := DavXml.rp_type s; DavXml.rp_in_prop := true;
     DavXml.rp_in_href := DavXml.rp_in_href s;
     DavXml.rp_properties := DavXml.rp_properties s ++ (qualified <$> props);
     DavXml.rp_hrefs := DavXml.rp_hrefs s; DavXml.rp_buf := DavXml.rp_buf s |}.
Proof.
  revert s. induction props as [|p props IH]; intros s Hin Ht.
  { simpl. rewrite app_nil_r. destruct s; simpl in *. by subst. }
  rewrite !fmap_cons. cbn [foldl].
  assert (DavXml.rp_step s (DavXml.EvEmpty p) = DavXml.rp_push s p) as ->.
  { cbn [DavXml.rp_step]. destruct Ht as [t Ht].
    rewrite (bool_decide_false (DavXml.rp_type s = None)) by (rewrite Ht; done).
    by rewrite andb_false_r, Hin. }
  rewrite IH by done. unfold DavXml.rp_push. cbn. by rewrite <- app_assoc.
Qed.

Lemma multiget_hrefs s hrefs :
  DavXml.rp_in_prop s = false →
  Forall (λ h, trim h ≠ empty_str) hrefs → DavXml.rp_in_href s = false → DavXml.rp_buf s = empty_str →
  foldl DavXml.rp_step s (hrefs ≫= href_events) =
  {| DavXml.rp_type := DavXml.rp_type s; DavXml.rp_in_prop := false; DavXml.rp_in_href := false;
     DavXml.rp_properties := DavXml.rp_properties s;
     DavXml.rp_hrefs := DavXml.rp_hrefs s ++ (trim <$> hrefs); DavXml.rp_buf := empty_str |}.
Proof.
  intros Hp Hh. revert s Hp. induction Hh as [|h hrefs Hh Hhs IH]; intros s Hp Hi Hb.
  { simpl. rewrite app_nil_r. destruct s; simpl in *. by subst. }
  cbn [mbind list_bind]. rewrite foldl_app.
  assert (foldl DavXml.rp_step s (href_events h) =
          DavXml.rp_set_href false (DavXml.rp_hrefs s ++ [trim h]) empty_str s) as ->.
  { transitivity (DavXml.rp_set_href false
      (if is_empty (trim h) then DavXml.rp_hrefs s else DavXml.rp_hrefs s ++ [trim h]) empty_str s).
    - reflexivity.
    - by rewrite (proj2 (is_empty_false _) Hh). }
  fold (hrefs ≫= href_events).
  rewrite IH by done. cbn -[trim]. by rewrite <- app_assoc.
Qed.

(** A multiget body is read back: the properties it names and the hrefs it lists. *)
Lemma parse_multiget (read_events : string → list DavXml.Event * option string) body root kind props hrefs :
  (root, kind) ∈ [("C:calendar-multiget", DavXml.CalendarMultiget);
                  ("CR:addressbook-multiget", DavXml.AddressbookMultiget)] →
  trim body ≠ empty_str → read_events (trim body) = (multiget_events root props hrefs, None) →
  Forall (λ h, trim h ≠ empty_str) hrefs →
  DavXml.parse_report read_events body = Ok (kind (qualified <$> props) (trim <$> hrefs)).
Proof.
  intros Hr Hb He Hh. unfold DavXml.parse_report. rewrite (proj2 (is_empty_false _) Hb).
  unfold DavXml.run_events. rewrite He. cbn [result_bind]. unfold multiget_events.
  rewrite !elem_of_cons in Hr. destruct Hr as [Hr|[Hr|[]%elem_of_nil]]; simplify_eq;
    rewrite !foldl_app; cbn [foldl];
    (rewrite multiget_props by (done || by eexists); cbn [foldl]; rewrite multiget_hrefs by done; done).
Qed.
