(* ===== verification/ContactsFacts.v ===== *)
(** * Properties of contacts

    A portable contact survives the way through a vCard: what the CardDAV server writes,
    it reads back. *)

From stdpp Require Import base tactics list gmap sets strings pretty.
From Stdlib Require Import Ascii ZArith Lia.
From S2P Require Import Prelude RustString RustText Json Dav Contacts DavFacts.

Local Open Scope string_scope.
Local Open Scope list_scope.
Import Serializer.

(** ** Portable contacts *)

(** The text keeps its end when the line it closes is trimmed. *)
Definition stable_end (s : string) : Prop := trim_end s = s.

(** Nothing to trim at either end. *)
Definition trimmed (s : string) : Prop := trim_start s = s ∧ stable_end s.

(** A text written as it is on one line. *)
Definition plain (s : string) : Prop := free_of [CR; LF] s ∧ stable_end s.

(** A component of a structured value. *)
Definition component (s : string) : Prop := free_of [CR; ";"%char] s.

Definition address_fields (a : ContactAddress) : list (option string) :=
  [ca_street a; ca_city a; ca_region a; ca_postal_code a; ca_country a].

Record portable_address (a : ContactAddress) : Prop := {
  pa_fields : ∀ t, Some t ∈ address_fields a →
    t ≠ empty_str ∧ trimmed t ∧ free_of [CR; LF; ";"%char; BACKSLASH] t;
  pa_some : ∃ t, Some t ∈ address_fields a;
  pa_type : ca_type a = None;
}.

Record portable (c : Contact) : Prop := {
  po_name : component (cn_given (ct_name c)) ∧ component (cn_family (ct_name c));
  po_named : cn_given (ct_name c) ≠ empty_str ∨ cn_family (ct_name c) ≠ empty_str;
  po_parts : ∀ t, Some t ∈ [cn_middle (ct_name c); cn_prefix (ct_name c); cn_suffix (ct_name c)] →
    t ≠ empty_str ∧ component t;
  po_suffix : ∀ t, cn_suffix (ct_name c) = Some t → stable_end (escape_vcard_value t);
  po_emails : Forall (λ e, plain (ce_address e) ∧ ce_primary e ≠ Some false) (ct_emails c);
  po_phones : Forall (λ p, plain (cp_number p) ∧ cp_primary p = None) (ct_phones c);
  po_addresses : Forall portable_address (ct_addresses c);
  po_org : ∀ t, ct_organization c = Some t →
    t ≠ empty_str ∧ component t ∧ stable_end (escape_vcard_value t);
  po_uid : ct_source_id c ≠ empty_str ∧ plain (ct_source_id c);
}.

(** What a vCard carries of a contact. *)
Definition imported (id : string) (now : Z) (c : Contact) : Contact :=
  {| ct_id := id; ct_name := ct_name c; ct_emails := ct_emails c; ct_phones := ct_phones c;
     ct_addresses := ct_addresses c; ct_organization := ct_organization c; ct_title := None;
     ct_birthday := None; ct_photo_url := None; ct_notes := None; ct_groups := [];
     ct_source := "carddav-api"; ct_source_id := ct_source_id c; ct_extensions := None;
     ct_created_at := now; ct_updated_at := now |}.

(** ** Reading one line *)

(** What a property does, once its line is split. *)
Definition on_prop (a : Acc) (prop value : string) : Acc :=
  let '(prop_name, params) := parse_property_name prop in
  let name := to_uppercase prop_name in
  if bool_decide (name = "FN") then a
  else if bool_decide (name = "N") then set_name value a
  else if bool_decide (name = "EMAIL") then add_email (read_email params value) a
  else if bool_decide (name = "TEL") then add_phone (read_phone params value) a
  else if bool_decide (name = "ADR") then add_address (read_address value) a
  else if bool_decide (name = "ORG") then set_organization value a
  else if bool_decide (name = "UID") then set_source_id value a
  else a.

Definition prop_ok (p : string) : Prop :=
  match p with String c _ => is_visible c = true | EmptyString => False end ∧ ¬ char_in ":" p.

#[export] Instance prop_ok_dec p : Decision (prop_ok p).
Proof. unfold prop_ok. destruct p; apply _. Defined.

Ltac solve_prop := apply (bool_decide_unpack _); vm_compute; exact I.

Lemma vcard_step_prop a p v :
  prop_ok p → vcard_step a (p +:+ String ":" v) = on_prop a p (trim_end v).
Proof.
  intros [Hh Hc]. unfold vcard_step.
  assert (trim (p +:+ String ":" v) = p +:+ String ":" (trim_end v)) as ->.
  { unfold trim. destruct p as [|c p]; [done|].
    change (String c p +:+ String ":" v) with (String c (p +:+ String ":" v)).
    rewrite trim_start_head by done.
    change (String c (p +:+ String ":" v)) with (String c p +:+ String ":" v).
    by rewrite trim_end_app. }
  rewrite split_once_app by done. destruct p as [|c p]; [done|]. done.
Qed.

Lemma content_prop p v :
  prop_ok p → free_of [CR; LF] p → free_of [CR; LF] v → content_line (p +:+ String ":" v).
Proof.
  intros [Hh _] Hp Hv. constructor.
  - rewrite free_of_app, free_of_cons. split_and!; [done|set_solver|done].
  - destruct p as [|c p]; [done|]. simpl. split; intros ->; done.
Qed.

Lemma escape_free_crlf s : free_of [CR] s → free_of [CR; LF] (escape_vcard_value s).
Proof.
  intros Hs c [->|[->|[]%elem_of_nil]%elem_of_cons]%elem_of_cons.
  - eapply (escape_free [CR]); [|done|by left]. repeat constructor; set_solver.
  - apply escape_free_lf. by left.
Qed.

Lemma component_escaped s : component s → free_of [CR; LF; ";"%char] (escape_vcard_value s).
Proof.
  intros Hs c Hc. destruct (decide (c = ";"%char)) as [->|Hne].
  - apply escape_free_semi; [|by left]. eapply free_of_sub; [|done]. set_solver.
  - apply (escape_free_crlf s); [|set_solver]. eapply free_of_sub; [|done]. set_solver.
Qed.

(** ** Each line *)

Lemma split_semi ps : ps ≠ [] → Forall (free_of [";"%char]) ps → split ";" (join ";" ps) = ps.
Proof.
  intros Hne Hps. change (join ";" ps) with (join (singleton ";") ps). apply split_join; [done|].
  eapply Forall_impl; [done|]. intros s Hs. apply Hs. by left.
Qed.

Lemma option_value (o : option string) :
  o ≠ Some empty_str →
  some_if_not_empty (Text.decode_escaped_value (escape_vcard_value (default empty_str o))) None = o.
Proof.
  intros Ho. unfold escape_vcard_value. rewrite decode_escape. destruct o as [s|]; [|done].
  unfold some_if_not_empty. simpl. rewrite (proj2 (is_empty_false s)); [done|]. congruence.
Qed.

Definition name_parts (n : ContactName) : list string :=
  [cn_family n; cn_given n; default empty_str (cn_middle n); default empty_str (cn_prefix n);
   default empty_str (cn_suffix n)].

Section Lines.
Context (c : Contact) (Hc : portable c).

Lemma default_part o :
  o ∈ [cn_middle (ct_name c); cn_prefix (ct_name c); cn_suffix (ct_name c)] →
  component (default empty_str o) ∧ o ≠ Some empty_str.
Proof.
  intros Ho. destruct o as [t|]; [|split; [apply free_of_nil|done]].
  destruct (po_parts c Hc t Ho). split; [done|congruence].
Qed.

Lemma name_parts_component : Forall component (name_parts (ct_name c)).
Proof.
  destruct (po_name c Hc). repeat constructor; [done..|apply default_part; set_solver| |];
    apply default_part; set_solver.
Qed.

Lemma name_line_value :
  name_line (ct_name c) = "N" +:+ String ":" (join ";" (escape_vcard_value <$> name_parts (ct_name c))).
Proof. done. Qed.

Lemma name_value_stable : stable_end (join ";" (escape_vcard_value <$> name_parts (ct_name c))).
Proof.
  unfold stable_end, name_parts. cbn [fmap list_fmap join].
  set (e := escape_vcard_value (default empty_str (cn_suffix (ct_name c)))).
  assert (trim_end e = e) as He; [|by rewrite <- !string_app_assoc, (string_app_assoc _ ";" e);
    change (";" +:+ e) with (String ";" e); rewrite trim_end_app, He].
  unfold e. destruct (cn_suffix (ct_name c)) as [s|] eqn:E; [|done].
  by apply (po_suffix c Hc).
Qed.

Lemma step_name a :
  a_middle a = None → a_prefix a = None → a_suffix a = None →
  vcard_step a (name_line (ct_name c)) =
  {| a_given := cn_given (ct_name c); a_family := cn_family (ct_name c);
     a_middle := cn_middle (ct_name c); a_prefix := cn_prefix (ct_name c);
     a_suffix := cn_suffix (ct_name c); a_emails := a_emails a; a_phones := a_phones a;
     a_addresses := a_addresses a; a_organization := a_organization a;
     a_source_id := a_source_id a |}.
Proof.
  intros Hm Hp Hs. rewrite name_line_value, vcard_step_prop by solve_prop.
  rewrite name_value_stable. change (on_prop a "N" ?v) with (set_name v a). unfold set_name.
  rewrite split_semi; [|done|].
  2:{ apply Forall_fmap. eapply Forall_impl; [apply name_parts_component|].
      intros s Hs'%component_escaped. eapply free_of_sub; [|done]. set_solver. }
  rewrite Hm, Hp, Hs. cbn -[Text.decode_escaped_value escape_vcard_value].
  rewrite !option_value by (apply default_part; set_solver).
  unfold escape_vcard_value. by rewrite !decode_escape.
Qed.
End Lines.

(** The part before the colon of an EMAIL and a TEL line. *)
Definition email_prop (e : ContactEmail) : string :=
  "EMAIL"
  +:+ match ce_type e with
      | Some t => ";TYPE=" +:+ contact_info_type_to_vcard t
      | None => empty_str
      end
  +:+ (if bool_decide (ce_primary e = Some true) then ";PREF=1" else empty_str).

Definition phone_prop (p : ContactPhone) : string :=
  "TEL"
  +:+ match cp_type p with
      | Some t => ";TYPE=" +:+ phone_type_to_vcard t
      | None => empty_str
      end.

Lemma email_line_prop e : email_line e = email_prop e +:+ String ":" (ce_address e).
Proof. unfold email_line, email_prop. by rewrite !string_app_assoc. Qed.

Lemma phone_line_prop p : phone_line p = phone_prop p +:+ String ":" (cp_number p).
Proof. unfold phone_line, phone_prop. by rewrite !string_app_assoc. Qed.

Lemma step_email a e :
  plain (ce_address e) → ce_primary e ≠ Some false →
  vcard_step a (email_line e) = add_email e a.
Proof.
  intros [_ Hs] Hp. rewrite email_line_prop. destruct e as [addr ty pr]. cbn [ce_address ce_primary] in *.
  destruct ty as [[]|], pr as [[]|]; try done;
    (rewrite vcard_step_prop by solve_prop; rewrite Hs; reflexivity).
Qed.

Lemma step_phone a p :
  plain (cp_number p) → cp_primary p = None → vcard_step a (phone_line p) = add_phone p a.
Proof.
  intros [_ Hs] Hp. rewrite phone_line_prop. destruct p as [num ty pr]. cbn [cp_number cp_primary] in *.
  subst pr. destruct ty as [[]|];
    (rewrite vcard_step_prop by solve_prop; rewrite Hs; reflexivity).
Qed.

(** *** Addresses *)

Lemma decode_plain s : ¬ char_in BACKSLASH s → Text.decode_escaped_value s = s.
Proof.
  induction s as [|c s IH]; [done|]. cbn [Text.decode_escaped_value char_in]. intros Hc.
  rewrite bool_decide_false by naive_solver. by rewrite IH by naive_solver.
Qed.

Lemma non_empty_field o :
  (∀ t, o = Some t → t ≠ empty_str ∧ trimmed t ∧ ¬ char_in BACKSLASH t) →
  Text.non_empty (default empty_str o) = o.
Proof.
  intros Ho. unfold Text.non_empty. destruct o as [t|]; [|done].
  destruct (Ho t eq_refl) as (Hne & [Hts Hte] & Hb). simpl. unfold trim.
  rewrite Hts, Hte.
  rewrite (proj2 (is_empty_false t) Hne). by rewrite decode_plain.
Qed.

Definition address_value (ad : ContactAddress) : string :=
  join ";" ([empty_str; empty_str] ++ (default empty_str <$> address_fields ad)).

Lemma address_line_value ad : address_line ad = "ADR" +:+ String ":" (address_value ad).
Proof. done. Qed.

Section Address.
Context (ad : ContactAddress) (Had : portable_address ad).

Lemma address_part_free :
  Forall (free_of [CR; LF; ";"%char]) ([empty_str; empty_str] ++ (default empty_str <$> address_fields ad)).
Proof.
  constructor; [apply free_of_nil|]. constructor; [apply free_of_nil|].
  apply (Forall_fmap (default empty_str)). apply Forall_forall. intros [t|] Ht; [|apply free_of_nil].
  simpl. destruct (pa_fields ad Had t Ht) as (_ & _ & Hf). eapply free_of_sub; [|done]. set_solver.
Qed.

Lemma address_value_stable : stable_end (address_value ad).
Proof.
  unfold stable_end, address_value, address_fields. cbn [fmap list_fmap app join].
  set (e := default empty_str (ca_country ad)).
  assert (trim_end e = e) as He; [|by rewrite <- !string_app_assoc, (string_app_assoc _ ";" e);
    change (";" +:+ e) with (String ";" e); rewrite trim_end_app, He].
  unfold e. destruct (ca_country ad) as [t|] eqn:E; [|done].
  apply (pa_fields ad Had t). unfold address_fields. rewrite E. set_solver.
Qed.

Lemma read_address_value : read_address (address_value ad) = Some ad.
Proof.
  unfold read_address, address_value. rewrite split_semi; [|done|].
  2:{ eapply Forall_impl; [apply address_part_free|]. intros s. apply free_of_sub. set_solver. }
  assert (∀ o, o ∈ address_fields ad → Text.non_empty (default empty_str o) = o) as Hf.
  { intros o Ho. apply non_empty_field. intros t ->. destruct (pa_fields ad Had t Ho) as (? & ? & Hfr).
    split_and!; [done..|]. apply Hfr. set_solver. }
  cbn -[Text.non_empty bool_decide].
  rewrite !Hf by (unfold address_fields; set_solver).
  destruct (pa_some ad Had) as [t Ht]. unfold address_fields in Ht.
  assert (bool_decide (is_Some (ca_street ad)) || bool_decide (is_Some (ca_city ad))
    || bool_decide (is_Some (ca_region ad)) || bool_decide (is_Some (ca_postal_code ad))
    || bool_decide (is_Some (ca_country ad)) = true) as ->.
  { rewrite !orb_true_iff, !bool_decide_eq_true. set_unfold.
    destruct Ht as [<-|[<-|[<-|[<-|[<-|[]]]]]]; naive_solver. }
  rewrite <- (pa_type ad Had). by destruct ad.
Qed.

Lemma step_address a : vcard_step a (address_line ad) = add_address (Some ad) a.
Proof.
  rewrite address_line_value, vcard_step_prop by solve_prop. rewrite address_value_stable.
  change (on_prop a "ADR" ?v) with (add_address (read_address v) a). by rewrite read_address_value.
Qed.
End Address.

Lemma step_org a org :
  org ≠ empty_str → component org → stable_end (escape_vcard_value org) →
  vcard_step a ("ORG:" +:+ escape_vcard_value org) =
  {| a_given := a_given a; a_family := a_family a; a_middle := a_middle a;
     a_prefix := a_prefix a; a_suffix := a_suffix a; a_emails := a_emails a;
     a_phones := a_phones a; a_addresses := a_addresses a; a_organization := Some org;
     a_source_id := a_source_id a |}.
Proof.
  intros Hne Hc Hs. change ("ORG:" +:+ ?x) with ("ORG" +:+ String ":" x).
  rewrite vcard_step_prop by solve_prop. rewrite Hs. change (on_prop a "ORG" ?v) with (set_organization v a).
  unfold set_organization, first_piece. rewrite split_nochar.
  2:{ eapply component_escaped; [done|]. set_solver. }
  simpl. unfold escape_vcard_value. rewrite decode_escape. unfold some_if_not_empty.
  by rewrite (proj2 (is_empty_false org) Hne).
Qed.

(** ** The lists *)

Definition with_lists (a : Acc) (es : list ContactEmail) (ps : list ContactPhone)
    (ads : list ContactAddress) : Acc :=
  {| a_given := a_given a; a_family := a_family a; a_middle := a_middle a;
     a_prefix := a_prefix a; a_suffix := a_suffix a; a_emails := a_emails a ++ es;
     a_phones := a_phones a ++ ps; a_addresses := a_addresses a ++ ads;
     a_organization := a_organization a; a_source_id := a_source_id a |}.

Lemma with_lists_nil a : with_lists a [] [] [] = a.
Proof. destruct a. unfold with_lists. simpl. by rewrite !app_nil_r. Qed.

Lemma steps_with {X} (line : X → string) (put : list X → Acc → Acc) (P : X → Prop) xs a :
  (∀ a, put [] a = a) →
  (∀ a x xs, P x → put xs (vcard_step a (line x)) = put (x :: xs) a) →
  Forall P xs → foldl vcard_step a (line <$> xs) = put xs a.
Proof.
  intros Hnil Hcons Hxs. revert a. induction Hxs as [|x xs Hx Hxs IH]; intros a; [by rewrite Hnil|].
  rewrite fmap_cons. cbn [foldl]. by rewrite IH, Hcons.
Qed.

Lemma steps_lists c a :
  portable c →
  foldl vcard_step
    (foldl vcard_step (foldl vcard_step a (email_line <$> ct_emails c)) (phone_line <$> ct_phones c))
    (address_line <$> ct_addresses c)
  = with_lists a (ct_emails c) (ct_phones c) (ct_addresses c).
Proof.
  intros Hc.
  erewrite (steps_with email_line (λ es a, with_lists a es [] [])); [|apply with_lists_nil| |apply (po_emails c Hc)].
  2:{ intros a' e es [??]. rewrite step_email by done. unfold with_lists. simpl.
      by rewrite <- app_assoc. }
  erewrite (steps_with phone_line (λ ps a, with_lists a [] ps [])); [|apply with_lists_nil| |apply (po_phones c Hc)].
  2:{ intros a' e es [??]. rewrite step_phone by done. unfold with_lists. simpl.
      by rewrite <- app_assoc. }
  erewrite (steps_with address_line (λ ads a, with_lists a [] [] ads)); [|apply with_lists_nil| |apply (po_addresses c Hc)].
  2:{ intros a' ad ads Had. rewrite step_address by done. unfold with_lists. simpl.
      by rewrite <- app_assoc. }
  unfold with_lists. simpl. by rewrite !app_nil_r.
Qed.

(** ** The round trip *)

Section RoundTrip.
Context (format_utc : Z → string) (Hutc : ∀ t, free_of [CR; LF] (format_utc t)).

Lemma component_cr s : component s → free_of [CR] s.
Proof. apply free_of_sub. set_solver. Qed.

Lemma display_name_free c : portable c → free_of [CR] (display_name (ct_name c)).
Proof.
  intros Hc. destruct (po_name c Hc) as [Hg Hf].
  assert (∀ o, o ∈ [cn_middle (ct_name c); cn_prefix (ct_name c); cn_suffix (ct_name c)] →
    Forall (free_of [CR]) (option_list o)) as Ho.
  { intros [t|] Ht; simpl; [|done]. apply Forall_singleton, component_cr, (po_parts c Hc t Ht). }
  apply free_of_join; [by intros x ->%list_elem_of_singleton [?|[]]|].
  rewrite !Forall_app, !Forall_singleton. split_and!; try by apply component_cr.
  all: apply Ho; set_solver.
Qed.

Lemma content_contact c : portable c → Forall content_line (contact_lines format_utc c).
Proof.
  intros Hc. unfold contact_lines. rewrite !Forall_app. split_and!.
  - repeat apply Forall_cons_2; [..|constructor].
    + by apply (content_prop "BEGIN"); solve_prop.
    + by apply (content_prop "VERSION"); solve_prop.
    + apply (content_prop "UID"); [solve_prop..|]. apply (po_uid c Hc).
    + apply (content_prop "FN"); [solve_prop..|]. by apply escape_free_crlf, display_name_free.
    + rewrite name_line_value. apply content_prop; [solve_prop..|].
      apply free_of_join; [solve_prop|]. apply Forall_fmap.
      eapply Forall_impl; [by apply name_parts_component|].
      intros s Hs. by apply escape_free_crlf, component_cr.
  - apply Forall_fmap. eapply Forall_impl; [by apply po_emails|]. intros e [[Hp _] _]. simpl.
    rewrite email_line_prop. destruct e as [ad [[]|] [[]|]]; (apply content_prop; [solve_prop..|done]).
  - apply Forall_fmap. eapply Forall_impl; [by apply po_phones|]. intros e [[Hp _] _]. simpl.
    rewrite phone_line_prop. destruct e as [ad [[]|] ?]; (apply content_prop; [solve_prop..|done]).
  - apply Forall_fmap. eapply Forall_impl; [by apply po_addresses|]. intros ad Had. simpl.
    rewrite address_line_value. apply content_prop; [solve_prop..|].
    apply free_of_join; [solve_prop|].
    eapply Forall_impl; [by apply address_part_free|]. intros s. apply free_of_sub. set_solver.
  - destruct (ct_organization c) as [org|] eqn:E; [|constructor]. apply Forall_singleton.
    destruct (po_org c Hc org E) as (_ & Ho & _).
    apply (content_prop "ORG"); [solve_prop..|]. by apply escape_free_crlf, component_cr.
  - repeat apply Forall_cons_2; [..|constructor].
    + apply (content_prop "REV"); [solve_prop..|]. apply Hutc.
    + by apply (content_prop "END"); solve_prop.
Qed.

(** What the loop reads from the lines of a portable contact. *)
Lemma read_lines c :
  portable c →
  foldl vcard_step acc_init (contact_lines format_utc c) =
  {| a_given := cn_given (ct_name c); a_family := cn_family (ct_name c);
     a_middle := cn_middle (ct_name c); a_prefix := cn_prefix (ct_name c);
     a_suffix := cn_suffix (ct_name c); a_emails := ct_emails c; a_phones := ct_phones c;
     a_addresses := ct_addresses c; a_organization := ct_organization c;
     a_source_id := ct_source_id c |}.
Proof.
  intros Hc. unfold contact_lines.
  rewrite !foldl_app. cbn [foldl].
  change (vcard_step (vcard_step acc_init "BEGIN:VCARD") "VERSION:4.0") with acc_init.
  change ("UID:" +:+ ?x) with ("UID" +:+ String ":" x). rewrite vcard_step_prop by solve_prop.
  destruct (po_uid c Hc) as [_ [_ ->]]. change (on_prop acc_init "UID" ?v) with (set_source_id v acc_init).
  change ("FN:" +:+ ?x) with ("FN" +:+ String ":" x). rewrite vcard_step_prop by solve_prop.
  change (on_prop ?a "FN" ?v) with a. rewrite step_name by done.
  change ("REV:" +:+ ?x) with ("REV" +:+ String ":" x). rewrite (vcard_step_prop _ "REV") by solve_prop.
  change (on_prop ?a "REV" ?v) with a. change (vcard_step ?a "END:VCARD") with a.
  rewrite steps_lists by done. unfold with_lists. simpl.
  destruct (ct_organization c) as [org|] eqn:E; [|done]. simpl.
  destruct (po_org c Hc org E) as (? & ? & ?). change (String "O" (String "R" (String "G" (String ":" ?x)))) with ("ORG:" +:+ x).
  by rewrite step_org.
Qed.
End RoundTrip.

Lemma contact_lines_last format_utc c :
  List.last (contact_lines format_utc c) empty_str = "END:VCARD".
Proof.
  unfold contact_lines. set (rev := "REV:" +:+ _).
  change [rev; "END:VCARD"] with ([rev] ++ ["END:VCARD"]).
  rewrite !app_assoc. apply List.last_last.
Qed.

(** The CardDAV server reads back the vCard it writes: name, emails, phones, addresses,
    organization and uid of a portable contact, however long its lines are. *)
Theorem vcard_round_trip (format_utc : Z → string) c id uid now :
  (∀ t, free_of [CR; LF] (format_utc t)) → portable c →
  vcard_to_contact id uid now (contact_to_vcard format_utc c) = Ok (imported id now c).
Proof.
  intros Hutc Hc. pose proof (content_contact format_utc Hutc c Hc) as Hcl.
  unfold vcard_to_contact, contact_to_vcard.
  rewrite unfold_folded, lines_join; [|done| |by rewrite contact_lines_last|done..].
  2:{ eapply Forall_impl; [done|]. by intros l []. }
  rewrite read_lines by done.
  assert (has_line "BEGIN:VCARD" (contact_lines format_utc c) = true) as -> by done.
  assert (has_line "END:VCARD" (contact_lines format_utc c) = true) as ->.
  { apply existsb_elem_of. exists "END:VCARD". split; [|done].
    unfold contact_lines. set_solver. }
  cbn [negb orb a_given a_family a_middle a_prefix a_suffix a_emails a_phones a_addresses
       a_organization a_source_id].
  assert (unnamed (cn_given (ct_name c)) (cn_family (ct_name c)) = false) as Hun.
  { unfold unnamed. apply andb_false_iff. rewrite !is_empty_false. apply (po_named c Hc). }
  rewrite Hun. cbn beta iota zeta. rewrite Hun.
  rewrite (proj2 (is_empty_false (ct_source_id c))) by apply (po_uid c Hc).
  unfold imported. by destruct (ct_name c).
Qed.

(** ** A name with a semicolon *)

(** A concrete stamp, and a contact. *)
Definition stamp (t : Z) : string := show_Z (Z.abs t) +:+ "Z".

Definition ada : Contact :=
  {| ct_id := "1"; ct_name := {| cn_given := "Ada, Countess"; cn_family := "Lovelace"; cn_prefix := Some "Lady";
       cn_suffix := None; cn_middle := None |};
     ct_emails := [{| ce_address := "ada@example.org"; ce_type := Some CitWork; ce_primary := Some true |}];
     ct_phones := [{| cp_number := "+44 1"; cp_type := Some PtMobile; cp_primary := None |}];
     ct_addresses := [{| ca_street := Some "12 St James's Square, in the parish of St James, Westminster, London";
       ca_city := Some "London"; ca_region := None; ca_postal_code := None; ca_country := Some "GB"; ca_type := None |}];
     ct_organization := Some "Engines\Co"; ct_title := None; ct_birthday := None; ct_photo_url := None;
     ct_notes := None; ct_groups := []; ct_source := "local"; ct_source_id := "uid-1";
     ct_extensions := None; ct_created_at := 0; ct_updated_at := 0 |}.

Definition semicolon_name : ContactName :=
  {| cn_given := "Ada"; cn_family := "Love;lace"; cn_prefix := None; cn_suffix := None; cn_middle := None |}.

(** A semicolon in a name is escaped on writing, but the reader splits before it unescapes:
    the family name is cut and the rest moves into the given name. *)
Lemma semicolon_shifts_names :
  let a := vcard_step acc_init (name_line semicolon_name) in
  a_family a = "Love\" ∧ a_given a = "lace" ∧ a_middle a = Some "Ada".
Proof. by vm_compute. Qed.

Lemma stamp_free t : free_of [CR; LF] (stamp t).
Proof.
  unfold stamp. rewrite free_of_app. split; [|solve_prop].
  intros c Hc Hi. apply show_Z_digits in Hi; [|lia].
  revert Hc. rewrite !elem_of_cons. intros [->|[->|[]%elem_of_nil]]; done.
Qed.

Lemma ada_portable : portable ada.
Proof.
  constructor.
  - split; solve_prop.
  - by left.
  - intros t Ht. apply list_elem_of_In in Ht. simpl in Ht.
    destruct Ht as [Ht|[Ht|[Ht|[]]]]; simplify_eq. split; [done|solve_prop].
  - done.
  - apply Forall_singleton. split; [split; [solve_prop|done]|done].
  - apply Forall_singleton. split; [split; [solve_prop|done]|done].
  - apply Forall_singleton. constructor.
    + intros t Ht. apply list_elem_of_In in Ht. simpl in Ht.
      destruct Ht as [Ht|[Ht|[Ht|[Ht|[Ht|[]]]]]]; simplify_eq; (split_and!; [done|done|solve_prop]).
    + eexists. left.
    + done.
  - intros t [= <-]. split_and!; [done|solve_prop|done].
  - split; [done|]. split; [solve_prop|done].
Qed.

Lemma vcard_round_trip_witness :
  vcard_to_contact "2" "fresh" 7 (contact_to_vcard stamp ada) = Ok (imported "2" 7 ada).
Proof. apply (vcard_round_trip stamp ada "2" "fresh" 7); [apply stamp_free|apply ada_portable]. Defined.

(** ** The server's answers *)

(** No href, etag or card adds an element to a REPORT answer. *)
Lemma carddav_report_markup entries :
  count "<" (Protocol.build_report_xml entries) = (3 + 14 * length entries)%nat.
Proof.
  unfold Protocol.build_report_xml.
  repeat rewrite count_app. rewrite (count_push_each "<" Protocol.report_entry 14).
  - count_markup. lia.
  - intros [[href etag] data]. unfold Protocol.report_entry, Protocol.close_response.
    count_markup. reflexivity.
Qed.

(** Nor does one to a PROPFIND answer; at depth 0 only the collection answers. *)
Lemma carddav_propfind_markup response depth :
  count "<" (Protocol.build_propfind_xml_with_depth response depth) =
  (25 + match depth with
        | Protocol.DepthOne => 14 * length (Protocol.pr_resources response)
        | Protocol.DepthZero => 0
        end)%nat.
Proof.
  unfold Protocol.build_propfind_xml_with_depth. repeat rewrite count_app.
  assert (count "<" (Protocol.collection_xml response) = 22) as ->.
  { unfold Protocol.collection_xml, Protocol.close_response. count_markup. reflexivity. }
  destruct depth; [count_markup; reflexivity|].
  rewrite (count_push_each "<" Protocol.resource_xml 14).
  - count_markup. lia.
  - intros r. unfold Protocol.resource_xml, Protocol.close_response. count_markup. reflexivity.
Qed.

Lemma contact_href_uid source_id :
  ¬ char_in "/" source_id → Protocol.uid_from_href (Protocol.contact_href source_id) = Some source_id.
Proof.
  intros Hs. unfold Protocol.uid_from_href, Protocol.contact_href.
  change ("/api/plugins/com.life-engine.api-carddav/addressbooks/default/" +:+ source_id +:+ ".vcf")
    with ("/api/plugins/com.life-engine.api-carddav/addressbooks/default" +:+ String "/" (source_id +:+ ".vcf")).
  rewrite rsplit_next_app; [apply strip_suffix_app|].
  rewrite char_in_app. intros [?|Hi]; [done|]. simpl in Hi. naive_solver.
Qed.

(** ** The connector *)

Definition record_etags (c : Client.CardDavClient) (fetched : list Client.FetchedVCard) : Client.CardDavClient :=
  foldl (λ c f, Client.update_etag (Client.fv_href f) (Client.fv_etag f) c) c fetched.

Lemma record_etags_lookup c fetched h :
  Etag.dss_etags (Client.cl_sync_state (record_etags c fetched)) !! h =
  match List.find (λ f, bool_decide (Client.fv_href f = h)) (reverse fetched) with
  | Some f => Some (Client.fv_etag f)
  | None => Etag.dss_etags (Client.cl_sync_state c) !! h
  end.
Proof.
  induction fetched as [|f fs IH] using rev_ind; [done|].
  unfold record_etags in *. rewrite foldl_app, reverse_snoc. simpl.
  case_bool_decide as Hf; [subst h; by rewrite lookup_insert_eq|].
  rewrite lookup_insert_ne by done. done.
Qed.

(** Once the tags of a fetch are recorded, the same fetch has nothing changed. *)
Lemma recorded_unchanged c fetched :
  NoDup (Client.fv_href <$> fetched) → Client.filter_changed (record_etags c fetched) fetched = [].
Proof.
  intros Hnd. apply elem_of_nil_inv. intros f. unfold Client.filter_changed.
  rewrite filter_changed_elem. intros [Hf Hne]. apply Hne. cbn. rewrite record_etags_lookup.
  destruct (List.find _ _) as [g|] eqn:E.
  - apply List.find_some in E as [Hg Hh]. apply bool_decide_eq_true in Hh.
    apply list_elem_of_In in Hg. rewrite elem_of_reverse in Hg. do 2 f_equal.
    apply list_elem_of_lookup in Hf as [i Hi]. apply list_elem_of_lookup in Hg as [j Hj].
    assert (i = j) as ->; [|congruence].
    eapply (NoDup_lookup _ _ _ (Client.fv_href f) Hnd); rewrite list_lookup_fmap.
    + by rewrite Hi.
    + rewrite Hj. simpl. by rewrite Hh.
  - exfalso. apply list_elem_of_In in Hf. eapply List.find_none in E.
    + by rewrite bool_decide_true in E.
    + apply list_elem_of_In. rewrite elem_of_reverse. by apply list_elem_of_In.
Qed.
