(* ===== verification/Calendar.v ===== *)
(** * Calendar events: iCalendar, CalDAV server and CalDAV connector

    The canonical event (packages/types/src/events.rs), its serialisation and parsing by
    the CalDAV server (plugins/engine/api-caldav: modules [Serializer], [Protocol],
    [Discovery]), and the connector that syncs calendars
    (plugins/engine/connector-calendar: modules [Normalizer] and [Client]).

    Timestamps are nanoseconds from 1970. Parameters: chrono's formats and parsers, the
    time zone database, the ical crate's parser (its components are the records
    [IcalProperty], [IcalAlarm] and [IcalEvent]) and [escape_ical_value], which the
    serializer imports from dav-utils and no file defines. u32 arithmetic that
    overflows is the value [TriggerOverflow]. *)

From stdpp Require Import base tactics list gmap sets strings pretty.
From Stdlib Require Import Ascii ZArith Lia.
From S2P Require Import Prelude RustString RustText Json Dav Contacts.

Local Open Scope string_scope.
Local Open Scope list_scope.

(** ** events.rs *)

Inductive RecurrenceFrequency : Type :=
| Daily
| Weekly
| Monthly
| Yearly.

Record Recurrence : Type := {
  rc_frequency : RecurrenceFrequency;
  rc_interval : Z;
  rc_until : option Z;
  rc_count : option Z;
  rc_by_day : option (list string);
}.

Inductive AttendeeStatus : Type :=
| AsAccepted
| AsDeclined
| AsTentative
| AsNeedsAction.

Inductive AttendeeRole : Type :=
| ArChair
| ArReqParticipant
| ArOptParticipant
| ArNonParticipant.

Record Attendee : Type := {
  at_name : option string;
  at_email : string;
  at_status : option AttendeeStatus;
  at_role : option AttendeeRole;
}.

Definition from_email (email : string) : Attendee :=
  {| at_name := None; at_email := email; at_status := None; at_role := None |}.

Inductive ReminderMethod : Type :=
| RmNotification
| RmEmail.

Record Reminder : Type := {
  rm_minutes_before : Z;
  rm_method : ReminderMethod;
}.

Inductive EventStatus : Type :=
| EsConfirmed
| EsTentative
| EsCancelled.

Record CalendarEvent : Type := {
  ev_id : string;
  ev_title : string;
  ev_start : Z;
  ev_end : option Z;
  ev_description : option string;
  ev_location : option string;
  ev_all_day : option bool;
  ev_recurrence : option Recurrence;
  ev_attendees : list Attendee;
  ev_reminders : list Reminder;
  ev_timezone : option string;
  ev_status : option EventStatus;
  ev_sequence : option Z;
  ev_source : string;
  ev_source_id : string;
  ev_extensions : option json;
  ev_created_at : Z;
  ev_updated_at : Z;
}.

(** [Err] carries the two times of the message. *)
Definition validate_time_range (event : CalendarEvent) : result unit (Z * Z) :=
  match ev_end event with
  | Some end_ => if (end_ <=? ev_start event)%Z then Err (ev_start event, end_) else Ok tt
  | None => Ok tt
  end.

Definition nanos (s : Z) : Z := (s * 1000000000)%Z.

Section Recurrence.
(** chrono's [format("%Y%m%dT%H%M%SZ")] and [parse_from_str] with the same pattern, in
    seconds. *)
Context (format_utc : Z → string) (parse_utc : string → option Z).

Definition parse_freq (value : string) : option RecurrenceFrequency :=
  if bool_decide (value = "DAILY") then Some Daily
  else if bool_decide (value = "WEEKLY") then Some Weekly
  else if bool_decide (value = "MONTHLY") then Some Monthly
  else if bool_decide (value = "YEARLY") then Some Yearly
  else None.

(** The local variables of [from_rrule]. *)
Record RuleAcc : Type := {
  ra_frequency : option RecurrenceFrequency;
  ra_interval : Z;
  ra_until : option Z;
  ra_count : option Z;
  ra_by_day : option (list string);
}.

Definition rule_init : RuleAcc :=
  {| ra_frequency := None; ra_interval := 1; ra_until := None; ra_count := None; ra_by_day := None |}.

(** One part of the rule; [None] is the early return on an unknown FREQ. *)
Definition rule_step (a : RuleAcc) (part : string) : option RuleAcc :=
  match split_once "=" part with
  | None => Some a
  | Some (key, value) =>
      if bool_decide (key = "FREQ") then
        match parse_freq value with
        | Some f => Some {| ra_frequency := Some f; ra_interval := ra_interval a; ra_until := ra_until a;
                            ra_count := ra_count a; ra_by_day := ra_by_day a |}
        | None => None
        end
      else if bool_decide (key = "INTERVAL") then
        Some {| ra_frequency := ra_frequency a; ra_interval := default 1%Z (parse_u32 value);
                ra_until := ra_until a; ra_count := ra_count a; ra_by_day := ra_by_day a |}
      else if bool_decide (key = "COUNT") then
        Some {| ra_frequency := ra_frequency a; ra_interval := ra_interval a; ra_until := ra_until a;
                ra_count := parse_u32 value; ra_by_day := ra_by_day a |}
      else if bool_decide (key = "UNTIL") then
        Some {| ra_frequency := ra_frequency a; ra_interval := ra_interval a;
                ra_until := nanos <$> parse_utc value;
                ra_count := ra_count a; ra_by_day := ra_by_day a |}
      else if bool_decide (key = "BYDAY") then
        Some {| ra_frequency := ra_frequency a; ra_interval := ra_interval a; ra_until := ra_until a;
                ra_count := ra_count a; ra_by_day := Some (split "," value) |}
      else Some a
  end.

Fixpoint rule_steps (a : RuleAcc) (parts : list string) : option RuleAcc :=
  match parts with
  | [] => Some a
  | p :: ps =>
      match rule_step a p with
      | Some a' => rule_steps a' ps
      | None => None
      end
  end.

Definition from_rrule (rrule : string) : option Recurrence :=
  let rrule := default rrule (strip_prefix "RRULE:" rrule) in
  match rule_steps rule_init (split ";" rrule) with
  | None => None
  | Some a =>
      match ra_frequency a with
      | None => None
      | Some f => Some {| rc_frequency := f; rc_interval := ra_interval a; rc_until := ra_until a;
                          rc_count := ra_count a; rc_by_day := ra_by_day a |}
      end
  end.

Definition freq_word (f : RecurrenceFrequency) : string :=
  match f with
  | Daily => "DAILY"
  | Weekly => "WEEKLY"
  | Monthly => "MONTHLY"
  | Yearly => "YEARLY"
  end.

Definition rule_parts (r : Recurrence) : list string :=
  ["FREQ=" +:+ freq_word (rc_frequency r)]
  ++ (if (1 <? rc_interval r)%Z then ["INTERVAL=" +:+ show_Z (rc_interval r)] else [])
  ++ match rc_count r with Some n => ["COUNT=" +:+ show_Z n] | None => [] end
  ++ match rc_by_day r with Some days => ["BYDAY=" +:+ join "," days] | None => [] end
  ++ match rc_until r with Some t => ["UNTIL=" +:+ format_utc (seconds t)] | None => [] end.

Definition to_rrule (r : Recurrence) : string := join ";" (rule_parts r).
End Recurrence.

(** ** The components of the ical crate *)

Record IcalProperty : Type := {
  ip_name : string;
  ip_params : Ical.params_t;
  ip_value : option string;
}.

Record IcalAlarm : Type := {
  ia_properties : list IcalProperty;
}.

Record IcalEvent : Type := {
  ie_properties : list IcalProperty;
  ie_alarms : list IcalAlarm;
}.

Record IcalCalendar : Type := {
  ic_events : list IcalEvent;
}.

Definition find_property (ps : list IcalProperty) (name : string) : option IcalProperty :=
  List.find (λ p, bool_decide (ip_name p = name)) ps.

(** ** api-caldav/src/serializer.rs *)

Module CalSerializer.

Definition status_word (s : EventStatus) : string :=
  match s with
  | EsConfirmed => "CONFIRMED"
  | EsTentative => "TENTATIVE"
  | EsCancelled => "CANCELLED"
  end.

Definition partstat_word (s : AttendeeStatus) : string :=
  match s with
  | AsAccepted => "ACCEPTED"
  | AsDeclined => "DECLINED"
  | AsTentative => "TENTATIVE"
  | AsNeedsAction => "NEEDS-ACTION"
  end.

Definition role_word (r : AttendeeRole) : string :=
  match r with
  | ArChair => "CHAIR"
  | ArReqParticipant => "REQ-PARTICIPANT"
  | ArOptParticipant => "OPT-PARTICIPANT"
  | ArNonParticipant => "NON-PARTICIPANT"
  end.

Definition attendee_line (a : Attendee) : string :=
  let params :=
    ((λ n, "CN=" +:+ n) <$> option_list (at_name a))
    ++ ((λ s, "PARTSTAT=" +:+ partstat_word s) <$> option_list (at_status a))
    ++ ((λ r, "ROLE=" +:+ role_word r) <$> option_list (at_role a)) in
  match params with
  | [] => "ATTENDEE:mailto:" +:+ at_email a
  | _ => "ATTENDEE;" +:+ join ";" params +:+ ":mailto:" +:+ at_email a
  end.

Definition alarm_lines (r : Reminder) : list string :=
  ["BEGIN:VALARM";
   "ACTION:" +:+ match rm_method r with RmEmail => "EMAIL" | RmNotification => "DISPLAY" end;
   "TRIGGER:-PT" +:+ show_Z (rm_minutes_before r) +:+ "M";
   "DESCRIPTION:Reminder";
   "END:VALARM"].

Definition timezone_lines (tz : string) : list string :=
  ["BEGIN:VTIMEZONE"; "TZID:" +:+ tz; "BEGIN:STANDARD"; "DTSTART:19700101T000000";
   "TZOFFSETFROM:+0000"; "TZOFFSETTO:+0000"; "END:STANDARD"; "END:VTIMEZONE"].

(** The same loop as the vCard serializer's. *)
Definition fold_line (line : string) : string := Contacts.Serializer.fold_line line.

Section Write.
Context (format_utc format_date : Z → string) (escape_ical_value : string → string).

Definition time_lines (event : CalendarEvent) : list string :=
  let end_ := default (ev_start event) (ev_end event) in
  if bool_decide (ev_all_day event = Some true) then
    ["DTSTART;VALUE=DATE:" +:+ format_date (seconds (ev_start event));
     "DTEND;VALUE=DATE:" +:+ format_date (seconds end_)]
  else
    ["DTSTART:" +:+ format_utc (seconds (ev_start event));
     "DTEND:" +:+ format_utc (seconds end_)].

(** Up to the VTIMEZONE's place. *)
Definition head_lines : list string :=
  ["BEGIN:VCALENDAR"; "VERSION:2.0"; "PRODID:-//Life Engine//CalDAV Server//EN"].

Definition vevent_lines (event : CalendarEvent) : list string :=
  ["BEGIN:VEVENT";
   "UID:" +:+ ev_source_id event;
   "DTSTAMP:" +:+ format_utc (seconds (ev_updated_at event))]
  ++ time_lines event
  ++ ["SUMMARY:" +:+ escape_ical_value (ev_title event);
      "CREATED:" +:+ format_utc (seconds (ev_created_at event));
      "LAST-MODIFIED:" +:+ format_utc (seconds (ev_updated_at event))]
  ++ ((λ loc, "LOCATION:" +:+ escape_ical_value loc) <$> option_list (ev_location event))
  ++ ((λ d, "DESCRIPTION:" +:+ escape_ical_value d) <$> option_list (ev_description event))
  ++ ((λ r, "RRULE:" +:+ to_rrule format_utc r) <$> option_list (ev_recurrence event))
  ++ ((λ n, "SEQUENCE:" +:+ show_Z n) <$> option_list (ev_sequence event))
  ++ ((λ s, "STATUS:" +:+ status_word s) <$> option_list (ev_status event))
  ++ (attendee_line <$> ev_attendees event)
  ++ (ev_reminders event ≫= alarm_lines)
  ++ ["END:VEVENT"].

(** [lines.insert(3 + i, ..)] puts the time zone between the first three lines and the
    event. *)
Definition event_lines (event : CalendarEvent) : list string :=
  head_lines
  ++ match ev_timezone event with Some tz => timezone_lines tz | None => [] end
  ++ vevent_lines event
  ++ ["END:VCALENDAR"].

Definition event_to_ical (event : CalendarEvent) : string :=
  join CRLF (fold_line <$> event_lines event) +:+ CRLF.
End Write.

(** *** Reading *)

Inductive vevent_error : Type :=
| ParserFailed (e : string)
| NoVevent
| MissingDtstart
| BadDateTime (e : Ical.ical_error)
| TriggerOverflow.

Definition get_property (event : IcalEvent) (name : string) : option string :=
  match find_property (ie_properties event) name with
  | Some p => ip_value p
  | None => None
  end.

Definition get_property_params (event : IcalEvent) (name : string) : Ical.params_t :=
  match find_property (ie_properties event) name with
  | Some p => ip_params p
  | None => None
  end.

Definition mail_of (v : string) : string :=
  let t := trim v in
  match strip_prefix "mailto:" t with
  | Some e => e
  | None => default t (strip_prefix "MAILTO:" t)
  end.

Definition parse_partstat (s : string) : option AttendeeStatus :=
  if bool_decide (s = "ACCEPTED") then Some AsAccepted
  else if bool_decide (s = "DECLINED") then Some AsDeclined
  else if bool_decide (s = "TENTATIVE") then Some AsTentative
  else if bool_decide (s = "NEEDS-ACTION") then Some AsNeedsAction
  else None.

Definition parse_role (s : string) : option AttendeeRole :=
  if bool_decide (s = "CHAIR") then Some ArChair
  else if bool_decide (s = "REQ-PARTICIPANT") then Some ArReqParticipant
  else if bool_decide (s = "OPT-PARTICIPANT") then Some ArOptParticipant
  else if bool_decide (s = "NON-PARTICIPANT") then Some ArNonParticipant
  else None.

Definition attendee_param (a : Attendee) (kv : string * list string) : Attendee :=
  let '(key, values) := kv in
  if bool_decide (key = "CN") then
    {| at_name := head values; at_email := at_email a; at_status := at_status a; at_role := at_role a |}
  else if bool_decide (key = "PARTSTAT") then
    {| at_name := at_name a; at_email := at_email a; at_status := head values ≫= parse_partstat;
       at_role := at_role a |}
  else if bool_decide (key = "ROLE") then
    {| at_name := at_name a; at_email := at_email a; at_status := at_status a;
       at_role := head values ≫= parse_role |}
  else a.

Definition extract_attendees (event : IcalEvent) : list Attendee :=
  omap (λ p,
    match ip_value p with
    | Some v => Some (foldl attendee_param (from_email (mail_of v)) (default [] (ip_params p)))
    | None => None
    end) (filter (λ p, ip_name p = "ATTENDEE") (ie_properties event)).

(** u32 arithmetic of the loops; [None] is an overflow. *)
Definition u32_checked (n : Z) : option Z := if (n <=? u32_max)%Z then Some n else None.

(** The two loops of [parse_trigger_minutes]: the digits read so far and the total.
    [Ok None] is the early return of [num_buf.parse().ok()?]. *)
Fixpoint time_loop (total : Z) (num_buf : string) (s : string) : result (option Z) vevent_error :=
  match s with
  | EmptyString => Ok (Some total)
  | String ch rest =>
      if is_ascii_digit ch then time_loop total (num_buf +:+ singleton ch) rest
      else
        match parse_u32 num_buf with
        | None => Ok None
        | Some n =>
            let next (add : option Z) :=
              match add with
              | None => Err TriggerOverflow
              | Some d =>
                  match u32_checked (total + d) with
                  | None => Err TriggerOverflow
                  | Some t => time_loop t empty_str rest
                  end
              end in
            if bool_decide (ch = "H"%char) then next (u32_checked (n * 60))
            else if bool_decide (ch = "M"%char) then next (Some n)
            else if bool_decide (ch = "S"%char) then next (Some (n / 60)%Z)
            else time_loop total empty_str rest
        end
  end.

Fixpoint day_loop (total : Z) (num_buf : string) (s : string) : result (option Z) vevent_error :=
  match s with
  | EmptyString => Ok (Some total)
  | String ch rest =>
      if is_ascii_digit ch then day_loop total (num_buf +:+ singleton ch) rest
      else if bool_decide (ch = "D"%char) then
        match parse_u32 num_buf with
        | None => Ok None
        | Some n =>
            match u32_checked (n * 24) ≫= λ h, u32_checked (h * 60) with
            | None => Err TriggerOverflow
            | Some d =>
                match u32_checked (total + d) with
                | None => Err TriggerOverflow
                | Some t => day_loop t empty_str rest
                end
            end
        end
      else if bool_decide (ch = "T"%char) then Ok (Some total)
      else day_loop total num_buf rest
  end.

Definition parse_trigger_minutes (trigger : string) : result (option Z) vevent_error :=
  match strip_prefix "-" trigger with
  | None => Ok None
  | Some s =>
      match strip_prefix "P" s with
      | None => Ok None
      | Some s =>
          let? total :=
            match strip_prefix "T" s with
            | Some rest => time_loop 0 empty_str rest
            | None => day_loop 0 empty_str s
            end in
          Ok (match total with
              | Some t => if (0 <? t)%Z then Some t else None
              | None => None
              end)
      end
  end.

Definition alarm_value (alarm : IcalAlarm) (name : string) : option string :=
  match find_property (ia_properties alarm) name with
  | Some p => ip_value p
  | None => None
  end.

(** One alarm: [Ok None] drops it. *)
Definition read_alarm (alarm : IcalAlarm) : result (option Reminder) vevent_error :=
  match alarm_value alarm "TRIGGER" with
  | None => Ok None
  | Some t =>
      let? minutes := parse_trigger_minutes t in
      Ok (match minutes with
          | None => None
          | Some m =>
              Some {| rm_minutes_before := m;
                      rm_method :=
                        if bool_decide (to_uppercase <$> alarm_value alarm "ACTION" = Some "EMAIL")
                        then RmEmail else RmNotification |}
          end)
  end.

Definition extract_valarms (event : IcalEvent) : result (list Reminder) vevent_error :=
  let? rs := try_map read_alarm (ie_alarms event) in
  Ok (omap id rs).

Definition parse_status (s : string) : option EventStatus :=
  if bool_decide (s = "CONFIRMED") then Some EsConfirmed
  else if bool_decide (s = "TENTATIVE") then Some EsTentative
  else if bool_decide (s = "CANCELLED") then Some EsCancelled
  else None.

Section Read.
Context (parse_date parse_date_time : string → option Z) (earliest : string → option (Z → option Z)).
Context (parse_utc : string → option Z).

Definition datetime (value : string) (params : Ical.params_t) : result Z Ical.ical_error :=
  Ical.parse_ical_datetime parse_date parse_date_time earliest value params.

(** DTSTART and DTEND in seconds; the default end is a day or an hour later. *)
Definition read_times (event : IcalEvent) : result (string * Z * Z) vevent_error :=
  let? dtstart_raw := ok_or (get_property event "DTSTART") MissingDtstart in
  let? start := result_map_err BadDateTime (datetime dtstart_raw (get_property_params event "DTSTART")) in
  let? end_ :=
    match get_property event "DTEND" with
    | Some dtend_raw =>
        result_map_err BadDateTime (datetime dtend_raw (get_property_params event "DTEND"))
    | None => Ok (start + (if Ical.is_date_only dtstart_raw then 86400 else 3600))%Z
    end in
  Ok (dtstart_raw, start, end_).

(** A timestamp property that does not parse is the current time. *)
Definition stamp_or_now (event : IcalEvent) (name : string) (now : Z) : Z :=
  match get_property event name with
  | Some v =>
      match datetime v None with
      | Ok t => nanos t
      | Err _ => now
      end
  | None => now
  end.

(** [id] and [uid] are the two fresh UUIDs. *)
Definition parse_vevent (id uid : string) (now : Z) (event : IcalEvent) :
    result CalendarEvent vevent_error :=
  let? ' (dtstart_raw, start, end_) := read_times event in
  let? reminders := extract_valarms event in
  Ok {| ev_id := id;
        ev_title := default "(no title)" (get_property event "SUMMARY");
        ev_start := nanos start;
        ev_end := Some (nanos end_);
        ev_description := get_property event "DESCRIPTION";
        ev_location := get_property event "LOCATION";
        ev_all_day := if Ical.is_date_only dtstart_raw then Some true else None;
        ev_recurrence := get_property event "RRULE" ≫= from_rrule parse_utc;
        ev_attendees := extract_attendees event;
        ev_reminders := reminders;
        ev_timezone := Ical.tzid (get_property_params event "DTSTART");
        ev_status := get_property event "STATUS" ≫= parse_status;
        ev_sequence := get_property event "SEQUENCE" ≫= parse_u32;
        ev_source := "caldav-api";
        ev_source_id := default uid (get_property event "UID");
        ev_extensions := None;
        ev_created_at := stamp_or_now event "CREATED" now;
        ev_updated_at := stamp_or_now event "LAST-MODIFIED" now |}.

(** [IcalParser]: the calendars it yields, each an error or a component. *)
Context (ical_parser : string → list (result IcalCalendar string)).

Fixpoint first_event (id uid : string) (now : Z) (calendars : list (result IcalCalendar string)) :
    result CalendarEvent vevent_error :=
  match calendars with
  | [] => Err NoVevent
  | c :: rest =>
      let? calendar := result_map_err ParserFailed c in
      match ic_events calendar with
      | vevent :: _ => parse_vevent id uid now vevent
      | [] => first_event id uid now rest
      end
  end.

Definition ical_to_event (id uid : string) (now : Z) (ical_data : string) :
    result CalendarEvent vevent_error :=
  first_event id uid now (ical_parser ical_data).
End Read.
End CalSerializer.

(** ** api-caldav/src/protocol.rs *)

Module CalProtocol.

Record ResourceEntry : Type := {
  re_href : string;
  re_etag : string;
  re_content_type : string;
}.

Record PropfindResponse : Type := {
  pr_display_name : string;
  pr_ctag : string;
  pr_resources : list ResourceEntry;
}.

Inductive Depth : Type :=
| DepthZero
| DepthOne.

Definition from_header (value : option string) : Depth :=
  if bool_decide (value = Some "0") then DepthZero else DepthOne.

Definition close_response : string :=
  DavXml.line "      </D:prop>"
  +:+ DavXml.line "      <D:status>HTTP/1.1 200 OK</D:status>"
  +:+ DavXml.line "    </D:propstat>"
  +:+ DavXml.line "  </D:response>".

Definition collection_xml (response : PropfindResponse) : string :=
  DavXml.line "  <D:response>"
  +:+ DavXml.line "    <D:href>/api/plugins/com.life-engine.api-caldav/calendars/default/</D:href>"
  +:+ DavXml.line "    <D:propstat>"
  +:+ DavXml.line "      <D:prop>"
  +:+ DavXml.line ("        <D:displayname>" +:+ DavXml.xml_escape (pr_display_name response)
                   +:+ "</D:displayname>")
  +:+ DavXml.line "        <D:resourcetype><D:collection/><C:calendar/></D:resourcetype>"
  +:+ DavXml.line (DavXml.dq "        <C:supported-calendar-component-set><C:comp name='VEVENT'/></C:supported-calendar-component-set>")
  +:+ DavXml.line ("        <CS:getctag>" +:+ DavXml.xml_escape (pr_ctag response) +:+ "</CS:getctag>")
  +:+ close_response.

Definition resource_xml (entry : ResourceEntry) : string :=
  DavXml.line "  <D:response>"
  +:+ DavXml.line ("    <D:href>" +:+ DavXml.xml_escape (re_href entry) +:+ "</D:href>")
  +:+ DavXml.line "    <D:propstat>"
  +:+ DavXml.line "      <D:prop>"
  +:+ DavXml.line ("        <D:getetag>" +:+ DavXml.xml_escape (re_etag entry) +:+ "</D:getetag>")
  +:+ DavXml.line ("        <D:getcontenttype>" +:+ DavXml.xml_escape (re_content_type entry)
                   +:+ "</D:getcontenttype>")
  +:+ close_response.

Definition build_propfind_xml_with_depth (response : PropfindResponse) (depth : Depth) : string :=
  DavXml.XML_DECL
  +:+ DavXml.line (DavXml.dq "<D:multistatus xmlns:D='DAV:' xmlns:C='urn:ietf:params:xml:ns:caldav' xmlns:CS='http://calendarserver.org/ns/'>")
  +:+ collection_xml response
  +:+ match depth with
      | DepthOne => DavXml.push_each resource_xml (pr_resources response)
      | DepthZero => empty_str
      end
  +:+ "</D:multistatus>".

Definition build_propfind_xml (response : PropfindResponse) : string :=
  build_propfind_xml_with_depth response DepthOne.

Definition report_entry (entry : string * string * string) : string :=
  let '(href, etag, ical_data) := entry in
  DavXml.line "  <D:response>"
  +:+ DavXml.line ("    <D:href>" +:+ DavXml.xml_escape href +:+ "</D:href>")
  +:+ DavXml.line "    <D:propstat>"
  +:+ DavXml.line "      <D:prop>"
  +:+ DavXml.line ("        <D:getetag>" +:+ DavXml.xml_escape etag +:+ "</D:getetag>")
  +:+ DavXml.line ("        <C:calendar-data>" +:+ DavXml.xml_escape ical_data +:+ "</C:calendar-data>")
  +:+ close_response.

Definition build_report_xml (events : list (string * string * string)) : string :=
  DavXml.XML_DECL
  +:+ DavXml.line (DavXml.dq "<D:multistatus xmlns:D='DAV:' xmlns:C='urn:ietf:params:xml:ns:caldav'>")
  +:+ DavXml.push_each report_entry events
  +:+ "</D:multistatus>".

Section Tags.
Context (format_utc : Z → string).

Definition generate_etag (event : CalendarEvent) : string :=
  singleton QUOTE +:+ format_utc (seconds (ev_updated_at event)) +:+ singleton QUOTE.

Definition generate_ctag (last_modified : Z) : string :=
  "life-engine-" +:+ format_utc (seconds last_modified).
End Tags.

Definition event_href (source_id : string) : string :=
  "/api/plugins/com.life-engine.api-caldav/calendars/default/" +:+ source_id +:+ ".ics".

Definition uid_from_href (href : string) : option string :=
  strip_suffix_str ".ics" (rsplit_next "/" href).
End CalProtocol.

(** ** connector-calendar/src/normalizer.rs *)

Module CalNormalizer.

(** The normaliser keeps the address only. *)
Definition extract_attendees (event : IcalEvent) : list Attendee :=
  omap (λ p, (λ v, from_email (CalSerializer.mail_of v)) <$> ip_value p)
       (filter (λ p, ip_name p = "ATTENDEE") (ie_properties event)).

Section Read.
Context (parse_date parse_date_time : string → option Z) (earliest : string → option (Z → option Z)).
Context (parse_utc : string → option Z).

Definition normalize_vevent (id uid : string) (now : Z) (source : string) (event : IcalEvent) :
    result CalendarEvent CalSerializer.vevent_error :=
  let? ' (dtstart_raw, start, end_) :=
    CalSerializer.read_times parse_date parse_date_time earliest event in
  Ok {| ev_id := id;
        ev_title := default "(no title)" (CalSerializer.get_property event "SUMMARY");
        ev_start := nanos start;
        ev_end := Some (nanos end_);
        ev_description := CalSerializer.get_property event "DESCRIPTION";
        ev_location := CalSerializer.get_property event "LOCATION";
        ev_all_day := None;
        ev_recurrence := CalSerializer.get_property event "RRULE" ≫= from_rrule parse_utc;
        ev_attendees := extract_attendees event;
        ev_reminders := [];
        ev_timezone := None;
        ev_status := None;
        ev_sequence := None;
        ev_source := source;
        ev_source_id := default uid (CalSerializer.get_property event "UID");
        ev_extensions := None;
        ev_created_at := CalSerializer.stamp_or_now parse_date parse_date_time earliest event "CREATED" now;
        ev_updated_at :=
          CalSerializer.stamp_or_now parse_date parse_date_time earliest event "LAST-MODIFIED" now |}.

Context (ical_parser : string → list (result IcalCalendar string)).

(** [parse_vcalendar]: a calendar the parser rejects is an error, an event that does not
    normalise is skipped. [fresh] supplies the ids of the i-th event. *)
Definition parse_vcalendar (fresh : nat → string * string) (now : Z) (ical_data source : string) :
    result (list CalendarEvent) CalSerializer.vevent_error :=
  let? calendars := try_map (result_map_err CalSerializer.ParserFailed) (ical_parser ical_data) in
  Ok (omap result_ok
        (imap (λ i e, normalize_vevent (fst (fresh i)) (snd (fresh i)) now source e)
              (calendars ≫= ic_events))).
End Read.
End CalNormalizer.

(** ** connector-calendar/src/caldav.rs *)

Module CalClient.

Record CalDavConfig : Type := {
  cfg_server_url : string;
  cfg_username : string;
  cfg_credential_key : string;
  cfg_calendar_path : string;
}.

Record FetchedResource : Type := {
  fr_href : string;
  fr_etag : string;
  fr_ical_data : string;
}.

#[export] Instance fetched_resource : Etag.DavResource FetchedResource :=
  {| Etag.href := fr_href; Etag.etag := fr_etag |}.

Record CalDavClient : Type := {
  cl_config : CalDavConfig;
  cl_sync_states : gmap string Etag.DavSyncState;
}.

Definition new (config : CalDavConfig) : CalDavClient :=
  {| cl_config := config; cl_sync_states := ∅ |}.

Definition calendar_url (c : CalDavClient) : string :=
  Url.join_dav_url (cfg_server_url (cl_config c)) (cfg_calendar_path (cl_config c)).

Definition sync_state (c : CalDavClient) (calendar_path : string) : option Etag.DavSyncState :=
  cl_sync_states c !! calendar_path.

(** [(needs_full_sync, previous_sync_token)]. *)
Definition compute_start_sync (c : CalDavClient) (calendar_path : string)
    (server_sync_token server_ctag : option string) : bool * option string :=
  match cl_sync_states c !! calendar_path with
  | None => (true, None)
  | Some state =>
      match server_sync_token, Etag.dss_sync_token state with
      | Some _, Some stored_token => (false, Some stored_token)
      | _, _ =>
          match server_ctag, Etag.dss_ctag state with
          | Some server_ct, Some stored_ct =>
              if bool_decide (server_ct = stored_ct) then (false, Some stored_ct) else (true, None)
          | _, _ => (true, None)
          end
      end
  end.

Definition update_sync_state (calendar_path : string) (sync_token ctag : option string)
    (etags : gmap string string) (c : CalDavClient) : CalDavClient :=
  {| cl_config := cl_config c;
     cl_sync_states :=
       <[calendar_path := {| Etag.dss_sync_token := sync_token; Etag.dss_ctag := ctag;
                             Etag.dss_etags := etags |}]> (cl_sync_states c) |}.

Definition filter_changed (c : CalDavClient) (calendar_path : string)
    (fetched : list FetchedResource) : list FetchedResource :=
  Etag.filter_changed (default ∅ (Etag.dss_etags <$> cl_sync_states c !! calendar_path)) fetched.

Definition auth_header (base64_encode : string → string) (c : CalDavClient) (password : string) : string :=
  Url.basic_auth_header base64_encode (cfg_username (cl_config c)) password.

Section Build.
Context (format_utc : Z → string).

(** [build_vevent_ical]: no escapes and no folding. *)
Definition build_vevent_ical (event : CalendarEvent) : string :=
  join CRLF
    (["BEGIN:VCALENDAR"; "VERSION:2.0"; "PRODID:-//Life Engine//Calendar//EN"; "BEGIN:VEVENT";
      "UID:" +:+ ev_source_id event;
      "SUMMARY:" +:+ ev_title event;
      "DTSTART:" +:+ format_utc (seconds (ev_start event));
      "DTEND:" +:+ format_utc (seconds (default (ev_start event) (ev_end event)))]
     ++ ((λ loc, "LOCATION:" +:+ loc) <$> option_list (ev_location event))
     ++ ((λ d, "DESCRIPTION:" +:+ d) <$> option_list (ev_description event))
     ++ ((λ r, "RRULE:" +:+ to_rrule format_utc r) <$> option_list (ev_recurrence event))
     ++ ((λ a, "ATTENDEE:mailto:" +:+ at_email a) <$> ev_attendees event)
     ++ ["END:VEVENT"; "END:VCALENDAR"]).
End Build.
End CalClient.
