(* ===== verification/CalendarFacts.v ===== *)
(** * Properties of calendar events

    Recurrence rules and reminders survive the way through iCalendar, the folded text of
    an event unfolds to its lines, no value adds an element to an XML answer, and a
    calendar client fetches in full exactly when it has nothing to start from. *)

From stdpp Require Import base tactics list gmap sets strings pretty.
From Stdlib Require Import Ascii ZArith Lia.
From S2P Require Import Prelude RustString RustText Json Dav Contacts DavFacts ContactsFacts Calendar.

Local Open Scope string_scope.
Local Open Scope list_scope.

(** ** Recurrence rules *)

Section Rules.
Context (format_utc : Z → string) (parse_utc : string → option Z).

Record portable_rule (r : Recurrence) : Prop := {
  pr_interval : (1 ≤ rc_interval r < 2 ^ 32)%Z;
  pr_count : ∀ n, rc_count r = Some n → (0 ≤ n < 2 ^ 32)%Z;
  pr_days : ∀ ds, rc_by_day r = Some ds → ds ≠ [] ∧ Forall (free_of [";"%char; ","%char]) ds;
  pr_until : ∀ t, rc_until r = Some t →
    t = nanos (seconds t) ∧ parse_utc (format_utc (seconds t)) = Some (seconds t) ∧
    free_of [";"%char] (format_utc (seconds t));
}.

Lemma show_free c n : (0 ≤ n)%Z → is_ascii_digit c = false → free_of [c] (show_Z n).
Proof.
  intros Hn Hc x ->%list_elem_of_singleton Hi. apply show_Z_digits in Hi; [congruence|done].
Qed.

Lemma split_commas ds :
  ds ≠ [] → Forall (free_of [";"%char; ","%char]) ds → split "," (join "," ds) = ds.
Proof.
  intros Hne Hf. change (join "," ds) with (join (singleton ",") ds). apply split_join; [done|].
  eapply Forall_impl; [done|]. intros s Hs. apply Hs. set_solver.
Qed.

Lemma rule_parts_free r : portable_rule r → Forall (free_of [";"%char]) (rule_parts format_utc r).
Proof.
  intros [Hi Hc Hd Hu]. unfold rule_parts. rewrite !Forall_app. split_and!.
  - apply Forall_singleton. destruct (rc_frequency r); solve_prop.
  - destruct (1 <? rc_interval r)%Z; [|constructor]. apply Forall_singleton.
    apply free_of_app. split; [solve_prop|]. apply show_free; [lia|done].
  - destruct (rc_count r) as [n|] eqn:E; [|constructor]. apply Forall_singleton.
    apply free_of_app. split; [solve_prop|]. apply show_free; [|done]. naive_solver.
  - destruct (rc_by_day r) as [ds|] eqn:E; [|constructor]. apply Forall_singleton.
    apply free_of_app. split; [solve_prop|]. destruct (Hd ds eq_refl) as [_ Hf].
    apply free_of_join; [solve_prop|]. eapply Forall_impl; [done|]. intros s. apply free_of_sub. set_solver.
  - destruct (rc_until r) as [t|] eqn:E; [|constructor]. apply Forall_singleton.
    apply free_of_app. split; [solve_prop|]. naive_solver.
Qed.

Lemma rule_steps_app a ps qs :
  rule_steps parse_utc a (ps ++ qs) =
  match rule_steps parse_utc a ps with Some a' => rule_steps parse_utc a' qs | None => None end.
Proof.
  revert a. induction ps as [|p ps IH]; intros a; [done|]. simpl. by destruct (rule_step _ a p).
Qed.

Lemma freq_step f a :
  rule_step parse_utc a ("FREQ=" +:+ freq_word f) =
  Some {| ra_frequency := Some f; ra_interval := ra_interval a; ra_until := ra_until a;
          ra_count := ra_count a; ra_by_day := ra_by_day a |}.
Proof. by destruct f. Qed.

(** The parts after FREQ, one by one. *)
Lemma read_rule_parts r :
  portable_rule r →
  rule_steps parse_utc rule_init (rule_parts format_utc r) =
  Some {| ra_frequency := Some (rc_frequency r); ra_interval := rc_interval r; ra_until := rc_until r;
          ra_count := rc_count r; ra_by_day := rc_by_day r |}.
Proof.
  intros [Hi Hc Hd Hu]. destruct r as [f i u n d]. unfold rule_parts. cbn [rc_frequency rc_interval rc_until
    rc_count rc_by_day] in *.
  rewrite rule_steps_app. cbn [rule_steps]. rewrite freq_step.
  rewrite rule_steps_app. set (a := rule_steps _ _ (if (1 <? i)%Z then _ else _)).
  assert (a = Some {| ra_frequency := Some f; ra_interval := i; ra_until := None; ra_count := None; ra_by_day := None |}) as ->.
  { unfold a. destruct (Z.ltb_spec 1 i).
    - cbn [rule_steps]. change (rule_step parse_utc ?a ("INTERVAL=" +:+ ?v)) with
        (Some {| ra_frequency := ra_frequency a; ra_interval := default 1%Z (parse_u32 v);
                ra_until := ra_until a; ra_count := ra_count a; ra_by_day := ra_by_day a |}).
      cbn -[parse_u32]. by rewrite parse_u32_show by lia.
    - cbn. do 2 f_equal. lia. }
  rewrite rule_steps_app. set (a := rule_steps _ _ (match n with Some _ => _ | None => _ end)).
  assert (a = Some {| ra_frequency := Some f; ra_interval := i; ra_until := None; ra_count := n; ra_by_day := None |}) as ->.
  { unfold a. destruct n as [n|]; [|done]. cbn [rule_steps].
    change (rule_step parse_utc ?a ("COUNT=" +:+ ?v)) with
        (Some {| ra_frequency := ra_frequency a; ra_interval := ra_interval a; ra_until := ra_until a;
                ra_count := parse_u32 v; ra_by_day := ra_by_day a |}).
    cbn -[parse_u32]. by rewrite parse_u32_show by naive_solver. }
  rewrite rule_steps_app. set (a := rule_steps _ _ (match d with Some _ => _ | None => _ end)).
  assert (a = Some {| ra_frequency := Some f; ra_interval := i; ra_until := None; ra_count := n; ra_by_day := d |}) as ->.
  { unfold a. destruct d as [ds|]; [|done]. cbn [rule_steps].
    change (rule_step parse_utc ?a ("BYDAY=" +:+ ?v)) with
        (Some {| ra_frequency := ra_frequency a; ra_interval := ra_interval a; ra_until := ra_until a;
                ra_count := ra_count a; ra_by_day := Some (split "," v) |}).
    destruct (Hd ds eq_refl). by rewrite split_commas. }
  destruct u as [t|]; [|done]. cbn [rule_steps].
  change (rule_step parse_utc ?a ("UNTIL=" +:+ ?v)) with
        (Some {| ra_frequency := ra_frequency a; ra_interval := ra_interval a;
                ra_until := nanos <$> parse_utc v;
                ra_count := ra_count a; ra_by_day := ra_by_day a |}).
  destruct (Hu t eq_refl) as (Ht & -> & _). cbn. by rewrite <- Ht.
Qed.

(** A recurrence rule written as an RRULE and parsed again is the same rule, with its
    frequency, interval, count, days and end. *)
Theorem rrule_round_trip r : portable_rule r → from_rrule parse_utc (to_rrule format_utc r) = Some r.
Proof.
  intros Hr. unfold from_rrule, to_rrule.
  assert (strip_prefix "RRULE:" (join ";" (rule_parts format_utc r)) = None) as ->.
  { unfold rule_parts. destruct ((if (1 <? rc_interval r)%Z then _ else _) ++ _); by destruct (rc_frequency r). }
  change (default ?x None) with x. rewrite split_semi; [|by destruct r|by apply rule_parts_free].
  rewrite read_rule_parts by done. by destruct r.
Qed.
End Rules.

Definition fortnightly : Recurrence :=
  {| rc_frequency := Weekly; rc_interval := 2; rc_until := Some (nanos 1900000000); rc_count := Some 10%Z;
     rc_by_day := Some ["MO"; "WE"] |}.

Lemma rrule_round_trip_witness :
  from_rrule parse_u64 (to_rrule show_Z fortnightly) = Some fortnightly.
Proof.
  apply (rrule_round_trip show_Z parse_u64). constructor; cbn [rc_interval rc_count rc_by_day rc_until fortnightly].
  - lia.
  - intros n [= <-]. lia.
  - intros ds [= <-]. split; [done|]. repeat constructor; solve_prop.
  - intros t [= <-]. split; [done|]. split; [by vm_compute|solve_prop].
Defined.

(** ** Reminders *)

Import CalSerializer.

Lemma time_loop_digits total buf ds rest :
  (∀ c, char_in c ds → is_ascii_digit c = true) →
  time_loop total buf (ds +:+ rest) = time_loop total (buf +:+ ds) rest.
Proof.
  revert buf. induction ds as [|c ds IH]; intros buf Hd; [by rewrite string_app_nil_r|].
  change (String c ds +:+ rest) with (String c (ds +:+ rest)). cbn [time_loop].
  rewrite (Hd c) by by left. rewrite IH by (intros x Hx; apply Hd; by right).
  by rewrite string_app_assoc.
Qed.

(** A reminder's trigger is read back as its minutes. *)
Lemma trigger_read_back m :
  (0 < m < 2 ^ 32)%Z → parse_trigger_minutes ("-PT" +:+ show_Z m +:+ "M") = Ok (Some m).
Proof.
  intros Hm. unfold parse_trigger_minutes.
  change (strip_prefix "-" ("-PT" +:+ ?x)) with (Some ("PT" +:+ x)). cbn beta iota.
  change (strip_prefix "P" ("PT" +:+ ?x)) with (Some ("T" +:+ x)). cbn beta iota.
  change (strip_prefix "T" ("T" +:+ ?x)) with (Some x). cbn beta iota.
  rewrite time_loop_digits by (intros c; apply show_Z_digits; lia).
  change (time_loop 0 ?buf "M") with
    (match parse_u32 buf with
     | None => Ok None
     | Some n => match u32_checked (0 + n) with None => Err TriggerOverflow | Some t => Ok (Some t) end
     end).
  change (empty_str +:+ show_Z m) with (show_Z m). rewrite parse_u32_show by lia.
  unfold u32_checked. rewrite Z.add_0_l.
  replace (m <=? u32_max)%Z with true by (symmetry; apply Z.leb_le; unfold u32_max; lia).
  simpl. by replace (0 <? m)%Z with true by (symmetry; apply Z.ltb_lt; lia).
Qed.

(** The hours of a trigger of a day and hours are lost: the day loop stops at T. *)
Lemma trigger_drops_hours : parse_trigger_minutes "-P1DT12H" = Ok (Some 1440%Z).
Proof. by vm_compute. Qed.

(** Some triggers overflow u32. *)
Lemma trigger_overflow : parse_trigger_minutes "-PT71582789H" = Err TriggerOverflow.
Proof. by vm_compute. Qed.

(** What the alarm written for a reminder says, as the ical crate's component. *)
Definition alarm_of (r : Reminder) : IcalAlarm :=
  {| ia_properties :=
       [{| ip_name := "ACTION"; ip_params := None;
           ip_value := Some (match rm_method r with RmEmail => "EMAIL" | RmNotification => "DISPLAY" end) |};
        {| ip_name := "TRIGGER"; ip_params := None;
           ip_value := Some ("-PT" +:+ show_Z (rm_minutes_before r) +:+ "M") |};
        {| ip_name := "DESCRIPTION"; ip_params := None; ip_value := Some "Reminder" |}] |}.

Lemma alarms_read_back rs props :
  Forall (λ r, (0 < rm_minutes_before r < 2 ^ 32)%Z) rs →
  extract_valarms {| ie_properties := props; ie_alarms := alarm_of <$> rs |} = Ok rs.
Proof.
  intros Hrs. unfold extract_valarms. cbn [ie_alarms].
  assert (try_map read_alarm (alarm_of <$> rs) = Ok (Some <$> rs)) as ->.
  { apply try_map_Ok. apply Forall2_fmap, Forall_Forall2_diag. eapply Forall_impl; [done|].
    intros [m meth] Hm. unfold read_alarm. cbn [rm_minutes_before] in Hm.
    change (alarm_value (alarm_of {| rm_minutes_before := m; rm_method := meth |}) "TRIGGER")
      with (Some ("-PT" +:+ show_Z m +:+ "M")).
    cbn beta iota. rewrite trigger_read_back by done. cbn [result_bind]. by destruct meth. }
  cbn [result_bind]. f_equal. clear. induction rs as [|r rs IH]; [done|]. simpl. by f_equal.
Qed.

(** ** The text of an event *)

Section Event.
Context (format_utc format_date : Z → string) (escape_ical_value : string → string).

(** The folded text unfolds to its lines. *)
Lemma event_unfolds event :
  Forall content_line (event_lines format_utc format_date escape_ical_value event) →
  Text.unfold_lines (join CRLF (fold_line <$> event_lines format_utc format_date escape_ical_value event))
  = join (singleton LF) (event_lines format_utc format_date escape_ical_value event).
Proof. intros Hc. by apply unfold_folded. Qed.
End Event.

(** ** Times *)

Section Times.
Context (parse_date parse_date_time : string → option Z) (earliest : string → option (Z → option Z)).

(** An event without an end lasts a day or an hour. *)
Lemma default_end event raw start end_ :
  read_times parse_date parse_date_time earliest event = Ok (raw, start, end_) →
  get_property event "DTEND" = None →
  end_ = (start + (if Ical.is_date_only raw then 86400 else 3600))%Z.
Proof. unfold read_times. intros H Hn. rewrite Hn in H. by inv_ok; simplify_eq. Qed.

(** A TZID the database does not have is read as UTC. *)
Lemma unknown_zone_is_utc value params tz :
  Ical.tzid params = Some tz → earliest tz = None → Ical.is_date_only (trim value) = false →
  Ical.is_date_param params = false → strip_suffix_str "Z" (trim value) = None →
  Ical.parse_ical_datetime parse_date parse_date_time earliest value params =
  Ical.parse_ical_datetime parse_date parse_date_time earliest value None.
Proof.
  intros Ht He Hd Hp Hz. unfold Ical.parse_ical_datetime. rewrite Hd, Hp, Hz, Ht, He. simpl.
  by destruct (parse_date_time (trim value)).
Qed.
End Times.

(** ** Answers of the server *)

Lemma caldav_report_markup entries :
  count "<" (CalProtocol.build_report_xml entries) = (3 + 14 * length entries)%nat.
Proof.
  unfold CalProtocol.build_report_xml.
  repeat rewrite count_app. rewrite (count_push_each "<" CalProtocol.report_entry 14).
  - count_markup. lia.
  - intros [[href etag] data]. unfold CalProtocol.report_entry, CalProtocol.close_response.
    count_markup. reflexivity.
Qed.

Lemma event_href_uid source_id :
  ¬ char_in "/" source_id → CalProtocol.uid_from_href (CalProtocol.event_href source_id) = Some source_id.
Proof.
  intros Hs. unfold CalProtocol.uid_from_href, CalProtocol.event_href.
  change ("/api/plugins/com.life-engine.api-caldav/calendars/default/" +:+ source_id +:+ ".ics")
    with ("/api/plugins/com.life-engine.api-caldav/calendars/default" +:+ String "/" (source_id +:+ ".ics")).
  rewrite rsplit_next_app; [apply strip_suffix_app|].
  rewrite char_in_app. intros [?|Hi]; [done|]. simpl in Hi. naive_solver.
Qed.

(** Two updates within a second have one ETag. *)
Lemma etag_by_second format_utc e1 e2 :
  seconds (ev_updated_at e1) = seconds (ev_updated_at e2) →
  CalProtocol.generate_etag format_utc e1 = CalProtocol.generate_etag format_utc e2.
Proof. unfold CalProtocol.generate_etag. by intros ->. Qed.

(** ** The client *)

(** A sync starts in full exactly when the calendar is new, or neither a token nor an
    equal ctag is known on both sides. *)
Lemma start_sync_full c path token ctag :
  fst (CalClient.compute_start_sync c path token ctag) = true ↔
  match CalClient.sync_state c path with
  | None => True
  | Some st =>
      (token = None ∨ Etag.dss_sync_token st = None) ∧
      (ctag = None ∨ Etag.dss_ctag st = None ∨ ctag ≠ Etag.dss_ctag st)
  end.
Proof.
  unfold CalClient.compute_start_sync, CalClient.sync_state.
  destruct (CalClient.cl_sync_states c !! path) as [st|]; [|done].
  destruct token, (Etag.dss_sync_token st), ctag, (Etag.dss_ctag st); try case_bool_decide; naive_solver.
Qed.

(** The calendars are kept apart. *)
Lemma update_sync_state_other path path' token ctag etags c fetched :
  path ≠ path' →
  CalClient.filter_changed (CalClient.update_sync_state path token ctag etags c) path' fetched =
  CalClient.filter_changed c path' fetched.
Proof. intros Hne. unfold CalClient.filter_changed. simpl. by rewrite lookup_insert_ne. Qed.
