(* ===== verification/Backup.v ===== *)
(** * Encrypted backups (plugins/engine/backup)

    A backup is an archive of records, serialised, compressed and encrypted under a key
    derived from the passphrase and a fresh salt, with a manifest beside it that carries
    the payload's checksum. [Engine] models engine.rs, [Retention] retention.rs,
    [Schedule] schedule.rs and [Local] the file system backend.

    A storage target is the class [BackupBackend]; what the engine relies on is
    [BackendLaws], which [Local] discharges. Argon2, gzip, SHA-256, serde's code for the
    archive and the manifest, cron and chrono's texts are the class [BackupLib]; the
    clock, salts and nonces are arguments. *)

From stdpp Require Import base tactics list gmap sets strings sorting.
From Stdlib Require Import Strings.Byte Ascii ZArith Lia Sorting.Sorted.
From S2P Require Import Prelude RustString RustText Json Types Crypto.

Local Open Scope string_scope.
Local Open Scope list_scope.

(** ** types.rs *)

Record Argon2Params : Type := {
  ap_memory_mb : Z;
  ap_iterations : Z;
  ap_parallelism : Z;
}.

Definition default_argon2 : Argon2Params :=
  {| ap_memory_mb := 64; ap_iterations := 3; ap_parallelism := 1 |}.

Inductive BackupSchedule : Type :=
| BsDaily (hour : Z)
| BsWeekly (day hour : Z)
| BsCron (expression : string).

Record RetentionPolicy : Type := {
  rp_max_count : nat;
  rp_retention_days : option Z;
}.

Inductive BackupType : Type :=
| BtFull
| BtIncremental.

Record BackupManifest : Type := {
  bm_id : string;
  bm_created_at : Z;
  bm_backup_type : BackupType;
  bm_collections : list string;
  bm_record_counts : gmap string Z;
  bm_compressed_size : Z;
  bm_checksum : string;
  bm_parent_id : option string;
  bm_cursor : option string;
}.

Record BackupRecord : Type := {
  br_id : string;
  br_plugin_id : string;
  br_collection : string;
  br_data : json;
  br_version : Z;
  br_user_id : option string;
  br_household_id : option string;
  br_created_at : Z;
  br_updated_at : Z;
}.

Record RestoreResult : Type := {
  rr_records_restored : gmap string Z;
  rr_total_restored : Z;
  rr_integrity_verified : bool;
}.

Record BackupArchive : Type := {
  ba_manifest : BackupManifest;
  ba_records : list BackupRecord;
}.

(** An error's text, or a u32 multiplication that overflows. *)
Inductive failure : Type :=
| Failed (msg : string)
| Overflow.

(** ** Third-party code *)

Class BackupLib : Type := {
  (** memory in KiB, iterations, parallelism, passphrase, salt *)
  argon2id : Z → Z → Z → string → list byte → result (list byte) string;
  gzip : list byte → result (list byte) string;
  (** at most so many bytes of the decompressed stream *)
  gunzip_take : Z → list byte → result (list byte) string;
  sha256_hex : list byte → string;
  archive_to_vec : BackupArchive → result (list byte) string;
  archive_from_slice : list byte → result BackupArchive string;
  manifest_to_vec : BackupManifest → result (list byte) string;
  manifest_from_slice : list byte → result BackupManifest string;
  (** [now.format("%Y%m%d-%H%M%S-%3f")] and [now.to_rfc3339()] *)
  format_backup_id : Z → string;
  to_rfc3339 : Z → string;
  (** an expression's next time after a time *)
  cron_parse : string → option (Z → option Z);
}.

(** Records that serde_json reads back within an archive, where their data is three levels down. *)
Definition record_reads_back `{JsonText} (r : BackupRecord) : Prop := json_within 124 (br_data r).

Class BackupLibLaws `{BackupLib} `{JsonText} : Prop := {
  gunzip_gzip b c n : gzip b = Ok c → gunzip_take n c = Ok (take (Z.to_nat n) b);
  archive_serde a b :
    Forall record_reads_back (ba_records a) → archive_to_vec a = Ok b → archive_from_slice b = Ok a;
  manifest_serde m b : manifest_to_vec m = Ok b → manifest_from_slice b = Ok m;
}.

(** ** backend.rs *)

Record StoredBackup : Type := {
  sb_key : string;
  sb_size : Z;
  sb_last_modified : string;
}.

Class BackupBackend (S : Type) : Type := {
  put : string → list byte → S → result unit string * S;
  get : string → S → result (list byte) string;
  delete_key : string → S → result bool string * S;
  list_keys : string → S → result (list StoredBackup) string;
  exists_key : string → S → result bool string;
}.

(** What the engine relies on: the target holds blobs under its good keys. *)
Class BackendLaws (S : Type) `{BackupBackend S} : Type := {
  good_key : string → Prop;
  view : S → string → option (list byte);
  view_put k b s s' : good_key k → put k b s = (Ok tt, s') →
    ∀ k', good_key k' → view s' k' = if decide (k' = k) then Some b else view s k';
  view_get k b s : good_key k → get k s = Ok b ↔ view s k = Some b;
  view_delete k r s s' : good_key k → delete_key k s = (Ok r, s') →
    ∀ k', good_key k' → view s' k' = if decide (k' = k) then None else view s k';
}.

(** ** crypto.rs *)

Definition KEY_LENGTH : nat := 32.
Definition SALT_LENGTH : nat := 16.
Definition MAX_DECOMPRESSED_SIZE : Z := 268435456.

Section BackupCrypto.
Context `{BackupLib, CryptoLib}.

Definition derive_key (passphrase : string) (salt : list byte) (params : Argon2Params) :
    result (list byte) failure :=
  let memory := (ap_memory_mb params * 1024)%Z in
  if (memory <=? u32_max)%Z then
    result_map_err Failed
      (argon2id memory (ap_iterations params) (ap_parallelism params) passphrase salt)
  else Err Overflow.

Definition compress (data : list byte) : result (list byte) failure :=
  result_map_err Failed (gzip data).

Definition decompress (data : list byte) : result (list byte) failure :=
  let? decompressed := result_map_err Failed (gunzip_take (MAX_DECOMPRESSED_SIZE + 1) data) in
  if (MAX_DECOMPRESSED_SIZE <? Z.of_nat (length decompressed))%Z then
    Err (Failed "decompressed data exceeds maximum size; possible decompression bomb")
  else Ok decompressed.

Definition backup_encrypt (nonce plaintext key : list byte) : result (list byte) failure :=
  if bool_decide (length key = KEY_LENGTH) then
    result_map_err (λ e, Failed ("AES-256-GCM encryption failed: " +:+ crypto_error_display e))
      (Crypto.encrypt nonce key plaintext)
  else Err (Failed "encryption key must be 32 bytes").

Definition backup_decrypt (encrypted key : list byte) : result (list byte) failure :=
  if bool_decide (length key = KEY_LENGTH) then
    result_map_err
      (λ e, Failed ("backup integrity check failed: authentication failed (wrong passphrase or corrupted data): "
                    +:+ crypto_error_display e))
      (Crypto.decrypt key encrypted)
  else Err (Failed "encryption key must be 32 bytes").
End BackupCrypto.

(** ** engine.rs *)

Module Engine.
Section Engine.
Context `{BackupLib, CryptoLib} {S : Type} `{BackupBackend S}.

(** [*counts.entry(collection).or_insert(0) += 1] for each record. *)
Definition count_record (counts : gmap string Z) (rec : BackupRecord) : gmap string Z :=
  <[br_collection rec := (default 0 (counts !! br_collection rec) + 1)%Z]> counts.

Definition count_records (records : list BackupRecord) : gmap string Z :=
  foldl count_record ∅ records.

(** The collections in the order they are first seen. *)
Definition see_collection (seen : list string) (rec : BackupRecord) : list string :=
  if contains seen (br_collection rec) then seen else seen ++ [br_collection rec].

Definition collections_of (records : list BackupRecord) : list string :=
  foldl see_collection [] records.

(** What a call draws: the clock, the salt and the nonce. *)
Record Draw : Type := {
  dr_now : Z;
  dr_salt : list byte;
  dr_nonce : list byte;
}.

Definition mk_manifest (id : string) (now : Z) (ty : BackupType) (collections : list string)
    (counts : gmap string Z) (size : Z) (checksum : string) (parent : option string) : BackupManifest :=
  {| bm_id := id; bm_created_at := now; bm_backup_type := ty; bm_collections := collections;
     bm_record_counts := counts; bm_compressed_size := size; bm_checksum := checksum;
     bm_parent_id := parent; bm_cursor := Some (to_rfc3339 now) |}.

Definition enc_key (id : string) : string := id +:+ ".enc".
Definition manifest_key (id : string) : string := id +:+ ".manifest.json".

(** Both kinds of backup from their statistics on: seal the archive, then write the
    payload and the manifest. *)
Definition store_backup (id : string) (ty : BackupType) (collections : list string)
    (parent : option string) (records : list BackupRecord) (passphrase : string)
    (params : Argon2Params) (d : Draw) (s : S) : result BackupManifest failure * S :=
  let counts := count_records records in
  let sealed :=
    let archive := {| ba_manifest := mk_manifest id (dr_now d) ty collections counts 0 empty_str parent;
                      ba_records := records |} in
    let? js := result_map_err Failed (archive_to_vec archive) in
    let? compressed := compress js in
    let? key := derive_key passphrase (dr_salt d) params in
    let? encrypted := backup_encrypt (dr_nonce d) compressed key in
    Ok (compressed, dr_salt d ++ encrypted) in
  match sealed with
  | Err e => (Err e, s)
  | Ok (compressed, salted_payload) =>
      let manifest := mk_manifest id (dr_now d) ty collections counts
                        (Z.of_nat (length compressed)) (sha256_hex salted_payload) parent in
      match put (enc_key id) salted_payload s with
      | (Err e, s1) => (Err (Failed e), s1)
      | (Ok _, s1) =>
          match manifest_to_vec manifest with
          | Err e => (Err (Failed e), s1)
          | Ok manifest_json =>
              match put (manifest_key id) manifest_json s1 with
              | (Err e, s2) => (Err (Failed e), s2)
              | (Ok _, s2) => (Ok manifest, s2)
              end
          end
      end
  end.

Definition create_full_backup (records : list BackupRecord) (passphrase : string)
    (params : Argon2Params) (d : Draw) (s : S) : result BackupManifest failure * S :=
  store_backup ("full-" +:+ format_backup_id (dr_now d)) BtFull (collections_of records) None
    records passphrase params d s.

(** [set_order] is the order in which the hash set yields the collections. *)
Definition create_incremental_backup (set_order : list string → list string)
    (changed_records : list BackupRecord) (parent_id passphrase : string)
    (params : Argon2Params) (d : Draw) (s : S) : result BackupManifest failure * S :=
  store_backup ("incr-" +:+ format_backup_id (dr_now d)) BtIncremental
    (set_order (collections_of changed_records)) (Some parent_id) changed_records passphrase params d s.

Definition restore_result (records : list BackupRecord) : RestoreResult :=
  {| rr_records_restored := count_records records;
     rr_total_restored := Z.of_nat (length records);
     rr_integrity_verified := true |}.

Definition restore_full (backup_id passphrase : string) (params : Argon2Params) (s : S) :
    result (list BackupRecord * RestoreResult) failure :=
  let? salted_payload := result_map_err Failed (get (enc_key backup_id) s) in
  let actual_checksum := sha256_hex salted_payload in
  let? manifest_data := result_map_err Failed (get (manifest_key backup_id) s) in
  let? manifest := result_map_err Failed (manifest_from_slice manifest_data) in
  if negb (bool_decide (actual_checksum = bm_checksum manifest)) then
    Err (Failed ("backup integrity check failed: checksum mismatch (expected "
                 +:+ bm_checksum manifest +:+ ", got " +:+ actual_checksum +:+ ")"))
  else if (length salted_payload <? 16)%nat then
    Err (Failed "backup payload too short: missing salt")
  else
    let? key := derive_key passphrase (take 16 salted_payload) params in
    let? compressed := backup_decrypt (drop 16 salted_payload) key in
    let? js := decompress compressed in
    let? archive := result_map_err Failed (archive_from_slice js) in
    Ok (ba_records archive, restore_result (ba_records archive)).

Definition restore_partial (backup_id : string) (collections : list string) (passphrase : string)
    (params : Argon2Params) (s : S) : result (list BackupRecord * RestoreResult) failure :=
  let? all := restore_full backup_id passphrase params s in
  let filtered := filter (λ r, br_collection r ∈ collections) (fst all) in
  Ok (filtered, restore_result filtered).

(** [sort_by(|a, b| b.created_at.cmp(&a.created_at))], a stable sort. *)
Fixpoint insert_newest (m : BackupManifest) (ms : list BackupManifest) : list BackupManifest :=
  match ms with
  | [] => [m]
  | x :: xs =>
      if (bm_created_at x <=? bm_created_at m)%Z then m :: x :: xs else x :: insert_newest m xs
  end.

Definition newest_first (ms : list BackupManifest) : list BackupManifest :=
  foldr insert_newest [] ms.

Definition read_manifest (s : S) (k : string) : option BackupManifest :=
  match get k s with
  | Ok data => result_ok (manifest_from_slice data)
  | Err _ => None
  end.

Definition list_backups (s : S) : result (list BackupManifest) failure :=
  let? stored := result_map_err Failed (list_keys empty_str s) in
  let keys := filter (λ k, ends_with k ".manifest.json" = true) (sb_key <$> stored) in
  Ok (newest_first (omap (read_manifest s) keys)).
End Engine.
End Engine.

(** ** retention.rs *)

Module Retention.
Section Retention.
Context {S : Type} `{BackupBackend S}.

Definition day : Z := 86400000000000.

Definition is_doomed (policy : RetentionPolicy) (now : Z) (i : nat) (m : BackupManifest) : bool :=
  let exceeds_count := (rp_max_count policy <=? i)%nat in
  let exceeds_age :=
    match rp_retention_days policy with
    | Some days => (bm_created_at m <? now - days * day)%Z
    | None => false
    end in
  exceeds_count || exceeds_age.

(** The loop: a deletion that fails ends it. *)
Fixpoint retention_loop (policy : RetentionPolicy) (now : Z) (i : nat) (deleted : nat)
    (ms : list BackupManifest) (s : S) : result nat failure * S :=
  match ms with
  | [] => (Ok deleted, s)
  | m :: rest =>
      if is_doomed policy now i m then
        match delete_key (Engine.enc_key (bm_id m)) s with
        | (Err e, s1) => (Err (Failed e), s1)
        | (Ok _, s1) =>
            match delete_key (Engine.manifest_key (bm_id m)) s1 with
            | (Err e, s2) => (Err (Failed e), s2)
            | (Ok _, s2) => retention_loop policy now (i + 1) (deleted + 1) rest s2
            end
        end
      else retention_loop policy now (i + 1) deleted rest s
  end.

Definition enforce_retention (manifests : list BackupManifest) (policy : RetentionPolicy)
    (now : Z) (s : S) : result nat failure * S :=
  retention_loop policy now 0 0 (Engine.newest_first manifests) s.
End Retention.
End Retention.

(** ** schedule.rs *)

Module Schedule.
Section Schedule.
Context `{BackupLib}.

Definition to_cron_expression (schedule : BackupSchedule) : result string string :=
  match schedule with
  | BsDaily hour =>
      if (23 <? hour)%Z then Err ("invalid hour " +:+ show_Z hour +:+ ": must be 0-23")
      else Ok ("0 0 " +:+ show_Z hour +:+ " * * *")
  | BsWeekly d hour =>
      if (23 <? hour)%Z then Err ("invalid hour " +:+ show_Z hour +:+ ": must be 0-23")
      else if (6 <? d)%Z then Err ("invalid day-of-week " +:+ show_Z d +:+ ": must be 0-6 (Sunday=0)")
      else Ok ("0 0 " +:+ show_Z hour +:+ " * * " +:+ show_Z d)
  | BsCron expression => Ok expression
  end.

Definition next_run (cron_expr : string) (after : Z) : option Z :=
  match cron_parse cron_expr with
  | Some schedule => schedule after
  | None => None
  end.

Definition is_due (cron_expr : string) (last_run : option Z) (now : Z) : bool :=
  match next_run cron_expr (default 0%Z last_run) with
  | Some next => (next <=? now)%Z
  | None => false
  end.
End Schedule.
End Schedule.

(** ** backend/local.rs

    The files under the base directory by the components of their path, and the
    directories there; the base directory itself is the empty path. *)

Module Local.

Record LocalBackend : Type := {
  lb_files : gmap (list string) (list byte);
  lb_dirs : gset (list string);
}.

(** The components of a relative path: empty ones and dots disappear. *)
Definition components (key : string) : list string :=
  filter (λ p, p ≠ empty_str ∧ p ≠ ".") (split "/" key).

Definition full_path (key : string) : result (list string) string :=
  if contains_str key ".." || starts_with key "/" || starts_with key (singleton BACKSLASH) then
    Err "invalid backup key: path traversal detected"
  else Ok (components key).

(** The proper prefixes of a path: the directories it lies in. *)
Fixpoint parents (p : list string) : list (list string) :=
  match p with
  | [] | [_] => []
  | x :: rest => [x] :: (cons x <$> parents rest)
  end.

Definition is_dir (p : list string) (b : LocalBackend) : bool :=
  bool_decide (p = []) || bool_decide (p ∈ lb_dirs b).

(** [create_dir_all] on the parent, then [write]. *)
Definition local_put (key : string) (data : list byte) (b : LocalBackend) :
    result unit string * LocalBackend :=
  match full_path key with
  | Err e => (Err e, b)
  | Ok p =>
      if existsb (λ d, bool_decide (is_Some (lb_files b !! d))) (parents p) then
        (Err "Not a directory", b)
      else if is_dir p b then (Err "Is a directory", b)
      else (Ok tt, {| lb_files := <[p := data]> (lb_files b);
                      lb_dirs := list_to_set (parents p) ∪ lb_dirs b |})
  end.

Definition local_get (key : string) (b : LocalBackend) : result (list byte) string :=
  let? p := full_path key in
  ok_or (lb_files b !! p) "No such file or directory".

Definition local_delete (key : string) (b : LocalBackend) : result bool string * LocalBackend :=
  match full_path key with
  | Err e => (Err e, b)
  | Ok p =>
      if bool_decide (is_Some (lb_files b !! p)) then
        (Ok true, {| lb_files := delete p (lb_files b); lb_dirs := lb_dirs b |})
      else if is_dir p b then (Err "Is a directory", b)
      else (Ok false, b)
  end.

(** The key a file is listed under. *)
Definition key_of (p : list string) : string := join "/" p.

Section List.
Context (last_modified : list string → string).

Definition parent_of (p : list string) : list string := take (pred (length p)) p.

(** The files of one directory whose key has the prefix, ordered by key. *)
Definition local_list (prefix : string) (b : LocalBackend) : result (list StoredBackup) string :=
  let search_dir := match full_path prefix with Ok p => p | Err _ => [] end in
  let dir := if is_dir search_dir b then search_dir else parent_of search_dir in
  if negb (is_dir dir b) then Ok []
  else
    let here := filter (λ pf : list string * list byte, pf.1 ≠ [] ∧ parent_of pf.1 = dir)
                  (map_to_list (lb_files b)) in
    let entries := (λ pf : list string * list byte,
                      {| sb_key := key_of pf.1; sb_size := Z.of_nat (length pf.2);
                         sb_last_modified := last_modified pf.1 |}) <$> here in
    let matching := filter (λ e, starts_with (sb_key e) prefix || is_empty prefix = true) entries in
    Ok (merge_sort (λ a b, String.le (sb_key a) (sb_key b)) matching).

Definition local_exists (key : string) (b : LocalBackend) : result bool string :=
  let? p := full_path key in
  Ok (bool_decide (is_Some (lb_files b !! p)) || is_dir p b).

#[export] Instance local_backend : BackupBackend LocalBackend := {|
  put := local_put;
  get := local_get;
  delete_key := local_delete;
  list_keys := local_list;
  exists_key := local_exists;
|}.
End List.
End Local.

(** * Properties of backups

    What is backed up is restored, a changed payload is refused, retention removes the
    backups beyond the count or the age and nothing else, and the local backend is a store
    of blobs by key. *)

Import Engine Retention.

(** ** Sealing and restoring *)

Lemma enc_manifest_ne i j : enc_key i ≠ manifest_key j.
Proof.
  unfold enc_key, manifest_key. intros Heq.
  change (i +:+ ".enc") with (i +:+ (".en" +:+ "c")) in Heq.
  change (j +:+ ".manifest.json") with (j +:+ (".manifest.jso" +:+ "n")) in Heq.
  rewrite <- !string_app_assoc in Heq. revert Heq. generalize (i +:+ ".en") (j +:+ ".manifest.jso").
  intros a. induction a as [|x a IH]; intros [|y b] E; simplify_eq/=; [by destruct b|by destruct a|].
  by eapply IH.
Qed.

Section Restore.
Context `{HB : BackupLib, HJ : JsonText, HBL : !BackupLibLaws, HC : CryptoLib, HCL : !CryptoLaws}.
Context {S : Type} `{HBk : BackupBackend S, HL : !BackendLaws S}.

Lemma decrypt_sealed nonce key p c :
  length nonce = NONCE_SIZE → backup_encrypt nonce p key = Ok c → backup_decrypt c key = Ok p.
Proof.
  intros Hn. unfold backup_encrypt, backup_decrypt. case_bool_decide; [|done].
  destruct (Crypto.encrypt nonce key p) eqn:E; simpl; [|done]. intros [= ->].
  by rewrite (decrypt_encrypt _ _ _ _ Hn E).
Qed.

Lemma decompress_small b c :
  (Z.of_nat (length b) ≤ MAX_DECOMPRESSED_SIZE)%Z → compress b = Ok c → decompress c = Ok b.
Proof.
  intros Hb. unfold compress, decompress. destruct (gzip b) eqn:E; simpl; [|done]. intros [= ->].
  rewrite (gunzip_gzip _ _ _ E). simpl. rewrite take_ge by (unfold MAX_DECOMPRESSED_SIZE in *; lia).
  by rewrite (proj2 (Z.ltb_ge _ _)).
Qed.

(** An archive beyond the limit is sealed but never opened again. *)
Lemma decompress_large b c :
  (MAX_DECOMPRESSED_SIZE < Z.of_nat (length b))%Z → compress b = Ok c → is_ok (decompress c) = false.
Proof.
  intros Hb. unfold compress, decompress. destruct (gzip b) eqn:E; simpl; [|done]. intros [= ->].
  rewrite (gunzip_gzip _ _ _ E). simpl. rewrite length_take.
  by rewrite (proj2 (Z.ltb_lt _ _)) by (unfold MAX_DECOMPRESSED_SIZE in *; lia).
Qed.

(** The archive a backup seals. *)
Definition archive_for (id : string) (ty : BackupType) (cols : list string) (parent : option string)
    (records : list BackupRecord) (now : Z) : BackupArchive :=
  {| ba_manifest := mk_manifest id now ty cols (count_records records) 0 empty_str parent;
     ba_records := records |}.

(** What a stored backup left on the target. *)
Lemma store_backup_stored id ty cols parent records pass params d s m s' :
  good_key (enc_key id) → good_key (manifest_key id) →
  store_backup id ty cols parent records pass params d s = (Ok m, s') →
  ∃ js compressed key encrypted mj,
    archive_to_vec (archive_for id ty cols parent records (dr_now d)) = Ok js ∧
    compress js = Ok compressed ∧ derive_key pass (dr_salt d) params = Ok key ∧
    backup_encrypt (dr_nonce d) compressed key = Ok encrypted ∧
    manifest_to_vec m = Ok mj ∧ bm_id m = id ∧ bm_checksum m = sha256_hex (dr_salt d ++ encrypted) ∧
    view s' (enc_key id) = Some (dr_salt d ++ encrypted) ∧ view s' (manifest_key id) = Some mj.
Proof.
  intros Hge Hgm. unfold store_backup. fold (archive_for id ty cols parent records (dr_now d)).
  destruct (archive_to_vec _) as [js|] eqn:Ea; simpl; [|done].
  destruct (compress js) as [cp|] eqn:Ec; simpl; [|done].
  destruct (derive_key _ _ _) as [key|] eqn:Ek; simpl; [|done].
  destruct (backup_encrypt _ _ _) as [en|] eqn:Ee; simpl; [|done].
  destruct (put (enc_key id) _ s) as [[[]|] s1] eqn:E1; [|done].
  destruct (manifest_to_vec _) as [mj|] eqn:Em; [|done].
  destruct (put (manifest_key id) mj s1) as [[[]|] s2] eqn:E2; [|done]. intros [= <- <-].
  exists js, cp, key, en, mj. split_and!; [done..| |].
  - rewrite (view_put _ _ _ _ Hgm E2 _ Hge). rewrite decide_False by apply enc_manifest_ne.
    rewrite (view_put _ _ _ _ Hge E1 _ Hge). by rewrite decide_True.
  - rewrite (view_put _ _ _ _ Hgm E2 _ Hgm). by rewrite decide_True.
Qed.

(** A backup that is still on the target restores to its records. *)
Lemma stored_restores id ty cols parent records pass params d s m s' t :
  Forall record_reads_back records → good_key (enc_key id) → good_key (manifest_key id) →
  length (dr_salt d) = SALT_LENGTH → length (dr_nonce d) = NONCE_SIZE →
  (∀ js, archive_to_vec (archive_for id ty cols parent records (dr_now d)) = Ok js →
         (Z.of_nat (length js) ≤ MAX_DECOMPRESSED_SIZE)%Z) →
  store_backup id ty cols parent records pass params d s = (Ok m, s') →
  view t (enc_key id) = view s' (enc_key id) → view t (manifest_key id) = view s' (manifest_key id) →
  restore_full id pass params t = Ok (records, restore_result records).
Proof.
  intros Hrec Hge Hgm Hsalt Hnonce Hsize Hst Hve Hvm.
  destruct (store_backup_stored _ _ _ _ _ _ _ _ _ _ _ Hge Hgm Hst)
    as (js & cp & key & en & mj & Ha & Hc & Hk & He & Hm & Hid & Hsum & V1 & V2).
  rewrite V1 in Hve. rewrite V2 in Hvm. apply (view_get _ _ _ Hge) in Hve. apply (view_get _ _ _ Hgm) in Hvm.
  unfold restore_full. rewrite Hve, Hvm. simpl. rewrite (manifest_serde _ _ Hm). simpl.
  rewrite Hsum, bool_decide_true by done. simpl.
  rewrite (proj2 (Nat.ltb_ge _ _)) by (rewrite length_app; unfold SALT_LENGTH in *; lia).
  rewrite take_app_length', drop_app_length' by done. rewrite Hk. simpl.
  rewrite (decrypt_sealed _ _ _ _ Hnonce He). simpl.
  rewrite (decompress_small _ _ (Hsize js Ha) Hc). simpl.
  by rewrite (archive_serde (archive_for id ty cols parent records (dr_now d)) js Hrec Ha).
Qed.

(** Nothing is restored from a payload whose checksum is not the manifest's. *)
Lemma restore_checks id pass params s r :
  good_key (enc_key id) → good_key (manifest_key id) →
  restore_full id pass params s = Ok r →
  ∃ payload data manifest, view s (enc_key id) = Some payload ∧ view s (manifest_key id) = Some data ∧
    manifest_from_slice data = Ok manifest ∧ sha256_hex payload = bm_checksum manifest.
Proof.
  intros Hge Hgm. unfold restore_full. intros Hr.
  destruct (get (enc_key id) s) as [p|] eqn:Ep; simpl in Hr; [|done].
  destruct (get (manifest_key id) s) as [d|] eqn:Ed; simpl in Hr; [|done].
  destruct (manifest_from_slice d) as [m|] eqn:Em; simpl in Hr; [|done].
  case_bool_decide; simpl in Hr; [|done]. apply view_get in Ep, Ed; [|done..]. eauto 10.
Qed.

(** A partial restore is the full one without the other collections. *)
Lemma partial_restores id cols pass params s records r :
  restore_full id pass params s = Ok (records, r) →
  restore_partial id cols pass params s =
  Ok (filter (λ rec, br_collection rec ∈ cols) records,
      restore_result (filter (λ rec, br_collection rec ∈ cols) records)).
Proof. unfold restore_partial. by intros ->. Qed.
End Restore.

(** ** Statistics *)

Lemma count_records_from counts records c :
  default 0%Z (foldl count_record counts records !! c) =
  (default 0%Z (counts !! c) + Z.of_nat (length (filter (λ r, br_collection r = c) records)))%Z.
Proof.
  revert counts. induction records as [|r rs IH]; intros counts; simpl; [lia|].
  rewrite IH, filter_cons. unfold count_record. case_decide as Hr.
  - subst c. rewrite lookup_insert_eq. simpl. lia.
  - rewrite lookup_insert_ne by done. done.
Qed.

(** The counts are the numbers of records by collection. *)
Lemma count_records_exact records c :
  default 0%Z (count_records records !! c) =
  Z.of_nat (length (filter (λ r, br_collection r = c) records)).
Proof. unfold count_records. rewrite count_records_from. by rewrite lookup_empty. Qed.

(** ** The order of backups *)

Definition not_older (a b : BackupManifest) : Prop := (bm_created_at b ≤ bm_created_at a)%Z.

Lemma insert_newest_perm m ms : insert_newest m ms ≡ₚ m :: ms.
Proof.
  induction ms as [|x xs IH]; simpl; [done|]. destruct (_ <=? _)%Z; [done|]. rewrite IH. apply Permutation_swap.
Qed.

Lemma newest_first_perm ms : newest_first ms ≡ₚ ms.
Proof. induction ms as [|m ms IH]; simpl; [done|]. by rewrite insert_newest_perm, IH. Qed.

Lemma insert_newest_sorted m ms : StronglySorted not_older ms → StronglySorted not_older (insert_newest m ms).
Proof.
  induction 1 as [|x xs Hs IH Hx]; simpl; [repeat constructor|].
  destruct (Z.leb_spec (bm_created_at x) (bm_created_at m)) as [Hle|Hgt].
  - constructor; [by constructor|]. constructor; [done|].
    eapply Forall_impl; [done|]. unfold not_older. lia.
  - constructor; [done|]. rewrite insert_newest_perm. constructor; [unfold not_older; lia|done].
Qed.

Lemma newest_first_sorted ms : StronglySorted not_older (newest_first ms).
Proof. induction ms; simpl; [constructor|by apply insert_newest_sorted]. Qed.

(** ** Retention *)

Section Retention.
Context {S : Type} `{HBk : BackupBackend S, HL : !BackendLaws S}.

Definition keys_of (m : BackupManifest) : list string := [enc_key (bm_id m); manifest_key (bm_id m)].

(** The manifests the policy removes, from position [i] on. *)
Definition doomed (policy : RetentionPolicy) (now : Z) (i : nat) (ms : list BackupManifest) :
    list BackupManifest :=
  omap id (imap (λ j m, if is_doomed policy now (i + j) m then Some m else None) ms).

Lemma doomed_cons policy now i m ms :
  doomed policy now i (m :: ms) =
  (if is_doomed policy now i m then [m] else []) ++ doomed policy now (i + 1) ms.
Proof.
  unfold doomed. cbn [imap omap list_omap]. rewrite Nat.add_0_r.
  assert (imap ((λ j m, if is_doomed policy now (i + j) m then Some m else None) ∘ Datatypes.S) ms =
          imap (λ j m, if is_doomed policy now (i + 1 + j) m then Some m else None) ms) as ->.
  { apply imap_ext. intros j x _. unfold compose. by replace (i + Datatypes.S j) with (i + 1 + j) by lia. }
  by destruct (is_doomed policy now i m).
Qed.

Lemma retention_loop_exact policy now i deleted ms s n s' :
  Forall (λ m, Forall good_key (keys_of m)) ms →
  retention_loop policy now i deleted ms s = (Ok n, s') →
  n = deleted + length (doomed policy now i ms) ∧
  ∀ k, good_key k → view s' k = if decide (k ∈ doomed policy now i ms ≫= keys_of) then None else view s k.
Proof.
  intros Hg. revert i deleted s. induction Hg as [|m ms Hm Hms IH]; intros i deleted s.
  { intros [= <- <-]. split; [cbn; lia|]. intros k _. by rewrite decide_False by (cbn; set_solver). }
  cbn [retention_loop]. rewrite doomed_cons. apply Forall_cons in Hm as [G1 Hm]. apply Forall_cons in Hm as [G2 _].
  destruct (is_doomed policy now i m); [|apply IH].
  destruct (delete_key (enc_key (bm_id m)) s) as [[r1|] s1] eqn:E1; [|done].
  destruct (delete_key (manifest_key (bm_id m)) s1) as [[r2|] s2] eqn:E2; [|done].
  intros Hr. destruct (IH _ _ _ Hr) as [-> Hv]. split; [simpl; lia|].
  intros k Hk. rewrite (Hv k Hk), (view_delete _ _ _ _ G2 E2 k Hk), (view_delete _ _ _ _ G1 E1 k Hk).
  simpl. repeat case_decide; set_solver.
Qed.
End Retention.

Lemma doomed_elem policy now ms m :
  m ∈ doomed policy now 0 ms ↔ ∃ i, ms !! i = Some m ∧ is_doomed policy now i m = true.
Proof.
  unfold doomed. rewrite list_elem_of_omap. setoid_rewrite elem_of_lookup_imap. split.
  - intros (o & (i & x & -> & Hi) & Ho). unfold id in Ho. simpl in Ho.
    destruct (is_doomed policy now i x) eqn:E; simplify_eq. eauto.
  - intros (i & Hi & Hd). exists (Some m). split; [|done]. exists i, m. simpl. by rewrite Hd.
Qed.

Lemma keys_of_id m m' k : k ∈ keys_of m → k ∈ keys_of m' → bm_id m = bm_id m'.
Proof.
  unfold keys_of. rewrite !elem_of_cons. unfold enc_key, manifest_key.
  intros [->|[->|[]%elem_of_nil]] [Hk|[Hk|[]%elem_of_nil]].
  - by apply string_app_inv_tail in Hk.
  - by apply enc_manifest_ne in Hk.
  - symmetry in Hk. by apply enc_manifest_ne in Hk.
  - by apply string_app_inv_tail in Hk.
Qed.

(** ** The local backend *)

Import Local.

(** A file name in the base directory. *)
Definition file_name (k : string) : Prop :=
  k ≠ empty_str ∧ k ≠ "." ∧ ¬ char_in "/" k ∧
  contains_str k ".." = false ∧ starts_with k (singleton BACKSLASH) = false.

#[export] Instance file_name_dec k : Decision (file_name k).
Proof. unfold file_name. apply _. Defined.

Lemma full_path_name k : file_name k → full_path k = Ok [k].
Proof.
  intros (Hne & Hdot & Hs & Hc & Hb). unfold full_path. rewrite Hc, Hb.
  assert (starts_with k "/" = false) as ->.
  { apply not_true_iff_false. rewrite starts_with_true. intros [r ->]. apply Hs. by left. }
  simpl. unfold components. rewrite split_nochar by done.
  rewrite filter_cons_True, filter_nil by done. done.
Qed.

Section LocalLaws.
Context (last_modified : list string → string).

Lemma local_view_put k b s s' :
  file_name k → local_put k b s = (Ok tt, s') →
  ∀ k', file_name k' → lb_files s' !! [k'] = if decide (k' = k) then Some b else lb_files s !! [k'].
Proof.
  intros Hk. unfold local_put. rewrite full_path_name by done. simpl.
  destruct (is_dir [k] s); [done|]. intros [= <-] k' _. simpl. case_decide as Hkk.
  - subst k'. by rewrite lookup_insert_eq.
  - rewrite lookup_insert_ne by congruence. done.
Qed.

Lemma local_view_get k b s : file_name k → local_get k s = Ok b ↔ lb_files s !! [k] = Some b.
Proof.
  intros Hk. unfold local_get. rewrite full_path_name by done. simpl.
  destruct (lb_files s !! [k]); simpl; naive_solver.
Qed.

Lemma local_view_delete k r s s' :
  file_name k → local_delete k s = (Ok r, s') →
  ∀ k', file_name k' → lb_files s' !! [k'] = if decide (k' = k) then None else lb_files s !! [k'].
Proof.
  intros Hk. unfold local_delete. rewrite full_path_name by done.
  case_bool_decide as Hf.
  - intros [= _ <-] k' _. simpl. case_decide as Hkk.
    + subst k'. by rewrite lookup_delete_eq.
    + rewrite lookup_delete_ne by congruence. done.
  - destruct (is_dir [k] s); [done|]. intros [= _ <-] k' _. case_decide as Hkk; [|done].
    subst k'. by apply eq_None_not_Some.
Qed.

#[export] Instance local_laws : @BackendLaws LocalBackend (local_backend last_modified).
Proof.
  refine {| good_key := file_name; view s k := lb_files s !! [k] |}.
  - exact local_view_put.
  - exact local_view_get.
  - exact local_view_delete.
Defined.

(** Nothing outside the base directory is read or written: a key that climbs or is
    absolute is refused. *)
Lemma traversal_refused key :
  contains_str key ".." = true ∨ starts_with key "/" = true →
  (∀ data s, ∃ e, local_put key data s = (Err e, s)) ∧ (∀ s, is_ok (local_get key s) = false) ∧
  (∀ s, ∃ e, local_delete key s = (Err e, s)).
Proof.
  intros Hk. assert (∃ e, full_path key = Err e) as [e He].
  { unfold full_path. destruct Hk as [-> | ->]; simpl; [by eexists|].
    destruct (contains_str key ".."); simpl; by eexists. }
  unfold local_put, local_get, local_delete. rewrite He. split_and!; [by eexists|done|by eexists].
Qed.
End LocalLaws.

(** ** The properties *)


(** Enforcing retention that reports success removes exactly the backups whose rank,
    newest first, is beyond the count or whose age is beyond the limit: their payloads and
    manifests are gone, every other key is as it was, and the number returned is theirs. *)
Theorem retention_exact {S : Type} `{HBk : BackupBackend S, HL : !BackendLaws S}
    manifests policy now (s : S) n s' :
  Forall (λ m, Forall good_key (keys_of m)) manifests → NoDup (bm_id <$> manifests) →
  enforce_retention manifests policy now s = (Ok n, s') →
  let ranked := newest_first manifests in
  ranked ≡ₚ manifests ∧ StronglySorted not_older ranked ∧
  n = length (doomed policy now 0 ranked) ∧
  (∀ i m, ranked !! i = Some m → Forall (λ k,
     view s' k = if is_doomed policy now i m then None else view s k) (keys_of m)) ∧
  (∀ k, good_key k → Forall (λ m, k ∉ keys_of m) manifests → view s' k = view s k).
Proof.
  intros Hg Hnd Hr ranked. unfold enforce_retention in Hr. fold ranked in Hr.
  assert (ranked ≡ₚ manifests) as Hperm by apply newest_first_perm.
  assert (Forall (λ m, Forall good_key (keys_of m)) ranked) as Hg' by by rewrite Hperm.
  destruct (retention_loop_exact _ _ _ _ _ _ _ _ Hg' Hr) as [Hn Hv].
  split_and!; [done|apply newest_first_sorted|done|..].
  - intros i m Hi. apply Forall_forall. intros k Hk.
    assert (good_key k) as Hgk.
    { eapply Forall_forall in Hg'; [|by eapply list_elem_of_lookup_2]. by eapply Forall_forall in Hg'. }
    rewrite (Hv k Hgk). assert (k ∈ doomed policy now 0 ranked ≫= keys_of ↔ is_doomed policy now i m = true) as Hd.
    { rewrite list_elem_of_bind. split.
      - intros (m' & Hk' & Hd). apply doomed_elem in Hd as (j & Hj & Hd).
        enough (i = j) as -> by congruence.
        assert (bm_id m = bm_id m') as Hid by (by eapply keys_of_id).
        eapply (NoDup_lookup (bm_id <$> ranked) _ _ (bm_id m)).
        + by rewrite Hperm.
        + by rewrite list_lookup_fmap, Hi.
        + by rewrite list_lookup_fmap, Hj, Hid.
      - intros Hd. exists m. split; [done|]. apply doomed_elem. eauto. }
    destruct (is_doomed policy now i m); [by rewrite decide_True by by apply Hd|].
    rewrite decide_False; [done|]. intros Hk'. by apply Hd in Hk'.
  - intros k Hk Hnone. rewrite (Hv k Hk), decide_False; [done|].
    rewrite list_elem_of_bind. intros (m' & Hk' & (j & Hj & _)%doomed_elem).
    rewrite <- Hperm in Hnone. eapply Forall_forall in Hnone; [|by eapply list_elem_of_lookup_2]. done.
Qed.

(** ** Concrete instances *)

#[local] Instance byte_eq_dec : EqDecision byte := Byte.byte_eq_dec.
#[export] Instance BackupType_eq_dec : EqDecision BackupType.
Proof. solve_decision. Defined.
#[export] Instance BackupManifest_eq_dec : EqDecision BackupManifest.
Proof. solve_decision. Defined.
#[export] Instance BackupRecord_eq_dec : EqDecision BackupRecord.
Proof. solve_decision. Defined.
#[export] Instance BackupArchive_eq_dec : EqDecision BackupArchive.
Proof. solve_decision. Defined.

Definition toy_record : BackupRecord :=
  {| br_id := "1"; br_plugin_id := "notes"; br_collection := "notes"; br_data := JStr "hello"; br_version := 1;
     br_user_id := None; br_household_id := None; br_created_at := 0; br_updated_at := 0 |}.

Definition toy_manifest (size : Z) (checksum : string) : BackupManifest :=
  {| bm_id := "full-5"; bm_created_at := 5; bm_backup_type := BtFull; bm_collections := ["notes"];
     bm_record_counts := {[ "notes" := 1%Z ]}; bm_compressed_size := size; bm_checksum := checksum;
     bm_parent_id := None; bm_cursor := Some "5" |}.

Definition toy_archive : BackupArchive :=
  {| ba_manifest := toy_manifest 0 empty_str; ba_records := [toy_record] |}.

(** One archive and its manifest have a byte each, compression copies. *)
#[export] Instance toy_backup_lib : BackupLib := {|
  argon2id _ _ _ _ _ := Ok (replicate 32 "k"%byte);
  gzip b := Ok b;
  gunzip_take n b := Ok (take (Z.to_nat n) b);
  sha256_hex _ := "sum";
  archive_to_vec a := if decide (a = toy_archive) then Ok ["a"%byte] else Err "unsupported";
  archive_from_slice b := if decide (b = ["a"%byte]) then Ok toy_archive else Err "unsupported";
  manifest_to_vec m := if decide (m = toy_manifest 1 "sum") then Ok ["m"%byte] else Err "unsupported";
  manifest_from_slice b := if decide (b = ["m"%byte]) then Ok (toy_manifest 1 "sum") else Err "unsupported";
  format_backup_id := show_Z;
  to_rfc3339 := show_Z;
  cron_parse _ := None;
|}.

#[export] Instance toy_backup_laws : @BackupLibLaws toy_backup_lib coded_text.
Proof.
  split.
  - intros b c n [= <-]. done.
  - intros a b _. simpl. case_decide; [|done]. intros [= <-]. by subst.
  - intros a b. simpl. case_decide; [|done]. intros [= <-]. by subst.
Qed.

Definition no_times (p : list string) : string := empty_str.
Definition empty_local : LocalBackend := {| lb_files := ∅; lb_dirs := ∅ |}.
Definition toy_draw : Draw :=
  {| dr_now := 5; dr_salt := replicate 16 "s"%byte; dr_nonce := replicate 12 "n"%byte |}.


Definition taken_at (name : string) (t : Z) : BackupManifest :=
  {| bm_id := name; bm_created_at := t; bm_backup_type := BtFull; bm_collections := [];
     bm_record_counts := ∅; bm_compressed_size := 0; bm_checksum := empty_str;
     bm_parent_id := None; bm_cursor := None |}.

Definition keep_one : RetentionPolicy := {| rp_max_count := 1; rp_retention_days := None |}.

Definition two_backups : LocalBackend :=
  {| lb_files := {[ ["old.enc"] := ["o"%byte]; ["new.enc"] := ["n"%byte] ]}; lb_dirs := ∅ |}.

Lemma retention_exact_witness :
  let r := enforce_retention (H := local_backend no_times) [taken_at "old" 10; taken_at "new" 20] keep_one 100 two_backups in
  fst r = Ok 1 ∧ lb_files (snd r) !! ["old.enc"] = None ∧ lb_files (snd r) !! ["new.enc"] = Some ["n"%byte].
Proof.
  intros r. assert (r = (Ok 1, snd r)) as Hr by (vm_compute; reflexivity).
  destruct (retention_exact (HBk := local_backend no_times) (HL := local_laws no_times)
    [taken_at "old" 10; taken_at "new" 20] keep_one 100 two_backups 1 (snd r)) as (_ & _ & _ & Hv & _).
  - repeat constructor; apply (bool_decide_unpack (file_name _)); vm_compute; exact I.
  - apply (bool_decide_unpack _). vm_compute. exact I.
  - exact Hr.
  - split; [by rewrite Hr|]. split.
    + exact (Forall_inv (Hv 1 (taken_at "old" 10) eq_refl)).
    + exact (Forall_inv (Hv 0 (taken_at "new" 20) eq_refl)).
Defined.
