(* ===== verification/Search.v ===== *)
(** * Full-text search

    The search engine (apps/core/src/search.rs), the processor that keeps its index in step
    with the records announced on the message bus (apps/core/src/search_processor.rs,
    packages/workflow-engine/src/message_bus.rs) and the search route
    (apps/core/src/routes/search.rs).

    The tantivy index is the class [Tantivy]: what a searcher sees, what a commit would
    show, and the calls that change them, which may fail. A panic of the engine
    is [SearchPanic]. *)

From stdpp Require Import base tactics list gmap sets strings.
From Stdlib Require Import ZArith Lia.
From S2P Require Import Prelude RustString RustText Json Types Conflict Contacts.

Local Open Scope string_scope.
Local Open Scope list_scope.

(** ** The indexed text of a record *)

Record Doc : Type := {
  d_id : string;
  d_collection : string;
  d_plugin_id : string;
  d_user_id : string;
  d_household_id : string;
  d_title : string;
  d_content : string;
}.

(** [data.get(k).and_then(as_str)]. *)
Definition str_field (data : json) (k : string) : option string := json_get data k ≫= as_str.
Definition str_or_empty (data : json) (k : string) : string := default empty_str (str_field data k).

(** [data.get(k).and_then(as_array)], its strings. *)
Definition str_items (data : json) (k : string) : list string :=
  omap as_str (default [] (json_get data k ≫= as_array)).

Fixpoint flatten_strings (max_depth : nat) (value : json) : list string :=
  match max_depth with
  | O => []
  | S depth =>
      match value with
      | JStr s => [s]
      | JObj kvs => kvs ≫= λ kv, flatten_strings depth (snd kv)
      | JArr xs => xs ≫= flatten_strings depth
      | _ => []
      end
  end.

Definition spaced (parts : list string) : string := join " " parts.

Definition contact_text (data : json) : string * string :=
  (str_or_empty data "name",
   spaced (option_list (str_field data "name") ++ option_list (str_field data "first_name")
           ++ option_list (str_field data "last_name") ++ str_items data "emails"
           ++ str_items data "phones")).

(** A title field, and the text of several fields. *)
Definition field_text (data : json) (title : string) (others : list string) : string * string :=
  (str_or_empty data title, spaced (str_or_empty data <$> title :: others)).

Definition extract_text (collection : string) (data : json) : string * string :=
  if bool_decide (collection = "emails") then field_text data "subject" ["body_text"]
  else if bool_decide (collection = "contacts") then contact_text data
  else if bool_decide (collection = "events") then field_text data "title" ["description"; "location"]
  else if bool_decide (collection = "tasks") then field_text data "title" ["description"]
  else if bool_decide (collection = "notes") then field_text data "title" ["body"]
  else if bool_decide (collection = "files") then field_text data "name" ["path"]
  else
    let strings := flatten_strings 10 data in
    (default empty_str (head strings), spaced strings).

Definition doc_of (r : StoredRecord) : Doc :=
  let '(title, content) := extract_text (rec_collection r) (rec_data r) in
  {| d_id := rec_id r; d_collection := rec_collection r; d_plugin_id := rec_plugin_id r;
     d_user_id := default empty_str (rec_user_id r);
     d_household_id := default empty_str (rec_household_id r);
     d_title := title; d_content := content |}.

(** ** The tantivy index *)

Class Tantivy (W : Type) : Type := {
  add_document : Doc → W → result unit string * W;
  (** every document whose id is the term's *)
  delete_term : string → W → W;
  (** commit, then reload the reader *)
  commit : W → result unit string * W;
  (** what a searcher sees *)
  docs : W → list Doc;
  (** a query of the default fields title and content *)
  parse_query : string → result (Doc → bool) string;
  (** the matching documents by score, best first *)
  rank : string → list Doc → list (Z * Doc);
}.

(** What the engine relies on: [staged] is what a commit shows. *)
Class TantivyLaws (W : Type) `{Tantivy W} : Type := {
  staged : W → list Doc;
  add_staged d w w' : add_document d w = (Ok tt, w') → staged w' = staged w ++ [d];
  add_docs d w w' r : add_document d w = (r, w') → docs w' = docs w;
  delete_staged i w : staged (delete_term i w) = filter (λ d, d_id d ≠ i) (staged w);
  delete_docs i w : docs (delete_term i w) = docs w;
  commit_docs w w' : commit w = (Ok tt, w') → docs w' = staged w ∧ staged w' = staged w;
  rank_perm q ds : snd <$> rank q ds ≡ₚ ds;
}.

(** ** The engine *)

Definition DEFAULT_COMMIT_THRESHOLD : nat := 50.

Record SearchEngine (W : Type) : Type := mkEngine {
  se_writer : W;
  se_pending : nat;
  se_threshold : nat;
}.
Arguments mkEngine {W} _ _ _.
Arguments se_writer {W} _.
Arguments se_pending {W} _.
Arguments se_threshold {W} _.

Record SearchHit : Type := {
  sh_id : string;
  sh_collection : string;
  sh_plugin_id : string;
  sh_score : Z;
  sh_snippet : option string;
}.

Record SearchResults : Type := {
  sr_hits : list SearchHit;
  sr_total : nat;
  sr_query : string;
}.

Inductive SearchError : Type :=
| SearchFailed (msg : string)
| SearchPanic.

Definition usize_max : Z := (2 ^ 64 - 1)%Z.

Section Engine.
Context {W : Type} `{Tantivy W}.

(** [build] over an empty index. *)
Definition build (writer : W) (commit_threshold : nat) : SearchEngine W :=
  mkEngine writer 0 (commit_threshold `max` 1).

Definition with_writer (w : W) (e : SearchEngine W) : SearchEngine W :=
  mkEngine w (se_pending e) (se_threshold e).

(** [commit]; on success the count starts again. *)
Definition commit_pending (e : SearchEngine W) : result unit string * SearchEngine W :=
  match commit (se_writer e) with
  | (Ok _, w) => (Ok tt, mkEngine w 0 (se_threshold e))
  | (Err m, w) => (Err m, with_writer w e)
  end.

Definition index_record (r : StoredRecord) (e : SearchEngine W) : result unit string * SearchEngine W :=
  match add_document (doc_of r) (se_writer e) with
  | (Err m, w) => (Err m, with_writer w e)
  | (Ok _, w) =>
      let pending := se_pending e + 1 in
      let e1 := mkEngine w pending (se_threshold e) in
      if (se_threshold e <=? pending)%nat then commit_pending e1 else (Ok tt, e1)
  end.

Definition flush (e : SearchEngine W) : result unit string * SearchEngine W :=
  if (0 <? se_pending e)%nat then commit_pending e else (Ok tt, e).

Fixpoint add_all (rs : list StoredRecord) (w : W) : result unit string * W :=
  match rs with
  | [] => (Ok tt, w)
  | r :: rest =>
      match add_document (doc_of r) w with
      | (Ok _, w1) => add_all rest w1
      | (Err m, w1) => (Err m, w1)
      end
  end.

(** The pending count is left as it is. *)
Definition index_records_bulk (rs : list StoredRecord) (e : SearchEngine W) :
    result nat string * SearchEngine W :=
  match add_all rs (se_writer e) with
  | (Err m, w) => (Err m, with_writer w e)
  | (Ok _, w) =>
      match commit w with
      | (Err m, w1) => (Err m, with_writer w1 e)
      | (Ok _, w1) => (Ok (length rs), with_writer w1 e)
      end
  end.

Definition remove (record_id : string) (e : SearchEngine W) : result unit string * SearchEngine W :=
  match commit (delete_term record_id (se_writer e)) with
  | (Err m, w) => (Err m, with_writer w e)
  | (Ok _, w) => (Ok tt, with_writer w e)
  end.

(** A filter clause. *)
Definition passes (filter : option string) (v : string) : bool :=
  match filter with
  | Some f => bool_decide (v = f)
  | None => true
  end.

Definition hit (sd : Z * Doc) : SearchHit :=
  let '(score, d) := sd in
  {| sh_id := d_id d; sh_collection := d_collection d; sh_plugin_id := d_plugin_id d;
     sh_score := score; sh_snippet := Some (d_title d) |}.

(** [TopDocs::with_limit] panics on zero, and the sum on overflow. *)
Definition search (query : string) (collection_filter user_id_filter household_id_filter : option string)
    (limit offset : Z) (e : SearchEngine W) : result SearchResults SearchError :=
  if is_empty (trim query) then Err (SearchFailed "search query must not be empty")
  else
    let limit := Z.min limit 100 in
    let? matches := result_map_err SearchFailed (parse_query query) in
    let found := filter (λ d, matches d && passes collection_filter (d_collection d)
                              && passes user_id_filter (d_user_id d)
                              && passes household_id_filter (d_household_id d) = true)
                   (docs (se_writer e)) in
    let fetch_count := (offset + limit)%Z in
    if (usize_max <? fetch_count)%Z || (fetch_count =? 0)%Z then Err SearchPanic
    else
      Ok {| sr_hits := hit <$> drop (Z.to_nat offset) (take (Z.to_nat fetch_count) (rank query found));
            sr_total := length found; sr_query := query |}.
End Engine.

(** ** The message bus and the processor *)

Inductive BusEvent : Type :=
| NewRecords (collection : string) (count : nat)
| RecordChanged (record : StoredRecord)
| RecordDeleted (record_id collection : string)
| SyncComplete (plugin_id : string)
| PluginLoaded (plugin_id : string)
| PluginError (plugin_id error : string)
| BlobStored (blob_key plugin_id : string)
| BlobDeleted (blob_key plugin_id : string)
| AuthSuccess (identity_subject method : string)
| AuthFailure (client_ip reason : string)
| CredentialEvent (action plugin_id key : string)
| PluginUnloaded (plugin_id : string)
| ConnectorEvent (action plugin_id : string).

(** What [recv] yields. *)
Inductive Received : Type :=
| Got (event : BusEvent)
| Lagged (n : nat).

Section Processor.
Context {W : Type} `{Tantivy W}.

(** One event of the loop: errors are only logged. *)
Definition process (e : SearchEngine W) (r : Received) : SearchEngine W :=
  match r with
  | Got (RecordChanged record) => snd (index_record record (snd (remove (rec_id record) e)))
  | Got (RecordDeleted record_id _) => snd (remove record_id e)
  | Got _ | Lagged _ => e
  end.

(** The drain after the loop stops at the first error, that of a lag included. *)
Fixpoint drain (rs : list Received) (e : SearchEngine W) : SearchEngine W :=
  match rs with
  | [] | Lagged _ :: _ => e
  | r :: rest => drain rest (process e r)
  end.

(** The task: the events received before the shutdown signal, those drained after it, then
    a flush. *)
Definition run_processor (received drained : list Received) (e : SearchEngine W) : SearchEngine W :=
  snd (flush (drain drained (foldl process e received))).
End Processor.

(** ** The route *)

Record SearchParams : Type := {
  sp_q : option string;
  sp_collection : option string;
  sp_user_id : option string;
  sp_household_id : option string;
  sp_limit : option Z;
  sp_offset : option Z;
}.

Inductive SearchResponse : Type :=
| SearchOk (r : SearchResults)
| SearchClientError (status : Z) (code : string)
| SearchCrash.

Definition search_route {W} `{Tantivy W} (engine : option (SearchEngine W)) (p : SearchParams) :
    SearchResponse :=
  match engine with
  | None => SearchClientError 503 "SEARCH_UNAVAILABLE"
  | Some e =>
      match sp_q p with
      | Some q =>
          if is_empty (trim q) then SearchClientError 400 "SEARCH_QUERY_EMPTY"
          else
            match search q (sp_collection p) (sp_user_id p) (sp_household_id p)
                    (Z.min (default 20%Z (sp_limit p)) 100) (default 0%Z (sp_offset p)) e with
            | Ok r => SearchOk r
            | Err (SearchFailed _) => SearchClientError 400 "SEARCH_QUERY_INVALID"
            | Err SearchPanic => SearchCrash
            end
      | None => SearchClientError 400 "SEARCH_QUERY_EMPTY"
      end
  end.

(** * Properties of search

    After the processor ends, the index shows the latest version of every live record it was
    told of, once each; a filtered search answers only with the tenant's records. *)

(** ** The records announced *)

(** The live records after an event. *)
Definition announce (live : gmap string StoredRecord) (r : Received) : gmap string StoredRecord :=
  match r with
  | Got (RecordChanged record) => <[rec_id record := record]> live
  | Got (RecordDeleted record_id _) => delete record_id live
  | Got _ | Lagged _ => live
  end.

Definition live_after (rs : list Received) : gmap string StoredRecord := foldl announce ∅ rs.

(** What the drain looks at. *)
Fixpoint until_lag (rs : list Received) : list Received :=
  match rs with
  | [] | Lagged _ :: _ => []
  | r :: rest => r :: until_lag rest
  end.

Section Mirror.
Context {W : Type} `{HT : Tantivy W, HTL : !TantivyLaws W}.

(** No call on the index fails. *)
Definition reliable : Prop :=
  (∀ d (w : W), ∃ w', add_document d w = (Ok tt, w')) ∧ (∀ w : W, ∃ w', commit w = (Ok tt, w')).

Context (Hrel : reliable).

(** The staged documents are the live records', and nothing is pending unless counted. *)
Record mirrors (live : gmap string StoredRecord) (e : SearchEngine W) : Prop := {
  mi_staged : ∀ d, d ∈ staged (se_writer e) ↔ ∃ i r, live !! i = Some r ∧ d = doc_of r;
  mi_nodup : NoDup (d_id <$> staged (se_writer e));
  mi_keys : ∀ i r, live !! i = Some r → rec_id r = i;
  mi_visible : se_pending e = 0 → docs (se_writer e) = staged (se_writer e);
}.

Lemma doc_of_id r : d_id (doc_of r) = rec_id r.
Proof. unfold doc_of. by destruct (extract_text _ _). Qed.

Lemma NoDup_fmap_filter {A B} (f : A → B) (P : A → Prop) `{∀ x, Decision (P x)} l :
  NoDup (f <$> l) → NoDup (f <$> filter P l).
Proof.
  induction l as [|x l IH]; [done|]. rewrite fmap_cons, NoDup_cons, filter_cons. intros [Hx Hl].
  case_decide; [|auto]. rewrite fmap_cons, NoDup_cons. split; [|auto].
  rewrite list_elem_of_fmap in *. intros (y & Hy & [_ Hin]%list_elem_of_filter). eauto.
Qed.

Lemma remove_spec i e :
  ∃ w, snd (remove i e) = mkEngine w (se_pending e) (se_threshold e) ∧
       staged w = filter (λ d, d_id d ≠ i) (staged (se_writer e)) ∧ docs w = staged w.
Proof.
  unfold remove. destruct (proj2 Hrel (delete_term i (se_writer e))) as [w Hw]. rewrite Hw. simpl.
  exists w. split; [done|]. destruct (commit_docs _ _ Hw) as [-> ->]. by rewrite delete_staged.
Qed.

Lemma remove_mirrors live i e : mirrors live e → mirrors (delete i live) (snd (remove i e)).
Proof.
  intros [Hs Hn Hk Hv]. destruct (remove_spec i e) as (w & -> & Hw & Hd). constructor; cbn [se_writer se_pending].
  - intros d. rewrite Hw, list_elem_of_filter, Hs. split.
    + intros (Hne & j & r & Hj & ->). exists j, r. split; [|done].
      rewrite lookup_delete_ne; [done|]. intros ->. apply Hne. rewrite doc_of_id. by apply Hk.
    + intros (j & r & Hj & ->). apply lookup_delete_Some in Hj as [Hne Hj].
      split; [|eauto]. rewrite doc_of_id, (Hk _ _ Hj). congruence.
  - rewrite Hw. by apply NoDup_fmap_filter.
  - intros j r [_ Hj]%lookup_delete_Some. eauto.
  - done.
Qed.

Lemma commit_pending_spec e :
  ∃ w, snd (commit_pending e) = mkEngine w 0 (se_threshold e) ∧
       staged w = staged (se_writer e) ∧ docs w = staged w.
Proof.
  unfold commit_pending. destruct (proj2 Hrel (se_writer e)) as [w Hw]. rewrite Hw. simpl. exists w.
  split; [done|]. by destruct (commit_docs _ _ Hw) as [-> ->].
Qed.

Lemma index_spec r e :
  0 < se_threshold e →
  ∃ w n, snd (index_record r e) = mkEngine w n (se_threshold e) ∧
         staged w = staged (se_writer e) ++ [doc_of r] ∧ (n = 0 → docs w = staged w).
Proof.
  intros Ht. unfold index_record. destruct (proj1 Hrel (doc_of r) (se_writer e)) as [w Hw]. rewrite Hw.
  destruct (Nat.leb_spec (se_threshold e) (se_pending e + 1)).
  - destruct (commit_pending_spec (mkEngine w (se_pending e + 1) (se_threshold e))) as (w' & -> & Hs & Hd).
    exists w', 0. cbn [se_writer] in Hs. rewrite Hs, (add_staged _ _ _ Hw) in *. done.
  - exists w, (se_pending e + 1). simpl. rewrite (add_staged _ _ _ Hw). split_and!; [done..|lia].
Qed.

Lemma changed_mirrors live r e :
  0 < se_threshold e → mirrors live e →
  mirrors (<[rec_id r := r]> live) (snd (index_record r (snd (remove (rec_id r) e)))).
Proof.
  intros Ht Hm. pose proof (remove_mirrors live (rec_id r) e Hm) as [Hs Hn Hk _].
  destruct (remove_spec (rec_id r) e) as (w0 & E0 & _ & _).
  destruct (index_spec r (snd (remove (rec_id r) e))) as (w & n & -> & Hw & Hv); [by rewrite E0|].
  rewrite <- (insert_delete_eq live). constructor; cbn [se_writer se_pending].
  - intros d. rewrite Hw, elem_of_app, Hs, list_elem_of_singleton. split.
    + intros [(j & x & Hj & ->)| ->].
      * exists j, x. split; [|done]. rewrite lookup_insert_ne; [done|].
        intros <-. by rewrite lookup_delete_eq in Hj.
      * exists (rec_id r), r. by rewrite lookup_insert_eq.
    + intros (j & x & [[<- <-]|[Hne Hj]]%lookup_insert_Some & ->); [by right|left; eauto].
  - rewrite Hw, fmap_app. apply NoDup_app. split_and!; [done| |apply NoDup_singleton].
    intros i Hi. cbn [fmap list_fmap]. rewrite list_elem_of_singleton, doc_of_id. intros ->.
    apply list_elem_of_fmap in Hi as (d & Hd & (j & x & Hj & ->)%Hs). rewrite doc_of_id in Hd.
    rewrite (Hk _ _ Hj) in Hd. subst j. by rewrite lookup_delete_eq in Hj.
  - intros j x [[<- <-]|[_ Hj]]%lookup_insert_Some; [done|eauto].
  - done.
Qed.

Lemma process_threshold e r : se_threshold (process e r) = se_threshold e.
Proof.
  assert (∀ i e, se_threshold (snd (remove i e)) = se_threshold e) as Hr.
  { intros i e'. unfold remove. by destruct (commit _) as [[]]. }
  destruct r as [[]|]; simpl; auto. unfold index_record.
  destruct (add_document _ _) as [[] ?]; simpl; [|auto].
  case_match; simpl; [|auto]. unfold commit_pending. destruct (commit _) as [[]]; simpl; auto.
Qed.

Lemma process_mirrors live r e :
  0 < se_threshold e → mirrors live e → mirrors (announce live r) (process e r).
Proof.
  intros Ht Hm. destruct r as [[]|]; simpl; auto using changed_mirrors, remove_mirrors.
Qed.

Lemma run_mirrors live rs e :
  0 < se_threshold e → mirrors live e →
  0 < se_threshold (foldl process e rs) ∧ mirrors (foldl announce live rs) (foldl process e rs).
Proof.
  revert live e. induction rs as [|r rs IH]; intros live e Ht Hm; [done|]. simpl. apply IH.
  - by rewrite process_threshold.
  - by apply process_mirrors.
Qed.

Lemma flush_shows live e :
  mirrors live e →
  docs (se_writer (snd (flush e))) = staged (se_writer e).
Proof.
  intros Hm. unfold flush. destruct (Nat.ltb_spec 0 (se_pending e)).
  - destruct (commit_pending_spec e) as (w & -> & Hs & Hd). simpl. by rewrite Hd.
  - simpl. apply (mi_visible _ _ Hm). lia.
Qed.

Lemma built_mirrors w threshold : staged w = [] → docs w = [] → mirrors ∅ (build w threshold).
Proof.
  intros Hs Hd. constructor; cbn [se_writer build]; try rewrite Hs.
  - intros d. split; [by intros ?%elem_of_nil|]. intros (i & r & Hi & _). by rewrite lookup_empty in Hi.
  - constructor.
  - intros i r Hi. by rewrite lookup_empty in Hi.
  - done.
Qed.

Lemma drain_until_lag rs (e : SearchEngine W) : drain rs e = foldl process e (until_lag rs).
Proof. revert e. induction rs as [|[]]; simpl; auto. Qed.

(** What is shown when the processor has ended. *)
Lemma processor_shows received drained w threshold :
  staged w = [] → docs w = [] →
  let e := foldl process (build w threshold) (received ++ until_lag drained) in
  mirrors (live_after (received ++ until_lag drained)) e ∧
  docs (se_writer (run_processor received drained (build w threshold))) = staged (se_writer e).
Proof.
  intros Hs Hd. unfold run_processor, live_after. rewrite drain_until_lag, <- !foldl_app.
  destruct (run_mirrors ∅ (received ++ until_lag drained) (build w threshold)) as [_ Hm];
    [simpl; lia|by apply built_mirrors|]. split; [done|]. by rewrite (flush_shows _ _ Hm).
Qed.

(** ** Answers *)

(** Every hit is a document that passes the filters. *)
Lemma search_filters q cf uf hf limit offset (e : SearchEngine W) r h :
  search q cf uf hf limit offset e = Ok r → h ∈ sr_hits r →
  ∃ d, d ∈ docs (se_writer e) ∧ sh_id h = d_id d ∧
    (∀ c, cf = Some c → d_collection d = c) ∧ (∀ u, uf = Some u → d_user_id d = u) ∧
    (∀ hh, hf = Some hh → d_household_id d = hh).
Proof.
  unfold search. destruct (is_empty _); [done|]. destruct (parse_query q) as [m|]; simpl; [|done].
  case_match; [done|]. intros [= <-]. simpl. intros Hh.
  apply list_elem_of_fmap in Hh as ([sc d] & -> & Hd).
  assert (d ∈ snd <$> rank q (filter (λ d, m d && passes cf (d_collection d) && passes uf (d_user_id d)
            && passes hf (d_household_id d) = true) (docs (se_writer e)))) as Hin.
  { apply list_elem_of_fmap. exists (sc, d). split; [done|].
    by eapply subseteq_take, subseteq_drop. }
  rewrite rank_perm, list_elem_of_filter in Hin. destruct Hin as [Hp Hin].
  exists d. split_and!; [done|done|..]; repeat (apply andb_prop in Hp as [Hp ?]);
    intros x ->; simpl in *; by eapply bool_decide_eq_true_1.
Qed.
End Mirror.

(** ** The index after the processor *)

(** When no call on the index fails, the index after the search processor has received its
    events, drained the rest at shutdown (up to a lag) and flushed shows exactly the latest version of every
    record announced and not deleted since, each once, whatever the commit threshold. *)
Theorem search_index_mirrors {W} `{HT : Tantivy W, HTL : !TantivyLaws W} received drained (w : W) threshold :
  reliable (W := W) → staged w = [] → docs w = [] →
  let shown := docs (se_writer (run_processor received drained (build w threshold))) in
  (∀ d, d ∈ shown ↔ ∃ i r, live_after (received ++ until_lag drained) !! i = Some r ∧ d = doc_of r) ∧
  NoDup (d_id <$> shown).
Proof.
  intros Hrel Hs Hd. destruct (processor_shows Hrel received drained w threshold Hs Hd) as [Hm ->].
  split; apply Hm.
Qed.

(** A search with a user filter answers only with records of that user: every hit is a live
    record announced to the processor, in the collection and household asked for. *)
Theorem search_isolates {W} `{HT : Tantivy W, HTL : !TantivyLaws W} received drained (w : W) threshold
    q cf u hf limit offset res h :
  reliable (W := W) → staged w = [] → docs w = [] →
  search q cf (Some u) hf limit offset (run_processor received drained (build w threshold)) = Ok res →
  h ∈ sr_hits res →
  ∃ r, live_after (received ++ until_lag drained) !! sh_id h = Some r ∧ default empty_str (rec_user_id r) = u ∧
    (∀ c, cf = Some c → rec_collection r = c) ∧
    (∀ hh, hf = Some hh → default empty_str (rec_household_id r) = hh).
Proof.
  intros Hrel Hs Hd Hr Hh.
  destruct (search_filters _ _ _ _ _ _ _ _ _ Hr Hh) as (d & Hin & Hid & Hc & Hu & Hhh).
  destruct (processor_shows Hrel received drained w threshold Hs Hd) as [Hm E]. rewrite E in Hin.
  apply (mi_staged _ _ Hm) in Hin as (i & r & Hi & ->). exists r.
  unfold doc_of in *. destruct (extract_text _ _); simpl in *.
  rewrite Hid, (mi_keys _ _ Hm _ _ Hi). eauto.
Qed.

(** ** An index kept in lists *)

Module ListIndex.
Record Index : Type := { ix_shown : list Doc; ix_staged : list Doc }.

#[export] Instance list_tantivy : Tantivy Index := {
  add_document d w := (Ok tt, {| ix_shown := ix_shown w; ix_staged := ix_staged w ++ [d] |});
  delete_term i w :=
    {| ix_shown := ix_shown w; ix_staged := filter (λ d, d_id d ≠ i) (ix_staged w) |};
  commit w := (Ok tt, {| ix_shown := ix_staged w; ix_staged := ix_staged w |});
  docs := ix_shown;
  parse_query q := Ok (λ d, bool_decide (q = d_title d));
  rank _ ds := (λ d, (1%Z, d)) <$> ds;
}.

#[export] Program Instance list_tantivy_laws : TantivyLaws Index := { staged := ix_staged }.
Next Obligation. by intros d w w' [= <-]. Qed.
Next Obligation. by intros d w w' r [= _ <-]. Qed.
Next Obligation. done. Qed.
Next Obligation. done. Qed.
Next Obligation. by intros w w' [= <-]. Qed.
Next Obligation. intros q ds. simpl. rewrite <- list_fmap_compose. by rewrite list_fmap_id. Qed.

Lemma list_reliable : reliable (W := Index).
Proof. split; simpl; eauto. Defined.

Definition empty_index : Index := {| ix_shown := []; ix_staged := [] |}.

Definition note (i title user : string) : StoredRecord :=
  {| rec_id := i; rec_plugin_id := "p"; rec_collection := "notes";
     rec_data := JObj [("title", JStr title)]; rec_version := 1; rec_user_id := Some user;
     rec_household_id := None; rec_created_at := 0; rec_updated_at := 0 |}.

Definition announced : list Received :=
  [Got (RecordChanged (note "a" "one" "u")); Got (RecordChanged (note "b" "one" "v"));
   Got (RecordChanged (note "a" "two" "u")); Lagged 3; Got (RecordDeleted "c" "notes")].
End ListIndex.
Import ListIndex.

Lemma search_index_mirrors_witness :
  doc_of (note "a" "two" "u")
  ∈ docs (se_writer (run_processor announced [Got (RecordChanged (note "a" "one" "u"));
       Got (RecordChanged (note "a" "two" "u"))] (build empty_index 0))).
Proof.
  apply (proj1 (search_index_mirrors (HTL := list_tantivy_laws) announced
    [Got (RecordChanged (note "a" "one" "u")); Got (RecordChanged (note "a" "two" "u"))]
    empty_index 0 list_reliable eq_refl eq_refl)).
  exists "a", (note "a" "two" "u"). split; reflexivity.
Defined.

Lemma search_isolates_witness :
  ∃ r, live_after announced !! "a" = Some r ∧ default empty_str (rec_user_id r) = "u".
Proof.
  pose (run_processor announced [] (build empty_index 50)) as e.
  destruct (search_isolates (HTL := list_tantivy_laws) announced [] empty_index 50 "two" None "u" None 10 0
    {| sr_hits := [{| sh_id := "a"; sh_collection := "notes"; sh_plugin_id := "p"; sh_score := 1;
                      sh_snippet := Some "two" |}]; sr_total := 1; sr_query := "two" |}
    {| sh_id := "a"; sh_collection := "notes"; sh_plugin_id := "p"; sh_score := 1;
       sh_snippet := Some "two" |} list_reliable eq_refl eq_refl) as (r & Hr & Hu & _).
  - vm_compute. reflexivity.
  - apply list_elem_of_singleton. reflexivity.
  - exists r. split; [exact Hr|exact Hu].
Defined.

(** ** Edges *)

Section Edges.
Context {W : Type} `{HT : Tantivy W}.

(** A page of no results, from the start, panics. *)
Lemma empty_page_panics q cf uf hf (e : SearchEngine W) m :
  is_empty (trim q) = false → parse_query q = Ok m → search q cf uf hf 0 0 e = Err SearchPanic.
Proof. intros Hq Hm. unfold search. by rewrite Hq, Hm. Qed.

(** A record removed while the commit fails: the flush does not retry. *)
Lemma failed_remove_not_flushed i (e : SearchEngine W) m w :
  se_pending e = 0 → commit (delete_term i (se_writer e)) = (Err m, w) →
  flush (snd (remove i e)) = (Ok tt, with_writer w e).
Proof.
  intros Hp Hc. unfold remove, flush. rewrite Hc. simpl. by rewrite Hp.
Qed.

(** A hit's page: never more than the limit, or a hundred. *)
Lemma search_page q cf uf hf limit offset (e : SearchEngine W) r :
  (0 <= offset)%Z → (0 <= limit)%Z → search q cf uf hf limit offset e = Ok r →
  (Z.of_nat (length (sr_hits r)) <= Z.min limit 100)%Z.
Proof.
  intros Ho Hl. unfold search. destruct (is_empty _); [done|]. destruct (parse_query q); simpl; [|done].
  case_match; [done|]. intros [= <-]. simpl. rewrite length_fmap, length_drop, length_take. lia.
Qed.
End Edges.

(** A contact's name kept as an object is not indexed. *)
Lemma contact_name_object_unindexed n rest :
  str_field (JObj (("name", JObj n) :: rest)) "name" = None.
Proof. reflexivity. Qed.
