(* ===== verification/Vault.v ===== *)
(** * Credentials of plugins and of people

    The encrypted credential store of plugins (apps/core/src/credential_store.rs) with its
    routes (routes/credentials.rs), and the identity store with selective disclosure
    (apps/core/src/identity.rs) with its routes (routes/identity.rs). Both tables are maps by
    their primary keys.

    Every statement may fail: [fault] is the error of the database, if any. Nonces, ids and
    the clock are arguments. The errors of the stores are their texts, as [to_string] gives them.

    The properties of the plugin store follow at the end: it answers as a map from plugin and key
    to value. *)

From stdpp Require Import base tactics list gmap sets strings sorting.
From Stdlib Require Import ZArith Lia Sorting.Sorted.
From S2P Require Import Prelude RustString RustText Json Types Crypto SqliteBackend Sessions ApiKeys Conflict Search.

Local Open Scope string_scope.
Local Open Scope list_scope.

Definition string_of (b : list Byte.byte) : string := String.string_of_list_byte b.

(** What a route answers: its status, and the code of an error. *)
Inductive response (A : Type) : Type :=
| Answer (status : Z) (body : A)
| Refuse (status : Z) (code : string)
| Crash.
Arguments Answer {A} _ _.
Arguments Refuse {A} _ _.
Arguments Crash {A}.

(** [domain.rs]: tags in hex. *)
Definition domain_hmac `{HmacHex} (key data : list Byte.byte) : string := hex_encode (hmac_sign key data).

Definition domain_hmac_verify `{HmacHex} (key data : list Byte.byte) (hex_tag : string) : bool :=
  match hex_decode hex_tag with
  | Ok tag_bytes => hmac_verify key data tag_bytes
  | Err _ => false
  end.

Definition DOMAIN_CREDENTIAL_STORE : string := "life-engine-credential-store-v1".
Definition DOMAIN_IDENTITY_ENCRYPT : string := "life-engine-identity-encrypt".
Definition DOMAIN_IDENTITY_SIGN : string := "life-engine-identity-sign".

(** ** Credentials of plugins *)

Module PluginCredentials.

Record SqliteCredentialStore : Type := mkStore {
  cs_rows : gmap (string * string) string;
  cs_encryption_key : list Byte.byte;
}.

(** A failure, or the panic of [expect]. *)
Inductive store_error : Type :=
| Failed (msg : string)
| Panic.

Section Store.
Context `{CryptoLib}.

(** [new] over the rows of the database. *)
Definition new (rows : gmap (string * string) string) (master_secret : string) : SqliteCredentialStore :=
  mkStore rows (derive_domain_key master_secret DOMAIN_CREDENTIAL_STORE).

Definition encrypt (nonce : list Byte.byte) (plaintext : string) (s : SqliteCredentialStore) :
    result string store_error :=
  match domain_encrypt nonce (bytes_of plaintext) (cs_encryption_key s) with
  | Ok encrypted => Ok (base64_encode encrypted)
  | Err _ => Err Panic
  end.

Definition decrypt (ciphertext : string) (s : SqliteCredentialStore) : result string store_error :=
  match base64_decode ciphertext with
  | Err _ => Err (Failed "failed to decode base64 credential value")
  | Ok decoded =>
      match domain_decrypt decoded (cs_encryption_key s) with
      | Err _ => Err (Failed "failed to decrypt credential value")
      | Ok decrypted =>
          if valid_utf8 (string_of decrypted) then Ok (string_of decrypted)
          else Err (Failed "decrypted credential is not valid UTF-8")
      end
  end.

Definition set_rows (rows : gmap (string * string) string) (s : SqliteCredentialStore) :
    SqliteCredentialStore := mkStore rows (cs_encryption_key s).

(** A statement that fails with its context. *)
Definition guard (fault : option string) (context : string) : result unit store_error :=
  match fault with
  | Some _ => Err (Failed context)
  | None => Ok tt
  end.

Definition store (nonce : list Byte.byte) (fault : option string) (plugin_id key value : string)
    (s : SqliteCredentialStore) : result unit store_error * SqliteCredentialStore :=
  match encrypt nonce value s with
  | Err e => (Err e, s)
  | Ok encrypted =>
      match guard fault "failed to store credential" with
      | Err e => (Err e, s)
      | Ok _ => (Ok tt, set_rows (<[(plugin_id, key) := encrypted]> (cs_rows s)) s)
      end
  end.

Definition retrieve (fault : option string) (plugin_id key : string) (s : SqliteCredentialStore) :
    result (option string) store_error :=
  let? _ := guard fault "failed to query credential" in
  match cs_rows s !! (plugin_id, key) with
  | Some encrypted => let? decrypted := decrypt encrypted s in Ok (Some decrypted)
  | None => Ok None
  end.

Definition delete_key (fault : option string) (plugin_id key : string) (s : SqliteCredentialStore) :
    result bool store_error * SqliteCredentialStore :=
  match guard fault "failed to delete credential" with
  | Err e => (Err e, s)
  | Ok _ =>
      (Ok (bool_decide (is_Some (cs_rows s !! (plugin_id, key)))),
       set_rows (delete (plugin_id, key) (cs_rows s)) s)
  end.

(** The rows of a plugin, and the others. *)
Definition rows_of (plugin_id : string) (rows : gmap (string * string) string) :
    gmap (string * string) string := filter (λ r, r.1.1 = plugin_id) rows.

Definition delete_all_for_plugin (fault : option string) (plugin_id : string)
    (s : SqliteCredentialStore) : result nat store_error * SqliteCredentialStore :=
  match guard fault "failed to delete credentials for plugin" with
  | Err e => (Err e, s)
  | Ok _ =>
      (Ok (size (rows_of plugin_id (cs_rows s))),
       set_rows (filter (λ r, r.1.1 ≠ plugin_id) (cs_rows s)) s)
  end.

(** What reading one row of a listing gives: its key, an error of the column, which the next row
    follows, or an error of the database, after which there are no more rows. *)
Inductive key_row : Type := KeyRead | KeyUnreadable | StepFailed.

#[export] Instance key_row_eq_dec : EqDecision key_row.
Proof. solve_decision. Defined.

(** The failures of a listing: of preparing it, of running it, and of each row. *)
Record ListDraw : Type := mkListDraw {
  li_prepare : option string;
  li_query : option string;
  li_rows : nat → key_row;
}.

(** [filter_map] drops the rows that fail. *)
Fixpoint collect_keys (rows : nat → key_row) (keys : list string) : list string :=
  match keys with
  | [] => []
  | k :: keys' =>
      match rows 0 with
      | KeyRead => k :: collect_keys (λ i, rows (S i)) keys'
      | KeyUnreadable => collect_keys (λ i, rows (S i)) keys'
      | StepFailed => []
      end
  end.

(** [ORDER BY key], by bytes. *)
Definition list_keys (d : ListDraw) (plugin_id : string) (s : SqliteCredentialStore) :
    result (list string) store_error :=
  let? _ := guard (li_prepare d) "failed to prepare key listing query" in
  let? _ := guard (li_query d) "failed to list credential keys" in
  Ok (collect_keys (li_rows d)
        (merge_sort String.le ((λ r, r.1.2) <$> map_to_list (rows_of plugin_id (cs_rows s))))).
End Store.

(** *** Routes *)

Record AppState : Type := mkApp {
  app_store : option SqliteCredentialStore;
  app_published : list BusEvent;
}.

Definition unavailable {A} : response A := Refuse 503 "SYSTEM_INTERNAL_ERROR".

Definition on_error {A} (e : store_error) : response A :=
  match e with
  | Failed _ => Refuse 500 "SYSTEM_INTERNAL_ERROR"
  | Panic => Crash
  end.

Definition published (action plugin_id key : string) (s : SqliteCredentialStore) (a : AppState) : AppState :=
  mkApp (Some s) (app_published a ++ [CredentialEvent action plugin_id key]).

Section Routes.
Context `{CryptoLib}.

Definition store_credential (nonce : list Byte.byte) (fault : option string)
    (plugin_id key value : string) (a : AppState) : response (string * string) * AppState :=
  match app_store a with
  | None => (unavailable, a)
  | Some s =>
      if is_empty plugin_id || is_empty key then (Refuse 400 "DATA_VALIDATION_FAILED", a)
      else
        match store nonce fault plugin_id key value s with
        | (Ok _, s') => (Answer 201 (plugin_id, key), published "modify" plugin_id key s' a)
        | (Err e, s') => (on_error e, mkApp (Some s') (app_published a))
        end
  end.

Definition list_credentials (d : ListDraw) (plugin_id : string) (a : AppState) :
    response (list (string * string)) :=
  match app_store a with
  | None => unavailable
  | Some s =>
      match list_keys d plugin_id s with
      | Ok keys => Answer 200 (pair plugin_id <$> keys)
      | Err e => on_error e
      end
  end.

Definition get_credential (fault : option string) (plugin_id key : string) (a : AppState) :
    response string * AppState :=
  match app_store a with
  | None => (unavailable, a)
  | Some s =>
      match retrieve fault plugin_id key s with
      | Ok (Some value) => (Answer 200 value, published "access" plugin_id key s a)
      | Ok None => (Refuse 404 "CREDENTIAL_NOT_FOUND", a)
      | Err e => (on_error e, a)
      end
  end.

Definition delete_credential (fault : option string) (plugin_id key : string) (a : AppState) :
    response unit * AppState :=
  match app_store a with
  | None => (unavailable, a)
  | Some s =>
      match delete_key fault plugin_id key s with
      | (Ok true, s') => (Answer 204 tt, published "delete" plugin_id key s' a)
      | (Ok false, s') => (Refuse 404 "CREDENTIAL_NOT_FOUND", mkApp (Some s') (app_published a))
      | (Err e, s') => (on_error e, mkApp (Some s') (app_published a))
      end
  end.

Definition delete_plugin_credentials (fault : option string) (plugin_id : string) (a : AppState) :
    response nat * AppState :=
  match app_store a with
  | None => (unavailable, a)
  | Some s =>
      match delete_all_for_plugin fault plugin_id s with
      | (Ok count, s') => (Answer 200 count, published "delete" plugin_id "*" s' a)
      | (Err e, s') => (on_error e, mkApp (Some s') (app_published a))
      end
  end.
End Routes.
End PluginCredentials.

(** ** Identity credentials *)

Module Identity.

Inductive CredentialType : Type :=
| Passport
| DriversLicence
| Certificate
| IdentityCard
| Custom (name : string).

Record IdentityCredential : Type := mkCredential {
  ic_id : string;
  ic_credential_type : CredentialType;
  ic_issuer : string;
  ic_issued_date : timestamp;
  ic_expiry_date : option timestamp;
  ic_claims : json;
  ic_created_at : timestamp;
  ic_updated_at : timestamp;
}.

Record CredentialMetadata : Type := mkMetadata {
  cm_id : string;
  cm_credential_type : CredentialType;
  cm_issuer : string;
  cm_issued_date : timestamp;
  cm_expiry_date : option timestamp;
  cm_created_at : timestamp;
  cm_updated_at : timestamp;
}.

Definition metadata_of (c : IdentityCredential) : CredentialMetadata :=
  mkMetadata (ic_id c) (ic_credential_type c) (ic_issuer c) (ic_issued_date c) (ic_expiry_date c)
    (ic_created_at c) (ic_updated_at c).

Record DisclosureToken : Type := mkToken {
  dt_id : string;
  dt_credential_id : string;
  dt_disclosed_claims : gmap string json;
  dt_issued_at : timestamp;
  dt_expires_at : timestamp;
  dt_signature : string;
}.

Record DisclosureAuditEntry : Type := mkEntry {
  ae_id : string;
  ae_credential_id : string;
  ae_disclosed_claims : list string;
  ae_recipient : string;
  ae_timestamp : timestamp;
  ae_token_id : string;
}.

Record RawCredentialRow : Type := mkRow {
  rc_id : string;
  rc_credential_type : string;
  rc_issuer : string;
  rc_issued_date : string;
  rc_expiry_date : option string;
  rc_encrypted_claims : string;
  rc_created_at : string;
  rc_updated_at : string;
}.

Record RawAuditRow : Type := mkAuditRow {
  ra_id : string;
  ra_credential_id : string;
  ra_disclosed_claims : string;
  ra_recipient : string;
  ra_timestamp : string;
  ra_token_id : string;
}.

Record IdentityStore : Type := mkIdentity {
  id_credentials : gmap string RawCredentialRow;
  id_audit_log : gmap string RawAuditRow;
  id_encryption_key : list Byte.byte;
  id_signing_key : list Byte.byte;
}.

(** A failure with its text, or the panic of an arithmetic overflow of chrono. *)
Inductive identity_error : Type :=
| Failed (msg : string)
| Panic.

(** chrono's [DateTime + Duration], which fails outside its range of dates; SHA-256. *)
Class IdentityLib : Type := {
  checked_add : timestamp → Z → option timestamp;
  sha256 : list Byte.byte → list Byte.byte;
}.

(** serde, externally tagged and in snake case. *)
Definition credential_type_value (t : CredentialType) : json :=
  match t with
  | Passport => JStr "passport"
  | DriversLicence => JStr "drivers_licence"
  | Certificate => JStr "certificate"
  | IdentityCard => JStr "identity_card"
  | Custom name => JObj [("custom", JStr name)]
  end.

Definition unit_variant (s : string) : option CredentialType :=
  if bool_decide (s = "passport") then Some Passport
  else if bool_decide (s = "drivers_licence") then Some DriversLicence
  else if bool_decide (s = "certificate") then Some Certificate
  else if bool_decide (s = "identity_card") then Some IdentityCard
  else None.

Definition credential_type_of_value (v : json) : option CredentialType :=
  match v with
  | JStr s => unit_variant s
  | JObj [(k, JStr name)] => if bool_decide (k = "custom") then Some (Custom name) else None
  | JObj [(k, JNull)] => unit_variant k
  | _ => None
  end.

(** A [Vec<String>] as serde reads it. *)
Definition strings_of_value (v : json) : option (list string) := as_array v ≫= mapM as_str.

Section Store.
Context `{JsonText} `{CryptoLib} `{HmacHex} `{Chrono} `{IdentityLib}.

Definition new (credentials : gmap string RawCredentialRow) (audit_log : gmap string RawAuditRow)
    (identity_secret : string) : IdentityStore :=
  mkIdentity credentials audit_log (derive_domain_key identity_secret DOMAIN_IDENTITY_ENCRYPT)
    (derive_domain_key identity_secret DOMAIN_IDENTITY_SIGN).

Definition encrypt_claims (nonce : list Byte.byte) (claims : json) (s : IdentityStore) :
    result string identity_error :=
  let? plaintext := result_map_err Failed (json_to_vec claims) in
  match domain_encrypt nonce plaintext (id_encryption_key s) with
  | Ok encrypted => Ok (base64_encode encrypted)
  | Err _ => Err (Failed "failed to encrypt claims")
  end.

Definition decrypt_claims (encrypted : string) (s : IdentityStore) : result json identity_error :=
  match base64_decode encrypted with
  | Err _ => Err (Failed "failed to decode base64 claims")
  | Ok decoded =>
      match domain_decrypt decoded (id_encryption_key s) with
      | Err _ => Err (Failed "failed to decrypt claims")
      | Ok decrypted => result_map_err (λ _, Failed "failed to parse decrypted claims") (json_from_slice decrypted)
      end
  end.

(** [DateTime::parse_from_rfc3339(..)?]. *)
Definition read_date (text : string) : result timestamp identity_error :=
  match parse_from_rfc3339 text with
  | Some t => Ok t
  | None => Err (Failed "invalid RFC 3339 date")
  end.

Definition read_optional_date (text : option string) : result (option timestamp) identity_error :=
  match text with
  | Some d => let? t := read_date d in Ok (Some t)
  | None => Ok None
  end.

Definition read_type (text : string) : CredentialType :=
  match json_from_str text with
  | Ok v => default (Custom "unknown") (credential_type_of_value v)
  | Err _ => Custom "unknown"
  end.

Definition row_to_credential (row : RawCredentialRow) (s : IdentityStore) :
    result IdentityCredential identity_error :=
  let? issued := read_date (rc_issued_date row) in
  let? expiry := read_optional_date (rc_expiry_date row) in
  let? claims := decrypt_claims (rc_encrypted_claims row) s in
  let? created := read_date (rc_created_at row) in
  let? updated := read_date (rc_updated_at row) in
  Ok (mkCredential (rc_id row) (read_type (rc_credential_type row)) (rc_issuer row) issued expiry claims
        created updated).

Definition set_credentials (rows : gmap string RawCredentialRow) (s : IdentityStore) : IdentityStore :=
  mkIdentity rows (id_audit_log s) (id_encryption_key s) (id_signing_key s).

Definition set_audit_log (rows : gmap string RawAuditRow) (s : IdentityStore) : IdentityStore :=
  mkIdentity (id_credentials s) rows (id_encryption_key s) (id_signing_key s).

(** The columns of a credential with its claims encrypted. *)
Definition columns (c : IdentityCredential) (encrypted_claims : string) : RawCredentialRow :=
  mkRow (ic_id c) (json_to_string (credential_type_value (ic_credential_type c))) (ic_issuer c)
    (to_rfc3339 (ic_issued_date c)) (to_rfc3339 <$> ic_expiry_date c) encrypted_claims
    (to_rfc3339 (ic_created_at c)) (to_rfc3339 (ic_updated_at c)).

Definition create (nonce : list Byte.byte) (fault : option string) (c : IdentityCredential)
    (s : IdentityStore) : result unit identity_error * IdentityStore :=
  match encrypt_claims nonce (ic_claims c) s with
  | Err e => (Err e, s)
  | Ok encrypted =>
      if bool_decide (is_Some fault) || bool_decide (is_Some (id_credentials s !! ic_id c)) then
        (Err (Failed "failed to create identity credential"), s)
      else (Ok tt, set_credentials (<[ic_id c := columns c encrypted]> (id_credentials s)) s)
  end.

Definition get (fault : option string) (id : string) (s : IdentityStore) :
    result (option IdentityCredential) identity_error :=
  match fault with
  | Some m => Err (Failed m)
  | None =>
      match id_credentials s !! id with
      | Some row => let? c := row_to_credential row s in Ok (Some c)
      | None => Ok None
      end
  end.

Definition row_to_metadata (row : RawCredentialRow) : result CredentialMetadata identity_error :=
  let? issued := read_date (rc_issued_date row) in
  let? expiry := read_optional_date (rc_expiry_date row) in
  let? created := read_date (rc_created_at row) in
  let? updated := read_date (rc_updated_at row) in
  Ok (mkMetadata (rc_id row) (read_type (rc_credential_type row)) (rc_issuer row) issued expiry created
        updated).

(** [order] is the database's [ORDER BY created_at DESC]. *)
Definition list_all (order : list RawCredentialRow → list RawCredentialRow) (fault : option string)
    (s : IdentityStore) : result (list CredentialMetadata) identity_error :=
  match fault with
  | Some m => Err (Failed m)
  | None => try_map row_to_metadata (order (snd <$> map_to_list (id_credentials s)))
  end.

(** The columns an update sets; [created_at] stays. *)
Definition updated_row (old : RawCredentialRow) (c : IdentityCredential) (encrypted : string) :
    RawCredentialRow :=
  mkRow (rc_id old) (json_to_string (credential_type_value (ic_credential_type c))) (ic_issuer c)
    (to_rfc3339 (ic_issued_date c)) (to_rfc3339 <$> ic_expiry_date c) encrypted (rc_created_at old)
    (to_rfc3339 (ic_updated_at c)).

Definition update (nonce : list Byte.byte) (fault : option string) (c : IdentityCredential)
    (s : IdentityStore) : result bool identity_error * IdentityStore :=
  match encrypt_claims nonce (ic_claims c) s with
  | Err e => (Err e, s)
  | Ok encrypted =>
      match fault with
      | Some m => (Err (Failed m), s)
      | None =>
          match id_credentials s !! ic_id c with
          | Some old =>
              (Ok true, set_credentials (<[ic_id c := updated_row old c encrypted]> (id_credentials s)) s)
          | None => (Ok false, s)
          end
      end
  end.

Definition delete_credential (fault : option string) (id : string) (s : IdentityStore) :
    result bool identity_error * IdentityStore :=
  match fault with
  | Some m => (Err (Failed m), s)
  | None =>
      (Ok (bool_decide (is_Some (id_credentials s !! id))), set_credentials (delete id (id_credentials s)) s)
  end.

(** *** Selective disclosure *)

(** The named claims that the credential has. *)
Definition select_claims (claims : json) (claim_names : list string) : gmap string json :=
  match claims with
  | JObj map =>
      foldl (λ m name, match obj_get name map with Some v => <[name := v]> m | None => m end) ∅ claim_names
  | _ => ∅
  end.

(** The sorted map, as an object. *)
Definition sorted_claims (m : gmap string json) : json := mk_obj (map_to_list m).

Definition payload (credential_id : string) (claims : gmap string json) (expires_at : timestamp)
    (token_id : string) (issued_at : timestamp) : json :=
  mk_obj [("credential_id", JStr credential_id); ("disclosed_claims", sorted_claims claims);
          ("expires_at", JStr (to_rfc3339 expires_at)); ("id", JStr token_id);
          ("issued_at", JStr (to_rfc3339 issued_at))].

Definition token_payload (t : DisclosureToken) : json :=
  payload (dt_credential_id t) (dt_disclosed_claims t) (dt_expires_at t) (dt_id t) (dt_issued_at t).

Definition sign (data : list Byte.byte) (s : IdentityStore) : string := domain_hmac (id_signing_key s) data.

(** The ids and the clock of a disclosure. *)
Record DiscloseDraw : Type := mkDraw {
  dd_now : timestamp;
  dd_token_id : string;
  dd_entry_id : string;
  dd_log_time : timestamp;
}.

Definition record_disclosure (fault : option string) (d : DiscloseDraw) (credential_id : string)
    (claim_names : list string) (recipient : string) (s : IdentityStore) :
    result unit identity_error * IdentityStore :=
  let row := mkAuditRow (dd_entry_id d) credential_id (json_to_string (JArr (JStr <$> claim_names))) recipient
               (to_rfc3339 (dd_log_time d)) (dd_token_id d) in
  if bool_decide (is_Some fault) || bool_decide (is_Some (id_audit_log s !! dd_entry_id d)) then
    (Err (Failed "failed to record disclosure audit entry"), s)
  else (Ok tt, set_audit_log (<[dd_entry_id d := row]> (id_audit_log s)) s).

(** The token, before it is recorded. *)
Definition mint (d : DiscloseDraw) (credential_id : string) (claims : gmap string json) (ttl : Z)
    (s : IdentityStore) : result DisclosureToken identity_error :=
  match checked_add (dd_now d) ttl with
  | None => Err Panic
  | Some expires_at =>
      let? payload_bytes := result_map_err Failed
        (json_to_vec (payload credential_id claims expires_at (dd_token_id d) (dd_now d))) in
      Ok (mkToken (dd_token_id d) credential_id claims (dd_now d) expires_at (sign payload_bytes s))
  end.

Definition disclose (get_fault log_fault : option string) (d : DiscloseDraw) (credential_id : string)
    (claim_names : list string) (recipient : string) (ttl : Z) (s : IdentityStore) :
    result DisclosureToken identity_error * IdentityStore :=
  match get get_fault credential_id s with
  | Err e => (Err e, s)
  | Ok None => (Err (Failed "credential not found"), s)
  | Ok (Some credential) =>
      match mint d credential_id (select_claims (ic_claims credential) claim_names) ttl s with
      | Err e => (Err e, s)
      | Ok token =>
          match record_disclosure log_fault d credential_id claim_names recipient s with
          | (Err e, s') => (Err e, s')
          | (Ok _, s') => (Ok token, s')
          end
      end
  end.

Definition verify_token (now : timestamp) (token : DisclosureToken) (s : IdentityStore) :
    result bool identity_error :=
  let? payload_bytes := result_map_err Failed (json_to_vec (token_payload token)) in
  if negb (domain_hmac_verify (id_signing_key s) payload_bytes (dt_signature token)) then Ok false
  else Ok (negb (dt_expires_at token <? now)%Z).

Definition row_to_entry (row : RawAuditRow) : result DisclosureAuditEntry identity_error :=
  let? v := result_map_err Failed (json_from_str (ra_disclosed_claims row)) in
  match strings_of_value v with
  | None => Err (Failed "invalid type: expected a sequence of strings")
  | Some claims =>
      let? at_ := read_date (ra_timestamp row) in
      Ok (mkEntry (ra_id row) (ra_credential_id row) claims (ra_recipient row) at_ (ra_token_id row))
  end.

(** [order] is the database's [ORDER BY timestamp DESC]. *)
Definition get_audit_log (order : list RawAuditRow → list RawAuditRow) (fault : option string)
    (credential_id : string) (s : IdentityStore) : result (list DisclosureAuditEntry) identity_error :=
  match fault with
  | Some m => Err (Failed m)
  | None =>
      try_map row_to_entry
        (order (filter (λ r, ra_credential_id r = credential_id) (snd <$> map_to_list (id_audit_log s))))
  end.

(** *** Verifiable credentials *)

Record VerifiableCredential : Type := mkVc {
  vc_context : list string;
  vc_type : list string;
  vc_id : string;
  vc_issuer : string;
  vc_issuance_date : string;
  vc_expiration_date : option string;
  vc_subject_id : string;
  vc_subject_claims : gmap string json;
}.

Definition credential_type_to_vc_type (ct : CredentialType) : string :=
  match ct with
  | Passport => "PassportCredential"
  | DriversLicence => "DriversLicenceCredential"
  | Certificate => "CertificateCredential"
  | IdentityCard => "IdentityCardCredential"
  | Custom name => name +:+ "Credential"
  end.

Definition all_claims (claims : json) : gmap string json :=
  match claims with
  | JObj map => list_to_map map
  | _ => ∅
  end.

Definition to_verifiable_credential (c : IdentityCredential) (subject_did : string) : VerifiableCredential :=
  mkVc ["https://www.w3.org/ns/credentials/v2"; "https://www.w3.org/ns/credentials/examples/v2"]
    ["VerifiableCredential"; credential_type_to_vc_type (ic_credential_type c)]
    ("urn:uuid:" +:+ ic_id c) (ic_issuer c) (to_rfc3339 (ic_issued_date c))
    (to_rfc3339 <$> ic_expiry_date c) subject_did (all_claims (ic_claims c)).

Definition generate_did (s : IdentityStore) : string :=
  "did:key:z" +:+ hex_encode (take 16 (sha256 (id_signing_key s))).

(** *** Routes *)

Record CreateCredentialRequest : Type := mkCreate {
  cr_credential_type : string;
  cr_issuer : string;
  cr_issued_date : string;
  cr_expiry_date : option string;
  cr_claims : json;
}.

Record DiscloseRequest : Type := mkDisclose {
  dr_claim_names : list string;
  dr_recipient : string;
  dr_ttl_hours : option Z;
}.

Definition parse_credential_type (s : string) : option CredentialType :=
  match unit_variant s with
  | Some t => Some t
  | None => if is_empty s then None else Some (Custom s)
  end.

Definition unavailable {A} : response A := Refuse 503 "SYSTEM_INTERNAL_ERROR".

Definition on_error {A} (e : identity_error) : response A :=
  match e with
  | Failed _ => Refuse 500 "SYSTEM_INTERNAL_ERROR"
  | Panic => Crash
  end.

(** The credential of a request, or the field that is wrong. *)
Definition read_request (id : string) (now : timestamp) (body : CreateCredentialRequest) :
    option IdentityCredential :=
  t ← parse_credential_type (cr_credential_type body);
  issued ← parse_from_rfc3339 (cr_issued_date body);
  expiry ← match cr_expiry_date body with
           | Some d => Some <$> parse_from_rfc3339 d
           | None => Some None
           end;
  Some (mkCredential id t (cr_issuer body) issued expiry (cr_claims body) now now).

Definition create_identity_credential (nonce : list Byte.byte) (fault : option string) (id : string)
    (now : timestamp) (body : CreateCredentialRequest) (store : option IdentityStore) :
    response string * option IdentityStore :=
  match store with
  | None => (unavailable, None)
  | Some s =>
      match read_request id now body with
      | None => (Refuse 400 "DATA_VALIDATION_FAILED", Some s)
      | Some c =>
          match create nonce fault c s with
          | (Ok _, s') => (Answer 201 (ic_id c), Some s')
          | (Err e, s') => (on_error e, Some s')
          end
      end
  end.

Definition list_identity_credentials (order : list RawCredentialRow → list RawCredentialRow)
    (fault : option string) (store : option IdentityStore) : response (list CredentialMetadata) :=
  match store with
  | None => unavailable
  | Some s =>
      match list_all order fault s with
      | Ok credentials => Answer 200 credentials
      | Err e => on_error e
      end
  end.

Definition get_identity_credential (fault : option string) (id : string) (store : option IdentityStore) :
    response IdentityCredential :=
  match store with
  | None => unavailable
  | Some s =>
      match get fault id s with
      | Ok (Some c) => Answer 200 c
      | Ok None => Refuse 404 "CREDENTIAL_NOT_FOUND"
      | Err e => on_error e
      end
  end.

Definition delete_identity_credential (fault : option string) (id : string)
    (store : option IdentityStore) : response unit * option IdentityStore :=
  match store with
  | None => (unavailable, None)
  | Some s =>
      match delete_credential fault id s with
      | (Ok true, s') => (Answer 204 tt, Some s')
      | (Ok false, s') => (Refuse 404 "CREDENTIAL_NOT_FOUND", Some s')
      | (Err e, s') => (on_error e, Some s')
      end
  end.

(** [Duration::hours] panics beyond [i64::MAX] milliseconds. *)
Definition HOUR : Z := 3600 * 1000000000.
Definition MAX_HOURS : Z := (2 ^ 63 - 1) / 3600000.

Definition disclose_credential (get_fault log_fault : option string) (d : DiscloseDraw) (id : string)
    (body : DiscloseRequest) (store : option IdentityStore) :
    response DisclosureToken * option IdentityStore :=
  match store with
  | None => (unavailable, None)
  | Some s =>
      let ttl_hours := default 24%Z (dr_ttl_hours body) in
      if (ttl_hours <=? 0)%Z then (Refuse 400 "INVALID_REQUEST", Some s)
      else if (MAX_HOURS <? ttl_hours)%Z then (Crash, Some s)
      else
        match disclose get_fault log_fault d id (dr_claim_names body) (dr_recipient body)
                (ttl_hours * HOUR) s with
        | (Ok token, s') => (Answer 201 token, Some s')
        | (Err Panic, s') => (Crash, Some s')
        | (Err (Failed msg), s') =>
            (if contains_str msg "not found" then Refuse 404 "CREDENTIAL_NOT_FOUND"
             else Refuse 500 "SYSTEM_INTERNAL_ERROR", Some s')
        end
  end.

Definition get_disclosure_audit (order : list RawAuditRow → list RawAuditRow) (fault : option string)
    (id : string) (store : option IdentityStore) : response (list DisclosureAuditEntry) :=
  match store with
  | None => unavailable
  | Some s =>
      match get_audit_log order fault id s with
      | Ok entries => Answer 200 entries
      | Err e => on_error e
      end
  end.

Definition get_did (store : option IdentityStore) : response string :=
  match store with
  | None => unavailable
  | Some s => Answer 200 (generate_did s)
  end.

Definition export_verifiable_credential (fault : option string) (id : string)
    (store : option IdentityStore) : response VerifiableCredential :=
  match store with
  | None => unavailable
  | Some s =>
      match get fault id s with
      | Ok (Some c) => Answer 200 (to_verifiable_credential c (generate_did s))
      | Ok None => Refuse 404 "CREDENTIAL_NOT_FOUND"
      | Err e => on_error e
      end
  end.
End Store.
End Identity.

(** ** The plugin store as a map *)

Module VaultSpec.
Import PluginCredentials.

Inductive op : Type :=
| OStore (nonce : list Byte.byte) (fault : option string) (plugin_id key value : string)
| ORetrieve (fault : option string) (plugin_id key : string)
| ODelete (fault : option string) (plugin_id key : string)
| ODeleteAll (fault : option string) (plugin_id : string)
| OList (d : ListDraw) (plugin_id : string).

Inductive answer : Type :=
| AUnit (r : result unit store_error)
| AValue (r : result (option string) store_error)
| ABool (r : result bool store_error)
| ACount (r : result nat store_error)
| AKeys (r : result (list string) store_error).

Definition step `{CryptoLib} (o : op) (s : SqliteCredentialStore) : answer * SqliteCredentialStore :=
  match o with
  | OStore n f p k v => let '(r, s') := store n f p k v s in (AUnit r, s')
  | ORetrieve f p k => (AValue (retrieve f p k s), s)
  | ODelete f p k => let '(r, s') := delete_key f p k s in (ABool r, s')
  | ODeleteAll f p => let '(r, s') := delete_all_for_plugin f p s in (ACount r, s')
  | OList d p => (AKeys (list_keys d p s), s)
  end.

Fixpoint run `{CryptoLib} (os : list op) (s : SqliteCredentialStore) : list answer * SqliteCredentialStore :=
  match os with
  | [] => ([], s)
  | o :: os' => let '(a, s1) := step o s in let '(rest, s2) := run os' s1 in (a :: rest, s2)
  end.

(** The values, in clear. *)
Abbreviation secrets := (gmap (string * string) string).

(** A failing statement changes nothing. *)
Definition or_fail {A} (f : option string) (context : string) (ok : A * secrets) (m : secrets) :
    result A store_error * secrets :=
  match f with
  | Some _ => (Err (Failed context), m)
  | None => (Ok (fst ok), snd ok)
  end.

(** The keys of a plugin, sorted; those of them whose rows are read before the database fails. *)
Definition keys_of (p : string) (m : secrets) : list string :=
  merge_sort String.le ((λ r, r.1.2) <$> map_to_list (rows_of p m)).

Definition readable_keys (rows : nat → key_row) (keys : list string) : list string :=
  snd <$> filter (λ ik : nat * string, rows ik.1 = KeyRead ∧ Forall (λ j, rows j ≠ StepFailed) (seq 0 ik.1))
            (zip (seq 0 (length keys)) keys).

Definition spec_step (o : op) (m : secrets) : answer * secrets :=
  match o with
  | OStore _ f p k v =>
      let '(r, m') := or_fail f "failed to store credential" (tt, <[(p, k) := v]> m) m in (AUnit r, m')
  | ORetrieve f p k =>
      (AValue (fst (or_fail f "failed to query credential" (m !! (p, k), m) m)), m)
  | ODelete f p k =>
      let '(r, m') := or_fail f "failed to delete credential"
                        (bool_decide (is_Some (m !! (p, k))), delete (p, k) m) m in (ABool r, m')
  | ODeleteAll f p =>
      let '(r, m') := or_fail f "failed to delete credentials for plugin"
                        (size (rows_of p m), filter (λ r, r.1.1 ≠ p) m) m in (ACount r, m')
  | OList d p =>
      (AKeys
         match li_prepare d, li_query d with
         | Some _, _ => Err (Failed "failed to prepare key listing query")
         | None, Some _ => Err (Failed "failed to list credential keys")
         | None, None => Ok (readable_keys (li_rows d) (keys_of p m))
         end, m)
  end.

Fixpoint spec_run (os : list op) (m : secrets) : list answer * secrets :=
  match os with
  | [] => ([], m)
  | o :: os' => let '(a, m1) := spec_step o m in let '(rest, m2) := spec_run os' m1 in (a :: rest, m2)
  end.

(** Rust strings are UTF-8, nonces twelve bytes. *)
Definition op_ok (o : op) : Prop :=
  match o with
  | OStore n _ _ _ v => length n = NONCE_SIZE ∧ valid_utf8 v = true
  | _ => True
  end.

Section Refine.
Context `{HC : CryptoLib, !CryptoLaws}.

(** Every row opens to the value of the map. *)
Definition holds (m : secrets) (s : SqliteCredentialStore) : Prop :=
  ∀ pk, option_Forall2 (λ v c, decrypt c s = Ok v) (m !! pk) (cs_rows s !! pk).

Lemma decrypt_set_rows c rows s : decrypt c (set_rows rows s) = decrypt c s.
Proof. reflexivity. Qed.

Lemma string_of_bytes v : string_of (bytes_of v) = v.
Proof. apply String.string_of_list_byte_of_string. Qed.

Lemma decrypt_of_encrypt nonce v s c :
  length nonce = NONCE_SIZE → valid_utf8 v = true → encrypt nonce v s = Ok c → decrypt c s = Ok v.
Proof.
  intros Hn Hv. unfold encrypt, decrypt, domain_encrypt, domain_decrypt.
  case_bool_decide; [|done]. destruct (Crypto.encrypt _ _ _) as [e|] eqn:E; [|done]. intros [= <-].
  rewrite base64_correct.
  rewrite (decrypt_encrypt _ _ _ _ Hn E), string_of_bytes, Hv. done.
Qed.

Lemma holds_dom m s pk : holds m s → is_Some (m !! pk) ↔ is_Some (cs_rows s !! pk).
Proof. intros Hm. destruct (Hm pk); split; intros []; naive_solver. Qed.

Lemma vault_holds_filter m s (P : string * string → Prop) `{∀ r : string * string * string, Decision (P r.1)} :
  holds m s →
  holds (filter (λ r, P r.1) m) (set_rows (filter (λ r, P r.1) (cs_rows s)) s).
Proof.
  intros H1 pk. cbn [cs_rows set_rows]. specialize (H1 pk). rewrite !map_lookup_filter.
  destruct H1 as [v c E|]; [|constructor]. simpl. by repeat case_guard; simpl in *; try constructor.
Qed.

Lemma holds_entries m s pk : holds m s → (∃ v, (pk, v) ∈ map_to_list m) ↔ ∃ c, (pk, c) ∈ map_to_list (cs_rows s).
Proof.
  intros H1. setoid_rewrite elem_of_map_to_list. destruct (H1 pk); naive_solver.
Qed.

(** Both maps have the same keys. *)
Lemma holds_keys m s : holds m s → fst <$> map_to_list m ≡ₚ fst <$> map_to_list (cs_rows s).
Proof.
  intros H1. apply NoDup_Permutation; [apply NoDup_fst_map_to_list..|]. intros pk.
  pose proof (holds_entries m s pk H1) as He.
  rewrite !list_elem_of_fmap. split; intros ([k x] & Hk & Hx); simpl in Hk; subst k.
  - destruct (proj1 He (ex_intro _ x Hx)) as [c Hc]. by exists (pk, c).
  - destruct (proj2 He (ex_intro _ x Hx)) as [c Hc]. by exists (pk, c).
Qed.

Lemma holds_size m s : holds m s → size m = size (cs_rows s).
Proof.
  intros H1%holds_keys%Permutation_length. rewrite !length_fmap, !length_map_to_list in H1. done.
Qed.

Lemma holds_listed m s :
  holds m s →
  merge_sort String.le ((λ r, r.1.2) <$> map_to_list m)
  = merge_sort String.le ((λ r, r.1.2) <$> map_to_list (cs_rows s)).
Proof.
  intros H1%holds_keys. apply (Sorted_unique String.le); [apply Sorted_merge_sort; apply _..|].
  rewrite !merge_sort_Permutation. apply (fmap_Permutation snd) in H1.
  by rewrite <- !list_fmap_compose in H1.
Qed.

Lemma collect_keys_ext rows rows' keys :
  (∀ i, rows i = rows' i) → collect_keys rows keys = collect_keys rows' keys.
Proof.
  revert rows rows'. induction keys as [|k keys IH]; intros rows rows' He; [done|]. simpl. rewrite He.
  destruct (rows' 0); [f_equal|..]; by auto.
Qed.

(** After a failing step nothing is read. *)
Lemma readable_keys_end rows n (keys : list string) m :
  rows n = StepFailed → n < m →
  filter (λ ik : nat * string, rows ik.1 = KeyRead ∧ Forall (λ j, rows j ≠ StepFailed) (seq 0 ik.1))
    (zip (seq m (length keys)) keys) = [].
Proof.
  intros Hn. revert m. induction keys as [|k keys IH]; intros m Hm; [done|].
  cbn [length seq zip zip_with]. rewrite filter_cons, decide_False; [by apply IH; lia|].
  cbn [fst]. intros [_ Hf]. rewrite Forall_forall in Hf. apply (Hf n); [|done]. apply elem_of_seq. lia.
Qed.

Lemma collect_readable rows keys : collect_keys rows keys = readable_keys rows keys.
Proof.
  unfold readable_keys.
  assert (∀ (keys : list string) n, Forall (λ j, rows j ≠ StepFailed) (seq 0 n) →
    collect_keys (λ i, rows (n + i)) keys =
    snd <$> filter (λ ik : nat * string, rows ik.1 = KeyRead ∧ Forall (λ j, rows j ≠ StepFailed) (seq 0 ik.1))
              (zip (seq n (length keys)) keys)) as Hn; [|by apply (Hn keys 0), Forall_nil].
  clear keys. induction keys as [|k keys IH]; intros n Hn; [done|]. cbn [length seq zip zip_with collect_keys].
  rewrite Nat.add_0_r, filter_cons. cbn [fst].
  assert (rows n ≠ StepFailed → Forall (λ j, rows j ≠ StepFailed) (seq 0 (S n))) as HS.
  { intros Hne. rewrite seq_S, Forall_app. by rewrite Forall_singleton. }
  rewrite (collect_keys_ext (λ i, rows (n + S i)) (λ i, rows (S n + i))) by (intros; f_equal; lia).
  destruct (rows n) eqn:E.
  - rewrite decide_True by done. rewrite fmap_cons. cbn [snd]. f_equal. by apply (IH (S n)), HS.
  - rewrite decide_False by (by intros [? _]). by apply (IH (S n)), HS.
  - rewrite decide_False by (by intros [? _]). by rewrite (readable_keys_end _ n) by (done || lia).
Qed.

Lemma step_refines o m s a s' :
  op_ok o → holds m s → step o s = (a, s') → a ≠ AUnit (Err Panic) →
  ∃ m', spec_step o m = (a, m') ∧ holds m' s'.
Proof.
  intros Ho Hm. destruct o as [n f p k v|f p k|f p k|f p|d p]; simpl.
  - unfold store. destruct (encrypt n v s) as [c|[]] eqn:E; [| |by intros [= <- <-]].
    + destruct f; simpl; intros [= <- <-] _; eexists; (split; [done|]); [done|].
      intros pk. cbn [cs_rows set_rows]. destruct (decide (pk = (p, k))) as [->|Hne].
      * rewrite !lookup_insert_eq. constructor. destruct Ho. by eapply decrypt_of_encrypt.
      * rewrite !lookup_insert_ne by done. apply Hm.
    + exfalso. revert E. unfold encrypt. by destruct (domain_encrypt _ _ _).
  - unfold retrieve. destruct f; simpl; intros [= <- <-] _; exists m; (split; [|done]); [done|].
    destruct (Hm (p, k)) as [v c E|]; [|done]. by rewrite E.
  - unfold delete_key. destruct f; simpl; intros [= <- <-] _; eexists.
    + by split.
    + split; [by rewrite (bool_decide_ext _ _ (holds_dom m s (p, k) Hm))|].
      intros pk. cbn [cs_rows set_rows]. destruct (decide (pk = (p, k))) as [->|Hne].
      * rewrite !lookup_delete_eq. constructor.
      * rewrite !lookup_delete_ne by done. apply Hm.
  - unfold delete_all_for_plugin. destruct f; simpl; intros [= <- <-] _;
      [by eexists|exists (filter (λ r, r.1.1 ≠ p) m)].
    pose proof (vault_holds_filter m s (λ pk, pk.1 = p) Hm) as Hp. split; [|by apply (vault_holds_filter m s (λ pk, pk.1 ≠ p))].
    unfold rows_of. by rewrite (holds_size _ _ Hp).
  - unfold list_keys. destruct (li_prepare d); [|destruct (li_query d)]; simpl; intros [= <- <-] _; exists m;
      (split; [|done]); [done..|].
    pose proof (vault_holds_filter m s (λ pk, pk.1 = p) Hm) as Hp.
    unfold keys_of, rows_of. by rewrite collect_readable, (holds_listed _ _ Hp).
Qed.

Lemma vault_run_refines os m s answers s' :
  Forall op_ok os → holds m s → run os s = (answers, s') → AUnit (Err Panic) ∉ answers →
  ∃ m', spec_run os m = (answers, m') ∧ holds m' s'.
Proof.
  revert m s answers s'. induction os as [|o os IH]; intros m s answers s' Hos Hm; simpl.
  { intros [= <- <-] _. by exists m. }
  inversion_clear Hos as [|? ? Ho Hos']. destruct (step o s) as [a s1] eqn:E1.
  destruct (run os s1) as [rest s2] eqn:E2. intros [= <- <-] [Ha Hr]%not_elem_of_cons.
  destruct (step_refines o m s a s1 Ho Hm E1) as (m1 & -> & Hm1); [congruence|].
  destruct (IH m1 s1 rest s2 Hos' Hm1 E2 Hr) as (m2 & -> & Hm2). by exists m2.
Qed.
End Refine.
End VaultSpec.
Import VaultSpec.

(** C22. From an empty database, whatever is stored, retrieved, deleted and listed by whichever plugins
    and whichever statements fail, the credential store answers as a map from plugin and key to
    value, and its rows open to the values of that map; encryption that panics is excluded. A
    listing answers the sorted keys of the plugin whose rows are read: it leaves out rows that
    cannot be read, and those after a failure of the database while it is under way. *)
Theorem credential_store_refines_map `{HC : CryptoLib, !CryptoLaws} secret os answers s' :
  Forall op_ok os → run os (PluginCredentials.new ∅ secret) = (answers, s') →
  AUnit (Err PluginCredentials.Panic) ∉ answers →
  ∃ m, spec_run os ∅ = (answers, m) ∧ holds m s'.
Proof.
  intros Hos. apply (vault_run_refines os ∅ _ _ _ Hos). intros pk. cbn. rewrite !lookup_empty. constructor.
Qed.

(** A run; the toy key derivation gives the secret, of 32 bytes. *)
Definition vault_ops : list op :=
  [OStore (replicate 12 Byte.x00) None "mail" "imap" "secret";
   OStore (replicate 12 Byte.x01) None "mail" "smtp" "other";
   OStore (replicate 12 Byte.x02) (Some "disk full") "cal" "dav" "x";
   ORetrieve None "cal" "imap"; ORetrieve None "mail" "imap"; OList (PluginCredentials.mkListDraw None None (λ _, PluginCredentials.KeyRead)) "mail";
   OList (PluginCredentials.mkListDraw None None (λ i, if bool_decide (i = 0) then PluginCredentials.KeyUnreadable else PluginCredentials.KeyRead)) "mail"; ODeleteAll None "cal";
   ODelete None "mail" "imap"; ORetrieve None "mail" "imap"].

Definition vault_answers : list answer :=
  [AUnit (Ok tt); AUnit (Ok tt); AUnit (Err (PluginCredentials.Failed "failed to store credential"));
   AValue (Ok None); AValue (Ok (Some "secret")); AKeys (Ok ["imap"; "smtp"]); AKeys (Ok ["smtp"]); ACount (Ok 0);
   ABool (Ok true); AValue (Ok None)].

Definition vault_secret : string := "0123456789abcdef0123456789abcdef".

Lemma credential_store_refines_map_witness :
  ∃ m, spec_run vault_ops ∅ = (vault_answers, m) ∧
       holds m (snd (run vault_ops (PluginCredentials.new ∅ vault_secret))).
Proof.
  apply (credential_store_refines_map vault_secret vault_ops).
  - repeat constructor.
  - vm_compute. reflexivity.
  - apply not_elem_of_nil || (repeat (apply not_elem_of_cons; split; [discriminate|]); apply not_elem_of_nil).
Defined.
