(* ===== verification/IdentityFacts.v ===== *)
(** * Properties of the identity store

    Credentials are read back as they were stored, every disclosure is in the audit log, and
    a token is accepted exactly while it has not expired and carries the tag of its content. *)

From stdpp Require Import base tactics list gmap sets strings.
From Stdlib Require Import ZArith Lia Sorting.Sorted.
From S2P Require Import Prelude RustString RustText Json Types Crypto SqliteBackend Sessions SessionsFacts ApiKeys ApiKeysFacts Conflict Search Vault SqliteBackendFacts.
Import Identity.

Local Open Scope string_scope.
Local Open Scope list_scope.

(** ** Values *)

Lemma type_of_value_of_type t : credential_type_of_value (credential_type_value t) = Some t.
Proof. by destruct t. Qed.

Lemma type_value_printable `{JsonText} t : json_printable (credential_type_value t).
Proof. destruct t; hnf; by repeat constructor. Qed.

Section MapObject.
Implicit Types (m : gmap string json) (kvs : list (string * json)).

Lemma obj_get_fold kvs o k :
  NoDup (fst <$> kvs) →
  obj_get k (foldl (λ o kv, obj_insert kv.1 kv.2 o) o kvs)
  = match list_to_map (M := gmap string json) kvs !! k with Some v => Some v | None => obj_get k o end.
Proof.
  revert o. induction kvs as [|[k' v] kvs IH]; intros o; [done|].
  simpl. intros [Hn Hd]%NoDup_cons. rewrite IH by done.
  destruct (decide (k = k')) as [->|Hne].
  - rewrite lookup_insert_eq, not_elem_of_list_to_map_1, obj_get_insert_eq; done.
  - rewrite lookup_insert_ne, obj_get_insert_ne; done.
Qed.

Lemma sorted_claims_get m k : json_get (sorted_claims m) k = m !! k.
Proof.
  unfold sorted_claims, mk_obj. rewrite json_get_obj, obj_get_fold by apply NoDup_fst_map_to_list.
  rewrite list_to_map_to_list. by destruct (m !! k).
Qed.

Lemma sorted_claims_inj m m' : sorted_claims m = sorted_claims m' → m = m'.
Proof. intros E. apply map_eq. intros k. by rewrite <- !sorted_claims_get, E. Qed.

Lemma sorted_claims_within `{JsonText} n m :
  (∀ k v, m !! k = Some v → json_within n v) → json_within (S n) (sorted_claims m).
Proof. intros Hm. apply within_mk_obj. intros k v Hkv%elem_of_map_to_list. eauto. Qed.
End MapObject.

(** ** Selection *)

Lemma select_claims_lookup claims names k :
  select_claims claims names !! k = if bool_decide (k ∈ names) then json_get claims k else None.
Proof.
  destruct claims as [| | | | |o]; try (simpl; rewrite lookup_empty; by case_bool_decide).
  rewrite json_get_obj. unfold select_claims.
  assert (∀ m, foldl (λ m name, match obj_get name o with Some v => <[name := v]> m | None => m end) m names !! k
    = if bool_decide (k ∈ names) then match obj_get k o with Some v => Some v | None => m !! k end else m !! k)
    as ->.
  { induction names as [|n names IH]; intros m; [done|]. simpl. rewrite IH.
    destruct (decide (k = n)) as [->|Hne].
    - rewrite (bool_decide_eq_true_2 (n ∈ n :: names)) by constructor.
      destruct (obj_get n o); case_bool_decide; rewrite ?lookup_insert_eq; done.
    - rewrite (bool_decide_ext (k ∈ n :: names) (k ∈ names)) by set_solver.
      destruct (obj_get n o); rewrite ?lookup_insert_ne by done; done. }
  rewrite lookup_empty. case_bool_decide; [|done]. by destruct (obj_get k o).
Qed.

(** ** Reading back *)

(** What serde writes of a value, it reads back. *)
Definition serialises `{CryptoLib} (v : json) : Prop := ∀ b, json_to_vec v = Ok b → json_from_slice b = Ok v.

Section ReadBack.
Context `{HJ : JsonText, !JsonTextLaws} `{HC : CryptoLib, !CryptoLaws} `{HH : HmacHex, !HmacHexLaws}.
Context `{HCh : Chrono, !ChronoLaws} `{HI : IdentityLib}.

Lemma claims_read_back nonce claims s e :
  length nonce = NONCE_SIZE → serialises claims → encrypt_claims nonce claims s = Ok e →
  decrypt_claims e s = Ok claims.
Proof.
  intros Hn Hser. unfold encrypt_claims, decrypt_claims, domain_encrypt, domain_decrypt.
  destruct (json_to_vec claims) as [p|] eqn:Ep; simpl; [|done]. case_bool_decide; [|done].
  destruct (encrypt nonce _ p) as [c|] eqn:Ec; [|done]. intros [= <-].
  rewrite base64_correct, (decrypt_encrypt _ _ _ _ Hn Ec), (Hser _ Ep). done.
Qed.

Lemma read_type_text t : read_type (json_to_string (credential_type_value t)) = t.
Proof.
  unfold read_type. rewrite json_print_parse by apply type_value_printable.
  by rewrite type_of_value_of_type.
Qed.

Lemma read_date_text t : rfc3339_year t → read_date (to_rfc3339 t) = Ok t.
Proof. intros Ht. unfold read_date. by rewrite rfc3339_parse. Qed.

Lemma read_optional_date_text t : from_option rfc3339_year True t → read_optional_date (to_rfc3339 <$> t) = Ok t.
Proof. destruct t; [|done]. simpl. intros Ht. by rewrite read_date_text. Qed.

(** The dates of a credential that the texts of the table keep. *)
Definition dated (c : IdentityCredential) : Prop :=
  rfc3339_year (ic_issued_date c) ∧ from_option rfc3339_year True (ic_expiry_date c) ∧
  rfc3339_year (ic_created_at c) ∧ rfc3339_year (ic_updated_at c).

(** A row of the columns of [c], created at another time perhaps. *)
Lemma row_read_back c created e s :
  dated c → rfc3339_year created → decrypt_claims e s = Ok (ic_claims c) →
  row_to_credential
    (mkRow (ic_id c) (json_to_string (credential_type_value (ic_credential_type c))) (ic_issuer c)
       (to_rfc3339 (ic_issued_date c)) (to_rfc3339 <$> ic_expiry_date c) e (to_rfc3339 created)
       (to_rfc3339 (ic_updated_at c))) s
  = Ok (mkCredential (ic_id c) (ic_credential_type c) (ic_issuer c) (ic_issued_date c) (ic_expiry_date c)
          (ic_claims c) created (ic_updated_at c)).
Proof.
  intros (Hi & Hx & _ & Hu) Hcr Hc. unfold row_to_credential. cbn [rc_id rc_credential_type rc_issuer rc_issued_date rc_expiry_date
    rc_encrypted_claims rc_created_at rc_updated_at].
  rewrite !read_date_text, read_optional_date_text, read_type_text by done. simpl. by rewrite Hc.
Qed.

(** A credential read from the table under its id. *)
Definition stored (c : IdentityCredential) (s : IdentityStore) : Prop := get None (ic_id c) s = Ok (Some c).

Lemma create_stored nonce fault c s s' :
  length nonce = NONCE_SIZE → serialises (ic_claims c) → dated c → create nonce fault c s = (Ok tt, s') → stored c s'.
Proof.
  intros Hn Hs Hd. unfold create. destruct (encrypt_claims _ _ s) as [e|] eqn:E; [|done]. case_match; [done|].
  intros [= <-]. unfold stored, get. cbn [id_credentials set_credentials]. rewrite lookup_insert_eq.
  unfold columns. rewrite row_read_back by (done || apply Hd || by eapply claims_read_back). by destruct c.
Qed.

(** The row of a credential created at this time. *)
Definition created_row (id : string) (created : timestamp) (s : IdentityStore) : Prop :=
  ∃ row, id_credentials s !! id = Some row ∧ rc_id row = id ∧ rc_created_at row = to_rfc3339 created.

Lemma create_row nonce fault c s s' :
  create nonce fault c s = (Ok tt, s') → created_row (ic_id c) (ic_created_at c) s'.
Proof.
  unfold create. destruct (encrypt_claims _ _ s) as [e|]; [|done]. case_match; [done|]. intros [= <-].
  exists (columns c e). cbn. by rewrite lookup_insert_eq.
Qed.

Lemma update_stored nonce fault c s s' created :
  length nonce = NONCE_SIZE → serialises (ic_claims c) → dated c → rfc3339_year created →
  created_row (ic_id c) created s → update nonce fault c s = (Ok true, s') →
  stored (mkCredential (ic_id c) (ic_credential_type c) (ic_issuer c) (ic_issued_date c) (ic_expiry_date c)
            (ic_claims c) created (ic_updated_at c)) s'.
Proof.
  intros Hn Hs Hd Hy (row & Hrow & Hid & Hcr). unfold update.
  destruct (encrypt_claims _ _ s) as [e|] eqn:E; [|done]. destruct fault; [done|]. rewrite Hrow.
  intros [= <-]. unfold stored, get. cbn [id_credentials set_credentials ic_id]. rewrite lookup_insert_eq.
  unfold updated_row. rewrite Hid, Hcr, row_read_back by (done || by eapply claims_read_back). done.
Qed.

(** ** The audit log *)

(** A row that a disclosure wrote, of these names. *)
Definition entry_row (names : list string) (at_ : timestamp) (row : RawAuditRow) : Prop :=
  ra_disclosed_claims row = json_to_string (JArr (JStr <$> names)) ∧ ra_timestamp row = to_rfc3339 at_ ∧
  rfc3339_year at_.

Lemma entry_read_back row names at_ :
  entry_row names at_ row →
  row_to_entry row = Ok (mkEntry (ra_id row) (ra_credential_id row) names (ra_recipient row) at_ (ra_token_id row)).
Proof.
  intros (Hn & Ht & Hy). unfold row_to_entry, strings_of_value.
  rewrite Hn, Ht, json_print_parse by apply strings_within. simpl.
  by rewrite mapM_as_str, read_date_text by done.
Qed.

(** ** Tokens *)

Lemma payload_fields cid claims exp id iss :
  payload cid claims exp id iss =
  JObj [("credential_id", JStr cid); ("disclosed_claims", sorted_claims claims);
        ("expires_at", JStr (to_rfc3339 exp)); ("id", JStr id); ("issued_at", JStr (to_rfc3339 iss))].
Proof. reflexivity. Qed.

Lemma token_payload_inj t t' :
  token_payload t = token_payload t' → dt_signature t = dt_signature t' → t = t'.
Proof.
  destruct t, t'. unfold token_payload. rewrite !payload_fields. cbn. intros E ->.
  assert (Some (sorted_claims dt_disclosed_claims0) = Some (sorted_claims dt_disclosed_claims1)) as Ec
    by exact (f_equal (λ j, json_get j "disclosed_claims") E).
  apply (inj Some), sorted_claims_inj in Ec. injection E as -> _ Hx -> Hi. subst.
  apply rfc3339_inj in Hx as ->. by apply rfc3339_inj in Hi as ->.
Qed.

(** Claims that read back within the payload of a token. *)
Definition claims_printable (m : gmap string json) : Prop := ∀ k v, m !! k = Some v → json_within 125 v.

Lemma token_payload_printable t : claims_printable (dt_disclosed_claims t) → json_printable (token_payload t).
Proof.
  intros Hc. apply printable_mk_obj. intros k v Hkv.
  repeat (apply elem_of_cons in Hkv as [[= -> ->]|Hkv]; [done || by apply sorted_claims_within|]).
  by apply elem_of_nil in Hkv.
Qed.

(** The tag of a text is accepted. *)
Lemma verify_hmac key data : domain_hmac_verify key data (domain_hmac key data) = true.
Proof.
  unfold domain_hmac_verify, domain_hmac, hmac_verify. rewrite hex_roundtrip.
  by apply bool_decide_eq_true_2.
Qed.

Lemma verify_hmac_true key data data' :
  domain_hmac_verify key data' (domain_hmac key data) = true → hmac_sha256 key data' = hmac_sha256 key data.
Proof.
  unfold domain_hmac_verify, domain_hmac, hmac_verify. rewrite hex_roundtrip.
  by intros ?%bool_decide_eq_true.
Qed.

Lemma mint_signed d cid claims ttl s t :
  mint d cid claims ttl s = Ok t →
  dt_credential_id t = cid ∧ dt_id t = dd_token_id d ∧ dt_disclosed_claims t = claims ∧
  ∃ b, json_to_vec (token_payload t) = Ok b ∧ dt_signature t = domain_hmac (id_signing_key s) b.
Proof.
  unfold mint. destruct (checked_add _ _) as [x|]; [|done].
  destruct (json_to_vec _) as [b|] eqn:E; simpl; [|done]. intros [= <-]. split_and!; [done..|].
  by exists b.
Qed.

Lemma disclose_minted gf lf d cid names rcpt ttl s t s' :
  disclose gf lf d cid names rcpt ttl s = (Ok t, s') →
  ∃ c, get None cid s = Ok (Some c) ∧ mint d cid (select_claims (ic_claims c) names) ttl s = Ok t ∧
       record_disclosure lf d cid names rcpt s = (Ok tt, s').
Proof.
  unfold disclose. destruct gf; [done|]. destruct (get None cid s) as [[c|]|] eqn:Eg; try done.
  destruct (mint _ _ _ _ _) as [t'|] eqn:Em; [|done].
  destruct (record_disclosure _ _ _ _ _ _) as [[[]|] s1] eqn:Er; [|done]. intros [= <- <-]. eauto.
Qed.

(** Acceptance of a token that carries the tag of its content. *)
Lemma signed_token_verifies t s b now :
  json_to_vec (token_payload t) = Ok b → dt_signature t = domain_hmac (id_signing_key s) b →
  verify_token now t s = Ok (bool_decide (now ≤ dt_expires_at t)%Z).
Proof.
  intros Hb Hs. unfold verify_token. rewrite Hb. simpl. rewrite Hs, verify_hmac. simpl. f_equal.
  destruct (Z.ltb_spec (dt_expires_at t) now); simpl; symmetry;
    [apply bool_decide_eq_false|apply bool_decide_eq_true]; lia.
Qed.

(** Acceptance of another token with that tag. *)
Lemma accepted_same_tag t t' s b now :
  (∀ v, json_printable v → serialises v) → claims_printable (dt_disclosed_claims t') →
  claims_printable (dt_disclosed_claims t) →
  json_to_vec (token_payload t) = Ok b → dt_signature t = domain_hmac (id_signing_key s) b →
  dt_signature t' = dt_signature t → verify_token now t' s = Ok true →
  ∃ b', json_to_vec (token_payload t') = Ok b' ∧ hmac_sha256 (id_signing_key s) b' = hmac_sha256 (id_signing_key s) b
        ∧ (b' = b → t' = t).
Proof.
  intros Hser Hc' Hc Hb Hs Heq. unfold verify_token. destruct (json_to_vec (token_payload t')) as [b'|] eqn:Hb'; [|done].
  simpl. rewrite Heq, Hs. destruct (domain_hmac_verify _ _ _) eqn:Hv; [|done]. intros _.
  exists b'. split_and!; [done|by apply verify_hmac_true|]. intros ->.
  apply token_payload_inj; [|by rewrite Heq].
  pose proof (Hser _ (token_payload_printable _ Hc') _ Hb') as E1.
  pose proof (Hser _ (token_payload_printable _ Hc) _ Hb) as E2. congruence.
Qed.

(** ** Traces *)

Inductive id_op : Type :=
| ICreate (nonce : list Byte.byte) (fault : option string) (c : IdentityCredential)
| IUpdate (nonce : list Byte.byte) (fault : option string) (c : IdentityCredential)
| IDelete (fault : option string) (id : string)
| IDisclose (get_fault log_fault : option string) (d : DiscloseDraw) (credential_id : string)
    (claim_names : list string) (recipient : string) (ttl : Z).

(** A token that was handed out, and to whom. *)
Record issue : Type := mkIssue { is_token : DisclosureToken; is_recipient : string }.

Definition id_step (o : id_op) (s : IdentityStore) : option issue * IdentityStore :=
  match o with
  | ICreate n f c => (None, snd (create n f c s))
  | IUpdate n f c => (None, snd (update n f c s))
  | IDelete f id => (None, snd (delete_credential f id s))
  | IDisclose gf lf d cid names rcpt ttl =>
      let '(r, s') := disclose gf lf d cid names rcpt ttl s in
      (match r with Ok t => Some (mkIssue t rcpt) | Err _ => None end, s')
  end.

(** Disclosures are logged in a year up to 9999. *)
Definition op_dated (o : id_op) : Prop :=
  match o with IDisclose _ _ d _ _ _ _ => rfc3339_year (dd_log_time d) | _ => True end.

Fixpoint id_run (os : list id_op) (s : IdentityStore) : list issue * IdentityStore :=
  match os with
  | [] => ([], s)
  | o :: os' =>
      let '(i, s1) := id_step o s in
      let '(rest, s2) := id_run os' s1 in (option_list i ++ rest, s2)
  end.

(** The entry of an issue: it names every claim that was disclosed. *)
Definition recorded (i : issue) (row : RawAuditRow) : Prop :=
  ∃ names at_, entry_row names at_ row ∧ ra_credential_id row = dt_credential_id (is_token i) ∧
    ra_recipient row = is_recipient i ∧ ra_token_id row = dt_id (is_token i) ∧
    ∀ k, is_Some (dt_disclosed_claims (is_token i) !! k) → k ∈ names.

Definition readable_log (s : IdentityStore) : Prop :=
  ∀ e row, id_audit_log s !! e = Some row → ∃ names at_, entry_row names at_ row.

Lemma record_disclosure_log lf d cid names rcpt s s' :
  record_disclosure lf d cid names rcpt s = (Ok tt, s') →
  id_audit_log s !! dd_entry_id d = None ∧ id_signing_key s' = id_signing_key s ∧
  id_audit_log s' = <[dd_entry_id d :=
    mkAuditRow (dd_entry_id d) cid (json_to_string (JArr (JStr <$> names))) rcpt (to_rfc3339 (dd_log_time d))
      (dd_token_id d)]> (id_audit_log s).
Proof.
  unfold record_disclosure. destruct (bool_decide (is_Some lf)); [done|]. case_bool_decide as Hn; [done|].
  intros [= <-]. split_and!; try done. by apply eq_None_not_Some.
Qed.

Lemma record_disclosure_failed lf d cid names rcpt s e s' :
  record_disclosure lf d cid names rcpt s = (Err e, s') → s' = s.
Proof. unfold record_disclosure. case_match; [by intros [= _ <-]|done]. Qed.

Lemma disclose_failed gf lf d cid names rcpt ttl s e s' :
  disclose gf lf d cid names rcpt ttl s = (Err e, s') → s' = s.
Proof.
  unfold disclose. destruct (get gf cid s) as [[c|]|]; [|by intros [= _ <-]..].
  destruct (mint _ _ _ _ _); [|by intros [= _ <-]].
  destruct (record_disclosure _ _ _ _ _ _) as [[]] eqn:Er; [done|]. intros [= _ <-].
  by eapply record_disclosure_failed.
Qed.

Lemma disclose_recorded gf lf d cid names rcpt ttl s t s' :
  rfc3339_year (dd_log_time d) → disclose gf lf d cid names rcpt ttl s = (Ok t, s') →
  ∃ e row, id_audit_log s !! e = None ∧ id_audit_log s' = <[e := row]> (id_audit_log s) ∧
           recorded (mkIssue t rcpt) row.
Proof.
  intros Hy (c & _ & (Hc & Hi & Hd & _)%mint_signed & (Hn & _ & Hl)%record_disclosure_log)%disclose_minted.
  eexists _, _. split; [done|]. split; [done|]. exists names, (dd_log_time d).
  split; [done|]. cbn. split_and!; [done..|]. intros k Hk. rewrite Hd, select_claims_lookup in Hk.
  case_bool_decide; [done|]. by destruct Hk.
Qed.

Lemma id_step_log o s i s' :
  op_dated o → id_step o s = (i, s') →
  (i = None ∧ id_audit_log s' = id_audit_log s) ∨
  ∃ iss e row, i = Some iss ∧ id_audit_log s !! e = None ∧ id_audit_log s' = <[e := row]> (id_audit_log s) ∧
    recorded iss row.
Proof.
  intros Hy. destruct o as [n f c|n f c|f id|gf lf d cid names rcpt ttl]; simpl in *.
  - intros [= <- <-]. left. split; [done|]. unfold create.
    destruct (encrypt_claims _ _ _); [|done]. by case_match.
  - intros [= <- <-]. left. split; [done|]. unfold update.
    destruct (encrypt_claims _ _ _); [|done]. destruct f; [done|]. by case_match.
  - intros [= <- <-]. left. split; [done|]. unfold delete_credential. by destruct f.
  - destruct (disclose _ _ _ _ _ _ _ _) as [[t|e] s1] eqn:E; intros [= <- <-].
    + right. destruct (disclose_recorded _ _ _ _ _ _ _ _ _ _ Hy E) as (e & row & Q1 & Q2 & Q3). eauto 8.
    + left. split; [done|]. by rewrite (disclose_failed _ _ _ _ _ _ _ _ _ _ E).
Qed.

Lemma id_run_log os s issued s' :
  Forall op_dated os → readable_log s → id_run os s = (issued, s') →
  readable_log s' ∧ id_audit_log s ⊆ id_audit_log s' ∧
  ∀ i, i ∈ issued → ∃ e row, id_audit_log s' !! e = Some row ∧ recorded i row.
Proof.
  intros Hos. revert s issued. induction Hos as [|o os Ho _ IH]; intros s issued Hs; simpl.
  { intros [= <- <-]. split_and!; [done..|]. by intros i ?%elem_of_nil. }
  destruct (id_step o s) as [i s1] eqn:E1. destruct (id_run os s1) as [rest s2] eqn:E2. intros [= <- <-].
  destruct (id_step_log _ _ _ _ Ho E1) as [[-> El]|(iss & e & row & -> & He & El & Hr)].
  - assert (readable_log s1) as Hs1 by (unfold readable_log; by rewrite El).
    destruct (IH s1 rest Hs1 E2) as (Q1 & Q2 & Q3). rewrite El in Q2. done.
  - assert (readable_log s1) as Hs1.
    { intros e' row'. rewrite El. intros [[<- <-]|[_ ?]]%lookup_insert_Some; [|eauto].
      destruct Hr as (names & at_ & Hn & _). eauto. }
    destruct (IH s1 rest Hs1 E2) as (Q1 & Q2 & Q3). rewrite El in Q2. split_and!; [done| |].
    + etransitivity; [|done]. by apply insert_subseteq.
    + intros i [->%list_elem_of_singleton|Hi]%elem_of_app; [|eauto]. exists e, row. split; [|done].
      eapply lookup_weaken; [|done]. by rewrite lookup_insert_eq.
Qed.

(** Reading a log that disclosures wrote. *)
Lemma read_log order cid s :
  readable_log s → (∀ rows, order rows ≡ₚ rows) →
  ∃ entries, get_audit_log order None cid s = Ok entries ∧
    ∀ e row names at_, id_audit_log s !! e = Some row → entry_row names at_ row → ra_credential_id row = cid →
      mkEntry (ra_id row) cid names (ra_recipient row) at_ (ra_token_id row) ∈ entries.
Proof.
  intros Hr Ho. unfold get_audit_log. set (rows := order _).
  assert (∀ row, row ∈ rows → ∃ entry, row_to_entry row = Ok entry) as Hrows.
  { intros row Hin. unfold rows in Hin. rewrite Ho, list_elem_of_filter in Hin. destruct Hin as [_ Hin].
    apply list_elem_of_fmap in Hin as ([e row'] & -> & Hin%elem_of_map_to_list).
    destruct (Hr _ _ Hin) as (names & at_ & Hn). cbn [snd]. rewrite (entry_read_back _ _ _ Hn). eauto. }
  assert (∃ entries, try_map row_to_entry rows = Ok entries) as [entries He].
  { clearbody rows. induction rows as [|row rows IH]; simpl; [eauto|].
    destruct (Hrows row) as [entry ->]; [constructor|]. simpl.
    destruct IH as [entries ->]; [intros; apply Hrows; by constructor|]. eauto. }
  exists entries. split; [done|]. intros e row names at_ Hl Hn Hc.
  apply try_map_Ok in He.
  assert (row ∈ rows) as Hin.
  { unfold rows. rewrite Ho, list_elem_of_filter. split; [done|].
    apply list_elem_of_fmap. exists (e, row). split; [done|]. by apply elem_of_map_to_list. }
  apply list_elem_of_lookup in Hin as [k Hk].
  destruct (Forall2_lookup_l _ _ _ _ _ He Hk) as (entry & Hek & Hentry).
  rewrite (entry_read_back _ _ _ Hn) in Hentry. injection Hentry as <-. rewrite Hc in Hek.
  by eapply list_elem_of_lookup_2.
Qed.
End ReadBack.

(** ** The store *)

(** A credential with dates up to the year 9999 that was created is read back exactly, claims included; after an update of it
    that succeeds what is read is the new content with the original creation time; no other
    credential changes. *)
Theorem identity_read_back `{HJ : JsonText, !JsonTextLaws} `{HC : CryptoLib, !CryptoLaws} `{HCh : Chrono, !ChronoLaws}
    nonce fault c s s1 :
  length nonce = NONCE_SIZE → serialises (ic_claims c) → dated c → create nonce fault c s = (Ok tt, s1) →
  get None (ic_id c) s1 = Ok (Some c) ∧
  (∀ id, id ≠ ic_id c → get None id s1 = get None id s) ∧
  ∀ nonce2 fault2 c2 s2,
    length nonce2 = NONCE_SIZE → serialises (ic_claims c2) → dated c2 → ic_id c2 = ic_id c →
    update nonce2 fault2 c2 s1 = (Ok true, s2) →
    get None (ic_id c) s2 =
      Ok (Some (mkCredential (ic_id c) (ic_credential_type c2) (ic_issuer c2) (ic_issued_date c2)
                  (ic_expiry_date c2) (ic_claims c2) (ic_created_at c) (ic_updated_at c2))).
Proof.
  intros Hn Hs Hdate Hc. split_and!.
  - by eapply create_stored.
  - intros id Hid. revert Hc. unfold create. destruct (encrypt_claims _ _ s); [|done]. case_match; [done|].
    intros [= <-]. unfold get. cbn. by rewrite lookup_insert_ne.
  - intros n2 f2 c2 s2 Hn2 Hs2 Hd2 Hid Hu. apply create_row in Hc. rewrite <- Hid in Hc |- *.
    apply (update_stored n2 f2 c2 s1 s2 (ic_created_at c) Hn2 Hs2 Hd2 ltac:(apply Hdate) Hc Hu).
Qed.

(** C38. From a store without log entries, whatever credentials are created, changed, deleted and
    disclosed, whichever of these statements fail, with disclosures in the years up to 9999: for every
    token that was handed out, reading the audit log of its credential, when the query does not fail,
    gives every entry, and one of them has the token, its recipient and the name of every claim the
    token discloses. *)
Theorem disclosures_are_logged `{HJ : JsonText, !JsonTextLaws} `{HC : CryptoLib} `{HH : HmacHex}
    `{HCh : Chrono, !ChronoLaws} `{HI : IdentityLib} credentials secret os issued s order :
  (∀ rows, order rows ≡ₚ rows) → Forall op_dated os → id_run os (Identity.new credentials ∅ secret) = (issued, s) →
  ∀ i, i ∈ issued →
  ∃ entries entry,
    get_audit_log order None (dt_credential_id (is_token i)) s = Ok entries ∧ entry ∈ entries ∧
    ae_token_id entry = dt_id (is_token i) ∧ ae_recipient entry = is_recipient i ∧
    ∀ k, is_Some (dt_disclosed_claims (is_token i) !! k) → k ∈ ae_disclosed_claims entry.
Proof.
  intros Ho Hos Hrun i Hi.
  destruct (id_run_log os (Identity.new credentials ∅ secret) issued s) as (Hr & _ & Hrec); [done| |done|].
  { intros e row He. cbn in He. by rewrite lookup_empty in He. }
  destruct (Hrec i Hi) as (e & row & He & names & at_ & Hn & Hc & Hp & Ht & Hk).
  destruct (read_log order (dt_credential_id (is_token i)) s Hr Ho) as (entries & Hlog & Hin).
  eexists entries, _. split; [done|]. split; [by eapply Hin|]. done.
Qed.

(** A token handed out discloses exactly the named claims that the credential has, and is accepted
    exactly until it expires; a token with its signature that is accepted is that token, or its
    content is another one with the same HMAC. *)
Theorem token_authentic `{HJ : JsonText} `{HC : CryptoLib} `{HH : HmacHex, !HmacHexLaws}
    `{HCh : Chrono, !ChronoLaws} `{HI : IdentityLib} gf lf d cid names rcpt ttl s t s' :
  (∀ v, json_printable v → serialises v) → disclose gf lf d cid names rcpt ttl s = (Ok t, s') →
  claims_printable (dt_disclosed_claims t) →
  (∃ c, get None cid s = Ok (Some c) ∧
     ∀ k, dt_disclosed_claims t !! k = if bool_decide (k ∈ names) then json_get (ic_claims c) k else None) ∧
  (∀ now, verify_token now t s' = Ok (bool_decide (now ≤ dt_expires_at t)%Z)) ∧
  ∀ now t', claims_printable (dt_disclosed_claims t') → dt_signature t' = dt_signature t →
    verify_token now t' s' = Ok true →
    ∃ b b', json_to_vec (token_payload t) = Ok b ∧ json_to_vec (token_payload t') = Ok b' ∧
      hmac_sha256 (id_signing_key s) b' = hmac_sha256 (id_signing_key s) b ∧ (b' = b → t' = t).
Proof.
  intros Hser Hd Hc. apply disclose_minted in Hd as (c & Hg & (_ & _ & Hcl & b & Hb & Hs)%mint_signed & Hrec).
  apply record_disclosure_log in Hrec as (_ & Hk & _). rewrite <- Hk in Hs |- *. split_and!.
  - exists c. split; [done|]. intros k. by rewrite Hcl, select_claims_lookup.
  - intros now. by eapply signed_token_verifies.
  - intros now t' Hc' Hsig Hv.
    destruct (accepted_same_tag t t' s' b now Hser Hc' Hc Hb Hs Hsig Hv) as (b' & ? & ? & ?). eauto 8.
Qed.

(** ** Instances for witnesses *)

Module IdToy.
#[export] Existing Instance coded_text.
#[export] Existing Instance coded_text_laws.

Definition id_crypto : CryptoLib := {|
  gcm_encrypt := @gcm_encrypt toy_crypto;
  gcm_decrypt := @gcm_decrypt toy_crypto;
  hkdf_sha256 := @hkdf_sha256 toy_crypto;
  base64_encode := @base64_encode toy_crypto;
  base64_decode := @base64_decode toy_crypto;
  json_to_vec v := Ok (bytes_of (@json_to_string coded_text v));
  json_from_slice b := @json_from_str coded_text (string_of b);
|}.

Lemma id_crypto_laws : @CryptoLaws id_crypto.
Proof. split; [exact (@gcm_correct _ toy_crypto_laws)|exact (@base64_correct _ toy_crypto_laws)]. Qed.

Lemma id_serialises v : @serialises id_crypto v.
Proof.
  intros b [= <-]. cbn -[coded_text]. rewrite VaultSpec.string_of_bytes. apply coded_print_parse.
Qed.

Definition id_lib : IdentityLib := {| checked_add t d := Some (t + d)%Z; sha256 b := b |}.

Definition passport : IdentityCredential :=
  mkCredential "p1" Passport "au.gov" 1 (Some 100%Z)
    (JObj [("name", JStr "Jane"); ("number", JStr "PA1")]) 5 5.

Definition twelve : list Byte.byte := replicate 12 Byte.x00.
Definition draw : DiscloseDraw := mkDraw 10 "t1" "e1" 11.
End IdToy.
Import IdToy.

Lemma identity_read_back_witness :
  let s := @Identity.new id_crypto ∅ ∅ vault_secret in
  let s1 := snd (@create coded_text id_crypto toy_chrono twelve None passport s) in
  @get coded_text id_crypto toy_chrono None "p1" s1 = Ok (Some passport).
Proof.
  intros s s1.
  apply (@identity_read_back coded_text coded_text_laws id_crypto id_crypto_laws toy_chrono toy_chrono_laws
           twelve None passport s s1).
  - reflexivity.
  - apply id_serialises.
  - repeat split; vm_compute; congruence.
  - vm_compute. reflexivity.
Defined.

Definition id_day : list id_op :=
  [ICreate twelve None passport; IDisclose None None draw "p1" ["name"; "height"] "shop" 50; IDelete None "p1"].

Lemma disclosures_are_logged_witness :
  ∃ i, i ∈ fst (@id_run coded_text id_crypto toy_hmac toy_chrono id_lib id_day (@Identity.new id_crypto ∅ ∅ vault_secret)) ∧
  ∃ entries entry,
    @get_audit_log coded_text toy_chrono id None (dt_credential_id (is_token i))
      (snd (@id_run coded_text id_crypto toy_hmac toy_chrono id_lib id_day (@Identity.new id_crypto ∅ ∅ vault_secret)))
      = Ok entries ∧ entry ∈ entries ∧ ae_recipient entry = is_recipient i.
Proof.
  eexists. split; [apply list_elem_of_In; vm_compute; left; reflexivity|].
  edestruct (@disclosures_are_logged coded_text coded_text_laws id_crypto toy_hmac toy_chrono toy_chrono_laws id_lib
    ∅ vault_secret id_day
    (fst (@id_run coded_text id_crypto toy_hmac toy_chrono id_lib id_day (@Identity.new id_crypto ∅ ∅ vault_secret)))
    (snd (@id_run coded_text id_crypto toy_hmac toy_chrono id_lib id_day (@Identity.new id_crypto ∅ ∅ vault_secret)))
    id) as (entries & entry & He & Hin & _ & Hr & _).
  - intros rows. reflexivity.
  - repeat constructor; vm_compute; congruence.
  - vm_compute. reflexivity.
  - apply list_elem_of_In. vm_compute. left. reflexivity.
  - exists entries, entry. split; [exact He|]. split; [exact Hin|exact Hr].
Defined.

Definition id_store : IdentityStore :=
  snd (@create coded_text id_crypto toy_chrono twelve None passport (@Identity.new id_crypto ∅ ∅ vault_secret)).

Definition id_disclosed : result DisclosureToken identity_error * IdentityStore :=
  @disclose coded_text id_crypto toy_hmac toy_chrono id_lib None None draw "p1" ["name"; "height"] "shop" 50 id_store.

Lemma token_authentic_witness :
  ∃ t, fst id_disclosed = Ok t ∧ dt_disclosed_claims t = {[ "name" := JStr "Jane" ]} ∧
    @verify_token id_crypto toy_hmac toy_chrono 60 t (snd id_disclosed) = Ok true ∧
    @verify_token id_crypto toy_hmac toy_chrono 61 t (snd id_disclosed) = Ok false.
Proof.
  assert (∃ t, fst id_disclosed = Ok t ∧ dt_disclosed_claims t = {[ "name" := JStr "Jane" ]} ∧
            dt_expires_at t = 60%Z) as (t & Ht & Hc & Hx).
  { eexists. split; [vm_compute; reflexivity|]. split; vm_compute; reflexivity. }
  exists t. split; [exact Ht|]. split; [exact Hc|].
  destruct (@token_authentic coded_text id_crypto toy_hmac toy_hmac_laws toy_chrono toy_chrono_laws id_lib
    None None draw "p1" ["name"; "height"] "shop" 50 id_store t (snd id_disclosed)) as (_ & Hv & _).
  - intros v _. apply id_serialises.
  - rewrite <- Ht. unfold id_disclosed. destruct (disclose _ _ _ _ _ _ _ _). reflexivity.
  - intros k v. rewrite Hc. intros [<- <-]%lookup_singleton_Some. exact I.
  - rewrite !Hv, Hx. split; reflexivity.
Defined.

(** ** Edges *)

(** The log names what was asked for, also claims that the credential does not have. *)
Lemma requested_names_logged :
  ∃ e row, id_audit_log (snd id_disclosed) !! e = Some row ∧ @entry_row coded_text toy_chrono ["name"; "height"] 11 row.
Proof. exists "e1". eexists. split; [vm_compute; reflexivity|]. repeat split; vm_compute; (reflexivity || congruence). Qed.

(** A request for very long validity panics. *)
Lemma huge_ttl_crashes `{JsonText} `{CryptoLib} `{HmacHex} `{Chrono} `{IdentityLib} gf lf d id names rcpt h s :
  (MAX_HOURS < h)%Z →
  fst (disclose_credential gf lf d id (mkDisclose names rcpt (Some h)) (Some s)) = Crash.
Proof.
  intros Hh. unfold disclose_credential. cbn. assert (0 < MAX_HOURS)%Z by reflexivity.
  rewrite (proj2 (Z.leb_gt h 0)) by lia. by rewrite (proj2 (Z.ltb_lt _ _) Hh).
Qed.

(** A credential past its own expiry date is disclosed like any other. *)
Lemma expired_credential_disclosed :
  ∃ t, fst (@disclose coded_text id_crypto toy_hmac toy_chrono id_lib None None (mkDraw 1000 "t2" "e2" 1000) "p1"
              ["name"] "shop" 50 id_store) = Ok t ∧ ic_expiry_date passport = Some 100%Z.
Proof. eexists. split; [vm_compute; reflexivity|reflexivity]. Qed.
