(* ===== verification/LegacyStore.v ===== *)
(** * The legacy SQLite storage and the data API

    packages/storage-sqlite/src/legacy.rs over the rows of its tables: records with their
    text columns, queries built as SQL with positional parameters, the audit log and change
    events; the quarantine of apps/core/src/schema_registry.rs is in Quarantine.v. The types
    are those of packages/traits/src/legacy_storage.rs.

    Tables are lists of rows, oldest first. A call reads its clock, ids and the faults of its
    statements, by position, from a [Draw]. SQLite's evaluation of conditions and running of
    statements are parameters. Texts of date errors are not kept. *)

From stdpp Require Import base tactics list gmap sets strings.
From Stdlib Require Import Ascii ZArith Lia.
From S2P Require Import Prelude RustString RustText Json Types Sessions Storage SchemaVersioning SqliteDoc Conflict Federation.

Local Open Scope string_scope.
Local Open Scope list_scope.

(** ** Queries *)

Record FieldFilter : Type := mkFieldFilter { ff_field : string; ff_value : json }.

Inductive ComparisonOp : Type := Gte | Lte | Gt | Lt.

Record ComparisonFilter : Type := mkComparison {
  cf_field : string;
  cf_operator : ComparisonOp;
  cf_value : json;
}.

Record TextFilter : Type := mkText { tf_field : string; tf_contains : string }.

Inductive QueryFilters : Type :=
| mkFilters (equality : list FieldFilter) (comparison : list ComparisonFilter)
    (text_search : list TextFilter) (and_ or_ : list QueryFilters).

Definition no_filters : QueryFilters := mkFilters [] [] [] [] [].

Record SortOptions : Type := mkSort { sort_by : string; sort_dir : SortDirection }.

Record Pagination : Type := mkPagination { pg_limit : Z; pg_offset : Z }.

Definition default_pagination : Pagination := mkPagination 50 0.

Definition clamped (p : Pagination) : Pagination := mkPagination (Z.min (pg_limit p) 1000) (pg_offset p).

Record QueryResult : Type := mkQueryResult {
  qr_records : list StoredRecord;
  qr_total : Z;
  qr_limit : Z;
  qr_offset : Z;
}.

(** ** The tables *)

Record LegacyRow : Type := mkLegacyRow {
  lr_id : string;
  lr_plugin_id : string;
  lr_collection : string;
  lr_data : string;
  lr_version : Z;
  lr_user_id : option string;
  lr_household_id : option string;
  lr_created_at : string;
  lr_updated_at : string;
}.

Record AuditEntry : Type := mkAuditEntry {
  ae_id : string;
  ae_timestamp : string;
  ae_event_type : string;
  ae_collection : option string;
  ae_document_id : option string;
  ae_identity_subject : option string;
  ae_plugin_id : option string;
  ae_details : option string;
}.

Inductive ChangeType : Type := Created | Updated | Deleted.

Record ChangeEvent : Type := mkChangeEvent {
  ce_collection : string;
  ce_record_id : string;
  ce_change_type : ChangeType;
}.

Record LegacyDb : Type := mkDb {
  db_rows : list LegacyRow;
  db_audit : list AuditEntry;
  db_changes : list ChangeEvent;
}.

Definition set_rows (rows : list LegacyRow) (s : LegacyDb) : LegacyDb :=
  mkDb rows (db_audit s) (db_changes s).

Definition publish (e : ChangeEvent) (s : LegacyDb) : LegacyDb :=
  mkDb (db_rows s) (db_audit s) (db_changes s ++ [e]).

(** What a call reads from outside. *)
Record Draw : Type := mkLegacyDraw {
  ld_now : timestamp;
  ld_uuid : string;
  ld_audit_now : timestamp;
  ld_audit_uuid : string;
  ld_fault : nat → option string;
}.

(** ** SQL *)

(** Conditions with positional parameters, in the order of the text. *)
Inductive LegacyCond : Type :=
| CondCmp (field op : string)
| CondLike (field : string)
| CondGroup (connective : string) (conds : list LegacyCond).

Fixpoint legacy_cond_text (c : LegacyCond) : string :=
  match c with
  | CondCmp field op => "json_extract(data, '$." +:+ field +:+ "') " +:+ op +:+ " ?"
  | CondLike field => "json_extract(data, '$." +:+ field +:+ "') LIKE ? ESCAPE '\'"
  | CondGroup connective conds => "(" +:+ join connective (map legacy_cond_text conds) +:+ ")"
  end.

Record LegacyStatement : Type := mkLegacyStatement {
  lst_conds : list LegacyCond;
  lst_order : option SortOptions;
}.

Definition where_clause (st : LegacyStatement) : string :=
  join " AND " ("plugin_id = ?" :: "collection = ?" :: map legacy_cond_text (lst_conds st)).

Definition legacy_count_text (st : LegacyStatement) : string :=
  "SELECT COUNT(*) FROM plugin_data WHERE " +:+ where_clause st.

Definition legacy_order_text (o : option SortOptions) : string :=
  match o with
  | Some opts => "ORDER BY json_extract(data, '$." +:+ sort_by opts +:+ "') " +:+ dir_text (sort_dir opts)
  | None => empty_str
  end.

Definition legacy_select_text (st : LegacyStatement) : string :=
  "SELECT id, plugin_id, collection, data, version, user_id, household_id, created_at, updated_at FROM plugin_data WHERE "
  +:+ where_clause st +:+ " " +:+ legacy_order_text (lst_order st) +:+ " LIMIT ? OFFSET ?".

Class LegacySql : Type := {
  (** [LIKE ? ESCAPE '\'] *)
  like_escape : SqlValue → SqlValue → option bool;
  legacy_order : option SortOptions → list LegacyRow → list LegacyRow;
  run_legacy_count : LegacyStatement → list SqlValue → list LegacyRow → result Z string;
  run_legacy_select : LegacyStatement → list SqlValue → list LegacyRow → result (list LegacyRow) string;
}.

Definition field_char (c : ascii) : bool :=
  is_ascii_alphanumeric c || bool_decide (c = "_"%char) || bool_decide (c = "."%char).

Definition validate_field_name (field : string) : bool :=
  negb (is_empty field) && all_chars field_char field.

Definition escape_like (value : string) : string :=
  replace_char "_" "\_" (replace_char "%" "\%" (replace_char "\" "\\" value)).

Definition op_text (op : ComparisonOp) : string :=
  match op with
  | Gte => ">="
  | Lte => "<="
  | Gt => ">"
  | Lt => "<"
  end.

Section Filters.
Context `{JsonText}.

(** One condition with its parameter; a field name that does not validate is skipped. *)
Definition one_filter (field : string) (c : LegacyCond) (v : json) : list LegacyCond * list json :=
  if validate_field_name field then ([c], [v]) else ([], []).

Definition both (a b : list LegacyCond * list json) : list LegacyCond * list json :=
  (fst a ++ fst b, snd a ++ snd b).

(** A group is one condition, unless it is empty. *)
Definition grouped (connective : string) (g : list LegacyCond * list json) : list LegacyCond * list json :=
  match fst g with
  | [] => ([], snd g)
  | conds => ([CondGroup connective conds], snd g)
  end.

Definition plain_filters (eqs : list FieldFilter) (cmps : list ComparisonFilter) (texts : list TextFilter) :
    list LegacyCond * list json :=
  both (foldr both ([], []) ((λ f, one_filter (ff_field f) (CondCmp (ff_field f) "=") (ff_value f)) <$> eqs))
    (both (foldr both ([], []) ((λ f, one_filter (cf_field f) (CondCmp (cf_field f) (op_text (cf_operator f)))
                                        (cf_value f)) <$> cmps))
       (foldr both ([], []) ((λ f, one_filter (tf_field f) (CondLike (tf_field f))
                                     (JStr ("%" +:+ escape_like (tf_contains f) +:+ "%"))) <$> texts))).

(** The conditions and the values to bind, both in the order of the text. *)
Fixpoint build_filter_sql (fs : QueryFilters) : list LegacyCond * list json :=
  match fs with
  | mkFilters eqs cmps texts ands ors =>
      both (plain_filters eqs cmps texts)
        (both (foldr both ([], []) (map (λ g, grouped " AND " (build_filter_sql g)) ands))
           (foldr both ([], []) (map (λ g, grouped " OR " (build_filter_sql g)) ors)))
  end.
End Filters.

(** ** Operations *)

Section Operations.
Context `{JsonText} `{Chrono} `{LegacySql}.

(** A date column. *)
Definition legacy_date (text : string) : result timestamp string :=
  match parse_from_rfc3339 text with
  | Some t => Ok t
  | None => Err "invalid date"
  end.

Definition row_to_record (row : LegacyRow) : result StoredRecord string :=
  let? data := json_from_str (lr_data row) in
  let? created := legacy_date (lr_created_at row) in
  let? updated := legacy_date (lr_updated_at row) in
  Ok (mkRecord (lr_id row) (lr_plugin_id row) (lr_collection row) data (lr_version row) (lr_user_id row)
        (lr_household_id row) created updated).

(** [WHERE id = ? AND plugin_id = ? AND collection = ?]. *)
Definition names_row (plugin_id collection id : string) (r : LegacyRow) : bool :=
  bool_decide (lr_id r = id) && bool_decide (lr_plugin_id r = plugin_id)
  && bool_decide (lr_collection r = collection).

Definition find_legacy (plugin_id collection id : string) (s : LegacyDb) : option LegacyRow :=
  head (filter (λ r, names_row plugin_id collection id r = true) (db_rows s)).

Definition legacy_get (d : Draw) (plugin_id collection id : string) (s : LegacyDb) :
    result (option StoredRecord) string :=
  match ld_fault d 0 with
  | Some e => Err e
  | None =>
      match find_legacy plugin_id collection id s with
      | Some row => let? r := row_to_record row in Ok (Some r)
      | None => Ok None
      end
  end.

(** [AuditLogger::log_event_full], statement [i] of the call; its fault includes an id that is
    taken. *)
Definition log_event_full (d : Draw) (i : nat) (event_type : string)
    (collection document_id identity_subject plugin_id : option string) (details : option json)
    (s : LegacyDb) : result unit string * LegacyDb :=
  let now := to_rfc3339 (ld_audit_now d) in
  match ld_fault d i with
  | Some e => (Err e, s)
  | None =>
      (Ok tt, mkDb (db_rows s)
         (db_audit s ++ [mkAuditEntry (ld_audit_uuid d) now event_type collection document_id
                           identity_subject plugin_id (json_to_string <$> details)])
         (db_changes s))
  end.

Definition legacy_create_with_id (d : Draw) (plugin_id collection id : string) (data : json) (s : LegacyDb) :
    result StoredRecord string * LegacyDb :=
  let now := ld_now d in
  let text := to_rfc3339 now in
  match ld_fault d 0 with
  | Some e => (Err e, s)
  | None =>
      if existsb (λ r, bool_decide (lr_id r = id)) (db_rows s) then
        (Err "UNIQUE constraint failed: plugin_data.id", s)
      else
        let row := mkLegacyRow id plugin_id collection (json_to_string data) 1 None None text text in
        match log_event_full d 1 "system.storage.created" (Some collection) (Some id) None (Some plugin_id) None
                (set_rows (db_rows s ++ [row]) s) with
        | (Err e, s1) => (Err e, s1)
        | (Ok _, s1) =>
            (Ok (mkRecord id plugin_id collection data 1 None None now now),
             publish (mkChangeEvent collection id Created) s1)
        end
  end.

Definition legacy_create (d : Draw) (plugin_id collection : string) (data : json) (s : LegacyDb) :
    result StoredRecord string * LegacyDb := legacy_create_with_id d plugin_id collection (ld_uuid d) data s.

(** [i64] addition wraps in a release build. *)
Definition wrap_i64 (z : Z) : Z := ((z + 2 ^ 63) mod 2 ^ 64 - 2 ^ 63)%Z.

(** The columns an update sets. *)
Definition updated_legacy (data : json) (version : Z) (now : string) (r : LegacyRow) : LegacyRow :=
  mkLegacyRow (lr_id r) (lr_plugin_id r) (lr_collection r) (json_to_string data) version (lr_user_id r)
    (lr_household_id r) (lr_created_at r) now.

Definition legacy_update (d : Draw) (plugin_id collection id : string) (data : json) (version : Z) (s : LegacyDb) :
    result StoredRecord LegacyError * LegacyDb :=
  let now := ld_now d in
  let new_version := wrap_i64 (version + 1) in
  let hit r := names_row plugin_id collection id r && bool_decide (lr_version r = version) in
  match ld_fault d 0 with
  | Some e => (Err (OtherError e), s)
  | None =>
      if negb (existsb hit (db_rows s)) then
        match ld_fault d 1 with
        | Some e => (Err (OtherError e), s)
        | None =>
            (Err (if existsb (names_row plugin_id collection id) (db_rows s) then VersionMismatch
                  else RecordNotFound), s)
        end
      else
        let s1 := set_rows ((λ r, if hit r then updated_legacy data new_version (to_rfc3339 now) r else r)
                              <$> db_rows s) s in
        match ld_fault d 2, head (filter (λ r, lr_id r = id) (db_rows s1)) with
        | Some e, _ => (Err (OtherError e), s1)
        | None, None => (Err (OtherError "Query returned no rows"), s1)
        | None, Some row =>
            match log_event_full d 3 "system.storage.updated" (Some collection) (Some id) None (Some plugin_id)
                    (Some (mk_obj [("new_version", JNum (NInt new_version))])) s1 with
            | (Err e, s2) => (Err (OtherError e), s2)
            | (Ok _, s2) =>
                let s3 := publish (mkChangeEvent collection id Updated) s2 in
                match legacy_date (lr_created_at row) with
                | Err e => (Err (OtherError e), s3)
                | Ok created => (Ok (mkRecord id plugin_id collection data new_version None None created now), s3)
                end
            end
        end
  end.

Definition legacy_delete (d : Draw) (plugin_id collection id : string) (s : LegacyDb) :
    result bool string * LegacyDb :=
  match ld_fault d 0 with
  | Some e => (Err e, s)
  | None =>
      if negb (existsb (names_row plugin_id collection id) (db_rows s)) then (Ok false, s)
      else
        let s1 := set_rows (filter (λ r, names_row plugin_id collection id r = false) (db_rows s)) s in
        match log_event_full d 1 "system.storage.deleted" (Some collection) (Some id) None (Some plugin_id) None s1 with
        | (Err e, s2) => (Err e, s2)
        | (Ok _, s2) => (Ok true, publish (mkChangeEvent collection id Deleted) s2)
        end
  end.

Definition sort_char (c : ascii) : bool := is_ascii_alphanumeric c || bool_decide (c = "_"%char).

Definition legacy_query (d : Draw) (plugin_id collection : string) (filters : QueryFilters)
    (sort : option SortOptions) (pagination : Pagination) (s : LegacyDb) : result QueryResult string :=
  let p := clamped pagination in
  let '(conds, binds) := build_filter_sql filters in
  let st := mkLegacyStatement conds sort in
  let bind_values := json_value_to_boxed_sql <$> (JStr plugin_id :: JStr collection :: binds) in
  let? total := match ld_fault d 0 with Some e => Err e | None => run_legacy_count st bind_values (db_rows s) end in
  let? _ :=
    match sort with
    | Some opts =>
        if all_chars sort_char (sort_by opts) then Ok tt
        else Err ("invalid sort_by field name: " +:+ sort_by opts)
    | None => Ok tt
    end in
  let full := bind_values ++ [SqlInt (pg_limit p); SqlInt (pg_offset p)] in
  let? rows := match ld_fault d 1 with Some e => Err e | None => run_legacy_select st full (db_rows s) end in
  let? records := try_map row_to_record rows in
  Ok (mkQueryResult records total (pg_limit p) (pg_offset p)).

Definition legacy_list (d : Draw) (plugin_id collection : string) (sort : option SortOptions)
    (pagination : Pagination) (s : LegacyDb) : result QueryResult string :=
  legacy_query d plugin_id collection no_filters sort pagination s.

(** ** The audit log *)

Definition AUDIT_DAYS : Z := 90.

(** [order] is the database's [ORDER BY timestamp DESC]. *)
Definition query_entries (order : list AuditEntry → list AuditEntry) (d : Draw) (limit offset : Z) (s : LegacyDb) :
    result (list AuditEntry * Z) string :=
  match ld_fault d 0, ld_fault d 1 with
  | Some e, _ | None, Some e => Err e
  | None, None =>
      Ok (take (Z.to_nat (Z.min limit 1000)) (drop (Z.to_nat offset) (order (db_audit s))),
          Z.of_nat (length (db_audit s)))
  end.

(** Timestamps compare as texts. *)
Definition cleanup_old_entries (d : Draw) (s : LegacyDb) : result nat string * LegacyDb :=
  match ld_fault d 0 with
  | Some e => (Err e, s)
  | None =>
      let cutoff := to_rfc3339 (ld_now d - AUDIT_DAYS * DAY)%Z in
      let old a := String.ltb (ae_timestamp a) cutoff in
      (Ok (length (filter (λ a, old a = true) (db_audit s))),
       mkDb (db_rows s) (filter (λ a, old a = false) (db_audit s)) (db_changes s))
  end.
End Operations.
