(* ===== verification/LegacyFacts.v ===== *)
(** * Properties of the legacy SQLite storage

    Its queries bind every parameter to the condition it belongs to, so that they return
    a page of exactly the records that pass the filters; escaped text filters search the text
    they were given; and its operations implement the storage interface that sync relies on
    (Federation.v). *)

From stdpp Require Import base tactics list gmap sets strings.
From Stdlib Require Import Ascii ZArith Lia.
From S2P Require Import Prelude RustString RustText Json Types Sessions SessionsFacts Storage SchemaVersioning SqliteDoc SqliteQueryFacts Conflict Federation LegacyStore.

Local Open Scope string_scope.
Local Open Scope list_scope.

(** ** Conditions with positional parameters *)

(** NULL is neither true nor false. *)
Definition truth (x : option bool) : bool := bool_decide (x = Some true).

Definition and3 (xs : list (option bool)) : option bool :=
  if existsb (λ x, bool_decide (x = Some false)) xs then Some false
  else if forallb truth xs then Some true else None.

Definition or3 (xs : list (option bool)) : option bool :=
  if existsb truth xs then Some true
  else if forallb (λ x, bool_decide (x = Some false)) xs then Some false else None.

Lemma truth_and3 xs : truth (and3 xs) = forallb truth xs.
Proof.
  unfold and3. destruct (existsb _ xs) eqn:E.
  - symmetry. apply not_true_is_false. intros Hf. apply existsb_exists in E as (x & Hx & Hb%bool_decide_eq_true).
    rewrite forallb_forall in Hf. specialize (Hf x Hx). by rewrite Hb in Hf.
  - by destruct (forallb truth xs).
Qed.

Lemma truth_or3 xs : truth (or3 xs) = existsb truth xs.
Proof. unfold or3. destruct (existsb truth xs); [done|]. by destruct (forallb _ xs). Qed.

Section Eval.
Context `{HJ : JsonText} `{HS : Sqlite} `{HL : LegacySql} (data : string).

Definition field_value (field : string) : SqlValue := json_extract ("$." +:+ field) data.

(** The truth value of a condition, and the parameters after its own. *)
Fixpoint eval_cond (c : LegacyCond) (params : list SqlValue) : option bool * list SqlValue :=
  let evals := fix go cs params :=
    match cs with
    | [] => ([], params)
    | c :: cs' =>
        let '(b, rest) := eval_cond c params in
        let '(bs, rest') := go cs' rest in (b :: bs, rest')
    end in
  match c with
  | CondCmp field op =>
      match params with
      | v :: rest => (sql_compare op (field_value field) v, rest)
      | [] => (None, [])
      end
  | CondLike field =>
      match params with
      | v :: rest => (like_escape (field_value field) v, rest)
      | [] => (None, [])
      end
  | CondGroup connective cs =>
      let '(bs, rest) := evals cs params in
      (if bool_decide (connective = " AND ") then and3 bs else or3 bs, rest)
  end.

Fixpoint eval_conds (cs : list LegacyCond) (params : list SqlValue) : list (option bool) * list SqlValue :=
  match cs with
  | [] => ([], params)
  | c :: cs' =>
      let '(b, rest) := eval_cond c params in
      let '(bs, rest') := eval_conds cs' rest in (b :: bs, rest')
  end.

Lemma eval_group connective cs params :
  eval_cond (CondGroup connective cs) params =
  let '(bs, rest) := eval_conds cs params in
  (if bool_decide (connective = " AND ") then and3 bs else or3 bs, rest).
Proof.
  simpl. assert (∀ ps, (fix go cs params :=
    match cs with
    | [] => ([], params)
    | c :: cs' =>
        let '(b, rest) := eval_cond c params in
        let '(bs, rest') := go cs' rest in (b :: bs, rest')
    end) cs ps = eval_conds cs ps) as ->; [|done].
  induction cs as [|c cs IH]; intros ps; simpl; [done|]. destruct (eval_cond c ps). by rewrite IH.
Qed.

Lemma eval_conds_app cs cs' params :
  eval_conds (cs ++ cs') params =
  let '(bs, rest) := eval_conds cs params in
  let '(bs', rest') := eval_conds cs' rest in (bs ++ bs', rest').
Proof.
  revert params. induction cs as [|c cs IH]; intros params; simpl.
  - by destruct (eval_conds cs' params).
  - destruct (eval_cond c params) as [b rest]. rewrite IH. destruct (eval_conds cs rest) as [bs rest1].
    by destruct (eval_conds cs' rest1).
Qed.

(** ** What filters mean *)

Definition cmp_truth (field op : string) (v : json) : bool :=
  truth (sql_compare op (field_value field) (json_value_to_boxed_sql v)).

Definition text_truth (f : TextFilter) : bool :=
  truth (like_escape (field_value (tf_field f)) (SqlText ("%" +:+ escape_like (tf_contains f) +:+ "%"))).

(** Filters on a field with an invalid name mean nothing. *)
Definition if_valid (field : string) (b : bool) : list bool := if validate_field_name field then [b] else [].

Definition group_truth (combine : list bool → bool) (ts : list bool) : list bool :=
  match ts with
  | [] => []
  | _ => [combine ts]
  end.

(** The truth of each condition of the filters. *)
Fixpoint truths (fs : QueryFilters) : list bool :=
  match fs with
  | mkFilters eqs cmps texts ands ors =>
      (eqs ≫= λ f, if_valid (ff_field f) (cmp_truth (ff_field f) "=" (ff_value f)))
      ++ (cmps ≫= λ f, if_valid (cf_field f) (cmp_truth (cf_field f) (op_text (cf_operator f)) (cf_value f)))
      ++ (texts ≫= λ f, if_valid (tf_field f) (text_truth f))
      ++ concat (map (λ g, group_truth (forallb id) (truths g)) ands)
      ++ concat (map (λ g, group_truth (existsb id) (truths g)) ors)
  end.

Definition passes_filters (fs : QueryFilters) : bool := forallb id (truths fs).

(** Conditions and values that go together: evaluated, they take exactly those values. *)
Definition binds_right (g : list LegacyCond * list json) (ts : list bool) : Prop :=
  ∀ rest, ∃ bs, eval_conds (fst g) ((json_value_to_boxed_sql <$> snd g) ++ rest) = (bs, rest) ∧ truth <$> bs = ts.

Lemma binds_nil : binds_right ([], []) [].
Proof. intros rest. by exists []. Qed.

Lemma binds_both g g' ts ts' : binds_right g ts → binds_right g' ts' → binds_right (both g g') (ts ++ ts').
Proof.
  intros Hg Hg' rest. unfold both. cbn [fst snd]. rewrite fmap_app, <- app_assoc, eval_conds_app.
  destruct (Hg ((json_value_to_boxed_sql <$> snd g') ++ rest)) as (bs & -> & <-).
  destruct (Hg' rest) as (bs' & -> & <-). exists (bs ++ bs'). by rewrite fmap_app.
Qed.

Lemma binds_fold gs tss : Forall2 binds_right gs tss → binds_right (foldr both ([], []) gs) (concat tss).
Proof. induction 1; simpl; [apply binds_nil|by apply binds_both]. Qed.

Lemma binds_one field c v b :
  (∀ rest, ∃ x, eval_cond c (json_value_to_boxed_sql v :: rest) = (x, rest) ∧ truth x = b) →
  binds_right (one_filter field c v) (if_valid field b).
Proof.
  intros Hc. unfold one_filter, if_valid. destruct (validate_field_name field); [|apply binds_nil].
  intros rest. simpl. destruct (Hc rest) as (x & -> & <-). by exists [x].
Qed.

Lemma binds_map {A} (f : A → list LegacyCond * list json) (t : A → list bool) (xs : list A) :
  (∀ x, x ∈ xs → binds_right (f x) (t x)) → binds_right (foldr both ([], []) (f <$> xs)) (concat (t <$> xs)).
Proof.
  intros Hf. apply binds_fold. induction xs as [|x xs IH]; constructor.
  - apply Hf. constructor.
  - apply IH. intros y Hy. apply Hf. by constructor.
Qed.

Lemma forallb_id_truth bs : forallb id (truth <$> bs) = forallb truth bs.
Proof. induction bs as [|b bs IH]; [done|]. rewrite fmap_cons. cbn [forallb]. by rewrite IH. Qed.

Lemma existsb_id_truth bs : existsb id (truth <$> bs) = existsb truth bs.
Proof. induction bs as [|b bs IH]; [done|]. rewrite fmap_cons. cbn [existsb]. by rewrite IH. Qed.

Lemma binds_group (is_and : bool) g ts :
  binds_right g ts →
  binds_right (grouped (if is_and then " AND " else " OR ") g)
    (group_truth (if is_and then forallb id else existsb id) ts).
Proof.
  intros Hg. unfold grouped. destruct g as [[|c cs] vs]; cbn [fst snd].
  - intros rest. destruct (Hg rest) as (bs & E & <-). simpl in E. injection E as <- E. exists [].
    simpl. by rewrite E.
  - intros rest. destruct (Hg rest) as (bs & E & <-).
    cbn [fst snd] in E. cbn [eval_conds fst snd]. rewrite eval_group, E.
    assert (∃ b bs', bs = b :: bs') as (b & bs' & ->).
    { cbn [eval_conds] in E. destruct (eval_cond c _) as [b r]. destruct (eval_conds cs r) as [bs' r'].
      injection E as <- _. eauto. }
    exists [if is_and then and3 (b :: bs') else or3 (b :: bs')]. split; [by destruct is_and|].
    assert (group_truth (if is_and then forallb id else existsb id) (truth <$> b :: bs') =
            [(if is_and then forallb id else existsb id) (truth <$> b :: bs')]) as -> by done.
    destruct is_and; (rewrite forallb_id_truth, <- truth_and3 || rewrite existsb_id_truth, <- truth_or3); done.
Qed.

Section FiltersInd.
Context (P : QueryFilters → Prop).
Context (Hf : ∀ eqs cmps texts ands ors, Forall P ands → Forall P ors → P (mkFilters eqs cmps texts ands ors)).

Fixpoint filters_ind (fs : QueryFilters) : P fs :=
  let all := fix go l : Forall P l :=
    match l with
    | [] => Forall_nil_2 P
    | x :: l' => Forall_cons_2 P x l' (filters_ind x) (go l')
    end in
  match fs with
  | mkFilters eqs cmps texts ands ors => Hf eqs cmps texts ands ors (all ands) (all ors)
  end.
End FiltersInd.

Lemma binds_groups (is_and : bool) gs :
  Forall (λ g, binds_right (build_filter_sql g) (truths g)) gs →
  binds_right (foldr both ([], []) (map (λ g, grouped (if is_and then " AND " else " OR ") (build_filter_sql g)) gs))
    (concat (map (λ g, group_truth (if is_and then forallb id else existsb id) (truths g)) gs)).
Proof.
  intros Hgs. apply binds_fold. induction Hgs; constructor; [by apply binds_group|done].
Qed.

Lemma list_bind_concat {A B} (f : A → list B) (xs : list A) : xs ≫= f = concat (f <$> xs).
Proof. induction xs as [|x xs IH]; [done|]. simpl. f_equal. apply IH. Qed.

(** Every value is bound to the condition it was given for. *)
Lemma build_binds_right fs : binds_right (build_filter_sql fs) (truths fs).
Proof.
  induction fs as [eqs cmps texts ands ors Ha Ho] using filters_ind. cbn [build_filter_sql truths].
  unfold plain_filters. rewrite !list_bind_concat.
  assert (∀ a b c d e : list bool, a ++ b ++ c ++ d ++ e = (a ++ b ++ c) ++ d ++ e) as ->
    by (intros; by rewrite <- !app_assoc).
  apply binds_both.
  - apply binds_both; [|apply binds_both]; apply binds_map; intros f _; apply binds_one;
      intros rest; by eexists.
  - apply binds_both; [apply (binds_groups true)|apply (binds_groups false)]; done.
Qed.
End Eval.

(** ** Text search *)

Inductive like_token : Type := LAny | LLit (c : ascii).

(** A pattern of literals and [%], with [\] before an escaped character. *)
Fixpoint like_tokens (s : string) : option (list like_token) :=
  match s with
  | EmptyString => Some []
  | String a s' =>
      if bool_decide (a = BACKSLASH) then
        match s' with
        | EmptyString => None
        | String b s'' => cons (LLit b) <$> like_tokens s''
        end
      else if bool_decide (a = "%"%char) then cons LAny <$> like_tokens s'
      else if bool_decide (a = "_"%char) then None
      else cons (LLit a) <$> like_tokens s'
  end.

Definition same_letter (a b : ascii) : bool :=
  bool_decide (to_ascii_lowercase_char a = to_ascii_lowercase_char b).

Fixpoint like_match (ts : list like_token) (s : string) : bool :=
  match ts with
  | [] => is_empty s
  | LLit c :: ts' =>
      match s with
      | String a s' => same_letter c a && like_match ts' s'
      | EmptyString => false
      end
  | LAny :: ts' =>
      (fix go s := like_match ts' s || match s with String _ s' => go s' | EmptyString => false end) s
  end.

(** [s] has the text [c], upper and lower case of ASCII letters being the same. *)
Fixpoint starts_ci (c s : string) : bool :=
  match c, s with
  | EmptyString, _ => true
  | String a c', String b s' => same_letter a b && starts_ci c' s'
  | _, EmptyString => false
  end.

Fixpoint contains_ci (s c : string) : bool :=
  starts_ci c s || match s with String _ s' => contains_ci s' c | EmptyString => false end.

Fixpoint literals (s : string) : list like_token :=
  match s with
  | EmptyString => []
  | String a s' => LLit a :: literals s'
  end.

Definition special (a : ascii) : bool :=
  bool_decide (a = BACKSLASH) || bool_decide (a = "%"%char) || bool_decide (a = "_"%char).

Lemma escape_like_cons a s :
  escape_like (String a s) = (if special a then String BACKSLASH (singleton a) else singleton a) +:+ escape_like s.
Proof.
  unfold escape_like, special. cbn [replace_char].
  destruct (decide (a = BACKSLASH)) as [->|H1]; [done|].
  rewrite !(bool_decide_eq_false_2 _ H1). cbn [replace_char orb].
  destruct (decide (a = "%"%char)) as [->|H2]; [done|].
  rewrite !(bool_decide_eq_false_2 _ H2). cbn [replace_char orb].
  destruct (decide (a = "_"%char)) as [->|H3]; [done|].
  by rewrite !(bool_decide_eq_false_2 _ H3).
Qed.

Lemma tokens_escaped c p ts :
  like_tokens p = Some ts → like_tokens (escape_like c +:+ p) = Some (literals c ++ ts).
Proof.
  intros Hp. induction c as [|a c IH]; [done|]. rewrite escape_like_cons.
  destruct (special a) eqn:Ha; unfold special in Ha.
  - change (like_tokens (String BACKSLASH (String a (escape_like c +:+ p))) = Some (literals (String a c) ++ ts)).
    simpl. by rewrite IH.
  - apply orb_false_iff in Ha as [[H1 H2]%orb_false_iff H3].
    change (like_tokens (String a (escape_like c +:+ p)) = Some (literals (String a c) ++ ts)).
    cbn [like_tokens]. by rewrite H1, H2, H3, IH.
Qed.

Lemma match_any s : like_match [LAny] s = true.
Proof. induction s as [|a s IH]; [done|]. simpl in *. done. Qed.

Lemma match_literals c s : like_match (literals c ++ [LAny]) s = starts_ci c s.
Proof.
  revert s. induction c as [|a c IH]; intros s; [apply match_any|].
  destruct s as [|b s]; [done|]. cbn [literals app like_match starts_ci]. by rewrite IH.
Qed.

(** The pattern of a text filter finds exactly its text. *)
Lemma like_contains c s :
  ∃ ts, like_tokens ("%" +:+ escape_like c +:+ "%") = Some ts ∧ like_match ts s = contains_ci s c.
Proof.
  exists (LAny :: literals c ++ [LAny]). split.
  - change (cons LAny <$> like_tokens (escape_like c +:+ "%") = Some (LAny :: literals c ++ [LAny])).
    by rewrite (tokens_escaped c "%" [LAny]).
  - induction s as [|a s IH]; cbn [like_match contains_ci]; rewrite match_literals; [done|]. by f_equal.
Qed.

(** ** Statements *)

Fixpoint cond_arity (c : LegacyCond) : nat :=
  match c with
  | CondCmp _ _ | CondLike _ => 1
  | CondGroup _ cs => foldr (λ c n, cond_arity c + n) 0 cs
  end.

Definition conds_arity (cs : list LegacyCond) : nat := foldr (λ c n, cond_arity c + n) 0 cs.

Fixpoint cond_fields (c : LegacyCond) : list string :=
  match c with
  | CondCmp f _ | CondLike f => [f]
  | CondGroup _ cs => concat (map cond_fields cs)
  end.

(** A path SQLite reads: no empty step. *)
Definition path_ok (field : string) : bool := forallb (λ s, negb (is_empty s)) (split "." field).

(** A statement with as many parameters as it has places for, on paths that parse. *)
Definition runs (st : LegacyStatement) (params : list SqlValue) : Prop :=
  length params = 2 + conds_arity (lst_conds st) ∧
  Forall (λ f, path_ok f = true) (concat (map cond_fields (lst_conds st))).

Definition row_selected `{Sqlite} `{LegacySql} (st : LegacyStatement) (params : list SqlValue) (r : LegacyRow) : bool :=
  match params with
  | p :: c :: ps =>
      bool_decide (p = SqlText (lr_plugin_id r)) && bool_decide (c = SqlText (lr_collection r))
      && truth (and3 (fst (eval_conds (lr_data r) (lst_conds st) ps)))
  | _ => false
  end.

Definition order_ok (o : option SortOptions) : Prop := from_option (λ s, is_empty (sort_by s) = false) True o.

(** SQLite on the statements of the legacy storage. The order of the rows is one for all pages: more
    than SQLite promises, where the sort leaves rows in no order, though the statements of the pages
    are the same text. Only the copy to PostgreSQL depends on it. *)
Class LegacySqlLaws `{Sqlite} `{LegacySql} : Prop := {
  legacy_order_perm o rows : legacy_order o rows ≡ₚ rows;
  run_legacy_count_ok st params rows :
    runs st params →
    run_legacy_count st params rows = Ok (Z.of_nat (length (filter (λ r, row_selected st params r = true) rows)));
  run_legacy_select_ok st params limit offset rows :
    runs st params → order_ok (lst_order st) → (0 ≤ limit)%Z → (0 ≤ offset)%Z →
    run_legacy_select st (params ++ [SqlInt limit; SqlInt offset]) rows =
      Ok (take (Z.to_nat limit) (drop (Z.to_nat offset)
            (legacy_order (lst_order st) (filter (λ r, row_selected st params r = true) rows))));
  like_escape_ok t p ts :
    like_tokens p = Some ts → (Z.of_nat (String.length p) ≤ 50000)%Z →
    like_escape (SqlText t) (SqlText p) = Some (like_match ts t);
}.

Lemma conds_arity_app cs cs' : conds_arity (cs ++ cs') = conds_arity cs + conds_arity cs'.
Proof. induction cs as [|c cs IH]; [done|]. simpl. rewrite IH. lia. Qed.

Section Arity.
Context `{HJ : JsonText}.

Definition arity_right (g : list LegacyCond * list json) : Prop := conds_arity (fst g) = length (snd g).

Lemma arity_both g g' : arity_right g → arity_right g' → arity_right (both g g').
Proof. unfold arity_right, both. simpl. intros H1 H2. rewrite conds_arity_app, length_app. lia. Qed.

Lemma arity_fold gs : Forall arity_right gs → arity_right (foldr both ([], []) gs).
Proof. induction 1; simpl; [done|by apply arity_both]. Qed.

Lemma arity_grouped connective g : arity_right g → arity_right (grouped connective g).
Proof. unfold arity_right, grouped. destruct g as [[|c cs] vs]; unfold conds_arity; simpl; intros H1; [done|]. lia. Qed.

Lemma arity_map {A} (f : A → list LegacyCond * list json) (xs : list A) :
  (∀ x, arity_right (f x)) → arity_right (foldr both ([], []) (f <$> xs)).
Proof. intros Hf. apply arity_fold, Forall_fmap, Forall_forall. intros x _. apply Hf. Qed.

Lemma arity_one field c v : cond_arity c = 1 → arity_right (one_filter field c v).
Proof. unfold arity_right, one_filter. destruct (validate_field_name field); simpl; lia. Qed.

Lemma build_arity fs : arity_right (build_filter_sql fs).
Proof.
  induction fs as [eqs cmps texts ands ors Ha Ho] using filters_ind. cbn [build_filter_sql]. unfold plain_filters.
  repeat apply arity_both; try (apply arity_map; intros f; by apply arity_one).
  - apply arity_fold. induction Ha; constructor; [by apply arity_grouped|done].
  - apply arity_fold. induction Ho; constructor; [by apply arity_grouped|done].
Qed.
End Arity.

(** The row is one that the filters ask for. *)
Definition matches_query `{JsonText} `{Sqlite} `{LegacySql} (plugin_id collection : string) (fs : QueryFilters)
    (r : LegacyRow) : bool :=
  bool_decide (lr_plugin_id r = plugin_id) && bool_decide (lr_collection r = collection)
  && passes_filters (lr_data r) fs.

Section Query.
Context `{HJ : JsonText} `{HCh : Chrono} `{HS : Sqlite} `{HL : LegacySql, !LegacySqlLaws}.

Definition query_binds (plugin_id collection : string) (fs : QueryFilters) : list SqlValue :=
  json_value_to_boxed_sql <$> (JStr plugin_id :: JStr collection :: snd (build_filter_sql fs)).

Lemma selected_matches plugin_id collection fs o r :
  row_selected (mkLegacyStatement (fst (build_filter_sql fs)) o) (query_binds plugin_id collection fs) r
  = matches_query plugin_id collection fs r.
Proof.
  unfold row_selected, query_binds, matches_query. rewrite !fmap_cons. cbn [json_value_to_boxed_sql lst_conds].
  f_equal.
  - f_equal; apply bool_decide_ext; split; congruence.
  - destruct (build_binds_right (lr_data r) fs []) as (bs & E & Ht). rewrite app_nil_r in E. rewrite E.
    cbn [fst]. rewrite truth_and3. unfold passes_filters. by rewrite <- Ht, forallb_id_truth.
Qed.

Lemma query_runs plugin_id collection fs o :
  Forall (λ f, path_ok f = true) (concat (map cond_fields (fst (build_filter_sql fs)))) →
  runs (mkLegacyStatement (fst (build_filter_sql fs)) o) (query_binds plugin_id collection fs).
Proof.
  intros Hp. split; [|done]. unfold query_binds. rewrite length_fmap. simpl. by rewrite (build_arity fs).
Qed.
End Query.

(** A query of the legacy storage returns, in the database's order for its sort, the page asked for
    (at most 1000) of exactly the records of the plugin and collection that pass the filters, with
    their total number: every positional parameter is bound to the condition it was given for. *)
Theorem legacy_query_exact `{HJ : JsonText} `{HCh : Chrono} `{HS : Sqlite} `{HL : LegacySql, !LegacySqlLaws}
    d plugin_id collection fs sort pg s :
  (∀ i, ld_fault d i = None) → (0 ≤ pg_limit pg)%Z → (0 ≤ pg_offset pg)%Z →
  Forall (λ r, ∃ x, row_to_record r = Ok x) (db_rows s) →
  Forall (λ f, path_ok f = true) (concat (map cond_fields (fst (build_filter_sql fs)))) →
  from_option (λ o, all_chars sort_char (sort_by o) = true ∧ is_empty (sort_by o) = false) True sort →
  let found := filter (λ r, matches_query plugin_id collection fs r = true) (db_rows s) in
  ∃ records,
    legacy_query d plugin_id collection fs sort pg s =
      Ok (mkQueryResult records (Z.of_nat (length found)) (Z.min (pg_limit pg) 1000) (pg_offset pg)) ∧
    Forall2 (λ row r, row_to_record row = Ok r)
      (take (Z.to_nat (Z.min (pg_limit pg) 1000)) (drop (Z.to_nat (pg_offset pg)) (legacy_order sort found)))
      records ∧
    legacy_order sort found ≡ₚ found.
Proof.
  intros Hd Hl Ho Hrows Hp Hsort found.
  assert (filter (λ r, row_selected (mkLegacyStatement (fst (build_filter_sql fs)) sort)
                         (query_binds plugin_id collection fs) r = true) (db_rows s) = found) as Hf.
  { apply list_filter_iff. intros r. by rewrite selected_matches. }
  pose proof (query_runs plugin_id collection fs sort Hp) as Hr.
  set (page := take _ _).
  assert (∃ records, try_map row_to_record page = Ok records) as [records Hrec].
  { assert (Forall (λ r, ∃ x, row_to_record r = Ok x) page) as Hpage.
    { apply Forall_take, Forall_drop. rewrite legacy_order_perm.
      apply Forall_forall. intros r [_ Hr']%list_elem_of_filter. rewrite Forall_forall in Hrows. auto. }
    clearbody page. induction Hpage as [|r rs [x Hx] _ [xs IH]]; [by exists []|]. simpl. rewrite Hx. simpl.
    rewrite IH. by eexists. }
  exists records. split_and!; [|by apply try_map_Ok|apply legacy_order_perm].
  unfold legacy_query. destruct (build_filter_sql fs) as [conds binds] eqn:E.
  rewrite !Hd. unfold query_binds in Hr, Hf. rewrite E in Hr, Hf. cbn [fst snd] in Hr, Hf.
  rewrite (run_legacy_count_ok _ _ _ Hr), Hf. cbn [result_bind].
  rewrite (run_legacy_select_ok _ _ _ _ _ Hr); cbn [lst_order clamped pg_limit pg_offset];
    [|by destruct sort; simpl in *; [apply Hsort|]|lia|lia].
  rewrite Hf. fold page.
  destruct sort as [o|]; simpl in Hsort; [destruct Hsort as [-> _]|]; cbn [result_bind]; by rewrite Hrec.
Qed.

(** A text filter on a field that holds a text selects it exactly when the text contains the
    filter's, whatever characters that has, letters of ASCII in either case being the same. *)
Theorem text_filter_contains `{HS : Sqlite} `{HL : LegacySql, !LegacySqlLaws} data field c t :
  json_extract ("$." +:+ field) data = SqlText t →
  (Z.of_nat (String.length ("%" +:+ escape_like c +:+ "%")) ≤ 50000)%Z →
  text_truth data (mkText field c) = contains_ci t c.
Proof.
  intros Ht Hlen. unfold text_truth, field_value. cbn [tf_field tf_contains]. rewrite Ht.
  destruct (like_contains c t) as (ts & Hts & Hm). rewrite (like_escape_ok _ _ _ Hts Hlen).
  rewrite Hm. unfold truth. destruct (contains_ci t c); by vm_compute.
Qed.

(** ** Deviations *)

(** Groups of [or] are joined by AND: only the filters within one group are alternatives. *)
Lemma or_groups_all_required `{JsonText} `{Sqlite} `{LegacySql} data g g' b b' :
  truths data g = [b] → truths data g' = [b'] →
  passes_filters data (mkFilters [] [] [] [] [g; g']) = b && b'.
Proof.
  intros Q1 Q2. unfold passes_filters. cbn [truths map concat]. rewrite Q1, Q2. simpl.
  by destruct b, b'.
Qed.

(** A filter on a field whose name does not validate selects everything. *)
Lemma invalid_field_ignored `{JsonText} `{Sqlite} `{LegacySql} data field v :
  validate_field_name field = false →
  passes_filters data (mkFilters [mkFieldFilter field v] [] [] [] []) = true.
Proof. intros Hv. unfold passes_filters. cbn. unfold if_valid. by rewrite Hv. Qed.

(** A record whose audit entry cannot be written is stored all the same, and not announced. *)
Lemma failed_audit_keeps_row `{JsonText} `{Chrono} d plugin_id collection id data s e :
  ld_fault d 0 = None → ld_fault d 1 = Some e → existsb (λ r, bool_decide (lr_id r = id)) (db_rows s) = false →
  ∃ s', legacy_create_with_id d plugin_id collection id data s = (Err e, s') ∧
        (∃ r, r ∈ db_rows s' ∧ lr_id r = id) ∧ db_changes s' = db_changes s.
Proof.
  intros Q1 Q2 Hn. unfold legacy_create_with_id, log_event_full. rewrite Q1, Q2, Hn.
  eexists. split; [done|]. split; [|done]. eexists. split; [apply elem_of_app; right; by constructor|done].
Qed.

(** ** Instances for witnesses *)

Definition like_of (x p : SqlValue) : option bool :=
  match x, p with
  | SqlText t, SqlText p => (λ ts, like_match ts t) <$> like_tokens p
  | _, _ => None
  end.

Definition base_legacy_sql : LegacySql := {|
  like_escape := like_of;
  legacy_order _ rows := rows;
  run_legacy_count _ _ _ := Ok 0%Z;
  run_legacy_select _ _ _ := Ok [];
|}.

Definition toy_legacy_sql : LegacySql := {|
  like_escape := like_of;
  legacy_order _ rows := rows;
  run_legacy_count st params rows :=
    Ok (Z.of_nat (length (filter (λ r, @row_selected toy_sqlite base_legacy_sql st params r = true) rows)));
  run_legacy_select st params rows :=
    match reverse params with
    | SqlInt offset :: SqlInt limit :: ps =>
        Ok (take (Z.to_nat limit) (drop (Z.to_nat offset)
              (filter (λ r, @row_selected toy_sqlite base_legacy_sql st (reverse ps) r = true) rows)))
    | _ => Err "parameters"
    end;
|}.

Lemma toy_legacy_selected st params r :
  @row_selected toy_sqlite toy_legacy_sql st params r = @row_selected toy_sqlite base_legacy_sql st params r.
Proof. reflexivity. Qed.

Lemma toy_legacy_laws : @LegacySqlLaws toy_sqlite toy_legacy_sql.
Proof.
  split.
  - done.
  - intros. reflexivity.
  - intros st params limit offset rows _ _ _ _. simpl. rewrite reverse_app. simpl. by rewrite reverse_involutive.
  - intros t p ts Hts _. simpl. by rewrite Hts.
Qed.

Definition no_faults : Draw := mkLegacyDraw 7 "u" 7 "a" (λ _, None).

(** A task of a plugin. *)
Definition task_row (id plugin : string) (n : Z) : LegacyRow :=
  mkLegacyRow id plugin "tasks" (@json_to_string coded_text (JObj [("n", JNum (NInt n))])) 1 None None
    (@to_rfc3339 toy_chrono 1) (@to_rfc3339 toy_chrono 1).

Definition task_db : LegacyDb :=
  mkDb [task_row "a" "p" 1; task_row "b" "p" 2; task_row "c" "q" 2; task_row "d" "p" 2; task_row "e" "p" 2] [] [].

Definition two_filter : QueryFilters := mkFilters [mkFieldFilter "n" (JNum (NInt 2))] [] [] [] [].

Lemma legacy_query_exact_witness :
  ∃ records,
    @legacy_query coded_text toy_chrono toy_legacy_sql no_faults "p" "tasks" two_filter None
      (mkPagination 1 1) task_db = Ok (mkQueryResult records 3 1 1) ∧
    Forall2 (λ row r, @row_to_record coded_text toy_chrono row = Ok r) [task_row "d" "p" 2] records.
Proof.
  destruct (@legacy_query_exact coded_text toy_chrono toy_sqlite toy_legacy_sql toy_legacy_laws no_faults
    "p" "tasks" two_filter None (mkPagination 1 1) task_db) as (records & Hq & Hr & _).
  - intros i. reflexivity.
  - discriminate.
  - discriminate.
  - repeat (constructor; [eexists; vm_compute; reflexivity|]). constructor.
  - repeat constructor.
  - exact I.
  - exists records. split; [exact Hq|exact Hr].
Defined.

Lemma text_filter_contains_witness :
  @text_truth toy_sqlite toy_legacy_sql (@json_to_string coded_text (JObj [("t", JStr "100% Sure")]))
    (mkText "t" "0% s") = true.
Proof.
  rewrite (@text_filter_contains toy_sqlite toy_legacy_sql toy_legacy_laws _ "t" "0% s" "100% Sure").
  - vm_compute. reflexivity.
  - vm_compute. reflexivity.
  - vm_compute. discriminate.
Defined.
