(* ===== verification/LegacyRefines.v ===== *)
(** * The legacy storage implements the storage interface

    The rows of the database, read back, are the map of records that sync relies on: every
    operation without database faults answers as Federation.v's storage and stays its
    representation. *)

From stdpp Require Import base tactics list gmap sets strings.
From Stdlib Require Import ZArith Lia.
From S2P Require Import Prelude RustString RustText Json Types Sessions SessionsFacts Storage Conflict Federation LegacyStore LegacyFacts.

Local Open Scope string_scope.
Local Open Scope list_scope.

Section Refine.
Context `{HJ : JsonText, !JsonTextLaws} `{HCh : Chrono, !ChronoLaws}.

Record represents (s : LegacyDb) (f : SqliteStorage) : Prop := {
  rp_ids : NoDup (lr_id <$> db_rows s);
  rp_rows : ∀ id r, rows f !! id = Some r ↔ ∃ row, row ∈ db_rows s ∧ lr_id row = id ∧ row_to_record row = Ok r;
  rp_read : ∀ row, row ∈ db_rows s → ∃ r, row_to_record row = Ok r;
}.

(** ** Rows *)

Lemma row_to_record_fields row r :
  row_to_record row = Ok r →
  rec_id r = lr_id row ∧ rec_plugin_id r = lr_plugin_id row ∧ rec_collection r = lr_collection row ∧
  rec_version r = lr_version row ∧ rec_user_id r = lr_user_id row ∧ rec_household_id r = lr_household_id row ∧
  legacy_date (lr_created_at row) = Ok (rec_created_at r).
Proof.
  unfold row_to_record. destruct (json_from_str _); simpl; [|done].
  destruct (legacy_date (lr_created_at row)); simpl; [|done].
  destruct (legacy_date (lr_updated_at row)); simpl; [|done]. by intros [= <-].
Qed.

Lemma legacy_date_text t : rfc3339_year t → legacy_date (to_rfc3339 t) = Ok t.
Proof. intros Ht. unfold legacy_date. by rewrite rfc3339_parse. Qed.

Lemma names_row_true p c id row :
  names_row p c id row = true ↔ lr_id row = id ∧ lr_plugin_id row = p ∧ lr_collection row = c.
Proof. unfold names_row. rewrite !andb_true_iff, !bool_decide_eq_true. tauto. Qed.

Section State.
Context (s : LegacyDb) (f : SqliteStorage) (Hr : represents s f).

Lemma row_of_id row : row ∈ db_rows s → ∃ r, row_to_record row = Ok r ∧ rows f !! lr_id row = Some r.
Proof.
  intros Hin. destruct (rp_read _ _ Hr row Hin) as [r Hrow]. exists r. split; [done|].
  apply (rp_rows _ _ Hr). eauto.
Qed.

(** The row a statement names is the record that is selected. *)
Lemma named_row p c id row :
  row ∈ db_rows s → names_row p c id row = true →
  ∃ r, row_to_record row = Ok r ∧ rows f !! id = Some r ∧ select (rows f) p c id = Some r.
Proof.
  intros Hin (<- & Hp & Hc)%names_row_true. destruct (row_of_id row Hin) as (r & Hrow & Hl).
  exists r. split; [done|]. split; [done|]. unfold select. rewrite Hl.
  destruct (row_to_record_fields _ _ Hrow) as (_ & -> & -> & _). by rewrite bool_decide_eq_true_2.
Qed.

Lemma no_named_row p c id :
  (∀ row, row ∈ db_rows s → names_row p c id row = false) → select (rows f) p c id = None.
Proof.
  intros Hn. unfold select. destruct (rows f !! id) as [r|] eqn:E; [|done].
  apply (rp_rows _ _ Hr) in E as (row & Hin & Hid & Hrow). specialize (Hn row Hin).
  rewrite bool_decide_eq_false_2; [done|]. intros [Hp Hc].
  destruct (row_to_record_fields _ _ Hrow) as (_ & Hp' & Hc' & _).
  apply not_true_iff_false in Hn. apply Hn, names_row_true. split_and!; congruence.
Qed.

Lemma existsb_named p c id :
  existsb (names_row p c id) (db_rows s) = bool_decide (is_Some (select (rows f) p c id)).
Proof.
  destruct (existsb _ _) eqn:E.
  - apply existsb_elem_of in E as (row & Hin & Hn). destruct (named_row p c id row Hin Hn) as (r & _ & _ & ->).
    by rewrite bool_decide_eq_true_2 by eauto.
  - rewrite no_named_row; [done|]. intros row Hin.
    by apply (proj1 (existsb_false_elem_of _ _) E).
Qed.

Lemma existsb_id id : existsb (λ r, bool_decide (lr_id r = id)) (db_rows s) = bool_decide (is_Some (rows f !! id)).
Proof.
  destruct (existsb _ _) eqn:E.
  - apply existsb_elem_of in E as (row & Hin & <-%bool_decide_eq_true).
    destruct (row_of_id row Hin) as (r & _ & ->). by rewrite bool_decide_eq_true_2 by eauto.
  - symmetry. apply bool_decide_eq_false. intros [r (row & Hin & Hid & _)%(rp_rows _ _ Hr)].
    pose proof (proj1 (existsb_false_elem_of _ _) E row Hin) as Hf. simpl in Hf.
    by apply bool_decide_eq_false in Hf.
Qed.

Lemma find_named p c id :
  match find_legacy p c id s with
  | Some row => row ∈ db_rows s ∧ names_row p c id row = true
  | None => ∀ row, row ∈ db_rows s → names_row p c id row = false
  end.
Proof.
  unfold find_legacy. destruct (filter _ (db_rows s)) as [|row rest] eqn:E; simpl.
  - intros row Hin. apply not_true_iff_false. intros Hn.
    assert (row ∈ filter (λ r, names_row p c id r = true) (db_rows s)) as Hx by by apply list_elem_of_filter.
    rewrite E in Hx. by apply elem_of_nil in Hx.
  - assert (row ∈ filter (λ r, names_row p c id r = true) (db_rows s)) as Hx by (rewrite E; by constructor).
    apply list_elem_of_filter in Hx as [??]. done.
Qed.
End State.

(** ** Operations *)

(** No statement fails, and the clock shows a year up to 9999. *)
Definition quiet (d : Draw) : Prop := (∀ i, ld_fault d i = None) ∧ rfc3339_year (ld_now d).

Lemma get_refines d p c id s f :
  quiet d → represents s f → legacy_get d p c id s = fst (sqlite_get p c id f).
Proof.
  intros [Hd _] Hr. unfold legacy_get, sqlite_get. rewrite Hd. cbn [fst].
  pose proof (find_named s p c id) as Hf. destruct (find_legacy p c id s) as [row|].
  - destruct Hf as [Hin Hn]. destruct (named_row s f Hr p c id row Hin Hn) as (r & -> & _ & ->). done.
  - by rewrite (no_named_row s f Hr p c id Hf).
Qed.

(** The state after the audit entry and the change event. *)
Lemma logged_rows d i e c id sub p det s s' :
  log_event_full d i e c id sub p det s = (Ok tt, s') → db_rows s' = db_rows s.
Proof. unfold log_event_full. destruct (ld_fault d i); [done|]. by intros [= <-]. Qed.

Lemma log_quiet d i e c id sub p det s :
  quiet d → ∃ s', log_event_full d i e c id sub p det s = (Ok tt, s') ∧ db_rows s' = db_rows s.
Proof.
  intros [Hd _]. unfold log_event_full. rewrite Hd. by eexists.
Qed.

Lemma represents_rows s s' f : db_rows s' = db_rows s → represents s f → represents s' f.
Proof. intros E [H1 H2 H3]. split; rewrite E; done. Qed.

Lemma insert_represents s f row r cl :
  represents s f → row_to_record row = Ok r → rows f !! lr_id row = None →
  represents (set_rows (db_rows s ++ [row]) s) (mkSqlite (<[lr_id row := r]> (rows f)) cl).
Proof.
  intros [H1 H2 H3] Hrow Hn. split; cbn [db_rows set_rows rows].
  - rewrite fmap_app. apply NoDup_app. split_and!; [done| |apply NoDup_singleton].
    intros id (x & -> & Hx)%list_elem_of_fmap. cbn [fmap list_fmap]. rewrite list_elem_of_singleton. intros Hid.
    destruct (H3 x Hx) as [rx Hrx]. assert (rows f !! lr_id x = Some rx) as Hl by (apply H2; eauto).
    rewrite Hid in Hl. congruence.
  - intros id r'. rewrite lookup_insert_Some. setoid_rewrite elem_of_app. setoid_rewrite list_elem_of_singleton.
    rewrite H2. split.
    + intros [[<- <-]|[Hne (x & Hx & Hid & Hrx)]]; eauto 8.
    + intros (x & [Hx| ->] & Hid & Hrx); [|left; split; congruence]. right. split; [|eauto].
      intros <-. destruct (H3 x Hx) as [rx Hrx']. assert (rows f !! lr_id x = Some rx) by (apply H2; eauto).
      rewrite Hid in *. congruence.
  - intros x [Hx| ->%list_elem_of_singleton]%elem_of_app; eauto.
Qed.

Lemma create_refines d p c id data s f :
  quiet d → represents s f → json_printable data → ld_now d = clock f 0 →
  let '(r, s') := legacy_create_with_id d p c id data s in
  let '(r', f') := sqlite_create_with_id p c id data f in
  r = r' ∧ represents s' f'.
Proof.
  intros Hd Hr Hc Hnow. unfold legacy_create_with_id, sqlite_create_with_id. rewrite (proj1 Hd), (existsb_id s f Hr).
  destruct (rows f !! id) as [x|] eqn:E.
  - rewrite bool_decide_eq_true_2 by eauto. split; [done|]. by destruct Hr.
  - rewrite bool_decide_eq_false_2 by (intros []; congruence).
    destruct (log_quiet d 1 "system.storage.created" (Some c) (Some id) None (Some p) None
      (set_rows (db_rows s ++ [mkLegacyRow id p c (json_to_string data) 1 None None (to_rfc3339 (ld_now d))
         (to_rfc3339 (ld_now d))]) s) Hd) as (s1 & -> & Hs1).
    rewrite Hnow in *. split; [done|]. eapply represents_rows; [|eapply (insert_represents s f
      (mkLegacyRow id p c (json_to_string data) 1 None None (to_rfc3339 (clock f 0)) (to_rfc3339 (clock f 0))))];
      [exact Hs1|done| |done].
    unfold row_to_record. cbn. rewrite json_print_parse by done. simpl.
    by rewrite legacy_date_text by (rewrite <- Hnow; apply Hd).
Qed.

Lemma delete_represents s f p c id cl :
  represents s f → is_Some (select (rows f) p c id) →
  represents (set_rows (filter (λ r, names_row p c id r = false) (db_rows s)) s) (mkSqlite (delete id (rows f)) cl).
Proof.
  intros Hr Hsel. destruct Hr as [H1 H2 H3] eqn:EHr. clear EHr. split; cbn [db_rows set_rows rows].
  - clear -H1. induction (db_rows s) as [|x xs IH]; [done|]. rewrite fmap_cons, NoDup_cons in H1.
    destruct H1 as [Hx Hxs]. rewrite filter_cons. case_decide; [|auto].
    rewrite fmap_cons, NoDup_cons. split; [|auto].
    rewrite list_elem_of_fmap in *. intros (y & Hy & [_ Hin]%list_elem_of_filter). eauto.
  - intros id' r. rewrite lookup_delete_Some, H2. setoid_rewrite list_elem_of_filter. split.
    + intros (Hne & x & Hx & Hid & Hrx). exists x. split_and!; try done.
      apply not_true_iff_false. intros (Hid' & _)%names_row_true. congruence.
    + intros (x & [Hn Hx] & Hid & Hrx). split; [|eauto]. intros <-.
      destruct Hsel as [r0 Hsel]. unfold select in Hsel.
      destruct (rows f !! id) as [r1|] eqn:E1; [|done]. case_bool_decide as Hpc; [|done].
      destruct Hpc as [Hp Hcc].
      assert (rows f !! id = Some r) as E2 by (apply H2; eauto). rewrite E1 in E2. injection E2 as ->.
      destruct (row_to_record_fields _ _ Hrx) as (_ & Hp' & Hc' & _).
      apply not_true_iff_false in Hn. apply Hn, names_row_true. split_and!; congruence.
  - intros x [_ Hx]%list_elem_of_filter. eauto.
Qed.

Lemma delete_refines d p c id s f :
  quiet d → represents s f →
  let '(r, s') := legacy_delete d p c id s in
  let '(r', f') := sqlite_delete p c id f in
  r = r' ∧ represents s' f'.
Proof.
  intros Hd Hr. unfold legacy_delete, sqlite_delete. rewrite (proj1 Hd), (existsb_named s f Hr).
  destruct (select (rows f) p c id) as [r|] eqn:E.
  - rewrite bool_decide_eq_true_2 by eauto. cbn [negb].
    destruct (log_quiet d 1 "system.storage.deleted" (Some c) (Some id) None (Some p) None
      (set_rows (filter (λ r, names_row p c id r = false) (db_rows s)) s) Hd) as (s1 & -> & Hs1).
    split; [done|]. eapply represents_rows; [exact Hs1|]. apply delete_represents; [done|]. rewrite E. eauto.
  - rewrite bool_decide_eq_false_2 by (intros []; congruence). done.
Qed.

(** ** Updates *)

Lemma wrap_i64_id z : (- 2 ^ 63 ≤ z < 2 ^ 63)%Z → wrap_i64 z = z.
Proof. intros Hz. unfold wrap_i64. rewrite Z.mod_small; lia. Qed.

Lemma updated_to_record data v now row r :
  rfc3339_year now → json_printable data → row_to_record row = Ok r →
  row_to_record (updated_legacy data v (to_rfc3339 now) row) =
  Ok (mkRecord (rec_id r) (rec_plugin_id r) (rec_collection r) data v (rec_user_id r) (rec_household_id r)
        (rec_created_at r) now).
Proof.
  intros Hy Hc Hrow. destruct (row_to_record_fields _ _ Hrow) as (-> & -> & -> & _ & -> & -> & Hcr).
  unfold row_to_record. cbn. rewrite json_print_parse by done. simpl. rewrite Hcr. simpl.
  by rewrite legacy_date_text.
Qed.

Section Update.
Context (s : LegacyDb) (f : SqliteStorage) (Hr : represents s f) (p c id : string) (version : Z).

Definition update_hit (r : LegacyRow) : bool := names_row p c id r && bool_decide (lr_version r = version).

(** The one row that is hit. *)
Lemma hit_row row :
  row ∈ db_rows s → update_hit row = true →
  ∃ r, row_to_record row = Ok r ∧ rows f !! id = Some r ∧ select (rows f) p c id = Some r ∧ rec_version r = version.
Proof.
  intros Hin [Hn Hv%bool_decide_eq_true]%andb_true_iff.
  destruct (named_row s f Hr p c id row Hin Hn) as (r & Hrow & Hl & Hs). exists r. split_and!; try done.
  destruct (row_to_record_fields _ _ Hrow) as (_ & _ & _ & -> & _). done.
Qed.

Lemma existsb_hit :
  existsb update_hit (db_rows s)
  = match select (rows f) p c id with Some r => bool_decide (rec_version r = version) | None => false end.
Proof.
  destruct (existsb update_hit (db_rows s)) eqn:E.
  - apply existsb_elem_of in E as (row & Hin & Hh). destruct (hit_row row Hin Hh) as (r & _ & _ & -> & Hv).
    by rewrite bool_decide_eq_true_2.
  - destruct (select (rows f) p c id) as [r|] eqn:Es; [|done]. symmetry. apply bool_decide_eq_false. intros Hv.
    unfold select in Es. destruct (rows f !! id) as [r'|] eqn:El; [|done]. case_bool_decide as Hpc; [|done].
    injection Es as ->. destruct Hpc as [Hp Hc].
    apply (rp_rows _ _ Hr) in El as (row & Hin & Hid & Hrow).
    destruct (row_to_record_fields _ _ Hrow) as (_ & Hp' & Hc' & Hv' & _).
    pose proof (proj1 (existsb_false_elem_of _ _) E row Hin) as Hf. apply not_true_iff_false in Hf. apply Hf.
    apply andb_true_iff. split; [apply names_row_true; split_and!; congruence|].
    apply bool_decide_eq_true. congruence.
Qed.

Context (data : json) (new_version : Z) (now : timestamp).

Definition after_update (r : LegacyRow) : LegacyRow :=
  if update_hit r then updated_legacy data new_version (to_rfc3339 now) r else r.

Lemma after_update_id r : lr_id (after_update r) = lr_id r.
Proof. unfold after_update. by destruct (update_hit r). Qed.

Lemma after_update_ids : lr_id <$> (after_update <$> db_rows s) = lr_id <$> db_rows s.
Proof.
  rewrite <- list_fmap_compose. apply list_fmap_ext. intros i r _. simpl. apply after_update_id.
Qed.

Lemma update_represents row r cl :
  rfc3339_year now → json_printable data → row ∈ db_rows s → update_hit row = true → row_to_record row = Ok r →
  represents (set_rows (after_update <$> db_rows s) s)
    (mkSqlite (<[id := mkRecord id p c data new_version (rec_user_id r) (rec_household_id r) (rec_created_at r) now]>
                 (rows f)) cl).
Proof.
  intros Hy Hcan Hin Hh Hrow.
  pose proof (proj1 (andb_prop _ _ Hh)) as (Hid & Hp & Hc)%names_row_true.
  assert (row_to_record (after_update row) =
    Ok (mkRecord id p c data new_version (rec_user_id r) (rec_household_id r) (rec_created_at r) now)) as Hnew.
  { unfold after_update. rewrite Hh, (updated_to_record _ _ _ _ _ Hy Hcan Hrow).
    destruct (row_to_record_fields _ _ Hrow) as (-> & -> & -> & _). by rewrite Hid, Hp, Hc. }
  assert (∀ x, x ∈ db_rows s → lr_id x ≠ id → after_update x = x) as Hother.
  { intros x Hx Hne. unfold after_update, update_hit. destruct (names_row p c id x) eqn:En; [|done].
    by apply names_row_true in En as (? & _). }
  split; cbn [db_rows set_rows rows].
  - rewrite after_update_ids. apply Hr.
  - intros id' r'. rewrite lookup_insert_Some, (rp_rows _ _ Hr). split.
    + intros [[<- <-]|[Hne (x & Hx & Hid' & Hrx)]].
      * exists (after_update row). split_and!; [by apply list_elem_of_fmap_2|by rewrite after_update_id|done].
      * exists x. split_and!; try done. rewrite <- (Hother x Hx) by congruence. by apply list_elem_of_fmap_2.
    + intros (y & (x & -> & Hx)%list_elem_of_fmap & Hid' & Hrx). rewrite after_update_id in Hid'.
      destruct (decide (id' = id)) as [->|Hne].
      * left. split; [done|]. assert (x = row) as -> by (eapply (NoDup_fmap_elem lr_id); [apply Hr|done..|congruence]).
        congruence.
      * right. split; [congruence|]. rewrite Hother in Hrx by congruence. eauto.
  - intros y (x & -> & Hx)%list_elem_of_fmap. destruct (decide (lr_id x = id)) as [Hx'|Hne].
    + assert (x = row) as -> by (eapply (NoDup_fmap_elem lr_id); [apply Hr|done..|congruence]). eauto.
    + rewrite Hother by done. by apply (rp_read _ _ Hr).
Qed.

(** The row that is read after the update. *)
Lemma updated_head row :
  row ∈ db_rows s → update_hit row = true →
  head (filter (λ r, lr_id r = id) (after_update <$> db_rows s)) = Some (after_update row).
Proof.
  intros Hin Hh. pose proof (proj1 (andb_prop _ _ Hh)) as (Hid & _)%names_row_true.
  destruct (filter _ _) as [|y ys] eqn:E.
  - assert (after_update row ∈ filter (λ r, lr_id r = id) (after_update <$> db_rows s)) as Hx.
    { apply list_elem_of_filter. split; [by rewrite after_update_id|by apply list_elem_of_fmap_2]. }
    rewrite E in Hx. by apply elem_of_nil in Hx.
  - simpl. f_equal. assert (y ∈ filter (λ r, lr_id r = id) (after_update <$> db_rows s)) as Hy
      by (rewrite E; by constructor).
    apply list_elem_of_filter in Hy as [Hy (x & -> & Hx)%list_elem_of_fmap]. rewrite after_update_id in Hy.
    f_equal. eapply (NoDup_fmap_elem lr_id); [apply Hr|done..|congruence].
Qed.
End Update.

Lemma update_refines d p c id data version s f :
  quiet d → represents s f → json_printable data → ld_now d = clock f 0 → (- 2 ^ 63 ≤ version < 2 ^ 63 - 1)%Z →
  let '(r, s') := legacy_update d p c id data version s in
  let '(r', f') := sqlite_update p c id data version f in
  r = r' ∧ represents s' f'.
Proof.
  intros Hd Hr Hcan Hnow Hv. unfold legacy_update, sqlite_update. cbv zeta.
  change (λ r, names_row p c id r && bool_decide (lr_version r = version)) with (update_hit p c id version).
  rewrite !(proj1 Hd), (wrap_i64_id (version + 1)), Hnow by lia. cbn [db_rows set_rows].
  change (λ r, if names_row p c id r && bool_decide (lr_version r = version)
               then updated_legacy data (version + 1) (to_rfc3339 (clock f 0)) r else r)
    with (after_update p c id version data (version + 1) (clock f 0)).
  pose proof (existsb_hit s f Hr p c id version) as He.
  destruct (existsb (update_hit p c id version) (db_rows s)) eqn:Ex; cbn [negb];
    destruct (select (rows f) p c id) as [r|] eqn:Es; try done.
  - rewrite <- He. apply existsb_elem_of in Ex as (row & Hin & Hh).
    destruct (hit_row s f Hr p c id version row Hin Hh) as (r' & Hrow & _ & Hs' & _).
    rewrite Es in Hs'. injection Hs' as <-.
    rewrite (updated_head s f Hr p c id version data (version + 1) (clock f 0) row Hin Hh).
    destruct (log_quiet d 3 "system.storage.updated" (Some c) (Some id) None (Some p)
      (Some (mk_obj [("new_version", JNum (NInt (version + 1)))]))
      (set_rows (after_update p c id version data (version + 1) (clock f 0) <$> db_rows s) s) Hd) as (s1 & -> & Hs1).
    destruct (row_to_record_fields _ _ Hrow) as (_ & _ & _ & _ & _ & _ & Hcr).
    assert (lr_created_at (after_update p c id version data (version + 1) (clock f 0) row) = lr_created_at row) as ->
      by (unfold after_update; by destruct (update_hit _ _ _ _ row)).
    rewrite Hcr. split; [done|]. eapply represents_rows; [exact Hs1|].
    assert (rfc3339_year (clock f 0)) by (rewrite <- Hnow; apply Hd). by eapply update_represents.
  - rewrite <- He, (existsb_named s f Hr), Es, bool_decide_eq_true_2 by eauto. split; [done|]. by destruct Hr.
  - rewrite (existsb_named s f Hr), Es, bool_decide_eq_false_2 by (intros []; congruence).
    split; [done|]. by destruct Hr.
Qed.
End Refine.

(** ** Sequences of operations *)

Inductive legacy_op : Type :=
| LGet (plugin_id collection id : string)
| LCreate (plugin_id collection id : string) (data : json)
| LUpdate (plugin_id collection id : string) (data : json) (version : Z)
| LDelete (plugin_id collection id : string).

Inductive legacy_answer : Type :=
| AGet (r : result (option StoredRecord) string)
| ACreate (r : result StoredRecord string)
| AUpdate (r : result StoredRecord LegacyError)
| ADelete (r : result bool string).

Definition legacy_step `{JsonText} `{Chrono} (o : legacy_op) (d : Draw) (s : LegacyDb) : legacy_answer * LegacyDb :=
  match o with
  | LGet p c id => (AGet (legacy_get d p c id s), s)
  | LCreate p c id data => let '(r, s') := legacy_create_with_id d p c id data s in (ACreate r, s')
  | LUpdate p c id data v => let '(r, s') := legacy_update d p c id data v s in (AUpdate r, s')
  | LDelete p c id => let '(r, s') := legacy_delete d p c id s in (ADelete r, s')
  end.

(** The same through the storage interface, at the time of the draw. *)
Definition adapter_step (o : legacy_op) (d : Draw) (f : SqliteStorage) : legacy_answer * SqliteStorage :=
  let f := mkSqlite (rows f) (λ _, ld_now d) in
  match o with
  | LGet p c id => let '(r, f') := sa_get p c id f in (AGet r, f')
  | LCreate p c id data => let '(r, f') := sa_create_with_id p c id data f in (ACreate r, f')
  | LUpdate p c id data v => let '(r, f') := sa_update p c id data v f in (AUpdate r, f')
  | LDelete p c id => let '(r, f') := sa_delete p c id f in (ADelete r, f')
  end.

Fixpoint run_steps {S : Type} (step : legacy_op → Draw → S → legacy_answer * S) (os : list (legacy_op * Draw)) (s : S) :
    list legacy_answer * S :=
  match os with
  | [] => ([], s)
  | (o, d) :: os' =>
      let '(a, s1) := step o d s in let '(rest, s2) := run_steps step os' s1 in (a :: rest, s2)
  end.

(** Values as serde keeps them, versions of 64 bits. *)
Definition legacy_op_ok `{JsonText} (o : legacy_op) : Prop :=
  match o with
  | LCreate _ _ _ data => json_printable data
  | LUpdate _ _ _ data v => json_printable data ∧ (- 2 ^ 63 ≤ v < 2 ^ 63 - 1)%Z
  | _ => True
  end.

Lemma represents_clock `{JsonText} `{Chrono} s f cl : represents s f → represents s (mkSqlite (rows f) cl).
Proof. intros []. by split. Qed.

Lemma legacy_step_implements `{HJ : JsonText, !JsonTextLaws} `{HCh : Chrono, !ChronoLaws} o d s f :
  quiet d → legacy_op_ok o → represents s f →
  let '(a, s') := legacy_step o d s in let '(a', f') := adapter_step o d f in a = a' ∧ represents s' f'.
Proof.
  intros Hd Ho Hr%(represents_clock _ _ (λ _, ld_now d)). unfold adapter_step.
  destruct o as [p c id|p c id data|p c id data v|p c id]; cbn [legacy_step sa_get sa_create_with_id sa_update sa_delete sqlite_storage].
  - pose proof (get_refines d p c id s _ Hd Hr) as ->. destruct (sqlite_get p c id _) as [r f'] eqn:E.
    unfold sqlite_get in E. by injection E as <- <-.
  - pose proof (create_refines d p c id data s _ Hd Hr Ho eq_refl) as Hc.
    destruct (legacy_create_with_id _ _ _ _ _ _), (sqlite_create_with_id _ _ _ _ _). by destruct Hc as [-> ?].
  - destruct Ho as [Hc Hv]. pose proof (update_refines d p c id data v s _ Hd Hr Hc eq_refl Hv) as Hu.
    destruct (legacy_update _ _ _ _ _ _ _), (sqlite_update _ _ _ _ _ _). by destruct Hu as [-> ?].
  - pose proof (delete_refines d p c id s _ Hd Hr) as Hx.
    destruct (legacy_delete _ _ _ _ _), (sqlite_delete _ _ _ _). by destruct Hx as [-> ?].
Qed.

(** C19. As long as the database does not fail, in the years up to 9999 and with data that serde_json
    reads back (nested at most 127 deep, floats that read back) and 64-bit versions, any sequence of
    reads, creations, updates and deletions on the tables of the legacy storage is answered as by the
    storage interface that sync uses, a map of records with optimistic versions, and the rows remain a
    representation of that map. *)
Theorem legacy_implements_adapter `{HJ : JsonText, !JsonTextLaws} `{HCh : Chrono, !ChronoLaws} os s f :
  Forall (λ od, quiet (snd od) ∧ legacy_op_ok (fst od)) os → represents s f →
  fst (run_steps legacy_step os s) = fst (run_steps adapter_step os f) ∧
  represents (snd (run_steps legacy_step os s)) (snd (run_steps adapter_step os f)).
Proof.
  intros Hos. revert s f. induction Hos as [|[o d] os [Hd Ho] _ IH]; intros s f Hr; [done|].
  pose proof (legacy_step_implements o d s f Hd Ho Hr) as Hstep. cbn [run_steps].
  destruct (legacy_step o d s) as [a s1], (adapter_step o d f) as [a' f1]. destruct Hstep as [<- Hr1].
  destruct (IH s1 f1 Hr1) as [Ha Hr2].
  destruct (run_steps legacy_step os s1), (run_steps adapter_step os f1). cbn in *. by rewrite Ha.
Qed.

Lemma empty_represents `{JsonText} `{Chrono} : represents (mkDb [] [] []) (mkSqlite ∅ (λ _, 0%Z)).
Proof.
  split; cbn.
  - constructor.
  - intros id r. rewrite lookup_empty. split; [done|]. by intros (? & ?%elem_of_nil & _).
  - by intros row ?%elem_of_nil.
Qed.

Definition at_time (t : timestamp) : Draw := mkLegacyDraw t "u" t "a" (λ _, None).

Definition legacy_day : list (legacy_op * Draw) :=
  [(LCreate "core" "tasks" "a" (JStr "one"), at_time 1); (LUpdate "core" "tasks" "a" (JStr "two") 1, at_time 2);
   (LUpdate "core" "tasks" "a" (JStr "three") 1, at_time 3); (LCreate "p" "notes" "a" (JStr "x"), at_time 4);
   (LDelete "p" "tasks" "a", at_time 5); (LGet "core" "tasks" "a", at_time 6)].

Lemma legacy_implements_adapter_witness :
  fst (run_steps (@legacy_step coded_text toy_chrono) legacy_day (mkDb [] [] []))
  = fst (run_steps adapter_step legacy_day (mkSqlite ∅ (λ _, 0%Z))) ∧
  fst (run_steps adapter_step legacy_day (mkSqlite ∅ (λ _, 0%Z))) !! 5
  = Some (AGet (Ok (Some (mkRecord "a" "core" "tasks" (JStr "two") 2 None None 1 2)))).
Proof.
  split; [|vm_compute; reflexivity].
  apply (@legacy_implements_adapter coded_text coded_text_laws toy_chrono toy_chrono_laws legacy_day).
  - repeat constructor; simpl; (lia || vm_compute; congruence).
  - apply empty_represents.
Defined.
