(* ===== verification/DataApi.v ===== *)
(** * The data API and the quarantine

    The record routes (apps/core/src/routes/data.rs) over the legacy storage and the message
    bus, the schema registry of the core (apps/core/src/schema_registry.rs) with its storage
    that puts invalid records aside, and the quarantine routes (routes/quarantine.rs).

    The schema directory is a list of file names and contents, each of which can fail to be
    read; paths are left out of messages. *)

From stdpp Require Import base tactics list gmap sets strings.
From Stdlib Require Import ZArith Lia.
From S2P Require Import Prelude RustString RustText Json Types Sessions SessionsFacts Storage Schema SqliteDoc Conflict Federation Search LegacyStore LegacyFacts LegacyRefines ApiKeysFacts.

Local Open Scope string_scope.
Local Open Scope list_scope.

(** ** Filters as serde reads them *)

Definition read_field_filter (v : json) : option FieldFilter :=
  if struct_shape 2 v then
    field ← struct_field v "field" 0 ≫= as_str;
    value ← struct_field v "value" 1;
    Some (mkFieldFilter field value)
  else None.

Definition read_op (v : json) : option ComparisonOp :=
  s ← as_str v;
  if bool_decide (s = "Gte") then Some Gte
  else if bool_decide (s = "Lte") then Some Lte
  else if bool_decide (s = "Gt") then Some Gt
  else if bool_decide (s = "Lt") then Some Lt
  else None.

Definition read_comparison (v : json) : option ComparisonFilter :=
  if struct_shape 3 v then
    field ← struct_field v "field" 0 ≫= as_str;
    op ← struct_field v "operator" 1 ≫= read_op;
    value ← struct_field v "value" 2;
    Some (mkComparison field op value)
  else None.

Definition read_text (v : json) : option TextFilter :=
  if struct_shape 2 v then
    field ← struct_field v "field" 0 ≫= as_str;
    contains ← struct_field v "contains" 1 ≫= as_str;
    Some (mkText field contains)
  else None.

(** A list that defaults to the empty one. *)
Definition read_list {A} (read : json → option A) (v : option json) : option (list A) :=
  match v with
  | None => Some []
  | Some (JArr xs) => mapM read xs
  | Some _ => None
  end.

Fixpoint read_filters (fuel : nat) (v : json) : option QueryFilters :=
  match fuel with
  | O => None
  | S n =>
      if struct_shape 5 v then
        eqs ← read_list read_field_filter (struct_field v "equality" 0);
        cmps ← read_list read_comparison (struct_field v "comparison" 1);
        texts ← read_list read_text (struct_field v "text_search" 2);
        ands ← read_list (read_filters n) (struct_field v "and" 3);
        ors ← read_list (read_filters n) (struct_field v "or" 4);
        Some (mkFilters eqs cmps texts ands ors)
      else None
  end.

(** Groups nest in lists, two levels of the value for one of the filters. *)
Definition filters_of_value (v : json) : option QueryFilters := read_filters (S (json_depth v)) v.

(** ** The record routes *)

Module DataRoutes.

Definition CORE_PLUGIN_ID : string := "core".

Record ListParams : Type := mkListParams {
  lp_offset : option Z;
  lp_limit : option Z;
  lp_sort_by : option string;
  lp_sort_dir : option string;
  lp_filter : option string;
}.

(** The storage, if there is one, and what was published on the bus. *)
Record ApiState : Type := mkApi {
  api_storage : option LegacyDb;
  api_published : list BusEvent;
}.

(** The identity of a request: user and household, if known. *)
Record ApiIdentity : Type := mkApiIdentity {
  ai_user_id : option string;
  ai_household_id : option string;
}.

Inductive reply (A : Type) : Type :=
| Reply (status : Z) (body : A)
| Deny (status : Z) (code : string).
Arguments Reply {A} _ _.
Arguments Deny {A} _ _.

Definition no_storage {A} : reply A := Deny 500 "SYSTEM_INTERNAL_ERROR".
Definition internal_error {A} : reply A := Deny 500 "SYSTEM_INTERNAL_ERROR".

Definition has_filters (fs : QueryFilters) : bool :=
  match fs with
  | mkFilters [] [] [] [] [] => false
  | _ => true
  end.

Section Routes.
Context `{JsonText} `{Chrono} `{LegacySql}.

Definition list_records (d : Draw) (collection : string) (params : ListParams) (a : ApiState) :
    reply QueryResult :=
  match api_storage a with
  | None => no_storage
  | Some s =>
      let pagination := clamped (mkPagination (default 50%Z (lp_limit params)) (default 0%Z (lp_offset params))) in
      let sort := (λ by_, mkSort by_ (if bool_decide (lp_sort_dir params = Some "desc") then Desc else Asc))
                    <$> lp_sort_by params in
      let filters :=
        match lp_filter params with
        | Some text =>
            match json_from_str text with
            | Ok v => filters_of_value v
            | Err _ => None
            end
        | None => Some no_filters
        end in
      match filters with
      | None => Deny 400 "DATA_VALIDATION_FAILED"
      | Some fs =>
          match (if has_filters fs then legacy_query d CORE_PLUGIN_ID collection fs sort pagination s
                 else legacy_list d CORE_PLUGIN_ID collection sort pagination s) with
          | Ok qr => Reply 200 qr
          | Err _ => internal_error
          end
      end
  end.

Definition get_record (d : Draw) (collection id : string) (a : ApiState) : reply StoredRecord :=
  match api_storage a with
  | None => no_storage
  | Some s =>
      match legacy_get d CORE_PLUGIN_ID collection id s with
      | Ok (Some r) => Reply 200 r
      | Ok None => Deny 404 "DATA_NOT_FOUND"
      | Err _ => internal_error
      end
  end.

(** Owner fields of the client are dropped. *)
Definition strip_owner (data : json) : json :=
  match data with
  | JObj o => JObj (obj_remove "_household_id" (obj_remove "_user_id" o))
  | _ => data
  end.

(** The owner of the request is added, if it has a user. *)
Definition inject_owner (identity : option ApiIdentity) (data : json) : json :=
  match identity, data with
  | Some (mkApiIdentity (Some uid) hid), JObj o =>
      let o1 := obj_insert "_user_id" (JStr uid) o in
      JObj (match hid with Some h => obj_insert "_household_id" (JStr h) o1 | None => o1 end)
  | _, _ => data
  end.

(** The events of a record that was written. *)
Definition announce_record (collection : string) (r : StoredRecord) (s : LegacyDb) (a : ApiState) : ApiState :=
  mkApi (Some s) (api_published a ++ [NewRecords collection 1; RecordChanged r]).

Definition create_record (d : Draw) (collection : string) (identity : option ApiIdentity) (body : json)
    (a : ApiState) : reply StoredRecord * ApiState :=
  match api_storage a with
  | None => (no_storage, a)
  | Some s =>
      match legacy_create d CORE_PLUGIN_ID collection (inject_owner identity (strip_owner body)) s with
      | (Ok r, s') => (Reply 201 r, announce_record collection r s' a)
      | (Err _, s') => (internal_error, mkApi (Some s') (api_published a))
      end
  end.

Definition update_record (d : Draw) (collection id : string) (data : json) (version : Z) (a : ApiState) :
    reply StoredRecord * ApiState :=
  match api_storage a with
  | None => (no_storage, a)
  | Some s =>
      match legacy_update d CORE_PLUGIN_ID collection id (strip_owner data) version s with
      | (Ok r, s') => (Reply 200 r, announce_record collection r s' a)
      | (Err VersionMismatch, s') => (Deny 409 "DATA_VERSION_CONFLICT", mkApi (Some s') (api_published a))
      | (Err RecordNotFound, s') => (Deny 404 "DATA_NOT_FOUND", mkApi (Some s') (api_published a))
      | (Err _, s') => (internal_error, mkApi (Some s') (api_published a))
      end
  end.

Definition delete_record (d : Draw) (collection id : string) (a : ApiState) : reply unit * ApiState :=
  match api_storage a with
  | None => (no_storage, a)
  | Some s =>
      match legacy_delete d CORE_PLUGIN_ID collection id s with
      | (Ok true, s') => (Reply 204 tt, mkApi (Some s') (api_published a ++ [RecordDeleted id collection]))
      | (Ok false, s') => (Deny 404 "DATA_NOT_FOUND", mkApi (Some s') (api_published a))
      | (Err _, s') => (internal_error, mkApi (Some s') (api_published a))
      end
  end.
End Routes.
End DataRoutes.

(** ** The schema registry of the core *)

Module CoreRegistry.

Record ValidationResult : Type := mkValidation {
  va_valid : bool;
  va_errors : list string;
  va_schema_version : string;
}.

(** A compiled validator is its schema. *)
Record SchemaEntry : Type := mkSchemaEntry { se_schema : json; se_version : string }.

Abbreviation registry := (gmap string SchemaEntry).

Definition CORE_CDM_NAMES : list string :=
  ["tasks"; "contacts"; "emails"; "events"; "files"; "notes"; "credentials"].

Section Registry.
Context `{SchemaLib}.

Definition register (collection : string) (schema : json) (reg : registry) : result unit string * registry :=
  let version := default collection (json_get schema "title" ≫= as_str) in
  match draft_error schema with
  | Some e => (Err ("failed to compile schema for '" +:+ collection +:+ "': " +:+ e), reg)
  | None => (Ok tt, <[collection := mkSchemaEntry schema version]> reg)
  end.

Definition register_plugin_schema (plugin_id collection_name : string) (schema : json) (reg : registry) :
    result unit string * registry :=
  if bool_decide (collection_name ∈ CORE_CDM_NAMES) then
    (Err ("plugin '" +:+ plugin_id +:+ "' cannot register collection '" +:+ collection_name
          +:+ "': name is reserved by Core CDM"), reg)
  else register (plugin_id +:+ "/" +:+ collection_name) schema reg.

Definition validate (reg : registry) (collection : string) (data : json) : option ValidationResult :=
  e ← reg !! collection;
  let errors := iter_errors (se_schema e) data in
  Some (mkValidation (bool_decide (errors = [])) errors (se_version e)).

Definition has_schema (reg : registry) (collection : string) : bool := bool_decide (is_Some (reg !! collection)).

Definition schema_version (reg : registry) (collection : string) : option string := se_version <$> reg !! collection.

(** [trim_end_matches] of a text. *)
Fixpoint trim_suffix_all (fuel : nat) (pat s : string) : string :=
  match fuel with
  | O => s
  | S n =>
      match strip_suffix_str pat s with
      | Some s' => trim_suffix_all n pat s'
      | None => s
      end
  end.

Definition collection_of_file (file_name : string) : option string :=
  if negb (ends_with file_name ".schema.json") then None
  else
    let collection := trim_suffix_all (String.length file_name) ".schema.json" file_name in
    if starts_with collection "plugin-" || bool_decide (collection = "audit-log") then None
    else Some collection.

(** Files in the order of the directory: a name, if it is text, and its content. *)
Fixpoint load_files (files : list (result (option string * result string string) string)) (reg : registry) :
    result registry string :=
  match files with
  | [] => Ok reg
  | Err e :: _ => Err e
  | Ok (name, content) :: rest =>
      match name ≫= collection_of_file with
      | None => load_files rest reg
      | Some collection =>
          let? text := result_map_err (λ e, "failed to read schema file: " +:+ e) content in
          let? schema := result_map_err (λ e, "failed to parse schema: " +:+ e) (parse_json text) in
          match register collection schema reg with
          | (Err e, _) => Err e
          | (Ok _, reg') => load_files rest reg'
          end
      end
  end.

Definition load_from_directory (files : result (list (result (option string * result string string) string)) string) :
    result registry string :=
  let? fs := result_map_err (λ e, "failed to read schema directory: " +:+ e) files in load_files fs ∅.
End Registry.
End CoreRegistry.

(** ** The quarantine *)

Module Quarantine.
Import CoreRegistry.

Definition QUARANTINE_COLLECTION : string := "_quarantine".

Record QuarantineEntry : Type := mkQuarantineEntry {
  qe_original_data : json;
  qe_original_collection : string;
  qe_source_plugin_id : string;
  qe_validation_errors : list string;
  qe_schema_version : string;
  qe_quarantined_at : string;
}.

Definition entry_value (e : QuarantineEntry) : json :=
  mk_obj [("original_data", qe_original_data e); ("original_collection", JStr (qe_original_collection e));
          ("source_plugin_id", JStr (qe_source_plugin_id e));
          ("validation_errors", JArr (JStr <$> qe_validation_errors e));
          ("schema_version", JStr (qe_schema_version e)); ("quarantined_at", JStr (qe_quarantined_at e))].

(** A [Vec<String>]. *)
Definition read_strings (v : json) : option (list string) := as_array v ≫= mapM as_str.

Definition entry_of_value (v : json) : option QuarantineEntry :=
  if struct_shape 6 v then
    data ← struct_field v "original_data" 0;
    collection ← struct_field v "original_collection" 1 ≫= as_str;
    plugin ← struct_field v "source_plugin_id" 2 ≫= as_str;
    errors ← struct_field v "validation_errors" 3 ≫= read_strings;
    version ← struct_field v "schema_version" 4 ≫= as_str;
    at_ ← struct_field v "quarantined_at" 5 ≫= as_str;
    Some (mkQuarantineEntry data collection plugin errors version at_)
  else None.

Inductive QuarantineError : Type :=
| ValidationFailed (quarantine_id : string) (errors : list string)
| NotFound (id : string)
| Internal (msg : string).

Definition quarantine_error_display (e : QuarantineError) : string :=
  match e with
  | ValidationFailed id errors =>
      "validation failed (quarantine_id=" +:+ id +:+ "): " +:+ join "; " errors
  | NotFound id => "quarantine record '" +:+ id +:+ "' not found"
  | Internal msg => "internal error: " +:+ msg
  end.

Section Validated.
Context `{JsonText} `{Chrono} `{LegacySql} `{SchemaLib} (reg : registry).

(** [d] is the draw of the quarantine record, [at_] the time of its entry. *)
Definition quarantine_if_invalid (d : Draw) (at_ : timestamp) (plugin_id collection : string) (data : json)
    (s : LegacyDb) : result unit QuarantineError * LegacyDb :=
  match validate reg collection data with
  | Some result_ =>
      if va_valid result_ then (Ok tt, s)
      else
        let entry := mkQuarantineEntry data collection plugin_id (va_errors result_) (va_schema_version result_)
                       (to_rfc3339 at_) in
        match legacy_create d "core" QUARANTINE_COLLECTION (entry_value entry) s with
        | (Err e, s') => (Err (Internal e), s')
        | (Ok r, s') => (Err (ValidationFailed (rec_id r) (va_errors result_)), s')
        end
  | None => (Ok tt, s)
  end.

Definition validated_create (dq d : Draw) (at_ : timestamp) (plugin_id collection : string) (data : json)
    (s : LegacyDb) : result StoredRecord QuarantineError * LegacyDb :=
  match quarantine_if_invalid dq at_ plugin_id collection data s with
  | (Err e, s') => (Err e, s')
  | (Ok _, s') =>
      let '(r, s2) := legacy_create d plugin_id collection data s' in (result_map_err Internal r, s2)
  end.

Definition validated_update (dq d : Draw) (at_ : timestamp) (plugin_id collection id : string) (data : json)
    (version : Z) (s : LegacyDb) : result StoredRecord QuarantineError * LegacyDb :=
  match quarantine_if_invalid dq at_ plugin_id collection data s with
  | (Err e, s') => (Err e, s')
  | (Ok _, s') =>
      let '(r, s2) := legacy_update d plugin_id collection id data version s' in
      (result_map_err (λ e, Internal (legacy_error_display e)) r, s2)
  end.

(** [dg], [dc] and [dd] are the draws of the read, the creation and the deletion. *)
Definition reprocess_quarantined (dg dc dd : Draw) (quarantine_id : string) (s : LegacyDb) :
    result StoredRecord QuarantineError * LegacyDb :=
  match legacy_get dg "core" QUARANTINE_COLLECTION quarantine_id s with
  | Err e => (Err (Internal e), s)
  | Ok None => (Err (NotFound quarantine_id), s)
  | Ok (Some qr) =>
      match entry_of_value (rec_data qr) with
      | None => (Err (Internal "corrupt quarantine entry"), s)
      | Some entry =>
          let invalid :=
            match validate reg (qe_original_collection entry) (qe_original_data entry) with
            | Some result_ => if va_valid result_ then None else Some (va_errors result_)
            | None => None
            end in
          match invalid with
          | Some errors => (Err (ValidationFailed quarantine_id errors), s)
          | None =>
              match legacy_create dc (qe_source_plugin_id entry) (qe_original_collection entry)
                      (qe_original_data entry) s with
              | (Err e, s1) => (Err (Internal e), s1)
              | (Ok record, s1) =>
                  match legacy_delete dd "core" QUARANTINE_COLLECTION quarantine_id s1 with
                  | (Err e, s2) => (Err (Internal e), s2)
                  | (Ok _, s2) => (Ok record, s2)
                  end
              end
          end
      end
  end.

(** *** Routes *)

Definition list_quarantine (d : Draw) (limit offset : option Z) (s : option LegacyDb) :
    DataRoutes.reply QueryResult :=
  match s with
  | None => DataRoutes.no_storage
  | Some db =>
      match legacy_list d "core" QUARANTINE_COLLECTION None
              (clamped (mkPagination (default 50%Z limit) (default 0%Z offset))) db with
      | Ok qr => DataRoutes.Reply 200 qr
      | Err _ => DataRoutes.internal_error
      end
  end.

Definition reprocess_quarantine (dg dc dd : Draw) (id : string) (s : option LegacyDb) :
    DataRoutes.reply StoredRecord * option LegacyDb :=
  match s with
  | None => (DataRoutes.no_storage, None)
  | Some db =>
      let '(r, db') := reprocess_quarantined dg dc dd id db in
      (match r with
       | Ok record => DataRoutes.Reply 200 record
       | Err (NotFound _) => DataRoutes.Deny 404 "DATA_NOT_FOUND"
       | Err (ValidationFailed _ _) => DataRoutes.Deny 422 "DATA_VALIDATION_FAILED"
       | Err (Internal _) => DataRoutes.internal_error
       end, Some db')
  end.

Definition delete_quarantine (d : Draw) (id : string) (s : option LegacyDb) :
    DataRoutes.reply unit * option LegacyDb :=
  match s with
  | None => (DataRoutes.no_storage, None)
  | Some db =>
      match legacy_delete d "core" QUARANTINE_COLLECTION id db with
      | (Ok true, db') => (DataRoutes.Reply 204 tt, Some db')
      | (Ok false, db') => (DataRoutes.Deny 404 "DATA_NOT_FOUND", Some db')
      | (Err _, db') => (DataRoutes.internal_error, Some db')
      end
  end.
End Validated.
End Quarantine.

(** * Properties of the data API

    The search index keeps in step with the records written through the API, and the owner of
    a created record is the requester. *)

(** ** Owners *)

Module OwnerFacts.
Import DataRoutes.

Lemma strip_owner_printable `{JsonText} data : json_printable data → json_printable (strip_owner data).
Proof. destruct data; try done. intros Hc. by repeat apply printable_remove. Qed.

Lemma inject_printable `{JsonText} identity data : json_printable data → json_printable (inject_owner identity data).
Proof.
  intros Hc. destruct identity as [[[uid|] hid]|]; try done. destruct data as [| | | | |o]; try done.
  destruct hid; repeat (apply printable_insert; [|done]); done.
Qed.
End OwnerFacts.
Import OwnerFacts.

(** Whatever owner a client writes into a record it creates, the stored record names the user and
    household of the authenticated request, or none; the fields of the client are kept otherwise. *)
Theorem owner_is_requester identity o k :
  let stored := DataRoutes.inject_owner identity (DataRoutes.strip_owner (JObj o)) in
  json_get stored k =
    match identity with
    | Some (DataRoutes.mkApiIdentity (Some uid) hid) =>
        if bool_decide (k = "_user_id") then Some (JStr uid)
        else if bool_decide (k = "_household_id") then JStr <$> hid
        else obj_get k o
    | _ =>
        if bool_decide (k = "_user_id" ∨ k = "_household_id") then None else obj_get k o
    end.
Proof.
  assert (obj_get k (obj_remove "_household_id" (obj_remove "_user_id" o))
    = if bool_decide (k = "_user_id" ∨ k = "_household_id") then None else obj_get k o) as Hr.
  { rewrite !obj_get_remove. repeat case_decide; case_bool_decide; naive_solver. }
  destruct identity as [[[uid|] hid]|]; unfold DataRoutes.inject_owner, DataRoutes.strip_owner;
    rewrite ?json_get_obj; try exact Hr.
  destruct hid as [h|]; rewrite !obj_get_insert, Hr; repeat case_decide;
    repeat case_bool_decide; simplify_eq; naive_solver.
Qed.

(** ** The index and the API *)

Module ApiTrace.
Import DataRoutes.

Inductive api_op : Type :=
| ApiCreate (d : Draw) (collection : string) (identity : option ApiIdentity) (body : json)
| ApiUpdate (d : Draw) (collection id : string) (data : json) (version : Z)
| ApiDelete (d : Draw) (collection id : string).

Definition api_step `{JsonText} `{Chrono} (a : ApiState) (o : api_op) : ApiState :=
  match o with
  | ApiCreate d c i body => snd (create_record d c i body a)
  | ApiUpdate d c id data v => snd (update_record d c id data v a)
  | ApiDelete d c id => snd (delete_record d c id a)
  end.

Definition api_run `{JsonText} `{Chrono} (os : list api_op) (a : ApiState) : ApiState := foldl api_step a os.

Definition op_draw (o : api_op) : Draw :=
  match o with
  | ApiCreate d _ _ _ | ApiUpdate d _ _ _ _ | ApiDelete d _ _ => d
  end.

(** The database works, or fails before it changes anything. *)
Definition all_or_nothing (d : Draw) : Prop := quiet d ∨ is_Some (ld_fault d 0).

Definition api_ok `{JsonText} (o : api_op) : Prop :=
  all_or_nothing (op_draw o) ∧
  match o with
  | ApiCreate _ _ _ body => json_printable body
  | ApiUpdate _ _ _ data v => json_printable data ∧ (- 2 ^ 63 ≤ v < 2 ^ 63 - 1)%Z
  | ApiDelete _ _ _ => True
  end.

Section InStep.
Context `{HJ : JsonText, !JsonTextLaws} `{HCh : Chrono, !ChronoLaws}.

(** The records announced are the records stored. *)
Definition in_step (a : ApiState) : Prop :=
  ∃ s f, api_storage a = Some s ∧ represents s f ∧ rows f = live_after (Got <$> api_published a) ∧
    ∀ id r, rows f !! id = Some r → rec_user_id r = None ∧ rec_household_id r = None.

Lemma live_after_app rs rs' : live_after (rs ++ rs') = foldl announce (live_after rs) rs'.
Proof. unfold live_after. by rewrite foldl_app. Qed.

Lemma create_in_step d c i body a :
  all_or_nothing d → json_printable body → in_step a → in_step (snd (create_record d c i body a)).
Proof.
  intros Hd Hb (s & f & Hs & Hr & Hl & Hu). unfold create_record, legacy_create. rewrite Hs.
  set (data := inject_owner i (strip_owner body)).
  assert (json_printable data) as Hc by by apply inject_printable, strip_owner_printable.
  destruct Hd as [Hd|[e He]].
  2:{ unfold legacy_create_with_id. rewrite He. by exists s, f. }
  pose proof (create_refines d CORE_PLUGIN_ID c (ld_uuid d) data s (mkSqlite (rows f) (λ _, ld_now d)) Hd
    (represents_clock _ _ _ Hr) Hc eq_refl) as Hcr.
  destruct (legacy_create_with_id _ _ _ _ _ _) as [x s'].
  unfold sqlite_create_with_id in Hcr. cbn [rows clock] in Hcr.
  destruct (rows f !! ld_uuid d) as [y|] eqn:E; destruct Hcr as [-> Hr']; cbn [snd announce_record].
  - exists s', (mkSqlite (rows f) (λ _, ld_now d)). split_and!; done.
  - eexists s', _. split; [done|]. split; [exact Hr'|]. unfold announce_record. cbn [rows api_published]. split.
    + rewrite fmap_app, live_after_app. cbn. by rewrite Hl.
    + intros id r [[<- <-]|[_ ?]]%lookup_insert_Some; eauto.
Qed.

Lemma update_in_step d c id data v a :
  all_or_nothing d → json_printable data → (- 2 ^ 63 ≤ v < 2 ^ 63 - 1)%Z → in_step a →
  in_step (snd (update_record d c id data v a)).
Proof.
  intros Hd Hb Hv (s & f & Hs & Hr & Hl & Hu). unfold update_record. rewrite Hs.
  destruct Hd as [Hd|[e He]].
  2:{ unfold legacy_update. rewrite He. by exists s, f. }
  pose proof (update_refines d CORE_PLUGIN_ID c id (strip_owner data) v s (mkSqlite (rows f) (λ _, ld_now d)) Hd
    (represents_clock _ _ _ Hr) (strip_owner_printable _ Hb) eq_refl Hv) as Hup.
  destruct (legacy_update _ _ _ _ _ _ _) as [x s']. unfold sqlite_update in Hup. cbn [rows clock] in Hup.
  destruct (select (rows f) CORE_PLUGIN_ID c id) as [y|] eqn:E; [case_bool_decide|]; destruct Hup as [-> Hr'];
    cbn [snd announce_record]; try by exists s', (mkSqlite (rows f) (λ _, ld_now d)).
  assert (rec_user_id y = None ∧ rec_household_id y = None) as [Hy1 Hy2].
  { apply (Hu id). unfold select in E. destruct (rows f !! id); [|done]. by case_bool_decide; simplify_eq. }
  rewrite Hy1, Hy2 in Hr'.
  eexists s', _. split; [done|]. split; [exact Hr'|]. unfold announce_record. cbn [rows api_published]. split.
  - rewrite fmap_app, live_after_app. cbn. by rewrite Hl.
  - intros id' r [[<- <-]|[_ ?]]%lookup_insert_Some; eauto.
Qed.

Lemma delete_in_step d c id a : all_or_nothing d → in_step a → in_step (snd (delete_record d c id a)).
Proof.
  intros Hd (s & f & Hs & Hr & Hl & Hu). unfold delete_record. rewrite Hs.
  destruct Hd as [Hd|[e He]].
  2:{ unfold legacy_delete. rewrite He. by exists s, f. }
  pose proof (delete_refines d CORE_PLUGIN_ID c id s f Hd Hr) as Hx.
  destruct (legacy_delete _ _ _ _ _) as [x s']. unfold sqlite_delete in Hx.
  destruct (select (rows f) CORE_PLUGIN_ID c id) as [y|] eqn:E; destruct Hx as [-> Hr']; cbn [snd].
  - eexists s', _. split; [done|]. split; [exact Hr'|]. unfold announce_record. cbn [rows api_published]. split.
    + rewrite fmap_app, live_after_app. cbn. by rewrite Hl.
    + intros id' r [_ ?]%lookup_delete_Some. eauto.
  - by exists s', f.
Qed.

Lemma api_run_in_step os a : Forall api_ok os → in_step a → in_step (api_run os a).
Proof.
  intros Hos. revert a. induction Hos as [|o os [Hd Ho] _ IH]; intros a Ha; [done|]. cbn. apply IH.
  destruct o as [d c i body|d c id data v|d c id]; cbn in *.
  - by apply create_in_step.
  - destruct Ho. by apply update_in_step.
  - by apply delete_in_step.
Qed.

Lemma start_in_step : in_step (mkApi (Some (mkDb [] [] [])) []).
Proof.
  exists (mkDb [] [] []), (mkSqlite ∅ (λ _, 0%Z)). split_and!; [done|apply empty_represents|done|].
  intros id r Hl. cbn in Hl. by rewrite lookup_empty in Hl.
Qed.
End InStep.
End ApiTrace.
Import ApiTrace.


(** A day of requests, one of which meets a database that fails. *)
Definition api_draw (t : timestamp) (id : string) (fault : option string) : Draw :=
  mkLegacyDraw t id t "a" (λ _, fault).

Definition api_day : list api_op :=
  [ApiCreate (api_draw 1 "n1" None) "notes" None (JObj [("title", JStr "one")]);
   ApiCreate (api_draw 2 "n2" None) "notes" None (JObj [("title", JStr "two")]);
   ApiUpdate (api_draw 3 "x" None) "notes" "n1" (JObj [("title", JStr "uno")]) 1;
   ApiDelete (api_draw 4 "x" (Some "disk full")) "notes" "n1";
   ApiDelete (api_draw 5 "x" None) "notes" "n2"].

Import ListIndex.


(** ** Updates lose the owner *)

(** The client's data replaces the record's, without owner fields and without the requester's:
    a record that named its owner no longer does. *)
Lemma update_drops_owner `{JsonText} `{Chrono} d c id o v s r a' :
  DataRoutes.update_record d c id (JObj o) v (DataRoutes.mkApi (Some s) []) = (DataRoutes.Reply 200 r, a') →
  json_get (rec_data r) "_user_id" = None.
Proof.
  unfold DataRoutes.update_record, legacy_update. cbn [DataRoutes.api_storage].
  repeat (case_match; simplify_eq; try done). intros [= <- _]. cbn [rec_data DataRoutes.strip_owner].
  rewrite json_get_obj, !obj_get_remove. done.
Qed.

(** ** The quarantine *)

Module QuarantineFacts.
Import CoreRegistry Quarantine.

Lemma read_strings_back xs : read_strings (JArr (JStr <$> xs)) = Some xs.
Proof. unfold read_strings. cbn. apply mapM_as_str. Qed.

(** The registry has no objection. *)
Definition accepts `{SchemaLib} (reg : registry) (collection : string) (v : json) : Prop :=
  match validate reg collection v with
  | Some w => va_valid w = true
  | None => True
  end.

Lemma entry_round_trip e : entry_of_value (entry_value e) = Some e.
Proof.
  destruct e as [data c p errs ver at_].
  assert (entry_value (mkQuarantineEntry data c p errs ver at_)
    = JObj [("original_collection", JStr c); ("original_data", data); ("quarantined_at", JStr at_);
            ("schema_version", JStr ver); ("source_plugin_id", JStr p); ("validation_errors", JArr (JStr <$> errs))])
    as -> by (vm_compute; reflexivity).
  pose proof (read_strings_back errs) as Hs. revert Hs. generalize (JArr (JStr <$> errs)).
  intros v Hs. vm_compute in Hs |- *. by rewrite Hs.
Qed.

Lemma entry_printable `{JsonText} e : json_within 126 (qe_original_data e) → json_printable (entry_value e).
Proof.
  intros Hc. apply printable_mk_obj. intros k v Hkv.
  repeat (apply elem_of_cons in Hkv as [[= -> ->]|Hkv]; [done || apply strings_within|]).
  by apply elem_of_nil in Hkv.
Qed.

Lemma struct_field_within `{JsonText} levels v name n x :
  json_within (S levels) v → struct_field v name n = Some x → json_within levels x.
Proof.
  intros Hc Hx. destruct v as [| | | |xs|o]; try done; simpl in Hx.
  - apply within_arr in Hc. rewrite Forall_forall in Hc. by eapply Hc, list_elem_of_lookup_2.
  - by eapply within_get.
Qed.

Lemma entry_data_within `{JsonText} v e :
  json_printable v → entry_of_value v = Some e → json_within 126 (qe_original_data e).
Proof.
  intros Hc He. unfold entry_of_value in He. destruct (struct_shape 6 v); [|done].
  destruct (struct_field v "original_data" 0) as [x|] eqn:Ex; [|done].
  apply bind_Some in He as (x0 & [= <-] & He).
  repeat (apply bind_Some in He as (? & _ & He)). injection He as <-. by eapply struct_field_within.
Qed.

(** *** Every stored record meets its schema *)

Section Valid.
Context `{HJ : JsonText, !JsonTextLaws} `{HCh : Chrono} `{SchemaLib} (reg : registry).

Definition valid_row (row : LegacyRow) : Prop :=
  ∃ v, json_printable v ∧ lr_data row = json_to_string v ∧ accepts reg (lr_collection row) v.

Definition valid_db (s : LegacyDb) : Prop := Forall valid_row (db_rows s).

Lemma log_rows d i e c id sub p det s : db_rows (snd (log_event_full d i e c id sub p det s)) = db_rows s.
Proof. unfold log_event_full. by destruct (ld_fault d i). Qed.

Lemma create_valid d p c id data s :
  json_printable data → accepts reg c data → valid_db s →
  valid_db (snd (legacy_create_with_id d p c id data s)).
Proof.
  intros Hc Ha Hs. unfold legacy_create_with_id. destruct (ld_fault d 0); [done|].
  destruct (existsb _ _); [done|]. set (row := mkLegacyRow _ _ _ _ _ _ _ _ _).
  assert (valid_db (set_rows (db_rows s ++ [row]) s)) as Hn.
  { apply Forall_app. split; [done|]. apply Forall_singleton. by exists data. }
  pose proof (log_rows d 1 "system.storage.created" (Some c) (Some id) None (Some p) None
    (set_rows (db_rows s ++ [row]) s)) as Hl. unfold valid_db in *.
  destruct (log_event_full _ _ _ _ _ _ _ _ _) as [[[]|e] s1]; cbn in Hl |- *; by rewrite Hl.
Qed.

Lemma update_valid d p c id data v s :
  json_printable data → accepts reg c data → valid_db s → valid_db (snd (legacy_update d p c id data v s)).
Proof.
  intros Hc Ha Hs. unfold legacy_update. destruct (ld_fault d 0); [done|].
  destruct (negb _); [by destruct (ld_fault d 1)|].
  set (s1 := set_rows _ s).
  assert (valid_db s1) as Hn.
  { apply Forall_fmap. eapply Forall_impl; [exact Hs|]. intros r Hr. simpl.
    destruct (names_row p c id r && _) eqn:E; [|done]. exists data. split_and!; try done. cbn.
    apply andb_true_iff in E as [(_ & _ & ->)%names_row_true _]. done. }
  destruct (ld_fault d 2); [done|]. destruct (head _) as [row|]; [|done].
  pose proof (log_rows d 3 "system.storage.updated" (Some c) (Some id) None (Some p)
    (Some (mk_obj [("new_version", JNum (NInt (wrap_i64 (v + 1))))])) s1) as Hl. unfold valid_db in *.
  destruct (log_event_full _ _ _ _ _ _ _ _ _) as [[[]|e] s2]; cbn in Hl |- *; [|by rewrite Hl].
  destruct (legacy_date _); cbn; by rewrite Hl.
Qed.

Lemma delete_valid d p c id s : valid_db s → valid_db (snd (legacy_delete d p c id s)).
Proof.
  intros Hs. unfold legacy_delete. destruct (ld_fault d 0); [done|]. destruct (negb _); [done|].
  set (s1 := set_rows _ s). assert (valid_db s1) as Hn.
  { apply Forall_forall. intros r [_ Hr]%list_elem_of_filter. by eapply Forall_forall. }
  pose proof (log_rows d 1 "system.storage.deleted" (Some c) (Some id) None (Some p) None s1) as Hl.
  unfold valid_db in *. destruct (log_event_full _ _ _ _ _ _ _ _ _) as [[[]|e] s2]; cbn in Hl |- *; by rewrite Hl.
Qed.

Lemma get_printable d p c id s r :
  valid_db s → legacy_get d p c id s = Ok (Some r) → json_printable (rec_data r).
Proof.
  intros Hs. unfold legacy_get. destruct (ld_fault d 0); [done|].
  pose proof (find_named s p c id) as Hf. destruct (find_legacy p c id s) as [row|]; [|done].
  destruct Hf as [Hin _]. unfold valid_db in Hs. rewrite Forall_forall in Hs.
  destruct (Hs row Hin) as (v & Hv & Ht & _). unfold row_to_record. rewrite Ht, json_print_parse by done. simpl.
  destruct (legacy_date (lr_created_at row)); simpl; [|done].
  destruct (legacy_date (lr_updated_at row)); simpl; [|done]. by intros [= <-].
Qed.

Context (Hq : reg !! QUARANTINE_COLLECTION = None).

Lemma quarantine_unchecked v : accepts reg QUARANTINE_COLLECTION v.
Proof. unfold accepts, validate. by rewrite Hq. Qed.

(** A record that passes is accepted; one that does not becomes an entry. *)
Lemma quarantine_valid d at_ p c data s r s' :
  json_within 126 data → valid_db s → quarantine_if_invalid reg d at_ p c data s = (r, s') →
  valid_db s' ∧ (r = Ok tt → accepts reg c data).
Proof.
  intros Hc Hs. unfold quarantine_if_invalid, accepts. destruct (validate reg c data) as [w|]; [|by intros [= <- <-]].
  destruct (va_valid w); [by intros [= <- <-]|].
  set (e := mkQuarantineEntry _ _ _ _ _ _).
  pose proof (create_valid d "core" QUARANTINE_COLLECTION (ld_uuid d) (entry_value e) s (entry_printable e Hc)
    (quarantine_unchecked _) Hs) as Hn. fold (legacy_create d "core" QUARANTINE_COLLECTION (entry_value e) s) in Hn.
  destruct (legacy_create _ _ _ _ _) as [[x|x] s1]; intros [= <- <-]; done.
Qed.

Inductive quarantine_op : Type :=
| QCreate (dq d : Draw) (at_ : timestamp) (plugin_id collection : string) (data : json)
| QUpdate (dq d : Draw) (at_ : timestamp) (plugin_id collection id : string) (data : json) (version : Z)
| QReprocess (dg dc dd : Draw) (quarantine_id : string)
| QDelete (d : Draw) (plugin_id collection id : string).

Definition quarantine_step (s : LegacyDb) (o : quarantine_op) : LegacyDb :=
  match o with
  | QCreate dq d t p c data => snd (validated_create reg dq d t p c data s)
  | QUpdate dq d t p c id data v => snd (validated_update reg dq d t p c id data v s)
  | QReprocess dg dc dd id => snd (reprocess_quarantined reg dg dc dd id s)
  | QDelete d p c id => snd (legacy_delete d p c id s)
  end.

(** Data that serde reads back, also when it is quarantined, one level down in the entry. *)
Definition canonical_op (o : quarantine_op) : Prop :=
  match o with
  | QCreate _ _ _ _ _ data | QUpdate _ _ _ _ _ _ data _ => json_within 126 data
  | _ => True
  end.

Lemma reprocess_valid dg dc dd id s : valid_db s → valid_db (snd (reprocess_quarantined reg dg dc dd id s)).
Proof.
  intros Hs. unfold reprocess_quarantined. destruct (legacy_get _ _ _ _ _) as [[qr|]|] eqn:Eg; [|done..].
  apply get_printable in Eg; [|done]. destruct (entry_of_value _) as [e|] eqn:Ee; [|done].
  apply entry_data_within in Ee; [|done].
  pose proof (create_valid dc (qe_source_plugin_id e) (qe_original_collection e) (ld_uuid dc) (qe_original_data e) s
    (within_printable _ Ee)) as Hn. unfold accepts in Hn.
  destruct (validate reg _ _) as [w|]; [destruct (va_valid w)|]; try done.
  all: specialize (Hn ltac:(done) Hs); unfold legacy_create.
  all: destruct (legacy_create_with_id _ _ _ _ _ _) as [[x|x] s1]; [|done].
  all: pose proof (delete_valid dd "core" QUARANTINE_COLLECTION id s1 Hn) as Hd.
  all: by destruct (legacy_delete _ _ _ _ _) as [[?|?] s2].
Qed.

Lemma step_valid o s : canonical_op o → valid_db s → valid_db (quarantine_step s o).
Proof.
  intros Ho Hs. destruct o as [dq d t p c data|dq d t p c id data v|dg dc dd id|d p c id]; cbn in *.
  - unfold validated_create. destruct (quarantine_if_invalid _ _ _ _ _ _ _) as [r s1] eqn:E.
    apply quarantine_valid in E as [H1 Ha]; try done. destruct r as [[]|]; [|done].
    pose proof (create_valid d p c (ld_uuid d) data s1 (within_printable _ Ho) (Ha eq_refl) H1) as Hn. unfold legacy_create.
    by destruct (legacy_create_with_id _ _ _ _ _ _).
  - unfold validated_update. destruct (quarantine_if_invalid _ _ _ _ _ _ _) as [r s1] eqn:E.
    apply quarantine_valid in E as [H1 Ha]; try done. destruct r as [[]|]; [|done].
    pose proof (update_valid d p c id data v s1 (within_printable _ Ho) (Ha eq_refl) H1) as Hn.
    by destruct (legacy_update _ _ _ _ _ _ _).
  - by apply reprocess_valid.
  - by apply delete_valid.
Qed.
End Valid.
End QuarantineFacts.
Import QuarantineFacts.

(** C20. From an empty database, with a registry that has no schema for the quarantine itself and
    data that serde_json reads back (nested at most 126 deep, floats that read back): after any
    creations, updates, reprocessings and deletions through the validating storage, with any statement
    of them failing at any point, every stored row reads back as a value that the schema of its
    collection accepts. *)
Theorem stored_rows_meet_schemas `{HJ : JsonText, !JsonTextLaws} `{HCh : Chrono} `{HS : SchemaLib} reg os :
  reg !! Quarantine.QUARANTINE_COLLECTION = None → Forall canonical_op os →
  ∀ row, row ∈ db_rows (foldl (quarantine_step reg) (mkDb [] [] []) os) →
    ∃ v, json_from_str (lr_data row) = Ok v ∧
      ∀ w, CoreRegistry.validate reg (lr_collection row) v = Some w → CoreRegistry.va_valid w = true.
Proof.
  intros Hq Hos row Hrow.
  assert (valid_db reg (foldl (quarantine_step reg) (mkDb [] [] []) os)) as Hv.
  { assert (valid_db reg (mkDb [] [] [])) as Hs by constructor. revert Hs. generalize (mkDb [] [] []).
    clear Hrow. induction Hos as [|o os Ho _ IH]; intros s Hs; [done|]. cbn. apply IH. by apply step_valid. }
  unfold valid_db in Hv. rewrite Forall_forall in Hv. destruct (Hv row Hrow) as (v & Hc & Ht & Ha).
  exists v. rewrite Ht, json_print_parse by done. split; [done|]. intros w Hw. unfold accepts in Ha. by rewrite Hw in Ha.
Qed.

(** *** Nothing that is put aside is lost *)

Section RoundTrip.
Context `{HJ : JsonText, !JsonTextLaws} `{HCh : Chrono, !ChronoLaws} `{HS : SchemaLib}.
Import CoreRegistry Quarantine.

Lemma create_fresh d p c data s f :
  quiet d → represents s f → json_printable data → rows f !! ld_uuid d = None →
  let r := mkRecord (ld_uuid d) p c data 1 None None (ld_now d) (ld_now d) in
  ∃ s', legacy_create d p c data s = (Ok r, s') ∧
    represents s' (mkSqlite (<[ld_uuid d := r]> (rows f)) (λ _, ld_now d)).
Proof.
  intros Hd Hr Hc Hn r. unfold legacy_create.
  pose proof (create_refines d p c (ld_uuid d) data s (mkSqlite (rows f) (λ _, ld_now d)) Hd
    (represents_clock _ _ _ Hr) Hc eq_refl) as Hx. unfold sqlite_create_with_id in Hx. cbn [rows clock] in Hx.
  rewrite Hn in Hx. destruct (legacy_create_with_id _ _ _ _ _ _) as [x s']. destruct Hx as [-> Hx].
  by exists s'.
Qed.

Lemma put_aside_create reg dq d at_ p c data s f w :
  quiet dq → represents s f → json_within 126 data → rows f !! ld_uuid dq = None →
  validate reg c data = Some w → va_valid w = false →
  let e := mkQuarantineEntry data c p (va_errors w) (va_schema_version w) (to_rfc3339 at_) in
  let r := mkRecord (ld_uuid dq) "core" QUARANTINE_COLLECTION (entry_value e) 1 None None (ld_now dq) (ld_now dq) in
  ∃ s', validated_create reg dq d at_ p c data s = (Err (ValidationFailed (ld_uuid dq) (va_errors w)), s') ∧
    represents s' (mkSqlite (<[ld_uuid dq := r]> (rows f)) (λ _, ld_now dq)).
Proof.
  intros Hd Hr Hc Hn Hw Hv e r. unfold validated_create, quarantine_if_invalid. rewrite Hw, Hv.
  destruct (create_fresh dq "core" QUARANTINE_COLLECTION (entry_value e) s f Hd Hr (entry_printable e Hc) Hn)
    as (s' & Hs' & Hr'). fold e. rewrite Hs'. by exists s'.
Qed.

Lemma reprocess_entry reg dg dc dd qid e t s f :
  quiet dg → quiet dc → quiet dd → represents s f → json_within 126 (qe_original_data e) →
  rows f !! qid = Some (mkRecord qid "core" QUARANTINE_COLLECTION (entry_value e) 1 None None t t) →
  rows f !! ld_uuid dc = None → accepts reg (qe_original_collection e) (qe_original_data e) →
  let r := mkRecord (ld_uuid dc) (qe_source_plugin_id e) (qe_original_collection e) (qe_original_data e) 1 None None
             (ld_now dc) (ld_now dc) in
  ∃ s' cl, reprocess_quarantined reg dg dc dd qid s = (Ok r, s') ∧
    represents s' (mkSqlite (<[ld_uuid dc := r]> (delete qid (rows f))) cl).
Proof.
  intros Hg Hc Hd Hr Hcan Hq Hn Ha r. unfold reprocess_quarantined.
  rewrite (get_refines dg "core" QUARANTINE_COLLECTION qid s f Hg Hr). unfold sqlite_get, select. rewrite Hq.
  cbn [rec_plugin_id rec_collection fst]. rewrite bool_decide_eq_true_2 by done. cbn [rec_data].
  rewrite entry_round_trip. unfold accepts in Ha.
  destruct (create_fresh dc (qe_source_plugin_id e) (qe_original_collection e) (qe_original_data e) s f Hc Hr
    (within_printable _ Hcan) Hn)
    as (s1 & Hs1 & Hr1). fold r in Hs1, Hr1.
  pose proof (delete_refines dd "core" QUARANTINE_COLLECTION qid s1 _ Hd Hr1) as Hx.
  assert (qid ≠ ld_uuid dc) as Hne by congruence.
  unfold sqlite_delete, select in Hx. cbn [rows clock] in Hx. rewrite lookup_insert_ne, Hq in Hx by done.
  cbn [rec_plugin_id rec_collection] in Hx. rewrite bool_decide_eq_true_2 in Hx by done.
  rewrite delete_insert_ne in Hx by done.
  destruct (validate reg _ _) as [w|]; [rewrite Ha|]; rewrite Hs1;
    destruct (legacy_delete _ _ _ _ _) as [x s2]; destruct Hx as [-> Hx]; by exists s2, (λ _, ld_now dc).
Qed.
End RoundTrip.

(** A record that its schema rejects is put aside and nothing else changes; reprocessing it
    under schemas that accept it stores the data as submitted, in the plugin and collection it
    was meant for, and removes the entry: the database then holds what it held, and the record. *)
Theorem quarantine_round_trip `{HJ : JsonText, !JsonTextLaws} `{HCh : Chrono, !ChronoLaws} `{HS : SchemaLib}
    reg reg' dq d dg dc dd at_ p c data s f w :
  represents s f → json_within 126 data → quiet dq → quiet dg → quiet dc → quiet dd →
  rows f !! ld_uuid dq = None → rows f !! ld_uuid dc = None → ld_uuid dc ≠ ld_uuid dq →
  CoreRegistry.validate reg c data = Some w → CoreRegistry.va_valid w = false → accepts reg' c data →
  ∃ s1 s2 cl,
    Quarantine.validated_create reg dq d at_ p c data s
      = (Err (Quarantine.ValidationFailed (ld_uuid dq) (CoreRegistry.va_errors w)), s1) ∧
    let r := mkRecord (ld_uuid dc) p c data 1 None None (ld_now dc) (ld_now dc) in
    Quarantine.reprocess_quarantined reg' dg dc dd (ld_uuid dq) s1 = (Ok r, s2) ∧
    represents s2 (mkSqlite (<[ld_uuid dc := r]> (rows f)) cl).
Proof.
  intros Hr Hc Hdq Hdg Hdc Hdd Hn1 Hn2 Hne Hw Hv Ha.
  destruct (put_aside_create reg dq d at_ p c data s f w Hdq Hr Hc Hn1 Hw Hv) as (s1 & Hs1 & Hr1).
  edestruct (reprocess_entry reg' dg dc dd (ld_uuid dq)
    (Quarantine.mkQuarantineEntry data c p (CoreRegistry.va_errors w) (CoreRegistry.va_schema_version w)
       (to_rfc3339 at_)) (ld_now dq) s1) as (s2 & cl & Hs2 & Hr2);
    [done..|exact Hr1|done|cbn [rows]; by rewrite lookup_insert_eq|cbn [rows]; by rewrite lookup_insert_ne|done|].
  exists s1, s2, cl. split; [done|]. split; [done|]. cbn [rows] in Hr2.
  rewrite delete_insert_id in Hr2 by done. done.
Qed.

(** ** Witnesses and examples *)

(** Notes are objects; the schema of a later version takes texts. *)
Definition notes_are (type_ : string) : CoreRegistry.registry :=
  {[ "notes" := CoreRegistry.mkSchemaEntry (JObj [("type", JStr type_)]) "v" ]}.

Definition drawn (t : timestamp) (id : string) : Draw := mkLegacyDraw t id t "a" (λ _, None).

(** The third creation meets a fault after its row is written. *)
Definition quarantine_day : list quarantine_op :=
  [QCreate (drawn 1 "q1") (drawn 1 "n1") 1 "p" "notes" (JStr "text");
   QCreate (drawn 2 "q2") (drawn 2 "n2") 2 "p" "notes" (JObj []);
   QCreate (drawn 3 "q3") (mkLegacyDraw 3 "n3" 3 "a" (λ i, if bool_decide (i = 1) then Some "full" else None)) 3 "p"
     "notes" (JObj []);
   QReprocess (drawn 4 "x") (drawn 4 "n4") (drawn 4 "x") "q1"].

Lemma stored_rows_meet_schemas_witness :
  let s := foldl (@quarantine_step coded_text toy_chrono demo_schema_lib (notes_are "object"))
             (mkDb [] [] []) quarantine_day in
  lr_id <$> db_rows s = ["q1"; "n2"; "n3"] ∧
  ∀ row, row ∈ db_rows s → ∃ v, @json_from_str coded_text (lr_data row) = Ok v.
Proof.
  split; [vm_compute; reflexivity|]. intros row Hrow.
  destruct (@stored_rows_meet_schemas coded_text coded_text_laws toy_chrono demo_schema_lib (notes_are "object")
    quarantine_day eq_refl ltac:(repeat constructor) row Hrow) as (v & Hv & _).
  by exists v.
Defined.

Lemma quarantine_round_trip_witness :
  ∃ s1 s2,
    @Quarantine.validated_create coded_text toy_chrono demo_schema_lib (notes_are "object") (drawn 1 "q1") (drawn 1 "n1")
      1 "p" "notes" (JStr "text") (mkDb [] [] [])
    = (Err (Quarantine.ValidationFailed "q1" ["value is not of type object"]), s1) ∧
    @Quarantine.reprocess_quarantined coded_text toy_chrono demo_schema_lib (notes_are "string") (drawn 2 "x")
      (drawn 2 "n2") (drawn 2 "x") "q1" s1
    = (Ok (mkRecord "n2" "p" "notes" (JStr "text") 1 None None 2 2), s2).
Proof.
  destruct (@quarantine_round_trip coded_text coded_text_laws toy_chrono toy_chrono_laws demo_schema_lib
    (notes_are "object") (notes_are "string") (drawn 1 "q1") (drawn 1 "n1") (drawn 2 "x") (drawn 2 "n2") (drawn 2 "x")
    1 "p" "notes" (JStr "text") (mkDb [] [] []) (mkSqlite ∅ (λ _, 0%Z))
    (CoreRegistry.mkValidation false ["value is not of type object"] "v")) as (s1 & s2 & cl & H1 & H2 & _);
    try (vm_compute; reflexivity); try done;
    [apply empty_represents|split; [done|vm_compute; split; congruence]..|].
  by exists s1, s2.
Defined.

(** An update that is put aside comes back as a new record: the one it was meant for keeps its
    old data. *)
Example quarantined_update_duplicates :
  let s := foldl (@quarantine_step coded_text toy_chrono demo_schema_lib (notes_are "object")) (mkDb [] [] [])
    [QCreate (drawn 1 "q1") (drawn 1 "n1") 1 "p" "notes" (JObj []);
     QUpdate (drawn 2 "q2") (drawn 2 "x") 2 "p" "notes" "n1" (JStr "text") 1] in
  let s' := snd (@Quarantine.reprocess_quarantined coded_text toy_chrono demo_schema_lib (notes_are "string")
                   (drawn 3 "x") (drawn 3 "n3") (drawn 3 "x") "q2" s) in
  (λ r, (lr_id r, lr_version r)) <$> db_rows s' = [("n1", 1%Z); ("n3", 1%Z)].
Proof. vm_compute. reflexivity. Qed.

(** A client of the record routes can write an entry and have it stored under any plugin. *)
Example forged_entry :
  let e := Quarantine.entry_value (Quarantine.mkQuarantineEntry (JObj []) "notes" "bank" [] "v" "t") in
  let a := snd (@DataRoutes.create_record coded_text toy_chrono (drawn 1 "q1") "_quarantine" None e
                  (DataRoutes.mkApi (Some (mkDb [] [] [])) [])) in
  fst (@Quarantine.reprocess_quarantine coded_text toy_chrono demo_schema_lib (notes_are "object") (drawn 2 "x")
         (drawn 2 "n2") (drawn 2 "x") "q1" (DataRoutes.api_storage a))
  = DataRoutes.Reply 200 (mkRecord "n2" "bank" "notes" (JObj []) 1 None None 2 2).
Proof. vm_compute. reflexivity. Qed.
