(* ===== verification/Rest.v ===== *)
(** * The REST transport

    packages/transport-rest/src: listener configuration and its checks (config/mod.rs), merging
    of plugin routes (router/merge.rs), the router (router/build.rs), authentication and CORS
    (middleware/auth.rs, middleware/cors.rs, listener.rs) and the handlers (handlers/mod.rs)
    with the request and response types of packages/types/src/workflow.rs and identity.rs.

    axum's path matcher is the class [PathMatcher]; sockets, TLS and tracing are left out.
    Extractors that fail answer with their status. *)

From stdpp Require Import base tactics list gmap sets strings.
From Stdlib Require Import Ascii ZArith Lia.
From S2P Require Import Prelude RustString RustText Json Types Auth.

Local Open Scope string_scope.
Local Open Scope list_scope.

(** ** Configuration *)

Record RouteConfig : Type := mkRoute {
  rt_method : string;
  rt_path : string;
  rt_workflow : string;
  rt_public : bool;
}.

Record HandlerConfig : Type := mkHandler {
  hd_type : string;
  hd_routes : list RouteConfig;
}.

Record TlsConfig : Type := mkTls { tls_cert : string; tls_key : string }.

Record ListenerAuth : Type := mkListenerAuth { la_issuer : string; la_audience : string }.

Record ListenerConfig : Type := mkListener {
  ls_binding : string;
  ls_port : Z;
  ls_address : string;
  ls_tls : option TlsConfig;
  ls_auth : option ListenerAuth;
  ls_handlers : list HandlerConfig;
}.

Inductive RestError : Type :=
| RequestFailed (m : string)
| BindFailed (m : string)
| InvalidConfig (m : string).

Definition rest_error_display (e : RestError) : string :=
  match e with
  | RequestFailed m => "request handling failed: " +:+ m
  | BindFailed m => "failed to bind REST transport: " +:+ m
  | InvalidConfig m => "invalid REST transport config: " +:+ m
  end.

Definition rest_error_code (e : RestError) : string :=
  match e with
  | RequestFailed _ => "TRANSPORT_REST_001"
  | BindFailed _ => "TRANSPORT_REST_002"
  | InvalidConfig _ => "TRANSPORT_REST_003"
  end.

Definition rest_error_severity (e : RestError) : Severity :=
  match e with
  | RequestFailed _ => Retryable
  | BindFailed _ | InvalidConfig _ => Fatal
  end.

Definition default_rest_routes : list RouteConfig :=
  [mkRoute "GET" "/api/v1/health" "health.check" true;
   mkRoute "GET" "/api/v1/data/:collection" "collection.list" false;
   mkRoute "GET" "/api/v1/data/:collection/:id" "collection.get" false;
   mkRoute "POST" "/api/v1/data/:collection" "collection.create" false;
   mkRoute "PUT" "/api/v1/data/:collection/:id" "collection.update" false;
   mkRoute "DELETE" "/api/v1/data/:collection/:id" "collection.delete" false].

Definition default_listener_config : ListenerConfig :=
  mkListener "default" 3000 "127.0.0.1" None None
    [mkHandler "rest" default_rest_routes;
     mkHandler "graphql" [mkRoute "POST" "/graphql" "graphql.query" false]].

(** *** Validation *)

Definition route_key (method path : string) : string := to_uppercase method +:+ " " +:+ path.

Definition namespace_error (handler_type path : string) : option string :=
  if bool_decide (handler_type = "rest") then
    if starts_with path "/api/" then None else Some ("REST route '" +:+ path +:+ "' must start with /api/")
  else if bool_decide (handler_type = "graphql") then
    if starts_with path "/graphql" then None
    else Some ("GraphQL route '" +:+ path +:+ "' must start with /graphql")
  else None.

(** The routes of all handlers, with the type of theirs, in order. *)
Definition routes_of (config : ListenerConfig) : list (string * RouteConfig) :=
  h ← ls_handlers config; (λ r, (hd_type h, r)) <$> hd_routes h.

(** One round of the loop: the keys seen and the errors so far. *)
Definition validate_route (acc : gset string * list string) (hr : string * RouteConfig) : gset string * list string :=
  let '(seen, errors) := acc in
  let key := route_key (rt_method hr.2) (rt_path hr.2) in
  let dup := if bool_decide (key ∈ seen) then ["duplicate route: " +:+ key] else [] in
  let ns := (λ e, rest_error_display (InvalidConfig e)) <$> option_list (namespace_error hr.1 (rt_path hr.2)) in
  ({[key]} ∪ seen, errors ++ dup ++ ns).

Definition validate_listener (config : ListenerConfig) : result unit RestError :=
  let port := if bool_decide (ls_port config = 0%Z) then ["port must be between 1 and 65535"] else [] in
  let tls :=
    match ls_tls config with
    | Some t =>
        if is_empty (tls_cert t) || is_empty (tls_key t) then ["TLS config requires both cert and key paths"] else []
    | None => []
    end in
  match (foldl validate_route (∅, port ++ tls) (routes_of config)).2 with
  | [] => Ok tt
  | errors => Err (InvalidConfig (join "; " errors))
  end.

(** ** Plugin routes *)

Record PluginRoute : Type := mkPluginRoute {
  pr_plugin_id : string;
  pr_method : string;
  pr_path : string;
  pr_workflow : string;
  pr_public : bool;
}.

Definition plugin_route (pr : PluginRoute) : RouteConfig :=
  mkRoute (pr_method pr) (pr_path pr) (pr_workflow pr) (pr_public pr).

(** [config::merge_routes]. *)
Fixpoint add_plugin_routes (prs : list PluginRoute) (seen : gset string) (all : list RouteConfig) :
    result (list RouteConfig) RestError :=
  match prs with
  | [] => Ok all
  | pr :: rest =>
      let key := route_key (pr_method pr) (pr_path pr) in
      if bool_decide (key ∈ seen) then
        Err (InvalidConfig ("plugin route conflicts with config route: " +:+ key))
      else add_plugin_routes rest ({[key]} ∪ seen) (all ++ [plugin_route pr])
  end.

Definition config_merge_routes (config : ListenerConfig) (prs : list PluginRoute) : result (list RouteConfig) RestError :=
  let rs := (routes_of config).*2 in
  add_plugin_routes prs (list_to_set ((λ r, route_key (rt_method r) (rt_path r)) <$> rs)) rs.

Inductive RouteSource : Type :=
| FromConfig
| FromPlugin (plugin_id : string).

Record MergedRoute : Type := mkMerged {
  mr_route : RouteConfig;
  mr_handler_type : string;
  mr_source : RouteSource;
}.

Record MergeState : Type := mkMerge {
  ms_all : list MergedRoute;
  ms_seen : gset string;
  ms_errors : list string;
}.

Definition merge_config_route (st : MergeState) (hr : string * RouteConfig) : MergeState :=
  let key := route_key (rt_method hr.2) (rt_path hr.2) in
  if bool_decide (key ∈ ms_seen st) then
    mkMerge (ms_all st) (ms_seen st) (ms_errors st ++ ["duplicate config route: " +:+ key])
  else
    mkMerge (ms_all st ++ [mkMerged hr.2 hr.1 FromConfig]) ({[key]} ∪ ms_seen st)
      (ms_errors st ++ option_list (namespace_error hr.1 (rt_path hr.2))).

Definition merge_plugin_route (st : MergeState) (pr : PluginRoute) : MergeState :=
  let key := route_key (pr_method pr) (pr_path pr) in
  if bool_decide (key ∈ ms_seen st) then
    mkMerge (ms_all st) (ms_seen st)
      (ms_errors st ++ ["plugin '" +:+ pr_plugin_id pr +:+ "' route conflicts with existing route: " +:+ key])
  else
    mkMerge (ms_all st ++ [mkMerged (plugin_route pr) "rest" (FromPlugin (pr_plugin_id pr))]) ({[key]} ∪ ms_seen st)
      (ms_errors st ++ ((λ e, "plugin '" +:+ pr_plugin_id pr +:+ "': " +:+ e)
                          <$> option_list (namespace_error "rest" (pr_path pr)))).

Definition merge_routes (config : ListenerConfig) (prs : list PluginRoute) : result (list MergedRoute) RestError :=
  let st := foldl merge_plugin_route (foldl merge_config_route (mkMerge [] ∅ []) (routes_of config)) prs in
  match ms_errors st with
  | [] => Ok (ms_all st)
  | errors => Err (InvalidConfig (join "; " errors))
  end.

Definition flatten_merged (merged : list MergedRoute) : list RouteConfig := mr_route <$> merged.

(** ** The router *)

Definition axum_segment (segment : string) : string :=
  match strip_prefix ":" segment with
  | Some name => "{" +:+ name +:+ "}"
  | None => segment
  end.

Definition to_axum_path (path : string) : string := join "/" (axum_segment <$> split "/" path).

(** axum's matcher: whether a template cannot be added beside those there are, and the template
    that a path matches, with its parameters. *)
Class PathMatcher : Type := {
  template_conflict : list string → string → bool;
  match_path : list string → string → option (string * gmap string string);
}.

(** An entry of the route table: its template, method and workflow, and whether its handler reads
    a body. *)
Record Endpoint : Type := mkEndpoint {
  ep_template : string;
  ep_method : string;
  ep_workflow : string;
  ep_with_body : bool;
}.

Abbreviation Router := (list Endpoint).

Section Routing.
Context `{PathMatcher}.

(** [Router::route], which panics when a method is given twice for a template or the template
    conflicts with another. *)
Definition add_route (e : Endpoint) (router : Router) : option Router :=
  let templates := ep_template <$> router in
  if bool_decide (ep_template e ∈ templates) then
    if existsb (λ x, bool_decide (ep_template x = ep_template e) && bool_decide (ep_method x = ep_method e)) router
    then None
    else Some (router ++ [e])
  else if template_conflict templates (ep_template e) then None
  else Some (router ++ [e]).

(** Routes with other methods are dropped. *)
Definition endpoint_of (r : RouteConfig) : option Endpoint :=
  let method := to_uppercase (rt_method r) in
  let path := to_axum_path (rt_path r) in
  if bool_decide (method = "GET") || bool_decide (method = "DELETE") then
    Some (mkEndpoint path method (rt_workflow r) false)
  else if bool_decide (method = "POST") || bool_decide (method = "PUT") then
    Some (mkEndpoint path method (rt_workflow r) true)
  else None.

Definition route_step (router : option Router) (r : RouteConfig) : option Router :=
  rt ← router;
  match endpoint_of r with
  | Some e => add_route e rt
  | None => Some rt
  end.

(** [None] is a panic. *)
Definition build_router (routes : list RouteConfig) : option Router := foldl route_step (Some []) routes.

Definition build_merged_router (routes : list MergedRoute) : option Router := build_router (flatten_merged routes).

(** The endpoint of a template; GET also serves HEAD. *)
Definition find_endpoint (router : Router) (template method : string) : option Endpoint :=
  let at_ m := head (filter (λ e, ep_template e = template ∧ ep_method e = m) router) in
  match at_ method with
  | Some e => Some e
  | None => if bool_decide (method = "HEAD") then at_ "GET" else None
  end.

(** ** Requests *)

Record Identity : Type := mkCaller {
  id_subject : string;
  id_issuer : string;
  id_claims : gmap string json;
}.

Definition guest : Identity := mkCaller "anonymous" "system" ∅.

Record RequestMeta : Type := mkRequestMeta {
  rm_request_id : string;
  rm_timestamp : timestamp;
  rm_source_binding : string;
}.

Record WorkflowRequest : Type := mkWorkflowRequest {
  wr_workflow : string;
  wr_identity : Identity;
  wr_params : gmap string string;
  wr_query : gmap string string;
  wr_body : option json;
  wr_meta : RequestMeta;
}.

Inductive WorkflowStatus : Type := StOk | StCreated | StNotFound | StDenied | StInvalid | StError.

Definition status_is_success (s : WorkflowStatus) : bool :=
  match s with
  | StOk | StCreated => true
  | _ => false
  end.

Definition http_status_code (s : WorkflowStatus) : Z :=
  match s with
  | StOk => 200
  | StCreated => 201
  | StNotFound => 404
  | StDenied => 403
  | StInvalid => 400
  | StError => 500
  end.

Record WorkflowError : Type := mkWorkflowError {
  we_code : string;
  we_message : string;
  we_detail : option json;
}.

Record ResponseMeta : Type := mkResponseMeta {
  sm_request_id : string;
  sm_duration_ms : Z;
  sm_traces : list string;
}.

Record WorkflowResponse : Type := mkWorkflowResponse {
  ws_status : WorkflowStatus;
  ws_data : option json;
  ws_errors : list WorkflowError;
  ws_meta : ResponseMeta;
}.

(** The request id and the clock are inputs. *)
Definition build_workflow_request (request_id : string) (now : timestamp) (workflow : string) (identity : Identity)
    (params query : gmap string string) (body : option json) : WorkflowRequest :=
  mkWorkflowRequest workflow identity params query body (mkRequestMeta request_id now "rest").

Definition status_to_http (s : WorkflowStatus) : Z :=
  match s with
  | StOk => 200
  | StCreated => 201
  | StNotFound => 404
  | StDenied => 403
  | StInvalid => 400
  | StError => 500
  end.

Definition error_body (code message : string) : json :=
  mk_obj [("error", mk_obj [("code", JStr code); ("message", JStr message)])].

Definition workflow_response_to_http (r : WorkflowResponse) : Z * json :=
  (status_to_http (ws_status r),
   if status_is_success (ws_status r) then mk_obj [("data", default JNull (ws_data r))]
   else
     let e := default (mkWorkflowError "UNKNOWN" "An unknown error occurred" None) (head (ws_errors r)) in
     error_body (we_code e) (we_message e)).

(** A request as it reaches the router: the extractors of query and body have their result. *)
Record HttpRequest : Type := mkHttp {
  hq_method : string;
  hq_path : string;
  hq_authorization : option string;
  hq_forwarded_for : option string;
  hq_query : result (gmap string string) Z;
  hq_body : result json Z;
}.

(** What a handler did: the request it built, or nothing, and the answer. *)
Record Outcome : Type := mkOutcome {
  oc_request : option WorkflowRequest;
  oc_status : Z;
  oc_body : json;
}.

Definition plain (status : Z) : Outcome := mkOutcome None status JNull.

(** The placeholder answer of the handlers. *)
Definition placeholder (r : WorkflowRequest) : WorkflowResponse :=
  mkWorkflowResponse StOk (Some (mk_obj [("placeholder", JBool true)])) []
    (mkResponseMeta (rm_request_id (wr_meta r)) 0 []).

Definition answer_request (r : WorkflowRequest) : Outcome :=
  let '(status, body) := workflow_response_to_http (placeholder r) in mkOutcome (Some r) status body.

(** [handle_with_body] and [handle_without_body]: the extractors in their order; the identity is
    an extension that the middleware adds. *)
Definition handle (request_id : string) (now : timestamp) (e : Endpoint) (identity : option Identity)
    (params : gmap string string) (rq : HttpRequest) : Outcome :=
  match identity with
  | None => plain 500
  | Some who =>
      match hq_query rq with
      | Err status => plain status
      | Ok query =>
          if ep_with_body e then
            match hq_body rq with
            | Err status => plain status
            | Ok body =>
                answer_request (build_workflow_request request_id now (ep_workflow e) who params query (Some body))
            end
          else answer_request (build_workflow_request request_id now (ep_workflow e) who params query None)
      end
  end.

(** ** The middleware *)

Definition collect_public_routes (config : ListenerConfig) : gset string :=
  list_to_set
    ((λ r, to_uppercase (rt_method r) +:+ " " +:+ to_axum_path (rt_path r))
       <$> filter (λ r, rt_public r = true) ((routes_of config).*2)).

Definition auth_identity_to_identity (a : AuthIdentity) : Identity :=
  mkCaller (ai_user_id a) (ai_provider a)
    (match ai_scopes a with
     | [] => ∅
     | scopes => {[ "scopes" := JArr (JStr <$> scopes) ]}
     end).

Definition auth_error_answer (e : AuthError) : Z * string * string :=
  match e with
  | TokenMissing => (401%Z, "AUTH_001", "Authorization header required")
  | TokenExpired => (401%Z, "AUTH_002", "Token has expired")
  | TokenInvalid _ => (401%Z, "AUTH_003", "Invalid token")
  | ProviderUnreachable _ => (503%Z, "AUTH_004", "Authentication service unavailable")
  | RateLimited retry => (429%Z, "AUTH_006", "Too many failed attempts, retry after " +:+ show_Z retry +:+ "s")
  | KeyRevoked => (401%Z, "AUTH_007", "API key has been revoked")
  | KeyInvalid => (401%Z, "AUTH_008", "Invalid API key")
  | ConfigInvalid _ => (500%Z, "AUTH_005", "Authentication configuration error")
  end.

Definition auth_error_response (e : AuthError) : Outcome :=
  let '(status, code, message) := auth_error_answer e in mkOutcome None status (error_body code message).

(** What the router does with a request, with the identity added to it. *)
Definition dispatch (router : Router) (request_id : string) (now : timestamp)
    (matched : option (string * gmap string string)) (identity : option Identity) (rq : HttpRequest) : Outcome :=
  match matched with
  | None => plain 404
  | Some (template, params) =>
      match find_endpoint router template (hq_method rq) with
      | None => plain 405
      | Some e => handle request_id now e identity params rq
      end
  end.

Section Middleware.
Context {P : Type} `{AuthProvider P}.

(** [now] and [later] are the readings of the limiter's clock. *)
Definition auth_middleware (public_routes : gset string) (router : Router) (request_id : string)
    (now later : timestamp) (rq : HttpRequest) (s : P * RateLimiter) : Outcome * (P * RateLimiter) :=
  let matched := match_path (ep_template <$> router) (hq_path rq) in
  let path := default (hq_path rq) (fst <$> matched) in
  if bool_decide (hq_method rq +:+ " " +:+ path ∈ public_routes) then
    (dispatch router request_id now matched None rq, s)
  else
    let client_ip := default "unknown" (hq_forwarded_for rq) in
    match validate_request (hq_authorization rq) client_ip now later s with
    | (Ok a, s') => (dispatch router request_id now matched (Some (auth_identity_to_identity a)) rq, s')
    | (Err e, s') => (auth_error_response e, s')
    end.

(** *** CORS *)

Inductive CorsPolicy : Type :=
| CorsPermissive
| CorsOrigins (origins : list string) (methods : list string).

(** [parse] reads a header value. *)
Definition cors_layer (parse : string → option string) (is_local : bool) (explicit_origins : list string) : CorsPolicy :=
  match explicit_origins with
  | [] =>
      if is_local then CorsPermissive else CorsOrigins ["https://localhost"] ["GET"; "OPTIONS"]
  | _ => CorsOrigins (omap parse explicit_origins) ["GET"; "POST"; "PUT"; "DELETE"; "OPTIONS"]
  end.

Definition cors_host (address : string) : string :=
  if starts_with address "[" then trim_start_matches "[" (default address (head (split "]" address)))
  else if contains_str address "::" then address
  else
    match rsplit_once ":" address with
    | Some (host, _) => host
    | None => address
    end.

Definition is_localhost (address : string) : bool :=
  bool_decide (cors_host address ∈ ["127.0.0.1"; "localhost"; "::1"]).

(** The layers of [build_layered_router] around the router, outermost first: CORS, which answers
    preflight requests itself, then authentication. *)
Definition layered (config : ListenerConfig) (router : Router) (request_id : string) (now later : timestamp)
    (rq : HttpRequest) (s : P * RateLimiter) : Outcome * (P * RateLimiter) :=
  if bool_decide (hq_method rq = "OPTIONS") then (plain 200, s)
  else auth_middleware (collect_public_routes config) router request_id now later rq s.
End Middleware.
End Routing.

(** ** The transport *)

Record RestTransportConfig : Type := mkRestTransport { tc_host : string; tc_port : Z }.

Definition default_transport : RestTransportConfig := mkRestTransport "127.0.0.1" 3000.

Definition bind_address (c : RestTransportConfig) : string := tc_host c +:+ ":" +:+ show_Z (tc_port c).

(** * Properties of the REST transport

    Merging accepts exactly the route tables without duplicates whose paths are in their
    namespaces; the router then serves every route by its workflow; a workflow request is built
    only for a route of the table and with an identity that authentication accepted. *)

(** ** Merging *)

Definition key_of (r : RouteConfig) : string := route_key (rt_method r) (rt_path r).

(** A route offered to the table: its key, the entry, the namespace errors and the error of a
    duplicate. *)
Record Offer : Type := mkOffer {
  of_key : string;
  of_entry : MergedRoute;
  of_namespace : list string;
  of_duplicate : string;
}.

Definition take_offer (st : MergeState) (o : Offer) : MergeState :=
  if bool_decide (of_key o ∈ ms_seen st) then mkMerge (ms_all st) (ms_seen st) (ms_errors st ++ [of_duplicate o])
  else mkMerge (ms_all st ++ [of_entry o]) ({[of_key o]} ∪ ms_seen st) (ms_errors st ++ of_namespace o).

Lemma take_offers os st :
  ms_errors (foldl take_offer st os) = [] ↔
  ms_errors st = [] ∧ NoDup (of_key <$> os) ∧ (∀ o, o ∈ os → of_key o ∉ ms_seen st) ∧
  Forall (λ o, of_namespace o = []) os.
Proof.
  revert st. induction os as [|o os IH]; intros st; cbn [foldl fmap list_fmap].
  { split; [|by intros (? & _)]. intros ?. split_and!; [done|constructor| |constructor]. by intros o ?%elem_of_nil. }
  rewrite IH, NoDup_cons, Forall_cons. unfold take_offer. case_bool_decide as Hs; cbn [ms_errors ms_seen].
  - split; [by intros ([_ ?]%app_nil & _)|]. intros (_ & _ & Hn & _). by destruct (Hn o (list_elem_of_here _ _)).
  - rewrite app_nil. setoid_rewrite elem_of_cons. split.
    + intros ([? ?] & Hd & Hn & ?). split_and!; try done.
      * intros (x & Hx & Hin)%list_elem_of_fmap. apply (Hn x Hin). set_solver.
      * intros x [->|Hx]; [done|]. specialize (Hn x Hx). set_solver.
    + intros (? & [Hk ?] & Hn & ? & ?). split_and!; try done. intros x Hx.
      assert (of_key x ≠ of_key o). { intros Heq. apply Hk. rewrite <- Heq. by apply list_elem_of_fmap_2. }
      specialize (Hn x (or_intror Hx)). set_solver.
Qed.

Lemma take_offers_all os st :
  ms_errors (foldl take_offer st os) = [] → ms_all (foldl take_offer st os) = ms_all st ++ (of_entry <$> os).
Proof.
  revert st. induction os as [|o os IH]; intros st He; cbn [foldl fmap list_fmap] in *; [by rewrite app_nil_r|].
  rewrite IH by done. apply take_offers in He as (He & _). revert He. unfold take_offer.
  case_bool_decide; cbn; [by intros [_ ?]%app_nil|]. intros _. by rewrite <- app_assoc.
Qed.

Definition config_offer (hr : string * RouteConfig) : Offer :=
  mkOffer (key_of hr.2) (mkMerged hr.2 hr.1 FromConfig) (option_list (namespace_error hr.1 (rt_path hr.2)))
    ("duplicate config route: " +:+ key_of hr.2).

Definition plugin_offer (pr : PluginRoute) : Offer :=
  mkOffer (key_of (plugin_route pr)) (mkMerged (plugin_route pr) "rest" (FromPlugin (pr_plugin_id pr)))
    ((λ e, "plugin '" +:+ pr_plugin_id pr +:+ "': " +:+ e) <$> option_list (namespace_error "rest" (pr_path pr)))
    ("plugin '" +:+ pr_plugin_id pr +:+ "' route conflicts with existing route: " +:+ key_of (plugin_route pr)).

Definition offers (config : ListenerConfig) (prs : list PluginRoute) : list Offer :=
  (config_offer <$> routes_of config) ++ (plugin_offer <$> prs).

Lemma merge_as_offers config prs :
  foldl merge_plugin_route (foldl merge_config_route (mkMerge [] ∅ []) (routes_of config)) prs
  = foldl take_offer (mkMerge [] ∅ []) (offers config prs).
Proof.
  unfold offers. rewrite foldl_app.
  assert (∀ hrs st, foldl merge_config_route st hrs = foldl take_offer st (config_offer <$> hrs)) as ->.
  { induction hrs as [|hr hrs IH]; intros st; [done|]. cbn. apply IH. }
  generalize (foldl take_offer (mkMerge [] ∅ []) (config_offer <$> routes_of config)).
  induction prs as [|pr prs IH]; intros st; [done|]. cbn. apply IH.
Qed.

(** The table: the routes of the configuration, then those of the plugins. *)
Definition merged_table (config : ListenerConfig) (prs : list PluginRoute) : list MergedRoute :=
  ((λ hr, mkMerged hr.2 hr.1 FromConfig) <$> routes_of config)
  ++ ((λ pr, mkMerged (plugin_route pr) "rest" (FromPlugin (pr_plugin_id pr))) <$> prs).

Definition in_namespace (m : MergedRoute) : Prop := namespace_error (mr_handler_type m) (rt_path (mr_route m)) = None.

Lemma offers_entries config prs : of_entry <$> offers config prs = merged_table config prs.
Proof. unfold offers, merged_table. by rewrite fmap_app, <- !list_fmap_compose. Qed.

Lemma offers_keys config prs : of_key <$> offers config prs = (λ m, key_of (mr_route m)) <$> merged_table config prs.
Proof. unfold offers, merged_table. by rewrite !fmap_app, <- !list_fmap_compose. Qed.

Lemma offers_namespace config prs :
  Forall (λ o, of_namespace o = []) (offers config prs) ↔ Forall in_namespace (merged_table config prs).
Proof.
  unfold offers, merged_table. rewrite !Forall_app, !Forall_fmap.
  assert (∀ A (f : A → string) (o : option A), f <$> option_list o = [] ↔ o = None) as Ho by (intros ?? []; done).
  f_equiv; apply Forall_iff; intros x; unfold in_namespace; cbn; [by destruct (namespace_error _ _)|apply Ho].
Qed.

(** ** Paths *)

Definition braceless (p : string) : Prop := free_of ["{"; "}"]%char p.

Lemma axum_segment_noslash s : ¬ char_in "/" s → ¬ char_in "/" (axum_segment s).
Proof.
  intros Hs. unfold axum_segment. destruct (strip_prefix ":" s) as [n|] eqn:E; [|done].
  apply strip_prefix_Some in E as ->. rewrite !char_in_app in *. simpl in *. naive_solver.
Qed.

Lemma axum_segment_inj a b : braceless a → braceless b → axum_segment a = axum_segment b → a = b.
Proof.
  unfold axum_segment, braceless. intros Ha Hb.
  destruct (strip_prefix ":" a) as [n|] eqn:Ea; destruct (strip_prefix ":" b) as [k|] eqn:Eb; try done.
  - apply strip_prefix_Some in Ea as ->. apply strip_prefix_Some in Eb as ->. intros [= E]. f_equal.
    by apply string_app_inv_tail in E.
  - intros <-. destruct (Hb "{"%char); [set_solver|]. by left.
  - intros ->. destruct (Ha "{"%char); [set_solver|]. by left.
Qed.

Lemma braceless_segments p : braceless p → Forall braceless (split "/" p).
Proof.
  intros Hp. apply Forall_forall. intros s (l & r & ->)%split_piece_infix.
  unfold braceless in *. rewrite !free_of_app in Hp. tauto.
Qed.

Lemma to_axum_path_inj p q : braceless p → braceless q → to_axum_path p = to_axum_path q → p = q.
Proof.
  intros Hp Hq E. unfold to_axum_path in E.
  assert (axum_segment <$> split "/" p = axum_segment <$> split "/" q) as Es.
  { assert (∀ s, split "/" (join "/" (axum_segment <$> split "/" s)) = axum_segment <$> split "/" s) as Hs.
    { intros s. apply (split_join "/"%char).
      - destruct (split "/" s) eqn:Ei; [by apply split_not_nil in Ei|done].
      - apply Forall_fmap. eapply Forall_impl; [apply split_no_sep|]. intros x. apply axum_segment_noslash. }
    by rewrite <- (Hs p), <- (Hs q), E. }
  rewrite <- (join_split "/" p), <- (join_split "/" q). f_equal.
  pose proof (braceless_segments p Hp) as Fp. pose proof (braceless_segments q Hq) as Fq. revert Es Fp Fq.
  generalize (split "/" p), (split "/" q). induction l as [|a l IH]; intros [|b k] Es Fp Fq; try done.
  apply Forall_cons in Fp as [? ?]. apply Forall_cons in Fq as [? ?]. injection Es as Ea El.
  f_equal; [by apply axum_segment_inj|by apply IH].
Qed.

(** ** The router *)

Section Routing.
Context `{PathMatcher}.

Definition slot (e : Endpoint) : string * string := (ep_template e, ep_method e).

(** No template of the list conflicts with others of it. *)
Definition compatible (templates : list string) : Prop :=
  ∀ ts t, ts ⊆ templates → t ∈ templates → t ∉ ts → template_conflict ts t = false.

Lemma add_route_fresh e router templates :
  compatible templates → ep_template <$> router ⊆ templates → ep_template e ∈ templates → slot e ∉ slot <$> router →
  add_route e router = Some (router ++ [e]).
Proof.
  intros Hc Hr He Hs. unfold add_route. case_bool_decide as Ht; [|by rewrite (Hc _ _ Hr He Ht)].
  destruct (existsb _ router) eqn:Ex; [|done]. exfalso.
  apply existsb_elem_of in Ex as (x & Hx & [Ha%bool_decide_eq_true Hb%bool_decide_eq_true]%andb_true_iff).
  apply Hs, list_elem_of_fmap. exists x. unfold slot. by rewrite Ha, Hb.
Qed.

Lemma build_router_from rs router templates :
  compatible templates → ep_template <$> (router ++ omap endpoint_of rs) ⊆ templates →
  NoDup (slot <$> (router ++ omap endpoint_of rs)) →
  foldl route_step (Some router) rs = Some (router ++ omap endpoint_of rs).
Proof.
  intros Hc. revert router. induction rs as [|r rs IH]; intros router Ht Hn; cbn [foldl omap list_omap].
  { by rewrite app_nil_r. }
  cbn [omap list_omap] in Ht, Hn. cbn [route_step mbind option_bind].
  destruct (endpoint_of r) as [e|] eqn:Ee; cbn in *; rewrite ?Ee in *; [|by apply IH].
  replace (router ++ e :: omap endpoint_of rs) with ((router ++ [e]) ++ omap endpoint_of rs) in *
    by by rewrite <- app_assoc.
  rewrite (add_route_fresh e router templates); [by apply IH|done| | |].
  - rewrite !fmap_app in Ht. set_solver.
  - rewrite !fmap_app in Ht. cbn in Ht. set_solver.
  - rewrite !fmap_app, !NoDup_app in Hn. destruct Hn as ((_ & Hn & _) & _).
    intros Hin. apply (Hn _ Hin). cbn. by left.
Qed.

Lemma build_router_all rs :
  compatible (ep_template <$> omap endpoint_of rs) → NoDup (slot <$> omap endpoint_of rs) →
  build_router rs = Some (omap endpoint_of rs).
Proof. intros Hc Hn. by apply (build_router_from rs [] _ Hc). Qed.

(** A router that was built has every endpoint. *)
Lemma build_router_some rs router : build_router rs = Some router → router = omap endpoint_of rs.
Proof.
  assert (∀ r0, foldl route_step (Some r0) rs = Some router → router = r0 ++ omap endpoint_of rs) as Hr; [|by apply Hr].
  assert (∀ rs, foldl route_step None rs = None) as Hnone by by induction rs0.
  induction rs as [|r rs IH]; intros r0 Hb; cbn in Hb |- *; [by rewrite app_nil_r; simplify_eq|].
  destruct (endpoint_of r) as [e|]; [|by apply IH].
  assert (add_route e r0 = None ∨ add_route e r0 = Some (r0 ++ [e])) as [Ha|Ha]
    by (unfold add_route; repeat case_match; auto); rewrite Ha in Hb; [by rewrite Hnone in Hb|].
  apply IH in Hb as ->. by rewrite <- app_assoc.
Qed.

Lemma endpoint_of_slot r e :
  endpoint_of r = Some e →
  ep_template e = to_axum_path (rt_path r) ∧ ep_method e = to_uppercase (rt_method r) ∧ ep_workflow e = rt_workflow r.
Proof. unfold endpoint_of. repeat case_match; try done; by intros [= <-]. Qed.

(** Distinct keys give distinct slots. *)
Lemma distinct_slots rs :
  Forall (λ r, braceless (rt_path r)) rs → NoDup (key_of <$> rs) → NoDup (slot <$> omap endpoint_of rs).
Proof.
  intros Hb. induction Hb as [|r rs Hr Hb IH]; [constructor|]. cbn. rewrite NoDup_cons. intros [Hk Hn].
  destruct (endpoint_of r) as [e|] eqn:Ee; [|by apply IH]. cbn. rewrite NoDup_cons. split; [|by apply IH].
  intros (x & Hx & (q & Hq & Eq)%list_elem_of_omap)%list_elem_of_fmap.
  apply endpoint_of_slot in Ee as (Et & Em & _). apply endpoint_of_slot in Eq as (Et' & Em' & _).
  unfold slot in Hx. injection Hx as Hx1 Hx2. rewrite Forall_forall in Hb.
  assert (rt_path r = rt_path q) as Hp by (apply to_axum_path_inj; [done|by apply Hb|congruence]).
  apply Hk, list_elem_of_fmap. exists q. split; [|done]. unfold key_of, route_key. congruence.
Qed.

Lemma find_slot router e :
  NoDup (slot <$> router) → e ∈ router →
  head (filter (λ x, ep_template x = ep_template e ∧ ep_method x = ep_method e) router) = Some e.
Proof.
  induction router as [|x router IH]; [by intros _ ?%elem_of_nil|]. rewrite fmap_cons, NoDup_cons.
  intros [Hx Hn] [->|He]%elem_of_cons; rewrite filter_cons; [by rewrite decide_True|].
  rewrite decide_False; [by apply IH|]. intros [Ha Hb]. apply Hx, list_elem_of_fmap. exists e. split; [|done].
  unfold slot. by rewrite Ha, Hb.
Qed.

Lemma find_endpoint_slot router e :
  NoDup (slot <$> router) → e ∈ router → find_endpoint router (ep_template e) (ep_method e) = Some e.
Proof. intros Hn He. unfold find_endpoint. by rewrite find_slot. Qed.

Lemma find_endpoint_elem router t m e :
  find_endpoint router t m = Some e →
  e ∈ router ∧ ep_template e = t ∧ (ep_method e = m ∨ m = "HEAD" ∧ ep_method e = "GET").
Proof.
  assert (∀ k x, head (filter (λ e, ep_template e = t ∧ ep_method e = k) router) = Some x →
    x ∈ router ∧ ep_template x = t ∧ ep_method x = k) as Hh.
  { intros k x Hx. assert (x ∈ filter (λ e, ep_template e = t ∧ ep_method e = k) router) as Hin.
    { destruct (filter _ _); [done|]. injection Hx as ->. by left. }
    apply list_elem_of_filter in Hin. tauto. }
  unfold find_endpoint. destruct (head _) as [x|] eqn:Ex.
  - intros [= ->]. apply Hh in Ex. tauto.
  - case_bool_decide; [|done]. intros Hx%Hh. tauto.
Qed.
End Routing.

(** C24. Merging accepts a configuration with plugin routes exactly if no method and path occur
    twice, in any letter case of the method, and every path is in the namespace of its handler,
    plugin paths under /api/. Then, if the paths are written without braces and the router takes
    their templates together, the router is built, and it answers each route of a supported
    method with the endpoint of that route and no other: a plugin never takes over a route. *)
Theorem merged_routes_served `{PathMatcher} config prs :
  let table := merged_table config prs in
  match merge_routes config prs with
  | Ok ms =>
      ms = table ∧ NoDup ((λ m, key_of (mr_route m)) <$> table) ∧ Forall in_namespace table ∧
      (Forall (λ m, braceless (rt_path (mr_route m))) table →
       compatible (ep_template <$> omap endpoint_of (flatten_merged table)) →
       ∃ router, build_merged_router ms = Some router ∧
         (∀ m e, m ∈ table → endpoint_of (mr_route m) = Some e →
            find_endpoint router (to_axum_path (rt_path (mr_route m))) (to_uppercase (rt_method (mr_route m))) = Some e ∧
            ep_workflow e = rt_workflow (mr_route m)) ∧
         (∀ e, e ∈ router → ∃ m, m ∈ table ∧ endpoint_of (mr_route m) = Some e))
  | Err _ => ¬ (NoDup ((λ m, key_of (mr_route m)) <$> table) ∧ Forall in_namespace table)
  end.
Proof.
  intros table. unfold merge_routes. rewrite merge_as_offers.
  pose proof (take_offers (offers config prs) (mkMerge [] ∅ [])) as Hiff. rewrite offers_keys, offers_namespace in Hiff.
  fold table in Hiff. destruct (ms_errors _) as [|x xs] eqn:Ee.
  - destruct (proj1 Hiff eq_refl) as (_ & Hn & _ & Hns).
    apply take_offers_all in Ee as ->. cbn [ms_all app]. rewrite offers_entries. fold table.
    split_and!; [done..|]. intros Hb Hc. exists (omap endpoint_of (flatten_merged table)).
    assert (NoDup (slot <$> omap endpoint_of (flatten_merged table))) as Hs.
    { apply distinct_slots; unfold flatten_merged; [by apply Forall_fmap|by rewrite <- list_fmap_compose]. }
    split; [by apply build_router_all|]. split.
    + intros m e Hm He. destruct (endpoint_of_slot _ _ He) as (<- & <- & ->). split; [|done].
      apply find_endpoint_slot; [done|]. apply list_elem_of_omap. exists (mr_route m). split; [|done].
      by apply list_elem_of_fmap_2.
    + intros e (r & (m & -> & Hm)%list_elem_of_fmap & He)%list_elem_of_omap. eauto.
  - intros [Hn Hns]. assert (x :: xs = []) as [=]. by apply Hiff; split_and!.
Qed.

(** ** Who reaches a handler *)

Section Serve.
Context `{PathMatcher} {P : Type} `{AuthProvider P}.

Lemma dispatch_request router rid now matched identity rq r :
  oc_request (dispatch router rid now matched identity rq) = Some r →
  ∃ t params e who, matched = Some (t, params) ∧ find_endpoint router t (hq_method rq) = Some e ∧
    identity = Some who ∧ wr_identity r = who ∧ wr_workflow r = ep_workflow e ∧ wr_params r = params.
Proof.
  unfold dispatch. destruct matched as [[t params]|]; [|done]. destruct (find_endpoint _ _ _) as [e|] eqn:Ee; [|done].
  unfold handle. destruct identity as [who|]; [|done]. destruct (hq_query rq); [|done].
  destruct (ep_with_body e); [destruct (hq_body rq); [|done]|]; intros [= <-]; by exists t, params, e, who.
Qed.

(** Without an identity no handler runs. *)
Lemma dispatch_nobody router rid now matched rq :
  let o := dispatch router rid now matched None rq in
  oc_request o = None ∧ (oc_status o = 404 ∨ oc_status o = 405 ∨ oc_status o = 500)%Z.
Proof. unfold dispatch. repeat case_match; cbn; auto. Qed.
End Serve.


(** ** A matcher on segments *)

(** Templates match segment by segment; two templates of one shape conflict. *)
Definition is_param (s : string) : bool := starts_with s "{".

Fixpoint match_segments (template path : list string) : option (gmap string string) :=
  match template, path with
  | [], [] => Some ∅
  | t :: ts, p :: ps =>
      m ← match_segments ts ps;
      if is_param t then Some (<[t := p]> m) else if bool_decide (t = p) then Some m else None
  | _, _ => None
  end.

Definition shape (template : string) : list (option string) :=
  (λ t, if is_param t then None else Some t) <$> split "/" template.

#[local] Instance segment_matcher : PathMatcher := {|
  template_conflict ts t := existsb (λ x, bool_decide (shape x = shape t)) ts;
  match_path ts p := head (omap (λ t, (λ m, (t, m)) <$> match_segments (split "/" t) (split "/" p)) ts);
|}.

(** One token is valid. *)
#[local] Instance one_token : AuthProvider unit := {|
  validate_token t _ := (if bool_decide (t = "good") then Ok (mkIdentity "ada" "pocket" [] 0) else Err TokenExpired, tt);
  provider_validate_key _ _ := (Err KeyInvalid, tt);
  provider_revoke_key _ _ := (Err KeyInvalid, tt);
|}.

Definition hello : PluginRoute := mkPluginRoute "hello" "get" "/api/hello/:name" "hello.greet" true.

Definition built (prs : list PluginRoute) : option Router :=
  match merge_routes default_listener_config prs with
  | Ok ms => build_merged_router ms
  | Err _ => None
  end.

Definition get_as (header : option string) (path : string) : HttpRequest :=
  mkHttp "GET" path header None (Ok ∅) (Err 415%Z).

Definition ask (prs : list PluginRoute) (rq : HttpRequest) : option Outcome :=
  (λ router, (layered default_listener_config router "r" 1 2 rq (tt, new_rate_limiter)).1) <$> built prs.

Definition table : list MergedRoute :=
  match merge_routes default_listener_config [hello] with Ok ms => ms | Err _ => [] end.

Definition hello_router : Router := default [] (built [hello]).

Definition greeting : Outcome * (unit * RateLimiter) :=
  layered default_listener_config hello_router "r" 1 2 (get_as (Some "Bearer good") "/api/hello/bob") (tt, new_rate_limiter).

Definition greeted : WorkflowRequest :=
  default (build_workflow_request "" 0 "" guest ∅ ∅ None) (oc_request greeting.1).


(** Templates of different shapes do not conflict. *)
Lemma segment_compatible templates :
  Forall (λ a, Forall (λ b, shape a = shape b → a = b) templates) templates → compatible templates.
Proof.
  intros Hf ts t Hts Ht Hn. cbn. apply existsb_false_elem_of. intros x Hx. apply bool_decide_eq_false. intros Hs.
  rewrite Forall_forall in Hf. specialize (Hf x (Hts x Hx)). rewrite Forall_forall in Hf.
  apply Hn. by rewrite <- (Hf t Ht Hs).
Qed.

Lemma all_chars_braceless p : all_chars (λ c, bool_decide (c ∉ ["{"; "}"]%char)) p = true → braceless p.
Proof. rewrite all_chars_true. intros Hp c Hc Hin%Hp. by apply bool_decide_eq_true in Hin. Qed.

Lemma merged_routes_served_witness :
  ∃ router, build_merged_router table = Some router ∧
    find_endpoint router "/api/hello/{name}" "GET" = Some (mkEndpoint "/api/hello/{name}" "GET" "hello.greet" false).
Proof.
  pose proof (merged_routes_served default_listener_config [hello]) as Hm.
  assert (merge_routes default_listener_config [hello] = Ok table) as E by (vm_compute; reflexivity).
  rewrite E in Hm. destruct Hm as (_ & _ & _ & Hm). destruct Hm as (router & Hb & Hf & _).
  - eapply Forall_impl; [|intros m; apply all_chars_braceless].
    apply (bool_decide_eq_true_1 _). vm_compute. reflexivity.
  - apply segment_compatible. apply (bool_decide_eq_true_1 _). vm_compute. reflexivity.
  - exists router. split; [done|].
    apply (Hf (mkMerged (plugin_route hello) "rest" (FromPlugin "hello")) (mkEndpoint "/api/hello/{name}" "GET" "hello.greet" false)).
    + unfold merged_table. apply elem_of_app. right. by left.
    + vm_compute. reflexivity.
Defined.

(** ** Examples *)

(** The health route of the default configuration is public: the middleware adds no identity, and
    the handler, which asks for one, is answered for with an internal error. *)
Example health_check_fails :
  oc_status <$> ask [] (get_as None "/api/v1/health") = Some 500%Z ∧
  oc_status <$> ask [] (get_as (Some "Bearer good") "/api/v1/health") = Some 500%Z.
Proof. vm_compute. done. Qed.

(** A plugin route that is declared public is not among the public routes. *)
Example public_plugin_route_guarded :
  oc_status <$> ask [hello] (get_as None "/api/hello/bob") = Some 401%Z.
Proof. vm_compute. done. Qed.

(** Two spellings of one template pass the check for duplicates; building the router panics. *)
Example spelled_twice_panics :
  built [mkPluginRoute "a" "GET" "/api/a/:id" "a.get" false; mkPluginRoute "b" "GET" "/api/a/{id}" "b.get" false] = None ∧
  is_ok (merge_routes default_listener_config
    [mkPluginRoute "a" "GET" "/api/a/:id" "a.get" false; mkPluginRoute "b" "GET" "/api/a/{id}" "b.get" false]) = true.
Proof. vm_compute. done. Qed.

(** A route with another method is accepted and not served. *)
Example patch_route_dropped :
  built [mkPluginRoute "a" "PATCH" "/api/a" "a.patch" false] = built [] ∧
  is_ok (merge_routes default_listener_config [mkPluginRoute "a" "PATCH" "/api/a" "a.patch" false]) = true.
Proof. vm_compute. done. Qed.

(** With its port an IPv6 loopback address is not recognised. *)
Example ipv6_loopback_strict : is_localhost "::1" = true ∧ is_localhost ("::1" +:+ ":" +:+ show_Z 3000) = false.
Proof. vm_compute. done. Qed.
