(* ===== verification/PluginLoading.v ===== *)
(** * Loading plugins

    Signatures of plugin bundles (apps/core/src/plugin_signing.rs); discovery and loading of WASM
    plugins (packages/plugin-system/src: discovery.rs, loader.rs, runtime.rs); the native plugins
    of the core with their manifests and credential access (apps/core/src/plugin_loader.rs,
    credential_bridge.rs).

    Ed25519, SHA-256 and hex are classes. A directory is the list of its entries; instantiating a
    module and the bodies of plugins are parameters. Tracing is left out. *)

From stdpp Require Import base tactics list gmap sets strings sorting.
From Stdlib Require Import Ascii ZArith Lia.
From S2P Require Import Prelude RustString RustText Json Types Crypto Schema SqliteBackend Search Vault Capability Manifest HostFunctions PluginRuntime DataApi.

Local Open Scope string_scope.
Local Open Scope list_scope.

(** ** Signatures *)

Module Signing.

Inductive VerificationTier : Type := Unverified | Reviewed | Official.

Definition tier_display (t : VerificationTier) : string :=
  match t with
  | Unverified => "unverified"
  | Reviewed => "reviewed"
  | Official => "official"
  end.

Record PluginSignature : Type := mkSignature {
  sg_signature : string;
  sg_public_key : string;
  sg_manifest_hash : string;
  sg_tier : VerificationTier;
}.

Inductive VerificationResult : Type :=
| Valid (tier : VerificationTier) (public_key : string)
| TamperedBundle
| InvalidSignature
| RevokedKey
| Unsigned
| MalformedSignature (m : string).

(** [RevocationList]. *)
Record RevocationList : Type := mkRevocations { revoked_keys : gset string }.

Definition new_revocations : RevocationList := mkRevocations ∅.

(** The file holds the keys as they were written. *)
Definition load_revocations `{JsonText} (contents : result string string) : result RevocationList string :=
  let? text := contents in
  let? v := json_from_str text in
  match struct_field v "revoked_keys" 0 ≫= Quarantine.read_strings with
  | Some keys => if struct_shape 1 v then Ok (mkRevocations (list_to_set keys)) else Err "invalid type"
  | None => Err "missing field `revoked_keys`"
  end.

Definition save_revocations (l : RevocationList) : json :=
  mk_obj [("revoked_keys", JArr (JStr <$> elements (revoked_keys l)))].

Definition revoke (public_key_hex : string) (l : RevocationList) : RevocationList :=
  mkRevocations ({[to_ascii_lowercase public_key_hex]} ∪ revoked_keys l).

Definition is_revoked (l : RevocationList) (public_key_hex : string) : bool :=
  bool_decide (to_ascii_lowercase public_key_hex ∈ revoked_keys l).

Record SignatureVerifierConfig : Type := mkVerifier {
  vc_allow_unsigned : bool;
  vc_revocation_list : RevocationList;
}.

Definition default_verifier : SignatureVerifierConfig := mkVerifier false new_revocations.

(** The ed25519-dalek and sha2 crates: [ed_key] says why 32 bytes are no public key. *)
Class Ed25519 : Type := {
  sha256 : bytes → bytes;
  ed_public : bytes → bytes;
  ed_sign : bytes → bytes → bytes;
  ed_key : bytes → result unit string;
  ed_verify : bytes → bytes → bytes → bool;
}.

Section Sign.
Context `{HmacHex} `{Ed25519}.

Definition compute_signing_payload (wasm_bytes manifest_hash : bytes) : bytes := sha256 (wasm_bytes ++ manifest_hash).

Definition compute_manifest_hash (manifest_bytes : bytes) : string := hex_encode (sha256 manifest_bytes).

(** [None] when the own hash does not decode, a panic. *)
Definition sign_plugin (signing_key wasm_bytes manifest_bytes : bytes) (tier : VerificationTier) : option PluginSignature :=
  let manifest_hash := compute_manifest_hash manifest_bytes in
  match hex_decode manifest_hash with
  | Err _ => None
  | Ok manifest_hash_bytes =>
      let payload := compute_signing_payload wasm_bytes manifest_hash_bytes in
      Some (mkSignature (hex_encode (ed_sign signing_key payload)) (hex_encode (ed_public signing_key)) manifest_hash tier)
  end.

(** A value of so many bytes. *)
Definition sized (n : nat) (b : bytes) : bool := bool_decide (length b = n).

Definition verify_plugin (plugin_sig : PluginSignature) (wasm_bytes manifest_bytes : bytes)
    (config : SignatureVerifierConfig) : VerificationResult :=
  match hex_decode (sg_public_key plugin_sig) with
  | Err e => MalformedSignature ("invalid public key hex: " +:+ e)
  | Ok pk =>
      if negb (sized 32 pk) then MalformedSignature "public key must be 32 bytes"
      else
        match ed_key pk with
        | Err e => MalformedSignature ("invalid public key: " +:+ e)
        | Ok _ =>
            if is_revoked (vc_revocation_list config) (sg_public_key plugin_sig) then RevokedKey
            else
              match hex_decode (sg_signature plugin_sig) with
              | Err e => MalformedSignature ("invalid signature hex: " +:+ e)
              | Ok sig =>
                  if negb (sized 64 sig) then MalformedSignature "signature must be 64 bytes"
                  else if negb (bool_decide (compute_manifest_hash manifest_bytes = sg_manifest_hash plugin_sig)) then
                    TamperedBundle
                  else
                    match hex_decode (sg_manifest_hash plugin_sig) with
                    | Err e => MalformedSignature ("invalid manifest hash hex: " +:+ e)
                    | Ok hash =>
                        if ed_verify pk (compute_signing_payload wasm_bytes hash) sig then
                          Valid (sg_tier plugin_sig) (sg_public_key plugin_sig)
                        else TamperedBundle
                    end
              end
        end
  end.

Definition check_unsigned_policy (config : SignatureVerifierConfig) : result unit string :=
  if vc_allow_unsigned config then Ok tt
  else Err "unsigned plugins are not allowed — set allow_unsigned_plugins = true to opt in".
End Sign.
End Signing.

(** ** WASM plugins *)

Module WasmLoading.

(** *** Limits and failures of calls *)

Definition DEFAULT_MAX_PAGES : Z := 1024.

Definition max_pages (max_memory_bytes : option Z) : Z :=
  match max_memory_bytes with
  | Some b => Z.min (b / (64 * 1024)) 65536
  | None => DEFAULT_MAX_PAGES
  end.

Definition TRAP_INDICATORS : list string :=
  ["unreachable"; "out of bounds"; "call stack exhausted"; "stack overflow"; "indirect call type mismatch";
   "integer overflow"; "integer divide by zero"; "invalid conversion"; "undefined element"; "uninitialized element";
   "wasm trap"; "wasm `unreachable`"; "error while executing at wasm"; "wasm backtrace"].

Definition is_wasm_trap (error_msg : string) : bool :=
  let lower := to_lowercase error_msg in existsb (contains_str lower) TRAP_INDICATORS.

(** What a failed call becomes. *)
Definition call_error (function_name e : string) : PluginError :=
  let msg := function_name +:+ ": " +:+ e in
  if is_wasm_trap msg then Crash msg else ExecutionFailed msg.

(** *** Discovery *)

(** An entry of the plugins directory: whether it is a directory and what it holds, the manifest
    as far as it can be read. *)
Record DirEntry : Type := mkDirEntry {
  de_name : string;
  de_is_dir : bool;
  de_wasm : bool;
  de_manifest : option (result string string);
}.

Inductive PluginsDir : Type :=
| Missing
| NotADirectory
| Unreadable (e : string)
| Entries (entries : list DirEntry).

Record DiscoveredPlugin : Type := mkDiscovered {
  dp_path : path;
  dp_wasm_path : path;
  dp_manifest_path : path;
  dp_manifest : result string string;
}.

Definition entry_le (a b : DirEntry) : Prop := String.le (de_name a) (de_name b).

#[export] Instance entry_le_dec : RelDecision entry_le.
Proof. intros a b. unfold entry_le. apply _. Defined.

Definition show_path (p : path) : string := join "/" p.

Definition discovered_of (dir : path) (e : DirEntry) : option DiscoveredPlugin :=
  if negb (de_is_dir e) then None
  else
    match de_wasm e, de_manifest e with
    | true, Some content =>
        let p := dir ++ [de_name e] in
        Some (mkDiscovered p (p ++ ["plugin.wasm"]) (p ++ ["manifest.toml"]) content)
    | _, _ => None
    end.

Definition scan_plugins_directory (dir : path) (d : PluginsDir) : result (list DiscoveredPlugin) PluginError :=
  match d with
  | Missing => Err (DirectoryNotFound (show_path dir))
  | NotADirectory => Err (DirectoryNotFound (show_path dir +:+ " is not a directory"))
  | Unreadable e => Err (DirectoryScanFailed e)
  | Entries es => Ok (omap (discovered_of dir) (merge_sort entry_le es))
  end.

(** *** Loading *)

Record LoaderConfig : Type := mkLoaderConfig {
  lc_approved_capabilities : gmap string (list Capability);
  lc_plugin_configs : gmap string json;
}.

Section Load.
Context {I : Type}.
Context (semver_ok : string → bool) (parse_toml : string → result RawManifest string).
Context (canonicalize : path → option path).
(** Reading and instantiating a module with its host functions. *)
Context (load_plugin : path → string → list string → InjectionDeps → result I PluginError).

Definition parse_manifest (plugin : DiscoveredPlugin) : result PluginManifest PluginError :=
  let p := show_path (dp_manifest_path plugin) in
  let? content := result_map_err (λ e, ManifestInvalid ("failed to read " +:+ p +:+ ": " +:+ e)) (dp_manifest plugin) in
  parse_manifest_toml semver_ok parse_toml content p.

Definition some_unless_empty (xs : list string) : option (list string) :=
  match xs with
  | [] => None
  | _ => Some xs
  end.

Definition injection_deps (config : LoaderConfig) (blob_storage : bool) (m : PluginManifest) : InjectionDeps :=
  mkDeps (lc_plugin_configs config !! meta_id (mf_plugin m)) blob_storage None
    (some_unless_empty (events_emit (mf_events m))) 0.

Definition load_single_plugin (first_party_dir : path) (config : LoaderConfig) (blob_storage : bool)
    (plugin : DiscoveredPlugin) : result (PluginHandle I) PluginError :=
  let? m := parse_manifest plugin in
  let id := meta_id (mf_plugin m) in
  let approved := default [] (lc_approved_capabilities config !! id) in
  let? caps := check_capability_approval canonicalize id (mf_capabilities m) (dp_path plugin) first_party_dir approved in
  let deps := injection_deps config blob_storage m in
  let? instance := load_plugin (dp_wasm_path plugin) id (build_host_functions caps deps) deps in
  Ok (mkHandle instance m caps).

Definition handle_id (h : PluginHandle I) : string := meta_id (mf_plugin (ph_manifest h)).

(** One round of the loop: a failure is skipped, and so is an id that was loaded before. *)
Definition load_step (first_party_dir : path) (config : LoaderConfig) (blob_storage : bool)
    (acc : list (PluginHandle I) * gset string) (plugin : DiscoveredPlugin) : list (PluginHandle I) * gset string :=
  let '(handles, seen) := acc in
  match load_single_plugin first_party_dir config blob_storage plugin with
  | Err _ => (handles, seen)
  | Ok h => if bool_decide (handle_id h ∈ seen) then (handles, seen) else (handles ++ [h], {[handle_id h]} ∪ seen)
  end.

Definition load_plugins (plugins_dir first_party_dir : path) (config : LoaderConfig) (blob_storage : bool)
    (d : PluginsDir) : result (list (PluginHandle I)) PluginError :=
  let? discovered := scan_plugins_directory plugins_dir d in
  match discovered with
  | [] => Ok []
  | _ => Ok (foldl (load_step first_party_dir config blob_storage) ([], ∅) discovered).1
  end.
End Load.
End WasmLoading.

(** ** Native plugins *)

Module NativePlugins.
Import CoreRegistry.

(** *** Manifests *)

Record ManifestCollection : Type := mkManifestCollection { mc_name : string; mc_schema : json }.

Record NativeManifest : Type := mkNativeManifest {
  nm_id : string;
  nm_display_name : string;
  nm_version : string;
  nm_description : string;
  nm_capabilities : list string;
  nm_min_core_version : option string;
  nm_entry_point : option string;
  nm_collections : list ManifestCollection;
}.

Definition is_valid_semver (version : string) : bool :=
  let base := default version (head (split "-" (default version (head (split "+" version))))) in
  let parts := split "." base in
  bool_decide (length parts = 3) && forallb (λ p, negb (is_empty p) && all_chars is_ascii_digit p) parts.

(** [parse] is serde's reading of the manifest; [at_] its path. *)
Definition read_manifest (parse : string → result NativeManifest string) (at_ : string) (contents : result string string) :
    result NativeManifest string :=
  let? text := result_map_err (λ e, "failed to read manifest at " +:+ at_ +:+ ": " +:+ e) contents in
  let? m := result_map_err (λ e, "failed to parse manifest at " +:+ at_ +:+ ": " +:+ e) (parse text) in
  if is_empty (nm_id m) then Err ("manifest at " +:+ at_ +:+ " has empty 'id' field")
  else if negb (contains_char (nm_id m) ".") then
    Err ("manifest at " +:+ at_ +:+ " has invalid 'id' format '" +:+ nm_id m
         +:+ "': must use reverse-domain notation (e.g. com.example.plugin)")
  else if is_empty (nm_display_name m) then Err ("manifest at " +:+ at_ +:+ " has empty 'display_name' field")
  else if negb (is_valid_semver (nm_version m)) then
    Err ("manifest at " +:+ at_ +:+ " has invalid version '" +:+ nm_version m +:+ "': must be semver format X.Y.Z")
  else Ok m.

(** *** The loader *)

Inductive PluginStatus : Type :=
| Registered
| Loaded
| Failed (m : string)
| Unloaded.

#[export] Instance plugin_status_eq_dec : EqDecision PluginStatus.
Proof. solve_decision. Defined.

Record PluginInfo : Type := mkInfo {
  pi_id : string;
  pi_display_name : string;
  pi_version : string;
  pi_status : PluginStatus;
}.

(** [CorePlugin]: what the loader calls of it. Loading is told whether there are credentials. *)
Class CorePlugin (P : Type) : Type := {
  plugin_id : P → string;
  plugin_display_name : P → string;
  plugin_version : P → string;
  on_load : bool → P → result unit string * P;
  on_unload : P → result unit string * P;
  plugin_collections : P → list (string * json);
}.

Record PluginLoader (P : Type) : Type := mkPluginLoader {
  pl_plugins : gmap string P;
  pl_statuses : gmap string PluginInfo;
  pl_schema_registry : option registry;
  pl_credential_store : bool;
  pl_message_bus : option (list BusEvent);
  (** ids that somebody holds a reference to *)
  pl_held : gset string;
}.
Arguments mkPluginLoader {P} _ _ _ _ _ _.
Arguments pl_plugins {P} _.
Arguments pl_statuses {P} _.
Arguments pl_schema_registry {P} _.
Arguments pl_credential_store {P} _.
Arguments pl_message_bus {P} _.
Arguments pl_held {P} _.

Section Loader.
Context {P : Type} `{CorePlugin P} `{SchemaLib}.

Definition new_loader (reg : option registry) : PluginLoader P := mkPluginLoader ∅ ∅ reg false None ∅.

Definition set_plugin (id : string) (p : P) (l : PluginLoader P) : PluginLoader P :=
  mkPluginLoader (<[id := p]> (pl_plugins l)) (pl_statuses l) (pl_schema_registry l) (pl_credential_store l)
    (pl_message_bus l) (pl_held l).

Definition with_status (s : PluginStatus) (i : PluginInfo) : PluginInfo :=
  mkInfo (pi_id i) (pi_display_name i) (pi_version i) s.

Definition set_status (id : string) (s : PluginStatus) (l : PluginLoader P) : PluginLoader P :=
  mkPluginLoader (pl_plugins l) (alter (with_status s) id (pl_statuses l)) (pl_schema_registry l)
    (pl_credential_store l) (pl_message_bus l) (pl_held l).

Definition publish_event (e : BusEvent) (l : PluginLoader P) : PluginLoader P :=
  mkPluginLoader (pl_plugins l) (pl_statuses l) (pl_schema_registry l) (pl_credential_store l)
    ((λ es, es ++ [e]) <$> pl_message_bus l) (pl_held l).

Definition set_registry (reg : option registry) (l : PluginLoader P) : PluginLoader P :=
  mkPluginLoader (pl_plugins l) (pl_statuses l) reg (pl_credential_store l) (pl_message_bus l) (pl_held l).

Definition register_plugin (p : P) (l : PluginLoader P) : result unit string * PluginLoader P :=
  let id := plugin_id p in
  match pl_plugins l !! id with
  | Some _ => (Err ("plugin '" +:+ id +:+ "' is already registered"), l)
  | None =>
      let info := mkInfo id (plugin_display_name p) (plugin_version p) Registered in
      (Ok tt, mkPluginLoader (<[id := p]> (pl_plugins l)) (<[id := info]> (pl_statuses l)) (pl_schema_registry l)
                (pl_credential_store l) (pl_message_bus l) (pl_held l))
  end.

(** Schemas that are refused are skipped. *)
Definition register_collections (id : string) (cols : list (string * json)) (reg : registry) : registry :=
  foldl (λ r c, (register_plugin_schema id c.1 c.2 r).2) reg cols.

Definition load_plugin (id : string) (l : PluginLoader P) : result unit string * PluginLoader P :=
  match pl_plugins l !! id with
  | None => (Err ("plugin '" +:+ id +:+ "' not found"), l)
  | Some p =>
      if bool_decide (id ∈ pl_held l) then
        (Err ("plugin '" +:+ id +:+ "' has outstanding references, cannot load"), l)
      else
        let '(r, p') := on_load (pl_credential_store l) p in
        let l1 := set_plugin id p' l in
        match r with
        | Ok _ =>
            let l2 := set_status id Loaded (publish_event (PluginLoaded id) l1) in
            (Ok tt, set_registry (register_collections id (plugin_collections p') <$> pl_schema_registry l2) l2)
        | Err msg =>
            (Err ("plugin '" +:+ id +:+ "' failed to load: " +:+ msg),
             set_status id (Failed msg) (publish_event (Search.PluginError id msg) l1))
        end
  end.

(** The ids are visited in the order of the map. *)
Definition load_all (order : list string) (l : PluginLoader P) : list string * PluginLoader P :=
  foldl (λ acc id, match load_plugin id acc.2 with
                   | (Ok _, l') => (acc.1, l')
                   | (Err e, l') => (acc.1 ++ [e], l')
                   end) ([], l) order.

Definition unload_plugin (id : string) (l : PluginLoader P) : PluginLoader P :=
  match pl_plugins l !! id with
  | None => l
  | Some p =>
      if bool_decide (id ∈ pl_held l) then l
      else
        let '(r, p') := on_unload p in
        let l1 := set_plugin id p' l in
        match r with
        | Ok _ => set_status id Unloaded (publish_event (PluginUnloaded id) l1)
        | Err _ => set_status id Unloaded l1
        end
  end.

Definition unload_all (order : list string) (l : PluginLoader P) : PluginLoader P :=
  foldl (λ l id, unload_plugin id l) l order.

Definition is_loaded (i : PluginInfo) : bool := bool_decide (pi_status i = Loaded).

Definition loaded_count (l : PluginLoader P) : nat :=
  length (filter (λ kv, is_loaded kv.2 = true) (map_to_list (pl_statuses l))).

Definition get_plugin (id : string) (l : PluginLoader P) : option P :=
  i ← pl_statuses l !! id;
  if is_loaded i then pl_plugins l !! id else None.

(** The handle that is given out keeps the plugin referenced until it is dropped. *)
Definition get_plugin_arc (id : string) (l : PluginLoader P) : option P * PluginLoader P :=
  match get_plugin id l with
  | Some p =>
      (Some p, mkPluginLoader (pl_plugins l) (pl_statuses l) (pl_schema_registry l) (pl_credential_store l)
                 (pl_message_bus l) ({[id]} ∪ pl_held l))
  | None => (None, l)
  end.

Definition register_manifest_schemas (m : NativeManifest) (l : PluginLoader P) : list string * PluginLoader P :=
  match pl_schema_registry l with
  | None => ([], l)
  | Some reg =>
      let '(errors, reg') :=
        foldl (λ acc c, match register_plugin_schema (nm_id m) (mc_name c) (mc_schema c) acc.2 with
                        | (Ok _, r) => (acc.1, r)
                        | (Err e, r) => (acc.1 ++ [e], r)
                        end) ([], reg) (nm_collections m) in
      (errors, set_registry (Some reg') l)
  end.
End Loader.

(** *** Credentials of a plugin *)

(** [PluginCredentialBridge]: the store under the id of one plugin. *)
Section Bridge.
Context `{CryptoLib} (id : string).

Definition bridge_get (fault : option string) (service : string) (s : PluginCredentials.SqliteCredentialStore) :=
  PluginCredentials.retrieve fault id service s.

Definition bridge_store (nonce : list Byte.byte) (fault : option string) (service value : string)
    (s : PluginCredentials.SqliteCredentialStore) := PluginCredentials.store nonce fault id service value s.

Definition bridge_delete (fault : option string) (service : string) (s : PluginCredentials.SqliteCredentialStore) :=
  PluginCredentials.delete_key fault id service s.

Definition bridge_list (d : PluginCredentials.ListDraw) (s : PluginCredentials.SqliteCredentialStore) :=
  PluginCredentials.list_keys d id s.
End Bridge.
End NativePlugins.
