(* ===== verification/PluginLoadingFacts.v ===== *)
(** * Properties of plugin loading

    A signature that verifies binds module and manifest to a key that is not revoked; loading a
    directory gives the plugins that load on their own, one for each id, whatever the order of the
    directory; native plugins load and fail independently of each other. *)

From stdpp Require Import base tactics list gmap sets strings sorting.
From Stdlib Require Import Ascii ZArith Lia.
From S2P Require Import Prelude RustString RustText Json Types Crypto Schema SqliteBackend Search Vault Capability Manifest HostFunctions PluginRuntime DataApi PluginLoading.

Local Open Scope string_scope.
Local Open Scope list_scope.

(** ** Signatures *)

Module SigningFacts.
Import Signing.

(** What is used of the crates: signatures of a key verify under its public key, sizes, and that
    hex reads both letter cases and writes the lower one. *)
Class SigningLaws `{HmacHex} `{Ed25519} : Prop := {
  hex_back b : hex_decode (hex_encode b) = Ok b;
  hex_lower s b : hex_decode s = Ok b → to_ascii_lowercase s = hex_encode b;
  ed_public_size k : length (ed_public k) = 32;
  ed_sign_size k m : length (ed_sign k m) = 64;
  ed_public_key k : ed_key (ed_public k) = Ok tt;
  ed_verify_sign k m : ed_verify (ed_public k) m (ed_sign k m) = true;
}.

Section Laws.
Context `{HmacHex} `{Ed25519} `{!SigningLaws}.

Lemma verify_valid sg w m cfg t key :
  verify_plugin sg w m cfg = Valid t key →
  ∃ pk sig, hex_decode (sg_public_key sg) = Ok pk ∧ hex_decode (sg_signature sg) = Ok sig ∧
    ed_verify pk (sha256 (w ++ sha256 m)) sig = true ∧ is_revoked (vc_revocation_list cfg) (sg_public_key sg) = false ∧
    sg_manifest_hash sg = hex_encode (sha256 m) ∧ t = sg_tier sg ∧ key = sg_public_key sg.
Proof.
  unfold verify_plugin. destruct (hex_decode (sg_public_key sg)) as [pk|]; [|done].
  destruct (negb (sized 32 pk)); [done|]. destruct (ed_key pk); [|done].
  destruct (is_revoked _ _) eqn:Er; [done|]. destruct (hex_decode (sg_signature sg)) as [sig|]; [|done].
  destruct (negb (sized 64 sig)); [done|]. case_bool_decide as Hm; cbn; [|done].
  rewrite <- Hm. unfold compute_manifest_hash. rewrite hex_back. unfold compute_signing_payload.
  destruct (ed_verify _ _ _) eqn:Ev; [|done]. intros [= <- <-]. by exists pk, sig.
Qed.

Lemma signed_verifies k w m t cfg :
  ∃ sg, sign_plugin k w m t = Some sg ∧
    verify_plugin sg w m cfg =
      if is_revoked (vc_revocation_list cfg) (hex_encode (ed_public k)) then RevokedKey
      else Valid t (hex_encode (ed_public k)).
Proof.
  unfold sign_plugin, compute_manifest_hash. rewrite hex_back. eexists. split; [done|].
  unfold verify_plugin. cbn. rewrite !hex_back. unfold sized.
  rewrite (bool_decide_eq_true_2 (length (ed_public k) = 32)) by apply ed_public_size. cbn.
  rewrite ed_public_key. destruct (is_revoked _ _); [done|].
  rewrite (bool_decide_eq_true_2 (length (ed_sign k _) = 64)) by apply ed_sign_size. cbn.
  unfold compute_manifest_hash. rewrite bool_decide_eq_true_2 by done. cbn. by rewrite ed_verify_sign.
Qed.

(** A key is looked up by its bytes in lower-case hex, in whatever spelling it comes, and [revoke]
    puts it there. *)
Lemma is_revoked_iff l key pk :
  hex_decode key = Ok pk → is_revoked l key = bool_decide (hex_encode pk ∈ revoked_keys l).
Proof. intros Hk%hex_lower. unfold is_revoked. by rewrite Hk. Qed.

Lemma revoke_lists key pk l : hex_decode key = Ok pk → hex_encode pk ∈ revoked_keys (revoke key l).
Proof. intros Hk%hex_lower. unfold revoke. rewrite Hk. cbn. set_solver. Qed.
End Laws.
End SigningFacts.
Import SigningFacts.

(** C25. A bundle that was signed verifies, with its tier, unless its key is on the revocation list.
    Whenever a bundle verifies, its key signed the hash of exactly this module and this manifest
    and is not on the list: a key that is on the list in lower-case hex verifies nothing, in
    whatever spelling a bundle gives it. Revoking a key puts it there in lower case from any
    spelling. (Keys of a revocation file are kept as they are written: one in upper case is not
    on the list in this sense.) *)
Theorem plugin_signatures_sound `{HmacHex} `{Signing.Ed25519} `{!SigningLaws} cfg :
  let listed pk := hex_encode pk ∈ Signing.revoked_keys (Signing.vc_revocation_list cfg) in
  (∀ k w m t, ∃ sg, Signing.sign_plugin k w m t = Some sg ∧
     Signing.verify_plugin sg w m cfg =
       if decide (listed (Signing.ed_public k)) then Signing.RevokedKey
       else Signing.Valid t (hex_encode (Signing.ed_public k))) ∧
  (∀ sg w m t key, Signing.verify_plugin sg w m cfg = Signing.Valid t key →
     ∃ pk sig, hex_decode key = Ok pk ∧ hex_decode (Signing.sg_signature sg) = Ok sig ∧
       Signing.ed_verify pk (Signing.sha256 (w ++ Signing.sha256 m)) sig = true ∧ ¬ listed pk) ∧
  (∀ spelling pk, hex_decode spelling = Ok pk →
     hex_encode pk ∈ Signing.revoked_keys (Signing.revoke spelling (Signing.vc_revocation_list cfg))).
Proof.
  cbn zeta. split_and!.
  - intros k w m t. destruct (signed_verifies k w m t cfg) as (sg & Hs & Hv). exists sg. split; [done|]. rewrite Hv.
    rewrite (is_revoked_iff _ _ _ (hex_back _)). case_bool_decide; by case_decide.
  - intros sg w m t key (pk & sig & Hpk & Hsig & Hver & Hr & _ & _ & ->)%verify_valid. exists pk, sig. split_and!; try done.
    by rewrite (is_revoked_iff _ _ _ Hpk), bool_decide_eq_false in Hr.
  - intros spelling pk. apply revoke_lists.
Qed.

(** The tier is not part of what is signed: whoever has a signed bundle can raise it. *)
Lemma tier_not_signed `{HmacHex} `{Signing.Ed25519} sg w m cfg t key :
  Signing.verify_plugin sg w m cfg = Signing.Valid t key →
  Signing.verify_plugin
    (Signing.mkSignature (Signing.sg_signature sg) (Signing.sg_public_key sg) (Signing.sg_manifest_hash sg) Signing.Official)
    w m cfg = Signing.Valid Signing.Official key.
Proof. unfold Signing.verify_plugin. cbn. repeat case_match; try done. by intros [= _ <-]. Qed.

(** Keys of a file are compared as they are written there: one in upper case revokes nothing. *)
Example uppercase_file_ignored :
  ∃ l, @Signing.load_revocations coded_text (Ok (@json_to_string coded_text
         (JObj [("revoked_keys", JArr [JStr "AB"])]))) = Ok l ∧ Signing.is_revoked l "AB" = false ∧ Signing.is_revoked l "ab" = false.
Proof. eexists. split; [vm_compute; reflexivity|]. vm_compute. done. Qed.

(** ** Directories *)

Module DirectoryFacts.
Import WasmLoading.

(** The first of each id that is not in [seen]. *)
Fixpoint first_by_id {I} (seen : gset string) (hs : list (PluginHandle I)) : list (PluginHandle I) :=
  match hs with
  | [] => []
  | h :: rest =>
      if bool_decide (handle_id h ∈ seen) then first_by_id seen rest
      else h :: first_by_id ({[handle_id h]} ∪ seen) rest
  end.

Lemma first_by_id_spec {I} (hs : list (PluginHandle I)) seen :
  NoDup (handle_id <$> first_by_id seen hs) ∧
  (∀ h, h ∈ first_by_id seen hs → h ∈ hs ∧ handle_id h ∉ seen) ∧
  (∀ h, h ∈ hs → handle_id h ∉ seen → handle_id h ∈ handle_id <$> first_by_id seen hs).
Proof.
  revert seen. induction hs as [|h hs IH]; intros seen; cbn.
  { split_and!; [constructor|by intros h ?%elem_of_nil|by intros h ?%elem_of_nil]. }
  case_bool_decide as Hs.
  - destruct (IH seen) as (H1 & H2 & H3). split_and!; [done| |].
    + intros x [??]%H2. split; [by right|done].
    + intros x [->|Hx]%elem_of_cons Hn; [done|by apply H3].
  - destruct (IH ({[handle_id h]} ∪ seen)) as (H1 & H2 & H3). cbn. split_and!.
    + rewrite NoDup_cons. split; [|done]. intros (x & Hx & [_ Hn]%H2)%list_elem_of_fmap. set_solver.
    + intros x [->|[??]%H2]%elem_of_cons; [by split; [left|]|]. split; [by right|set_solver].
    + intros x [->|Hx]%elem_of_cons Hn; [by left|]. rewrite elem_of_cons.
      destruct (decide (handle_id x = handle_id h)); [by left|right]. apply H3; [done|set_solver].
Qed.

Section Dirs.
Context {I : Type} (semver_ok : string → bool) (parse_toml : string → result RawManifest string)
  (canonicalize : path → option path) (load_module : path → string → list string → InjectionDeps → result I PluginError).
Context (first_party_dir : path) (config : LoaderConfig) (blob_storage : bool).

Abbreviation single := (load_single_plugin semver_ok parse_toml canonicalize load_module first_party_dir config blob_storage).
Abbreviation step := (load_step semver_ok parse_toml canonicalize load_module first_party_dir config blob_storage).

(** The plugins that load, in order. *)
Definition loadable (ds : list DiscoveredPlugin) : list (PluginHandle I) := omap (λ d, result_ok (single d)) ds.

Lemma load_steps ds hs seen : (foldl step (hs, seen) ds).1 = hs ++ first_by_id seen (loadable ds).
Proof.
  revert hs seen. induction ds as [|d ds IH]; intros hs seen; cbn; [by rewrite app_nil_r|].
  destruct (single d) as [h|e]; cbn; [|apply IH]. case_bool_decide; rewrite IH; [done|]. by rewrite <- app_assoc.
Qed.

Lemma load_plugins_first plugins_dir es :
  load_plugins semver_ok parse_toml canonicalize load_module plugins_dir first_party_dir config blob_storage (Entries es)
  = Ok (first_by_id ∅ (loadable (omap (discovered_of plugins_dir) (merge_sort entry_le es)))).
Proof.
  unfold load_plugins. cbn [scan_plugins_directory result_bind].
  destruct (omap _ _) as [|d ds] eqn:E; [done|]. f_equal. apply (load_steps (d :: ds) [] ∅).
Qed.

(** What an entry of the directory loads to on its own. *)
Definition loads_from (dir : path) (e : DirEntry) (h : PluginHandle I) : Prop :=
  ∃ d, discovered_of dir e = Some d ∧ single d = Ok h.

Lemma loadable_cons dir e es :
  loadable (omap (discovered_of dir) (e :: es)) =
  match discovered_of dir e ≫= λ d, result_ok (single d) with
  | Some h => h :: loadable (omap (discovered_of dir) es)
  | None => loadable (omap (discovered_of dir) es)
  end.
Proof.
  unfold loadable. cbn [omap list_omap]. destruct (discovered_of dir e) as [d|]; [|done]. simpl.
  by destruct (single d).
Qed.

Lemma loads_from_iff dir e h : loads_from dir e h ↔ (discovered_of dir e ≫= λ d, result_ok (single d)) = Some h.
Proof.
  unfold loads_from. rewrite bind_Some. f_equiv. intros d. destruct (single d); simpl; naive_solver.
Qed.

(** The handles come from entries in their order, and of those of one id from the least name. *)
Lemma first_chosen dir es seen :
  StronglySorted (λ a b, String.le (de_name a) (de_name b)) es →
  ∃ chosen,
    let hs := first_by_id seen (loadable (omap (discovered_of dir) es)) in
    StronglySorted (λ a b, String.le (de_name a) (de_name b)) chosen ∧ chosen ⊆ es ∧
    Forall2 (loads_from dir) chosen hs ∧
    ∀ e h, e ∈ es → loads_from dir e h → handle_id h ∉ seen →
      ∃ e' h', (e', h') ∈ zip chosen hs ∧ handle_id h' = handle_id h ∧ String.le (de_name e') (de_name e).
Proof.
  intros Hs. revert seen. induction Hs as [|e es Hs IH He]; intros seen.
  { exists []. split_and!; [constructor|done|constructor|]. by intros e h ?%elem_of_nil. }
  rewrite loadable_cons. destruct (discovered_of dir e ≫= λ d, result_ok (single d)) as [h0|] eqn:E0.
  - apply loads_from_iff in E0. cbn [first_by_id]. case_bool_decide as Hseen.
    + destruct (IH seen) as (chosen & H1 & H2 & H3 & H4). exists chosen. split_and!; [done|set_solver|done|].
      intros x h [->|Hx]%elem_of_cons Hl Hn; [|by apply (H4 x)].
      apply loads_from_iff in Hl, E0. rewrite Hl in E0. by simplify_eq.
    + destruct (IH ({[handle_id h0]} ∪ seen)) as (chosen & H1 & H2 & H3 & H4). exists (e :: chosen). split_and!.
      * constructor; [done|]. rewrite Forall_forall in He |- *. auto.
      * set_solver.
      * by constructor.
      * intros x h Hx Hl Hn. cbn [zip zip_with].
        assert (String.le (de_name e) (de_name x)) as Hle.
        { apply elem_of_cons in Hx as [->|Hx]; [done|]. rewrite Forall_forall in He. by apply He. }
        destruct (decide (handle_id h = handle_id h0)) as [Hid|Hid].
        { exists e, h0. split_and!; [by left|done..]. }
        apply elem_of_cons in Hx as [->|Hx].
        { apply loads_from_iff in Hl, E0. rewrite Hl in E0. by simplify_eq. }
        destruct (H4 x h Hx Hl) as (e' & h' & ? & ? & ?); [set_solver|]. exists e', h'. split_and!; [by right|done..].
  - destruct (IH seen) as (chosen & H1 & H2 & H3 & H4). exists chosen. split_and!; [done|set_solver|done|].
    intros x h [->|Hx]%elem_of_cons Hl Hn; [|by apply (H4 x)]. apply loads_from_iff in Hl. congruence.
Qed.

Lemma single_approved d h :
  single d = Ok h →
  (∀ c, has (ph_capabilities h) c = true ↔ c ∈ mf_capabilities (ph_manifest h)) ∧
  (is_first_party canonicalize (dp_path d) first_party_dir = true ∨
   ∀ c, has (ph_capabilities h) c = true → c ∈ default [] (lc_approved_capabilities config !! handle_id h)).
Proof.
  unfold load_single_plugin. intros Hl. apply result_bind_Ok in Hl as (m & _ & Hl).
  apply result_bind_Ok in Hl as (caps & Hc & Hl). apply result_bind_Ok in Hl as (i & _ & [= <-]). cbn.
  pose proof (approval_exact canonicalize (meta_id (mf_plugin m)) (mf_capabilities m) (dp_path d) first_party_dir
    (default [] (lc_approved_capabilities config !! meta_id (mf_plugin m)))) as Ha. by rewrite Hc in Ha.
Qed.
End Dirs.

Lemma elem_of_zip_lookup {A B} (xs : list A) (ys : list B) x y :
  (x, y) ∈ zip xs ys → ∃ i, xs !! i = Some x ∧ ys !! i = Some y.
Proof.
  intros [i Hi]%list_elem_of_lookup. exists i. apply lookup_zip_with_Some in Hi as (? & ? & [= -> ->] & ? & ?). done.
Qed.

Lemma discovered_path dir e d : discovered_of dir e = Some d → dp_path d = dir ++ [de_name e].
Proof. unfold discovered_of. repeat case_match; try done. by intros [= <-]. Qed.

#[local] Instance entry_le_trans : Transitive entry_le.
Proof. intros a b c. unfold entry_le. apply transitivity. Qed.

#[local] Instance entry_le_total : Total entry_le.
Proof. intros a b. unfold entry_le. apply (total String.le). Qed.

Lemma sorted_entries es :
  StronglySorted (λ a b, String.le (de_name a) (de_name b)) (merge_sort entry_le es).
Proof.
  apply (StronglySorted_merge_sort entry_le).
Qed.

(** Entries of different names are sorted in one way. *)
Lemma sorted_entries_unique es es' :
  es ≡ₚ es' → NoDup (de_name <$> es) → merge_sort entry_le es = merge_sort entry_le es'.
Proof.
  intros Hp Hn. apply (Sorted_unique_strong entry_le); [|apply Sorted_merge_sort, _..|].
  - intros a b Ha Hb Hab Hba. rewrite merge_sort_Permutation in Ha. rewrite merge_sort_Permutation, <- Hp in Hb.
    assert (de_name a = de_name b) as Hab' by by apply (anti_symm String.le).
    by apply (NoDup_fmap_elem de_name es).
  - by rewrite !merge_sort_Permutation.
Qed.
End DirectoryFacts.
Import DirectoryFacts.

(** C26. Loading a directory gives the plugins that load on their own, in the byte order of their
    directories' names, and of several with one id only the one whose name comes first: a plugin
    that fails affects no other. Each has exactly the capabilities it declares, which are approved
    unless it is a first-party plugin; and the result does not depend on the order in which the
    directory is listed. *)
Theorem directory_loads_exactly {I} semver_ok parse_toml canonicalize
    (load_module : path → string → list string → InjectionDeps → result I PluginError) dir first_party config blobs es es' :
  es ≡ₚ es' → NoDup (WasmLoading.de_name <$> es) →
  let load := WasmLoading.load_plugins semver_ok parse_toml canonicalize load_module dir first_party config blobs in
  let single := WasmLoading.load_single_plugin semver_ok parse_toml canonicalize load_module first_party config blobs in
  let loads e h := ∃ d, WasmLoading.discovered_of dir e = Some d ∧ single d = Ok h in
  load (WasmLoading.Entries es) = load (WasmLoading.Entries es') ∧
  ∃ hs chosen, load (WasmLoading.Entries es) = Ok hs ∧ NoDup (WasmLoading.handle_id <$> hs) ∧
    chosen ⊆ es ∧ StronglySorted (λ a b, String.le (WasmLoading.de_name a) (WasmLoading.de_name b)) chosen ∧
    Forall2 loads chosen hs ∧
    (∀ e h, e ∈ es → loads e h →
       ∃ e' h', (e', h') ∈ zip chosen hs ∧ WasmLoading.handle_id h' = WasmLoading.handle_id h ∧
         String.le (WasmLoading.de_name e') (WasmLoading.de_name e)) ∧
    (∀ e h, (e, h) ∈ zip chosen hs →
       (∀ c, has (ph_capabilities h) c = true ↔ c ∈ mf_capabilities (ph_manifest h)) ∧
       (is_first_party canonicalize (dir ++ [WasmLoading.de_name e]) first_party = true ∨
        ∀ c, has (ph_capabilities h) c = true →
          c ∈ default [] (WasmLoading.lc_approved_capabilities config !! WasmLoading.handle_id h))).
Proof.
  intros Hp Hn load single loads. unfold load.
  rewrite !load_plugins_first, (sorted_entries_unique es es' Hp Hn). split; [done|].
  rewrite <- (sorted_entries_unique es es' Hp Hn).
  destruct (first_chosen semver_ok parse_toml canonicalize load_module first_party config blobs dir
    (merge_sort WasmLoading.entry_le es) ∅) as (chosen & H1 & H2 & H3 & H4).
  { apply sorted_entries. }
  eexists _, chosen. split; [done|]. split; [apply first_by_id_spec|]. split_and!; [|exact H1|exact H3| |].
  - intros e He%H2. by rewrite merge_sort_Permutation in He.
  - intros e h He Hl. apply (H4 e h); [by rewrite merge_sort_Permutation|exact Hl|set_solver].
  - intros e h (i & He & Hh)%elem_of_zip_lookup. destruct (Forall2_lookup_lr _ _ _ _ _ _ H3 He Hh) as (d & Hd & Hs).
    rewrite <- (discovered_path dir e d Hd). apply (single_approved _ _ _ _ _ _ _ _ _ Hs).
Qed.

(** ** Native plugins *)

Module NativeFacts.
Import CoreRegistry NativePlugins.

Section Native.
Context {P : Type} `{CorePlugin P} `{SchemaLib}.

(** The status that loading leaves. *)
Definition outcome (creds : bool) (p : P) : PluginStatus :=
  match (on_load creds p).1 with
  | Ok _ => Loaded
  | Err m => Failed m
  end.

Definition failure (creds : bool) (id : string) (p : P) : list string :=
  match (on_load creds p).1 with
  | Ok _ => []
  | Err m => ["plugin '" +:+ id +:+ "' failed to load: " +:+ m]
  end.

Definition announced (creds : bool) (id : string) (p : P) : BusEvent :=
  match (on_load creds p).1 with
  | Ok _ => PluginLoaded id
  | Err m => Search.PluginError id m
  end.

Lemma load_plugin_spec id p l :
  pl_plugins l !! id = Some p → id ∉ pl_held l →
  let creds := pl_credential_store l in
  let '(r, l') := load_plugin id l in
  match r with Ok _ => [] | Err e => [e] end = failure creds id p ∧
  pl_plugins l' = <[id := (on_load creds p).2]> (pl_plugins l) ∧
  pl_statuses l' = alter (with_status (outcome creds p)) id (pl_statuses l) ∧
  pl_credential_store l' = creds ∧ pl_held l' = pl_held l ∧
  pl_message_bus l' = (λ es, es ++ [announced creds id p]) <$> pl_message_bus l.
Proof.
  intros Hp Hh. unfold load_plugin, failure, outcome, announced. rewrite Hp, bool_decide_eq_false_2 by done.
  destruct (on_load _ p) as [[[]|m] p']; done.
Qed.

(** One plugin of the run. *)
Definition load_one (acc : list string * PluginLoader P) (id : string) : list string * PluginLoader P :=
  match load_plugin id acc.2 with
  | (Ok _, l') => (acc.1, l')
  | (Err e, l') => (acc.1 ++ [e], l')
  end.

Definition errors_of (creds : bool) (l : PluginLoader P) (id : string) : list string :=
  from_option (failure creds id) [] (pl_plugins l !! id).

Definition events_of (creds : bool) (l : PluginLoader P) (id : string) : list BusEvent :=
  from_option (λ p, [announced creds id p]) [] (pl_plugins l !! id).

Lemma load_run order errs l :
  NoDup order → (∀ id, id ∈ order → is_Some (pl_plugins l !! id)) → pl_held l = ∅ →
  let creds := pl_credential_store l in
  let '(errors, l') := foldl load_one (errs, l) order in
  errors = errs ++ (order ≫= errors_of creds l) ∧
  (∀ id, pl_statuses l' !! id =
     if bool_decide (id ∈ order) then
       p ← pl_plugins l !! id; with_status (outcome creds p) <$> pl_statuses l !! id
     else pl_statuses l !! id) ∧
  pl_message_bus l' = (λ es, es ++ (order ≫= events_of creds l)) <$> pl_message_bus l.
Proof.
  revert errs l. induction order as [|id order IH]; intros errs l Hn Hin Hh creds.
  { cbn. rewrite app_nil_r. split_and!; [done|done|]. destruct (pl_message_bus l); cbn; by rewrite ?app_nil_r. }
  apply NoDup_cons in Hn as [Hid Hn]. destruct (Hin id (list_elem_of_here _ _)) as [p Hp].
  pose proof (load_plugin_spec id p l Hp) as Hs. rewrite Hh in Hs. specialize (Hs (not_elem_of_empty id)). cbn in Hs.
  cbn [foldl]. unfold load_one at 2. cbn [snd fst].
  destruct (load_plugin id l) as [r l1]. destruct Hs as (He & Hpl & Hst & Hcr & Hhe & Hbus). fold creds in He, Hpl, Hst, Hcr, Hbus.
  assert (∀ k, k ∈ order → pl_plugins l1 !! k = pl_plugins l !! k) as Hk.
  { intros k Hk. rewrite Hpl, lookup_insert_ne; [done|]. by intros ->. }
  set (errs1 := errs ++ failure creds id p).
  assert (match r with Ok _ => (errs, l1) | Err e => (errs ++ [e], l1) end = (errs1, l1)) as ->.
  { unfold errs1. rewrite <- He. destruct r; by rewrite ?app_nil_r. }
  specialize (IH errs1 l1 Hn). rewrite Hhe, Hcr in IH.
  specialize (IH ltac:(intros k Hk'; rewrite Hk by done; apply Hin; by right) eq_refl). cbn zeta in IH.
  destruct (foldl load_one (errs1, l1) order) as [errors l']. destruct IH as (E1 & E2 & E3).
  assert (∀ {A} (f : PluginLoader P → string → list A), (∀ k, pl_plugins l1 !! k = pl_plugins l !! k → f l1 k = f l k) →
    order ≫= f l1 = order ≫= f l) as Hb.
  { intros A f Hf. apply list_bind_ext_in. intros k Hk'. by apply Hf, Hk. }
  rewrite (Hb _ (errors_of creds)) in E1 by (intros k Hk'; unfold errors_of; by rewrite Hk').
  rewrite (Hb _ (events_of creds)) in E3 by (intros k Hk'; unfold events_of; by rewrite Hk').
  rewrite !bind_cons. unfold errors_of at 1, events_of at 1. rewrite Hp. cbn [from_option]. split_and!.
  - rewrite E1. unfold errs1. by rewrite <- app_assoc.
  - intros k. rewrite E2, Hst. destruct (decide (k = id)) as [->|Hne].
    + rewrite bool_decide_eq_false_2, bool_decide_eq_true_2, lookup_alter_eq, Hp by (done || by left). done.
    + rewrite lookup_alter_ne by done. case_bool_decide as Hko.
      * rewrite bool_decide_eq_true_2 by by right. by rewrite Hk.
      * by rewrite bool_decide_eq_false_2 by set_solver.
  - rewrite E3, Hbus. destruct (pl_message_bus l); cbn; [|done]. by rewrite <- app_assoc.
Qed.
End Native.
End NativeFacts.
Import NativeFacts.

(** Native plugins are isolated from each other: loading them all, in any order, leaves each
    with the status that its own loading gives it, reports the failures in order and announces
    each plugin once. *)
Theorem native_plugins_isolated {P} `{HP : NativePlugins.CorePlugin P} `{HS : SchemaLib} order
    (l : NativePlugins.PluginLoader P) errors l' :
  order ≡ₚ (map_to_list (NativePlugins.pl_plugins l)).*1 → NativePlugins.pl_held l = ∅ →
  NativePlugins.load_all order l = (errors, l') →
  let creds := NativePlugins.pl_credential_store l in
  (∀ id p i, NativePlugins.pl_plugins l !! id = Some p → NativePlugins.pl_statuses l !! id = Some i →
     NativePlugins.pl_statuses l' !! id = Some (NativePlugins.with_status (outcome creds p) i)) ∧
  errors = order ≫= errors_of creds l ∧
  NativePlugins.pl_message_bus l' = (λ es, es ++ (order ≫= events_of creds l)) <$> NativePlugins.pl_message_bus l.
Proof.
  intros Hp Hh Hl creds. pose proof (load_run order [] l) as Hr.
  change (NativePlugins.load_all order l) with (foldl load_one ([], l) order) in Hl. rewrite Hl in Hr.
  destruct Hr as (He & Hs & Hb); [rewrite Hp; apply NoDup_fst_map_to_list| |done|].
  - intros id Hid. rewrite Hp in Hid. apply list_elem_of_fmap in Hid as ([k p] & -> & Hkp%elem_of_map_to_list). eauto.
  - split_and!; [|done|done]. intros id p i Hpl Hst. rewrite Hs, bool_decide_eq_true_2, Hpl, Hst; [done|].
    rewrite Hp. apply list_elem_of_fmap. exists (id, p). split; [done|]. by apply elem_of_map_to_list.
Qed.

(** ** Credentials *)

(** Through its bridge a plugin changes rows of its own id only. *)
Lemma bridge_confined `{CryptoLib} id nonce fault service value s k :
  k.1 ≠ id →
  PluginCredentials.cs_rows (NativePlugins.bridge_store id nonce fault service value s).2 !! k
    = PluginCredentials.cs_rows s !! k ∧
  PluginCredentials.cs_rows (NativePlugins.bridge_delete id fault service s).2 !! k = PluginCredentials.cs_rows s !! k.
Proof.
  intros Hk. unfold NativePlugins.bridge_store, NativePlugins.bridge_delete, PluginCredentials.store, PluginCredentials.delete_key.
  split; repeat case_match; simplify_eq; try done; cbn.
  - rewrite lookup_insert_ne; [done|]. by intros <-.
  - rewrite lookup_delete_ne; [done|]. by intros <-.
Qed.

(** ** Instances for witnesses *)

Module LoadingToy.
Import Signing NativePlugins.

(** Hex, with a keyless tag for the HMAC. *)
Definition digits : list ascii :=
  ["0";"1";"2";"3";"4";"5";"6";"7";"8";"9";"a";"b";"c";"d";"e";"f"]%char.

Definition digit (n : N) : ascii := default "0"%char (digits !! N.to_nat n).

Definition digit_value (c : ascii) : option N :=
  (λ p, N.of_nat p.1) <$> list_find (λ d, d = to_ascii_lowercase_char c) digits.

Fixpoint toy_hex (b : bytes) : string :=
  match b with
  | [] => EmptyString
  | x :: rest => let n := Byte.to_N x in String (digit (n / 16)) (String (digit (n mod 16)) (toy_hex rest))
  end.

Fixpoint toy_unhex (s : string) : option bytes :=
  match s with
  | EmptyString => Some []
  | String a (String b rest) =>
      hi ← digit_value a; lo ← digit_value b; x ← Byte.of_N (16 * hi + lo); r ← toy_unhex rest; Some (x :: r)
  | _ => None
  end.

#[export] Instance toy_hex_lib : HmacHex := {|
  hmac_sha256 _ m := m;
  hex_encode := toy_hex;
  hex_decode s := match toy_unhex s with Some b => Ok b | None => Err "Invalid character" end;
|}.

Definition pad (n : nat) (b : bytes) : bytes := take n (b ++ replicate n Byte.x00).

Lemma pad_length n b : length (pad n b) = n.
Proof. unfold pad. rewrite length_take, length_app, length_replicate. lia. Qed.

#[export] Instance toy_ed : Ed25519 := {|
  sha256 := pad 32;
  ed_public := pad 32;
  ed_sign k m := pad 64 (pad 32 k ++ m);
  ed_key _ := Ok tt;
  ed_verify pk m sig := bool_decide (sig = pad 64 (pk ++ m));
|}.

Lemma digit_back n : (n < 16)%N → digit_value (digit n) = Some n.
Proof.
  intros Hn. assert (∀ k, (k < 16)%nat → digit_value (digit (N.of_nat k)) = Some (N.of_nat k)) as Hk.
  { intros k Hk. do 16 (destruct k as [|k]; [vm_compute; reflexivity|]). lia. }
  specialize (Hk (N.to_nat n)). rewrite N2Nat.id in Hk. apply Hk. lia.
Qed.

Lemma digit_lower c n : digit_value c = Some n → to_ascii_lowercase_char c = digit n ∧ (n < 16)%N.
Proof.
  unfold digit_value. intros ([i d] & Hi & ->)%fmap_Some. apply list_find_Some in Hi as (Hl & <- & _).
  cbn. unfold digit. rewrite Nat2N.id, Hl. split; [done|]. apply lookup_lt_Some in Hl. cbn in Hl. lia.
Qed.

Lemma unhex_back b : toy_unhex (toy_hex b) = Some b.
Proof.
  induction b as [|x b IH]; [done|]. cbn [toy_hex toy_unhex]. pose proof (Byte.to_N_bounded x).
  rewrite (digit_back (_ / 16)) by (apply N.Div0.div_lt_upper_bound; lia).
  rewrite (digit_back (_ mod 16)) by by apply N.mod_lt.
  cbn [mbind option_bind]. by rewrite <- N.div_mod', Byte.of_to_N, IH.
Qed.

Lemma unhex_lower s b : toy_unhex s = Some b → to_ascii_lowercase s = toy_hex b.
Proof.
  revert s. induction b as [|x b IH]; intros [|c1 [|c2 s]] Hs; try done; cbn in Hs.
  - repeat (apply bind_Some in Hs as (? & _ & Hs)). done.
  - apply bind_Some in Hs as (hi & [H1 Hhi]%digit_lower & Hs). apply bind_Some in Hs as (lo & [H2 Hlo]%digit_lower & Hs).
    apply bind_Some in Hs as (y & Hy & Hs). apply bind_Some in Hs as (r & Hr & [= -> ->]).
    apply Byte.to_of_N_iff in Hy. cbn. rewrite (IH s Hr), H1, H2, Hy.
    replace ((16 * hi + lo) / 16)%N with hi by (apply N.div_unique with lo; lia).
    by replace ((16 * hi + lo) mod 16)%N with lo by (apply N.mod_unique with hi; lia).
Qed.

#[export] Instance toy_signing_laws : SigningLaws.
Proof.
  split; cbn; intros.
  - by rewrite unhex_back.
  - destruct (toy_unhex s) as [r|] eqn:E; simplify_eq. by apply unhex_lower.
  - apply pad_length.
  - apply pad_length.
  - done.
  - by apply bool_decide_eq_true.
Qed.

(** Plugins with an id that load, or fail with a message. *)
Record Toy : Type := mkToy { ty_id : string; ty_fails : option string; ty_unloads : nat }.

#[export] Instance toy_plugin : CorePlugin Toy := {|
  plugin_id := ty_id;
  plugin_display_name := ty_id;
  plugin_version _ := "1.0.0";
  on_load _ p := (match ty_fails p with Some m => Err m | None => Ok tt end, p);
  on_unload p := (Ok tt, mkToy (ty_id p) (ty_fails p) (S (ty_unloads p)));
  plugin_collections _ := [];
|}.

Definition two : PluginLoader Toy :=
  (register_plugin (mkToy "b.bad" (Some "no network") 0) (register_plugin (mkToy "a.good" None 0) (new_loader None)).2).2.

Definition entry (name : string) : WasmLoading.DirEntry := WasmLoading.mkDirEntry name true true (Some (Ok "x")).

(** Every manifest is the one of the mail plugin, whose id only one directory can have. *)
Definition load_demo (es : list WasmLoading.DirEntry) : result (list (PluginHandle string)) PluginError :=
  WasmLoading.load_plugins (λ _, true) (λ _, Ok demo_manifest) (λ p, Some p)
    (λ p id _ _, if bool_decide (p = ["plugins"; "broken"; "plugin.wasm"]) then Err (WasmLoadFailed "bad magic")
                 else Ok (WasmLoading.show_path p))
    ["plugins"] ["builtin"] (WasmLoading.mkLoaderConfig {[ "mail" := [EventsEmit] ]} ∅) false (WasmLoading.Entries es).
End LoadingToy.
Import LoadingToy.

Lemma plugin_signatures_sound_witness :
  let k := [Byte.x07] in
  ∃ sg, Signing.sign_plugin k [Byte.x01] [Byte.x02] Signing.Reviewed = Some sg ∧
    Signing.verify_plugin sg [Byte.x01] [Byte.x02] Signing.default_verifier
      = Signing.Valid Signing.Reviewed (hex_encode (Signing.ed_public k)).
Proof.
  intros k. destruct (proj1 (plugin_signatures_sound Signing.default_verifier) k [Byte.x01] [Byte.x02] Signing.Reviewed)
    as (sg & Hs & Hv).
  exists sg. split; [done|]. rewrite Hv. vm_compute. reflexivity.
Defined.

Lemma directory_loads_exactly_witness :
  load_demo [entry "z"; entry "broken"; entry "m"] = load_demo [entry "m"; entry "z"; entry "broken"] ∧
  map ph_instance <$> result_ok (load_demo [entry "z"; entry "broken"; entry "m"]) = Some ["plugins/m/plugin.wasm"].
Proof.
  split; [|vm_compute; reflexivity].
  apply (directory_loads_exactly _ _ _ _ _ _ _ _ [entry "z"; entry "broken"; entry "m"]).
  - apply (Permutation_app_comm [entry "z"; entry "broken"] [entry "m"]).
  - apply (bool_decide_eq_true_1 _). vm_compute. reflexivity.
Defined.

Lemma native_plugins_isolated_witness :
  NativePlugins.pl_statuses (NativePlugins.load_all ["a.good"; "b.bad"] two).2 !! "a.good"
  = Some (NativePlugins.mkInfo "a.good" "a.good" "1.0.0" NativePlugins.Loaded).
Proof.
  destruct (NativePlugins.load_all ["a.good"; "b.bad"] two) as [errors l'] eqn:E.
  apply (proj1 (native_plugins_isolated ["a.good"; "b.bad"] two errors l' ltac:(
    apply (bool_decide_eq_true_1 _); vm_compute; reflexivity) eq_refl E) "a.good" (mkToy "a.good" None 0)
    (NativePlugins.mkInfo "a.good" "a.good" "1.0.0" NativePlugins.Registered)); reflexivity.
Defined.

(** ** Examples *)

(** Plugins that never loaded are unloaded as well. *)
Example failed_plugin_unloaded :
  let l := NativePlugins.unload_all ["b.bad"] (NativePlugins.load_all ["a.good"; "b.bad"] two).2 in
  ty_unloads <$> NativePlugins.pl_plugins l !! "b.bad" = Some 1 ∧
  NativePlugins.pi_status <$> NativePlugins.pl_statuses l !! "b.bad" = Some NativePlugins.Unloaded.
Proof. vm_compute. done. Qed.

(** A plugin that a request still uses is not unloaded and stays available. *)
Example held_plugin_stays :
  let l := (NativePlugins.get_plugin_arc "a.good" (NativePlugins.load_all ["a.good"; "b.bad"] two).2).2 in
  is_Some (NativePlugins.get_plugin "a.good" (NativePlugins.unload_all ["a.good"; "b.bad"] l)).
Proof. vm_compute. eauto. Qed.

(** The name of the action is part of the text that is searched for traps. *)
Example action_name_is_trap :
  WasmLoading.call_error "check_integer overflow" "timeout" = Crash "check_integer overflow: timeout".
Proof. vm_compute. reflexivity. Qed.
