(* ===== verification/AuthRoutes.v ===== *)
(** * The authentication routes

    apps/core/src/auth/routes.rs: tokens, the proxies to the OIDC identity provider and the
    passkey ceremonies, over the providers of [Sessions] and behind its middleware.

    A request is one of the routes of the router with its extracted path and body. Bodies that
    axum extracts are their typed values; those the handlers read themselves are texts, with
    the limit on their size. The identity provider is a function from the request sent to it to
    its answer. A panic is an outcome. *)

From stdpp Require Import base tactics list gmap strings.
From Stdlib Require Import Ascii ZArith Lia.
From S2P Require Import Prelude RustString RustText Json Types Household Sessions.

Local Open Scope string_scope.
Local Open Scope Z_scope.

(** ** Answers *)

Inductive Reply : Type :=
| Replied (status : Z) (body : json)
| Crashed.

Definition error_reply (status : Z) (code : string) : Reply :=
  Replied status (mk_obj [("error", JStr code)]).

Definition reply_status (r : Reply) : Z :=
  match r with
  | Replied status _ => status
  | Crashed => 500
  end.

(** ** The identity provider *)

Record HttpCall : Type := mkHttpCall {
  hc_method : string;
  hc_url : string;
  hc_form : list (string * string);
  hc_authorization : option string;
}.

(** [None]: a body that cannot be read as JSON. *)
Inductive HttpReply : Type :=
| Unreachable (e : string)
| Answered (status : Z) (body : option json).

Record OidcLoginRequest : Type := mkLogin { lr_username : string; lr_password : string }.
Record OidcRefreshRequest : Type := mkRefresh { fr_refresh_token : string }.
Record OidcRegisterRequest : Type := mkRegister {
  rr_username : string;
  rr_password : string;
  rr_display_name : option string;
}.

Definition endpoint (path : string) (c : OidcConfig) : string :=
  trim_end_matches "/"%char (oc_issuer_url c) +:+ path.

Definition token_endpoint : OidcConfig → string := endpoint "/api/oidc/token".
Definition userinfo_endpoint : OidcConfig → string := endpoint "/api/oidc/userinfo".
Definition discovery_endpoint : OidcConfig → string := endpoint "/.well-known/openid-configuration".
Definition registration_endpoint : OidcConfig → string := endpoint "/api/oidc/register".

Definition secret_param (c : OidcConfig) : list (string * string) :=
  match oc_client_secret c with
  | Some s => [("client_secret", s)]
  | None => []
  end.

Definition login_form (body : OidcLoginRequest) (c : OidcConfig) : list (string * string) :=
  [("grant_type", "password"); ("username", lr_username body); ("password", lr_password body);
   ("client_id", oc_client_id c)]
  ++ secret_param c
  ++ [("scope", match oc_audience c with
                | Some aud => "openid profile email audience:" +:+ aud
                | None => "openid profile email"
                end)].

Definition refresh_form (body : OidcRefreshRequest) (c : OidcConfig) : list (string * string) :=
  [("grant_type", "refresh_token"); ("refresh_token", fr_refresh_token body); ("client_id", oc_client_id c)]
  ++ secret_param c.

Definition register_form (body : OidcRegisterRequest) : list (string * string) :=
  [("username", rr_username body); ("password", rr_password body)]
  ++ match rr_display_name body with
     | Some n => [("display_name", n)]
     | None => []
     end.

Definition is_success (status : Z) : bool := (200 <=? status) && (status <? 300).

(** How an answer of the provider is passed on. *)
Definition pass_on (ok : Z) (unparsed : string) (refused : Z * string) (r : HttpReply) : Reply :=
  match r with
  | Answered status body =>
      if is_success status then
        match body with
        | Some v => Replied ok v
        | None => error_reply 502 unparsed
        end
      else error_reply refused.1 refused.2
  | Unreachable _ => error_reply 502 "OIDC_PROVIDER_UNREACHABLE"
  end.

Section Oidc.
Context (oidc_config : option OidcConfig) (send : HttpCall → HttpReply).

(** The answer, and the request that was sent, if one was. *)
Definition with_oidc (k : OidcConfig → HttpCall * (HttpReply → Reply)) : Reply * option HttpCall :=
  match oidc_config with
  | None => (error_reply 404 "OIDC_NOT_CONFIGURED", None)
  | Some c => let '(call, answer) := k c in (answer (send call), Some call)
  end.

Definition oidc_login (body : OidcLoginRequest) : Reply * option HttpCall :=
  with_oidc (λ c, (mkHttpCall "POST" (token_endpoint c) (login_form body c) None,
                   pass_on 200 "OIDC_TOKEN_PARSE_ERROR" (401, "OIDC_LOGIN_FAILED"))).

Definition oidc_refresh (body : OidcRefreshRequest) : Reply * option HttpCall :=
  with_oidc (λ c, (mkHttpCall "POST" (token_endpoint c) (refresh_form body c) None,
                   pass_on 200 "OIDC_TOKEN_PARSE_ERROR" (401, "OIDC_REFRESH_FAILED"))).

Definition oidc_userinfo (authorization : option string) : Reply * option HttpCall :=
  with_oidc (λ c, (mkHttpCall "GET" (userinfo_endpoint c) [] (Some (default empty_str authorization)),
                   pass_on 200 "OIDC_USERINFO_PARSE_ERROR" (401, "OIDC_USERINFO_FAILED"))).

Definition oidc_discovery : Reply * option HttpCall :=
  with_oidc (λ c, (mkHttpCall "GET" (discovery_endpoint c) [] None,
                   pass_on 200 "OIDC_DISCOVERY_PARSE_ERROR" (502, "OIDC_DISCOVERY_FAILED"))).

Definition oidc_register (body : OidcRegisterRequest) : Reply * option HttpCall :=
  with_oidc (λ c, (mkHttpCall "POST" (registration_endpoint c) (register_form body) None,
                   pass_on 201 "OIDC_REGISTER_PARSE_ERROR" (409, "OIDC_REGISTRATION_FAILED"))).
End Oidc.

(** ** Tokens *)

Definition token_response_value (t : TokenResponse) : json :=
  mk_obj [("token_id", JStr (tp_token_id t)); ("token", JStr (tp_token t)); ("expires_at", JStr (tp_expires_at t))].

Definition token_info_value (t : TokenInfo) : json :=
  mk_obj [("id", JStr (ti_id t)); ("created_at", JStr (ti_created_at t)); ("expires_at", JStr (ti_expires_at t));
          ("is_expired", JBool (ti_is_expired t))].

Section Tokens.
Context {W : Type} (provider : Provider W).

Definition generate_token (body : TokenRequest) (ds : Draws) (w : W) : Reply * W :=
  match pv_generate_token provider body ds w with
  | (Returned (Ok t), w1) => (Replied 201 (token_response_value t), w1)
  | (Returned (Err InvalidCredentials), w1) => (error_reply 401 "AUTH_INVALID_CREDENTIALS", w1)
  | (Returned (Err _), w1) => (error_reply 500 "AUTH_INTERNAL_ERROR", w1)
  | (Panicked, w1) => (Crashed, w1)
  end.

Definition revoke_token (token_id : string) (identity : option AuthIdentity) (ds : Draws) (w : W) : Reply * W :=
  match identity with
  | None => (error_reply 401 "AUTH_MISSING_TOKEN", w)
  | Some _ =>
      match pv_revoke_token provider token_id ds w with
      | (Ok _, w1) => (Replied 200 (mk_obj [("status", JStr "revoked")]), w1)
      | (Err TokenNotFound, w1) => (error_reply 404 "AUTH_TOKEN_NOT_FOUND", w1)
      | (Err _, w1) => (error_reply 500 "AUTH_INTERNAL_ERROR", w1)
      end
  end.

Definition list_tokens (identity : option AuthIdentity) (ds : Draws) (w : W) : Reply * W :=
  match identity with
  | None => (error_reply 401 "AUTH_MISSING_TOKEN", w)
  | Some _ =>
      match pv_list_tokens provider ds w with
      | (Ok ts, w1) => (Replied 200 (mk_obj [("tokens", JArr (token_info_value <$> ts))]), w1)
      | (Err _, w1) => (error_reply 500 "AUTH_INTERNAL_ERROR", w1)
      end
  end.
End Tokens.

(** ** Passkeys *)

(** The uuid crate, and the types of the webauthn crate in JSON. *)
Class CeremonyJson : Type := {
  uuid_parse_str : string → option uuid;
  options_value : string → json;
  registration_response : json → option string;
}.

(** [RegisterStartRequest] and [RegisterFinishRequest] as serde reads them. *)
Definition read_register_start (v : json) : option string :=
  if struct_shape 1 v then struct_field v "label" 0 ≫= as_str else None.

Definition read_label (v : option json) : option (option string) :=
  match v with
  | None | Some JNull => Some None
  | Some x => Some <$> as_str x
  end.

Definition read_register_finish `{CeremonyJson} (v : json) : option (string * string * option string) :=
  if struct_shape 3 v then
    challenge_id ← struct_field v "challenge_id" 0 ≫= as_str;
    response ← struct_field v "response" 1 ≫= registration_response;
    label ← read_label (struct_field v "label" 2);
    Some (challenge_id, response, label)
  else None.

(** A body within the limit, read as JSON. *)
Definition read_body `{JsonText} (limit : Z) (body : string) : option json :=
  if Z.of_nat (String.length body) <=? limit then
    match json_from_str body with
    | Ok v => Some v
    | Err _ => None
    end
  else None.

(** The key passkeys are filed under. *)
Definition user_of (i : AuthIdentity) : string := default (id_token_id i) (id_user_id i).

Section Ceremonies.
Context `{WebauthnRs} `{Chrono} `{TokenHash} `{Jsonwebtoken} `{JsonText} `{CeremonyJson}.

Definition passkey_value (pk : StoredPasskey) : json :=
  mk_obj [("id", JStr (sp_id pk)); ("label", JStr (sp_label pk)); ("created_at", JStr (to_rfc3339 (sp_created_at pk)));
          ("last_used_at", match sp_last_used_at pk with
                           | Some t => JStr (to_rfc3339 t)
                           | None => JNull
                           end)].

Definition set_webauthn (p : WebAuthnProvider) (w : World) : World := mkWorld (w_local w) (w_oidc w) (Some p).

(** An authenticated handler of the ceremonies. *)
Definition with_passkeys (identity : option AuthIdentity) (w : World)
    (k : AuthIdentity → WebAuthnProvider → Reply * World) : Reply * World :=
  match identity with
  | None => (error_reply 401 "AUTH_MISSING_TOKEN", w)
  | Some i =>
      match w_webauthn w with
      | None => (error_reply 404 "WEBAUTHN_NOT_CONFIGURED", w)
      | Some p => k i p
      end
  end.

Definition webauthn_register_start (identity : option AuthIdentity) (body : string) (d : Draw) (w : World)
    : Reply * World :=
  with_passkeys identity w (λ i p,
    match read_body (1024 * 16) body ≫= read_register_start with
    | None => (error_reply 400 "INVALID_REQUEST_BODY", w)
    | Some label =>
        let user_name := if is_empty label then user_of i else label in
        let '(r, p1) := start_registration (user_of i) user_name d p in
        (match r with
         | Ok (challenge_id, options) =>
             Replied 200 (mk_obj [("challenge_id", JStr challenge_id); ("options", options_value options)])
         | Err _ => error_reply 500 "WEBAUTHN_INTERNAL_ERROR"
         end, set_webauthn p1 w)
    end).

(** The errors are told apart by their texts. *)
Definition register_finish_error (msg : string) : Reply :=
  if contains_str msg "expired" then error_reply 410 "WEBAUTHN_CHALLENGE_EXPIRED"
  else if contains_str msg "already registered" then error_reply 409 "WEBAUTHN_CREDENTIAL_EXISTS"
  else error_reply 400 "WEBAUTHN_INVALID_RESPONSE".

Definition label_or_default (label : option string) : string :=
  match label with
  | Some l => if is_empty l then "Passkey" else l
  | None => "Passkey"
  end.

Definition webauthn_register_finish (identity : option AuthIdentity) (body : string) (d : Draw) (w : World)
    : Reply * World :=
  with_passkeys identity w (λ i p,
    match read_body (1024 * 64) body ≫= read_register_finish with
    | None => (error_reply 400 "INVALID_REQUEST_BODY", w)
    | Some (challenge_id, response, label) =>
        let '(r, p1) := finish_registration challenge_id (user_of i) (label_or_default label) response d p in
        (match r with
         | Ok stored => Replied 201 (passkey_value stored)
         | Err e => register_finish_error (auth_error_text e)
         end, set_webauthn p1 w)
    end).

Definition webauthn_authenticate_start (user_id : string) (d : Draw) (w : World) : Reply * World :=
  match w_webauthn w with
  | None => (error_reply 404 "WEBAUTHN_NOT_CONFIGURED", w)
  | Some p =>
      let '(r, p1) := start_authentication user_id d p in
      (match r with
       | Ok (challenge_id, options) =>
           Replied 200 (mk_obj [("challenge_id", JStr challenge_id); ("options", options_value options)])
       | Err e =>
           if contains_str (auth_error_text e) "no passkeys registered"
           then error_reply 404 "WEBAUTHN_NO_CREDENTIALS"
           else error_reply 500 "WEBAUTHN_INTERNAL_ERROR"
       end, set_webauthn p1 w)
  end.

Definition webauthn_authenticate_finish (challenge_id response : string) (ds : Draws) (w : World)
    : Reply * World :=
  match w_webauthn w with
  | None => (error_reply 404 "WEBAUTHN_NOT_CONFIGURED", w)
  | Some p =>
      let '(r, (p1, local1)) := finish_authentication challenge_id response ds (p, w_local w) in
      (match r with
       | Returned (Ok t) => Replied 200 (token_response_value t)
       | Returned (Err e) =>
           if contains_str (auth_error_text e) "expired"
           then error_reply 410 "WEBAUTHN_CHALLENGE_EXPIRED"
           else error_reply 401 "WEBAUTHN_INVALID_RESPONSE"
       | Panicked => Crashed
       end, mkWorld local1 (w_oidc w) (Some p1))
  end.

(** Listing passkeys of the store in memory cannot fail. *)
Definition webauthn_list_passkeys (identity : option AuthIdentity) (w : World) : Reply * World :=
  with_passkeys identity w (λ i p,
    (Replied 200 (mk_obj [("passkeys", JArr (passkey_value <$> get_passkeys_for_user (user_of i) (wa_store p)))]), w)).

Definition webauthn_delete_passkey (passkey_id : string) (identity : option AuthIdentity) (w : World)
    : Reply * World :=
  with_passkeys identity w (λ i p,
    match uuid_parse_str passkey_id with
    | None => (error_reply 400 "INVALID_PASSKEY_ID", w)
    | Some u =>
        if existsb (λ pk, bool_decide (sp_id pk = u)) (get_passkeys_for_user (user_of i) (wa_store p)) then
          let '(r, p1) := webauthn_remove_passkey u p in
          (match r with
           | Ok _ => Replied 200 (mk_obj [("status", JStr "deleted")])
           | Err e =>
               if contains_str (auth_error_text e) "not found"
               then error_reply 404 "WEBAUTHN_NO_CREDENTIALS"
               else error_reply 500 "WEBAUTHN_INTERNAL_ERROR"
           end, set_webauthn p1 w)
        else (error_reply 404 "WEBAUTHN_NO_CREDENTIALS", w)
    end).

(** ** The router *)

Inductive AuthRequest : Type :=
| RqToken (body : TokenRequest)
| RqRevoke (id : string)
| RqTokens
| RqLogin (body : OidcLoginRequest)
| RqRegister (body : OidcRegisterRequest)
| RqRefresh (body : OidcRefreshRequest)
| RqUserinfo
| RqDiscovery
| RqRegisterStart (body : string)
| RqRegisterFinish (body : string)
| RqAuthenticateStart (user_id : string)
| RqAuthenticateFinish (challenge_id response : string)
| RqPasskeys
| RqDeletePasskey (id : string).

(** Method and path of a route. *)
Definition route_of (r : AuthRequest) : string * string :=
  match r with
  | RqToken _ => ("POST", "/api/auth/token")
  | RqRevoke id => ("DELETE", "/api/auth/token/" +:+ id)
  | RqTokens => ("GET", "/api/auth/tokens")
  | RqLogin _ => ("POST", "/api/auth/login")
  | RqRegister _ => ("POST", "/api/auth/register")
  | RqRefresh _ => ("POST", "/api/auth/refresh")
  | RqUserinfo => ("GET", "/api/auth/userinfo")
  | RqDiscovery => ("GET", "/api/auth/.well-known/openid-configuration")
  | RqRegisterStart _ => ("POST", "/api/auth/webauthn/register/start")
  | RqRegisterFinish _ => ("POST", "/api/auth/webauthn/register/finish")
  | RqAuthenticateStart _ => ("POST", "/api/auth/webauthn/authenticate/start")
  | RqAuthenticateFinish _ _ => ("POST", "/api/auth/webauthn/authenticate/finish")
  | RqPasskeys => ("GET", "/api/auth/webauthn/passkeys")
  | RqDeletePasskey id => ("DELETE", "/api/auth/webauthn/passkeys/" +:+ id)
  end.

Section Router.
Context (provider : Provider World) (oidc_config : option OidcConfig) (send : HttpCall → HttpReply).

Definition auth_router (r : AuthRequest) (identity : option AuthIdentity) (authorization : option string)
    (ds : Draws) (w : World) : Reply * World :=
  match r with
  | RqToken body => generate_token provider body ds w
  | RqRevoke id => revoke_token provider id identity ds w
  | RqTokens => list_tokens provider identity ds w
  | RqLogin body => ((oidc_login oidc_config send body).1, w)
  | RqRegister body => ((oidc_register oidc_config send body).1, w)
  | RqRefresh body => ((oidc_refresh oidc_config send body).1, w)
  | RqUserinfo => ((oidc_userinfo oidc_config send authorization).1, w)
  | RqDiscovery => ((oidc_discovery oidc_config send).1, w)
  | RqRegisterStart body => webauthn_register_start identity body (ds 0%nat) w
  | RqRegisterFinish body => webauthn_register_finish identity body (ds 0%nat) w
  | RqAuthenticateStart user_id => webauthn_authenticate_start user_id (ds 0%nat) w
  | RqAuthenticateFinish challenge_id response => webauthn_authenticate_finish challenge_id response ds w
  | RqPasskeys => webauthn_list_passkeys identity w
  | RqDeletePasskey id => webauthn_delete_passkey id identity w
  end.

(** What comes with a request: its headers and peer, the clock of the middleware, and what the
    middleware and the handler read from outside. *)
Record Envelope : Type := mkEnvelope {
  en_x_forwarded_for : option string;
  en_peer : option string;
  en_authorization : option string;
  en_clock : MwClock;
  en_checked : Draws;
  en_handled : Draws;
}.

Definition mw_request (r : AuthRequest) (e : Envelope) : MwRequest :=
  mkMwRequest (route_of r).2 (route_of r).1 (en_x_forwarded_for e) (en_peer e) (en_authorization e).

(** The middleware, then the route. *)
Definition serve (parse_ip : string → option string) (re : AuthRequest * Envelope) (s : MwState World)
    : Reply * MwState World :=
  let '(r, e) := re in
  match auth_middleware parse_ip provider (mw_request r e) (en_clock e) (en_checked e) s with
  | (Refused status code, s1) => (error_reply status code, s1)
  | (Forwarded identity, s1) =>
      let '(reply, w) := auth_router r identity (en_authorization e) (en_handled e) (mw_world s1) in
      (reply, mkMwState w (mw_limiter s1) (mw_bus s1))
  end.

Definition serve_all (parse_ip : string → option string) (rs : list (AuthRequest * Envelope)) (s : MwState World)
    : MwState World :=
  foldl (λ s re, (serve parse_ip re s).2) s rs.
End Router.
End Ceremonies.
