(* ===== verification/AuthRoutesFacts.v ===== *)
(** * The authentication routes: what requests do to tokens and passkeys

    Over any run of requests through the middleware and the routes: who can add, list and
    remove which passkeys, what a passkey login needs, and where credentials for the identity
    provider go. *)

From stdpp Require Import base tactics list gmap strings.
From Stdlib Require Import Ascii ZArith Lia.
From S2P Require Import Prelude RustString RustText Json Types Household Sessions SessionsFacts AuthRoutes.

Local Open Scope string_scope.
Local Open Scope list_scope.

Section Facts.
Context `{WebauthnRs} `{Chrono} `{TokenHash} `{Jsonwebtoken} `{JsonText} `{CeremonyJson}.

(** ** The provider side of the world *)

(** Operations of a provider that keep a relation between worlds. *)
Record respects (R : World → World → Prop) (p : Provider World) : Prop := mkRespects {
  rs_validate : ∀ token ds w, R w (pv_validate_token p token ds w).2;
  rs_generate : ∀ req ds w, R w (pv_generate_token p req ds w).2;
  rs_revoke : ∀ id ds w, R w (pv_revoke_token p id ds w).2;
  rs_list : ∀ ds w, R w (pv_list_tokens p ds w).2;
}.

Lemma multi_respects R `{!PreOrder R} ps : Forall (respects R) ps → respects R (MultiAuthProvider ps).
Proof.
  intros Hps. split; simpl.
  - generalize TokenNotFound. induction Hps as [|p ps [Hv _ _ _] _ IH]; intros e token ds w; simpl; [done|].
    specialize (Hv token ds w). destruct (pv_validate_token p token ds w) as [[] w1]; [done|].
    by etrans; [|apply IH].
  - generalize (Internal "no providers configured").
    induction Hps as [|p ps [_ Hg _ _] _ IH]; intros e req ds w; simpl; [done|].
    specialize (Hg req ds w). destruct (pv_generate_token p req ds w) as [[[]|] w1]; [done| |done].
    by etrans; [|apply IH].
  - generalize (Internal "no providers configured").
    induction Hps as [|p ps [_ _ Hr _] _ IH]; intros e id ds w; simpl; [done|].
    specialize (Hr id ds w). destruct (pv_revoke_token p id ds w) as [[] w1]; [done|].
    by etrans; [|apply IH].
  - intros ds w. enough (R w (multi_list ps ds w).2) by (by destruct (multi_list ps ds w)).
    revert ds w. induction Hps as [|p ps [_ _ _ Hl] _ IH]; intros ds w; simpl; [done|].
    specialize (Hl ds w). destruct (pv_list_tokens p ds w) as [r w1]. specialize (IH (later ds) w1).
    destruct (multi_list ps (later ds) w1). by etrans.
Qed.

(** The local provider: a token needs a passphrase, which stays set. *)
Definition has_passphrase (l : LocalTokenProvider) : Prop := is_Some (passphrase_hash (lt_state l)).
Definition tokens_guarded (l : LocalTokenProvider) : Prop :=
  ∀ id, is_Some (tokens (lt_state l) !! id) → has_passphrase l.

Definition local_evolves (l l' : LocalTokenProvider) : Prop :=
  (has_passphrase l → has_passphrase l') ∧ (tokens_guarded l → tokens_guarded l').

#[local] Instance local_evolves_preorder : PreOrder local_evolves.
Proof. split; [by intros ?|]. intros ? ? ? [? ?] [? ?]. split; auto. Qed.

Lemma generate_evolves req ds l : local_evolves l (local_generate_token req ds l).2.
Proof.
  unfold local_generate_token, local_evolves, tokens_guarded, has_passphrase, check_passphrase, issue_token.
  repeat case_match; simplify_eq/=; split; eauto.
  all: intros Hx; first [by destruct Hx|intros id Hi; by destruct (Hx id Hi)].
Qed.

Lemma revoke_evolves id ds l : local_evolves l (local_revoke_token id ds l).2.
Proof.
  unfold local_revoke_token, local_evolves, tokens_guarded, has_passphrase.
  repeat case_match; simplify_eq/=; split; try done; intros Hg i [t Ht]; apply (Hg i);
    by apply lookup_delete_Some in Ht as [_ ->].
Qed.

(** Providers leave the passkeys alone. *)
Definition provider_step (w w' : World) : Prop :=
  w_webauthn w' = w_webauthn w ∧ local_evolves (w_local w) (w_local w').

#[local] Instance provider_step_preorder : PreOrder provider_step.
Proof.
  split; [by intros ?; split|]. intros ? ? ? [? ?] [? ?]. split; [congruence|]. by etrans.
Qed.

Lemma local_provider_respects : respects provider_step local_provider.
Proof.
  split; intros; simpl; unfold on_local.
  - by unfold local_validate_token.
  - pose proof (generate_evolves req ds (w_local w)) as He. by destruct (local_generate_token req ds (w_local w)).
  - pose proof (revoke_evolves id ds (w_local w)) as He. by destruct (local_revoke_token id ds (w_local w)).
  - by unfold local_list_tokens.
Qed.

Lemma oidc_provider_respects : respects provider_step oidc_provider.
Proof.
  split; intros; simpl; try done. destruct (w_oidc w) as [p|]; [|done].
  by destruct (oidc_validate_token token ds p).
Qed.

Lemma webauthn_provider_respects : respects provider_step webauthn_provider.
Proof. by split. Qed.

#[local] Hint Resolve local_provider_respects oidc_provider_respects webauthn_provider_respects : core.

Lemma build_respects name oc wc local : respects provider_step (build_auth_provider name oc wc local).1.
Proof.
  unfold build_auth_provider. repeat case_match; cbn [fst]; auto; apply multi_respects; auto with typeclass_instances.
Qed.

(** ** The passkey store *)

Notation store := (gmap string (list StoredPasskey)).

(** Passkeys are filed under their user, and no id is filed under two. *)
Record filed (past : list uuid) (st : store) : Prop := mkFiled {
  fi_user : ∀ u l pk, st !! u = Some l → pk ∈ l → sp_user_id pk = u;
  fi_past : ∀ u l pk, st !! u = Some l → pk ∈ l → sp_id pk ∈ past;
  fi_one : ∀ u u' l l' pk pk', st !! u = Some l → st !! u' = Some l' → pk ∈ l → pk' ∈ l' →
    sp_id pk = sp_id pk' → u = u';
}.

Lemma filed_mono past past' st : past ⊆ past' → filed past st → filed past' st.
Proof. intros Hsub [Hu Hp Ho]. split; eauto. Qed.

Lemma filed_user past st u pk : filed past st → pk ∈ get_passkeys_for_user u st → sp_user_id pk = u.
Proof.
  intros Hf. unfold get_passkeys_for_user. destruct (st !! u) eqn:Eu; [eauto using fi_user|].
  by intros ?%not_elem_of_nil.
Qed.

Lemma filed_empty past : filed past ∅.
Proof. split; intros *; rewrite lookup_empty; done. Qed.

(** Replacing a user's list by one with the ids of the old one and new ids. *)
Lemma filed_insert past st u l' new :
  filed past st →
  (∀ pk, pk ∈ l' → sp_user_id pk = u ∧
     (sp_id pk ∈ new ∧ sp_id pk ∉ past ∨ ∃ pk0, pk0 ∈ get_passkeys_for_user u st ∧ sp_id pk0 = sp_id pk)) →
  filed (past ++ new) (<[u := l']> st).
Proof.
  intros [Hu Hp Ho] Hl'.
  assert (∀ pk0, pk0 ∈ get_passkeys_for_user u st → ∃ l, st !! u = Some l ∧ pk0 ∈ l) as Hold.
  { unfold get_passkeys_for_user. intros pk0 Hin. destruct (st !! u); [eauto|]. by apply not_elem_of_nil in Hin. }
  assert (∀ v l pk pk', u ≠ v → st !! v = Some l → pk ∈ l → pk' ∈ l' → sp_id pk ≠ sp_id pk') as Hapart.
  { intros v l pk pk' Hne Hv Hin Hin' Heq.
    destruct (Hl' pk' Hin') as [_ [[_ Hnew]|(pk0 & (l0 & ? & ?)%Hold & Hid)]].
    - apply Hnew. rewrite <- Heq. eauto.
    - apply Hne. eapply (Ho u v); eauto. congruence. }
  split.
  - intros v l pk Hv Hin. destruct (decide (u = v)) as [->|Hne]; simplify_map_eq; [by apply Hl'|eauto].
  - intros v l pk Hv Hin. apply elem_of_app. destruct (decide (u = v)) as [->|Hne]; simplify_map_eq.
    + destruct (Hl' pk Hin) as [_ [[? _]|(pk0 & (l0 & ? & ?)%Hold & <-)]]; [by right|left; eauto].
    + left. eauto.
  - intros v v' l1 l2 pk pk' Hv Hv' Hin Hin' Heq.
    destruct (decide (u = v)) as [<-|Hne], (decide (u = v')) as [<-|Hne']; simplify_map_eq; try done.
    + by destruct (Hapart v' l2 pk' pk).
    + by destruct (Hapart v l1 pk pk').
    + eauto.
Qed.

Lemma owner_of_filed past st u pk :
  filed past st → pk ∈ get_passkeys_for_user u st →
  owner_of (sp_id pk) st = Some (u, get_passkeys_for_user u st).
Proof.
  intros Hf Hin. unfold get_passkeys_for_user in *. destruct (st !! u) as [l|] eqn:Eu;
    [|by apply not_elem_of_nil in Hin]. simpl in *. unfold owner_of.
  destruct (list_find _ (map_to_list st)) as [[i [v lv]]|] eqn:Ef.
  - apply list_find_Some in Ef as (Hl & Hex & _). simpl in Hex.
    apply list_elem_of_lookup_2, elem_of_map_to_list in Hl.
    apply existsb_exists in Hex as (pk' & Hin' & Hid%bool_decide_eq_true). apply list_elem_of_In in Hin'.
    assert (v = u) as -> by (eapply (fi_one _ _ Hf); eauto). simpl. congruence.
  - exfalso. eapply list_find_None, Forall_forall in Ef; [|by apply elem_of_map_to_list].
    apply Ef. simpl. apply existsb_exists. exists pk. split; [by apply list_elem_of_In|]. by apply bool_decide_eq_true.
Qed.

Lemma update_first_ids id f l pk :
  (∀ x, sp_id (f x) = sp_id x ∧ sp_user_id (f x) = sp_user_id x) →
  pk ∈ update_first id f l → ∃ pk0, pk0 ∈ l ∧ sp_id pk0 = sp_id pk ∧ sp_user_id pk0 = sp_user_id pk.
Proof.
  intros Hf. induction l as [|x l IH]; simpl; [by intros ?%not_elem_of_nil|].
  case_bool_decide; intros [->|Hin]%elem_of_cons.
  - exists x. split; [by left|]. split; symmetry; apply Hf.
  - exists pk. split; [by right|done].
  - exists x. by split; [left|].
  - destruct (IH Hin) as (pk0 & ? & ?). exists pk0. by split; [right|].
Qed.

(** ** What a handler does to the passkeys *)

Definition passkeys (u : string) (w : World) : list StoredPasskey :=
  match w_webauthn w with
  | Some p => get_passkeys_for_user u (wa_store p)
  | None => []
  end.

Definition filed_world (past : list uuid) (w : World) : Prop :=
  ∀ p, w_webauthn w = Some p → filed past (wa_store p).

(** How a request changes the passkeys of a user: [who] are the identities it acts for. *)
Inductive passkey_change (r : AuthRequest) (who : AuthIdentity → Prop) (ds : Draws) (w : World) (u : string)
    (l l' : list StoredPasskey) : Prop :=
| change_none : l' = l → passkey_change r who ds w u l l'
| change_added body i pk :
    r = RqRegisterFinish body → who i → user_of i = u →
    sp_id pk = d_id (ds 0%nat) → sp_user_id pk = u → l' = l ++ [pk] → passkey_change r who ds w u l l'
| change_removed id v i :
    r = RqDeletePasskey id → who i → user_of i = u → uuid_parse_str id = Some v →
    l' = filter (λ pk, sp_id pk ≠ v) l → passkey_change r who ds w u l l'
| change_used c response p e a res pk :
    r = RqAuthenticateFinish c response → w_webauthn w = Some p → wa_challenges p !! c = Some e →
    ch_state e = Authentication a u → finish_passkey_authentication response a = Ok res →
    pk ∈ l → cred_id (sp_passkey pk) = result_cred_id res →
    l' = update_first (sp_id pk) (used res (d_now (ds 0%nat))) l → passkey_change r who ds w u l l'.

#[local] Hint Constructors passkey_change : core.

Lemma get_insert u v l (st : store) :
  get_passkeys_for_user v (<[u := l]> st) = if decide (u = v) then l else get_passkeys_for_user v st.
Proof. unfold get_passkeys_for_user. case_decide; by simplify_map_eq. Qed.

Lemma take_challenge_store c now p r p' : take_challenge c now p = (r, p') → wa_store p' = wa_store p.
Proof. unfold take_challenge. repeat case_match; intros; by simplify_eq. Qed.

Lemma take_challenge_Ok c now p s p' :
  take_challenge c now p = (Ok s, p') → ∃ e, wa_challenges p !! c = Some e ∧ ch_state e = s.
Proof. unfold take_challenge. repeat case_match; intros; simplify_eq. eauto. Qed.

Lemma registration_store c u label response d p past :
  filed past (wa_store p) → d_id d ∉ past →
  let p' := (finish_registration c u label response d p).2 in
  filed (past ++ [d_id d]) (wa_store p') ∧
  (∀ v, get_passkeys_for_user v (wa_store p') = get_passkeys_for_user v (wa_store p) ∨
        v = u ∧ ∃ pk, sp_id pk = d_id d ∧ sp_user_id pk = u ∧
          get_passkeys_for_user v (wa_store p') = get_passkeys_for_user v (wa_store p) ++ [pk]).
Proof.
  intros Hf Hnew. assert (filed (past ++ [d_id d]) (wa_store p)) as Hf' by (eapply filed_mono; [|done]; set_solver).
  unfold finish_registration. destruct (take_challenge c _ p) as [[[s|s v]|e] p1] eqn:E;
    apply take_challenge_store in E; simpl; rewrite ?E; [|by auto..].
  destruct (finish_passkey_registration response s) as [pk|]; simpl; rewrite ?E; [|by auto].
  unfold store_passkey.
  pose proof (λ pk, filed_user past (wa_store p) u pk Hf) as Hu.
  destruct (existsb _ _); simpl; (split; [apply filed_insert; [done|]|]).
  - intros q Hq. split; [by apply Hu|]. right. eauto.
  - intros v. rewrite get_insert. left. case_decide; by subst.
  - intros q [Hq|Hq%list_elem_of_singleton]%elem_of_app; [split; [by apply Hu|eauto]|]; subst q. split; [done|]. left. split; [by left|done].
  - intros v. rewrite get_insert. case_decide; subst; [right; split; [done|]|by left]. by eexists (mkStoredPasskey _ _ _ _ _ _ _).
Qed.

Lemma authentication_store c response ds p local past :
  filed past (wa_store p) →
  let p' := (finish_authentication c response ds (p, local)).2.1 in
  filed past (wa_store p') ∧
  (∀ v, get_passkeys_for_user v (wa_store p') = get_passkeys_for_user v (wa_store p) ∨
        ∃ e a res pk, wa_challenges p !! c = Some e ∧ ch_state e = Authentication a v ∧
          finish_passkey_authentication response a = Ok res ∧
          pk ∈ get_passkeys_for_user v (wa_store p) ∧ cred_id (sp_passkey pk) = result_cred_id res ∧
          get_passkeys_for_user v (wa_store p') =
            update_first (sp_id pk) (used res (d_now (ds 0%nat))) (get_passkeys_for_user v (wa_store p))).
Proof.
  intros Hf. unfold finish_authentication.
  destruct (take_challenge c _ p) as [[[s|a u]|e] p1] eqn:E; pose proof (take_challenge_store _ _ _ _ _ E) as Es;
    simpl; rewrite ?Es; [by auto| |by auto].
  apply take_challenge_Ok in E as (e & He & Hs).
  destruct (finish_passkey_authentication response a) as [res|] eqn:Er; simpl; rewrite ?Es; [|by auto].
  set (p2 := count_use u res (d_now (ds 0%nat)) p1).
  assert (filed past (wa_store p2) ∧ ∀ v, get_passkeys_for_user v (wa_store p2) = get_passkeys_for_user v (wa_store p) ∨
    v = u ∧ ∃ pk, pk ∈ get_passkeys_for_user v (wa_store p) ∧ cred_id (sp_passkey pk) = result_cred_id res ∧
      get_passkeys_for_user v (wa_store p2) =
        update_first (sp_id pk) (used res (d_now (ds 0%nat))) (get_passkeys_for_user v (wa_store p))) as [Hf2 Hv].
  { subst p2. unfold count_use. rewrite Es.
    destruct (list_find _ _) as [[i pk]|] eqn:Ef; simpl; rewrite ?Es; [|by auto].
    apply list_find_Some in Ef as (Hpk%list_elem_of_lookup_2 & Hc & _).
    unfold update_passkey_counter. rewrite (owner_of_filed past _ u pk) by done. simpl. split.
    - rewrite <- (app_nil_r past). apply filed_insert; [done|]. intros q Hq.
      apply update_first_ids in Hq as (q0 & Hq0 & Hid & Huid); [|done]. split; [|right; eauto].
      rewrite <- Huid. by eapply filed_user.
    - intros v. rewrite get_insert. case_decide; subst; [right; split; [done|]; eauto|by left]. }
  destruct (local_generate_token _ _ local) as [[[]|] local1]; simpl; (split; [done|]);
    intros v; destruct (Hv v) as [|(-> & pk & ? & ? & ?)]; [by left|right; eauto 10|by left|right; eauto 10|by left|right; eauto 10].
Qed.

Lemma removal_store u v pk p past :
  filed past (wa_store p) → pk ∈ get_passkeys_for_user u (wa_store p) → sp_id pk = v →
  let p' := (webauthn_remove_passkey v p).2 in
  filed past (wa_store p') ∧
  ∀ x, get_passkeys_for_user x (wa_store p') =
    if decide (u = x) then filter (λ pk, sp_id pk ≠ v) (get_passkeys_for_user x (wa_store p))
    else get_passkeys_for_user x (wa_store p).
Proof.
  intros Hf Hin <-. unfold webauthn_remove_passkey, remove_passkey.
  rewrite (owner_of_filed past _ u pk) by done. simpl. split.
  - rewrite <- (app_nil_r past). apply filed_insert; [done|].
    intros q [_ Hq]%list_elem_of_filter. split; [by eapply filed_user|]. right. eauto.
  - intros x. rewrite get_insert. case_decide; by subst.
Qed.

(** Operations of a provider keep the passkeys. *)
Lemma provider_step_passkeys past w w' :
  provider_step w w' → (filed_world past w → filed_world past w') ∧ ∀ u, passkeys u w' = passkeys u w.
Proof. intros [He _]. unfold filed_world, passkeys. by rewrite He. Qed.

Lemma filed_world_mono past new w : filed_world past w → filed_world (past ++ new) w.
Proof. intros Hf p Hp. eapply filed_mono; [|by apply Hf]. set_solver. Qed.

Lemma start_registration_store u n d p : wa_store (start_registration u n d p).2 = wa_store p.
Proof. unfold start_registration. by repeat case_match. Qed.

Lemma start_authentication_store u d p : wa_store (start_authentication u d p).2 = wa_store p.
Proof. unfold start_authentication. by repeat case_match. Qed.

(** What one route does to the passkeys. *)
Lemma router_passkeys provider oc send r x au ds w past :
  respects provider_step provider → filed_world past w → d_id (ds 0%nat) ∉ past →
  let w' := (auth_router provider oc send r x au ds w).2 in
  filed_world (past ++ [d_id (ds 0%nat)]) w' ∧
  ∀ u, passkey_change r (λ i, x = Some i) ds w u (passkeys u w) (passkeys u w').
Proof.
  intros [_ Hg Hr Hl] Hf Hnew.
  assert (∀ w', provider_step w w' → filed_world (past ++ [d_id (ds 0%nat)]) w' ∧
    ∀ u, passkey_change r (λ i, x = Some i) ds w u (passkeys u w) (passkeys u w')) as Hstep.
  { intros w' [Hf' Hu]%(provider_step_passkeys past). split; [by apply filed_world_mono, Hf'|]. by auto. }
  assert (∀ p p', w_webauthn w = Some p → wa_store p' = wa_store p →
    filed_world (past ++ [d_id (ds 0%nat)]) (set_webauthn p' w) ∧
    ∀ u, passkey_change r (λ i, x = Some i) ds w u (passkeys u w) (passkeys u (set_webauthn p' w))) as Hsame.
  { intros p p' Hp Hs. split.
    - intros ? [= <-]. rewrite Hs. by apply (filed_world_mono past _ w).
    - intros u. apply change_none. unfold passkeys. simpl. by rewrite Hp, Hs. }
  destruct r; simpl; try (by apply Hstep).
  - unfold generate_token. specialize (Hg body ds w). by destruct (pv_generate_token _ _ _ _) as [[[?|[]]|] ?]; apply Hstep.
  - unfold revoke_token. destruct x; [|by apply Hstep]. specialize (Hr id ds w).
    by destruct (pv_revoke_token _ _ _ _) as [[?|[]] ?]; apply Hstep.
  - unfold list_tokens. destruct x; [|by apply Hstep]. specialize (Hl ds w).
    by destruct (pv_list_tokens _ _ _) as [[] ?]; apply Hstep.
  - unfold webauthn_register_start, with_passkeys. destruct x as [i|]; [|by apply Hstep].
    destruct (w_webauthn w) as [p|] eqn:Ep; [|by apply Hstep]. case_match; [|by apply Hstep].
    pose proof (start_registration_store (user_of i) (if is_empty s then user_of i else s) (ds 0%nat) p).
    destruct (start_registration _ _ _ _). by apply (Hsame p).
  - unfold webauthn_register_finish, with_passkeys. destruct x as [i|]; [|by apply Hstep].
    destruct (w_webauthn w) as [p|] eqn:Ep; [|by apply Hstep]. case_match; [|by apply Hstep].
    destruct p0 as [[c response] label].
    destruct (registration_store c (user_of i) (label_or_default label) response (ds 0%nat) p past) as [Hf' Hv];
      [by apply Hf|done|].
    destruct (finish_registration _ _ _ _ _ _) as [res p']. simpl in *. split; [by intros ? [= <-]|].
    intros u. unfold passkeys. simpl. rewrite Ep. destruct (Hv u) as [->|(-> & pk & ? & ? & ->)]; eauto.
  - unfold webauthn_authenticate_start. destruct (w_webauthn w) as [p|] eqn:Ep; [|by apply Hstep].
    pose proof (start_authentication_store user_id (ds 0%nat) p).
    destruct (start_authentication _ _ _). by apply (Hsame p).
  - unfold webauthn_authenticate_finish. destruct (w_webauthn w) as [p|] eqn:Ep; [|by apply Hstep].
    destruct (authentication_store challenge_id response ds p (w_local w) past) as [Hf' Hv]; [by apply Hf|].
    destruct (finish_authentication _ _ _ _) as [res [p' local']]. simpl in *. split.
    + intros ? [= <-]. eapply filed_mono; [|done]. set_solver.
    + intros u. unfold passkeys. simpl. rewrite Ep.
      destruct (Hv u) as [->|(e & a & r & pk & ? & ? & ? & ? & ? & ->)]; [by auto|]. eapply change_used; eauto.
  - unfold webauthn_list_passkeys, with_passkeys. repeat case_match; by apply Hstep.
  - unfold webauthn_delete_passkey, with_passkeys. destruct x as [i|]; [|by apply Hstep].
    destruct (w_webauthn w) as [p|] eqn:Ep; [|by apply Hstep].
    destruct (uuid_parse_str id) as [v|] eqn:Ev; [|by apply Hstep].
    destruct (existsb _ _) eqn:Ex; [|by apply Hstep].
    apply existsb_exists in Ex as (pk & Hin%list_elem_of_In & Hid%bool_decide_eq_true).
    destruct (removal_store (user_of i) v pk p past) as [Hf' Hv]; [by apply Hf|done..|].
    destruct (webauthn_remove_passkey v p) as [res p']. simpl in *. split.
    + intros ? [= <-]. eapply filed_mono; [|done]. set_solver.
    + intros u. unfold passkeys. simpl. rewrite Ep, Hv. case_decide; subst; eauto using passkey_change.
Qed.

(** ** Requests through the middleware *)

(** The bearer token of the request is accepted, with this identity. *)
Definition authenticated (p : Provider World) (r : AuthRequest) (e : Envelope) (s : MwState World) (i : AuthIdentity) : Prop :=
  ∃ token, extract_bearer_token (mw_request r e) = Some token ∧
    (pv_validate_token p token (en_checked e) (mw_world s)).1 = Ok i.

Lemma middleware_world (p : Provider World) parse_ip rq ck ds s :
  respects provider_step p → provider_step (mw_world s) (mw_world (auth_middleware parse_ip p rq ck ds s).2).
Proof.
  intros [Hv _ _ _]. unfold auth_middleware. destruct (is_public _ _); [done|].
  destruct (mw_is_rate_limited _ _ _ _) as [[] l]; [done|]. destruct (extract_bearer_token rq) as [token|]; [|done].
  specialize (Hv token ds (mw_world s)). simpl.
  destruct (pv_validate_token p token ds (mw_world s)) as [[i|err] w1]; [done|]. by destruct err.
Qed.

Lemma middleware_refusal {W} (p : Provider W) parse_ip rq ck ds s status code s' :
  auth_middleware parse_ip p rq ck ds s = (Refused status code, s') → (400 ≤ status)%Z.
Proof.
  unfold auth_middleware. destruct (is_public _ _); [done|].
  destruct (mw_is_rate_limited _ _ _ _) as [[] l]; [by intros; simplify_eq|].
  destruct (extract_bearer_token rq) as [token|]; [|by intros; simplify_eq].
  destruct (pv_validate_token p token ds _) as [[i|err] w1]; [done|].
  by destruct err; intros; simplify_eq/=.
Qed.

(** A request is refused, or its route runs for nobody or for the authenticated identity. *)
Inductive served (p : Provider World) oc send (r : AuthRequest) (e : Envelope) (s : MwState World) :
    Reply → World → Prop :=
| served_refused status code w :
    provider_step (mw_world s) w → (400 ≤ status)%Z → served p oc send r e s (error_reply status code) w
| served_routed x w reply w' :
    provider_step (mw_world s) w → (∀ i, x = Some i → authenticated p r e s i) →
    auth_router p oc send r x (en_authorization e) (en_handled e) w = (reply, w') →
    served p oc send r e s reply w'.

Lemma serve_served p oc send parse_ip r e s reply s' :
  respects provider_step p → serve p oc send parse_ip (r, e) s = (reply, s') →
  served p oc send r e s reply (mw_world s').
Proof.
  intros Hp. unfold serve. pose proof (middleware_world p parse_ip (mw_request r e) (en_clock e) (en_checked e) s Hp) as Hw.
  destruct (auth_middleware _ _ _ _ _ _) as [[x|status code] s1] eqn:E; simpl in *.
  - destruct (auth_router _ _ _ _ _ _ _ _) as [reply' w'] eqn:Er. intros ?; simplify_eq/=.
    eapply served_routed; [done| |done]. intros i ->.
    apply forwarded_sound in E as [[_ ?]|(_ & token & id & Ht & [= <-] & Hv)]; [done|]. by exists token.
  - intros ?; simplify_eq. apply served_refused; [done|]. by eapply middleware_refusal.
Qed.

Lemma passkey_change_mono r (who who' : AuthIdentity → Prop) ds w w' u l l' :
  (∀ i, who i → who' i) → w_webauthn w = w_webauthn w' →
  passkey_change r who ds w u l l' → passkey_change r who' ds w' u l l'.
Proof. intros Hwho Hw []; eauto using passkey_change. eapply change_used; eauto. congruence. Qed.

Definition handled_id (re : AuthRequest * Envelope) : uuid := d_id (en_handled re.2 0%nat).

Lemma serve_passkeys p oc send parse_ip r e s past :
  respects provider_step p → filed_world past (mw_world s) → handled_id (r, e) ∉ past →
  let s' := (serve p oc send parse_ip (r, e) s).2 in
  filed_world (past ++ [handled_id (r, e)]) (mw_world s') ∧
  ∀ u, passkey_change r (authenticated p r e s) (en_handled e) (mw_world s) u
         (passkeys u (mw_world s)) (passkeys u (mw_world s')).
Proof.
  intros Hp Hf Hnew. destruct (serve p oc send parse_ip (r, e) s) as [reply s'] eqn:E. simpl.
  apply serve_served in E; [|done]. destruct E as [status code w Hw _|x w reply w' Hw Hx Er].
  - apply (provider_step_passkeys past) in Hw as [Hf' Hu]. split; [by apply filed_world_mono, Hf'|]. by auto.
  - pose proof (proj1 Hw) as Hwn. apply (provider_step_passkeys past) in Hw as [Hf' Hu].
    destruct (router_passkeys p oc send r x (en_authorization e) (en_handled e) w past Hp (Hf' Hf) Hnew) as [Hf2 Hc].
    rewrite Er in Hf2, Hc. split; [done|]. intros u. rewrite <- Hu.
    eapply passkey_change_mono; [exact Hx|done|apply Hc].
Qed.

Lemma serve_all_filed p oc send parse_ip rs past s :
  respects provider_step p → filed_world past (mw_world s) → NoDup (past ++ (handled_id <$> rs)) →
  filed_world (past ++ (handled_id <$> rs)) (mw_world (serve_all p oc send parse_ip rs s)).
Proof.
  intros Hp. revert past s. induction rs as [|[r e] rs IH]; intros past s Hf Hnd.
  { by rewrite app_nil_r. }
  rewrite fmap_cons, cons_middle, app_assoc in Hnd |- *. apply IH; [|done].
  apply serve_passkeys; [done..|]. apply NoDup_app in Hnd as [Hnd _]. apply NoDup_app in Hnd as (_ & Hd & _).
  intros Hin. apply (Hd _ Hin). by left.
Qed.

Lemma build_filed past name oc wc local : filed_world past (build_auth_provider name oc wc local).2.
Proof.
  unfold filed_world, build_auth_provider. repeat case_match; simpl; intros p ?; simplify_eq; apply filed_empty.
Qed.
End Facts.

(** C33. Passkeys are their user's own. Over any run of requests through the middleware and the
    authentication routes, whichever providers are configured, a request changes the passkeys
    of a user only by registering one or removing the named one with a token that is accepted
    for that user, or by counting the use of one in a login that the ceremony accepts; and a
    list of passkeys is that of the user whose token was accepted. *)
Theorem passkeys_private `{WebauthnRs} `{Chrono} `{TokenHash} `{Jsonwebtoken} `{JsonText} `{CeremonyJson}
    name oc wc local oidc send parse_ip lim bus rs r e :
  NoDup (handled_id <$> (rs ++ [(r, e)])) →
  let p := (build_auth_provider name oc wc local).1 in
  let s := serve_all p oidc send parse_ip rs (mkMwState (build_auth_provider name oc wc local).2 lim bus) in
  let '(reply, s') := serve p oidc send parse_ip (r, e) s in
  (∀ u, passkey_change r (authenticated p r e s) (en_handled e) (mw_world s) u
          (passkeys u (mw_world s)) (passkeys u (mw_world s'))) ∧
  (r = RqPasskeys → ∀ body, reply = Replied 200 body →
     ∃ i, authenticated p r e s i ∧
       body = mk_obj [("passkeys", JArr (passkey_value <$> passkeys (user_of i) (mw_world s)))]).
Proof.
  intros Hnd p s. assert (respects provider_step p) as Hp by apply build_respects.
  rewrite fmap_app in Hnd. apply NoDup_app in Hnd as (Hnd & Hd & _).
  assert (filed_world (handled_id <$> rs) (mw_world s)) as Hf.
  { apply (serve_all_filed p oidc send parse_ip rs []); [done|apply build_filed|done]. }
  pose proof (serve_passkeys p oidc send parse_ip r e s _ Hp Hf) as Hs.
  destruct (serve p oidc send parse_ip (r, e) s) as [reply s'] eqn:E. split.
  { apply Hs. intros Hin. apply (Hd _ Hin). by left. }
  intros -> body ->. apply serve_served in E; [|done]. inversion E as [? ? ? ? Hst|x w ? ? Hw Hx Er]; subst; [lia|].
  simpl in Er. unfold webauthn_list_passkeys, with_passkeys in Er. destruct x as [i|]; [|done].
  exists i. split; [by apply Hx|]. destruct Hw as [Hwn _]. unfold passkeys. rewrite <- Hwn.
  by destruct (w_webauthn w); simplify_eq/=.
Qed.

(** ** Passkey logins *)

Section Logins.
Context `{WebauthnRs} `{Chrono} `{TokenHash} `{Jsonwebtoken} `{JsonText} `{CeremonyJson}.

(** A passkey, or a login with one that has started. *)
Definition has_passkeys (p : WebAuthnProvider) : Prop :=
  (∃ u, get_passkeys_for_user u (wa_store p) ≠ []) ∨
  (∃ c e a u, wa_challenges p !! c = Some e ∧ ch_state e = Authentication a u).

(** Tokens need a passphrase, and so do passkeys, which tokens register. *)
Definition passphrase_first (w : World) : Prop :=
  tokens_guarded (w_local w) ∧ ∀ p, w_webauthn w = Some p → has_passkeys p → has_passphrase (w_local w).

Lemma passphrase_first_step w w' : provider_step w w' → passphrase_first w → passphrase_first w'.
Proof.
  intros [Hw [Hp Hg]] [Ht Hk]. split; [by apply Hg|]. intros p. rewrite Hw. eauto.
Qed.

Lemma passphrase_first_set w p p' :
  passphrase_first w → w_webauthn w = Some p → (has_passkeys p' → has_passkeys p) →
  passphrase_first (set_webauthn p' w).
Proof. intros [Ht Hk] Hp Hi. split; [done|]. intros q [= <-] Hq. simpl. eauto. Qed.

Lemma passphrase_first_has w : tokens_guarded (w_local w) → has_passphrase (w_local w) → passphrase_first w.
Proof. by split. Qed.

Lemma count_use_keeps u r now p : has_passkeys (count_use u r now p) → has_passkeys p.
Proof.
  unfold count_use. destruct (list_find _ _) as [[i pk]|] eqn:E; [|done]. intros _.
  apply list_find_Some in E as (Hin%list_elem_of_lookup_2 & _). left. exists u. intros Hn.
  rewrite Hn in Hin. by apply not_elem_of_nil in Hin.
Qed.

Lemma take_challenge_keeps c now p s p' : take_challenge c now p = (s, p') → has_passkeys p' → has_passkeys p.
Proof.
  intros Ht. unfold has_passkeys. rewrite (take_challenge_store _ _ _ _ _ Ht), (take_challenge_spec _ _ _ _ _ Ht).
  intros [?|(c' & e & a & u & He & ?)]; [by left|right]. apply lookup_delete_Some in He as [_ He]. eauto 10.
Qed.

(** A finished login leaves the passkeys there were, and a local provider that evolved. *)
Lemma finish_authentication_keeps c response ds p local :
  let '(p', local') := (finish_authentication c response ds (p, local)).2 in
  (has_passkeys p' → has_passkeys p) ∧ local_evolves local local'.
Proof.
  unfold finish_authentication. destruct (take_challenge c _ p) as [s p1] eqn:E.
  pose proof (take_challenge_keeps _ _ _ _ _ E) as Hk. destruct s as [[s|a u]|err]; simpl; [done| |done].
  destruct (finish_passkey_authentication response a) as [r|]; simpl; [|done].
  pose proof (generate_evolves (mkTokenRequest (d_id (ds 1%nat)) (Some 30%Z)) (later (later ds)) local) as Hg.
  pose proof (count_use_keeps u r (d_now (ds 0%nat)) p1) as Hc.
  destruct (local_generate_token _ _ local) as [[[]|] l1]; simpl; auto.
Qed.

Lemma start_authentication_keeps u d p : has_passkeys (start_authentication u d p).2 → has_passkeys p.
Proof.
  unfold start_authentication. destruct (get_passkeys_for_user u (wa_store p)) as [|pk pks] eqn:E; [done|].
  intros _. left. exists u. by rewrite E.
Qed.

Lemma router_passphrase_first provider oc send r x au ds w :
  respects provider_step provider → passphrase_first w → (∀ i, x = Some i → has_passphrase (w_local w)) →
  passphrase_first (auth_router provider oc send r x au ds w).2.
Proof.
  intros [_ Hg Hr Hl] Hf Hx.
  assert (∀ w', provider_step w w' → passphrase_first w') as Hstep by (intros; by eapply passphrase_first_step).
  assert (∀ i k, x = Some i → (∀ p, w_local (k i p).2 = w_local w) → passphrase_first (with_passkeys x w k).2) as Hown.
  { intros i k -> Hk. unfold with_passkeys. destruct (w_webauthn w) as [p|]; [|done].
    apply passphrase_first_has; rewrite Hk; [apply Hf|by eapply Hx]. }
  assert (∀ k, (∀ i p, w_local (k i p).2 = w_local w) → passphrase_first (with_passkeys x w k).2) as Hpass.
  { intros k Hk. destruct x as [i|] eqn:Ex; [by apply (Hown i)|done]. }
  destruct r; simpl; try done.
  - unfold generate_token. specialize (Hg body ds w). by destruct (pv_generate_token _ _ _ _) as [[[?|[]]|] ?]; apply Hstep.
  - unfold revoke_token. destruct x; [|done]. specialize (Hr id ds w).
    by destruct (pv_revoke_token _ _ _ _) as [[?|[]] ?]; apply Hstep.
  - unfold list_tokens. destruct x; [|done]. specialize (Hl ds w). by destruct (pv_list_tokens _ _ _) as [[] ?]; apply Hstep.
  - apply Hpass. intros i p. case_match; [|done]. cbv zeta. by destruct (start_registration _ _ (ds 0%nat) p).
  - apply Hpass. intros i p. repeat case_match; by simplify_eq/=.
  - unfold webauthn_authenticate_start. destruct (w_webauthn w) as [p|] eqn:Ep; [|done].
    pose proof (start_authentication_keeps user_id (ds 0%nat) p).
    destruct (start_authentication _ _ _). by eapply passphrase_first_set.
  - unfold webauthn_authenticate_finish. destruct (w_webauthn w) as [p|] eqn:Ep; [|done].
    pose proof (finish_authentication_keeps challenge_id response ds p (w_local w)) as Hk.
    destruct (finish_authentication _ _ _ _) as [res [p' local']]. simpl in *. destruct Hk as [Hk [Hp' Hg']].
    destruct Hf as [Ht Hw]. split; [by apply Hg'|]. intros q [= <-] Hq. simpl. eauto.
  - apply Hpass. done.
  - apply Hpass. intros i p. repeat case_match; by simplify_eq/=.
Qed.

(** The provider of a deployment with passkeys. *)
Definition passkey_provider : Provider World := MultiAuthProvider [local_provider; webauthn_provider].

Lemma accepted_has_passphrase token ds w i :
  (pv_validate_token passkey_provider token ds w).1 = Ok i → tokens_guarded (w_local w) → has_passphrase (w_local w).
Proof.
  cbn [pv_validate_token passkey_provider MultiAuthProvider multi_validate]. unfold local_provider, on_local.
  simpl. unfold local_validate_token. destruct (hash_index _ !! _) as [id|]; simpl; [|done].
  destruct (tokens _ !! id) as [t|] eqn:E; simpl; [|done]. intros _ Hg. apply (Hg id). by rewrite E.
Qed.

Lemma serve_passphrase_first oc send parse_ip re s :
  passphrase_first (mw_world s) → passphrase_first (mw_world (serve passkey_provider oc send parse_ip re s).2).
Proof.
  intros Hf. destruct re as [r e]. 
  pose proof (build_respects "webauthn" None (Some (Ok 0%Z)) new_local : respects provider_step passkey_provider) as Hp.
  destruct (serve _ _ _ _ _ s) as [reply s'] eqn:E. apply serve_served in E; [|done]. simpl.
  destruct E as [status code w Hw _|x w reply w' Hw Hx Er]; [by eapply passphrase_first_step|].
  change w' with (reply, w').2. rewrite <- Er. apply router_passphrase_first; [done|by eapply passphrase_first_step|].
  intros i (token & _ & Hv)%Hx. destruct Hw as [_ [Hw _]]. apply Hw. eapply accepted_has_passphrase; [done|apply Hf].
Qed.

Lemma serve_all_passphrase_first oc send parse_ip rs s :
  passphrase_first (mw_world s) → passphrase_first (mw_world (serve_all passkey_provider oc send parse_ip rs s)).
Proof. revert s. induction rs as [|re rs IH]; intros s Hf; [done|]. by apply IH, serve_passphrase_first. Qed.
End Logins.

(** A passkey login needs the master passphrase. In a deployment with passkeys, whatever
    requests came before, a login is answered with a token only if the random passphrase that
    the server draws for it happens to be the master passphrase: registering a passkey takes a
    token, and the first token sets the master passphrase. *)
Theorem passkey_login_needs_passphrase `{WebauthnRs} `{Chrono} `{TokenHash} `{Jsonwebtoken} `{JsonText} `{CeremonyJson}
    oc ttl local oidc send parse_ip lim bus rs c response e body :
  tokens_guarded local →
  let '(p, w) := build_auth_provider "webauthn" oc (Some (Ok ttl)) local in
  let s := serve_all p oidc send parse_ip rs (mkMwState w lim bus) in
  (serve p oidc send parse_ip (RqAuthenticateFinish c response, e) s).1 = Replied 200 body →
  ∃ h, passphrase_hash (lt_state (w_local (mw_world s))) = Some h ∧
    verify_password (d_id (en_handled e 1%nat)) h = Ok true.
Proof.
  intros Hg. simpl. set (w0 := mkWorld _ _ _). fold passkey_provider.
  set (s := serve_all _ _ _ _ _ _).
  assert (passphrase_first (mw_world s)) as Hs.
  { apply serve_all_passphrase_first. split; [done|]. intros p [= <-] [[u Hu]|(c' & e' & a & u & Hc & _)].
    - by destruct Hu.
    - cbn [wa_challenges] in Hc; by rewrite lookup_empty in Hc. }
  unfold auth_middleware. simpl. unfold webauthn_authenticate_finish.
  destruct (w_webauthn (mw_world s)) as [p|] eqn:Ep; [|done].
  destruct (finish_authentication c response (en_handled e) (p, w_local (mw_world s))) as [[[t|err]|] [p' local']] eqn:E;
    simpl; [|case_match; done|done].
  intros _. pose proof (passkey_login_locks _ _ _ _ _ _ _ _ E) as Hl.
  enough (has_passphrase (w_local (mw_world s))) as [h Hh] by (rewrite Hh in Hl; eauto).
  apply (proj2 Hs p Ep). right. unfold finish_authentication in E.
  destruct (take_challenge c _ p) as [[[?|a u]|?] p1] eqn:Et; [done| |done].
  apply take_challenge_Ok in Et as (e' & He & Hst). eauto 10.
Qed.

(** ** The identity provider *)

(** Credentials go nowhere but to the configured issuer, and only with a configuration; what is
    answered on success is what the issuer answered. *)
Lemma oidc_calls_issuer oc send reply call :
  (∃ b, oidc_login oc send b = (reply, Some call)) ∨ (∃ b, oidc_refresh oc send b = (reply, Some call)) ∨
  (∃ b, oidc_register oc send b = (reply, Some call)) ∨ (∃ a, oidc_userinfo oc send a = (reply, Some call)) ∨
  oidc_discovery oc send = (reply, Some call) →
  ∃ c path, oc = Some c ∧ hc_url call = trim_end_matches "/"%char (oc_issuer_url c) +:+ path ∧
    ∀ status body, reply = Replied status body → (status < 300)%Z →
      ∃ code, send call = Answered code (Some body) ∧ is_success code = true.
Proof.
  intros Hc. assert (∃ c path ok un st co, oc = Some c ∧ hc_url call = endpoint path c ∧
    reply = pass_on ok un (st, co) (send call) ∧ (400 ≤ st)%Z) as (c & path & ok & un & st & co & -> & Hu & -> & Hst).
  { destruct oc as [c|]; [|naive_solver].
    destruct Hc as [[b Hc]|[[b Hc]|[[b Hc]|[[a Hc]|Hc]]]]; injection Hc as <- <-;
      eexists c, _, _, _, _, _; (split; [done|]); (split; [reflexivity|]); (split; [reflexivity|lia]). }
  exists c, path. split; [done|]. split; [done|]. intros status body Hr Hlt. unfold pass_on in Hr.
  clear Hc.
  destruct (send call) as [|code [v|]]; [|destruct (is_success code) eqn:E..]; unfold error_reply in Hr;
    simplify_eq/=; first [by eauto|exfalso; lia].
Qed.

(** ** A concrete deployment *)

Definition toy_json_text : JsonText :=
  Build_JsonText
    (λ s, if bool_decide (s = "start") then Ok (JObj [("label", JStr "laptop")])
          else Ok (JObj [("challenge_id", JStr s); ("response", JStr "key")]))
    (λ _, "").

Definition toy_ceremony : CeremonyJson := Build_CeremonyJson Some JStr as_str.

#[local] Existing Instances toy_webauthn toy_chrono toy_hash toy_jsonwebtoken toy_json_text toy_ceremony.

(** The ids drawn by the handler: its first one, then the random passphrase of a login and the
    id of the token it issues. *)
Definition toy_envelope (token : option string) (ids : nat → string) : Envelope :=
  mkEnvelope None None ((λ t, "Bearer " +:+ t) <$> token) toy_clock (only (toy_draw 9 "" ""))
    (λ k, toy_draw 9 ("raw-" +:+ ids k) (ids k)).

Definition toy_ids (first : string) (k : nat) : string :=
  match k with
  | 0%nat => first
  | 1%nat => "pw"
  | _ => "session"
  end.

Definition toy_rq (r : AuthRequest) (token : option string) (first : string) : AuthRequest * Envelope :=
  (r, toy_envelope token (toy_ids first)).

(** A token, and a passkey registered with it. *)
Definition toy_run : list (AuthRequest * Envelope) :=
  [toy_rq (RqToken (mkTokenRequest "pw" None)) None "t1";
   toy_rq (RqRegisterStart "start") (Some "raw-t1") "c1";
   toy_rq (RqRegisterFinish "c1") (Some "raw-t1") "k1"].

Definition toy_build := build_auth_provider "webauthn" None (Some (Ok 300000000000%Z)) new_local.
Definition toy_start : MwState World := mkMwState toy_build.2 new_mw_limiter None.
Definition toy_send : HttpCall → HttpReply := λ _, Unreachable "offline".
Definition toy_serve := serve toy_build.1 None toy_send Some.
Definition toy_served := serve_all toy_build.1 None toy_send Some.

Lemma passkeys_private_witness :
  ∃ i, user_of i = "t1" ∧
    (toy_serve (toy_rq RqPasskeys (Some "raw-t1") "x") (toy_served toy_run toy_start)).1 =
      Replied 200 (mk_obj [("passkeys", JArr (passkey_value <$> passkeys (user_of i) (mw_world (toy_served toy_run toy_start))))]) ∧
    length (passkeys (user_of i) (mw_world (toy_served toy_run toy_start))) = 1%nat.
Proof.
  destruct (passkeys_private "webauthn" None (Some (Ok 300000000000%Z)) new_local None toy_send Some new_mw_limiter None
              toy_run RqPasskeys (toy_envelope (Some "raw-t1") (toy_ids "x"))) as [_ Hl].
  { apply (bool_decide_unpack _). vm_compute. exact I. }
  destruct (Hl eq_refl _ eq_refl) as (i & (token & Ht & Hv) & Hb).
  assert (user_of i = "t1") as Hi.
  { vm_compute in Ht. injection Ht as <-. vm_compute in Hv. injection Hv as <-. reflexivity. }
  exists i. split; [exact Hi|]. rewrite Hi. split; vm_compute; reflexivity.
Defined.

Lemma passkey_login_needs_passphrase_witness :
  let s := toy_served (toy_run ++ [toy_rq (RqAuthenticateStart "t1") None "c2"]) toy_start in
  reply_status (toy_serve (toy_rq (RqAuthenticateFinish "c2" "key") None "x") s).1 = 200%Z ∧
  ∃ h, passphrase_hash (lt_state (w_local (mw_world s))) = Some h.
Proof.
  split; [vm_compute; reflexivity|].
  destruct (passkey_login_needs_passphrase None 300000000000 new_local None toy_send Some new_mw_limiter None
              (toy_run ++ [toy_rq (RqAuthenticateStart "t1") None "c2"]) "c2" "key"
              (toy_envelope None (toy_ids "x"))
              (token_response_value (mkTokenResponse "session" "raw-session" (to_rfc3339 (9 + 30 * DAY)%Z)))) as (h & Hh & _).
  - intros id [t Ht]. vm_compute in Ht. discriminate.
  - vm_compute. reflexivity.
  - exists h. exact Hh.
Defined.

(** Local tokens name no user, so passkeys are filed under the token that registered them: the
    session of a passkey login does not list the passkey it was opened with. *)
Example passkey_session_sees_nothing :
  let s := toy_served (toy_run ++ [toy_rq (RqAuthenticateStart "t1") None "c2";
                                   toy_rq (RqAuthenticateFinish "c2" "key") None "x"]) toy_start in
  (toy_serve (toy_rq RqPasskeys (Some "raw-session") "y") s).1 = Replied 200 (mk_obj [("passkeys", JArr [])]).
Proof. vm_compute. reflexivity. Qed.

(** Any token revokes any other. *)
Example tokens_revoke_each_other :
  let s := toy_served [toy_rq (RqToken (mkTokenRequest "pw" None)) None "t1";
                       toy_rq (RqToken (mkTokenRequest "pw" None)) None "t2";
                       toy_rq (RqRevoke "t1") (Some "raw-t2") "x"] toy_start in
  (toy_serve (toy_rq RqTokens (Some "raw-t1") "y") s).1 = error_reply 500 "AUTH_INTERNAL_ERROR".
Proof. vm_compute. reflexivity. Qed.
