(* ===== verification/Cdm.v ===== *)
(** * The canonical data model as JSON

    packages/types/src: tasks, notes, files, emails and credentials, and how these, contacts
    and calendar events are serialised: fields that are absent are skipped, renamed ones carry
    their serialised name, enums are texts. The texts of times and dates are parameters. *)

From stdpp Require Import base tactics list sets strings.
From Stdlib Require Import ZArith Lia.
From S2P Require Import Prelude RustString Json Types Contacts Calendar.

Local Open Scope string_scope.
Local Open Scope list_scope.

(** ** Structs *)

(** A struct with its fields, those without a value skipped. *)
Definition mk_struct (fields : list (string * option json)) : json :=
  mk_obj (omap (λ f, pair f.1 <$> f.2) fields).

Fixpoint field_of (k : string) (fields : list (string * option json)) : option json :=
  match fields with
  | [] => None
  | (k', v) :: fs => if String.eqb k k' then v else field_of k fs
  end.

Definition opt_value {A} (f : A → json) (o : option A) : option json := f <$> o.

(** [skip_serializing_if = "Vec::is_empty"]. *)
Definition vec_value {A} (f : A → json) (xs : list A) : option json :=
  match xs with
  | [] => None
  | _ => Some (JArr (f <$> xs))
  end.

(** chrono: what serde writes for times and dates, and [str::parse] of a time. *)
Class CdmTime : Type := {
  time_text : timestamp → string;
  time_parse : string → option timestamp;
  date_text : Z → string;
}.

Class CdmTimeLaws `{CdmTime} : Prop := {
  time_text_parse : ∀ t, time_parse (time_text t) = Some t;
}.

(** ** Tasks, notes, files, emails and credentials *)

Inductive TaskPriority : Type := TpLow | TpMedium | TpHigh | TpUrgent.
Inductive TaskStatus : Type := TsPending | TsInProgress | TsCompleted | TsCancelled.

Record Task : Type := mkTask {
  tk_id : string;
  tk_title : string;
  tk_description : option string;
  tk_status : TaskStatus;
  tk_priority : TaskPriority;
  tk_due_date : option timestamp;
  tk_completed_at : option timestamp;
  tk_tags : list string;
  tk_assignee : option string;
  tk_parent_id : option string;
  tk_source : string;
  tk_source_id : string;
  tk_extensions : option json;
  tk_created_at : timestamp;
  tk_updated_at : timestamp;
}.

Inductive NoteFormat : Type := NfPlain | NfMarkdown | NfHtml.

Record Note : Type := mkNote {
  nt_id : string;
  nt_title : string;
  nt_body : string;
  nt_tags : list string;
  nt_format : option NoteFormat;
  nt_pinned : option bool;
  nt_source : string;
  nt_source_id : string;
  nt_extensions : option json;
  nt_created_at : timestamp;
  nt_updated_at : timestamp;
}.

Record FileMetadata : Type := mkFileMetadata {
  fm_id : string;
  fm_filename : string;
  fm_path : string;
  fm_mime_type : string;
  fm_size_bytes : Z;
  fm_checksum : string;
  fm_storage_backend : option string;
  fm_source : string;
  fm_source_id : string;
  fm_extensions : option json;
  fm_created_at : timestamp;
  fm_updated_at : timestamp;
}.

Record EmailAddress : Type := mkEmailAddress { ea_name : option string; ea_address : string }.

Record EmailAttachment : Type := mkAttachment {
  att_filename : string;
  att_mime_type : string;
  att_size_bytes : Z;
  att_content_id : option string;
}.

Record Email : Type := mkEmail {
  em_id : string;
  em_subject : string;
  em_from : EmailAddress;
  em_to : list EmailAddress;
  em_cc : list EmailAddress;
  em_bcc : list EmailAddress;
  em_body_text : option string;
  em_body_html : option string;
  em_date : timestamp;
  em_message_id : option string;
  em_in_reply_to : option string;
  em_attachments : list EmailAttachment;
  em_read : option bool;
  em_starred : option bool;
  em_labels : list string;
  em_source : string;
  em_source_id : string;
  em_extensions : option json;
  em_created_at : timestamp;
  em_updated_at : timestamp;
}.

Inductive CredentialType : Type := CrOauthToken | CrApiKey | CrIdentityDocument | CrPasskey.

Record Credential : Type := mkCredential {
  cr_id : string;
  cr_name : string;
  cr_credential_type : CredentialType;
  cr_service : string;
  cr_claims : json;
  cr_encrypted : option bool;
  cr_expires_at : option timestamp;
  cr_source : string;
  cr_source_id : string;
  cr_created_at : timestamp;
  cr_updated_at : timestamp;
}.

(** ** Enums as texts *)

Definition task_priority_text (p : TaskPriority) : string :=
  match p with TpLow => "low" | TpMedium => "medium" | TpHigh => "high" | TpUrgent => "urgent" end.

Definition task_status_text (s : TaskStatus) : string :=
  match s with
  | TsPending => "pending"
  | TsInProgress => "in_progress"
  | TsCompleted => "completed"
  | TsCancelled => "cancelled"
  end.

Definition note_format_text (f : NoteFormat) : string :=
  match f with NfPlain => "plain" | NfMarkdown => "markdown" | NfHtml => "html" end.

Definition credential_type_text (c : CredentialType) : string :=
  match c with
  | CrOauthToken => "oauth_token"
  | CrApiKey => "api_key"
  | CrIdentityDocument => "identity_document"
  | CrPasskey => "passkey"
  end.

Definition contact_info_text (t : ContactInfoType) : string :=
  match t with CitHome => "home" | CitWork => "work" | CitOther => "other" end.

Definition phone_type_text (t : PhoneType) : string :=
  match t with
  | PtMobile => "mobile"
  | PtHome => "home"
  | PtWork => "work"
  | PtFax => "fax"
  | PtOther => "other"
  end.

Definition frequency_text (f : RecurrenceFrequency) : string :=
  match f with Daily => "daily" | Weekly => "weekly" | Monthly => "monthly" | Yearly => "yearly" end.

Definition attendee_status_text (s : AttendeeStatus) : string :=
  match s with
  | AsAccepted => "accepted"
  | AsDeclined => "declined"
  | AsTentative => "tentative"
  | AsNeedsAction => "needs-action"
  end.

Definition attendee_role_text (r : AttendeeRole) : string :=
  match r with
  | ArChair => "CHAIR"
  | ArReqParticipant => "REQ-PARTICIPANT"
  | ArOptParticipant => "OPT-PARTICIPANT"
  | ArNonParticipant => "NON-PARTICIPANT"
  end.

Definition event_status_text (s : EventStatus) : string :=
  match s with EsConfirmed => "confirmed" | EsTentative => "tentative" | EsCancelled => "cancelled" end.

Definition reminder_method_text (m : ReminderMethod) : string :=
  match m with RmNotification => "notification" | RmEmail => "email" end.

(** ** Serialisation *)

Definition int_value (z : Z) : json := JNum (NInt z).

Section Serialize.
Context `{CdmTime}.

Definition time_value (t : timestamp) : json := JStr (time_text t).

Definition task_value (t : Task) : json :=
  mk_struct
    [("id", Some (JStr (tk_id t))); ("title", Some (JStr (tk_title t)));
     ("description", opt_value JStr (tk_description t));
     ("status", Some (JStr (task_status_text (tk_status t))));
     ("priority", Some (JStr (task_priority_text (tk_priority t))));
     ("due_date", opt_value time_value (tk_due_date t));
     ("completed_at", opt_value time_value (tk_completed_at t));
     ("tags", vec_value JStr (tk_tags t)); ("assignee", opt_value JStr (tk_assignee t));
     ("parent_id", opt_value JStr (tk_parent_id t)); ("source", Some (JStr (tk_source t)));
     ("source_id", Some (JStr (tk_source_id t))); ("extensions", tk_extensions t);
     ("created_at", Some (time_value (tk_created_at t))); ("updated_at", Some (time_value (tk_updated_at t)))].

Definition note_value (n : Note) : json :=
  mk_struct
    [("id", Some (JStr (nt_id n))); ("title", Some (JStr (nt_title n))); ("body", Some (JStr (nt_body n)));
     ("tags", vec_value JStr (nt_tags n)); ("format", opt_value (JStr ∘ note_format_text) (nt_format n));
     ("pinned", opt_value JBool (nt_pinned n)); ("source", Some (JStr (nt_source n)));
     ("source_id", Some (JStr (nt_source_id n))); ("extensions", nt_extensions n);
     ("created_at", Some (time_value (nt_created_at n))); ("updated_at", Some (time_value (nt_updated_at n)))].

Definition file_value (f : FileMetadata) : json :=
  mk_struct
    [("id", Some (JStr (fm_id f))); ("filename", Some (JStr (fm_filename f))); ("path", Some (JStr (fm_path f)));
     ("mime_type", Some (JStr (fm_mime_type f))); ("size_bytes", Some (int_value (fm_size_bytes f)));
     ("checksum", Some (JStr (fm_checksum f))); ("storage_backend", opt_value JStr (fm_storage_backend f));
     ("source", Some (JStr (fm_source f))); ("source_id", Some (JStr (fm_source_id f)));
     ("extensions", fm_extensions f);
     ("created_at", Some (time_value (fm_created_at f))); ("updated_at", Some (time_value (fm_updated_at f)))].

Definition email_address_value (a : EmailAddress) : json :=
  mk_struct [("name", opt_value JStr (ea_name a)); ("address", Some (JStr (ea_address a)))].

Definition attachment_value (a : EmailAttachment) : json :=
  mk_struct
    [("filename", Some (JStr (att_filename a))); ("mime_type", Some (JStr (att_mime_type a)));
     ("size_bytes", Some (int_value (att_size_bytes a))); ("content_id", opt_value JStr (att_content_id a))].

Definition email_value (e : Email) : json :=
  mk_struct
    [("id", Some (JStr (em_id e))); ("subject", Some (JStr (em_subject e)));
     ("from", Some (email_address_value (em_from e)));
     ("to", Some (JArr (email_address_value <$> em_to e)));
     ("cc", vec_value email_address_value (em_cc e)); ("bcc", vec_value email_address_value (em_bcc e));
     ("body_text", opt_value JStr (em_body_text e)); ("body_html", opt_value JStr (em_body_html e));
     ("date", Some (time_value (em_date e))); ("message_id", opt_value JStr (em_message_id e));
     ("in_reply_to", opt_value JStr (em_in_reply_to e));
     ("attachments", vec_value attachment_value (em_attachments e));
     ("read", opt_value JBool (em_read e)); ("starred", opt_value JBool (em_starred e));
     ("labels", vec_value JStr (em_labels e)); ("source", Some (JStr (em_source e)));
     ("source_id", Some (JStr (em_source_id e))); ("extensions", em_extensions e);
     ("created_at", Some (time_value (em_created_at e))); ("updated_at", Some (time_value (em_updated_at e)))].

Definition credential_value (c : Credential) : json :=
  mk_struct
    [("id", Some (JStr (cr_id c))); ("name", Some (JStr (cr_name c)));
     ("credential_type", Some (JStr (credential_type_text (cr_credential_type c))));
     ("service", Some (JStr (cr_service c))); ("claims", Some (cr_claims c));
     ("encrypted", opt_value JBool (cr_encrypted c)); ("expires_at", opt_value time_value (cr_expires_at c));
     ("source", Some (JStr (cr_source c))); ("source_id", Some (JStr (cr_source_id c)));
     ("created_at", Some (time_value (cr_created_at c))); ("updated_at", Some (time_value (cr_updated_at c)))].

Definition contact_name_value (n : ContactName) : json :=
  mk_struct
    [("given", Some (JStr (cn_given n))); ("family", Some (JStr (cn_family n)));
     ("prefix", opt_value JStr (cn_prefix n)); ("suffix", opt_value JStr (cn_suffix n));
     ("middle", opt_value JStr (cn_middle n))].

Definition contact_email_value (e : ContactEmail) : json :=
  mk_struct
    [("address", Some (JStr (ce_address e))); ("type", opt_value (JStr ∘ contact_info_text) (ce_type e));
     ("primary", opt_value JBool (ce_primary e))].

Definition contact_phone_value (p : ContactPhone) : json :=
  mk_struct
    [("number", Some (JStr (cp_number p))); ("type", opt_value (JStr ∘ phone_type_text) (cp_type p));
     ("primary", opt_value JBool (cp_primary p))].

Definition contact_address_value (a : ContactAddress) : json :=
  mk_struct
    [("street", opt_value JStr (ca_street a)); ("city", opt_value JStr (ca_city a));
     ("region", opt_value JStr (ca_region a)); ("postal_code", opt_value JStr (ca_postal_code a));
     ("country", opt_value JStr (ca_country a)); ("type", opt_value (JStr ∘ contact_info_text) (ca_type a))].

Definition contact_value (c : Contact) : json :=
  mk_struct
    [("id", Some (JStr (ct_id c))); ("name", Some (contact_name_value (ct_name c)));
     ("emails", vec_value contact_email_value (ct_emails c));
     ("phones", vec_value contact_phone_value (ct_phones c));
     ("addresses", vec_value contact_address_value (ct_addresses c));
     ("organization", opt_value JStr (ct_organization c)); ("title", opt_value JStr (ct_title c));
     ("birthday", opt_value (JStr ∘ date_text) (ct_birthday c)); ("photo_url", opt_value JStr (ct_photo_url c));
     ("notes", opt_value JStr (ct_notes c)); ("groups", vec_value JStr (ct_groups c));
     ("source", Some (JStr (ct_source c))); ("source_id", Some (JStr (ct_source_id c)));
     ("extensions", ct_extensions c);
     ("created_at", Some (time_value (ct_created_at c))); ("updated_at", Some (time_value (ct_updated_at c)))].

Definition recurrence_value (r : Recurrence) : json :=
  mk_struct
    [("frequency", Some (JStr (frequency_text (rc_frequency r)))); ("interval", Some (int_value (rc_interval r)));
     ("until", opt_value time_value (rc_until r)); ("count", opt_value int_value (rc_count r));
     ("by_day", opt_value (λ ds, JArr (JStr <$> ds)) (rc_by_day r))].

Definition attendee_value (a : Attendee) : json :=
  mk_struct
    [("name", opt_value JStr (at_name a)); ("email", Some (JStr (at_email a)));
     ("status", opt_value (JStr ∘ attendee_status_text) (at_status a));
     ("role", opt_value (JStr ∘ attendee_role_text) (at_role a))].

Definition reminder_value (r : Reminder) : json :=
  mk_struct
    [("minutes_before", Some (int_value (rm_minutes_before r)));
     ("method", Some (JStr (reminder_method_text (rm_method r))))].

Definition event_value (e : CalendarEvent) : json :=
  mk_struct
    [("id", Some (JStr (ev_id e))); ("title", Some (JStr (ev_title e))); ("start", Some (time_value (ev_start e)));
     ("end", opt_value time_value (ev_end e)); ("description", opt_value JStr (ev_description e));
     ("location", opt_value JStr (ev_location e)); ("all_day", opt_value JBool (ev_all_day e));
     ("recurrence", opt_value recurrence_value (ev_recurrence e));
     ("attendees", vec_value attendee_value (ev_attendees e));
     ("reminders", vec_value reminder_value (ev_reminders e)); ("timezone", opt_value JStr (ev_timezone e));
     ("status", opt_value (JStr ∘ event_status_text) (ev_status e)); ("sequence", opt_value int_value (ev_sequence e));
     ("source", Some (JStr (ev_source e))); ("source_id", Some (JStr (ev_source_id e)));
     ("extensions", ev_extensions e);
     ("created_at", Some (time_value (ev_created_at e))); ("updated_at", Some (time_value (ev_updated_at e)))].
End Serialize.

(** ** Fields of a struct *)

Lemma foldl_insert_ne k o kvs :
  k ∉ kvs.*1 → obj_get k (foldl (λ o kv, obj_insert kv.1 kv.2 o) o kvs) = obj_get k o.
Proof.
  revert o. induction kvs as [|[k' v] kvs IH]; intros o Hk; [done|].
  apply not_elem_of_cons in Hk as [Hne Hk]. cbn [foldl]. rewrite IH by done. by apply obj_get_insert_ne.
Qed.

Lemma present_keys k (fields : list (string * option json)) :
  k ∈ (omap (λ f, pair f.1 <$> f.2) fields).*1 → k ∈ fields.*1.
Proof.
  induction fields as [|[k' [v|]] fields IH]; simpl; [done| |set_solver].
  intros [->|Hin]%elem_of_cons; [left|right; auto].
Qed.

(** A field of a serialised struct is the one it was given. *)
Lemma mk_struct_get fields k : NoDup fields.*1 → json_get (mk_struct fields) k = field_of k fields.
Proof.
  intros Hnd. unfold mk_struct, mk_obj. rewrite json_get_obj.
  assert (∀ o, obj_get k o = None → obj_get k (foldl (λ o kv, obj_insert kv.1 kv.2 o) o
    (omap (λ f, pair f.1 <$> f.2) fields)) = field_of k fields) as Hg; [|by apply Hg].
  induction fields as [|[k' [v|]] fields IH]; intros o Ho; [done| |]; apply NoDup_cons in Hnd as [Hk Hnd]; simpl.
  - destruct (String.eqb_spec k k') as [->|Hne].
    + rewrite foldl_insert_ne by (intros Hin; by apply Hk, present_keys). apply obj_get_insert_eq.
    + apply IH; [done|]. by rewrite obj_get_insert_ne.
  - destruct (String.eqb_spec k k') as [->|Hne]; [|by apply IH].
    rewrite foldl_insert_ne by (intros Hin; by apply Hk, present_keys). done.
Qed.
