(* ===== verification/Graphql.v ===== *)
(** * The GraphQL API

    apps/core/src/routes/graphql.rs: the object types, their conversion from the JSON of stored
    records, the filters, sorts and pages of queries, the resolvers of queries, mutations and
    subscriptions with their global limit, and the handler.

    async-graphql itself, which parses a request and calls resolvers within its limits of depth
    and complexity, is not modelled: a definition is one call of a resolver. A missing time is
    replaced by the clock, each time by a reading of its own. *)

From stdpp Require Import base tactics list gmap sets strings.
From Stdlib Require Import ZArith Lia.
From S2P Require Import Prelude RustString RustText Json Types Sessions Storage Conflict Federation Search LegacyStore DataApi Cdm.

Local Open Scope string_scope.
Local Open Scope list_scope.

(** ** Reading JSON *)

(** [v["k"]]: null if there is no such member. *)
Definition index (v : json) (k : string) : json := default JNull (json_get v k).

Definition text_or_empty (v : json) : string := default empty_str (as_str v).

Definition text_list (v : json) : list string := from_option (omap as_str) [] (as_array v).

Definition object_list {A} (f : json → A) (v : json) : list A := from_option (fmap f) [] (as_array v).

Definition as_u64 (v : json) : option Z :=
  match v with
  | JNum (NInt z) => if ((0 <=? z) && (z <? 2 ^ 64))%Z then Some z else None
  | _ => None
  end.

Definition extensions_of (v : json) : option json :=
  match json_get v "extensions" with
  | Some x => if is_null x then None else Some x
  | None => None
  end.

(** ** Object types *)

Inductive GqlTaskPriority : Type := GqlLow | GqlMedium | GqlHigh | GqlUrgent.
Inductive GqlTaskStatus : Type := GqlPending | GqlInProgress | GqlCompleted | GqlCancelled.
Inductive GqlCredentialType : Type := GqlOauthToken | GqlApiKey | GqlIdentityDocument | GqlPasskey.

Record GqlTask : Type := mkGqlTask {
  gt_id : string;
  gt_title : string;
  gt_description : option string;
  gt_status : GqlTaskStatus;
  gt_priority : GqlTaskPriority;
  gt_due_date : option timestamp;
  gt_tags : list string;
  gt_source : string;
  gt_source_id : string;
  gt_extensions : option json;
  gt_created_at : timestamp;
  gt_updated_at : timestamp;
}.

Record GqlContactName : Type := mkGqlContactName {
  gn_given : string;
  gn_family : string;
  gn_display : option string;
  gn_prefix : option string;
  gn_suffix : option string;
  gn_middle : option string;
}.

(** An email address or a phone number. *)
Record GqlReach : Type := mkGqlReach {
  gr_value : string;
  gr_type : option string;
  gr_primary : option bool;
}.

Record GqlPostalAddress : Type := mkGqlAddress {
  ga_street : option string;
  ga_city : option string;
  ga_region : option string;
  ga_postal_code : option string;
  ga_country : option string;
  ga_address_type : option string;
}.

Record GqlContact : Type := mkGqlContact {
  gc_id : string;
  gc_name : GqlContactName;
  gc_emails : list GqlReach;
  gc_phones : list GqlReach;
  gc_addresses : list GqlPostalAddress;
  gc_organization : option string;
  gc_title : option string;
  gc_birthday : option string;
  gc_photo_url : option string;
  gc_notes : option string;
  gc_groups : list string;
  gc_source : string;
  gc_source_id : string;
  gc_extensions : option json;
  gc_created_at : timestamp;
  gc_updated_at : timestamp;
}.

Record GqlCalendarEvent : Type := mkGqlEvent {
  ge_id : string;
  ge_title : string;
  ge_start : timestamp;
  ge_end : timestamp;
  ge_recurrence : option string;
  ge_attendees : list string;
  ge_location : option string;
  ge_description : option string;
  ge_source : string;
  ge_source_id : string;
  ge_extensions : option json;
  ge_created_at : timestamp;
  ge_updated_at : timestamp;
}.

Record GqlEmailParticipant : Type := mkParticipant { gp_name : option string; gp_address : string }.

Record GqlEmailAttachment : Type := mkGqlAttachment {
  gh_filename : string;
  gh_mime_type : string;
  gh_size_bytes : Z;
  gh_content_id : option string;
}.

Record GqlEmail : Type := mkGqlEmail {
  gm_id : string;
  gm_subject : string;
  gm_from : GqlEmailParticipant;
  gm_to : list GqlEmailParticipant;
  gm_cc : list GqlEmailParticipant;
  gm_bcc : list GqlEmailParticipant;
  gm_body_text : option string;
  gm_body_html : option string;
  gm_date : timestamp;
  gm_message_id : option string;
  gm_in_reply_to : option string;
  gm_attachments : list GqlEmailAttachment;
  gm_read : option bool;
  gm_starred : option bool;
  gm_labels : list string;
  gm_source : string;
  gm_source_id : string;
  gm_extensions : option json;
  gm_created_at : timestamp;
  gm_updated_at : timestamp;
}.

Record GqlNote : Type := mkGqlNote {
  go_id : string;
  go_title : string;
  go_body : string;
  go_tags : list string;
  go_format : option string;
  go_pinned : option bool;
  go_source : string;
  go_source_id : string;
  go_extensions : option json;
  go_created_at : timestamp;
  go_updated_at : timestamp;
}.

Record GqlFile : Type := mkGqlFile {
  gf_id : string;
  gf_filename : string;
  gf_path : string;
  gf_mime_type : string;
  gf_size_bytes : Z;
  gf_checksum : string;
  gf_storage_backend : option string;
  gf_source : string;
  gf_source_id : string;
  gf_extensions : option json;
  gf_created_at : timestamp;
  gf_updated_at : timestamp;
}.

Record GqlCredential : Type := mkGqlCredential {
  gd_id : string;
  gd_name : string;
  gd_credential_type : GqlCredentialType;
  gd_service : string;
  gd_claims : json;
  gd_encrypted : option bool;
  gd_expires_at : option timestamp;
  gd_source : string;
  gd_source_id : string;
  gd_created_at : timestamp;
  gd_updated_at : timestamp;
}.

(** ** Conversion of records *)

Section Convert.
Context `{CdmTime} (clock : nat → timestamp).

Definition read_time (v : json) : option timestamp := as_str v ≫= time_parse.

(** The [i]-th time of a conversion. *)
Definition time_or_now (i : nat) (v : json) : timestamp := default (clock i) (read_time v).

Definition task_status_of (s : string) : GqlTaskStatus :=
  if bool_decide (s = "in_progress") then GqlInProgress
  else if bool_decide (s = "completed") then GqlCompleted
  else if bool_decide (s = "cancelled") then GqlCancelled
  else GqlPending.

Definition task_priority_of (s : string) : GqlTaskPriority :=
  if bool_decide (s = "low") then GqlLow
  else if bool_decide (s = "high") then GqlHigh
  else if bool_decide (s = "urgent") then GqlUrgent
  else GqlMedium.

Definition credential_type_of (s : string) : GqlCredentialType :=
  if bool_decide (s = "oauth_token") then GqlOauthToken
  else if bool_decide (s = "identity_document") then GqlIdentityDocument
  else if bool_decide (s = "passkey") then GqlPasskey
  else GqlApiKey.

Definition record_to_task (data : json) : GqlTask :=
  mkGqlTask (text_or_empty (index data "id")) (text_or_empty (index data "title"))
    (as_str (index data "description"))
    (task_status_of (default "pending" (as_str (index data "status"))))
    (task_priority_of (default "medium" (as_str (index data "priority"))))
    (read_time (index data "due_date")) (text_list (index data "tags"))
    (text_or_empty (index data "source")) (text_or_empty (index data "source_id")) (extensions_of data)
    (time_or_now 0 (index data "created_at")) (time_or_now 1 (index data "updated_at")).

Definition to_contact_name (name : json) : GqlContactName :=
  mkGqlContactName (text_or_empty (index name "given")) (text_or_empty (index name "family"))
    (as_str (index name "display")) (as_str (index name "prefix")) (as_str (index name "suffix"))
    (as_str (index name "middle")).

Definition to_reach (value : string) (e : json) : GqlReach :=
  mkGqlReach (text_or_empty (index e value)) (as_str (index e "type")) (as_bool (index e "primary")).

Definition to_address (a : json) : GqlPostalAddress :=
  mkGqlAddress (as_str (index a "street")) (as_str (index a "city")) (as_str (index a "region"))
    (as_str (index a "postal_code")) (as_str (index a "country")) (as_str (index a "type")).

Definition record_to_contact (data : json) : GqlContact :=
  mkGqlContact (text_or_empty (index data "id")) (to_contact_name (index data "name"))
    (object_list (to_reach "address") (index data "emails")) (object_list (to_reach "number") (index data "phones"))
    (object_list to_address (index data "addresses")) (as_str (index data "organization"))
    (as_str (index data "title")) (as_str (index data "birthday")) (as_str (index data "photo_url"))
    (as_str (index data "notes")) (text_list (index data "groups"))
    (text_or_empty (index data "source")) (text_or_empty (index data "source_id")) (extensions_of data)
    (time_or_now 0 (index data "created_at")) (time_or_now 1 (index data "updated_at")).

Definition record_to_event (data : json) : GqlCalendarEvent :=
  mkGqlEvent (text_or_empty (index data "id")) (text_or_empty (index data "title"))
    (time_or_now 0 (index data "start")) (time_or_now 1 (index data "end"))
    (as_str (index data "recurrence")) (text_list (index data "attendees")) (as_str (index data "location"))
    (as_str (index data "description")) (text_or_empty (index data "source"))
    (text_or_empty (index data "source_id")) (extensions_of data)
    (time_or_now 2 (index data "created_at")) (time_or_now 3 (index data "updated_at")).

Definition json_to_email_participant (v : json) : GqlEmailParticipant :=
  match v with
  | JObj o => mkParticipant (obj_get "name" o ≫= as_str) (default empty_str (obj_get "address" o ≫= as_str))
  | JStr s => mkParticipant None s
  | _ => mkParticipant None empty_str
  end.

Definition json_to_email_participants (v : json) : list GqlEmailParticipant :=
  object_list json_to_email_participant v.

Definition to_attachment (a : json) : GqlEmailAttachment :=
  mkGqlAttachment (text_or_empty (index a "filename")) (text_or_empty (index a "mime_type"))
    (default 0%Z (as_u64 (index a "size_bytes"))) (as_str (index a "content_id")).

Definition record_to_email (data : json) : GqlEmail :=
  mkGqlEmail (text_or_empty (index data "id")) (text_or_empty (index data "subject"))
    (json_to_email_participant (index data "from")) (json_to_email_participants (index data "to"))
    (json_to_email_participants (index data "cc")) (json_to_email_participants (index data "bcc"))
    (as_str (index data "body_text")) (as_str (index data "body_html")) (time_or_now 0 (index data "date"))
    (as_str (index data "message_id")) (as_str (index data "in_reply_to"))
    (object_list to_attachment (index data "attachments")) (as_bool (index data "read"))
    (as_bool (index data "starred")) (text_list (index data "labels"))
    (text_or_empty (index data "source")) (text_or_empty (index data "source_id")) (extensions_of data)
    (time_or_now 1 (index data "created_at")) (time_or_now 2 (index data "updated_at")).

Definition record_to_note (data : json) : GqlNote :=
  mkGqlNote (text_or_empty (index data "id")) (text_or_empty (index data "title"))
    (text_or_empty (index data "body")) (text_list (index data "tags")) (as_str (index data "format"))
    (as_bool (index data "pinned")) (text_or_empty (index data "source"))
    (text_or_empty (index data "source_id")) (extensions_of data)
    (time_or_now 0 (index data "created_at")) (time_or_now 1 (index data "updated_at")).

Definition record_to_file (data : json) : GqlFile :=
  mkGqlFile (text_or_empty (index data "id")) (text_or_empty (index data "filename"))
    (text_or_empty (index data "path")) (text_or_empty (index data "mime_type"))
    (default 0%Z (as_u64 (index data "size_bytes"))) (text_or_empty (index data "checksum"))
    (as_str (index data "storage_backend")) (text_or_empty (index data "source"))
    (text_or_empty (index data "source_id")) (extensions_of data)
    (time_or_now 0 (index data "created_at")) (time_or_now 1 (index data "updated_at")).

Definition record_to_credential (data : json) : GqlCredential :=
  mkGqlCredential (text_or_empty (index data "id")) (text_or_empty (index data "name"))
    (credential_type_of (default "api_key" (as_str (index data "credential_type"))))
    (text_or_empty (index data "service")) (index data "claims") (as_bool (index data "encrypted"))
    (read_time (index data "expires_at")) (text_or_empty (index data "source"))
    (text_or_empty (index data "source_id"))
    (time_or_now 0 (index data "created_at")) (time_or_now 1 (index data "updated_at")).
End Convert.

Record GqlRecord : Type := mkGqlRecord {
  gk_id : string;
  gk_plugin_id : string;
  gk_collection : string;
  gk_data : json;
  gk_version : Z;
  gk_created_at : timestamp;
  gk_updated_at : timestamp;
}.

Definition record_to_gql_record (r : StoredRecord) : GqlRecord :=
  mkGqlRecord (rec_id r) (rec_plugin_id r) (rec_collection r) (rec_data r) (rec_version r) (rec_created_at r)
    (rec_updated_at r).

(** ** Filters, sorts and pages *)

Record PaginationInput : Type := mkPageInput { pi_limit : option Z; pi_offset : option Z }.
Inductive GqlSortDirection : Type := GqlAsc | GqlDesc.
Record SortInput : Type := mkSortInput { si_sort_by : string; si_sort_dir : option GqlSortDirection }.
Record EqualityFilterInput : Type := mkEquality { ef_field : string; ef_value : string }.
Record ComparisonFilterInput : Type := mkComparisonInput { cf_field : string; cf_operator : string; cf_value : string }.
Record TextSearchFilterInput : Type := mkSearchInput { xf_field : string; xf_contains : string }.
Record FilterInput : Type := mkFilterInput {
  fi_equality : list EqualityFilterInput;
  fi_comparison : list ComparisonFilterInput;
  fi_text_search : list TextSearchFilterInput;
}.

Definition comparison_op_of (s : string) : option ComparisonOp :=
  if bool_decide (s = "gte") then Some Gte
  else if bool_decide (s = "lte") then Some Lte
  else if bool_decide (s = "gt") then Some LegacyStore.Gt
  else if bool_decide (s = "lt") then Some LegacyStore.Lt
  else None.

Section Inputs.
Context `{JsonText}.

(** A value is JSON, or else the text itself. *)
Definition input_value (s : string) : json :=
  match json_from_str s with
  | Ok v => v
  | Err _ => JStr s
  end.

(** A comparison with an unknown operator is left out. *)
Definition convert_comparison (f : ComparisonFilterInput) : option ComparisonFilter :=
  op ← comparison_op_of (cf_operator f);
  Some (mkComparison (cf_field f) op (input_value (cf_value f))).

Definition convert_filter (input : FilterInput) : QueryFilters :=
  mkFilters ((λ f, mkFieldFilter (ef_field f) (input_value (ef_value f))) <$> fi_equality input)
    (omap convert_comparison (fi_comparison input))
    ((λ f, mkText (xf_field f) (xf_contains f)) <$> fi_text_search input) [] [].
End Inputs.

Definition convert_sort (input : SortInput) : SortOptions :=
  mkSort (si_sort_by input) (match si_sort_dir input with Some GqlDesc => Desc | _ => Asc end).

Definition convert_pagination (input : PaginationInput) : Pagination :=
  mkPagination (Z.min (default 50%Z (pi_limit input)) 1000) (default 0%Z (pi_offset input)).

(** ** Queries *)

Definition has_filters (fs : QueryFilters) : bool :=
  match fs with
  | mkFilters [] [] [] _ _ => false
  | _ => true
  end.

Record Connection (T : Type) : Type := mkConnection {
  cx_data : list T;
  cx_total : Z;
  cx_limit : Z;
  cx_offset : Z;
}.
Arguments mkConnection {T}.
Arguments cx_data {T}.
Arguments cx_total {T}.
Arguments cx_limit {T}.
Arguments cx_offset {T}.

Record QueryArgs : Type := mkQueryArgs {
  qa_filter : option FilterInput;
  qa_sort : option SortInput;
  qa_pagination : option PaginationInput;
}.

Section Resolvers.
Context `{JsonText} `{Chrono} `{LegacySql} `{CdmTime}.

Definition query_collection {T} (collection : string) (converter : json → T) (d : Draw) (args : QueryArgs)
    (s : LegacyDb) : result (Connection T) string :=
  let pg := convert_pagination (default (mkPageInput None None) (qa_pagination args)) in
  let sort := convert_sort <$> qa_sort args in
  let filters := from_option convert_filter no_filters (qa_filter args) in
  let? r := result_map_err (λ e, "query failed: " +:+ e)
              (if has_filters filters
               then legacy_query d DataRoutes.CORE_PLUGIN_ID collection filters sort pg s
               else legacy_list d DataRoutes.CORE_PLUGIN_ID collection sort pg s) in
  Ok (mkConnection ((λ x, converter (rec_data x)) <$> qr_records r) (qr_total r) (qr_limit r) (qr_offset r)).

Definition get_single {T} (collection : string) (converter : json → T) (d : Draw) (id : string) (s : LegacyDb) :
    result (option T) string :=
  match legacy_get d DataRoutes.CORE_PLUGIN_ID collection id s with
  | Ok (Some r) => Ok (Some (converter (rec_data r)))
  | Ok None => Ok None
  | Err e => Err ("get failed: " +:+ e)
  end.

Definition tasks (c : nat → timestamp) := query_collection "tasks" (record_to_task c).
Definition task (c : nat → timestamp) := get_single "tasks" (record_to_task c).
Definition contacts (c : nat → timestamp) := query_collection "contacts" (record_to_contact c).
Definition contact (c : nat → timestamp) := get_single "contacts" (record_to_contact c).
Definition events (c : nat → timestamp) := query_collection "events" (record_to_event c).
Definition event (c : nat → timestamp) := get_single "events" (record_to_event c).
Definition emails (c : nat → timestamp) := query_collection "emails" (record_to_email c).
Definition email (c : nat → timestamp) := get_single "emails" (record_to_email c).
Definition notes (c : nat → timestamp) := query_collection "notes" (record_to_note c).
Definition note (c : nat → timestamp) := get_single "notes" (record_to_note c).
Definition files (c : nat → timestamp) := query_collection "files" (record_to_file c).
Definition file (c : nat → timestamp) := get_single "files" (record_to_file c).
Definition credentials (c : nat → timestamp) := query_collection "credentials" (record_to_credential c).
Definition credential (c : nat → timestamp) := get_single "credentials" (record_to_credential c).

(** One group for each text, and [or] of the groups. *)
Definition or_filters (groups : list QueryFilters) : QueryFilters := mkFilters [] [] [] [] groups.

Definition attendee_filters (attendees : list string) : QueryFilters :=
  or_filters ((λ email, mkFilters [] [] [mkText "emails" email] [] []) <$> attendees).

Definition attachment_filters (attachments : list GqlEmailAttachment) : QueryFilters :=
  or_filters ((λ a, mkFilters [mkFieldFilter "filename" (JStr (gh_filename a))] [] [] [] []) <$> attachments).

(** [as u32] of a length. *)
Definition len_u32 {A} (xs : list A) : Z := (Z.of_nat (length xs) mod 2 ^ 32)%Z.

Definition attendee_contacts (c : nat → timestamp) (d : Draw) (e : GqlCalendarEvent) (s : LegacyDb) :
    result (list GqlContact) string :=
  match ge_attendees e with
  | [] => Ok []
  | _ =>
      let? r := result_map_err (λ e, "query failed: " +:+ e)
                  (legacy_query d DataRoutes.CORE_PLUGIN_ID "contacts" (attendee_filters (ge_attendees e)) None
                     (mkPagination (len_u32 (ge_attendees e)) 0) s) in
      Ok ((λ x, record_to_contact c (rec_data x)) <$> qr_records r)
  end.

Definition attachment_files (c : nat → timestamp) (d : Draw) (e : GqlEmail) (s : LegacyDb) :
    result (list GqlFile) string :=
  match gm_attachments e with
  | [] => Ok []
  | _ =>
      let? r := result_map_err (λ e, "query failed: " +:+ e)
                  (legacy_query d DataRoutes.CORE_PLUGIN_ID "files" (attachment_filters (gm_attachments e)) None
                     (mkPagination (len_u32 (gm_attachments e)) 0) s) in
      Ok ((λ x, record_to_file c (rec_data x)) <$> qr_records r)
  end.

Record AuditConnection : Type := mkAuditConnection {
  ac_data : list AuditEntry;
  ac_total : Z;
  ac_limit : Z;
  ac_offset : Z;
}.

Definition audit_entries (order : list AuditEntry → list AuditEntry) (d : Draw) (page : option PaginationInput)
    (s : LegacyDb) : result AuditConnection string :=
  let pg := convert_pagination (default (mkPageInput None None) page) in
  let? r := result_map_err (λ e, "audit query failed: " +:+ e) (query_entries order d (pg_limit pg) (pg_offset pg) s) in
  Ok (mkAuditConnection r.1 r.2 (pg_limit pg) (pg_offset pg)).

(** ** Mutations *)

(** The storage, and what was published on the bus. *)
Definition Store : Type := LegacyDb * list BusEvent.

Definition announce (collection : string) (r : StoredRecord) (s : LegacyDb) (published : list BusEvent) : Store :=
  (s, published ++ [NewRecords collection 1; RecordChanged r]).

Definition read_input (data : string) : result json string :=
  result_map_err (λ e, "invalid JSON: " +:+ e) (json_from_str data).

Definition gql_create_record (d : Draw) (collection data : string) (st : Store) : result GqlRecord string * Store :=
  match read_input data with
  | Err e => (Err e, st)
  | Ok v =>
      match legacy_create d DataRoutes.CORE_PLUGIN_ID collection (DataRoutes.strip_owner v) st.1 with
      | (Ok r, s) => (Ok (record_to_gql_record r), announce collection r s st.2)
      | (Err e, s) => (Err ("create failed: " +:+ e), (s, st.2))
      end
  end.

Definition gql_update_record (d : Draw) (collection id data : string) (version : Z) (st : Store) :
    result GqlRecord string * Store :=
  match read_input data with
  | Err e => (Err e, st)
  | Ok v =>
      match legacy_update d DataRoutes.CORE_PLUGIN_ID collection id (DataRoutes.strip_owner v) version st.1 with
      | (Ok r, s) => (Ok (record_to_gql_record r), announce collection r s st.2)
      | (Err e, s) =>
          (Err (match e with
                | VersionMismatch => "version conflict: record was modified by another request"
                | RecordNotFound => "record '" +:+ id +:+ "' not found in '" +:+ collection +:+ "'"
                | OtherError _ => "update failed: " +:+ legacy_error_display e
                end), (s, st.2))
      end
  end.

Definition gql_delete_record (d : Draw) (collection id : string) (st : Store) : result bool string * Store :=
  match legacy_delete d DataRoutes.CORE_PLUGIN_ID collection id st.1 with
  | (Ok deleted, s) =>
      (Ok deleted, (s, if (deleted : bool) then st.2 ++ [RecordDeleted id collection] else st.2))
  | (Err e, s) => (Err ("delete failed: " +:+ e), (s, st.2))
  end.
End Resolvers.

(** ** Subscriptions *)

Record RecordChangeEvent : Type := mkChange {
  rc_change_type : string;
  rc_collection : string;
  rc_record : option GqlRecord;
  rc_deleted_id : option string;
}.

(** [None] as a collection is every collection. *)
Definition wanted (collection : option string) (c : string) : bool :=
  match collection with
  | Some col => bool_decide (c = col)
  | None => true
  end.

Definition change_of (collection : option string) (r : Received) : option RecordChangeEvent :=
  match r with
  | Got (RecordChanged record) =>
      if wanted collection (rec_collection record)
      then Some (mkChange "changed" (rec_collection record) (Some (record_to_gql_record record)) None) else None
  | Got (RecordDeleted record_id c) =>
      if wanted collection c then Some (mkChange "deleted" c None (Some record_id)) else None
  | Got (NewRecords c _) => if wanted collection c then Some (mkChange "new_records" c None None) else None
  | _ => None
  end.

Definition record_changes (collection : option string) (received : list Received) : list RecordChangeEvent :=
  omap (change_of collection) received.

Definition MAX_SUBSCRIPTIONS : Z := 100.

(** The shared counter, and the calls by where they are: past the limit with no stream yet, with
    a stream, and refused with the count still to be taken back. *)
Record Subscriptions : Type := mkSubs {
  sb_counter : Z;
  sb_granted : Z;
  sb_streams : Z;
  sb_refused : Z;
}.

Inductive SubStep : Type :=
| SubCall
| SubTakeBack
| SubOpen
| SubNoBus
| SubDrop.

(** One atomic step of some call; [usize] additions wrap around. *)
Definition sub_step (o : SubStep) (s : Subscriptions) : option Subscriptions :=
  let up := ((sb_counter s + 1) mod 2 ^ 64)%Z in
  let down := ((sb_counter s - 1) mod 2 ^ 64)%Z in
  match o with
  | SubCall =>
      if (MAX_SUBSCRIPTIONS <=? sb_counter s)%Z
      then Some (mkSubs up (sb_granted s) (sb_streams s) (sb_refused s + 1))
      else Some (mkSubs up (sb_granted s + 1) (sb_streams s) (sb_refused s))
  | SubTakeBack =>
      if (0 <? sb_refused s)%Z then Some (mkSubs down (sb_granted s) (sb_streams s) (sb_refused s - 1)) else None
  | SubOpen =>
      if (0 <? sb_granted s)%Z then Some (mkSubs (sb_counter s) (sb_granted s - 1) (sb_streams s + 1) (sb_refused s))
      else None
  | SubNoBus =>
      if (0 <? sb_granted s)%Z then Some (mkSubs down (sb_granted s - 1) (sb_streams s) (sb_refused s)) else None
  | SubDrop =>
      if (0 <? sb_streams s)%Z then Some (mkSubs down (sb_granted s) (sb_streams s - 1) (sb_refused s)) else None
  end.

Definition no_subscriptions : Subscriptions := mkSubs 0 0 0 0.

Fixpoint sub_run (os : list SubStep) (s : Subscriptions) : option Subscriptions :=
  match os with
  | [] => Some s
  | o :: os' => sub_step o s ≫= sub_run os'
  end.
