(* ===== verification/GraphqlFacts.v ===== *)
(** * The GraphQL API: what it shows, changes and announces

    The objects of canonical records, mutations against the record routes, queries that combine
    groups, and the limit on subscriptions. *)

From stdpp Require Import base tactics list gmap sets strings.
From Stdlib Require Import ZArith Lia.
From S2P Require Import Prelude RustString RustText Json Types Sessions SessionsFacts Storage SqliteDoc Conflict Federation Search LegacyStore LegacyFacts DataApi Contacts Calendar Cdm Graphql.

Local Open Scope string_scope.
Local Open Scope list_scope.

(** ** Objects of canonical records *)

(** The canonical values as the API shows them. *)
Definition shown_status (s : TaskStatus) : GqlTaskStatus :=
  match s with
  | TsPending => GqlPending
  | TsInProgress => GqlInProgress
  | TsCompleted => GqlCompleted
  | TsCancelled => GqlCancelled
  end.

Definition shown_priority (p : TaskPriority) : GqlTaskPriority :=
  match p with TpLow => GqlLow | TpMedium => GqlMedium | TpHigh => GqlHigh | TpUrgent => GqlUrgent end.

Definition shown_credential_type (c : CredentialType) : GqlCredentialType :=
  match c with
  | CrOauthToken => GqlOauthToken
  | CrApiKey => GqlApiKey
  | CrIdentityDocument => GqlIdentityDocument
  | CrPasskey => GqlPasskey
  end.

(** Extensions that are null are not shown. *)
Definition shown_extensions (x : option json) : option json :=
  v ← x; if is_null v then None else Some v.

Definition shown_task (t : Task) : GqlTask :=
  mkGqlTask (tk_id t) (tk_title t) (tk_description t) (shown_status (tk_status t)) (shown_priority (tk_priority t))
    (tk_due_date t) (tk_tags t) (tk_source t) (tk_source_id t) (shown_extensions (tk_extensions t))
    (tk_created_at t) (tk_updated_at t).

Definition shown_note (n : Note) : GqlNote :=
  mkGqlNote (nt_id n) (nt_title n) (nt_body n) (nt_tags n) (note_format_text <$> nt_format n) (nt_pinned n)
    (nt_source n) (nt_source_id n) (shown_extensions (nt_extensions n)) (nt_created_at n) (nt_updated_at n).

Definition shown_file (f : FileMetadata) : GqlFile :=
  mkGqlFile (fm_id f) (fm_filename f) (fm_path f) (fm_mime_type f) (fm_size_bytes f) (fm_checksum f)
    (fm_storage_backend f) (fm_source f) (fm_source_id f) (shown_extensions (fm_extensions f))
    (fm_created_at f) (fm_updated_at f).

Definition shown_participant (a : EmailAddress) : GqlEmailParticipant := mkParticipant (ea_name a) (ea_address a).

Definition shown_attachment (a : EmailAttachment) : GqlEmailAttachment :=
  mkGqlAttachment (att_filename a) (att_mime_type a) (att_size_bytes a) (att_content_id a).

Definition shown_email (e : Email) : GqlEmail :=
  mkGqlEmail (em_id e) (em_subject e) (shown_participant (em_from e)) (shown_participant <$> em_to e)
    (shown_participant <$> em_cc e) (shown_participant <$> em_bcc e) (em_body_text e) (em_body_html e)
    (em_date e) (em_message_id e) (em_in_reply_to e) (shown_attachment <$> em_attachments e) (em_read e)
    (em_starred e) (em_labels e) (em_source e) (em_source_id e) (shown_extensions (em_extensions e))
    (em_created_at e) (em_updated_at e).

Definition shown_credential (c : Credential) : GqlCredential :=
  mkGqlCredential (cr_id c) (cr_name c) (shown_credential_type (cr_credential_type c)) (cr_service c) (cr_claims c)
    (cr_encrypted c) (cr_expires_at c) (cr_source c) (cr_source_id c) (cr_created_at c) (cr_updated_at c).

Section Shown.
Context `{CdmTime}.

Definition shown_contact (c : Contact) : GqlContact :=
  mkGqlContact (ct_id c)
    (mkGqlContactName (cn_given (ct_name c)) (cn_family (ct_name c)) None (cn_prefix (ct_name c))
       (cn_suffix (ct_name c)) (cn_middle (ct_name c)))
    ((λ e, mkGqlReach (Contacts.ce_address e) (contact_info_text <$> Contacts.ce_type e) (ce_primary e)) <$> ct_emails c)
    ((λ p, mkGqlReach (cp_number p) (phone_type_text <$> cp_type p) (cp_primary p)) <$> ct_phones c)
    ((λ a, mkGqlAddress (ca_street a) (ca_city a) (ca_region a) (ca_postal_code a) (ca_country a)
             (contact_info_text <$> ca_type a)) <$> ct_addresses c)
    (ct_organization c) (ct_title c) (date_text <$> ct_birthday c) (ct_photo_url c) (ct_notes c) (ct_groups c)
    (ct_source c) (ct_source_id c) (shown_extensions (ct_extensions c)) (ct_created_at c) (ct_updated_at c).

(** Recurrences and attendees are objects, which the API reads as texts. *)
Definition shown_event (clock : nat → timestamp) (e : CalendarEvent) : GqlCalendarEvent :=
  mkGqlEvent (ev_id e) (ev_title e) (ev_start e) (default (clock 1%nat) (ev_end e)) None [] (ev_location e)
    (ev_description e) (ev_source e) (ev_source_id e) (shown_extensions (ev_extensions e)) (ev_created_at e)
    (ev_updated_at e).

(** Reading what was written. *)
Lemma index_struct fields k :
  NoDup fields.*1 → index (mk_struct fields) k = default JNull (field_of k fields).
Proof. intros Hnd. unfold index. by rewrite mk_struct_get. Qed.

Lemma extensions_struct fields :
  NoDup fields.*1 → extensions_of (mk_struct fields) = shown_extensions (field_of "extensions" fields).
Proof. intros Hnd. unfold extensions_of. rewrite mk_struct_get by done. by destruct (field_of _ _). Qed.

Lemma as_str_opt {A} (f : A → string) o : as_str (default JNull (opt_value (JStr ∘ f) o)) = f <$> o.
Proof. by destruct o. Qed.

Lemma as_str_text o : as_str (default JNull (opt_value JStr o)) = o.
Proof. by destruct o. Qed.

Lemma as_bool_opt o : as_bool (default JNull (opt_value JBool o)) = o.
Proof. by destruct o. Qed.

Lemma object_list_vec {A B} (f : json → B) (g : A → json) xs :
  object_list f (default JNull (vec_value g xs)) = (f ∘ g) <$> xs.
Proof. destruct xs as [|x xs]; [done|]. cbn. by rewrite <- list_fmap_compose. Qed.

Lemma text_list_vec xs : text_list (default JNull (vec_value JStr xs)) = xs.
Proof.
  assert (omap as_str (JStr <$> xs) = xs) as Hx by (induction xs as [|x xs IH]; [done|]; simpl; f_equal; exact IH).
  destruct xs as [|x xs]; [done|]. exact Hx.
Qed.

Lemma text_list_objects {A} (g : A → list (string * option json)) xs :
  text_list (default JNull (vec_value (λ x, mk_struct (g x)) xs)) = [].
Proof.
  assert (omap as_str ((λ x, mk_struct (g x)) <$> xs) = []) as Hx by (induction xs as [|x xs IH]; [done|]; done).
  destruct xs as [|x xs]; [done|]. exact Hx.
Qed.

Lemma read_time_opt `{!CdmTimeLaws} o : read_time (default JNull (opt_value time_value o)) = o.
Proof. destruct o; [|done]. apply time_text_parse. Qed.

Lemma read_time_value `{!CdmTimeLaws} clock i t : time_or_now clock i (time_value t) = t.
Proof. unfold time_or_now, read_time. simpl. by rewrite time_text_parse. Qed.

Lemma as_u64_int z : (0 ≤ z < 2 ^ 64)%Z → as_u64 (int_value z) = Some z.
Proof.
  intros Hz. unfold as_u64, int_value. rewrite (proj2 (Z.leb_le _ _)), (proj2 (Z.ltb_lt _ _)) by lia. done.
Qed.
End Shown.

(** The fields of a struct have distinct names. *)
Ltac distinct_names := apply (bool_decide_unpack _); vm_compute; exact I.

Ltac read_struct :=
  repeat (rewrite index_struct by distinct_names); rewrite ?extensions_struct by distinct_names;
  cbn [field_of String.eqb Ascii.eqb Bool.eqb default from_option id as_str text_or_empty];
  rewrite ?as_str_opt, ?as_str_text, ?as_bool_opt, ?read_time_opt, ?read_time_value, ?text_list_vec, ?object_list_vec.

Section Views.
Context `{CdmTime} `{!CdmTimeLaws} (clock : nat → timestamp).

Lemma status_shown s : task_status_of (task_status_text s) = shown_status s.
Proof. by destruct s. Qed.

Lemma priority_shown p : task_priority_of (task_priority_text p) = shown_priority p.
Proof. by destruct p. Qed.

Lemma credential_type_shown c : credential_type_of (credential_type_text c) = shown_credential_type c.
Proof. by destruct c. Qed.

Lemma task_shown t : record_to_task clock (task_value t) = shown_task t.
Proof. unfold record_to_task, task_value, shown_task. read_struct. by rewrite status_shown, priority_shown. Qed.

Lemma note_shown n : record_to_note clock (note_value n) = shown_note n.
Proof. unfold record_to_note, note_value, shown_note. by read_struct. Qed.

Lemma file_shown f : (0 ≤ fm_size_bytes f < 2 ^ 64)%Z → record_to_file clock (file_value f) = shown_file f.
Proof. intros Hf. unfold record_to_file, file_value, shown_file. read_struct. by rewrite as_u64_int. Qed.

Lemma participant_shown a : json_to_email_participant (email_address_value a) = shown_participant a.
Proof. by destruct a as [[n|] a]. Qed.

Lemma participants_shown (l : list EmailAddress) : (json_to_email_participant ∘ email_address_value) <$> l = shown_participant <$> l.
Proof. apply list_fmap_ext. intros i a _. apply participant_shown. Qed.

Lemma attachment_shown a : (0 ≤ att_size_bytes a < 2 ^ 64)%Z → to_attachment (attachment_value a) = shown_attachment a.
Proof. intros Ha. unfold to_attachment, attachment_value, shown_attachment. read_struct. by rewrite as_u64_int. Qed.

Lemma email_shown e :
  Forall (λ a, 0 ≤ att_size_bytes a < 2 ^ 64)%Z (em_attachments e) →
  record_to_email clock (email_value e) = shown_email e.
Proof.
  intros He. unfold record_to_email, email_value, shown_email, json_to_email_participants. read_struct.
  rewrite participant_shown, !participants_shown. f_equal.
  - unfold object_list. simpl. rewrite <- list_fmap_compose. apply participants_shown.
  - apply list_fmap_ext. intros i a Ha. apply attachment_shown. by apply (Forall_lookup_1 _ _ _ _ He Ha).
Qed.

Lemma credential_shown c : record_to_credential clock (credential_value c) = shown_credential c.
Proof.
  unfold record_to_credential, credential_value, shown_credential. read_struct. by rewrite credential_type_shown.
Qed.

Lemma contact_shown c : record_to_contact clock (contact_value c) = shown_contact c.
Proof.
  unfold record_to_contact, contact_value, shown_contact. read_struct. f_equal.
  - unfold to_contact_name, contact_name_value. by read_struct.
  - apply list_fmap_ext. intros i e _. unfold compose, to_reach, contact_email_value. by read_struct.
  - apply list_fmap_ext. intros i p _. unfold compose, to_reach, contact_phone_value. by read_struct.
  - apply list_fmap_ext. intros i a _. unfold compose, to_address, contact_address_value. by read_struct.
Qed.

Lemma event_shown e : record_to_event clock (event_value e) = shown_event clock e.
Proof.
  unfold record_to_event, event_value, shown_event. read_struct. f_equal.
  - unfold time_or_now. by rewrite read_time_opt.
  - by destruct (ev_recurrence e).
  - apply (text_list_objects (λ a, _)).
Qed.
End Views.

(** C34. The API shows canonical records as they are: of the serialised form of any task, note,
    file, email, credential and contact it reads back every field the object has, whatever is
    absent; of a calendar event the same, except that it shows no attendees and no recurrence
    and replaces a missing end by the clock. *)
Theorem records_shown `{CdmTime} `{!CdmTimeLaws} clock :
  (∀ t, record_to_task clock (task_value t) = shown_task t) ∧
  (∀ n, record_to_note clock (note_value n) = shown_note n) ∧
  (∀ f, (0 ≤ fm_size_bytes f < 2 ^ 64)%Z → record_to_file clock (file_value f) = shown_file f) ∧
  (∀ e, Forall (λ a, 0 ≤ att_size_bytes a < 2 ^ 64)%Z (em_attachments e) →
     record_to_email clock (email_value e) = shown_email e) ∧
  (∀ c, record_to_credential clock (credential_value c) = shown_credential c) ∧
  (∀ c, record_to_contact clock (contact_value c) = shown_contact c) ∧
  (∀ e, record_to_event clock (event_value e) = shown_event clock e).
Proof.
  split_and!; [exact (task_shown clock)|exact (note_shown clock)|exact (file_shown clock)|exact (email_shown clock)
              |exact (credential_shown clock)|exact (contact_shown clock)|exact (event_shown clock)].
Qed.

(** ** Mutations *)

(** An answer of a record route, as the API gives it. *)
Inductive same_answer {A B} (f : A → B) : DataRoutes.reply A → result B string → Prop :=
| same_ok status a : (status < 300)%Z → same_answer f (DataRoutes.Reply status a) (Ok (f a))
| same_error status code e : (400 ≤ status)%Z → same_answer f (DataRoutes.Deny status code) (Err e).

(** The answers of the route and of the mutation to a deletion. They differ where there is no such
    record: the route refuses with 404, the mutation answers false. *)
Inductive deletion_answers : DataRoutes.reply unit → result bool string → Prop :=
| deleted_ok : deletion_answers (DataRoutes.Reply 204 tt) (Ok true)
| deleted_missing code : deletion_answers (DataRoutes.Deny 404 code) (Ok false)
| deleted_error code e : deletion_answers (DataRoutes.Deny 500 code) (Err e).

Definition of_store (st : Store) : DataRoutes.ApiState := DataRoutes.mkApi (Some st.1) st.2.

(** C32. The mutations of the API are the record routes without an identity: on an input that is
    JSON each leaves the same rows, audit entries and events on the bus as the route called by
    nobody, and creating and updating answer the same record, or an error where the route answers
    one; deleting answers true where the route answers 204 and an error where it answers 500, but
    false where the route refuses with 404 because there is no such record. Input that is not JSON
    is refused and changes nothing. *)
Theorem mutations_as_routes `{JsonText} `{Chrono} `{LegacySql} d collection id text version st :
  (let '(r, st') := gql_create_record d collection text st in
   match json_from_str text with
   | Ok v => let '(a, api) := DataRoutes.create_record d collection None v (of_store st) in
             api = of_store st' ∧ same_answer record_to_gql_record a r
   | Err e => r = Err ("invalid JSON: " +:+ e) ∧ st' = st
   end) ∧
  (let '(r, st') := gql_update_record d collection id text version st in
   match json_from_str text with
   | Ok v => let '(a, api) := DataRoutes.update_record d collection id v version (of_store st) in
             api = of_store st' ∧ same_answer record_to_gql_record a r
   | Err e => r = Err ("invalid JSON: " +:+ e) ∧ st' = st
   end) ∧
  (let '(r, st') := gql_delete_record d collection id st in
   let '(a, api) := DataRoutes.delete_record d collection id (of_store st) in
   api = of_store st' ∧ deletion_answers a r).
Proof.
  destruct st as [s published].
  unfold gql_create_record, gql_update_record, gql_delete_record, DataRoutes.create_record, DataRoutes.update_record,
    DataRoutes.delete_record, read_input, DataRoutes.inject_owner. cbn [of_store fst snd DataRoutes.api_storage].
  split_and!.
  - destruct (json_from_str text) as [v|e]; [|done]. cbn [result_map_err].
    destruct (legacy_create _ _ _ _ s) as [[r|e] s']; (split; [done|]); by constructor.
  - destruct (json_from_str text) as [v|e]; [|done]. cbn [result_map_err].
    destruct (legacy_update _ _ _ _ _ _ s) as [[r|[| |e]] s']; (split; [done|]); by constructor.
  - destruct (legacy_delete _ _ _ _ s) as [[[]|e] s']; (split; [done|]); by constructor.
Qed.

(** ** The limit on subscriptions *)

(** The counter is the number of calls, and those within the limit are no more than it allows. *)
Record counted (s : Subscriptions) : Prop := mkCounted {
  co_counter : (sb_counter s = sb_granted s + sb_streams s + sb_refused s)%Z;
  co_bounds : (0 ≤ sb_granted s ∧ 0 ≤ sb_streams s ∧ 0 ≤ sb_refused s)%Z;
  co_limit : (sb_granted s + sb_streams s ≤ MAX_SUBSCRIPTIONS)%Z;
  co_width : (sb_counter s < 2 ^ 64)%Z;
}.

(** Fewer calls at once than a [usize] counts. *)
Definition countable (s : Subscriptions) : Prop := (sb_counter s + 1 < 2 ^ 64)%Z.

Lemma sub_step_counted o s s' : countable s → counted s → sub_step o s = Some s' → counted s'.
Proof.
  intros Hc [Hn Hb Hl Hw] Hs. unfold countable, MAX_SUBSCRIPTIONS in *. destruct s as [n g t r]; simpl in *.
  assert ((n + 1) mod 2 ^ 64 = n + 1)%Z as Hup by (apply Z.mod_small; lia).
  assert (0 < n → (n - 1) mod 2 ^ 64 = n - 1)%Z as Hdown by (intros; apply Z.mod_small; lia).
  destruct o; simpl in Hs; unfold MAX_SUBSCRIPTIONS in *;
    match type of Hs with context [if ?b then _ else _] => destruct b eqn:E end; simplify_eq;
    rewrite ?Z.leb_le, ?Z.leb_gt, ?Z.ltb_lt, ?Z.ltb_ge in E;
    split; cbn [sb_counter sb_granted sb_streams sb_refused]; unfold MAX_SUBSCRIPTIONS; rewrite ?Hup, ?Hdown by lia; lia.
Qed.

(** The counter never comes near its width. *)
Fixpoint always_countable (os : list SubStep) (s : Subscriptions) : Prop :=
  countable s ∧
  match os with
  | [] => True
  | o :: os' => from_option (always_countable os') True (sub_step o s)
  end.

(** C35. At most 100 subscriptions: however the steps of concurrent calls interleave, no more
    than 100 of them hold or are about to get a stream, the shared counter is the number of
    calls in progress, and once the refused ones have taken back their count a new call is
    refused exactly if 100 are in use. *)
Theorem subscriptions_limited os s :
  sub_run os no_subscriptions = Some s → always_countable os no_subscriptions →
  (sb_streams s + sb_granted s ≤ 100)%Z ∧
  (sb_counter s = sb_streams s + sb_granted s + sb_refused s)%Z ∧
  (sb_refused s = 0 →
     ((∃ s', sub_step SubCall s = Some s' ∧ sb_refused s' = 1) ↔ sb_streams s + sb_granted s = 100))%Z.
Proof.
  intros Hr Hc. assert (counted s) as [Hn Hb Hl Hw].
  { assert (counted no_subscriptions) as H0 by (split; vm_compute; intuition congruence).
    revert Hr Hc H0. generalize no_subscriptions. induction os as [|o os IH]; intros s0 Hr Hc H0; [by simplify_eq/=|].
    simpl in Hr, Hc. destruct Hc as [Hs0 Hc]. destruct (sub_step o s0) as [s1|] eqn:E; [|done]. simpl in Hr, Hc.
    eapply IH; [done|done|]. by eapply sub_step_counted. }
  unfold MAX_SUBSCRIPTIONS in Hl. split; [lia|]. split; [lia|]. intros Hz. simpl. unfold MAX_SUBSCRIPTIONS.
  destruct (100 <=? sb_counter s)%Z eqn:E; [apply Z.leb_le in E|apply Z.leb_gt in E].
  - split; [lia|]. intros _. eexists. split; [done|]. simpl. lia.
  - split; [|lia]. intros (s' & ? & Hs'). simplify_eq/=. lia.
Qed.

Lemma subscriptions_limited_witness :
  let os := [SubCall; SubCall; SubOpen; SubDrop] in
  ∃ s, sub_run os no_subscriptions = Some s ∧ (sb_streams s + sb_granted s ≤ 100)%Z.
Proof.
  eexists. split; [vm_compute; reflexivity|].
  refine (proj1 (subscriptions_limited [SubCall; SubCall; SubOpen; SubDrop] _ _ _)); vm_compute; intuition congruence.
Defined.

(** ** Deviations *)

(** The groups for the attendees are alternatives in name only: a contact is found only if its
    emails contain the address of every attendee. *)
Lemma attendee_filters_all `{JsonText} `{Sqlite} `{LegacySql} data attendees :
  passes_filters data (attendee_filters attendees) =
    forallb (λ a, text_truth data (mkText "emails" a)) attendees.
Proof.
  unfold passes_filters, attendee_filters, or_filters. cbn [truths].
  change (forallb id (concat (map (λ g, group_truth (existsb id) (truths data g))
    ((λ email, mkFilters [] [] [mkText "emails" email] [] []) <$> attendees))) =
    forallb (λ a, text_truth data (mkText "emails" a)) attendees).
  induction attendees as [|a attendees IH]; [done|]. rewrite fmap_cons. cbn [map concat forallb].
  rewrite forallb_app, IH. f_equal. cbn. by destruct (text_truth _ _).
Qed.

(** A comparison with an operator that is not one of the four is no filter at all: the query
    lists the whole collection. *)
Lemma unknown_operator_lists_all `{JsonText} `{Chrono} `{LegacySql} {T} collection (converter : json → T) d f sort page s :
  comparison_op_of (cf_operator f) = None →
  query_collection collection converter d (mkQueryArgs (Some (mkFilterInput [] [f] [])) sort page) s =
  query_collection collection converter d (mkQueryArgs None sort page) s.
Proof.
  intros Hf. unfold query_collection, convert_filter, convert_comparison. simpl. by rewrite Hf.
Qed.

(** ** Instances for witnesses *)

Definition toy_time : CdmTime := Build_CdmTime (@to_rfc3339 toy_chrono) (@parse_from_rfc3339 toy_chrono) (@to_rfc3339 toy_chrono).

Lemma toy_time_laws : @CdmTimeLaws toy_time.
Proof. split. apply toy_rfc3339_parse. Qed.

Definition toy_task : Task :=
  mkTask "t" "Write" None TsInProgress TpUrgent (Some 5%Z) None ["a"; "b"] (Some "me") None "core" "1" (Some JNull) 1 2.

Lemma records_shown_witness :
  @record_to_task toy_time (λ _, 0%Z) (@task_value toy_time toy_task) = shown_task toy_task ∧
  gt_status (shown_task toy_task) = GqlInProgress.
Proof.
  split; [|reflexivity]. exact (proj1 (@records_shown toy_time toy_time_laws (λ _, 0%Z)) toy_task).
Defined.
