(* ===== verification/WasmBridge.v ===== *)
(** * The host bridge of WASM plugins

    apps/core/src/wasm_runtime.rs: the requests a WASM plugin makes of its host, answered within
    its rate limit, capabilities, declared collections and allowed domains, over the legacy
    storage and the message bus, and the registry of bridges.

    The url crate (whose hosts are in lower case) and the HTTP client are parameters; requests
    that reach the client are recorded. A panic is an outcome. *)

From stdpp Require Import base tactics list gmap sets strings sorting.
From Stdlib Require Import Ascii ZArith Lia.
From S2P Require Import Prelude RustString RustText Json Types Capability Sessions Storage Conflict Federation Search LegacyStore Cdm.

Local Open Scope string_scope.
Local Open Scope list_scope.

(** ** Configuration *)

Record WasmPluginConfig : Type := mkWasmConfig {
  wc_plugin_id : string;
  wc_display_name : string;
  wc_version : string;
  wc_capabilities : list Capability;
  wc_declared_collections : list string;
  wc_memory_limit_bytes : Z;
  wc_execution_timeout : Z;
  wc_rate_limit_per_second : Z;
  wc_allowed_http_domains : list string;
}.

(** Times are in nanoseconds. *)
Definition SECOND : Z := 1000000000.

Definition default_wasm_config : WasmPluginConfig :=
  mkWasmConfig empty_str empty_str empty_str [] [] (64 * 1024 * 1024) (30 * SECOND) 1000 [].

(** ** The rate limit *)

Record RateLimitState : Type := mkRate { rl_limit : Z; rl_count : Z; rl_window_start : timestamp }.

Definition new_rate_limit (limit : Z) (now : timestamp) : RateLimitState := mkRate limit 0 now.

Definition check_and_increment (now : timestamp) (r : RateLimitState) : result unit string * RateLimitState :=
  let r1 := if (SECOND <=? now - rl_window_start r)%Z then mkRate (rl_limit r) 0 now else r in
  if (rl_limit r1 <=? rl_count r1)%Z
  then (Err ("rate limit exceeded: " +:+ show_Z (rl_limit r1) +:+ " calls/sec"), r1)
  else (Ok tt, mkRate (rl_limit r1) (rl_count r1 + 1) (rl_window_start r1)).

(** ** Requests and responses *)

Inductive HostRequest : Type :=
| StoreRead (collection id : string)
| StoreWrite (collection : string) (data : json)
| StoreQuery (collection : string) (filters : json) (limit offset : option Z)
| StoreDelete (collection id : string)
| ConfigGet (key : string)
| EventSubscribe (event_type : string)
| EventEmit (event_type : string) (payload : json)
| LogInfo (message : string)
| LogWarn (message : string)
| LogError (message : string)
| HttpRequest (url method : string) (headers : option json) (body : option string).

Record HostResponse : Type := mkResponse {
  hr_success : bool;
  hr_data : option json;
  hr_error : option string;
}.

Definition host_ok (data : json) : HostResponse := mkResponse true (Some data) None.
Definition host_err (message : string) : HostResponse := mkResponse false None (Some message).

Definition MAX_LOG_MESSAGE_LEN : nat := 1000.

(** A request as the client sends it. *)
Record Outbound : Type := mkOutbound {
  ob_method : string;
  ob_url : string;
  ob_headers : list (string * string);
  ob_body : option string;
}.

Inductive HttpResult : Type :=
| HttpAnswered (status : Z) (body : string)
| HttpFailed (e : string)
| HttpTimedOut.

(** One exchange on the network: its outcome, or a redirect, with the request that the client makes
    of it. *)
Inductive Exchange : Type :=
| Final (r : HttpResult)
| Redirected (next : Outbound).

(** What a [reqwest::Client] of the default policy does with a request: it follows redirects, ten at
    most, to wherever the servers send it. *)
Definition MAX_REDIRECTS : nat := 10.

Fixpoint follow (http : Outbound → Exchange) (hops : nat) (out : Outbound) : list Outbound * HttpResult :=
  match http out with
  | Redirected next =>
      match hops with
      | O => ([], HttpFailed "error following redirect: too many redirects")
      | S hops' => let '(more, r) := follow http hops' next in (next :: more, r)
      end
  | Final r => ([], r)
  end.

(** [Url::parse]: the host of a URL, which it may lack. *)
Class UrlLib : Type := { url_host : string → option (option string) }.

(** ** The bridge *)

(** What a bridge shares with the core, its limiter, and what it logged and sent. *)
Record BridgeState : Type := mkBridge {
  bs_db : LegacyDb;
  bs_bus : list BusEvent;
  bs_rate : RateLimitState;
  bs_log : list (string * string);
  (** the requests asked for, each with the redirects that were followed from it *)
  bs_sent : list (Outbound * list Outbound);
}.

Definition set_db (db : LegacyDb) (s : BridgeState) : BridgeState :=
  mkBridge db (bs_bus s) (bs_rate s) (bs_log s) (bs_sent s).
Definition set_rate (r : RateLimitState) (s : BridgeState) : BridgeState :=
  mkBridge (bs_db s) (bs_bus s) r (bs_log s) (bs_sent s).

Section Bridge.
Context `{JsonText} `{Chrono} `{LegacySql} `{CdmTime} `{UrlLib}.
Context (http : Outbound → Exchange) (config : WasmPluginConfig).

Definition has_capability (c : Capability) : bool := bool_decide (c ∈ wc_capabilities config).

Definition is_collection_allowed (collection : string) : bool :=
  bool_decide (collection ∈ wc_declared_collections config).

Definition stored_value (r : StoredRecord) : json :=
  mk_struct
    [("id", Some (JStr (rec_id r))); ("plugin_id", Some (JStr (rec_plugin_id r)));
     ("collection", Some (JStr (rec_collection r))); ("data", Some (rec_data r));
     ("version", Some (int_value (rec_version r))); ("user_id", opt_value JStr (rec_user_id r));
     ("household_id", opt_value JStr (rec_household_id r));
     ("created_at", Some (time_value (rec_created_at r))); ("updated_at", Some (time_value (rec_updated_at r)))].

Definition query_value (q : QueryResult) : json :=
  mk_obj [("records", JArr (stored_value <$> qr_records q)); ("total", int_value (qr_total q));
          ("limit", int_value (qr_limit q)); ("offset", int_value (qr_offset q))].

Definition not_granted (name : string) : HostResponse := host_err ("capability not granted: " +:+ name).
Definition not_declared (collection : string) : HostResponse :=
  host_err ("collection '" +:+ collection +:+ "' not declared in plugin manifest").

Definition handle_store_read (d : Draw) (collection id : string) (s : BridgeState) : HostResponse * BridgeState :=
  if negb (has_capability StorageRead) then (not_granted "StorageRead", s)
  else if negb (is_collection_allowed collection) then (not_declared collection, s)
  else (match legacy_get d (wc_plugin_id config) collection id (bs_db s) with
        | Ok (Some r) => host_ok (stored_value r)
        | Ok None => host_ok JNull
        | Err e => host_err e
        end, s).

Definition handle_store_write (d : Draw) (collection : string) (data : json) (s : BridgeState) :
    HostResponse * BridgeState :=
  if negb (has_capability StorageWrite) then (not_granted "StorageWrite", s)
  else if negb (is_collection_allowed collection) then (not_declared collection, s)
  else match legacy_create d (wc_plugin_id config) collection data (bs_db s) with
       | (Ok r, db) => (host_ok (stored_value r), set_db db s)
       | (Err e, db) => (host_err e, set_db db s)
       end.

(** The filters are not looked at. *)
Definition handle_store_query (d : Draw) (collection : string) (filters : json) (limit offset : option Z)
    (s : BridgeState) : HostResponse * BridgeState :=
  if negb (has_capability StorageRead) then (not_granted "StorageRead", s)
  else if negb (is_collection_allowed collection) then (not_declared collection, s)
  else
    let pagination := mkPagination (default 50%Z limit) (default 0%Z offset) in
    (match legacy_list d (wc_plugin_id config) collection None (clamped pagination) (bs_db s) with
     | Ok r => host_ok (query_value r)
     | Err e => host_err e
     end, s).

Definition handle_store_delete (d : Draw) (collection id : string) (s : BridgeState) : HostResponse * BridgeState :=
  if negb (has_capability StorageWrite) then (not_granted "StorageWrite", s)
  else if negb (is_collection_allowed collection) then (not_declared collection, s)
  else match legacy_delete d (wc_plugin_id config) collection id (bs_db s) with
       | (Ok deleted, db) => (host_ok (mk_obj [("deleted", JBool deleted)]), set_db db s)
       | (Err e, db) => (host_err e, set_db db s)
       end.

Definition handle_config_get (key : string) (s : BridgeState) : HostResponse * BridgeState :=
  (if has_capability ConfigRead then host_ok (mk_obj [("key", JStr key); ("value", JNull)])
   else not_granted "ConfigRead", s).

Definition handle_event_subscribe (event_type : string) (s : BridgeState) : HostResponse * BridgeState :=
  (if has_capability EventsSubscribe then host_ok (mk_obj [("subscribed", JStr event_type)])
   else not_granted "EventsSubscribe", s).

Definition handle_event_emit (event_type : string) (payload : json) (s : BridgeState) : HostResponse * BridgeState :=
  if has_capability EventsEmit then
    (host_ok (mk_obj [("emitted", JStr event_type); ("payload", payload)]),
     mkBridge (bs_db s) (bs_bus s ++ [NewRecords ("event:" +:+ event_type) 1]) (bs_rate s) (bs_log s) (bs_sent s))
  else (not_granted "EventsEmit", s).

(** [None] is the panic of slicing within a character. *)
Definition handle_log (level message : string) (s : BridgeState) : option HostResponse * BridgeState :=
  if has_capability Logging then
    match (if (MAX_LOG_MESSAGE_LEN <? String.length message)%nat then slice_to message MAX_LOG_MESSAGE_LEN
           else Some message) with
    | Some msg =>
        (Some (host_ok (mk_obj [("logged", JBool true)])),
         mkBridge (bs_db s) (bs_bus s) (bs_rate s) (bs_log s ++ [(level, msg)]) (bs_sent s))
    | None => (None, s)
    end
  else (Some (not_granted "Logging"), s).

(** The host is a domain of the list or below one. *)
Definition domain_allowed (host : string) : bool :=
  existsb (λ d, bool_decide (host = d) || ends_with host ("." +:+ d)) (wc_allowed_http_domains config).

Definition check_url (url : string) : result unit string :=
  match url_host url with
  | None => Err ("invalid URL: " +:+ url)
  | Some None => Ok tt
  | Some (Some host) =>
      match wc_allowed_http_domains config with
      | [] => Err ("HTTP request to '" +:+ host +:+ "' not allowed: no domains in allowlist")
      | _ =>
          if domain_allowed host then Ok tt
          else Err ("HTTP request to '" +:+ host +:+ "' not allowed: domain not in declared list")
      end
  end.

Definition METHODS : list string := ["GET"; "POST"; "PUT"; "DELETE"; "PATCH"].

Definition text_headers (headers : option json) : list (string * string) :=
  match headers with
  | Some (JObj o) => omap (λ kv, pair kv.1 <$> as_str kv.2) o
  | _ => []
  end.

Definition handle_http_request (url method : string) (headers : option json) (body : option string)
    (s : BridgeState) : HostResponse * BridgeState :=
  if negb (has_capability HttpOutbound) then (not_granted "HttpOutbound", s)
  else
    match check_url url with
    | Err e => (host_err e, s)
    | Ok _ =>
        let m := to_uppercase method in
        if bool_decide (m ∈ METHODS) then
          let out := mkOutbound m url (text_headers headers) body in
          let exchanged := follow http MAX_REDIRECTS out in
          (match exchanged.2 with
           | HttpAnswered status text => host_ok (mk_obj [("status", int_value status); ("body", JStr text)])
           | HttpFailed e => host_err ("HTTP request failed: " +:+ e)
           | HttpTimedOut => host_err "HTTP request timed out"
           end, mkBridge (bs_db s) (bs_bus s) (bs_rate s) (bs_log s) (bs_sent s ++ [(out, exchanged.1)]))
        else (host_err ("unsupported HTTP method: " +:+ method), s)
    end.

Definition answered (r : HostResponse * BridgeState) : option HostResponse * BridgeState := (Some r.1, r.2).

(** The whole request, the rate limit first. *)
Definition handle_request (now : timestamp) (d : Draw) (r : HostRequest) (s : BridgeState) :
    option HostResponse * BridgeState :=
  match check_and_increment now (bs_rate s) with
  | (Err e, rate) => (Some (host_err e), set_rate rate s)
  | (Ok _, rate) =>
      let s1 := set_rate rate s in
      match r with
      | StoreRead collection id => answered (handle_store_read d collection id s1)
      | StoreWrite collection data => answered (handle_store_write d collection data s1)
      | StoreQuery collection filters limit offset => answered (handle_store_query d collection filters limit offset s1)
      | StoreDelete collection id => answered (handle_store_delete d collection id s1)
      | ConfigGet key => answered (handle_config_get key s1)
      | EventSubscribe event_type => answered (handle_event_subscribe event_type s1)
      | EventEmit event_type payload => answered (handle_event_emit event_type payload s1)
      | LogInfo message => handle_log "info" message s1
      | LogWarn message => handle_log "warn" message s1
      | LogError message => handle_log "error" message s1
      | HttpRequest url method headers body => answered (handle_http_request url method headers body s1)
      end
  end.

Definition handle_all (rs : list (timestamp * Draw * HostRequest)) (s : BridgeState) : BridgeState :=
  foldl (λ s x, (handle_request x.1.1 x.1.2 x.2 s).2) s rs.
End Bridge.

(** ** The registry of bridges *)

Record WasmRuntime : Type := mkRuntime { wr_bridges : gmap string (WasmPluginConfig * RateLimitState) }.

Definition new_runtime : WasmRuntime := mkRuntime ∅.

Definition register_plugin (now : timestamp) (config : WasmPluginConfig) (r : WasmRuntime) :
    result unit string * WasmRuntime :=
  let id := wc_plugin_id config in
  if bool_decide (is_Some (wr_bridges r !! id))
  then (Err ("WASM plugin '" +:+ id +:+ "' already registered"), r)
  else (Ok tt, mkRuntime (<[id := (config, new_rate_limit (wc_rate_limit_per_second config) now)]> (wr_bridges r))).

Definition get_bridge (plugin_id : string) (r : WasmRuntime) : option (WasmPluginConfig * RateLimitState) :=
  wr_bridges r !! plugin_id.

Definition unregister_plugin (plugin_id : string) (r : WasmRuntime) : bool * WasmRuntime :=
  (bool_decide (is_Some (wr_bridges r !! plugin_id)), mkRuntime (delete plugin_id (wr_bridges r))).

Definition plugin_count (r : WasmRuntime) : nat := size (wr_bridges r).

(** * Properties of the WASM host bridge

    What a plugin can reach through its bridge, and how many requests its rate limit lets through
    in any second. *)

(** ** Confinement *)

Section Confined.
Context `{JsonText} `{Chrono} `{LegacySql} `{CdmTime} `{UrlLib}.
Context (http : Outbound → Exchange) (config : WasmPluginConfig).

(** A row of the plugin in a collection it declares. *)
Definition own_row (r : LegacyRow) : bool :=
  bool_decide (lr_plugin_id r = wc_plugin_id config) && is_collection_allowed config (lr_collection r).

(** An event the plugin may publish. *)
Definition own_event (e : BusEvent) : Prop :=
  has_capability config EventsEmit = true ∧ ∃ event_type, e = NewRecords ("event:" +:+ event_type) 1.

(** A request the plugin may send. *)
Definition own_request (o : Outbound) : Prop :=
  has_capability config HttpOutbound = true ∧ ob_method o ∈ METHODS ∧
  ∃ host, url_host (ob_url o) = Some host ∧
    match host with
    | Some h => ∃ d, d ∈ wc_allowed_http_domains config ∧ (h = d ∨ ends_with h ("." +:+ d) = true)
    | None => True
    end.

(** How far a state has moved from another. *)
Record Within (s s' : BridgeState) : Prop := mkWithin {
  wi_foreign : filter (λ r, own_row r = false) (db_rows (bs_db s')) = filter (λ r, own_row r = false) (db_rows (bs_db s));
  wi_readonly : has_capability config StorageWrite = false → bs_db s' = bs_db s;
  wi_bus : ∃ es, bs_bus s' = bs_bus s ++ es ∧ Forall own_event es;
  wi_sent : ∃ os, bs_sent s' = bs_sent s ++ os ∧ Forall (λ o, own_request o.1) os;
}.

#[global] Instance within_preorder : PreOrder Within.
Proof.
  split.
  - intros s. split; [done|done| |]; exists []; by rewrite app_nil_r.
  - intros s1 s2 s3 [F1 R1 (es1 & B1 & E1) (os1 & S1 & O1)] [F2 R2 (es2 & B2 & E2) (os2 & S2 & O2)]. split.
    + by rewrite F2.
    + intros Hw. by rewrite R2, R1.
    + exists (es1 ++ es2). rewrite B2, B1, <- app_assoc. split; [done|]. by apply Forall_app.
    + exists (os1 ++ os2). rewrite S2, S1, <- app_assoc. split; [done|]. by apply Forall_app.
Qed.

Lemma within_same s s' : bs_db s' = bs_db s → bs_bus s' = bs_bus s → bs_sent s' = bs_sent s → Within s s'.
Proof.
  intros Hd Hb Hs. split; [by rewrite Hd|done| |]; exists []; by rewrite app_nil_r.
Qed.

Lemma within_db s db :
  has_capability config StorageWrite = true →
  filter (λ r, own_row r = false) (db_rows db) = filter (λ r, own_row r = false) (db_rows (bs_db s)) →
  Within s (set_db db s).
Proof. intros Hw Hf. split; [done|by rewrite Hw| |]; exists []; by rewrite app_nil_r. Qed.

Lemma create_foreign d collection data s r s' :
  is_collection_allowed config collection = true → legacy_create d (wc_plugin_id config) collection data s = (r, s') →
  filter (λ r, own_row r = false) (db_rows s') = filter (λ r, own_row r = false) (db_rows s).
Proof.
  intros Hc. unfold legacy_create, legacy_create_with_id, log_event_full.
  assert (∀ id text v, own_row (mkLegacyRow id (wc_plugin_id config) collection text 1 None None v v) = true) as Ho.
  { intros. unfold own_row. cbn. by rewrite Hc, bool_decide_eq_true_2. }
  repeat case_match; intros; simplify_eq; cbn; try done;
    rewrite filter_app, filter_cons_False, filter_nil, app_nil_r by (cbn; by rewrite Ho); done.
Qed.

Lemma delete_foreign d collection id s r s' :
  is_collection_allowed config collection = true → legacy_delete d (wc_plugin_id config) collection id s = (r, s') →
  filter (λ r, own_row r = false) (db_rows s') = filter (λ r, own_row r = false) (db_rows s).
Proof.
  intros Hc. unfold legacy_delete, log_event_full.
  assert (∀ rows : list LegacyRow, filter (λ r, own_row r = false) (filter (λ r, names_row (wc_plugin_id config) collection id r = false) rows)
    = filter (λ r, own_row r = false) rows) as Hf.
  { intros rows. rewrite list_filter_filter. apply list_filter_iff. intros x. split; [by intros [? ?]|]. intros Hx.
    split; [done|]. unfold own_row in Hx. unfold names_row. destruct (bool_decide (lr_id x = id)); [|done]. cbn.
    case_bool_decide as Hp; [|done]. cbn. case_bool_decide as Hcol; [|done]. by rewrite Hcol, Hc in Hx. }
  repeat case_match; intros; simplify_eq; cbn; try done; apply Hf.
Qed.

Lemma check_url_ok url :
  check_url config url = Ok tt →
  ∃ host, url_host url = Some host ∧
    match host with
    | Some h => ∃ d, d ∈ wc_allowed_http_domains config ∧ (h = d ∨ ends_with h ("." +:+ d) = true)
    | None => True
    end.
Proof.
  unfold check_url. destruct (url_host url) as [[h|]|]; [|by exists None|done].
  destruct (domain_allowed config h) eqn:Ed.
  - intros _. exists (Some h). split; [done|]. apply existsb_exists in Ed as (d & Hd & [Ho|Ho]%orb_true_iff).
    + exists d. split; [by apply list_elem_of_In|left]. by apply bool_decide_eq_true in Ho.
    + exists d. split; [by apply list_elem_of_In|by right].
  - by case_match.
Qed.

Lemma http_within url method headers body s :
  Within s (handle_http_request http config url method headers body s).2.
Proof.
  unfold handle_http_request. destruct (has_capability config HttpOutbound) eqn:Hc; [|done]. cbn [negb].
  destruct (check_url config url) as [[]|e] eqn:Hu; [|done]. case_bool_decide as Hm; [|done].
  cbv zeta. destruct (follow http MAX_REDIRECTS (mkOutbound (to_uppercase method) url (text_headers headers) body))
    as [followed r]. cbn [fst snd].
  split; [done|done|exists []; by rewrite app_nil_r|]. eexists. split; [done|]. apply Forall_singleton.
  split_and!; [done|done|]. by apply check_url_ok.
Qed.

Lemma write_within d collection data s : Within s (handle_store_write config d collection data s).2.
Proof.
  unfold handle_store_write. destruct (has_capability config StorageWrite) eqn:Hw; [|done].
  destruct (is_collection_allowed config collection) eqn:Hc; [|done]. cbn.
  destruct (legacy_create _ _ _ _ _) as [[r|e] db] eqn:Hl; cbn; apply within_db; try done;
    eapply create_foreign; done.
Qed.

Lemma delete_within d collection id s : Within s (handle_store_delete config d collection id s).2.
Proof.
  unfold handle_store_delete. destruct (has_capability config StorageWrite) eqn:Hw; [|done].
  destruct (is_collection_allowed config collection) eqn:Hc; [|done]. cbn.
  destruct (legacy_delete _ _ _ _ _) as [[r|e] db] eqn:Hl; cbn; apply within_db; try done;
    eapply delete_foreign; done.
Qed.

Lemma emit_within event_type payload s : Within s (handle_event_emit config event_type payload s).2.
Proof.
  unfold handle_event_emit. destruct (has_capability config EventsEmit) eqn:He; [|done]. cbn.
  split; [done|done| |exists []; by rewrite app_nil_r]. eexists. split; [done|]. apply Forall_singleton.
  split; [done|]. by eexists.
Qed.

Lemma log_within level message s : Within s (handle_log config level message s).2.
Proof. unfold handle_log. repeat case_match; cbn; try done; by apply within_same. Qed.

Lemma request_within now d r s : Within s (handle_request http config now d r s).2.
Proof.
  unfold handle_request. destruct (check_and_increment now (bs_rate s)) as [[[]|e] rate]; [|by apply within_same].
  transitivity (set_rate rate s); [by apply within_same|].
  destruct r; cbn [answered snd]; auto using http_within, write_within, delete_within, emit_within, log_within;
    unfold handle_store_read, handle_store_query; repeat case_match; done.
Qed.

Lemma all_within rs s : Within s (handle_all http config rs s).
Proof.
  revert s. induction rs as [|r rs IH]; intros s; [done|]. cbn. etrans; [apply request_within|]. apply IH.
Qed.
End Confined.

(** C31. Whatever a WASM plugin asks of its bridge, and in whatever order: rows of other plugins and
    of collections it does not declare stay as they are and in their places, no row at all changes
    without the capability to write, the bus receives only events under the name [event:…], and
    only with the capability to emit, and every HTTP exchange it makes the host start begins, with
    a known method, at a URL whose host, if it has one, is a domain of the allow-list or below one,
    and only with the capability for outbound HTTP. (Where the servers redirect it from there is
    not checked.) *)
Theorem wasm_plugin_confined `{JsonText} `{Chrono} `{LegacySql} `{CdmTime} `{UrlLib} http config rs s :
  let s' := handle_all http config rs s in
  filter (λ r, own_row config r = false) (db_rows (bs_db s')) = filter (λ r, own_row config r = false) (db_rows (bs_db s)) ∧
  (has_capability config StorageWrite = false → bs_db s' = bs_db s) ∧
  (∃ es, bs_bus s' = bs_bus s ++ es ∧ Forall (own_event config) es) ∧
  (∃ os, bs_sent s' = bs_sent s ++ os ∧ Forall (λ o, own_request config o.1) os).
Proof. intros s'. by destruct (all_within http config rs s). Qed.

(** ** The rate limit *)

(** The times of the calls that are let through. *)
Fixpoint passed_times (r : RateLimitState) (times : list timestamp) : list timestamp :=
  match times with
  | [] => []
  | t :: rest =>
      match check_and_increment t r with
      | (Ok _, r') => t :: passed_times r' rest
      | (Err _, r') => passed_times r' rest
      end
  end.

Definition in_second (a t : timestamp) : bool := (a <=? t)%Z && (t <? a + SECOND)%Z.

Definition calls_in (a : timestamp) (ts : list timestamp) : Z :=
  Z.of_nat (length (filter (λ t, in_second a t = true) ts)).

Lemma calls_in_cons a t ts : calls_in a (t :: ts) = ((if in_second a t then 1 else 0) + calls_in a ts)%Z.
Proof.
  unfold calls_in. destruct (in_second a t) eqn:E.
  - rewrite filter_cons_True by done. cbn [length]. lia.
  - rewrite filter_cons_False; [done|]. by rewrite E.
Qed.

(** Calls from the end of the second on are not counted. *)
Lemma later_calls a r times :
  Forall (λ t, a + SECOND ≤ t)%Z times → calls_in a (passed_times r times) = 0%Z.
Proof.
  revert r. induction times as [|t times IH]; intros r; [done|]. intros [Ht Hts]%Forall_cons. cbn.
  destruct (check_and_increment t r) as [[u|e] r']; [|by apply IH].
  rewrite calls_in_cons, IH by done. unfold in_second. rewrite (proj2 (Z.ltb_ge t (a + SECOND))) by done. by rewrite andb_false_r.
Qed.

(** What may still pass: one limit if the window started within the second, else two. *)
Definition allowance (a : timestamp) (r : RateLimitState) : Z :=
  (if a <=? rl_window_start r then rl_limit r - rl_count r else 2 * rl_limit r - rl_count r)%Z.

Lemma allowance_nonneg a r : (0 ≤ rl_count r ≤ rl_limit r)%Z → (0 ≤ allowance a r)%Z.
Proof. unfold allowance. destruct (a <=? rl_window_start r)%Z; lia. Qed.

Lemma calls_bounded a times r :
  Sorted Z.le times → Forall (λ t, a ≤ t)%Z times → Forall (λ t, rl_window_start r ≤ t)%Z times →
  (0 ≤ rl_count r ≤ rl_limit r)%Z → (calls_in a (passed_times r times) ≤ allowance a r)%Z.
Proof.
  revert r. induction times as [|t times IH]; intros r Hs Ha Hw Hr; [by apply allowance_nonneg|].
  destruct (decide (a + SECOND ≤ t)%Z) as [Hlate|Hlate].
  { rewrite later_calls; [by apply allowance_nonneg|]. apply Sorted_StronglySorted in Hs; [|intros ? ? ?; lia].
    apply StronglySorted_inv in Hs as [_ Hle]. constructor; [done|]. eapply Forall_impl; [exact Hle|]. intros u; cbn; lia. }
  apply Sorted_StronglySorted in Hs; [|intros ? ? ?; lia]. apply StronglySorted_inv in Hs as [Hs Hle].
  apply StronglySorted_Sorted in Hs. apply Forall_cons in Ha as [Hat Ha], Hw as [Ht Hw].
  assert (in_second a t = true) as Hin by (apply andb_true_iff; split; [apply Z.leb_le|apply Z.ltb_lt]; lia).
  assert (∀ c, 0 ≤ c ≤ rl_limit r → (calls_in a (passed_times (mkRate (rl_limit r) c t) times) ≤ rl_limit r - c))%Z as Hnew.
  { intros c Hc. etrans; [apply (IH (mkRate (rl_limit r) c t)); done|]. unfold allowance. cbn [rl_limit rl_count rl_window_start].
    by rewrite (proj2 (Z.leb_le a t)). }
  cbn [passed_times]. unfold check_and_increment. destruct (SECOND <=? t - rl_window_start r)%Z eqn:En;
    cbn [rl_limit rl_count rl_window_start].
  - apply Z.leb_le in En. unfold allowance. rewrite (proj2 (Z.leb_gt a (rl_window_start r))) by (unfold SECOND in *; lia).
    destruct (rl_limit r <=? 0)%Z eqn:E0.
    + specialize (Hnew 0%Z ltac:(lia)). lia.
    + apply Z.leb_gt in E0. rewrite calls_in_cons, Hin. specialize (Hnew (0 + 1)%Z ltac:(lia)). lia.
  - destruct (rl_limit r <=? rl_count r)%Z eqn:E0; [by apply IH|]. apply Z.leb_gt in E0. rewrite calls_in_cons, Hin.
    pose proof (IH (mkRate (rl_limit r) (rl_count r + 1) (rl_window_start r)) Hs Ha Hw) as Hi.
    cbn [rl_limit rl_count] in Hi. specialize (Hi ltac:(lia)). unfold allowance in *.
    cbn [rl_limit rl_count rl_window_start] in Hi. destruct (a <=? rl_window_start r)%Z; lia.
Qed.

(** A check keeps the count within the limit, and the window starts no later than the call. *)
Lemma check_kept t r res r' :
  check_and_increment t r = (res, r') → (rl_window_start r ≤ t)%Z → (0 ≤ rl_count r ≤ rl_limit r)%Z →
  (rl_window_start r' ≤ t)%Z ∧ (0 ≤ rl_count r' ≤ rl_limit r')%Z ∧ rl_limit r' = rl_limit r.
Proof.
  unfold check_and_increment. destruct (SECOND <=? _)%Z; cbn [rl_limit rl_count rl_window_start];
    destruct (rl_limit r <=? _)%Z eqn:E; intros [= <- <-]; cbn [rl_limit rl_count rl_window_start];
    apply Z.leb_le in E || apply Z.leb_gt in E; lia.
Qed.

Lemma calls_twice_bounded a times r :
  Sorted Z.le times → Forall (λ t, rl_window_start r ≤ t)%Z times → (0 ≤ rl_count r ≤ rl_limit r)%Z →
  (calls_in a (passed_times r times) ≤ 2 * rl_limit r)%Z.
Proof.
  revert r. induction times as [|t times IH]; intros r Hs Hw Hr; [unfold calls_in; cbn; lia|].
  pose proof Hs as Hss. apply Sorted_StronglySorted in Hss; [|intros ? ? ?; lia]. apply StronglySorted_inv in Hss as [_ Hle].
  destruct (decide (a ≤ t)%Z) as [Hat|Hat].
  - etrans; [apply calls_bounded|]; [done| |done|done|unfold allowance; destruct (_ <=? _)%Z; lia].
    constructor; [done|]. eapply Forall_impl; [exact Hle|]. intros u; cbn; lia.
  - apply Forall_cons in Hw as [Ht Hw]. cbn [passed_times]. destruct (check_and_increment t r) as [res r'] eqn:Ec.
    destruct (check_kept _ _ _ _ Ec Ht Hr) as (Hst & Hc & Hl).
    assert (calls_in a (passed_times r' times) ≤ 2 * rl_limit r)%Z as Hi.
    { rewrite <- Hl. apply IH; [by apply Sorted_inv in Hs as []| |done].
      eapply Forall_impl; [exact Hle|]. intros u; cbn; lia. }
    destruct res; [|done]. rewrite calls_in_cons. unfold in_second. by rewrite (proj2 (Z.leb_gt a t)) by lia.
Qed.

(** The clock does not run backwards: then, of the calls that a limiter started before them
    sees, in any one second it lets at most twice its limit through (a window may end within that
    second and the next begin), and never more than the limit in the second from the call that
    opens a window. *)
Theorem two_limits_per_second limit start times a :
  (0 ≤ limit)%Z → Sorted Z.le times → Forall (λ t, start ≤ t)%Z times →
  let passed := passed_times (new_rate_limit limit start) times in
  (calls_in a passed ≤ 2 * limit)%Z ∧ (calls_in start passed ≤ limit)%Z.
Proof.
  intros Hl Hs Hw passed. split.
  - apply (calls_twice_bounded a times (new_rate_limit limit start)); [done|done|cbn; lia].
  - etrans; [apply calls_bounded; try done; cbn; lia|]. unfold allowance. cbn. rewrite Z.leb_refl. lia.
Qed.

(** ** Examples *)

Module BridgeToy.
#[export] Instance toy_url : UrlLib := {|
  url_host u := if String.eqb u "https://api.example.com/x" then Some (Some "api.example.com")
                else if String.eqb u "file:///etc/passwd" then Some None
                else if String.eqb u "https://evilexample.com" then Some (Some "evilexample.com") else None;
|}.

Definition mail_config : WasmPluginConfig :=
  mkWasmConfig "mail" "Mail" "1.0.0" [HttpOutbound; EventsEmit; Logging] ["emails"] 0 0 3 ["example.com"].

(** Calls around the end of a window. *)
Definition burst : list timestamp := [900000000; 950000000; 960000000; 1000000000; 1100000000; 1200000000]%Z.

Definition fetch (url : string) : HostRequest := HttpRequest url "get" None None.
End BridgeToy.
Import BridgeToy.


Lemma two_limits_per_second_witness :
  (calls_in 900000000 (passed_times (new_rate_limit 2 0) burst) ≤ 4)%Z ∧
  calls_in 900000000 (passed_times (new_rate_limit 2 0) burst) = 4%Z.
Proof.
  split; [|vm_compute; reflexivity]. apply (two_limits_per_second 2 0); [lia| |].
  - unfold burst. repeat (constructor; [|constructor; lia] || constructor).
  - unfold burst. repeat constructor; lia.
Defined.

Section Examples.
Context `{JsonText} `{Chrono} `{LegacySql} `{CdmTime}.
Context (http : Outbound → Exchange) (d : Draw) (db : LegacyDb).

Definition idle : BridgeState := mkBridge db [] (new_rate_limit 3 0) [] [].

(** The limit is counted before anything else, refused requests included; a domain is not matched
    within a label; a URL without a host is not checked against the list. *)
Example bridge_requests :
  let ask r s := (handle_request http mail_config 5 d r s).2 in
  (λ o, ob_url o.1) <$> bs_sent (ask (fetch "https://api.example.com/x") idle) = ["https://api.example.com/x"] ∧
  bs_sent (ask (fetch "https://evilexample.com") idle) = [] ∧
  (λ o, ob_url o.1) <$> bs_sent (ask (fetch "file:///etc/passwd") idle) = ["file:///etc/passwd"] ∧
  bs_sent (ask (fetch "https://api.example.com/x") (ask (ConfigGet "a") (ask (ConfigGet "b") (ask (ConfigGet "c") idle)))) = [].
Proof. vm_compute. done. Qed.

(** A redirect of an allowed server is followed to a server that is not allowed. *)
Example redirect_not_checked :
  let elsewhere := mkOutbound "GET" "https://evilexample.com" [] None in
  let net o := if String.eqb (ob_url o) "https://api.example.com/x" then Redirected elsewhere
               else Final (HttpAnswered 200 "secret") in
  snd <$> bs_sent (handle_request net mail_config 5 d (fetch "https://api.example.com/x") idle).2 = [[elsewhere]].
Proof. vm_compute. done. Qed.

(** A message that is cut within a character panics. *)
Example log_panics :
  (handle_request http mail_config 5 d
     (LogInfo (String.concat empty_str (replicate 999 "a") +:+ String "195" (String "169" EmptyString))) idle).1 = None.
Proof. vm_compute. done. Qed.

(** What is emitted reaches the bus as a notice of one new record, without its payload. *)
Example emitted_without_payload p :
  bs_bus (handle_request http mail_config 5 d (EventEmit "mail.new" p) idle).2 = [NewRecords "event:mail.new" 1].
Proof. vm_compute. done. Qed.
End Examples.
