(* ===== verification/Webhooks.v ===== *)
(** * Webhooks, out and in

    packages/plugin-sdk-rs/src/retry.rs: retry states ([Retry]).
    plugins/engine/webhook-sender/src: subscriptions, the delivery log, the rate limiter and the
    delivery of events ([Sender]).
    plugins/engine/webhook-receiver/src: endpoints, signatures and payload mappings ([Receiver]).
    packages/transport-webhook/src: the inbound transport ([Inbound]).

    Doubles are the binary64 numbers of [SpecFloat]. The url crate, the HTTP client and HMAC are
    parameters; requests that are sent are recorded with their outcomes. Bodies are byte strings.
    Header names are in lower case, as the http crate keeps them. *)

From stdpp Require Import base tactics list gmap sets strings.
From Stdlib Require Import Ascii ZArith Lia SpecFloat.
From S2P Require Import Prelude RustString RustText Json Types Crypto SqliteBackend Sessions Federation LegacyStore.

Local Open Scope string_scope.
Local Open Scope list_scope.

(** ** Doubles *)

Module F64.
Definition f64 : Type := spec_float.
Definition of_Z (z : Z) : f64 := binary_normalize 53 1024 z 0 false.
Definition add : f64 → f64 → f64 := SFadd 53 1024.
Definition sub : f64 → f64 → f64 := SFsub 53 1024.
Definition mul : f64 → f64 → f64 := SFmul 53 1024.
Definition div : f64 → f64 → f64 := SFdiv 53 1024.

Definition is_nan (x : f64) : bool := match x with S754_nan => true | _ => false end.

(** [f64::max] and [f64::min]: of a NaN and a number the number. *)
Definition max (x y : f64) : f64 := if is_nan x then y else if SFltb x y then y else x.
Definition min (x y : f64) : f64 := if is_nan x then y else if SFltb y x then y else x.

Definition u64_max : Z := 2 ^ 64 - 1.

(** [as u64]: towards zero, saturating. *)
Definition to_u64 (x : f64) : Z :=
  match x with
  | S754_finite false m e => Z.min u64_max (Z.shiftl (Z.pos m) e)
  | S754_infinity false => u64_max
  | _ => 0
  end.

(** [Duration::as_secs_f64] of nanoseconds. *)
Definition secs_f64 (nanos : Z) : f64 :=
  add (of_Z (nanos / 1000000000)) (div (of_Z (nanos mod 1000000000)) (of_Z 1000000000)).
End F64.

(** ** Retry states *)

Module Retry.

Record RetryState : Type := mkRetry {
  failure_count : Z;
  max_retries : Z;
  backoff_min_secs : Z;
  backoff_max_secs : Z;
  jitter : bool;
}.

Definition DEFAULT_BACKOFF_MIN_SECS : Z := 60.
Definition DEFAULT_BACKOFF_MAX_SECS : Z := 3600.
Definition DEFAULT_MAX_RETRIES : Z := 5.

Definition with_config (retries min_secs max_secs : Z) : RetryState := mkRetry 0 retries min_secs max_secs false.

Definition new_retry : RetryState :=
  with_config DEFAULT_MAX_RETRIES DEFAULT_BACKOFF_MIN_SECS DEFAULT_BACKOFF_MAX_SECS.

Definition with_jitter (enabled : bool) (r : RetryState) : RetryState :=
  mkRetry (failure_count r) (max_retries r) (backoff_min_secs r) (backoff_max_secs r) enabled.

Definition u32_max : Z := 2 ^ 32 - 1.

Definition set_failures (n : Z) (r : RetryState) : RetryState :=
  mkRetry n (max_retries r) (backoff_min_secs r) (backoff_max_secs r) (jitter r).

(** In seconds. *)
Definition compute_backoff (r : RetryState) : Z :=
  if (failure_count r =? 0)%Z then 0%Z
  else
    let exponent := Z.min (failure_count r - 1) 31 in
    let backoff_secs := Z.min F64.u64_max (backoff_min_secs r * Z.shiftl 1 exponent) in
    let capped := Z.min backoff_secs (backoff_max_secs r) in
    if jitter r && (0 <? capped)%Z then
      let jitter_fraction := F64.div (F64.of_Z ((failure_count r * 7 + 13) mod 26)) (F64.of_Z 100) in
      F64.to_u64 (F64.max (F64.mul (F64.of_Z capped) (F64.sub (F64.of_Z 1) jitter_fraction)) (F64.of_Z 1))
    else capped.

Definition record_failure (r : RetryState) : Z * RetryState :=
  let r' := set_failures (Z.min u32_max (failure_count r + 1)) r in (compute_backoff r', r').

Definition record_success (r : RetryState) : RetryState := set_failures 0 r.

Definition can_retry (r : RetryState) : bool := (failure_count r <? max_retries r)%Z.

Definition exhausted (r : RetryState) : bool := (max_retries r <=? failure_count r)%Z.
End Retry.

(** ** Sending *)

Module Sender.
Import Retry.

Record WebhookSubscription : Type := mkSub {
  sub_id : string;
  sub_url : string;
  sub_event_types : list string;
  sub_secret : option string;
  sub_active : bool;
}.

(** The scheme of a URL, or the message of the parser. *)
Class UrlScheme : Type := { url_scheme : string → result string string }.

Definition validate `{UrlScheme} (s : WebhookSubscription) : result unit string :=
  match url_scheme (sub_url s) with
  | Err e => Err ("invalid webhook URL '" +:+ sub_url s +:+ "': " +:+ e)
  | Ok scheme =>
      if bool_decide (scheme = "http") || bool_decide (scheme = "https") then Ok tt
      else Err ("unsupported URL scheme '" +:+ scheme +:+ "' in webhook URL '" +:+ sub_url s
                +:+ "': only http and https are allowed")
  end.

Record DeliveryRecord : Type := mkDelivery {
  dr_id : string;
  dr_subscription_id : string;
  dr_event_type : string;
  dr_payload_hash : string;
  dr_status_code : Z;
  dr_success : bool;
  dr_attempt : Z;
  dr_error : option string;
  dr_timestamp : timestamp;
}.

Inductive DeliveryStatus : Type := Success | Failed | Exhausted.

(** The log, oldest first. *)
Record DeliveryLog : Type := mkLog { dl_records : list DeliveryRecord; dl_max_capacity : nat }.

Definition DEFAULT_MAX_CAPACITY : nat := 10000.
Definition with_max_capacity (n : nat) : DeliveryLog := mkLog [] n.
Definition new_log : DeliveryLog := with_max_capacity DEFAULT_MAX_CAPACITY.

(** The oldest are dropped while there are too many. *)
Definition log_record (r : DeliveryRecord) (l : DeliveryLog) : DeliveryLog :=
  let rs := dl_records l ++ [r] in mkLog (drop (length rs - dl_max_capacity l) rs) (dl_max_capacity l).

Definition for_subscription (id : string) (l : DeliveryLog) : list DeliveryRecord :=
  filter (λ r, dr_subscription_id r = id) (dl_records l).

Definition recent (limit : nat) (l : DeliveryLog) : list DeliveryRecord := take limit (reverse (dl_records l)).

Definition delivery_status (r : DeliveryRecord) (retries : Z) : DeliveryStatus :=
  if dr_success r then Success else if (retries <=? dr_attempt r)%Z then Exhausted else Failed.

Definition success_count (l : DeliveryLog) : nat := length (filter (λ r, dr_success r = true) (dl_records l)).
Definition failure_count (l : DeliveryLog) : nat := length (filter (λ r, dr_success r = false) (dl_records l)).

Record WebhookSenderConfig : Type := mkSenderConfig {
  wsc_max_retries : Z;
  wsc_max_delivery_log_size : Z;
  wsc_connect_timeout_secs : Z;
  wsc_request_timeout_secs : Z;
  wsc_total_timeout_secs : Z;
}.

Definition default_sender_config : WebhookSenderConfig := mkSenderConfig 5 10000 5 30 300.

(** The retry states are parallel to the subscriptions. *)
Record WebhookSenderPlugin : Type := mkSender {
  ws_subscriptions : list WebhookSubscription;
  ws_delivery_log : DeliveryLog;
  ws_retry_states : list RetryState;
  ws_config : WebhookSenderConfig;
}.

Definition with_config (c : WebhookSenderConfig) : WebhookSenderPlugin := mkSender [] new_log [] c.
Definition new_sender : WebhookSenderPlugin := with_config default_sender_config.

Definition subscribe (s : WebhookSubscription) (p : WebhookSenderPlugin) : WebhookSenderPlugin :=
  mkSender (ws_subscriptions p ++ [s]) (ws_delivery_log p) (ws_retry_states p ++ [new_retry]) (ws_config p).

Definition position (id : string) (p : WebhookSenderPlugin) : option nat :=
  fst <$> list_find (λ s, sub_id s = id) (ws_subscriptions p).

(** [Vec::remove], which panics outside the vector. *)
Definition vec_remove {A} (i : nat) (xs : list A) : option (list A) :=
  if bool_decide (i < length xs)%nat then Some (delete i xs) else None.

(** [None] is a panic, here and below. *)
Definition unsubscribe (id : string) (p : WebhookSenderPlugin) : option (bool * WebhookSenderPlugin) :=
  match position id p with
  | Some pos =>
      subs ← vec_remove pos (ws_subscriptions p); rs ← vec_remove pos (ws_retry_states p);
      Some (true, mkSender subs (ws_delivery_log p) rs (ws_config p))
  | None => Some (false, p)
  end.

Definition find_subscription (id : string) (p : WebhookSenderPlugin) : option WebhookSubscription :=
  snd <$> list_find (λ s, sub_id s = id) (ws_subscriptions p).

Definition matches (event_type : string) (s : WebhookSubscription) : bool :=
  sub_active s && existsb (λ t, bool_decide (t = event_type)) (sub_event_types s).

Definition matching_subscriptions (event_type : string) (p : WebhookSenderPlugin) : list WebhookSubscription :=
  filter (λ s, matches event_type s = true) (ws_subscriptions p).

(** [self.retry_states[pos]], changed in place. *)
Definition change_retry (id : string) (f : RetryState → RetryState) (p : WebhookSenderPlugin) :
    option WebhookSenderPlugin :=
  match position id p with
  | Some pos =>
      r ← ws_retry_states p !! pos;
      Some (mkSender (ws_subscriptions p) (ws_delivery_log p) (<[pos := f r]> (ws_retry_states p)) (ws_config p))
  | None => Some p
  end.

Definition logged (r : DeliveryRecord) (p : WebhookSenderPlugin) : WebhookSenderPlugin :=
  mkSender (ws_subscriptions p) (log_record r (ws_delivery_log p)) (ws_retry_states p) (ws_config p).

Section Records.
Context `{HmacHex} `{JsonText} (sha256 : bytes → bytes).

Definition hash_payload (payload : json) : string := hex_encode (sha256 (bytes_of (json_to_string payload))).

(** The id and the clock of a record are arguments. *)
Definition delivery_success (id : string) (now : timestamp) (subscription_id event_type : string) (payload : json)
    (status_code attempt : Z) : DeliveryRecord :=
  mkDelivery id subscription_id event_type (hash_payload payload) status_code true attempt None now.

Definition delivery_failure (id : string) (now : timestamp) (subscription_id event_type : string) (payload : json)
    (status_code attempt : Z) (error : string) : DeliveryRecord :=
  mkDelivery id subscription_id event_type (hash_payload payload) status_code false attempt (Some error) now.

Definition record_delivery_success (id : string) (now : timestamp) (subscription_id event_type : string)
    (payload : json) (status_code attempt : Z) (p : WebhookSenderPlugin) : option WebhookSenderPlugin :=
  change_retry subscription_id record_success
    (logged (delivery_success id now subscription_id event_type payload status_code attempt) p).

Definition retry_state (subscription_id : string) (p : WebhookSenderPlugin) : option (option RetryState) :=
  match position subscription_id p with
  | Some pos => Some <$> ws_retry_states p !! pos
  | None => Some None
  end.

Definition record_delivery_failure (id : string) (now : timestamp) (subscription_id event_type : string)
    (payload : json) (status_code attempt : Z) (error : string) (p : WebhookSenderPlugin) :
    option (bool * WebhookSenderPlugin) :=
  p' ← change_retry subscription_id (λ r, (record_failure r).2)
         (logged (delivery_failure id now subscription_id event_type payload status_code attempt error) p);
  r ← retry_state subscription_id p';
  Some (from_option can_retry false r, p').
End Records.

(** The log is kept. *)
Definition on_unload (p : WebhookSenderPlugin) : WebhookSenderPlugin :=
  mkSender [] (ws_delivery_log p) [] (ws_config p).

(** *** The rate limiter *)

Record TokenBucket : Type := mkBucket { tb_tokens : F64.f64; tb_last_refill : timestamp }.

Record RateLimiter : Type := mkLimiter {
  rl_buckets : gmap string TokenBucket;
  rl_tokens_per_sec : F64.f64;
  rl_burst : Z;
}.

Definition new_limiter (tokens_per_sec : F64.f64) (burst : Z) : RateLimiter := mkLimiter ∅ tokens_per_sec burst.

Definition acquire (url : string) (now : timestamp) (l : RateLimiter) : bool * RateLimiter :=
  let b := default (mkBucket (F64.of_Z (rl_burst l)) now) (rl_buckets l !! url) in
  (* [duration_since] is zero when the clock is behind *)
  let elapsed := F64.secs_f64 (Z.max 0 (now - tb_last_refill b)) in
  let tokens := F64.min (F64.add (tb_tokens b) (F64.mul elapsed (rl_tokens_per_sec l))) (F64.of_Z (rl_burst l)) in
  let take := SFleb (F64.of_Z 1) tokens in
  (take, mkLimiter (<[url := mkBucket (if take then F64.sub tokens (F64.of_Z 1) else tokens) now]> (rl_buckets l))
           (rl_tokens_per_sec l) (rl_burst l)).

(** *** Delivering an event *)

(** A POST as it is sent. *)
Record WebhookRequest : Type := mkWebhookRequest {
  wq_url : string;
  wq_headers : list (string * string);
  wq_body : string;
}.

Inductive Reaction : Type :=
| Answers (status : Z)
| NoAnswer (e : string).

Definition delivered (o : Reaction) : bool :=
  match o with
  | Answers status => (200 <=? status)%Z && (status <? 300)%Z
  | NoAnswer _ => false
  end.

(** How often the clock was read, what was sent and how it went, and the seconds slept. *)
Record World : Type := mkWorld {
  wd_reads : nat;
  wd_sent : list (WebhookRequest * Reaction);
  wd_slept : list Z;
}.

Section Delivery.
Context `{HmacHex} `{JsonText}.
Context (clock : nat → timestamp) (react : nat → WebhookRequest → Reaction).

Definition sign_payload (secret body : string) : string :=
  "sha256=" +:+ hex_encode (hmac_sha256 (bytes_of secret) (bytes_of body)).

Definition request_for (s : WebhookSubscription) (body : string) : WebhookRequest :=
  mkWebhookRequest (sub_url s)
    ([("content-type", "application/json"); ("user-agent", "LifeEngine-Webhook/1.0")]
     ++ match sub_secret s with
        | Some secret => [("x-webhook-signature", sign_payload secret body)]
        | None => []
        end) body.

Definition read_clock (w : World) : timestamp * World :=
  (clock (wd_reads w), mkWorld (S (wd_reads w)) (wd_sent w) (wd_slept w)).

Definition deliver (s : WebhookSubscription) (body : string) (w : World) : result Z string * World :=
  let rq := request_for s body in
  let o := react (length (wd_sent w)) rq in
  (match o with
   | Answers status => if delivered o then Ok status else Err ("HTTP " +:+ show_Z status)
   | NoAnswer e => Err e
   end, mkWorld (wd_reads w) (wd_sent w ++ [(rq, o)]) (wd_slept w)).

(** The attempts for one subscription. The number of the attempt is only logged. [None] when the
    fuel does not suffice. *)
Fixpoint attempts (fuel : nat) (deadline : timestamp) (s : WebhookSubscription) (body : string) (r : RetryState)
    (w : World) : option World :=
  match fuel with
  | O => None
  | S fuel' =>
      let '(now, w1) := read_clock w in
      if (deadline <=? now)%Z then Some w1
      else
        match deliver s body w1 with
        | (Ok _, w2) => Some w2
        | (Err _, w2) =>
            let '(backoff, r') := record_failure r in
            if can_retry r' then
              attempts fuel' deadline s body r' (mkWorld (wd_reads w2) (wd_sent w2) (wd_slept w2 ++ [backoff]))
            else Some w2
        end
  end.

(** Enough for every run. *)
Definition attempts_fuel (retries : Z) : nat := S (Z.to_nat retries).

Fixpoint deliver_each (c : WebhookSenderConfig) (deadline : timestamp) (body : string)
    (subs : list WebhookSubscription) (l : RateLimiter) (w : World) : option World :=
  match subs with
  | [] => Some w
  | s :: subs' =>
      let '(now, w1) := read_clock w in
      let '(ok, l') := acquire (sub_url s) now l in
      if ok then
        w2 ← attempts (attempts_fuel (wsc_max_retries c)) deadline s body
               (Retry.with_config (wsc_max_retries c) 1 60) w1;
        deliver_each c deadline body subs' l' w2
      else deliver_each c deadline body subs' l' w1
  end.

Definition event_body (event_type : string) (payload : json) (stamp : string) : string :=
  json_to_string (mk_obj [("event_type", JStr event_type); ("payload", payload); ("timestamp", JStr stamp)]).

(** How handling an event ends. *)
Inductive Handling : Type := Handled | Panicked.

(** The first time, in nanoseconds, that an [Instant] of Linux cannot hold: its seconds are an i64. *)
Definition INSTANT_LIMIT : timestamp := (2 ^ 63 * 1000000000)%Z.

(** [stamp] is the clock as the payload shows it. The addition for the deadline panics on overflow. *)
Definition handle_event (event_type : string) (payload : json) (stamp : string) (p : WebhookSenderPlugin)
    (w : World) : option (Handling * World) :=
  match matching_subscriptions event_type p with
  | [] => Some (Handled, w)
  | matching =>
      let '(now, w1) := read_clock w in
      let deadline := (now + wsc_total_timeout_secs (ws_config p) * 1000000000)%Z in
      if (INSTANT_LIMIT <=? deadline)%Z then Some (Panicked, w1)
      else
        w2 ← deliver_each (ws_config p) deadline (event_body event_type payload stamp) matching
               (new_limiter (F64.of_Z 10) 20) w1;
        Some (Handled, w2)
  end.
End Delivery.
End Sender.

(** ** Receiving *)

Module Receiver.

Record PayloadMapping : Type := mkMapping { pm_source_path : string; pm_target_field : string }.

Record WebhookEndpoint : Type := mkEndpoint {
  we_id : string;
  we_source_name : string;
  we_target_collection : string;
  we_secret : option string;
  we_payload_mappings : option (list PayloadMapping);
}.

Record WebhookReceivedEvent : Type := mkReceived {
  re_endpoint_id : string;
  re_source : string;
  re_collection : string;
  re_data : json;
  re_timestamp : timestamp;
}.

Definition WebhookReceiverPlugin : Type := list WebhookEndpoint.

Definition register_endpoint (e : WebhookEndpoint) (p : WebhookReceiverPlugin) : WebhookReceiverPlugin := p ++ [e].

Definition find_endpoint (id : string) (p : WebhookReceiverPlugin) : option WebhookEndpoint :=
  snd <$> list_find (λ e, we_id e = id) p.

Definition on_unload (p : WebhookReceiverPlugin) : WebhookReceiverPlugin := [].

(** [resolve_path] over the segments of the path. *)
Fixpoint resolve (segments : list string) (v : json) : option json :=
  match segments with
  | [] => Some v
  | k :: rest => json_get v k ≫= resolve rest
  end.

Definition resolve_path (v : json) (path : string) : option json := resolve (split "." path) v.

Definition apply_mapping (input : json) (output : object) (m : PayloadMapping) : object :=
  match resolve_path input (pm_source_path m) with
  | Some v => obj_insert (pm_target_field m) v output
  | None => output
  end.

Definition apply_mappings (input : json) (mappings : list PayloadMapping) : json :=
  JObj (foldl (apply_mapping input) [] mappings).

Section Process.
Context `{HmacHex} `{JsonText}.

Definition verify_hmac_sha256 (secret body signature : string) : result unit string :=
  match strip_prefix "sha256=" signature with
  | None => Err "signature must start with 'sha256='"
  | Some hex_sig =>
      match hex_decode hex_sig with
      | Err e => Err ("invalid hex in signature: " +:+ e)
      | Ok expected =>
          if bool_decide (hmac_sha256 (bytes_of secret) (bytes_of body) = expected) then Ok tt
          else Err "HMAC signature verification failed"
      end
  end.

Definition compute_hmac_sha256 (secret body : string) : string :=
  "sha256=" +:+ hex_encode (hmac_sha256 (bytes_of secret) (bytes_of body)).

Definition check_signature (e : WebhookEndpoint) (signature_header : option string) (raw_body : string) :
    result unit string :=
  match we_secret e with
  | None => Ok tt
  | Some secret =>
      match signature_header with
      | None => Err "missing signature header"
      | Some sig => verify_hmac_sha256 secret raw_body sig
      end
  end.

Definition process_webhook (endpoint_id : string) (signature_header : option string) (raw_body : string)
    (now : timestamp) (p : WebhookReceiverPlugin) : result WebhookReceivedEvent string :=
  match find_endpoint endpoint_id p with
  | None => Err ("unknown webhook endpoint: " +:+ endpoint_id)
  | Some e =>
      let? _ := check_signature e signature_header raw_body in
      match json_from_str raw_body with
      | Err msg => Err ("invalid JSON in webhook body: " +:+ msg)
      | Ok body =>
          Ok (mkReceived endpoint_id (we_source_name e) (we_target_collection e)
                (match we_payload_mappings e with
                 | Some ms => apply_mappings body ms
                 | None => body
                 end) now)
      end
  end.
End Process.
End Receiver.

(** ** The inbound transport *)

Module Inbound.

Definition CONTENT_TYPE_JSON : string := "application/json".
Definition MAX_TIMESTAMP_AGE_SECS : Z := 300.
Definition HEADER_SIGNATURE : string := "x-webhook-signature".
Definition HEADER_TIMESTAMP : string := "x-webhook-timestamp".
Definition HEADER_IDEMPOTENCY_KEY : string := "x-idempotency-key".

Record WebhookTransportConfig : Type := mkInboundConfig {
  wt_host : string;
  wt_port : Z;
  wt_base_path : string;
  wt_secret : option string;
  wt_max_seen_keys : nat;
}.

Definition default_inbound_config : WebhookTransportConfig :=
  mkInboundConfig "127.0.0.1" 3001 "/webhooks" None 10000.

Definition bind_address (c : WebhookTransportConfig) : string := wt_host c +:+ ":" +:+ show_Z (wt_port c).

Definition inbound_route (c : WebhookTransportConfig) : string := wt_base_path c +:+ "/inbound".

Record WebhookState : Type := mkWebhookState {
  st_secret : option string;
  st_seen_keys : gset string;
  st_max_seen_keys : nat;
}.

Definition create_state (c : WebhookTransportConfig) : WebhookState :=
  mkWebhookState (wt_secret c) ∅ (wt_max_seen_keys c).

Definition set_seen (keys : gset string) (s : WebhookState) : WebhookState :=
  mkWebhookState (st_secret s) keys (st_max_seen_keys s).

(** Whether the key was there already. *)
Definition check_and_record_key (key : string) (s : WebhookState) : bool * WebhookState :=
  if bool_decide (key ∈ st_seen_keys s) then (true, s)
  else
    let seen := if bool_decide (st_max_seen_keys s ≤ size (st_seen_keys s))%nat then ∅ else st_seen_keys s in
    (false, set_seen ({[key]} ∪ seen) s).

Definition Headers : Type := list (string * string).

(** [HeaderValue::to_str]: visible ASCII and tabs. *)
Definition visible (c : ascii) : bool := in_range 32 126 c || bool_decide (c = "009"%char).

Definition header (h : Headers) (name : string) : option string :=
  match list_find (λ kv : string * string, kv.1 = name) h with
  | Some (_, (_, v)) => if all_chars visible v then Some v else None
  | None => None
  end.

Record HttpAnswer : Type := mkAnswer { an_status : Z; an_text : string }.

#[export] Instance http_answer_eq_dec : EqDecision HttpAnswer.
Proof. solve_decision. Defined.

Definition validate_content_type (h : Headers) : result unit HttpAnswer :=
  match header h "content-type" with
  | Some ct =>
      if starts_with ct CONTENT_TYPE_JSON then Ok tt
      else Err (mkAnswer 415 ("Expected Content-Type: " +:+ CONTENT_TYPE_JSON +:+ ", got: " +:+ ct))
  | None => Err (mkAnswer 415 "Missing Content-Type header")
  end.

Definition diff_bytes (a b : bytes) : N :=
  foldl (λ diff xy, N.lor diff (N.lxor (Byte.to_N xy.1) (Byte.to_N xy.2))) 0%N (zip a b).

Definition constant_time_eq (a b : bytes) : bool :=
  if negb (bool_decide (length a = length b)) then false else bool_decide (diff_bytes a b = 0%N).

Section Handle.
Context `{HmacHex}.

Definition verify_signature (h : Headers) (body secret : string) : result unit HttpAnswer :=
  match header h HEADER_SIGNATURE with
  | None => Err (mkAnswer 401 ("Missing " +:+ HEADER_SIGNATURE +:+ " header"))
  | Some signature =>
      let expected := hex_encode (hmac_sha256 (bytes_of secret) (bytes_of body)) in
      let provided := default signature (strip_prefix "sha256=" signature) in
      if constant_time_eq (bytes_of provided) (bytes_of expected) then Ok tt
      else Err (mkAnswer 401 "Invalid webhook signature")
  end.

(** [None] is a panic: [i64] arithmetic that overflows, in a build with overflow checks. *)
Definition checked_i64 (checks : bool) (z : Z) : option Z :=
  if checks && negb ((- 2 ^ 63 <=? z)%Z && (z <? 2 ^ 63)%Z) then None else Some (wrap_i64 z).

(** [now] is in seconds. *)
Definition validate_timestamp (checks : bool) (now : Z) (h : Headers) : option (result unit HttpAnswer) :=
  match header h HEADER_TIMESTAMP with
  | None => Some (Ok tt)
  | Some ts_str =>
      match parse_i64 ts_str with
      | None => Some (Err (mkAnswer 400 ("Invalid " +:+ HEADER_TIMESTAMP +:+ " value")))
      | Some ts =>
          delta ← checked_i64 checks (now - ts);
          age ← checked_i64 checks (Z.abs delta);
          Some (if (MAX_TIMESTAMP_AGE_SECS <? age)%Z
                then Err (mkAnswer 403 ("Webhook timestamp too old: " +:+ show_Z age +:+ "s exceeds "
                                        +:+ show_Z MAX_TIMESTAMP_AGE_SECS +:+ "s limit"))
                else Ok tt)
      end
  end.

Definition ACCEPTED : HttpAnswer := mkAnswer 200 "Webhook accepted".
Definition DUPLICATE : HttpAnswer := mkAnswer 200 "Duplicate delivery, already processed".

(** The checks before the idempotency key, in order. *)
Definition checked (checks : bool) (now : Z) (h : Headers) (body : string) (s : WebhookState) :
    option (result unit HttpAnswer) :=
  match validate_content_type h with
  | Err a => Some (Err a)
  | Ok _ =>
      match (match st_secret s with Some secret => verify_signature h body secret | None => Ok tt end) with
      | Err a => Some (Err a)
      | Ok _ => validate_timestamp checks now h
      end
  end.

Definition handle_webhook (checks : bool) (now : Z) (h : Headers) (body : string) (s : WebhookState) :
    option HttpAnswer * WebhookState :=
  match checked checks now h body s with
  | None => (None, s)
  | Some (Err a) => (Some a, s)
  | Some (Ok _) =>
      match header h HEADER_IDEMPOTENCY_KEY with
      | Some key =>
          let '(seen, s') := check_and_record_key key s in (Some (if seen then DUPLICATE else ACCEPTED), s')
      | None => (Some ACCEPTED, s)
      end
  end.
End Handle.

Inductive WebhookError : Type :=
| DeliveryFailed (m : string)
| BindFailed (m : string)
| InvalidConfig (m : string)
| SignatureInvalid (m : string)
| TimestampExpired (m : string)
| InvalidContentType (m : string)
| DuplicateDelivery (m : string).

Definition webhook_error_code (e : WebhookError) : string :=
  match e with
  | DeliveryFailed _ => "TRANSPORT_WEBHOOK_001"
  | BindFailed _ => "TRANSPORT_WEBHOOK_002"
  | InvalidConfig _ => "TRANSPORT_WEBHOOK_003"
  | SignatureInvalid _ => "TRANSPORT_WEBHOOK_004"
  | TimestampExpired _ => "TRANSPORT_WEBHOOK_005"
  | InvalidContentType _ => "TRANSPORT_WEBHOOK_006"
  | DuplicateDelivery _ => "TRANSPORT_WEBHOOK_007"
  end.

Definition webhook_error_severity (e : WebhookError) : Severity :=
  match e with
  | DeliveryFailed _ => Retryable
  | _ => Fatal
  end.
End Inbound.
