(* ===== verification/WebhooksFacts.v ===== *)
(** * Properties of webhooks

    The inbound transport accepts only what is signed and fresh, and a key once while its memory
    lasts; what the sender posts is accepted at the other end; the delivery of an event ends; the
    parallel vectors of the sender are one list of pairs. *)

From stdpp Require Import base tactics list gmap sets strings.
From Stdlib Require Import Ascii ZArith Lia SpecFloat.
From S2P Require Import Prelude RustString RustText Json Types Crypto SqliteBackend Sessions Federation LegacyStore PluginLoadingFacts Webhooks.

Local Open Scope string_scope.
Local Open Scope list_scope.

(** ** The inbound transport *)

Module InboundFacts.
Import Inbound.

Lemma diff_bytes_zero a b : length a = length b → diff_bytes a b = 0%N ↔ a = b.
Proof.
  unfold diff_bytes. enough (∀ acc, length a = length b →
    foldl (λ diff xy, N.lor diff (N.lxor (Byte.to_N xy.1) (Byte.to_N xy.2))) acc (zip a b) = 0%N ↔ acc = 0%N ∧ a = b) as He.
  { intros Hl. rewrite He by done. naive_solver. }
  revert b. induction a as [|x a IH]; intros [|y b] acc; cbn; try done; [naive_solver|]. intros [= Hl].
  rewrite IH by done. rewrite N.lor_eq_0_iff, N.lxor_eq_0_iff. split.
  - intros [[-> Hxy] ->]. split; [done|]. f_equal. apply (f_equal Byte.of_N) in Hxy. rewrite !Byte.of_to_N in Hxy.
    by injection Hxy.
  - by intros [-> [= -> ->]].
Qed.

(** The comparison in constant time is equality. *)
Lemma constant_time_is_equality a b : constant_time_eq a b = bool_decide (a = b).
Proof.
  unfold constant_time_eq. case_bool_decide as Hl; cbn.
  - apply bool_decide_ext. by apply diff_bytes_zero.
  - rewrite bool_decide_eq_false_2; [done|]. by intros ->.
Qed.

Lemma bytes_of_inj a b : bytes_of a = bytes_of b → a = b.
Proof.
  unfold bytes_of. intros He. apply (f_equal String.string_of_list_byte) in He.
  by rewrite !String.string_of_list_byte_of_string in He.
Qed.

Lemma header_cons k v h name :
  header ((k, v) :: h) name = if bool_decide (k = name) then (if all_chars visible v then Some v else None) else header h name.
Proof.
  unfold header. cbn. rewrite decide_bool_decide. destruct (bool_decide (k = name)); [done|].
  by destruct (list_find _ h) as [[i [k' v']]|].
Qed.

Section Facts.
Context `{HmacHex}.

(** The signature of a body in hex. *)
Definition hex_signature (secret body : string) : string :=
  hex_encode (hmac_sha256 (bytes_of secret) (bytes_of body)).

Lemma verify_signature_exact h body secret :
  verify_signature h body secret = Ok tt ↔
  ∃ sig, header h HEADER_SIGNATURE = Some sig ∧ default sig (strip_prefix "sha256=" sig) = hex_signature secret body.
Proof.
  unfold verify_signature. destruct (header h HEADER_SIGNATURE) as [sig|]; [|naive_solver].
  rewrite constant_time_is_equality. case_bool_decide as He.
  - split; [|done]. intros _. exists sig. split; [done|]. by apply bytes_of_inj.
  - split; [done|]. intros (sig' & [= <-] & Hs). by rewrite Hs in He.
Qed.

Lemma content_type_exact h :
  validate_content_type h = Ok tt ↔ ∃ ct, header h "content-type" = Some ct ∧ starts_with ct CONTENT_TYPE_JSON = true.
Proof.
  unfold validate_content_type. destruct (header h "content-type") as [ct|]; [|naive_solver].
  destruct (starts_with ct _) eqn:E; split; try done; [by eexists|]. intros (ct' & [= <-] & ?). congruence.
Qed.

Lemma parse_i64_range s ts : parse_i64 s = Some ts → (- 2 ^ 63 ≤ ts < 2 ^ 63)%Z.
Proof.
  unfold parse_i64. destruct (match strip_prefix "-" s with Some b => _ | None => _ end) as [sign body].
  destruct (is_empty body); [done|]. destruct (digits_value 0 body) as [v|]; [|done].
  destruct (_ && _) eqn:E; [|done]. intros [= <-]. apply andb_true_iff in E as [E1%Z.leb_le E2%Z.ltb_lt]. lia.
Qed.

Lemma wrap_i64_small z : (- 2 ^ 63 ≤ z < 2 ^ 63)%Z → wrap_i64 z = z.
Proof. intros Hz. unfold wrap_i64. rewrite Z.mod_small; lia. Qed.

Lemma wrap_i64_large z : (2 ^ 63 ≤ z < 2 ^ 63 + 2 ^ 64)%Z → wrap_i64 z = (z - 2 ^ 64)%Z.
Proof. intros Hz. unfold wrap_i64. rewrite <- (Z.mod_unique_pos (z + 2 ^ 63) (2 ^ 64) 1 (z + 2 ^ 63 - 2 ^ 64)); lia. Qed.

Definition in_i64 (z : Z) : bool := (- 2 ^ 63 <=? z)%Z && (z <? 2 ^ 63)%Z.

(** What passes the check is fresh, except one value of the past where the subtraction wraps. *)
Lemma timestamp_fresh checks now h :
  (0 ≤ now < 2 ^ 62)%Z → validate_timestamp checks now h = Some (Ok tt) →
  ∀ text, header h HEADER_TIMESTAMP = Some text →
    ∃ ts, parse_i64 text = Some ts ∧ (Z.abs (now - ts) ≤ MAX_TIMESTAMP_AGE_SECS ∨ checks = false ∧ ts = now - 2 ^ 63)%Z.
Proof.
  intros Hn Hv text Ht. unfold validate_timestamp in Hv. rewrite Ht in Hv.
  destruct (parse_i64 text) as [ts|] eqn:Ep; [|done]. exists ts. split; [done|]. apply parse_i64_range in Ep.
  apply bind_Some in Hv as (delta & Hd & Hv). apply bind_Some in Hv as (age & Ha & Hv).
  destruct (_ <? age)%Z eqn:El; [done|]. apply Z.ltb_ge in El. unfold MAX_TIMESTAMP_AGE_SECS in *.
  unfold checked_i64 in Hd, Ha. fold (in_i64 (now - ts)) in Hd. fold (in_i64 (Z.abs delta)) in Ha.
  destruct (in_i64 (now - ts)) eqn:Ei.
  - apply andb_true_iff in Ei as [Ei1%Z.leb_le Ei2%Z.ltb_lt]. rewrite andb_false_r in Hd. injection Hd as <-.
    rewrite wrap_i64_small in Ha by lia. left.
    destruct (checks && _); [done|]. injection Ha as <-. rewrite wrap_i64_small in El; lia.
  - rewrite andb_true_r in Hd. destruct checks; [done|]. injection Hd as <-.
    assert (2 ^ 63 ≤ now - ts)%Z as Hb.
    { apply andb_false_iff in Ei as [Ei%Z.leb_gt|Ei%Z.ltb_ge]; lia. }
    rewrite wrap_i64_large in Ha by lia. cbn in Ha. injection Ha as <-. right. split; [done|].
    destruct (decide (now - ts = 2 ^ 63)%Z) as [He|He]; [lia|]. rewrite wrap_i64_small in El; lia.
Qed.

(** *** Runs *)

Record Request : Type := mkRequest { rq_now : Z; rq_headers : Headers; rq_body : string }.

Definition answer_request (checks : bool) (r : Request) (s : WebhookState) : option HttpAnswer * WebhookState :=
  handle_webhook checks (rq_now r) (rq_headers r) (rq_body r) s.

(** The answers to a sequence of requests. *)
Fixpoint serve_requests (checks : bool) (rs : list Request) (s : WebhookState) :
    list (Request * option HttpAnswer) * WebhookState :=
  match rs with
  | [] => ([], s)
  | r :: rs' =>
      let '(a, s1) := answer_request checks r s in
      let '(answers, s2) := serve_requests checks rs' s1 in ((r, a) :: answers, s2)
  end.

Definition key_of (r : Request) : option string := header (rq_headers r) HEADER_IDEMPOTENCY_KEY.

(** The keys under which deliveries were accepted, in order. *)
Definition accepted_keys (answers : list (Request * option HttpAnswer)) : list string :=
  omap (λ ra : Request * option HttpAnswer, if bool_decide (ra.2 = Some ACCEPTED) then key_of ra.1 else None) answers.

(** What an accepted request is. *)
Definition authentic (checks : bool) (secret : option string) (r : Request) : Prop :=
  (∃ ct, header (rq_headers r) "content-type" = Some ct ∧ starts_with ct CONTENT_TYPE_JSON = true) ∧
  (∀ k, secret = Some k → ∃ sig, header (rq_headers r) HEADER_SIGNATURE = Some sig ∧
     default sig (strip_prefix "sha256=" sig) = hex_signature k (rq_body r)) ∧
  (∀ text, header (rq_headers r) HEADER_TIMESTAMP = Some text →
     ∃ ts, parse_i64 text = Some ts ∧
       (Z.abs (rq_now r - ts) ≤ MAX_TIMESTAMP_AGE_SECS ∨ checks = false ∧ ts = rq_now r - 2 ^ 63)%Z).

Lemma checked_authentic checks r s :
  (0 ≤ rq_now r < 2 ^ 62)%Z → checked checks (rq_now r) (rq_headers r) (rq_body r) s = Some (Ok tt) →
  authentic checks (st_secret s) r.
Proof.
  intros Hn. unfold checked. destruct (validate_content_type (rq_headers r)) as [[]|] eqn:Ec; [|done].
  apply content_type_exact in Ec. intros Hc. split; [done|].
  destruct (st_secret s) as [k|].
  - destruct (verify_signature (rq_headers r) (rq_body r) k) as [[]|] eqn:Es; [|done]. apply verify_signature_exact in Es.
    split; [by intros k' [= <-]|]. by apply timestamp_fresh.
  - split; [done|]. by apply timestamp_fresh.
Qed.

Lemma checked_refuses checks now h body s a : checked checks now h body s = Some (Err a) → an_status a ≠ 200%Z.
Proof.
  unfold checked, validate_content_type, verify_signature, validate_timestamp. intros Hc.
  repeat (case_match || simplify_eq || apply bind_Some in Hc as (? & _ & Hc)); done.
Qed.

Lemma answer_accepted checks r s s' :
  (0 ≤ rq_now r < 2 ^ 62)%Z → answer_request checks r s = (Some ACCEPTED, s') → authentic checks (st_secret s) r.
Proof.
  intros Hn. unfold answer_request, handle_webhook. destruct (checked _ _ _ _ s) as [[[]|a]|] eqn:Ec; [|..].
  - intros _. by apply checked_authentic.
  - intros [= -> <-]. by apply checked_refuses in Ec.
  - done.
Qed.

(** How a request changes the keys. *)
Lemma answer_keys checks r s a s' :
  answer_request checks r s = (a, s') →
  st_secret s' = st_secret s ∧ st_max_seen_keys s' = st_max_seen_keys s ∧
  match key_of r with
  | Some k =>
      if bool_decide (a = Some ACCEPTED)
      then k ∉ st_seen_keys s ∧
           st_seen_keys s' = {[k]} ∪ (if bool_decide (st_max_seen_keys s ≤ size (st_seen_keys s))%nat then ∅ else st_seen_keys s)
      else s' = s
  | None => s' = s
  end.
Proof.
  unfold answer_request, handle_webhook, key_of. destruct (checked _ _ _ _ s) as [[[]|e]|] eqn:Ec.
  - destruct (header (rq_headers r) HEADER_IDEMPOTENCY_KEY) as [k|]; [|by intros [= <- <-]].
    unfold check_and_record_key. case_bool_decide as Hk; intros [= <- <-]; [done|].
    by rewrite (bool_decide_eq_true_2 (Some ACCEPTED = _)).
  - intros [= <- <-]. split_and!; [done..|]. destruct (header _ _); [|done]. case_bool_decide as He; [|done].
    injection He as ->. by apply checked_refuses in Ec.
  - intros [= <- <-]. split_and!; [done..|]. by destruct (header _ _).
Qed.

Lemma serve_secret checks rs s : st_secret (serve_requests checks rs s).2 = st_secret s.
Proof.
  revert s. induction rs as [|r rs IH]; intros s; [done|]. cbn. destruct (answer_request checks r s) as [a s1] eqn:Ea.
  destruct (answer_keys _ _ _ _ _ Ea) as [Hs _]. specialize (IH s1).
  destruct (serve_requests checks rs s1). cbn in *. congruence.
Qed.

Lemma serve_authentic checks rs s r :
  Forall (λ r, 0 ≤ rq_now r < 2 ^ 62)%Z rs → (r, Some ACCEPTED) ∈ (serve_requests checks rs s).1 →
  authentic checks (st_secret s) r.
Proof.
  revert s. induction rs as [|r0 rs IH]; intros s; cbn; [by intros _ ?%elem_of_nil|]. intros [Hn Hrs]%Forall_cons.
  destruct (answer_request checks r0 s) as [a s1] eqn:Ea. destruct (answer_keys _ _ _ _ _ Ea) as [Hs _].
  specialize (IH s1 Hrs). destruct (serve_requests checks rs s1) as [l s2]. cbn in *.
  intros [[= -> <-]|Hr]%elem_of_cons; [by eapply answer_accepted|]. rewrite <- Hs. by apply IH.
Qed.

(** The memory of keys is bounded. *)
Lemma serve_bounded checks rs s :
  (size (st_seen_keys s) ≤ Nat.max 1 (st_max_seen_keys s))%nat →
  (size (st_seen_keys (serve_requests checks rs s).2) ≤ Nat.max 1 (st_max_seen_keys s))%nat.
Proof.
  revert s. induction rs as [|r rs IH]; intros s Hs; [done|]. cbn. destruct (answer_request checks r s) as [a s1] eqn:Ea.
  destruct (answer_keys _ _ _ _ _ Ea) as (_ & Hm & Hk). rewrite <- Hm in *. specialize (IH s1).
  destruct (serve_requests checks rs s1) as [l s2]. cbn in *. apply IH. clear IH.
  destruct (key_of r) as [k|]; [|by subst s1]. destruct (bool_decide (a = _)); [|by subst s1].
  destruct Hk as [Hn ->]. case_bool_decide as Hf.
  - rewrite union_empty_r_L, size_singleton. lia.
  - rewrite size_union_alt. assert (size ({[k]} : gset string) = 1) as -> by apply size_singleton.
    assert (size (st_seen_keys s ∖ {[k]}) ≤ size (st_seen_keys s))%nat by (apply subseteq_size; set_solver). lia.
Qed.

(** Until the memory is full no key is accepted twice. *)
Lemma serve_once checks rs s :
  (size (st_seen_keys s) + length (accepted_keys (serve_requests checks rs s).1) ≤ st_max_seen_keys s)%nat →
  NoDup (accepted_keys (serve_requests checks rs s).1) ∧
  ∀ k, k ∈ accepted_keys (serve_requests checks rs s).1 → k ∉ st_seen_keys s.
Proof.
  revert s. induction rs as [|r rs IH]; intros s Hl; cbn in *; [split; [constructor|by intros k ?%elem_of_nil]|].
  destruct (answer_request checks r s) as [a s1] eqn:Ea. destruct (answer_keys _ _ _ _ _ Ea) as (_ & Hm & Hk).
  specialize (IH s1). destruct (serve_requests checks rs s1) as [l s2]. cbn in *. unfold accepted_keys in *. cbn in *.
  destruct (bool_decide (a = Some ACCEPTED)) eqn:Eb.
  - destruct (key_of r) as [k|] eqn:Ek; cbn in *.
    + destruct Hk as [Hn Hs1]. rewrite bool_decide_eq_false_2 in Hs1 by lia.
      assert (size (st_seen_keys s1) = S (size (st_seen_keys s))) as Hsz.
      { rewrite Hs1, size_union, size_singleton by set_solver. lia. }
      destruct (IH ltac:(lia)) as [Hd Hi]. rewrite Hs1 in Hi. split.
      * constructor; [|done]. intros Hk%Hi. set_solver.
      * intros k' [->|Hk']%elem_of_cons; [done|]. apply Hi in Hk'. set_solver.
    + subst s1. apply IH. lia.
  - destruct (key_of r) as [k|]; subst s1; apply IH; lia.
Qed.
End Facts.
End InboundFacts.
Import InboundFacts.

(** C27. The inbound transport over any sequence of requests. Whatever it accepts is JSON by its
    content type, carries the signature of its body under the configured secret, and if it has a
    timestamp that is a number within five minutes of the clock (or, in a build without overflow
    checks, exactly [2^63] seconds before it); the keys it remembers stay within the limit; and as
    long as it has accepted no more keys than it remembers, none of them was accepted twice. *)
Theorem accepted_webhooks_authentic `{HmacHex} checks rs s answers s' :
  Forall (λ r, 0 ≤ rq_now r < 2 ^ 62)%Z rs → Inbound.st_seen_keys s = ∅ →
  serve_requests checks rs s = (answers, s') →
  (∀ r, (r, Some Inbound.ACCEPTED) ∈ answers → authentic checks (Inbound.st_secret s) r) ∧
  (size (Inbound.st_seen_keys s') ≤ Nat.max 1 (Inbound.st_max_seen_keys s))%nat ∧
  ((length (accepted_keys answers) ≤ Inbound.st_max_seen_keys s)%nat → NoDup (accepted_keys answers)).
Proof.
  intros Hn He Hs. split_and!.
  - intros r Hr. apply (serve_authentic checks rs); [done|]. by rewrite Hs.
  - pose proof (serve_bounded checks rs s) as Hb. rewrite Hs in Hb. apply Hb. rewrite He, size_empty. lia.
  - intros Hl. pose proof (serve_once checks rs s) as Ho. rewrite Hs in Ho. cbn [fst] in Ho. apply Ho. by rewrite He, size_empty.
Qed.

(** ** From sender to receiver *)

(** What hex writes can be sent as a header. *)
Class HexText `{HmacHex} : Prop := { hex_visible b : all_chars Inbound.visible (hex_encode b) = true }.

(** What the sender posts arrives: the request for a subscription is accepted by an inbound
    transport with the same secret, whatever it has seen, and an endpoint of the receiver with
    that secret takes its signature and reads the event, with the payload as it was. *)
Theorem sent_webhook_accepted `{HmacHex} `{!HmacHexLaws} `{!HexText} `{JsonText} `{!JsonTextLaws}
    checks now st sub secret event_type payload stamp e p :
  json_within 126 payload → Sender.sub_secret sub = Some secret → Inbound.st_secret st = Some secret →
  Receiver.find_endpoint (Receiver.we_id e) p = Some e → Receiver.we_secret e = Some secret →
  Receiver.we_payload_mappings e = None →
  let rq := Sender.request_for sub (Sender.event_body event_type payload stamp) in
  Inbound.handle_webhook checks now (Sender.wq_headers rq) (Sender.wq_body rq) st = (Some Inbound.ACCEPTED, st) ∧
  Receiver.process_webhook (Receiver.we_id e) (Inbound.header (Sender.wq_headers rq) Inbound.HEADER_SIGNATURE)
    (Sender.wq_body rq) now p
  = Ok (Receiver.mkReceived (Receiver.we_id e) (Receiver.we_source_name e) (Receiver.we_target_collection e)
          (mk_obj [("event_type", JStr event_type); ("payload", payload); ("timestamp", JStr stamp)]) now).
Proof.
  intros Hc Hs Hst He Hes Hem. set (body := Sender.event_body event_type payload stamp).
  unfold Sender.request_for. rewrite Hs. cbn zeta. cbn [Sender.wq_headers Sender.wq_body app].
  set (h := [_; _; _]).
  assert (Inbound.header h Inbound.HEADER_SIGNATURE = Some (Sender.sign_payload secret body)) as Hsig.
  { unfold h. do 2 (rewrite header_cons, bool_decide_eq_false_2 by done). rewrite header_cons, bool_decide_eq_true_2 by done.
    unfold Sender.sign_payload. cbn [String.append all_chars]. by rewrite hex_visible. }
  assert (∀ name, name ∉ h.*1 → Inbound.header h name = None) as Hno.
  { intros name Hn. unfold h in *. rewrite !header_cons, !bool_decide_eq_false_2 by set_solver. done. }
  split.
  - unfold Inbound.handle_webhook, Inbound.checked. rewrite Hst.
    assert (Inbound.verify_signature h body secret = Ok tt) as ->.
    { apply verify_signature_exact. eexists. split; [exact Hsig|]. done. }
    cbn. done.
  - unfold Receiver.process_webhook, Receiver.check_signature. rewrite He, Hes, Hsig, Hem.
    unfold Receiver.verify_hmac_sha256, Sender.sign_payload. cbn [strip_prefix String.append].
    rewrite !bool_decide_eq_true_2 by done. rewrite hex_roundtrip, bool_decide_eq_true_2 by done. cbn [result_bind].
    unfold body, Sender.event_body. rewrite json_print_parse; [done|]. apply printable_mk_obj.
    intros k v Hkv. repeat (apply elem_of_cons in Hkv as [[= -> ->]|Hkv]; [done|]). by apply elem_of_nil in Hkv.
Qed.

(** ** The delivery of events *)

Module DeliveryFacts.
Import Retry Sender.

Lemma backoff_within r :
  jitter r = false → (0 ≤ backoff_min_secs r)%Z → (0 ≤ backoff_max_secs r)%Z → (0 ≤ Retry.failure_count r)%Z →
  (0 ≤ compute_backoff r ≤ backoff_max_secs r)%Z.
Proof.
  intros Hj H1 H2 H3. unfold compute_backoff. rewrite Hj. destruct (_ =? 0)%Z; [lia|]. cbn.
  assert (0 ≤ Z.shiftl 1 (Z.min (Retry.failure_count r - 1) 31))%Z by by apply Z.shiftl_nonneg.
  unfold F64.u64_max. nia.
Qed.

Section Delivery.
Context `{HmacHex} `{JsonText} (clock : nat → timestamp) (react : nat → WebhookRequest → Reaction).

(** The requests of one subscription: all alike, at most [n], and none after one that was taken. *)
Definition good_block (n : nat) (body : string) (s : WebhookSubscription)
    (block : list (WebhookRequest * Reaction)) : Prop :=
  (length block ≤ n)%nat ∧ Forall (λ x, x.1 = request_for s body) block ∧
  ∀ i x, block !! i = Some x → delivered x.2 = true → S i = length block.

(** How a delivery extends the world. *)
Definition extends (w w' : World) (block : list (WebhookRequest * Reaction)) (sleeps : list Z) : Prop :=
  wd_sent w' = wd_sent w ++ block ∧ wd_slept w' = wd_slept w ++ sleeps ∧ (length sleeps ≤ length block)%nat ∧
  Forall (λ t, 0 ≤ t ≤ 60)%Z sleeps.

Lemma extends_refl w w' : wd_sent w' = wd_sent w → wd_slept w' = wd_slept w → extends w w' [] [].
Proof. intros H1 H2. unfold extends. rewrite !app_nil_r. split_and!; [done..|constructor]. Qed.

Lemma extends_one w w' x : wd_sent w' = wd_sent w ++ [x] → wd_slept w' = wd_slept w → extends w w' [x] [].
Proof. intros H1 H2. unfold extends. rewrite app_nil_r. split_and!; [done..|cbn; lia|constructor]. Qed.

Lemma empty_block n body s : good_block n body s [].
Proof. split_and!; [cbn; lia|constructor|by intros i x Hx]. Qed.

Lemma single_block n body s o : (1 ≤ n)%nat → good_block n body s [(request_for s body, o)].
Proof.
  intros Hn. split_and!; [done|by apply Forall_singleton|].
  intros i x Hi _. by apply list_lookup_singleton_Some in Hi as [-> _].
Qed.

Lemma deliver_failed s body w e w2 :
  deliver react s body w = (Err e, w2) →
  ∃ o, delivered o = false ∧ wd_sent w2 = wd_sent w ++ [(request_for s body, o)] ∧ wd_slept w2 = wd_slept w.
Proof.
  unfold deliver. destruct (react _ _) as [status|e']; [destruct (delivered (Answers status)) eqn:Ed; [done|]|];
    intros [= _ <-]; eexists; (split; [|done]); done.
Qed.

Lemma attempts_end fuel deadline s body r w :
  (0 ≤ Retry.failure_count r)%Z → (max_retries r ≤ u32_max)%Z → backoff_min_secs r = 1%Z → backoff_max_secs r = 60%Z →
  jitter r = false → (Z.to_nat (max_retries r - Retry.failure_count r) < fuel)%nat →
  ∃ w' block sleeps, attempts clock react fuel deadline s body r w = Some w' ∧ extends w w' block sleeps ∧
    good_block (Nat.max 1 (Z.to_nat (max_retries r - Retry.failure_count r))) body s block.
Proof.
  revert r w. induction fuel as [|fuel IH]; intros r w Hf Hm H1 H2 Hj Hfuel; [lia|]. cbn [attempts read_clock].
  set (w1 := mkWorld (S (wd_reads w)) (wd_sent w) (wd_slept w)). destruct (deadline <=? _)%Z.
  { exists w1, [], []. split_and!; [done|by apply extends_refl|apply empty_block]. }
  destruct (deliver react s body w1) as [[status|e] w2] eqn:Ed.
  { exists w2, [(request_for s body, react (length (wd_sent w1)) (request_for s body))], [].
    injection Ed as _ <-. split_and!; [done|by apply extends_one|apply single_block; lia]. }
  apply deliver_failed in Ed as (o & Ho & Hs2 & Hl2). cbn [record_failure].
  set (r' := set_failures (Z.min u32_max (Retry.failure_count r + 1)) r).
  assert (Retry.failure_count r' = Z.min u32_max (Retry.failure_count r + 1)) as Hc by done.
  assert (0 ≤ Retry.failure_count r')%Z as Hc0 by (rewrite Hc; unfold u32_max; lia).
  pose proof (backoff_within r' Hj ltac:(cbn; lia) ltac:(cbn; lia) Hc0) as Hb.
  change (backoff_max_secs r') with (backoff_max_secs r) in Hb. rewrite H2 in Hb.
  destruct (can_retry r') eqn:Er.
  - apply Z.ltb_lt in Er. change (max_retries r') with (max_retries r) in Er.
    assert (Retry.failure_count r' = Retry.failure_count r + 1)%Z as Hc1 by (rewrite Hc in *; lia).
    edestruct (IH r' (mkWorld (wd_reads w2) (wd_sent w2) (wd_slept w2 ++ [compute_backoff r'])))
      as (w' & block & sleeps & Ha & (E1 & E2 & E3 & E4) & (G1 & G2 & G3)); [done..| |].
    { rewrite Hc1. cbn. lia. }
    exists w', ((request_for s body, o) :: block), (compute_backoff r' :: sleeps). rewrite Ha. cbn in E1, E2.
    change (max_retries r') with (max_retries r) in G1. rewrite Hc1 in G1. split_and!; [done| |split_and!].
    + split_and!; [rewrite E1, Hs2, <- app_assoc; done|rewrite E2, Hl2, <- app_assoc; done|cbn; lia|by constructor].
    + cbn. lia.
    + by constructor.
    + intros [|i] x Hi Hx; [by cbn in Hi; simplify_eq/=; rewrite Ho in Hx|]. cbn in Hi |- *. f_equal. by apply (G3 i x).
  - exists w2, [(request_for s body, o)], []. split_and!; [done|by apply extends_one|apply single_block; lia].
Qed.

Lemma deliver_each_end c deadline body subs l w :
  (0 ≤ wsc_max_retries c ≤ u32_max)%Z →
  ∃ w' blocks sleeps, deliver_each clock react c deadline body subs l w = Some w' ∧
    extends w w' (concat blocks) sleeps ∧
    Forall2 (good_block (Nat.max 1 (Z.to_nat (wsc_max_retries c))) body) subs blocks.
Proof.
  intros Hc. revert l w. induction subs as [|s subs IH]; intros l w.
  { exists w, [], []. split_and!; [done|by apply extends_refl|by constructor]. }
  cbn [deliver_each read_clock]. set (w1 := mkWorld (S (wd_reads w)) (wd_sent w) (wd_slept w)).
  destruct (acquire (sub_url s) _ l) as [[] l'].
  - edestruct (attempts_end (attempts_fuel (wsc_max_retries c)) deadline s body (Retry.with_config (wsc_max_retries c) 1 60) w1)
      as (w2 & block & sleeps & -> & (E1 & E2 & E3 & E4) & Hg); [done|cbn; lia|done..|unfold attempts_fuel; cbn; lia|].
    cbn [mbind option_bind]. destruct (IH l' w2) as (w' & blocks & sleeps' & -> & (F1 & F2 & F3 & F4) & Hbs).
    exists w', (block :: blocks), (sleeps ++ sleeps'). split_and!; [done| |].
    + split_and!; cbn [concat]; [rewrite F1, E1, <- app_assoc; done|rewrite F2, E2, <- app_assoc; done
        |rewrite !length_app; lia|by apply Forall_app].
    + constructor; [|done]. cbn in Hg. by rewrite Z.sub_0_r in Hg.
  - destruct (IH l' w1) as (w' & blocks & sleeps' & -> & (F1 & F2 & F3 & F4) & Hbs).
    exists w', ([] :: blocks), sleeps'. split_and!; [done|by split_and!|]. constructor; [apply empty_block|done].
Qed.
End Delivery.
End DeliveryFacts.
Import DeliveryFacts.

(** The deadline of an event is later than an [Instant] can be. *)
Definition deadline_overflows (clock : nat → timestamp) (event_type : string) (p : Sender.WebhookSenderPlugin)
    (w : Sender.World) : Prop :=
  Sender.matching_subscriptions event_type p ≠ [] ∧
  (2 ^ 63 * 1000000000 ≤ clock (Sender.wd_reads w) + Sender.wsc_total_timeout_secs (Sender.ws_config p) * 1000000000)%Z.

(** C28. Handling an event ends, whatever the clock and the other sides do. If a subscription
    matches and the deadline, now and the configured total timeout, cannot be represented, it
    panics before anything is sent. Otherwise each matching subscription in turn gets one block
    of identical requests, at most as many as retries are configured (one, if none are), of which
    only the last may have been taken; and between them it sleeps at most a minute each time, no
    more often than it sends. *)
Theorem event_delivery_ends `{HmacHex} `{JsonText} clock react event_type payload stamp p w :
  (0 ≤ Sender.wsc_max_retries (Sender.ws_config p) ≤ Retry.u32_max)%Z →
  (deadline_overflows clock event_type p w → ∃ w',
    Sender.handle_event clock react event_type payload stamp p w = Some (Sender.Panicked, w') ∧
    Sender.wd_sent w' = Sender.wd_sent w ∧ Sender.wd_slept w' = Sender.wd_slept w) ∧
  (¬ deadline_overflows clock event_type p w → ∃ w' blocks sleeps,
    Sender.handle_event clock react event_type payload stamp p w = Some (Sender.Handled, w') ∧
    Sender.wd_sent w' = Sender.wd_sent w ++ concat blocks ∧ Sender.wd_slept w' = Sender.wd_slept w ++ sleeps ∧
    Forall2 (good_block (Nat.max 1 (Z.to_nat (Sender.wsc_max_retries (Sender.ws_config p))))
               (Sender.event_body event_type payload stamp)) (Sender.matching_subscriptions event_type p) blocks ∧
    (length sleeps ≤ length (concat blocks))%nat ∧ Forall (λ t, 0 ≤ t ≤ 60)%Z sleeps).
Proof.
  intros Hc. unfold Sender.handle_event, deadline_overflows.
  destruct (Sender.matching_subscriptions event_type p) as [|s subs].
  { split; [by intros [? _]|]. intros _. exists w, [], []. split_and!; rewrite ?app_nil_r; done || constructor. }
  cbn [Sender.read_clock]. split.
  { intros [_ Hd]. destruct (Z.leb_spec Sender.INSTANT_LIMIT (clock (Sender.wd_reads w) +
      Sender.wsc_total_timeout_secs (Sender.ws_config p) * 1000000000)); [by eexists|unfold Sender.INSTANT_LIMIT in *; lia]. }
  intros Hd. destruct (Z.leb_spec Sender.INSTANT_LIMIT (clock (Sender.wd_reads w) +
    Sender.wsc_total_timeout_secs (Sender.ws_config p) * 1000000000)); [by destruct Hd|].
  edestruct (deliver_each_end clock react (Sender.ws_config p)) as (w' & blocks & sleeps & Hw & (E1 & E2 & E3 & E4) & Hg); [done|].
  exists w', blocks, sleeps. split_and!; [by rewrite Hw|exact E1|exact E2|done..].
Qed.

(** ** The sender's vectors *)

Module SenderFacts.
Import Retry Sender.

Section Steps.
Context `{HmacHex} `{JsonText} (sha256 : bytes → bytes).

Inductive SenderOp : Type :=
| OpSubscribe (s : WebhookSubscription)
| OpUnsubscribe (id : string)
| OpSuccess (id : string) (now : timestamp) (subscription_id event_type : string) (payload : json) (status_code attempt : Z)
| OpFailure (id : string) (now : timestamp) (subscription_id event_type : string) (payload : json) (status_code attempt : Z)
    (error : string)
| OpUnload.

(** [None] is a panic; with the answer of the operation, if it has one. *)
Definition sender_step (o : SenderOp) (p : WebhookSenderPlugin) : option (option bool * WebhookSenderPlugin) :=
  match o with
  | OpSubscribe s => Some (None, subscribe s p)
  | OpUnsubscribe id => (λ r : bool * WebhookSenderPlugin, (Some r.1, r.2)) <$> unsubscribe id p
  | OpSuccess id now sub et v status attempt =>
      pair None <$> record_delivery_success sha256 id now sub et v status attempt p
  | OpFailure id now sub et v status attempt e =>
      (λ r : bool * WebhookSenderPlugin, (Some r.1, r.2)) <$> record_delivery_failure sha256 id now sub et v status attempt e p
  | OpUnload => Some (None, on_unload p)
  end.

Fixpoint sender_run (os : list SenderOp) (p : WebhookSenderPlugin) : option (list (option bool) * WebhookSenderPlugin) :=
  match os with
  | [] => Some ([], p)
  | o :: os' => r ← sender_step o p; r' ← sender_run os' r.2; Some (r.1 :: r'.1, r'.2)
  end.
End Steps.

(** *** The specification: subscriptions with their failures since the last success *)

Definition Tracked : Type := WebhookSubscription * Z.

Definition first_at (id : string) (l : list Tracked) : option nat := fst <$> list_find (λ x, sub_id x.1 = id) l.

Definition set_count (f : Z → Z) (x : Tracked) : Tracked := (x.1, f x.2).

Definition count_up (n : Z) : Z := Z.min u32_max (n + 1).

Definition tracked_step (o : SenderOp) (l : list Tracked) : option bool * list Tracked :=
  match o with
  | OpSubscribe s => (None, l ++ [(s, 0%Z)])
  | OpUnsubscribe id => match first_at id l with Some i => (Some true, delete i l) | None => (Some false, l) end
  | OpSuccess _ _ sub _ _ _ _ =>
      (None, match first_at sub l with Some i => alter (set_count (λ _, 0%Z)) i l | None => l end)
  | OpFailure _ _ sub _ _ _ _ _ =>
      match first_at sub l with
      | Some i =>
          let l' := alter (set_count count_up) i l in
          (Some (from_option (λ x : Tracked, x.2 <? DEFAULT_MAX_RETRIES)%Z false (l' !! i)), l')
      | None => (Some false, l)
      end
  | OpUnload => (None, [])
  end.

Fixpoint tracked_run (os : list SenderOp) (l : list Tracked) : list (option bool) * list Tracked :=
  match os with
  | [] => ([], l)
  | o :: os' => let '(a, l1) := tracked_step o l in let '(answers, l2) := tracked_run os' l1 in (a :: answers, l2)
  end.

(** *** The two vectors hold the pairs *)

Definition retry_of (x : Tracked) : RetryState := set_failures x.2 new_retry.

Record Holds (p : WebhookSenderPlugin) (l : list Tracked) : Prop := mkHolds {
  ho_subscriptions : ws_subscriptions p = l.*1;
  ho_retries : ws_retry_states p = retry_of <$> l;
  ho_log : (length (dl_records (ws_delivery_log p)) ≤ dl_max_capacity (ws_delivery_log p))%nat;
}.

Lemma first_at_cons id x l : first_at id (x :: l) = if decide (sub_id x.1 = id) then Some 0 else S <$> first_at id l.
Proof.
  unfold first_at. cbn. case_decide; [done|]. by destruct (list_find (λ x : WebhookSubscription * Z, sub_id x.1 = id) l) as [[]|].
Qed.

(** Counting moves no entry. *)
Lemma first_at_alter id g i l : first_at id (alter (set_count g) i l) = first_at id l.
Proof.
  revert i. induction l as [|x l IH]; intros [|i]; [done|done| |]; cbn [alter list_alter].
  - by rewrite !first_at_cons.
  - rewrite !first_at_cons. change (list_alter (set_count g) i l) with (alter (set_count g) i l). by rewrite IH.
Qed.

Lemma position_first id p l : Holds p l → position id p = first_at id l.
Proof.
  intros [Hs _ _]. unfold position. rewrite Hs. clear Hs. induction l as [|[s n] l IH]; [done|].
  rewrite first_at_cons, <- IH. cbn. case_decide; [done|].
  by destruct (list_find (λ s : WebhookSubscription, sub_id s = id) l.*1) as [[]|].
Qed.

Lemma first_at_lookup id l i : first_at id l = Some i → ∃ x, l !! i = Some x.
Proof. intros ([j x] & Hf & ->)%fmap_Some. apply list_find_Some in Hf as (? & _). by exists x. Qed.

Lemma fmap_alter_same {A B} (g : A → B) f i (l : list A) : (∀ x, g (f x) = g x) → g <$> alter f i l = g <$> l.
Proof.
  intros Hg. apply list_eq. intros j. rewrite !list_lookup_fmap, list_lookup_alter. case_decide; [|done]. subst.
  destruct (l !! j) as [x|]; [cbn|done]. by rewrite Hg.
Qed.

Lemma fmap_alter_insert {A B} (g : A → B) f i (l : list A) x : l !! i = Some x → g <$> alter f i l = <[i := g (f x)]> (g <$> l).
Proof.
  intros Hx. apply list_eq. intros j. rewrite list_lookup_fmap, list_lookup_alter. case_decide.
  - subst. rewrite Hx, list_lookup_insert_eq; [done|]. rewrite length_fmap. by eapply lookup_lt_Some.
  - by rewrite list_lookup_insert_ne, list_lookup_fmap by done.
Qed.

Lemma logged_holds r p l : Holds p l → Holds (logged r p) l.
Proof.
  intros [H1 H2 H3]. split; [done|done|]. cbn. rewrite length_drop. lia.
Qed.

Lemma change_holds id f g p l :
  Holds p l → (∀ x, f (retry_of x) = retry_of (set_count g x)) →
  ∃ p', change_retry id f p = Some p' ∧
    Holds p' (match first_at id l with Some i => alter (set_count g) i l | None => l end).
Proof.
  intros Hh Hf. unfold change_retry. rewrite (position_first id p l Hh). destruct Hh as [H1 H2 H3].
  destruct (first_at id l) as [i|] eqn:Ei; [|by exists p]. destruct (first_at_lookup _ _ _ Ei) as [x Hx].
  rewrite H2, list_lookup_fmap, Hx. cbn [fmap option_fmap option_map mbind option_bind]. eexists. split; [done|].
  split; cbn; [|by rewrite (fmap_alter_insert _ _ _ _ x), Hf|done]. by rewrite fmap_alter_same.
Qed.

Lemma vec_remove_fmap {A B} (g : A → B) i (l : list A) : (i < length l)%nat → vec_remove i (g <$> l) = Some (g <$> delete i l).
Proof.
  intros Hi. unfold vec_remove. rewrite bool_decide_eq_true_2 by by rewrite length_fmap. f_equal.
  rewrite !delete_take_drop, fmap_app, fmap_take, fmap_drop. done.
Qed.

Section Refines.
Context `{HmacHex} `{JsonText} (sha256 : bytes → bytes).

Lemma step_holds o p l :
  Holds p l → ∃ p', sender_step sha256 o p = Some ((tracked_step o l).1, p') ∧ Holds p' (tracked_step o l).2.
Proof.
  intros Hh. destruct o as [s|id|id now sub et v status attempt|id now sub et v status attempt e|]; cbn [sender_step tracked_step].
  - eexists. split; [done|]. destruct Hh as [H1 H2 H3]. split; cbn; rewrite ?fmap_app, ?H1, ?H2; done.
  - unfold unsubscribe. rewrite (position_first id p l Hh). destruct (first_at id l) as [i|] eqn:Ei; [|by exists p].
    destruct (first_at_lookup _ _ _ Ei) as [x Hx%lookup_lt_Some]. destruct Hh as [H1 H2 H3].
    rewrite H1, H2, !vec_remove_fmap by done. eexists. split; [done|]. by split.
  - unfold record_delivery_success. edestruct (change_holds sub record_success (λ _, 0%Z)) as (p' & -> & Hp);
      [by apply logged_holds|done|]. by exists p'.
  - unfold record_delivery_failure. edestruct (change_holds sub (λ r, (record_failure r).2) count_up) as (p' & -> & Hp);
      [by apply logged_holds|done|]. cbn [mbind option_bind]. unfold retry_state. rewrite (position_first sub p' _ Hp).
    destruct (first_at sub l) as [i|] eqn:Ei.
    + rewrite first_at_alter, Ei.
      destruct Hp as [P1 P2 P3]. rewrite P2, list_lookup_fmap. destruct (first_at_lookup _ _ _ Ei) as [x Hx].
      rewrite list_lookup_alter_eq, Hx. cbn. exists p'. by split.
    + rewrite Ei. cbn. by exists p'.
  - eexists. split; [done|]. destruct Hh. by split.
Qed.
End Refines.
End SenderFacts.
Import SenderFacts.

(** The sender keeps subscriptions and retry states in two vectors. Over any operations they
    are one list of subscriptions with their failures since the last success: no operation
    indexes outside a vector, the answers are those of the list, and the log stays within its
    capacity. *)
Theorem sender_refines_pairs `{HmacHex} `{JsonText} sha256 c os :
  ∃ p, sender_run sha256 os (Sender.with_config c) = Some ((tracked_run os []).1, p) ∧ Holds p (tracked_run os []).2.
Proof.
  assert (∀ q l, Holds q l → ∃ p, sender_run sha256 os q = Some ((tracked_run os l).1, p) ∧ Holds p (tracked_run os l).2) as He;
    [|by apply He; split; cbn; try done; lia].
  induction os as [|o os IH]; intros q l Hh; cbn; [by exists q|].
  destruct (step_holds sha256 o q l Hh) as (p1 & -> & Hp1). cbn. destruct (tracked_step o l) as [a l1]. cbn in *.
  destruct (IH p1 l1 Hp1) as (p2 & -> & Hp2). cbn. destruct (tracked_run os l1). by exists p2.
Qed.

(** ** Instances for witnesses, and examples *)

Module WebhookToy.
Import PluginLoadingFacts.LoadingToy.

#[export] Instance toy_hex_laws : HmacHexLaws.
Proof. split. intros b. cbn. by rewrite unhex_back. Qed.

Lemma digit_visible n : Inbound.visible (digit n) = true.
Proof.
  unfold digit. generalize (N.to_nat n). intros k. do 16 (destruct k as [|k]; [vm_compute; reflexivity|]). reflexivity.
Qed.

#[export] Instance toy_hex_text : HexText.
Proof.
  split. intros b. cbn. induction b as [|x b IH]; [done|]. cbn [toy_hex all_chars]. by rewrite !digit_visible, IH.
Qed.

#[export] Instance toy_text : JsonText := coded_text.
#[export] Instance toy_text_laws : JsonTextLaws := coded_text_laws.

Definition hook : Sender.WebhookSubscription :=
  Sender.mkSub "s1" "https://peer.example/hooks" ["record.created"] (Some "k") true.

Definition endpoint : Receiver.WebhookEndpoint := Receiver.mkEndpoint "e1" "Peer" "notes" (Some "k") None.

Definition two_hooks : Sender.WebhookSenderPlugin :=
  Sender.subscribe (Sender.mkSub "s2" "https://second.example" ["record.created"] None true)
    (Sender.subscribe hook Sender.new_sender).

Definition idle : Sender.World := Sender.mkWorld 0 [] [].

(** A signed request with further headers. *)
Definition signed (now : Z) (more : Inbound.Headers) (body : string) : Request :=
  mkRequest now ([("content-type", "application/json"); ("x-webhook-signature", Sender.sign_payload "k" body)] ++ more) body.

Definition state (max : nat) : Inbound.WebhookState := Inbound.mkWebhookState (Some "k") ∅ max.

Definition keyed (key : string) : Request := signed 1700000000 [("x-idempotency-key", key)] "{}".

Definition texts (answers : list (Request * option Inbound.HttpAnswer)) : list (option string) :=
  (λ ra : Request * option Inbound.HttpAnswer, Inbound.an_text <$> ra.2) <$> answers.
End WebhookToy.
Import PluginLoadingFacts.LoadingToy WebhookToy.

Lemma sent_webhook_accepted_witness :
  let rq := Sender.request_for hook (Sender.event_body "record.created" (JStr "x") "2024-01-01T00:00:00Z") in
  Inbound.handle_webhook true 0 (Sender.wq_headers rq) (Sender.wq_body rq) (state 10) = (Some Inbound.ACCEPTED, state 10).
Proof.
  pose proof (sent_webhook_accepted true 0 (state 10) hook "k" "record.created" (JStr "x") "2024-01-01T00:00:00Z" endpoint
    [endpoint] I eq_refl eq_refl eq_refl eq_refl eq_refl) as Ha. exact (proj1 Ha).
Defined.

Lemma accepted_webhooks_authentic_witness :
  ∃ answers s', serve_requests true [keyed "a"; keyed "b"; keyed "a"] (state 10) = (answers, s') ∧
    texts answers = [Some "Webhook accepted"; Some "Webhook accepted"; Some "Duplicate delivery, already processed"] ∧
    NoDup (accepted_keys answers).
Proof.
  destruct (serve_requests true [keyed "a"; keyed "b"; keyed "a"] (state 10)) as [answers s'] eqn:E. exists answers, s'.
  split; [done|]. assert (accepted_keys answers = ["a"; "b"] ∧
    texts answers = [Some "Webhook accepted"; Some "Webhook accepted"; Some "Duplicate delivery, already processed"]) as [Ha Ht].
  { revert E. vm_compute. intros [= <- _]. done. }
  split; [done|]. apply (accepted_webhooks_authentic true [keyed "a"; keyed "b"; keyed "a"] (state 10) answers s');
    [|reflexivity|exact E|].
  - repeat (constructor; [cbn; lia|]). constructor.
  - rewrite Ha. cbn. lia.
Defined.

Lemma event_delivery_ends_witness :
  ∃ w', Sender.handle_event (λ _, 0%Z) (λ _ _, Sender.Answers 500) "record.created" JNull "t" two_hooks idle
    = Some (Sender.Handled, w') ∧
    length (Sender.wd_sent w') = 10 ∧ Sender.wd_slept w' = [1; 2; 4; 8; 1; 2; 4; 8]%Z.
Proof.
  destruct (event_delivery_ends (λ _, 0%Z) (λ _ _, Sender.Answers 500) "record.created" JNull "t" two_hooks idle)
    as [_ Hdone]; [cbn; unfold Retry.u32_max; lia|].
  destruct Hdone as (w' & blocks & sleeps & Hw & _); [intros [_ Ho]; vm_compute in Ho; by apply Ho|].
  exists w'. split; [exact Hw|]. revert Hw. vm_compute. intros [= <-]. done.
Defined.

(** A body that was signed once is accepted again with another key or a new timestamp, neither of
    which the signature covers. *)
Example signature_covers_body_only :
  texts (serve_requests true
           [signed 1700000000 [("x-webhook-timestamp", "1700000000"); ("x-idempotency-key", "a")] "{}";
            signed 1800000000 [("x-webhook-timestamp", "1800000000"); ("x-idempotency-key", "b")] "{}"] (state 10)).1
  = [Some "Webhook accepted"; Some "Webhook accepted"].
Proof. vm_compute. reflexivity. Qed.

(** When the memory is full all of it is dropped: a key is accepted again one delivery later. *)
Example key_forgotten :
  texts (serve_requests true [keyed "a"; keyed "b"; keyed "c"; keyed "b"] (state 2)).1
  = [Some "Webhook accepted"; Some "Webhook accepted"; Some "Webhook accepted"; Some "Webhook accepted"].
Proof. vm_compute. reflexivity. Qed.

(** A timestamp [2^63] seconds ago panics with overflow checks and passes without. *)
Example distant_past :
  let r := signed 1700000000 [("x-webhook-timestamp", "-9223372035154775808")] "{}" in
  texts (serve_requests true [r] (state 2)).1 = [None] ∧
  texts (serve_requests false [r] (state 2)).1 = [Some "Webhook accepted"].
Proof. vm_compute. done. Qed.

(** One slow receiver uses up the time of those after it. *)
Example slow_receiver_starves_others :
  (λ w, (Sender.wq_url ∘ fst <$> Sender.wd_sent w.2)) <$>
    Sender.handle_event (λ n, if (n <=? 2)%nat then 0%Z else 400000000000%Z) (λ _ _, Sender.Answers 500) "record.created"
      JNull "t" two_hooks idle = Some ["https://peer.example/hooks"].
Proof. vm_compute. reflexivity. Qed.

(** At one moment the limiter lets its burst through. *)
Example limiter_burst :
  (foldl (λ (acc : nat * Sender.RateLimiter) (_ : nat), let '(ok, l) := Sender.acquire "u" 7 acc.2 in
            (if ok then S acc.1 else acc.1, l)) (0, Sender.new_limiter (F64.of_Z 10) 20) (seq 0 30)).1 = 20.
Proof. vm_compute. reflexivity. Qed.

(** The jitter is a function of the number of failures. *)
Example jitter_fixed :
  (λ n, Retry.compute_backoff (Retry.set_failures n (Retry.with_jitter true Retry.new_retry))) <$> [1; 2; 3; 4]%Z
  = [48; 118; 220; 408]%Z.
Proof. vm_compute. reflexivity. Qed.
