(* ===== verification/Google.v ===== *)
(** * The Google connectors

    plugins/engine/connector-calendar/src/google.rs ([GoogleCalendar]) and
    plugins/engine/connector-contacts/src/google.rs ([GoogleContacts]): OAuth tokens, requests with
    their rate limit, paged and incremental synchronisation, and the conversion to canonical
    events and contacts.

    The server is a function from the number and the request to the outcome, so it may answer
    anything; what is sent and slept is recorded. Times are in nanoseconds. The texts of statuses,
    URLs and decoding errors, the date parsers, SHA-256 and Base64 are parameters. *)

From stdpp Require Import base tactics list gmap sets strings.
From Stdlib Require Import Ascii ZArith Lia.
From S2P Require Import Prelude RustString RustText Json Types Crypto Auth Sessions Contacts Calendar.

Local Open Scope string_scope.
Local Open Scope list_scope.

(** ** Requests *)

Module GoogleHttp.

Record GRequest : Type := mkGRequest {
  gr_method : string;
  gr_url : string;
  gr_query : list (string * string);
  gr_bearer : option string;
  gr_form : list (string * string);
  gr_json : option json;
}.

Record GReply : Type := mkGReply {
  gp_status : Z;
  gp_retry_after : option string;
  gp_body : string;
}.

Inductive Outcome : Type :=
| Replied (r : GReply)
| SendFailed (e : string).

Definition is_success (r : GReply) : bool := (200 <=? gp_status r)%Z && (gp_status r <? 300)%Z.

(** The Retry-After header in seconds. *)
Definition retry_after (r : GReply) : option Z := gp_retry_after r ≫= parse_u64.

(** How often the clock was read and an id drawn, what was sent, and the seconds slept. *)
Record World : Type := mkWorld {
  gw_reads : nat;
  gw_ids : nat;
  gw_sent : list (GRequest * Outcome);
  gw_slept : list Z;
}.

(** The texts of the libraries. *)
Class GoogleLib : Type := {
  status_display : Z → string;
  url_display : GRequest → string;
  decode_error : string → string;
  (** [DateTime + Duration::seconds], which panics out of range *)
  add_seconds : timestamp → Z → option timestamp;
  (** [NaiveDate] of year, month and day, at midnight *)
  parse_ymd : string → result timestamp string;
  rfc3339_error : string → string;
}.

(** *** Fallible operations on a client and the world *)

Inductive Out (S E A : Type) : Type :=
| Got (r : result A E) (s : S)
| Panics
| NoFuel.
Arguments Got {S E A}.
Arguments Panics {S E A}.
Arguments NoFuel {S E A}.

Definition G (S E A : Type) : Type := S → Out S E A.

Definition gret {S E A} (a : A) : G S E A := Got (Ok a).
Definition gfail {S E A} (e : E) : G S E A := Got (Err e).

Definition gbind {S E A B} (m : G S E A) (k : A → G S E B) : G S E B := λ s,
  match m s with
  | Got (Ok a) s' => k a s'
  | Got (Err e) s' => Got (Err e) s'
  | Panics => Panics
  | NoFuel => NoFuel
  end.

Definition gstate {S E} : G S E S := λ s, Got (Ok s) s.
Definition gput {S E} (s : S) : G S E unit := λ _, Got (Ok tt) s.

Declare Scope google_scope.
Notation "x <-- m ;; k" := (gbind m (λ x, k)) (at level 60, m at level 59, right associativity) : google_scope.
Notation "m ;;; k" := (gbind m (λ _, k)) (at level 60, right associativity) : google_scope.

Section Send.
Context (clock : nat → timestamp) (fresh : nat → string) (react : nat → GRequest → Outcome).
Context {C E : Type}.

Definition g_now : G (C * World) E timestamp := λ s,
  Got (Ok (clock (gw_reads s.2))) (s.1, mkWorld (S (gw_reads s.2)) (gw_ids s.2) (gw_sent s.2) (gw_slept s.2)).

Definition g_uuid : G (C * World) E string := λ s,
  Got (Ok (fresh (gw_ids s.2))) (s.1, mkWorld (gw_reads s.2) (S (gw_ids s.2)) (gw_sent s.2) (gw_slept s.2)).

Definition g_send (rq : GRequest) : G (C * World) E Outcome := λ s,
  let o := react (length (gw_sent s.2)) rq in
  Got (Ok o) (s.1, mkWorld (gw_reads s.2) (gw_ids s.2) (gw_sent s.2 ++ [(rq, o)]) (gw_slept s.2)).

Definition g_sleep (secs : Z) : G (C * World) E unit := λ s,
  Got (Ok tt) (s.1, mkWorld (gw_reads s.2) (gw_ids s.2) (gw_sent s.2) (gw_slept s.2 ++ [secs])).

Definition g_client : G (C * World) E C := λ s, Got (Ok s.1) s.
Definition g_set (c : C) : G (C * World) E unit := λ s, Got (Ok tt) (c, s.2).

(** What to do about an outcome. *)
Inductive Verdict (A : Type) : Type :=
| Again (secs : Z)
| Done (r : result A E).
Arguments Again {A}.
Arguments Done {A}.

Definition MAX_RATE_LIMIT_RETRIES : nat := 3.
Definition DEFAULT_RATE_LIMIT_BACKOFF_SECS : Z := 5.

(** [handle_rate_limit]: how long to wait before another attempt, or that none is left. *)
Definition rate_limit (attempt : nat) (r : GReply) : option (option Z) :=
  if (gp_status r =? 429)%Z then
    Some (if (MAX_RATE_LIMIT_RETRIES <=? attempt)%nat then None
          else Some (default DEFAULT_RATE_LIMIT_BACKOFF_SECS (retry_after r)))
  else None.

(** The loop around a request. *)
Fixpoint send_loop {A} (fuel : nat) (judge : nat → Outcome → Verdict A) (rq : GRequest) (attempt : nat)
    : G (C * World) E A := λ s,
  match fuel with
  | O => NoFuel
  | S fuel' =>
      gbind (g_send rq)
        (λ o, match judge attempt o with
              | Done r => λ s', Got r s'
              | Again secs => gbind (g_sleep secs) (λ _, send_loop fuel' judge rq (S attempt))
              end) s
  end.

(** One attempt and the retries. *)
Definition SEND_FUEL : nat := S MAX_RATE_LIMIT_RETRIES.
End Send.
Arguments Again {E A}.
Arguments Done {E A}.

(** *** Structs of answers *)

(** A missing or null [Option]; a missing field with a default. *)
Definition read_opt {A} (f : json → option A) (v : option json) : option (option A) :=
  match v with
  | None | Some JNull => Some None
  | Some x => Some <$> f x
  end.

(** An [Option] without a default, which a sequence has to reach. *)
Definition read_given {A} (f : json → option A) (v : json) (name : string) (position : nat) : option (option A) :=
  match v, struct_field v name position with
  | JArr _, None => None
  | _, field => read_opt f field
  end.

Definition read_default {A} (d : A) (f : json → option A) (v : option json) : option A := from_option f (Some d) v.

Definition read_list {A} (f : json → option A) (v : json) : option (list A) := as_array v ≫= mapM f.

Definition read_i64 (v : json) : option Z :=
  match v with
  | JNum (NInt z) => if (- 2 ^ 63 <=? z)%Z && (z <? 2 ^ 63)%Z then Some z else None
  | _ => None
  end.
End GoogleHttp.

(** ** Calendars *)

Module GoogleCalendar.
Import GoogleHttp.
Local Open Scope google_scope.

Inductive GoogleApiError : Type :=
| AuthExpired
| TokenRefreshFailed (m : string)
| RateLimited (retry_after_secs : option Z)
| SyncTokenExpired
| NotFound (m : string)
| PermissionDenied (m : string)
| ApiError (status : Z) (body : string).

Definition DEFAULT_AUTH_ENDPOINT : string := "https://accounts.google.com/o/oauth2/v2/auth".
Definition DEFAULT_TOKEN_ENDPOINT : string := "https://oauth2.googleapis.com/token".
Definition CALENDAR_SCOPE_READONLY : string := "https://www.googleapis.com/auth/calendar.readonly".
Definition CALENDAR_SCOPE_EVENTS_READONLY : string := "https://www.googleapis.com/auth/calendar.events.readonly".

Record GoogleCalendarConfig : Type := mkGoogleCalendarConfig {
  gcc_client_id : string;
  gcc_client_secret_key : string;
  gcc_refresh_token_key : string;
  gcc_redirect_uri : string;
  gcc_auth_endpoint : string;
  gcc_token_endpoint : string;
}.

Record TokenState : Type := mkTokenState {
  ts_access_token : string;
  ts_refresh_token : string;
  ts_expires_at : timestamp;
  ts_scopes : list string;
}.

Definition SECONDS_60 : Z := 60 * 1000000000.

Definition is_expired (now : timestamp) (t : TokenState) : bool := (ts_expires_at t <=? now + SECONDS_60)%Z.

(** *** Authorisation *)

Definition CHARSET : string := "ABCDEFGHIJKLMNOPQRSTUVWXYZabcdefghijklmnopqrstuvwxyz0123456789-._~".

(** The verifier of the drawn indices. *)
Definition pkce_verifier (draws : list nat) : string :=
  foldr (λ i s, match String.get i CHARSET with Some c => String c s | None => s end) EmptyString draws.

Definition compute_s256_challenge (sha256 : bytes → bytes) (base64_url : bytes → string) (verifier : string) : string :=
  base64_url (sha256 (bytes_of verifier)).

Definition unreserved (c : ascii) : bool :=
  is_ascii_alphanumeric c || bool_decide (c = "-"%char) || bool_decide (c = "_"%char) || bool_decide (c = "."%char)
  || bool_decide (c = "~"%char).

Definition hex_digit (n : N) : ascii := if (n <? 10)%N then ascii_of_N (48 + n) else ascii_of_N (55 + n).

(** [urlencoding::encode]. *)
Fixpoint urlencode (s : string) : string :=
  match s with
  | EmptyString => EmptyString
  | String c s' =>
      if unreserved c then String c (urlencode s')
      else String "%" (String (hex_digit (byte_of c / 16)) (String (hex_digit (byte_of c mod 16)) (urlencode s')))
  end.

Definition build_auth_url (c : GoogleCalendarConfig) (code_challenge state : string) : string :=
  gcc_auth_endpoint c +:+ "?client_id=" +:+ urlencode (gcc_client_id c) +:+ "&redirect_uri="
  +:+ urlencode (gcc_redirect_uri c) +:+ "&response_type=code&scope="
  +:+ urlencode (CALENDAR_SCOPE_READONLY +:+ " " +:+ CALENDAR_SCOPE_EVENTS_READONLY)
  +:+ "&access_type=offline&prompt=consent&code_challenge=" +:+ urlencode code_challenge
  +:+ "&code_challenge_method=S256&state=" +:+ urlencode state.

(** *** Events *)

Record GoogleDateTime : Type := mkGoogleDateTime {
  gd_date_time : option string;
  gd_date : option string;
  gd_time_zone : option string;
}.

Record GoogleAttendee : Type := mkGoogleAttendee { ga_email : string; ga_display_name : option string }.

(** [GoogleEventCreator] and [GoogleEventOrganizer] have the same fields. *)
Record GooglePersonRef : Type := mkGooglePersonRef {
  gpr_email : option string;
  gpr_display_name : option string;
  gpr_is_self : bool;
}.

Record GoogleEvent : Type := mkGoogleEvent {
  ge_id : string;
  ge_summary : option string;
  ge_start : GoogleDateTime;
  ge_end : GoogleDateTime;
  ge_recurrence : list string;
  ge_attendees : list GoogleAttendee;
  ge_location : option string;
  ge_description : option string;
  ge_created : option string;
  ge_updated : option string;
  ge_status : option string;
  ge_html_link : option string;
  ge_creator : option GooglePersonRef;
  ge_organizer : option GooglePersonRef;
  ge_color_id : option string;
  ge_reminders : option json;
  ge_conference_data : option json;
  ge_etag : option string;
}.

Record GoogleEventsListResponse : Type := mkEventsList {
  el_items : list GoogleEvent;
  el_next_page_token : option string;
  el_next_sync_token : option string;
}.

Record GoogleCalendarListEntry : Type := mkCalendarEntry {
  le_id : string;
  le_summary : option string;
  le_description : option string;
  le_time_zone : option string;
  le_foreground_color : option string;
  le_background_color : option string;
  le_primary : bool;
  le_access_role : option string;
}.

Definition read_date_time (v : json) : option GoogleDateTime :=
  if struct_shape 3 v then
    d ← read_given as_str v "dateTime" 0; t ← read_given as_str v "date" 1;
    z ← read_given as_str v "timeZone" 2; Some (mkGoogleDateTime d t z)
  else None.

Definition read_attendee (v : json) : option GoogleAttendee :=
  if struct_shape 2 v then
    e ← struct_field v "email" 0 ≫= as_str; n ← read_given as_str v "displayName" 1;
    Some (mkGoogleAttendee e n)
  else None.

Definition read_person_ref (v : json) : option GooglePersonRef :=
  if struct_shape 3 v then
    e ← read_given as_str v "email" 0; n ← read_given as_str v "displayName" 1;
    b ← read_default false as_bool (struct_field v "self" 2); Some (mkGooglePersonRef e n b)
  else None.

Definition read_event (v : json) : option GoogleEvent :=
  if struct_shape 18 v then
    id ← struct_field v "id" 0 ≫= as_str;
    summary ← read_given as_str v "summary" 1;
    start ← struct_field v "start" 2 ≫= read_date_time;
    end_ ← struct_field v "end" 3 ≫= read_date_time;
    recurrence ← read_default [] (read_list as_str) (struct_field v "recurrence" 4);
    attendees ← read_default [] (read_list read_attendee) (struct_field v "attendees" 5);
    location ← read_given as_str v "location" 6;
    description ← read_given as_str v "description" 7;
    created ← read_given as_str v "created" 8;
    updated ← read_given as_str v "updated" 9;
    status ← read_given as_str v "status" 10;
    html_link ← read_given as_str v "htmlLink" 11;
    creator ← read_given read_person_ref v "creator" 12;
    organizer ← read_given read_person_ref v "organizer" 13;
    color_id ← read_given as_str v "colorId" 14;
    reminders ← read_given Some v "reminders" 15;
    conference_data ← read_given Some v "conferenceData" 16;
    etag ← read_given as_str v "etag" 17;
    Some (mkGoogleEvent id summary start end_ recurrence attendees location description created updated status
            html_link creator organizer color_id reminders conference_data etag)
  else None.

Definition read_events_list (v : json) : option GoogleEventsListResponse :=
  if struct_shape 3 v then
    items ← read_default [] (read_list read_event) (struct_field v "items" 0);
    page ← read_given as_str v "nextPageToken" 1;
    sync ← read_given as_str v "nextSyncToken" 2; Some (mkEventsList items page sync)
  else None.

Definition read_calendar_entry (v : json) : option GoogleCalendarListEntry :=
  if struct_shape 8 v then
    id ← struct_field v "id" 0 ≫= as_str;
    summary ← read_given as_str v "summary" 1;
    description ← read_given as_str v "description" 2;
    time_zone ← read_given as_str v "timeZone" 3;
    fg ← read_given as_str v "foregroundColor" 4;
    bg ← read_given as_str v "backgroundColor" 5;
    primary ← read_default false as_bool (struct_field v "primary" 6);
    role ← read_given as_str v "accessRole" 7;
    Some (mkCalendarEntry id summary description time_zone fg bg primary role)
  else None.

(** [GoogleCalendarListResponse]; the page token is read and not used. *)
Definition read_calendar_list (v : json) : option (list GoogleCalendarListEntry * option string) :=
  if struct_shape 2 v then
    items ← read_default [] (read_list read_calendar_entry) (struct_field v "items" 0);
    page ← read_given as_str v "nextPageToken" 1; Some (items, page)
  else None.

Record TokenResponse : Type := mkTokenResponse {
  tr_access_token : string;
  tr_refresh_token : option string;
  tr_expires_in : Z;
  tr_scope : option string;
}.

Definition read_token_response (v : json) : option TokenResponse :=
  if struct_shape 5 v then
    a ← struct_field v "access_token" 0 ≫= as_str; r ← read_opt as_str (struct_field v "refresh_token" 1);
    e ← struct_field v "expires_in" 2 ≫= read_i64; s ← read_opt as_str (struct_field v "scope" 3);
    _ ← struct_field v "token_type" 4 ≫= as_str; Some (mkTokenResponse a r e s)
  else None.

(** *** Conversion *)

Section Convert.
Context `{GoogleLib} `{Chrono} (format_utc : Z → string) (parse_utc : string → option Z).

Definition parse_google_datetime (d : GoogleDateTime) : result timestamp string :=
  match gd_date_time d, gd_date d with
  | Some s, _ =>
      match parse_from_rfc3339 s with
      | Some t => Ok t
      | None => Err ("invalid dateTime '" +:+ s +:+ "': " +:+ rfc3339_error s)
      end
  | None, Some s =>
      match parse_ymd s with
      | Ok t => Ok t
      | Err e => Err ("invalid date '" +:+ s +:+ "': " +:+ e)
      end
  | None, None => Err "GoogleDateTime has neither dateTime nor date"
  end.

(** The first entry point of conference data. *)
Definition conference_uri (v : json) : option string :=
  points ← json_get v "entryPoints"; entries ← as_array points; first ← head entries;
  uri ← json_get first "uri"; as_str uri.

Definition EXTENSION : string := "com.life-engine.connector-calendar".

Definition event_extensions (e : GoogleEvent) : json :=
  let put k (v : option string) o := from_option (λ s, obj_insert k (JStr s) o) o v in
  JObj [(EXTENSION,
    JObj (put "etag" (ge_etag e) (put "conference_uri" (ge_conference_data e ≫= conference_uri)
      (put "organizer_email" (ge_organizer e ≫= gpr_email) (put "creator_email" (ge_creator e ≫= gpr_email)
        (put "color_id" (ge_color_id e) (put "status" (ge_status e) (put "html_link" (ge_html_link e)
          (obj_insert "google_event_id" (JStr (ge_id e)) [])))))))))].

(** The id and the two readings of the clock are arguments. *)
Definition normalize_google_event (id : string) (now_created now_updated : timestamp) (e : GoogleEvent) :
    result CalendarEvent string :=
  let? start := parse_google_datetime (ge_start e) in
  let? end_ := parse_google_datetime (ge_end e) in
  Ok {| ev_id := id;
        ev_title := default "(no title)" (ge_summary e);
        ev_start := start;
        ev_end := Some end_;
        ev_description := ge_description e;
        ev_location := ge_location e;
        ev_all_day := None;
        ev_recurrence := (snd <$> list_find (λ r, starts_with r "RRULE:" = true) (ge_recurrence e)) ≫= from_rrule parse_utc;
        ev_attendees := (λ a, from_email (ga_email a)) <$> ge_attendees e;
        ev_reminders := [];
        ev_timezone := None;
        ev_status := None;
        ev_sequence := None;
        ev_source := "google-calendar";
        ev_source_id := ge_id e;
        ev_extensions := Some (event_extensions e);
        ev_created_at := default now_created (ge_created e ≫= parse_from_rfc3339);
        ev_updated_at := default now_updated (ge_updated e ≫= parse_from_rfc3339) |}.

Definition timed (t : timestamp) : GoogleDateTime := mkGoogleDateTime (Some (to_rfc3339 t)) None None.

Definition build_google_event (e : CalendarEvent) : GoogleEvent :=
  mkGoogleEvent (ev_source_id e) (Some (ev_title e)) (timed (ev_start e)) (timed (default (ev_start e) (ev_end e)))
    (match ev_recurrence e with
     | Some r => ["RRULE:" +:+ to_rrule format_utc r]
     | None => []
     end)
    ((λ a, mkGoogleAttendee (at_email a) None) <$> ev_attendees e) (ev_location e) (ev_description e)
    (Some (to_rfc3339 (ev_created_at e))) (Some (to_rfc3339 (ev_updated_at e))) None None None None None None None None.
End Convert.

(** *** The client *)

Record GoogleSyncState : Type := mkSyncState {
  ss_sync_token : option string;
  ss_last_sync : option timestamp;
  ss_page_token : option string;
}.

Record GoogleCalendarClient : Type := mkCalendarClient {
  gc_config : GoogleCalendarConfig;
  gc_token_state : option TokenState;
  gc_sync_states : gmap string GoogleSyncState;
}.

Definition new_client (c : GoogleCalendarConfig) : GoogleCalendarClient := mkCalendarClient c None ∅.

Definition set_token_state (t : TokenState) (c : GoogleCalendarClient) : GoogleCalendarClient :=
  mkCalendarClient (gc_config c) (Some t) (gc_sync_states c).

Definition with_states (f : gmap string GoogleSyncState → gmap string GoogleSyncState) (c : GoogleCalendarClient) :
    GoogleCalendarClient := mkCalendarClient (gc_config c) (gc_token_state c) (f (gc_sync_states c)).

(** Keeps the page token. *)
Definition update_sync_token (now : timestamp) (token : string) (c : GoogleCalendarClient) : GoogleCalendarClient :=
  with_states (λ m, <["primary" := mkSyncState (Some token) (Some now) (m !! "primary" ≫= ss_page_token)]> m) c.

Definition update_calendar_sync_state (now : timestamp) (calendar_id : string) (sync_token page_token : option string)
    (c : GoogleCalendarClient) : GoogleCalendarClient :=
  with_states (<[calendar_id := mkSyncState sync_token (Some now) page_token]>) c.

Definition reset_sync_state (calendar_id : string) (c : GoogleCalendarClient) : GoogleCalendarClient :=
  with_states (delete calendar_id) c.

Section Client.
Context `{GoogleLib} `{Chrono} `{JsonText} (parse_utc : string → option Z).
Context (clock : nat → timestamp) (fresh : nat → string) (react : nat → GRequest → Outcome).

Abbreviation M := (G (GoogleCalendarClient * World) GoogleApiError).

(** [map_error_response]. *)
Definition map_error_response (rq : GRequest) (r : GReply) : result unit GoogleApiError :=
  if is_success r then Ok tt
  else if (gp_status r =? 401)%Z then Err AuthExpired
  else if (gp_status r =? 403)%Z then Err (PermissionDenied "forbidden")
  else if (gp_status r =? 404)%Z then Err (NotFound (url_display rq))
  else if (gp_status r =? 410)%Z then Err SyncTokenExpired
  else if (gp_status r =? 429)%Z then Err (RateLimited (retry_after r))
  else Err (ApiError (gp_status r) ("HTTP " +:+ status_display (gp_status r))).

(** A body read as JSON. *)
Definition decode {A} (read : json → option A) (body : string) : option A :=
  match json_from_str body with
  | Ok v => read v
  | Err _ => None
  end.

(** What the loops do about an outcome. *)
Definition judge {A} (read : json → option A) (rq : GRequest) (attempt : nat) (o : Outcome) : Verdict A :=
  match o with
  | SendFailed e => Done (Err (ApiError 0 e))
  | Replied r =>
      match rate_limit attempt r with
      | Some (Some secs) => Again secs
      | Some None => Done (Err (RateLimited (retry_after r)))
      | None =>
          Done (let? _ := map_error_response rq r in
                match decode read (gp_body r) with
                | Some a => Ok a
                | None => Err (ApiError 0 (decode_error (gp_body r)))
                end)
      end
  end.

(** The token of an answer, or its error. [renew] is the refresh token kept when none is sent. *)
Definition token_answer (what renew : string) (o : Outcome) : M TokenState :=
  match o with
  | SendFailed e => gfail (TokenRefreshFailed e)
  | Replied r =>
      if negb (is_success r) then
        gfail (TokenRefreshFailed (what +:+ " returned " +:+ show_Z (gp_status r) +:+ ": " +:+ gp_body r))
      else
        match decode read_token_response (gp_body r) with
        | None => gfail (TokenRefreshFailed (decode_error (gp_body r)))
        | Some t =>
            now <-- g_now clock;;
            match add_seconds now (tr_expires_in t) with
            | None => λ _, Panics
            | Some expires =>
                gret (mkTokenState (tr_access_token t) (default renew (tr_refresh_token t)) expires
                        (split_whitespace (default empty_str (tr_scope t))))
            end
        end
  end.

Definition exchange_code (auth_code code_verifier client_secret : string) : M TokenState :=
  c <-- g_client;;
  o <-- g_send react (mkGRequest "POST" (gcc_token_endpoint (gc_config c)) [] None
          [("code", auth_code); ("client_id", gcc_client_id (gc_config c)); ("client_secret", client_secret);
           ("redirect_uri", gcc_redirect_uri (gc_config c)); ("grant_type", "authorization_code");
           ("code_verifier", code_verifier)] None);;
  token_answer "token exchange" empty_str o.

Definition refresh_access_token (refresh_token client_secret : string) : M TokenState :=
  c <-- g_client;;
  o <-- g_send react (mkGRequest "POST" (gcc_token_endpoint (gc_config c)) [] None
          [("client_id", gcc_client_id (gc_config c)); ("client_secret", client_secret);
           ("refresh_token", refresh_token); ("grant_type", "refresh_token")] None);;
  token_answer "refresh" refresh_token o.

Definition ensure_valid_token (client_secret : string) : M string :=
  c <-- g_client;;
  match gc_token_state c with
  | None => gfail AuthExpired
  | Some ts =>
      now <-- g_now clock;;
      if is_expired now ts then
        new_state <-- refresh_access_token (ts_refresh_token ts) client_secret;;
        c' <-- g_client;;
        g_set (set_token_state new_state c');;;
        gret (ts_access_token new_state)
      else gret (ts_access_token ts)
  end.

Definition API : string := "https://www.googleapis.com/calendar/v3".

Definition list_calendars (client_secret : string) : M (list GoogleCalendarListEntry) :=
  access_token <-- ensure_valid_token client_secret;;
  let rq := mkGRequest "GET" (API +:+ "/users/me/calendarList") [] (Some access_token) [] None in
  r <-- send_loop react SEND_FUEL (judge read_calendar_list rq) rq 0;;
  gret (fst r).

Definition events_query (sync_token page_token : option string) (time_min time_max : option timestamp) :
    list (string * string) :=
  [("singleEvents", "false"); ("maxResults", "250")]
  ++ match sync_token with
     | Some token => [("syncToken", token)]
     | None =>
         from_option (λ t, [("timeMin", to_rfc3339 t)]) [] time_min
         ++ from_option (λ t, [("timeMax", to_rfc3339 t)]) [] time_max
     end
  ++ from_option (λ token, [("pageToken", token)]) [] page_token.

Definition events_request (calendar_id access_token : string) (sync_token page_token : option string)
    (time_min time_max : option timestamp) : GRequest :=
  mkGRequest "GET" (API +:+ "/calendars/" +:+ urlencode calendar_id +:+ "/events")
    (events_query sync_token page_token time_min time_max) (Some access_token) [] None.

Definition list_events (calendar_id : string) (sync_token page_token : option string) (time_min time_max : option timestamp)
    (client_secret : string) : M GoogleEventsListResponse :=
  access_token <-- ensure_valid_token client_secret;;
  let rq := events_request calendar_id access_token sync_token page_token time_min time_max in
  send_loop react SEND_FUEL (judge read_events_list rq) rq 0.

Definition get_event (calendar_id event_id client_secret : string) : M GoogleEvent :=
  access_token <-- ensure_valid_token client_secret;;
  let rq := mkGRequest "GET" (API +:+ "/calendars/" +:+ urlencode calendar_id +:+ "/events/" +:+ urlencode event_id)
              [] (Some access_token) [] None in
  send_loop react SEND_FUEL (judge read_event rq) rq 0.

(** The events of a page: cancelled and malformed ones are skipped. Two readings of the clock and an
    id are drawn for each other one, used or not. *)
Fixpoint take_items (items : list GoogleEvent) : M (list CalendarEvent) :=
  match items with
  | [] => gret []
  | e :: rest =>
      if bool_decide (ge_status e = Some "cancelled") then take_items rest
      else
        created <-- g_now clock;; updated <-- g_now clock;; id <-- g_uuid fresh;;
        events <-- take_items rest;;
        gret (match normalize_google_event parse_utc id created updated e with
              | Ok ev => ev :: events
              | Err _ => events
              end)
  end.

(** The pages from a page token on; one unit of fuel for a page. *)
Fixpoint sync_pages (fuel : nat) (calendar_id : string) (sync_token page_token : option string)
    (time_min time_max : option timestamp) (client_secret : string) : M (list CalendarEvent) :=
  match fuel with
  | O => λ _, NoFuel
  | S fuel' =>
      response <-- list_events calendar_id sync_token page_token time_min time_max client_secret;;
      events <-- take_items (el_items response);;
      match el_next_page_token response with
      | Some next_page =>
          more <-- sync_pages fuel' calendar_id sync_token (Some next_page) time_min time_max client_secret;;
          gret (events ++ more)
      | None =>
          now <-- g_now clock;; c <-- g_client;;
          g_set (update_calendar_sync_state now calendar_id (el_next_sync_token response) None c);;;
          gret events
      end
  end.

Definition DAYS (n : Z) : Z := n * 86400 * 1000000000.

Definition sync_events_inner (fuel : nat) (calendar_id : string) (sync_token : option string) (client_secret : string) :
    M (list CalendarEvent) :=
  match sync_token with
  | None =>
      now <-- g_now clock;;
      sync_pages fuel calendar_id None None (Some (now - DAYS 30)%Z) (Some (now + DAYS 365)%Z) client_secret
  | Some _ => sync_pages fuel calendar_id sync_token None None None client_secret
  end.

Definition sync_events (fuel : nat) (calendar_id client_secret : string) : M (list CalendarEvent) := λ s,
  let sync_token := gc_sync_states s.1 !! calendar_id ≫= ss_sync_token in
  match sync_events_inner fuel calendar_id sync_token client_secret s with
  | Got (Err SyncTokenExpired) s' =>
      (c <-- g_client;; g_set (reset_sync_state calendar_id c);;;
       sync_events_inner fuel calendar_id None client_secret) s'
  | other => other
  end.
End Client.
End GoogleCalendar.

(** ** Contacts *)

Module GoogleContacts.
Import GoogleHttp.
Local Open Scope google_scope.

Definition PEOPLE_API_BASE : string := "https://people.googleapis.com/v1".
Definition TOKEN_ENDPOINT : string := "https://oauth2.googleapis.com/token".
Definition PERSON_FIELDS : string := "names,emailAddresses,phoneNumbers,addresses,organizations".

Record GoogleContactsConfig : Type := mkGoogleContactsConfig {
  gk_client_id : string;
  gk_client_secret_key : string;
  gk_refresh_token_key : string;
}.

Record GoogleSyncState : Type := mkContactsSync { cs_sync_token : option string; cs_last_sync : option timestamp }.

Record OAuthTokenCache : Type := mkTokenCache { tc_access_token : string; tc_expires_at : timestamp }.

Definition cache_expired (now : timestamp) (t : OAuthTokenCache) : bool :=
  (tc_expires_at t <=? now + 60 * 1000000000)%Z.

(** An address of either kind with its type. *)
Record GoogleTyped : Type := mkTyped { gt_value : string; gt_type : option string }.

Record GoogleAddress : Type := mkGoogleAddress {
  gad_street_address : option string;
  gad_city : option string;
  gad_region : option string;
  gad_postal_code : option string;
  gad_country : option string;
  gad_type : option string;
}.

Record GooglePerson : Type := mkGooglePerson {
  gper_resource_name : string;
  gper_display_name : option string;
  gper_given_name : option string;
  gper_family_name : option string;
  gper_email_addresses : list GoogleTyped;
  gper_phone_numbers : list GoogleTyped;
  gper_addresses : list GoogleAddress;
  gper_organisation : option string;
  gper_etag : option string;
}.

Record GoogleListResponse : Type := mkPeopleList {
  pl_connections : list GooglePerson;
  pl_next_page_token : option string;
  pl_next_sync_token : option string;
  pl_total_people : option Z;
}.

Definition read_typed (v : json) : option GoogleTyped :=
  if struct_shape 2 v then
    a ← struct_field v "value" 0 ≫= as_str; t ← read_opt as_str (struct_field v "type" 1); Some (mkTyped a t)
  else None.

Definition read_address (v : json) : option GoogleAddress :=
  if struct_shape 6 v then
    a ← read_opt as_str (struct_field v "street_address" 0); b ← read_opt as_str (struct_field v "city" 1);
    c ← read_opt as_str (struct_field v "region" 2); d ← read_opt as_str (struct_field v "postal_code" 3);
    e ← read_opt as_str (struct_field v "country" 4); t ← read_opt as_str (struct_field v "type" 5);
    Some (mkGoogleAddress a b c d e t)
  else None.

(** The fields are looked for under the names of the struct. *)
Definition read_person (v : json) : option GooglePerson :=
  if struct_shape 9 v then
    resource_name ← read_default empty_str as_str (struct_field v "resource_name" 0);
    display_name ← read_opt as_str (struct_field v "display_name" 1);
    given_name ← read_opt as_str (struct_field v "given_name" 2);
    family_name ← read_opt as_str (struct_field v "family_name" 3);
    emails ← read_default [] (read_list read_typed) (struct_field v "email_addresses" 4);
    phones ← read_default [] (read_list read_typed) (struct_field v "phone_numbers" 5);
    addresses ← read_default [] (read_list read_address) (struct_field v "addresses" 6);
    organisation ← read_opt as_str (struct_field v "organisation" 7);
    etag ← read_opt as_str (struct_field v "etag" 8);
    Some (mkGooglePerson resource_name display_name given_name family_name emails phones addresses organisation etag)
  else None.

Definition read_u32 (v : json) : option Z :=
  match v with
  | JNum (NInt z) => if (0 <=? z)%Z && (z <? 2 ^ 32)%Z then Some z else None
  | _ => None
  end.

Definition read_people_list (v : json) : option GoogleListResponse :=
  if struct_shape 4 v then
    connections ← read_default [] (read_list read_person) (struct_field v "connections" 0);
    page ← read_opt as_str (struct_field v "nextPageToken" 1);
    sync ← read_opt as_str (struct_field v "nextSyncToken" 2);
    total ← read_opt read_u32 (struct_field v "totalPeople" 3); Some (mkPeopleList connections page sync total)
  else None.

(** [TokenResponse] without refresh token and scope. *)
Definition read_token (v : json) : option (string * Z) :=
  if struct_shape 3 v then
    a ← struct_field v "access_token" 0 ≫= as_str; e ← struct_field v "expires_in" 1 ≫= read_i64;
    _ ← struct_field v "token_type" 2 ≫= as_str; Some (a, e)
  else None.

Definition opt_str (o : option string) : json := from_option JStr JNull o.

Definition typed_value (t : GoogleTyped) : json := mk_obj [("value", JStr (gt_value t)); ("type", opt_str (gt_type t))].

Definition address_value (a : GoogleAddress) : json :=
  mk_obj [("street_address", opt_str (gad_street_address a)); ("city", opt_str (gad_city a));
          ("region", opt_str (gad_region a)); ("postal_code", opt_str (gad_postal_code a));
          ("country", opt_str (gad_country a)); ("type", opt_str (gad_type a))].

Definition person_value (p : GooglePerson) : json :=
  mk_obj [("resource_name", JStr (gper_resource_name p)); ("display_name", opt_str (gper_display_name p));
          ("given_name", opt_str (gper_given_name p)); ("family_name", opt_str (gper_family_name p));
          ("email_addresses", JArr (typed_value <$> gper_email_addresses p));
          ("phone_numbers", JArr (typed_value <$> gper_phone_numbers p));
          ("addresses", JArr (address_value <$> gper_addresses p));
          ("organisation", opt_str (gper_organisation p)); ("etag", opt_str (gper_etag p))].

Definition parse_contact_info_type (s : string) : ContactInfoType :=
  if bool_decide (s = "home") then CitHome else if bool_decide (s = "work") then CitWork else CitOther.

Definition parse_phone_type (s : string) : PhoneType :=
  if bool_decide (s = "mobile") || bool_decide (s = "cell") then PtMobile
  else if bool_decide (s = "home") then PtHome
  else if bool_decide (s = "work") then PtWork
  else if bool_decide (s = "fax") then PtFax
  else PtOther.

Definition map_google_person (id : string) (now : timestamp) (p : GooglePerson) : Contact :=
  {| ct_id := id;
     ct_name := {| cn_given := default empty_str (gper_given_name p); cn_family := default empty_str (gper_family_name p);
                   cn_prefix := None; cn_suffix := None; cn_middle := None |};
     ct_emails := (λ e, {| ce_address := gt_value e; ce_type := parse_contact_info_type <$> gt_type e;
                           ce_primary := None |}) <$> gper_email_addresses p;
     ct_phones := (λ e, {| cp_number := gt_value e; cp_type := parse_phone_type <$> gt_type e;
                           cp_primary := None |}) <$> gper_phone_numbers p;
     ct_addresses := (λ a, {| ca_street := gad_street_address a; ca_city := gad_city a; ca_region := gad_region a;
                              ca_postal_code := gad_postal_code a; ca_country := gad_country a; ca_type := None |})
                     <$> gper_addresses p;
     ct_organization := gper_organisation p;
     ct_title := None;
     ct_birthday := None;
     ct_photo_url := None;
     ct_notes := None;
     ct_groups := [];
     ct_source := "google";
     ct_source_id := gper_resource_name p;
     ct_extensions := None;
     ct_created_at := now;
     ct_updated_at := now |}.

Record GoogleContactsClient : Type := mkContactsClient {
  kc_config : GoogleContactsConfig;
  kc_sync_state : GoogleSyncState;
  kc_token_cache : option OAuthTokenCache;
  kc_api_base_url : string;
  kc_token_endpoint_url : string;
}.

Definition no_sync : GoogleSyncState := mkContactsSync None None.

Definition new_contacts_client (c : GoogleContactsConfig) : GoogleContactsClient :=
  mkContactsClient c no_sync None PEOPLE_API_BASE TOKEN_ENDPOINT.

Definition set_sync (s : GoogleSyncState) (c : GoogleContactsClient) : GoogleContactsClient :=
  mkContactsClient (kc_config c) s (kc_token_cache c) (kc_api_base_url c) (kc_token_endpoint_url c).

Definition set_cache (t : OAuthTokenCache) (c : GoogleContactsClient) : GoogleContactsClient :=
  mkContactsClient (kc_config c) (kc_sync_state c) (Some t) (kc_api_base_url c) (kc_token_endpoint_url c).

Definition update_contacts_token (now : timestamp) (token : string) : GoogleContactsClient → GoogleContactsClient :=
  set_sync (mkContactsSync (Some token) (Some now)).

Definition reset_contacts_sync : GoogleContactsClient → GoogleContactsClient := set_sync no_sync.

Section Client.
Context `{GoogleLib} `{JsonText}.
Context (clock : nat → timestamp) (fresh : nat → string) (react : nat → GRequest → Outcome).

Abbreviation M := (G (GoogleContactsClient * World) string).

(** The request for a token; the new one is cached. *)
Definition refresh_cache (c : GoogleContactsClient) (client_secret refresh_token : string) : M string :=
  o <-- g_send react (mkGRequest "POST" (kc_token_endpoint_url c) [] None
          [("client_id", gk_client_id (kc_config c)); ("client_secret", client_secret);
           ("refresh_token", refresh_token); ("grant_type", "refresh_token")] None);;
  match o with
  | SendFailed _ => gfail "failed to send token refresh request"
  | Replied r =>
      if negb (is_success r) then
        gfail ("token refresh failed with " +:+ status_display (gp_status r) +:+ ": " +:+ gp_body r)
      else
        match GoogleCalendar.decode read_token (gp_body r) with
        | None => gfail "failed to parse token refresh response"
        | Some (token, expires_in) =>
            now <-- g_now clock;;
            match add_seconds now expires_in with
            | None => λ _, Panics
            | Some expires =>
                c' <-- g_client;; g_set (set_cache (mkTokenCache token expires) c');;; gret token
            end
        end
  end.

Definition ensure_valid_token (client_secret refresh_token : string) : M string :=
  c <-- g_client;;
  match kc_token_cache c with
  | Some cache =>
      now <-- g_now clock;;
      if cache_expired now cache then refresh_cache c client_secret refresh_token else gret (tc_access_token cache)
  | None => refresh_cache c client_secret refresh_token
  end.

Definition limited (attempt : nat) : string :=
  "Google API rate limited (429) after " +:+ show_Z (Z.of_nat attempt) +:+ " retries, giving up".

(** What the loops do about an outcome; [what] is the word of the messages. *)
Definition people_judge {A} (what : string) (read : string → option A) (attempt : nat) (o : Outcome) : Verdict A :=
  match o with
  | SendFailed _ => Done (Err ("failed to send People API " +:+ what +:+ " request"))
  | Replied r =>
      match rate_limit attempt r with
      | Some (Some secs) => Again secs
      | Some None => Done (Err (limited attempt))
      | None =>
          Done (if negb (is_success r) then
                  Err ("Google People API " +:+ (if String.eqb what "list" then empty_str else what +:+ " ")
                       +:+ "returned " +:+ status_display (gp_status r) +:+ ": " +:+ gp_body r)
                else
                  match read (gp_body r) with
                  | Some a => Ok a
                  | None => Err ("failed to parse People API " +:+ what +:+ " response")
                  end)
      end
  end.

(** In a list 410 comes before the rate limit. *)
Definition list_judge (attempt : nat) (o : Outcome) : Verdict GoogleListResponse :=
  match o with
  | Replied r =>
      if (gp_status r =? 410)%Z then Done (Err "410 Gone: sync token expired")
      else people_judge "list" (GoogleCalendar.decode read_people_list) attempt o
  | SendFailed _ => people_judge "list" (GoogleCalendar.decode read_people_list) attempt o
  end.

Definition people_query (sync_token page_token : option string) : list (string * string) :=
  [("personFields", PERSON_FIELDS); ("pageSize", "100")]
  ++ from_option (λ t, [("syncToken", t)]) [] sync_token ++ [("requestSyncToken", "true")]
  ++ from_option (λ t, [("pageToken", t)]) [] page_token.

Definition people_request (base access_token : string) (sync_token page_token : option string) : GRequest :=
  mkGRequest "GET" (base +:+ "/people/me/connections") (people_query sync_token page_token) (Some access_token) [] None.

(** The pages from a page token on. *)
Fixpoint list_connections_inner (fuel : nat) (sync_token page_token : option string) (client_secret refresh_token : string) :
    M (list GooglePerson) :=
  match fuel with
  | O => λ _, NoFuel
  | S fuel' =>
      access_token <-- ensure_valid_token client_secret refresh_token;;
      c <-- g_client;;
      response <-- send_loop react SEND_FUEL list_judge (people_request (kc_api_base_url c) access_token sync_token page_token) 0;;
      match pl_next_page_token response with
      | Some next_page =>
          more <-- list_connections_inner fuel' sync_token (Some next_page) client_secret refresh_token;;
          gret (pl_connections response ++ more)
      | None =>
          match pl_next_sync_token response with
          | Some token => now <-- g_now clock;; c' <-- g_client;; g_set (update_contacts_token now token c')
          | None => gret tt
          end;;;
          gret (pl_connections response)
      end
  end.

Definition list_connections (fuel : nat) (client_secret refresh_token : string) : M (list GooglePerson) := λ s,
  match list_connections_inner fuel (cs_sync_token (kc_sync_state s.1)) None client_secret refresh_token s with
  | Got (Err e) s' =>
      if contains_str e "410" || contains_str e "Gone" then
        (c <-- g_client;; g_set (reset_contacts_sync c);;;
         list_connections_inner fuel None None client_secret refresh_token) s'
      else Got (Err e) s'
  | other => other
  end.

Definition person_request (method url access_token : string) (body : option json) : GRequest :=
  mkGRequest method url [] (Some access_token) [] body.

Definition with_token {A} (client_secret refresh_token : string) (k : string → string → M A) : M A :=
  access_token <-- ensure_valid_token client_secret refresh_token;; c <-- g_client;; k (kc_api_base_url c) access_token.

Definition get_contact (resource_name client_secret refresh_token : string) : M GooglePerson :=
  with_token client_secret refresh_token (λ base token,
    send_loop react SEND_FUEL (people_judge "get" (GoogleCalendar.decode read_person))
      (person_request "GET" (base +:+ "/" +:+ resource_name +:+ "?personFields=" +:+ PERSON_FIELDS) token None) 0).

Definition create_contact (p : GooglePerson) (client_secret refresh_token : string) : M GooglePerson :=
  with_token client_secret refresh_token (λ base token,
    send_loop react SEND_FUEL (people_judge "create" (GoogleCalendar.decode read_person))
      (person_request "POST" (base +:+ "/people:createContact?personFields=" +:+ PERSON_FIELDS) token
         (Some (person_value p))) 0).

Definition update_contact (p : GooglePerson) (client_secret refresh_token : string) : M GooglePerson :=
  with_token client_secret refresh_token (λ base token,
    send_loop react SEND_FUEL (people_judge "update" (GoogleCalendar.decode read_person))
      (person_request "PATCH"
         (base +:+ "/" +:+ gper_resource_name p +:+ ":updateContact?updatePersonFields=" +:+ PERSON_FIELDS) token
         (Some (person_value p))) 0).

Definition delete_contact (resource_name client_secret refresh_token : string) : M unit :=
  with_token client_secret refresh_token (λ base token,
    send_loop react SEND_FUEL (people_judge "delete" (λ _, Some tt))
      (person_request "DELETE" (base +:+ "/" +:+ resource_name +:+ ":deleteContact") token None) 0).

Fixpoint map_persons (ps : list GooglePerson) : M (list Contact) :=
  match ps with
  | [] => gret []
  | p :: rest =>
      now <-- g_now clock;; id <-- g_uuid fresh;; cs <-- map_persons rest;; gret (map_google_person id now p :: cs)
  end.

Definition sync_contacts (fuel : nat) (client_secret refresh_token : string) : M (list Contact) :=
  persons <-- list_connections fuel client_secret refresh_token;; map_persons persons.

Definition process_list_response (r : GoogleListResponse) : M (list Contact) :=
  contacts <-- map_persons (pl_connections r);;
  match pl_next_sync_token r with
  | Some token => now <-- g_now clock;; c <-- g_client;; g_set (update_contacts_token now token c)
  | None => gret tt
  end;;;
  gret contacts.
End Client.
End GoogleContacts.
