(* ===== verification/GoogleFacts.v ===== *)
(** * Properties of the Google connectors

    Against a server that serves its pages, refusing a request at most three times in a row for the
    rate limit, a synchronisation returns what all pages list and keeps the token of the last one;
    an expired synchronisation token leads to a full listing. Against any server, a failed
    synchronisation leaves no new token and other calendars as they were. *)

From stdpp Require Import base tactics list gmap sets strings.
From Stdlib Require Import Ascii ZArith Lia.
From S2P Require Import Prelude RustString RustText Json Types Crypto Auth Sessions SessionsFacts Contacts Dav DavFacts ContactsFacts Calendar CalendarFacts Google.

Local Open Scope string_scope.
Local Open Scope list_scope.

Import GoogleHttp.

(** ** Requests *)

(** A 429, and a request answered by [r] after at most three of them, whenever it is sent. *)
Definition busy (o : Outcome) : Prop := ∃ r, o = Replied r ∧ gp_status r = 429%Z.

Definition serves (react : nat → GRequest → Outcome) (rq : GRequest) (r : GReply) : Prop :=
  gp_status r ≠ 429%Z ∧
  ∀ n, ∃ k, (k ≤ MAX_RATE_LIMIT_RETRIES)%nat ∧ (∀ j, (j < k)%nat → busy (react (n + j)%nat rq)) ∧
            react (n + k)%nat rq = Replied r.

(** The clock and the ids are as they were. *)
Definition untouched (w w' : World) : Prop := gw_reads w' = gw_reads w ∧ gw_ids w' = gw_ids w.

Section Loop.
Context (react : nat → GRequest → Outcome) {C E A : Type} (judge : nat → Outcome → Verdict (E:=E) A).

(** The loop waits out a 429 while retries are left. *)
Definition patient : Prop :=
  ∀ a r, (a < MAX_RATE_LIMIT_RETRIES)%nat → gp_status r = 429%Z → ∃ secs, judge a (Replied r) = Again secs.

Lemma send_loop_after rq r v k : patient → (∀ a, judge a (Replied r) = Done v) →
  ∀ fuel attempt (s : C * World), (k < fuel)%nat → (attempt + k ≤ MAX_RATE_LIMIT_RETRIES)%nat →
  (∀ j, (j < k)%nat → busy (react (length (gw_sent s.2) + j)%nat rq)) →
  react (length (gw_sent s.2) + k)%nat rq = Replied r →
  ∃ w, send_loop react fuel judge rq attempt s = Got v (s.1, w) ∧ untouched s.2 w.
Proof.
  intros Hp Hv. induction k as [|k IH]; intros [|fuel] attempt [c w] Hf Ha Hb Hr; try lia; cbn in *;
    unfold gbind, g_send; cbn.
  - rewrite Nat.add_0_r in Hr. rewrite Hr, Hv. by eexists.
  - destruct (Hb 0%nat ltac:(lia)) as (r' & E0 & H0). rewrite Nat.add_0_r in E0. rewrite E0.
    destruct (Hp attempt r' ltac:(lia) H0) as [secs ->]. cbn.
    destruct (IH fuel (S attempt) (c, mkWorld (gw_reads w) (gw_ids w) (gw_sent w ++ [(rq, Replied r')]) (gw_slept w ++ [secs])))
      as (w' & -> & [Hu1 Hu2]); cbn; try lia.
    + intros j Hj. rewrite length_app. cbn. specialize (Hb (S j) ltac:(lia)). by rewrite Nat.add_1_r, Nat.add_succ_comm.
    + rewrite length_app. cbn. by rewrite Nat.add_1_r, Nat.add_succ_comm.
    + by exists w'.
Qed.

Lemma send_loop_served rq r v (s : C * World) : patient → (∀ a, judge a (Replied r) = Done v) → serves react rq r →
  ∃ w, send_loop react SEND_FUEL judge rq 0 s = Got v (s.1, w) ∧ untouched s.2 w.
Proof.
  intros Hp Hv [_ Hs]. destruct (Hs (length (gw_sent s.2))) as (k & Hk & Hb & Hr).
  eapply send_loop_after; eauto. unfold SEND_FUEL. lia.
Qed.

(** Whatever the server answers, the loop ends and leaves the client. *)
Lemma send_loop_total rq :
  (∀ a o secs, judge a o = Again secs → (a < MAX_RATE_LIMIT_RETRIES)%nat) →
  ∀ (s : C * World), ∃ v w, send_loop react SEND_FUEL judge rq 0 s = Got v (s.1, w) ∧
    (length (gw_sent w) ≤ length (gw_sent s.2) + SEND_FUEL)%nat.
Proof.
  intros Hj. assert (∀ fuel attempt (s : C * World), (MAX_RATE_LIMIT_RETRIES < fuel + attempt)%nat →
    (0 < fuel)%nat → ∃ v w, send_loop react fuel judge rq attempt s = Got v (s.1, w) ∧
    (length (gw_sent w) ≤ length (gw_sent s.2) + fuel)%nat) as H.
  { induction fuel as [|fuel IH]; intros attempt [c w] Hf H0; [lia|]. cbn. unfold gbind, g_send. cbn.
    destruct (judge attempt _) as [secs|v] eqn:Ej; cbn.
    - apply Hj in Ej.
      edestruct (IH (S attempt)) as (v & w' & -> & Hl); [lia|lia|]. cbn in *. rewrite length_app in Hl. cbn in Hl.
      do 2 eexists. split; [done|]. lia.
    - do 2 eexists. split; [done|]. cbn. rewrite length_app. cbn. lia. }
  intros s. apply H; unfold SEND_FUEL; lia.
Qed.
End Loop.

(** ** Calendars *)

Section CalendarSync.
Import GoogleCalendar.
Context `{GoogleLib} `{Chrono} `{JsonText} (parse_utc : string → option Z).
Context (clock : nat → timestamp) (fresh : nat → string) (react : nat → GRequest → Outcome).

Lemma judge_patient {A} (read : json → option A) rq : patient (judge read rq).
Proof.
  intros a r Ha Hr. unfold judge, rate_limit. rewrite (proj2 (Z.eqb_eq _ _) Hr), (proj2 (Nat.leb_gt _ _) Ha). by eexists.
Qed.

Lemma judge_again {A} (read : json → option A) rq a o secs :
  judge read rq a o = Again secs → (a < MAX_RATE_LIMIT_RETRIES)%nat.
Proof.
  unfold judge, rate_limit. destruct o as [r|]; [|done]. destruct (_ =? 429)%Z; [|done].
  destruct (Nat.leb_spec MAX_RATE_LIMIT_RETRIES a); [done|]. done.
Qed.

(** *** What a server gives *)

(** The token endpoint always renews. *)
Definition renews (config : GoogleCalendarConfig) : Prop :=
  ∀ n rq, gr_url rq = gcc_token_endpoint config →
  ∃ r t, react n rq = Replied r ∧ is_success r = true ∧ decode read_token_response (gp_body r) = Some t ∧
         ∀ now, is_Some (add_seconds now (tr_expires_in t)).

(** A page is served whatever the access token. *)
Definition page_served (cid : string) (sync page : option string) (tmin tmax : option timestamp)
    (p : GoogleEventsListResponse) : Prop :=
  ∀ access, ∃ r, serves react (events_request cid access sync page tmin tmax) r ∧ is_success r = true ∧
                 decode read_events_list (gp_body r) = Some p.

(** The pages from a page token on, each naming the next. *)
Inductive pages (cid : string) (sync : option string) (tmin tmax : option timestamp) :
    option string → list GoogleEventsListResponse → Prop :=
| pages_last page p : page_served cid sync page tmin tmax p → el_next_page_token p = None →
    pages cid sync tmin tmax page [p]
| pages_more page p next ps : page_served cid sync page tmin tmax p → el_next_page_token p = Some next →
    pages cid sync tmin tmax (Some next) ps → pages cid sync tmin tmax page (p :: ps).

Lemma pages_length cid sync tmin tmax page ps : pages cid sync tmin tmax page ps → (0 < length ps)%nat.
Proof. destruct 1; cbn; lia. Qed.

(** The first page with a synchronisation token is answered 410. *)
Definition gone (cid token : string) : Prop :=
  ∀ access, ∃ r, serves react (events_request cid access (Some token) None None None) r ∧ gp_status r = 410%Z.

(** *** What a synchronisation gives *)

(** Events that are not cancelled and whose times parse. *)
Definition usable (e : GoogleEvent) : bool :=
  bool_decide (ge_status e ≠ Some "cancelled")
  && match parse_google_datetime (ge_start e), parse_google_datetime (ge_end e) with
     | Ok _, Ok _ => true
     | _, _ => false
     end.

Definition converted (items : list GoogleEvent) (events : list CalendarEvent) : Prop :=
  Forall2 (λ e ev, ∃ id created updated, normalize_google_event parse_utc id created updated e = Ok ev)
    (filter (λ e, usable e = true) items) events.

(** The ids are different draws. *)
Definition drawn (lo hi : nat) (events : list CalendarEvent) : Prop :=
  ∃ ns, ev_id <$> events = fresh <$> ns ∧ NoDup ns ∧ Forall (λ n, (lo ≤ n < hi)%nat) ns.

Lemma drawn_app lo mid hi xs ys :
  (lo ≤ mid ≤ hi)%nat → drawn lo mid xs → drawn mid hi ys → drawn lo hi (xs ++ ys).
Proof.
  intros Hm (n1 & E1 & D1 & F1) (n2 & E2 & D2 & F2). exists (n1 ++ n2). rewrite Forall_forall in F1, F2.
  split; [by rewrite !fmap_app, E1, E2|]. split.
  - apply NoDup_app. split; [done|]. split; [|done]. intros n Hi1 Hi2. specialize (F1 _ Hi1). specialize (F2 _ Hi2).
    cbn in *. lia.
  - rewrite Forall_app, !Forall_forall. split; intros n Hi; [apply F1 in Hi|apply F2 in Hi]; cbn in *; lia.
Qed.

Lemma converted_app i1 i2 e1 e2 : converted i1 e1 → converted i2 e2 → converted (i1 ++ i2) (e1 ++ e2).
Proof. unfold converted. rewrite filter_app. apply Forall2_app. Qed.

Lemma normalize_usable id t1 t2 e :
  usable e = negb (bool_decide (ge_status e = Some "cancelled"))
             && match normalize_google_event parse_utc id t1 t2 e with Ok _ => true | Err _ => false end.
Proof.
  unfold usable, normalize_google_event. rewrite bool_decide_not. f_equal.
  by destruct (parse_google_datetime (ge_start e)), (parse_google_datetime (ge_end e)).
Qed.

Lemma take_items_ok items c w :
  ∃ events w', take_items parse_utc clock fresh items (c, w) = Got (Ok events) (c, w') ∧
    converted items events ∧ (gw_ids w ≤ gw_ids w')%nat ∧ drawn (gw_ids w) (gw_ids w') events.
Proof.
  revert w. induction items as [|e items IH]; intros w.
  { exists [], w. split; [done|]. split; [constructor|]. split; [done|]. exists []. split; [done|]. split; constructor. }
  cbn [take_items]. case_bool_decide as Hc.
  - destruct (IH w) as (events & w' & Et & Hcv & Hl & Hd). exists events, w'. split; [done|]. split; [|done].
    unfold converted. rewrite filter_cons_False; [done|]. rewrite (normalize_usable "" 0 0), bool_decide_true by done. done.
  - unfold gbind, g_now, g_uuid. cbn [fst snd gw_reads gw_ids gw_sent gw_slept].
    set (n := gw_ids w). set (w1 := mkWorld _ (S n) _ _).
    destruct (IH w1) as (events & w' & Et & Hcv & Hl & ns & En & Dn & Fn). rewrite Et. cbn [gret].
    assert (gw_ids w1 = S n) as Hw by done. rewrite Hw in *.
    set (t1 := clock _). set (t2 := clock _).
    pose proof (normalize_usable (fresh n) t1 t2 e) as Hu. rewrite bool_decide_false in Hu by done. cbn in Hu.
    destruct (normalize_google_event parse_utc (fresh n) t1 t2 e) as [ev|msg] eqn:En'.
    + exists (ev :: events), w'. split; [done|]. unfold converted. rewrite filter_cons_True by done.
      split; [constructor; eauto|]. split; [lia|]. exists (n :: ns). rewrite Forall_forall in Fn. split; [|split].
      * cbn. rewrite En. f_equal. revert En'. unfold normalize_google_event.
        destruct (parse_google_datetime (ge_start e)), (parse_google_datetime (ge_end e)); cbn; intros Hn; try discriminate.
        by injection Hn as <-.
      * constructor; [|done]. intros Hi. apply Fn in Hi. cbn in Hi. lia.
      * constructor; [lia|]. apply Forall_forall. intros x Hx. apply Fn in Hx. cbn in Hx. lia.
    + exists events, w'. split; [done|]. unfold converted. rewrite filter_cons_False by (by rewrite Hu).
      split; [done|]. split; [lia|]. exists ns. split; [done|]. split; [done|]. eapply Forall_impl; [done|]. cbn. lia.
Qed.

(** *** Tokens and pages *)

(** The synchronisation states and the configuration stay, and the client keeps a token. *)
Definition keeps (c c' : GoogleCalendarClient) : Prop :=
  gc_config c' = gc_config c ∧ gc_sync_states c' = gc_sync_states c ∧ is_Some (gc_token_state c').

Lemma ensure_valid_token_ok secret c w :
  is_Some (gc_token_state c) → renews (gc_config c) →
  ∃ access c' w', GoogleCalendar.ensure_valid_token clock react secret (c, w) = Got (Ok access) (c', w') ∧ keeps c c' ∧ gw_ids w' = gw_ids w.
Proof.
  intros [ts Hts] Hr. unfold ensure_valid_token. unfold gbind at 1, g_client at 1. cbn [fst snd]. rewrite Hts.
  unfold gbind at 1, g_now. cbn [fst snd]. case_match; [|by do 3 eexists; repeat split; cbn; eauto].
  unfold refresh_access_token, gbind, g_client, g_send. cbn [fst snd].
  match goal with |- context [react ?n ?rq] => destruct (Hr n rq eq_refl) as (r & t & -> & Hok & Hd & Ha) end.
  cbn [token_answer]. rewrite Hok. cbn [negb]. rewrite Hd. unfold gbind, g_now. cbn [fst snd].
  match goal with |- context [add_seconds ?now _] => destruct (Ha now) as [x Hx] end. cbn in *. rewrite Hx. cbn.
  by do 3 eexists; repeat split; cbn; eauto.
Qed.

Lemma list_events_ok cid sync page tmin tmax secret p c w :
  is_Some (gc_token_state c) → renews (gc_config c) → page_served cid sync page tmin tmax p →
  ∃ c' w', list_events clock react cid sync page tmin tmax secret (c, w) = Got (Ok p) (c', w') ∧ keeps c c' ∧
    gw_ids w' = gw_ids w.
Proof.
  intros Ht Hr Hp. destruct (ensure_valid_token_ok secret c w Ht Hr) as (access & c' & w' & E & Hk & Hi).
  unfold list_events. unfold gbind at 1. rewrite E. destruct (Hp access) as (r & Hs & Hok & Hd).
  edestruct (send_loop_served react (C:=GoogleCalendarClient) (judge read_events_list (events_request cid access sync page tmin tmax))) as (w2 & E2 & Hu).
  - apply judge_patient.
  - intros a. unfold judge, rate_limit. rewrite (proj2 (Z.eqb_neq _ _) (proj1 Hs)). unfold map_error_response.
    rewrite Hok. cbn. by rewrite Hd.
  - exact Hs.
  - exists c', w2. split; [exact E2|]. split; [done|]. destruct Hu as [_ ->]. done.
Qed.

Lemma list_events_gone cid token secret c w :
  is_Some (gc_token_state c) → renews (gc_config c) → gone cid token →
  ∃ c' w', list_events clock react cid (Some token) None None None secret (c, w) = Got (Err SyncTokenExpired) (c', w') ∧
    keeps c c' ∧ gw_ids w' = gw_ids w.
Proof.
  intros Ht Hr Hp. destruct (ensure_valid_token_ok secret c w Ht Hr) as (access & c' & w' & E & Hk & Hi).
  unfold list_events. unfold gbind at 1. rewrite E. destruct (Hp access) as (r & Hs & Hg).
  edestruct (send_loop_served react (C:=GoogleCalendarClient) (judge read_events_list (events_request cid access (Some token) None None None))) as (w2 & E2 & Hu).
  - apply judge_patient.
  - intros a. unfold judge, rate_limit, map_error_response, is_success. by rewrite Hg.
  - exact Hs.
  - exists c', w2. split; [exact E2|]. split; [done|]. destruct Hu as [_ ->]. done.
Qed.

(** What the client holds after the pages [ps]. *)
Definition synced (cid : string) (c : GoogleCalendarClient) (ps : list GoogleEventsListResponse)
    (c' : GoogleCalendarClient) : Prop :=
  gc_config c' = gc_config c ∧ is_Some (gc_token_state c') ∧
  ∃ now, gc_sync_states c' = <[cid := mkSyncState (last ps ≫= el_next_sync_token) (Some now) None]> (gc_sync_states c).

Lemma sync_pages_ok cid sync tmin tmax secret page ps :
  pages cid sync tmin tmax page ps → ∀ fuel c w, (length ps ≤ fuel)%nat →
  is_Some (gc_token_state c) → renews (gc_config c) →
  ∃ events c' w', sync_pages parse_utc clock fresh react fuel cid sync page tmin tmax secret (c, w) = Got (Ok events) (c', w') ∧
    converted (ps ≫= el_items) events ∧ (gw_ids w ≤ gw_ids w')%nat ∧ drawn (gw_ids w) (gw_ids w') events ∧
    synced cid c ps c'.
Proof.
  induction 1 as [page p Hp Hn|page p next ps Hp Hn Hps IH]; intros [|fuel] c w Hf Ht Hr; cbn [length] in Hf; try lia;
    cbn [sync_pages]; unfold gbind at 1;
    destruct (list_events_ok cid sync page tmin tmax secret p c w Ht Hr Hp) as (c1 & w1 & -> & (Hc & Hs & Ht1) & Hi);
    unfold gbind at 1; destruct (take_items_ok (el_items p) c1 w1) as (events & w2 & -> & Hcv & Hl & Hd);
    rewrite Hi in *; rewrite Hn.
  - unfold gbind, g_now, g_client, g_set, gret. cbn [fst snd].
    do 3 eexists. split; [done|]. cbn. rewrite app_nil_r. split; [done|]. split; [done|]. split; [done|].
    split; [done|]. split; [done|]. eexists. rewrite <- Hs. done.
  - unfold gbind at 1. destruct (IH fuel c1 w2) as (more & c3 & w3 & -> & Hcv3 & Hl3 & Hd3 & Hc3 & Ht3 & now & Hs3);
      [lia|done|by rewrite Hc|].
    do 3 eexists. split; [done|]. split; [by apply converted_app|]. split; [lia|].
    split; [by eapply drawn_app; [|done|done]; lia|]. split; [congruence|]. split; [done|]. exists now.
    rewrite Hs3, Hs. f_equal. by destruct Hps.
Qed.

(** *** Synchronisation *)

(** A full listing is of 30 days back to a year ahead. *)
Definition full_pages (cid : string) (now : timestamp) (ps : list GoogleEventsListResponse) : Prop :=
  pages cid None (Some (now - DAYS 30)%Z) (Some (now + DAYS 365)%Z) None ps.

Definition stored_token (cid : string) (c : GoogleCalendarClient) : option string :=
  gc_sync_states c !! cid ≫= ss_sync_token.

(** Which pages a synchronisation is to read: those since the token while the server knows it,
    otherwise all, as of some reading of the clock. *)
Inductive to_read (cid : string) (full : timestamp → list GoogleEventsListResponse) :
    option string → list GoogleEventsListResponse → Prop :=
| read_first k : to_read cid full None (full (clock k))
| read_since token ps : pages cid (Some token) None None None ps → to_read cid full (Some token) ps
| read_again token k : gone cid token → to_read cid full (Some token) (full (clock k)).

Lemma sync_full_ok full fuel cid secret c w :
  is_Some (gc_token_state c) → renews (gc_config c) →
  (∀ now, full_pages cid now (full now) ∧ (length (full now) ≤ fuel)%nat) →
  ∃ k events c' w', sync_events_inner parse_utc clock fresh react fuel cid None secret (c, w) = Got (Ok events) (c', w') ∧
    converted (full (clock k) ≫= el_items) events ∧ drawn (gw_ids w) (gw_ids w') events ∧ synced cid c (full (clock k)) c'.
Proof.
  intros Ht Hr Hf. exists (gw_reads w). destruct (Hf (clock (gw_reads w))) as [Hp Hl].
  edestruct (sync_pages_ok _ _ _ _ secret _ _ Hp fuel c
    (mkWorld (S (gw_reads w)) (gw_ids w) (gw_sent w) (gw_slept w)) Hl Ht Hr) as (ev & c' & w' & E & Hc & _ & Hd & Hs).
  exists ev, c', w'. split; [exact E|]. done.
Qed.

(** C29. A synchronisation of a calendar whose server renews access tokens and serves its pages, with up to
    three refusals for the rate limit before each, returns an event for each listed one that is not
    cancelled and has times that parse, in order and with ids of their own, over all pages: those
    since the stored token, or of the whole window without a token or when the server has forgotten
    it (410). The client then holds the token of the last page and the states of the other calendars. *)
Theorem calendar_sync_complete full fuel cid secret c w :
  is_Some (gc_token_state c) → renews (gc_config c) →
  (∀ now, full_pages cid now (full now) ∧ (length (full now) ≤ fuel)%nat) →
  (∀ token, stored_token cid c = Some token →
     gone cid token ∨ ∃ ps, pages cid (Some token) None None None ps ∧ (length ps ≤ fuel)%nat) →
  ∃ ps events c' w',
    sync_events parse_utc clock fresh react fuel cid secret (c, w) = Got (Ok events) (c', w') ∧
    to_read cid full (stored_token cid c) ps ∧
    converted (ps ≫= el_items) events ∧ drawn (gw_ids w) (gw_ids w') events ∧ synced cid c ps c'.
Proof.
  intros Ht Hr Hfull Htok. unfold sync_events, stored_token in *. cbn [fst snd].
  destruct (gc_sync_states c !! cid ≫= ss_sync_token) as [token|] eqn:Est.
  - destruct (Htok token eq_refl) as [Hg|(ps & Hps & Hl)].
    + destruct fuel as [|fuel].
      { destruct (Hfull 0%Z) as [Hp Hl]. apply pages_length in Hp. lia. }
      destruct (list_events_gone cid token secret c w Ht Hr Hg) as (c1 & w1 & E & (Hc & Hs & Ht1) & Hi).
      unfold sync_events_inner at 1. cbn [sync_pages]. unfold gbind at 1. rewrite E.
      unfold gbind, g_client, g_set. cbn [fst snd].
      destruct (sync_full_ok full (S fuel) cid secret (reset_sync_state cid c1) w1) as (k & ev & c' & w' & E2 & Hcv & Hd & Hc2 & Ht2 & now & Hs2);
        [done|by rewrite <- Hc in Hr|done|].
      exists (full (clock k)), ev, c', w'. split; [exact E2|]. split; [by constructor|]. split; [done|].
      split; [by rewrite Hi in Hd|]. split; [by rewrite Hc2|]. split; [done|]. exists now. rewrite Hs2. cbn.
      by rewrite insert_delete_eq, Hs.
    + destruct (sync_pages_ok cid (Some token) None None secret None ps Hps fuel c w Hl Ht Hr) as (ev & c' & w' & E & Hcv & _ & Hd & Hs).
      exists ps, ev, c', w'. unfold sync_events_inner. rewrite E. split; [done|]. split; [by constructor|]. done.
  - destruct (sync_full_ok full fuel cid secret c w Ht Hr Hfull) as (k & ev & c' & w' & E & Hcv & Hd & Hs).
    rewrite E. exists (full (clock k)), ev, c', w'. split; [done|]. split; [constructor|]. done.
Qed.

(** *** Any server *)

(** An operation that leaves the synchronisation states, whatever comes back. *)
Definition leaves {A} (m : G (GoogleCalendarClient * World) GoogleApiError A) : Prop :=
  ∀ s r s', m s = Got r s' → gc_sync_states s'.1 = gc_sync_states s.1.

Lemma leaves_bind {A B} (m : G _ _ A) (k : A → G _ _ B) : leaves m → (∀ a, leaves (k a)) → leaves (gbind m k).
Proof.
  intros Hm Hk s r s'. unfold gbind. destruct (m s) as [[a|e] s1| |] eqn:E; [|intros [= <- <-]; by eapply Hm|done|done].
  intros E2. etrans; [by eapply Hk|by eapply Hm].
Qed.

Lemma leaves_send_loop {A} (j : nat → Outcome → Verdict A) fuel rq a : leaves (send_loop react fuel j rq a).
Proof.
  revert a. induction fuel as [|fuel IH]; intros a [c w] r s'; [done|]. cbn. unfold gbind, g_send. cbn.
  destruct (j a _) as [secs|v]; [|by intros [= <- <-]]. cbn. intros E. apply IH in E. done.
Qed.

Ltac leaves_prim := intros ? ? ? [= <- <-]; done.

Lemma leaves_ensure secret : leaves (GoogleCalendar.ensure_valid_token clock react secret).
Proof.
  assert (leaves (g_now (E:=GoogleApiError) clock)) as Hnow by leaves_prim.
  assert (leaves (g_client (E:=GoogleApiError))) as Hcl by leaves_prim.
  assert (∀ rq, leaves (g_send (E:=GoogleApiError) react rq)) as Hsend by (intros; leaves_prim).
  intros s r s'. unfold ensure_valid_token. unfold gbind at 1, g_client at 1. destruct (gc_token_state s.1) as [ts|] eqn:Ets;
    [|by intros [= <- <-]]. apply leaves_bind; [done|]. intros now. destruct (is_expired now ts); [|leaves_prim].
  apply leaves_bind.
  { unfold refresh_access_token. apply leaves_bind; [done|]. intros c. apply leaves_bind; [done|]. intros [rep|e]; [|leaves_prim].
    cbn. destruct (negb _); [leaves_prim|]. case_match; [|leaves_prim]. apply leaves_bind; [done|]. intros now'.
    case_match; [leaves_prim|by intros ? ? ?]. }
  intros ts'. intros s1 r1 s1'. unfold gbind, g_client, g_set, gret. cbn. by intros [= <- <-].
Qed.

Lemma leaves_list_events cid sync page tmin tmax secret : leaves (list_events clock react cid sync page tmin tmax secret).
Proof. apply leaves_bind; [apply leaves_ensure|]. intros a. apply leaves_send_loop. Qed.

(** An error leaves the states; success changes that of the calendar only. *)
Definition commits {A} (cid : string) (m : G (GoogleCalendarClient * World) GoogleApiError A) : Prop :=
  ∀ s r s', m s = Got r s' →
    match r with
    | Err _ => gc_sync_states s'.1 = gc_sync_states s.1
    | Ok _ => ∃ st, gc_sync_states s'.1 = <[cid := st]> (gc_sync_states s.1)
    end.

Lemma commits_after {A B} cid (m : G _ _ A) (k : A → G _ _ B) : leaves m → (∀ a, commits cid (k a)) → commits cid (gbind m k).
Proof.
  intros Hm Hk s r s'. unfold gbind. destruct (m s) as [[a|e] s1| |] eqn:E; [|intros [= <- <-]; by eapply Hm|done|done].
  intros E2. rewrite <- (Hm _ _ _ E). by eapply Hk.
Qed.

Lemma commits_sync_pages fuel cid sync page tmin tmax secret :
  commits cid (sync_pages parse_utc clock fresh react fuel cid sync page tmin tmax secret).
Proof.
  revert page. induction fuel as [|fuel IH]; intros page; [by intros ? ? ?|]. cbn [sync_pages].
  apply commits_after; [apply leaves_list_events|]. intros p. apply commits_after.
  { intros [c w] r s' E. destruct (take_items_ok (el_items p) c w) as (ev & w' & E' & _). rewrite E' in E. by injection E as <- <-. }
  intros ev. destruct (el_next_page_token p) as [next|].
  - intros s r s'. unfold gbind. destruct (sync_pages _ _ _ _ _ _ _ _ _ _ _ s) as [[more|e] s1| |] eqn:E;
      [|intros [= <- <-]; by apply IH in E|done|done]. intros [= <- <-]. by apply IH in E.
  - intros s r s'. unfold gbind, g_now, g_client, g_set, gret. cbn. intros [= <- <-]. cbn. by eexists.
Qed.

Lemma commits_inner fuel cid sync secret : commits cid (sync_events_inner parse_utc clock fresh react fuel cid sync secret).
Proof.
  unfold sync_events_inner. destruct sync; [apply commits_sync_pages|]. apply commits_after; [leaves_prim|].
  intros now. apply commits_sync_pages.
Qed.


(** *** Events there and back *)

Lemma from_rrule_prefix format_utc r :
  from_rrule parse_utc ("RRULE:" +:+ to_rrule format_utc r) = from_rrule parse_utc (to_rrule format_utc r).
Proof.
  unfold from_rrule at 1. rewrite (proj2 (strip_prefix_Some "RRULE:" _ _) eq_refl). cbn [default from_option].
  unfold from_rrule. assert (strip_prefix "RRULE:" (to_rrule format_utc r) = None) as ->; [|done].
  unfold to_rrule, rule_parts. destruct ((if (1 <? rc_interval r)%Z then _ else _) ++ _); by destruct (rc_frequency r).
Qed.

(** What is left of an event that went to Google and came back. *)
Definition google_copy (id : string) (e : CalendarEvent) : CalendarEvent :=
  {| ev_id := id; ev_title := ev_title e; ev_start := ev_start e; ev_end := Some (default (ev_start e) (ev_end e));
     ev_description := ev_description e; ev_location := ev_location e; ev_all_day := None;
     ev_recurrence := ev_recurrence e; ev_attendees := (λ a, from_email (at_email a)) <$> ev_attendees e;
     ev_reminders := []; ev_timezone := None; ev_status := None; ev_sequence := None;
     ev_source := "google-calendar"; ev_source_id := ev_source_id e;
     ev_extensions := Some (JObj [(EXTENSION, JObj [("google_event_id", JStr (ev_source_id e))])]);
     ev_created_at := ev_created_at e; ev_updated_at := ev_updated_at e |}.

(** An event converted for Google and back keeps its title, times, description, location, recurrence, the
    addresses of its attendees, its creation and change times and its id at the source; an event
    without an end gets its start as the end, and an id, the all-day flag, reminders, status, time
    zone and the details of attendees are not kept. Its times are in the years 0 to 9999. *)
Theorem google_event_round_trip `{laws : !ChronoLaws} format_utc id now_created now_updated e :
  Forall rfc3339_year [ev_start e; default (ev_start e) (ev_end e); ev_created_at e; ev_updated_at e] →
  (∀ r, ev_recurrence e = Some r → portable_rule format_utc parse_utc r) →
  normalize_google_event parse_utc id now_created now_updated (build_google_event format_utc e) = Ok (google_copy id e).
Proof.
  intros Hy Hr. do 4 apply Forall_cons in Hy as [? Hy].
  unfold normalize_google_event, build_google_event, parse_google_datetime. cbn.
  rewrite !rfc3339_parse by done. cbn. f_equal. unfold google_copy. f_equal.
  - destruct (ev_recurrence e) as [r|]; [|done]. etrans; [|by apply (rrule_round_trip format_utc), Hr].
    etrans; [|apply from_rrule_prefix]. done.
  - by rewrite <- list_fmap_compose.
Qed.
End CalendarSync.

(** ** Contacts *)

Section ContactsSync.
Import GoogleContacts.
Context `{GoogleLib} `{JsonText}.
Context (clock : nat → timestamp) (fresh : nat → string) (react : nat → GRequest → Outcome).

Lemma list_judge_patient : patient list_judge.
Proof.
  intros a r Ha Hr. unfold list_judge, people_judge, rate_limit. rewrite Hr. cbn -[MAX_RATE_LIMIT_RETRIES].
  rewrite (proj2 (Nat.leb_gt _ _) Ha). by eexists.
Qed.

(** The token endpoint always renews. *)
Definition people_renews (c : GoogleContactsClient) : Prop :=
  ∀ n rq, gr_url rq = kc_token_endpoint_url c →
  ∃ r token secs, react n rq = Replied r ∧ is_success r = true ∧
    GoogleCalendar.decode read_token (gp_body r) = Some (token, secs) ∧ ∀ now, is_Some (add_seconds now secs).

Definition people_served (base : string) (sync page : option string) (p : GoogleListResponse) : Prop :=
  ∀ access, ∃ r, serves react (people_request base access sync page) r ∧ is_success r = true ∧
                 GoogleCalendar.decode read_people_list (gp_body r) = Some p.

Inductive people_pages (base : string) (sync : option string) : option string → list GoogleListResponse → Prop :=
| people_last page p : people_served base sync page p → pl_next_page_token p = None →
    people_pages base sync page [p]
| people_more page p next ps : people_served base sync page p → pl_next_page_token p = Some next →
    people_pages base sync (Some next) ps → people_pages base sync page (p :: ps).

Definition people_gone (base token : string) : Prop :=
  ∀ access, ∃ r, serves react (people_request base access (Some token) None) r ∧ gp_status r = 410%Z.

Definition same_but_token (c c' : GoogleContactsClient) : Prop :=
  ∃ cache, c' = mkContactsClient (kc_config c) (kc_sync_state c) cache (kc_api_base_url c) (kc_token_endpoint_url c).

Lemma refresh_cache_ok secret refresh c w :
  people_renews c →
  ∃ access c' w', refresh_cache clock react c secret refresh (c, w) = Got (Ok access) (c', w') ∧
    same_but_token c c' ∧ gw_ids w' = gw_ids w.
Proof.
  intros Hr. unfold refresh_cache. unfold gbind at 1, g_send. cbn [fst snd].
  match goal with |- context [react ?n ?rq] => destruct (Hr n rq eq_refl) as (r & t & secs & -> & Hok & Hd & Ha) end.
  rewrite Hok. cbn [negb]. rewrite Hd. unfold gbind, g_now, g_client, g_set. cbn [fst snd].
  match goal with |- context [add_seconds ?now _] => destruct (Ha now) as [x Hx] end. cbn in *. rewrite Hx. cbn.
  do 3 eexists. split; [done|]. split; [by eexists|done].
Qed.

Lemma people_token_ok secret refresh c w :
  people_renews c →
  ∃ access c' w', GoogleContacts.ensure_valid_token clock react secret refresh (c, w) = Got (Ok access) (c', w') ∧
    same_but_token c c' ∧ gw_ids w' = gw_ids w.
Proof.
  intros Hr. unfold ensure_valid_token. unfold gbind at 1, g_client at 1. cbn [fst snd].
  destruct (kc_token_cache c) as [cache|] eqn:Ec; [|by apply refresh_cache_ok].
  unfold gbind at 1, g_now at 1. cbn [fst snd]. destruct (cache_expired _ cache); [by apply (refresh_cache_ok _ _ _ (mkWorld _ _ _ _))|].
  do 3 eexists. split; [done|]. split; [|done]. exists (Some cache). rewrite <- Ec. by destruct c.
Qed.

(** A page, and a forgotten token. *)
Lemma people_page_served sync page secret refresh v c w :
  people_renews c →
  (∀ access, ∃ r, serves react (people_request (kc_api_base_url c) access sync page) r ∧
                  ∀ a, list_judge a (Replied r) = Done v) →
  ∃ access c' w' w'', GoogleContacts.ensure_valid_token clock react secret refresh (c, w) = Got (Ok access) (c', w') ∧
    send_loop react SEND_FUEL list_judge (people_request (kc_api_base_url c') access sync page) 0 (c', w') = Got v (c', w'') ∧
    same_but_token c c' ∧ gw_ids w'' = gw_ids w.
Proof.
  intros Hr Hp. destruct (people_token_ok secret refresh c w Hr) as (access & c' & w' & E & Hk & Hi).
  destruct (Hp access) as (r & Hs & Hd).
  destruct (send_loop_served react (C:=GoogleContactsClient) list_judge _ _ _ (c', w') list_judge_patient Hd Hs) as (w2 & E2 & _ & Hu).
  exists access, c', w', w2. cbn in *. split; [done|]. split; [|by rewrite Hu]. destruct Hk as [? ->]. exact E2.
Qed.

Lemma list_judge_page base access sync page r p :
  serves react (people_request base access sync page) r → is_success r = true →
  GoogleCalendar.decode read_people_list (gp_body r) = Some p → ∀ a, list_judge a (Replied r) = Done (Ok p).
Proof.
  intros [Hs _] Hok Hd a. unfold list_judge, people_judge, rate_limit. rewrite (proj2 (Z.eqb_neq _ _) Hs).
  destruct (Z.eqb_spec (gp_status r) 410) as [E|]; [unfold is_success in Hok; by rewrite E in Hok|].
  rewrite Hok. cbn. by rewrite Hd.
Qed.

(** The state after the pages: the token of the last, if it has one. *)
Definition people_synced (before : GoogleSyncState) (ps : list GoogleListResponse) (after : GoogleSyncState) : Prop :=
  match last ps ≫= pl_next_sync_token with
  | Some token => ∃ now, after = mkContactsSync (Some token) (Some now)
  | None => after = before
  end.

Lemma list_inner_ok base sync page ps secret refresh :
  people_pages base sync page ps → ∀ fuel c w, (length ps ≤ fuel)%nat → people_renews c → kc_api_base_url c = base →
  ∃ c' w', list_connections_inner clock react fuel sync page secret refresh (c, w) = Got (Ok (ps ≫= pl_connections)) (c', w') ∧
    gw_ids w' = gw_ids w ∧ people_synced (kc_sync_state c) ps (kc_sync_state c').
Proof.
  induction 1 as [page p Hp Hn|page p next ps Hp Hn Hps IH]; intros [|fuel] c w Hf Hr <-; cbn [length] in Hf; try lia;
    cbn [list_connections_inner];
    destruct (people_page_served sync page secret refresh (Ok p) c w Hr) as (access & c1 & w1 & w2 & E1 & E2 & [cache ->] & Hi);
    try (intros a; destruct (Hp a) as (r & Hs & Hok & Hd); exists r; split; [done|by eapply list_judge_page]);
    unfold gbind at 1; rewrite E1; unfold gbind at 1, g_client at 1; unfold gbind at 1; cbn [fst snd] in *; rewrite E2, Hn.
  - unfold people_synced. cbn. destruct (pl_next_sync_token p); cbn; do 2 eexists; (split; [by rewrite app_nil_r|]);
      (split; [done|]); [by eexists|done].
  - unfold gbind. edestruct (IH fuel) as (c3 & w3 & -> & Hi3 & Hs3); [lia| |done|].
    { exact Hr. }
    do 2 eexists. split; [done|]. split; [congruence|]. unfold people_synced in *. by destruct Hps.
Qed.

Lemma map_persons_ok ps c w :
  ∃ contacts w', map_persons clock fresh ps (c, w) = Got (Ok contacts) (c, w') ∧
    Forall2 (λ p ct, ∃ id now, ct = map_google_person id now p) ps contacts ∧
    ct_id <$> contacts = fresh <$> seq (gw_ids w) (length ps).
Proof.
  revert w. induction ps as [|p ps IH]; intros w.
  { exists [], w. split; [done|]. split; [constructor|done]. }
  cbn [map_persons]. unfold gbind, g_now, g_uuid. cbn [fst snd gw_reads gw_ids gw_sent gw_slept].
  set (w1 := mkWorld _ _ _ _). destruct (IH w1) as (cs & w' & -> & HF & Hids). do 2 eexists. split; [done|].
  split; [constructor; eauto|]. cbn. by rewrite Hids.
Qed.

(** Which pages are read, and the state their token replaces. *)
Definition to_list (c : GoogleContactsClient) (all ps : list GoogleListResponse) (before : GoogleSyncState) : Prop :=
  match cs_sync_token (kc_sync_state c) with
  | None => ps = all ∧ before = kc_sync_state c
  | Some token => people_gone (kc_api_base_url c) token ∧ ps = all ∧ before = no_sync
                  ∨ people_pages (kc_api_base_url c) (Some token) None ps ∧ before = kc_sync_state c
  end.

Lemma list_connections_ok all fuel secret refresh c w :
  people_renews c → people_pages (kc_api_base_url c) None None all → (length all ≤ fuel)%nat →
  (∀ token, cs_sync_token (kc_sync_state c) = Some token →
     people_gone (kc_api_base_url c) token ∨
     ∃ ps, people_pages (kc_api_base_url c) (Some token) None ps ∧ (length ps ≤ fuel)%nat) →
  ∃ ps before c1 w1, list_connections clock react fuel secret refresh (c, w) = Got (Ok (ps ≫= pl_connections)) (c1, w1) ∧
    gw_ids w1 = gw_ids w ∧ people_synced before ps (kc_sync_state c1) ∧ to_list c all ps before.
Proof.
  intros Hr Hall Hlen Htok. unfold to_list.
  unfold list_connections. cbn [fst]. destruct (cs_sync_token (kc_sync_state c)) as [token|].
  - destruct (Htok token eq_refl) as [Hg|(ps & Hps & Hl)].
    + destruct fuel as [|fuel]; [destruct Hall; cbn in Hlen; lia|]. cbn [list_connections_inner].
      destruct (people_page_served (Some token) None secret refresh (Err "410 Gone: sync token expired") c w Hr)
        as (access & c1 & w1 & w2 & E1 & E2 & [cache ->] & Hi).
      { intros a. destruct (Hg a) as (r & Hsv & H410). exists r. split; [done|]. intros n. unfold list_judge. by rewrite H410. }
      unfold gbind at 1. rewrite E1. unfold gbind at 1, g_client at 1. unfold gbind at 1. cbn [fst snd] in *. rewrite E2.
      replace (contains_str "410 Gone: sync token expired" "410" || _) with true by by vm_compute.
      unfold gbind, g_client, g_set. cbn [fst snd].
      edestruct (list_inner_ok (kc_api_base_url c) None None all secret refresh Hall (S fuel)
        (reset_contacts_sync (mkContactsClient (kc_config c) (kc_sync_state c) cache (kc_api_base_url c) (kc_token_endpoint_url c))) w2) as (c3 & w3 & E3 & Hi3 & Hs3);
        [done|exact Hr|done|].
      exists all, no_sync, c3, w3. split; [exact E3|]. split; [congruence|]. split; [exact Hs3|]. by left.
    + destruct (list_inner_ok _ _ _ _ secret refresh Hps fuel c w Hl Hr eq_refl) as (c1 & w1 & E & Hi & Hs).
      rewrite E. exists ps, (kc_sync_state c), c1, w1. split; [done|]. split; [done|]. split; [done|]. by right.
  - destruct (list_inner_ok _ _ _ _ secret refresh Hall fuel c w Hlen Hr eq_refl) as (c1 & w1 & E & Hi & Hs).
    rewrite E. by exists all, (kc_sync_state c), c1, w1.
Qed.

(** A synchronisation of contacts with a server that renews access tokens and serves its pages, with up to three
    refusals for the rate limit before each, returns a contact for each person of every page, in
    order and with ids of their own: those since the stored token, or all without a token or when the
    server has forgotten it (410). The token of the last page is stored if it has one. *)
Theorem contacts_sync_complete all fuel secret refresh c w :
  people_renews c → people_pages (kc_api_base_url c) None None all → (length all ≤ fuel)%nat →
  (∀ token, cs_sync_token (kc_sync_state c) = Some token →
     people_gone (kc_api_base_url c) token ∨
     ∃ ps, people_pages (kc_api_base_url c) (Some token) None ps ∧ (length ps ≤ fuel)%nat) →
  ∃ ps before contacts c' w',
    sync_contacts clock fresh react fuel secret refresh (c, w) = Got (Ok contacts) (c', w') ∧
    to_list c all ps before ∧
    Forall2 (λ p ct, ∃ id now, ct = map_google_person id now p) (ps ≫= pl_connections) contacts ∧
    ct_id <$> contacts = fresh <$> seq (gw_ids w) (length (ps ≫= pl_connections)) ∧
    people_synced before ps (kc_sync_state c').
Proof.
  intros Hr Hall Hlen Htok.
  destruct (list_connections_ok all fuel secret refresh c w Hr Hall Hlen Htok) as (ps & before & c1 & w1 & E & Hi & Hs & Hm).
  destruct (map_persons_ok (ps ≫= pl_connections) c1 w1) as (contacts & w2 & E2 & HF & Hids).
  exists ps, before, contacts, c1, w2. unfold sync_contacts, gbind. rewrite E, E2. by rewrite <- Hi.
Qed.
End ContactsSync.

(** ** A server *)

(** Every second request is refused for the rate limit. *)
Definition demo_server (token_url : string) (reply : GRequest → GReply) (n : nat) (rq : GRequest) : Outcome :=
  if bool_decide (gr_url rq = token_url) then Replied (mkGReply 200 None "token")
  else if Nat.even n then Replied (mkGReply 429 (Some "1") "slow down")
  else Replied (reply rq).

Lemma demo_serves token_url reply rq :
  gr_url rq ≠ token_url → gp_status (reply rq) ≠ 429%Z → serves (demo_server token_url reply) rq (reply rq).
Proof.
  intros Hu Hs. split; [done|]. intros n. unfold demo_server. rewrite bool_decide_false by done.
  destruct (Nat.even n) eqn:En.
  - exists 1%nat. split; [unfold MAX_RATE_LIMIT_RETRIES; lia|]. split.
    + intros j Hj. assert (j = 0%nat) as -> by lia. rewrite Nat.add_0_r, En. by eexists.
    + by rewrite Nat.add_1_r, Nat.even_succ, <- Nat.negb_even, En.
  - exists 0%nat. split; [unfold MAX_RATE_LIMIT_RETRIES; lia|]. split; [lia|]. by rewrite Nat.add_0_r, En.
Qed.

#[local] Instance demo_lib : GoogleLib := {|
  status_display := show_Z;
  url_display := gr_url;
  decode_error := λ _, "invalid";
  add_seconds := λ t n, Some (t + n * 1000000000)%Z;
  parse_ymd := λ s, Err s;
  rfc3339_error := λ _, "invalid";
|}.

#[local] Instance demo_chrono : Chrono := toy_chrono.

Definition demo_token : json :=
  mk_obj [("access_token", JStr "new"); ("expires_in", JNum (NInt 3600)); ("token_type", JStr "Bearer")].

Definition demo_query (k : string) (rq : GRequest) : bool := existsb (λ kv, String.eqb (fst kv) k) (gr_query rq).

(** A forgotten token, then two pages. *)
Definition demo_reply (rq : GRequest) : GReply :=
  if demo_query "syncToken" rq then mkGReply 410 None empty_str
  else if demo_query "pageToken" rq then mkGReply 200 None "second" else mkGReply 200 None "first".

Definition demo_text (first second : json) : JsonText := {|
  json_from_str := λ s, if String.eqb s "token" then Ok demo_token else if String.eqb s "first" then Ok first
                        else if String.eqb s "second" then Ok second else Err "no JSON";
  json_to_string := λ _, "JSON";
|}.

Definition demo_when (t : Z) : json := mk_obj [("dateTime", JStr (to_rfc3339 t))].

Definition demo_item (id : string) (rest : list (string * json)) : json :=
  mk_obj ([("id", JStr id); ("start", demo_when 5); ("end", demo_when 6)] ++ rest).

Section CalendarWitness.
Import GoogleCalendar.

#[local] Instance calendar_text : JsonText := demo_text
  (mk_obj [("items", JArr [demo_item "e1" [("summary", JStr "One")]; demo_item "e2" [("status", JStr "cancelled")]]);
           ("nextPageToken", JStr "2")])
  (mk_obj [("items", JArr [demo_item "e3" []]); ("nextSyncToken", JStr "t9")]).

Definition demo_config : GoogleCalendarConfig :=
  mkGoogleCalendarConfig "app" "secret" "refresh" "http://localhost" DEFAULT_AUTH_ENDPOINT DEFAULT_TOKEN_ENDPOINT.

Definition demo_client : GoogleCalendarClient :=
  mkCalendarClient demo_config (Some (mkTokenState "old" "renew" 0 []))
    {[ "cal" := mkSyncState (Some "t1") None None; "other" := mkSyncState (Some "u1") None None ]}.

Definition demo_calendar : nat → GRequest → Outcome := demo_server DEFAULT_TOKEN_ENDPOINT demo_reply.

Definition demo_body (body : string) : GoogleEventsListResponse := default (mkEventsList [] None None) (decode read_events_list body).

Definition demo_pages : list GoogleEventsListResponse := [demo_body "first"; demo_body "second"].

Definition demo_event : nat → string := λ n, "id" +:+ show_Z (Z.of_nat n).

Lemma demo_page sync page tmin tmax p :
  sync = None → decode read_events_list (if page is Some _ then "second" else "first") = Some p →
  page_served demo_calendar "cal" sync page tmin tmax p.
Proof.
  intros -> Hd access. set (rq := events_request "cal" access None page tmin tmax).
  assert (demo_reply rq = mkGReply 200 None (if page is Some _ then "second" else "first")) as Hr
    by (by destruct page, tmin, tmax).
  exists (demo_reply rq). split; [apply demo_serves; [done|by rewrite Hr]|]. rewrite Hr. done.
Qed.

Lemma demo_full now : full_pages demo_calendar "cal" now demo_pages.
Proof.
  apply (pages_more _ _ _ _ _ _ _ "2"); [by apply demo_page|by vm_compute|].
  apply pages_last; [by apply demo_page|by vm_compute].
Qed.

Lemma demo_renews : renews demo_calendar demo_config.
Proof.
  intros n rq Hu. exists (mkGReply 200 None "token"), (mkTokenResponse "new" None 3600 None). unfold demo_calendar, demo_server.
  rewrite bool_decide_true by done. split; [done|]. split; [done|]. split; [by vm_compute|]. by eexists.
Qed.

Lemma demo_gone token : gone demo_calendar "cal" token.
Proof. intros access. eexists. split; [by apply demo_serves|]. done. Qed.

Lemma calendar_sync_complete_witness :
  ∃ ps events c' w',
    sync_events parse_u64 Z.of_nat demo_event demo_calendar 2 "cal" "secret" (demo_client, mkWorld 0 0 [] []) = Got (Ok events) (c', w') ∧
    to_read Z.of_nat demo_calendar "cal" (λ _, demo_pages) (Some "t1") ps ∧
    converted parse_u64 (ps ≫= el_items) events ∧ drawn demo_event 0 (gw_ids w') events ∧ synced "cal" demo_client ps c'.
Proof.
  apply (calendar_sync_complete parse_u64 Z.of_nat demo_event demo_calendar (λ _, demo_pages) 2 "cal" "secret" demo_client
           (mkWorld 0 0 [] [])).
  - by eexists.
  - apply demo_renews.
  - intros now. split; [apply demo_full|done].
  - intros token _. left. apply demo_gone.
Defined.

(** Two events of two pages, four refusals, and the state of the other calendar. *)
Example calendar_sync_run :
  match sync_events parse_u64 Z.of_nat demo_event demo_calendar 2 "cal" "secret" (demo_client, mkWorld 0 0 [] []) with
  | Got (Ok events) (c, w) => (ev_source_id <$> events, ss_sync_token <$> (gc_sync_states c !! "cal"),
                               ss_sync_token <$> (gc_sync_states c !! "other"), length (gw_sent w), gw_slept w)
  | _ => ([], None, None, 0%nat, [])
  end = (["e1"; "e3"], Some (Some "t9"), Some (Some "u1"), 6%nat, [1; 1]%Z).
Proof. vm_compute. reflexivity. Qed.


Lemma google_event_round_trip_witness :
  let e := {| ev_id := "1"; ev_title := "Review"; ev_start := 5; ev_end := None; ev_description := None; ev_location := Some "Room";
              ev_all_day := None; ev_recurrence := Some fortnightly; ev_attendees := [from_email "a@b.org"]; ev_reminders := [];
              ev_timezone := None; ev_status := None; ev_sequence := None; ev_source := "local"; ev_source_id := "s1";
              ev_extensions := None; ev_created_at := 1; ev_updated_at := 2 |} in
  normalize_google_event parse_u64 "2" 9 9 (build_google_event show_Z e) = Ok (google_copy "2" e).
Proof.
  intros e. apply (google_event_round_trip (laws := toy_chrono_laws) parse_u64 show_Z).
  { repeat constructor; vm_compute; congruence. }
  intros r [= <-].
  constructor; cbn [rc_interval rc_count rc_by_day rc_until fortnightly].
  - lia.
  - intros n [= <-]. lia.
  - intros ds [= <-]. split; [done|]. repeat constructor; solve_prop.
  - intros t [= <-]. split; [done|]. split; [by vm_compute|solve_prop].
Defined.
End CalendarWitness.

Section ContactsWitness.
Import GoogleContacts.

#[local] Instance contacts_text : JsonText := demo_text
  (mk_obj [("connections", JArr [mk_obj [("resource_name", JStr "people/1"); ("given_name", JStr "Ann")]]);
           ("nextPageToken", JStr "2")])
  (mk_obj [("connections", JArr [mk_obj [("resource_name", JStr "people/2")]]); ("nextSyncToken", JStr "t9")]).

Definition demo_contacts : nat → GRequest → Outcome := demo_server TOKEN_ENDPOINT demo_reply.

Definition demo_people (body : string) : GoogleListResponse :=
  default (mkPeopleList [] None None None) (GoogleCalendar.decode read_people_list body).

Definition demo_person_client : GoogleContactsClient :=
  set_sync (mkContactsSync (Some "t1") None) (new_contacts_client (mkGoogleContactsConfig "app" "secret" "refresh")).

Lemma demo_people_page page p :
  GoogleCalendar.decode read_people_list (if page is Some _ then "second" else "first") = Some p →
  people_served demo_contacts PEOPLE_API_BASE None page p.
Proof.
  intros Hd access. set (rq := people_request PEOPLE_API_BASE access None page).
  assert (demo_reply rq = mkGReply 200 None (if page is Some _ then "second" else "first")) as Hr by (by destruct page).
  exists (demo_reply rq). split; [apply demo_serves; [done|by rewrite Hr]|]. by rewrite Hr.
Qed.

Lemma contacts_sync_complete_witness :
  ∃ ps before contacts c' w',
    sync_contacts Z.of_nat demo_event demo_contacts 2 "secret" "renew" (demo_person_client, mkWorld 0 0 [] [])
    = Got (Ok contacts) (c', w') ∧
    to_list demo_contacts demo_person_client [demo_people "first"; demo_people "second"] ps before ∧
    Forall2 (λ p ct, ∃ id now, ct = map_google_person id now p) (ps ≫= pl_connections) contacts ∧
    ct_id <$> contacts = demo_event <$> seq 0 (length (ps ≫= pl_connections)) ∧
    people_synced before ps (kc_sync_state c').
Proof.
  apply (contacts_sync_complete Z.of_nat demo_event demo_contacts [demo_people "first"; demo_people "second"] 2 "secret" "renew"
           demo_person_client (mkWorld 0 0 [] [])).
  - intros n rq Hu. exists (mkGReply 200 None "token"), "new", 3600%Z. unfold demo_contacts, demo_server.
    rewrite bool_decide_true by done. split; [done|]. split; [done|]. split; [by vm_compute|]. by eexists.
  - apply (people_more _ _ _ _ _ "2"); [by apply demo_people_page|by vm_compute|].
    apply people_last; [by apply demo_people_page|by vm_compute].
  - done.
  - intros token _. left. intros access. eexists. split; [by apply demo_serves|]. done.
Defined.

(** An error whose text has "410" in it starts a full listing. *)
Example error_text_resets :
  match sync_contacts Z.of_nat demo_event (λ _ rq, if demo_query "syncToken" rq then Replied (mkGReply 500 None "request 4107 failed")
                                                   else if String.eqb (gr_method rq) "POST" then Replied (mkGReply 200 None "token")
                                                   else Replied (mkGReply 500 None "still failing"))
          2 "secret" "renew" (demo_person_client, mkWorld 0 0 [] []) with
  | Got (Err _) (c, w) => (cs_sync_token (kc_sync_state c), length (gw_sent w))
  | _ => (None, 0%nat)
  end = (None, 3%nat).
Proof. vm_compute. reflexivity. Qed.
End ContactsWitness.

(** ** Addresses *)

Import GoogleCalendar.

Lemma hex_digit_inj n m : (n < 16)%N → (m < 16)%N → hex_digit n = hex_digit m → n = m.
Proof.
  intros Hn Hm E. unfold hex_digit in E.
  destruct (N.ltb_spec n 10), (N.ltb_spec m 10); apply (f_equal N_of_ascii) in E; rewrite !N_ascii_embedding in E by lia; lia.
Qed.

(** Different calendars have different addresses. *)
Lemma urlencode_inj a b : urlencode a = urlencode b → a = b.
Proof.
  revert b. induction a as [|c a IH]; intros [|d b]; cbn [urlencode]; intros E.
  - done.
  - by destruct (unreserved d).
  - by destruct (unreserved c).
  - destruct (unreserved c) eqn:Ec, (unreserved d) eqn:Ed; [|injection E as -> _; done|injection E as <- _; done|].
    + injection E as -> E. f_equal. by apply IH.
    + injection E as E1 E2 E3. f_equal; [|by apply IH]. unfold byte_of in *.
      assert (N_of_ascii c < 256)%N by apply N_ascii_bounded. assert (N_of_ascii d < 256)%N by apply N_ascii_bounded.
      apply hex_digit_inj in E1, E2; try (apply N.mod_lt; lia); try (apply N.Div0.div_lt_upper_bound; lia).
      assert (N_of_ascii c = N_of_ascii d) as Ecd.
      { rewrite (N.Div0.div_mod (N_of_ascii c) 16), (N.Div0.div_mod (N_of_ascii d) 16). by rewrite E1, E2. }
      by rewrite <- (ascii_N_embedding c), <- (ascii_N_embedding d), Ecd.
Qed.
