(* ===== verification/DavTransport.v ===== *)
(** * The CalDAV and CardDAV transports

    packages/transport-caldav/src and packages/transport-carddav/src: the answers to PROPFIND,
    REPORT, GET, PUT, DELETE, OPTIONS and the creation of a collection, over an in-memory state that
    no handler changes, and the routes. The two crates have the same handlers up to names, texts and
    elements, which are a [Dialect] here; [Caldav] and [Carddav] are its instances. The XML reader is
    a parameter, as in [Dav]. A panic is [None]. *)

From stdpp Require Import base tactics list gmap sets strings pretty.
From Stdlib Require Import Ascii ZArith Lia.
From S2P Require Import Prelude RustString RustText Types Crypto Dav DavFacts Webhooks.

Local Open Scope string_scope.
Local Open Scope list_scope.

Import DavXml.

(** ** Data *)

Inductive Depth : Type := DepthZero | DepthOne | DepthInfinity.

#[export] Instance depth_eq_dec : EqDecision Depth.
Proof. solve_decision. Defined.

Definition depth_parse (value : string) : Depth :=
  let v := trim value in
  if bool_decide (v = "0") then DepthZero else if bool_decide (v = "1") then DepthOne else DepthInfinity.

(** [CalendarCollection] and [AddressbookCollection]; only calendars have a colour. *)
Record DavCollection : Type := mkCollection {
  cl_display_name : string;
  cl_path : string;
  cl_description : option string;
  cl_color : option string;
}.

(** [CalendarResource] and [ContactResource]. *)
Record DavItem : Type := mkItem {
  it_uid : string;
  it_data : string;
  it_etag : string;
}.

Record DavState : Type := mkDavState {
  ds_base_path : string;
  ds_principal : string;
  ds_collections : list DavCollection;
  ds_resources : gmap string (list DavItem);
}.

Definition find_collection (path : string) (s : DavState) : option DavCollection :=
  snd <$> list_find (λ c, cl_path c = path) (ds_collections s).

Definition find_item (uid : string) (rs : list DavItem) : option DavItem :=
  snd <$> list_find (λ r, it_uid r = uid) rs.

Definition find_resource (collection uid : string) (s : DavState) : option DavItem :=
  ds_resources s !! collection ≫= find_item uid.

Record DavAnswer : Type := mkDavAnswer {
  da_status : Z;
  da_headers : list (string * string);
  da_body : string;
}.

(** A status with a text. *)
Definition plain (status : Z) (text : string) : DavAnswer :=
  mkDavAnswer status [("content-type", "text/plain; charset=utf-8")] text.

(** What differs between the crates. *)
Record Dialect : Type := mkDialect {
  d_namespaces : list (string * string);
  d_home : string;
  d_resource_type : string;
  d_description : string;
  d_description_element : string;
  d_supported : string;
  d_supported_set : string;
  d_content_type : string;
  d_data : string;
  d_data_element : string;
  (** the reports of the dialect, with the hrefs of a multiget *)
  d_report : ReportRequest → option (list (string * string) * option (list string));
  d_etag : string;
  d_allow : string;
  d_dav : string;
  d_not_found : string;
  d_path_required : string;
  d_other_report : string;
  d_exists : string;
  d_make : string;
  d_well_known : string;
}.

Definition CONTENT_TYPE_XML : string := "application/xml; charset=utf-8".

(** ** Handlers *)

Section Handlers.
Context (d : Dialect) (read_events : string → list Event * option string).

Definition extract_depth (h : Inbound.Headers) : Depth :=
  default DepthInfinity (depth_parse <$> Inbound.header h "depth").

Definition prop_requested (pf : PropfindRequest) (name : string) : bool :=
  match pf with
  | AllProp | PropName => true
  | Prop_ props => existsb (λ p, String.eqb (snd p) name) props
  end.

(** The properties asked for among those on offer. *)
Definition asked (pf : PropfindRequest) (offer : list (string * list DavProperty)) : list DavProperty :=
  offer ≫= λ np, if prop_requested pf (fst np) then snd np else [].

Definition build_home_properties (s : DavState) (pf : PropfindRequest) : list DavProperty :=
  asked pf
    [("resourcetype", [CustomRaw "<D:resourcetype><D:collection/></D:resourcetype>"]);
     ("displayname", [CustomText "D:displayname" (d_home d)]);
     ("current-user-principal",
        [CustomRaw ("<D:current-user-principal><D:href>" +:+ ds_principal s +:+ "</D:href></D:current-user-principal>")])].

Definition build_collection_properties (c : DavCollection) (pf : PropfindRequest) : list DavProperty :=
  asked pf
    [("resourcetype", [CustomRaw (d_resource_type d)]);
     ("displayname", [CustomText "D:displayname" (cl_display_name c)]);
     (d_description d, match cl_description c with
                       | Some desc => [CustomText (d_description_element d) desc]
                       | None => []
                       end);
     (d_supported d, [CustomRaw (d_supported_set d)])].

Definition build_resource_properties (r : DavItem) (pf : PropfindRequest) : list DavProperty :=
  asked pf [("getetag", [ETag (it_etag r)]); ("getcontenttype", [ContentType (d_content_type d)])].

Definition report_property (r : DavItem) (local : string) : list DavProperty :=
  if bool_decide (local = "getetag") then [ETag (it_etag r)]
  else if bool_decide (local = "getcontenttype") then [ContentType (d_content_type d)]
  else if bool_decide (local = d_data d) then [CustomText (d_data_element d) (it_data r)]
  else [].

Definition item_href (base collection : string) (r : DavItem) : string := base +:+ "/" +:+ collection +:+ "/" +:+ it_uid r.

Definition build_report_entry (base collection : string) (r : DavItem) (properties : list (string * string)) :
    DavResourceEntry :=
  {| re_href := item_href base collection r; re_properties := properties ≫= λ p, report_property r (snd p) |}.

Definition collection_entry (s : DavState) (pf : PropfindRequest) (c : DavCollection) : DavResourceEntry :=
  {| re_href := ds_base_path s +:+ "/" +:+ cl_path c +:+ "/"; re_properties := build_collection_properties c pf |}.

(** The document of some entries. *)
Definition document (entries : list DavResourceEntry) : string :=
  close_multistatus (foldl write_response_entry (open_multistatus empty_str (d_namespaces d)) entries).

Definition multistatus_response (entries : list DavResourceEntry) : DavAnswer :=
  mkDavAnswer 207 [("content-type", CONTENT_TYPE_XML)] (document entries).

Definition handle_propfind (s : DavState) (collection : option string) (h : Inbound.Headers) (body : string) : DavAnswer :=
  let depth := extract_depth h in
  match parse_propfind read_events body with
  | Err e => plain 400 e
  | Ok pf =>
      match collection with
      | None =>
          multistatus_response
            ({| re_href := ds_base_path s +:+ "/"; re_properties := build_home_properties s pf |}
             :: (if bool_decide (depth = DepthOne) then collection_entry s pf <$> ds_collections s else []))
      | Some col =>
          match find_collection col s with
          | None => plain 404 (d_not_found d)
          | Some c =>
              multistatus_response
                (collection_entry s pf c
                 :: (if bool_decide (depth = DepthOne) then
                       (λ r, {| re_href := item_href (ds_base_path s) col r; re_properties := build_resource_properties r pf |})
                       <$> default [] (ds_resources s !! col)
                     else []))
          end
      end
  end.

(** The resources a multiget names, in its order; an href is looked up by its last segment. *)
Definition named_items (hrefs : list string) (rs : list DavItem) : list DavItem :=
  omap (λ href, find_item (rsplit_next "/" href) rs) hrefs.

Definition handle_report (s : DavState) (collection : option string) (body : string) : DavAnswer :=
  match collection with
  | None => plain 400 (d_path_required d)
  | Some col =>
      match find_collection col s with
      | None => plain 404 (d_not_found d)
      | Some _ =>
          match parse_report read_events body with
          | Err e => plain 400 e
          | Ok report =>
              match d_report d report with
              | None => plain 403 (d_other_report d)
              | Some (properties, hrefs) =>
                  let rs := default [] (ds_resources s !! col) in
                  multistatus_response
                    ((λ r, build_report_entry (ds_base_path s) col r properties)
                     <$> from_option (λ hs, named_items hs rs) rs hrefs)
              end
          end
      end
  end.

(** [HeaderValue] takes any byte but control characters. *)
Definition header_byte (c : ascii) : bool :=
  ((32 <=? byte_of c)%N && negb (byte_of c =? 127)%N) || (byte_of c =? 9)%N.

Definition extract_col_res (collection resource : option string) : option (string * string) :=
  col ← collection; res ← resource; Some (col, res).

Definition handle_get (s : DavState) (collection resource : option string) : option DavAnswer :=
  match extract_col_res collection resource with
  | None => Some (plain 400 "Invalid path")
  | Some (col, res) =>
      match find_resource col res s with
      | None => Some (plain 404 "Resource not found")
      | Some r =>
          if all_chars header_byte (it_etag r) then
            Some (mkDavAnswer 200 [("content-type", d_content_type d); ("etag", it_etag r)] (it_data r))
          else None
      end
  end.

(** [uuid_stub] and [hash_stub]. *)
Fixpoint stub_from (hash : Z) (s : string) : Z :=
  match s with
  | EmptyString => hash
  | String c s' => stub_from ((hash * 31 mod 2 ^ 64 + Z.of_N (byte_of c)) mod 2 ^ 64)%Z s'
  end.

Definition hash_stub (s : string) : Z := stub_from 0 s.

Definition put_etag (resource : string) : string :=
  singleton QUOTE +:+ d_etag d +:+ "-" +:+ show_Z (hash_stub resource) +:+ singleton QUOTE.

Definition handle_put (s : DavState) (collection resource : option string) (h : Inbound.Headers) (body : string) : DavAnswer :=
  match extract_col_res collection resource with
  | None => plain 400 "Invalid path"
  | Some (col, res) =>
      match find_collection col s with
      | None => plain 404 (d_not_found d)
      | Some _ =>
          let stored := find_resource col res s in
          let store :=
            mkDavAnswer (if stored then 204 else 201) [("etag", put_etag res)] empty_str in
          match Inbound.header h "if-match", stored with
          | Some if_match, Some r =>
              if negb (String.eqb (it_etag r) if_match) then plain 412 "ETag mismatch" else store
          | Some _, None => plain 412 "Resource does not exist"
          | None, _ => store
          end
      end
  end.

Definition handle_delete (s : DavState) (collection resource : option string) (h : Inbound.Headers) : DavAnswer :=
  match extract_col_res collection resource with
  | None => plain 400 "Invalid path"
  | Some (col, res) =>
      match find_resource col res s with
      | None => plain 404 "Resource not found"
      | Some r =>
          match Inbound.header h "if-match" with
          | Some if_match =>
              if negb (String.eqb (it_etag r) if_match) then plain 412 "ETag mismatch" else plain 204 empty_str
          | None => plain 204 empty_str
          end
      end
  end.

Definition handle_options : DavAnswer := mkDavAnswer 200 [("allow", d_allow d); ("dav", d_dav d)] empty_str.

(** [handle_mkcalendar] and [handle_mkcol]. *)
Definition handle_make (s : DavState) (collection : option string) : DavAnswer :=
  match collection with
  | None => plain 400 (d_path_required d)
  | Some col =>
      match find_collection col s with
      | Some _ => plain 409 (d_exists d)
      | None => plain 201 empty_str
      end
  end.

(** ** Routes *)

Record DavRequest : Type := mkDavRequest {
  dq_method : string;
  (** the decoded segments of the path after the base path; a trailing slash is an empty one *)
  dq_segments : list string;
  dq_headers : Inbound.Headers;
  dq_body : string;
}.

(** A request under the base path. Most routes take any method. *)
Definition route (s : DavState) (q : DavRequest) : option DavAnswer :=
  let options := bool_decide (dq_method q = "OPTIONS") in
  match dq_segments q with
  | [""] => Some (if options then handle_options else handle_propfind s None (dq_headers q) (dq_body q))
  | [col] => Some (handle_report s (Some col) (dq_body q))
  | ["" ; _] => Some (mkDavAnswer 404 [] empty_str)
  | [col; ""] => Some (if options then handle_options else handle_propfind s (Some col) (dq_headers q) (dq_body q))
  | [col; res] =>
      if bool_decide (res = d_make d) then Some (handle_make s (Some col))
      else if bool_decide (dq_method q = "GET") then handle_get s (Some col) (Some res)
      else if bool_decide (dq_method q = "HEAD") then
        (λ a, mkDavAnswer (da_status a) (da_headers a) empty_str) <$> handle_get s (Some col) (Some res)
      else if bool_decide (dq_method q = "PUT") then Some (handle_put s (Some col) (Some res) (dq_headers q) (dq_body q))
      else if bool_decide (dq_method q = "DELETE") then Some (handle_delete s (Some col) (Some res) (dq_headers q))
      else if options then Some handle_options
      else Some (mkDavAnswer 405 [("allow", "GET,HEAD,PUT,DELETE,OPTIONS")] empty_str)
  | _ => Some (mkDavAnswer 404 [] empty_str)
  end.
End Handlers.

(** ** Errors *)

Inductive DavError : Type :=
| RequestFailed (m : string)
| BindFailed (m : string)
| InvalidConfig (m : string)
| XmlParse (m : string)
| ProtocolViolation (m : string)
| AuthFailed (m : string)
| NotFound (m : string)
| Conflict (m : string).

(** [name] is CALDAV or CARDDAV. *)
Definition dav_error_code (name : string) (e : DavError) : string :=
  "TRANSPORT_" +:+ name +:+
  match e with
  | RequestFailed _ => "_001"
  | BindFailed _ => "_002"
  | InvalidConfig _ => "_003"
  | XmlParse _ => "_004"
  | ProtocolViolation _ => "_005"
  | AuthFailed _ => "_006"
  | NotFound _ => "_007"
  | Conflict _ => "_008"
  end.

Definition dav_error_severity (e : DavError) : Severity :=
  match e with
  | RequestFailed _ => Retryable
  | _ => Fatal
  end.

Record DavTransportConfig : Type := mkDavConfig { dt_host : string; dt_port : Z; dt_base_path : string }.

Definition dav_bind_address (c : DavTransportConfig) : string := dt_host c +:+ ":" +:+ show_Z (dt_port c).

(** The state a transport starts with. *)
Definition start_state (c : DavTransportConfig) : DavState := mkDavState (dt_base_path c) "/principals/default" [] ∅.

(** ** The crates *)

Module Caldav.
Definition CALDAV_NS : list (string * string) := [("C", "urn:ietf:params:xml:ns:caldav")].

Definition CONTENT_TYPE_CALENDAR : string := "text/calendar; charset=utf-8".

Definition dialect : Dialect := {|
  d_namespaces := CALDAV_NS;
  d_home := "Calendar Home";
  d_resource_type := "<D:resourcetype><D:collection/><C:calendar/></D:resourcetype>";
  d_description := "calendar-description";
  d_description_element := "C:calendar-description";
  d_supported := "supported-calendar-component-set";
  d_supported_set := dq "<C:supported-calendar-component-set><C:comp name='VEVENT'/></C:supported-calendar-component-set>";
  d_content_type := CONTENT_TYPE_CALENDAR;
  d_data := "calendar-data";
  d_data_element := "C:calendar-data";
  d_report := λ r, match r with
                   | CalendarQuery ps => Some (ps, None)
                   | CalendarMultiget ps hs => Some (ps, Some hs)
                   | _ => None
                   end;
  d_etag := "caldav";
  d_allow := "OPTIONS, GET, PUT, DELETE, PROPFIND, REPORT, MKCALENDAR";
  d_dav := "1, 2, calendar-access";
  d_not_found := "Calendar collection not found";
  d_path_required := "Collection path required";
  d_other_report := "Only CalDAV REPORT types are supported on this endpoint";
  d_exists := "Calendar already exists";
  d_make := "mkcalendar";
  d_well_known := "/.well-known/caldav";
|}.

Definition default_config : DavTransportConfig := mkDavConfig "127.0.0.1" 5232 "/caldav".
End Caldav.

Module Carddav.
Definition CARDDAV_NS : list (string * string) := [("CR", "urn:ietf:params:xml:ns:carddav")].

Definition CONTENT_TYPE_VCARD : string := "text/vcard; charset=utf-8".

Definition dialect : Dialect := {|
  d_namespaces := CARDDAV_NS;
  d_home := "Addressbook Home";
  d_resource_type := "<D:resourcetype><D:collection/><CR:addressbook/></D:resourcetype>";
  d_description := "addressbook-description";
  d_description_element := "CR:addressbook-description";
  d_supported := "supported-address-data";
  d_supported_set :=
    dq "<CR:supported-address-data><CR:address-data-type content-type='text/vcard' version='4.0'/></CR:supported-address-data>";
  d_content_type := CONTENT_TYPE_VCARD;
  d_data := "address-data";
  d_data_element := "CR:address-data";
  d_report := λ r, match r with
                   | AddressbookQuery ps => Some (ps, None)
                   | AddressbookMultiget ps hs => Some (ps, Some hs)
                   | _ => None
                   end;
  d_etag := "carddav";
  d_allow := "OPTIONS, GET, PUT, DELETE, PROPFIND, REPORT, MKCOL";
  d_dav := "1, 2, addressbook";
  d_not_found := "Addressbook not found";
  d_path_required := "Addressbook path required";
  d_other_report := "Only CardDAV REPORT types are supported on this endpoint";
  d_exists := "Addressbook already exists";
  d_make := "mkcol";
  d_well_known := "/.well-known/carddav";
|}.

Definition default_config : DavTransportConfig := mkDavConfig "127.0.0.1" 5233 "/carddav".

(** The handlers of the crate. *)
Definition carddav_propfind := handle_propfind dialect.
Definition carddav_report := handle_report dialect.
Definition carddav_get := handle_get dialect.
Definition carddav_put := handle_put dialect.
Definition carddav_delete := handle_delete.
Definition carddav_options := handle_options dialect.
Definition carddav_mkcol := handle_make dialect.
Definition carddav_build_addressbook_properties := build_collection_properties dialect.
Definition carddav_build_home_properties := build_home_properties dialect.
Definition carddav_build_resource_properties := build_resource_properties dialect.
Definition carddav_build_report_entry := build_report_entry dialect.
Definition carddav_build_router := route dialect.
End Carddav.

(** ** Properties *)

Section Facts.
Context (d : Dialect) (read_events : string → list Event * option string).

(** *** Markup *)

(** Element names and fixed fragments; only the principal is put into an answer as it is. *)
Definition markup (p : DavProperty) : nat :=
  match p with
  | ETag _ | ContentType _ => 2
  | CustomText element _ => 2 + 2 * count "<" element
  | CustomRaw raw => count "<" raw
  end.

Definition entry_markup (e : DavResourceEntry) : nat := 10 + sum_list_with markup (re_properties e).

Lemma count_property p : count "<" (write_property p) = markup p.
Proof. destruct p; cbn [write_property markup]; count_markup; lia. Qed.

Lemma count_push_each_with {A} c (f : A → string) xs : count c (push_each f xs) = sum_list_with (λ x, count c (f x)) xs.
Proof. unfold push_each. induction xs as [|x xs IH]; [done|]. cbn [foldr sum_list_with]. by rewrite count_app, IH. Qed.

Lemma count_entry xml e : count "<" (write_response_entry xml e) = count "<" xml + entry_markup e.
Proof.
  unfold write_response_entry, entry_markup, line. rewrite !count_app, count_push_each_with.
  assert (sum_list_with (λ p, count "<" (write_property p)) (re_properties e) = sum_list_with markup (re_properties e)) as ->
    by (induction (re_properties e) as [|p ps IH]; [done|]; cbn; by rewrite count_property, IH).
  generalize (sum_list_with markup (re_properties e)). intros n. rewrite count_escaped.
  repeat match goal with |- context [count "<" (String ?a ?b)] =>
    let k := eval vm_compute in (count "<" (String a b)) in change (count "<" (String a b)) with k end.
  change (count "<" CRLF) with 0. lia.
Qed.

Lemma count_entries entries xml :
  count "<" (foldl write_response_entry xml entries) = count "<" xml + sum_list_with entry_markup entries.
Proof.
  revert xml. induction entries as [|e es IH]; intros xml; cbn [foldl sum_list_with]; [lia|].
  rewrite IH, count_entry. lia.
Qed.

Definition plain_dialect : Prop :=
  Forall (λ pu, count "<" pu.1 = 0 ∧ count "<" pu.2 = 0) (d_namespaces d) ∧ count "<" (d_data_element d) = 0 ∧
  count "<" (d_description_element d) = 0.

Lemma count_document entries :
  plain_dialect → count "<" (document d entries) = 3 + sum_list_with entry_markup entries.
Proof.
  intros (Hn & _ & _). unfold document, close_multistatus. rewrite count_app, count_entries.
  unfold open_multistatus. rewrite !count_app. unfold line. rewrite !count_app, count_push_each_with.
  assert (sum_list_with (λ pu, count "<" (" xmlns:" +:+ pu.1 +:+ dq "='" +:+ pu.2 +:+ dq "'")) (d_namespaces d) = 0) as ->.
  { induction Hn as [|pu ns [H1 H2] _ IH]; [done|]. cbn [sum_list_with]. rewrite IH, !count_app, H1, H2. by vm_compute. }
  change (count "<" XML_DECL) with 1. change (count "<" "</D:multistatus>") with 1.
  change (count "<" empty_str) with 0. change (count "<" (dq "<D:multistatus xmlns:D='DAV:'")) with 1.
  change (count "<" ">") with 0. change (count "<" CRLF) with 0. lia.
Qed.

(** *** Listings and reports *)

(** The uids of a collection are different and have no slash. *)
Definition proper_items (rs : list DavItem) : Prop :=
  NoDup (it_uid <$> rs) ∧ Forall (λ r, ¬ char_in "/" (it_uid r)) rs.

Lemma find_item_own rs r : NoDup (it_uid <$> rs) → r ∈ rs → find_item (it_uid r) rs = Some r.
Proof.
  intros Hn Hr. apply list_elem_of_lookup in Hr as [i Hi]. unfold find_item.
  assert (list_find (λ r', it_uid r' = it_uid r) rs = Some (i, r)) as ->; [|done].
  apply list_find_Some. split; [done|]. split; [done|]. intros j r' Hj Hlt E.
  assert (j = i); [|lia]. eapply (NoDup_lookup (it_uid <$> rs)); [done|..]; rewrite list_lookup_fmap.
  - by rewrite Hj.
  - rewrite Hi. cbn. by rewrite E.
Qed.

Lemma href_uid base col r : ¬ char_in "/" (it_uid r) → rsplit_next "/" (item_href base col r) = it_uid r.
Proof.
  intros Hs. unfold item_href. assert (base +:+ "/" +:+ col +:+ "/" +:+ it_uid r = (base +:+ "/" +:+ col) +:+ String "/" (it_uid r)) as ->
    by (by rewrite !string_app_assoc). by apply rsplit_next_app.
Qed.

(** The hrefs of resources name them. *)
Lemma named_items_hrefs base col rs items :
  proper_items rs → items ⊆ rs → named_items (item_href base col <$> items) rs = items.
Proof.
  intros [Hn Hs] Hsub. rewrite Forall_forall in Hs. unfold named_items. induction items as [|r items IH]; [done|]. cbn.
  assert (r ∈ rs) as Hr by (apply Hsub; left).
  rewrite href_uid, find_item_own by auto. f_equal. apply IH. intros x Hx. apply Hsub. by right.
Qed.

Lemma report_properties_markup r props :
  plain_dialect →
  sum_list_with markup (props ≫= λ p : string * string, report_property d r p.2)
  = 2 * length (filter (λ p : string * string, p.2 ∈ ["getetag"; "getcontenttype"; d_data d]) props).
Proof.
  intros (_ & Hd & _). induction props as [|[ns l] props IH]; [done|]. cbn [mbind list_bind]. rewrite sum_list_with_app.
  change (props ≫= _) with (mbind (λ p : string * string, report_property d r p.2) props) in *. rewrite IH. unfold report_property. cbn [snd].
  case_bool_decide as H1; [rewrite filter_cons_True by (rewrite H1; set_solver); cbn; lia|].
  case_bool_decide as H2; [rewrite filter_cons_True by (rewrite H2; set_solver); cbn; lia|].
  case_bool_decide as H3; [rewrite filter_cons_True by (rewrite H3; set_solver); cbn; rewrite Hd; lia|].
  rewrite filter_cons_False by (cbn; set_solver). done.
Qed.

Lemma report_markup base col props items :
  plain_dialect →
  sum_list_with entry_markup ((λ r, build_report_entry d base col r props) <$> items)
  = length items * (10 + 2 * length (filter (λ p : string * string, p.2 ∈ ["getetag"; "getcontenttype"; d_data d]) props)).
Proof.
  intros Hp. induction items as [|r items IH]; [done|]. cbn [fmap list_fmap sum_list_with length]. 
  change (list_fmap _ _ _ items) with ((λ r, build_report_entry d base col r props) <$> items). rewrite IH.
  unfold entry_markup. cbn [re_properties build_report_entry]. rewrite report_properties_markup by done. lia.
Qed.

(** A client that lists a collection and fetches what is listed gets what is stored: a PROPFIND of depth one
    lists the collection and then its resources, each once; a multiget of any of these hrefs answers
    with those resources, in order, and the properties asked for; a query with all of them; a GET
    with the data and the ETag of the reports. However the stored texts read, the answer to a
    multiget has the elements of that many resources and properties and no others. *)
Theorem listed_resources_fetched s col c rs h pbody pf rbody report props items :
  plain_dialect → find_collection col s = Some c → ds_resources s !! col = Some rs → proper_items rs →
  extract_depth h = DepthOne → parse_propfind read_events pbody = Ok pf →
  items ⊆ rs → parse_report read_events rbody = Ok report →
  d_report d report = Some (props, Some (item_href (ds_base_path s) col <$> items)) →
  (∃ entries, handle_propfind d read_events s (Some col) h pbody = multistatus_response d entries ∧
     re_href <$> entries = (ds_base_path s +:+ "/" +:+ col +:+ "/") :: (item_href (ds_base_path s) col <$> rs)) ∧
  handle_report d read_events s (Some col) rbody
  = multistatus_response d ((λ r, build_report_entry d (ds_base_path s) col r props) <$> items) ∧
  count "<" (da_body (handle_report d read_events s (Some col) rbody))
  = 3 + length items * (10 + 2 * length (filter (λ p : string * string, p.2 ∈ ["getetag"; "getcontenttype"; d_data d]) props)) ∧
  ∀ r, r ∈ items → all_chars header_byte (it_etag r) = true →
    handle_get d s (Some col) (Some (it_uid r))
    = Some (mkDavAnswer 200 [("content-type", d_content_type d); ("etag", it_etag r)] (it_data r)).
Proof.
  intros Hd Hc Hrs Hp Hh Hpf Hi Hr Hrep.
  assert (handle_report d read_events s (Some col) rbody
    = multistatus_response d ((λ r, build_report_entry d (ds_base_path s) col r props) <$> items)) as Hreport.
  { unfold handle_report. rewrite Hc, Hr, Hrep, Hrs. cbn [from_option default]. by rewrite named_items_hrefs. }
  split; [|split; [done|split]].
  - eexists. unfold handle_propfind. rewrite Hh, Hpf, Hc, Hrs, bool_decide_true by done. split; [done|].
    cbn [fmap list_fmap re_href collection_entry]. f_equal.
    + unfold find_collection in Hc. destruct (list_find _ _) as [[? ?]|] eqn:E; [|done]. cbn in Hc. simplify_eq.
      apply list_find_Some in E as (_ & -> & _). done.
    + cbn. by rewrite <- list_fmap_compose.
  - rewrite Hreport. cbn [multistatus_response da_body]. rewrite count_document, report_markup by done. done.
  - intros r Hri He. unfold handle_get, extract_col_res, find_resource. cbn. rewrite Hrs. cbn.
    rewrite find_item_own; [|apply Hp|by apply Hi]. by rewrite He.
Qed.

(** *** Conditional requests *)

(** A PUT or DELETE that names an ETag succeeds exactly if the resource exists with that ETag, as a GET
    shows it; a PUT that names one never creates a resource. *)
Theorem if_match_guards s col c uid h tag body :
  find_collection col s = Some c → Inbound.header h "if-match" = Some tag →
  let put := da_status (handle_put d s (Some col) (Some uid) h body) in
  let del := da_status (handle_delete s (Some col) (Some uid) h) in
  match find_resource col uid s with
  | Some r => (put = 204 ∧ del = 204 ∧ it_etag r = tag ∨ put = 412 ∧ del = 412 ∧ it_etag r ≠ tag)%Z
  | None => put = 412%Z ∧ del = 404%Z
  end.
Proof.
  intros Hc Hm. cbn zeta. unfold handle_put, handle_delete, extract_col_res. cbn. rewrite Hc, Hm.
  destruct (find_resource col uid s) as [r|]; [|done].
  destruct (String.eqb_spec (it_etag r) tag); cbn; [by left|by right].
Qed.
End Facts.

Lemma caldav_plain : plain_dialect Caldav.dialect.
Proof. repeat split; repeat constructor. Qed.

Lemma carddav_plain : plain_dialect Carddav.dialect.
Proof. repeat split; repeat constructor. Qed.

(** *** The ETag of a PUT *)

(** The value of the bytes as digits of base 31. *)
Fixpoint base31 (s : string) : Z :=
  match s with
  | EmptyString => 0
  | String c s' => Z.of_N (byte_of c) * 31 ^ Z.of_nat (String.length s') + base31 s'
  end%Z.

Lemma stub_from_base31 s hash :
  (0 ≤ hash < 2 ^ 64)%Z → stub_from hash s = ((hash * 31 ^ Z.of_nat (String.length s) + base31 s) mod 2 ^ 64)%Z.
Proof.
  revert hash. induction s as [|c s IH]; intros hash Hh; cbn [stub_from base31].
  - cbn [String.length]. rewrite Z.mod_small; lia.
  - rewrite IH by (apply Z.mod_pos_bound; lia). cbn [String.length]. rewrite Nat2Z.inj_succ, Z.pow_succ_r by lia.
    set (p := (31 ^ Z.of_nat (String.length s))%Z). set (b := Z.of_N (byte_of c)).
    rewrite (Zplus_mod_idemp_l (hash * 31)). rewrite <- (Zplus_mod_idemp_l (_ * p)), Zmult_mod_idemp_l, Zplus_mod_idemp_l.
    f_equal. lia.
Qed.

(** The number in the ETag of a PUT is the name of the resource read in base 31, modulo [2^64]: it is the same
    whatever is put, and for names that agree modulo [2^64]. *)
Theorem hash_stub_base31 s : hash_stub s = (base31 s mod 2 ^ 64)%Z.
Proof. unfold hash_stub. rewrite stub_from_base31 by lia. done. Qed.

(** ** Examples *)

Section Examples.

Definition two_events : DavState :=
  mkDavState "/caldav" "/principals/default" [mkCollection "Home" "home" None None]
    {[ "home" := [mkItem "a" "BEGIN:VCALENDAR<" "t1"; mkItem "b" "B" "t2"] ]}.

(** A reader for a fixed multiget. *)
Definition fixed_reader (body : string) : list Event * option string :=
  (multiget_events "C:calendar-multiget" ["D:getetag"; "C:calendar-data"] ["/caldav/home/b"], None).

Lemma listed_resources_fetched_witness :
  count "<" (da_body (handle_report Caldav.dialect fixed_reader two_events (Some "home") "report")) = 17 ∧
  handle_get Caldav.dialect two_events (Some "home") (Some "b")
  = Some (mkDavAnswer 200 [("content-type", Caldav.CONTENT_TYPE_CALENDAR); ("etag", "t2")] "B").
Proof.
  destruct (listed_resources_fetched Caldav.dialect fixed_reader two_events "home" (mkCollection "Home" "home" None None)
    [mkItem "a" "BEGIN:VCALENDAR<" "t1"; mkItem "b" "B" "t2"] [("depth", "1")] "" AllProp "report"
    (CalendarMultiget [("DAV:", "getetag"); ("urn:ietf:params:xml:ns:caldav", "calendar-data")] ["/caldav/home/b"])
    [("DAV:", "getetag"); ("urn:ietf:params:xml:ns:caldav", "calendar-data")] [mkItem "b" "B" "t2"])
    as (_ & _ & Hcount & Hget).
  - apply caldav_plain.
  - reflexivity.
  - reflexivity.
  - split; apply (bool_decide_unpack _); vm_compute; exact I.
  - reflexivity.
  - reflexivity.
  - intros x ->%list_elem_of_singleton. right. left.
  - vm_compute. reflexivity.
  - reflexivity.
  - split; [rewrite Hcount; reflexivity|]. apply (Hget (mkItem "b" "B" "t2")); [left|reflexivity].
Defined.

Lemma if_match_guards_witness :
  da_status (handle_put Caldav.dialect two_events (Some "home") (Some "a") [("if-match", "t0")] "new") = 412%Z.
Proof.
  pose proof (if_match_guards Caldav.dialect two_events "home" (mkCollection "Home" "home" None None) "a" [("if-match", "t0")]
    "t0" "new" eq_refl eq_refl) as Hg. cbn zeta in Hg.
  change (find_resource "home" "a" two_events) with (Some (mkItem "a" "BEGIN:VCALENDAR<" "t1")) in Hg. cbn iota in Hg.
  destruct Hg as [(_ & _ & Ht)|(Hp & _)]; [discriminate Ht|exact Hp].
Defined.

(** Nothing is stored: an accepted PUT is followed by a 404, and its ETag is not that of a GET. *)
Example put_not_stored :
  da_status (handle_put Caldav.dialect two_events (Some "home") (Some "new") [] "BEGIN:VCALENDAR") = 201%Z ∧
  (da_status <$> handle_get Caldav.dialect two_events (Some "home") (Some "new")) = Some 404%Z ∧
  ∀ b1 b2, handle_put Caldav.dialect two_events (Some "home") (Some "a") [] b1
           = handle_put Caldav.dialect two_events (Some "home") (Some "a") [] b2.
Proof. split; [reflexivity|]. split; [vm_compute; reflexivity|]. reflexivity. Qed.

(** Without a Depth header, or with infinity, only the collection itself is listed. *)
Example infinity_lists_nothing reader :
  handle_propfind Caldav.dialect reader two_events (Some "home") [] ""
  = handle_propfind Caldav.dialect reader two_events (Some "home") [("depth", "0")] "".
Proof. reflexivity. Qed.

(** A REPORT to the href under which a collection is listed is answered as a PROPFIND, and one without the
    slash is a report whatever the method. *)
Example report_by_path reader :
  route Caldav.dialect reader two_events (mkDavRequest "REPORT" ["home"; ""] [] "") =
    Some (handle_propfind Caldav.dialect reader two_events (Some "home") [] "") ∧
  route Caldav.dialect reader two_events (mkDavRequest "PROPFIND" ["home"] [] "") =
    Some (plain 400 "REPORT request body is empty").
Proof. split; reflexivity. Qed.

(** MKCALENDAR on the new collection is not found; a resource of the name of the special path is not
    reached. *)
Example mkcalendar_elsewhere reader :
  (da_status <$> route Caldav.dialect reader two_events (mkDavRequest "MKCALENDAR" ["work"; ""] [] "")) = Some 404%Z ∧
  route Caldav.dialect reader two_events (mkDavRequest "GET" ["home"; "mkcalendar"] [] "") =
    Some (plain 409 "Calendar already exists").
Proof. split; vm_compute; reflexivity. Qed.

(** An href that is not stored is left out of the answer to a multiget. *)
Example unknown_href_dropped :
  let reader := λ _, (multiget_events "C:calendar-multiget" ["D:getetag"] ["/caldav/home/x"], None) in
  handle_report Caldav.dialect reader two_events (Some "home") "report" = multistatus_response Caldav.dialect [].
Proof. vm_compute. reflexivity. Qed.

(** An ETag with a line break panics. *)
Example etag_panics :
  let s := mkDavState "/caldav" "" [] {[ "home" := [mkItem "a" "" CRLF] ]} in
  handle_get Caldav.dialect s (Some "home") (Some "a") = None.
Proof. vm_compute. reflexivity. Qed.
End Examples.
