(* ===== verification/SqliteTools.v ===== *)
(** * Tools of the SQLite backend (packages/storage-sqlite/src)

    [Exports] (export.rs): the full archive with its three documents, the export of a plugin in
    the formats of its collections, and the audit event of each. [Health] (health.rs): the
    checks of a connection. [DbKeys] (encryption.rs, lib.rs, packages/crypto/src/kdf.rs): keys
    from passphrases and the salt beside the database, opening and changing the passphrase.
    [Indexes] (migration/executor.rs): the indexes of a collection.

    The rows are those of [SqliteBackend]; ties of an ORDER BY are in the order of the table.
    Every statement and file operation may fail. Pretty printing, the compressed archive and
    Argon2 are parameters, and texts stand for bytes. *)

From stdpp Require Import base tactics list gmap sets strings sorting pretty.
From Stdlib Require Import Ascii ZArith Lia.
From S2P Require Import Prelude RustString RustText Json Types Crypto Storage SqliteDoc SqliteBackend Dav DavFacts.

Local Open Scope string_scope.
Local Open Scope list_scope.

(** ** Export (export.rs) *)

Module Exports.

Record ExportedRecord : Type := mkExported {
  xr_id : string;
  xr_plugin_id : string;
  xr_collection : string;
  xr_data : json;
  xr_version : Z;
  xr_created_at : string;
  xr_updated_at : string;
}.

(** *** Formats *)

Definition field (r : ExportedRecord) (name : string) : option string := json_get (xr_data r) name ≫= as_str.

Definition ical_escape (s : string) : string :=
  replace_char LF (String BACKSLASH "n")
    (replace_char "," (String BACKSLASH ",")
      (replace_char ";" (String BACKSLASH ";")
        (replace_char BACKSLASH (String BACKSLASH (singleton BACKSLASH)) s))).

Definition vcf_escape (s : string) : string :=
  replace_char LF (String BACKSLASH "n")
    (replace_char ";" (String BACKSLASH ";")
      (replace_char "," (String BACKSLASH ",")
        (replace_char BACKSLASH (String BACKSLASH (singleton BACKSLASH)) s))).

Fixpoint keep_chars (p : ascii → bool) (s : string) : string :=
  match s with
  | EmptyString => EmptyString
  | String c s' => if p c then String c (keep_chars p s') else keep_chars p s'
  end.

Definition to_ical_datetime (rfc3339 : string) : string :=
  let cleaned := keep_chars (λ c, is_ascii_digit c || bool_decide (c = "T"%char) || bool_decide (c = "Z"%char)) rfc3339 in
  if (15 <=? String.length cleaned)%nat then
    String.substring 0 15 cleaned +:+ (if ends_with rfc3339 "Z" then "Z" else empty_str)
  else cleaned.

Definition opt_line (name : string) (write : string → string) (v : option string) : string :=
  from_option (λ s, DavXml.line (name +:+ ":" +:+ write s)) empty_str v.

Definition render_event (r : ExportedRecord) : string :=
  DavXml.line "BEGIN:VEVENT"
  +:+ DavXml.line ("UID:" +:+ default (xr_id r) (field r "id"))
  +:+ opt_line "SUMMARY" ical_escape (field r "title")
  +:+ opt_line "DESCRIPTION" ical_escape (field r "description")
  +:+ opt_line "DTSTART" to_ical_datetime (field r "start_time")
  +:+ opt_line "DTEND" to_ical_datetime (field r "end_time")
  +:+ opt_line "LOCATION" ical_escape (field r "location")
  +:+ DavXml.line "END:VEVENT".

Definition render_ical (rs : list ExportedRecord) : string :=
  DavXml.line "BEGIN:VCALENDAR" +:+ DavXml.line "VERSION:2.0" +:+ DavXml.line "PRODID:-//Life Engine//Export//EN"
  +:+ DavXml.push_each render_event rs +:+ DavXml.line "END:VCALENDAR".

(** The texts under a key of the objects of an array. *)
Definition entries (r : ExportedRecord) (list_name key : string) : list string :=
  match json_get (xr_data r) list_name ≫= as_array with
  | Some xs => omap (λ x, json_get x key ≫= as_str) xs
  | None => []
  end.

Definition render_card (r : ExportedRecord) : string :=
  let first := default empty_str (field r "first_name") in
  let last := default empty_str (field r "last_name") in
  DavXml.line "BEGIN:VCARD" +:+ DavXml.line "VERSION:3.0"
  +:+ DavXml.line ("N:" +:+ last +:+ ";" +:+ first +:+ ";;;")
  +:+ match field r "display_name" with
      | Some dn => DavXml.line ("FN:" +:+ vcf_escape dn)
      | None =>
          if negb (is_empty first) || negb (is_empty last) then
            DavXml.line ("FN:" +:+ vcf_escape first +:+ " " +:+ vcf_escape last)
          else empty_str
      end
  +:+ DavXml.push_each (λ a, DavXml.line ("EMAIL:" +:+ a)) (entries r "emails" "address")
  +:+ DavXml.push_each (λ n, DavXml.line ("TEL:" +:+ n)) (entries r "phone_numbers" "number")
  +:+ opt_line "ORG" vcf_escape (field r "organization")
  +:+ DavXml.line "END:VCARD".

Definition render_vcf (rs : list ExportedRecord) : string := DavXml.push_each render_card rs.

Definition body_line (l : string) : string :=
  (if starts_with l "From " then ">" else empty_str) +:+ l.

(** The recipients: a text, or the texts of an array. *)
Definition recipients (r : ExportedRecord) : option string :=
  match json_get (xr_data r) "to" with
  | Some (JStr s) => Some s
  | Some (JArr xs) => Some (join ", " (omap as_str xs))
  | _ => None
  end.

(** The lines of a message, each ended by a line break. *)
Definition mail_lines (r : ExportedRecord) : list string :=
  let header name v := option_list ((λ s, name +:+ ": " +:+ s) <$> v) in
  ["From " +:+ default "unknown@unknown" (field r "from") +:+ " " +:+ default (xr_created_at r) (field r "date")]
  ++ header "From" (field r "from") ++ header "To" (recipients r) ++ header "Subject" (field r "subject")
  ++ header "Date" (field r "date") ++ header "Message-ID" (field r "message_id") ++ [empty_str]
  ++ from_option (λ b, body_line <$> lines b) [] (field r "body") ++ [empty_str].

Definition render_mbox (rs : list ExportedRecord) : string :=
  DavXml.push_each (λ r, DavXml.push_each DavXml.line (mail_lines r)) rs.

(** *** Queries *)

Definition row_order (a b : Row) : Prop :=
  String.le (r_collection a) (r_collection b) ∧
  (r_collection a = r_collection b → String.le (r_created_at a) (r_created_at b)).

#[export] Instance row_order_dec a b : Decision (row_order a b).
Proof. unfold row_order. apply _. Defined.

Section Export.
Context `{JsonText} (pretty : json → string) (archive : list (string * string) → result string BackendError).
(** why a negative version is refused *)
Context (out_of_range : string).

(** A text that is not JSON is exported as a text. *)
Definition text_value (text : string) : json := default (JStr text) (result_ok (json_from_str text)).

Definition exported (r : Row) : result ExportedRecord BackendError :=
  if (r_version r <? 0)%Z then Err (Database out_of_range)
  else Ok (mkExported (r_id r) (r_plugin_id r) (r_collection r) (text_value (r_data r)) (r_version r) (r_created_at r)
             (r_updated_at r)).

Fixpoint all_exported (rows : list Row) : result (list ExportedRecord) BackendError :=
  match rows with
  | [] => Ok []
  | r :: rest => let? x := exported r in let? xs := all_exported rest in Ok (x :: xs)
  end.

Definition query_all_plugin_data (fault : option string) (s : SqliteStorage) : result (list ExportedRecord) BackendError :=
  match fault with
  | Some m => Err (Database m)
  | None => all_exported (merge_sort row_order (ss_rows s))
  end.

Definition query_plugin_data_by_plugin (fault : option string) (plugin_id : string) (s : SqliteStorage) :
    result (list ExportedRecord) BackendError :=
  match fault with
  | Some m => Err (Database m)
  | None => all_exported (merge_sort row_order (filter (λ r, r_plugin_id r = plugin_id) (ss_rows s)))
  end.

Definition audit_value (a : AuditRow) : json :=
  mk_obj [("id", JStr (al_id a)); ("timestamp", JStr (al_timestamp a)); ("event_type", JStr (al_event_type a));
          ("plugin_id", from_option JStr JNull (al_plugin_id a)); ("details", text_value (al_details a));
          ("created_at", JStr (al_created_at a))].

Definition query_all_audit_log (fault : option string) (s : SqliteStorage) : result (list json) BackendError :=
  match fault with
  | Some m => Err (Database m)
  | None => Ok (audit_value <$> merge_sort by_timestamp (ss_audit s))
  end.

Definition record_value (x : ExportedRecord) : json :=
  mk_obj [("id", JStr (xr_id x)); ("plugin_id", JStr (xr_plugin_id x)); ("collection", JStr (xr_collection x));
          ("data", xr_data x); ("version", JNum (NInt (xr_version x))); ("created_at", JStr (xr_created_at x));
          ("updated_at", JStr (xr_updated_at x))].

Definition count_value {A} (xs : list A) : json := JNum (NInt (Z.of_nat (length xs))).

(** What the database does to the statements of an export. *)
Record Faults : Type := mkFaults { fa_rows : option string; fa_audit : option string; fa_log : option string }.

Definition export_event (plugin_id : option string) (details : json) : AuditEvent :=
  mkAuditEvent DataExport None None None plugin_id details.

(** An audit entry that cannot be written is only logged. *)
Definition log_export (id now : string) (fault : option string) (e : AuditEvent) (s : SqliteStorage) : SqliteStorage :=
  with_audit (snd (log_event id now fault e (ss_audit s))) s.

(** [exported_at] is the clock as text; [id] and [now] are those of the audit entry. *)
Definition export_full_archive (f : Faults) (exported_at id now : string) (s : SqliteStorage) :
    result string BackendError * SqliteStorage :=
  match query_all_plugin_data (fa_rows f) s with
  | Err e => (Err e, s)
  | Ok plugin_data =>
      match query_all_audit_log (fa_audit f) s with
      | Err e => (Err e, s)
      | Ok audit_data =>
          let metadata :=
            mk_obj [("exported_at", JStr exported_at); ("plugin_data_count", count_value plugin_data);
                    ("audit_log_count", count_value audit_data); ("format_version", JNum (NInt 1))] in
          match archive [("plugin_data.json", pretty (JArr (record_value <$> plugin_data)));
                         ("audit_log.json", pretty (JArr audit_data)); ("metadata.json", pretty metadata)] with
          | Err e => (Err e, s)
          | Ok compressed =>
              (Ok compressed,
               log_export id now (fa_log f)
                 (export_event None (mk_obj [("type", JStr "full"); ("plugin_data_count", count_value plugin_data);
                                             ("audit_log_count", count_value audit_data)])) s)
          end
      end
  end.

(** The collections in order, each with its records. *)
Definition collections_of (records : list ExportedRecord) : list string :=
  merge_sort String.le (elements (list_to_set (xr_collection <$> records) : gset string)).

Definition in_collection (c : string) (records : list ExportedRecord) : list ExportedRecord :=
  filter (λ r, xr_collection r = c) records.

Definition file_name (plugin_id c : string) : string :=
  if bool_decide (c = "events") then plugin_id +:+ "-events.ics"
  else if bool_decide (c = "contacts") then plugin_id +:+ "-contacts.vcf"
  else if bool_decide (c = "emails") then plugin_id +:+ "-emails.mbox"
  else plugin_id +:+ "-" +:+ c +:+ ".json".

Definition file_content (c : string) (items : list ExportedRecord) : string :=
  if bool_decide (c = "events") then render_ical items
  else if bool_decide (c = "contacts") then render_vcf items
  else if bool_decide (c = "emails") then render_mbox items
  else pretty (JArr (xr_data <$> items)).

Definition export_service_data (f : Faults) (id now plugin_id : string) (s : SqliteStorage) :
    result (list (string * string)) BackendError * SqliteStorage :=
  match query_plugin_data_by_plugin (fa_rows f) plugin_id s with
  | Err e => (Err e, s)
  | Ok records =>
      let cs := collections_of records in
      (Ok ((λ c, (file_name plugin_id c, file_content c (in_collection c records))) <$> cs),
       log_export id now (fa_log f)
         (export_event (Some plugin_id)
            (mk_obj [("type", JStr "per_service"); ("record_count", count_value records); ("collections", JArr (JStr <$> cs))])) s)
  end.
End Export.

(** *** Texts *)

Lemma ical_escape_cons c s : ical_escape (String c s) = esc c +:+ ical_escape s.
Proof.
  unfold ical_escape, esc. repeat case_bool_decide; subst; [done..|].
  do 4 (cbn [replace_char]; rewrite bool_decide_false by done). done.
Qed.

(** Both escapes write the same, and reading the escaped value gives the text back. *)
Theorem escapes_agree s : ical_escape s = vcf_escape s ∧ Text.decode_escaped_value (ical_escape s) = s.
Proof.
  assert (ical_escape s = Vcard.escape_value s) as ->.
  { induction s as [|c s IH]; [done|]. by rewrite ical_escape_cons, escape_value_cons, IH. }
  split; [done|]. apply decode_escape.
Qed.

Lemma strip_cr_line l : strip_cr (l +:+ singleton CR) = l.
Proof. unfold strip_cr. by rewrite strip_suffix_app. Qed.

(** Lines written with a line break are read back. *)
Lemma lines_written ls : Forall (λ l, ¬ char_in LF l) ls → lines (DavXml.push_each DavXml.line ls) = ls.
Proof.
  unfold lines, DavXml.push_each. induction 1 as [|l ls Hl _ IH]; [done|]. cbn [foldr].
  assert (DavXml.line l +:+ foldr (λ x acc, DavXml.line x +:+ acc) empty_str ls
          = (l +:+ singleton CR) +:+ String LF (foldr (λ x acc, DavXml.line x +:+ acc) empty_str ls)) as ->.
  { unfold DavXml.line. by rewrite !string_app_assoc. }
  rewrite split_app_sep.
  - destruct (split LF _) as [|p ps] eqn:E; [by apply split_not_nil in E|]. cbn [lines_of]. rewrite strip_cr_line. by f_equal.
  - rewrite char_in_app. intros [?|[?|[]]]; done.
Qed.

(** *** Mail *)

(** The fields that are written on a line of their own have no line break. *)
Definition one_line_fields (r : ExportedRecord) : Prop :=
  Forall (λ o, ∀ s, o = Some s → ¬ char_in LF s)
    [field r "from"; field r "date"; recipients r; field r "subject"; field r "message_id"; Some (xr_created_at r)].

Lemma header_free name v :
  ¬ char_in LF name → (∀ s, v = Some s → ¬ char_in LF s) →
  Forall (λ l, ¬ char_in LF l) (option_list ((λ s, name +:+ ": " +:+ s) <$> v)).
Proof.
  intros Hn Hv. destruct v as [s|]; [|constructor]. constructor; [|constructor].
  rewrite !char_in_app. intros [?|[[|[|[]]]|?]]; [done..|]. by eapply Hv.
Qed.

Lemma lines_free s : Forall (λ l, ¬ char_in LF l) (lines s).
Proof.
  unfold lines. pose proof (split_no_sep LF s) as Hf. induction Hf as [|p ps Hp Hps IH]; [constructor|].
  destruct ps as [|q ps].
  - cbn. destruct (is_empty p); by repeat constructor.
  - change (lines_of (p :: q :: ps)) with (strip_cr p :: lines_of (q :: ps)). constructor; [|done].
    unfold strip_cr. destruct (strip_suffix_str _ p) as [p'|] eqn:E; [|done]. apply strip_suffix_Some in E as ->. cbn.
    rewrite char_in_app in Hp. tauto.
Qed.

Ltac no_break H := clear -H; cbn in H; revert H; intuition discriminate.

Lemma mail_lines_free r : one_line_fields r → Forall (λ l, ¬ char_in LF l) (mail_lines r).
Proof.
  unfold one_line_fields, mail_lines. rewrite !Forall_cons. intros (Hf & Hd & Ht & Hs & Hm & Hc & _).
  rewrite !Forall_app. split_and!; try (apply header_free; [cbn; intuition discriminate|done]); try (repeat constructor; cbn; tauto).
  - constructor; [|constructor]. rewrite !char_in_app. intros [H|[H|[H|H]]].
    + no_break H.
    + destruct (field r "from") as [s|]; [by eapply Hf|]. no_break H.
    + no_break H.
    + destruct (field r "date") as [s|]; [by eapply Hd|by eapply Hc].
  - destruct (field r "body") as [b|]; [|constructor]. cbn. rewrite Forall_fmap. eapply Forall_impl; [apply lines_free|].
    intros l Hl. unfold compose, body_line. rewrite char_in_app. intros [H|H]; [|done]. destruct (starts_with l "From "); no_break H.
Qed.

Definition separator (l : string) : bool := starts_with l "From ".

Lemma body_never_separates l : separator (body_line l) = false.
Proof. unfold separator, body_line. destruct (starts_with l "From ") eqn:E; [by vm_compute|done]. Qed.

Lemma mail_separators r : length (filter (λ l, separator l = true) (mail_lines r)) = 1%nat.
Proof.
  unfold mail_lines. rewrite !filter_app, !length_app.
  assert (∀ ls, Forall (λ l, separator l = false) ls → length (filter (λ l, separator l = true) ls) = 0%nat) as Hno.
  { induction 1 as [|l ls Hl _ IH]; [done|]. by rewrite filter_cons_False by (by rewrite Hl). }
  assert (∀ name (v : option string), separator (name +:+ ": ") = false → (∀ s, separator (name +:+ ": " +:+ s) = false) →
    length (filter (λ l, separator l = true) (option_list ((λ s, name +:+ ": " +:+ s) <$> v))) = 0%nat) as Hh.
  { intros name [s|] _ Hs; [|done]. apply Hno. by repeat constructor. }
  rewrite (filter_cons_True _ _ []) by done. rewrite !Hh by done.
  rewrite (Hno [empty_str]) by (by repeat constructor).
  destruct (field r "body") as [b|]; cbn [from_option]; [|done]. rewrite Hno; [done|].
  rewrite Forall_fmap. apply Forall_true. intros l. apply body_never_separates.
Qed.

Lemma push_each_app {A} (f : A → string) xs ys :
  DavXml.push_each f (xs ++ ys) = DavXml.push_each f xs +:+ DavXml.push_each f ys.
Proof.
  unfold DavXml.push_each. induction xs as [|x xs IH]; [done|]. rewrite <- app_comm_cons. cbn [foldr].
  by rewrite IH, string_app_assoc.
Qed.

Lemma render_mbox_lines rs : render_mbox rs = DavXml.push_each DavXml.line (rs ≫= mail_lines).
Proof.
  induction rs as [|r rs IH]; [done|]. rewrite bind_cons, push_each_app, <- IH. done.
Qed.

(** The exported mailbox reads back as the lines of its messages, and has as many separator lines as messages:
    no line of a body is one, as long as the header fields have no line breaks. *)
Theorem mbox_splits rs :
  Forall one_line_fields rs →
  lines (render_mbox rs) = rs ≫= mail_lines ∧
  length (filter (λ l, separator l = true) (lines (render_mbox rs))) = length rs.
Proof.
  intros Hf. assert (lines (render_mbox rs) = rs ≫= mail_lines) as Hl.
  { rewrite render_mbox_lines. apply lines_written. induction Hf as [|r rs Hr _ IH]; [constructor|].
    rewrite bind_cons. apply Forall_app. split; [by apply mail_lines_free|done]. }
  split; [done|]. rewrite Hl. clear. induction rs as [|r rs IH]; [done|]. rewrite bind_cons, filter_app, length_app, mail_separators, IH.
  done.
Qed.

(** *** Completeness *)

Section Complete.
Context `{JsonText} (pretty : json → string) (archive : list (string * string) → result string BackendError).
Context (out_of_range : string).

Definition valid_rows (rows : list Row) : Prop := Forall (λ r, 0 ≤ r_version r)%Z rows.

(** A row as it is exported. *)
Definition export_of (r : Row) : ExportedRecord :=
  mkExported (r_id r) (r_plugin_id r) (r_collection r) (text_value (r_data r)) (r_version r) (r_created_at r) (r_updated_at r).

Lemma all_exported_ok rows : valid_rows rows → all_exported out_of_range rows = Ok (export_of <$> rows).
Proof.
  induction 1 as [|r rows Hr _ IH]; [done|]. cbn. unfold exported. rewrite (proj2 (Z.ltb_ge _ _) Hr). cbn. by rewrite IH.
Qed.

Lemma sorted_valid rows : valid_rows rows → valid_rows (merge_sort row_order rows).
Proof. unfold valid_rows. by rewrite merge_sort_Permutation. Qed.

(** When the database and the archiver work, a full export holds every row of plugin_data and of the audit log
    exactly once and their counts; the rows stay, and the audit log gets one entry, of the export. *)
Theorem full_export_complete exported_at id now s compressed plugin_data audit :
  valid_rows (ss_rows s) →
  plugin_data = (export_of <$> merge_sort row_order (ss_rows s)) →
  audit = (audit_value <$> merge_sort by_timestamp (ss_audit s)) →
  archive [("plugin_data.json", pretty (JArr (record_value <$> plugin_data))); ("audit_log.json", pretty (JArr audit));
           ("metadata.json", pretty (mk_obj [("exported_at", JStr exported_at); ("plugin_data_count", count_value (ss_rows s));
              ("audit_log_count", count_value (ss_audit s)); ("format_version", JNum (NInt 1))]))] = Ok compressed →
  plugin_data ≡ₚ export_of <$> ss_rows s ∧ audit ≡ₚ audit_value <$> ss_audit s ∧
  ∃ s', export_full_archive pretty archive out_of_range (mkFaults None None None) exported_at id now s = (Ok compressed, s') ∧
    ss_rows s' = ss_rows s ∧
    ∃ e, ss_audit s' = ss_audit s ++ [e] ∧ al_event_type e = "data_export" ∧ al_id e = id.
Proof.
  intros Hv -> -> Ha. split; [by rewrite merge_sort_Permutation|]. split; [by rewrite merge_sort_Permutation|].
  unfold export_full_archive, query_all_plugin_data, query_all_audit_log. cbn [fa_rows fa_audit fa_log].
  rewrite all_exported_ok by (by apply sorted_valid).
  assert (∀ (l : list Row), count_value (export_of <$> merge_sort row_order l) = count_value l) as ->.
  { intros l. unfold count_value. by rewrite length_fmap, merge_sort_Permutation. }
  assert (∀ (l : list AuditRow), count_value (audit_value <$> merge_sort by_timestamp l) = count_value l) as ->.
  { intros l. unfold count_value. by rewrite length_fmap, merge_sort_Permutation. }
  rewrite Ha. eexists. split; [done|]. split; [done|]. eexists. split; [done|]. done.
Qed.

(** *** By service *)

Lemma file_name_inj plugin a b : file_name plugin a = file_name plugin b → a = b.
Proof.
  assert (∀ c t, ends_with t ".json" = false → c +:+ ".json" ≠ t) as Hext.
  { intros c t Ht E. rewrite (proj2 (ends_with_true t ".json")) in Ht; [done|]. by exists c. }
  unfold file_name. repeat case_bool_decide; subst; intros E; try done;
    apply (inj (String.append plugin)) in E; try discriminate; injection E as E;
    try (symmetry in E; by apply Hext in E); try (by apply Hext in E).
  by apply string_app_inv_tail in E.
Qed.

Lemma collections_NoDup rs : NoDup (collections_of rs).
Proof. unfold collections_of. rewrite merge_sort_Permutation. apply NoDup_elements. Qed.

Lemma collections_all rs : Forall (λ r, xr_collection r ∈ collections_of rs) rs.
Proof.
  apply Forall_forall. intros r Hr. unfold collections_of. rewrite merge_sort_Permutation, elem_of_elements, elem_of_list_to_set.
  by apply list_elem_of_fmap_2.
Qed.

(** An export of a plugin puts each of its records into exactly one file: the names differ, and the files hold the
    records of their collections, which are together all of the plugin. *)
Theorem service_export_complete id now plugin s :
  valid_rows (ss_rows s) →
  ∃ records cs s',
    export_service_data pretty out_of_range (mkFaults None None None) id now plugin s
    = (Ok ((λ c, (file_name plugin c, file_content pretty c (in_collection c records))) <$> cs), s') ∧
    records ≡ₚ export_of <$> filter (λ r, r_plugin_id r = plugin) (ss_rows s) ∧
    (cs ≫= λ c, in_collection c records) ≡ₚ records ∧ NoDup (file_name plugin <$> cs) ∧
    ss_rows s' = ss_rows s ∧ length (ss_audit s') = S (length (ss_audit s)).
Proof.
  intros Hv. unfold export_service_data, query_plugin_data_by_plugin. cbn [fa_rows fa_log].
  rewrite all_exported_ok.
  2: { apply sorted_valid, Forall_forall. intros r [_ Hr]%list_elem_of_filter. by eapply Forall_forall in Hv. }
  do 3 eexists. split; [done|]. split; [by rewrite merge_sort_Permutation|].
  split; [apply (by_key xr_collection); [apply collections_NoDup|apply collections_all]|].
  split; [apply NoDup_fmap_2_strong; [by intros; eapply file_name_inj|apply collections_NoDup]|].
  split; [done|]. cbn. rewrite length_app. cbn. lia.
Qed.
End Complete.

(** *** Examples *)

Definition note (data : list (string * json)) : ExportedRecord := mkExported "1" "p" "c" (mk_obj data) 1 "t" "t".

(** A time with an offset loses it and is written as a local time. *)
Example offset_dropped : to_ical_datetime "2026-03-21T10:00:00+02:00" = "20260321T100000".
Proof. reflexivity. Qed.

Example utc_kept : to_ical_datetime "2026-03-21T10:00:00.123Z" = "20260321T100000Z".
Proof. reflexivity. Qed.

(** The id of an event and the names of a contact are written as they are: they can add lines and fields. *)
Example event_id_adds_line :
  lines (render_event (note [("id", JStr ("x" +:+ CRLF +:+ "SUMMARY:forged"))]))
  = ["BEGIN:VEVENT"; "UID:x"; "SUMMARY:forged"; "END:VEVENT"].
Proof. vm_compute. reflexivity. Qed.

Example name_shifts_fields :
  lines (render_card (note [("first_name", JStr "Ann;Dr."); ("last_name", JStr "Lee")]))
  = ["BEGIN:VCARD"; "VERSION:3.0"; "N:Lee;Ann;Dr.;;;"; "FN:Ann" +:+ String BACKSLASH ";Dr. Lee"; "END:VCARD"].
Proof. vm_compute. reflexivity. Qed.

(** A subject with a line break can start another message. *)
Example subject_adds_message :
  length (filter (λ l, separator l = true)
    (lines (render_mbox [note [("subject", JStr ("x" +:+ CRLF +:+ "From a b"))]]))) = 2%nat.
Proof. vm_compute. reflexivity. Qed.

Lemma mbox_splits_witness :
  let r := note [("from", JStr "a@b"); ("body", JStr ("From here" +:+ CRLF +:+ "on"))] in
  length (filter (λ l, separator l = true) (lines (render_mbox [r; r]))) = 2%nat.
Proof.
  intros r. assert (one_line_fields r) as Hr.
  { unfold one_line_fields. repeat constructor; vm_compute; intros s [= <-]; intuition discriminate. }
  apply (mbox_splits [r; r]). apply Forall_cons; split; [exact Hr|]. apply Forall_cons; split; [exact Hr|]. apply Forall_nil_2.
Defined.

End Exports.

(** ** Health of a connection (health.rs) *)

Module Health.

Section Checks.
(** how a size in megabytes is written, with two decimals *)
Context (megabytes : Z → string).

Definition check_connectivity (probe : result Z string) : string * HealthStatus * option string :=
  match probe with
  | Ok 1%Z => ("connectivity", Healthy, None)
  | Ok v => ("connectivity", Degraded, Some ("SELECT 1 returned unexpected value: " +:+ show_Z v))
  | Err e => ("connectivity", Unhealthy, Some ("SELECT 1 failed: " +:+ e))
  end.

Definition check_wal_mode (journal : result string string) : string * HealthStatus * option string :=
  match journal with
  | Ok mode =>
      if bool_decide (mode = "wal") then ("wal_mode", Healthy, None)
      else ("wal_mode", Degraded, Some ("expected WAL mode, got: " +:+ mode))
  | Err e => ("wal_mode", Unhealthy, Some ("PRAGMA journal_mode failed: " +:+ e))
  end.

Definition check_encryption (cipher : result string string) : string * HealthStatus * option string :=
  match cipher with
  | Ok version =>
      if is_empty version then ("encryption", Degraded, Some "cipher_version returned empty string")
      else ("encryption", Healthy, Some ("SQLCipher " +:+ version))
  | Err _ => ("encryption", Degraded, Some "SQLCipher not available — database is unencrypted")
  end.

Definition check_file_size (meta : result Z string) : string * HealthStatus * option string :=
  match meta with
  | Ok size => ("file_size", Healthy, Some (megabytes size +:+ " MB (" +:+ show_Z size +:+ " bytes)"))
  | Err e => ("file_size", Degraded, Some ("cannot read file metadata: " +:+ e))
  end.

Definition has_status (h : HealthStatus) (c : string * HealthStatus * option string) : bool := bool_decide (c.1.2 = h).

(** [meta] is what the file system says of the database file, when its path is known. *)
Definition run_health_checks (probe : result Z string) (journal cipher : result string string)
    (meta : option (result Z string)) : HealthReport :=
  let checks := [check_connectivity probe; check_wal_mode journal; check_encryption cipher]
                ++ option_list (check_file_size <$> meta) in
  let overall := if existsb (has_status Unhealthy) checks then Unhealthy
                 else if existsb (has_status Degraded) checks then Degraded else Healthy in
  mkHealthReport overall
    (if bool_decide (overall = Healthy) then None
     else Some ("degraded checks: " +:+ join ", " ((λ c, c.1.1) <$> filter (λ c, c.1.2 ≠ Healthy) checks)))
    checks.

(** The status is the worst of the checks, as the storage router combines them. *)
Theorem health_is_worst probe journal cipher meta :
  let r := run_health_checks probe journal cipher meta in
  hr_status r = foldr (λ c s, worst_status c.1.2 s) Healthy (hr_checks r).
Proof.
  unfold run_health_checks. cbv zeta. cbn [hr_status hr_checks].
  generalize ([check_connectivity probe; check_wal_mode journal; check_encryption cipher]
              ++ option_list (check_file_size <$> meta)).
  intros cs. induction cs as [|[[n h] m] cs IH]; [done|]. cbn [existsb foldr]. rewrite <- IH.
  destruct h; cbn; destruct (existsb (has_status Unhealthy) cs), (existsb (has_status Degraded) cs); done.
Qed.

(** Only a statement that fails makes the database unhealthy; without SQLCipher it is never healthy. *)
Theorem health_reasons probe journal cipher meta :
  let r := run_health_checks probe journal cipher meta in
  (hr_status r = Unhealthy ↔ (∃ e, probe = Err e) ∨ (∃ e, journal = Err e)) ∧
  (hr_status r = Healthy → ∃ version, cipher = Ok version ∧ version ≠ empty_str).
Proof.
  cbv zeta. rewrite health_is_worst. cbn [run_health_checks hr_checks foldr app].
  assert ((check_connectivity probe).1.2 = Unhealthy ↔ ∃ e, probe = Err e) as Hp.
  { unfold check_connectivity. repeat case_match; naive_solver. }
  assert ((check_wal_mode journal).1.2 = Unhealthy ↔ ∃ e, journal = Err e) as Hj.
  { unfold check_wal_mode. repeat case_match; naive_solver. }
  assert ((check_encryption cipher).1.2 = Degraded ∨
          (check_encryption cipher).1.2 = Healthy ∧ ∃ version, cipher = Ok version ∧ version ≠ empty_str) as Hc.
  { unfold check_encryption. destruct cipher as [[|c v]|]; cbn; eauto. }
  assert (foldr (λ c s, worst_status c.1.2 s) Healthy (option_list (check_file_size <$> meta)) ≠ Unhealthy) as Hm.
  { by destruct meta as [[]|]. }
  destruct (foldr _ _ _); destruct (check_connectivity probe).1.2, (check_wal_mode journal).1.2;
    destruct Hc as [-> | [-> Hc]]; naive_solver.
Qed.
End Checks.

End Health.

(** ** Keys of the database (encryption.rs, lib.rs) *)

Module DbKeys.

Record Argon2Params : Type := mkArgon2Params {
  memory_kib : Z;
  iterations : Z;
  parallelism : Z;
}.

Definition default_params : Argon2Params := mkArgon2Params 65536 3 4.

(** The argon2 crate: whether it takes the parameters, and the hash. *)
Class Argon2 : Type := {
  argon2_params : Argon2Params → result unit string;
  argon2id : Argon2Params → string → bytes → result bytes string;
}.

(** Files by path; what a read and a write meet. A write that fails leaves something or nothing in the file. *)
Record FileFaults : Type := mkFileFaults {
  ff_read : option string;
  ff_write : option (string * option bytes);
}.

Definition no_faults : FileFaults := mkFileFaults None None.

Section Keys.
Context `{Argon2}.

Definition derive_key_with_params (passphrase : string) (salt : bytes) (params : Argon2Params) : result bytes string :=
  result_map_err (λ e, "key derivation failed: " +:+ e)
    (let? _ := argon2_params params in argon2id params passphrase salt).

Definition derive_key (passphrase : string) (salt : bytes) : result bytes string :=
  derive_key_with_params passphrase salt default_params.

Definition salt_path (db_path : string) : string := db_path +:+ ".salt".

(** [fresh] is the salt that would be generated. *)
Definition load_or_create_salt (db_path : string) (fresh : bytes) (f : FileFaults) (files : gmap string bytes)
    : result bytes BackendError * gmap string bytes :=
  let path := salt_path db_path in
  match files !! path with
  | Some found =>
      match ff_read f with
      | Some e => (Err (InitFailed ("failed to read salt file " +:+ path +:+ ": " +:+ e)), files)
      | None =>
          if bool_decide (length found ≠ 16%nat) then
            (Err (InitFailed ("salt file " +:+ path +:+ " has invalid length " +:+ show_nat (length found)
                              +:+ " (expected 16)")), files)
          else (Ok found, files)
      end
  | None =>
      match ff_write f with
      | Some (e, rest) =>
          (Err (InitFailed ("failed to write salt file " +:+ path +:+ ": " +:+ e)),
           from_option (λ b, <[path := b]> files) files rest)
      | None => (Ok fresh, <[path := fresh]> files)
      end
  end.

Definition derivation_failed (e : string) : BackendError := InitFailed ("key derivation failed: " +:+ e).

Definition derive_db_key_with_params (passphrase db_path : string) (params : Argon2Params) (fresh : bytes) (f : FileFaults)
    (files : gmap string bytes) : result bytes BackendError * gmap string bytes :=
  let '(r, files') := load_or_create_salt db_path fresh f files in
  (let? salt := r in result_map_err derivation_failed (derive_key_with_params passphrase salt params), files').

Definition derive_db_key (passphrase db_path : string) (fresh : bytes) (f : FileFaults) (files : gmap string bytes)
    : result bytes BackendError * gmap string bytes :=
  let '(r, files') := load_or_create_salt db_path fresh f files in
  (let? salt := r in result_map_err derivation_failed (derive_key passphrase salt), files').

Definition passphrase_from_env (var : option string) : option string :=
  s ← var; if is_empty s then None else Some s.

Definition derive_rekey_pair (old_passphrase new_passphrase db_path : string) (fresh : bytes) (f : FileFaults)
    (files : gmap string bytes) : result (bytes * bytes) BackendError * gmap string bytes :=
  let '(r, files') := load_or_create_salt db_path fresh f files in
  (let? salt := r in
   let? old_key := result_map_err (λ e, RekeyFailed ("old key derivation failed: " +:+ e)) (derive_key old_passphrase salt) in
   let? new_key := result_map_err (λ e, RekeyFailed ("new key derivation failed: " +:+ e)) (derive_key new_passphrase salt) in
   Ok (old_key, new_key), files').

(** [database_path] is the text under that key of the configuration, if there is one; [file] and [fault] are as for
    [init]. *)
Definition from_passphrase (database_path : option string) (passphrase : string) (fresh : bytes) (f : FileFaults)
    (file : option DbFile) (fault : option BackendError) (files : gmap string bytes)
    : result SqliteStorage BackendError * gmap string bytes :=
  match database_path with
  | None => (Err (InvalidConfig "missing or invalid 'database_path' in storage config"), files)
  | Some db_path =>
      let '(r, files') := derive_db_key passphrase db_path fresh f files in
      (let? key := r in init file key fault, files')
  end.

Definition rekey_with_passphrase `{JsonText, CryptoLib, HmacHex} (db_path new_passphrase : string) (fresh : bytes)
    (f : FileFaults) (d : RekeyDraw) (s : SqliteStorage) (files : gmap string bytes)
    : result unit BackendError * SqliteStorage * gmap string bytes :=
  let '(r, files') := derive_db_key new_passphrase db_path fresh f files in
  match r with
  | Err e => (Err e, s, files')
  | Ok new_key => (rekey new_key d s, files')
  end.

(** A salt that was given out is kept and given out again. *)
Lemma salt_stable db_path fresh f files salt files' fresh' :
  length fresh = 16%nat → load_or_create_salt db_path fresh f files = (Ok salt, files') →
  length salt = 16%nat ∧ load_or_create_salt db_path fresh' no_faults files' = (Ok salt, files').
Proof.
  intros Hl. unfold load_or_create_salt. destruct (files !! _) as [found|] eqn:E.
  - destruct (ff_read f); [done|]. case_bool_decide as Hb; [done|]. intros [= -> ->]. rewrite E. cbn.
    by rewrite bool_decide_false by naive_solver.
  - destruct (ff_write f) as [[? ?]|]; [done|]. intros [= -> <-]. rewrite lookup_insert_eq. cbn.
    rewrite bool_decide_false by naive_solver. done.
Qed.

Lemma derive_db_key_stable passphrase db_path fresh f files key files' fresh' :
  length fresh = 16%nat → derive_db_key passphrase db_path fresh f files = (Ok key, files') →
  derive_db_key passphrase db_path fresh' no_faults files' = (Ok key, files').
Proof.
  unfold derive_db_key. intros Hl. destruct (load_or_create_salt _ fresh f files) as [[salt|] ?] eqn:E; [|done]. cbn.
  intros [= Hk ->]. destruct (salt_stable _ _ _ _ _ _ fresh' Hl E) as [_ ->]. cbn. by rewrite Hk.
Qed.

(** Both keys of a rotation are those the passphrases open the database with. *)
Theorem rekey_pair_agrees old new db_path fresh f files a b files' fresh' :
  length fresh = 16%nat → derive_rekey_pair old new db_path fresh f files = (Ok (a, b), files') →
  derive_db_key old db_path fresh' no_faults files' = (Ok a, files') ∧
  derive_db_key new db_path fresh' no_faults files' = (Ok b, files').
Proof.
  unfold derive_rekey_pair, derive_db_key. intros Hl.
  destruct (load_or_create_salt _ fresh f files) as [[salt|] ?] eqn:E; [|done]. cbn. intros [= Hk ->].
  destruct (salt_stable _ _ _ _ _ _ fresh' Hl E) as [_ ->]. cbn.
  destruct (derive_key old salt); [|done]. cbn in *. destruct (derive_key new salt); [|done]. cbn in *. by simplify_eq.
Qed.

(** After the passphrase of an open database is changed, the file opens with the new passphrase and shows what was in
    the store; the salt stays, and another passphrase, unless it has the same key, is refused. *)
Theorem passphrase_change_reopens `{JsonText, CryptoLib, HmacHex} db_path p q fresh f file files s files1 d s' files2
    fresh1 fresh2 :
  length fresh = 16%nat →
  from_passphrase (Some db_path) p fresh f file None files = (Ok s, files1) →
  rekey_with_passphrase db_path q fresh1 no_faults d s files1 = (Ok tt, s', files2) →
  files2 = files1 ∧
  (∃ key, from_passphrase (Some db_path) q fresh2 no_faults (Some (file_of s')) None files2
          = (Ok (mkSqliteStorage (ss_rows s') (ss_audit s) ∅ key key), files2) ∧ ss_master_key s' = key) ∧
  ∀ other key, derive_db_key other db_path fresh2 no_faults files2 = (Ok key, files2) → key ≠ ss_master_key s' →
    from_passphrase (Some db_path) other fresh2 no_faults (Some (file_of s')) None files2
    = (Err (DatabaseDecryptionFailed "unable to decrypt database — wrong key or corrupted file"), files2).
Proof.
  intros Hl Ho Hr. unfold from_passphrase in Ho. destruct (derive_db_key p _ _ _ _) as [[kp|] ?] eqn:Ep in Ho; [|done].
  injection Ho as _ ->. pose proof Ep as Hload. unfold derive_db_key in Hload.
  destruct (load_or_create_salt db_path fresh f files) as [[salt|] ?] eqn:Es; [|done]. injection Hload as _ ->.
  assert (∀ x pass, derive_db_key pass db_path x no_faults files1
    = (result_map_err derivation_failed (derive_key pass salt), files1)) as Hd.
  { intros x pass. unfold derive_db_key. by destruct (salt_stable _ _ _ _ _ _ x Hl Es) as [_ ->]. }
  unfold rekey_with_passphrase in Hr. rewrite Hd in Hr. destruct (derive_key q salt) as [kq|] eqn:Eq; [|done]. cbn in Hr.
  destruct (rekey kq d s) as [r s1] eqn:Er. injection Hr as -> -> <-. split; [done|].
  assert (ss_master_key s' = kq ∧ df_key (file_of s') = kq ∧ ss_audit s' = ss_audit s) as (Hm & Hf & Ha).
  { unfold rekey in Er. repeat case_match; by simplify_eq. }
  cbn in Hf.
  split.
  - exists kq. split; [|done]. unfold from_passphrase. rewrite Hd, Eq. cbn. rewrite Hf, bool_decide_true by done. cbn.
    by rewrite Ha.
  - intros other key Hk Hne. unfold from_passphrase. rewrite Hk. cbn. rewrite Hf, bool_decide_false by congruence. done.
Qed.

(** A salt that could only be written in part blocks every later attempt. *)
Theorem partial_salt_blocks passphrase db_path fresh e part files fresh' f :
  files !! salt_path db_path = None → length part ≠ 16%nat →
  let files' := (derive_db_key passphrase db_path fresh (mkFileFaults None (Some (e, Some part))) files).2 in
  ∃ e', derive_db_key passphrase db_path fresh' f files' = (Err e', files').
Proof.
  intros Hn Hp. unfold derive_db_key, load_or_create_salt. rewrite Hn. cbn. rewrite lookup_insert_eq.
  destruct (ff_read f); cbn; [by eexists|]. rewrite bool_decide_true by done. by eexists.
Qed.
End Keys.

End DbKeys.

(** ** Indexes of a collection (migration/executor.rs) *)

Module Indexes.

Record MigrateField : Type := mkMigrateField {
  mf_name : string;
  mf_indexed : bool;
}.

Record MigrateDescriptor : Type := mkMigrateDescriptor {
  md_name : string;
  md_fields : list MigrateField;
  md_indexes : list (list string);
}.

(** The indexes of plugin_data in sqlite_master, with their text; an index that SQLite makes itself has none. *)
Notation master := (list (string * option string)).

Definition column (f : string) : string := "json_extract(data, '$." +:+ f +:+ "')".

(** The text of an index from its name on, which SQLite keeps after CREATE INDEX. *)
Definition index_rest (name : string) (fields : list string) : string :=
  name +:+ " ON plugin_data(collection, " +:+ join ", " (column <$> fields) +:+ ")".

Definition create_text (name : string) (fields : list string) : string :=
  "CREATE INDEX IF NOT EXISTS " +:+ index_rest name fields.

(** Names are the same up to the case of letters. *)
Definition add_index (name : string) (fields : list string) (m : master) : master :=
  if existsb (eq_ignore_ascii_case name) m.*1 then m
  else m ++ [(name, Some ("CREATE INDEX " +:+ index_rest name fields))].

Definition pattern : string := "json_extract(data, '$.".

(** The loop over a text; each round leaves a shorter rest. *)
Fixpoint fields_of (fuel : nat) (remaining : string) : list string :=
  match fuel with
  | O => []
  | S fuel =>
      match find_str pattern remaining with
      | None => []
      | Some (_, from) =>
          let after_prefix := default from (strip_prefix pattern from) in
          match find_str "')" after_prefix with
          | None => []
          | Some (field, rest) => field :: fields_of fuel (default rest (strip_prefix "')" rest))
          end
      end
  end.

Definition fields_in (sql : string) : list string := fields_of (S (String.length sql)) sql.

Definition index_prefix (collection : string) : string := "idx_col_" +:+ collection +:+ "_".

Section Executor.
(** why the list of indexes, the text of one, and a statement are refused *)
Context (list_fault : option string) (text_fault : string → option string) (run : string → result unit string).

Definition list_collection_indexes (collection : string) (m : master) : result (list string) BackendError :=
  match list_fault with
  | Some e => Err (Database e)
  | None => Ok (filter (λ name, starts_with name (index_prefix collection) = true) m.*1)
  end.

Definition extract_fields_from_index (name : string) (m : master) : result (list string) BackendError :=
  match text_fault name with
  | Some e => Err (Database e)
  | None =>
      match find (λ r, bool_decide (r.1 = name)) m with
      | None => Err (Database "Query returned no rows")
      | Some (_, None) => Ok []
      | Some (_, Some sql) => Ok (fields_in sql)
      end
  end.

Definition declared (d : MigrateDescriptor) : list string := (mf_name <$> md_fields d) ++ concat (md_indexes d).

Definition conflict (d : MigrateDescriptor) (field name : string) : BackendError :=
  InvalidConfig ("schema conflict: field '" +:+ field +:+ "' is referenced by existing index '" +:+ name
                 +:+ "' but is not present in the new descriptor for collection '" +:+ md_name d +:+ "'").

(** The first index with a field that is not declared is a conflict. *)
Fixpoint check_indexes (d : MigrateDescriptor) (names : list string) (m : master) : result unit BackendError :=
  match names with
  | [] => Ok tt
  | name :: names' =>
      let? fields := extract_fields_from_index name m in
      match find (λ f, negb (bool_decide (f ∈ declared d))) fields with
      | Some f => Err (conflict d f name)
      | None => check_indexes d names' m
      end
  end.

(** The indexes that are created, with their fields, in order. *)
Definition wanted (d : MigrateDescriptor) : list (string * list string) :=
  ((λ f, (index_prefix (md_name d) +:+ mf_name f, [mf_name f])) <$> filter (λ f, mf_indexed f = true) (md_fields d))
  ++ ((λ fs, (index_prefix (md_name d) +:+ join "_" fs, fs)) <$> filter (λ fs, fs ≠ []) (md_indexes d)).

Fixpoint create_all (ws : list (string * list string)) (m : master) : result unit BackendError * master :=
  match ws with
  | [] => (Ok tt, m)
  | (name, fields) :: ws' =>
      match run (create_text name fields) with
      | Err e => (Err (Database e), m)
      | Ok _ => create_all ws' (add_index name fields m)
      end
  end.

Definition execute_migration (d : MigrateDescriptor) (m : master) : result unit BackendError * master :=
  match (let? names := list_collection_indexes (md_name d) m in check_indexes d names m) with
  | Err e => (Err e, m)
  | Ok _ => create_all (wanted d) m
  end.
End Executor.

(** *** Reading the fields of an index *)

Lemma strip_find pat s l r : find_str pat s = Some (l, r) → ∃ t, s = l +:+ pat +:+ t ∧ strip_prefix pat r = Some t.
Proof. intros [-> [t ->]]%find_str_Some. exists t. split; [done|]. by apply strip_prefix_Some. Qed.

(** More rounds than characters find nothing more. *)
Lemma fields_fuel fuel s : (String.length s < fuel)%nat → fields_of fuel s = fields_in s.
Proof.
  revert s. enough (∀ fuel s fuel', (String.length s < fuel)%nat → (String.length s < fuel')%nat →
    fields_of fuel s = fields_of fuel' s) as Hn by (intros s Hs; apply Hn; lia). clear fuel.
  induction fuel as [|fuel IH]; intros s [|fuel'] H1 H2; try lia. cbn [fields_of].
  destruct (find_str pattern s) as [[l r]|] eqn:E; [|done]. apply strip_find in E as (t & -> & ->). cbn [default from_option id].
  destruct (find_str "')" t) as [[f r']|] eqn:E'; [|done]. apply strip_find in E' as (t' & -> & ->). cbn [default from_option id].
  f_equal. rewrite !string_length_app in H1, H2. cbn in H1, H2. apply IH; lia.
Qed.

Lemma find_first c p l t : ¬ char_in c l → find_str (String c p) (l +:+ String c p +:+ t) = Some (l, String c p +:+ t).
Proof.
  induction l as [|a l IH]; intros Hl.
  - cbn [String.append find_str]. destruct (starts_with _ _) eqn:E; [done|].
    exfalso. apply not_true_iff_false in E. apply E. apply starts_with_true. by exists t.
  - change ((String a l +:+ String c p +:+ t)) with (String a (l +:+ String c p +:+ t)). cbn [find_str].
    assert (a ≠ c ∧ ¬ char_in c l) as [Ha Hl'] by (cbn in Hl; intuition congruence).
    rewrite starts_with_head by done. by rewrite IH.
Qed.

Definition name_char (c : ascii) : bool := is_ascii_alphanumeric c || bool_decide (c = "_"%char).

(** A word followed by another character than the word of a pattern does not start it. *)
Lemma word_differs w b r p c q :
  all_chars name_char w = true → all_chars name_char p = true → name_char b = false → name_char c = false → b ≠ c →
  starts_with (w +:+ String b r) (p +:+ String c q) = false.
Proof.
  intros Hw Hp Hb Hc Hne. apply not_true_iff_false. intros [t Ht]%starts_with_true. revert p Hp Ht.
  induction w as [|a w IH]; intros [|a' p] Hp Ht; cbn in Ht, Hw, Hp; simplify_eq.
  - cbn in Hp. by rewrite Hb in Hp.
  - cbn in Hw. by rewrite Hc in Hw.
  - apply andb_true_iff in Hw as [_ Hw], Hp as [_ Hp]. by eapply IH.
Qed.

Lemma find_after_word w b r : 
  all_chars name_char w = true → name_char b = false → b ≠ "("%char →
  find_str pattern (w +:+ String b r)
  = match find_str pattern (String b r) with Some (l, x) => Some (w +:+ l, x) | None => None end.
Proof.
  intros Hw Hb Hne. destruct (find_str pattern (String b r)) as [[l x]|] eqn:E; (induction w as [|a w IH]; [exact E|]);
    change (String a w +:+ String b r) with (String a (w +:+ String b r)); cbn [find_str];
    pose proof (word_differs (String a w) b r "json_extract" "(" "data, '$." Hw eq_refl Hb eq_refl Hne) as Hs;
    change (String a w +:+ String b r) with (String a (w +:+ String b r)) in Hs;
    change ("json_extract" +:+ "(data, '$.") with pattern in Hs; rewrite Hs; cbn in Hw; apply andb_true_iff in Hw as [_ Hw];
    by rewrite IH by done.
Qed.

Lemma find_skip l s : ¬ char_in "j" l →
  find_str pattern (l +:+ s) = match find_str pattern s with Some (l', x) => Some (l +:+ l', x) | None => None end.
Proof.
  intros Hl. destruct (find_str pattern s) as [[l' x]|] eqn:E; (induction l as [|a l IH]; [exact E|]);
    change (String a l +:+ s) with (String a (l +:+ s)); cbn [find_str];
    (assert (a ≠ "j"%char ∧ ¬ char_in "j" l) as [Ha Hl'] by (cbn in Hl; intuition congruence));
    unfold pattern at 1; rewrite starts_with_head by done; by rewrite IH by done.
Qed.

Lemma find_pattern t : find_str pattern (pattern +:+ t) = Some (empty_str, pattern +:+ t).
Proof. apply (find_first "j" _ empty_str t). intros []. Qed.

Lemma fields_in_step s l t f rest :
  find_str pattern s = Some (l, pattern +:+ t) → find_str "')" t = Some (f, "')" +:+ rest) →
  fields_in s = f :: fields_in rest.
Proof.
  intros H1 H2. destruct (strip_find _ _ _ _ H1) as (t' & -> & Ht). destruct (strip_find _ _ _ _ H2) as (r' & -> & Hr).
  unfold fields_in at 1. cbn [fields_of]. rewrite H1, Ht. cbn [default from_option id].
  assert (t' = f +:+ "')" +:+ r') as ->.
  { apply strip_prefix_Some in Ht. by apply (inj (String.append pattern)) in Ht. }
  rewrite H2, Hr. cbn [default from_option id]. f_equal.
  apply strip_prefix_Some in Hr. apply (inj (String.append "')")) in Hr as ->. apply fields_fuel.
  rewrite !string_length_app. cbn. lia.
Qed.

Lemma columns_fields l f fs :
  (∀ t, find_str pattern (l +:+ pattern +:+ t) = Some (l, pattern +:+ t)) →
  Forall (λ f, ¬ char_in "'" f) (f :: fs) →
  fields_in (l +:+ join ", " (column <$> f :: fs) +:+ ")") = f :: fs.
Proof.
  revert l f. induction fs as [|g fs IH]; intros l f Hl [Hf Hfs]%Forall_cons.
  - assert (l +:+ join ", " (column <$> [f]) +:+ ")" = l +:+ pattern +:+ f +:+ "')" +:+ ")") as ->.
    { cbn [fmap list_fmap join]. unfold column. by rewrite !string_app_assoc. }
    erewrite fields_in_step; [|apply Hl|by apply find_first]. done.
  - assert (l +:+ join ", " (column <$> f :: g :: fs) +:+ ")"
            = l +:+ pattern +:+ f +:+ "')" +:+ (", " +:+ join ", " (column <$> g :: fs) +:+ ")")) as ->.
    { change (join ", " (column <$> f :: g :: fs)) with (column f +:+ ", " +:+ join ", " (column <$> g :: fs)).
      unfold column at 1. by rewrite !string_app_assoc. }
    erewrite fields_in_step; [|apply Hl|by apply find_first]. f_equal. apply IH; [|done].
    intros t. rewrite find_skip by (cbn; intuition discriminate).
    by rewrite find_pattern, string_app_nil_r.
Qed.

Lemma name_no_quote s : all_chars name_char s = true → ¬ char_in "'" s.
Proof. rewrite all_chars_true. intros Hs H%Hs. vm_compute in H. discriminate. Qed.

(** The fields of an index are read back from its text. *)
Lemma index_fields_read name fields :
  all_chars name_char name = true → Forall (λ f, all_chars name_char f = true) fields → fields ≠ [] →
  fields_in ("CREATE INDEX " +:+ index_rest name fields) = fields.
Proof.
  intros Hn Hf Hne. destruct fields as [|f fs]; [done|].
  assert ("CREATE INDEX " +:+ index_rest name (f :: fs)
    = ("CREATE INDEX " +:+ name +:+ " ON plugin_data(collection, ") +:+ join ", " (column <$> f :: fs) +:+ ")") as ->.
  { unfold index_rest. by rewrite !string_app_assoc. }
  apply columns_fields; [|eapply Forall_impl; [done|apply name_no_quote]].
  intros t. rewrite !string_app_assoc. rewrite find_skip by (cbn; intuition discriminate).
  change (" ON plugin_data(collection, " +:+ pattern +:+ t) with (String " " ("ON plugin_data(collection, " +:+ pattern +:+ t)).
  rewrite find_after_word by done.
  change (String " " ("ON plugin_data(collection, " +:+ pattern +:+ t)) with (" ON plugin_data(collection, " +:+ pattern +:+ t).
  rewrite find_skip by (cbn; intuition discriminate). by rewrite find_pattern, string_app_nil_r.
Qed.

(** *** Creating indexes *)

Lemma add_index_app name fields m :
  ∃ extra, add_index name fields m = m ++ extra ∧
    Forall (λ r, r = (name, Some ("CREATE INDEX " +:+ index_rest name fields)) ∧ r.1 ∉ m.*1) extra.
Proof.
  unfold add_index. destruct (existsb _ _) eqn:E; [exists []; by rewrite app_nil_r|].
  eexists. split; [done|]. repeat constructor. intros Hin. apply not_true_iff_false in E. apply E, existsb_exists.
  exists name. split; [by apply list_elem_of_In|]. unfold eq_ignore_ascii_case. by apply bool_decide_eq_true.
Qed.

Definition present (m : master) (name : string) : Prop := existsb (eq_ignore_ascii_case name) m.*1 = true.

Lemma present_app m m' name : present m name → present (m ++ m') name.
Proof. unfold present. intros Hm. by rewrite fmap_app, existsb_app, Hm. Qed.

Lemma add_index_present name fields m : present (add_index name fields m) name.
Proof.
  unfold add_index, present. destruct (existsb (eq_ignore_ascii_case name) m.*1) eqn:E; [done|]. rewrite fmap_app, existsb_app. cbn.
  unfold eq_ignore_ascii_case at 2. by rewrite (bool_decide_true (_ = _)), orb_true_r by done.
Qed.

Section Idempotent.
Context (run : string → result unit string).

(** What was created: new entries of the wanted indexes, all of which are there. *)
Lemma create_all_made ws m m' :
  create_all run ws m = (Ok tt, m') →
  (∃ extra, m' = m ++ extra ∧
     Forall (λ r, r.1 ∉ m.*1 ∧ ∃ w, w ∈ ws ∧ r = (w.1, Some ("CREATE INDEX " +:+ index_rest w.1 w.2))) extra) ∧
  Forall (λ w, present m' w.1 ∧ run (create_text w.1 w.2) = Ok tt) ws.
Proof.
  revert m. induction ws as [|[name fields] ws IH]; intros m; cbn.
  { intros [= ->]. split; [exists []; by rewrite app_nil_r|constructor]. }
  destruct (run _) as [[]|] eqn:Er; [|done]. intros [(extra & -> & He) Hw]%IH.
  pose proof (add_index_present name fields m) as Hp. destruct (add_index_app name fields m) as (new & Hnew & Hn). split.
  - exists (new ++ extra). rewrite Hnew, app_assoc. split; [done|]. apply Forall_app. split.
    + eapply Forall_impl; [exact Hn|]. intros r [-> Hr]. split; [done|]. exists (name, fields). split; [left|done].
    + eapply Forall_impl; [exact He|]. intros r (Hr & w & Hin & ->). split; [|exists w; split; [by right|done]].
      rewrite Hnew, fmap_app, elem_of_app in Hr. tauto.
  - constructor; [|done]. split; [by apply present_app|done].
Qed.

Lemma create_all_nothing ws m :
  Forall (λ w, present m w.1 ∧ run (create_text w.1 w.2) = Ok tt) ws → create_all run ws m = (Ok tt, m).
Proof.
  induction 1 as [|[name fields] ws [Hp Hr] _ IH]; [done|]. cbn [create_all fst snd] in *. rewrite Hr.
  unfold add_index. by rewrite Hp.
Qed.

Definition no_fault (name : string) : option string := None.

Lemma check_indexes_ok d names m :
  check_indexes no_fault d names m = Ok tt ↔
  Forall (λ name, ∃ fields, extract_fields_from_index no_fault name m = Ok fields ∧ Forall (λ f, f ∈ declared d) fields) names.
Proof.
  induction names as [|name names IH]; [by split|]. rewrite Forall_cons, <- IH. cbn [check_indexes].
  destruct (extract_fields_from_index _ _ _) as [fields|]; cbn; [|naive_solver].
  destruct (find _ fields) as [f|] eqn:E.
  - split; [done|]. intros [(fs & [= <-] & Hfs) _]. apply find_some in E as [Hf Hn]. eapply Forall_forall in Hfs; [|by apply list_elem_of_In].
    by rewrite bool_decide_true in Hn.
  - split; [|naive_solver]. intros Hc. split; [|done]. eexists. split; [done|]. apply Forall_forall. intros f Hf.
    eapply find_none in E; [|by apply list_elem_of_In]. by apply negb_false_iff, bool_decide_eq_true in E.
Qed.

Definition plain_names (d : MigrateDescriptor) : Prop :=
  all_chars name_char (md_name d) = true ∧ Forall (λ f, all_chars name_char f = true) (declared d).

Lemma all_chars_app' f a b : all_chars f (a +:+ b) = all_chars f a && all_chars f b.
Proof. induction a as [|c a IH]; [done|]. cbn. by rewrite IH, andb_assoc. Qed.

Lemma join_plain fs : Forall (λ f, all_chars name_char f = true) fs → all_chars name_char (join "_" fs) = true.
Proof.
  induction 1 as [|f fs Hf Hfs IH]; [done|]. destruct fs as [|g fs]; [done|].
  change (join "_" (f :: g :: fs)) with (f +:+ "_" +:+ join "_" (g :: fs)). by rewrite !all_chars_app', Hf, IH.
Qed.

Lemma wanted_plain d w :
  plain_names d → w ∈ wanted d →
  all_chars name_char w.1 = true ∧ w.2 ≠ [] ∧ Forall (λ f, f ∈ declared d) w.2 ∧
  starts_with w.1 (index_prefix (md_name d)) = true.
Proof.
  intros [Hn Hd] Hw. unfold wanted in Hw. rewrite elem_of_app, !list_elem_of_fmap in Hw.
  assert (all_chars name_char (index_prefix (md_name d)) = true) as Hp.
  { unfold index_prefix. by rewrite !all_chars_app', Hn. }
  destruct Hw as [(f & -> & [_ Hf]%list_elem_of_filter)|(fs & -> & [Hne Hf]%list_elem_of_filter)]; cbn [fst snd].
  - assert (mf_name f ∈ declared d) as Hdec by (apply elem_of_app; left; by apply list_elem_of_fmap_2).
    split_and!; [|done|by repeat constructor|apply starts_with_true; by eexists].
    rewrite all_chars_app', Hp. by eapply Forall_forall in Hd.
  - assert (Forall (λ f, f ∈ declared d) fs) as Hdec.
    { apply Forall_forall. intros f Hin. apply elem_of_app. right. apply list_elem_of_In, in_concat. exists fs.
      split; by apply list_elem_of_In. }
    split_and!; [|done|done|apply starts_with_true; by eexists].
    rewrite all_chars_app', Hp. apply join_plain. eapply Forall_impl; [exact Hdec|]. intros f Hin. by eapply Forall_forall in Hd.
Qed.

Lemma find_app_l {A} (p : A → bool) l k x : find p l = Some x → find p (l ++ k) = Some x.
Proof. induction l as [|a l IH]; [done|]. cbn. destruct (p a); auto. Qed.

Lemma find_app_r {A} (p : A → bool) l k : find p l = None → find p (l ++ k) = find p k.
Proof. induction l as [|a l IH]; [done|]. cbn. destruct (p a); auto. done. Qed.

(** A migration that succeeds has made every wanted index, under a name that is the same up to the case of letters;
    running it again changes nothing. *)
Theorem migration_idempotent d m m' :
  plain_names d → execute_migration None no_fault run d m = (Ok tt, m') →
  Forall (λ w, present m' w.1) (wanted d) ∧ (∃ extra, m' = m ++ extra) ∧
  execute_migration None no_fault run d m' = (Ok tt, m').
Proof.
  intros Hd. unfold execute_migration, list_collection_indexes. cbn [result_bind]. destruct (check_indexes _ d _ m) as [[]|] eqn:Ec; [|done].
  intros Hc. destruct (create_all_made _ _ _ Hc) as [(extra & -> & He) Hw].
  split; [eapply Forall_impl; [exact Hw|by intros w []]|]. split; [by eexists|].
  assert (check_indexes no_fault d (filter (λ name, starts_with name (index_prefix (md_name d)) = true) (m ++ extra).*1)
            (m ++ extra) = Ok tt) as ->; [|by apply create_all_nothing].
  apply check_indexes_ok. apply check_indexes_ok in Ec. rewrite fmap_app, filter_app. apply Forall_app. split.
  - eapply Forall_impl; [exact Ec|]. cbn. intros name (fields & Hf & Hdec). exists fields. split; [|done].
    unfold extract_fields_from_index in *. cbn in *. destruct (find _ m) as [r|] eqn:E; [|done]. by erewrite find_app_l by done.
  - apply Forall_forall. intros name [_ (r & -> & Hr)%list_elem_of_fmap]%list_elem_of_filter.
    pose proof (proj1 (Forall_forall _ _) He r Hr) as (Hnot & _).
    unfold extract_fields_from_index, no_fault at 1.
    assert (find (λ x, bool_decide (x.1 = r.1)) m = None) as Hm.
    { destruct (find _ m) as [x|] eqn:E; [|done]. apply find_some in E as [Hx Heq%bool_decide_eq_true]. exfalso.
      apply Hnot. rewrite <- Heq. apply list_elem_of_fmap_2. by apply list_elem_of_In. }
    rewrite find_app_r by done. destruct (find _ extra) as [x|] eqn:E.
    + apply find_some in E as [Hx _]. apply list_elem_of_In in Hx.
      destruct (proj1 (Forall_forall _ _) He x Hx) as (_ & w & Hin & ->).
      destruct (wanted_plain d w Hd Hin) as (Hp & Hne & Hdec & _). exists w.2. split; [|done]. f_equal.
      apply index_fields_read; [done| |done]. eapply Forall_impl; [exact Hdec|]. intros f Hf.
      destruct Hd as [_ Hd]. by eapply Forall_forall in Hd.
    + exfalso. eapply find_none in E; [|by apply list_elem_of_In]. by rewrite bool_decide_true in E.
Qed.
End Idempotent.

(** A conflict, or a list that cannot be read, leaves the indexes as they were. *)
Theorem refused_migration_keeps list_fault text_fault run d m e m' :
  (∀ sql, run sql = Ok tt) → execute_migration list_fault text_fault run d m = (Err e, m') → m' = m.
Proof.
  intros Hr. unfold execute_migration. destruct (let? _ := _ in _); [|by intros [= _ ->]].
  assert (∀ ws m, (create_all run ws m).1 = Ok tt) as Ha.
  { induction ws as [|[name fields] ws IH]; intros m0; [done|]. cbn. rewrite Hr. apply IH. }
  intros Hc. specialize (Ha (wanted d) m). by rewrite Hc in Ha.
Qed.

(** *** Collections whose names begin alike *)

Definition indexed_by (collection : string) (fields : list string) : MigrateDescriptor :=
  mkMigrateDescriptor collection ((λ f, mkMigrateField f true) <$> fields) [].

(** The index of a collection is taken for one of a collection with a shorter name, whose migration then fails. *)
Example longer_name_conflicts :
  let run := λ _ : string, Ok tt in
  let m := (execute_migration None no_fault run (indexed_by "event_log" ["level"]) []).2 in
  execute_migration None no_fault run (indexed_by "event" ["start"]) m
  = (Err (conflict (indexed_by "event" ["start"]) "level" "idx_col_event_log_level"), m).
Proof. vm_compute. reflexivity. Qed.

(** Two collections can want the same name; the second index is not made, and nothing fails. *)
Example same_name_skipped :
  let run := λ _ : string, Ok tt in
  let m := (execute_migration None no_fault run (indexed_by "a_b" ["c"]) []).2 in
  m.*1 = ["idx_col_a_b_c"] ∧
  execute_migration None no_fault run (mkMigrateDescriptor "a" [mkMigrateField "b_c" true; mkMigrateField "c" false] []) m
  = (Ok tt, m).
Proof. vm_compute. done. Qed.

Lemma migration_idempotent_witness :
  let run := λ _ : string, Ok tt in
  let d := mkMigrateDescriptor "events" [mkMigrateField "subject" true] [["start"; "end"]] in
  ∃ m, execute_migration None no_fault run d [] = (Ok tt, m) ∧ execute_migration None no_fault run d m = (Ok tt, m).
Proof.
  intros run d. eexists. split; [vm_compute; reflexivity|].
  eapply (migration_idempotent run d []); [|vm_compute; reflexivity].
  split; [reflexivity|]. repeat constructor.
Defined.

End Indexes.
