(* ===== verification/CoreServices.v ===== *)
(** * Services of the core application (apps/core/src)

    [BusAudit] (audit.rs): the task that writes an audit entry for each event of the message bus.
    [Backoff] (connector.rs): the delays between failed synchronisations. [SyncRoute]
    (routes/connectors.rs): starting a synchronisation by hand. [EngineCopy]
    (storage_migration.rs): copying the records of SQLite to PostgreSQL in one transaction.
    [FederationRoutes] (routes/federation.rs, federation.rs): peers, their status, and the changes
    that are served to them.

    The bridge (event_bridge.rs): the message bus of the core and the event bus of the workflow
    engine, with the task that forwards each to the other, as steps on the events they have still
    to see. The file is not a module of the application.

    What a plugin answers, and what PostgreSQL refuses, are arguments. A table of PostgreSQL is a
    list of rows with the text that is given for its jsonb column. *)

From stdpp Require Import base tactics list gmap sets strings sorting.
From Stdlib Require Import ZArith Lia.
From S2P Require Import Prelude RustString RustText Json Types Executor ExecutorFacts Loader LoaderFacts Jobs JobsFacts Capability EventBus Conflict Federation Sessions SessionsFacts SqliteDoc SqliteQueryFacts Search LegacyStore LegacyFacts PluginLoading Cdm WasmBridge.

Local Open Scope string_scope.
Local Open Scope list_scope.

(** ** Audit entries of bus events (audit.rs) *)

Module BusAudit.

(** What is logged: the type, collection, document, subject, plugin and details. *)
Record Entry : Type := mkEntry {
  en_type : string;
  en_collection : option string;
  en_document : option string;
  en_subject : option string;
  en_plugin : option string;
  en_details : option json;
}.

Definition entry_of (e : BusEvent) : option Entry :=
  match e with
  | RecordChanged r =>
      Some (mkEntry "system.storage.updated" (Some (rec_collection r)) (Some (rec_id r)) None (Some (rec_plugin_id r)) None)
  | RecordDeleted record_id collection =>
      Some (mkEntry "system.storage.deleted" (Some collection) (Some record_id) None None None)
  | PluginLoaded plugin_id => Some (mkEntry "plugin_install" None None None (Some plugin_id) None)
  | Search.PluginError plugin_id error =>
      Some (mkEntry "plugin_error" None None None (Some plugin_id) (Some (mk_obj [("error", JStr error)])))
  | BlobStored blob_key plugin_id =>
      Some (mkEntry "system.blob.stored" None (Some blob_key) None (Some plugin_id) None)
  | BlobDeleted blob_key plugin_id =>
      Some (mkEntry "system.blob.deleted" None (Some blob_key) None (Some plugin_id) None)
  | AuthSuccess identity_subject method =>
      Some (mkEntry "auth_success" None None (Some identity_subject) None (Some (mk_obj [("method", JStr method)])))
  | AuthFailure client_ip reason =>
      Some (mkEntry "auth_failure" None None None None
              (Some (mk_obj [("client_ip", JStr client_ip); ("reason", JStr reason)])))
  | CredentialEvent action plugin_id key =>
      Some (mkEntry (if bool_decide (action = "access") then "credential_access" else "credential_modify")
              None None None (Some plugin_id) (Some (mk_obj [("key", JStr key); ("action", JStr action)])))
  | PluginUnloaded plugin_id => Some (mkEntry "plugin_disable" None None None (Some plugin_id) None)
  | ConnectorEvent action plugin_id =>
      Some (mkEntry "connector_auth" None None None (Some plugin_id) (Some (mk_obj [("action", JStr action)])))
  | NewRecords _ _ | SyncComplete _ => None
  end.

Section Subscriber.
Context `{JsonText} `{Chrono}.

Definition handle_bus_event (d : Draw) (e : BusEvent) (s : LegacyDb) : result unit string * LegacyDb :=
  match entry_of e with
  | Some x =>
      log_event_full d 0 (en_type x) (en_collection x) (en_document x) (en_subject x) (en_plugin x) (en_details x) s
  | None => (Ok tt, s)
  end.

(** The task until the bus closes: what it received, each with what the database does then. A failure is only logged. *)
Definition spawn_audit_subscriber (received : list (Received * Draw)) (s : LegacyDb) : LegacyDb :=
  foldl (λ s '(r, d), match r with Got e => (handle_bus_event d e s).2 | Lagged _ => s end) s received.

(** The entry that one delivery leaves. *)
Definition entry_left (r : Received * Draw) : option AuditEntry :=
  match r.1, ld_fault r.2 0 with
  | Got e, None =>
      (λ x, mkAuditEntry (ld_audit_uuid r.2) (to_rfc3339 (ld_audit_now r.2)) (en_type x) (en_collection x) (en_document x)
              (en_subject x) (en_plugin x) (json_to_string <$> en_details x)) <$> entry_of e
  | _, _ => None
  end.

(** The log grows by one entry for each event that is received and can be written, in the order of the bus; the
    records stay as they are. *)
Theorem audit_follows_bus received s :
  let s' := spawn_audit_subscriber received s in
  db_audit s' = db_audit s ++ omap entry_left received ∧ db_rows s' = db_rows s ∧ db_changes s' = db_changes s.
Proof.
  unfold spawn_audit_subscriber. revert s. induction received as [|[r d] rest IH]; intros s; [by rewrite app_nil_r|].
  cbn [foldl]. destruct (IH (match r with Got e => (handle_bus_event d e s).2 | Lagged _ => s end)) as (Ha & Hr & Hc).
  cbv zeta. rewrite Ha, Hr, Hc. clear. cbn [omap list_omap]. destruct r as [e|n]; [|done]. unfold handle_bus_event, entry_left. cbn [fst snd].
  destruct (entry_of e) as [x|]; cbn [fmap option_fmap option_map]; [|by destruct (ld_fault d 0)].
  unfold log_event_full. destruct (ld_fault d 0); cbn; [done|]. by rewrite <- app_assoc.
Qed.
End Subscriber.

(** A created record is logged as an update, a revoked connector as an authorisation. *)
Example created_logged_updated r : en_type <$> entry_of (RecordChanged r) = Some "system.storage.updated".
Proof. reflexivity. Qed.

Example revoke_logged_auth : en_type <$> entry_of (ConnectorEvent "revoke" "p") = Some "connector_auth".
Proof. reflexivity. Qed.

End BusAudit.

(** ** Delays after failed synchronisations (connector.rs) *)

Module Backoff.

Definition U32_MAX : Z := (2 ^ 32 - 1)%Z.
Definition U64_MAX : Z := (2 ^ 64 - 1)%Z.

Record SyncBackoff : Type := mkBackoff {
  base_delay_secs : Z;
  max_delay_secs : Z;
  failure_threshold : Z;
  consecutive_failures : Z;
}.

Definition default_backoff : SyncBackoff := mkBackoff 30 900 3 0.

Definition new (base max threshold : Z) : SyncBackoff := mkBackoff base max threshold 0.

Definition with_failures (n : Z) (b : SyncBackoff) : SyncBackoff :=
  mkBackoff (base_delay_secs b) (max_delay_secs b) (failure_threshold b) n.

Definition record_failure (b : SyncBackoff) : option Z * SyncBackoff :=
  let n := Z.min (consecutive_failures b + 1) U32_MAX in
  let b' := with_failures n b in
  if (n <? failure_threshold b)%Z then (None, b')
  else
    let exponent := (n - failure_threshold b)%Z in
    let delay := Z.min (base_delay_secs b * Z.shiftl 1 (Z.min exponent 10)) U64_MAX in
    (Some (Z.min delay (max_delay_secs b)), b').

Definition record_success (b : SyncBackoff) : SyncBackoff := with_failures 0 b.

Definition is_backing_off (b : SyncBackoff) : bool := (failure_threshold b <=? consecutive_failures b)%Z.

(** The numbers fit their types. *)
Definition backoff_ok (b : SyncBackoff) : Prop :=
  (0 ≤ base_delay_secs b ≤ U64_MAX ∧ 0 ≤ max_delay_secs b ≤ U64_MAX ∧
   0 ≤ failure_threshold b ≤ U32_MAX ∧ 0 ≤ consecutive_failures b ≤ U32_MAX)%Z.

Fixpoint fail_times (n : nat) (b : SyncBackoff) : SyncBackoff :=
  match n with O => b | S n' => fail_times n' (record_failure b).2 end.

Lemma failure_state b :
  backoff_ok b → (record_failure b).2 = with_failures (Z.min (consecutive_failures b + 1) U32_MAX) b ∧
                 backoff_ok (record_failure b).2.
Proof.
  intros (H1 & H2 & H3 & H4). unfold record_failure. destruct (_ <? _)%Z; cbn; (split; [done|]); unfold backoff_ok; cbn;
    unfold U32_MAX in *; lia.
Qed.

Lemma fail_times_state n b :
  backoff_ok b → fail_times n b = with_failures (Z.min (consecutive_failures b + Z.of_nat n) U32_MAX) b.
Proof.
  revert b. induction n as [|n IH]; intros b Hb.
  - cbn. destruct Hb as (_ & _ & _ & Hc). rewrite Z.add_0_r, Z.min_l by lia. by destruct b.
  - cbn [fail_times]. destruct (failure_state b Hb) as [E Hb']. rewrite IH by done. rewrite E. unfold with_failures. cbn.
    f_equal. lia.
Qed.

(** After a success, the first failures below the threshold give no delay; the ones from it on wait the base delay,
    doubled at each failure up to ten times, and never more than the maximum. A success starts over. *)
Theorem backoff_delays n b :
  backoff_ok b → (Z.of_nat n < U32_MAX)%Z →
  let b' := fail_times n (record_success b) in
  consecutive_failures b' = Z.of_nat n ∧
  (record_failure b').1 =
    (if (Z.of_nat n + 1 <? failure_threshold b)%Z then None
     else Some (Z.min (base_delay_secs b * 2 ^ Z.min (Z.of_nat n + 1 - failure_threshold b) 10) (max_delay_secs b)))%Z ∧
  record_success b' = record_success b.
Proof.
  intros Hb Hn. assert (backoff_ok (record_success b)) as Hs.
  { destruct Hb as (H1 & H2 & H3 & _). unfold backoff_ok. cbn. unfold U32_MAX in *. lia. }
  cbv zeta. rewrite (fail_times_state n _ Hs). cbn. rewrite Z.min_l by lia. split; [done|]. split; [|done].
  unfold record_failure. cbn. rewrite (Z.min_l (Z.of_nat n + 1)) by lia.
  destruct (Z.of_nat n + 1 <? failure_threshold b)%Z eqn:E; [done|]. cbn. f_equal. apply Z.ltb_ge in E.
  rewrite Z.shiftl_mul_pow2, Z.mul_1_l by lia. destruct Hb as (_ & H2 & _). lia.
Qed.

Lemma backoff_delays_witness : (record_failure (fail_times 4 default_backoff)).1 = Some 120%Z.
Proof.
  destruct (backoff_delays 4 default_backoff) as (_ & E & _); [vm_compute; intuition discriminate|reflexivity|].
  exact E.
Defined.

End Backoff.

(** ** Starting a synchronisation by hand (routes/connectors.rs) *)

Module SyncRoute.

Inductive SyncReply : Type :=
| Synced (connector_id : string) (result : json)
| Refused (status : Z) (code message : string).

Section Route.
(** the routes of a plugin, and its answer to POST /sync *)
Context {P : Type} `{NativePlugins.CorePlugin P} (posts_sync : P → bool) (sync : P → result json string).

Definition not_loaded (id : string) : SyncReply :=
  Refused 503 "CONNECTOR_NOT_LOADED" ("connector '" +:+ id +:+ "' is not loaded").

(** The handle to the plugin is dropped at the end; the bus is that of the application. *)
Definition trigger_sync (id : string) (l : NativePlugins.PluginLoader P) (bus : list BusEvent)
    : SyncReply * list BusEvent :=
  match NativePlugins.pl_statuses l !! id with
  | None => (Refused 404 "CONNECTOR_NOT_FOUND" ("connector '" +:+ id +:+ "' not found"), bus)
  | Some info =>
      if negb (NativePlugins.is_loaded info) then (not_loaded id, bus)
      else
        match (NativePlugins.get_plugin_arc id l).1 with
        | None => (not_loaded id, bus)
        | Some plugin =>
            if negb (posts_sync plugin) then
              (Refused 405 "CONNECTOR_SYNC_NOT_SUPPORTED" ("connector '" +:+ id +:+ "' does not support sync"), bus)
            else
              match sync plugin with
              | Ok r => (Synced id r, bus ++ [SyncComplete id])
              | Err _ => (Refused 500 "CONNECTOR_SYNC_FAILED" ("sync failed for connector '" +:+ id +:+ "'"), bus)
              end
        end
  end.

(** Exactly the synchronisations of loaded plugins that offer it and succeed are announced on the bus; the error of a
    plugin is not shown. *)
Theorem sync_announced id l bus :
  match trigger_sync id l bus with
  | (Synced id' r, bus') =>
      id' = id ∧ bus' = bus ++ [SyncComplete id] ∧
      ∃ p, NativePlugins.get_plugin id l = Some p ∧ posts_sync p = true ∧ sync p = Ok r
  | (Refused _ _ _, bus') => bus' = bus ∧ ¬ ∃ p r, NativePlugins.get_plugin id l = Some p ∧ posts_sync p = true ∧ sync p = Ok r
  end.
Proof.
  unfold trigger_sync, NativePlugins.get_plugin_arc, NativePlugins.get_plugin.
  destruct (NativePlugins.pl_statuses l !! id) as [info|] eqn:E; cbn; [|naive_solver].
  destruct (NativePlugins.is_loaded info); cbn; [|naive_solver].
  destruct (NativePlugins.pl_plugins l !! id) as [p|]; cbn; [|naive_solver].
  destruct (posts_sync p) eqn:Ep; cbn; [destruct (sync p) as [r|] eqn:Es|]; (split; [done|]); [by eauto| |];
    intros (q & r & [= <-] & Hq & Hr); congruence.
Qed.
End Route.

End SyncRoute.

(** ** Copying SQLite to PostgreSQL (storage_migration.rs) *)

Module EngineCopy.

Definition MIGRATION_BATCH_SIZE : Z := 500.

(** A row as it is inserted; the columns of users and households are not given. *)
Record PgRow : Type := mkPgRow {
  pr_id : string;
  pr_plugin_id : string;
  pr_collection : string;
  pr_data : string;
  pr_version : Z;
  pr_created_at : timestamp;
  pr_updated_at : timestamp;
}.

Record MigrationResult : Type := mkMigrated {
  records_migrated : Z;
  collections_migrated : list string;
}.

(** [ORDER BY plugin_id, collection] *)
Definition pair_order (a b : string * string) : Prop := String.le a.1 b.1 ∧ (a.1 = b.1 → String.le a.2 b.2).

#[export] Instance pair_order_dec a b : Decision (pair_order a b).
Proof. unfold pair_order. apply _. Defined.

Definition pair_of (r : LegacyRow) : string * string := (lr_plugin_id r, lr_collection r).

Definition discover_collections (rows : list LegacyRow) : list (string * string) :=
  merge_sort pair_order (elements (list_to_set (pair_of <$> rows) : gset (string * string))).

(** [ON CONFLICT (id) DO NOTHING] *)
Definition insert_pg (r : PgRow) (pg : list PgRow) : list PgRow :=
  if bool_decide (pr_id r ∈ pr_id <$> pg) then pg else pg ++ [r].

Definition count_pg (c : string * string) (pg : list PgRow) : Z :=
  Z.of_nat (length (filter (λ r, (pr_plugin_id r, pr_collection r) = c) pg)).

Section Copy.
Context `{JsonText}.
(** a page of SQLite when the records are counted, copied and checked *)
Context (counting copying checking : string → string → Pagination → result QueryResult string).
(** why PostgreSQL refuses a connection, an insertion, a count and the commit *)
Context (begin_fault : option string) (insert_fault : PgRow → option string)
  (count_fault : string * string → option string) (commit_fault : option string).

Definition pg_row (r : StoredRecord) : PgRow :=
  mkPgRow (rec_id r) (rec_plugin_id r) (rec_collection r) (json_to_string (rec_data r)) (rec_version r) (rec_created_at r)
    (rec_updated_at r).

Definition one_page : Pagination := mkPagination 1 0.

Fixpoint count_records (cs : list (string * string)) : result Z string :=
  match cs with
  | [] => Ok 0%Z
  | c :: cs' =>
      let? page := counting c.1 c.2 one_page in
      let? rest := count_records cs' in
      Ok (qr_total page + rest)%Z
  end.

(** Inserting stops at the first refusal; the rows are those of the transaction, with the number counted so far. *)
Fixpoint insert_all (c : string * string) (rs : list StoredRecord) (st : list PgRow * Z) : result (list PgRow * Z) string :=
  match rs with
  | [] => Ok st
  | r :: rs' =>
      match insert_fault (pg_row r) with
      | Some e => Err ("failed to migrate record " +:+ rec_id r +:+ " in " +:+ c.1 +:+ "/" +:+ c.2 +:+ ": " +:+ e)
      | None => insert_all c rs' (insert_pg (pg_row r) st.1, (st.2 + 1)%Z)
      end
  end.

(** The batches of a collection; [None] when the fuel ends. The offset is cut to 32 bits. *)
Fixpoint copy_batches (fuel : nat) (c : string * string) (offset : Z) (st : list PgRow * Z)
    : option (result (list PgRow * Z) string) :=
  match fuel with
  | O => None
  | S fuel =>
      match copying c.1 c.2 (mkPagination MIGRATION_BATCH_SIZE (offset mod 2 ^ 32)%Z) with
      | Err e => Some (Err e)
      | Ok batch =>
          match qr_records batch with
          | [] => Some (Ok st)
          | rs =>
              match insert_all c rs st with
              | Err e => Some (Err e)
              | Ok st' =>
                  let offset' := (offset + Z.of_nat (length rs))%Z in
                  if (qr_total batch <=? offset')%Z then Some (Ok st') else copy_batches fuel c offset' st'
              end
          end
      end
  end.

Fixpoint copy_collections (fuel : nat) (cs : list (string * string)) (st : list PgRow * Z)
    : option (result (list PgRow * Z) string) :=
  match cs with
  | [] => Some (Ok st)
  | c :: cs' =>
      match copy_batches fuel c 0 st with
      | Some (Ok st') => copy_collections fuel cs' st'
      | other => other
      end
  end.

Fixpoint verify_counts (cs : list (string * string)) (pg : list PgRow) : result unit string :=
  match cs with
  | [] => Ok tt
  | c :: cs' =>
      let? page := checking c.1 c.2 one_page in
      match count_fault c with
      | Some e => Err e
      | None =>
          if bool_decide (count_pg c pg = qr_total page) then verify_counts cs' pg
          else Err ("record count mismatch for " +:+ c.1 +:+ "/" +:+ c.2 +:+ ": SQLite has " +:+ show_Z (qr_total page)
                    +:+ " records, PostgreSQL has " +:+ show_Z (count_pg c pg) +:+ " records")
      end
  end.

(** [discovered] is the answer to the query for the collections. The table changes only with the commit. *)
Definition migrate_sqlite_to_pg (fuel : nat) (discovered : result (list (string * string)) string) (pg : list PgRow)
    : option (result MigrationResult string * list PgRow) :=
  match discovered with
  | Err e => Some (Err e, pg)
  | Ok [] => Some (Ok (mkMigrated 0 []), pg)
  | Ok cs =>
      match count_records cs with
      | Err e => Some (Err e, pg)
      | Ok _ =>
          match begin_fault with
          | Some e => Some (Err e, pg)
          | None =>
              match copy_collections fuel cs (pg, 0%Z) with
              | None => None
              | Some (Err e) => Some (Err e, pg)
              | Some (Ok (pg', n)) =>
                  match verify_counts cs pg' with
                  | Err e => Some (Err e, pg)
                  | Ok _ =>
                      match commit_fault with
                      | Some e => Some (Err ("failed to commit migration transaction: " +:+ e), pg)
                      | None => Some (Ok (mkMigrated n cs.*2), pg')
                      end
                  end
              end
          end
      end
  end.

(** A migration that fails leaves the table as it was. *)
Theorem failed_copy_keeps fuel discovered pg e pg' :
  migrate_sqlite_to_pg fuel discovered pg = Some (Err e, pg') → pg' = pg.
Proof. unfold migrate_sqlite_to_pg. intros Hm. repeat (case_match; simplify_eq; try done). Qed.

(** *** What is inserted *)

Lemma insert_pg_keeps r pg x : x ∈ pg → x ∈ insert_pg r pg.
Proof. unfold insert_pg. case_bool_decide; [done|]. rewrite elem_of_app. auto. Qed.

Lemma insert_all_fresh c rs pg n :
  (∀ r, insert_fault r = None) → NoDup ((pr_id <$> pg) ++ (rec_id <$> rs)) →
  insert_all c rs (pg, n) = Ok (pg ++ (pg_row <$> rs), n + Z.of_nat (length rs))%Z.
Proof.
  intros Hf. revert pg n. induction rs as [|r rs IH]; intros pg n Hn; cbn [insert_all].
  { cbn. by rewrite app_nil_r, Z.add_0_r. }
  rewrite Hf. cbn [fst snd]. rewrite fmap_cons in Hn. unfold insert_pg at 1. rewrite bool_decide_false.
  2: { intros Hin. apply NoDup_app in Hn as (_ & Hd & _). apply (Hd _ Hin). by left. }
  rewrite IH.
  - rewrite fmap_cons, <- app_assoc. cbn [app length]. do 2 f_equal. lia.
  - by rewrite fmap_app, <- app_assoc.
Qed.

(** *** A complete copy *)

Definition paged (recs : list StoredRecord) (p : Pagination) : QueryResult :=
  mkQueryResult (take (Z.to_nat (Z.min (pg_limit p) 1000)) (drop (Z.to_nat (pg_offset p)) recs)) (Z.of_nat (length recs))
    (Z.min (pg_limit p) 1000) (pg_offset p).

(** The batches insert what is left of a collection, given as many rounds as it has records, and one. *)
Lemma copy_batches_all fuel c recs k pg n :
  (∀ p, (0 ≤ pg_offset p)%Z → (0 ≤ pg_limit p)%Z → copying c.1 c.2 p = Ok (paged recs p)) →
  (∀ r, insert_fault r = None) →
  (k ≤ length recs)%nat → (length recs - k < fuel)%nat → (Z.of_nat (length recs) < 2 ^ 32)%Z →
  NoDup ((pr_id <$> pg) ++ (rec_id <$> drop k recs)) →
  copy_batches fuel c (Z.of_nat k) (pg, n)
  = Some (Ok (pg ++ (pg_row <$> drop k recs), n + Z.of_nat (length recs - k))%Z).
Proof.
  intros Hc Hf. revert k pg n. induction fuel as [|fuel IH]; intros k pg n Hk Hfuel Hlen Hn; [lia|]. cbn [copy_batches].
  rewrite Z.mod_small by lia. rewrite Hc by (unfold MIGRATION_BATCH_SIZE; cbn; lia). unfold paged. cbn [qr_records qr_total pg_limit pg_offset].
  rewrite Nat2Z.id. change (Z.to_nat (Z.min MIGRATION_BATCH_SIZE 1000)) with 500%nat.
  destruct (drop k recs) as [|r rest] eqn:Ed.
  - cbn. assert (length recs = k) as ->. { apply (f_equal length) in Ed. rewrite length_drop in Ed. cbn in Ed. lia. }
    rewrite app_nil_r, Nat.sub_diag. cbn. by rewrite Z.add_0_r.
  - assert (take 500 (r :: rest) = r :: take 499 rest) as -> by done.
    assert (length (r :: take 499 rest) = Nat.min 500 (length recs - k)) as Hlt.
    { change (r :: take 499 rest) with (take 500 (r :: rest)). rewrite length_take, <- Ed, length_drop. done. }
    assert (r :: rest = (r :: take 499 rest) ++ drop (k + 500) recs) as Hsplit.
    { change (r :: take 499 rest) with (take 500 (r :: rest)). rewrite <- Ed, <- drop_drop. by rewrite take_drop. }
    rewrite insert_all_fresh; [|done|]. 
    2: { rewrite Hsplit, fmap_app, app_assoc in Hn. by apply NoDup_app in Hn as [? _]. }
    assert (0 < length recs - k)%nat as Hpos.
    { apply (f_equal length) in Ed. rewrite length_drop in Ed. cbn in Ed. lia. }
    destruct (Z.leb_spec (Z.of_nat (length recs)) (Z.of_nat k + Z.of_nat (length (r :: take 499 rest)))) as [Hle|Hlt'].
    + rewrite Hsplit, (drop_ge recs (k + 500)) by lia. rewrite app_nil_r. do 4 f_equal. lia.
    + assert (length (r :: take 499 rest) = 500%nat) as Hfull by lia. rewrite Hfull.
      replace (Z.of_nat k + Z.of_nat 500)%Z with (Z.of_nat (k + 500)) by lia. rewrite IH; [|lia..|].
      * rewrite Hsplit, fmap_app, app_assoc. do 3 f_equal. lia.
      * rewrite Hsplit in Hn. rewrite !fmap_app, app_assoc in Hn. rewrite fmap_app. 
        replace (pr_id <$> (pg_row <$> r :: take 499 rest)) with (rec_id <$> r :: take 499 rest); [done|].
        rewrite <- list_fmap_compose. done.
Qed.
End Copy.

Lemma Forall2_functional {A B} (R : A → B → Prop) l a b :
  (∀ x y z, R x y → R x z → y = z) → Forall2 R l a → Forall2 R l b → a = b.
Proof.
  intros HR Ha. revert b. induction Ha as [|x y l a Hx _ IH]; intros b Hb; inversion Hb; subst; [done|]. f_equal; eauto.
Qed.

Section Complete.
Context `{HJ : JsonText} `{HCh : Chrono} `{HS : Sqlite} `{HL : LegacySql, !LegacySqlLaws}.
Context (d : Draw) (s : LegacyDb).
Hypothesis quiet : ∀ i, ld_fault d i = None.
Hypothesis readable : Forall (λ r, ∃ x, row_to_record r = Ok x) (db_rows s).

(** SQLite as it is read: nothing changes it meanwhile. *)
Definition source (plugin_id collection : string) (p : Pagination) : result QueryResult string :=
  legacy_list d plugin_id collection None p s.

Definition found (c : string * string) : list LegacyRow := filter (λ r, pair_of r = c) (db_rows s).

Definition read (r : LegacyRow) : option StoredRecord := result_ok (row_to_record r).

Lemma read_all rows : Forall (λ r, ∃ x, row_to_record r = Ok x) rows → Forall2 (λ row r, row_to_record row = Ok r) rows (omap read rows).
Proof.
  induction 1 as [|r rows [x Hx] _ IH]; [constructor|]. cbn [omap list_omap]. unfold read at 1. rewrite Hx. cbn. by constructor.
Qed.

Definition records_of (c : string * string) : list StoredRecord := omap read (legacy_order None (found c)).

Lemma records_read c : Forall2 (λ row r, row_to_record row = Ok r) (legacy_order None (found c)) (records_of c).
Proof.
  apply read_all. rewrite legacy_order_perm. unfold found. apply Forall_forall. intros r [_ Hr]%list_elem_of_filter.
  by eapply Forall_forall in readable.
Qed.

Lemma records_length c : length (records_of c) = length (found c).
Proof. by rewrite <- (Forall2_length _ _ _ (records_read c)), legacy_order_perm. Qed.

Lemma source_paged c p :
  (0 ≤ pg_offset p)%Z → (0 ≤ pg_limit p)%Z → source c.1 c.2 p = Ok (paged (records_of c) p).
Proof.
  intros Ho Hl. unfold source, legacy_list.
  destruct (legacy_query_exact d c.1 c.2 no_filters None p s quiet Hl Ho readable) as (records & E & Hr & _);
    [by constructor|done|].
  assert (filter (λ r, matches_query c.1 c.2 no_filters r = true) (db_rows s) = found c) as Hf.
  { unfold found. apply list_filter_iff. intros r. unfold matches_query, pair_of. destruct c as [a b]. cbn [fst snd].
    rewrite !andb_true_iff, !bool_decide_eq_true. split; [intros [[<- <-] _]; done|]. intros [= <- <-]. done. }
  rewrite Hf in E, Hr. rewrite E. unfold paged. rewrite records_length. do 2 f_equal.
  eapply Forall2_functional; [|exact Hr|by apply Forall2_take, Forall2_drop, records_read]. intros x y z Hy Hz. congruence.
Qed.

Lemma read_fields row r : row_to_record row = Ok r → rec_id r = lr_id row ∧ (rec_plugin_id r, rec_collection r) = pair_of row.
Proof.
  unfold row_to_record. destruct (json_from_str _); cbn; [|done]. destruct (legacy_date (lr_created_at row)); cbn; [|done].
  destruct (legacy_date (lr_updated_at row)); cbn; [|done]. by intros [= <-].
Qed.

Definition collections : list (string * string) := discover_collections (db_rows s).

Lemma collections_of_rows : NoDup collections ∧ Forall (λ r, pair_of r ∈ collections) (db_rows s).
Proof.
  unfold collections, discover_collections. split; [rewrite merge_sort_Permutation; apply NoDup_elements|].
  apply Forall_forall. intros r Hr. rewrite merge_sort_Permutation, elem_of_elements, elem_of_list_to_set.
  by apply list_elem_of_fmap_2.
Qed.

Lemma collections_have_rows c : c ∈ collections → c ∈ pair_of <$> db_rows s.
Proof.
  unfold collections, discover_collections. by rewrite merge_sort_Permutation, elem_of_elements, elem_of_list_to_set.
Qed.

Lemma all_records : (collections ≫= records_of) ≡ₚ omap read (db_rows s).
Proof.
  destruct collections_of_rows as [Hn Hf]. rewrite <- (by_key pair_of collections (db_rows s) Hn Hf).
  generalize collections. intros cs. induction cs as [|c cs IH]; [done|]. rewrite !bind_cons, omap_app, IH.
  f_equiv. unfold records_of. by rewrite legacy_order_perm.
Qed.

Lemma ids_read rows : Forall (λ r, ∃ x, row_to_record r = Ok x) rows → rec_id <$> omap read rows = lr_id <$> rows.
Proof.
  intros Hr%read_all. revert Hr. generalize (omap read rows). intros l Hr. induction Hr as [|row r rows rs Hr _ IH]; [done|]. apply read_fields in Hr as [Hr _].
  rewrite !fmap_cons. by rewrite Hr, IH.
Qed.

Lemma pairs_counted c rows :
  Forall (λ r, ∃ x, row_to_record r = Ok x) rows →
  length (filter (λ r, (pr_plugin_id r, pr_collection r) = c) (pg_row <$> omap read rows))
  = length (filter (λ r, pair_of r = c) rows).
Proof.
  intros Hr%read_all. revert Hr. generalize (omap read rows). intros l Hr. induction Hr as [|row r rows rs Hr _ IH]; [done|].
  apply read_fields in Hr as [_ Hr]. rewrite fmap_cons. destruct (decide (pair_of row = c)) as [Hc|Hc].
  - rewrite !filter_cons_True by (cbn; congruence). cbn. by rewrite IH.
  - rewrite !filter_cons_False by (cbn; congruence). done.
Qed.

Lemma count_all cs : ∃ n, count_records source cs = Ok n.
Proof.
  induction cs as [|c cs [n IH]]; [by eexists|]. cbn [count_records]. rewrite source_paged by (cbn; lia). cbn [result_bind].
  rewrite IH. by eexists.
Qed.

(** Every collection is copied, one after the other. *)
Lemma copy_all fuel cs pg n :
  (length (db_rows s) < fuel)%nat → (Z.of_nat (length (db_rows s)) < 2 ^ 32)%Z →
  NoDup ((pr_id <$> pg) ++ (rec_id <$> (cs ≫= records_of))) →
  copy_collections source (λ _, None) fuel cs (pg, n)
  = Some (Ok (pg ++ (pg_row <$> (cs ≫= records_of)), n + Z.of_nat (length (cs ≫= records_of))))%Z.
Proof.
  intros Hfuel Hlen. revert pg n. induction cs as [|c cs IH]; intros pg n Hn.
  { cbn. by rewrite app_nil_r, Z.add_0_r. }
  rewrite bind_cons in *. rewrite !fmap_app in *. cbn [copy_collections].
  assert (length (records_of c) ≤ length (db_rows s))%nat as Hle by (rewrite records_length; apply length_filter).
  pose proof (copy_batches_all source (λ _, None) fuel c (records_of c) 0 pg n (source_paged c)) as Hb.
  rewrite drop_0, Nat.sub_0_r in Hb. change (Z.of_nat 0) with 0%Z in Hb. rewrite Hb; [|done|lia..|].
  - rewrite IH.
    + rewrite <- app_assoc, length_app. do 3 f_equal. lia.
    + rewrite fmap_app, <- app_assoc. by rewrite <- list_fmap_compose.
  - rewrite app_assoc in Hn. by apply NoDup_app in Hn as [? _].
Qed.

(** Into a table that has none of the ids and nothing of the collections, and as long as SQLite and PostgreSQL answer
    and SQLite reads the unchanged table in the same order for each batch, the migration copies every record of
    SQLite exactly once, and reports their number; it ends within as many batches of a collection as there are
    records, and one. *)
Theorem copy_complete fuel pg :
  (length (db_rows s) < fuel)%nat → (Z.of_nat (length (db_rows s)) < 2 ^ 32)%Z →
  NoDup ((pr_id <$> pg) ++ (lr_id <$> db_rows s)) →
  Forall (λ r, (pr_plugin_id r, pr_collection r) ∉ pair_of <$> db_rows s) pg →
  ∃ recs new,
    migrate_sqlite_to_pg source source source None (λ _, None) (λ _, None) None fuel (Ok collections) pg
    = Some (Ok (mkMigrated (Z.of_nat (length (db_rows s))) collections.*2), pg ++ new) ∧
    Forall2 (λ row r, row_to_record row = Ok r) (db_rows s) recs ∧ new ≡ₚ pg_row <$> recs.
Proof.
  intros Hfuel Hlen Hn Hother. exists (omap read (db_rows s)), (pg_row <$> (collections ≫= records_of)).
  assert (length (omap read (db_rows s)) = length (db_rows s)) as Hl.
  { symmetry. eapply Forall2_length, read_all, readable. }
  split; [|split; [by apply read_all|by rewrite all_records]].
  pose proof collections_of_rows as [_ Hcov]. unfold migrate_sqlite_to_pg.
  destruct collections as [|c cs] eqn:Ec.
  - destruct (db_rows s) as [|r rows]; [by rewrite app_nil_r|]. apply Forall_cons in Hcov as [Hcov _]. by apply not_elem_of_nil in Hcov.
  - rewrite <- Ec in *. clear c cs Ec. destruct (count_all collections) as [n ->]. rewrite copy_all; [|done..|].
    2: { rewrite all_records, ids_read by done. done. }
    assert (∀ cs, Forall (λ c, c ∈ pair_of <$> db_rows s) cs →
      verify_counts source (λ _, None) cs (pg ++ (pg_row <$> (collections ≫= records_of))) = Ok tt) as Hv.
    { induction 1 as [|c cs Hc _ IH]; [done|]. cbn [verify_counts]. rewrite source_paged by (cbn; lia). cbn [result_bind paged qr_total].
      rewrite bool_decide_true; [done|]. unfold count_pg. rewrite filter_app, length_app.
      assert (filter (λ r, (pr_plugin_id r, pr_collection r) = c) pg = []) as ->.
      { clear -Hother Hc. induction Hother as [|r rs Hr _ IHo]; [done|].
        rewrite filter_cons_False by (by intros <-). by apply IHo. }
      cbn [length]. rewrite records_length, all_records, pairs_counted by done. done. }
    rewrite Hv by (apply Forall_forall, collections_have_rows). by rewrite (Permutation_length all_records), Hl.
Qed.
End Complete.

(** A row that is already there under the id of a record is kept, however old, and the migration succeeds. *)
Example stale_row_kept :
  let r := mkRecord "1" "p" "notes" (JStr "new") 2 (Some "ann") None 5 6 in
  let old := mkPgRow "1" "p" "notes" "old" 1 3 4 in
  let page := λ (_ _ : string) p, Ok (paged [r] p) in
  @migrate_sqlite_to_pg coded_text page page page None (λ _, None) (λ _, None) None 2 (Ok [("p", "notes")]) [old]
  = Some (Ok (mkMigrated 1 ["notes"]), [old]).
Proof. vm_compute. reflexivity. Qed.

(** The owner of a record does not reach PostgreSQL. *)
Example owner_dropped `{JsonText} r u h :
  pg_row (mkRecord (rec_id r) (rec_plugin_id r) (rec_collection r) (rec_data r) (rec_version r) u h (rec_created_at r)
            (rec_updated_at r)) = pg_row r.
Proof. reflexivity. Qed.

Lemma copy_complete_witness :
  ∃ new,
    @migrate_sqlite_to_pg coded_text (@source coded_text toy_chrono toy_legacy_sql no_faults task_db)
      (@source coded_text toy_chrono toy_legacy_sql no_faults task_db)
      (@source coded_text toy_chrono toy_legacy_sql no_faults task_db) None (λ _, None) (λ _, None) None 6
      (Ok [("p", "tasks"); ("q", "tasks")]) [mkPgRow "z" "p" "notes" "null" 1 0 0]
    = Some (Ok (mkMigrated 5 ["tasks"; "tasks"]), mkPgRow "z" "p" "notes" "null" 1 0 0 :: new) ∧ length new = 5%nat.
Proof.
  destruct (@copy_complete coded_text toy_chrono toy_sqlite toy_legacy_sql toy_legacy_laws no_faults task_db)
    with (fuel := 6%nat) (pg := [mkPgRow "z" "p" "notes" "null" 1 0 0]) as (recs & new & E & Hr & Hp).
  - intros i. reflexivity.
  - repeat (constructor; [eexists; vm_compute; reflexivity|]). constructor.
  - vm_compute. lia.
  - reflexivity.
  - apply (bool_decide_unpack _). vm_compute. exact I.
  - constructor; [|constructor]. apply (bool_decide_unpack _). vm_compute. exact I.
  - exists new. split; [exact E|]. rewrite (Permutation_length Hp), length_fmap, <- (Forall2_length _ _ _ Hr). reflexivity.
Defined.

End EngineCopy.

(** ** Federation routes (routes/federation.rs, federation.rs) *)

Module FederationRoutes.

Record PeerStatusSummary : Type := mkSummary {
  ps_id : string;
  ps_name : string;
  ps_status : PeerStatus;
  ps_collections : list string;
  ps_last_sync_at : option timestamp;
  ps_last_sync_records : option nat;
}.

Record FederationStatus : Type := mkStatus {
  fs_enabled : bool;
  fs_peer_count : nat;
  fs_peers : list PeerStatusSummary;
}.

Inductive FederationReply : Type :=
| PeerCreated (p : FederationPeer)
| PeerList (ps : list FederationPeer)
| NoContent
| StatusReply (s : FederationStatus)
| Changes (r : PullResponse)
| FedError (status : Z) (message : string).

(** The order in which a map lists its values is that of [map_to_list]. *)
Definition list_peers (st : FederationStore) : list FederationPeer := (map_to_list (peers st)).*2.

Definition summary (p : FederationPeer) : PeerStatusSummary :=
  mkSummary (peer_id p) (peer_name p) (peer_status p) (peer_collections p) (peer_last_sync_at p) (peer_last_sync_records p).

Definition status (st : FederationStore) : FederationStatus :=
  mkStatus (negb (bool_decide (peers st = ∅))) (size (peers st)) (summary <$> list_peers st).

Definition no_store : FederationReply := FedError 503 "federation store not available".

Definition create_peer_route (fresh : string) (now : timestamp) (req : PeerRequest) (st : option FederationStore)
    : FederationReply * option FederationStore :=
  match st with
  | None => (no_store, None)
  | Some s => let '(p, s') := add_peer fresh now req s in (PeerCreated p, Some s')
  end.

Definition list_peers_route (st : option FederationStore) : FederationReply :=
  match st with None => no_store | Some s => PeerList (list_peers s) end.

Definition delete_peer_route (id : string) (st : option FederationStore) : FederationReply * option FederationStore :=
  match st with
  | None => (no_store, None)
  | Some s => let '(found, s') := remove_peer id s in (if found then NoContent else FedError 404 "peer not found", Some s')
  end.

Definition federation_status (st : option FederationStore) : FederationReply :=
  match st with None => no_store | Some s => StatusReply (status s) end.

(** A peer is listed from its creation until it is deleted, and the status counts the peers that are listed. *)
Theorem peers_listed fresh now req s :
  peers s !! fresh = None →
  let '(reply, s1) := create_peer_route fresh now req (Some s) in
  ∃ p s1', reply = PeerCreated p ∧ s1 = Some s1' ∧ list_peers s1' ≡ₚ p :: list_peers s ∧
    fs_peer_count (status s1') = S (fs_peer_count (status s)) ∧ fs_peer_count (status s1') = length (fs_peers (status s1')) ∧
    fs_enabled (status s1') = true ∧
    ∃ s2', delete_peer_route fresh s1 = (NoContent, Some s2') ∧ peers s2' = peers s ∧
      (delete_peer_route fresh (Some s2')).1 = FedError 404 "peer not found".
Proof.
  intros Hn. cbn. do 2 eexists. split; [done|]. split; [done|]. split; [|split; [|split; [|split]]].
  - unfold list_peers. cbn. by rewrite map_to_list_insert.
  - by apply map_size_insert_None.
  - unfold list_peers. cbn. rewrite !length_fmap. symmetry. apply length_map_to_list.
  - cbn. rewrite bool_decide_false; [done|]. apply insert_non_empty.
  - eexists. cbn. rewrite lookup_insert_eq, bool_decide_true by done. split; [done|]. cbn. rewrite delete_insert_id by done.
    split; [done|]. by rewrite Hn, bool_decide_false by (by intros []).
Qed.

Section Serve.
Context `{JsonText} `{Chrono} `{LegacySql}.

Definition change_of (r : StoredRecord) : ChangeRecord :=
  mkChange (rec_id r) (rec_collection r) Update (Some (rec_data r)) (rec_version r) (rec_updated_at r).

Definition after (since : option timestamp) (r : StoredRecord) : bool :=
  from_option (λ t, (t <? rec_updated_at r)%Z) true since.

Definition read_since (since : string) : option (option timestamp) :=
  if is_empty since then Some None else Some <$> parse_from_rfc3339 since.

(** [now] is the clock when the answer is written. *)
Definition serve_changes (d : Draw) (now : timestamp) (collection since : string) (storage : option LegacyDb) : FederationReply :=
  match storage with
  | None => FedError 503 "storage not available"
  | Some s =>
      match legacy_list d "core" collection None (mkPagination 1000 0) s with
      | Err e => FedError 500 e
      | Ok page =>
          match read_since since with
          | None => FedError 400 "invalid 'since' timestamp, expected RFC 3339 format"
          | Some since_dt =>
              Changes (mkPull (change_of <$> filter (λ r, after since_dt r = true) (qr_records page)) (to_rfc3339 now))
          end
      end
  end.

(** Only updates are served, and of a record that was not changed after the cursor nothing is. *)
Theorem served_are_updates d now collection since s page t :
  serve_changes d now collection since s = Changes page → read_since since = Some t →
  Forall (λ ch, ch_operation ch = Update ∧ from_option (λ t, t < ch_timestamp ch)%Z True t) (pull_changes page).
Proof.
  unfold serve_changes. destruct s as [s|]; [|done]. destruct (legacy_list _ _ _ _ _ _) as [p|]; [|done]. intros E Ht. rewrite Ht in E.
  injection E as <-. cbn. apply Forall_fmap, Forall_forall. intros r [Hr _]%list_elem_of_filter. split; [done|].
  destruct t as [t|]; cbn in *; [by apply Z.ltb_lt|done].
Qed.
End Serve.

(** Every record of a collection with at most a thousand that changed after the cursor is served, and nothing else. *)
Theorem serve_exact `{HJ : JsonText} `{HCh : Chrono} `{HS : Sqlite} `{HL : LegacySql, !LegacySqlLaws}
    d now collection since t s :
  (∀ i, ld_fault d i = None) → Forall (λ r, ∃ x, row_to_record r = Ok x) (db_rows s) → read_since since = Some t →
  let rows := filter (λ r, EngineCopy.pair_of r = ("core", collection)) (db_rows s) in
  (length rows ≤ 1000)%nat →
  ∃ recs changes, Forall2 (λ row r, row_to_record row = Ok r) rows recs ∧
    serve_changes d now collection since (Some s) = Changes (mkPull changes (to_rfc3339 now)) ∧
    changes ≡ₚ change_of <$> filter (λ r, after t r = true) recs.
Proof.
  intros Hq Hr Ht rows Hlen. exists (omap EngineCopy.read rows), (change_of <$> filter (λ r, after t r = true) (EngineCopy.records_of s ("core", collection))).
  split; [|split].
  - apply EngineCopy.read_all. unfold rows. apply Forall_forall. intros r [_ Hin]%list_elem_of_filter. by eapply Forall_forall in Hr.
  - unfold serve_changes. pose proof (EngineCopy.source_paged d s Hq Hr ("core", collection) (mkPagination 1000 0)) as Hp.
    unfold EngineCopy.source in Hp. cbn [fst snd] in Hp. rewrite Hp by (cbn; lia). rewrite Ht. cbn [EngineCopy.paged qr_records pg_limit pg_offset].
    change (Z.to_nat (Z.min 1000 1000)) with 1000%nat. change (Z.to_nat 0) with 0%nat. rewrite drop_0, firstn_all2; [done|].
    rewrite EngineCopy.records_length by done. exact Hlen.
  - unfold EngineCopy.records_of. rewrite legacy_order_perm. done.
Qed.

End FederationRoutes.

(** ** The bridge between the buses (event_bridge.rs) *)

Section Bridge.
Context `{CdmTime}.

Definition bus_event_to_event (now : timestamp) (b : BusEvent) : option Event :=
  let event name payload := Some (mkEvent name payload "system" now 0) in
  match b with
  | NewRecords collection count =>
      event "system.storage.new_records"
        (Some (mk_obj [("collection", JStr collection); ("count", JNum (NInt (Z.of_nat count)))]))
  | RecordChanged record => event "system.storage.record_changed" (Some (stored_value record))
  | RecordDeleted record_id collection =>
      event "system.storage.record_deleted" (Some (mk_obj [("record_id", JStr record_id); ("collection", JStr collection)]))
  | SyncComplete plugin_id => event "system.sync.complete" (Some (mk_obj [("plugin_id", JStr plugin_id)]))
  | PluginLoaded plugin_id => event "system.plugin.loaded" (Some (mk_obj [("plugin_id", JStr plugin_id)]))
  | PluginError plugin_id error =>
      event "system.plugin.failed" (Some (mk_obj [("plugin_id", JStr plugin_id); ("error", JStr error)]))
  | BlobStored blob_key plugin_id =>
      event "system.blob.stored" (Some (mk_obj [("blob_key", JStr blob_key); ("plugin_id", JStr plugin_id)]))
  | BlobDeleted blob_key plugin_id =>
      event "system.blob.deleted" (Some (mk_obj [("blob_key", JStr blob_key); ("plugin_id", JStr plugin_id)]))
  | AuthSuccess _ _ | AuthFailure _ _ | CredentialEvent _ _ _ | PluginUnloaded _ | ConnectorEvent _ _ => None
  end.

(** [p[key].as_str()], with a default. *)
Definition payload_text (e : Event) (key fallback : string) : string :=
  default fallback (ev_payload e ≫= λ p, json_get p key ≫= as_str).

Definition event_to_bus_event (e : Event) : option BusEvent :=
  if starts_with (ev_name e) "system.storage." || starts_with (ev_name e) "system.blob." then None
  else if bool_decide (ev_name e = "system.plugin.loaded") then Some (PluginLoaded (payload_text e "plugin_id" "unknown"))
  else if bool_decide (ev_name e = "system.plugin.failed") then
    Some (PluginError (payload_text e "plugin_id" "unknown") (payload_text e "error" "unknown error"))
  else if bool_decide (ev_name e = "system.sync.complete") then Some (SyncComplete (payload_text e "plugin_id" "unknown"))
  else None.

(** What the two tasks have still to see. *)
Record BridgeState : Type := mkBridge {
  br_messages : list BusEvent;
  br_events : list Event;
}.

Context (max_depth : Z).

(** What [EventBus::emit] broadcasts. *)
Definition broadcast (e : Event) : list Event := if (max_depth <? ev_depth e)%Z then [] else [e].

(** One turn of [spawn_message_bus_to_event_bus] and of [spawn_event_bus_to_message_bus]; a task that
    lags misses the oldest events. *)
Inductive bridge_step : BridgeState → BridgeState → Prop :=
| to_event_bus now b ms es :
    bridge_step (mkBridge (b :: ms) es)
      (mkBridge ms (es ++ from_option broadcast [] (bus_event_to_event now b)))
| to_message_bus e ms es :
    bridge_step (mkBridge ms (e :: es)) (mkBridge (ms ++ option_list (event_to_bus_event e)) es).

Inductive bridge_lag : BridgeState → BridgeState → Prop :=
| messages_lag n ms es : bridge_lag (mkBridge ms es) (mkBridge (drop n ms) es)
| events_lag n ms es : bridge_lag (mkBridge ms es) (mkBridge ms (drop n es)).

(** ** What comes back *)

(** Notices about plugins and synchronisations go to the event bus and return as they were. *)
Definition echoes (b : BusEvent) : bool :=
  match b with
  | PluginLoaded _ | PluginError _ _ | SyncComplete _ => true
  | _ => false
  end.

Lemma forwarded_returns now b :
  (bus_event_to_event now b ≫= event_to_bus_event) = if echoes b then Some b else None.
Proof. destruct b; vm_compute; reflexivity. Qed.

Definition event_echoes (e : Event) : bool := bool_decide (is_Some (event_to_bus_event e)).

(** What is forwarded to the message bus is always a notice that is sent on again. *)
Lemma returned_echoes e b : event_to_bus_event e = Some b → echoes b = true.
Proof. unfold event_to_bus_event. repeat case_match; intros; by simplify_eq. Qed.

(** The notices under way. *)
Definition under_way (s : BridgeState) : nat :=
  length (filter (λ b, echoes b = true) (br_messages s)) + length (filter (λ e, event_echoes e = true) (br_events s)).

Lemma forwarded_depth now b e : bus_event_to_event now b = Some e → ev_depth e = 0%Z.
Proof. destruct b; cbn; intros; by simplify_eq. Qed.

Lemma forwarded_echoes now b :
  (0 ≤ max_depth)%Z →
  length (filter (λ e, event_echoes e = true) (from_option broadcast [] (bus_event_to_event now b)))
  = if echoes b then 1 else 0.
Proof.
  intros Hd. pose proof (forwarded_returns now b) as Hr. destruct (bus_event_to_event now b) as [e|] eqn:E; cbn in *.
  - unfold broadcast. rewrite (forwarded_depth now b e E), (proj2 (Z.ltb_ge _ _) Hd). unfold event_echoes.
    destruct (echoes b).
    + by rewrite filter_cons_True, filter_nil by (by rewrite Hr).
    + by rewrite filter_cons_False, filter_nil by (by rewrite Hr).
  - by destruct (echoes b).
Qed.

Lemma bridge_echoes_step s s' : (0 ≤ max_depth)%Z → bridge_step s s' → under_way s' = under_way s.
Proof.
  intros Hd H1.
  destruct H1 as [now b ms es|e ms es]; unfold under_way; cbn [br_messages br_events];
    rewrite filter_app, length_app.
  - rewrite forwarded_echoes by done. destruct (echoes b) eqn:Eb.
    + rewrite filter_cons_True by done. cbn. lia.
    + rewrite filter_cons_False by (by rewrite Eb). lia.
  - destruct (event_to_bus_event e) as [b|] eqn:Ee; cbn [option_list].
    + rewrite (filter_cons_True _ b []) by (by eapply returned_echoes).
      rewrite (filter_cons_True _ e es) by (unfold event_echoes; by rewrite Ee). cbn. lia.
    + rewrite (filter_cons_False _ e es) by (unfold event_echoes; by rewrite Ee). cbn. lia.
Qed.

(** Every turn keeps the number of notices under way: with both tasks running, a loaded or failed plugin or a
    finished synchronisation is announced on both buses without end, and whatever workflow waits
    for it is started every time. *)
Theorem bridge_echoes_forever s s' :
  (0 ≤ max_depth)%Z → rtc bridge_step s s' → under_way s' = under_way s.
Proof. intros Hd. induction 1 as [s|s s1 s2 H1 _ IH]; [done|]. rewrite IH. by apply bridge_echoes_step. Qed.

(** Without notices under way the tasks come to rest. *)
Definition left_to_do (s : BridgeState) : nat := 2 * length (br_messages s) + length (br_events s).

Lemma quiet_step s s' :
  (0 ≤ max_depth)%Z → under_way s = 0 → bridge_step s s' → under_way s' = 0 ∧ (left_to_do s' < left_to_do s)%nat.
Proof.
  intros Hd Hu Hs. split; [rewrite <- Hu; apply bridge_echoes_step; [done|by apply Hs]|].
  destruct Hs as [now b ms es|e ms es]; unfold left_to_do; cbn [br_messages br_events length]; rewrite length_app.
  - destruct (bus_event_to_event now b) as [e|]; cbn; [|lia]. unfold broadcast. case_match; cbn; lia.
  - unfold under_way in Hu. cbn [br_messages br_events] in Hu. destruct (event_to_bus_event e) as [b|] eqn:Ee; cbn; [|lia].
    rewrite (filter_cons_True _ e es) in Hu by (unfold event_echoes; by rewrite Ee). cbn in Hu. lia.
Qed.

(** Storage and blob events are forwarded once: from a state without notices, turns come to an end, whatever the
    order. *)
Theorem quiet_bridge_ends n s s' :
  (0 ≤ max_depth)%Z → under_way s = 0 → nsteps bridge_step n s s' → (n ≤ left_to_do s)%nat.
Proof.
  intros Hd Hu Hn. revert Hu. induction Hn as [s|n s s1 s2 H1 _ IH]; intros Hu; [lia|].
  destruct (quiet_step s s1 Hd Hu H1) as [Hu1 Hl]. specialize (IH Hu1). lia.
Qed.
End Bridge.
