(* ===== verification/Connectors.v ===== *)
(** * File and mail connectors (plugins/engine/connector-filesystem, connector-email)

    [LocalFs] (local.rs, normalizer.rs, packages/types/src/file_helpers.rs): scanning and watching
    directories. [Cloud] (s3.rs): the keys and state of the object store. [Mail] (normalizer.rs):
    messages as records. [Imap] (imap.rs): which messages are fetched. [EmailPlugin] (lib.rs,
    smtp.rs): the plugin with its waits after failures.

    The file system is what it answers to each path, and does not change during an operation. Glob
    patterns, digests, MIME types, chrono's dates and the parser of messages are parameters; clock
    and ids are arguments. *)

From stdpp Require Import base tactics list gmap sets strings.
From Stdlib Require Import Ascii ZArith Lia.
From S2P Require Import Prelude RustString RustText Json Types Contacts Calendar Cdm Webhooks.

Local Open Scope string_scope.
Local Open Scope list_scope.

(** ** Local files *)

Module LocalFs.

Record LocalFsConfig : Type := mkLocalFsConfig {
  watch_paths : list string;
  include_patterns : list string;
  exclude_patterns : list string;
  compute_checksums : bool;
}.

Definition default_config : LocalFsConfig := mkLocalFsConfig [] [] [] true.

Inductive FileChange : Type :=
| Created (p : string)
| Modified (p : string)
| Deleted (p : string).

Record IndexedFile : Type := mkIndexed {
  if_size : Z;
  if_modified : Z;
  if_checksum : option string;
}.

(** The connector, with the number of ids and clock readings drawn so far. *)
Record LocalFsConnector : Type := mkConnector {
  lc_config : LocalFsConfig;
  lc_indexed : gmap string IndexedFile;
  lc_draws : nat;
}.

Definition new (config : LocalFsConfig) : LocalFsConnector := mkConnector config ∅ 0.

(** [SystemTime] is in nanoseconds from the epoch; a platform may not have one. *)
Record Metadata : Type := mkMetadata {
  mt_len : Z;
  mt_created : option Z;
  mt_modified : option Z;
}.

Record FileSystem : Type := mkFileSystem {
  fs_is_dir : string → bool;
  fs_is_file : string → bool;
  fs_exists : string → bool;
  fs_canonicalize : string → option string;
  fs_read_dir : string → result (list (result string string)) string;
  fs_metadata : string → result Metadata string;
  (** the digest of the contents, in hexadecimal *)
  fs_sha256 : string → result string string;
}.

(** [Path::file_name]: the last component, unless that is a parent directory. *)
Definition file_name (path : string) : option string :=
  c ← last (filter (λ c, c ≠ empty_str ∧ c ≠ ".") (split "/" path));
  if bool_decide (c = "..") then None else Some c.

Section Operations.
Context (glob : string → option (string → bool)) (mime_guess : string → option string)
  (from_timestamp : Z → Z → option timestamp) (draw_id : nat → uuid) (now : nat → timestamp).
Context (fs : FileSystem).

(** A pattern that is not well-formed matches nothing. *)
Definition pattern_matches (pattern path : string) : bool :=
  match glob pattern with
  | Some p => p path || from_option p false (file_name path)
  | None => false
  end.

Definition should_include (c : LocalFsConnector) (path : string) : bool :=
  if existsb (λ p, pattern_matches p path) (exclude_patterns (lc_config c)) then false
  else match include_patterns (lc_config c) with
       | [] => true
       | ps => existsb (λ p, pattern_matches p path) ps
       end.

Definition detect_mime_type (path : string) : string := default "application/octet-stream" (mime_guess path).

Definition compute_sha256 (path : string) : result string string :=
  let? hex := fs_sha256 fs path in Ok ("sha256:" +:+ hex).

(** Times before the epoch, and those chrono does not have, are the clock. *)
Definition system_time_to_datetime (clock : timestamp) (t : Z) : timestamp :=
  if (t <? 0)%Z then clock
  else default clock (from_timestamp (t / 1000000000) (t mod 1000000000))%Z.

(** [i] is the draw of the id and of the clock. *)
Definition normalize_file (i : nat) (path : string) (checksums : bool) : result FileMetadata string :=
  let? meta := result_map_err (λ e, "failed to read file metadata: " +:+ path +:+ ": " +:+ e) (fs_metadata fs path) in
  let? checksum := if checksums then compute_sha256 path else Ok empty_str in
  let time := from_option (system_time_to_datetime (now i)) (now i) in
  Ok (mkFileMetadata (draw_id i) (default "unnamed" (file_name path)) path (detect_mime_type path) (mt_len meta) checksum
        None "local" path None (time (mt_created meta)) (time (mt_modified meta))).

Definition index_file (path : string) (c : LocalFsConnector) : result FileMetadata string * LocalFsConnector :=
  let i := lc_draws c in
  match normalize_file i path (compute_checksums (lc_config c)) with
  | Err e => (Err e, mkConnector (lc_config c) (lc_indexed c) (S i))
  | Ok metadata =>
      match fs_metadata fs path with
      | Err e => (Err ("failed to read metadata: " +:+ path +:+ ": " +:+ e), mkConnector (lc_config c) (lc_indexed c) (S i))
      | Ok meta =>
          let indexed := mkIndexed (mt_len meta) (default 0%Z (mt_modified meta))
                           (if is_empty (fm_checksum metadata) then None else Some (fm_checksum metadata)) in
          (Ok metadata, mkConnector (lc_config c) (<[path := indexed]> (lc_indexed c)) (S i))
      end
  end.

Definition MAX_SCAN_DEPTH : nat := 64.

(** The connector, the results and the directories visited. *)
Record ScanState : Type := mkScan {
  sc_connector : LocalFsConnector;
  sc_results : list FileMetadata;
  sc_visited : gset string;
}.

(** A file that cannot be indexed is skipped. *)
Definition scan_file (path : string) (st : ScanState) : ScanState :=
  if fs_is_file fs path && should_include (sc_connector st) path then
    match index_file path (sc_connector st) with
    | (Ok m, c) => mkScan c (sc_results st ++ [m]) (sc_visited st)
    | (Err _, c) => mkScan c (sc_results st) (sc_visited st)
    end
  else st.

Fixpoint scan_entries (sub : string → ScanState → result unit string * ScanState) (entries : list (result string string))
    (st : ScanState) : result unit string * ScanState :=
  match entries with
  | [] => (Ok tt, st)
  | Err e :: _ => (Err e, st)
  | Ok path :: rest =>
      if fs_is_dir fs path then
        match sub path st with
        | (Err e, st') => (Err e, st')
        | (Ok _, st') => scan_entries sub rest st'
        end
      else scan_entries sub rest (scan_file path st)
  end.

(** [levels] is how many more levels may be entered. *)
Fixpoint scan_directory (levels : nat) (dir : string) (st : ScanState) : result unit string * ScanState :=
  match levels with
  | O => (Ok tt, st)
  | S levels =>
      let canonical := default dir (fs_canonicalize fs dir) in
      if bool_decide (canonical ∈ sc_visited st) then (Ok tt, st)
      else
        let st' := mkScan (sc_connector st) (sc_results st) ({[canonical]} ∪ sc_visited st) in
        match fs_read_dir fs dir with
        | Err e => (Err ("failed to read directory: " +:+ dir +:+ ": " +:+ e), st')
        | Ok entries => scan_entries (scan_directory levels) entries st'
        end
  end.

Fixpoint scan_paths (paths : list string) (st : ScanState) : result unit string * ScanState :=
  match paths with
  | [] => (Ok tt, st)
  | p :: rest =>
      if fs_is_dir fs p then
        match scan_directory (S MAX_SCAN_DEPTH) p st with
        | (Err e, st') => (Err e, st')
        | (Ok _, st') => scan_paths rest st'
        end
      else scan_paths rest st
  end.

Definition scan (c : LocalFsConnector) : result (list FileMetadata) string * LocalFsConnector :=
  let '(r, st) := scan_paths (watch_paths (lc_config c)) (mkScan c [] ∅) in
  (let? _ := r in Ok (sc_results st), sc_connector st).

(** What is noted of one file. *)
Definition file_change (c : LocalFsConnector) (path : string) : result (list FileChange) string :=
  if fs_is_file fs path && should_include c path then
    match lc_indexed c !! path with
    | None => Ok [Created path]
    | Some indexed =>
        let? meta := fs_metadata fs path in
        if bool_decide (mt_len meta ≠ if_size indexed ∨ default 0%Z (mt_modified meta) ≠ if_modified indexed)
        then Ok [Modified path] else Ok []
    end
  else Ok [].

Fixpoint changes_entries (c : LocalFsConnector) (sub : string → option (result (list FileChange) string))
    (entries : list (result string string)) : option (result (list FileChange) string) :=
  match entries with
  | [] => Some (Ok [])
  | Err e :: _ => Some (Err e)
  | Ok path :: rest =>
      match (if fs_is_dir fs path then sub path else Some (file_change c path)) with
      | Some (Ok changes) =>
          match changes_entries c sub rest with
          | Some (Ok more) => Some (Ok (changes ++ more))
          | other => other
          end
      | other => other
      end
  end.

(** [None] when the fuel ends: the code has no bound. *)
Fixpoint detect_changes_in_dir (fuel : nat) (c : LocalFsConnector) (dir : string) : option (result (list FileChange) string) :=
  match fuel with
  | O => None
  | S fuel =>
      match fs_read_dir fs dir with
      | Err e => Some (Err ("failed to read directory: " +:+ dir +:+ ": " +:+ e))
      | Ok entries => changes_entries c (detect_changes_in_dir fuel c) entries
      end
  end.

Fixpoint detect_in_paths (fuel : nat) (c : LocalFsConnector) (paths : list string) : option (result (list FileChange) string) :=
  match paths with
  | [] => Some (Ok [])
  | p :: rest =>
      match (if fs_is_dir fs p then detect_changes_in_dir fuel c p else Some (Ok [])) with
      | Some (Ok changes) =>
          match detect_in_paths fuel c rest with
          | Some (Ok more) => Some (Ok (changes ++ more))
          | other => other
          end
      | other => other
      end
  end.

(** [order] is how the map lists its paths. *)
Definition detect_changes (fuel : nat) (order : list string) (c : LocalFsConnector)
    : option (result (list FileChange) string) :=
  match detect_in_paths fuel c (watch_paths (lc_config c)) with
  | Some (Ok changes) => Some (Ok (changes ++ (Deleted <$> filter (λ p, fs_exists fs p = false) order)))
  | other => other
  end.

(** *** What a scan indexes *)

(** The snapshot of a file in the index. *)
Definition snapshot (c : LocalFsConnector) (path : string) (x : IndexedFile) : Prop :=
  ∃ meta, fs_metadata fs path = Ok meta ∧ if_size x = mt_len meta ∧ if_modified x = default 0%Z (mt_modified meta).

(** From one state of a scan to a later one. *)
Definition scanned (st st' : ScanState) : Prop :=
  lc_config (sc_connector st') = lc_config (sc_connector st) ∧
  ∃ new, sc_results st' = sc_results st ++ new ∧
    Forall (λ m, fs_is_file fs (fm_path m) = true ∧ should_include (sc_connector st) (fm_path m) = true) new ∧
    ∀ p, if decide (p ∈ fm_path <$> new) then ∃ x, lc_indexed (sc_connector st') !! p = Some x ∧ snapshot (sc_connector st) p x
         else lc_indexed (sc_connector st') !! p = lc_indexed (sc_connector st) !! p.

Lemma should_include_config c c' p : lc_config c' = lc_config c → should_include c' p = should_include c p.
Proof. unfold should_include. by intros ->. Qed.

Lemma scanned_refl st : scanned st st.
Proof.
  split; [done|]. exists []. rewrite app_nil_r. split; [done|]. split; [constructor|]. intros p.
  by rewrite decide_False by apply not_elem_of_nil.
Qed.

Lemma scanned_trans st1 st2 st3 : scanned st1 st2 → scanned st2 st3 → scanned st1 st3.
Proof.
  intros [Hc1 (n1 & Hr1 & Hf1 & Hi1)] [Hc2 (n2 & Hr2 & Hf2 & Hi2)]. split; [congruence|]. exists (n1 ++ n2).
  split; [by rewrite Hr2, Hr1, app_assoc|]. split.
  - apply Forall_app. split; [done|]. eapply Forall_impl; [exact Hf2|]. intros m [H1 H2]. split; [done|].
    by rewrite <- (should_include_config _ _ _ Hc1).
  - intros p. specialize (Hi1 p). specialize (Hi2 p). rewrite fmap_app. destruct (decide (p ∈ fm_path <$> n2)) as [H2|H2].
    + rewrite decide_True by (apply elem_of_app; by right). done.
    + destruct (decide (p ∈ fm_path <$> n1)) as [H1|H1].
      * rewrite decide_True by (apply elem_of_app; by left). by rewrite Hi2.
      * rewrite decide_False by (rewrite elem_of_app; tauto). by rewrite Hi2.
Qed.

Lemma scan_file_scanned path st : scanned st (scan_file path st).
Proof.
  unfold scan_file. destruct (fs_is_file fs path) eqn:Ef; [|apply scanned_refl].
  destruct (should_include _ path) eqn:Ei; [|apply scanned_refl]. cbn [andb]. unfold index_file.
  destruct (normalize_file _ path _) as [m|e] eqn:En.
  - unfold normalize_file in En. destruct (fs_metadata fs path) as [meta|] eqn:Em; [|done]. cbn [result_map_err result_bind] in En.
    destruct (if compute_checksums _ then _ else _) as [k|] eqn:Ek in En; [|done]. cbn [result_bind] in En. injection En as <-.
    split; [done|]. eexists [_]. cbn [sc_results sc_connector]. split; [done|].
    split; [repeat constructor; done|]. intros p. cbn [lc_indexed fmap list_fmap fm_path].
    destruct (decide (p ∈ [path])) as [->%list_elem_of_singleton|Hp].
    + rewrite lookup_insert_eq. eexists. split; [done|]. by exists meta.
    + apply lookup_insert_ne. intros ->. by apply Hp, list_elem_of_singleton.
  - split; [done|]. exists []. rewrite app_nil_r. split; [done|]. split; [constructor|]. intros p.
    by rewrite decide_False by apply not_elem_of_nil.
Qed.

Lemma scan_entries_scanned sub entries st :
  (∀ p st, scanned st (sub p st).2) → scanned st (scan_entries sub entries st).2.
Proof.
  intros Hsub. revert st. induction entries as [|[path|e] rest IH]; intros st; [apply scanned_refl| |apply scanned_refl].
  cbn [scan_entries]. destruct (fs_is_dir fs path).
  - specialize (Hsub path st). destruct (sub path st) as [[u|e] st']; [|done]. eapply scanned_trans; [exact Hsub|apply IH].
  - eapply scanned_trans; [apply scan_file_scanned|apply IH].
Qed.

Lemma scan_directory_scanned levels dir st : scanned st (scan_directory levels dir st).2.
Proof.
  revert dir st. induction levels as [|levels IH]; intros dir st; [apply scanned_refl|]. cbn [scan_directory].
  case_bool_decide; [apply scanned_refl|]. set (st' := mkScan _ _ _).
  assert (scanned st st') as Hv by (pose proof (scanned_refl st) as [H1 H2]; done).
  destruct (fs_read_dir fs dir); [|done]. eapply scanned_trans; [exact Hv|]. by apply scan_entries_scanned.
Qed.

Lemma scan_paths_scanned paths st : scanned st (scan_paths paths st).2.
Proof.
  revert st. induction paths as [|p rest IH]; intros st; [apply scanned_refl|]. cbn [scan_paths].
  destruct (fs_is_dir fs p); [|apply IH]. pose proof (scan_directory_scanned (S MAX_SCAN_DEPTH) p st) as Hs.
  destruct (scan_directory _ p st) as [[u|e] st']; [|done]. eapply scanned_trans; [exact Hs|apply IH].
Qed.

(** A scan returns whatever the links in the file system; what it returns are files that the patterns include, and the
    index has these files as they are and keeps the others. *)
Theorem scan_indexes c results c' :
  scan c = (Ok results, c') →
  Forall (λ m, fs_is_file fs (fm_path m) = true ∧ should_include c (fm_path m) = true) results ∧
  ∀ p, if decide (p ∈ fm_path <$> results) then ∃ x, lc_indexed c' !! p = Some x ∧ snapshot c p x
       else lc_indexed c' !! p = lc_indexed c !! p.
Proof.
  unfold scan. pose proof (scan_paths_scanned (watch_paths (lc_config c)) (mkScan c [] ∅)) as [_ (new & Hr & Hf & Hi)].
  destruct (scan_paths _ _) as [[u|] st']; cbn in *; [|done]. intros [= <- <-]. by rewrite Hr.
Qed.

(** *** What changes are noted *)

(** A change that the files of the directories show. *)
Definition noted (c : LocalFsConnector) (ch : FileChange) : Prop :=
  match ch with
  | Created p => fs_is_file fs p = true ∧ should_include c p = true ∧ lc_indexed c !! p = None
  | Modified p => ∃ x, lc_indexed c !! p = Some x ∧ ¬ snapshot c p x
  | Deleted p => False
  end.

Lemma file_change_noted c path changes : file_change c path = Ok changes → Forall (noted c) changes.
Proof.
  unfold file_change. destruct (fs_is_file fs path) eqn:Ef; [|by intros [= <-]].
  destruct (should_include c path) eqn:Ei; [|by intros [= <-]]. cbn [andb].
  destruct (lc_indexed c !! path) as [x|] eqn:Ex; [|by intros [= <-]; repeat constructor].
  destruct (fs_metadata fs path) as [meta|] eqn:Em; [|done]. cbn [result_bind]. case_bool_decide as Hd; intros [= <-]; [|constructor].
  repeat constructor. exists x. split; [done|]. intros (meta' & Hm & H1 & H2). assert (meta' = meta) as -> by congruence. destruct Hd; congruence.
Qed.

Lemma entries_noted c sub entries changes :
  (∀ p l, sub p = Some (Ok l) → Forall (noted c) l) →
  changes_entries c sub entries = Some (Ok changes) → Forall (noted c) changes.
Proof.
  intros Hsub. revert changes. induction entries as [|[path|e] rest IH]; intros changes; cbn [changes_entries]; [by intros [= <-]| |done].
  destruct (if fs_is_dir fs path then _ else _) as [[l|]|] eqn:E; [|done..].
  destruct (changes_entries c sub rest) as [[more|]|]; [|done..]. intros [= <-]. apply Forall_app. split; [|by apply IH].
  destruct (fs_is_dir fs path); [by eapply Hsub|]. injection E as E. by eapply file_change_noted.
Qed.

Lemma dir_noted fuel c dir changes : detect_changes_in_dir fuel c dir = Some (Ok changes) → Forall (noted c) changes.
Proof.
  revert dir changes. induction fuel as [|fuel IH]; intros dir changes; [done|]. cbn [detect_changes_in_dir].
  destruct (fs_read_dir fs dir); [|done]. by apply entries_noted.
Qed.

Lemma paths_noted fuel c paths changes : detect_in_paths fuel c paths = Some (Ok changes) → Forall (noted c) changes.
Proof.
  revert changes. induction paths as [|p rest IH]; intros changes; cbn [detect_in_paths]; [by intros [= <-]|].
  destruct (if fs_is_dir fs p then _ else _) as [[l|]|] eqn:E; [|done..].
  destruct (detect_in_paths fuel c rest) as [[more|]|]; [|done..]. intros [= <-]. apply Forall_app. split; [|by apply IH].
  destruct (fs_is_dir fs p); [by eapply dir_noted|]. by injection E as <-.
Qed.

(** Every change that is reported is one: a file that is included and not in the index, one whose size or time is not
    the one in the index, or an entry of the index whose file is gone. *)
Theorem changes_real fuel order c changes :
  detect_changes fuel order c = Some (Ok changes) →
  Forall (λ ch, noted c ch ∨ ∃ p, ch = Deleted p ∧ p ∈ order ∧ fs_exists fs p = false) changes.
Proof.
  unfold detect_changes. destruct (detect_in_paths _ _ _) as [[l|]|] eqn:E; [|done..]. intros [= <-]. apply Forall_app.
  split; [eapply Forall_impl; [by eapply paths_noted|by left]|].
  apply Forall_fmap, Forall_forall. intros p [Hp Hin]%list_elem_of_filter. right. by exists p.
Qed.

(** Right after a scan of an empty index nothing is reported as modified or deleted; what is reported as new are files
    that the scan did not index. *)
Theorem scan_then_quiet config results c fuel order changes :
  (∀ p, fs_is_file fs p = true → fs_exists fs p = true) → (∀ p, p ∈ order → is_Some (lc_indexed c !! p)) →
  scan (new config) = (Ok results, c) → detect_changes fuel order c = Some (Ok changes) →
  Forall (λ ch, ∃ p, ch = Created p ∧ p ∉ fm_path <$> results) changes.
Proof.
  intros He Ho Hs Hd. destruct (scan_indexes _ _ _ Hs) as [Hf Hi].
  assert (∀ p x, lc_indexed c !! p = Some x → p ∈ fm_path <$> results ∧ snapshot c p x) as Hall.
  { intros p x Hx. specialize (Hi p). destruct (decide (p ∈ fm_path <$> results)) as [Hin|Hin].
    - destruct Hi as (x' & Hx' & Hsn). assert (x' = x) as -> by congruence. done.
    - rewrite Hx in Hi. cbn in Hi. by rewrite lookup_empty in Hi. }
  apply changes_real in Hd as Hn. apply Forall_forall. intros ch Hch. eapply Forall_forall in Hn; [|exact Hch].
  destruct Hn as [Hn|(p & -> & Hin & Hex)].
  - destruct ch as [p|p|p]; cbn in Hn; [| |done].
    + exists p. split; [done|]. intros Hin. specialize (Hi p). rewrite decide_True in Hi by done.
      destruct Hi as (x & Hx & _), Hn as (_ & _ & Hn). congruence.
    + destruct Hn as (x & Hx & Hn). by destruct (Hall _ _ Hx).
  - destruct (Ho p Hin) as [x Hx]. destruct (Hall _ _ Hx) as [Hres _].
    apply list_elem_of_fmap in Hres as (m & -> & Hm). eapply Forall_forall in Hf as [Hf _]; [|exact Hm].
    apply He in Hf. congruence.
Qed.
End Operations.

(** *** Links that lead back *)

(** A directory with a link to itself. *)
Definition looped : FileSystem :=
  mkFileSystem (λ _, true) (λ _, false) (λ _, true) (λ _, Some "/w") (λ dir, Ok [Ok (dir +:+ "/l")]) (λ _, Err "directory")
    (λ _, Err "directory").

Definition looped_connector : LocalFsConnector := new (mkLocalFsConfig ["/w"] [] [] false).

(** The scan stops at the link; looking for changes follows it without end. *)
Theorem links_followed_forever :
  scan (λ _, None) (λ _, None) (λ _ _, None) (λ _, empty_str) (λ _, 0%Z) looped looped_connector = (Ok [], looped_connector) ∧
  ∀ fuel, detect_changes (λ _, None) looped fuel [] looped_connector = None.
Proof.
  split; [vm_compute; reflexivity|]. intros fuel.
  assert (∀ dir, detect_changes_in_dir (λ _, None) looped fuel looped_connector dir = None) as Hd.
  { induction fuel as [|fuel IH]; intros dir; [done|]. cbn. by rewrite IH. }
  unfold detect_changes. cbn. by rewrite Hd.
Qed.

(** Two names of one directory: the files under the second are reported as new forever. *)
Definition aliased : FileSystem :=
  mkFileSystem (λ p, bool_decide (p ∈ ["/a"; "/b"])) (λ p, bool_decide (p ∈ ["/a/f"; "/b/f"]))
    (λ p, bool_decide (p ∈ ["/a"; "/b"; "/a/f"; "/b/f"])) (λ _, Some "/a") (λ dir, Ok [Ok (dir +:+ "/f")])
    (λ _, Ok (mkMetadata 3 None (Some 7%Z))) (λ _, Ok "00").

Example alias_stays_new :
  let c := new (mkLocalFsConfig ["/a"; "/b"] [] [] true) in
  let c' := (scan (λ _, None) (λ _, None) (λ _ _, None) (λ _, empty_str) (λ _, 0%Z) aliased c).2 in
  detect_changes (λ _, None) aliased 5 ["/a/f"] c' = Some (Ok [Created "/b/f"]).
Proof. vm_compute. reflexivity. Qed.

End LocalFs.

(** ** The object store *)

Module Cloud.

Record S3Config : Type := mkS3Config {
  s3_endpoint : string;
  s3_region : string;
  s3_bucket : string;
  s3_credential_key : string;
  s3_prefix : option string;
}.

Record ObjectState : Type := mkObject {
  ob_size : Z;
  ob_last_modified : timestamp;
  ob_etag : option string;
}.

Record CloudSyncState : Type := mkCloudSync {
  cs_last_sync : option timestamp;
  cs_known_objects : gmap string ObjectState;
}.

Record S3Client : Type := mkS3Client {
  cl_config : S3Config;
  cl_sync_state : CloudSyncState;
}.

Definition new (config : S3Config) : S3Client := mkS3Client config (mkCloudSync None ∅).

Definition full_key (c : S3Client) (key : string) : string :=
  match s3_prefix (cl_config c) with
  | Some prefix => if is_empty prefix then key else trim_end_matches "/" prefix +:+ "/" +:+ key
  | None => key
  end.

Definition track_object (key : string) (size : Z) (last_modified : timestamp) (etag : option string) (c : S3Client) : S3Client :=
  mkS3Client (cl_config c)
    (mkCloudSync (cs_last_sync (cl_sync_state c))
       (<[key := mkObject size last_modified etag]> (cs_known_objects (cl_sync_state c)))).

Definition mark_synced (now : timestamp) (c : S3Client) : S3Client :=
  mkS3Client (cl_config c) (mkCloudSync (Some now) (cs_known_objects (cl_sync_state c))).

(** Different keys stay different under a prefix. *)
Theorem full_key_injective c a b : full_key c a = full_key c b → a = b.
Proof.
  unfold full_key. destruct (s3_prefix _) as [p|]; [|done]. destruct (is_empty p); [done|]. intros E.
  apply (inj (String.append _)) in E. by injection E.
Qed.

End Cloud.

(** ** Messages as records *)

Module Mail.

(** What the parser gives of a message. *)
Record Attachment : Type := mkPart {
  at_name : option string;
  at_content_type : option (string * option string);
  at_length : Z;
  at_content_id : option string;
}.

Record ParsedMail : Type := mkParsed {
  pm_from : option (list (option string * option string));
  pm_to : option (list (option string * option string));
  pm_cc : option (list (option string * option string));
  pm_subject : option string;
  pm_body_text : option string;
  pm_body_html : option string;
  pm_message_id : option string;
  pm_in_reply_to : option string;
  pm_references : option string;
  pm_parts : list (option (string * option string));
  pm_attachments : list Attachment;
  pm_date : option Z;
}.

Definition address_of (a : option string * option string) : EmailAddress := mkEmailAddress a.1 (default empty_str a.2).

Definition extract_from (m : ParsedMail) : EmailAddress :=
  match pm_from m ≫= head with
  | Some a => address_of a
  | None => mkEmailAddress None empty_str
  end.

Definition extract_to (m : ParsedMail) : list EmailAddress := from_option (fmap address_of) [] (pm_to m).

Definition extract_cc (m : ParsedMail) : list EmailAddress := from_option (fmap address_of) [] (pm_cc m).

Definition extract_body_text (m : ParsedMail) : option string := pm_body_text m.

Definition is_html (ct : option (string * option string)) : bool :=
  match ct with
  | Some (main, sub) => bool_decide (main = "text") && bool_decide (sub = Some "html")
  | None => false
  end.

Definition extract_body_html (m : ParsedMail) : option string :=
  if negb (existsb is_html (pm_parts m)) then None else pm_body_html m.

Definition extract_in_reply_to (m : ParsedMail) : option string :=
  match pm_in_reply_to m with
  | Some t => Some t
  | None => pm_references m
  end.

Definition mime_of (ct : option (string * option string)) : string :=
  match ct with
  | Some (main, sub) => main +:+ "/" +:+ default "octet-stream" sub
  | None => "application/octet-stream"
  end.

Definition extract_attachments (m : ParsedMail) : list EmailAttachment :=
  (λ a, mkAttachment (default "unnamed" (at_name a)) (mime_of (at_content_type a)) (at_length a) (at_content_id a))
  <$> pm_attachments m.

(** [fresh] is the id that would be drawn. *)
Definition extract_message_id (fresh : uuid) (m : ParsedMail) : string := default fresh (pm_message_id m).

Section Normalize.
Context {raw : Type} (parse : raw → option ParsedMail) (from_timestamp : Z → Z → option timestamp).

Definition extract_date (now : timestamp) (m : ParsedMail) : timestamp :=
  default now (pm_date m ≫= λ t, from_timestamp t 0).

(** The ids and the clock are read in turn. *)
Definition normalize_message (id source_fresh : uuid) (date_now now : timestamp) (bytes : raw) (source : string)
    : result Email string :=
  match parse bytes with
  | None => Err "failed to parse email message"
  | Some m =>
      let date := extract_date date_now m in
      Ok (mkEmail id (default "(no subject)" (pm_subject m)) (extract_from m) (extract_to m) (extract_cc m) []
            (extract_body_text m) (extract_body_html m) date (pm_message_id m) (extract_in_reply_to m)
            (extract_attachments m) None None [] source (extract_message_id source_fresh m) None date now)
  end.

(** The same message, read again, is the same but for the drawn id and the time of reading: with an identifier and a
    date it is recognised by its source id. *)
Theorem normalize_repeats id1 id2 s1 s2 d1 d2 n1 n2 bytes source m :
  parse bytes = Some m → is_Some (pm_message_id m) → is_Some (pm_date m ≫= λ t, from_timestamp t 0) →
  ∃ e1 e2, normalize_message id1 s1 d1 n1 bytes source = Ok e1 ∧ normalize_message id2 s2 d2 n2 bytes source = Ok e2 ∧
    em_source_id e1 = em_source_id e2 ∧ em_message_id e1 = Some (em_source_id e1) ∧
    e2 = mkEmail id2 (em_subject e1) (em_from e1) (em_to e1) (em_cc e1) (em_bcc e1) (em_body_text e1) (em_body_html e1)
           (em_date e1) (em_message_id e1) (em_in_reply_to e1) (em_attachments e1) (em_read e1) (em_starred e1) (em_labels e1)
           (em_source e1) (em_source_id e1) (em_extensions e1) (em_created_at e1) n2.
Proof.
  intros Hp [mid Hm] [t Ht]. unfold normalize_message, extract_message_id, extract_date. rewrite Hp. do 2 eexists.
  split; [done|]. split; [done|]. cbn. rewrite Hm, Ht. done.
Qed.

(** HTML that the parser made from plain text is not kept, and no recipient is lost. *)
Theorem normalize_faithful id s d n bytes source e :
  normalize_message id s d n bytes source = Ok e →
  ∃ m, parse bytes = Some m ∧
    (em_body_html e ≠ None → Exists (λ ct, ct = Some ("text", Some "html")) (pm_parts m)) ∧
    length (em_to e) = length (default [] (pm_to m)) ∧ length (em_attachments e) = length (pm_attachments m).
Proof.
  unfold normalize_message. destruct (parse bytes) as [m|] eqn:Hp; [|done]. intros [= <-]. exists m. split; [done|]. cbn. split_and!.
  - unfold extract_body_html. destruct (existsb is_html (pm_parts m)) eqn:E; [|done]. intros _.
    apply existsb_exists in E as (ct & Hin & Hc). apply Exists_exists. exists ct. split; [by apply list_elem_of_In|].
    destruct ct as [[main sub]|]; [|done]. cbn in Hc. apply andb_true_iff in Hc as [H1%bool_decide_eq_true H2%bool_decide_eq_true].
    by subst.
  - unfold extract_to. destruct (pm_to m); cbn; [by rewrite length_fmap|done].
  - unfold extract_attachments. by rewrite length_fmap.
Qed.
End Normalize.

End Mail.

(** ** Which messages are fetched *)

Module Imap.

Record MailboxSyncState : Type := mkMailbox {
  mb_uid_validity : Z;
  mb_last_uid : Z;
}.

(** Messages with their number; the bytes are of any type. *)
Record FetchedMessage (A : Type) : Type := mkFetched { fe_uid : Z; fe_raw : A }.
Arguments mkFetched {A} _ _.
Arguments fe_uid {A} _.
Arguments fe_raw {A} _.

Abbreviation sync_states := (gmap string MailboxSyncState) (only parsing).

(** The number to start at, and whether everything is read again; [None] is the overflow of the last number. *)
Definition compute_start_uid (mailbox : string) (uid_validity : Z) (states : sync_states) : option (Z * bool) :=
  match states !! mailbox with
  | Some st =>
      if (mb_uid_validity st =? uid_validity)%Z && (0 <? mb_last_uid st)%Z then
        if (mb_last_uid st =? u32_max)%Z then None else Some (mb_last_uid st + 1, false)%Z
      else Some (1, true)%Z
  | None => Some (1, false)%Z
  end.

Definition update_sync_state (mailbox : string) (uid_validity last_uid : Z) (states : sync_states) : sync_states :=
  <[mailbox := mkMailbox uid_validity last_uid]> states.

Definition process_fetched {A} (start_uid : Z) (fetches : list (Z * A)) : list (FetchedMessage A) * Z :=
  foldl (λ acc f, if (f.1 <? start_uid)%Z then acc
                  else (acc.1 ++ [mkFetched f.1 f.2], if (acc.2 <? f.1)%Z then f.1 else acc.2))
    ([], Z.max 0 (start_uid - 1)) fetches.

(** The messages of a fetch, and the highest number, as one pass over the list gives them. *)
Lemma process_fetched_spec {A} start (fetches : list (Z * A)) :
  process_fetched start fetches
  = ((λ f, mkFetched f.1 f.2) <$> filter (λ f, start ≤ f.1)%Z fetches,
     foldl Z.max (Z.max 0 (start - 1)) (filter (λ f, start ≤ f.1)%Z fetches).*1).
Proof.
  unfold process_fetched. assert (∀ acc,
    foldl (λ acc f, if (f.1 <? start)%Z then acc else (acc.1 ++ [mkFetched f.1 f.2], if (acc.2 <? f.1)%Z then f.1 else acc.2))
      acc fetches
    = (acc.1 ++ ((λ f, mkFetched f.1 f.2) <$> filter (λ f, start ≤ f.1)%Z fetches),
       foldl Z.max acc.2 (filter (λ f, start ≤ f.1)%Z fetches).*1)) as ->; [|done].
  induction fetches as [|f rest IH]; intros [ms top]; [by rewrite app_nil_r|]. cbn [foldl].
  destruct (Z.ltb_spec f.1 start) as [Hf|Hf].
  - rewrite IH, filter_cons_False by lia. done.
  - rewrite IH, filter_cons_True by lia. cbn [fst snd fmap list_fmap foldl]. rewrite <- app_assoc. cbn [app]. do 2 f_equal.
    destruct (Z.ltb_spec top f.1); lia.
Qed.

Lemma fold_max_le top xs x : (top ≤ x)%Z → Forall (λ y, y ≤ x)%Z xs → (foldl Z.max top xs ≤ x)%Z.
Proof. revert top. induction xs as [|y xs IH]; intros top Ht Hx; [done|]. apply Forall_cons in Hx as [? ?]. apply IH; [lia|done]. Qed.

Lemma fold_max_ge top xs : (top ≤ foldl Z.max top xs)%Z ∧ Forall (λ y, y ≤ foldl Z.max top xs)%Z xs.
Proof.
  revert top. induction xs as [|y xs IH]; intros top; cbn; [split; [lia|constructor]|].
  destruct (IH (Z.max top y)) as [H1 H2]. split; [lia|]. constructor; [lia|done].
Qed.

(** Two synchronisations of a mailbox whose validity stays. Messages get ascending numbers from one on: the first reads
    those that are there, the second exactly the ones that came since. *)
Theorem imap_incremental {A} mailbox validity states (old later : list (Z * A)) start full messages top :
  old ≠ [] → Forall (λ f, 0 < f.1 < u32_max)%Z old → Forall (λ f, Forall (λ g, g.1 < f.1)%Z old) later →
  compute_start_uid mailbox validity states = Some (start, full) → (1 ≤ start)%Z → Exists (λ f, start ≤ f.1)%Z old →
  process_fetched start old = (messages, top) →
  let states' := update_sync_state mailbox validity top states in
  ∃ start', compute_start_uid mailbox validity states' = Some (start', false) ∧
    messages = ((λ f, mkFetched f.1 f.2) <$> filter (λ f, start ≤ f.1)%Z old) ∧
    (process_fetched start' (old ++ later)).1 = ((λ f, mkFetched f.1 f.2) <$> later).
Proof.
  intros _ Hold Hlater _ Hs Hex Hp. rewrite process_fetched_spec in Hp. injection Hp as <- Htop.
  destruct (fold_max_ge (Z.max 0 (start - 1)) (filter (λ f, start ≤ f.1)%Z old).*1) as [Hge Hall]. rewrite Htop in Hge, Hall.
  assert (Forall (λ f, f.1 ≤ top)%Z old) as Hle.
  { apply Forall_forall. intros f Hf. destruct (decide (start ≤ f.1)%Z) as [Hsf|Hsf]; [|lia].
    eapply Forall_forall in Hall; [exact Hall|]. apply list_elem_of_fmap_2, list_elem_of_filter. done. }
  assert (∃ f, f ∈ old ∧ (top ≤ f.1)%Z) as (f & Hf & Htf).
  { apply Exists_exists in Hex as (g & Hg & Hgs).
    assert (top ∈ (filter (λ f, start ≤ f.1)%Z old).*1) as Hin.
    { rewrite <- Htop. clear -Hg Hgs Hs. assert (∀ xs z, (z < start)%Z → Forall (λ y, start ≤ y)%Z xs → xs ≠ [] → foldl Z.max z xs ∈ xs) as Hm.
      { intros xs. induction xs as [|y xs IH] using rev_ind; intros z Hz Hx Hne; [done|]. rewrite foldl_app. cbn.
        apply Forall_app in Hx as [Hx Hy]. apply Forall_cons in Hy as [Hy _]. apply elem_of_app.
        destruct xs as [|x xs']; [right; cbn; rewrite Z.max_r by lia; left|].
        specialize (IH z Hz Hx ltac:(done)). destruct (Z.max_spec (foldl Z.max z (x :: xs')) y) as [[_ ->]|[_ ->]]; [right; left|by left]. }
      apply Hm; [lia| |].
      - apply Forall_fmap, Forall_forall. intros x [Hx _]%list_elem_of_filter. done.
      - intros E. apply fmap_nil_inv in E. assert (g ∈ filter (λ f, start ≤ f.1)%Z old) as Hi by (by apply list_elem_of_filter).
        rewrite E in Hi. by apply not_elem_of_nil in Hi. }
    apply list_elem_of_fmap in Hin as (f & -> & [_ Hin]%list_elem_of_filter). exists f. split; [done|lia]. }
  pose proof (proj1 (Forall_forall _ _) Hold f Hf) as Hrange. cbn in Hrange. pose proof (proj1 (Forall_forall _ _) Hle f Hf) as Hft. cbn in Hft.
  exists (top + 1)%Z. unfold compute_start_uid, update_sync_state. rewrite lookup_insert_eq. cbn [mb_uid_validity mb_last_uid].
  rewrite Z.eqb_refl, (proj2 (Z.ltb_lt 0 top)) by lia. cbn [andb]. rewrite (proj2 (Z.eqb_neq top u32_max)) by lia. split; [done|].
  split; [done|]. rewrite process_fetched_spec. cbn [fst]. rewrite filter_app.
  assert (filter (λ f, top + 1 ≤ f.1)%Z old = []) as ->.
  { clear -Hle. induction Hle as [|g gs Hg _ IH]; [done|]. by rewrite filter_cons_False by lia. }
  assert (filter (λ f, top + 1 ≤ f.1)%Z later = later) as ->; [|done].
  assert (Forall (λ g, top + 1 ≤ g.1)%Z later) as Hl.
  { eapply Forall_impl; [exact Hlater|]. intros g Hg. eapply Forall_forall in Hg; [|exact Hf]. cbn in Hg. lia. }
  clear -Hl. induction Hl as [|g gs Hg _ IH]; [done|]. by rewrite filter_cons_True, IH by lia.
Qed.

(** A mailbox that was empty at its first synchronisation is read as if its validity had changed. *)
Example empty_mailbox_resyncs :
  compute_start_uid "inbox" 7 (update_sync_state "inbox" 7 (process_fetched 1 (@nil (Z * unit))).2 ∅) = Some (1, true)%Z.
Proof. vm_compute. reflexivity. Qed.

End Imap.

(** ** The mail plugin *)

Module EmailPlugin.
Import Retry.

Section Plugin.
(** the clients once configured: the settings, and a cached connection with its password *)
Context {ImapConfig SmtpConfig : Type}.

Record SmtpClient : Type := mkSmtp { sm_config : SmtpConfig; sm_transport : option string }.

Record EmailConnectorPlugin : Type := mkEmailPlugin {
  ep_imap : option (ImapConfig * Imap.sync_states);
  ep_smtp : option SmtpClient;
  ep_sync_interval : Z;
  ep_last_sync : option timestamp;
  ep_retry : RetryState;
  ep_next_retry : option timestamp;
}.

Definition SECOND : Z := 1000000000.

Definition with_sync_interval (interval : Z) : EmailConnectorPlugin := mkEmailPlugin None None interval None new_retry None.

Definition new : EmailConnectorPlugin := with_sync_interval 300.

Definition configure_imap (c : ImapConfig) (p : EmailConnectorPlugin) : EmailConnectorPlugin :=
  mkEmailPlugin (Some (c, ∅)) (ep_smtp p) (ep_sync_interval p) (ep_last_sync p) (ep_retry p) (ep_next_retry p).

Definition configure_smtp (c : SmtpConfig) (p : EmailConnectorPlugin) : EmailConnectorPlugin :=
  mkEmailPlugin (ep_imap p) (Some (mkSmtp c None)) (ep_sync_interval p) (ep_last_sync p) (ep_retry p) (ep_next_retry p).

Definition record_sync_success (now : timestamp) (p : EmailConnectorPlugin) : EmailConnectorPlugin :=
  mkEmailPlugin (ep_imap p) (ep_smtp p) (ep_sync_interval p) (Some now) (record_success (ep_retry p)) None.

Definition record_sync_failure (now : timestamp) (p : EmailConnectorPlugin) : EmailConnectorPlugin :=
  let '(backoff, retry) := record_failure (ep_retry p) in
  mkEmailPlugin (ep_imap p) (ep_smtp p) (ep_sync_interval p) (ep_last_sync p) retry (Some (now + backoff * SECOND)%Z).

Definition can_sync_now (now : timestamp) (p : EmailConnectorPlugin) : bool :=
  match ep_next_retry p with
  | Some retry_at => (retry_at <=? now)%Z
  | None => true
  end.

Definition on_unload (p : EmailConnectorPlugin) : EmailConnectorPlugin :=
  mkEmailPlugin None None (ep_sync_interval p) None new_retry None.

(** The connection is made with the first password that is given; [relay] is whether it can be set up. *)
Definition get_or_create_transport (relay : result unit string) (password : string) (c : SmtpClient)
    : result string string * SmtpClient :=
  match sm_transport c with
  | Some t => (Ok t, c)
  | None =>
      match relay with
      | Err e => (Err ("failed to create SMTP relay: " +:+ e), c)
      | Ok _ => (Ok password, mkSmtp (sm_config c) (Some password))
      end
  end.

(** [parses] tells whether lettre takes an address, [built] whether it takes the message, and [sends] whether the server
    does, over a connection with a password. *)
Definition send (parses : string → result unit string) (built relay : result unit string) (sends : string → result unit string)
    (from : string) (to : list string) (password : string) (c : SmtpClient) : result unit string * SmtpClient :=
  match to with
  | [] => (Err "at least one recipient is required", c)
  | _ =>
      match (let? _ := result_map_err (λ e, "invalid from address: " +:+ e) (parses from) in
             let? _ := try_map (λ r, result_map_err (λ e, "invalid recipient address: " +:+ e) (parses r)) to in
             result_map_err (λ e, "failed to build email message: " +:+ e) built) with
      | Err e => (Err e, c)
      | Ok _ =>
          match get_or_create_transport relay password c with
          | (Err e, c') => (Err e, c')
          | (Ok used, c') => (result_map_err (λ e, "failed to send email: " +:+ e) (sends used), c')
          end
      end
  end.

Fixpoint fail_at (times : list timestamp) (p : EmailConnectorPlugin) : EmailConnectorPlugin :=
  match times with [] => p | t :: ts => fail_at ts (record_sync_failure t p) end.

Lemma fail_at_retry ts p :
  (0 ≤ failure_count (ep_retry p))%Z → (failure_count (ep_retry p) + Z.of_nat (length ts) < u32_max)%Z →
  ep_retry (fail_at ts p) = set_failures (failure_count (ep_retry p) + Z.of_nat (length ts)) (ep_retry p) ∧
  ep_last_sync (fail_at ts p) = ep_last_sync p.
Proof.
  revert p. induction ts as [|t ts IH]; intros p H0 Hl; cbn [fail_at length] in *.
  - cbn. rewrite Z.add_0_r. by destruct p as [im sm iv la [] ne].
  - destruct (IH (record_sync_failure t p)) as [E1 E2];
      [cbn [record_sync_failure record_failure ep_retry set_failures failure_count]; lia..|].
    rewrite E1, E2. cbn [record_sync_failure record_failure ep_retry set_failures failure_count ep_last_sync]. split; [|done].
    unfold set_failures. cbn. f_equal. lia.
Qed.

(** After a success, the nth failure in a row closes synchronisation for a minute, doubled each time, an hour at most,
    and it opens then; a success opens it at once. *)
Theorem mail_backoff p t0 ts t :
  (Z.of_nat (length ts) + 1 < u32_max)%Z → jitter (ep_retry p) = false →
  backoff_min_secs (ep_retry p) = 60%Z → backoff_max_secs (ep_retry p) = 3600%Z →
  let wait := Z.min (60 * 2 ^ Z.min (Z.of_nat (length ts)) 31) 3600 in
  let p' := record_sync_failure t (fail_at ts (record_sync_success t0 p)) in
  ep_next_retry p' = Some (t + wait * SECOND)%Z ∧
  (∀ now, can_sync_now now p' = (t + wait * SECOND <=? now)%Z) ∧
  ep_last_sync p' = Some t0 ∧ can_sync_now t (record_sync_success t p') = true.
Proof.
  intros Hl Hj Hmin Hmax wait p'. destruct (fail_at_retry ts (record_sync_success t0 p)) as [E1 E2]; [cbn; lia..|]. cbn in E1, E2.
  assert (ep_next_retry p' = Some (t + wait * SECOND)%Z) as Hn.
  { unfold p', record_sync_failure, record_failure. rewrite E1. cbn. do 2 f_equal. f_equal. unfold compute_backoff. cbn.
    rewrite (Z.min_r u32_max) by lia. rewrite (proj2 (Z.eqb_neq _ 0)) by lia. rewrite Hj. cbn [andb].
    rewrite Hmin, Hmax. replace (0 + Z.of_nat (length ts) + 1 - 1)%Z with (Z.of_nat (length ts)) by lia.
    rewrite Z.shiftl_mul_pow2, Z.mul_1_l by lia. unfold wait.
    assert (2 ^ Z.min (Z.of_nat (length ts)) 31 ≤ 2 ^ 31)%Z by (apply Z.pow_le_mono_r; lia).
    rewrite (Z.min_r F64.u64_max); [done|]. unfold F64.u64_max. lia. }
  split; [done|]. split; [intros now; unfold can_sync_now; by rewrite Hn|]. split; [|done].
  unfold p', record_sync_failure. destruct (record_failure _). cbn. by rewrite E2.
Qed.

(** Once a message was sent, later ones go out with the password of the first, whatever they give. *)
Theorem first_password_stays parses built relay sends from to p1 p2 c c' :
  sm_transport c = None → send parses built relay sends from to p1 c = (Ok tt, c') →
  ∀ parses' built' relay' sends' from' to' c'' r,
    send parses' built' relay' sends' from' to' p2 c' = (r, c'') → c'' = c' ∧ (sends' p1 = Ok tt ∨ r ≠ Ok tt).
Proof.
  intros Hc Hs. assert (sm_transport c' = Some p1) as Hc'.
  { unfold send, get_or_create_transport in Hs. rewrite Hc in Hs. destruct to; [done|]. destruct (result_bind _ _); [|done].
    destruct relay; [|done]. by simplify_eq. }
  intros parses' built' relay' sends' from' to' c'' r. unfold send, get_or_create_transport. rewrite Hc'.
  destruct to'; [intros [= <- <-]; by split; [|right]|]. destruct (result_bind _ _); intros [= <- <-]; (split; [done|]); [|by right].
  destruct (sends' p1) as [[]|e]; [by left|by right].
Qed.
End Plugin.

End EmailPlugin.
